(* ===== verification/_CoqProject ===== *)
-Q . S2P
Prelude.v
CStr.v
Caches.v
Lisp.v
Feature.v
Sentence.v
Units.v
Bunsetsu.v
SemCode.v
CheckFunction.v
Quote.v
Regexp.v
Similarity.v
PredCase.v
ChangeMrph.v
Rules.v
RuleFrame.v
RuleLoops.v
Merge.v
Thesaurus.v
Double.v
Rounding.v
CaseData.v
CaseMatch.v
CaseScore.v
CaseSim.v
CaseBest.v
Tables.v
Lattice.v
CharLattice.v
Juman.v
ConnectCache.v
JumanDic.v
Viterbi.v
JumanSent.v
JumanTerm.v
Pat.v
PatBits.v
PatTree.v
PatPrefix.v
PatInsert.v
PatFile.v
PatDic.v
Koou.v
ParaAnalysis.v
ParaRelation.v
ParaDpnd.v
Tree.v
Coord.v
Dpnd.v
RuleFile.v
ReadMrph.v
ReadLaws.v
TagDpnd.v
TagTree.v
MrphDpnd.v
Cky.v
Frame.v
Main.v
