(* ===== verification/Prelude.v ===== *)
(** * KNP and JUMAN: morphemes, coordinations, dependencies

    KNP (src/system) is a parser of Japanese, JUMAN (src/juman) the analyser of
    morphemes in front of it.  This development models the part of both that
    decides the analysis of a sentence, and the readers of the files that drive it.

    ** The program

    JUMAN looks the words of a text up in its dictionaries, keeps them in a lattice and
    prints the cheapest path.  KNP reads that output ([read_mrph]), joins morphemes
    ([preprocess_mrph]), gives them features by rules ([assign_general_feature]),
    groups them into bunsetsus and those into basic phrases, the tags ([make_bunsetsu],
    [make_tag_units]), fills a matrix of possible dependencies
    ([calc_dpnd_matrix], then [koou], [quote], [relax_dpnd_matrix]), finds the scopes of the
    coordinations by dynamic programming ([detect_all_para_scope]), makes them fit each other
    ([detect_para_relation], [check_dpnd_in_para]), and searches the best structure, with a
    chart parser ([cky], the default) or by enumeration ([decide_dpnd]).  The structure is
    stored in the bunsetsus, carried over to the tags and the morphemes ([dpnd_info_to_tag],
    [dpnd_info_to_mrph]), and turned into trees ([make_dpnd_tree], [bnst_to_tag_tree],
    [bnst_to_mrph_tree]).  Every phase works on one SENTENCE_DATA and on global matrices.

    ** Conventions

    A C function is a Rocq function of the state it reads to a [res]: its value and the state it
    leaves, or what ended it ([err]).  A pointer into an array is an index, an array a total function
    ([array], [matrix]) whose bounds the definitions check where the code can leave them;
    a C string is the [string] of its bytes before the NUL, in UTF-8; an [int] is a [Z], with
    [IntOverflow] where the code can leave its range.  A FEATURE list is a list of strings.
    The static buffers that make one call depend on the one before ([feature_buffer], [matched_ptr],
    the buffer of [sm2code]) are part of the state.  Data bases, regular expressions and the
    double array are outside the repository: they are methods of classes ([SemDB], [CheckEnv],
    [CaseEnv], [RuleEnv], [WordSim], ...).  A loop whose end is not structural has fuel.

    ** The files

    Common to both programs.
    - Prelude: results, arrays, loops, generic lemmas, tactics.
    - CStr: C strings, string.h, stdlib.h, [string_length] of tools.c.
    - Lisp: juman/lib/lisp.c, the S-expressions all tables are written in.
    - Tables: juman/lib/grammar.c, katuyou.c, getid.c, the tables of parts of speech and conjugations.

    Features and rules of KNP.
    - Feature: feature.c, the lists and the patterns; CheckFunction: [check_function] and the tests of
      patterns; SemCode: the comparison of semantic codes (case_match.c, lib_sm.c, lib_bgh.c,
      bnst_compare.c); Regexp: regexp.c, patterns on runs of morphemes, bunsetsus and tags.
    - PredCase: predicates and their surface cases (lib_scase.c, case_data.c, case_ipal.c);
      ChangeMrph: changes of morphemes (read_data.c); Rules: [assign_feature] and the loops of
      [assign_general_feature]; RuleFrame: what rules leave alone; RuleLoops: what the loops do.
    - RuleFile: read_rule.c, the readers of the rule files.

    The sentence before the analysis.
    - Sentence: the structures of const.h; ReadMrph and ReadLaws: [read_mrph] and its counterpart
      [print_mrphs_only] (lib_print.c); Merge: [preprocess_mrph]; Bunsetsu: [make_bunsetsu],
      [make_tag_units]; Units: what it means that the units stay where they are.
    - Thesaurus: the semantic codes of bunsetsus and tags (thesaurus.c, lib_sm.c, lib_bgh.c); Caches: the
      hash tables of lib_sm.c, case_analysis.c and case_ipal.c, on finite maps.

    The structure.
    - Koou: koou.c; Quote: quote.c; Similarity: [calc_match] (bnst_compare.c, thesaurus.c).
    - ParaAnalysis: para_analysis.c, keys and scopes; ParaRelation: para_relation.c, para_revision.c,
      the managers; ParaDpnd: para_dpnd.c; Coord: the loop of [one_sentence_analysis] around them.
    - Dpnd: dpnd_analysis.c, rules, matrix, [decide_dpnd]; Cky: cky.c; Tree: tree_conv.c.
    - Frame: what each phase leaves alone; Main: the composition, with [para_recovery].
    - TagDpnd, MrphDpnd: [dpnd_info_to_tag], [dpnd_info_to_mrph]; TagTree: the trees of tags and morphemes.

    Case frames (case_match.c, case_analysis.c).
    - Double: IEEE arithmetic; Rounding: that a product of at most seven is rounded below eight; CaseData: the structures; CaseMatch: [case_frame_match], the search for
      correspondences and their evaluation; CaseScore: [elmnt_match_score];
      CaseSim: [calc_similarity], words by their codes; CaseBest: [find_best_cf] and
      [get_closest_case_component].

    JUMAN.
    - Lattice: the lattice (juman_lib.c, connect.c); CharLattice: the lattice of characters and the walk
      through the dictionary (darts_for_juman.cc); Juman: the loop [juman_sent]; ConnectCache: the cache of connections;
      JumanDic: the lines that makeint/trans.c writes; Viterbi, JumanSent, JumanTerm: what [juman_sent] finds, and that it ends.
    - Pat: the Patricia dictionary (pat.c, patfile.c, makepat.c), nodes linked by index; PatBits: keys as bits; PatTree:
      the tree in the nodes and its invariant; PatPrefix, PatInsert, PatFile: the search for prefixes, insertion,
      the file; PatDic: from the lines of a dictionary to what the searches find.

    ** The theorems

    - Main: for rules whose dependencies go to the right, and when bunsetsus follow earlier ones only (係:無格従属), an
      analysis that returns gives every bunsetsu but the last a governor to its right (without crossings for the chart parser
      when no bunsetsu follows another one), and with fixed coordinations a tree, as far as the tables have room for it.
      It composes the theorems on the parsers (Cky, Dpnd: sound, best of what is searched, complete up
      to the size of the table), on the coordinations (ParaAnalysis: the dynamic programming is optimal;
      ParaRelation, ParaDpnd: managers, masks and revisions; Coord: the loop ends) and Tree.
    - TagDpnd, MrphDpnd, TagTree: the structures of tags and morphemes are trees
      over the one of the bunsetsus, and the two ways to compute them agree.
    - JumanSent, JumanTerm, ConnectCache: the best path covers the sentence and is the cheapest, the analysis ends on every
      input, the cache of connections is transparent at one place for words that are not brackets or blanks.
    - PatDic: the tree, built or written and read again, finds exactly the lines of a key and of all prefixes of a text.
    - Bunsetsu, Quote, ReadLaws, Merge: partitions, laminar brackets, framing and numbering of sentences;
      joining morphemes keeps the text.  In the server mode sentences can be lost ([ReadLaws.server_sentence_lost]).
    - CaseMatch, CaseScore, CaseBest: the search evaluates exactly the complete correspondences, keeps the best ones,
      and the frames of a predicate are kept in the order of their scores; a score by examples is from 0 to 12.
    - CaseSim: the similarity of codes is between 0 and 1, and the index made of it is in the table.
    - Thesaurus, Caches: the codes of a unit are those of its longest known run of words; the tables refine finite maps.
    - Regexp, RuleLoops: the matcher decides the language of a pattern; the rules end, with the tests of the program, as long as
      the walks along the coordination nodes do ([coordinations_end]); rules on words alone do not depend on order, mode and direction.
    - Lisp, RuleFile, Tables, JumanDic, ReadLaws: what is printed is read back.
    - PredCase, ChangeMrph: bounds of tables and buffers.

    A theorem with hypotheses is followed by a witness, its use on a concrete input.

    ** Fuel and bounds

    The constants ([BNST_MAX], [MRPH_MAX], [WORD_LEN_MAX], ...) are those of const.h.  The fuel of a
    loop over a text is its length, of a loop over units their number, of the search for correspondences the number of
    elements and one, of the rule loops an argument
    ([RuleLoops.general_rules_end] gives the amount; one more than the units).  [JumanTerm.juman_sent_terminates],
    [Coord.coordination_ends] and [ReadLaws.read_mrph_frames] state that the fuel is enough for the large loops;
    the lemmas [*_no_fuel] and [*_ret] for the others.  Ways in a Patricia tree are bounded by the
    greatest short ([short_steps]).  [top_tag] and [top_mrph] of TagTree climb at most as
    many links as there are nodes, and TagTree shows that they arrive on the trees of Tree.

    ** Not modelled

    - The rest of the case analysis (most of case_ipal.c, case_data.c, case_print.c): the case frame of the input, and the
      readers of case frames and of probabilities from data bases that are not in the repository.
      CaseMatch takes frames, probabilities and similarities of words as arguments.
      The analysis of Main is the program with OPT_DPND, which does not call it; TagDpnd takes case frames as arguments.
    - Anaphora, coreference and context (anaphora.c, context.c, corefer.c): behind the tree, over the
      same data bases and trained weights.
    - Named entities and classifiers (proper.c, crf/, svm/, svm_light/, lib_dt.c): wrappers of CRF++,
      TinySVM and SVM-light.
    - Data bases and similarities (db.c, cdb/, similarity.c, distsim/): input and output.
    - Chinese (OptChi*, the branches for CHINESE in cky.c, para_dpnd.c and dpnd_analysis.c) and English.
    - Options, sockets, PostScript and the printing of results (main.c, configfile.c, lib_print.c
      but [print_mrphs_only], lib_ps.c); analysed input with annotations ([read_annotation], [make_bunsetsu_pm]).
    - The double array (darts.h), a library, and the expansion of conjugations by the dictionary compiler of JUMAN. *)
From Stdlib Require Import ZArith List Bool String Ascii Lia Sorted.
Import ListNotations.

(** ** Results of C functions

    A C function of the program either returns, or ends the process
    ([exit], [my_exit]), or runs into undefined behaviour.  [OutOfFuel] marks a
    model that was given too little fuel; see the header for the loops for which it is
    shown to be enough. *)
Inductive err : Type :=
| ExitErr (code : Z)
| LispError
| ProgramError
| NullDeref
| OutOfBounds
| BadPointer
| IntOverflow
| OutOfFuel.

Inductive res (A : Type) : Type :=
| Ret (a : A)
| Err (e : err).
Arguments Ret {A} a.
Arguments Err {A} e.

Declare Scope knp_scope.
Delimit Scope knp_scope with knp.

Notation "x <- c1 ;; c2" :=
  (match c1 with Ret x => c2 | Err e => Err e end)
  (at level 62, c1 at next level, right associativity) : knp_scope.
Notation "' p <- c1 ;; c2" :=
  (match c1 with Ret p => c2 | Err e => Err e end)
  (at level 62, p pattern, c1 at next level, right associativity) : knp_scope.

#[global] Open Scope Z_scope.
#[global] Open Scope knp_scope.

Definition res_map {A B} (f : A -> B) (r : res A) : res B :=
  match r with Ret a => Ret (f a) | Err e => Err e end.

Definition is_ret {A} (r : res A) : bool :=
  match r with Ret _ => true | Err _ => false end.

(** The greatest value of a C int. *)
Definition INT_MAX : Z := 2147483647.

Definition is_int (n : Z) : bool := (- INT_MAX - 1 <=? n) && (n <=? INT_MAX).

(** ** Tactics of the development *)
Ltac inv H := inversion H; subst; clear H.

(** Case analysis on the condition or the scrutinee the goal is stuck on. *)
Ltac case_goal :=
  match goal with
  | |- context [if ?b then _ else _] => destruct b eqn:?
  | |- context [match ?x with _ => _ end] => destruct x eqn:?
  end.

Ltac case_hyp H :=
  match type of H with
  | context [if ?b then _ else _] => destruct b eqn:?
  | context [match ?x with _ => _ end] => destruct x eqn:?
  end.

(** Boolean integer tests to propositions, then linear arithmetic. *)
Ltac blia :=
  repeat match goal with
  | H : (_ && _)%bool = true |- _ => apply andb_true_iff in H; destruct H
  | H : (_ || _)%bool = false |- _ => apply orb_false_iff in H; destruct H
  | H : negb _ = true |- _ => apply negb_true_iff in H
  | H : negb _ = false |- _ => apply negb_false_iff in H
  end; lia.

Create HintDb knp discriminated.

(** ** Integer ranges: the C loop [for (i = lo; i < hi; i++)] *)
Fixpoint zseq (lo : Z) (n : nat) : list Z :=
  match n with
  | O => []
  | S n' => lo :: zseq (lo + 1) n'
  end.

Definition zrange (lo hi : Z) : list Z := zseq lo (Z.to_nat (hi - lo)).

Lemma in_zseq : forall n lo x, In x (zseq lo n) <-> lo <= x < lo + Z.of_nat n.
Proof.
  induction n as [|n IH]; intros lo x; cbn [zseq In].
  - lia.
  - rewrite IH. lia.
Qed.

Lemma in_zrange : forall lo hi x, In x (zrange lo hi) <-> lo <= x < hi.
Proof. intros. unfold zrange. rewrite in_zseq. lia. Qed.

Lemma zrange_nil : forall lo hi, hi <= lo -> zrange lo hi = [].
Proof. intros. unfold zrange. now replace (Z.to_nat (hi - lo)) with O by lia. Qed.

Lemma zrange_cons : forall lo hi, lo < hi -> zrange lo hi = lo :: zrange (lo + 1) hi.
Proof.
  intros. unfold zrange.
  replace (Z.to_nat (hi - lo)) with (S (Z.to_nat (hi - (lo + 1)))) by lia.
  reflexivity.
Qed.

Lemma zseq_snoc : forall n lo, zseq lo (S n) = zseq lo n ++ [lo + Z.of_nat n].
Proof.
  induction n as [|n IH]; intros lo.
  - cbn. now rewrite Z.add_0_r.
  - change (zseq lo (S (S n))) with (lo :: zseq (lo + 1) (S n)).
    rewrite IH. cbn [zseq app].
    now replace (lo + 1 + Z.of_nat n) with (lo + Z.of_nat (S n)) by lia.
Qed.

Lemma zrange_snoc : forall lo hi, lo < hi -> zrange lo hi = zrange lo (hi - 1) ++ [hi - 1].
Proof.
  intros. unfold zrange.
  replace (Z.to_nat (hi - lo)) with (S (Z.to_nat (hi - 1 - lo))) by lia.
  rewrite zseq_snoc.
  now replace (lo + Z.of_nat (Z.to_nat (hi - 1 - lo))) with (hi - 1) by lia.
Qed.

Lemma zrange_app : forall lo mid hi, lo <= mid <= hi ->
  zrange lo hi = zrange lo mid ++ zrange mid hi.
Proof.
  intros lo mid hi H. unfold zrange.
  remember (Z.to_nat (mid - lo)) as n eqn:En.
  revert lo H En. induction n as [|n IH]; intros lo H En.
  - replace mid with lo by lia. reflexivity.
  - replace (Z.to_nat (hi - lo)) with (S (Z.to_nat (hi - (lo + 1)))) by lia.
    cbn [zseq app]. f_equal. rewrite (IH (lo + 1)) by lia. reflexivity.
Qed.

Lemma length_zrange : forall lo hi, List.length (zrange lo hi) = Z.to_nat (hi - lo).
Proof.
  intros lo hi. unfold zrange. generalize (Z.to_nat (hi - lo)) as n. intros n. revert lo.
  induction n as [|n IH]; intros lo; cbn; auto.
Qed.

Lemma zrange_single : forall x, zrange x (x + 1) = [x].
Proof. intros. rewrite zrange_cons, zrange_nil by lia. reflexivity. Qed.

Lemma NoDup_zseq : forall n lo, NoDup (zseq lo n).
Proof.
  induction n as [|n IH]; intros lo; cbn; constructor; auto.
  rewrite in_zseq. lia.
Qed.

Lemma NoDup_zrange : forall lo hi, NoDup (zrange lo hi).
Proof. intros. apply NoDup_zseq. Qed.

#[export] Hint Resolve NoDup_zrange : knp.


(** ** Arrays and matrices

    A C array of the program is a total function on indices; the bounds of
    the arrays are hypotheses of the theorems that need them. *)
Definition array (A : Type) := Z -> A.
Definition matrix (A : Type) := Z -> Z -> A.

Definition aset {A} (a : array A) (i : Z) (v : A) : array A :=
  fun x => if x =? i then v else a x.

Definition mset {A} (m : matrix A) (i j : Z) (v : A) : matrix A :=
  fun x y => if (x =? i) && (y =? j) then v else m x y.

Lemma aset_eq : forall {A} (a : array A) i v, aset a i v i = v.
Proof. intros. unfold aset. now rewrite Z.eqb_refl. Qed.

Lemma aset_ne : forall {A} (a : array A) i j v, j <> i -> aset a i v j = a j.
Proof. intros. unfold aset. destruct (Z.eqb_spec j i); congruence. Qed.

Lemma mset_eq : forall {A} (m : matrix A) i j v, mset m i j v i j = v.
Proof. intros. unfold mset. now rewrite !Z.eqb_refl. Qed.

Lemma mset_ne : forall {A} (m : matrix A) i j v x y,
  (x <> i \/ y <> j) -> mset m i j v x y = m x y.
Proof.
  intros. unfold mset.
  destruct (Z.eqb_spec x i); destruct (Z.eqb_spec y j); cbn; auto; lia.
Qed.

(** Case analysis on the entries an array assignment changes. *)
Ltac aset_cases :=
  unfold aset in *;
  repeat match goal with
  | H : context [if ?x =? ?k then _ else _] |- _ => destruct (Z.eqb_spec x k); subst
  | |- context [if ?x =? ?k then _ else _] => destruct (Z.eqb_spec x k); subst
  end.

(** [for (i = lo; i < hi; i++) s = body(i, s)] *)
Definition for_up {S} (lo hi : Z) (body : Z -> S -> S) (s : S) : S :=
  fold_left (fun s i => body i s) (zrange lo hi) s.

(** [for (i = hi; i >= lo; i--) s = body(i, s)] *)
Definition for_down {S} (hi lo : Z) (body : Z -> S -> S) (s : S) : S :=
  fold_left (fun s i => body i s) (rev (zrange lo (hi + 1))) s.

(** The loop rule: an invariant indexed by the loop counter. *)
Lemma for_up_inv : forall {S} (P : Z -> S -> Prop) lo hi body (s : S),
  lo <= hi -> P lo s ->
  (forall i s, lo <= i < hi -> P i s -> P (i + 1) (body i s)) ->
  P hi (for_up lo hi body s).
Proof.
  intros S P lo hi body s Hle H0 Hstep. unfold for_up, zrange.
  remember (Z.to_nat (hi - lo)) as n eqn:En.
  revert lo s Hle H0 Hstep En. induction n as [|n IH]; intros lo s Hle H0 Hstep En.
  - replace hi with lo by lia. exact H0.
  - cbn [zseq fold_left]. apply IH; try lia.
    + apply Hstep; [lia | exact H0].
    + intros i s' Hi. apply Hstep. lia.
Qed.

Lemma for_up_empty : forall {S} lo hi body (s : S), hi <= lo -> for_up lo hi body s = s.
Proof. intros. unfold for_up. now rewrite zrange_nil by lia. Qed.

Lemma for_up_step : forall {S} lo hi body (s : S), lo < hi ->
  for_up lo hi body s = for_up (lo + 1) hi body (body lo s).
Proof. intros. unfold for_up. now rewrite zrange_cons by lia. Qed.

Lemma for_up_snoc : forall {S} lo hi body (s : S), lo < hi ->
  for_up lo hi body s = body (hi - 1) (for_up lo (hi - 1) body s).
Proof. intros. unfold for_up. rewrite zrange_snoc by lia. now rewrite fold_left_app. Qed.

Lemma for_down_inv : forall {S} (P : Z -> S -> Prop) hi lo body (s : S),
  lo <= hi + 1 -> P (hi + 1) s ->
  (forall i s, lo <= i <= hi -> P (i + 1) s -> P i (body i s)) ->
  P lo (for_down hi lo body s).
Proof.
  intros S P hi lo body s Hle H0 Hstep. unfold for_down, zrange.
  remember (Z.to_nat (hi + 1 - lo)) as n eqn:En.
  revert hi s Hle H0 Hstep En. induction n as [|n IH]; intros hi s Hle H0 Hstep En.
  - replace lo with (hi + 1) by lia. exact H0.
  - rewrite zseq_snoc, rev_app_distr. cbn [rev app fold_left].
    replace (lo + Z.of_nat n) with hi by lia.
    specialize (IH (hi - 1)). replace (hi - 1 + 1) with hi in IH by lia.
    apply IH; try lia.
    + apply Hstep; [lia | exact H0].
    + intros i s' Hi. apply Hstep. lia.
Qed.

Lemma for_down_empty : forall {S} hi lo body (s : S), hi < lo -> for_down hi lo body s = s.
Proof. intros. unfold for_down. now rewrite zrange_nil by lia. Qed.

Lemma for_down_step : forall {S} hi lo body (s : S), lo <= hi ->
  for_down hi lo body s = for_down (hi - 1) lo body (body hi s).
Proof.
  intros. unfold for_down. rewrite zrange_snoc by lia.
  rewrite rev_app_distr. cbn [rev app fold_left].
  now replace (hi + 1 - 1) with hi by lia; replace (hi - 1 + 1) with hi by lia.
Qed.

Lemma for_down_last : forall {S} hi lo body (s : S), lo <= hi ->
  for_down hi lo body s = body lo (for_down hi (lo + 1) body s).
Proof.
  intros. unfold for_down. rewrite (zrange_cons lo) by lia. cbn [rev].
  now rewrite fold_left_app.
Qed.

(** First element of a range that satisfies a test:
    [for (i = lo; i < hi; i++) if (p(i)) break;] *)
Definition find_up (lo hi : Z) (p : Z -> bool) : option Z := find p (zrange lo hi).

Lemma find_up_some : forall lo hi p i, find_up lo hi p = Some i ->
  lo <= i < hi /\ p i = true.
Proof.
  intros lo hi p i H. unfold find_up in H. apply find_some in H.
  rewrite in_zrange in H. exact H.
Qed.

Lemma find_up_none : forall lo hi p, find_up lo hi p = None ->
  forall i, lo <= i < hi -> p i = false.
Proof.
  intros lo hi p H i Hi. unfold find_up in H.
  apply (find_none _ _ H). now rewrite in_zrange.
Qed.

Lemma find_up_first : forall lo hi p i, find_up lo hi p = Some i ->
  forall j, lo <= j < i -> p j = false.
Proof.
  intros lo hi p i H j Hj. apply not_true_is_false. intros Hp.
  destruct (find_up_some _ _ _ _ H) as [Hi _]. unfold find_up in H.
  assert (G : forall l1 l2, In j l1 -> exists x, In x l1 /\ find p (l1 ++ l2) = Some x).
  { induction l1 as [|x l1 IH]; intros l2 Hin; [easy|]. cbn [find app]. destruct (p x) eqn:E.
    - exists x. split; [now left | reflexivity].
    - destruct Hin as [->|Hin]; [congruence|]. destruct (IH l2 Hin) as [y [H1 H2]].
      exists y. split; [now right | exact H2]. }
  rewrite (zrange_app lo i hi) in H by lia.
  destruct (G (zrange lo i) (zrange i hi)) as [x [Hx E]]; [apply in_zrange; lia|].
  apply in_zrange in Hx. rewrite E in H. injection H as ->. lia.
Qed.

(** ** Loops that overwrite a rectangle of a matrix

    [for (i = i0; i < i1; i++) for (j = j0; j < j1; j++) m[i][j] = v;] *)
Definition fill_row {A} (i j0 j1 : Z) (v : A) (m : matrix A) : matrix A :=
  for_up j0 j1 (fun j m => mset m i j v) m.

Definition fill_rect {A} (i0 i1 j0 j1 : Z) (v : A) (m : matrix A) : matrix A :=
  for_up i0 i1 (fun i m => fill_row i j0 j1 v m) m.

(** [lo <= x < hi] as a boolean *)
Definition within (lo x hi : Z) : bool := (lo <=? x) && (x <? hi).

Lemma within_spec : forall lo x hi, reflect (lo <= x < hi) (within lo x hi).
Proof.
  intros. apply iff_reflect. unfold within. rewrite andb_true_iff, Z.leb_le, Z.ltb_lt.
  reflexivity.
Qed.

Lemma within_true : forall lo x hi, lo <= x < hi -> within lo x hi = true.
Proof. intros. now destruct (within_spec lo x hi). Qed.

(** The pointwise effect of a loop whose [i]-th step only changes what [i] selects:
    each point is changed by at most one step, and by it as [upd] says. *)
Lemma for_up_pointwise : forall {S V P} (get : S -> P -> V) (sel : Z -> P -> bool)
    (upd : P -> V -> V) lo hi (body : Z -> S -> S) (s : S) (p : P),
  (forall i s, lo <= i < hi ->
     get (body i s) p = if sel i p then upd p (get s p) else get s p) ->
  (forall i j, lo <= i < hi -> lo <= j < hi -> sel i p = true -> sel j p = true -> i = j) ->
  get (for_up lo hi body s) p =
    if existsb (fun i => sel i p) (zrange lo hi) then upd p (get s p) else get s p.
Proof.
  intros S V P get sel upd lo hi body s p Hb Hu.
  destruct (Z.le_gt_cases hi lo) as [Hle|Hgt].
  { rewrite for_up_empty by lia. now rewrite zrange_nil by lia. }
  assert (G : forall k, lo <= k <= hi ->
    get (for_up lo k body s) p =
      if existsb (fun i => sel i p) (zrange lo k) then upd p (get s p) else get s p).
  { intros k Hk. replace k with (lo + Z.of_nat (Z.to_nat (k - lo))) in * by lia.
    revert Hk. generalize (Z.to_nat (k - lo)) as n. clear k.
    induction n as [|n IH]; intros Hk.
    - rewrite for_up_empty by lia. now rewrite zrange_nil by lia.
    - rewrite for_up_snoc, zrange_snoc by lia.
      replace (lo + Z.of_nat (Datatypes.S n) - 1) with (lo + Z.of_nat n) by lia.
      rewrite Hb, IH, existsb_app by lia. cbn [existsb].
      destruct (existsb _ (zrange lo (lo + Z.of_nat n))) eqn:E; cbn [orb].
      + destruct (sel (lo + Z.of_nat n) p) eqn:E2; auto.
        apply existsb_exists in E as [j [Hj E]]. apply in_zrange in Hj.
        assert (j = lo + Z.of_nat n) by (apply Hu; auto; lia). lia.
      + destruct (sel (lo + Z.of_nat n) p); reflexivity. }
  apply G. lia.
Qed.

Lemma existsb_ext : forall {A} (f g : A -> bool) l,
  (forall x, f x = g x) -> existsb f l = existsb g l.
Proof. intros A f g l H. induction l as [|x l IH]; cbn; congruence. Qed.

Lemma existsb_false : forall {A} (f : A -> bool) l,
  (forall x, In x l -> f x = false) -> existsb f l = false.
Proof.
  intros A f l H. apply not_true_is_false. intros E.
  apply existsb_exists in E as [x [Hx E]]. now rewrite H in E.
Qed.

Lemma existsb_zrange_eq : forall lo hi x, existsb (fun i => x =? i) (zrange lo hi) = within lo x hi.
Proof.
  intros. destruct (within_spec lo x hi) as [H|H].
  - apply existsb_exists. exists x. rewrite in_zrange, Z.eqb_refl. auto.
  - apply not_true_is_false. intros E. apply existsb_exists in E as [y [Hy E]].
    apply in_zrange in Hy. lia.
Qed.

Lemma fill_row_at : forall {A} i j0 j1 (v : A) m x y,
  fill_row i j0 j1 v m x y = if (x =? i) && within j0 y j1 then v else m x y.
Proof.
  intros. unfold fill_row.
  rewrite (for_up_pointwise (fun (m : matrix A) (p : Z * Z) => m (fst p) (snd p))
    (fun j p => (fst p =? i) && (snd p =? j)) (fun _ _ => v) j0 j1 _ m (x, y)); cbn [fst snd].
  - destruct (x =? i); cbn [andb].
    + now rewrite existsb_zrange_eq.
    + now rewrite existsb_false.
  - intros j s _. unfold mset. cbn. reflexivity.
  - intros a b _ _ Ha Hb. blia.
Qed.

Lemma fill_rect_at : forall {A} i0 i1 j0 j1 (v : A) m x y,
  fill_rect i0 i1 j0 j1 v m x y = if within i0 x i1 && within j0 y j1 then v else m x y.
Proof.
  intros. unfold fill_rect.
  rewrite (for_up_pointwise (fun (m : matrix A) (p : Z * Z) => m (fst p) (snd p))
    (fun i p => (fst p =? i) && within j0 (snd p) j1) (fun _ _ => v) i0 i1 _ m (x, y)); cbn [fst snd].
  - destruct (within j0 y j1).
    + rewrite andb_true_r. erewrite existsb_ext; [|intros; apply andb_true_r].
      now rewrite existsb_zrange_eq.
    + rewrite andb_false_r, existsb_false; auto. intros. apply andb_false_r.
  - intros i s _. apply fill_row_at.
  - intros a b _ _ Ha Hb. blia.
Qed.

(** A double loop that stores a value of its own at each place of a rectangle. *)
Lemma store_rect_at : forall {A} i0 i1 j0 j1 (f : Z -> Z -> A) m x y,
  for_up i0 i1 (fun i m => for_up j0 j1 (fun j m => mset m i j (f i j)) m) m x y =
    if within i0 x i1 && within j0 y j1 then f x y else m x y.
Proof.
  intros A i0 i1 j0 j1 f m x y.
  assert (R : forall i m, for_up j0 j1 (fun j m => mset m i j (f i j)) m x y =
    if (x =? i) && within j0 y j1 then f x y else m x y).
  { intros i m'. rewrite (for_up_pointwise (fun (m : matrix A) (p : Z * Z) => m (fst p) (snd p))
      (fun j p => (fst p =? i) && (snd p =? j)) (fun p _ => f (fst p) (snd p)) j0 j1 _ m' (x, y)).
    - cbn [fst snd]. destruct (Z.eqb_spec x i) as [->|Hne]; cbn [andb].
      + now rewrite existsb_zrange_eq.
      + now rewrite existsb_false by reflexivity.
    - intros j m0 _. cbn [fst snd]. unfold mset.
      destruct (Z.eqb_spec x i) as [->|]; destruct (Z.eqb_spec y j) as [->|]; reflexivity.
    - cbn [fst snd]. intros j k _ _ Hj Hk. blia. }
  rewrite (for_up_pointwise (fun (m : matrix A) (p : Z * Z) => m (fst p) (snd p))
    (fun i p => (fst p =? i) && within j0 (snd p) j1) (fun p _ => f (fst p) (snd p)) i0 i1 _ m (x, y)).
  - cbn [fst snd]. destruct (within j0 y j1).
    + rewrite andb_true_r. rewrite <- (existsb_zrange_eq i0 i1 x).
      erewrite existsb_ext; [reflexivity|]. intros. apply andb_true_r.
    + rewrite andb_false_r. rewrite existsb_false; [reflexivity|]. intros. apply andb_false_r.
  - intros i m0 _. cbn [fst snd]. apply R.
  - cbn [fst snd]. intros i k _ _ Hi Hk. blia.
Qed.

(** Two decompositions of a list with first parts of the same length. *)
Lemma app_prefix_eq : forall {A} (a b c d : list A), a ++ b = c ++ d ->
  List.length a = List.length c -> a = c.
Proof.
  intros A. induction a as [|x a IH]; intros b [|y c] d H L; cbn in *; try discriminate; auto.
  inv H. inv L. f_equal. eapply IH; eauto.
Qed.

(** ** Loops whose body may fail *)
Fixpoint fold_res {A S} (body : A -> S -> res S) (l : list A) (s : S) : res S :=
  match l with
  | [] => Ret s
  | a :: l' => s' <- body a s ;; fold_res body l' s'
  end.

Lemma fold_res_app : forall {A T} (body : A -> T -> res T) l1 l2 s,
  fold_res body (l1 ++ l2) s = (s' <- fold_res body l1 s ;; fold_res body l2 s').
Proof.
  intros A T body. induction l1 as [|a l1 IH]; intros l2 s; cbn; [now destruct (fold_res _ _ _)|].
  destruct (body a s); auto.
Qed.

(** The first element that passes a test that may fail; those behind it are not looked at. *)
Fixpoint some_res {A} (test : A -> res bool) (l : list A) : res bool :=
  match l with
  | [] => Ret false
  | a :: l' => b <- test a ;; if b then Ret true else some_res test l'
  end.

Lemma some_res_ret : forall {A} (test : A -> res bool) p l, (forall a, In a l -> test a = Ret (p a)) -> some_res test l = Ret (existsb p l).
Proof.
  intros A test p. induction l as [|a l IH]; intros H; [reflexivity|]. cbn [some_res existsb]. rewrite H by now left.
  destruct (p a); [reflexivity|]. apply IH. intros b Hb. apply H. now right.
Qed.

Definition for_res {S} (lo hi : Z) (body : Z -> S -> res S) (s : S) : res S :=
  fold_res body (zrange lo hi) s.

Lemma fold_res_pure : forall {A S} (body : A -> S -> res S) (f : A -> S -> S) l s,
  (forall a s, In a l -> body a s = Ret (f a s)) ->
  fold_res body l s = Ret (fold_left (fun s a => f a s) l s).
Proof.
  intros A S body f. induction l as [|a l IH]; intros s H; cbn; auto.
  rewrite H by now left. apply IH. intros. apply H. now right.
Qed.

Lemma for_res_pure : forall {S} lo hi (body : Z -> S -> res S) (f : Z -> S -> S) s,
  (forall i s, lo <= i < hi -> body i s = Ret (f i s)) ->
  for_res lo hi body s = Ret (for_up lo hi f s).
Proof.
  intros S lo hi body f s H. unfold for_res, for_up. apply fold_res_pure.
  intros a s' Ha. apply in_zrange in Ha. auto.
Qed.

Lemma fold_res_inv : forall {A S} (P : S -> Prop) (body : A -> S -> res S) l s s',
  (forall a s s', In a l -> P s -> body a s = Ret s' -> P s') ->
  P s -> fold_res body l s = Ret s' -> P s'.
Proof.
  intros A S P body. induction l as [|a l IH]; intros s s' H Hs E; cbn in E.
  - now inv E.
  - destruct (body a s) as [s1|] eqn:E1; [|discriminate].
    eapply IH; [| |exact E]; eauto using in_cons, in_eq.
Qed.

Lemma fold_res_total : forall {A S} (P : S -> Prop) (body : A -> S -> res S) l s,
  (forall a s, In a l -> P s -> exists s', body a s = Ret s' /\ P s') ->
  P s -> exists s', fold_res body l s = Ret s' /\ P s'.
Proof.
  intros A S P body. induction l as [|a l IH]; intros s H Hs; cbn; [eauto|].
  destruct (H a s) as [s1 [-> H1]]; [now left | auto |].
  apply IH; auto. intros. apply H; auto. now right.
Qed.

(** A loop with a step that always fails fails, whatever the steps before it do. *)
Lemma fold_res_err : forall {A S} (body : A -> S -> res S) e l s a,
  In a l -> (forall s, body a s = Err e) ->
  (forall a s, In a l -> (exists s', body a s = Ret s') \/ body a s = Err e) ->
  fold_res body l s = Err e.
Proof.
  intros A S body e. induction l as [|x l IH]; intros s a Ha He H; [easy|]. cbn.
  destruct (H x s (or_introl eq_refl)) as [[s' E]|E]; rewrite E; auto.
  destruct Ha as [->|Ha]; [rewrite He in E; discriminate|].
  apply (IH s' a); auto. intros. apply H. now right.
Qed.

(** Loops with an invariant that depends on the counter. *)
Lemma for_res_inv : forall {S} (P : Z -> S -> Prop) (body : Z -> S -> res S) lo hi s s', lo <= hi ->
  (forall i s s', lo <= i < hi -> P i s -> body i s = Ret s' -> P (i + 1) s') ->
  P lo s -> for_res lo hi body s = Ret s' -> P hi s'.
Proof.
  intros S P body lo hi s s' Hle H H0 E. unfold for_res, zrange in E.
  assert (G : forall n i s, lo <= i -> i + Z.of_nat n = hi -> P i s ->
    fold_res body (zseq i n) s = Ret s' -> P hi s').
  { clear s H0 E. induction n as [|n IH]; intros i s Hi Hn HP E; cbn [zseq fold_res] in E.
    - inv E. now replace (i + Z.of_nat 0) with i by lia.
    - destruct (body i s) as [s1|] eqn:E1; [|discriminate].
      apply (IH (i + 1) s1); auto; try lia. apply (H i s); auto. lia. }
  apply (G (Z.to_nat (hi - lo)) lo s); auto; lia.
Qed.

Lemma for_res_total : forall {S} (P : Z -> S -> Prop) (body : Z -> S -> res S) lo hi s, lo <= hi ->
  (forall i s, lo <= i < hi -> P i s -> exists s', body i s = Ret s' /\ P (i + 1) s') ->
  P lo s -> exists s', for_res lo hi body s = Ret s' /\ P hi s'.
Proof.
  intros S P body lo hi s Hle H H0. unfold for_res, zrange.
  assert (G : forall n i s, lo <= i -> i + Z.of_nat n = hi -> P i s ->
    exists s', fold_res body (zseq i n) s = Ret s' /\ P hi s').
  { clear s H0. induction n as [|n IH]; intros i s Hi Hn HP; cbn [zseq fold_res].
    - exists s. now replace hi with i by lia.
    - destruct (H i s ltac:(lia) HP) as [s1 [-> H1]]. apply IH; auto; lia. }
  apply G; auto; lia.
Qed.

(** A loop that may fail in one way only. *)
Lemma for_res_cases : forall {S} (P : Z -> S -> Prop) (Q : err -> Prop) (body : Z -> S -> res S) lo hi s, lo <= hi ->
  (forall i s, lo <= i < hi -> P i s ->
     (exists s', body i s = Ret s' /\ P (i + 1) s') \/ exists e, body i s = Err e /\ Q e) ->
  P lo s ->
  (exists s', for_res lo hi body s = Ret s' /\ P hi s') \/ exists e, for_res lo hi body s = Err e /\ Q e.
Proof.
  intros S P Q body lo hi s Hle H H0. unfold for_res, zrange.
  assert (G : forall n i s, lo <= i -> i + Z.of_nat n = hi -> P i s ->
    (exists s', fold_res body (zseq i n) s = Ret s' /\ P hi s') \/
    exists e, fold_res body (zseq i n) s = Err e /\ Q e).
  { clear s H0. induction n as [|n IH]; intros i s Hi Hn HP; cbn [zseq fold_res].
    - left. exists s. now replace hi with i by lia.
    - destruct (H i s ltac:(lia) HP) as [[s1 [-> H1]]|[e [-> HQ]]]; [apply IH; auto; lia|right; eauto]. }
  apply G; auto; lia.
Qed.

Lemma down_res_total : forall {S} (P : Z -> S -> Prop) (body : Z -> S -> res S) lo hi s, lo <= hi ->
  (forall i s, lo <= i < hi -> P (i + 1) s -> exists s', body i s = Ret s' /\ P i s') ->
  P hi s -> exists s', fold_res body (rev (zrange lo hi)) s = Ret s' /\ P lo s'.
Proof.
  intros S P body lo hi s Hle H H0. assert (Hd : 0 <= hi - lo) by lia. set (d := hi - lo) in *.
  replace hi with (lo + d) in * by lia. clearbody d. revert d Hd Hle H s H0.
  apply (natlike_ind (fun d => lo <= lo + d ->
    (forall i s, lo <= i < lo + d -> P (i + 1) s -> exists s', body i s = Ret s' /\ P i s') ->
    forall s, P (lo + d) s -> exists s', fold_res body (rev (zrange lo (lo + d))) s = Ret s' /\ P lo s')).
  - intros _ _ s H0. rewrite zrange_nil by lia. rewrite Z.add_0_r in H0. exists s. auto.
  - intros d Hd IH _ H s H0. rewrite zrange_snoc, rev_app_distr by lia. cbn [rev app fold_res].
    replace (lo + Z.succ d - 1) with (lo + d) by lia.
    destruct (H (lo + d) s) as (s1 & -> & H1); [lia | now replace (lo + d + 1) with (lo + Z.succ d) by lia|].
    apply IH; auto; [lia|]. intros i s' Hi. apply H. lia.
Qed.

Lemma down_res_inv : forall {S} (P : Z -> S -> Prop) (body : Z -> S -> res S) hi s s', -1 <= hi ->
  (forall i s s', 0 <= i <= hi -> P i s -> body i s = Ret s' -> P (i - 1) s') ->
  P hi s -> fold_res body (rev (zrange 0 (hi + 1))) s = Ret s' -> P (-1) s'.
Proof.
  intros S P body hi s s' Hhi H H0 E.
  assert (G : forall k i s, i = Z.of_nat k - 1 -> i <= hi -> P i s ->
    fold_res body (rev (zrange 0 (i + 1))) s = Ret s' -> P (-1) s').
  { clear s H0 E. induction k as [|k IH]; intros i s -> Hle HP E.
    - rewrite zrange_nil in E by lia. now inv E.
    - rewrite zrange_snoc, rev_app_distr in E by lia. cbn [rev app fold_res] in E.
      replace (Z.of_nat (Datatypes.S k) - 1 + 1 - 1) with (Z.of_nat k) in E by lia.
      replace (Z.of_nat (Datatypes.S k) - 1) with (Z.of_nat k) in * by lia.
      destruct (body (Z.of_nat k) s) as [s1|] eqn:E1; [|discriminate].
      apply (IH (Z.of_nat k - 1) s1); try lia; [apply (H (Z.of_nat k) s); auto; lia|].
      now replace (Z.of_nat k - 1 + 1) with (Z.of_nat k) by lia. }
  apply (G (Z.to_nat (hi + 1)) hi s); auto; lia.
Qed.

(** What one step establishes and every step keeps holds after the loop. *)
Lemma fold_left_reach : forall {A S} (f : S -> A -> S) (Q : S -> Prop) a l s,
  (forall x s, Q s -> Q (f s x)) -> In a l -> (forall s, Q (f s a)) -> Q (fold_left f l s).
Proof.
  intros A S f Q a l. induction l as [|x l IH]; intros s Hk Hin Ha; [destruct Hin|].
  cbn. destruct Hin as [->|Hin]; [|now apply IH].
  assert (G : forall m s0, Q s0 -> Q (fold_left f m s0)).
  { induction m as [|y m IHm]; cbn; auto. }
  apply G, Ha.
Qed.

Lemma fold_left_inv : forall {A S} (f : S -> A -> S) (P : S -> Prop) l s,
  (forall x s, In x l -> P s -> P (f s x)) -> P s -> P (fold_left f l s).
Proof.
  intros A S f P. induction l as [|x l IH]; intros s Hk Hs; cbn; auto.
  apply IH; [|apply Hk; [now left | auto]]. intros. apply Hk; auto. now right.
Qed.

(** ** Lengths, membership and lists without repetitions *)

Definition zlen {A} (l : list A) : Z := Z.of_nat (List.length l).

Definition inb (x : Z) (l : list Z) : bool := existsb (Z.eqb x) l.

Lemma inb_spec : forall x l, reflect (In x l) (inb x l).
Proof.
  intros x l. unfold inb. apply iff_reflect. rewrite existsb_exists. split.
  - intros H. exists x. now rewrite Z.eqb_refl.
  - intros [y [Hy E]]. apply Z.eqb_eq in E. now subst.
Qed.

Lemma zlen_app : forall {A} (l1 l2 : list A), zlen (l1 ++ l2) = zlen l1 + zlen l2.
Proof. intros. unfold zlen. rewrite length_app. lia. Qed.

Lemma zlen_pos : forall {A} (l : list A), 0 <= zlen l.
Proof. intros. unfold zlen. lia. Qed.

Lemma zlen_cons : forall {A} (x : A) l, zlen (x :: l) = zlen l + 1.
Proof. intros. unfold zlen. cbn [List.length]. lia. Qed.

Lemma NoDup_app_sep : forall {A} (l1 l2 : list A) x, NoDup (l1 ++ l2) -> In x l1 -> ~ In x l2.
Proof.
  intros A. induction l1 as [|y l1 IH]; intros l2 x ND H1 H2; [destruct H1|]. cbn [app] in ND. inversion ND as [|? ? HN ND'].
  destruct H1 as [->|H1]; [|now apply (IH l2 x)]. apply HN, in_or_app. now right.
Qed.

Lemma StronglySorted_filter : forall {A} (R : A -> A -> Prop) p l, StronglySorted R l -> StronglySorted R (filter p l).
Proof.
  intros A R p. induction l as [|x l IH]; intros H; cbn [filter]; [constructor|]. inversion H as [|? ? H1 H2]. subst.
  destruct (p x); auto. constructor; auto. rewrite Forall_forall in *. intros y Hy. apply filter_In in Hy as [Hy _]. auto.
Qed.

Lemma for_up_ext : forall {S} lo hi (f g : Z -> S -> S) s, (forall i s, lo <= i < hi -> f i s = g i s) ->
  for_up lo hi f s = for_up lo hi g s.
Proof.
  intros S lo hi f g s H. unfold for_up. assert (G : forall l, (forall x, In x l -> lo <= x < hi) -> forall s,
    fold_left (fun s i => f i s) l s = fold_left (fun s i => g i s) l s).
  { clear s. induction l as [|x l IH]; intros Hl s; cbn [fold_left]; [reflexivity|].
    rewrite H by (apply Hl; now left). apply IH. intros y Hy. apply Hl. now right. }
  apply G. intros x. apply in_zrange.
Qed.

Lemma NoDup_flat_map : forall {A B} (g : A -> list B) l, NoDup l -> (forall x, In x l -> NoDup (g x)) ->
  (forall x y b, In x l -> In y l -> In b (g x) -> In b (g y) -> x = y) -> NoDup (flat_map g l).
Proof.
  intros A B g. induction l as [|x l IH]; intros ND Hg Hs; cbn [flat_map]; [constructor|]. inversion ND as [|? ? Hx ND'].
  apply NoDup_app.
  - apply Hg. now left.
  - apply IH; auto; intros; [apply Hg; now right | eapply Hs; eauto; now right].
  - intros b Hb Hin. apply in_flat_map in Hin as [y [Hy Hby]]. apply Hx.
    assert (x = y) by (eapply Hs; eauto; [now left | now right]). now subst.
Qed.

Lemma filter_none : forall {A} (p : A -> bool) l, (forall x, In x l -> p x = false) -> filter p l = [].
Proof.
  intros A p l H. induction l as [|x l IH]; [reflexivity|]. cbn [filter]. rewrite (H x) by now left.
  apply IH. intros y Hy. apply H. now right.
Qed.
