(* ===== verification/CStr.v ===== *)
(** * C strings

    A NUL-terminated C string is the [String.string] of its bytes before the
    NUL.  A pointer into a string is the suffix it points at.  The functions
    of [string.h] and [stdlib.h] the program calls are modelled here, and the
    UTF-8 helpers of src/system/tools.c. *)
From Stdlib Require Import ZArith List Bool String Ascii Lia.
Import ListNotations.
From S2P Require Import Prelude.

Definition byte_of (c : ascii) : Z := Z.of_nat (nat_of_ascii c).

Definition ascii_of_Z (z : Z) : ascii := ascii_of_nat (Z.to_nat z).

Lemma byte_of_range : forall c, 0 <= byte_of c < 256.
Proof. intros c. unfold byte_of. pose proof (nat_ascii_bounded c). lia. Qed.

Lemma byte_of_inj : forall a b, byte_of a = byte_of b -> a = b.
Proof.
  intros a b H. unfold byte_of in H. apply Nat2Z.inj in H.
  rewrite <- (ascii_nat_embedding a), <- (ascii_nat_embedding b). now rewrite H.
Qed.

Definition slen (s : string) : Z := Z.of_nat (String.length s).

(** [s + n] *)
Fixpoint sdrop (n : nat) (s : string) : string :=
  match n, s with
  | O, _ => s
  | S n', String _ s' => sdrop n' s'
  | S _, EmptyString => EmptyString
  end.

Fixpoint stake (n : nat) (s : string) : string :=
  match n, s with
  | O, _ => EmptyString
  | S n', String c s' => String c (stake n' s')
  | S _, EmptyString => EmptyString
  end.

(** [!strcmp(s1, s2)] *)
Definition str_eq (s1 s2 : string) : bool := String.eqb s1 s2.

(** [!strncmp(s, p, strlen(p))] *)
Fixpoint starts_with (p s : string) : bool :=
  match p, s with
  | EmptyString, _ => true
  | String a p', String b s' => Ascii.eqb a b && starts_with p' s'
  | String _ _, EmptyString => false
  end.

(** [s + strlen(p)] *)
Definition skip (p s : string) : string := sdrop (String.length p) s.

(** [strchr(s, c)]: the suffix from the first occurrence. *)
Fixpoint strchr (c : ascii) (s : string) : option string :=
  match s with
  | EmptyString => None
  | String b s' => if Ascii.eqb b c then Some s else strchr c s'
  end.

(** [strstr(s, p) != NULL] *)
Fixpoint str_contains (p s : string) : bool :=
  starts_with p s ||
  match s with EmptyString => false | String _ s' => str_contains p s' end.

(** The longest prefix without [c], and the rest ([%[^c]] of scanf). *)
Fixpoint span_not (c : ascii) (s : string) : string * string :=
  match s with
  | EmptyString => (EmptyString, EmptyString)
  | String b s' =>
      if Ascii.eqb b c then (EmptyString, s)
      else let '(p, r) := span_not c s' in (String b p, r)
  end.

(** First byte, 0 at the terminating NUL. *)
Definition first_byte (s : string) : Z :=
  match s with EmptyString => 0 | String c _ => byte_of c end.

(** Byte at offset [n], 0 at the terminating NUL (and past the end). *)
Definition byte_at (s : string) (n : nat) : Z := first_byte (sdrop n s).

Definition is_space (c : ascii) : bool :=
  let b := byte_of c in (b =? 32) || ((9 <=? b) && (b <=? 13)).

Definition is_digit (c : ascii) : bool :=
  let b := byte_of c in (48 <=? b) && (b <=? 57).

Fixpoint skip_spaces (s : string) : string :=
  match s with
  | String c s' => if is_space c then skip_spaces s' else s
  | EmptyString => s
  end.

Fixpoint digits (acc : Z) (s : string) : Z :=
  match s with
  | String c s' => if is_digit c then digits (10 * acc + (byte_of c - 48)) s' else acc
  | EmptyString => acc
  end.

(** [atoi(s)] (for values that fit in an [int]) *)
Definition atoi (s : string) : Z :=
  match skip_spaces s with
  | String c s' =>
      if Ascii.eqb c "-" then - digits 0 s'
      else if Ascii.eqb c "+" then digits 0 s'
      else digits 0 (String c s')
  | EmptyString => 0
  end.

(** Does a [%d] conversion succeed on this input? *)
Definition scans_int (s : string) : bool :=
  match skip_spaces s with
  | String c s' =>
      if Ascii.eqb c "-" || Ascii.eqb c "+"
      then match s' with String d _ => is_digit d | EmptyString => false end
      else is_digit c
  | EmptyString => false
  end.

(** [sscanf(s, "%d", &i)]: the value assigned, if the conversion succeeds. *)
Definition scan_int (s : string) : option Z :=
  if scans_int s then Some (atoi s) else None.

Fixpoint zdigits (fuel : nat) (n : Z) (acc : string) : string :=
  match fuel with
  | O => acc
  | S f =>
      let acc' := String (ascii_of_Z (48 + n mod 10)) acc in
      if n <? 10 then acc' else zdigits f (n / 10) acc'
  end.

(** [sprintf("%d", n)]; an [int] has at most ten digits. *)
Definition itoa (n : Z) : string :=
  if n <? 0 then String "-" (zdigits 11 (- n) EmptyString) else zdigits 11 n EmptyString.

(** tools.c [utf8_length]: number of bytes of a character, from its first byte *)
Definition utf8_length (c : Z) : Z :=
  if 0xfb <? c then 6
  else if 0xf7 <? c then 5
  else if 0xef <? c then 4
  else if 0xdf <? c then 3
  else if 0x7f <? c then 2
  else 1.

(** tools.c [string_length]: the pointer walks [utf8_length] bytes at a time
    until it meets the NUL.  A truncated last character makes it step over
    the terminator: [OutOfBounds]. *)
Fixpoint string_length_go (fuel : nat) (cp : string) (length : Z) : res Z :=
  match fuel with
  | O => Err OutOfFuel
  | S f =>
      match cp with
      | EmptyString => Ret length
      | String c _ =>
          let n := utf8_length (byte_of c) in
          if slen cp <? n then Err OutOfBounds
          else string_length_go f (sdrop (Z.to_nat n) cp) (length + 1)
      end
  end.

Definition string_length (cp : string) : res Z :=
  string_length_go (S (String.length cp)) cp 0.

#[global] Arguments str_eq : simpl never.
#[global] Arguments atoi : simpl never.

(** ** Lemmas *)

Lemma str_eq_spec : forall a b, reflect (a = b) (str_eq a b).
Proof. intros. apply String.eqb_spec. Qed.

Lemma str_eq_refl : forall a, str_eq a a = true.
Proof. apply String.eqb_refl. Qed.

#[export] Hint Resolve str_eq_refl : knp.

Lemma str_eq_cons : forall x s y t, str_eq (String x s) (String y t) = Ascii.eqb x y && str_eq s t.
Proof. intros. unfold str_eq. cbn. now destruct (Ascii.eqb x y). Qed.

Lemma sapp_nil_r : forall s : string, (s ++ "")%string = s.
Proof. induction s as [|c s IH]; cbn; congruence. Qed.

Lemma sapp_assoc : forall a b c : string, ((a ++ b) ++ c)%string = (a ++ (b ++ c))%string.
Proof. induction a as [|x a IH]; intros; cbn; [reflexivity | now rewrite IH]. Qed.

Lemma length_sapp : forall a b : string, String.length (a ++ b) = (String.length a + String.length b)%nat.
Proof. induction a as [|c a IH]; intros; cbn; [reflexivity | now rewrite IH]. Qed.

Lemma slen_app : forall a b, slen (a ++ b)%string = slen a + slen b.
Proof. intros. unfold slen. rewrite length_sapp. lia. Qed.

Lemma skip_app : forall p s, skip p (p ++ s)%string = s.
Proof. induction p as [|c p IH]; intros s; cbn; auto. apply IH. Qed.

Lemma sdrop_app : forall p s, sdrop (String.length p) (p ++ s)%string = s.
Proof. intros. apply skip_app. Qed.

Lemma stake_app : forall p s, stake (String.length p) (p ++ s)%string = p.
Proof. induction p as [|c p IH]; intros s; cbn; [now destruct s|now rewrite IH]. Qed.

Lemma starts_with_spec : forall p s, starts_with p s = true <-> exists r, s = (p ++ r)%string.
Proof.
  induction p as [|a p IH]; intros s; cbn.
  - split; eauto.
  - destruct s as [|b s].
    + split; [discriminate | intros [r H]; discriminate].
    + rewrite andb_true_iff, IH, Ascii.eqb_eq. split.
      * intros [-> [r ->]]. eauto.
      * intros [r H]. inv H. eauto.
Qed.

Lemma starts_with_refl : forall p, starts_with p p = true.
Proof. intros. apply starts_with_spec. exists ""%string. now rewrite sapp_nil_r. Qed.

Lemma starts_with_app : forall p s, starts_with p (p ++ s)%string = true.
Proof. intros. apply starts_with_spec. eauto. Qed.

Lemma starts_with_length : forall p s, starts_with p s = true -> slen p <= slen s.
Proof. intros p s H. apply starts_with_spec in H as [r ->]. rewrite slen_app. unfold slen. lia. Qed.

Lemma span_not_app : forall c s, (fst (span_not c s) ++ snd (span_not c s))%string = s.
Proof.
  intros c. induction s as [|b s IH]; cbn; auto.
  destruct (Ascii.eqb b c); cbn; auto.
  destruct (span_not c s) as [p r]. cbn in *. now rewrite IH.
Qed.

(** [c] does not occur in [s]. *)
Fixpoint str_free (c : ascii) (s : string) : bool :=
  match s with
  | EmptyString => true
  | String b s' => negb (Ascii.eqb b c) && str_free c s'
  end.

Lemma span_not_free : forall c s, str_free c (fst (span_not c s)) = true.
Proof.
  intros c. induction s as [|b s IH]; cbn; auto.
  destruct (Ascii.eqb b c) eqn:E; cbn; auto.
  destruct (span_not c s) as [p r]. cbn in *. now rewrite E, IH.
Qed.

Lemma span_not_free_all : forall c s, str_free c s = true -> span_not c s = (s, EmptyString).
Proof.
  intros c. induction s as [|b s IH]; cbn; auto. intros H.
  apply andb_true_iff in H as [H1 H2]. apply negb_true_iff in H1.
  rewrite H1, IH; auto.
Qed.

Lemma span_not_sep : forall c p r, str_free c p = true ->
  span_not c (p ++ String c r)%string = (p, String c r).
Proof.
  intros c p r. induction p as [|b p IH]; cbn.
  - intros _. now rewrite Ascii.eqb_refl.
  - intros H. apply andb_true_iff in H as [H1 H2]. apply negb_true_iff in H1.
    now rewrite H1, IH.
Qed.

Lemma span_not_tail : forall c s p r, span_not c s = (p, r) ->
  r = EmptyString \/ exists r', r = String c r'.
Proof.
  intros c. induction s as [|b s IH]; cbn; intros p r H.
  - inv H. auto.
  - destruct (Ascii.eqb b c) eqn:E.
    + inv H. apply Ascii.eqb_eq in E. subst. eauto.
    + destruct (span_not c s) as [p' r'] eqn:E2. inv H. eapply IH; eauto.
Qed.

Lemma sdrop_length : forall n s, (n <= String.length s)%nat ->
  String.length (sdrop n s) = (String.length s - n)%nat.
Proof. induction n as [|n IH]; intros [|c s] H; cbn in *; auto; try lia. apply IH. lia. Qed.

Lemma utf8_length_range : forall c, 1 <= utf8_length c <= 6.
Proof. intros. unfold utf8_length. repeat case_goal; lia. Qed.

Lemma string_length_go_fuel : forall fuel cp n,
  (String.length cp < fuel)%nat -> string_length_go fuel cp n <> Err OutOfFuel.
Proof.
  induction fuel as [|f IH]; intros cp n Hf; [lia|]. cbn [string_length_go].
  destruct cp as [|c cp]; [discriminate|].
  destruct (slen (String c cp) <? utf8_length (byte_of c)) eqn:E; [discriminate|].
  apply Z.ltb_ge in E. pose proof (utf8_length_range (byte_of c)).
  apply IH. unfold slen in *. rewrite sdrop_length by lia. cbn [String.length] in *. lia.
Qed.
