(* ===== verification/Caches.v ===== *)
(** * The caches of KNP (src/system/lib_sm.c, case_analysis.c, case_ipal.c, with hash of tools.c)

    Three tables with chained buckets: the codes of nouns ([smlist]), the results of the case analysis ([CPMcache]) and
    the case frames ([CFcache]).  The seeds of the hash function are random numbers.  A chain is the list of its nodes; a
    chain whose nodes were freed while a pointer to it remains is [Freed], and following it an error.  The
    copies that [copy_cpm] and [copy_cf_frame] make are values. *)
From stdpp Require Import base gmap strings list sorting.
From Stdlib Require Import ZArith Ascii Lia.
From S2P Require Import Prelude CStr.
Open Scope Z_scope.

Definition TBLSIZE : Z := 1024.
Definition NSEED : Z := 32.

Section Hash.
Context (seed : Z -> Z -> Z).

(** [hash ^= seed[j++][key[i++]]; j &= NSEED-1;] *)
Fixpoint hash_go (key : string) (j hash : Z) : Z :=
  match key with
  | EmptyString => hash
  | String c key' => hash_go key' (Z.land (j + 1) (NSEED - 1)) (Z.lxor hash (seed j (byte_of c)))
  end.

Definition hash (key : string) : Z := Z.land (hash_go key 0 0) (TBLSIZE - 1).

(** ** The codes of nouns

    The first node of a bucket is in the table itself; its key is NULL when it is free. *)
Inductive chain : Type := Live (nodes : list (string * string)) | Freed.

Record bucket : Type := mkBucket { entry : option (string * string); next : chain }.

Definition no_nouns : array bucket := fun _ => mkBucket None (Live []).

(** Overwrite the node of the key, or add one at the end. *)
Fixpoint put_node (key sm : string) (nodes : list (string * string)) : list (string * string) :=
  match nodes with
  | [] => [(key, sm)]
  | (k, v) :: nodes' => if decide (k = key) then (k, sm) :: nodes' else (k, v) :: put_node key sm nodes'
  end.

Fixpoint find_node {K V} `{EqDecision K} (key : K) (nodes : list (K * V)) : option V :=
  match nodes with
  | [] => None
  | (k, v) :: nodes' => if decide (k = key) then Some v else find_node key nodes'
  end.

Definition register_noun_sm (key : option string) (sm : string) (smlist : array bucket) : res (array bucket) :=
  match key with
  | None => Ret smlist
  | Some key =>
      let slp := smlist (hash key) in
      match entry slp with
      | None => Ret (aset smlist (hash key) (mkBucket (Some (key, sm)) (next slp)))
      | Some (k, v) =>
          if decide (k = key) then Ret (aset smlist (hash key) (mkBucket (Some (k, sm)) (next slp)))
          else
            match next slp with
            | Freed => Err BadPointer
            | Live nodes => Ret (aset smlist (hash key) (mkBucket (Some (k, v)) (Live (put_node key sm nodes))))
            end
      end
  end.

Definition check_noun_sm (key : string) (smlist : array bucket) : res (option string) :=
  let slp := smlist (hash key) in
  match entry slp with
  | None => Ret None
  | Some (k, v) =>
      if decide (k = key) then Ret (Some v)
      else match next slp with Freed => Err BadPointer | Live nodes => Ret (find_node key nodes) end
  end.

(** The nodes of the chains are freed, but [next] keeps its value. *)
Definition clear_bucket (i : Z) (smlist : array bucket) : res (array bucket) :=
  match next (smlist i) with
  | Freed => Err BadPointer
  | Live [] => Ret (aset smlist i (mkBucket None (Live [])))
  | Live _ => Ret (aset smlist i (mkBucket None Freed))
  end.

Definition ClearSMList (smlist : array bucket) : res (array bucket) := for_res 0 TBLSIZE clear_bucket smlist.
End Hash.

(** ** The cache of the case analysis

    What the key of a CF_PRED_MGR is made of: [num] of the basic phrases of the elements and of the predicate; [R] is the
    rest of the record. *)
Record pred_elements (R : Type) : Type := mkPE { elem_nums : list Z; pred_num : Z; cpm_rest : R }.
Arguments mkPE {R}.
Arguments elem_nums {R}.
Arguments pred_num {R}.
Arguments cpm_rest {R}.

(** [int numbers[CF_ELEMENT_MAX]] *)
Definition numbers_max : Z := 24.

(** [char str[70], token[3]]: one byte is for the NUL. *)
Definition put_token (str token : string) : res string :=
  if (slen token <? 3) && (slen (str +:+ token) <? 70) then Ret (str +:+ token) else Err OutOfBounds.

Fixpoint put_numbers (i : Z) (numbers : list Z) (str : string) : res string :=
  match numbers with
  | [] => Ret str
  | n :: numbers' =>
      str <- put_token str (if i =? 0 then itoa n else " " +:+ itoa n) ;;
      put_numbers (i + 1) numbers' str
  end.

(** The [num] of the elements after [qsort] with [number_compare] *)
Definition sorted_nums {R} (cpm_ptr : pred_elements R) : list Z := merge_sort Z.le (elem_nums cpm_ptr).

Definition inputcc2num {R} (cpm_ptr : pred_elements R) : res string :=
  if numbers_max <? Z.of_nat (length (elem_nums cpm_ptr)) then Err OutOfBounds
  else
    str <- put_numbers 0 (sorted_nums cpm_ptr) "" ;;
    put_token str (" " +:+ itoa (pred_num cpm_ptr)).

Definition CPM_CACHE (R : Type) : Type := list (string * pred_elements R).

Section CPMcache.
Context (seed : Z -> Z -> Z) {R : Type}.

Definition InitCPMcache : array (CPM_CACHE R) := fun _ => [].

Definition RegisterCPM (cpm_ptr : pred_elements R) (CPMcache : array (CPM_CACHE R)) : res (array (CPM_CACHE R)) :=
  key <- inputcc2num cpm_ptr ;;
  Ret (aset CPMcache (hash seed key) (CPMcache (hash seed key) ++ [(key, cpm_ptr)])).

Definition CheckCPM (cpm_ptr : pred_elements R) (CPMcache : array (CPM_CACHE R)) : res (option (pred_elements R)) :=
  key <- inputcc2num cpm_ptr ;;
  Ret (find_node key (CPMcache (hash seed key))).

Definition ClearCPMcache (CPMcache : array (CPM_CACHE R)) : array (CPM_CACHE R) :=
  for_up 0 TBLSIZE (fun i cache => match cache i with [] => cache | _ => aset cache i [] end) CPMcache.
End CPMcache.

(** ** The cache of case frames

    The bucket of a frame is that of its address; [address] is the field [copy_cf_frame] copies. *)
Section CFcache.
Context (seed : Z -> Z -> Z) {CF_FRAME : Type} (address : CF_FRAME -> Z).

Definition register_caseframe (addr : Z) (i_ptr : CF_FRAME) (CFcache : array (list CF_FRAME)) : array (list CF_FRAME) :=
  aset CFcache (hash seed (itoa addr)) (CFcache (hash seed (itoa addr)) ++ [i_ptr]).

Definition lookup_caseframe (addr : Z) (CFcache : array (list CF_FRAME)) : option CF_FRAME :=
  List.find (fun cfcmp => addr =? address cfcmp) (CFcache (hash seed (itoa addr))).
End CFcache.

(** * Properties *)

Lemma hash_range : forall seed key, 0 <= hash seed key < TBLSIZE.
Proof. intros seed key. unfold hash, TBLSIZE. change (1024 - 1) with (Z.ones 10). rewrite Z.land_ones by lia. change (2 ^ 10) with 1024. apply Z.mod_pos_bound. lia. Qed.

(** ** Chains as maps *)
Lemma find_put : forall key sm nodes key', find_node key' (put_node key sm nodes) = if decide (key = key') then Some sm else find_node key' nodes.
Proof.
  intros key sm nodes key'. induction nodes as [|[k v] nodes IH]; simpl; [reflexivity|].
  repeat (case_decide; simpl); simplify_eq; auto.
Qed.

Lemma find_node_app : forall {K V} `{EqDecision K} (key : K) (a b : list (K * V)),
  find_node key (a ++ b) = match find_node key a with Some v => Some v | None => find_node key b end.
Proof. intros K V E key a b. induction a as [|[k v] a IH]; simpl; [reflexivity|]. case_decide; auto. Qed.

(** ** The nouns *)
Section Nouns.
Context (seed : Z -> Z -> Z).

(** A bucket without freed nodes, and what it holds. *)
Definition live (b : bucket) : Prop := match entry b, next b with None, Live [] => True | Some _, Live _ => True | _, _ => False end.

Definition held (key : string) (b : bucket) : option string :=
  match entry b, next b with
  | Some (k, v), Live nodes => if decide (k = key) then Some v else find_node key nodes
  | _, _ => None
  end.

(** The table holds the codes of the map. *)
Definition holds (smlist : array bucket) (m : gmap string string) : Prop :=
  (forall i, live (smlist i)) /\ forall key, held key (smlist (hash seed key)) = m !! key.

Lemma no_nouns_holds : holds no_nouns ∅.
Proof. split; [intros i; exact I|]. intros key. by rewrite lookup_empty. Qed.

Lemma register_holds : forall key sm smlist m, holds smlist m ->
  exists smlist', register_noun_sm seed (Some key) sm smlist = Ret smlist' /\ holds smlist' (<[key := sm]> m).
Proof.
  intros key sm smlist m [HL HM]. unfold register_noun_sm. pose proof (HL (hash seed key)) as L. unfold live in L.
  assert (G : forall b, live b -> (forall key', held key' b = if decide (key = key') then Some sm else held key' (smlist (hash seed key))) ->
    holds (aset smlist (hash seed key) b) (<[key := sm]> m)).
  { intros b Lb Hb. split.
    - intros i. unfold aset. destruct (Z.eqb_spec i (hash seed key)); auto.
    - intros key'. rewrite lookup_insert. unfold aset. destruct (Z.eqb_spec (hash seed key') (hash seed key)) as [E|E].
      + rewrite Hb, <- E. case_decide; [reflexivity | apply HM].
      + rewrite decide_False by congruence. apply HM. }
  destruct (smlist (hash seed key)) as [[[k v]|] [nodes|]] eqn:EB; simpl in *; try done.
  - case_decide as D; eexists; (split; [reflexivity|]); apply G; try done; intros key'; unfold held; simpl; repeat case_decide; simplify_eq; try done.
    + by rewrite find_put, decide_True.
    + by rewrite find_put, decide_False.
  - destruct nodes as [|n nodes]; [|done]. eexists. split; [reflexivity|]. apply G; [done|]. intros key'. unfold held; simpl. by repeat case_decide.
Qed.

Lemma check_holds : forall key smlist m, holds smlist m -> check_noun_sm seed key smlist = Ret (m !! key).
Proof.
  intros key smlist m [HL HM]. specialize (HL (hash seed key)). specialize (HM key). unfold check_noun_sm, live, held in *.
  destruct (smlist (hash seed key)) as [[[k v]|] [nodes|]]; simpl in *; try done; [|by rewrite HM]. case_decide; by rewrite HM.
Qed.

(** The uses of the table between two times it is cleared. *)
Inductive noun_op : Type := Register (key sm : string) | Check (key : string).

Fixpoint run_ops (ops : list noun_op) (smlist : array bucket) : res (list (option string) * array bucket) :=
  match ops with
  | [] => Ret ([], smlist)
  | Register key sm :: ops' => smlist <- register_noun_sm seed (Some key) sm smlist ;; run_ops ops' smlist
  | Check key :: ops' =>
      v <- check_noun_sm seed key smlist ;;
      res_map (fun r => (v :: fst r, snd r)) (run_ops ops' smlist)
  end.

Fixpoint map_ops (ops : list noun_op) (m : gmap string string) : list (option string) * gmap string string :=
  match ops with
  | [] => ([], m)
  | Register key sm :: ops' => map_ops ops' (<[key := sm]> m)
  | Check key :: ops' => let '(vs, m') := map_ops ops' m in (m !! key :: vs, m')
  end.

Lemma run_ops_map : forall ops smlist m, holds smlist m ->
  exists smlist', run_ops ops smlist = Ret (fst (map_ops ops m), smlist') /\ holds smlist' (snd (map_ops ops m)).
Proof.
  induction ops as [|[key sm|key] ops IH]; intros smlist m H; cbn [run_ops map_ops].
  - eauto.
  - destruct (register_holds key sm smlist m H) as (s1 & -> & H1). apply (IH _ _ H1).
  - rewrite (check_holds key smlist m H). destruct (IH _ _ H) as (s1 & -> & H1). destruct (map_ops ops m). simpl in *. eauto.
Qed.

(** Clearing: each bucket loses its nodes. *)
Lemma clear_at : forall smlist, (forall i, live (smlist i)) -> exists smlist', ClearSMList smlist = Ret smlist' /\
  forall i, 0 <= i < TBLSIZE -> smlist' i = mkBucket None (match next (smlist i) with Live [] => Live [] | _ => Freed end).
Proof.
  intros smlist HL. unfold ClearSMList.
  destruct (for_res_total (fun n s => (forall i, n <= i -> s i = smlist i) /\
      forall i, 0 <= i < n -> s i = mkBucket None (match next (smlist i) with Live [] => Live [] | _ => Freed end)) clear_bucket 0 TBLSIZE smlist)
    as (s' & E & _ & H); [done | | split; [done | lia] | eauto].
  intros i s Hi [S1 S2]. unfold clear_bucket. rewrite S1 by lia. specialize (HL i). unfold live in HL.
  destruct (smlist i) as [h [[|n nodes]|]] eqn:EB; simpl; [| | by destruct h]; (eexists; split; [reflexivity|]; split; intros j Hj; unfold aset;
    (destruct (Z.eqb_spec j i) as [->|]; [try lia; by rewrite EB | first [apply S1 | apply S2]; lia])).
Qed.
End Nouns.

(** ** The keys of the case analysis *)
Definition digit (n : Z) : Prop := 0 <= n <= 9.

Fixpoint tail_text (ns : list Z) : string := match ns with [] => "" | n :: ns' => (" " +:+ itoa n) +:+ tail_text ns' end.

Lemma sapp_String : forall c s t, String c s +:+ t = String c (s +:+ t).
Proof. reflexivity. Qed.

Lemma sapp_inj : forall a b c : string, a +:+ b = a +:+ c -> b = c.
Proof. intros a b c. induction a as [|x a IH]; [done|]. rewrite !sapp_String. intros [=]. auto. Qed.

Lemma slen_String : forall c s, slen (String c s) = 1 + slen s.
Proof. intros c s. unfold slen. simpl. lia. Qed.

Lemma zdigits_slen : forall f n acc, slen acc <= slen (zdigits f n acc).
Proof.
  induction f as [|f IH]; intros n acc; [simpl; lia|]. cbn [zdigits].
  destruct (n <? 10); [|etransitivity; [|apply IH]]; rewrite slen_String; lia.
Qed.

Lemma zdigits_some : forall f n acc, 1 + slen acc <= slen (zdigits (S f) n acc).
Proof. intros f n acc. cbn [zdigits]. destruct (n <? 10); [|etransitivity; [|apply zdigits_slen]]; rewrite slen_String; lia. Qed.

Lemma zdigits_long : forall f n acc, 10 <= n -> 2 + slen acc <= slen (zdigits (S (S f)) n acc).
Proof.
  intros f n acc H. remember (S f) as g eqn:E. cbn [zdigits]. destruct (Z.ltb_spec n 10); [lia|].
  subst g. etransitivity; [|apply zdigits_some]. rewrite slen_String. lia.
Qed.

Lemma slen_itoa_1 : forall n, slen (itoa n) < 2 -> digit n.
Proof.
  intros n. unfold itoa, digit. destruct (Z.ltb_spec n 0).
  - pose proof (zdigits_some 10 (- n) "") as H1. rewrite slen_String. unfold slen in H1 at 1. simpl String.length in H1. lia.
  - destruct (Z.leb_spec n 9); [lia|]. pose proof (zdigits_long 9 n "" ltac:(lia)) as H2. unfold slen in H2 at 1. simpl String.length in H2. lia.
Qed.

Lemma put_token_Ret : forall str token r, put_token str token = Ret r -> r = str +:+ token /\ slen token < 3 /\ slen r < 70.
Proof. intros str token r. unfold put_token. case_match eqn:E; [|done]. intros [= <-]. apply andb_prop in E as [E1 E2]. repeat split; lia. Qed.

Lemma put_numbers_tail : forall ns i str r, 0 < i -> put_numbers i ns str = Ret r -> r = str +:+ tail_text ns /\ Forall digit ns.
Proof.
  induction ns as [|n ns IH]; intros i str r Hi; cbn [put_numbers tail_text].
  - intros [= <-]. by rewrite sapp_nil_r.
  - destruct (Z.eqb_spec i 0); [lia|]. destruct (put_token _ _) as [s|] eqn:E; [|done]. apply put_token_Ret in E as (-> & H1 & _).
    intros (-> & H2)%IH; [|lia]. rewrite !sapp_assoc. split; [reflexivity|]. constructor; [|done].
    apply slen_itoa_1. rewrite slen_app in H1. change (slen " ") with 1 in H1. lia.
Qed.

Lemma zdigits_long3 : forall f n acc, 100 <= n -> 3 + slen acc <= slen (zdigits (S (S (S f))) n acc).
Proof.
  intros f n acc H. remember (S (S f)) as g eqn:E. cbn [zdigits]. destruct (Z.ltb_spec n 10); [lia|].
  subst g. assert (10 <= n / 10) by (apply Z.div_le_lower_bound; lia). etransitivity; [|by apply zdigits_long]. rewrite slen_String. lia.
Qed.

Lemma slen_itoa_2 : forall n, slen (itoa n) < 3 -> -9 <= n <= 99.
Proof.
  intros n. unfold itoa. destruct (Z.ltb_spec n 0).
  - destruct (Z.leb_spec (- n) 9); [lia|]. pose proof (zdigits_long 9 (- n) "" ltac:(lia)) as H2.
    rewrite slen_String. unfold slen in H2 at 1. simpl String.length in H2. lia.
  - destruct (Z.leb_spec n 99); [lia|]. pose proof (zdigits_long3 8 n "" ltac:(lia)) as H2. unfold slen in H2 at 1. simpl String.length in H2. lia.
Qed.

Lemma short_numbers : forallb (fun n => bool_decide (span_not " "%char (itoa n) = (itoa n, "") /\ atoi (itoa n) = n /\ itoa n <> "")) (seqZ (-9) 109) = true.
Proof. vm_compute. reflexivity. Qed.

Lemma short_number : forall n, -9 <= n <= 99 -> span_not " "%char (itoa n) = (itoa n, "") /\ atoi (itoa n) = n /\ itoa n <> "".
Proof. intros n H. pose proof short_numbers as F. rewrite forallb_forall in F. apply (bool_decide_unpack _), Is_true_true, F, list_elem_of_In, elem_of_seqZ. lia. Qed.

Lemma span_not_word : forall c s r, span_not c s = (s, "") -> span_not c (s +:+ String c r) = (s, String c r).
Proof.
  intros c s r. induction s as [|a s IH]; [intros _; change ("" +:+ String c r) with (String c r); cbn [span_not]; by rewrite Ascii.eqb_refl|].
  rewrite sapp_String. cbn [span_not]. destruct (Ascii.eqb a c); [done|]. destruct (span_not c s) as [p q] eqn:E. intros [= -> ->]. by rewrite IH.
Qed.

Definition first_text (l : list Z) : string := match l with [] => "" | n :: _ => itoa n end.

Definition short (l : list Z) : Prop := match l with [] => True | n :: _ => -9 <= n <= 99 end.

Lemma first_text_inj : forall l1 l2 r1 r2, short l1 -> short l2 ->
  first_text l1 +:+ String " "%char r1 = first_text l2 +:+ String " "%char r2 -> head l1 = head l2 /\ r1 = r2.
Proof.
  assert (F : forall l, short l -> span_not " "%char (first_text l) = (first_text l, "") /\ head l = if decide (first_text l = "") then None else Some (atoi (first_text l))).
  { intros [|n l] H; [done|]. apply short_number in H as (H1 & H2 & H3). cbn [first_text]. by rewrite decide_False, H2. }
  intros l1 l2 r1 r2 [S1 H1]%F [S2 H2]%F E. pose proof (f_equal (span_not " "%char) E) as D. rewrite !span_not_word in D by done.
  injection D as D1 D2. by rewrite H1, H2, D1.
Qed.

Lemma itoa_digit : forall n, digit n -> exists c, itoa n = String c "" /\ byte_of c = 48 + n.
Proof.
  assert (D : Forall (fun n => exists c, itoa n = String c "" /\ byte_of c = 48 + n) (seqZ 0 10)).
  { repeat constructor; eexists; (split; [vm_compute; reflexivity | reflexivity]). }
  intros n H. rewrite Forall_forall in D. apply D, elem_of_seqZ. unfold digit in H. lia.
Qed.

Lemma tail_text_inj : forall l1 l2, Forall digit l1 -> Forall digit l2 -> tail_text l1 = tail_text l2 -> l1 = l2.
Proof.
  induction l1 as [|n l1 IH]; intros [|m l2] H1 H2; [done| | |]; cbn [tail_text]; [done..|].
  apply Forall_cons in H1 as [(c & -> & C)%itoa_digit H1]. apply Forall_cons in H2 as [(d & -> & D)%itoa_digit H2].
  intros [= -> E]. f_equal; [lia | auto].
Qed.

Lemma tail_text_app : forall a b, tail_text (a ++ b) = tail_text a +:+ tail_text b.
Proof. intros a b. induction a as [|n a IH]; [done|]. cbn [tail_text app]. by rewrite IH, !sapp_assoc. Qed.

Section Keys.
Context {R : Type}.
Implicit Types a b c cpm : pred_elements R.

Lemma inputcc2num_text : forall cpm key, inputcc2num cpm = Ret key ->
  short (sorted_nums cpm) /\ Forall digit (tail (sorted_nums cpm) ++ [pred_num cpm]) /\
  key = first_text (sorted_nums cpm) +:+ tail_text (tail (sorted_nums cpm) ++ [pred_num cpm]).
Proof.
  intros cpm key. unfold inputcc2num. destruct (_ <? _); [done|]. destruct (put_numbers _ _ _) as [str|] eqn:E; [|done].
  intros (-> & H1 & _)%put_token_Ret. rewrite slen_app in H1. change (slen " ") with 1 in H1.
  assert (digit (pred_num cpm)) as DP by (apply slen_itoa_1; lia). rewrite tail_text_app. cbn [tail_text]. rewrite sapp_nil_r.
  destruct (sorted_nums cpm) as [|n ns]; cbn [put_numbers] in E.
  - injection E as <-. repeat split; cbn [tail app]; auto.
  - destruct (put_token _ _) as [s|] eqn:E1; [|done]. apply put_token_Ret in E1 as (-> & H2 & _). cbn [Z.eqb] in *.
    apply put_numbers_tail in E as (-> & H3); [|lia]. cbn [tail first_text]. repeat split.
    + apply slen_itoa_2 in H2. apply H2.
    + apply slen_itoa_2 in H2. apply H2.
    + apply Forall_app. auto.
    + by rewrite !sapp_assoc.
Qed.

Lemma sorted_Permutation : forall a b, sorted_nums a = sorted_nums b <-> elem_nums a ≡ₚ elem_nums b.
Proof.
  intros a b. unfold sorted_nums. split; intros H.
  - transitivity (merge_sort Z.le (elem_nums a)); [symmetry | rewrite H]; apply merge_sort_Permutation.
  - apply (Sorted_unique Z.le); [apply (Sorted_merge_sort Z.le).. |].
    transitivity (elem_nums a); [apply merge_sort_Permutation | rewrite H; symmetry; apply merge_sort_Permutation].
Qed.

(** The same predicate with the same basic phrases as elements, in any order. *)
Definition same_cases a b : Prop := pred_num a = pred_num b /\ elem_nums a ≡ₚ elem_nums b.

#[export] Instance same_cases_dec a b : Decision (same_cases a b).
Proof. refine (cast_if_and (decide (pred_num a = pred_num b)) (decide (sorted_nums a = sorted_nums b))); unfold same_cases; rewrite <- sorted_Permutation; tauto. Defined.

Lemma inputcc2num_inj : forall a b key, inputcc2num a = Ret key -> inputcc2num b = Ret key -> same_cases a b.
Proof.
  intros a b key (A1 & A2 & ->)%inputcc2num_text (B1 & B2 & E)%inputcc2num_text.
  assert (T : forall l n, exists r, tail_text (l ++ [n]) = String " "%char r) by (intros [|m l] n; eexists; reflexivity).
  destruct (T (tail (sorted_nums a)) (pred_num a)) as [r1 E1], (T (tail (sorted_nums b)) (pred_num b)) as [r2 E2].
  rewrite E1, E2 in E. apply first_text_inj in E as [H ->]; [|done..]. rewrite <- E2 in E1.
  apply tail_text_inj in E1 as [E1 EP]%app_inj_tail; [|done..]. unfold same_cases. rewrite <- sorted_Permutation. split; [done|].
  destruct (sorted_nums a), (sorted_nums b); simpl in *; congruence.
Qed.

Lemma inputcc2num_same : forall a b, same_cases a b -> inputcc2num a = inputcc2num b.
Proof. intros a b [E P]. unfold inputcc2num. rewrite E, (Permutation_length P). by apply sorted_Permutation in P as ->. Qed.

(** What fits the buffers: numbers of one digit. *)
Definition fits cpm : Prop := Z.of_nat (length (elem_nums cpm)) <= numbers_max /\ Forall digit (elem_nums cpm) /\ digit (pred_num cpm).

Lemma put_token_short : forall str n, digit n -> slen str <= 50 -> put_token str (" " +:+ itoa n) = Ret (str +:+ (" " +:+ itoa n)).
Proof.
  intros str n (c & -> & _)%itoa_digit H. unfold put_token. rewrite !slen_app. change (slen " ") with 1. change (slen (String c "")) with 1.
  case_match eqn:E; [done|]. apply andb_false_iff in E. lia.
Qed.

Lemma put_numbers_fits : forall ns i str, 0 < i -> Forall digit ns -> slen str + 2 * Z.of_nat (length ns) <= 50 ->
  exists r, put_numbers i ns str = Ret r /\ slen r <= slen str + 2 * Z.of_nat (length ns).
Proof.
  induction ns as [|n ns IH]; intros i str Hi HF HL; cbn [put_numbers]; [exists str; split; [done | simpl; lia]|].
  apply Forall_cons in HF as [H1 HF]. destruct (Z.eqb_spec i 0); [lia|]. cbn [length] in *. rewrite put_token_short by (done || lia).
  apply itoa_digit in H1 as (c & -> & _). assert (slen (str +:+ (" " +:+ String c "")) = slen str + 2) as EL by (rewrite slen_app; reflexivity).
  destruct (IH (i + 1) (str +:+ (" " +:+ String c ""))) as (r & -> & H2); [lia | done | lia |]. exists r. split; [done | lia].
Qed.

Lemma inputcc2num_fits : forall cpm, fits cpm -> exists key, inputcc2num cpm = Ret key.
Proof.
  intros cpm (H1 & H2 & H3). unfold inputcc2num, numbers_max in *. destruct (Z.ltb_spec 24 (Z.of_nat (length (elem_nums cpm)))); [lia|].
  pose proof (merge_sort_Permutation Z.le (elem_nums cpm)) as P. fold (sorted_nums cpm) in P. rewrite <- P in H2. rewrite <- P in H1. clear P.
  assert (exists r, put_numbers 0 (sorted_nums cpm) "" = Ret r /\ slen r <= 50) as (r & -> & H4).
  { destruct (sorted_nums cpm) as [|n ns]; cbn [put_numbers]; [by exists ""|]. apply Forall_cons in H2 as [(c & E & _)%itoa_digit H2].
    cbn [Z.eqb length] in *. rewrite E. change (put_token "" (String c "")) with (@Ret string (String c "")). cbn beta iota.
    destruct (put_numbers_fits ns (0 + 1) (String c "")) as (r & -> & H4); [lia | done | change (slen (String c "")) with 1; lia |].
    exists r. split; [done|]. change (slen (String c "")) with 1 in H4. lia. }
  rewrite put_token_short by (done || lia). eauto.
Qed.

Lemma put_numbers_err : forall ns i str e, put_numbers i ns str = Err e -> e = OutOfBounds.
Proof.
  induction ns as [|n ns IH]; intros i str e; cbn [put_numbers]; [done|]. unfold put_token at 1.
  destruct (_ && _); [apply IH|]. congruence.
Qed.

(** A basic phrase after the tenth does not fit [token]. *)
Lemma tenth_predicate_overflows : forall cpm, 10 <= pred_num cpm -> inputcc2num cpm = Err OutOfBounds.
Proof.
  intros cpm H. unfold inputcc2num. destruct (_ <? _); [done|]. destruct (put_numbers _ _ _) as [str|e] eqn:E.
  - destruct (put_token str (" " +:+ itoa (pred_num cpm))) as [s|e] eqn:T.
    + apply put_token_Ret in T as (_ & H1 & _). rewrite slen_app in H1. change (slen " ") with 1 in H1.
      destruct (slen_itoa_1 (pred_num cpm)); lia.
    + revert T. unfold put_token. case_match; congruence.
  - f_equal. by apply put_numbers_err in E.
Qed.

Lemma CheckCPM_register : forall seed cpm b cache cache', RegisterCPM seed b cache = Ret cache' -> forall old,
  CheckCPM seed cpm cache = Ret old ->
  CheckCPM seed cpm cache' = Ret (match old with Some a => Some a | None => if decide (same_cases cpm b) then Some b else None end).
Proof.
  intros seed cpm b cache cache'. unfold RegisterCPM, CheckCPM. destruct (inputcc2num b) as [kb|] eqn:EB; [|done]. intros [= <-] old.
  destruct (inputcc2num cpm) as [key|] eqn:EK; [|done]. intros [= <-]. do 2 f_equal. unfold aset.
  assert (same_cases cpm b <-> kb = key) as S.
  { split; [intros S%inputcc2num_same; congruence | intros ->; eauto using inputcc2num_inj]. }
  destruct (Z.eqb_spec (hash seed key) (hash seed kb)) as [E|E].
  - rewrite find_node_app, E. destruct (find_node key _); [done|]. simpl. repeat case_decide; tauto.
  - destruct (find_node key _); [done|]. case_decide as D; [|done]. apply S in D. congruence.
Qed.

(** The predicates of a sentence, in the order in which their cases are analysed. *)
Fixpoint register_all (seed : Z -> Z -> Z) (cpms : list (pred_elements R)) (cache : array (CPM_CACHE R)) : res (array (CPM_CACHE R)) :=
  match cpms with
  | [] => Ret cache
  | c :: cpms' => cache <- RegisterCPM seed c cache ;; register_all seed cpms' cache
  end.

Definition first_same cpm (cpms : list (pred_elements R)) : option (pred_elements R) := List.find (fun b => bool_decide (same_cases cpm b)) cpms.

Lemma register_all_first : forall seed cpms cache, Forall fits cpms -> exists cache', register_all seed cpms cache = Ret cache' /\
  forall cpm old, CheckCPM seed cpm cache = Ret old ->
  CheckCPM seed cpm cache' = Ret (match old with Some a => Some a | None => first_same cpm cpms end).
Proof.
  intros seed. induction cpms as [|c cpms IH]; intros cache HF; cbn [register_all].
  - exists cache. split; [done|]. by intros cpm [a|].
  - apply Forall_cons in HF as [HC HF]. destruct (inputcc2num_fits c HC) as [k EK].
    assert (exists m1, RegisterCPM seed c cache = Ret m1) as [m1 E1] by (unfold RegisterCPM; rewrite EK; eauto). rewrite E1.
    destruct (IH m1 HF) as (m2 & -> & H). exists m2. split; [done|]. intros cpm old HO.
    rewrite (H _ _ (CheckCPM_register _ _ _ _ _ E1 _ HO)). unfold first_same. cbn [List.find].
    destruct old; [done|]. by case_decide; [rewrite bool_decide_true | rewrite bool_decide_false].
Qed.

Lemma clear_empty : forall (cache : array (CPM_CACHE R)) i, 0 <= i < TBLSIZE -> ClearCPMcache cache i = [].
Proof.
  intros cache. unfold ClearCPMcache.
  apply (for_up_inv (fun n (m : array (CPM_CACHE R)) => forall i, 0 <= i < n -> m i = [])); [done | lia |].
  intros n m Hn HC i Hi. destruct (m n) eqn:E.
  - destruct (decide (i = n)) as [->|]; [done | apply HC; lia].
  - unfold aset. destruct (Z.eqb_spec i n); [done | apply HC; lia].
Qed.
End Keys.

(** ** The cache of case frames *)
Lemma caseframes_first : forall {F} seed (address : F -> Z) frames cache,
  forall addr, lookup_caseframe seed address addr (List.fold_left (fun c f => register_caseframe seed (address f) f c) frames cache) =
    match lookup_caseframe seed address addr cache with Some f => Some f | None => List.find (fun f => addr =? address f) frames end.
Proof.
  intros F seed address. induction frames as [|f frames IH]; intros cache addr; cbn [List.fold_left List.find].
  - by destruct (lookup_caseframe _ _ _ _).
  - rewrite IH. unfold lookup_caseframe, register_caseframe, aset. destruct (Z.eqb_spec addr (address f)) as [->|N].
    + rewrite Z.eqb_refl. clear. induction (cache _) as [|g l IHl]; simpl; [by rewrite Z.eqb_refl|]. by destruct (address f =? address g).
    + destruct (Z.eqb_spec (hash seed (itoa addr)) (hash seed (itoa (address f)))) as [->|]; [|done].
      induction (cache _) as [|g l IHl]; simpl; [by apply Z.eqb_neq in N as ->|]. by destruct (addr =? address g).
Qed.

(** ** What the caches promise *)

(** C37: Between [init_case_analysis_cpm], which empties the table, and the next call of [ClearSMList], the cache of the
    codes of nouns behaves as a finite map: whatever the seeds of the hash function, [register_noun_sm] inserts or
    overwrites the entry of a noun, [check_noun_sm] gives the last codes registered for it or none, and no call follows
    a bad pointer. *)
Theorem nouns_refine_map : forall seed ops, exists smlist,
  run_ops seed ops no_nouns = Ret (fst (map_ops ops ∅), smlist) /\ holds seed smlist (snd (map_ops ops ∅)).
Proof. intros seed ops. apply run_ops_map, no_nouns_holds. Qed.

(** The cache of the case analysis gives back the first result registered for the same predicate with the same
    basic phrases as elements, in whatever order they are, and nothing for another one: the printed key confuses no two
    of them and the chains no two keys.  After [ClearCPMcache] nothing is found.  The elements and the predicate are
    among the first ten basic phrases; the buffer of the key is too small for the others. *)
Theorem cpm_cache_first : forall {R} seed (cpms : list (pred_elements R)) cpm, Forall fits (cpm :: cpms) ->
  exists cache, register_all seed cpms InitCPMcache = Ret cache /\
    CheckCPM seed cpm cache = Ret (first_same cpm cpms) /\ CheckCPM seed cpm (ClearCPMcache cache) = Ret None.
Proof.
  intros R seed cpms cpm [HF HC]%Forall_cons. destruct (register_all_first seed cpms InitCPMcache HC) as (cache & E & H).
  destruct (inputcc2num_fits cpm HF) as [key EK]. exists cache. split; [done|]. split.
  - apply (H cpm None). unfold CheckCPM. by rewrite EK.
  - unfold CheckCPM. rewrite EK, clear_empty; [done | apply hash_range].
Qed.

(** ** Findings *)

(** Two nouns of one bucket, the table cleared, the first one registered again: a look at the second follows the
    pointer to the freed node. *)
Lemma cleared_nouns_dangle : forall seed k1 k2 sm, k1 <> k2 -> hash seed k1 = hash seed k2 ->
  exists s1 s2 s3 s4, register_noun_sm seed (Some k1) sm no_nouns = Ret s1 /\ register_noun_sm seed (Some k2) sm s1 = Ret s2 /\
    ClearSMList s2 = Ret s3 /\ register_noun_sm seed (Some k1) sm s3 = Ret s4 /\
    check_noun_sm seed k2 s4 = Err BadPointer /\ clear_bucket (hash seed k2) s4 = Err BadPointer.
Proof.
  intros seed k1 k2 sm N E.
  destruct (register_holds seed k1 sm no_nouns ∅ (no_nouns_holds seed)) as (s1 & E1 & H1).
  destruct (register_holds seed k2 sm s1 _ H1) as (s2 & E2 & H2). destruct (clear_at s2 (proj1 H2)) as (s3 & E3 & H3).
  exists s1, s2, s3. specialize (H3 (hash seed k2) (hash_range seed k2)).
  assert (next (s2 (hash seed k2)) = Live [(k2, sm)]) as EN.
  { revert E1 E2. unfold register_noun_sm. simpl. rewrite <- E. intros [= <-]. rewrite aset_eq. simpl.
    rewrite decide_False by done. intros [= <-]. by rewrite aset_eq. }
  rewrite EN in H3. unfold register_noun_sm at 3. rewrite E, H3. simpl. eexists. repeat (split; [done|]).
  unfold check_noun_sm, clear_bucket. rewrite aset_eq. simpl. by rewrite decide_False.
Qed.

(** ** Witnesses *)
Lemma cpm_cache_first_witness : exists cache,
  register_all (fun _ _ => 0) [mkPE [2] 4 0; mkPE [3; 1] 4 1; mkPE [1; 3] 4 2] InitCPMcache = Ret cache /\
    CheckCPM (fun _ _ => 0) (mkPE [1; 3] 4 9) cache = Ret (Some (mkPE [3; 1] 4 1)) /\
    CheckCPM (fun _ _ => 0) (mkPE [1; 3] 4 9) (ClearCPMcache cache) = Ret None.
Proof.
  apply (cpm_cache_first (fun _ _ => 0) [mkPE [2] 4 0; mkPE [3; 1] 4 1; mkPE [1; 3] 4 2] (mkPE [1; 3] 4 9)).
  repeat constructor; unfold numbers_max; simpl; lia.
Defined.
