(* ===== verification/Lisp.v ===== *)
(** * The S-expression reader and printer (src/juman/lib/lisp.c)

    Every rule file of KNP and every grammar file of JUMAN is read with these
    functions.  A [FILE] is the text not read yet, with the global [LineNo]. *)
From Stdlib Require Import ZArith List Bool String Ascii Lia.
Import ListNotations.
From S2P Require Import Prelude CStr.

(** [CELL *]: the null pointer is [NIL]. *)
Inductive CELL : Type :=
| NIL
| CONS (car cdr : CELL)
| ATOM (atom : string).

Record stream := mkStream { rest : string; LineNo : Z }.

(** Result of [ifnextchar]: EOF, TRUE, FALSE. *)
Inductive next : Type := NextEOF | NextTrue | NextFalse.

Definition ch_nl : ascii := "010".
Definition ch_cr : ascii := "013".
Definition ch_tab : ascii := "009".
Definition ch_sp : ascii := " ".
Definition ch_quote : ascii := "034".
Definition ch_bslash : ascii := "\".
Definition ch_nul : ascii := "000".
Definition COMMENTCHAR : ascii := ";".
Definition BPARENTHESIS : ascii := "(".
Definition EPARENTHESIS : ascii := ")".
Definition NILSYMBOL : string := "NIL".

Notation "a =c b" := (Ascii.eqb a b) (at level 70).

(** ** Accessors *)

Definition Null (c : CELL) : bool := match c with NIL => true | _ => false end.
Definition Consp (c : CELL) : bool := match c with CONS _ _ => true | _ => false end.
Definition Atomp (c : CELL) : bool := match c with ATOM _ => true | _ => false end.

(** [car] and [cdr] end the process with [error_in_lisp] on an atom. *)
Definition car (cell : CELL) : res CELL :=
  match cell with
  | CONS a _ => Ret a
  | NIL => Ret NIL
  | ATOM _ => Err LispError
  end.

Definition cdr (cell : CELL) : res CELL :=
  match cell with
  | CONS _ d => Ret d
  | NIL => Ret NIL
  | ATOM _ => Err LispError
  end.

(** [_Atom(cell)]: reading the union of a cell that is no atom, or through a
    null pointer, is undefined. *)
Definition _Atom (cell : CELL) : res string :=
  match cell with
  | ATOM s => Ret s
  | NIL => Err NullDeref
  | CONS _ _ => Err BadPointer
  end.

Fixpoint equal (x y : CELL) : bool :=
  match x, y with
  | NIL, NIL => true
  | ATOM a, ATOM b => str_eq a b
  | CONS a d, CONS a' d' => equal a a' && equal d d'
  | _, _ => false
  end.

Fixpoint length (list : CELL) : nat :=
  match list with
  | CONS _ d => S (length d)
  | _ => O
  end.

(** [assoc]: the loop stops at the first element whose car is [item], or at
    the end of the list. *)
Fixpoint assoc (item alist : CELL) : res CELL :=
  match alist with
  | NIL => Ret NIL
  | CONS a d =>
      k <- car a ;;
      if equal item k then Ret a else assoc item d
  | ATOM _ => Err LispError
  end.

(** ** Characters *)

Definition dividing_code_p (c : ascii) : bool :=
  (c =c ch_nl) || (c =c ch_cr) || (c =c ch_tab) || (c =c COMMENTCHAR) || (c =c ch_sp) ||
  (c =c BPARENTHESIS) || (c =c EPARENTHESIS).

Definition blank (c : ascii) : bool :=
  (c =c ch_sp) || (c =c ch_tab) || (c =c ch_nl) || (c =c ch_cr).

(** [ifnextchar]: skip blanks, test the next character, and push it back when
    it is another one. *)
Fixpoint ifnextchar_go (s : string) (ln : Z) (i : ascii) : next * stream :=
  match s with
  | EmptyString => (NextEOF, mkStream EmptyString ln)
  | String c s' =>
      let ln' := if c =c ch_nl then ln + 1 else ln in
      if blank c then ifnextchar_go s' ln' i
      else if c =c i then (NextTrue, mkStream s' ln')
      else (NextFalse, mkStream s ln')
  end.

Definition ifnextchar (fp : stream) (i : ascii) : next * stream :=
  ifnextchar_go (rest fp) (LineNo fp) i.

(** [while (my_getc(fp) != '\n' && !feof(fp)) {}] *)
Fixpoint skip_line (s : string) : string :=
  match s with
  | EmptyString => EmptyString
  | String c s' => if c =c ch_nl then s' else skip_line s'
  end.

(** [comment]: returns the result of the first [ifnextchar]. *)
Fixpoint comment_go (fuel : nat) (fp : stream) : next * stream :=
  match fuel with
  | O => (NextFalse, fp)
  | S f =>
      let '(n, fp1) := ifnextchar fp COMMENTCHAR in
      match n with
      | NextTrue =>
          let fp2 := mkStream (skip_line (rest fp1)) (LineNo fp1 + 1) in
          (n, snd (comment_go f fp2))
      | _ => (n, fp1)
      end
  end.

Definition comment (fp : stream) : next * stream := comment_go (S (String.length (rest fp))) fp.

(** [s_feof_comment]: returns the result of the last [ifnextchar]. *)
Fixpoint s_feof_comment_go (fuel : nat) (fp : stream) : next * stream :=
  match fuel with
  | O => (NextFalse, fp)
  | S f =>
      let '(n, fp1) := ifnextchar fp COMMENTCHAR in
      match n with
      | NextTrue =>
          s_feof_comment_go f (mkStream (skip_line (rest fp1)) (LineNo fp1 + 1))
      | _ => (n, fp1)
      end
  end.

Definition s_feof_comment (fp : stream) : next * stream :=
  s_feof_comment_go (S (String.length (rest fp))) fp.

Fixpoint s_feof_go (fuel : nat) (fp : stream) : bool * stream :=
  match fuel with
  | O => (false, fp)
  | S f =>
      let '(n, fp1) := s_feof_comment fp in
      match n with
      | NextEOF => (true, fp1)
      | _ =>
          match rest fp1 with
          | EmptyString => (true, fp1)
          | String c s' =>
              if c =c ch_nl then s_feof_go f (mkStream s' (LineNo fp1 + 1))
              else if (c =c ch_sp) || (c =c ch_tab) then s_feof_go f (mkStream s' (LineNo fp1))
              else (false, fp1)
          end
      end
  end.

Definition s_feof (fp : stream) : bool * stream := s_feof_go (S (String.length (rest fp))) fp.

(** ** Atoms *)

(** The loop of [myscanf] inside quotes: the text up to the closing quote,
    which is kept; a backslash keeps itself and the next character. *)
Fixpoint scan_quoted (s : string) : res (string * string) :=
  match s with
  | EmptyString => Err LispError
  | String c s' =>
      if c =c ch_quote then Ret (String c EmptyString, s')
      else if c =c ch_bslash then
        match s' with
        | EmptyString => Err LispError
        | String d s'' => '(b, r) <- scan_quoted s'' ;; Ret (String c (String d b), r)
        end
      else '(b, r) <- scan_quoted s' ;; Ret (String c b, r)
  end.

(** The loop of [myscanf] outside quotes: a backslash is replaced by the next
    character (the byte of EOF, 255, at the end of the file). *)
Fixpoint scan_atom (s : string) : string * string :=
  match s with
  | EmptyString => (EmptyString, EmptyString)
  | String c s' =>
      if dividing_code_p c then (EmptyString, s)
      else if c =c ch_bslash then
        match s' with
        | EmptyString => (String "255" EmptyString, EmptyString)
        | String d s'' => let '(b, r) := scan_atom s'' in (String d b, r)
        end
      else let '(b, r) := scan_atom s' in (String c b, r)
  end.

Inductive scanned : Type :=
| Scan0                                  (* return 0 *)
| ScanEOF                                (* return EOF *)
| Scan1 (buf : string).                  (* return 1, the bytes written *)

Definition myscanf (fp : stream) : res (scanned * stream) :=
  match rest fp with
  | EmptyString => Ret (ScanEOF, fp)
  | String c s' =>
      if dividing_code_p c then Ret (Scan0, mkStream s' (LineNo fp))
      else if c =c ch_quote then
        '(b, r) <- scan_quoted s' ;;
        Ret (Scan1 (String c b), mkStream r (LineNo fp))
      else
        let '(b, r) := scan_atom (rest fp) in
        Ret (Scan1 b, mkStream r (LineNo fp))
  end.

(** The C string in a buffer ends at the first NUL byte. *)
Definition until_nul (s : string) : string := fst (span_not ch_nul s).

Section Reader.

(** The size of [Buffer], from [stdio.h]. *)
Context (BUFSIZE : Z).

Definition s_read_atom (fp : stream) : res (CELL * stream) :=
  let fp1 := snd (comment fp) in
  '(n, fp2) <- myscanf fp1 ;;
  match n with
  | Scan0 | ScanEOF => Err LispError
  | Scan1 buf =>
      if BUFSIZE <? slen buf + 1 then Err OutOfBounds
      else
        let a := until_nul buf in
        Ret (if str_eq a NILSYMBOL then NIL else ATOM a, fp2)
  end.

Fixpoint s_read_go (fuel : nat) (fp : stream) : res (CELL * stream) :=
  match fuel with
  | O => Err OutOfFuel
  | S f =>
      match ifnextchar fp BPARENTHESIS with
      | (NextTrue, fp1) => s_read_car_go f fp1
      | (NextFalse, fp1) => s_read_atom fp1
      | (NextEOF, _) => Err LispError
      end
  end
with s_read_car_go (fuel : nat) (fp : stream) : res (CELL * stream) :=
  match fuel with
  | O => Err OutOfFuel
  | S f =>
      let fp0 := snd (comment fp) in
      match ifnextchar fp0 EPARENTHESIS with
      | (NextTrue, fp1) => Ret (NIL, fp1)
      | (NextFalse, fp1) =>
          '(a, fp2) <- s_read_go f fp1 ;;
          '(d, fp3) <- s_read_cdr_go f fp2 ;;
          Ret (CONS a d, fp3)
      | (NextEOF, _) => Err LispError
      end
  end
with s_read_cdr_go (fuel : nat) (fp : stream) : res (CELL * stream) :=
  match fuel with
  | O => Err OutOfFuel
  | S f =>
      let fp0 := snd (comment fp) in
      match ifnextchar fp0 EPARENTHESIS with
      | (NextTrue, fp1) => Ret (NIL, fp1)
      | (NextFalse, fp1) => s_read_car_go f fp1
      | (NextEOF, _) => Err LispError
      end
  end.

(** Each call nests at most three deep before a character is consumed. *)
Definition s_read_fuel (fp : stream) : nat := (3 * String.length (rest fp) + 4)%nat.

Definition s_read (fp : stream) : res (CELL * stream) := s_read_go (s_read_fuel fp) fp.

(** [while (!s_feof(fp)) { ... s_read(fp) ... }]: the loop of the rule files
    (read_rule.c). *)
Fixpoint read_all_go (fuel : nat) (fp : stream) : res (list CELL) :=
  match fuel with
  | O => Err OutOfFuel
  | S f =>
      let '(e, fp1) := s_feof fp in
      if e then Ret []
      else
        '(c, fp2) <- s_read fp1 ;;
        cs <- read_all_go f fp2 ;;
        Ret (c :: cs)
  end.

Definition read_all (fp : stream) : res (list CELL) :=
  read_all_go (S (String.length (rest fp))) fp.

(** ** The printer *)

Fixpoint s_print_ (cell : CELL) : string :=
  match cell with
  | NIL => NILSYMBOL
  | CONS a d => String BPARENTHESIS (s_print_ a ++ (s_print_cdr d ++ String EPARENTHESIS EmptyString))
  | ATOM a => a
  end
with s_print_cdr (cell : CELL) : string :=
  match cell with
  | NIL => EmptyString
  | CONS a d => String ch_sp (s_print_ a ++ s_print_cdr d)
  | ATOM a => String ch_sp a
  end.

Definition s_print (cell : CELL) : string := (s_print_ cell ++ String ch_nl EmptyString)%string.

#[local] Arguments comment : simpl never.
#[local] Arguments ifnextchar : simpl never.

(** ** Progress and termination *)

Definition left (fp : stream) : nat := String.length (rest fp).

Lemma ifnextchar_go_spec : forall s ln i n fp, ifnextchar_go s ln i = (n, fp) ->
  (left fp <= String.length s)%nat /\
  match n with
  | NextEOF => rest fp = EmptyString
  | NextTrue => (left fp < String.length s)%nat
  | NextFalse => exists c r, rest fp = String c r /\ blank c = false /\ (c =c i) = false
  end.
Proof.
  induction s as [|c s IH]; intros ln i n fp H; cbn in H.
  - inv H. cbn. auto.
  - destruct (blank c) eqn:Eb.
    + apply IH in H as [H1 H2]. cbn [String.length]. split; [lia|].
      destruct n; auto.
    + destruct (c =c i) eqn:Ei; inv H; unfold left; cbn; split; eauto.
Qed.

Lemma ifnextchar_spec : forall fp0 i n fp, ifnextchar fp0 i = (n, fp) ->
  (left fp <= left fp0)%nat /\
  match n with
  | NextEOF => rest fp = EmptyString
  | NextTrue => (left fp < left fp0)%nat
  | NextFalse => exists c r, rest fp = String c r /\ blank c = false /\ (c =c i) = false
  end.
Proof. intros. eapply ifnextchar_go_spec; eassumption. Qed.

Lemma skip_line_length : forall s, (String.length (skip_line s) <= String.length s)%nat.
Proof. induction s as [|c s IH]; cbn; auto. destruct (c =c ch_nl); cbn; lia. Qed.

Lemma comment_go_left : forall f fp, (left (snd (comment_go f fp)) <= left fp)%nat.
Proof.
  induction f as [|f IH]; intros fp; cbn [comment_go]; [cbn; lia|].
  destruct (ifnextchar fp COMMENTCHAR) as [n fp1] eqn:E.
  apply ifnextchar_spec in E as [E1 E2]. destruct n; cbn [snd]; try lia.
  etransitivity; [apply IH|]. unfold left in *. cbn.
  pose proof (skip_line_length (rest fp1)). lia.
Qed.

Lemma comment_left : forall fp, (left (snd (comment fp)) <= left fp)%nat.
Proof. intros. apply comment_go_left. Qed.

Lemma scan_quoted_app : forall s b r, scan_quoted s = Ret (b, r) -> s = (b ++ r)%string.
Proof.
  assert (G : forall n s b r, (String.length s <= n)%nat ->
    scan_quoted s = Ret (b, r) -> s = (b ++ r)%string).
  { induction n as [|n IH]; intros s b r Hn H; destruct s as [|c s]; cbn in *; try discriminate; try lia.
    destruct (c =c ch_quote); [inv H; reflexivity|].
    destruct (c =c ch_bslash).
    - destruct s as [|d s]; [discriminate|]. destruct (scan_quoted s) as [[b' r']|] eqn:E; inv H.
      cbn in *. apply IH in E; [now rewrite E at 1 | lia].
    - destruct (scan_quoted s) as [[b' r']|] eqn:E; inv H. apply IH in E; [|lia].
      now rewrite E at 1. }
  intros. eapply G; eauto.
Qed.

Lemma scan_atom_length : forall n s b r, (String.length s <= n)%nat -> scan_atom s = (b, r) ->
  (String.length r <= String.length s)%nat /\
  (forall c s', s = String c s' -> dividing_code_p c = false -> String.length r < String.length s)%nat.
Proof.
  induction n as [|n IH]; intros s b r Hn H; destruct s as [|c s]; cbn in *; try lia.
  - inv H. split; [auto | discriminate].
  - inv H. split; [auto | discriminate].
  - destruct (dividing_code_p c) eqn:Ed.
    { inv H. cbn. split; [lia|]. intros c' s' Hc. inv Hc. congruence. }
    assert (String.length r < S (String.length s))%nat; [|split; [lia|auto]].
    destruct (c =c ch_bslash).
    + destruct s as [|d s]; [inv H; cbn; lia|].
      destruct (scan_atom s) as [b' r'] eqn:E. inv H. cbn in Hn.
      apply IH in E as [E _]; cbn; lia.
    + destruct (scan_atom s) as [b' r'] eqn:E. inv H. apply IH in E as [E _]; lia.
Qed.

Lemma myscanf_left : forall fp buf fp', myscanf fp = Ret (Scan1 buf, fp') -> (left fp' < left fp)%nat.
Proof.
  intros [s ln] buf fp'. unfold myscanf, left. cbn. destruct s as [|c s]; [discriminate|].
  destruct (dividing_code_p c) eqn:Ed; [discriminate|].
  destruct (c =c ch_quote).
  - destruct (scan_quoted s) as [[b r]|] eqn:E; [|discriminate]. intros H. inv H. cbn.
    apply scan_quoted_app in E. subst s. rewrite length_sapp. lia.
  - destruct (scan_atom (String c s)) as [b r] eqn:E. intros H. inv H. cbn.
    eapply scan_atom_length in E as [_ E]; [|reflexivity]. cbn in E. eauto.
Qed.

Lemma s_read_atom_left : forall fp c fp', s_read_atom fp = Ret (c, fp') -> (left fp' < left fp)%nat.
Proof.
  intros fp c fp'. unfold s_read_atom.
  destruct (myscanf (snd (comment fp))) as [[[| |buf] fp2]|] eqn:E; try discriminate.
  destruct (BUFSIZE <? slen buf + 1); [discriminate|]. intros H. inv H.
  apply myscanf_left in E. pose proof (comment_left fp). lia.
Qed.

Lemma scan_quoted_no_fuel : forall n s, (String.length s <= n)%nat -> scan_quoted s <> Err OutOfFuel.
Proof.
  induction n as [|n IH]; intros s Hn; destruct s as [|c s]; cbn in *; try discriminate; try lia.
  destruct (c =c ch_quote); [discriminate|]. destruct (c =c ch_bslash).
  - destruct s as [|d s]; [discriminate|]. cbn in Hn.
    specialize (IH s ltac:(lia)). destruct (scan_quoted s) as [[]|]; congruence.
  - specialize (IH s ltac:(lia)). destruct (scan_quoted s) as [[]|]; congruence.
Qed.

Lemma s_read_atom_no_fuel : forall fp, s_read_atom fp <> Err OutOfFuel.
Proof.
  intros fp. unfold s_read_atom, myscanf. destruct (snd (comment fp)) as [s ln]. cbn.
  destruct s as [|c s]; [discriminate|]. destruct (dividing_code_p c); [discriminate|].
  destruct (c =c ch_quote).
  - pose proof (scan_quoted_no_fuel _ s (le_n _)).
    destruct (scan_quoted s) as [[]|]; [|congruence]. destruct (_ <? _); discriminate.
  - destruct (scan_atom (String c s)). destruct (_ <? _); discriminate.
Qed.

Lemma read_go_left : forall f,
  (forall fp c fp', s_read_go f fp = Ret (c, fp') -> (left fp' < left fp)%nat) /\
  (forall fp c fp', s_read_car_go f fp = Ret (c, fp') -> (left fp' < left fp)%nat) /\
  (forall fp c fp', s_read_cdr_go f fp = Ret (c, fp') -> (left fp' < left fp)%nat).
Proof.
  induction f as [|f [IHr [IHa IHd]]]; [repeat split; discriminate|].
  repeat split; intros fp c fp' H; cbn in H.
  - destruct (ifnextchar fp BPARENTHESIS) as [n fp1] eqn:E.
    apply ifnextchar_spec in E as [E1 E2]. destruct n; [discriminate| |].
    + apply IHa in H. lia.
    + apply s_read_atom_left in H. lia.
  - pose proof (comment_left fp) as Hc.
    destruct (ifnextchar (snd (comment fp)) EPARENTHESIS) as [n fp1] eqn:E.
    apply ifnextchar_spec in E as [E1 E2]. destruct n; [discriminate| |].
    + inv H. lia.
    + destruct (s_read_go f fp1) as [[a fp2]|] eqn:Ea; [|discriminate].
      destruct (s_read_cdr_go f fp2) as [[d fp3]|] eqn:Ed; [|discriminate].
      inv H. apply IHr in Ea. apply IHd in Ed. lia.
  - pose proof (comment_left fp) as Hc.
    destruct (ifnextchar (snd (comment fp)) EPARENTHESIS) as [n fp1] eqn:E.
    apply ifnextchar_spec in E as [E1 E2]. destruct n; [discriminate| |].
    + inv H. lia.
    + apply IHa in H. lia.
Qed.

Lemma read_go_fuel : forall f,
  (forall fp, (3 * left fp + 1 <= f)%nat -> s_read_go f fp <> Err OutOfFuel) /\
  (forall fp, (3 * left fp + 2 <= f)%nat -> s_read_car_go f fp <> Err OutOfFuel) /\
  (forall fp, (3 * left fp + 3 <= f)%nat -> s_read_cdr_go f fp <> Err OutOfFuel).
Proof.
  induction f as [|f [IHr [IHa IHd]]]; [repeat split; intros; lia|].
  repeat split; intros fp Hf; cbn.
  - destruct (ifnextchar fp BPARENTHESIS) as [n fp1] eqn:E.
    apply ifnextchar_spec in E as [E1 E2]. destruct n; [discriminate| |].
    + apply IHa. lia.
    + apply s_read_atom_no_fuel.
  - pose proof (comment_left fp) as Hc.
    destruct (ifnextchar (snd (comment fp)) EPARENTHESIS) as [n fp1] eqn:E.
    apply ifnextchar_spec in E as [E1 E2]. destruct n; [discriminate|discriminate|].
    specialize (IHr fp1 ltac:(lia)). destruct (s_read_go f fp1) as [[a fp2]|] eqn:Ea; [|congruence].
    apply read_go_left in Ea. specialize (IHd fp2 ltac:(lia)).
    destruct (s_read_cdr_go f fp2) as [[d fp3]|]; congruence.
  - pose proof (comment_left fp) as Hc.
    destruct (ifnextchar (snd (comment fp)) EPARENTHESIS) as [n fp1] eqn:E.
    apply ifnextchar_spec in E as [E1 E2]. destruct n; [discriminate|discriminate|].
    apply IHa. lia.
Qed.

(** ** Cells the printer writes so that the reader reads them back *)

Definition plain_char (c : ascii) : bool :=
  negb (dividing_code_p c) && negb (c =c ch_bslash) && negb (c =c ch_nul).

Fixpoint all_chars (p : ascii -> bool) (s : string) : bool :=
  match s with EmptyString => true | String c s' => p c && all_chars p s' end.

(** An atom without special characters. *)
Definition plain_atom (a : string) : bool :=
  match a with
  | EmptyString => false
  | String c _ => negb (c =c ch_quote) && all_chars plain_char a && negb (str_eq a NILSYMBOL)
  end.

(** An atom in quotes: its own text is one quoted scan. *)
Definition quoted_atom (a : string) : bool :=
  match a with
  | EmptyString => false
  | String c b =>
      (c =c ch_quote) && str_free ch_nul b &&
      match scan_quoted b with Ret (_, EmptyString) => true | _ => false end
  end.

Definition atom_ok (a : string) : bool :=
  (plain_atom a || quoted_atom a) && (slen a + 1 <=? BUFSIZE).

(** Proper lists of printable atoms. *)
Fixpoint cell_ok (c : CELL) : bool :=
  match c with
  | NIL => 4 <=? BUFSIZE
  | ATOM a => atom_ok a
  | CONS a d => cell_ok a && negb (Atomp d) && cell_ok d
  end.

Definition delimited (t : string) : bool :=
  match t with EmptyString => true | String c _ => dividing_code_p c end.

(** A character that starts a printed cell. *)
Definition starter (c : ascii) : bool :=
  negb (blank c) && negb (c =c COMMENTCHAR) && negb (c =c EPARENTHESIS).

Lemma starter_false : forall c, starter c = true ->
  (c =c ch_nl) = false /\ (c =c ch_sp) = false /\ (c =c ch_tab) = false /\
  blank c = false /\ (c =c COMMENTCHAR) = false /\ (c =c EPARENTHESIS) = false.
Proof.
  intros c H. unfold starter, blank in *.
  destruct (c =c ch_nl), (c =c ch_sp), (c =c ch_tab), (c =c ch_cr), (c =c COMMENTCHAR),
    (c =c EPARENTHESIS); try discriminate; auto 10.
Qed.

Lemma comment_starter : forall c s ln, starter c = true ->
  comment (mkStream (String c s) ln) = (NextFalse, mkStream (String c s) ln).
Proof.
  intros c s ln H. apply starter_false in H as (Hn & _ & _ & Hb & Hc & _).
  unfold comment. cbn. unfold ifnextchar. cbn. now rewrite Hb, Hc, Hn.
Qed.

Lemma ifnextchar_starter : forall c s ln i, starter c = true ->
  ifnextchar (mkStream (String c s) ln) i =
  if c =c i then (NextTrue, mkStream s ln) else (NextFalse, mkStream (String c s) ln).
Proof.
  intros c s ln i H. apply starter_false in H as (Hn & _ & _ & Hb & _ & _).
  unfold ifnextchar. cbn. now rewrite Hb, Hn.
Qed.

Lemma comment_rparen : forall s ln,
  comment (mkStream (String EPARENTHESIS s) ln) = (NextFalse, mkStream (String EPARENTHESIS s) ln).
Proof. reflexivity. Qed.

Lemma comment_space : forall c s ln, starter c = true ->
  comment (mkStream (String ch_sp (String c s)) ln) = (NextFalse, mkStream (String c s) ln).
Proof.
  intros c s ln H. apply starter_false in H as (Hn & _ & _ & Hb & Hc & _).
  unfold comment. cbn. unfold ifnextchar. cbn. now rewrite Hb, Hc, Hn.
Qed.

Lemma not_dividing_starter : forall c, dividing_code_p c = false -> starter c = true /\ (c =c BPARENTHESIS) = false.
Proof.
  intros c H. unfold dividing_code_p in H. unfold starter, blank.
  repeat match goal with H : _ || _ = false |- _ => apply orb_false_iff in H; destruct H end.
  repeat match goal with H : _ = false |- _ => rewrite H; clear H end. auto.
Qed.

Lemma scan_quoted_more : forall n s b r t, (String.length s <= n)%nat ->
  scan_quoted s = Ret (b, r) -> scan_quoted (s ++ t)%string = Ret (b, (r ++ t)%string).
Proof.
  induction n as [|n IH]; intros s b r t Hn H; destruct s as [|c s]; cbn in *; try discriminate; try lia.
  destruct (c =c ch_quote); [inv H; reflexivity|]. destruct (c =c ch_bslash).
  - destruct s as [|d s]; [discriminate|]. destruct (scan_quoted s) as [[b' r']|] eqn:E; inv H.
    cbn in *. erewrite IH; eauto. lia.
  - destruct (scan_quoted s) as [[b' r']|] eqn:E; inv H. erewrite IH; eauto. lia.
Qed.

Lemma scan_atom_plain : forall a t, all_chars plain_char a = true -> delimited t = true ->
  scan_atom (a ++ t)%string = (a, t).
Proof.
  induction a as [|c a IH]; intros t Ha Ht; cbn in *.
  - destruct t as [|c t]; [reflexivity|]. cbn in *. now rewrite Ht.
  - apply andb_true_iff in Ha as [Hc Ha]. unfold plain_char in Hc.
    apply andb_true_iff in Hc as [Hc _]. apply andb_true_iff in Hc as [H1 H2].
    apply negb_true_iff in H1, H2. now rewrite H1, H2, IH.
Qed.

Lemma plain_nul_free : forall a, all_chars plain_char a = true -> str_free ch_nul a = true.
Proof.
  induction a as [|c a IH]; cbn; auto. intros H. apply andb_true_iff in H as [H1 H2].
  unfold plain_char in H1. apply andb_true_iff in H1 as [_ H1]. now rewrite H1, IH.
Qed.

Lemma until_nul_free : forall a, str_free ch_nul a = true -> until_nul a = a.
Proof. intros a H. unfold until_nul. now rewrite span_not_free_all. Qed.

Lemma atom_ok_head : forall a, atom_ok a = true ->
  exists c r, a = String c r /\ dividing_code_p c = false.
Proof.
  intros a H. unfold atom_ok, plain_atom, quoted_atom in H. apply andb_true_iff in H as [H _].
  apply orb_true_iff in H. destruct a as [|c r]; [destruct H; discriminate|].
  exists c, r. split; [reflexivity|]. destruct H as [H|H].
  - cbn in H. unfold plain_char at 1 in H. destruct (dividing_code_p c); [|reflexivity].
    cbn in H. rewrite andb_false_r in H. discriminate.
  - apply andb_true_iff in H as [H _]. apply andb_true_iff in H as [H _].
    apply Ascii.eqb_eq in H. now subst.
Qed.

Lemma s_read_atom_ok : forall a t ln, atom_ok a = true -> delimited t = true ->
  s_read_atom (mkStream (a ++ t)%string ln) = Ret (ATOM a, mkStream t ln).
Proof.
  intros a t ln H Ht. destruct (atom_ok_head a H) as (c & r & -> & Hd).
  unfold s_read_atom. cbn [append]. rewrite comment_starter by now apply not_dividing_starter.
  unfold atom_ok in H. apply andb_true_iff in H as [H Hlen]. apply Z.leb_le in Hlen.
  cbn [snd]. unfold myscanf. cbn [rest LineNo]. rewrite Hd.
  assert (Hb : (BUFSIZE <? slen (String c r) + 1) = false) by (apply Z.ltb_ge; lia).
  apply orb_true_iff in H as [H|H]; cbn in H.
  - apply andb_true_iff in H as [H Hnil]. apply andb_true_iff in H as [Hq Hc].
    apply negb_true_iff in Hq, Hnil. rewrite Hq.
    change (String c (r ++ t)) with (String c r ++ t)%string.
    rewrite (scan_atom_plain (String c r) t Hc Ht).
    rewrite Hb, until_nul_free by now apply plain_nul_free. now rewrite Hnil.
  - apply andb_true_iff in H as [H Hs]. apply andb_true_iff in H as [Hq Hf].
    rewrite Hq. destruct (scan_quoted r) as [[b r']|] eqn:E; [|discriminate].
    destruct r' as [|? ?]; [|discriminate].
    rewrite (scan_quoted_more _ _ _ _ t (le_n _) E). cbn [append].
    apply scan_quoted_app in E. rewrite sapp_nil_r in E. subst b.
    rewrite Hb. apply Ascii.eqb_eq in Hq. subst c.
    rewrite until_nul_free by (cbn; now rewrite Hf). reflexivity.
Qed.

Lemma print_head : forall x, cell_ok x = true ->
  exists c r, s_print_ x = String c r /\ starter c = true.
Proof.
  intros [|a d|a] H; [repeat econstructor..|].
  apply atom_ok_head in H as (c & r & -> & Hd). exists c, r. split; [reflexivity|].
  now apply not_dividing_starter.
Qed.

Lemma print_cdr_delimited : forall d t, cell_ok d = true ->
  delimited (s_print_cdr d ++ String EPARENTHESIS t)%string = true.
Proof. intros [|a d|a] t H; reflexivity. Qed.

(** ** Round trip *)

Lemma ifnextchar_rparen : forall s ln,
  ifnextchar (mkStream (String EPARENTHESIS s) ln) EPARENTHESIS = (NextTrue, mkStream s ln).
Proof. reflexivity. Qed.

(** One element of a list and what follows it. *)
Lemma read_element : forall f a d t ln,
  cell_ok a = true -> cell_ok d = true ->
  s_read_go f (mkStream (s_print_ a ++ (s_print_cdr d ++ String EPARENTHESIS t)) ln) =
    Ret (a, mkStream (s_print_cdr d ++ String EPARENTHESIS t) ln) ->
  s_read_cdr_go f (mkStream (s_print_cdr d ++ String EPARENTHESIS t) ln) = Ret (d, mkStream t ln) ->
  s_read_car_go (S f) (mkStream (s_print_ a ++ (s_print_cdr d ++ String EPARENTHESIS t)) ln) =
    Ret (CONS a d, mkStream t ln).
Proof.
  intros f a d t ln Ha Hd H1 H2. cbn [s_read_car_go].
  destruct (print_head a Ha) as (c & r & Hp & Hs). rewrite Hp in *. cbn [append] in *.
  rewrite comment_starter by exact Hs. cbn [snd].
  rewrite ifnextchar_starter by exact Hs.
  replace (c =c EPARENTHESIS) with false.
  - now rewrite H1, H2.
  - symmetry. now apply starter_false in Hs.
Qed.

Lemma read_print : forall c,
  (forall f t ln, cell_ok c = true -> delimited t = true ->
     (3 * String.length (s_print_ c ++ t) + 1 <= f)%nat ->
     s_read_go f (mkStream (s_print_ c ++ t) ln) = Ret (c, mkStream t ln)) /\
  (forall f t ln, cell_ok c = true -> Atomp c = false ->
     (3 * String.length (s_print_cdr c ++ String EPARENTHESIS t) + 3 <= f)%nat ->
     s_read_cdr_go f (mkStream (s_print_cdr c ++ String EPARENTHESIS t) ln) = Ret (c, mkStream t ln)).
Proof.
  induction c as [|a [IHa _] d [_ IHd]|a]; split; intros f t ln Hok Hx Hf.
  - destruct f as [|f]; [lia|]. cbn -[s_read_atom].
    unfold s_read_atom. rewrite ifnextchar_starter by reflexivity. cbn.
    rewrite comment_starter by reflexivity. cbn.
    destruct t as [|c t]; cbn in *; [|rewrite Hx]; cbn; rewrite (proj2 (Z.ltb_ge _ _)) by (cbn; lia); reflexivity.
  - destruct f as [|f]; [lia|]. cbn [s_print_cdr append s_read_cdr_go].
    rewrite comment_rparen. cbn [snd]. now rewrite ifnextchar_rparen.
  - destruct f as [|f]; [lia|]. cbn [s_print_ append s_read_go] in *.
    rewrite ifnextchar_starter by reflexivity. cbn [Ascii.eqb Bool.eqb BPARENTHESIS].
    cbn in Hok. apply andb_true_iff in Hok as [Hok Hd]. apply andb_true_iff in Hok as [Ha Hn].
    apply negb_true_iff in Hn. rewrite !sapp_assoc in *. cbn [append] in *. cbn [String.length] in Hf.
    pose proof (length_sapp (s_print_ a) (s_print_cdr d ++ String EPARENTHESIS t)) as Hl.
    pose proof (print_head a Ha) as (c & r & Hc & _). rewrite Hc in Hl at 2. cbn in Hl.
    destruct f as [|f]; [lia|].
    apply read_element; auto.
    + apply IHa; auto using print_cdr_delimited. lia.
    + apply IHd; auto. lia.
  - destruct f as [|f]; [lia|]. cbn [s_print_cdr append s_read_cdr_go] in *.
    cbn in Hok. apply andb_true_iff in Hok as [Hok Hd]. apply andb_true_iff in Hok as [Ha Hn].
    apply negb_true_iff in Hn. rewrite !sapp_assoc in *. cbn [append] in *. cbn [String.length] in Hf.
    pose proof (length_sapp (s_print_ a) (s_print_cdr d ++ String EPARENTHESIS t)) as Hl.
    pose proof (print_head a Ha) as (c & r & Hc & Hs). rewrite Hc in Hl at 2. cbn in Hl.
    rewrite Hc at 1. cbn [append]. rewrite comment_space by exact Hs. cbn [snd].
    rewrite ifnextchar_starter by exact Hs.
    assert (Hr : (c =c EPARENTHESIS) = false) by now apply starter_false in Hs.
    rewrite Hr. destruct f as [|f]; [lia|].
    change (String c (r ++ (s_print_cdr d ++ String EPARENTHESIS t)))
      with (String c r ++ (s_print_cdr d ++ String EPARENTHESIS t))%string.
    rewrite <- Hc. apply read_element; auto.
    + apply IHa; auto using print_cdr_delimited. lia.
    + apply IHd; auto. lia.
  - destruct f as [|f]; [lia|]. cbn [s_print_ s_read_go cell_ok] in *.
    destruct (atom_ok_head a Hok) as (c & r & -> & Hd). cbn [append].
    destruct (not_dividing_starter c Hd) as [Hs Hb].
    rewrite ifnextchar_starter, Hb by exact Hs.
    now apply (s_read_atom_ok (String c r)).
  - discriminate.
Qed.

Lemma s_read_print : forall c t ln, cell_ok c = true -> delimited t = true ->
  s_read (mkStream (s_print_ c ++ t) ln) = Ret (c, mkStream t ln).
Proof.
  intros. unfold s_read, s_read_fuel. cbn [rest]. apply read_print; auto. lia.
Qed.

Lemma s_feof_starter : forall c s ln, starter c = true ->
  s_feof (mkStream (String c s) ln) = (false, mkStream (String c s) ln).
Proof.
  intros c s ln H. unfold s_feof. cbn. unfold s_feof_comment. cbn.
  rewrite ifnextchar_starter by exact H.
  apply starter_false in H as (Hn & Hs & Ht & _ & Hc & _). rewrite Hc. cbn.
  now rewrite Hn, Hs, Ht.
Qed.

Lemma s_feof_nl_starter : forall c s ln, starter c = true ->
  s_feof (mkStream (String ch_nl (String c s)) ln) = (false, mkStream (String c s) (ln + 1)).
Proof.
  intros c s ln H. unfold s_feof. cbn. unfold s_feof_comment. cbn.
  unfold ifnextchar. cbn.
  apply starter_false in H as (Hn & Hs & Ht & Hb & Hc & _). rewrite Hb, Hc. cbn.
  now rewrite Hn, Hs, Ht.
Qed.

Definition print_all (cs : list CELL) : string := fold_right (fun c s => (s_print c ++ s)%string) EmptyString cs.

Lemma read_all_go_print : forall cs f ln (nl : bool),
  forallb cell_ok cs = true ->
  (String.length (print_all cs) < f)%nat ->
  read_all_go f (mkStream (if nl then String ch_nl (print_all cs) else print_all cs) ln) = Ret cs.
Proof.
  induction cs as [|c cs IH]; intros f ln nl Hok Hf; (destruct f as [|f]; [lia|]).
  - destruct nl; reflexivity.
  - cbn [forallb] in Hok. apply andb_true_iff in Hok as [Hc Hcs].
    destruct (print_head c Hc) as (h & r & Hp & Hs).
    assert (Ep : print_all (c :: cs) = (s_print_ c ++ String ch_nl (print_all cs))%string).
    { cbn. unfold s_print. now rewrite sapp_assoc. }
    rewrite Ep in *. cbn [read_all_go].
    assert (Ef : exists ln', s_feof (mkStream (if nl then String ch_nl (s_print_ c ++ String ch_nl (print_all cs))
                  else (s_print_ c ++ String ch_nl (print_all cs))%string) ln) =
                (false, mkStream (s_print_ c ++ String ch_nl (print_all cs)) ln')).
    { rewrite Hp. cbn [append]. destruct nl; [exists (ln + 1)|exists ln];
        [now apply s_feof_nl_starter | now apply s_feof_starter]. }
    destruct Ef as [ln' ->]. rewrite s_read_print by auto.
    rewrite (IH f ln' true); auto.
    rewrite length_sapp in Hf. cbn in Hf. lia.
Qed.

(** ** Fuel of the comment loops *)

Lemma comment_go_more : forall f g fp, (left fp < f)%nat -> (left fp < g)%nat ->
  comment_go f fp = comment_go g fp.
Proof.
  induction f as [|f IH]; intros [|g] fp Hf Hg; try lia. cbn [comment_go].
  destruct (ifnextchar fp COMMENTCHAR) as [n fp1] eqn:E.
  apply ifnextchar_spec in E as [E1 E2]. destruct n; auto.
  pose proof (skip_line_length (rest fp1)).
  rewrite (IH g); unfold left in *; cbn; auto; lia.
Qed.

Lemma s_feof_comment_go_more : forall f g fp, (left fp < f)%nat -> (left fp < g)%nat ->
  s_feof_comment_go f fp = s_feof_comment_go g fp.
Proof.
  induction f as [|f IH]; intros [|g] fp Hf Hg; try lia. cbn [s_feof_comment_go].
  destruct (ifnextchar fp COMMENTCHAR) as [n fp1] eqn:E.
  apply ifnextchar_spec in E as [E1 E2]. destruct n; auto.
  pose proof (skip_line_length (rest fp1)).
  apply IH; unfold left in *; cbn; lia.
Qed.

Lemma s_feof_comment_left : forall f fp, (left (snd (s_feof_comment_go f fp)) <= left fp)%nat.
Proof.
  induction f as [|f IH]; intros fp; cbn [s_feof_comment_go]; [cbn; lia|].
  destruct (ifnextchar fp COMMENTCHAR) as [n fp1] eqn:E.
  apply ifnextchar_spec in E as [E1 E2]. destruct n; cbn [snd]; try lia.
  etransitivity; [apply IH|]. unfold left in *. cbn.
  pose proof (skip_line_length (rest fp1)). lia.
Qed.

Lemma s_feof_go_more : forall f g fp, (left fp < f)%nat -> (left fp < g)%nat ->
  s_feof_go f fp = s_feof_go g fp.
Proof.
  induction f as [|f IH]; intros [|g] fp Hf Hg; try lia. cbn [s_feof_go].
  pose proof (s_feof_comment_left (S (String.length (rest fp))) fp) as H.
  fold (s_feof_comment fp) in H. destruct (s_feof_comment fp) as [n fp1]. cbn [snd] in H.
  unfold left in *. destruct n; auto.
  all: destruct (rest fp1) as [|c s']; auto; cbn [String.length] in *.
  all: rewrite !(IH g) by (cbn; lia); reflexivity.
Qed.

Lemma s_feof_go_left : forall f fp, (left (snd (s_feof_go f fp)) <= left fp)%nat.
Proof.
  induction f as [|f IH]; intros fp; cbn [s_feof_go]; [cbn; lia|].
  pose proof (s_feof_comment_left (S (String.length (rest fp))) fp) as H.
  fold (s_feof_comment fp) in H.
  destruct (s_feof_comment fp) as [n fp1]. cbn [snd] in H.
  assert (G : forall s' ln, (String.length s' <= left fp1)%nat ->
              (left (snd (s_feof_go f (mkStream s' ln))) <= left fp)%nat).
  { intros. etransitivity; [apply IH|]. unfold left in *. cbn. lia. }
  destruct n; cbn [snd]; auto.
  all: destruct (rest fp1) as [|c s'] eqn:Er; cbn [snd]; [lia|].
  all: unfold left in *; rewrite Er in *; cbn [String.length] in *.
  all: destruct (c =c ch_nl); [apply G; lia|].
  all: destruct ((c =c ch_sp) || (c =c ch_tab)); [apply G; lia|]; cbn [snd]; rewrite Er; cbn; lia.
Qed.

Lemma read_all_go_fuel : forall f fp, (left fp < f)%nat -> read_all_go f fp <> Err OutOfFuel.
Proof.
  induction f as [|f IH]; intros fp Hf; [lia|]. cbn [read_all_go].
  pose proof (s_feof_go_left (S (String.length (rest fp))) fp) as Hl. fold (s_feof fp) in Hl.
  destruct (s_feof fp) as [e fp1]. cbn [snd] in Hl. destruct e; [discriminate|].
  pose proof (proj1 (read_go_fuel (s_read_fuel fp1)) fp1) as Hr. fold (s_read fp1) in Hr.
  destruct (s_read fp1) as [[c fp2]|e] eqn:E.
  - apply read_go_left in E. specialize (IH fp2 ltac:(lia)).
    destruct (read_all_go f fp2); congruence.
  - intros H. apply Hr; [unfold s_read_fuel, left; lia | congruence].
Qed.

(** Lists without dotted pairs. *)
Fixpoint proper (c : CELL) : bool :=
  match c with
  | CONS a d => proper a && proper d && negb (Atomp d)
  | _ => true
  end.

Lemma s_read_atom_shape : forall fp c fp', s_read_atom fp = Ret (c, fp') -> proper c = true.
Proof.
  intros fp c fp'. unfold s_read_atom.
  destruct (myscanf (snd (comment fp))) as [[[| |buf] fp2]|]; try discriminate.
  destruct (BUFSIZE <? slen buf + 1); [discriminate|]. intros H. inv H.
  now destruct (str_eq (until_nul buf) NILSYMBOL).
Qed.

Lemma read_go_proper : forall f,
  (forall fp c fp', s_read_go f fp = Ret (c, fp') -> proper c = true) /\
  (forall fp c fp', s_read_car_go f fp = Ret (c, fp') -> proper c = true /\ Atomp c = false) /\
  (forall fp c fp', s_read_cdr_go f fp = Ret (c, fp') -> proper c = true /\ Atomp c = false).
Proof.
  induction f as [|f [IHr [IHa IHd]]]; [repeat split; discriminate|].
  split; [|split]; intros fp c fp' H; cbn in H.
  - destruct (ifnextchar fp BPARENTHESIS) as [[] fp1]; [discriminate| |].
    + now apply IHa in H.
    + now apply s_read_atom_shape in H.
  - destruct (ifnextchar (snd (comment fp)) EPARENTHESIS) as [[] fp1]; [discriminate|now inv H|].
    destruct (s_read_go f fp1) as [[a fp2]|] eqn:Ea; [|discriminate].
    destruct (s_read_cdr_go f fp2) as [[d fp3]|] eqn:Ed; [|discriminate].
    inv H. apply IHr in Ea. apply IHd in Ed as [Ed1 Ed2]. cbn. now rewrite Ea, Ed1, Ed2.
  - destruct (ifnextchar (snd (comment fp)) EPARENTHESIS) as [[] fp1]; [discriminate|now inv H|].
    now apply IHa in H.
Qed.

End Reader.

(** ** Properties *)

(** Printing cells one per line with [s_print] and reading the text back
    with the loop of the rule files ([s_feof], [s_read]) gives the same cells,
    for proper lists of atoms that are free of special characters or are one
    quoted text, and fit the buffer. *)
Theorem read_all_print_all : forall BUFSIZE cs,
  forallb (cell_ok BUFSIZE) cs = true ->
  read_all BUFSIZE (mkStream (print_all cs) 1) = Ret cs.
Proof.
  intros BUFSIZE cs H. unfold read_all. cbn [rest].
  apply (read_all_go_print BUFSIZE cs _ 1 false H). lia.
Qed.

Definition sample_cells : list CELL :=
  [CONS (ATOM "a") (CONS (CONS (ATOM "&D:1") NIL) (CONS NIL NIL));
   ATOM (String ch_quote (String "x" (String ch_sp (String ch_quote EmptyString))))].

Lemma read_all_print_all_witness :
  forallb (cell_ok 8192) sample_cells = true /\
  read_all 8192 (mkStream (print_all sample_cells) 1) = Ret sample_cells.
Proof. split; [reflexivity | apply (read_all_print_all 8192 sample_cells); reflexivity]. Defined.

(** The reader terminates on every input: neither [s_read] nor the
    reading loop can run out of the fuel the model gives them. *)
Theorem reader_terminates : forall BUFSIZE fp,
  s_read BUFSIZE fp <> Err OutOfFuel /\ read_all BUFSIZE fp <> Err OutOfFuel.
Proof.
  intros BUFSIZE fp. split.
  - apply read_go_fuel. unfold s_read_fuel, left. lia.
  - apply read_all_go_fuel. unfold left. lia.
Qed.

(** What [s_read] returns is a proper list structure (it can build no
    dotted pair), and it has consumed at least one character. *)
Theorem s_read_proper_progress : forall BUFSIZE fp c fp',
  s_read BUFSIZE fp = Ret (c, fp') ->
  proper c = true /\ (String.length (rest fp') < String.length (rest fp))%nat.
Proof.
  intros BUFSIZE fp c fp' H. split.
  - exact (proj1 (read_go_proper BUFSIZE _) _ _ _ H).
  - exact (proj1 (read_go_left BUFSIZE _) _ _ _ H).
Qed.

Lemma s_read_proper_progress_witness :
  s_read 8192 (mkStream "(a (b))" 1) = Ret (CONS (ATOM "a") (CONS (CONS (ATOM "b") NIL) NIL), mkStream EmptyString 1) /\
  proper (CONS (ATOM "a") (CONS (CONS (ATOM "b") NIL) NIL)) = true /\
  (String.length EmptyString < String.length "(a (b))")%nat.
Proof.
  split; [reflexivity|].
  apply (s_read_proper_progress 8192 (mkStream "(a (b))" 1) _ (mkStream EmptyString 1)). reflexivity.
Defined.
