(* ===== verification/Feature.v ===== *)
(** * FEATURE lists and patterns (src/system/feature.c)

    A morpheme, bunsetsu or basic phrase carries a linked list of FEATURE
    strings; rules carry the same lists and, as conditions, FEATURE_PATTERNs:
    at most [RF_MAX] lists, an OR of ANDs. *)
From Stdlib Require Import ZArith List Bool String Ascii Lia.
Import ListNotations.
From S2P Require Import Prelude CStr Lisp.

(** [FEATURE *]: the [cp] strings, in order; the null pointer is []. *)
Definition FEATURE := list string.

(** [FEATURE_PATTERN]: the entries of [fp]; entries past the end of the list
    are null pointers. *)
Definition FEATURE_PATTERN := list FEATURE.

Definition RF_MAX : nat := 16.

Definition colon : ascii := ":".

(** ** Comparison and lookup *)

Definition comp_feature (data pattern : string) : bool :=
  str_eq data pattern ||
  (starts_with pattern data && (byte_at data (String.length pattern) =? byte_of colon)).

Fixpoint check_feature (fp : FEATURE) (fname : string) : option string :=
  match fp with
  | [] => None
  | cp :: next => if comp_feature cp fname then Some cp else check_feature next fname
  end.

Definition has_feature (fp : FEATURE) (fname : string) : bool :=
  match check_feature fp fname with Some _ => true | None => false end.

(** [sscanf(data, "%*[^:]:%*[^:]:%s", decision)] into a buffer of nine bytes. *)
Fixpoint nonspace_run (s : string) : string :=
  match s with
  | String c s' => if is_space c then EmptyString else String c (nonspace_run s')
  | EmptyString => EmptyString
  end.

Definition after_column (s : string) : option string :=
  match span_not colon s with
  | (String _ _, String _ r) => Some r
  | _ => None
  end.

Definition comp_feature_NE (data pattern : string) : res bool :=
  match after_column data with
  | Some r =>
      match after_column r with
      | Some r2 =>
          let decision := nonspace_run (skip_spaces r2) in
          if 9 <=? slen decision then Err OutOfBounds
          else Ret (negb (str_eq decision EmptyString) && str_eq decision pattern)
      | None => Ret false
      end
  | None => Ret false
  end.

Fixpoint check_feature_NE (fp : FEATURE) (fname : string) : res (option string) :=
  match fp with
  | [] => Ret None
  | cp :: next =>
      b <- comp_feature_NE cp fname ;;
      if b then Ret (Some cp) else check_feature_NE next fname
  end.

(** ** Building lists *)

Definition copy_cfeature (fpp : FEATURE) (fname : string) : FEATURE := fpp ++ [fname].

Definition append_feature (fpp afp : FEATURE) : FEATURE := fpp ++ afp.

Definition clear_feature (fpp : FEATURE) : FEATURE := [].

(** The walk over a list cell by [car] and [cdr] up to the first NIL. *)
Fixpoint list2feature (cp : CELL) (fpp : FEATURE) : res FEATURE :=
  match cp with
  | NIL => Ret fpp
  | ATOM _ => Err LispError
  | CONS a d =>
      if Null a then Ret fpp
      else s <- _Atom a ;; list2feature d (copy_cfeature fpp s)
  end.

(** [f->fp[nth]] is written for each list and then once more with NULL. *)
Fixpoint list2feature_pattern_go (cell : CELL) (nth : nat) : res FEATURE_PATTERN :=
  match cell with
  | NIL => if (nth <? RF_MAX)%nat then Ret [] else Err OutOfBounds
  | ATOM _ => Err LispError
  | CONS a d =>
      if (nth <? RF_MAX)%nat then
        if Null a then Ret []
        else
          f <- list2feature a [] ;;
          fs <- list2feature_pattern_go d (S nth) ;;
          Ret (f :: fs)
      else Err OutOfBounds
  end.

Definition list2feature_pattern (cell : CELL) : res FEATURE_PATTERN :=
  list2feature_pattern_go cell 0.

(** [string2feature_pattern]: [cur] is the text since [start_cp], [fpp] the
    list being built at [f->fp[nth]]. *)
Fixpoint s2fp_loop (loop_cp cur : string) (fpp : FEATURE) : FEATURE_PATTERN :=
  match loop_cp with
  | String c s1 =>
      match s1 with
      | String d s2 =>
          if Ascii.eqb c "&" && Ascii.eqb d "&" then
            s2fp_loop s2 EmptyString (copy_cfeature fpp cur)
          else if Ascii.eqb c "|" && Ascii.eqb d "|" then
            copy_cfeature fpp cur :: s2fp_loop s2 EmptyString []
          else s2fp_loop s1 (cur ++ String c EmptyString)%string fpp
      | EmptyString => s2fp_loop s1 (cur ++ String c EmptyString)%string fpp
      end
  | EmptyString => [copy_cfeature fpp cur]
  end.

Definition string2feature_pattern (cp : string) : res FEATURE_PATTERN :=
  match cp with
  | EmptyString => Ret []
  | _ =>
      let fs := s2fp_loop cp EmptyString [] in
      if (List.length fs <? RF_MAX)%nat then Ret fs else Err OutOfBounds
  end.

(** [string2feature_pattern_OLD]: OR only, split at each '|'. *)
Fixpoint s2fp_old_loop (ecp cur : string) : FEATURE_PATTERN :=
  match ecp with
  | String c s1 =>
      if Ascii.eqb c "|" then [cur] :: s2fp_old_loop s1 EmptyString
      else s2fp_old_loop s1 (cur ++ String c EmptyString)%string
  | EmptyString => [[cur]]
  end.

Definition string2feature_pattern_OLD (cp : option string) : res FEATURE_PATTERN :=
  match cp with
  | None | Some EmptyString => Ret []
  | Some s =>
      let fs := s2fp_old_loop s EmptyString in
      if (List.length fs <? RF_MAX)%nat then Ret fs else Err OutOfBounds
  end.

(** ** Assigning and deleting *)

Definition dquote : ascii := "034".

Fixpoint count_char (c : ascii) (s : string) : nat :=
  match s with
  | EmptyString => O
  | String b s' => ((if Ascii.eqb b c then 1 else 0) + count_char c s')%nat
  end.

(** The global [feature_buffer] after the first lines of [assign_cfeature]:
    the text of [fname] before ':', unless that cuts a quotation.  When
    [fname] starts with ':' or is empty the scan assigns nothing and the
    buffer keeps its old contents [buf]. *)
Definition feature_key (buf fname : string) : string :=
  let k := match fst (span_not colon fname) with
           | EmptyString => buf
           | p => p
           end in
  if str_eq k fname then k
  else if Nat.odd (count_char dquote k) then fname else k.

Definition temp_prefix : string := "仮付与".
Definition temp_mark : string := "仮付与:".

Fixpoint assign_walk (key fname : string) (temp_assign_flag : bool) (fpp : FEATURE) : FEATURE :=
  match fpp with
  | [] => [if temp_assign_flag then (temp_mark ++ fname)%string else fname]
  | cp :: next =>
      if comp_feature cp key then fname :: next
      else cp :: assign_walk key fname temp_assign_flag next
  end.

(** [assign_cfeature]: the list and the new [feature_buffer]. *)
Definition assign_cfeature (buf : string) (fpp : FEATURE) (fname : string)
    (temp_assign_flag : bool) : FEATURE * string :=
  let key := feature_key buf fname in
  (assign_walk key fname temp_assign_flag fpp, key).

Fixpoint copy_feature (buf : string) (dst src : FEATURE) : FEATURE * string :=
  match src with
  | [] => (dst, buf)
  | cp :: next =>
      let '(dst', buf') := assign_cfeature buf dst cp false in
      copy_feature buf' dst' next
  end.

(** [delete_cfeature]: the first match only. *)
Fixpoint delete_cfeature (fpp : FEATURE) (type : string) : FEATURE :=
  match fpp with
  | [] => []
  | cp :: next => if comp_feature cp type then next else cp :: delete_cfeature next type
  end.

Definition delete_cfeature_from_mrphs (fs : list FEATURE) (type : string) : list FEATURE :=
  map (fun f => delete_cfeature f type) fs.

Fixpoint delete_alt_feature (fpp : FEATURE) : FEATURE :=
  match fpp with
  | [] => []
  | cp :: next =>
      if starts_with "ALT-" cp then delete_alt_feature next
      else cp :: delete_alt_feature next
  end.

(** [delete_temp_feature]: [prep] tells whether a previous node exists.  After
    a deletion the code continues at [&(prep->next)]; at the head of the list
    [prep] is NULL and the loop condition reads through it. *)
Fixpoint delete_temp_go (prep : bool) (fpp : FEATURE) : res FEATURE :=
  match fpp with
  | [] => Ret []
  | cp :: next =>
      if comp_feature cp temp_prefix then
        if prep then delete_temp_go true next else Err NullDeref
      else fs <- delete_temp_go true next ;; Ret (cp :: fs)
  end.

Definition delete_temp_feature (fpp : FEATURE) : res FEATURE := delete_temp_go false fpp.

(** The '^' branch of [assign_feature]: all matches. *)
Fixpoint delete_feature_all (fpp : FEATURE) (type : string) : FEATURE :=
  match fpp with
  | [] => []
  | cp :: next =>
      if comp_feature cp type then delete_feature_all next type
      else cp :: delete_feature_all next type
  end.

(** [str_delete_last_column]: cut at the second ':' *)
Definition str_delete_last_column (str : option string) : option string :=
  match str with
  | None => None
  | Some s =>
      match span_not colon s with
      | (p, String c r) => Some (p ++ String c (fst (span_not colon r)))%string
      | (p, EmptyString) => Some p
      end
  end.

(** ** Categories and small tests *)

Definition semicolon : ascii := ";".

(** The loop of [check_category]; [cp] is the pointer after [cp++]. *)
Fixpoint category_loop (fuel : nat) (cp fname : string) : bool :=
  match fuel with
  | O => false
  | S f =>
      if str_eq cp fname ||
         (starts_with fname cp && (byte_at cp (String.length fname) =? byte_of semicolon))
      then true
      else match strchr semicolon cp with
           | Some (String _ cp') => category_loop f cp' fname
           | _ => false
           end
  end.

Definition category_label : string := "カテゴリ".

Definition check_category (fp : FEATURE) (fname : string) (strict_flag : bool) : res bool :=
  match check_feature fp category_label with
  | None => Ret false
  | Some cp =>
      if strict_flag && (match strchr semicolon cp with Some _ => true | None => false end)
      then Ret false
      else
        match skip category_label cp with
        | EmptyString => Err OutOfBounds          (* cp++ passes the NUL *)
        | String _ cp' => Ret (category_loop (S (String.length cp')) cp' fname)
        end
  end.

Definition compare_threshold (value threshold : Z) (eq : string) : bool :=
  if str_eq eq "lt" then value <? threshold
  else if str_eq eq "le" then value <=? threshold
  else if str_eq eq "gt" then threshold <? value
  else if str_eq eq "ge" then threshold <=? value
  else false.

(** [check_Bunrui]: [class6] is the name [Class[6][mp->Bunrui].id]. *)
Definition check_Bunrui (class6 : Z -> string) (bunrui : Z) (f : FEATURE) (class : string) (flag : Z) : Z :=
  if str_eq (class6 bunrui) class then flag
  else if has_feature f ("品曖-" ++ class) then flag
  else 1 - flag.

Definition chi_tags : list string :=
  ["AD"; "AS"; "BA"; "CC"; "CD"; "CS"; "DEC"; "DEG"; "DER"; "DEV"; "DT"; "ETC"; "FW"; "IJ";
   "JJ"; "LB"; "LC"; "M"; "MSP"; "NN"; "NR"; "NT"; "OD"; "ON"; "P"; "PN"; "PU"; "SB"; "SP";
   "VV"; "VA"; "VC"; "VE"]%string.

(** [get_feature_for_chi]: the first tag of the chain the word carries. *)
Definition get_feature_for_chi (f : FEATURE) : string :=
  match find (fun t => has_feature f t) chi_tags with Some t => t | None => EmptyString end.

(** ** Printing *)

Definition OPT_TABLE : Z := 16.
Definition OPT_DEBUG : Z := 3.
Definition OPT_SIMPLE : Z := 5.

Definition print_one_feature (OptExpress : Z) (cp : string) : string :=
  let body := if starts_with temp_mark cp then skip temp_mark cp else cp in
  if OptExpress =? OPT_TABLE then ("＜" ++ body ++ "＞")%string
  else ("<" ++ body ++ ">")%string.

Definition check_important_feature (cp : string) : bool :=
  comp_feature cp "用言" || comp_feature cp "体言" || comp_feature cp "格解析結果" ||
  comp_feature cp "述語項構造" || comp_feature cp "Wikipediaエントリ" ||
  comp_feature cp "NE内" || comp_feature cp "NE".

Definition hidden_feature (cp : string) : bool := starts_with "Ｔ" cp.

Fixpoint print_feature (OptDisplay OptExpress : Z) (fp : FEATURE) : string :=
  match fp with
  | [] => EmptyString
  | cp :: next =>
      let shown :=
        ((OptDisplay =? OPT_SIMPLE) && check_important_feature cp) ||
        (negb (OptDisplay =? OPT_SIMPLE) && negb (hidden_feature cp)) ||
        (OptDisplay =? OPT_DEBUG) in
      ((if shown then print_one_feature OptExpress cp else EmptyString)
       ++ print_feature OptDisplay OptExpress next)%string
  end.

Fixpoint print_some_feature (OptExpress : Z) (fp : FEATURE) : string :=
  match fp with
  | [] => EmptyString
  | cp :: next =>
      ((if check_important_feature cp then print_one_feature OptExpress cp else EmptyString)
       ++ print_some_feature OptExpress next)%string
  end.

Fixpoint print_feature2_go (fp : FEATURE) : string :=
  match fp with
  | [] => EmptyString
  | cp :: next =>
      ((if hidden_feature cp then EmptyString
        else cp ++ (match next with [] => EmptyString | _ => " " end))
       ++ print_feature2_go next)%string
  end.

Definition print_feature2 (fp : FEATURE) : string :=
  match fp with
  | [] => "NIL"%string
  | _ => ("(" ++ print_feature2_go fp ++ ")")%string
  end.

(** ** Lemmas on comparison and lookup *)

Lemma comp_feature_refl : forall f, comp_feature f f = true.
Proof. intros. unfold comp_feature. now rewrite str_eq_refl. Qed.

Lemma byte_at_app : forall p c r, byte_at (p ++ String c r) (String.length p) = byte_of c.
Proof. intros p c r. unfold byte_at. induction p as [|b p IH]; cbn; auto. Qed.

Lemma comp_feature_column : forall p r, comp_feature (p ++ String colon r) p = true.
Proof.
  intros. unfold comp_feature. rewrite starts_with_app, byte_at_app, Z.eqb_refl.
  apply orb_true_r.
Qed.

Lemma first_byte_colon : forall s, first_byte s = byte_of colon -> exists r, s = String colon r.
Proof.
  intros [|c r] H; [discriminate|]. cbn in H. apply byte_of_inj in H. subst. eauto.
Qed.

(** A FEATURE matches a name when it is the name, or the name and a ':'. *)
Lemma comp_feature_spec : forall data p, comp_feature data p = true <->
  data = p \/ exists r, data = (p ++ String colon r)%string.
Proof.
  intros data p. unfold comp_feature. rewrite orb_true_iff, andb_true_iff, starts_with_spec, Z.eqb_eq.
  destruct (str_eq_spec data p) as [E|E].
  - split; auto.
  - split.
    + intros [H|[[r ->] H]]; [discriminate|]. right.
      unfold byte_at in H. change (sdrop (String.length p) (p ++ r)) with (skip p (p ++ r)) in H.
      rewrite skip_app in H. apply first_byte_colon in H as [r' ->]. eauto.
    + intros [H|[r ->]]; [contradiction|]. right. split; [eauto|]. apply byte_at_app.
Qed.

Lemma check_feature_app : forall a b g, check_feature (a ++ b) g =
  match check_feature a g with Some x => Some x | None => check_feature b g end.
Proof. induction a as [|x a IH]; intros; cbn; auto. destruct (comp_feature x g); auto. Qed.

Lemma check_feature_some : forall fp g cp, check_feature fp g = Some cp ->
  In cp fp /\ comp_feature cp g = true.
Proof.
  induction fp as [|x fp IH]; cbn; intros g cp H; [discriminate|].
  destruct (comp_feature x g) eqn:E; [inv H; auto|]. apply IH in H as []. auto.
Qed.

Lemma check_feature_none : forall fp g, check_feature fp g = None <->
  forall cp, In cp fp -> comp_feature cp g = false.
Proof.
  induction fp as [|x fp IH]; cbn; intros g; [split; [intros _ ? [] | auto]|].
  destruct (comp_feature x g) eqn:E.
  - split; [discriminate|]. intros H. specialize (H x (or_introl eq_refl)). congruence.
  - rewrite IH. split; [intros H cp [->|Hc]; auto | intros H cp Hc; auto].
Qed.

Lemma has_feature_spec : forall fp g, has_feature fp g = true <-> exists cp, In cp fp /\ comp_feature cp g = true.
Proof.
  intros fp g. unfold has_feature. destruct (check_feature fp g) eqn:E.
  - apply check_feature_some in E. split; eauto.
  - rewrite check_feature_none in E. split; [discriminate|]. intros (cp & H1 & H2).
    rewrite (E cp H1) in H2. discriminate.
Qed.

(** ** Lemmas on assignment *)

Lemma feature_key_comp : forall buf fname, fname <> EmptyString ->
  first_byte fname <> byte_of colon -> comp_feature fname (feature_key buf fname) = true.
Proof.
  intros buf fname Hne Hc. unfold feature_key.
  pose proof (span_not_app colon fname) as Ha.
  destruct (span_not colon fname) as [p r] eqn:Es. cbn [fst snd] in *.
  destruct p as [|c p].
  { cbn in Ha. subst r. apply span_not_tail in Es as [->|[r' ->]]; [congruence|]. now destruct Hc. }
  destruct (str_eq_spec (String c p) fname) as [->|]; [apply comp_feature_refl|].
  destruct (Nat.odd _); [apply comp_feature_refl|].
  apply comp_feature_spec. right.
  apply span_not_tail in Es as [->|[r' ->]]; [rewrite sapp_nil_r in Ha; contradiction | eauto].
Qed.

Lemma assign_walk_lookup : forall key fname fpp, comp_feature fname key = true ->
  check_feature (assign_walk key fname false fpp) key = Some fname.
Proof.
  intros key fname fpp H. induction fpp as [|cp fpp IH]; cbn; [now rewrite H|].
  destruct (comp_feature cp key) eqn:E; cbn; [now rewrite H | now rewrite E].
Qed.

Lemma assign_walk_frame : forall key fname fpp g,
  comp_feature fname g = false ->
  (forall cp, In cp fpp -> comp_feature cp key = true -> comp_feature cp g = false) ->
  check_feature (assign_walk key fname false fpp) g = check_feature fpp g.
Proof.
  intros key fname fpp g Hg. induction fpp as [|cp fpp IH]; cbn; intros H; [now rewrite Hg|].
  destruct (comp_feature cp key) eqn:E; cbn.
  - rewrite Hg. now rewrite (H cp (or_introl eq_refl) E).
  - destruct (comp_feature cp g); auto.
Qed.

Lemma delete_feature_all_filter : forall fp g,
  delete_feature_all fp g = filter (fun cp => negb (comp_feature cp g)) fp.
Proof.
  induction fp as [|x fp IH]; intros g; [reflexivity|]. cbn [delete_feature_all filter].
  destruct (comp_feature x g); cbn [negb]; rewrite IH; reflexivity.
Qed.

Lemma delete_alt_filter : forall fp,
  delete_alt_feature fp = filter (fun cp => negb (starts_with "ALT-" cp)) fp.
Proof.
  induction fp as [|x fp IH]; [reflexivity|]. cbn [delete_alt_feature filter].
  destruct (starts_with "ALT-" x); cbn [negb]; congruence.
Qed.

Lemma delete_temp_go_filter : forall fp,
  delete_temp_go true fp = Ret (filter (fun cp => negb (comp_feature cp temp_prefix)) fp).
Proof.
  induction fp as [|x fp IH]; [reflexivity|]. cbn [delete_temp_go filter].
  destruct (comp_feature x temp_prefix); cbn [negb]; [exact IH | now rewrite IH].
Qed.

(** ** Lemmas on the pattern parser *)

Fixpoint join (sep : string) (l : list string) : string :=
  match l with
  | [] => EmptyString
  | [x] => x
  | x :: l' => (x ++ sep ++ join sep l')%string
  end.

Lemma join_cons : forall sep x l, l <> [] -> join sep (x :: l) = (x ++ sep ++ join sep l)%string.
Proof. intros sep x [|y l] H; [contradiction | reflexivity]. Qed.

(** The text of a pattern in a rule: "a&&b||c". *)
Definition pattern_text (fr : FEATURE_PATTERN) : string := join "||" (map (join "&&") fr).

Definition plain_feature (s : string) : bool := str_free "&" s && str_free "|" s.

Lemma s2fp_atom : forall a rest cur fpp, plain_feature a = true ->
  s2fp_loop (a ++ rest) cur fpp = s2fp_loop rest (cur ++ a) fpp.
Proof.
  unfold plain_feature. induction a as [|c a IH]; intros rest cur fpp H.
  - now rewrite sapp_nil_r.
  - cbn in H. rewrite !andb_true_iff, !negb_true_iff in H. destruct H as [[H1 H2] [H3 H4]].
    assert (E : s2fp_loop (String c a ++ rest) cur fpp = s2fp_loop (a ++ rest) (cur ++ String c EmptyString) fpp).
    { cbn [append s2fp_loop]. destruct (a ++ rest)%string as [|d s2]; [reflexivity|]. now rewrite H1, H3. }
    rewrite E, IH by now rewrite H2, H4. now rewrite sapp_assoc.
Qed.

Lemma s2fp_and : forall l a rest fpp, forallb plain_feature (a :: l) = true ->
  s2fp_loop (join "&&" (a :: l) ++ String "|" (String "|" rest)) EmptyString fpp =
    (fpp ++ a :: l) :: s2fp_loop rest EmptyString [] /\
  s2fp_loop (join "&&" (a :: l)) EmptyString fpp = [fpp ++ a :: l].
Proof.
  induction l as [|b l IH]; intros a rest fpp H.
  - cbn [forallb] in H. apply andb_true_iff in H as [H _]. cbn [join]. split.
    + rewrite s2fp_atom by exact H. reflexivity.
    + rewrite <- (sapp_nil_r a) at 1. rewrite s2fp_atom by exact H. reflexivity.
  - cbn [forallb] in H. apply andb_true_iff in H as [Ha H].
    rewrite join_cons by discriminate. specialize (IH b rest (fpp ++ [a]) H).
    rewrite <- !app_assoc in IH. destruct IH as [IH1 IH2].
    split; rewrite ?sapp_assoc, s2fp_atom by exact Ha; [exact IH1 | exact IH2].
Qed.

Definition pattern_ok (fr : FEATURE_PATTERN) : bool :=
  forallb (fun f => negb (match f with [] => true | _ => false end) && forallb plain_feature f) fr.

Lemma s2fp_pattern : forall fr f, pattern_ok (f :: fr) = true ->
  s2fp_loop (pattern_text (f :: fr)) EmptyString [] = f :: fr.
Proof.
  induction fr as [|g fr IH]; intros [|a f] H; try discriminate; unfold pattern_ok in H; cbn [forallb] in H;
    apply andb_true_iff in H as [H1 H2]; cbn [negb andb] in H1.
  - apply (s2fp_and f a EmptyString []). exact H1.
  - unfold pattern_text. cbn [map]. rewrite join_cons by discriminate.
    change ("||" ++ ?x)%string with (String "|" (String "|" x)).
    rewrite (proj1 (s2fp_and f a _ [] H1)). cbn [app]. f_equal. apply IH. exact H2.
Qed.

(** ** Lemmas on categories *)

Lemma strchr_free : forall c a r, str_free c a = true -> strchr c (a ++ r) = strchr c r.
Proof.
  induction a as [|b a IH]; cbn; intros r H; auto.
  apply andb_true_iff in H as [H1 H2]. apply negb_true_iff in H1. rewrite H1. auto.
Qed.

Lemma category_head : forall a r fname, str_free semicolon a = true -> str_free semicolon fname = true ->
  (r = EmptyString \/ exists r', r = String semicolon r') ->
  (str_eq (a ++ r) fname ||
   (starts_with fname (a ++ r) && (byte_at (a ++ r) (String.length fname) =? byte_of semicolon)))
  = str_eq a fname.
Proof.
  induction a as [|x a IH]; intros r fname Ha Hf Hr.
  - cbn [append]. destruct fname as [|y f].
    + destruct Hr as [->|[r' ->]]; reflexivity.
    + destruct Hr as [->|[r' ->]]; [reflexivity|]. cbn [str_free] in Hf.
      apply andb_true_iff in Hf as [Hf _]. apply negb_true_iff in Hf.
      rewrite str_eq_cons. cbn [starts_with]. rewrite Hf.
      rewrite Ascii.eqb_sym in Hf. rewrite Hf. reflexivity.
  - cbn [str_free] in Ha. apply andb_true_iff in Ha as [Hx Ha]. apply negb_true_iff in Hx.
    destruct fname as [|y f].
    + cbn. unfold byte_at. cbn [sdrop first_byte].
      destruct (Z.eqb_spec (byte_of x) (byte_of semicolon)) as [E|E]; [|reflexivity].
      apply byte_of_inj in E. subst. discriminate.
    + cbn [str_free] in Hf. apply andb_true_iff in Hf as [_ Hf].
      specialize (IH r f Ha Hf Hr). cbn [append]. rewrite !str_eq_cons. cbn [starts_with].
      destruct (Ascii.eqb_spec x y) as [->|E].
      * rewrite Ascii.eqb_refl. exact IH.
      * rewrite Ascii.eqb_sym. apply Ascii.eqb_neq in E. now rewrite E.
Qed.

Lemma category_loop_join : forall cats fuel fname, cats <> [] ->
  forallb (str_free semicolon) cats = true -> str_free semicolon fname = true ->
  (List.length cats <= fuel)%nat ->
  category_loop fuel (join ";" cats) fname = existsb (fun c => str_eq c fname) cats.
Proof.
  induction cats as [|a cats IH]; intros fuel fname Hne Hc Hf Hl; [contradiction|].
  destruct fuel as [|fuel]; [cbn in Hl; lia|]. cbn [forallb] in Hc. apply andb_true_iff in Hc as [Ha Hc].
  cbn [category_loop existsb]. destruct cats as [|b cats].
  - cbn [join]. pose proof (category_head a EmptyString fname Ha Hf (or_introl eq_refl)) as E.
    rewrite sapp_nil_r in E. rewrite E. rewrite <- (sapp_nil_r a) at 2. rewrite strchr_free by exact Ha.
    cbn. now destruct (str_eq a fname).
  - rewrite join_cons by discriminate.
    change (";" ++ join ";" (b :: cats))%string with (String semicolon (join ";" (b :: cats))).
    rewrite category_head by eauto. rewrite strchr_free by exact Ha.
    cbn [strchr]. change (Ascii.eqb semicolon semicolon) with true.
    destruct (str_eq a fname); cbn [orb]; auto. apply IH; auto; [discriminate | cbn in *; lia].
Qed.

Lemma join_length : forall cats, cats <> [] -> (List.length cats <= S (String.length (join ";" cats)))%nat.
Proof.
  induction cats as [|a cats IH]; intros H; [contradiction|]. destruct cats as [|b cats]; [cbn; lia|].
  rewrite join_cons by discriminate. rewrite !length_sapp. specialize (IH ltac:(discriminate)).
  cbn [List.length String.length] in *. lia.
Qed.

Lemma join_no_semicolon : forall cats, cats <> [] -> forallb (str_free semicolon) cats = true ->
  (match strchr semicolon (join ";" cats) with Some _ => true | None => false end) =
  (1 <? List.length cats)%nat.
Proof.
  intros [|a [|b cats]] Hne Hc; [contradiction| |]; cbn [forallb] in Hc; apply andb_true_iff in Hc as [Ha _].
  - cbn [join]. rewrite <- (sapp_nil_r a). now rewrite strchr_free.
  - rewrite join_cons by discriminate. now rewrite strchr_free.
Qed.

(** ** Properties *)

(** After [assign_cfeature] the list holds exactly [fname] under its own
    name (overwriting an old value or appended), and every other name that
    no overwritten entry carried is looked up as before. *)
Theorem assign_cfeature_lookup : forall buf fpp fname,
  fname <> EmptyString -> first_byte fname <> byte_of colon ->
  let '(fpp', key) := assign_cfeature buf fpp fname false in
  check_feature fpp' key = Some fname /\
  (forall g, comp_feature fname g = false ->
     (forall cp, In cp fpp -> comp_feature cp key = true -> comp_feature cp g = false) ->
     check_feature fpp' g = check_feature fpp g).
Proof.
  intros buf fpp fname Hne Hc. unfold assign_cfeature. split.
  - apply assign_walk_lookup. now apply feature_key_comp.
  - intros g Hg H. now apply assign_walk_frame.
Qed.

Lemma assign_cfeature_lookup_witness :
  "係:ガ格"%string <> EmptyString /\ first_byte "係:ガ格" <> byte_of colon /\
  (let '(fpp', key) := assign_cfeature EmptyString ["体言"; "係:未格"; "読点"]%string "係:ガ格" false in
   check_feature fpp' key = Some "係:ガ格"%string /\
   (forall g, comp_feature "係:ガ格" g = false ->
     (forall cp, In cp ["体言"; "係:未格"; "読点"]%string -> comp_feature cp key = true -> comp_feature cp g = false) ->
     check_feature fpp' g = check_feature ["体言"; "係:未格"; "読点"]%string g)).
Proof.
  split; [discriminate | split; [vm_compute; discriminate|]].
  apply (assign_cfeature_lookup EmptyString ["体言"; "係:未格"; "読点"]%string "係:ガ格");
    [discriminate | vm_compute; discriminate].
Defined.

(** Parsing the text "a&&b||c" of a pattern gives the pattern back when it
    has fewer than [RF_MAX] alternatives, and writes past [fp] otherwise. *)
Theorem string2feature_pattern_text : forall fr,
  pattern_ok fr = true -> pattern_text fr <> EmptyString ->
  string2feature_pattern (pattern_text fr) =
  if (List.length fr <? RF_MAX)%nat then Ret fr else Err OutOfBounds.
Proof.
  intros [|f fr] Hok Hne; [now destruct Hne|].
  unfold string2feature_pattern. destruct (pattern_text (f :: fr)) eqn:E; [congruence|].
  rewrite <- E, s2fp_pattern by exact Hok. reflexivity.
Qed.

Lemma string2feature_pattern_text_witness :
  pattern_ok [["文頭"; "^体言"]; ["提題"]]%string = true /\
  string2feature_pattern "文頭&&^体言||提題" = Ret [["文頭"; "^体言"]; ["提題"]]%string.
Proof.
  split; [reflexivity|].
  apply (string2feature_pattern_text [["文頭"; "^体言"]; ["提題"]]%string); [reflexivity | discriminate].
Defined.

(** [delete_temp_feature] removes exactly the temporarily assigned
    features when the first feature of the list is not one of them; when it
    is, the code reads through a null pointer. *)
Theorem delete_temp_feature_spec : forall fp,
  delete_temp_feature fp =
  match fp with
  | cp :: _ => if comp_feature cp temp_prefix then Err NullDeref
               else Ret (filter (fun cp => negb (comp_feature cp temp_prefix)) fp)
  | [] => Ret []
  end.
Proof.
  intros [|cp fp]; [reflexivity|]. unfold delete_temp_feature. cbn [delete_temp_go filter].
  destruct (comp_feature cp temp_prefix); [reflexivity|]. cbn [negb]. now rewrite delete_temp_go_filter.
Qed.

(** [check_category] on "カテゴリ:c1;c2;..." finds [fname] exactly when it is
    one of the categories, and the strict test refuses ambiguous words. *)
Theorem check_category_spec : forall fp fname strict cats,
  check_feature fp category_label = Some (category_label ++ String colon (join ";" cats))%string ->
  cats <> [] -> forallb (str_free semicolon) cats = true -> str_free semicolon fname = true ->
  check_category fp fname strict =
  Ret (if strict && (1 <? List.length cats)%nat then false
       else existsb (fun c => str_eq c fname) cats).
Proof.
  intros fp fname strict cats Hcf Hne Hc Hf. unfold check_category. rewrite Hcf.
  rewrite strchr_free by reflexivity.
  change (strchr semicolon (String colon ?x)) with (strchr semicolon x).
  rewrite join_no_semicolon by assumption.
  destruct (strict && _); [reflexivity|]. rewrite skip_app.
  rewrite category_loop_join; auto using join_length.
Qed.

Lemma check_category_spec_witness :
  check_feature ["カテゴリ:人;組織・団体"]%string category_label =
    Some (category_label ++ String colon (join ";" ["人"; "組織・団体"]))%string /\
  check_category ["カテゴリ:人;組織・団体"]%string "組織・団体" false = Ret true.
Proof.
  split; [reflexivity|].
  apply (check_category_spec ["カテゴリ:人;組織・団体"]%string "組織・団体" false ["人"; "組織・団体"]%string);
    [reflexivity | discriminate | reflexivity | reflexivity].
Defined.
