(* ===== verification/Sentence.v ===== *)
(** * The data of a sentence

    The structures of src/system/const.h.  The arrays of a sentence are
    [array]s, so a pointer into one of them is an index; a NULL pointer is
    [None].  A [char] that holds a letter is its byte ([chr]).  The fields
    that BNST_DATA and TAG_DATA share are one record; the fields of the case
    and anaphora analyses are left out (those phases are not modelled). *)
From Stdlib Require Import ZArith List Bool String Ascii Lia.
From Stdlib Require Import Floats.SpecFloat.
Import ListNotations.
From S2P Require Import Prelude CStr Feature.

(** A C character constant. *)
Definition chr (c : ascii) : Z := byte_of c.

(** ** Single precision floats

    [float] is IEEE binary32, [double] binary64, with the operations of
    [SpecFloat]; no axiom is involved. *)
Definition float32 := spec_float.
Definition f32_zero : float32 := S754_zero false.
Definition f32_of_Z (z : Z) : float32 := binary_normalize 24 128 z 0 false.
Definition f32_add : float32 -> float32 -> float32 := SFadd 24 128.
Definition f32_div : float32 -> float32 -> float32 := SFdiv 24 128.
Definition f32_le : float32 -> float32 -> bool := SFleb.
Definition f32_lt : float32 -> float32 -> bool := SFltb.

(** The float nearest to the decimal fraction [n / 10^k]. *)
Definition f32_of_decimal (n : Z) (k : Z) : float32 :=
  match n with
  | Z0 => S754_zero false
  | Zpos p => SFdiv 24 128 (S754_finite false p 0) (f32_of_Z (10 ^ k))
  | Zneg p => SFdiv 24 128 (S754_finite true p 0) (f32_of_Z (10 ^ k))
  end.

(** A morpheme *)
Record MRPH_DATA : Type := mkMRPH {
  m_num : Z;
  m_Goi : string;
  m_Yomi : string;
  m_Goi2 : string;
  m_Hinshi : Z;
  m_Bunrui : Z;
  m_Katuyou_Kata : Z;
  m_Katuyou_Kei : Z;
  m_f : FEATURE;
  m_SM : option string;
  m_Imi : string;
  m_tnum : Z;
  m_inum : Z;
  m_out_head_flag : Z;
  m_dpnd_head : Z;
  m_dpnd_type : Z;
  m_parent : option Z;
  m_child : list Z;
  m_para_num : Z;
  m_para_key_type : Z;
  m_para_top_p : bool;
  m_para_type : Z;
  m_to_para_p : bool
}.

Definition MRPH_DATA_0 : MRPH_DATA := {|
  m_num := 0;
  m_Goi := EmptyString;
  m_Yomi := EmptyString;
  m_Goi2 := EmptyString;
  m_Hinshi := 0;
  m_Bunrui := 0;
  m_Katuyou_Kata := 0;
  m_Katuyou_Kei := 0;
  m_f := [];
  m_SM := None;
  m_Imi := EmptyString;
  m_tnum := 0;
  m_inum := 0;
  m_out_head_flag := 0;
  m_dpnd_head := 0;
  m_dpnd_type := 0;
  m_parent := None;
  m_child := [];
  m_para_num := 0;
  m_para_key_type := 0;
  m_para_top_p := false;
  m_para_type := 0;
  m_to_para_p := false
|}.

Definition set_m_num (v : Z) (r : MRPH_DATA) : MRPH_DATA := {|
    m_num := v; m_Goi := m_Goi r; m_Yomi := m_Yomi r; m_Goi2 := m_Goi2 r; m_Hinshi := m_Hinshi
  r; m_Bunrui := m_Bunrui r; m_Katuyou_Kata := m_Katuyou_Kata r; m_Katuyou_Kei := m_Katuyou_Kei
  r; m_f := m_f r; m_SM := m_SM r; m_Imi := m_Imi r; m_tnum := m_tnum r; m_inum := m_inum r;
  m_out_head_flag := m_out_head_flag r; m_dpnd_head := m_dpnd_head r; m_dpnd_type := m_dpnd_type
  r; m_parent := m_parent r; m_child := m_child r; m_para_num := m_para_num r; m_para_key_type
  := m_para_key_type r; m_para_top_p := m_para_top_p r; m_para_type := m_para_type r;
  m_to_para_p := m_to_para_p r
|}.

Definition set_m_f (v : FEATURE) (r : MRPH_DATA) : MRPH_DATA := {|
    m_num := m_num r; m_Goi := m_Goi r; m_Yomi := m_Yomi r; m_Goi2 := m_Goi2 r; m_Hinshi :=
  m_Hinshi r; m_Bunrui := m_Bunrui r; m_Katuyou_Kata := m_Katuyou_Kata r; m_Katuyou_Kei :=
  m_Katuyou_Kei r; m_f := v; m_SM := m_SM r; m_Imi := m_Imi r; m_tnum := m_tnum r; m_inum :=
  m_inum r; m_out_head_flag := m_out_head_flag r; m_dpnd_head := m_dpnd_head r; m_dpnd_type :=
  m_dpnd_type r; m_parent := m_parent r; m_child := m_child r; m_para_num := m_para_num r;
  m_para_key_type := m_para_key_type r; m_para_top_p := m_para_top_p r; m_para_type :=
  m_para_type r; m_to_para_p := m_to_para_p r
|}.

Definition set_m_Goi (v : string) (r : MRPH_DATA) : MRPH_DATA := {|
    m_num := m_num r; m_Goi := v; m_Yomi := m_Yomi r; m_Goi2 := m_Goi2 r; m_Hinshi := m_Hinshi
  r; m_Bunrui := m_Bunrui r; m_Katuyou_Kata := m_Katuyou_Kata r; m_Katuyou_Kei := m_Katuyou_Kei
  r; m_f := m_f r; m_SM := m_SM r; m_Imi := m_Imi r; m_tnum := m_tnum r; m_inum := m_inum r;
  m_out_head_flag := m_out_head_flag r; m_dpnd_head := m_dpnd_head r; m_dpnd_type := m_dpnd_type
  r; m_parent := m_parent r; m_child := m_child r; m_para_num := m_para_num r; m_para_key_type
  := m_para_key_type r; m_para_top_p := m_para_top_p r; m_para_type := m_para_type r;
  m_to_para_p := m_to_para_p r
|}.

Definition set_m_Yomi (v : string) (r : MRPH_DATA) : MRPH_DATA := {|
    m_num := m_num r; m_Goi := m_Goi r; m_Yomi := v; m_Goi2 := m_Goi2 r; m_Hinshi := m_Hinshi r;
  m_Bunrui := m_Bunrui r; m_Katuyou_Kata := m_Katuyou_Kata r; m_Katuyou_Kei := m_Katuyou_Kei r;
  m_f := m_f r; m_SM := m_SM r; m_Imi := m_Imi r; m_tnum := m_tnum r; m_inum := m_inum r;
  m_out_head_flag := m_out_head_flag r; m_dpnd_head := m_dpnd_head r; m_dpnd_type := m_dpnd_type
  r; m_parent := m_parent r; m_child := m_child r; m_para_num := m_para_num r; m_para_key_type
  := m_para_key_type r; m_para_top_p := m_para_top_p r; m_para_type := m_para_type r;
  m_to_para_p := m_to_para_p r
|}.

Definition set_m_Goi2 (v : string) (r : MRPH_DATA) : MRPH_DATA := {|
    m_num := m_num r; m_Goi := m_Goi r; m_Yomi := m_Yomi r; m_Goi2 := v; m_Hinshi := m_Hinshi r;
  m_Bunrui := m_Bunrui r; m_Katuyou_Kata := m_Katuyou_Kata r; m_Katuyou_Kei := m_Katuyou_Kei r;
  m_f := m_f r; m_SM := m_SM r; m_Imi := m_Imi r; m_tnum := m_tnum r; m_inum := m_inum r;
  m_out_head_flag := m_out_head_flag r; m_dpnd_head := m_dpnd_head r; m_dpnd_type := m_dpnd_type
  r; m_parent := m_parent r; m_child := m_child r; m_para_num := m_para_num r; m_para_key_type
  := m_para_key_type r; m_para_top_p := m_para_top_p r; m_para_type := m_para_type r;
  m_to_para_p := m_to_para_p r
|}.

Definition set_m_Imi (v : string) (r : MRPH_DATA) : MRPH_DATA := {|
    m_num := m_num r; m_Goi := m_Goi r; m_Yomi := m_Yomi r; m_Goi2 := m_Goi2 r; m_Hinshi :=
  m_Hinshi r; m_Bunrui := m_Bunrui r; m_Katuyou_Kata := m_Katuyou_Kata r; m_Katuyou_Kei :=
  m_Katuyou_Kei r; m_f := m_f r; m_SM := m_SM r; m_Imi := v; m_tnum := m_tnum r; m_inum :=
  m_inum r; m_out_head_flag := m_out_head_flag r; m_dpnd_head := m_dpnd_head r; m_dpnd_type :=
  m_dpnd_type r; m_parent := m_parent r; m_child := m_child r; m_para_num := m_para_num r;
  m_para_key_type := m_para_key_type r; m_para_top_p := m_para_top_p r; m_para_type :=
  m_para_type r; m_to_para_p := m_to_para_p r
|}.

Definition set_m_tnum (v : Z) (r : MRPH_DATA) : MRPH_DATA := {|
    m_num := m_num r; m_Goi := m_Goi r; m_Yomi := m_Yomi r; m_Goi2 := m_Goi2 r; m_Hinshi :=
  m_Hinshi r; m_Bunrui := m_Bunrui r; m_Katuyou_Kata := m_Katuyou_Kata r; m_Katuyou_Kei :=
  m_Katuyou_Kei r; m_f := m_f r; m_SM := m_SM r; m_Imi := m_Imi r; m_tnum := v; m_inum := m_inum
  r; m_out_head_flag := m_out_head_flag r; m_dpnd_head := m_dpnd_head r; m_dpnd_type :=
  m_dpnd_type r; m_parent := m_parent r; m_child := m_child r; m_para_num := m_para_num r;
  m_para_key_type := m_para_key_type r; m_para_top_p := m_para_top_p r; m_para_type :=
  m_para_type r; m_to_para_p := m_to_para_p r
|}.

Definition set_m_inum (v : Z) (r : MRPH_DATA) : MRPH_DATA := {|
    m_num := m_num r; m_Goi := m_Goi r; m_Yomi := m_Yomi r; m_Goi2 := m_Goi2 r; m_Hinshi :=
  m_Hinshi r; m_Bunrui := m_Bunrui r; m_Katuyou_Kata := m_Katuyou_Kata r; m_Katuyou_Kei :=
  m_Katuyou_Kei r; m_f := m_f r; m_SM := m_SM r; m_Imi := m_Imi r; m_tnum := m_tnum r; m_inum :=
  v; m_out_head_flag := m_out_head_flag r; m_dpnd_head := m_dpnd_head r; m_dpnd_type :=
  m_dpnd_type r; m_parent := m_parent r; m_child := m_child r; m_para_num := m_para_num r;
  m_para_key_type := m_para_key_type r; m_para_top_p := m_para_top_p r; m_para_type :=
  m_para_type r; m_to_para_p := m_to_para_p r
|}.

Definition set_m_Hinshi (v : Z) (r : MRPH_DATA) : MRPH_DATA := {|
    m_num := m_num r; m_Goi := m_Goi r; m_Yomi := m_Yomi r; m_Goi2 := m_Goi2 r; m_Hinshi := v;
  m_Bunrui := m_Bunrui r; m_Katuyou_Kata := m_Katuyou_Kata r; m_Katuyou_Kei := m_Katuyou_Kei r;
  m_f := m_f r; m_SM := m_SM r; m_Imi := m_Imi r; m_tnum := m_tnum r; m_inum := m_inum r;
  m_out_head_flag := m_out_head_flag r; m_dpnd_head := m_dpnd_head r; m_dpnd_type := m_dpnd_type
  r; m_parent := m_parent r; m_child := m_child r; m_para_num := m_para_num r; m_para_key_type
  := m_para_key_type r; m_para_top_p := m_para_top_p r; m_para_type := m_para_type r;
  m_to_para_p := m_to_para_p r
|}.

Definition set_m_Bunrui (v : Z) (r : MRPH_DATA) : MRPH_DATA := {|
    m_num := m_num r; m_Goi := m_Goi r; m_Yomi := m_Yomi r; m_Goi2 := m_Goi2 r; m_Hinshi :=
  m_Hinshi r; m_Bunrui := v; m_Katuyou_Kata := m_Katuyou_Kata r; m_Katuyou_Kei := m_Katuyou_Kei
  r; m_f := m_f r; m_SM := m_SM r; m_Imi := m_Imi r; m_tnum := m_tnum r; m_inum := m_inum r;
  m_out_head_flag := m_out_head_flag r; m_dpnd_head := m_dpnd_head r; m_dpnd_type := m_dpnd_type
  r; m_parent := m_parent r; m_child := m_child r; m_para_num := m_para_num r; m_para_key_type
  := m_para_key_type r; m_para_top_p := m_para_top_p r; m_para_type := m_para_type r;
  m_to_para_p := m_to_para_p r
|}.

Definition set_m_Katuyou_Kata (v : Z) (r : MRPH_DATA) : MRPH_DATA := {|
    m_num := m_num r; m_Goi := m_Goi r; m_Yomi := m_Yomi r; m_Goi2 := m_Goi2 r; m_Hinshi :=
  m_Hinshi r; m_Bunrui := m_Bunrui r; m_Katuyou_Kata := v; m_Katuyou_Kei := m_Katuyou_Kei r; m_f
  := m_f r; m_SM := m_SM r; m_Imi := m_Imi r; m_tnum := m_tnum r; m_inum := m_inum r;
  m_out_head_flag := m_out_head_flag r; m_dpnd_head := m_dpnd_head r; m_dpnd_type := m_dpnd_type
  r; m_parent := m_parent r; m_child := m_child r; m_para_num := m_para_num r; m_para_key_type
  := m_para_key_type r; m_para_top_p := m_para_top_p r; m_para_type := m_para_type r;
  m_to_para_p := m_to_para_p r
|}.

Definition set_m_Katuyou_Kei (v : Z) (r : MRPH_DATA) : MRPH_DATA := {|
    m_num := m_num r; m_Goi := m_Goi r; m_Yomi := m_Yomi r; m_Goi2 := m_Goi2 r; m_Hinshi :=
  m_Hinshi r; m_Bunrui := m_Bunrui r; m_Katuyou_Kata := m_Katuyou_Kata r; m_Katuyou_Kei := v;
  m_f := m_f r; m_SM := m_SM r; m_Imi := m_Imi r; m_tnum := m_tnum r; m_inum := m_inum r;
  m_out_head_flag := m_out_head_flag r; m_dpnd_head := m_dpnd_head r; m_dpnd_type := m_dpnd_type
  r; m_parent := m_parent r; m_child := m_child r; m_para_num := m_para_num r; m_para_key_type
  := m_para_key_type r; m_para_top_p := m_para_top_p r; m_para_type := m_para_type r;
  m_to_para_p := m_to_para_p r
|}.

Definition set_m_out_head_flag (v : Z) (r : MRPH_DATA) : MRPH_DATA := {|
    m_num := m_num r; m_Goi := m_Goi r; m_Yomi := m_Yomi r; m_Goi2 := m_Goi2 r; m_Hinshi :=
  m_Hinshi r; m_Bunrui := m_Bunrui r; m_Katuyou_Kata := m_Katuyou_Kata r; m_Katuyou_Kei :=
  m_Katuyou_Kei r; m_f := m_f r; m_SM := m_SM r; m_Imi := m_Imi r; m_tnum := m_tnum r; m_inum :=
  m_inum r; m_out_head_flag := v; m_dpnd_head := m_dpnd_head r; m_dpnd_type := m_dpnd_type r;
  m_parent := m_parent r; m_child := m_child r; m_para_num := m_para_num r; m_para_key_type :=
  m_para_key_type r; m_para_top_p := m_para_top_p r; m_para_type := m_para_type r; m_to_para_p
  := m_to_para_p r
|}.

Definition set_m_dpnd_head (v : Z) (r : MRPH_DATA) : MRPH_DATA := {|
    m_num := m_num r; m_Goi := m_Goi r; m_Yomi := m_Yomi r; m_Goi2 := m_Goi2 r; m_Hinshi :=
  m_Hinshi r; m_Bunrui := m_Bunrui r; m_Katuyou_Kata := m_Katuyou_Kata r; m_Katuyou_Kei :=
  m_Katuyou_Kei r; m_f := m_f r; m_SM := m_SM r; m_Imi := m_Imi r; m_tnum := m_tnum r; m_inum :=
  m_inum r; m_out_head_flag := m_out_head_flag r; m_dpnd_head := v; m_dpnd_type := m_dpnd_type
  r; m_parent := m_parent r; m_child := m_child r; m_para_num := m_para_num r; m_para_key_type
  := m_para_key_type r; m_para_top_p := m_para_top_p r; m_para_type := m_para_type r;
  m_to_para_p := m_to_para_p r
|}.

Definition set_m_dpnd_type (v : Z) (r : MRPH_DATA) : MRPH_DATA := {|
    m_num := m_num r; m_Goi := m_Goi r; m_Yomi := m_Yomi r; m_Goi2 := m_Goi2 r; m_Hinshi :=
  m_Hinshi r; m_Bunrui := m_Bunrui r; m_Katuyou_Kata := m_Katuyou_Kata r; m_Katuyou_Kei :=
  m_Katuyou_Kei r; m_f := m_f r; m_SM := m_SM r; m_Imi := m_Imi r; m_tnum := m_tnum r; m_inum :=
  m_inum r; m_out_head_flag := m_out_head_flag r; m_dpnd_head := m_dpnd_head r; m_dpnd_type :=
  v; m_parent := m_parent r; m_child := m_child r; m_para_num := m_para_num r; m_para_key_type
  := m_para_key_type r; m_para_top_p := m_para_top_p r; m_para_type := m_para_type r;
  m_to_para_p := m_to_para_p r
|}.

Definition set_m_SM (v : option string) (r : MRPH_DATA) : MRPH_DATA := {|
    m_num := m_num r; m_Goi := m_Goi r; m_Yomi := m_Yomi r; m_Goi2 := m_Goi2 r; m_Hinshi :=
  m_Hinshi r; m_Bunrui := m_Bunrui r; m_Katuyou_Kata := m_Katuyou_Kata r; m_Katuyou_Kei :=
  m_Katuyou_Kei r; m_f := m_f r; m_SM := v; m_Imi := m_Imi r; m_tnum := m_tnum r; m_inum :=
  m_inum r; m_out_head_flag := m_out_head_flag r; m_dpnd_head := m_dpnd_head r; m_dpnd_type :=
  m_dpnd_type r; m_parent := m_parent r; m_child := m_child r; m_para_num := m_para_num r;
  m_para_key_type := m_para_key_type r; m_para_top_p := m_para_top_p r; m_para_type :=
  m_para_type r; m_to_para_p := m_to_para_p r
|}.

Definition set_m_parent (v : option Z) (r : MRPH_DATA) : MRPH_DATA := {|
    m_num := m_num r; m_Goi := m_Goi r; m_Yomi := m_Yomi r; m_Goi2 := m_Goi2 r; m_Hinshi :=
  m_Hinshi r; m_Bunrui := m_Bunrui r; m_Katuyou_Kata := m_Katuyou_Kata r; m_Katuyou_Kei :=
  m_Katuyou_Kei r; m_f := m_f r; m_SM := m_SM r; m_Imi := m_Imi r; m_tnum := m_tnum r; m_inum :=
  m_inum r; m_out_head_flag := m_out_head_flag r; m_dpnd_head := m_dpnd_head r; m_dpnd_type :=
  m_dpnd_type r; m_parent := v; m_child := m_child r; m_para_num := m_para_num r;
  m_para_key_type := m_para_key_type r; m_para_top_p := m_para_top_p r; m_para_type :=
  m_para_type r; m_to_para_p := m_to_para_p r
|}.

Definition set_m_child (v : list Z) (r : MRPH_DATA) : MRPH_DATA := {|
    m_num := m_num r; m_Goi := m_Goi r; m_Yomi := m_Yomi r; m_Goi2 := m_Goi2 r; m_Hinshi :=
  m_Hinshi r; m_Bunrui := m_Bunrui r; m_Katuyou_Kata := m_Katuyou_Kata r; m_Katuyou_Kei :=
  m_Katuyou_Kei r; m_f := m_f r; m_SM := m_SM r; m_Imi := m_Imi r; m_tnum := m_tnum r; m_inum :=
  m_inum r; m_out_head_flag := m_out_head_flag r; m_dpnd_head := m_dpnd_head r; m_dpnd_type :=
  m_dpnd_type r; m_parent := m_parent r; m_child := v; m_para_num := m_para_num r;
  m_para_key_type := m_para_key_type r; m_para_top_p := m_para_top_p r; m_para_type :=
  m_para_type r; m_to_para_p := m_to_para_p r
|}.

Definition set_m_para_num (v : Z) (r : MRPH_DATA) : MRPH_DATA := {|
    m_num := m_num r; m_Goi := m_Goi r; m_Yomi := m_Yomi r; m_Goi2 := m_Goi2 r; m_Hinshi :=
  m_Hinshi r; m_Bunrui := m_Bunrui r; m_Katuyou_Kata := m_Katuyou_Kata r; m_Katuyou_Kei :=
  m_Katuyou_Kei r; m_f := m_f r; m_SM := m_SM r; m_Imi := m_Imi r; m_tnum := m_tnum r; m_inum :=
  m_inum r; m_out_head_flag := m_out_head_flag r; m_dpnd_head := m_dpnd_head r; m_dpnd_type :=
  m_dpnd_type r; m_parent := m_parent r; m_child := m_child r; m_para_num := v; m_para_key_type
  := m_para_key_type r; m_para_top_p := m_para_top_p r; m_para_type := m_para_type r;
  m_to_para_p := m_to_para_p r
|}.

Definition set_m_para_key_type (v : Z) (r : MRPH_DATA) : MRPH_DATA := {|
    m_num := m_num r; m_Goi := m_Goi r; m_Yomi := m_Yomi r; m_Goi2 := m_Goi2 r; m_Hinshi :=
  m_Hinshi r; m_Bunrui := m_Bunrui r; m_Katuyou_Kata := m_Katuyou_Kata r; m_Katuyou_Kei :=
  m_Katuyou_Kei r; m_f := m_f r; m_SM := m_SM r; m_Imi := m_Imi r; m_tnum := m_tnum r; m_inum :=
  m_inum r; m_out_head_flag := m_out_head_flag r; m_dpnd_head := m_dpnd_head r; m_dpnd_type :=
  m_dpnd_type r; m_parent := m_parent r; m_child := m_child r; m_para_num := m_para_num r;
  m_para_key_type := v; m_para_top_p := m_para_top_p r; m_para_type := m_para_type r;
  m_to_para_p := m_to_para_p r
|}.

Definition set_m_para_top_p (v : bool) (r : MRPH_DATA) : MRPH_DATA := {|
    m_num := m_num r; m_Goi := m_Goi r; m_Yomi := m_Yomi r; m_Goi2 := m_Goi2 r; m_Hinshi :=
  m_Hinshi r; m_Bunrui := m_Bunrui r; m_Katuyou_Kata := m_Katuyou_Kata r; m_Katuyou_Kei :=
  m_Katuyou_Kei r; m_f := m_f r; m_SM := m_SM r; m_Imi := m_Imi r; m_tnum := m_tnum r; m_inum :=
  m_inum r; m_out_head_flag := m_out_head_flag r; m_dpnd_head := m_dpnd_head r; m_dpnd_type :=
  m_dpnd_type r; m_parent := m_parent r; m_child := m_child r; m_para_num := m_para_num r;
  m_para_key_type := m_para_key_type r; m_para_top_p := v; m_para_type := m_para_type r;
  m_to_para_p := m_to_para_p r
|}.

Definition set_m_para_type (v : Z) (r : MRPH_DATA) : MRPH_DATA := {|
    m_num := m_num r; m_Goi := m_Goi r; m_Yomi := m_Yomi r; m_Goi2 := m_Goi2 r; m_Hinshi :=
  m_Hinshi r; m_Bunrui := m_Bunrui r; m_Katuyou_Kata := m_Katuyou_Kata r; m_Katuyou_Kei :=
  m_Katuyou_Kei r; m_f := m_f r; m_SM := m_SM r; m_Imi := m_Imi r; m_tnum := m_tnum r; m_inum :=
  m_inum r; m_out_head_flag := m_out_head_flag r; m_dpnd_head := m_dpnd_head r; m_dpnd_type :=
  m_dpnd_type r; m_parent := m_parent r; m_child := m_child r; m_para_num := m_para_num r;
  m_para_key_type := m_para_key_type r; m_para_top_p := m_para_top_p r; m_para_type := v;
  m_to_para_p := m_to_para_p r
|}.

Definition set_m_to_para_p (v : bool) (r : MRPH_DATA) : MRPH_DATA := {|
    m_num := m_num r; m_Goi := m_Goi r; m_Yomi := m_Yomi r; m_Goi2 := m_Goi2 r; m_Hinshi :=
  m_Hinshi r; m_Bunrui := m_Bunrui r; m_Katuyou_Kata := m_Katuyou_Kata r; m_Katuyou_Kei :=
  m_Katuyou_Kei r; m_f := m_f r; m_SM := m_SM r; m_Imi := m_Imi r; m_tnum := m_tnum r; m_inum :=
  m_inum r; m_out_head_flag := m_out_head_flag r; m_dpnd_head := m_dpnd_head r; m_dpnd_type :=
  m_dpnd_type r; m_parent := m_parent r; m_child := m_child r; m_para_num := m_para_num r;
  m_para_key_type := m_para_key_type r; m_para_top_p := m_para_top_p r; m_para_type :=
  m_para_type r; m_to_para_p := v
|}.

  (** A bunsetsu or a tag (basic phrase): [b_Jiritu_Go], [b_dpnd_rule] and [b_tag_*] are fields
  of BNST_DATA only, [b_bnum] to [b_fuzoku_ptr] of TAG_DATA only *)
Record BNST_DATA : Type := mkBNST {
  b_num : Z;
  b_parent : option Z;
  b_child : list Z;
  b_dpnd_head : Z;
  b_dpnd_type : Z;
  b_dpnd_dflt : Z;
  b_para_num : Z;
  b_para_key_type : Z;
  b_para_top_p : bool;
  b_para_type : Z;
  b_to_para_p : bool;
  b_sp_level : Z;
  b_mrph_ptr : Z;
  b_mrph_num : Z;
  b_head_ptr : option Z;
  b_BGH_code : string;
  b_SM_code : string;
  b_voice : Z;
  b_f : FEATURE;
  b_SCASE_code : array Z;
  b_Jiritu_Go : string;
  b_dpnd_rule : option Z;
  b_tag_ptr : Z;
  b_tag_num : Z;
  b_type : Z;
  b_length : Z;
  b_bnum : Z;
  b_inum : Z;
  b_b_ptr : Z;
  b_settou_num : Z;
  b_jiritu_num : Z;
  b_fuzoku_num : Z;
  b_settou_ptr : option Z;
  b_jiritu_ptr : option Z;
  b_fuzoku_ptr : option Z;
  b_BGH_num : Z;
  b_SM_num : Z
}.

Definition BNST_DATA_0 : BNST_DATA := {|
  b_num := 0;
  b_parent := None;
  b_child := [];
  b_dpnd_head := 0;
  b_dpnd_type := 0;
  b_dpnd_dflt := 0;
  b_para_num := 0;
  b_para_key_type := 0;
  b_para_top_p := false;
  b_para_type := 0;
  b_to_para_p := false;
  b_sp_level := 0;
  b_mrph_ptr := 0;
  b_mrph_num := 0;
  b_head_ptr := None;
  b_BGH_code := EmptyString;
  b_SM_code := EmptyString;
  b_voice := 0;
  b_f := [];
  b_SCASE_code := (fun _ => 0);
  b_Jiritu_Go := EmptyString;
  b_dpnd_rule := None;
  b_tag_ptr := 0;
  b_tag_num := 0;
  b_type := 0;
  b_length := 0;
  b_bnum := 0;
  b_inum := 0;
  b_b_ptr := 0;
  b_settou_num := 0;
  b_jiritu_num := 0;
  b_fuzoku_num := 0;
  b_settou_ptr := None;
  b_jiritu_ptr := None;
  b_fuzoku_ptr := None;
  b_BGH_num := 0;
  b_SM_num := 0
|}.

Definition set_b_num (v : Z) (r : BNST_DATA) : BNST_DATA := {|
    b_num := v; b_parent := b_parent r; b_child := b_child r; b_dpnd_head := b_dpnd_head r;
  b_dpnd_type := b_dpnd_type r; b_dpnd_dflt := b_dpnd_dflt r; b_para_num := b_para_num r;
  b_para_key_type := b_para_key_type r; b_para_top_p := b_para_top_p r; b_para_type :=
  b_para_type r; b_to_para_p := b_to_para_p r; b_sp_level := b_sp_level r; b_mrph_ptr :=
  b_mrph_ptr r; b_mrph_num := b_mrph_num r; b_head_ptr := b_head_ptr r; b_BGH_code := b_BGH_code
  r; b_SM_code := b_SM_code r; b_voice := b_voice r; b_f := b_f r; b_SCASE_code := b_SCASE_code
  r; b_Jiritu_Go := b_Jiritu_Go r; b_dpnd_rule := b_dpnd_rule r; b_tag_ptr := b_tag_ptr r;
  b_tag_num := b_tag_num r; b_type := b_type r; b_length := b_length r; b_bnum := b_bnum r;
  b_inum := b_inum r; b_b_ptr := b_b_ptr r; b_settou_num := b_settou_num r; b_jiritu_num :=
  b_jiritu_num r; b_fuzoku_num := b_fuzoku_num r; b_settou_ptr := b_settou_ptr r; b_jiritu_ptr
  := b_jiritu_ptr r; b_fuzoku_ptr := b_fuzoku_ptr r; b_BGH_num := b_BGH_num r; b_SM_num :=
  b_SM_num r
|}.

Definition set_b_parent (v : option Z) (r : BNST_DATA) : BNST_DATA := {|
    b_num := b_num r; b_parent := v; b_child := b_child r; b_dpnd_head := b_dpnd_head r;
  b_dpnd_type := b_dpnd_type r; b_dpnd_dflt := b_dpnd_dflt r; b_para_num := b_para_num r;
  b_para_key_type := b_para_key_type r; b_para_top_p := b_para_top_p r; b_para_type :=
  b_para_type r; b_to_para_p := b_to_para_p r; b_sp_level := b_sp_level r; b_mrph_ptr :=
  b_mrph_ptr r; b_mrph_num := b_mrph_num r; b_head_ptr := b_head_ptr r; b_BGH_code := b_BGH_code
  r; b_SM_code := b_SM_code r; b_voice := b_voice r; b_f := b_f r; b_SCASE_code := b_SCASE_code
  r; b_Jiritu_Go := b_Jiritu_Go r; b_dpnd_rule := b_dpnd_rule r; b_tag_ptr := b_tag_ptr r;
  b_tag_num := b_tag_num r; b_type := b_type r; b_length := b_length r; b_bnum := b_bnum r;
  b_inum := b_inum r; b_b_ptr := b_b_ptr r; b_settou_num := b_settou_num r; b_jiritu_num :=
  b_jiritu_num r; b_fuzoku_num := b_fuzoku_num r; b_settou_ptr := b_settou_ptr r; b_jiritu_ptr
  := b_jiritu_ptr r; b_fuzoku_ptr := b_fuzoku_ptr r; b_BGH_num := b_BGH_num r; b_SM_num :=
  b_SM_num r
|}.

Definition set_b_child (v : list Z) (r : BNST_DATA) : BNST_DATA := {|
    b_num := b_num r; b_parent := b_parent r; b_child := v; b_dpnd_head := b_dpnd_head r;
  b_dpnd_type := b_dpnd_type r; b_dpnd_dflt := b_dpnd_dflt r; b_para_num := b_para_num r;
  b_para_key_type := b_para_key_type r; b_para_top_p := b_para_top_p r; b_para_type :=
  b_para_type r; b_to_para_p := b_to_para_p r; b_sp_level := b_sp_level r; b_mrph_ptr :=
  b_mrph_ptr r; b_mrph_num := b_mrph_num r; b_head_ptr := b_head_ptr r; b_BGH_code := b_BGH_code
  r; b_SM_code := b_SM_code r; b_voice := b_voice r; b_f := b_f r; b_SCASE_code := b_SCASE_code
  r; b_Jiritu_Go := b_Jiritu_Go r; b_dpnd_rule := b_dpnd_rule r; b_tag_ptr := b_tag_ptr r;
  b_tag_num := b_tag_num r; b_type := b_type r; b_length := b_length r; b_bnum := b_bnum r;
  b_inum := b_inum r; b_b_ptr := b_b_ptr r; b_settou_num := b_settou_num r; b_jiritu_num :=
  b_jiritu_num r; b_fuzoku_num := b_fuzoku_num r; b_settou_ptr := b_settou_ptr r; b_jiritu_ptr
  := b_jiritu_ptr r; b_fuzoku_ptr := b_fuzoku_ptr r; b_BGH_num := b_BGH_num r; b_SM_num :=
  b_SM_num r
|}.

Definition set_b_dpnd_head (v : Z) (r : BNST_DATA) : BNST_DATA := {|
    b_num := b_num r; b_parent := b_parent r; b_child := b_child r; b_dpnd_head := v;
  b_dpnd_type := b_dpnd_type r; b_dpnd_dflt := b_dpnd_dflt r; b_para_num := b_para_num r;
  b_para_key_type := b_para_key_type r; b_para_top_p := b_para_top_p r; b_para_type :=
  b_para_type r; b_to_para_p := b_to_para_p r; b_sp_level := b_sp_level r; b_mrph_ptr :=
  b_mrph_ptr r; b_mrph_num := b_mrph_num r; b_head_ptr := b_head_ptr r; b_BGH_code := b_BGH_code
  r; b_SM_code := b_SM_code r; b_voice := b_voice r; b_f := b_f r; b_SCASE_code := b_SCASE_code
  r; b_Jiritu_Go := b_Jiritu_Go r; b_dpnd_rule := b_dpnd_rule r; b_tag_ptr := b_tag_ptr r;
  b_tag_num := b_tag_num r; b_type := b_type r; b_length := b_length r; b_bnum := b_bnum r;
  b_inum := b_inum r; b_b_ptr := b_b_ptr r; b_settou_num := b_settou_num r; b_jiritu_num :=
  b_jiritu_num r; b_fuzoku_num := b_fuzoku_num r; b_settou_ptr := b_settou_ptr r; b_jiritu_ptr
  := b_jiritu_ptr r; b_fuzoku_ptr := b_fuzoku_ptr r; b_BGH_num := b_BGH_num r; b_SM_num :=
  b_SM_num r
|}.

Definition set_b_dpnd_type (v : Z) (r : BNST_DATA) : BNST_DATA := {|
    b_num := b_num r; b_parent := b_parent r; b_child := b_child r; b_dpnd_head := b_dpnd_head
  r; b_dpnd_type := v; b_dpnd_dflt := b_dpnd_dflt r; b_para_num := b_para_num r; b_para_key_type
  := b_para_key_type r; b_para_top_p := b_para_top_p r; b_para_type := b_para_type r;
  b_to_para_p := b_to_para_p r; b_sp_level := b_sp_level r; b_mrph_ptr := b_mrph_ptr r;
  b_mrph_num := b_mrph_num r; b_head_ptr := b_head_ptr r; b_BGH_code := b_BGH_code r; b_SM_code
  := b_SM_code r; b_voice := b_voice r; b_f := b_f r; b_SCASE_code := b_SCASE_code r;
  b_Jiritu_Go := b_Jiritu_Go r; b_dpnd_rule := b_dpnd_rule r; b_tag_ptr := b_tag_ptr r;
  b_tag_num := b_tag_num r; b_type := b_type r; b_length := b_length r; b_bnum := b_bnum r;
  b_inum := b_inum r; b_b_ptr := b_b_ptr r; b_settou_num := b_settou_num r; b_jiritu_num :=
  b_jiritu_num r; b_fuzoku_num := b_fuzoku_num r; b_settou_ptr := b_settou_ptr r; b_jiritu_ptr
  := b_jiritu_ptr r; b_fuzoku_ptr := b_fuzoku_ptr r; b_BGH_num := b_BGH_num r; b_SM_num :=
  b_SM_num r
|}.

Definition set_b_dpnd_dflt (v : Z) (r : BNST_DATA) : BNST_DATA := {|
    b_num := b_num r; b_parent := b_parent r; b_child := b_child r; b_dpnd_head := b_dpnd_head
  r; b_dpnd_type := b_dpnd_type r; b_dpnd_dflt := v; b_para_num := b_para_num r; b_para_key_type
  := b_para_key_type r; b_para_top_p := b_para_top_p r; b_para_type := b_para_type r;
  b_to_para_p := b_to_para_p r; b_sp_level := b_sp_level r; b_mrph_ptr := b_mrph_ptr r;
  b_mrph_num := b_mrph_num r; b_head_ptr := b_head_ptr r; b_BGH_code := b_BGH_code r; b_SM_code
  := b_SM_code r; b_voice := b_voice r; b_f := b_f r; b_SCASE_code := b_SCASE_code r;
  b_Jiritu_Go := b_Jiritu_Go r; b_dpnd_rule := b_dpnd_rule r; b_tag_ptr := b_tag_ptr r;
  b_tag_num := b_tag_num r; b_type := b_type r; b_length := b_length r; b_bnum := b_bnum r;
  b_inum := b_inum r; b_b_ptr := b_b_ptr r; b_settou_num := b_settou_num r; b_jiritu_num :=
  b_jiritu_num r; b_fuzoku_num := b_fuzoku_num r; b_settou_ptr := b_settou_ptr r; b_jiritu_ptr
  := b_jiritu_ptr r; b_fuzoku_ptr := b_fuzoku_ptr r; b_BGH_num := b_BGH_num r; b_SM_num :=
  b_SM_num r
|}.

Definition set_b_para_num (v : Z) (r : BNST_DATA) : BNST_DATA := {|
    b_num := b_num r; b_parent := b_parent r; b_child := b_child r; b_dpnd_head := b_dpnd_head
  r; b_dpnd_type := b_dpnd_type r; b_dpnd_dflt := b_dpnd_dflt r; b_para_num := v;
  b_para_key_type := b_para_key_type r; b_para_top_p := b_para_top_p r; b_para_type :=
  b_para_type r; b_to_para_p := b_to_para_p r; b_sp_level := b_sp_level r; b_mrph_ptr :=
  b_mrph_ptr r; b_mrph_num := b_mrph_num r; b_head_ptr := b_head_ptr r; b_BGH_code := b_BGH_code
  r; b_SM_code := b_SM_code r; b_voice := b_voice r; b_f := b_f r; b_SCASE_code := b_SCASE_code
  r; b_Jiritu_Go := b_Jiritu_Go r; b_dpnd_rule := b_dpnd_rule r; b_tag_ptr := b_tag_ptr r;
  b_tag_num := b_tag_num r; b_type := b_type r; b_length := b_length r; b_bnum := b_bnum r;
  b_inum := b_inum r; b_b_ptr := b_b_ptr r; b_settou_num := b_settou_num r; b_jiritu_num :=
  b_jiritu_num r; b_fuzoku_num := b_fuzoku_num r; b_settou_ptr := b_settou_ptr r; b_jiritu_ptr
  := b_jiritu_ptr r; b_fuzoku_ptr := b_fuzoku_ptr r; b_BGH_num := b_BGH_num r; b_SM_num :=
  b_SM_num r
|}.

Definition set_b_para_key_type (v : Z) (r : BNST_DATA) : BNST_DATA := {|
    b_num := b_num r; b_parent := b_parent r; b_child := b_child r; b_dpnd_head := b_dpnd_head
  r; b_dpnd_type := b_dpnd_type r; b_dpnd_dflt := b_dpnd_dflt r; b_para_num := b_para_num r;
  b_para_key_type := v; b_para_top_p := b_para_top_p r; b_para_type := b_para_type r;
  b_to_para_p := b_to_para_p r; b_sp_level := b_sp_level r; b_mrph_ptr := b_mrph_ptr r;
  b_mrph_num := b_mrph_num r; b_head_ptr := b_head_ptr r; b_BGH_code := b_BGH_code r; b_SM_code
  := b_SM_code r; b_voice := b_voice r; b_f := b_f r; b_SCASE_code := b_SCASE_code r;
  b_Jiritu_Go := b_Jiritu_Go r; b_dpnd_rule := b_dpnd_rule r; b_tag_ptr := b_tag_ptr r;
  b_tag_num := b_tag_num r; b_type := b_type r; b_length := b_length r; b_bnum := b_bnum r;
  b_inum := b_inum r; b_b_ptr := b_b_ptr r; b_settou_num := b_settou_num r; b_jiritu_num :=
  b_jiritu_num r; b_fuzoku_num := b_fuzoku_num r; b_settou_ptr := b_settou_ptr r; b_jiritu_ptr
  := b_jiritu_ptr r; b_fuzoku_ptr := b_fuzoku_ptr r; b_BGH_num := b_BGH_num r; b_SM_num :=
  b_SM_num r
|}.

Definition set_b_para_top_p (v : bool) (r : BNST_DATA) : BNST_DATA := {|
    b_num := b_num r; b_parent := b_parent r; b_child := b_child r; b_dpnd_head := b_dpnd_head
  r; b_dpnd_type := b_dpnd_type r; b_dpnd_dflt := b_dpnd_dflt r; b_para_num := b_para_num r;
  b_para_key_type := b_para_key_type r; b_para_top_p := v; b_para_type := b_para_type r;
  b_to_para_p := b_to_para_p r; b_sp_level := b_sp_level r; b_mrph_ptr := b_mrph_ptr r;
  b_mrph_num := b_mrph_num r; b_head_ptr := b_head_ptr r; b_BGH_code := b_BGH_code r; b_SM_code
  := b_SM_code r; b_voice := b_voice r; b_f := b_f r; b_SCASE_code := b_SCASE_code r;
  b_Jiritu_Go := b_Jiritu_Go r; b_dpnd_rule := b_dpnd_rule r; b_tag_ptr := b_tag_ptr r;
  b_tag_num := b_tag_num r; b_type := b_type r; b_length := b_length r; b_bnum := b_bnum r;
  b_inum := b_inum r; b_b_ptr := b_b_ptr r; b_settou_num := b_settou_num r; b_jiritu_num :=
  b_jiritu_num r; b_fuzoku_num := b_fuzoku_num r; b_settou_ptr := b_settou_ptr r; b_jiritu_ptr
  := b_jiritu_ptr r; b_fuzoku_ptr := b_fuzoku_ptr r; b_BGH_num := b_BGH_num r; b_SM_num :=
  b_SM_num r
|}.

Definition set_b_para_type (v : Z) (r : BNST_DATA) : BNST_DATA := {|
    b_num := b_num r; b_parent := b_parent r; b_child := b_child r; b_dpnd_head := b_dpnd_head
  r; b_dpnd_type := b_dpnd_type r; b_dpnd_dflt := b_dpnd_dflt r; b_para_num := b_para_num r;
  b_para_key_type := b_para_key_type r; b_para_top_p := b_para_top_p r; b_para_type := v;
  b_to_para_p := b_to_para_p r; b_sp_level := b_sp_level r; b_mrph_ptr := b_mrph_ptr r;
  b_mrph_num := b_mrph_num r; b_head_ptr := b_head_ptr r; b_BGH_code := b_BGH_code r; b_SM_code
  := b_SM_code r; b_voice := b_voice r; b_f := b_f r; b_SCASE_code := b_SCASE_code r;
  b_Jiritu_Go := b_Jiritu_Go r; b_dpnd_rule := b_dpnd_rule r; b_tag_ptr := b_tag_ptr r;
  b_tag_num := b_tag_num r; b_type := b_type r; b_length := b_length r; b_bnum := b_bnum r;
  b_inum := b_inum r; b_b_ptr := b_b_ptr r; b_settou_num := b_settou_num r; b_jiritu_num :=
  b_jiritu_num r; b_fuzoku_num := b_fuzoku_num r; b_settou_ptr := b_settou_ptr r; b_jiritu_ptr
  := b_jiritu_ptr r; b_fuzoku_ptr := b_fuzoku_ptr r; b_BGH_num := b_BGH_num r; b_SM_num :=
  b_SM_num r
|}.

Definition set_b_to_para_p (v : bool) (r : BNST_DATA) : BNST_DATA := {|
    b_num := b_num r; b_parent := b_parent r; b_child := b_child r; b_dpnd_head := b_dpnd_head
  r; b_dpnd_type := b_dpnd_type r; b_dpnd_dflt := b_dpnd_dflt r; b_para_num := b_para_num r;
  b_para_key_type := b_para_key_type r; b_para_top_p := b_para_top_p r; b_para_type :=
  b_para_type r; b_to_para_p := v; b_sp_level := b_sp_level r; b_mrph_ptr := b_mrph_ptr r;
  b_mrph_num := b_mrph_num r; b_head_ptr := b_head_ptr r; b_BGH_code := b_BGH_code r; b_SM_code
  := b_SM_code r; b_voice := b_voice r; b_f := b_f r; b_SCASE_code := b_SCASE_code r;
  b_Jiritu_Go := b_Jiritu_Go r; b_dpnd_rule := b_dpnd_rule r; b_tag_ptr := b_tag_ptr r;
  b_tag_num := b_tag_num r; b_type := b_type r; b_length := b_length r; b_bnum := b_bnum r;
  b_inum := b_inum r; b_b_ptr := b_b_ptr r; b_settou_num := b_settou_num r; b_jiritu_num :=
  b_jiritu_num r; b_fuzoku_num := b_fuzoku_num r; b_settou_ptr := b_settou_ptr r; b_jiritu_ptr
  := b_jiritu_ptr r; b_fuzoku_ptr := b_fuzoku_ptr r; b_BGH_num := b_BGH_num r; b_SM_num :=
  b_SM_num r
|}.

Definition set_b_sp_level (v : Z) (r : BNST_DATA) : BNST_DATA := {|
    b_num := b_num r; b_parent := b_parent r; b_child := b_child r; b_dpnd_head := b_dpnd_head
  r; b_dpnd_type := b_dpnd_type r; b_dpnd_dflt := b_dpnd_dflt r; b_para_num := b_para_num r;
  b_para_key_type := b_para_key_type r; b_para_top_p := b_para_top_p r; b_para_type :=
  b_para_type r; b_to_para_p := b_to_para_p r; b_sp_level := v; b_mrph_ptr := b_mrph_ptr r;
  b_mrph_num := b_mrph_num r; b_head_ptr := b_head_ptr r; b_BGH_code := b_BGH_code r; b_SM_code
  := b_SM_code r; b_voice := b_voice r; b_f := b_f r; b_SCASE_code := b_SCASE_code r;
  b_Jiritu_Go := b_Jiritu_Go r; b_dpnd_rule := b_dpnd_rule r; b_tag_ptr := b_tag_ptr r;
  b_tag_num := b_tag_num r; b_type := b_type r; b_length := b_length r; b_bnum := b_bnum r;
  b_inum := b_inum r; b_b_ptr := b_b_ptr r; b_settou_num := b_settou_num r; b_jiritu_num :=
  b_jiritu_num r; b_fuzoku_num := b_fuzoku_num r; b_settou_ptr := b_settou_ptr r; b_jiritu_ptr
  := b_jiritu_ptr r; b_fuzoku_ptr := b_fuzoku_ptr r; b_BGH_num := b_BGH_num r; b_SM_num :=
  b_SM_num r
|}.

Definition set_b_f (v : FEATURE) (r : BNST_DATA) : BNST_DATA := {|
    b_num := b_num r; b_parent := b_parent r; b_child := b_child r; b_dpnd_head := b_dpnd_head
  r; b_dpnd_type := b_dpnd_type r; b_dpnd_dflt := b_dpnd_dflt r; b_para_num := b_para_num r;
  b_para_key_type := b_para_key_type r; b_para_top_p := b_para_top_p r; b_para_type :=
  b_para_type r; b_to_para_p := b_to_para_p r; b_sp_level := b_sp_level r; b_mrph_ptr :=
  b_mrph_ptr r; b_mrph_num := b_mrph_num r; b_head_ptr := b_head_ptr r; b_BGH_code := b_BGH_code
  r; b_SM_code := b_SM_code r; b_voice := b_voice r; b_f := v; b_SCASE_code := b_SCASE_code r;
  b_Jiritu_Go := b_Jiritu_Go r; b_dpnd_rule := b_dpnd_rule r; b_tag_ptr := b_tag_ptr r;
  b_tag_num := b_tag_num r; b_type := b_type r; b_length := b_length r; b_bnum := b_bnum r;
  b_inum := b_inum r; b_b_ptr := b_b_ptr r; b_settou_num := b_settou_num r; b_jiritu_num :=
  b_jiritu_num r; b_fuzoku_num := b_fuzoku_num r; b_settou_ptr := b_settou_ptr r; b_jiritu_ptr
  := b_jiritu_ptr r; b_fuzoku_ptr := b_fuzoku_ptr r; b_BGH_num := b_BGH_num r; b_SM_num :=
  b_SM_num r
|}.

Definition set_b_dpnd_rule (v : option Z) (r : BNST_DATA) : BNST_DATA := {|
    b_num := b_num r; b_parent := b_parent r; b_child := b_child r; b_dpnd_head := b_dpnd_head
  r; b_dpnd_type := b_dpnd_type r; b_dpnd_dflt := b_dpnd_dflt r; b_para_num := b_para_num r;
  b_para_key_type := b_para_key_type r; b_para_top_p := b_para_top_p r; b_para_type :=
  b_para_type r; b_to_para_p := b_to_para_p r; b_sp_level := b_sp_level r; b_mrph_ptr :=
  b_mrph_ptr r; b_mrph_num := b_mrph_num r; b_head_ptr := b_head_ptr r; b_BGH_code := b_BGH_code
  r; b_SM_code := b_SM_code r; b_voice := b_voice r; b_f := b_f r; b_SCASE_code := b_SCASE_code
  r; b_Jiritu_Go := b_Jiritu_Go r; b_dpnd_rule := v; b_tag_ptr := b_tag_ptr r; b_tag_num :=
  b_tag_num r; b_type := b_type r; b_length := b_length r; b_bnum := b_bnum r; b_inum := b_inum
  r; b_b_ptr := b_b_ptr r; b_settou_num := b_settou_num r; b_jiritu_num := b_jiritu_num r;
  b_fuzoku_num := b_fuzoku_num r; b_settou_ptr := b_settou_ptr r; b_jiritu_ptr := b_jiritu_ptr
  r; b_fuzoku_ptr := b_fuzoku_ptr r; b_BGH_num := b_BGH_num r; b_SM_num := b_SM_num r
|}.

Definition set_b_mrph_num (v : Z) (r : BNST_DATA) : BNST_DATA := {|
    b_num := b_num r; b_parent := b_parent r; b_child := b_child r; b_dpnd_head := b_dpnd_head
  r; b_dpnd_type := b_dpnd_type r; b_dpnd_dflt := b_dpnd_dflt r; b_para_num := b_para_num r;
  b_para_key_type := b_para_key_type r; b_para_top_p := b_para_top_p r; b_para_type :=
  b_para_type r; b_to_para_p := b_to_para_p r; b_sp_level := b_sp_level r; b_mrph_ptr :=
  b_mrph_ptr r; b_mrph_num := v; b_head_ptr := b_head_ptr r; b_BGH_code := b_BGH_code r;
  b_SM_code := b_SM_code r; b_voice := b_voice r; b_f := b_f r; b_SCASE_code := b_SCASE_code r;
  b_Jiritu_Go := b_Jiritu_Go r; b_dpnd_rule := b_dpnd_rule r; b_tag_ptr := b_tag_ptr r;
  b_tag_num := b_tag_num r; b_type := b_type r; b_length := b_length r; b_bnum := b_bnum r;
  b_inum := b_inum r; b_b_ptr := b_b_ptr r; b_settou_num := b_settou_num r; b_jiritu_num :=
  b_jiritu_num r; b_fuzoku_num := b_fuzoku_num r; b_settou_ptr := b_settou_ptr r; b_jiritu_ptr
  := b_jiritu_ptr r; b_fuzoku_ptr := b_fuzoku_ptr r; b_BGH_num := b_BGH_num r; b_SM_num :=
  b_SM_num r
|}.

Definition set_b_mrph_ptr (v : Z) (r : BNST_DATA) : BNST_DATA := {|
    b_num := b_num r; b_parent := b_parent r; b_child := b_child r; b_dpnd_head := b_dpnd_head
  r; b_dpnd_type := b_dpnd_type r; b_dpnd_dflt := b_dpnd_dflt r; b_para_num := b_para_num r;
  b_para_key_type := b_para_key_type r; b_para_top_p := b_para_top_p r; b_para_type :=
  b_para_type r; b_to_para_p := b_to_para_p r; b_sp_level := b_sp_level r; b_mrph_ptr := v;
  b_mrph_num := b_mrph_num r; b_head_ptr := b_head_ptr r; b_BGH_code := b_BGH_code r; b_SM_code
  := b_SM_code r; b_voice := b_voice r; b_f := b_f r; b_SCASE_code := b_SCASE_code r;
  b_Jiritu_Go := b_Jiritu_Go r; b_dpnd_rule := b_dpnd_rule r; b_tag_ptr := b_tag_ptr r;
  b_tag_num := b_tag_num r; b_type := b_type r; b_length := b_length r; b_bnum := b_bnum r;
  b_inum := b_inum r; b_b_ptr := b_b_ptr r; b_settou_num := b_settou_num r; b_jiritu_num :=
  b_jiritu_num r; b_fuzoku_num := b_fuzoku_num r; b_settou_ptr := b_settou_ptr r; b_jiritu_ptr
  := b_jiritu_ptr r; b_fuzoku_ptr := b_fuzoku_ptr r; b_BGH_num := b_BGH_num r; b_SM_num :=
  b_SM_num r
|}.

Definition set_b_head_ptr (v : option Z) (r : BNST_DATA) : BNST_DATA := {|
    b_num := b_num r; b_parent := b_parent r; b_child := b_child r; b_dpnd_head := b_dpnd_head
  r; b_dpnd_type := b_dpnd_type r; b_dpnd_dflt := b_dpnd_dflt r; b_para_num := b_para_num r;
  b_para_key_type := b_para_key_type r; b_para_top_p := b_para_top_p r; b_para_type :=
  b_para_type r; b_to_para_p := b_to_para_p r; b_sp_level := b_sp_level r; b_mrph_ptr :=
  b_mrph_ptr r; b_mrph_num := b_mrph_num r; b_head_ptr := v; b_BGH_code := b_BGH_code r;
  b_SM_code := b_SM_code r; b_voice := b_voice r; b_f := b_f r; b_SCASE_code := b_SCASE_code r;
  b_Jiritu_Go := b_Jiritu_Go r; b_dpnd_rule := b_dpnd_rule r; b_tag_ptr := b_tag_ptr r;
  b_tag_num := b_tag_num r; b_type := b_type r; b_length := b_length r; b_bnum := b_bnum r;
  b_inum := b_inum r; b_b_ptr := b_b_ptr r; b_settou_num := b_settou_num r; b_jiritu_num :=
  b_jiritu_num r; b_fuzoku_num := b_fuzoku_num r; b_settou_ptr := b_settou_ptr r; b_jiritu_ptr
  := b_jiritu_ptr r; b_fuzoku_ptr := b_fuzoku_ptr r; b_BGH_num := b_BGH_num r; b_SM_num :=
  b_SM_num r
|}.

Definition set_b_voice (v : Z) (r : BNST_DATA) : BNST_DATA := {|
    b_num := b_num r; b_parent := b_parent r; b_child := b_child r; b_dpnd_head := b_dpnd_head
  r; b_dpnd_type := b_dpnd_type r; b_dpnd_dflt := b_dpnd_dflt r; b_para_num := b_para_num r;
  b_para_key_type := b_para_key_type r; b_para_top_p := b_para_top_p r; b_para_type :=
  b_para_type r; b_to_para_p := b_to_para_p r; b_sp_level := b_sp_level r; b_mrph_ptr :=
  b_mrph_ptr r; b_mrph_num := b_mrph_num r; b_head_ptr := b_head_ptr r; b_BGH_code := b_BGH_code
  r; b_SM_code := b_SM_code r; b_voice := v; b_f := b_f r; b_SCASE_code := b_SCASE_code r;
  b_Jiritu_Go := b_Jiritu_Go r; b_dpnd_rule := b_dpnd_rule r; b_tag_ptr := b_tag_ptr r;
  b_tag_num := b_tag_num r; b_type := b_type r; b_length := b_length r; b_bnum := b_bnum r;
  b_inum := b_inum r; b_b_ptr := b_b_ptr r; b_settou_num := b_settou_num r; b_jiritu_num :=
  b_jiritu_num r; b_fuzoku_num := b_fuzoku_num r; b_settou_ptr := b_settou_ptr r; b_jiritu_ptr
  := b_jiritu_ptr r; b_fuzoku_ptr := b_fuzoku_ptr r; b_BGH_num := b_BGH_num r; b_SM_num :=
  b_SM_num r
|}.

Definition set_b_SCASE_code (v : array Z) (r : BNST_DATA) : BNST_DATA := {|
    b_num := b_num r; b_parent := b_parent r; b_child := b_child r; b_dpnd_head := b_dpnd_head
  r; b_dpnd_type := b_dpnd_type r; b_dpnd_dflt := b_dpnd_dflt r; b_para_num := b_para_num r;
  b_para_key_type := b_para_key_type r; b_para_top_p := b_para_top_p r; b_para_type :=
  b_para_type r; b_to_para_p := b_to_para_p r; b_sp_level := b_sp_level r; b_mrph_ptr :=
  b_mrph_ptr r; b_mrph_num := b_mrph_num r; b_head_ptr := b_head_ptr r; b_BGH_code := b_BGH_code
  r; b_SM_code := b_SM_code r; b_voice := b_voice r; b_f := b_f r; b_SCASE_code := v;
  b_Jiritu_Go := b_Jiritu_Go r; b_dpnd_rule := b_dpnd_rule r; b_tag_ptr := b_tag_ptr r;
  b_tag_num := b_tag_num r; b_type := b_type r; b_length := b_length r; b_bnum := b_bnum r;
  b_inum := b_inum r; b_b_ptr := b_b_ptr r; b_settou_num := b_settou_num r; b_jiritu_num :=
  b_jiritu_num r; b_fuzoku_num := b_fuzoku_num r; b_settou_ptr := b_settou_ptr r; b_jiritu_ptr
  := b_jiritu_ptr r; b_fuzoku_ptr := b_fuzoku_ptr r; b_BGH_num := b_BGH_num r; b_SM_num :=
  b_SM_num r
|}.

Definition set_b_Jiritu_Go (v : string) (r : BNST_DATA) : BNST_DATA := {|
    b_num := b_num r; b_parent := b_parent r; b_child := b_child r; b_dpnd_head := b_dpnd_head
  r; b_dpnd_type := b_dpnd_type r; b_dpnd_dflt := b_dpnd_dflt r; b_para_num := b_para_num r;
  b_para_key_type := b_para_key_type r; b_para_top_p := b_para_top_p r; b_para_type :=
  b_para_type r; b_to_para_p := b_to_para_p r; b_sp_level := b_sp_level r; b_mrph_ptr :=
  b_mrph_ptr r; b_mrph_num := b_mrph_num r; b_head_ptr := b_head_ptr r; b_BGH_code := b_BGH_code
  r; b_SM_code := b_SM_code r; b_voice := b_voice r; b_f := b_f r; b_SCASE_code := b_SCASE_code
  r; b_Jiritu_Go := v; b_dpnd_rule := b_dpnd_rule r; b_tag_ptr := b_tag_ptr r; b_tag_num :=
  b_tag_num r; b_type := b_type r; b_length := b_length r; b_bnum := b_bnum r; b_inum := b_inum
  r; b_b_ptr := b_b_ptr r; b_settou_num := b_settou_num r; b_jiritu_num := b_jiritu_num r;
  b_fuzoku_num := b_fuzoku_num r; b_settou_ptr := b_settou_ptr r; b_jiritu_ptr := b_jiritu_ptr
  r; b_fuzoku_ptr := b_fuzoku_ptr r; b_BGH_num := b_BGH_num r; b_SM_num := b_SM_num r
|}.

Definition set_b_tag_ptr (v : Z) (r : BNST_DATA) : BNST_DATA := {|
    b_num := b_num r; b_parent := b_parent r; b_child := b_child r; b_dpnd_head := b_dpnd_head
  r; b_dpnd_type := b_dpnd_type r; b_dpnd_dflt := b_dpnd_dflt r; b_para_num := b_para_num r;
  b_para_key_type := b_para_key_type r; b_para_top_p := b_para_top_p r; b_para_type :=
  b_para_type r; b_to_para_p := b_to_para_p r; b_sp_level := b_sp_level r; b_mrph_ptr :=
  b_mrph_ptr r; b_mrph_num := b_mrph_num r; b_head_ptr := b_head_ptr r; b_BGH_code := b_BGH_code
  r; b_SM_code := b_SM_code r; b_voice := b_voice r; b_f := b_f r; b_SCASE_code := b_SCASE_code
  r; b_Jiritu_Go := b_Jiritu_Go r; b_dpnd_rule := b_dpnd_rule r; b_tag_ptr := v; b_tag_num :=
  b_tag_num r; b_type := b_type r; b_length := b_length r; b_bnum := b_bnum r; b_inum := b_inum
  r; b_b_ptr := b_b_ptr r; b_settou_num := b_settou_num r; b_jiritu_num := b_jiritu_num r;
  b_fuzoku_num := b_fuzoku_num r; b_settou_ptr := b_settou_ptr r; b_jiritu_ptr := b_jiritu_ptr
  r; b_fuzoku_ptr := b_fuzoku_ptr r; b_BGH_num := b_BGH_num r; b_SM_num := b_SM_num r
|}.

Definition set_b_tag_num (v : Z) (r : BNST_DATA) : BNST_DATA := {|
    b_num := b_num r; b_parent := b_parent r; b_child := b_child r; b_dpnd_head := b_dpnd_head
  r; b_dpnd_type := b_dpnd_type r; b_dpnd_dflt := b_dpnd_dflt r; b_para_num := b_para_num r;
  b_para_key_type := b_para_key_type r; b_para_top_p := b_para_top_p r; b_para_type :=
  b_para_type r; b_to_para_p := b_to_para_p r; b_sp_level := b_sp_level r; b_mrph_ptr :=
  b_mrph_ptr r; b_mrph_num := b_mrph_num r; b_head_ptr := b_head_ptr r; b_BGH_code := b_BGH_code
  r; b_SM_code := b_SM_code r; b_voice := b_voice r; b_f := b_f r; b_SCASE_code := b_SCASE_code
  r; b_Jiritu_Go := b_Jiritu_Go r; b_dpnd_rule := b_dpnd_rule r; b_tag_ptr := b_tag_ptr r;
  b_tag_num := v; b_type := b_type r; b_length := b_length r; b_bnum := b_bnum r; b_inum :=
  b_inum r; b_b_ptr := b_b_ptr r; b_settou_num := b_settou_num r; b_jiritu_num := b_jiritu_num
  r; b_fuzoku_num := b_fuzoku_num r; b_settou_ptr := b_settou_ptr r; b_jiritu_ptr :=
  b_jiritu_ptr r; b_fuzoku_ptr := b_fuzoku_ptr r; b_BGH_num := b_BGH_num r; b_SM_num := b_SM_num
  r
|}.

Definition set_b_type (v : Z) (r : BNST_DATA) : BNST_DATA := {|
    b_num := b_num r; b_parent := b_parent r; b_child := b_child r; b_dpnd_head := b_dpnd_head
  r; b_dpnd_type := b_dpnd_type r; b_dpnd_dflt := b_dpnd_dflt r; b_para_num := b_para_num r;
  b_para_key_type := b_para_key_type r; b_para_top_p := b_para_top_p r; b_para_type :=
  b_para_type r; b_to_para_p := b_to_para_p r; b_sp_level := b_sp_level r; b_mrph_ptr :=
  b_mrph_ptr r; b_mrph_num := b_mrph_num r; b_head_ptr := b_head_ptr r; b_BGH_code := b_BGH_code
  r; b_SM_code := b_SM_code r; b_voice := b_voice r; b_f := b_f r; b_SCASE_code := b_SCASE_code
  r; b_Jiritu_Go := b_Jiritu_Go r; b_dpnd_rule := b_dpnd_rule r; b_tag_ptr := b_tag_ptr r;
  b_tag_num := b_tag_num r; b_type := v; b_length := b_length r; b_bnum := b_bnum r; b_inum :=
  b_inum r; b_b_ptr := b_b_ptr r; b_settou_num := b_settou_num r; b_jiritu_num := b_jiritu_num
  r; b_fuzoku_num := b_fuzoku_num r; b_settou_ptr := b_settou_ptr r; b_jiritu_ptr :=
  b_jiritu_ptr r; b_fuzoku_ptr := b_fuzoku_ptr r; b_BGH_num := b_BGH_num r; b_SM_num := b_SM_num
  r
|}.

Definition set_b_length (v : Z) (r : BNST_DATA) : BNST_DATA := {|
    b_num := b_num r; b_parent := b_parent r; b_child := b_child r; b_dpnd_head := b_dpnd_head
  r; b_dpnd_type := b_dpnd_type r; b_dpnd_dflt := b_dpnd_dflt r; b_para_num := b_para_num r;
  b_para_key_type := b_para_key_type r; b_para_top_p := b_para_top_p r; b_para_type :=
  b_para_type r; b_to_para_p := b_to_para_p r; b_sp_level := b_sp_level r; b_mrph_ptr :=
  b_mrph_ptr r; b_mrph_num := b_mrph_num r; b_head_ptr := b_head_ptr r; b_BGH_code := b_BGH_code
  r; b_SM_code := b_SM_code r; b_voice := b_voice r; b_f := b_f r; b_SCASE_code := b_SCASE_code
  r; b_Jiritu_Go := b_Jiritu_Go r; b_dpnd_rule := b_dpnd_rule r; b_tag_ptr := b_tag_ptr r;
  b_tag_num := b_tag_num r; b_type := b_type r; b_length := v; b_bnum := b_bnum r; b_inum :=
  b_inum r; b_b_ptr := b_b_ptr r; b_settou_num := b_settou_num r; b_jiritu_num := b_jiritu_num
  r; b_fuzoku_num := b_fuzoku_num r; b_settou_ptr := b_settou_ptr r; b_jiritu_ptr :=
  b_jiritu_ptr r; b_fuzoku_ptr := b_fuzoku_ptr r; b_BGH_num := b_BGH_num r; b_SM_num := b_SM_num
  r
|}.

Definition set_b_bnum (v : Z) (r : BNST_DATA) : BNST_DATA := {|
    b_num := b_num r; b_parent := b_parent r; b_child := b_child r; b_dpnd_head := b_dpnd_head
  r; b_dpnd_type := b_dpnd_type r; b_dpnd_dflt := b_dpnd_dflt r; b_para_num := b_para_num r;
  b_para_key_type := b_para_key_type r; b_para_top_p := b_para_top_p r; b_para_type :=
  b_para_type r; b_to_para_p := b_to_para_p r; b_sp_level := b_sp_level r; b_mrph_ptr :=
  b_mrph_ptr r; b_mrph_num := b_mrph_num r; b_head_ptr := b_head_ptr r; b_BGH_code := b_BGH_code
  r; b_SM_code := b_SM_code r; b_voice := b_voice r; b_f := b_f r; b_SCASE_code := b_SCASE_code
  r; b_Jiritu_Go := b_Jiritu_Go r; b_dpnd_rule := b_dpnd_rule r; b_tag_ptr := b_tag_ptr r;
  b_tag_num := b_tag_num r; b_type := b_type r; b_length := b_length r; b_bnum := v; b_inum :=
  b_inum r; b_b_ptr := b_b_ptr r; b_settou_num := b_settou_num r; b_jiritu_num := b_jiritu_num
  r; b_fuzoku_num := b_fuzoku_num r; b_settou_ptr := b_settou_ptr r; b_jiritu_ptr :=
  b_jiritu_ptr r; b_fuzoku_ptr := b_fuzoku_ptr r; b_BGH_num := b_BGH_num r; b_SM_num := b_SM_num
  r
|}.

Definition set_b_inum (v : Z) (r : BNST_DATA) : BNST_DATA := {|
    b_num := b_num r; b_parent := b_parent r; b_child := b_child r; b_dpnd_head := b_dpnd_head
  r; b_dpnd_type := b_dpnd_type r; b_dpnd_dflt := b_dpnd_dflt r; b_para_num := b_para_num r;
  b_para_key_type := b_para_key_type r; b_para_top_p := b_para_top_p r; b_para_type :=
  b_para_type r; b_to_para_p := b_to_para_p r; b_sp_level := b_sp_level r; b_mrph_ptr :=
  b_mrph_ptr r; b_mrph_num := b_mrph_num r; b_head_ptr := b_head_ptr r; b_BGH_code := b_BGH_code
  r; b_SM_code := b_SM_code r; b_voice := b_voice r; b_f := b_f r; b_SCASE_code := b_SCASE_code
  r; b_Jiritu_Go := b_Jiritu_Go r; b_dpnd_rule := b_dpnd_rule r; b_tag_ptr := b_tag_ptr r;
  b_tag_num := b_tag_num r; b_type := b_type r; b_length := b_length r; b_bnum := b_bnum r;
  b_inum := v; b_b_ptr := b_b_ptr r; b_settou_num := b_settou_num r; b_jiritu_num :=
  b_jiritu_num r; b_fuzoku_num := b_fuzoku_num r; b_settou_ptr := b_settou_ptr r; b_jiritu_ptr
  := b_jiritu_ptr r; b_fuzoku_ptr := b_fuzoku_ptr r; b_BGH_num := b_BGH_num r; b_SM_num :=
  b_SM_num r
|}.

Definition set_b_b_ptr (v : Z) (r : BNST_DATA) : BNST_DATA := {|
    b_num := b_num r; b_parent := b_parent r; b_child := b_child r; b_dpnd_head := b_dpnd_head
  r; b_dpnd_type := b_dpnd_type r; b_dpnd_dflt := b_dpnd_dflt r; b_para_num := b_para_num r;
  b_para_key_type := b_para_key_type r; b_para_top_p := b_para_top_p r; b_para_type :=
  b_para_type r; b_to_para_p := b_to_para_p r; b_sp_level := b_sp_level r; b_mrph_ptr :=
  b_mrph_ptr r; b_mrph_num := b_mrph_num r; b_head_ptr := b_head_ptr r; b_BGH_code := b_BGH_code
  r; b_SM_code := b_SM_code r; b_voice := b_voice r; b_f := b_f r; b_SCASE_code := b_SCASE_code
  r; b_Jiritu_Go := b_Jiritu_Go r; b_dpnd_rule := b_dpnd_rule r; b_tag_ptr := b_tag_ptr r;
  b_tag_num := b_tag_num r; b_type := b_type r; b_length := b_length r; b_bnum := b_bnum r;
  b_inum := b_inum r; b_b_ptr := v; b_settou_num := b_settou_num r; b_jiritu_num := b_jiritu_num
  r; b_fuzoku_num := b_fuzoku_num r; b_settou_ptr := b_settou_ptr r; b_jiritu_ptr :=
  b_jiritu_ptr r; b_fuzoku_ptr := b_fuzoku_ptr r; b_BGH_num := b_BGH_num r; b_SM_num := b_SM_num
  r
|}.

Definition set_b_settou_num (v : Z) (r : BNST_DATA) : BNST_DATA := {|
    b_num := b_num r; b_parent := b_parent r; b_child := b_child r; b_dpnd_head := b_dpnd_head
  r; b_dpnd_type := b_dpnd_type r; b_dpnd_dflt := b_dpnd_dflt r; b_para_num := b_para_num r;
  b_para_key_type := b_para_key_type r; b_para_top_p := b_para_top_p r; b_para_type :=
  b_para_type r; b_to_para_p := b_to_para_p r; b_sp_level := b_sp_level r; b_mrph_ptr :=
  b_mrph_ptr r; b_mrph_num := b_mrph_num r; b_head_ptr := b_head_ptr r; b_BGH_code := b_BGH_code
  r; b_SM_code := b_SM_code r; b_voice := b_voice r; b_f := b_f r; b_SCASE_code := b_SCASE_code
  r; b_Jiritu_Go := b_Jiritu_Go r; b_dpnd_rule := b_dpnd_rule r; b_tag_ptr := b_tag_ptr r;
  b_tag_num := b_tag_num r; b_type := b_type r; b_length := b_length r; b_bnum := b_bnum r;
  b_inum := b_inum r; b_b_ptr := b_b_ptr r; b_settou_num := v; b_jiritu_num := b_jiritu_num r;
  b_fuzoku_num := b_fuzoku_num r; b_settou_ptr := b_settou_ptr r; b_jiritu_ptr := b_jiritu_ptr
  r; b_fuzoku_ptr := b_fuzoku_ptr r; b_BGH_num := b_BGH_num r; b_SM_num := b_SM_num r
|}.

Definition set_b_jiritu_num (v : Z) (r : BNST_DATA) : BNST_DATA := {|
    b_num := b_num r; b_parent := b_parent r; b_child := b_child r; b_dpnd_head := b_dpnd_head
  r; b_dpnd_type := b_dpnd_type r; b_dpnd_dflt := b_dpnd_dflt r; b_para_num := b_para_num r;
  b_para_key_type := b_para_key_type r; b_para_top_p := b_para_top_p r; b_para_type :=
  b_para_type r; b_to_para_p := b_to_para_p r; b_sp_level := b_sp_level r; b_mrph_ptr :=
  b_mrph_ptr r; b_mrph_num := b_mrph_num r; b_head_ptr := b_head_ptr r; b_BGH_code := b_BGH_code
  r; b_SM_code := b_SM_code r; b_voice := b_voice r; b_f := b_f r; b_SCASE_code := b_SCASE_code
  r; b_Jiritu_Go := b_Jiritu_Go r; b_dpnd_rule := b_dpnd_rule r; b_tag_ptr := b_tag_ptr r;
  b_tag_num := b_tag_num r; b_type := b_type r; b_length := b_length r; b_bnum := b_bnum r;
  b_inum := b_inum r; b_b_ptr := b_b_ptr r; b_settou_num := b_settou_num r; b_jiritu_num := v;
  b_fuzoku_num := b_fuzoku_num r; b_settou_ptr := b_settou_ptr r; b_jiritu_ptr := b_jiritu_ptr
  r; b_fuzoku_ptr := b_fuzoku_ptr r; b_BGH_num := b_BGH_num r; b_SM_num := b_SM_num r
|}.

Definition set_b_fuzoku_num (v : Z) (r : BNST_DATA) : BNST_DATA := {|
    b_num := b_num r; b_parent := b_parent r; b_child := b_child r; b_dpnd_head := b_dpnd_head
  r; b_dpnd_type := b_dpnd_type r; b_dpnd_dflt := b_dpnd_dflt r; b_para_num := b_para_num r;
  b_para_key_type := b_para_key_type r; b_para_top_p := b_para_top_p r; b_para_type :=
  b_para_type r; b_to_para_p := b_to_para_p r; b_sp_level := b_sp_level r; b_mrph_ptr :=
  b_mrph_ptr r; b_mrph_num := b_mrph_num r; b_head_ptr := b_head_ptr r; b_BGH_code := b_BGH_code
  r; b_SM_code := b_SM_code r; b_voice := b_voice r; b_f := b_f r; b_SCASE_code := b_SCASE_code
  r; b_Jiritu_Go := b_Jiritu_Go r; b_dpnd_rule := b_dpnd_rule r; b_tag_ptr := b_tag_ptr r;
  b_tag_num := b_tag_num r; b_type := b_type r; b_length := b_length r; b_bnum := b_bnum r;
  b_inum := b_inum r; b_b_ptr := b_b_ptr r; b_settou_num := b_settou_num r; b_jiritu_num :=
  b_jiritu_num r; b_fuzoku_num := v; b_settou_ptr := b_settou_ptr r; b_jiritu_ptr :=
  b_jiritu_ptr r; b_fuzoku_ptr := b_fuzoku_ptr r; b_BGH_num := b_BGH_num r; b_SM_num := b_SM_num
  r
|}.

Definition set_b_settou_ptr (v : option Z) (r : BNST_DATA) : BNST_DATA := {|
    b_num := b_num r; b_parent := b_parent r; b_child := b_child r; b_dpnd_head := b_dpnd_head
  r; b_dpnd_type := b_dpnd_type r; b_dpnd_dflt := b_dpnd_dflt r; b_para_num := b_para_num r;
  b_para_key_type := b_para_key_type r; b_para_top_p := b_para_top_p r; b_para_type :=
  b_para_type r; b_to_para_p := b_to_para_p r; b_sp_level := b_sp_level r; b_mrph_ptr :=
  b_mrph_ptr r; b_mrph_num := b_mrph_num r; b_head_ptr := b_head_ptr r; b_BGH_code := b_BGH_code
  r; b_SM_code := b_SM_code r; b_voice := b_voice r; b_f := b_f r; b_SCASE_code := b_SCASE_code
  r; b_Jiritu_Go := b_Jiritu_Go r; b_dpnd_rule := b_dpnd_rule r; b_tag_ptr := b_tag_ptr r;
  b_tag_num := b_tag_num r; b_type := b_type r; b_length := b_length r; b_bnum := b_bnum r;
  b_inum := b_inum r; b_b_ptr := b_b_ptr r; b_settou_num := b_settou_num r; b_jiritu_num :=
  b_jiritu_num r; b_fuzoku_num := b_fuzoku_num r; b_settou_ptr := v; b_jiritu_ptr :=
  b_jiritu_ptr r; b_fuzoku_ptr := b_fuzoku_ptr r; b_BGH_num := b_BGH_num r; b_SM_num := b_SM_num
  r
|}.

Definition set_b_jiritu_ptr (v : option Z) (r : BNST_DATA) : BNST_DATA := {|
    b_num := b_num r; b_parent := b_parent r; b_child := b_child r; b_dpnd_head := b_dpnd_head
  r; b_dpnd_type := b_dpnd_type r; b_dpnd_dflt := b_dpnd_dflt r; b_para_num := b_para_num r;
  b_para_key_type := b_para_key_type r; b_para_top_p := b_para_top_p r; b_para_type :=
  b_para_type r; b_to_para_p := b_to_para_p r; b_sp_level := b_sp_level r; b_mrph_ptr :=
  b_mrph_ptr r; b_mrph_num := b_mrph_num r; b_head_ptr := b_head_ptr r; b_BGH_code := b_BGH_code
  r; b_SM_code := b_SM_code r; b_voice := b_voice r; b_f := b_f r; b_SCASE_code := b_SCASE_code
  r; b_Jiritu_Go := b_Jiritu_Go r; b_dpnd_rule := b_dpnd_rule r; b_tag_ptr := b_tag_ptr r;
  b_tag_num := b_tag_num r; b_type := b_type r; b_length := b_length r; b_bnum := b_bnum r;
  b_inum := b_inum r; b_b_ptr := b_b_ptr r; b_settou_num := b_settou_num r; b_jiritu_num :=
  b_jiritu_num r; b_fuzoku_num := b_fuzoku_num r; b_settou_ptr := b_settou_ptr r; b_jiritu_ptr
  := v; b_fuzoku_ptr := b_fuzoku_ptr r; b_BGH_num := b_BGH_num r; b_SM_num := b_SM_num r
|}.

Definition set_b_fuzoku_ptr (v : option Z) (r : BNST_DATA) : BNST_DATA := {|
    b_num := b_num r; b_parent := b_parent r; b_child := b_child r; b_dpnd_head := b_dpnd_head
  r; b_dpnd_type := b_dpnd_type r; b_dpnd_dflt := b_dpnd_dflt r; b_para_num := b_para_num r;
  b_para_key_type := b_para_key_type r; b_para_top_p := b_para_top_p r; b_para_type :=
  b_para_type r; b_to_para_p := b_to_para_p r; b_sp_level := b_sp_level r; b_mrph_ptr :=
  b_mrph_ptr r; b_mrph_num := b_mrph_num r; b_head_ptr := b_head_ptr r; b_BGH_code := b_BGH_code
  r; b_SM_code := b_SM_code r; b_voice := b_voice r; b_f := b_f r; b_SCASE_code := b_SCASE_code
  r; b_Jiritu_Go := b_Jiritu_Go r; b_dpnd_rule := b_dpnd_rule r; b_tag_ptr := b_tag_ptr r;
  b_tag_num := b_tag_num r; b_type := b_type r; b_length := b_length r; b_bnum := b_bnum r;
  b_inum := b_inum r; b_b_ptr := b_b_ptr r; b_settou_num := b_settou_num r; b_jiritu_num :=
  b_jiritu_num r; b_fuzoku_num := b_fuzoku_num r; b_settou_ptr := b_settou_ptr r; b_jiritu_ptr
  := b_jiritu_ptr r; b_fuzoku_ptr := v; b_BGH_num := b_BGH_num r; b_SM_num := b_SM_num r
|}.

Definition set_b_BGH_code (v : string) (r : BNST_DATA) : BNST_DATA := {|
    b_num := b_num r; b_parent := b_parent r; b_child := b_child r; b_dpnd_head := b_dpnd_head
  r; b_dpnd_type := b_dpnd_type r; b_dpnd_dflt := b_dpnd_dflt r; b_para_num := b_para_num r;
  b_para_key_type := b_para_key_type r; b_para_top_p := b_para_top_p r; b_para_type :=
  b_para_type r; b_to_para_p := b_to_para_p r; b_sp_level := b_sp_level r; b_mrph_ptr :=
  b_mrph_ptr r; b_mrph_num := b_mrph_num r; b_head_ptr := b_head_ptr r; b_BGH_code := v;
  b_SM_code := b_SM_code r; b_voice := b_voice r; b_f := b_f r; b_SCASE_code := b_SCASE_code r;
  b_Jiritu_Go := b_Jiritu_Go r; b_dpnd_rule := b_dpnd_rule r; b_tag_ptr := b_tag_ptr r;
  b_tag_num := b_tag_num r; b_type := b_type r; b_length := b_length r; b_bnum := b_bnum r;
  b_inum := b_inum r; b_b_ptr := b_b_ptr r; b_settou_num := b_settou_num r; b_jiritu_num :=
  b_jiritu_num r; b_fuzoku_num := b_fuzoku_num r; b_settou_ptr := b_settou_ptr r; b_jiritu_ptr
  := b_jiritu_ptr r; b_fuzoku_ptr := b_fuzoku_ptr r; b_BGH_num := b_BGH_num r; b_SM_num :=
  b_SM_num r
|}.

Definition set_b_SM_code (v : string) (r : BNST_DATA) : BNST_DATA := {|
    b_num := b_num r; b_parent := b_parent r; b_child := b_child r; b_dpnd_head := b_dpnd_head
  r; b_dpnd_type := b_dpnd_type r; b_dpnd_dflt := b_dpnd_dflt r; b_para_num := b_para_num r;
  b_para_key_type := b_para_key_type r; b_para_top_p := b_para_top_p r; b_para_type :=
  b_para_type r; b_to_para_p := b_to_para_p r; b_sp_level := b_sp_level r; b_mrph_ptr :=
  b_mrph_ptr r; b_mrph_num := b_mrph_num r; b_head_ptr := b_head_ptr r; b_BGH_code := b_BGH_code
  r; b_SM_code := v; b_voice := b_voice r; b_f := b_f r; b_SCASE_code := b_SCASE_code r;
  b_Jiritu_Go := b_Jiritu_Go r; b_dpnd_rule := b_dpnd_rule r; b_tag_ptr := b_tag_ptr r;
  b_tag_num := b_tag_num r; b_type := b_type r; b_length := b_length r; b_bnum := b_bnum r;
  b_inum := b_inum r; b_b_ptr := b_b_ptr r; b_settou_num := b_settou_num r; b_jiritu_num :=
  b_jiritu_num r; b_fuzoku_num := b_fuzoku_num r; b_settou_ptr := b_settou_ptr r; b_jiritu_ptr
  := b_jiritu_ptr r; b_fuzoku_ptr := b_fuzoku_ptr r; b_BGH_num := b_BGH_num r; b_SM_num :=
  b_SM_num r
|}.

Definition set_b_BGH_num (v : Z) (r : BNST_DATA) : BNST_DATA := {|
    b_num := b_num r; b_parent := b_parent r; b_child := b_child r; b_dpnd_head := b_dpnd_head
  r; b_dpnd_type := b_dpnd_type r; b_dpnd_dflt := b_dpnd_dflt r; b_para_num := b_para_num r;
  b_para_key_type := b_para_key_type r; b_para_top_p := b_para_top_p r; b_para_type :=
  b_para_type r; b_to_para_p := b_to_para_p r; b_sp_level := b_sp_level r; b_mrph_ptr :=
  b_mrph_ptr r; b_mrph_num := b_mrph_num r; b_head_ptr := b_head_ptr r; b_BGH_code := b_BGH_code
  r; b_SM_code := b_SM_code r; b_voice := b_voice r; b_f := b_f r; b_SCASE_code := b_SCASE_code
  r; b_Jiritu_Go := b_Jiritu_Go r; b_dpnd_rule := b_dpnd_rule r; b_tag_ptr := b_tag_ptr r;
  b_tag_num := b_tag_num r; b_type := b_type r; b_length := b_length r; b_bnum := b_bnum r;
  b_inum := b_inum r; b_b_ptr := b_b_ptr r; b_settou_num := b_settou_num r; b_jiritu_num :=
  b_jiritu_num r; b_fuzoku_num := b_fuzoku_num r; b_settou_ptr := b_settou_ptr r; b_jiritu_ptr
  := b_jiritu_ptr r; b_fuzoku_ptr := b_fuzoku_ptr r; b_BGH_num := v; b_SM_num := b_SM_num r
|}.

Definition set_b_SM_num (v : Z) (r : BNST_DATA) : BNST_DATA := {|
    b_num := b_num r; b_parent := b_parent r; b_child := b_child r; b_dpnd_head := b_dpnd_head
  r; b_dpnd_type := b_dpnd_type r; b_dpnd_dflt := b_dpnd_dflt r; b_para_num := b_para_num r;
  b_para_key_type := b_para_key_type r; b_para_top_p := b_para_top_p r; b_para_type :=
  b_para_type r; b_to_para_p := b_to_para_p r; b_sp_level := b_sp_level r; b_mrph_ptr :=
  b_mrph_ptr r; b_mrph_num := b_mrph_num r; b_head_ptr := b_head_ptr r; b_BGH_code := b_BGH_code
  r; b_SM_code := b_SM_code r; b_voice := b_voice r; b_f := b_f r; b_SCASE_code := b_SCASE_code
  r; b_Jiritu_Go := b_Jiritu_Go r; b_dpnd_rule := b_dpnd_rule r; b_tag_ptr := b_tag_ptr r;
  b_tag_num := b_tag_num r; b_type := b_type r; b_length := b_length r; b_bnum := b_bnum r;
  b_inum := b_inum r; b_b_ptr := b_b_ptr r; b_settou_num := b_settou_num r; b_jiritu_num :=
  b_jiritu_num r; b_fuzoku_num := b_fuzoku_num r; b_settou_ptr := b_settou_ptr r; b_jiritu_ptr
  := b_jiritu_ptr r; b_fuzoku_ptr := b_fuzoku_ptr r; b_BGH_num := b_BGH_num r; b_SM_num := v
|}.

(** A coordination key and the scope found for it *)
Record PARA_DATA : Type := mkPARA {
  p_para_char : Z;
  p_type : Z;
  p_key_pos : Z;
  p_iend_pos : Z;
  p_jend_pos : Z;
  p_max_path : array Z;
  p_f_pattern : FEATURE_PATTERN;
  p_max_score : float32;
  p_pure_score : float32;
  p_status : Z;
  p_manager_ptr : option Z
}.

Definition PARA_DATA_0 : PARA_DATA := {|
  p_para_char := 0;
  p_type := 0;
  p_key_pos := 0;
  p_iend_pos := 0;
  p_jend_pos := 0;
  p_max_path := (fun _ => 0);
  p_f_pattern := [];
  p_max_score := f32_zero;
  p_pure_score := f32_zero;
  p_status := 0;
  p_manager_ptr := None
|}.

Definition set_p_para_char (v : Z) (r : PARA_DATA) : PARA_DATA := {|
    p_para_char := v; p_type := p_type r; p_key_pos := p_key_pos r; p_iend_pos := p_iend_pos r;
  p_jend_pos := p_jend_pos r; p_max_path := p_max_path r; p_f_pattern := p_f_pattern r;
  p_max_score := p_max_score r; p_pure_score := p_pure_score r; p_status := p_status r;
  p_manager_ptr := p_manager_ptr r
|}.

Definition set_p_type (v : Z) (r : PARA_DATA) : PARA_DATA := {|
    p_para_char := p_para_char r; p_type := v; p_key_pos := p_key_pos r; p_iend_pos :=
  p_iend_pos r; p_jend_pos := p_jend_pos r; p_max_path := p_max_path r; p_f_pattern :=
  p_f_pattern r; p_max_score := p_max_score r; p_pure_score := p_pure_score r; p_status :=
  p_status r; p_manager_ptr := p_manager_ptr r
|}.

Definition set_p_key_pos (v : Z) (r : PARA_DATA) : PARA_DATA := {|
    p_para_char := p_para_char r; p_type := p_type r; p_key_pos := v; p_iend_pos := p_iend_pos
  r; p_jend_pos := p_jend_pos r; p_max_path := p_max_path r; p_f_pattern := p_f_pattern r;
  p_max_score := p_max_score r; p_pure_score := p_pure_score r; p_status := p_status r;
  p_manager_ptr := p_manager_ptr r
|}.

Definition set_p_iend_pos (v : Z) (r : PARA_DATA) : PARA_DATA := {|
    p_para_char := p_para_char r; p_type := p_type r; p_key_pos := p_key_pos r; p_iend_pos := v;
  p_jend_pos := p_jend_pos r; p_max_path := p_max_path r; p_f_pattern := p_f_pattern r;
  p_max_score := p_max_score r; p_pure_score := p_pure_score r; p_status := p_status r;
  p_manager_ptr := p_manager_ptr r
|}.

Definition set_p_jend_pos (v : Z) (r : PARA_DATA) : PARA_DATA := {|
    p_para_char := p_para_char r; p_type := p_type r; p_key_pos := p_key_pos r; p_iend_pos :=
  p_iend_pos r; p_jend_pos := v; p_max_path := p_max_path r; p_f_pattern := p_f_pattern r;
  p_max_score := p_max_score r; p_pure_score := p_pure_score r; p_status := p_status r;
  p_manager_ptr := p_manager_ptr r
|}.

Definition set_p_max_path (v : array Z) (r : PARA_DATA) : PARA_DATA := {|
    p_para_char := p_para_char r; p_type := p_type r; p_key_pos := p_key_pos r; p_iend_pos :=
  p_iend_pos r; p_jend_pos := p_jend_pos r; p_max_path := v; p_f_pattern := p_f_pattern r;
  p_max_score := p_max_score r; p_pure_score := p_pure_score r; p_status := p_status r;
  p_manager_ptr := p_manager_ptr r
|}.

Definition set_p_f_pattern (v : FEATURE_PATTERN) (r : PARA_DATA) : PARA_DATA := {|
    p_para_char := p_para_char r; p_type := p_type r; p_key_pos := p_key_pos r; p_iend_pos :=
  p_iend_pos r; p_jend_pos := p_jend_pos r; p_max_path := p_max_path r; p_f_pattern := v;
  p_max_score := p_max_score r; p_pure_score := p_pure_score r; p_status := p_status r;
  p_manager_ptr := p_manager_ptr r
|}.

Definition set_p_max_score (v : float32) (r : PARA_DATA) : PARA_DATA := {|
    p_para_char := p_para_char r; p_type := p_type r; p_key_pos := p_key_pos r; p_iend_pos :=
  p_iend_pos r; p_jend_pos := p_jend_pos r; p_max_path := p_max_path r; p_f_pattern :=
  p_f_pattern r; p_max_score := v; p_pure_score := p_pure_score r; p_status := p_status r;
  p_manager_ptr := p_manager_ptr r
|}.

Definition set_p_pure_score (v : float32) (r : PARA_DATA) : PARA_DATA := {|
    p_para_char := p_para_char r; p_type := p_type r; p_key_pos := p_key_pos r; p_iend_pos :=
  p_iend_pos r; p_jend_pos := p_jend_pos r; p_max_path := p_max_path r; p_f_pattern :=
  p_f_pattern r; p_max_score := p_max_score r; p_pure_score := v; p_status := p_status r;
  p_manager_ptr := p_manager_ptr r
|}.

Definition set_p_status (v : Z) (r : PARA_DATA) : PARA_DATA := {|
    p_para_char := p_para_char r; p_type := p_type r; p_key_pos := p_key_pos r; p_iend_pos :=
  p_iend_pos r; p_jend_pos := p_jend_pos r; p_max_path := p_max_path r; p_f_pattern :=
  p_f_pattern r; p_max_score := p_max_score r; p_pure_score := p_pure_score r; p_status := v;
  p_manager_ptr := p_manager_ptr r
|}.

Definition set_p_manager_ptr (v : option Z) (r : PARA_DATA) : PARA_DATA := {|
    p_para_char := p_para_char r; p_type := p_type r; p_key_pos := p_key_pos r; p_iend_pos :=
  p_iend_pos r; p_jend_pos := p_jend_pos r; p_max_path := p_max_path r; p_f_pattern :=
  p_f_pattern r; p_max_score := p_max_score r; p_pure_score := p_pure_score r; p_status :=
  p_status r; p_manager_ptr := v
|}.

(** A coordination: its parts [pm_start k .. pm_end k] and its place in the tree of coordinations *)
Record PARA_MANAGER : Type := mkPM {
  pm_para_num : Z;
  pm_para_data_num : array Z;
  pm_part_num : Z;
  pm_start : array Z;
  pm_end : array Z;
  pm_parent : option Z;
  pm_child : array Z;
  pm_child_num : Z;
  pm_bnst_ptr : option Z;
  pm_status : Z
}.

Definition PARA_MANAGER_0 : PARA_MANAGER := {|
  pm_para_num := 0;
  pm_para_data_num := (fun _ => 0);
  pm_part_num := 0;
  pm_start := (fun _ => 0);
  pm_end := (fun _ => 0);
  pm_parent := None;
  pm_child := (fun _ => 0);
  pm_child_num := 0;
  pm_bnst_ptr := None;
  pm_status := 0
|}.

Definition set_pm_para_num (v : Z) (r : PARA_MANAGER) : PARA_MANAGER := {|
    pm_para_num := v; pm_para_data_num := pm_para_data_num r; pm_part_num := pm_part_num r;
  pm_start := pm_start r; pm_end := pm_end r; pm_parent := pm_parent r; pm_child := pm_child r;
  pm_child_num := pm_child_num r; pm_bnst_ptr := pm_bnst_ptr r; pm_status := pm_status r
|}.

Definition set_pm_para_data_num (v : array Z) (r : PARA_MANAGER) : PARA_MANAGER := {|
    pm_para_num := pm_para_num r; pm_para_data_num := v; pm_part_num := pm_part_num r; pm_start
  := pm_start r; pm_end := pm_end r; pm_parent := pm_parent r; pm_child := pm_child r;
  pm_child_num := pm_child_num r; pm_bnst_ptr := pm_bnst_ptr r; pm_status := pm_status r
|}.

Definition set_pm_part_num (v : Z) (r : PARA_MANAGER) : PARA_MANAGER := {|
    pm_para_num := pm_para_num r; pm_para_data_num := pm_para_data_num r; pm_part_num := v;
  pm_start := pm_start r; pm_end := pm_end r; pm_parent := pm_parent r; pm_child := pm_child r;
  pm_child_num := pm_child_num r; pm_bnst_ptr := pm_bnst_ptr r; pm_status := pm_status r
|}.

Definition set_pm_start (v : array Z) (r : PARA_MANAGER) : PARA_MANAGER := {|
    pm_para_num := pm_para_num r; pm_para_data_num := pm_para_data_num r; pm_part_num :=
  pm_part_num r; pm_start := v; pm_end := pm_end r; pm_parent := pm_parent r; pm_child :=
  pm_child r; pm_child_num := pm_child_num r; pm_bnst_ptr := pm_bnst_ptr r; pm_status :=
  pm_status r
|}.

Definition set_pm_end (v : array Z) (r : PARA_MANAGER) : PARA_MANAGER := {|
    pm_para_num := pm_para_num r; pm_para_data_num := pm_para_data_num r; pm_part_num :=
  pm_part_num r; pm_start := pm_start r; pm_end := v; pm_parent := pm_parent r; pm_child :=
  pm_child r; pm_child_num := pm_child_num r; pm_bnst_ptr := pm_bnst_ptr r; pm_status :=
  pm_status r
|}.

Definition set_pm_parent (v : option Z) (r : PARA_MANAGER) : PARA_MANAGER := {|
    pm_para_num := pm_para_num r; pm_para_data_num := pm_para_data_num r; pm_part_num :=
  pm_part_num r; pm_start := pm_start r; pm_end := pm_end r; pm_parent := v; pm_child :=
  pm_child r; pm_child_num := pm_child_num r; pm_bnst_ptr := pm_bnst_ptr r; pm_status :=
  pm_status r
|}.

Definition set_pm_child (v : array Z) (r : PARA_MANAGER) : PARA_MANAGER := {|
    pm_para_num := pm_para_num r; pm_para_data_num := pm_para_data_num r; pm_part_num :=
  pm_part_num r; pm_start := pm_start r; pm_end := pm_end r; pm_parent := pm_parent r; pm_child
  := v; pm_child_num := pm_child_num r; pm_bnst_ptr := pm_bnst_ptr r; pm_status := pm_status r
|}.

Definition set_pm_child_num (v : Z) (r : PARA_MANAGER) : PARA_MANAGER := {|
    pm_para_num := pm_para_num r; pm_para_data_num := pm_para_data_num r; pm_part_num :=
  pm_part_num r; pm_start := pm_start r; pm_end := pm_end r; pm_parent := pm_parent r; pm_child
  := pm_child r; pm_child_num := v; pm_bnst_ptr := pm_bnst_ptr r; pm_status := pm_status r
|}.

Definition set_pm_status (v : Z) (r : PARA_MANAGER) : PARA_MANAGER := {|
    pm_para_num := pm_para_num r; pm_para_data_num := pm_para_data_num r; pm_part_num :=
  pm_part_num r; pm_start := pm_start r; pm_end := pm_end r; pm_parent := pm_parent r; pm_child
  := pm_child r; pm_child_num := pm_child_num r; pm_bnst_ptr := pm_bnst_ptr r; pm_status := v
|}.

(** A sentence *)
Record SENTENCE_DATA : Type := mkSD {
  KNPSID : string;
  Comment : option string;
  Mrph_num : Z;
  mrph_data : array MRPH_DATA;
  Bnst_num : Z;
  bnst_data : array BNST_DATA;
  Tag_num : Z;
  tag_data : array BNST_DATA;
  Para_num : Z;
  para_data : array PARA_DATA;
  Para_M_num : Z;
  para_manager : array PARA_MANAGER;
  New_Bnst_num : Z;
  Max_New_Bnst_num : Z;
  New_Tag_num : Z;
  New_Mrph_num : Z
}.

Definition SENTENCE_DATA_0 : SENTENCE_DATA := {|
  KNPSID := EmptyString;
  Comment := None;
  Mrph_num := 0;
  mrph_data := (fun _ => MRPH_DATA_0);
  Bnst_num := 0;
  bnst_data := (fun _ => BNST_DATA_0);
  Tag_num := 0;
  tag_data := (fun _ => BNST_DATA_0);
  Para_num := 0;
  para_data := (fun _ => PARA_DATA_0);
  Para_M_num := 0;
  para_manager := (fun _ => PARA_MANAGER_0);
  New_Bnst_num := 0;
  Max_New_Bnst_num := 0;
  New_Tag_num := 0;
  New_Mrph_num := 0
|}.

Definition set_KNPSID (v : string) (r : SENTENCE_DATA) : SENTENCE_DATA := {|
    KNPSID := v; Comment := Comment r; Mrph_num := Mrph_num r; mrph_data := mrph_data r;
  Bnst_num := Bnst_num r; bnst_data := bnst_data r; Tag_num := Tag_num r; tag_data := tag_data
  r; Para_num := Para_num r; para_data := para_data r; Para_M_num := Para_M_num r; para_manager
  := para_manager r; New_Bnst_num := New_Bnst_num r; Max_New_Bnst_num := Max_New_Bnst_num r;
  New_Tag_num := New_Tag_num r; New_Mrph_num := New_Mrph_num r
|}.

Definition set_Comment (v : option string) (r : SENTENCE_DATA) : SENTENCE_DATA := {|
    KNPSID := KNPSID r; Comment := v; Mrph_num := Mrph_num r; mrph_data := mrph_data r; Bnst_num
  := Bnst_num r; bnst_data := bnst_data r; Tag_num := Tag_num r; tag_data := tag_data r;
  Para_num := Para_num r; para_data := para_data r; Para_M_num := Para_M_num r; para_manager :=
  para_manager r; New_Bnst_num := New_Bnst_num r; Max_New_Bnst_num := Max_New_Bnst_num r;
  New_Tag_num := New_Tag_num r; New_Mrph_num := New_Mrph_num r
|}.

Definition set_Mrph_num (v : Z) (r : SENTENCE_DATA) : SENTENCE_DATA := {|
    KNPSID := KNPSID r; Comment := Comment r; Mrph_num := v; mrph_data := mrph_data r; Bnst_num
  := Bnst_num r; bnst_data := bnst_data r; Tag_num := Tag_num r; tag_data := tag_data r;
  Para_num := Para_num r; para_data := para_data r; Para_M_num := Para_M_num r; para_manager :=
  para_manager r; New_Bnst_num := New_Bnst_num r; Max_New_Bnst_num := Max_New_Bnst_num r;
  New_Tag_num := New_Tag_num r; New_Mrph_num := New_Mrph_num r
|}.

Definition set_mrph_data (v : array MRPH_DATA) (r : SENTENCE_DATA) : SENTENCE_DATA := {|
    KNPSID := KNPSID r; Comment := Comment r; Mrph_num := Mrph_num r; mrph_data := v; Bnst_num
  := Bnst_num r; bnst_data := bnst_data r; Tag_num := Tag_num r; tag_data := tag_data r;
  Para_num := Para_num r; para_data := para_data r; Para_M_num := Para_M_num r; para_manager :=
  para_manager r; New_Bnst_num := New_Bnst_num r; Max_New_Bnst_num := Max_New_Bnst_num r;
  New_Tag_num := New_Tag_num r; New_Mrph_num := New_Mrph_num r
|}.

Definition set_Bnst_num (v : Z) (r : SENTENCE_DATA) : SENTENCE_DATA := {|
    KNPSID := KNPSID r; Comment := Comment r; Mrph_num := Mrph_num r; mrph_data := mrph_data r;
  Bnst_num := v; bnst_data := bnst_data r; Tag_num := Tag_num r; tag_data := tag_data r;
  Para_num := Para_num r; para_data := para_data r; Para_M_num := Para_M_num r; para_manager :=
  para_manager r; New_Bnst_num := New_Bnst_num r; Max_New_Bnst_num := Max_New_Bnst_num r;
  New_Tag_num := New_Tag_num r; New_Mrph_num := New_Mrph_num r
|}.

Definition set_bnst_data (v : array BNST_DATA) (r : SENTENCE_DATA) : SENTENCE_DATA := {|
    KNPSID := KNPSID r; Comment := Comment r; Mrph_num := Mrph_num r; mrph_data := mrph_data r;
  Bnst_num := Bnst_num r; bnst_data := v; Tag_num := Tag_num r; tag_data := tag_data r; Para_num
  := Para_num r; para_data := para_data r; Para_M_num := Para_M_num r; para_manager :=
  para_manager r; New_Bnst_num := New_Bnst_num r; Max_New_Bnst_num := Max_New_Bnst_num r;
  New_Tag_num := New_Tag_num r; New_Mrph_num := New_Mrph_num r
|}.

Definition set_Tag_num (v : Z) (r : SENTENCE_DATA) : SENTENCE_DATA := {|
    KNPSID := KNPSID r; Comment := Comment r; Mrph_num := Mrph_num r; mrph_data := mrph_data r;
  Bnst_num := Bnst_num r; bnst_data := bnst_data r; Tag_num := v; tag_data := tag_data r;
  Para_num := Para_num r; para_data := para_data r; Para_M_num := Para_M_num r; para_manager :=
  para_manager r; New_Bnst_num := New_Bnst_num r; Max_New_Bnst_num := Max_New_Bnst_num r;
  New_Tag_num := New_Tag_num r; New_Mrph_num := New_Mrph_num r
|}.

Definition set_tag_data (v : array BNST_DATA) (r : SENTENCE_DATA) : SENTENCE_DATA := {|
    KNPSID := KNPSID r; Comment := Comment r; Mrph_num := Mrph_num r; mrph_data := mrph_data r;
  Bnst_num := Bnst_num r; bnst_data := bnst_data r; Tag_num := Tag_num r; tag_data := v;
  Para_num := Para_num r; para_data := para_data r; Para_M_num := Para_M_num r; para_manager :=
  para_manager r; New_Bnst_num := New_Bnst_num r; Max_New_Bnst_num := Max_New_Bnst_num r;
  New_Tag_num := New_Tag_num r; New_Mrph_num := New_Mrph_num r
|}.

Definition set_Para_num (v : Z) (r : SENTENCE_DATA) : SENTENCE_DATA := {|
    KNPSID := KNPSID r; Comment := Comment r; Mrph_num := Mrph_num r; mrph_data := mrph_data r;
  Bnst_num := Bnst_num r; bnst_data := bnst_data r; Tag_num := Tag_num r; tag_data := tag_data
  r; Para_num := v; para_data := para_data r; Para_M_num := Para_M_num r; para_manager :=
  para_manager r; New_Bnst_num := New_Bnst_num r; Max_New_Bnst_num := Max_New_Bnst_num r;
  New_Tag_num := New_Tag_num r; New_Mrph_num := New_Mrph_num r
|}.

Definition set_para_data (v : array PARA_DATA) (r : SENTENCE_DATA) : SENTENCE_DATA := {|
    KNPSID := KNPSID r; Comment := Comment r; Mrph_num := Mrph_num r; mrph_data := mrph_data r;
  Bnst_num := Bnst_num r; bnst_data := bnst_data r; Tag_num := Tag_num r; tag_data := tag_data
  r; Para_num := Para_num r; para_data := v; Para_M_num := Para_M_num r; para_manager :=
  para_manager r; New_Bnst_num := New_Bnst_num r; Max_New_Bnst_num := Max_New_Bnst_num r;
  New_Tag_num := New_Tag_num r; New_Mrph_num := New_Mrph_num r
|}.

Definition set_Para_M_num (v : Z) (r : SENTENCE_DATA) : SENTENCE_DATA := {|
    KNPSID := KNPSID r; Comment := Comment r; Mrph_num := Mrph_num r; mrph_data := mrph_data r;
  Bnst_num := Bnst_num r; bnst_data := bnst_data r; Tag_num := Tag_num r; tag_data := tag_data
  r; Para_num := Para_num r; para_data := para_data r; Para_M_num := v; para_manager :=
  para_manager r; New_Bnst_num := New_Bnst_num r; Max_New_Bnst_num := Max_New_Bnst_num r;
  New_Tag_num := New_Tag_num r; New_Mrph_num := New_Mrph_num r
|}.

Definition set_para_manager (v : array PARA_MANAGER) (r : SENTENCE_DATA) : SENTENCE_DATA := {|
    KNPSID := KNPSID r; Comment := Comment r; Mrph_num := Mrph_num r; mrph_data := mrph_data r;
  Bnst_num := Bnst_num r; bnst_data := bnst_data r; Tag_num := Tag_num r; tag_data := tag_data
  r; Para_num := Para_num r; para_data := para_data r; Para_M_num := Para_M_num r; para_manager
  := v; New_Bnst_num := New_Bnst_num r; Max_New_Bnst_num := Max_New_Bnst_num r; New_Tag_num :=
  New_Tag_num r; New_Mrph_num := New_Mrph_num r
|}.

Definition set_New_Bnst_num (v : Z) (r : SENTENCE_DATA) : SENTENCE_DATA := {|
    KNPSID := KNPSID r; Comment := Comment r; Mrph_num := Mrph_num r; mrph_data := mrph_data r;
  Bnst_num := Bnst_num r; bnst_data := bnst_data r; Tag_num := Tag_num r; tag_data := tag_data
  r; Para_num := Para_num r; para_data := para_data r; Para_M_num := Para_M_num r; para_manager
  := para_manager r; New_Bnst_num := v; Max_New_Bnst_num := Max_New_Bnst_num r; New_Tag_num :=
  New_Tag_num r; New_Mrph_num := New_Mrph_num r
|}.

Definition set_Max_New_Bnst_num (v : Z) (r : SENTENCE_DATA) : SENTENCE_DATA := {|
    KNPSID := KNPSID r; Comment := Comment r; Mrph_num := Mrph_num r; mrph_data := mrph_data r;
  Bnst_num := Bnst_num r; bnst_data := bnst_data r; Tag_num := Tag_num r; tag_data := tag_data
  r; Para_num := Para_num r; para_data := para_data r; Para_M_num := Para_M_num r; para_manager
  := para_manager r; New_Bnst_num := New_Bnst_num r; Max_New_Bnst_num := v; New_Tag_num :=
  New_Tag_num r; New_Mrph_num := New_Mrph_num r
|}.

Definition set_New_Tag_num (v : Z) (r : SENTENCE_DATA) : SENTENCE_DATA := {|
    KNPSID := KNPSID r; Comment := Comment r; Mrph_num := Mrph_num r; mrph_data := mrph_data r;
  Bnst_num := Bnst_num r; bnst_data := bnst_data r; Tag_num := Tag_num r; tag_data := tag_data
  r; Para_num := Para_num r; para_data := para_data r; Para_M_num := Para_M_num r; para_manager
  := para_manager r; New_Bnst_num := New_Bnst_num r; Max_New_Bnst_num := Max_New_Bnst_num r;
  New_Tag_num := v; New_Mrph_num := New_Mrph_num r
|}.

Definition set_New_Mrph_num (v : Z) (r : SENTENCE_DATA) : SENTENCE_DATA := {|
    KNPSID := KNPSID r; Comment := Comment r; Mrph_num := Mrph_num r; mrph_data := mrph_data r;
  Bnst_num := Bnst_num r; bnst_data := bnst_data r; Tag_num := Tag_num r; tag_data := tag_data
  r; Para_num := Para_num r; para_data := para_data r; Para_M_num := Para_M_num r; para_manager
  := para_manager r; New_Bnst_num := New_Bnst_num r; Max_New_Bnst_num := Max_New_Bnst_num r;
  New_Tag_num := New_Tag_num r; New_Mrph_num := v
|}.


(** The feature [fname] of bunsetsu [i]: [check_feature(sp->bnst_data[i].f, fname) != NULL] *)
Definition bnst_has (sp : SENTENCE_DATA) (i : Z) (fname : string) : bool :=
  has_feature (b_f (bnst_data sp i)) fname.

(** [sp->bnst_data[i] = u(sp->bnst_data[i])], and the same for the other arrays. *)
Definition upd_bnst (i : Z) (u : BNST_DATA -> BNST_DATA) (sp : SENTENCE_DATA) : SENTENCE_DATA :=
  set_bnst_data (aset (bnst_data sp) i (u (bnst_data sp i))) sp.

Definition upd_mrph (i : Z) (u : MRPH_DATA -> MRPH_DATA) (sp : SENTENCE_DATA) : SENTENCE_DATA :=
  set_mrph_data (aset (mrph_data sp) i (u (mrph_data sp i))) sp.

Definition upd_tag (i : Z) (u : BNST_DATA -> BNST_DATA) (sp : SENTENCE_DATA) : SENTENCE_DATA :=
  set_tag_data (aset (tag_data sp) i (u (tag_data sp i))) sp.

Definition upd_para (i : Z) (u : PARA_DATA -> PARA_DATA) (sp : SENTENCE_DATA) : SENTENCE_DATA :=
  set_para_data (aset (para_data sp) i (u (para_data sp i))) sp.

Definition upd_manager (i : Z) (u : PARA_MANAGER -> PARA_MANAGER) (sp : SENTENCE_DATA) : SENTENCE_DATA :=
  set_para_manager (aset (para_manager sp) i (u (para_manager sp i))) sp.

(** Limits of const.h *)
Definition BNST_MAX : Z := 200.
Definition PARA_MAX : Z := 32.
Definition PARA_PART_MAX : Z := 32.
Definition PAREN_MAX : Z := 100.
Definition QUOTE_MAX : Z := 40.
Definition MRPH_MAX : Z := 200.
Definition TAG_MAX : Z := 200.
Definition BNST_LENGTH_MAX : Z := 256.
Definition WORD_LEN_MAX : Z := 128.
Definition IMI_MAX : Z := 1024.

(** [IS_*] of const.h *)
Definition IS_BNST_DATA : Z := 1.
Definition IS_TAG_DATA : Z := 2.

(** [TRUE], [FALSE], [CONTINUE] as integers *)
Definition TRUE : Z := 1.
Definition FALSE : Z := 0.
Definition CONTINUE : Z := -1.

(** [PARA_KEY_*] of const.h *)
Definition PARA_KEY_O : Z := 0.
Definition PARA_KEY_N : Z := 1.
Definition PARA_KEY_P : Z := 2.
Definition PARA_KEY_A : Z := 4.
Definition PARA_KEY_I : Z := 3.

(** A sentence given by the features of its bunsetsus, for concrete examples. *)
Definition sentence_of (fs : list FEATURE) : SENTENCE_DATA :=
  set_Bnst_num (Z.of_nat (List.length fs)) (set_bnst_data
    (fun i => if i <? 0 then BNST_DATA_0
              else set_b_f (nth (Z.to_nat i) fs []) (set_b_num i BNST_DATA_0)) SENTENCE_DATA_0).

(** A [void *] into the arrays of the sentence. *)
Inductive ptr : Type := PNULL | PM (i : Z) | PB (i : Z) | PT (i : Z).

(** What the matchers and analysers need of feature.c: the tests of a pattern
    against features, with the two structures that feature functions look at.
    CheckFunction.v implements it. *)
Class FeatureMatch : Type := {
  feature_AND_matches : SENTENCE_DATA -> FEATURE -> FEATURE -> ptr -> ptr -> res bool;
  feature_pattern_matches : SENTENCE_DATA -> FEATURE_PATTERN -> FEATURE -> ptr -> ptr -> res bool
}.

(** Updates of one element of an array of the sentence. *)
Lemma upd_bnst_at : forall i u sp j,
  bnst_data (upd_bnst i u sp) j = if j =? i then u (bnst_data sp i) else bnst_data sp j.
Proof. reflexivity. Qed.

Lemma upd_mrph_at : forall i u sp j,
  mrph_data (upd_mrph i u sp) j = if j =? i then u (mrph_data sp i) else mrph_data sp j.
Proof. reflexivity. Qed.

Lemma upd_tag_at : forall i u sp j,
  tag_data (upd_tag i u sp) j = if j =? i then u (tag_data sp i) else tag_data sp j.
Proof. reflexivity. Qed.

Lemma upd_para_at : forall i u sp j,
  para_data (upd_para i u sp) j = if j =? i then u (para_data sp i) else para_data sp j.
Proof. reflexivity. Qed.

Lemma upd_manager_at : forall i u sp j,
  para_manager (upd_manager i u sp) j = if j =? i then u (para_manager sp i) else para_manager sp j.
Proof. reflexivity. Qed.
