(* ===== verification/Units.v ===== *)
(** * The units of a sentence and their places

    Which morphemes make which bunsetsu and which basic phrase (tag) is decided once, in Bunsetsu.v;
    rules, coordinations and structures only change features, codes, heads and links.  This file says
    what it means that a function leaves the units where they are. *)
From Stdlib Require Import ZArith List Bool String Ascii Lia RelationClasses.
Import ListNotations.
From S2P Require Import Prelude CStr Feature Sentence.
Open Scope Z_scope.

(** The word of a morpheme and its place.  Of a bunsetsu or tag everything but its features, surface cases, voice and semantic codes:
    its number and words, its links and its dependency. *)
Definition word_place (m : MRPH_DATA) := (m_num m, m_Goi2 m, m_Yomi m, m_tnum m, m_inum m).
Definition unit_place (b : BNST_DATA) :=
  (b_num b, b_mrph_ptr b, b_mrph_num b, b_tag_ptr b, b_tag_num b, (b_bnum b, b_b_ptr b, b_inum b, b_head_ptr b),
   (b_parent b, b_child b, b_dpnd_head b, b_dpnd_type b, b_dpnd_dflt b, b_dpnd_rule b),
   (b_para_num b, b_para_key_type b, b_para_top_p b, b_para_type b, b_to_para_p b, b_sp_level b),
   (b_type b, b_length b, b_Jiritu_Go b, b_settou_num b, b_jiritu_num b, b_fuzoku_num b),
   (b_settou_ptr b, b_jiritu_ptr b, b_fuzoku_ptr b)).

(** The same word at the same place; its base form may become its surface. *)
Definition same_word (m m' : MRPH_DATA) : Prop := word_place m' = word_place m /\ (m_Goi m' = m_Goi m \/ m_Goi m' = m_Goi2 m).

#[export] Instance same_word_preorder : PreOrder same_word.
Proof.
  split; [split; auto|]. intros a b c [A1 A2] [B1 B2]. split; [congruence|]. unfold word_place in *.
  destruct A2, B2; [left | right | right | right]; congruence.
Qed.

Record same_units (sp sp' : SENTENCE_DATA) : Prop := {
  su_counts : Mrph_num sp' = Mrph_num sp /\ Bnst_num sp' = Bnst_num sp /\ Tag_num sp' = Tag_num sp;
  su_mrph : forall i, same_word (mrph_data sp i) (mrph_data sp' i);
  su_bnst : forall k, unit_place (bnst_data sp' k) = unit_place (bnst_data sp k);
  su_tag : forall t, unit_place (tag_data sp' t) = unit_place (tag_data sp t)
}.

#[export] Instance same_units_preorder : PreOrder same_units.
Proof.
  split.
  - intros sp. split; auto. reflexivity.
  - intros a b c [(A1 & A2 & A3) A4 A5 A6] [(B1 & B2 & B3) B4 B5 B6]. split.
    + repeat split; congruence.
    + intros i. now transitivity (mrph_data b i).
    + intros k. now rewrite B5.
    + intros t. now rewrite B6.
Qed.

(** Updates of one unit. *)
Lemma units_mrph : forall sp i u, (forall m, same_word m (u m)) -> same_units sp (upd_mrph i u sp).
Proof.
  intros sp i u H. split; auto. intros k. rewrite upd_mrph_at. destruct (Z.eqb_spec k i) as [->|]; [apply H | reflexivity].
Qed.

Lemma units_bnst : forall sp i u, (forall b, unit_place (u b) = unit_place b) -> same_units sp (upd_bnst i u sp).
Proof.
  intros sp i u H. split; auto; [reflexivity|]. intros k. rewrite upd_bnst_at. destruct (Z.eqb_spec k i) as [->|]; auto.
Qed.

Lemma units_tag : forall sp i u, (forall b, unit_place (u b) = unit_place b) -> same_units sp (upd_tag i u sp).
Proof.
  intros sp i u H. split; auto; [reflexivity|]. intros k. rewrite upd_tag_at. destruct (Z.eqb_spec k i) as [->|]; auto.
Qed.

(** An update by a value, for the ones that are computed from the old unit. *)
Lemma units_mrph_to : forall sp i m, same_word (mrph_data sp i) m -> same_units sp (upd_mrph i (fun _ => m) sp).
Proof.
  intros sp i m H. split; auto. intros k. rewrite upd_mrph_at. destruct (Z.eqb_spec k i) as [->|]; [exact H | reflexivity].
Qed.

Lemma units_bnst_to : forall sp i b, unit_place b = unit_place (bnst_data sp i) -> same_units sp (upd_bnst i (fun _ => b) sp).
Proof.
  intros sp i b H. split; auto; [reflexivity|]. intros k. rewrite upd_bnst_at. destruct (Z.eqb_spec k i) as [->|]; auto.
Qed.

Lemma units_tag_to : forall sp i b, unit_place b = unit_place (tag_data sp i) -> same_units sp (upd_tag i (fun _ => b) sp).
Proof.
  intros sp i b H. split; auto; [reflexivity|]. intros k. rewrite upd_tag_at. destruct (Z.eqb_spec k i) as [->|]; auto.
Qed.
