(* ===== verification/Bunsetsu.v ===== *)
(** * From morphemes to bunsetsus and tags (src/system/read_data.c)

    The morphemes of a sentence are grouped into bunsetsus ([make_bunsetsu]) and
    those into tags, the basic phrases ([make_tag_units]).  Pointers into
    [mrph_data], [bnst_data] and [tag_data] are indices.  The merging of
    morphemes before ([preprocess_mrph]) is in Merge.v; the readings of
    dictionaries for the new tags ([after_make_tag_units]) are not modelled. *)
From Stdlib Require Import ZArith List Bool String Ascii Lia.
Import ListNotations.
From S2P Require Import Prelude CStr Feature Sentence.
Open Scope string_scope.
Open Scope Z_scope.

(** ** Bunsetsus *)

Definition PARA_NIL : Z := 0.

(** The fields [init_bnst] sets once the number of bunsetsus is checked. *)
Definition clear_bnst (m_ptr : Z) (b : BNST_DATA) : BNST_DATA :=
  set_b_SCASE_code (fun _ => 0) (set_b_voice 0 (set_b_to_para_p false (set_b_para_type PARA_NIL
    (set_b_para_top_p false (set_b_para_key_type PARA_KEY_O
      (set_b_mrph_num 0 (set_b_mrph_ptr m_ptr b))))))).

(** [init_bnst] writes to [bnst_data[Bnst_num]] before it tests the limit. *)
Definition init_bnst (m_ptr : Z) (sp : SENTENCE_DATA) : res (option Z * SENTENCE_DATA) :=
  let k := Bnst_num sp in
  if (k <? 0) || (BNST_MAX <=? k) then Err OutOfBounds
  else
    let sp := upd_bnst k (fun b => set_b_num k (set_b_type IS_BNST_DATA b)) sp in
    let sp := set_Bnst_num (k + 1) sp in
    if BNST_MAX <? Bnst_num sp then Ret (None, set_Bnst_num 0 sp)
    else Ret (Some k, upd_bnst k (clear_bnst m_ptr) sp).

(** The loop of [calc_bnst_length] over the morphemes of a bunsetsu: it stops before
    the word that makes it too long. *)
Fixpoint bnst_length (ms : list MRPH_DATA) (length : Z) : res Z :=
  match ms with
  | [] => Ret length
  | m :: ms' =>
      n <- string_length (m_Goi2 m) ;;
      let current_length := n * 2 in
      if BNST_LENGTH_MAX <=? length + current_length then Ret length
      else bnst_length ms' (length + current_length)
  end.

Definition mrphs_of (sp : SENTENCE_DATA) (b : BNST_DATA) : list MRPH_DATA :=
  map (mrph_data sp) (zrange (b_mrph_ptr b) (b_mrph_ptr b + b_mrph_num b)).

Definition calc_bnst_length (sp : SENTENCE_DATA) (b : BNST_DATA) : res BNST_DATA :=
  len <- bnst_length (mrphs_of sp b) 0 ;; Ret (set_b_length len b).

(** One morpheme: is the loop still running, [b_ptr], the sentence. *)
Definition group_mrph (i : Z) (st : bool * option Z * SENTENCE_DATA)
  : res (bool * option Z * SENTENCE_DATA) :=
  let '(ok, b_ptr, sp) := st in
  if negb ok then Ret st
  else
    '(b_ptr, sp) <- (if has_feature (m_f (mrph_data sp i)) "文節始" then
                       r <- init_bnst i sp ;;
                       Ret (match fst r with Some k => (Some (Some k), snd r) | None => (None, snd r) end)
                     else Ret (Some b_ptr, sp)) ;;
    match b_ptr with
    | None => Ret (false, None, sp)
    | Some None => Err NullDeref
    | Some (Some k) =>
        Ret (true, Some k, upd_bnst k (fun b => set_b_mrph_num (b_mrph_num b + 1) b) sp)
    end.

(** The fields every bunsetsu starts the analysis with. *)
Definition finish_bnst (k : Z) (sp : SENTENCE_DATA) : res SENTENCE_DATA :=
  b <- calc_bnst_length sp (set_b_dpnd_type (chr "D") (set_b_dpnd_head 0 (bnst_data sp k))) ;;
  Ret (upd_bnst k (fun _ => b) sp).

Definition make_bunsetsu (sp : SENTENCE_DATA) : res (bool * SENTENCE_DATA) :=
  let sp := set_Max_New_Bnst_num 0 (set_Bnst_num 0 sp) in
  '(ok, _, sp) <- for_res 0 (Mrph_num sp) group_mrph (true, None, sp) ;;
  if negb ok then Ret (false, sp)
  else sp <- for_res 0 (Bnst_num sp) finish_bnst sp ;; Ret (true, sp).

(** ** Tags *)

(** [for (j = ...; j >= 0; j--) { a[j].x = count++; if (a[j] ends the unit) break; }]:
    the loop of [make_mrph_set_inum] and [make_tag_unit_set_inum]. *)
Fixpoint count_back {A} (put : Z -> A -> A) (stop : A -> bool) (js : list Z) (count : Z)
    (a : array A) : array A :=
  match js with
  | [] => a
  | j :: js' =>
      let a := aset a j (put count (a j)) in
      if stop (a j) then a else count_back put stop js' (count + 1) a
  end.

Definition make_mrph_set_inum (num : Z) (sp : SENTENCE_DATA) : SENTENCE_DATA :=
  set_mrph_data (count_back set_m_inum (fun m => 0 <=? m_tnum m) (rev (zrange 0 num)) 0 (mrph_data sp)) sp.

Definition make_tag_unit_set_inum (num : Z) (sp : SENTENCE_DATA) : SENTENCE_DATA :=
  set_tag_data (count_back set_b_inum (fun t => 0 <=? b_bnum t) (rev (zrange 0 (num - 1))) 1 (tag_data sp)) sp.

(** [push_tag_units]: [mp] is the morpheme, [i] its position. *)
Definition push_tag_units (i : Z) (mp : MRPH_DATA) (tp : BNST_DATA) : BNST_DATA :=
  let tp :=
    if has_feature (m_f mp) "非独立接頭辞" then
      set_b_settou_num (b_settou_num tp + 1)
        (if b_settou_num tp =? 0 then set_b_settou_ptr (Some i) tp else tp)
    else if has_feature (m_f mp) "自立" || has_feature (m_f mp) "内容語" then
      set_b_jiritu_num (b_jiritu_num tp + 1)
        (if b_jiritu_num tp =? 0 then set_b_jiritu_ptr (Some i) tp else tp)
    else
      set_b_fuzoku_num (b_fuzoku_num tp + 1)
        (if b_fuzoku_num tp =? 0 then set_b_fuzoku_ptr (Some i) tp else tp)
  in set_b_mrph_num (b_mrph_num tp + 1) tp.

(** The state of [make_tag_units]: [bp], [pre_bp] (unset at first), [tp], the sentence. *)
Record tag_state : Type := mkTS {
  ts_bp : option Z;
  ts_pre_bp : option Z;
  ts_tp : option Z;
  ts_sp : SENTENCE_DATA
}.

(** [bp != NULL && bp->mrph_ptr == mp] *)
Definition at_bnst (st : tag_state) (i : Z) : bool :=
  match ts_bp st with
  | Some b => b_mrph_ptr (bnst_data (ts_sp st) b) =? i
  | None => false
  end.

(** The new tag at morpheme [i]. *)
Definition new_tag (i : Z) (st : tag_state) : tag_state :=
  let sp := ts_sp st in
  let sp := if has_feature (m_f (mrph_data sp i)) "タグ単位始" then sp
            else upd_mrph i (fun m => set_m_f (fst (assign_cfeature EmptyString (m_f m) "タグ単位始" false)) m) sp in
  let t := Tag_num sp in
  let sp := upd_tag t (fun _ => set_b_mrph_ptr i (set_b_num t BNST_DATA_0)) sp in
  let sp := upd_mrph i (set_m_tnum t) sp in
  mkTS (ts_bp st) (ts_pre_bp st) (Some t) (make_mrph_set_inum i sp).

(** The tag [t] starts bunsetsu [b]. *)
Definition join_bnst (t b : Z) (st : tag_state) : tag_state :=
  let sp := ts_sp st in
  let sp := if (0 <? Tag_num sp) && (b_bnum (tag_data sp (t - 1)) <? 0)
            then make_tag_unit_set_inum (Tag_num sp) sp else sp in
  let sp := upd_tag t (fun tp => set_b_b_ptr b (set_b_bnum (b_num (bnst_data sp b)) tp)) sp in
  let sp := upd_bnst b (fun bp => set_b_tag_num 1 (set_b_tag_ptr t bp)) sp in
  mkTS (if b_num (bnst_data sp b) <? Bnst_num sp - 1 then Some (b + 1) else None) (Some b) (ts_tp st) sp.

(** The tag [t] is inside the bunsetsu [b] of the tag before. *)
Definition inside_bnst (t b : Z) (st : tag_state) : tag_state :=
  let sp := upd_tag t (fun tp => set_b_b_ptr b (set_b_bnum (-1) tp)) (ts_sp st) in
  mkTS (ts_bp st) (ts_pre_bp st) (ts_tp st) (upd_bnst b (fun bp => set_b_tag_num (b_tag_num bp + 1) bp) sp).

Definition start_tag (i : Z) (st : tag_state) : res tag_state :=
  let t := Tag_num (ts_sp st) in
  let st' := new_tag i st in
  st'' <- (match (if at_bnst st i then ts_bp st else None), ts_pre_bp st with
           | Some b, _ => Ret (join_bnst t b st')
           | None, Some p => Ret (inside_bnst t p st')
           | None, None => Err BadPointer
           end) ;;
  Ret (mkTS (ts_bp st'') (ts_pre_bp st'') (ts_tp st'') (set_Tag_num (t + 1) (ts_sp st''))).

Definition tag_mrph (i : Z) (st : tag_state) : res tag_state :=
  let sp := ts_sp st in
  st <- (if has_feature (m_f (mrph_data sp i)) "タグ単位始" || at_bnst st i then start_tag i st
         else Ret (mkTS (ts_bp st) (ts_pre_bp st) (ts_tp st) (upd_mrph i (set_m_tnum (-1)) sp))) ;;
  match ts_tp st with
  | None => Err NullDeref
  | Some t => Ret (mkTS (ts_bp st) (ts_pre_bp st) (ts_tp st)
                     (upd_tag t (push_tag_units i (mrph_data (ts_sp st) i)) (ts_sp st)))
  end.

(** [make_tag_units] up to the call of [after_make_tag_units]. *)
Definition make_tag_units (sp : SENTENCE_DATA) : res SENTENCE_DATA :=
  st <- for_res 0 (Mrph_num sp) tag_mrph (mkTS (Some 0) None None (set_Tag_num 0 sp)) ;;
  let sp := ts_sp st in
  if Tag_num sp <=? 0 then Err OutOfBounds
  else
    let sp := if b_bnum (tag_data sp (Tag_num sp - 1)) <? 0
              then make_tag_unit_set_inum (Tag_num sp) sp else sp in
    Ret (make_mrph_set_inum (Mrph_num sp) sp).

(** ** Segments

    The positions [0 .. n-1] cut into [cnt] segments: segment [k] has [num k]
    positions from [ptr k] on, and the segments start where [starts] says. *)
Record segs (starts : Z -> bool) (n : Z) (ptr num : Z -> Z) (cnt : Z) : Prop := {
  seg_cnt : 0 <= cnt;
  seg_first : (if cnt =? 0 then n else ptr 0) = 0;
  seg_next : forall k, 0 <= k < cnt -> 0 < num k /\ ptr k + num k = if k + 1 =? cnt then n else ptr (k + 1);
  seg_start : forall k, 0 <= k < cnt -> starts (ptr k) = true;
  seg_inside : forall k i, 0 <= k < cnt -> ptr k < i < ptr k + num k -> starts i = false
}.

Lemma segs_empty : forall starts ptr num, segs starts 0 ptr num 0.
Proof. split; intros; lia || reflexivity. Qed.

Lemma segs_le : forall starts n ptr num cnt, segs starts n ptr num cnt ->
  forall k, 0 <= k < cnt -> 0 <= ptr k /\ ptr k + num k <= n.
Proof.
  intros starts n ptr num cnt S.
  assert (L : forall k, 0 <= k -> k < cnt -> 0 <= ptr k).
  { apply (natlike_ind (fun k => k < cnt -> 0 <= ptr k)).
    - intros Hc. pose proof (seg_first _ _ _ _ _ S). case_hyp H; lia.
    - intros k Hk IH Hc. destruct (seg_next _ _ _ _ _ S k ltac:(lia)) as [P N].
      replace (k + 1 =? cnt) with false in N by lia. rewrite <- Z.add_1_r. specialize (IH ltac:(lia)). lia. }
  intros k Hk. split; [apply L; lia|].
  assert (U : forall d, 0 <= d -> forall k, 0 <= k < cnt -> k + d = cnt - 1 -> ptr k + num k <= n).
  { apply (natlike_ind (fun d => forall k, 0 <= k < cnt -> k + d = cnt - 1 -> ptr k + num k <= n)).
    - intros j Hj E. destruct (seg_next _ _ _ _ _ S j Hj) as [P N]. replace (j + 1 =? cnt) with true in N by lia. lia.
    - intros d Hd IH j Hj E. destruct (seg_next _ _ _ _ _ S j Hj) as [P N].
      replace (j + 1 =? cnt) with false in N by lia. specialize (IH (j + 1) ltac:(lia) ltac:(lia)).
      destruct (seg_next _ _ _ _ _ S (j + 1) ltac:(lia)). lia. }
  apply (U (cnt - 1 - k)); lia.
Qed.

(** Position [n] starts a new segment. *)
Lemma segs_new : forall starts n ptr num cnt ptr' num', segs starts n ptr num cnt ->
  starts n = true -> ptr' cnt = n -> num' cnt = 1 ->
  (forall k, 0 <= k < cnt -> ptr' k = ptr k /\ num' k = num k) ->
  segs starts (n + 1) ptr' num' (cnt + 1).
Proof.
  intros starts n ptr num cnt ptr' num' S Hst Hp Hn Heq. pose proof (seg_cnt _ _ _ _ _ S) as Hc.
  split; intros.
  - lia.
  - replace (cnt + 1 =? 0) with false by lia. pose proof (seg_first _ _ _ _ _ S) as F.
    destruct (Z.eqb_spec cnt 0) as [->|Hne]; [lia|]. destruct (Heq 0); lia.
  - destruct (Z.eq_dec k cnt) as [->|Hne].
    + rewrite Z.eqb_refl. lia.
    + destruct (Heq k ltac:(lia)) as [-> ->]. destruct (seg_next _ _ _ _ _ S k ltac:(lia)) as [P N].
      replace (k + 1 =? cnt + 1) with false by lia. split; [lia|]. rewrite N.
      destruct (Z.eqb_spec (k + 1) cnt) as [->|]; [lia|]. destruct (Heq (k + 1) ltac:(lia)); lia.
  - destruct (Z.eq_dec k cnt) as [->|Hne]; [now rewrite Hp|].
    destruct (Heq k ltac:(lia)) as [-> _]. apply (seg_start _ _ _ _ _ S). lia.
  - destruct (Z.eq_dec k cnt) as [->|Hne]; [lia|].
    destruct (Heq k ltac:(lia)) as [Ep En]. apply (seg_inside _ _ _ _ _ S k); lia.
Qed.

(** Position [n] belongs to the last segment. *)
Lemma segs_grow : forall starts n ptr num cnt ptr' num', segs starts n ptr num cnt -> 0 < cnt ->
  starts n = false -> num' (cnt - 1) = num (cnt - 1) + 1 -> ptr' (cnt - 1) = ptr (cnt - 1) ->
  (forall k, 0 <= k < cnt - 1 -> ptr' k = ptr k /\ num' k = num k) ->
  segs starts (n + 1) ptr' num' cnt.
Proof.
  intros starts n ptr num cnt ptr' num' S Hc Hst Hn Hp Heq.
  assert (Ep : forall k, 0 <= k < cnt -> ptr' k = ptr k).
  { intros k Hk. destruct (Z.eq_dec k (cnt - 1)) as [->|]; [easy|]. apply (Heq k). lia. }
  assert (En : forall k, 0 <= k < cnt -> num' k = if k + 1 =? cnt then num k + 1 else num k).
  { intros k Hk. destruct (Z.eqb_spec (k + 1) cnt).
    - replace k with (cnt - 1) by lia. lia.
    - apply (Heq k). lia. }
  split; intros.
  - lia.
  - pose proof (seg_first _ _ _ _ _ S) as F. replace (cnt =? 0) with false in * by lia. rewrite Ep; lia.
  - rewrite (Ep k H), (En k H). destruct (seg_next _ _ _ _ _ S k H) as [P N].
    destruct (Z.eqb_spec (k + 1) cnt); [lia|]. rewrite (Ep (k + 1)) by lia. lia.
  - rewrite (Ep k H). now apply (seg_start _ _ _ _ _ S).
  - rewrite (Ep k H), (En k H) in H0. destruct (seg_next _ _ _ _ _ S k H) as [P N].
    destruct (Z.eq_dec i n) as [->|]; [easy|]. apply (seg_inside _ _ _ _ _ S k i H).
    destruct (Z.eqb_spec (k + 1) cnt); lia.
Qed.

(** Segments that only look at [starts] below [n] and at segments below [cnt]. *)
Lemma segs_ext : forall starts starts' n ptr ptr' num num' cnt, segs starts n ptr num cnt ->
  (forall i, 0 <= i < n -> starts' i = starts i) ->
  (forall k, 0 <= k < cnt -> ptr' k = ptr k /\ num' k = num k) ->
  segs starts' n ptr' num' cnt.
Proof.
  intros starts starts' n ptr ptr' num num' cnt S Hs Heq. pose proof (segs_le _ _ _ _ _ S) as L.
  split; intros.
  - apply (seg_cnt _ _ _ _ _ S).
  - pose proof (seg_first _ _ _ _ _ S) as F. pose proof (seg_cnt _ _ _ _ _ S).
    destruct (Z.eqb_spec cnt 0); [easy|]. destruct (Heq 0); lia.
  - destruct (Heq k H) as [-> ->]. destruct (seg_next _ _ _ _ _ S k H) as [P N]. split; [easy|].
    destruct (Z.eqb_spec (k + 1) cnt); [easy|]. destruct (Heq (k + 1) ltac:(lia)); lia.
  - destruct (Heq k H) as [-> _]. pose proof (L k H). destruct (seg_next _ _ _ _ _ S k H).
    rewrite Hs by lia. now apply (seg_start _ _ _ _ _ S).
  - destruct (Heq k H) as [Ep En]. rewrite Ep, En in H0. pose proof (L k H).
    rewrite Hs by lia. now apply (seg_inside _ _ _ _ _ S k i H).
Qed.

(** ** Grouping into bunsetsus *)

Definition bnst_start (sp : SENTENCE_DATA) (i : Z) : bool := has_feature (m_f (mrph_data sp i)) "文節始".

Definition bnst_segs (starts : Z -> bool) (n : Z) (sp : SENTENCE_DATA) : Prop :=
  segs starts n (fun k => b_mrph_ptr (bnst_data sp k)) (fun k => b_mrph_num (bnst_data sp k)) (Bnst_num sp) /\
  forall k, 0 <= k < Bnst_num sp -> b_num (bnst_data sp k) = k.

(** Words whose UTF-8 characters are complete, so that their length is defined. *)
Definition words_ok (sp : SENTENCE_DATA) : Prop :=
  forall i, 0 <= i < Mrph_num sp -> is_ret (string_length (m_Goi2 (mrph_data sp i))) = true.

Lemma bnst_length_ret : forall ms len, (forall m, In m ms -> is_ret (string_length (m_Goi2 m)) = true) ->
  len < BNST_LENGTH_MAX -> exists len', bnst_length ms len = Ret len' /\ len' < BNST_LENGTH_MAX.
Proof.
  induction ms as [|m ms IH]; intros len H Hl; cbn [bnst_length]; [eauto|].
  specialize (H m) as Hm. destruct (string_length (m_Goi2 m)) as [c|]; [|discriminate Hm; now left].
  destruct (Z.leb_spec BNST_LENGTH_MAX (len + c * 2)); eauto.
  apply IH; [intros; apply H; now right|lia].
Qed.

Definition grouped (sp0 : SENTENCE_DATA) (i : Z) (st : bool * option Z * SENTENCE_DATA) : Prop :=
  let '(ok, b_ptr, sp) := st in
  ok = true /\ b_ptr = (if Bnst_num sp =? 0 then None else Some (Bnst_num sp - 1)) /\ Bnst_num sp <= i /\
  mrph_data sp = mrph_data sp0 /\ Mrph_num sp = Mrph_num sp0 /\ bnst_segs (bnst_start sp0) i sp.

Lemma group_mrph_start : forall sp0 i st, 0 <= i < MRPH_MAX -> grouped sp0 i st ->
  bnst_start sp0 i = true -> exists st', group_mrph i st = Ret st' /\ grouped sp0 (i + 1) st'.
Proof.
  intros sp0 i [[ok b] sp] Hi (-> & -> & Hle & HM & HN & HS & Hnum) Hst.
  pose proof (seg_cnt _ _ _ _ _ HS) as Hc. unfold bnst_start in Hst.
  unfold group_mrph, init_bnst. cbn [negb]. rewrite HM, Hst.
  unfold MRPH_MAX in Hi.
  replace ((Bnst_num sp <? 0) || (BNST_MAX <=? Bnst_num sp)) with false by (unfold BNST_MAX; lia).
  cbn [Bnst_num upd_bnst set_bnst_data set_Bnst_num].
  replace (BNST_MAX <? Bnst_num sp + 1) with false by (unfold BNST_MAX; lia).
  eexists. split; [reflexivity|]. cbn. unfold grouped, bnst_segs. cbn [Bnst_num].
  replace (Bnst_num sp + 1 =? 0) with false by lia.
  replace (Bnst_num sp + 1 - 1) with (Bnst_num sp) by lia.
  repeat (split; [now auto || lia|]). split.
  - eapply segs_new; [exact HS|exact Hst| | |]; cbn -[Z.eqb]; unfold aset; rewrite ?Z.eqb_refl; auto.
    intros k Hk. now replace (k =? Bnst_num sp) with false by lia.
  - intros k Hk. cbn in Hk |- *. unfold aset. rewrite !Z.eqb_refl.
    destruct (Z.eqb_spec k (Bnst_num sp)); [easy|]. apply Hnum. lia.
Qed.

Lemma group_mrph_inside : forall sp0 i st, 0 < i -> grouped sp0 i st -> bnst_start sp0 i = false ->
  exists st', group_mrph i st = Ret st' /\ grouped sp0 (i + 1) st'.
Proof.
  intros sp0 i [[ok b] sp] Hi (-> & -> & Hle & HM & HN & HS & Hnum) Hst.
  pose proof (seg_cnt _ _ _ _ _ HS) as Hc. unfold bnst_start in Hst.
  unfold group_mrph. cbn [negb]. rewrite HM, Hst.
  assert (Hpos : 0 < Bnst_num sp).
  { pose proof (seg_first _ _ _ _ _ HS) as F. destruct (Z.eqb_spec (Bnst_num sp) 0); lia. }
  replace (Bnst_num sp =? 0) with false by lia.
  eexists. split; [reflexivity|]. unfold grouped, bnst_segs. cbn [Bnst_num upd_bnst set_bnst_data].
  replace (Bnst_num sp =? 0) with false by lia.
  repeat (split; [now auto || lia|]). split.
  - eapply segs_grow; [exact HS|lia|exact Hst| | |]; cbn -[Z.eqb Z.sub]; unfold aset; rewrite ?Z.eqb_refl; auto.
    intros k Hk. now replace (k =? Bnst_num sp - 1) with false by lia.
  - intros k Hk. cbn in Hk |- *. unfold aset.
    destruct (Z.eqb_spec k (Bnst_num sp - 1)) as [->|]; apply Hnum; lia.
Qed.

(** The fields [make_bunsetsu] leaves to the later analyses. *)
Definition finished_bnst (b b' : BNST_DATA) : Prop :=
  b_mrph_ptr b' = b_mrph_ptr b /\ b_mrph_num b' = b_mrph_num b /\ b_num b' = b_num b /\
  b_dpnd_head b' = 0 /\ b_dpnd_type b' = chr "D" /\ b_length b' < BNST_LENGTH_MAX.

Lemma finish_bnst_spec : forall k sp, (forall m, In m (mrphs_of sp (bnst_data sp k)) ->
    is_ret (string_length (m_Goi2 m)) = true) ->
  exists b', finish_bnst k sp = Ret (upd_bnst k (fun _ => b') sp) /\ finished_bnst (bnst_data sp k) b'.
Proof.
  intros k sp H. unfold finish_bnst, calc_bnst_length.
  destruct (bnst_length_ret (mrphs_of sp (bnst_data sp k)) 0 H eq_refl) as [len [E L]].
  unfold mrphs_of in *. cbn [b_mrph_ptr b_mrph_num set_b_dpnd_type set_b_dpnd_head]. rewrite E.
  eexists. split; [reflexivity|]. now repeat split.
Qed.

Definition finishing (sp sp' : SENTENCE_DATA) (k : Z) : Prop :=
  mrph_data sp' = mrph_data sp /\ Mrph_num sp' = Mrph_num sp /\ Bnst_num sp' = Bnst_num sp /\
  (forall j, 0 <= j < k -> finished_bnst (bnst_data sp j) (bnst_data sp' j)) /\
  (forall j, k <= j -> bnst_data sp' j = bnst_data sp j).

Lemma finish_all : forall starts sp, bnst_segs starts (Mrph_num sp) sp -> words_ok sp ->
  exists sp', for_res 0 (Bnst_num sp) finish_bnst sp = Ret sp' /\ finishing sp sp' (Bnst_num sp).
Proof.
  intros starts sp [HS _] HW. apply for_res_total with (P := fun k sp' => finishing sp sp' k).
  - apply (seg_cnt _ _ _ _ _ HS).
  - intros k s Hk (HM & HN & HB & Hdone & Hrest).
    destruct (finish_bnst_spec k s) as [b' [E F]].
    + intros m Hm. unfold mrphs_of in Hm. rewrite (Hrest k) in Hm by lia.
      apply in_map_iff in Hm as [i [<- Hi]]. apply in_zrange in Hi. rewrite HM.
      pose proof (segs_le _ _ _ _ _ HS k Hk) as L. cbn in L. apply HW. lia.
    + exists (upd_bnst k (fun _ => b') s). split; [easy|]. rewrite (Hrest k) in F by lia.
      repeat (split; [easy|]). split; intros j Hj; rewrite upd_bnst_at.
      * destruct (Z.eqb_spec j k) as [->|]; [easy|]. apply Hdone. lia.
      * replace (j =? k) with false by lia. apply Hrest. lia.
  - repeat (split; [easy|]). split; [lia|easy].
Qed.

Lemma group_all : forall sp, 0 <= Mrph_num sp <= MRPH_MAX ->
  (0 < Mrph_num sp -> bnst_start sp 0 = true) ->
  exists b sp1,
    for_res 0 (Mrph_num sp) group_mrph (true, None, set_Max_New_Bnst_num 0 (set_Bnst_num 0 sp)) =
      Ret (true, b, sp1) /\ grouped sp (Mrph_num sp) (true, b, sp1).
Proof.
  intros sp HN H0.
  destruct (for_res_total (grouped sp) group_mrph 0 (Mrph_num sp)
              (true, None, set_Max_New_Bnst_num 0 (set_Bnst_num 0 sp))) as [[[ok b] sp1] [E G]].
  - lia.
  - intros i st Hi HG. destruct (bnst_start sp i) eqn:Hst.
    + apply group_mrph_start; auto; lia.
    + apply group_mrph_inside; auto. destruct (Z.eq_dec i 0) as [->|]; [|lia].
      rewrite H0 in Hst by lia. discriminate.
  - repeat (split; [easy|]). split; [apply segs_empty|intros k Hk; cbn in Hk; lia].
  - pose proof G as [-> _]. eauto.
Qed.

Lemma make_bunsetsu_segs : forall sp,
  0 <= Mrph_num sp <= MRPH_MAX -> words_ok sp ->
  (0 < Mrph_num sp -> bnst_start sp 0 = true) ->
  exists sp', make_bunsetsu sp = Ret (true, sp') /\
    mrph_data sp' = mrph_data sp /\ Mrph_num sp' = Mrph_num sp /\ Bnst_num sp' <= Mrph_num sp /\
    bnst_segs (bnst_start sp) (Mrph_num sp) sp' /\
    forall k, 0 <= k < Bnst_num sp' -> b_length (bnst_data sp' k) < BNST_LENGTH_MAX.
Proof.
  intros sp HN HW H0. unfold make_bunsetsu.
  destruct (group_all sp HN H0) as (b & sp1 & E & _ & _ & Hle & HM & HMn & HS).
  cbn [Mrph_num set_Max_New_Bnst_num set_Bnst_num] in *. rewrite E. cbn [negb].
  destruct (finish_all (bnst_start sp) sp1) as (sp' & -> & HM' & HMn' & HB & Hdone & _).
  { now rewrite HMn. }
  { intros i Hi. rewrite HM. apply HW. lia. }
  exists sp'. rewrite HM', HMn', HB. repeat (split; [easy|]). destruct HS as [HS Hnum]. split.
  - split; rewrite HB.
    + eapply segs_ext; [exact HS|easy|]. intros k Hk. split; apply Hdone; lia.
    + intros k Hk. destruct (Hdone k Hk) as (_ & _ & -> & _). auto.
  - intros k Hk. apply (Hdone k Hk).
Qed.

(** ** Tags: the marks of the units that are complete *)

(** [count_back] from [hi-1] down to the last position [s] with [stop]. *)
Lemma count_back_at : forall {A} (put : Z -> A -> A) (stop : A -> bool) (a : array A) s hi count,
  (forall c x, stop (put c x) = stop x) -> s < hi -> 0 <= s ->
  stop (a s) = true -> (forall j, s < j < hi -> stop (a j) = false) ->
  forall j, count_back put stop (rev (zrange 0 hi)) count a j =
    if within s j hi then put (count + (hi - 1 - j)) (a j) else a j.
Proof.
  intros A put stop a s hi count Hput. revert a count.
  assert (G : forall n hi, hi = s + 1 + Z.of_nat n -> 0 <= s -> forall (a : array A) count,
    stop (a s) = true -> (forall j, s < j < hi -> stop (a j) = false) ->
    forall j, count_back put stop (rev (zrange 0 hi)) count a j =
      if within s j hi then put (count + (hi - 1 - j)) (a j) else a j).
  { clear hi. induction n as [|n IH]; intros hi -> H0 a count Hs Hin j;
      rewrite zrange_snoc, rev_unit by lia; cbn [count_back]; rewrite aset_eq, Hput.
    - replace (s + 1 + Z.of_nat 0 - 1) with s by lia. rewrite Hs. unfold aset.
      destruct (within_spec s j (s + 1 + Z.of_nat 0)), (Z.eqb_spec j s); subst; try lia; auto.
      now replace (count + (s - s)) with count by lia.
    - rewrite (Hin (s + 1 + Z.of_nat (S n) - 1)) by lia.
      rewrite (IH (s + 1 + Z.of_nat (S n) - 1)); try lia.
      + unfold aset. destruct (within_spec s j (s + 1 + Z.of_nat (S n) - 1)), (within_spec s j (s + 1 + Z.of_nat (S n)));
          destruct (Z.eqb_spec j (s + 1 + Z.of_nat (S n) - 1)); subst; try lia; auto; f_equal; lia.
      + now rewrite aset_ne by lia.
      + intros i Hi. rewrite aset_ne by lia. apply Hin. lia. }
  intros a count Hlt H0 Hs Hin j. apply (G (Z.to_nat (hi - s - 1))); auto; lia.
Qed.

(** Unit [k] is marked: its elements count the elements after them in the unit. *)
Definition counted (ptr num inum : Z -> Z) (k : Z) : Prop :=
  forall j, ptr k <= j < ptr k + num k -> inum j = ptr k + num k - 1 - j.

(** The last segment of [n] positions. *)
Lemma segs_last : forall starts n ptr num cnt, segs starts n ptr num cnt -> 0 < cnt ->
  0 <= ptr (cnt - 1) < n /\ num (cnt - 1) = n - ptr (cnt - 1).
Proof.
  intros starts n ptr num cnt S Hc. destruct (seg_next _ _ _ _ _ S (cnt - 1) ltac:(lia)) as [P N].
  destruct (segs_le _ _ _ _ _ S (cnt - 1) ltac:(lia)). replace (cnt - 1 + 1 =? cnt) with true in N by lia. lia.
Qed.

Lemma segs_pos : forall starts n ptr num cnt, segs starts n ptr num cnt -> 0 < n -> 0 < cnt.
Proof.
  intros starts n ptr num cnt S Hn. pose proof (seg_cnt _ _ _ _ _ S). pose proof (seg_first _ _ _ _ _ S) as F.
  destruct (Z.eqb_spec cnt 0); lia.
Qed.

Lemma segs_mono : forall starts n ptr num cnt, segs starts n ptr num cnt ->
  forall k l, 0 <= k -> k < l -> l < cnt -> ptr k + num k <= ptr l.
Proof.
  intros starts n ptr num cnt S k l Hk Hl.
  replace l with (k + 1 + (l - k - 1)) by lia. generalize (l - k - 1) (ltac:(lia) : 0 <= l - k - 1).
  apply (natlike_ind (fun d => k + 1 + d < cnt -> ptr k + num k <= ptr (k + 1 + d))).
  - intros Hc. destruct (seg_next _ _ _ _ _ S k ltac:(lia)) as [P N].
    replace (k + 1 =? cnt) with false in N by lia. rewrite Z.add_0_r. lia.
  - intros d Hd IH Hc. destruct (seg_next _ _ _ _ _ S (k + 1 + d) ltac:(lia)) as [P N].
    replace (k + 1 + d + 1 =? cnt) with false in N by lia. specialize (IH ltac:(lia)).
    replace (k + 1 + Z.succ d) with (k + 1 + d + 1) by lia. lia.
Qed.

Lemma segs_count : forall starts n ptr num cnt, segs starts n ptr num cnt -> cnt <= n.
Proof.
  intros starts n ptr num cnt S. pose proof (seg_cnt _ _ _ _ _ S) as Hc.
  assert (G : forall k, 0 <= k -> k < cnt -> k <= ptr k).
  { apply (natlike_ind (fun k => k < cnt -> k <= ptr k)).
    - intros Hk. apply (segs_le _ _ _ _ _ S). lia.
    - intros k Hk IH Hlt. pose proof (segs_mono _ _ _ _ _ S k (Z.succ k) ltac:(lia) ltac:(lia) Hlt).
      destruct (seg_next _ _ _ _ _ S k ltac:(lia)). specialize (IH ltac:(lia)). lia. }
  destruct (Z.eq_dec cnt 0) as [->|].
  - pose proof (seg_first _ _ _ _ _ S) as F. cbn in F. lia.
  - pose proof (segs_last _ _ _ _ _ S ltac:(lia)). specialize (G (cnt - 1) ltac:(lia) ltac:(lia)). lia.
Qed.

Section Tags.
(** A sentence cut into bunsetsus that start where [bs] says. *)
Context (sp0 : SENTENCE_DATA) (bs : Z -> bool).
Hypothesis bnsts : bnst_segs bs (Mrph_num sp0) sp0.

Definition tag_start (i : Z) : bool := has_feature (m_f (mrph_data sp0 i)) "タグ単位始" || bs i.

(** The features of a morpheme that starts a tag. *)
Definition tagged (f : FEATURE) : FEATURE :=
  if has_feature f "タグ単位始" then f else fst (assign_cfeature EmptyString f "タグ単位始" false).

Definition bnst_ptr (k : Z) : Z := b_mrph_ptr (bnst_data sp0 k).
Definition bnst_num (k : Z) : Z := b_mrph_num (bnst_data sp0 k).

Definition tag_segs (i : Z) (sp : SENTENCE_DATA) : Prop :=
  segs tag_start i (fun t => b_mrph_ptr (tag_data sp t)) (fun t => b_mrph_num (tag_data sp t)) (Tag_num sp).

(** The tags of the first [cnt] bunsetsus. *)
Definition bnst_tag_segs (cnt : Z) (sp : SENTENCE_DATA) : Prop :=
  segs (fun t => 0 <=? b_bnum (tag_data sp t)) (Tag_num sp)
    (fun k => b_tag_ptr (bnst_data sp k)) (fun k => b_tag_num (bnst_data sp k)) cnt.

(** What the loop of [make_tag_units] has established before morpheme [i] about the
    morphemes and the words of each tag ... *)
Record mrphs_upto (i : Z) (st : tag_state) : Prop := {
  mu_tp : ts_tp st = if Tag_num (ts_sp st) =? 0 then None else Some (Tag_num (ts_sp st) - 1);
  mu_num : Mrph_num (ts_sp st) = Mrph_num sp0;
  mu_f : forall j, m_f (mrph_data (ts_sp st) j) =
                   if within 0 j i && tag_start j then tagged (m_f (mrph_data sp0 j)) else m_f (mrph_data sp0 j);
  mu_segs : tag_segs i (ts_sp st);
  mu_tnum : forall t, 0 <= t < Tag_num (ts_sp st) -> b_num (tag_data (ts_sp st) t) = t /\
              m_tnum (mrph_data (ts_sp st) (b_mrph_ptr (tag_data (ts_sp st) t))) = t;
  mu_other : forall j, 0 <= j < i -> tag_start j = false -> m_tnum (mrph_data (ts_sp st) j) = -1;
  mu_inum : forall t, 0 <= t < Tag_num (ts_sp st) - 1 ->
      counted (fun t => b_mrph_ptr (tag_data (ts_sp st) t)) (fun t => b_mrph_num (tag_data (ts_sp st) t))
        (fun j => m_inum (mrph_data (ts_sp st) j)) t;
  mu_words : forall t, 0 <= t < Tag_num (ts_sp st) ->
      b_settou_num (tag_data (ts_sp st) t) + b_jiritu_num (tag_data (ts_sp st) t) +
      b_fuzoku_num (tag_data (ts_sp st) t) = b_mrph_num (tag_data (ts_sp st) t)
}.

(** ... and about the bunsetsus up to the current one [p] (-1 before the first). *)
Record bnsts_upto (i p : Z) (st : tag_state) : Prop := {
  bu_p : -1 <= p < Bnst_num sp0;
  bu_i : if p =? -1 then i = 0 else bnst_ptr p < i <= bnst_ptr p + bnst_num p;
  bu_bp : ts_bp st = if p + 1 <? Bnst_num sp0 then Some (p + 1) else None;
  bu_pre : ts_pre_bp st = if p =? -1 then None else Some p;
  bu_num : Bnst_num (ts_sp st) = Bnst_num sp0;
  bu_bnst : forall k, b_mrph_ptr (bnst_data (ts_sp st) k) = bnst_ptr k /\
                      b_mrph_num (bnst_data (ts_sp st) k) = bnst_num k /\
                      b_num (bnst_data (ts_sp st) k) = b_num (bnst_data sp0 k);
  bu_tags : bnst_tag_segs (p + 1) (ts_sp st);
  bu_head : forall k, 0 <= k <= p ->
      b_bnum (tag_data (ts_sp st) (b_tag_ptr (bnst_data (ts_sp st) k))) = k /\
      b_mrph_ptr (tag_data (ts_sp st) (b_tag_ptr (bnst_data (ts_sp st) k))) = bnst_ptr k;
  bu_own : forall k t, 0 <= k <= p ->
      b_tag_ptr (bnst_data (ts_sp st) k) <= t < b_tag_ptr (bnst_data (ts_sp st) k) + b_tag_num (bnst_data (ts_sp st) k) ->
      b_b_ptr (tag_data (ts_sp st) t) = k;
  bu_inum : forall k, 0 <= k < p ->
      counted (fun k => b_tag_ptr (bnst_data (ts_sp st) k)) (fun k => b_tag_num (bnst_data (ts_sp st) k))
        (fun t => b_inum (tag_data (ts_sp st) t)) k;
  bu_open : 0 <= p -> forall t, b_tag_ptr (bnst_data (ts_sp st) p) <= t < Tag_num (ts_sp st) ->
      b_inum (tag_data (ts_sp st) t) = 0
}.


(** The two halves of the invariant look at different fields. *)
Lemma mrphs_upto_cong : forall i st st', mrphs_upto i st -> ts_tp st' = ts_tp st ->
  mrph_data (ts_sp st') = mrph_data (ts_sp st) -> Mrph_num (ts_sp st') = Mrph_num (ts_sp st) ->
  Tag_num (ts_sp st') = Tag_num (ts_sp st) ->
  (forall t, let x := tag_data (ts_sp st) t in let y := tag_data (ts_sp st') t in
     b_num y = b_num x /\ b_mrph_ptr y = b_mrph_ptr x /\ b_mrph_num y = b_mrph_num x /\
     b_settou_num y = b_settou_num x /\ b_jiritu_num y = b_jiritu_num x /\ b_fuzoku_num y = b_fuzoku_num x) ->
  mrphs_upto i st'.
Proof.
  intros i st st' [H1 H2 H3 H4 H5 H6 H7 H8] Etp Em En Et Ex.
  split; unfold tag_segs, counted in *; rewrite ?Etp, ?Em, ?En, ?Et; auto.
  - eapply segs_ext; [exact H4|easy|]. intros k Hk. destruct (Ex k) as (_ & -> & -> & _). easy.
  - intros t Ht. destruct (Ex t) as (-> & -> & _). auto.
  - intros t Ht j. destruct (Ex t) as (_ & -> & -> & _). now apply H7.
  - intros t Ht. destruct (Ex t) as (_ & _ & -> & -> & -> & ->). auto.
Qed.

Lemma bnsts_upto_cong : forall i p st st', bnsts_upto i p st -> ts_bp st' = ts_bp st ->
  ts_pre_bp st' = ts_pre_bp st -> Bnst_num (ts_sp st') = Bnst_num (ts_sp st) ->
  bnst_data (ts_sp st') = bnst_data (ts_sp st) -> Tag_num (ts_sp st') = Tag_num (ts_sp st) ->
  (forall t, let x := tag_data (ts_sp st) t in let y := tag_data (ts_sp st') t in
     b_bnum y = b_bnum x /\ b_mrph_ptr y = b_mrph_ptr x /\ b_b_ptr y = b_b_ptr x /\ b_inum y = b_inum x) ->
  bnsts_upto i p st'.
Proof.
  intros i p st st' [H1 H2 H3 H4 H5 H6 H7 H8 H9 H10 H11] Eb Ep En Ed Et Ex.
  split; unfold bnst_tag_segs, counted in *; rewrite ?Eb, ?Ep, ?En, ?Ed, ?Et; auto.
  - eapply segs_ext; [exact H7| |easy]. intros t Ht. now destruct (Ex t) as (-> & _).
  - intros k Hk. destruct (Ex (b_tag_ptr (bnst_data (ts_sp st) k))) as (-> & -> & _). auto.
  - intros k t Hk Ht. destruct (Ex t) as (_ & _ & -> & _). eauto.
  - intros k Hk t Ht. destruct (Ex t) as (_ & _ & _ & ->). now apply (H10 k Hk).
  - intros Hp t Ht. destruct (Ex t) as (_ & _ & _ & ->). auto.
Qed.

(** The test [bp->mrph_ptr == mp] finds the starts of the bunsetsus. *)
Lemma at_bnst_spec : forall i p st, bnsts_upto i p st -> 0 <= i < Mrph_num sp0 ->
  at_bnst st i = bs i /\
  if bs i then p + 1 < Bnst_num sp0 /\ bnst_ptr (p + 1) = i /\ ts_bp st = Some (p + 1)
  else 0 <= p /\ i < bnst_ptr p + bnst_num p.
Proof.
  intros i p st [Hp Hi Hbp Hpre _ Hb _ _ _ _ _] HN. destruct bnsts as [HS _].
  fold bnst_ptr bnst_num in HS. change (segs bs (Mrph_num sp0) bnst_ptr bnst_num (Bnst_num sp0)) in HS.
  pose proof (segs_pos _ _ _ _ _ HS ltac:(lia)) as HB.
  assert (Hnext : p + 1 < Bnst_num sp0 -> if p =? -1 then bnst_ptr (p + 1) = 0
                                         else bnst_ptr (p + 1) = bnst_ptr p + bnst_num p).
  { intros Hlt. destruct (Z.eqb_spec p (-1)) as [->|Hne].
    - pose proof (seg_first _ _ _ _ _ HS) as F. now replace (Bnst_num sp0 =? 0) with false in F by lia.
    - destruct (seg_next _ _ _ _ _ HS p ltac:(lia)) as [_ N]. now replace (p + 1 =? Bnst_num sp0) with false in N by lia. }
  assert (Hlast : p + 1 = Bnst_num sp0 -> bnst_ptr p + bnst_num p = Mrph_num sp0).
  { intros E. destruct (seg_next _ _ _ _ _ HS p ltac:(lia)) as [_ N]. now replace (p + 1 =? Bnst_num sp0) with true in N by lia. }
  assert (Hin : 0 <= p -> i < bnst_ptr p + bnst_num p -> bs i = false).
  { intros H0 Hlt. replace (p =? -1) with false in Hi by lia. apply (seg_inside _ _ _ _ _ HS p i); lia. }
  unfold at_bnst. rewrite Hbp. destruct (Z.ltb_spec (p + 1) (Bnst_num sp0)) as [Hlt|Hge].
  - specialize (Hnext Hlt). destruct (Hb (p + 1)) as [-> _].
    pose proof (seg_start _ _ _ _ _ HS (p + 1) ltac:(lia)) as Hst.
    destruct (Z.eqb_spec (bnst_ptr (p + 1)) i) as [E|Hne].
    + rewrite E in Hst. rewrite Hst. auto.
    + destruct (Z.eqb_spec p (-1)); [lia|]. rewrite Hin by lia. lia.
  - destruct (Z.eqb_spec p (-1)); [lia|]. rewrite Hin by lia. lia.
Qed.

Lemma push_facts : forall i mp tp, let tp' := push_tag_units i mp tp in
  b_mrph_num tp' = b_mrph_num tp + 1 /\
  b_settou_num tp' + b_jiritu_num tp' + b_fuzoku_num tp' =
    b_settou_num tp + b_jiritu_num tp + b_fuzoku_num tp + 1 /\
  b_num tp' = b_num tp /\ b_mrph_ptr tp' = b_mrph_ptr tp /\ b_bnum tp' = b_bnum tp /\
  b_b_ptr tp' = b_b_ptr tp /\ b_inum tp' = b_inum tp.
Proof.
  intros i mp tp. unfold push_tag_units. cbn.
  destruct (has_feature (m_f mp) "非独立接頭辞"); [|destruct (has_feature _ _ || has_feature _ _)];
    cbn; repeat split; try case_goal; cbn; try easy; lia.
Qed.

(** A morpheme inside a tag. *)
Lemma mrphs_inside : forall i st, mrphs_upto i st -> 0 < i -> tag_start i = false ->
  exists t, ts_tp st = Some t /\
    mrphs_upto (i + 1)
      (mkTS (ts_bp st) (ts_pre_bp st) (ts_tp st)
        (upd_tag t (push_tag_units i (mrph_data (upd_mrph i (set_m_tnum (-1)) (ts_sp st)) i))
          (upd_mrph i (set_m_tnum (-1)) (ts_sp st)))).
Proof.
  intros i st [H1 H2 H3 H4 H5 H6 H7 H8] Hi Hst. unfold tag_segs, counted in *.
  pose proof (segs_pos _ _ _ _ _ H4 Hi) as HT. pose proof (segs_le _ _ _ _ _ H4) as HL.
  pose proof (segs_last _ _ _ _ _ H4 HT) as [HL1 HL2]. pose proof (segs_mono _ _ _ _ _ H4) as HM.
  set (T := Tag_num (ts_sp st)) in *. replace (T =? 0) with false in H1 by lia.
  set (m := mrph_data (upd_mrph i (set_m_tnum (-1)) (ts_sp st)) i).
  clearbody m. pose proof (push_facts i m) as PF.
  exists (T - 1). split; [easy|]. split; cbn [ts_sp ts_tp Mrph_num Tag_num mrph_data upd_tag upd_mrph set_tag_data set_mrph_data tag_data];
    fold T; unfold tag_segs, counted; cbn [ts_sp ts_tp Mrph_num Tag_num mrph_data upd_tag upd_mrph set_tag_data set_mrph_data tag_data]; fold T.
  - now replace (T =? 0) with false by lia.
  - easy.
  - intros j. unfold aset. destruct (Z.eqb_spec j i) as [->|Hne]; cbn.
    + rewrite H3. rewrite Hst. now rewrite !andb_false_r.
    + rewrite H3. destruct (within_spec 0 j i), (within_spec 0 j (i + 1)); auto; lia.
  - eapply segs_grow; [exact H4|lia|exact Hst| | |]; cbn; unfold aset; rewrite ?Z.eqb_refl.
    + now destruct (PF (tag_data (ts_sp st) (T - 1))) as (-> & _).
    + now destruct (PF (tag_data (ts_sp st) (T - 1))) as (_ & _ & _ & -> & _).
    + intros k Hk. now replace (k =? T - 1) with false by lia.
  - intros t Ht. assert (Ep : b_mrph_ptr (aset (tag_data (ts_sp st)) (T - 1)
        (push_tag_units i m (tag_data (ts_sp st) (T - 1))) t) = b_mrph_ptr (tag_data (ts_sp st) t)).
    { unfold aset. destruct (Z.eqb_spec t (T - 1)) as [->|]; [|easy].
      now destruct (PF (tag_data (ts_sp st) (T - 1))) as (_ & _ & _ & -> & _). }
    rewrite Ep. pose proof (HL t Ht) as L. destruct (seg_next _ _ _ _ _ H4 t Ht) as [P _].
    cbn in L, P. rewrite (aset_ne (mrph_data (ts_sp st))) by lia. destruct (H5 t Ht) as [N1 N2]. split; [|easy].
    unfold aset. destruct (Z.eqb_spec t (T - 1)) as [->|]; [|easy].
    now destruct (PF (tag_data (ts_sp st) (T - 1))) as (_ & _ & -> & _).
  - intros j Hj Hs. unfold aset. destruct (Z.eqb_spec j i); [easy|]. apply H6; auto. lia.
  - intros t Ht j. rewrite aset_ne by lia. intros Hj. rewrite aset_ne; [now apply H7|].
    pose proof (HM t (T - 1) ltac:(lia) ltac:(lia) ltac:(lia)) as M. cbn in M. lia.
  - intros t Ht. unfold aset. destruct (Z.eqb_spec t (T - 1)) as [->|]; [|auto].
    destruct (PF (tag_data (ts_sp st) (T - 1))) as (-> & -> & _). rewrite (H8 (T - 1)) by lia. lia.
Qed.

(** The morphemes after [new_tag]: those of the tag before are counted. *)
Lemma new_tag_mrphs : forall i st, mrphs_upto i st -> 0 <= i ->
  let T := Tag_num (ts_sp st) in
  let s := if T =? 0 then i else b_mrph_ptr (tag_data (ts_sp st) (T - 1)) in
  forall j, mrph_data (ts_sp (new_tag i st)) j =
    if j =? i then set_m_tnum T (set_m_f (tagged (m_f (mrph_data (ts_sp st) i))) (mrph_data (ts_sp st) i))
    else if within s j i then set_m_inum (i - 1 - j) (mrph_data (ts_sp st) j)
    else mrph_data (ts_sp st) j.
Proof.
  intros i st [H1 H2 H3 H4 H5 H6 H7 H8] Hi T s j. unfold tag_segs in *.
  pose proof (seg_cnt _ _ _ _ _ H4) as HT. fold T in HT.
  set (m0 := fun j => if j =? i then set_m_tnum T (set_m_f (tagged (m_f (mrph_data (ts_sp st) i)))
                                          (mrph_data (ts_sp st) i)) else mrph_data (ts_sp st) j).
  assert (E : mrph_data (ts_sp (new_tag i st)) j =
              count_back set_m_inum (fun m => 0 <=? m_tnum m) (rev (zrange 0 i)) 0 m0 j).
  { assert (G : forall (a b : array MRPH_DATA) js c x, (forall y, a y = b y) ->
      count_back set_m_inum (fun m => 0 <=? m_tnum m) js c a x =
      count_back set_m_inum (fun m => 0 <=? m_tnum m) js c b x).
    { intros a b js. revert a b. induction js as [|y js IH]; intros a b c x Hab; cbn [count_back]; [apply Hab|].
      rewrite !aset_eq, Hab. case_goal; [|apply IH; intros z]; unfold aset; case_goal; auto; now rewrite Hab. }
    unfold new_tag, make_mrph_set_inum, m0. cbn [ts_sp mrph_data set_mrph_data]. apply G. intros y.
    unfold tagged. destruct (has_feature (m_f (mrph_data (ts_sp st) i)) "タグ単位始"); cbn; unfold aset;
      rewrite ?Z.eqb_refl; destruct (Z.eqb_spec y i) as [->|]; auto. }
  rewrite E. unfold s. destruct (Z.eqb_spec T 0) as [HT0|HT0].
  - pose proof (seg_first _ _ _ _ _ H4) as F. fold T in F. rewrite HT0 in F. cbn in F. subst i.
    cbn. unfold m0. now destruct (Z.eqb_spec j 0), (within_spec 0 j 0); try lia.
  - pose proof (segs_last _ _ _ _ _ H4 ltac:(fold T; lia)) as [L1 L2]. fold T in L1, L2.
    destruct (H5 (T - 1) ltac:(fold T; lia)) as [_ Ht].
    rewrite count_back_at with (s := b_mrph_ptr (tag_data (ts_sp st) (T - 1))); auto; try lia.
    + unfold m0. destruct (Z.eqb_spec j i) as [->|]; [|now replace (0 + (i - 1 - j)) with (i - 1 - j) by lia].
      destruct (within_spec (b_mrph_ptr (tag_data (ts_sp st) (T - 1))) i i); [lia|easy].
    + unfold m0. destruct (Z.eqb_spec (b_mrph_ptr (tag_data (ts_sp st) (T - 1))) i); [lia|]. rewrite Ht. lia.
    + intros x Hx. unfold m0. destruct (Z.eqb_spec x i); [lia|]. rewrite H6; [easy|lia|].
      apply (seg_inside _ _ _ _ _ H4 (T - 1)); [fold T|]; lia.
Qed.

Lemma new_tag_frame : forall i st, let sp := ts_sp st in let sp' := ts_sp (new_tag i st) in
  Tag_num sp' = Tag_num sp /\ Mrph_num sp' = Mrph_num sp /\ Bnst_num sp' = Bnst_num sp /\
  bnst_data sp' = bnst_data sp /\
  tag_data sp' = aset (tag_data sp) (Tag_num sp) (set_b_mrph_ptr i (set_b_num (Tag_num sp) BNST_DATA_0)) /\
  ts_tp (new_tag i st) = Some (Tag_num sp).
Proof.
  intros i st. unfold new_tag. destruct (has_feature (m_f (mrph_data (ts_sp st) i)) "タグ単位始"); now repeat split.
Qed.

(** A new tag at morpheme [i], with its first morpheme. *)
Lemma mrphs_new : forall i st st', mrphs_upto i st -> 0 <= i -> tag_start i = true ->
  let T := Tag_num (ts_sp st) in
  ts_tp st' = Some T -> Mrph_num (ts_sp st') = Mrph_num (ts_sp st) -> Tag_num (ts_sp st') = T + 1 ->
  mrph_data (ts_sp st') = mrph_data (ts_sp (new_tag i st)) ->
  (forall t, 0 <= t < T -> let x := tag_data (ts_sp st) t in let y := tag_data (ts_sp st') t in
     b_num y = b_num x /\ b_mrph_ptr y = b_mrph_ptr x /\ b_mrph_num y = b_mrph_num x /\
     b_settou_num y = b_settou_num x /\ b_jiritu_num y = b_jiritu_num x /\ b_fuzoku_num y = b_fuzoku_num x) ->
  (let y := tag_data (ts_sp st') T in b_num y = T /\ b_mrph_ptr y = i /\ b_mrph_num y = 1 /\
     b_settou_num y + b_jiritu_num y + b_fuzoku_num y = 1) ->
  mrphs_upto (i + 1) st'.
Proof.
  intros i st st' HU Hi Hst T Etp En Et Em Ex Enew. pose proof (new_tag_mrphs i st HU Hi) as NM.
  cbv zeta in NM. fold T in NM. destruct HU as [H1 H2 H3 H4 H5 H6 H7 H8]. unfold tag_segs, counted in *. fold T in H4, H5, H7, H8.
  pose proof (seg_cnt _ _ _ _ _ H4) as HT. pose proof (segs_le _ _ _ _ _ H4) as HL.
  pose proof (segs_mono _ _ _ _ _ H4) as HM. destruct Enew as (N1 & N2 & N3 & N4).
  set (s := if T =? 0 then i else b_mrph_ptr (tag_data (ts_sp st) (T - 1))) in *.
  assert (Hs : forall t, 0 <= t < T - 1 -> b_mrph_ptr (tag_data (ts_sp st) t) + b_mrph_num (tag_data (ts_sp st) t) <= s).
  { intros t Ht. unfold s. replace (T =? 0) with false by lia. apply (HM t (T - 1)); lia. }
  split; unfold tag_segs, counted; rewrite ?Etp, ?En, ?Et.
  - replace (T + 1 =? 0) with false by lia. f_equal. lia.
  - easy.
  - intros j. rewrite Em, NM. destruct (Z.eqb_spec j i) as [->|Hne].
    + cbn. rewrite Hst. replace (within 0 i (i + 1)) with true by now destruct (within_spec 0 i (i + 1)); try lia.
      cbn. rewrite H3. destruct (within_spec 0 i i); [lia|easy].
    + replace (within 0 j (i + 1)) with (within 0 j i)
        by (destruct (within_spec 0 j i), (within_spec 0 j (i + 1)); lia || easy).
      rewrite <- H3. now destruct (within s j i).
  - eapply segs_new; [exact H4|easy|easy|easy|]. intros k Hk. destruct (Ex k Hk) as (_ & -> & -> & _). easy.
  - intros t Ht. rewrite Em, NM. destruct (Z.eq_dec t T) as [->|Hne].
    + rewrite N2, Z.eqb_refl. easy.
    + destruct (Ex t ltac:(lia)) as (-> & -> & _). destruct (H5 t ltac:(lia)) as [K1 K2]. split; [easy|].
      pose proof (HL t ltac:(lia)) as L. destruct (seg_next _ _ _ _ _ H4 t ltac:(lia)) as [P _]. cbn in L, P.
      destruct (Z.eqb_spec (b_mrph_ptr (tag_data (ts_sp st) t)) i); [lia|]. case_goal; cbn; easy.
  - intros j Hj Hs'. rewrite Em, NM. destruct (Z.eqb_spec j i); [congruence|]. rewrite <- (H6 j) by (auto; lia).
    now destruct (within s j i).
  - intros t Ht j. destruct (Ex t ltac:(lia)) as (_ & -> & -> & _). intros Hj. rewrite Em, NM.
    pose proof (HL t ltac:(lia)) as L. cbn in L. destruct (Z.eqb_spec j i); [lia|].
    destruct (Z.eq_dec t (T - 1)) as [->|Hne].
    + pose proof (segs_last _ _ _ _ _ H4 ltac:(lia)) as [L1 L2]. cbn in L2.
      destruct (within_spec s j i) as [W|W]; [cbn; lia|]. elim W. unfold s. replace (T =? 0) with false by lia. lia.
    + specialize (Hs t ltac:(lia)). destruct (within_spec s j i); [lia|]. apply H7; lia.
  - intros t Ht. destruct (Z.eq_dec t T) as [->|Hne]; [lia|].
    destruct (Ex t ltac:(lia)) as (_ & _ & -> & -> & -> & ->). apply H8. lia.
Qed.

(** The tags of the bunsetsu before are counted when the next one starts, or at the end. *)
Lemma close_tags : forall p sp, 0 <= p -> bnst_tag_segs (p + 1) sp ->
  (forall t, b_tag_ptr (bnst_data sp p) <= t < Tag_num sp -> b_inum (tag_data sp t) = 0) ->
  forall t, tag_data (if b_bnum (tag_data sp (Tag_num sp - 1)) <? 0
                      then make_tag_unit_set_inum (Tag_num sp) sp else sp) t =
    if within (b_tag_ptr (bnst_data sp p)) t (Tag_num sp)
    then set_b_inum (Tag_num sp - 1 - t) (tag_data sp t) else tag_data sp t.
Proof.
  intros p sp Hp HS Hz t. unfold bnst_tag_segs in HS. pose proof (segs_last _ _ _ _ _ HS ltac:(lia)) as [L1 L2].
  replace (p + 1 - 1) with p in * by lia. set (s := b_tag_ptr (bnst_data sp p)) in *. set (T := Tag_num sp) in *.
  pose proof (seg_start _ _ _ _ _ HS p ltac:(lia)) as Hs. cbn in Hs. fold s in Hs.
  assert (Hin : forall j, s < j < T -> (0 <=? b_bnum (tag_data sp j)) = false).
  { intros j Hj. apply (seg_inside _ _ _ _ _ HS p j); lia. }
  assert (Ez : forall b, b_inum b = 0 -> set_b_inum 0 b = b) by (intros b <-; now destruct b).
  destruct (Z.ltb_spec (b_bnum (tag_data sp (T - 1))) 0) as [Hneg|Hpos].
  - assert (s < T - 1) by (destruct (Z.eq_dec s (T - 1)) as [E|]; [rewrite <- E in Hneg|]; lia).
    unfold make_tag_unit_set_inum. cbn [tag_data set_tag_data].
    rewrite count_back_at with (s := s); auto; try lia; [|intros; apply Hin; lia].
    destruct (within_spec s t (T - 1)), (within_spec s t T); try lia; auto.
    + f_equal. lia.
    + replace t with (T - 1) by lia. rewrite Z.sub_diag. symmetry. apply Ez, Hz. lia.
  - assert (s = T - 1) by (destruct (Z.eq_dec s (T - 1)); [easy|]; specialize (Hin (T - 1) ltac:(lia)); lia).
    destruct (within_spec s t T); [|easy]. replace t with (T - 1) by lia.
    rewrite Z.sub_diag. symmetry. apply Ez, Hz. lia.
Qed.

(** A new tag that starts bunsetsu [p + 1]. *)
Lemma bnsts_join : forall i p st st', bnsts_upto i p st -> 0 <= i -> bnst_ptr (p + 1) = i ->
  p + 1 < Bnst_num sp0 -> 0 <= Tag_num (ts_sp st) ->
  let T := Tag_num (ts_sp st) in
  ts_bp st' = (if p + 1 + 1 <? Bnst_num sp0 then Some (p + 1 + 1) else None) ->
  ts_pre_bp st' = Some (p + 1) -> Bnst_num (ts_sp st') = Bnst_num (ts_sp st) -> Tag_num (ts_sp st') = T + 1 ->
  (forall k, bnst_data (ts_sp st') k =
     if k =? p + 1 then set_b_tag_num 1 (set_b_tag_ptr T (bnst_data (ts_sp st) k)) else bnst_data (ts_sp st) k) ->
  (forall t, 0 <= t < T -> let x := tag_data (ts_sp st) t in let y := tag_data (ts_sp st') t in
     b_bnum y = b_bnum x /\ b_mrph_ptr y = b_mrph_ptr x /\ b_b_ptr y = b_b_ptr x /\
     b_inum y = if (0 <=? p) && within (b_tag_ptr (bnst_data (ts_sp st) p)) t T then T - 1 - t else b_inum x) ->
  (let y := tag_data (ts_sp st') T in
     b_bnum y = p + 1 /\ b_mrph_ptr y = i /\ b_b_ptr y = p + 1 /\ b_inum y = 0) ->
  bnsts_upto (i + 1) (p + 1) st'.
Proof.
  intros i p st st' [H1 H2 H3 H4 H5 H6 H7 H8 H9 H10 H11] Hi Hptr Hlt H0 T Eb Ep En Et Ed Ex (N1 & N2 & N3 & N4).
  unfold bnst_tag_segs, counted in *. fold T in H0, H7, H11. pose proof (segs_le _ _ _ _ _ H7) as HL.
  assert (Hnum : 0 < bnst_num (p + 1)) by (destruct bnsts as [HS _]; apply (seg_next _ _ _ _ _ HS (p + 1)); lia).
  pose proof (segs_mono _ _ _ _ _ H7) as HM.
  split; unfold bnst_tag_segs, counted; rewrite ?Ep, ?En, ?Et; auto; try lia.
  - replace (p + 1 =? -1) with false by lia. lia.
  - now replace (p + 1 =? -1) with false by lia.
  - intros k. rewrite Ed. destruct (Z.eqb_spec k (p + 1)); apply H6.
  - eapply segs_new.
    + eapply segs_ext; [exact H7| |intros; split; reflexivity].
      intros t Ht. now destruct (Ex t Ht) as (-> & _).
    + cbn. rewrite N1. lia.
    + cbn. now rewrite Ed, Z.eqb_refl.
    + cbn. now rewrite Ed, Z.eqb_refl.
    + intros k Hk. rewrite Ed. now replace (k =? p + 1) with false by lia.
  - intros k Hk. rewrite Ed. destruct (Z.eqb_spec k (p + 1)) as [->|]; [cbn; rewrite N1, N2; now rewrite Hptr|].
    pose proof (HL k ltac:(lia)) as L. destruct (seg_next _ _ _ _ _ H7 k ltac:(lia)) as [P _]. cbn in L, P.
    destruct (Ex (b_tag_ptr (bnst_data (ts_sp st) k)) ltac:(lia)) as (-> & -> & _). apply H8. lia.
  - intros k t Hk. rewrite Ed. destruct (Z.eqb_spec k (p + 1)) as [->|]; cbn.
    + intros Ht. now replace t with T by lia.
    + intros Ht. pose proof (HL k ltac:(lia)) as L. cbn in L. destruct (Ex t ltac:(lia)) as (_ & _ & -> & _).
      apply (H9 k t); lia.
  - intros k Hk t. rewrite Ed. replace (k =? p + 1) with false by lia. intros Ht.
    pose proof (HL k ltac:(lia)) as L. cbn in L. destruct (Ex t ltac:(lia)) as (_ & _ & _ & ->).
    replace (0 <=? p) with true by lia. cbn.
    destruct (Z.eq_dec k p) as [->|Hne].
    + destruct (segs_last _ _ _ _ _ H7 ltac:(lia)) as [L1 L2]. replace (p + 1 - 1) with p in * by lia. cbn in L2.
      destruct (within_spec (b_tag_ptr (bnst_data (ts_sp st) p)) t T); lia.
    + pose proof (HM k p ltac:(lia) ltac:(lia) ltac:(lia)) as M. cbn in M.
      destruct (within_spec (b_tag_ptr (bnst_data (ts_sp st) p)) t T); [lia|]. apply (H10 k); lia.
  - intros _ t. rewrite Ed, Z.eqb_refl. cbn. intros Ht. now replace t with T by lia.
Qed.

(** A new tag inside bunsetsu [p]. *)
Lemma bnsts_inside : forall i p st st', bnsts_upto i p st -> 0 <= p -> i < bnst_ptr p + bnst_num p ->
  let T := Tag_num (ts_sp st) in
  ts_bp st' = ts_bp st -> ts_pre_bp st' = ts_pre_bp st -> Bnst_num (ts_sp st') = Bnst_num (ts_sp st) ->
  Tag_num (ts_sp st') = T + 1 ->
  (forall k, bnst_data (ts_sp st') k =
     if k =? p then set_b_tag_num (b_tag_num (bnst_data (ts_sp st) k) + 1) (bnst_data (ts_sp st) k)
     else bnst_data (ts_sp st) k) ->
  (forall t, 0 <= t < T -> let x := tag_data (ts_sp st) t in let y := tag_data (ts_sp st') t in
     b_bnum y = b_bnum x /\ b_mrph_ptr y = b_mrph_ptr x /\ b_b_ptr y = b_b_ptr x /\ b_inum y = b_inum x) ->
  (let y := tag_data (ts_sp st') T in b_bnum y = -1 /\ b_b_ptr y = p /\ b_inum y = 0) ->
  bnsts_upto (i + 1) p st'.
Proof.
  intros i p st st' [H1 H2 H3 H4 H5 H6 H7 H8 H9 H10 H11] Hp Hi T Eb Ep En Et Ed Ex (N1 & N2 & N3).
  unfold bnst_tag_segs, counted in *. fold T in H7, H11. pose proof (segs_le _ _ _ _ _ H7) as HL.
  destruct (segs_last _ _ _ _ _ H7 ltac:(lia)) as [L1 L2]. replace (p + 1 - 1) with p in * by lia. cbn in L1, L2.
  assert (Et' : forall k, b_tag_ptr (bnst_data (ts_sp st') k) = b_tag_ptr (bnst_data (ts_sp st) k)).
  { intros k. rewrite Ed. now destruct (k =? p). }
  assert (En' : forall k, b_tag_num (bnst_data (ts_sp st') k) =
                          if k =? p then b_tag_num (bnst_data (ts_sp st) k) + 1 else b_tag_num (bnst_data (ts_sp st) k)).
  { intros k. rewrite Ed. now destruct (k =? p). }
  split; unfold bnst_tag_segs, counted; rewrite ?Eb, ?Ep, ?En, ?Et; auto; try lia.
  - destruct (Z.eqb_spec p (-1)); lia.
  - intros k. rewrite Ed. destruct (Z.eqb_spec k p); apply H6.
  - eapply segs_grow.
    + eapply segs_ext; [exact H7| |intros; split; reflexivity].
      intros t Ht. now destruct (Ex t Ht) as (-> & _).
    + lia.
    + cbn. now rewrite N1.
    + replace (p + 1 - 1) with p by lia. cbn. now rewrite En', Z.eqb_refl.
    + cbn. apply Et'.
    + intros k Hk. rewrite Et', En'. now replace (k =? p) with false by lia.
  - intros k Hk. rewrite Et'. pose proof (HL k ltac:(lia)) as L. destruct (seg_next _ _ _ _ _ H7 k ltac:(lia)) as [P _].
    cbn in L, P. destruct (Ex (b_tag_ptr (bnst_data (ts_sp st) k)) ltac:(lia)) as (-> & -> & _). apply H8. lia.
  - intros k t Hk. rewrite Et', En'. intros Ht. pose proof (HL k ltac:(lia)) as L. cbn in L.
    destruct (Z.eqb_spec k p) as [->|].
    + destruct (Z.eq_dec t T) as [->|]; [easy|]. destruct (Ex t ltac:(lia)) as (_ & _ & -> & _). apply (H9 p t); lia.
    + destruct (Ex t ltac:(lia)) as (_ & _ & -> & _). apply (H9 k t); lia.
  - intros k Hk t. rewrite Et', En'. replace (k =? p) with false by lia. intros Ht.
    pose proof (HL k ltac:(lia)) as L. cbn in L. destruct (Ex t ltac:(lia)) as (_ & _ & _ & ->). apply (H10 k); lia.
  - intros _ t. rewrite Et'. intros Ht. destruct (Z.eq_dec t T) as [->|]; [easy|].
    destruct (Ex t ltac:(lia)) as (_ & _ & _ & ->). apply H11; lia.
Qed.

Definition fresh_tag (i t : Z) : BNST_DATA := set_b_mrph_ptr i (set_b_num t BNST_DATA_0).

Lemma join_facts : forall i p st, bnsts_upto i p st -> p + 1 < Bnst_num sp0 -> 0 <= Tag_num (ts_sp st) ->
  let T := Tag_num (ts_sp st) in
  let st' := join_bnst T (p + 1) (new_tag i st) in
  ts_tp st' = Some T /\ mrph_data (ts_sp st') = mrph_data (ts_sp (new_tag i st)) /\
  Mrph_num (ts_sp st') = Mrph_num (ts_sp st) /\ Tag_num (ts_sp st') = T /\
  Bnst_num (ts_sp st') = Bnst_num (ts_sp st) /\
  ts_bp st' = (if p + 1 + 1 <? Bnst_num sp0 then Some (p + 1 + 1) else None) /\
  ts_pre_bp st' = Some (p + 1) /\
  (forall k, bnst_data (ts_sp st') k =
     if k =? p + 1 then set_b_tag_num 1 (set_b_tag_ptr T (bnst_data (ts_sp st) k)) else bnst_data (ts_sp st) k) /\
  (forall t, 0 <= t < T -> tag_data (ts_sp st') t =
     if (0 <=? p) && within (b_tag_ptr (bnst_data (ts_sp st) p)) t T
     then set_b_inum (T - 1 - t) (tag_data (ts_sp st) t) else tag_data (ts_sp st) t) /\
  tag_data (ts_sp st') T = set_b_b_ptr (p + 1) (set_b_bnum (p + 1) (fresh_tag i T)).
Proof.
  intros i p st HU Hlt HT T st'. destruct HU as [H1 _ _ _ H5 H6 H7 _ _ _ H11]. fold T in HT, H11.
  destruct (new_tag_frame i st) as (F1 & F2 & F3 & F4 & F5 & F6). fold T in F1, F5, F6.
  assert (Hnum : b_num (bnst_data (ts_sp st) (p + 1)) = p + 1).
  { destruct (H6 (p + 1)) as (_ & _ & ->). destruct bnsts as [_ Hn]. apply Hn. lia. }
  set (sp1 := ts_sp (new_tag i st)) in *.
  set (sp2 := if (0 <? Tag_num sp1) && (b_bnum (tag_data sp1 (T - 1)) <? 0)
              then make_tag_unit_set_inum (Tag_num sp1) sp1 else sp1).
  assert (Hfr : mrph_data sp2 = mrph_data sp1 /\ Mrph_num sp2 = Mrph_num sp1 /\ Tag_num sp2 = Tag_num sp1 /\
                Bnst_num sp2 = Bnst_num sp1 /\ bnst_data sp2 = bnst_data sp1).
  { unfold sp2. now destruct ((0 <? Tag_num sp1) && (b_bnum (tag_data sp1 (T - 1)) <? 0)). }
  destruct Hfr as (G1 & G2 & G3 & G4 & G5).
  assert (Htags : forall t, tag_data sp2 t =
     if (0 <=? p) && within (b_tag_ptr (bnst_data (ts_sp st) p)) t T
     then set_b_inum (T - 1 - t) (tag_data sp1 t) else tag_data sp1 t).
  { intros t. unfold sp2. rewrite F1. destruct (Z.leb_spec 0 p) as [Hp|Hp].
    - assert (0 < T).
      { unfold bnst_tag_segs in H7. destruct (segs_last _ _ _ _ _ H7 ltac:(lia)). fold T in H. lia. }
      replace (0 <? T) with true by lia. cbn [andb].
      pose proof (close_tags p sp1 Hp) as C. rewrite F1, F4 in C. apply C.
      + unfold bnst_tag_segs in *. rewrite F1. eapply segs_ext; [exact H7| |rewrite F4; intros; split; reflexivity].
        intros x Hx. fold T in Hx. now rewrite F5, aset_ne by lia.
      + intros x Hx. rewrite F5, aset_ne by lia. apply H11; lia.
    - assert (T = 0).
      { unfold bnst_tag_segs in H7. pose proof (seg_first _ _ _ _ _ H7) as Z0. fold T in Z0.
        now replace (p + 1 =? 0) with true in Z0 by lia. }
      now replace (0 <? T) with false by lia. }
  unfold st', join_bnst. fold sp1. fold sp2. cbn -[new_tag].
  assert (Hp1 : b_num (aset (bnst_data sp2) (p + 1)
                  (set_b_tag_num 1 (set_b_tag_ptr T (bnst_data sp2 (p + 1)))) (p + 1)) = p + 1).
  { rewrite aset_eq. cbn. rewrite G5, F4. easy. }
  rewrite Hp1, F6, G1, G2, G3, G4, G5, F1, F2, F3, F4. repeat (split; [reflexivity|]).
  split; [|split; [|split]].
  - rewrite H5. destruct (Z.ltb_spec (p + 1) (Bnst_num sp0 - 1)), (Z.ltb_spec (p + 1 + 1) (Bnst_num sp0)); easy || lia.
  - easy.
  - intros k. unfold aset. now destruct (Z.eqb_spec k (p + 1)) as [->|].
  - split.
    + intros t Ht. rewrite aset_ne by lia. rewrite Htags, F5. now rewrite !aset_ne by lia.
    + rewrite aset_eq, Htags, F5, aset_eq. rewrite Hnum.
      destruct (within_spec (b_tag_ptr (bnst_data (ts_sp st) p)) T T); [lia|]. now rewrite andb_false_r.
Qed.

(** The state after a new tag has been filled: [st1] is the state after [join_bnst] or
    [inside_bnst]. *)
Definition filled (i T : Z) (st1 : tag_state) : tag_state :=
  mkTS (ts_bp st1) (ts_pre_bp st1) (Some T)
    (upd_tag T (push_tag_units i (mrph_data (ts_sp st1) i)) (set_Tag_num (T + 1) (ts_sp st1))).

Lemma filled_tag : forall i T st1 t, tag_data (ts_sp (filled i T st1)) t =
  if t =? T then push_tag_units i (mrph_data (ts_sp st1) i) (tag_data (ts_sp st1) T) else tag_data (ts_sp st1) t.
Proof. reflexivity. Qed.

Lemma filled_frame : forall i T st1, let st' := filled i T st1 in
  ts_tp st' = Some T /\ ts_bp st' = ts_bp st1 /\ ts_pre_bp st' = ts_pre_bp st1 /\
  Mrph_num (ts_sp st') = Mrph_num (ts_sp st1) /\ Bnst_num (ts_sp st') = Bnst_num (ts_sp st1) /\
  Tag_num (ts_sp st') = T + 1 /\ mrph_data (ts_sp st') = mrph_data (ts_sp st1) /\
  bnst_data (ts_sp st') = bnst_data (ts_sp st1).
Proof. intros. repeat split. Qed.

Lemma tag_mrph_new : forall i st st1, tag_start i = true ->
  has_feature (m_f (mrph_data (ts_sp st) i)) "タグ単位始" || at_bnst st i = tag_start i ->
  match (if at_bnst st i then ts_bp st else None), ts_pre_bp st with
  | Some b, _ => Ret (join_bnst (Tag_num (ts_sp st)) b (new_tag i st))
  | None, Some p => Ret (inside_bnst (Tag_num (ts_sp st)) p (new_tag i st))
  | None, None => Err BadPointer
  end = Ret st1 -> ts_tp st1 = Some (Tag_num (ts_sp st)) ->
  tag_mrph i st = Ret (filled i (Tag_num (ts_sp st)) st1).
Proof.
  intros i st st1 Hst Hf E Htp. unfold tag_mrph, start_tag. rewrite Hf, Hst, E. cbn [ts_tp]. now rewrite Htp.
Qed.

(** A tag that starts a bunsetsu. *)
Lemma step_join : forall i p st, 0 <= i -> mrphs_upto i st -> bnsts_upto i p st -> tag_start i = true ->
  p + 1 < Bnst_num sp0 -> bnst_ptr (p + 1) = i ->
  let st' := filled i (Tag_num (ts_sp st)) (join_bnst (Tag_num (ts_sp st)) (p + 1) (new_tag i st)) in
  mrphs_upto (i + 1) st' /\ bnsts_upto (i + 1) (p + 1) st'.
Proof.
  intros i p st Hi HM HB Hst Hlt Hptr. pose proof (seg_cnt _ _ _ _ _ (mu_segs _ _ HM)) as HT.
  destruct (join_facts i p st HB Hlt HT) as (J1 & J2 & J3 & J4 & J5 & J6 & J7 & J8 & J9 & J10).
  set (T := Tag_num (ts_sp st)) in *. set (st1 := join_bnst T (p + 1) (new_tag i st)) in *. clearbody st1.
  destruct (filled_frame i T st1) as (G1 & G2 & G3 & G4 & G5 & G6 & G7 & G8).
  pose proof (filled_tag i T st1) as GT. set (st' := filled i T st1) in *. clearbody st'.
  destruct (push_facts i (mrph_data (ts_sp st1) i) (tag_data (ts_sp st1) T)) as (P1 & P2 & P3 & P4 & P5 & P6 & P7).
  set (tp := push_tag_units i (mrph_data (ts_sp st1) i) (tag_data (ts_sp st1) T)) in *. clearbody tp.
  rewrite J10 in P1, P2, P3, P4, P5, P6, P7.
  assert (Hold : forall t, 0 <= t < T -> tag_data (ts_sp st') t =
     if (0 <=? p) && within (b_tag_ptr (bnst_data (ts_sp st) p)) t T
     then set_b_inum (T - 1 - t) (tag_data (ts_sp st) t) else tag_data (ts_sp st) t).
  { intros t Ht. rewrite GT. replace (t =? T) with false by lia. auto. }
  assert (Hnew : tag_data (ts_sp st') T = tp) by (rewrite GT, Z.eqb_refl; reflexivity).
  split.
  - apply (mrphs_new i st); auto; try congruence.
    + intros t Ht. cbv zeta. rewrite (Hold t Ht).
      destruct ((0 <=? p) && within (b_tag_ptr (bnst_data (ts_sp st) p)) t T); repeat split.
    + cbv zeta. fold T. rewrite Hnew, P1, P2, P3, P4. repeat split.
  - apply (bnsts_join i p st); auto; try congruence.
    + intros k. rewrite G8. apply J8.
    + intros t Ht. cbv zeta. fold T in Ht |- *. rewrite (Hold t Ht).
      destruct ((0 <=? p) && within (b_tag_ptr (bnst_data (ts_sp st) p)) t T); repeat split.
    + cbv zeta. fold T. rewrite Hnew, P4, P5, P6, P7. repeat split.
Qed.

(** A tag inside a bunsetsu. *)
Lemma step_inside : forall i p st, 0 <= i -> mrphs_upto i st -> bnsts_upto i p st -> tag_start i = true ->
  0 <= p -> i < bnst_ptr p + bnst_num p ->
  let st' := filled i (Tag_num (ts_sp st)) (inside_bnst (Tag_num (ts_sp st)) p (new_tag i st)) in
  mrphs_upto (i + 1) st' /\ bnsts_upto (i + 1) p st'.
Proof.
  intros i p st Hi HM HB Hst Hp Hin.
  destruct (new_tag_frame i st) as (F1 & F2 & F3 & F4 & F5 & F6).
  set (T := Tag_num (ts_sp st)) in *. set (st1 := inside_bnst T p (new_tag i st)) in *.
  assert (J1 : ts_tp st1 = Some T) by (rewrite <- F6; reflexivity).
  assert (J2 : ts_bp st1 = ts_bp st /\ ts_pre_bp st1 = ts_pre_bp st) by (split; reflexivity).
  assert (J3 : mrph_data (ts_sp st1) = mrph_data (ts_sp (new_tag i st))) by reflexivity.
  assert (J4 : Mrph_num (ts_sp st1) = Mrph_num (ts_sp st)) by (rewrite <- F2; reflexivity).
  assert (J5 : Bnst_num (ts_sp st1) = Bnst_num (ts_sp st)) by (rewrite <- F3; reflexivity).
  assert (J6 : forall k, bnst_data (ts_sp st1) k =
     if k =? p then set_b_tag_num (b_tag_num (bnst_data (ts_sp st) k) + 1) (bnst_data (ts_sp st) k)
     else bnst_data (ts_sp st) k).
  { intros k. rewrite <- F4. unfold st1, inside_bnst. cbn [ts_sp]. rewrite upd_bnst_at.
    destruct (Z.eqb_spec k p) as [->|]; reflexivity. }
  assert (J7 : forall t, tag_data (ts_sp st1) t =
     if t =? T then set_b_b_ptr p (set_b_bnum (-1) (fresh_tag i T)) else tag_data (ts_sp st) t).
  { intros t. unfold st1, inside_bnst. cbn [ts_sp upd_bnst set_bnst_data tag_data upd_tag set_tag_data].
    rewrite F5. unfold aset. rewrite Z.eqb_refl. destruct (Z.eqb_spec t T); reflexivity. }
  clearbody st1. destruct J2 as [J2 J2'].
  destruct (filled_frame i T st1) as (G1 & G2 & G3 & G4 & G5 & G6 & G7 & G8).
  pose proof (filled_tag i T st1) as GT. set (st' := filled i T st1) in *. clearbody st'.
  destruct (push_facts i (mrph_data (ts_sp st1) i) (tag_data (ts_sp st1) T)) as (P1 & P2 & P3 & P4 & P5 & P6 & P7).
  set (tp := push_tag_units i (mrph_data (ts_sp st1) i) (tag_data (ts_sp st1) T)) in *. clearbody tp.
  rewrite (J7 T), Z.eqb_refl in P1, P2, P3, P4, P5, P6, P7.
  assert (Hold : forall t, 0 <= t < T -> tag_data (ts_sp st') t = tag_data (ts_sp st) t).
  { intros t Ht. rewrite GT, J7. now replace (t =? T) with false by lia. }
  assert (Hnew : tag_data (ts_sp st') T = tp) by (rewrite GT, Z.eqb_refl; reflexivity).
  split.
  - apply (mrphs_new i st); auto; try congruence.
    + intros t Ht. cbv zeta. rewrite (Hold t Ht). repeat split.
    + cbv zeta. fold T. rewrite Hnew, P1, P2, P3, P4. repeat split.
  - apply (bnsts_inside i p st); auto; try congruence.
    + intros k. rewrite G8. apply J6.
    + intros t Ht. cbv zeta. fold T in Ht |- *. rewrite (Hold t Ht). repeat split.
    + cbv zeta. fold T. rewrite Hnew, P5, P6, P7. repeat split.
Qed.

(** One morpheme. *)
Lemma tag_mrph_step : forall i p st, 0 <= i < Mrph_num sp0 -> mrphs_upto i st -> bnsts_upto i p st ->
  exists p' st', tag_mrph i st = Ret st' /\ mrphs_upto (i + 1) st' /\ bnsts_upto (i + 1) p' st'.
Proof.
  intros i p st Hi HM HB. destruct (at_bnst_spec i p st HB Hi) as [Hat Hcase].
  assert (Hf : has_feature (m_f (mrph_data (ts_sp st) i)) "タグ単位始" || at_bnst st i = tag_start i).
  { rewrite (mu_f _ _ HM). destruct (within_spec 0 i i); [lia|]. cbn [andb]. rewrite Hat. reflexivity. }
  pose proof (seg_cnt _ _ _ _ _ (mu_segs _ _ HM)) as HT.
  destruct (tag_start i) eqn:Hst.
  - destruct (bs i) eqn:Hbs.
    + destruct Hcase as (Hlt & Hptr & Hbp). exists (p + 1). eexists. split.
      * apply tag_mrph_new; [exact Hst|congruence|rewrite Hat, Hbp; reflexivity|].
        apply (join_facts i p st HB Hlt HT).
      * apply step_join; auto. lia.
    + destruct Hcase as (Hp & Hin). exists p. eexists. split.
      * apply tag_mrph_new; [exact Hst|congruence| |].
        { rewrite Hat, (bu_pre _ _ _ HB). replace (p =? -1) with false by lia. reflexivity. }
        apply (new_tag_frame i st).
      * apply step_inside; auto. lia.
  - assert (Hbs : bs i = false) by (unfold tag_start in Hst; apply orb_false_iff in Hst; apply Hst).
    rewrite Hbs in Hcase. destruct Hcase as (Hp & Hin).
    assert (H0 : 0 < i).
    { pose proof (bu_i _ _ _ HB) as B. replace (p =? -1) with false in B by lia.
      destruct bnsts as [HS _]. pose proof (segs_le _ _ _ _ _ HS p ltac:(pose proof (bu_p _ _ _ HB); lia)) as L.
      unfold bnst_ptr in B. cbn in L. lia. }
    destruct (mrphs_inside i st HM H0 Hst) as (t & Htp & HM').
    exists p. eexists. split; [unfold tag_mrph; rewrite Hf; cbn [ts_tp]; rewrite Htp; reflexivity|].
    rewrite Htp in HM'. split; [exact HM'|].
    eapply bnsts_upto_cong with (st := mkTS (ts_bp st) (ts_pre_bp st) (ts_tp st) (ts_sp st)); try reflexivity.
    + destruct HB as [B1 B2 B3 B4 B5 B6 B7 B8 B9 B10 B11]. split; auto. destruct (Z.eqb_spec p (-1)); lia.
    + intros x. cbv zeta. cbn [ts_sp]. rewrite upd_tag_at. destruct (Z.eqb_spec x t) as [->|]; [|repeat split].
      set (m := mrph_data (upd_mrph i (set_m_tnum (-1)) (ts_sp st)) i). clearbody m.
      destruct (push_facts i m (tag_data (ts_sp st) t)) as (_ & _ & _ & P4 & P5 & P6 & P7).
      cbn [ts_sp tag_data upd_mrph set_mrph_data]. rewrite P4, P5, P6, P7. repeat split.
Qed.

(** What [make_tag_units] leaves behind. *)
Record tag_units (sp : SENTENCE_DATA) : Prop := {
  tg_bnst : Bnst_num sp = Bnst_num sp0 /\ forall k, b_mrph_ptr (bnst_data sp k) = bnst_ptr k /\
              b_mrph_num (bnst_data sp k) = bnst_num k;
  tg_f : forall i, 0 <= i < Mrph_num sp0 -> m_f (mrph_data sp i) =
           if tag_start i then tagged (m_f (mrph_data sp0 i)) else m_f (mrph_data sp0 i);
  tg_segs : tag_segs (Mrph_num sp0) sp;
  tg_words : forall t, 0 <= t < Tag_num sp ->
      b_settou_num (tag_data sp t) + b_jiritu_num (tag_data sp t) + b_fuzoku_num (tag_data sp t) =
      b_mrph_num (tag_data sp t);
  tg_tnum : forall t, 0 <= t < Tag_num sp -> b_num (tag_data sp t) = t /\
              m_tnum (mrph_data sp (b_mrph_ptr (tag_data sp t))) = t;
  tg_minum : forall t, 0 <= t < Tag_num sp ->
      counted (fun t => b_mrph_ptr (tag_data sp t)) (fun t => b_mrph_num (tag_data sp t))
        (fun j => m_inum (mrph_data sp j)) t;
  tg_btags : bnst_tag_segs (Bnst_num sp0) sp;
  tg_head : forall k, 0 <= k < Bnst_num sp0 -> let t := b_tag_ptr (bnst_data sp k) in
      b_bnum (tag_data sp t) = k /\ b_mrph_ptr (tag_data sp t) = bnst_ptr k;
  tg_own : forall k t, 0 <= k < Bnst_num sp0 ->
      b_tag_ptr (bnst_data sp k) <= t < b_tag_ptr (bnst_data sp k) + b_tag_num (bnst_data sp k) ->
      b_b_ptr (tag_data sp t) = k;
  tg_inum : forall k, 0 <= k < Bnst_num sp0 ->
      counted (fun k => b_tag_ptr (bnst_data sp k)) (fun k => b_tag_num (bnst_data sp k))
        (fun t => b_inum (tag_data sp t)) k
}.

Lemma tags_start : 0 < Mrph_num sp0 ->
  let st := mkTS (Some 0) None None (set_Tag_num 0 sp0) in mrphs_upto 0 st /\ bnsts_upto 0 (-1) st.
Proof.
  intros HN st. destruct bnsts as [HS Hnum]. pose proof (segs_pos _ _ _ _ _ HS HN) as HB. subst st. split; split;
    unfold tag_segs, bnst_tag_segs; cbn [ts_sp ts_tp ts_bp ts_pre_bp Tag_num set_Tag_num Bnst_num Mrph_num mrph_data
      bnst_data tag_data]; try reflexivity; try lia; intros; try lia.
  - destruct (within_spec 0 j 0); [lia|reflexivity].
  - apply segs_empty.
  - now replace (-1 + 1 <? Bnst_num sp0) with true by lia.
  - repeat split.
  - apply segs_empty.
Qed.

(** The loop ends in the last bunsetsu. *)
Lemma tags_end : forall p st, 0 < Mrph_num sp0 -> bnsts_upto (Mrph_num sp0) p st -> p = Bnst_num sp0 - 1.
Proof.
  intros p st HN [H1 H2 _ _ _ _ _ _ _ _ _]. destruct bnsts as [HS _].
  destruct (Z.eqb_spec p (-1)); [lia|]. destruct (Z.eq_dec p (Bnst_num sp0 - 1)); [easy|].
  destruct (seg_next _ _ _ _ _ HS p ltac:(lia)) as [_ N]. replace (p + 1 =? Bnst_num sp0) with false in N by lia.
  destruct (seg_next _ _ _ _ _ HS (p + 1) ltac:(lia)) as [P _].
  pose proof (segs_le _ _ _ _ _ HS (p + 1) ltac:(lia)) as L. cbn in L, N, P.
  unfold bnst_ptr, bnst_num in H2. lia.
Qed.

(** The last tag is counted at the end. *)
Lemma count_last : forall st, mrphs_upto (Mrph_num sp0) st -> 0 < Mrph_num sp0 ->
  let s := b_mrph_ptr (tag_data (ts_sp st) (Tag_num (ts_sp st) - 1)) in
  forall j, count_back set_m_inum (fun m => 0 <=? m_tnum m) (rev (zrange 0 (Mrph_num sp0))) 0
              (mrph_data (ts_sp st)) j =
    if within s j (Mrph_num sp0) then set_m_inum (Mrph_num sp0 - 1 - j) (mrph_data (ts_sp st) j)
    else mrph_data (ts_sp st) j.
Proof.
  intros st [_ _ _ H4 H5 H6 _ _] HN s j. unfold tag_segs in H4.
  pose proof (segs_pos _ _ _ _ _ H4 HN) as HT. pose proof (segs_last _ _ _ _ _ H4 HT) as [L1 L2]. fold s in L1, L2.
  destruct (H5 (Tag_num (ts_sp st) - 1) ltac:(lia)) as [_ Ht]. fold s in Ht.
  rewrite count_back_at with (s := s); try reflexivity; try lia.
  intros x Hx. rewrite H6; [easy|lia|]. apply (seg_inside _ _ _ _ _ H4 (Tag_num (ts_sp st) - 1)); fold s; lia.
Qed.

Lemma make_tag_units_ok : 0 < Mrph_num sp0 -> exists sp', make_tag_units sp0 = Ret sp' /\ tag_units sp'.
Proof.
  intros HN. unfold make_tag_units.
  destruct (for_res_total (fun i st => mrphs_upto i st /\ exists p, bnsts_upto i p st) tag_mrph 0 (Mrph_num sp0)
              (mkTS (Some 0) None None (set_Tag_num 0 sp0))) as [st [E [HM [p HB]]]].
  - lia.
  - intros i st Hi [HM [p HB]]. destruct (tag_mrph_step i p st Hi HM HB) as (p' & st' & E & HM' & HB'). eauto.
  - destruct (tags_start HN). eauto.
  - change (Mrph_num (set_Tag_num 0 sp0)) with (Mrph_num sp0). rewrite E.
    pose proof (tags_end p st HN HB) as ->. pose proof (count_last st HM HN) as HC. cbv zeta in HC.
    destruct HM as [M1 M2 M3 M4 M5 M6 M7 M8]. destruct HB as [B1 B2 B3 B4 B5 B6 B7 B8 B9 B10 B11].
    replace (Bnst_num sp0 - 1 + 1) with (Bnst_num sp0) in B7 by lia.
    pose proof (segs_pos _ _ _ _ _ M4 HN) as HT. replace (Tag_num (ts_sp st) <=? 0) with false by lia.
    assert (HBp : 0 < Bnst_num sp0) by (destruct bnsts as [HS _]; apply (segs_pos _ _ _ _ _ HS HN)).
    pose proof (close_tags (Bnst_num sp0 - 1) (ts_sp st) ltac:(lia)) as CT.
    replace (Bnst_num sp0 - 1 + 1) with (Bnst_num sp0) in CT by lia. specialize (CT B7 (B11 ltac:(lia))).
    set (sp1 := if b_bnum (tag_data (ts_sp st) (Tag_num (ts_sp st) - 1)) <? 0
                then make_tag_unit_set_inum (Tag_num (ts_sp st)) (ts_sp st) else ts_sp st) in *.
    assert (HF : mrph_data sp1 = mrph_data (ts_sp st) /\ Mrph_num sp1 = Mrph_num (ts_sp st) /\
                 Tag_num sp1 = Tag_num (ts_sp st) /\ Bnst_num sp1 = Bnst_num (ts_sp st) /\
                 bnst_data sp1 = bnst_data (ts_sp st)).
    { unfold sp1. destruct (b_bnum (tag_data (ts_sp st) (Tag_num (ts_sp st) - 1)) <? 0); repeat split. }
    destruct HF as (F1 & F2 & F3 & F4 & F5). clearbody sp1.
    eexists. split; [reflexivity|]. rewrite F2, M2. set (sp2 := make_mrph_set_inum (Mrph_num sp0) sp1).
    assert (E2 : forall j, mrph_data sp2 j =
       if within (b_mrph_ptr (tag_data (ts_sp st) (Tag_num (ts_sp st) - 1))) j (Mrph_num sp0)
       then set_m_inum (Mrph_num sp0 - 1 - j) (mrph_data (ts_sp st) j) else mrph_data (ts_sp st) j).
    { intros j. unfold sp2, make_mrph_set_inum. cbn [mrph_data set_mrph_data]. rewrite F1. apply HC. }
    assert (ET : forall t, let x := tag_data (ts_sp st) t in let y := tag_data sp2 t in
       b_bnum y = b_bnum x /\ b_mrph_ptr y = b_mrph_ptr x /\ b_b_ptr y = b_b_ptr x /\ b_num y = b_num x /\
       b_mrph_num y = b_mrph_num x /\ b_settou_num y = b_settou_num x /\ b_jiritu_num y = b_jiritu_num x /\
       b_fuzoku_num y = b_fuzoku_num x).
    { intros t. cbv zeta. unfold sp2, make_mrph_set_inum. cbn [tag_data set_mrph_data]. rewrite CT.
      destruct (within _ t _); repeat split. }
    assert (EM : forall j, m_f (mrph_data sp2 j) = m_f (mrph_data (ts_sp st) j) /\
                           m_tnum (mrph_data sp2 j) = m_tnum (mrph_data (ts_sp st) j)).
    { intros j. rewrite E2. destruct (within _ j _); repeat split. }
    assert (EB : bnst_data sp2 = bnst_data (ts_sp st) /\ Tag_num sp2 = Tag_num (ts_sp st) /\
                 Bnst_num sp2 = Bnst_num (ts_sp st)) by (rewrite <- F5, <- F3, <- F4; repeat split).
    assert (EI : forall t, b_inum (tag_data sp2 t) =
       if within (b_tag_ptr (bnst_data (ts_sp st) (Bnst_num sp0 - 1))) t (Tag_num (ts_sp st))
       then Tag_num (ts_sp st) - 1 - t else b_inum (tag_data (ts_sp st) t)).
    { intros t. unfold sp2, make_mrph_set_inum. cbn [tag_data set_mrph_data]. rewrite CT.
      destruct (within _ t _); reflexivity. }
    clearbody sp2. destruct EB as (EB & ETn & EBn).
    unfold tag_segs, bnst_tag_segs, counted in *.
    pose proof (segs_mono _ _ _ _ _ M4) as MM. pose proof (segs_last _ _ _ _ _ M4 HT) as [ML1 ML2].
    pose proof (segs_mono _ _ _ _ _ B7) as BM. pose proof (segs_last _ _ _ _ _ B7 HBp) as [BL1 BL2].
    cbn beta in MM, ML1, ML2, BM, BL1, BL2.
    split; unfold tag_segs, bnst_tag_segs, counted; rewrite ?EB, ?ETn, ?EBn; auto.
    + split; [easy|]. intros k. destruct (B6 k) as (-> & -> & _). split; reflexivity.
    + intros i Hi. destruct (EM i) as [-> _]. rewrite M3. now destruct (within_spec 0 i (Mrph_num sp0)); [|lia].
    + eapply segs_ext; [exact M4|easy|]. intros t Ht. destruct (ET t) as (_ & -> & _ & _ & -> & _). easy.
    + intros t Ht. destruct (ET t) as (_ & _ & _ & _ & -> & -> & -> & ->). auto.
    + intros t Ht. destruct (ET t) as (_ & -> & _ & -> & _). destruct (EM (b_mrph_ptr (tag_data (ts_sp st) t))) as [_ ->]. auto.
    + intros t Ht j. destruct (ET t) as (_ & -> & _ & _ & -> & _). intros Hj. rewrite E2.
      destruct (Z.eq_dec t (Tag_num (ts_sp st) - 1)) as [->|Hne].
      * destruct (within_spec (b_mrph_ptr (tag_data (ts_sp st) (Tag_num (ts_sp st) - 1))) j (Mrph_num sp0)); [cbn|]; lia.
      * specialize (MM t (Tag_num (ts_sp st) - 1) ltac:(lia) ltac:(lia) ltac:(lia)).
        destruct (within_spec (b_mrph_ptr (tag_data (ts_sp st) (Tag_num (ts_sp st) - 1))) j (Mrph_num sp0)); [lia|].
        apply M7; lia.
    + eapply segs_ext; [exact B7| |easy]. intros t Ht. now destruct (ET t) as (-> & _).
    + intros k Hk. cbv zeta. destruct (ET (b_tag_ptr (bnst_data (ts_sp st) k))) as (-> & -> & _). apply B8. lia.
    + intros k t Hk Ht. destruct (ET t) as (_ & _ & -> & _). apply (B9 k t); lia.
    + intros k Hk t Ht. rewrite EI. destruct (Z.eq_dec k (Bnst_num sp0 - 1)) as [->|Hne].
      * destruct (within_spec (b_tag_ptr (bnst_data (ts_sp st) (Bnst_num sp0 - 1))) t (Tag_num (ts_sp st))); lia.
      * specialize (BM k (Bnst_num sp0 - 1) ltac:(lia) ltac:(lia) ltac:(lia)).
        destruct (within_spec (b_tag_ptr (bnst_data (ts_sp st) (Bnst_num sp0 - 1))) t (Tag_num (ts_sp st))); [lia|].
        apply (B10 k); lia.
Qed.

(** The tags of a bunsetsu cover its morphemes. *)
Lemma tag_within : forall sp, tag_units sp -> forall k t, 0 <= k < Bnst_num sp0 ->
  b_tag_ptr (bnst_data sp k) <= t < b_tag_ptr (bnst_data sp k) + b_tag_num (bnst_data sp k) ->
  bnst_ptr k <= b_mrph_ptr (tag_data sp t) /\
  b_mrph_ptr (tag_data sp t) + b_mrph_num (tag_data sp t) <= bnst_ptr k + bnst_num k.
Proof.
  intros sp [_ _ TS _ _ _ BT HH _ _] k t Hk Ht. unfold tag_segs, bnst_tag_segs in *.
  pose proof (segs_mono _ _ _ _ _ TS) as MM. cbn beta in MM.
  destruct (segs_le _ _ _ _ _ BT k Hk) as [L1 L2]. cbn beta in L1, L2.
  destruct (HH k Hk) as [_ H1]. pose proof (segs_le _ _ _ _ _ TS t ltac:(lia)) as [L3 L4]. cbn beta in L3, L4.
  destruct bnsts as [HS _]. destruct (seg_next _ _ _ _ _ HS k Hk) as [_ N1]. cbn beta in N1. fold (bnst_ptr k) (bnst_num k) in N1.
  destruct (seg_next _ _ _ _ _ BT k Hk) as [_ N2]. cbn beta in N2. split.
  - rewrite <- H1. destruct (Z.eq_dec t (b_tag_ptr (bnst_data sp k))) as [->|Hne]; [lia|].
    destruct (seg_next _ _ _ _ _ TS (b_tag_ptr (bnst_data sp k)) ltac:(lia)) as [P _].
    specialize (MM (b_tag_ptr (bnst_data sp k)) t ltac:(lia) ltac:(lia) ltac:(lia)). lia.
  - rewrite N1. destruct (Z.eqb_spec (k + 1) (Bnst_num sp0)) as [E|Hne]; [easy|].
    fold (bnst_ptr (k + 1)). destruct (HH (k + 1) ltac:(lia)) as [_ H2]. rewrite <- H2, <- N2.
    apply MM; try lia. destruct (segs_le _ _ _ _ _ BT (k + 1) ltac:(lia)).
    destruct (seg_next _ _ _ _ _ BT (k + 1) ltac:(lia)). cbn beta in *. lia.
Qed.
End Tags.

(** ** Properties of the grouping *)

(** C21: [make_bunsetsu] cuts the morphemes of a sentence (at most MRPH_MAX, the first
    of them marked 文節始) into bunsetsus: consecutive, non-empty runs that cover the
    sentence and start exactly at the marked morphemes.  It never reports too many
    bunsetsus; their lengths stay below BNST_LENGTH_MAX, and the morphemes themselves
    are not changed.  Without the mark at the first morpheme a null pointer is used. *)
Theorem make_bunsetsu_partition : forall sp,
  0 <= Mrph_num sp <= MRPH_MAX -> words_ok sp ->
  if (0 <? Mrph_num sp) && negb (bnst_start sp 0) then make_bunsetsu sp = Err NullDeref
  else exists sp', make_bunsetsu sp = Ret (true, sp') /\
    mrph_data sp' = mrph_data sp /\ Mrph_num sp' = Mrph_num sp /\ Bnst_num sp' <= Mrph_num sp /\
    bnst_segs (bnst_start sp) (Mrph_num sp) sp' /\
    forall k, 0 <= k < Bnst_num sp' -> b_length (bnst_data sp' k) < BNST_LENGTH_MAX.
Proof.
  intros sp HN HW. destruct (Z.ltb_spec 0 (Mrph_num sp)) as [Hpos|Hz]; [destruct (bnst_start sp 0) eqn:H0|]; cbn [negb andb].
  - apply make_bunsetsu_segs; auto.
  - unfold make_bunsetsu, for_res. cbn [Mrph_num set_Max_New_Bnst_num set_Bnst_num].
    rewrite zrange_cons by lia. cbn [fold_res]. unfold group_mrph. cbn [negb mrph_data set_Max_New_Bnst_num set_Bnst_num].
    unfold bnst_start in H0. now rewrite H0.
  - apply make_bunsetsu_segs; auto. lia.
Qed.

(** C22: On the bunsetsus of [make_bunsetsu], [make_tag_units] cuts the morphemes of a
    non-empty sentence into tags that start exactly at the morphemes marked タグ単位始
    or at the start of a bunsetsu: the tags of each bunsetsu are consecutive, cover
    its morphemes, point back at it, and [inum] counts the tags (and morphemes) that
    follow in the bunsetsu (in the tag).  No table overflows. *)
Theorem make_tag_units_partition : forall sp, 0 < Mrph_num sp <= MRPH_MAX -> words_ok sp ->
  bnst_start sp 0 = true ->
  exists sp1 sp2, make_bunsetsu sp = Ret (true, sp1) /\ make_tag_units sp1 = Ret sp2 /\
    tag_units sp1 (bnst_start sp) sp2 /\ Tag_num sp2 <= TAG_MAX /\
    forall k t, 0 <= k < Bnst_num sp1 ->
      b_tag_ptr (bnst_data sp2 k) <= t < b_tag_ptr (bnst_data sp2 k) + b_tag_num (bnst_data sp2 k) ->
      b_mrph_ptr (bnst_data sp1 k) <= b_mrph_ptr (tag_data sp2 t) /\
      b_mrph_ptr (tag_data sp2 t) + b_mrph_num (tag_data sp2 t) <=
        b_mrph_ptr (bnst_data sp1 k) + b_mrph_num (bnst_data sp1 k).
Proof.
  intros sp HN HW H0.
  destruct (make_bunsetsu_segs sp ltac:(lia) HW (fun _ => H0)) as (sp1 & E1 & HM & HMn & _ & HS & _).
  rewrite <- HMn in HS. destruct (make_tag_units_ok sp1 _ HS ltac:(lia)) as (sp2 & E2 & TU).
  exists sp1, sp2. repeat (split; [easy|]). split.
  - pose proof (segs_count _ _ _ _ _ (tg_segs _ _ _ TU)). unfold MRPH_MAX, TAG_MAX in *. lia.
  - intros k t Hk Ht. apply (tag_within sp1 _ HS sp2 TU k t Hk Ht).
Qed.

(** Four morphemes, two bunsetsus, three tags: 「とても」「古 本 を」 *)
Definition group_example : SENTENCE_DATA :=
  set_Mrph_num 4 (set_mrph_data (fun i => nth (Z.to_nat i)
    [set_m_f ["文節始"; "自立"] (set_m_Goi2 "とても" MRPH_DATA_0);
     set_m_f ["文節始"; "非独立接頭辞"] (set_m_Goi2 "古" MRPH_DATA_0);
     set_m_f ["タグ単位始"; "内容語"] (set_m_Goi2 "本" MRPH_DATA_0);
     set_m_f ["付属"] (set_m_Goi2 "を" MRPH_DATA_0)]%string MRPH_DATA_0) SENTENCE_DATA_0).

Lemma group_example_words : words_ok group_example.
Proof.
  intros i Hi. assert (H : i = 0 \/ i = 1 \/ i = 2 \/ i = 3) by (cbn in Hi; lia).
  destruct H as [->|[->|[->| ->]]]; vm_compute; reflexivity.
Defined.

Example grouped_bnsts :
  match make_bunsetsu group_example with
  | Ret (ok, sp) => (ok, Bnst_num sp, map (fun k => (b_mrph_ptr (bnst_data sp k), b_mrph_num (bnst_data sp k),
                                                      b_length (bnst_data sp k))) (zrange 0 2))
  | Err _ => (false, 0, [])
  end = (true, 2, [(0, 1, 6); (1, 3, 6)]).
Proof. vm_compute. reflexivity. Qed.

Lemma make_bunsetsu_partition_witness :
  (0 <= Mrph_num group_example <= MRPH_MAX) /\
  exists sp', make_bunsetsu group_example = Ret (true, sp') /\
    bnst_segs (bnst_start group_example) 4 sp'.
Proof.
  split; [vm_compute; split; discriminate|].
  destruct (make_bunsetsu_partition group_example ltac:(vm_compute; split; discriminate) group_example_words)
    as (sp' & E & _ & _ & _ & S & _).
  exists sp'. split; [exact E|exact S].
Defined.

Lemma make_tag_units_partition_witness :
  exists sp1 sp2, make_bunsetsu group_example = Ret (true, sp1) /\ make_tag_units sp1 = Ret sp2 /\
    tag_units sp1 (bnst_start group_example) sp2.
Proof.
  destruct (make_tag_units_partition group_example ltac:(vm_compute; split; [reflexivity|discriminate])
              group_example_words eq_refl) as (sp1 & sp2 & E1 & E2 & T & _).
  exists sp1, sp2. split; [exact E1|split; [exact E2|exact T]].
Defined.
