(* ===== verification/SemCode.v ===== *)
(** * Semantic codes and comparisons of bunsetsus

    The matching of thesaurus codes (src/system/case_match.c, lib_sm.c,
    lib_bgh.c) and the comparisons of bunsetsus by their words and levels
    (bnst_compare.c).  A list of codes is one string, the codes of a fixed
    size one after the other. *)
From Stdlib Require Import ZArith List Bool String Ascii Lia.
Import ListNotations.
From S2P Require Import Prelude CStr Feature Sentence.

Definition SM_CODE_SIZE : nat := 12.
Definition BGH_CODE_SIZE : nat := 11.
Definition BYTES4CHAR : Z := 3.

(** [SM_EXPAND_NE], [SM_NO_EXPAND_NE], [SM_CHECK_FULL] *)
Inductive sm_flag : Type := SM_EXPAND_NE | SM_NO_EXPAND_NE | SM_CHECK_FULL.

Definition star : Z := chr "*".

(** The loop of [comp_sm] over the positions [i], [i + 1], ..., [SM_CODE_SIZE - 1]. *)
Fixpoint comp_sm_go (n : nat) (cpp cpd : string) (i : nat) : Z :=
  match n with
  | O => Z.of_nat SM_CODE_SIZE
  | S n' =>
      if byte_at cpp i =? star then Z.of_nat i
      else if byte_at cpd i =? star then 0
      else if negb (byte_at cpp i =? byte_at cpd i) then 0
      else comp_sm_go n' cpp cpd (S i)
  end.

Definition comp_sm (cpp cpd : string) (start : nat) : Z :=
  comp_sm_go (SM_CODE_SIZE - start) cpp cpd start.

(** The dictionaries: [db_get] of the tables that map a proper noun code to
    common noun codes and a name to its code, when they could be opened. *)
Class SemDB : Type := {
  SMP2SMGExist : bool;
  smp2smg_db : string -> option string;
  SM2CODEExist : bool;
  sm2code_db : string -> option string
}.

Section Codes.
Context `{DB : SemDB}.

(** [_smp2smg], called when [SMP2SMGExist]. *)
Definition _smp2smg (cp : string) : option string := smp2smg_db (stake SM_CODE_SIZE cp).

(** The loop of [_sm_match_score] over the codes of a table entry.  The code
    before a " side-effect" mark is not used. *)
Fixpoint smp_scores (fuel : nat) (cpp : string) (cp : string) (score : Z) : res Z :=
  match fuel with
  | O => Err OutOfFuel
  | S f =>
      match cp with
      | EmptyString => Ret score
      | String c r =>
          let cp := if Ascii.eqb c "/" then r else cp in
          if slen cp <? Z.of_nat SM_CODE_SIZE then Err OutOfBounds
          else
            let next := sdrop SM_CODE_SIZE cp in
            if starts_with " side-effect" next then
              smp_scores f cpp (sdrop 12 next) score
            else
              let current_score := comp_sm cpp cp 1 in
              smp_scores f cpp next (if score <? current_score then current_score else score)
      end
  end.

Definition _sm_match_score (cpp cpd : string) (flag : sm_flag) : res Z :=
  match flag with
  | SM_CHECK_FULL => Ret (comp_sm cpp cpd 0)
  | _ =>
      let p := byte_at cpp 0 in
      let d := byte_at cpd 0 in
      if p =? chr "x" then Ret (if d =? chr "x" then Z.of_nat SM_CODE_SIZE else 0)
      else if d =? chr "x" then Ret 0
      else if d =? chr "2" then
        match flag with
        | SM_EXPAND_NE =>
            if p =? chr "2" then Ret 0
            else if negb SMP2SMGExist then Ret 0
            else
              match _smp2smg cpd with
              | None => Ret 0
              | Some start => smp_scores (S (String.length start)) cpp start 0
              end
        | _ => Ret (if p =? chr "2" then comp_sm cpp cpd 1 else 0)
        end
      else Ret (if p =? chr "2" then 0 else comp_sm cpp cpd 1)
  end.

(** [for (i = 0; codes[i]; i += size) if (test(codes + i)) return TRUE;]  A list
    whose length is no multiple of the size makes the loop step over its end. *)
Fixpoint some_code (fuel : nat) (size : nat) (test : string -> res bool) (codes : string)
  : res bool :=
  match fuel with
  | O => Err OutOfFuel
  | S f =>
      match codes with
      | EmptyString => Ret false
      | String _ _ =>
          b <- test codes ;;
          if b then Ret true
          else if slen codes <? Z.of_nat size then Err OutOfBounds
          else some_code f size test (sdrop size codes)
      end
  end.

Definition sm_match_check (pat codes : string) (expand : sm_flag) : res bool :=
  some_code (S (String.length codes)) SM_CODE_SIZE
    (fun c => s <- _sm_match_score pat c expand ;; Ret (0 <? s)) codes.

(** The loop of [sm_all_match]; [flag] records a code that was compared. *)
Fixpoint sm_all_match_go (fuel : nat) (c target : string) (flag : bool) : res bool :=
  match fuel with
  | O => Err OutOfFuel
  | S f =>
      match c with
      | EmptyString => Ret flag
      | String _ _ =>
          let next := if slen c <? Z.of_nat SM_CODE_SIZE then Err OutOfBounds
                      else Ret (sdrop SM_CODE_SIZE c) in
          if byte_at c 0 =? chr "2" then
            c' <- next ;; sm_all_match_go f c' target flag
          else if comp_sm target c 1 =? 0 then Ret false
          else c' <- next ;; sm_all_match_go f c' target true
      end
  end.

Definition sm_all_match (c target : string) : res bool :=
  sm_all_match_go (S (String.length c)) c target false.

(** The codes of the named entity classes, when the table has no entry. *)
Definition ne_codes : list (string * string) :=
  [("ORGANIZATION", "ne1*********"); ("PERSON", "ne2*********"); ("LOCATION", "ne3*********");
   ("ARTIFACT", "ne4*********"); ("DATE", "ne5*********"); ("TIME", "ne6*********");
   ("MONEY", "ne7*********"); ("PERCENT", "ne8*********")]%string.

(** [comp_bgh]: the depth to which a pattern code matches *)
Fixpoint comp_bgh_go (n : nat) (cpp cpd : string) (i : nat) : Z :=
  match n with
  | O => Z.of_nat BGH_CODE_SIZE
  | S n' =>
      if byte_at cpp i =? star then Z.of_nat i
      else if negb (byte_at cpp i =? byte_at cpd i) then 0
      else comp_bgh_go n' cpp cpd (S i)
  end.

Definition comp_bgh (cpp cpd : string) : Z :=
  if byte_at cpp 0 =? byte_at cpd 0 then comp_bgh_go (BGH_CODE_SIZE - 1) cpp cpd 1
  else if negb (byte_at cpp 0 =? chr "4") && negb (byte_at cpd 0 =? chr "4") &&
          (byte_at cpp 1 =? byte_at cpd 1)
  then comp_bgh_go 2 cpp cpd 2
  else 0.

Definition bgh_match_check (pat codes : string) : res bool :=
  some_code (S (String.length codes)) BGH_CODE_SIZE (fun c => Ret (0 <? comp_bgh pat c)) codes.

(** [bgh_code_match]: how many levels of two codes agree; positions 5, 7, 8
    and 9 do not count. *)
Fixpoint bgh_points (n : nat) (c1 c2 : string) (i : nat) (point : Z) : Z :=
  match n with
  | O => point
  | S n' =>
      if byte_at c1 i =? byte_at c2 i then
        bgh_points n' c1 c2 (S i)
          (if existsb (Nat.eqb i) [5; 7; 8; 9]%nat then point else point + 1)
      else point
  end.

Definition bgh_code_match (c1 c2 : string) : Z :=
  if (byte_at c1 0 =? chr "s") || (byte_at c2 0 =? chr "s") then 0
  else if byte_at c1 0 =? byte_at c2 0 then bgh_points (BGH_CODE_SIZE - 1) c1 c2 1 1
  else if negb (byte_at c1 0 =? chr "4") && negb (byte_at c2 0 =? chr "4") &&
          (byte_at c1 1 =? byte_at c2 1)
  then bgh_points 2 c1 c2 2 2
  else 0.

Definition bgh_code_match_for_case (cp1 cp2 : string) : Z :=
  if starts_with "11960" cp1 || starts_with "11960" cp2 then 0
  else
    let match_ := bgh_code_match cp1 cp2 in
    if (starts_with "12000" cp1 || starts_with "12000" cp2) && (3 <? match_) then 3 else match_.
End Codes.

(** ** Words and levels of bunsetsus (bnst_compare.c) *)

Fixpoint common_prefix (a b : string) : Z :=
  match a, b with
  | String x a', String y b' => if Ascii.eqb x y then 1 + common_prefix a' b' else 0
  | _, _ => 0
  end.

Fixpoint srev (s acc : string) : string :=
  match s with EmptyString => acc | String c s' => srev s' (String c acc) end.

(** The longer of the common prefix and suffix, in characters, times two. *)
Definition str_part_cmp (c1 c2 : string) : Z :=
  let pre := common_prefix c1 c2 in
  let post := common_prefix (srev c1 EmptyString) (srev c2 EmptyString) in
  let match_ := if post <? pre then pre else post in
  let match_ := match_ - match_ mod BYTES4CHAR in
  2 * match_ / BYTES4CHAR.

(** The condition on a morpheme of the searches; 0 and the null pointer match all. *)
Definition mrph_cond (strtest : string -> string -> bool) (Hinshi Bunrui : Z) (cp : option string)
    (m : MRPH_DATA) : bool :=
  ((Hinshi =? 0) || (Hinshi =? m_Hinshi m)) && ((Bunrui =? 0) || (Bunrui =? m_Bunrui m)) &&
  match cp with None => true | Some s => strtest (m_Goi m) s end.

(** From the end of the bunsetsu, over its ancillary morphemes. *)
Fixpoint fuzoku_search (cond : MRPH_DATA -> bool) (ms : list MRPH_DATA) : bool :=
  match ms with
  | [] => false
  | m :: ms' =>
      if has_feature (m_f m) "付属" then if cond m then true else fuzoku_search cond ms' else false
  end.

Definition bnst_mrphs (sp : SENTENCE_DATA) (b : BNST_DATA) : list MRPH_DATA :=
  map (mrph_data sp) (zrange (b_mrph_ptr b) (b_mrph_ptr b + b_mrph_num b)).

Definition check_fuzoku (sp : SENTENCE_DATA) (p : option BNST_DATA) (Hinshi Bunrui : Z)
    (cp : option string) : bool :=
  match p with
  | None => false
  | Some b => fuzoku_search (mrph_cond str_eq Hinshi Bunrui cp) (rev (bnst_mrphs sp b))
  end.

Definition check_fuzoku_substr (sp : SENTENCE_DATA) (p : option BNST_DATA) (Hinshi Bunrui : Z)
    (cp : option string) : bool :=
  match p with
  | None => false
  | Some b => fuzoku_search (mrph_cond (fun goi s => str_contains s goi) Hinshi Bunrui cp)
                (rev (bnst_mrphs sp b))
  end.

Definition check_bnst_substr (sp : SENTENCE_DATA) (p : option BNST_DATA) (Hinshi Bunrui : Z)
    (cp : option string) : bool :=
  match p with
  | None => false
  | Some b => existsb (mrph_cond (fun goi s => str_contains s goi) Hinshi Bunrui cp)
                (bnst_mrphs sp b)
  end.

(** The maximum of a measure over all pairs of codes. *)
Fixpoint max_code (fuel : nat) (f : string -> Z) (codes : string) (best : Z) : res Z :=
  match fuel with
  | O => Err OutOfFuel
  | S n =>
      match codes with
      | EmptyString => Ret best
      | String _ _ =>
          if slen codes <? Z.of_nat BGH_CODE_SIZE then Err OutOfBounds
          else max_code n f (sdrop BGH_CODE_SIZE codes) (Z.max best (f codes))
      end
  end.

Fixpoint max_code2 (fuel : nat) (codes1 codes2 : string) (best : Z) : res Z :=
  match fuel with
  | O => Err OutOfFuel
  | S n =>
      match codes1 with
      | EmptyString => Ret best
      | String _ _ =>
          b <- max_code (S (String.length codes2)) (bgh_code_match codes1) codes2 best ;;
          if slen codes1 <? Z.of_nat BGH_CODE_SIZE then Err OutOfBounds
          else max_code2 n (sdrop BGH_CODE_SIZE codes1) codes2 b
      end
  end.

Definition bgh_match (b1 b2 : BNST_DATA) : res Z :=
  if str_eq (b_BGH_code b1) EmptyString || str_eq (b_BGH_code b2) EmptyString then Ret (-1)
  else
    m <- max_code2 (S (String.length (b_BGH_code b1))) (b_BGH_code b1) (b_BGH_code b2) 0 ;;
    Ret (if m - 2 <? 0 then 0 else m - 2).

(** The level of a clause; an unknown name leaves the variable unset. *)
Definition level_of (cp : string) : option Z :=
  if str_eq cp "A-" then Some 1
  else if str_eq cp "A" then Some 2
  else if str_eq cp "B-" then Some 3
  else if str_eq cp "B" then Some 4
  else if str_eq cp "B+" then Some 5
  else if str_eq cp "C" then Some 6
  else None.

(** [BadPointer] stands for the use of an unset variable. *)
Definition levelcmp (cp1 cp2 : string) : res Z :=
  match level_of cp1, level_of cp2 with
  | Some l1, Some l2 => Ret (l1 - l2)
  | _, _ => Err BadPointer
  end.

Definition subordinate_level_comp (b1 b2 : BNST_DATA) : res bool :=
  match check_feature (b_f b1) "レベル", check_feature (b_f b2) "レベル" with
  | None, _ => Ret true
  | Some _, None => Ret false
  | Some l1, Some l2 => c <- levelcmp (skip "レベル:" l1) (skip "レベル:" l2) ;; Ret (c <=? 0)
  end.

Definition subordinate_level_check (cp : string) (f : FEATURE) : res bool :=
  match check_feature f "レベル" with
  | None => Ret false
  | Some l2 => c <- levelcmp cp (skip "レベル:" l2) ;; Ret (c <=? 0)
  end.

(** ** Surface cases (read_rule.c, main.c) *)
Definition Case_name : list string :=
  ["ガ格"; "ヲ格"; "ニ格"; "デ格"; "カラ格"; "ト格"; "ヨリ格"; "ヘ格"; "マデ格"; "ノ格"; "ガ２"]%string.

Fixpoint case2num_go (names : list string) (cp : string) (i : Z) : Z :=
  match names with
  | [] => -1
  | n :: names' => if str_eq cp n then i else case2num_go names' cp (i + 1)
  end.

Definition case2num (cp : string) : Z := case2num_go Case_name cp 0.
