(* ===== verification/CheckFunction.v ===== *)
(** * Feature functions and the test of a pattern (src/system/feature.c)

    A pattern element that starts with [&] is a call of a built-in test on the
    structures being matched: [check_function].  [feature_AND_match] and
    [feature_pattern_match] test a list and a pattern.  Two of the tests write:
    [&記憶] to the global [matched_ptr], and [&形態素長:N-] to the text of the
    rule itself; [sm2code] keeps its result in a static buffer. *)
From Stdlib Require Import ZArith List Bool String Ascii Lia.
Import ListNotations.
From S2P Require Import Prelude CStr Feature Sentence SemCode.

(** ** Character types (the Unicode branch) *)
Definition TYPE_KATAKANA : Z := 1.
Definition TYPE_HIRAGANA : Z := 2.
Definition TYPE_KANJI : Z := 4.
Definition TYPE_SUUJI : Z := 8.
Definition TYPE_EIGO : Z := 16.
Definition TYPE_KIGOU : Z := 32.
Definition TYPE_PUNC : Z := 64.

Definition check_char_type (code : Z) : Z :=
  if (0x303f <? code) && (code <? 0x30a0) then TYPE_HIRAGANA
  else if ((0x309f <? code) && (code <? 0x30fb)) || (code =? 0x30fc) then TYPE_KATAKANA
  else if ((0x2fff <? code) && (code <? 0x3003)) || (code =? 0xff0c) || (code =? 0xff0e) then TYPE_PUNC
  else if (0xff0f <? code) && (code <? 0xff1a) then TYPE_SUUJI
  else if ((0xff20 <? code) && (code <? 0xff3b)) || ((0xff40 <? code) && (code <? 0xff5b)) then TYPE_EIGO
  else if ((0x4dff <? code) && (code <? 0xa000)) || (code =? 0x3005) then TYPE_KANJI
  else TYPE_KIGOU.

(** The type of the character at the start of [s], and its number of bytes.
    A truncated character reads the terminator as 0. *)
Definition char_type_at (s : string) : Z * nat :=
  let c := byte_at s 0 in
  if 0xfb <? c then (0, 6%nat)
  else if 0xf7 <? c then (0, 5%nat)
  else if 0xef <? c then (0, 4%nat)
  else if 0xdf <? c then
    (check_char_type (Z.shiftl (Z.land c 0x0f) 12 + Z.shiftl (Z.land (byte_at s 1) 0x3f) 6 +
                      Z.land (byte_at s 2) 0x3f), 3%nat)
  else if 0x7f <? c then
    (check_char_type (Z.shiftl (Z.land c 0x1f) 6 + Z.land (byte_at s 1) 0x3f), 2%nat)
  else (check_char_type c, 1%nat).

(** [while (i < length)]: [rest] is [ucp + i]. *)
Fixpoint check_str_type_go (fuel : nat) (rest : string) (i length : Z) (allowed_type precode : Z)
  : bool :=
  match fuel with
  | O => true
  | S f =>
      if i <? length then
        let '(code, n) := char_type_at rest in
        if negb (allowed_type =? 0) then
          if Z.land code allowed_type =? 0 then false
          else check_str_type_go f (sdrop n rest) (i + Z.of_nat n) length allowed_type code
        else if negb (precode =? 0) && negb (precode =? code) then false
        else check_str_type_go f (sdrop n rest) (i + Z.of_nat n) length allowed_type code
      else true
  end.

Definition check_str_type (ucp : string) (allowed_type length : Z) : bool :=
  let length := if length =? 0 then slen ucp else length in
  check_str_type_go (S (Z.to_nat length)) ucp 0 length allowed_type 0.

(** ** The environment: options and dictionaries *)
Inductive thesaurus : Type := USE_NONE | USE_BGH | USE_NTT | USE_OTHER.

Class CheckEnv : Type := {
  env_sem :: SemDB;
  Thesaurus : thesaurus;
  Options : list string;
  NV_MI_Exist : bool;
  nv_mi_db : string -> option string
}.

(** The globals that the tests write. *)
Record match_state : Type := mkMS { matched_ptr : ptr; cont_str : string }.

Section CheckFunction.
Context `{E : CheckEnv} (sp : SENTENCE_DATA).

(** ** sm2code (lib_sm.c)

    The static buffer keeps its contents when the name is neither in the
    table nor a named entity class and a thesaurus is in use. *)
Fixpoint ne_code (codes : list (string * string)) (cp : string) (old : string) : string :=
  match codes with
  | [] => old
  | (name, code) :: codes' => if starts_with name cp then code else ne_code codes' cp old
  end.

Definition sm2code (st : match_state) (cp : string) : match_state :=
  mkMS (matched_ptr st)
    (if negb SM2CODEExist then EmptyString
     else
       match sm2code_db cp with
       | Some code => code
       | None =>
           match Thesaurus with
           | USE_NTT => ne_code ne_codes cp (cont_str st)
           | USE_BGH =>
               ne_code (map (fun '(n, c) => (n, stake BGH_CODE_SIZE c)) ne_codes) cp (cont_str st)
           | _ => EmptyString
           end
       end).

(** ** Mutual information of nouns and verbs (nv_mi.c) *)

Definition get_mrph_rep_from_f (m : MRPH_DATA) (flag : bool) : option string :=
  match (if flag then check_feature (m_f m) "代表表記変更" else None) with
  | Some cp => Some (skip "代表表記変更:" cp)
  | None => option_map (skip "代表表記:") (check_feature (m_f m) "代表表記")
  end.

(** [strtok(s, "|")]: the non-empty pieces *)
Fixpoint tokens (s cur : string) : list string :=
  match s with
  | EmptyString => if str_eq cur EmptyString then [] else [cur]
  | String c s' =>
      if Ascii.eqb c "|" then (if str_eq cur EmptyString then [] else [cur]) ++ tokens s' EmptyString
      else tokens s' (cur ++ String c EmptyString)%string
  end.

(** Does a [%f] conversion succeed (decimal notation)? *)
Definition scans_float (s : string) : bool :=
  let starts s := match s with
                  | String c r => is_digit c ||
                      (Ascii.eqb c "." && match r with String d _ => is_digit d | _ => false end)
                  | EmptyString => false
                  end in
  match skip_spaces s with
  | String c r => if Ascii.eqb c "-" || Ascii.eqb c "+" then starts r else starts (String c r)
  | EmptyString => false
  end.

(** The input left after a [%d] conversion *)
Fixpoint skip_digits (s : string) : string :=
  match s with
  | String c s' => if is_digit c then skip_digits s' else s
  | EmptyString => s
  end.

Definition after_int (s : string) : string :=
  match skip_spaces s with
  | String c s' => if Ascii.eqb c "-" || Ascii.eqb c "+" then skip_digits s' else skip_digits (String c s')
  | EmptyString => EmptyString
  end.

(** [sscanf(token, "%*[^,],%d,%f", &rank, &score)] when it gives both values *)
Definition token_rank (token : string) : option Z :=
  match span_not "," token with
  | (String _ _, String _ r) =>
      match scan_int r with
      | None => None
      | Some rank =>
          match after_int r with
          | String "," r2 => if scans_float r2 then Some rank else None
          | _ => None
          end
      end
  | _ => None
  end.

Fixpoint find_rank (given_verb : string) (toks : list string) : Z :=
  match toks with
  | [] => INT_MAX
  | t :: toks' =>
      if starts_with given_verb t
      then match token_rank t with Some rank => rank | None => INT_MAX end
      else find_rank given_verb toks'
  end.

Definition check_nv_mi (n_ptr v_ptr : BNST_DATA) : Z :=
  match NV_MI_Exist, b_head_ptr n_ptr, b_head_ptr v_ptr with
  | true, Some nh, Some vh =>
      match get_mrph_rep_from_f (mrph_data sp nh) false with
      | None => INT_MAX
      | Some given_noun =>
          match nv_mi_db given_noun with
          | None => INT_MAX
          | Some dic_str =>
              match get_mrph_rep_from_f (mrph_data sp vh) false with
              | None => INT_MAX
              | Some given_verb => find_rank given_verb (tokens dic_str EmptyString)
              end
          end
      end
  | _, _, _ => INT_MAX
  end.

Definition check_nv_mi_parent_and_children (v : BNST_DATA) (rank_threshold : Z) : bool :=
  existsb (fun c => has_feature (b_f (tag_data sp c)) "格要素" &&
                    (check_nv_mi (tag_data sp c) v <? rank_threshold)) (b_child v) ||
  match b_parent v with
  | Some p => has_feature (b_f v) "係:連格" && (check_nv_mi (tag_data sp p) v <? rank_threshold)
  | None => false
  end.

(** ** check_function *)

Definition mrph_at (p : ptr) : res MRPH_DATA :=
  match p with
  | PM i => Ret (mrph_data sp i)
  | PNULL => Err NullDeref
  | _ => Err BadPointer
  end.

Definition bnst_at (p : ptr) : res BNST_DATA :=
  match p with
  | PB i => Ret (bnst_data sp i)
  | PT i => Ret (tag_data sp i)
  | PNULL => Err NullDeref
  | PM _ => Err BadPointer
  end.

(** The verdict, the rule text and the globals after the call. *)
Definition verdict : Type := bool * string * match_state.

Definition says (rule : string) (st : match_state) (b : bool) : res verdict := Ret (b, rule, st).

(** [s + strlen(s) - n]; before the start of [s] for a shorter string. *)
Definition last_bytes (n : Z) (s : string) : res string :=
  if slen s <? n then Err OutOfBounds else Ret (sdrop (Z.to_nat (slen s - n)) s).

Definition ends_with (p s : string) : bool :=
  (slen p <=? slen s) && str_eq (sdrop (Z.to_nat (slen s - slen p)) s) p.

(** The tests of the spelling of a morpheme; [None]: the rule is none of them. *)
Definition check_spelling (rule : string) (goi2 : string) : option (res bool) :=
  let types allowed := Some (Ret (check_str_type goi2 allowed 0)) in
  if str_eq rule "&記英数カ" then
    types (Z.lor (Z.lor (Z.lor TYPE_KIGOU TYPE_EIGO) TYPE_SUUJI) TYPE_KATAKANA)
  else if str_eq rule "&漢字" then
    if starts_with "か" goi2 || starts_with "カ" goi2 || starts_with "ヶ" goi2 then
      if slen goi2 =? BYTES4CHAR then Some (Ret true)
      else Some (Ret (check_str_type (sdrop (Z.to_nat BYTES4CHAR) goi2) TYPE_KANJI 0))
    else types TYPE_KANJI
  else if str_eq rule "&かな漢字" then types (Z.lor TYPE_KANJI TYPE_HIRAGANA)
  else if str_eq rule "&ひらがな" then types TYPE_HIRAGANA
  else if str_eq rule "&末尾ひらがな" then
    Some (ucp <- last_bytes BYTES4CHAR goi2 ;; Ret (check_str_type ucp TYPE_HIRAGANA 0))
  else if starts_with "&末尾文字列:" rule then
    Some (Ret (ends_with (skip "&末尾文字列:" rule) goi2))
  else if str_eq rule "&カタカナ" then types TYPE_KATAKANA
  else if str_eq rule "&数字" then types TYPE_SUUJI
  else if str_eq rule "&英記号" then types (Z.lor (Z.lor TYPE_EIGO TYPE_KIGOU) TYPE_PUNC)
  else if str_eq rule "&記号" then types (Z.lor TYPE_KIGOU TYPE_PUNC)
  else if str_eq rule "&混合" then Some (Ret (negb (check_str_type goi2 0 0)))
  else if str_eq rule "&一文字" then Some (Ret (slen goi2 <=? BYTES4CHAR))
  else None.

(** The code for the meaning that a rule names: looked up for a Japanese name,
    the text itself otherwise; with the flag for the comparison. *)
Definition rule_code (cp : string) (st : match_state) : option string * sm_flag * match_state :=
  if Z.land (byte_at cp 0) 0x80 =? 0 then (Some cp, SM_CHECK_FULL, st)
  else if SM2CODEExist then
    let st' := sm2code st cp in (Some (cont_str st'), SM_NO_EXPAND_NE, st')
  else (None, SM_NO_EXPAND_NE, st).

(** [&意味素], [&文節意味素], [&文節全意味素] *)
Definition check_meaning (rule : string) (st : match_state) (ptr2 : ptr) : option (res verdict) :=
  if starts_with "&意味素:" rule then Some (
    match Thesaurus with
    | USE_NTT =>
        m <- mrph_at ptr2 ;;
        match m_SM m with
        | None => says rule st false
        | Some sm =>
            let '(cp, flag, st') := rule_code (skip "&意味素:" rule) st in
            match cp with
            | None => says rule st' false
            | Some cp =>
                b <- some_code (S (String.length sm)) SM_CODE_SIZE
                       (fun c => s <- _sm_match_score cp c flag ;; Ret (negb (s =? 0))) sm ;;
                says rule st' b
            end
        end
    | _ => says rule st false
    end)
  else if starts_with "&文節意味素:" rule then Some (
    match Thesaurus with
    | USE_NTT | USE_BGH =>
        let '(cp, flag, st') := rule_code (skip "&文節意味素:" rule) st in
        match cp with
        | None => says rule st' false
        | Some cp =>
            d <- bnst_at ptr2 ;;
            b <- match Thesaurus with
                 | USE_NTT => sm_match_check cp (b_SM_code d) flag
                 | _ => bgh_match_check cp (b_BGH_code d)
                 end ;;
            says rule st' b
        end
    | _ => says rule st false
    end)
  else if starts_with "&文節全意味素:" rule then Some (
    match Thesaurus with
    | USE_NTT | USE_BGH =>
        let '(cp, _, st') := rule_code (skip "&文節全意味素:" rule) st in
        match cp with
        | None => says rule st' false
        | Some cp =>
            d <- bnst_at ptr2 ;;
            let codes := match Thesaurus with USE_NTT => b_SM_code d | _ => b_BGH_code d end in
            if str_eq codes EmptyString then says rule st' false
            else b <- sm_all_match codes cp ;; says rule st' b
        end
    | _ => says rule st false
    end)
  else None.

(** [&形態素長], [&数字長], [&形態素末尾].  The first one cuts the final [-]
    off the text of the rule. *)
Definition check_length (rule : string) (st : match_state) (goi2 : string) : option (res verdict) :=
  if starts_with "&形態素長:" rule then
    let flag := ends_with "-" rule in
    let rule' := if flag then stake (String.length rule - 1) rule else rule in
    let code := atoi (skip "&形態素長:" rule') in
    let length := slen goi2 in
    Some (says rule' st ((length =? code * BYTES4CHAR) || (flag && (code * BYTES4CHAR <? length))))
  else if starts_with "&数字長:" rule then
    let code := atoi (skip "&数字長:" rule) * BYTES4CHAR in
    Some (says rule st
      (if slen goi2 <? code then false else check_str_type goi2 TYPE_SUUJI code))
  else if starts_with "&形態素末尾:" rule then
    let cp := skip "&形態素末尾:" rule in
    Some (says rule st (negb (str_eq cp EmptyString) && ends_with cp goi2))
  else None.

(** [SCASE_code[n]] of a bunsetsu: an array of [SCASE_CODE_SIZE] bytes *)
Definition SCASE_CODE_SIZE : Z := 11.
Definition scase_at (b : BNST_DATA) (n : Z) : res bool :=
  if within 0 n SCASE_CODE_SIZE then Ret (negb (b_SCASE_code b n =? 0)) else Err OutOfBounds.

(** [while (ptr2 && ptr2->para_top_p) ptr2 = ptr2->child[0];]  The arrays hold
    at most [2 * BNST_MAX] nodes, so a longer chain is a cycle. *)
Fixpoint skip_para (fuel : nat) (nodes : array BNST_DATA) (i : Z) : res Z :=
  match fuel with
  | O => Err OutOfFuel
  | S f =>
      if b_para_top_p (nodes i) then
        match b_child (nodes i) with
        | [] => Err NullDeref
        | c :: _ => skip_para f nodes c
        end
      else Ret i
  end.

Definition children_have (p : ptr) (cp : string) : res bool :=
  let test nodes i :=
    j <- skip_para (Z.to_nat (2 * BNST_MAX) + 1) nodes i ;;
    Ret (existsb (fun c => has_feature (b_f (nodes c)) cp) (b_child (nodes j))) in
  match p with
  | PB i => test (bnst_data sp) i
  | PT i => test (tag_data sp) i
  | PNULL => Err NullDeref
  | PM _ => Err BadPointer
  end.

Definition parent_has (p : ptr) (cp : string) : res bool :=
  let test nodes i :=
    match b_parent (nodes i) with
    | None => Ret false
    | Some q => Ret (has_feature (b_f (nodes q)) cp)
    end in
  match p with
  | PB i => test (bnst_data sp) i
  | PT i => test (tag_data sp) i
  | PNULL => Err NullDeref
  | PM _ => Err BadPointer
  end.

(** [(BNST_DATA * )ptr2 - (BNST_DATA * )ptr1] *)
Definition ptr_diff (p2 p1 : ptr) : res Z :=
  match p2, p1 with
  | PB i, PB j | PT i, PT j => Ret (i - j)
  | _, _ => Err BadPointer
  end.

Definition lower (c : ascii) : ascii :=
  let b := byte_of c in if (65 <=? b) && (b <=? 90) then ascii_of_Z (b + 32) else c.

Fixpoint strcasecmp_eq (a b : string) : bool :=
  match a, b with
  | EmptyString, EmptyString => true
  | String x a', String y b' => Ascii.eqb (lower x) (lower y) && strcasecmp_eq a' b'
  | _, _ => false
  end.

Definition VOICE_SHIEKI : Z := 1.
Definition VOICE_UKEMI : Z := 2.
Definition VOICE_SHIEKI_UKEMI : Z := 4.

(** The tests on dependencies: surface cases, distance, levels, the modifier side. *)
Definition check_dependency (rule : string) (fd : FEATURE) (ptr1 ptr2 : ptr)
  : option (res bool) :=
  if starts_with "&表層:" rule then Some (
    if str_eq (skip "&表層:" rule) "照合" then
      b1 <- bnst_at ptr1 ;;
      match check_feature (b_f b1) "係" with
      | None => Ret false
      | Some cp => b2 <- bnst_at ptr2 ;; scase_at b2 (case2num (skip "係:" cp))
      end
    else b2 <- bnst_at ptr2 ;; scase_at b2 (case2num (skip "&表層:" rule)))
  else if starts_with "&D:" rule then Some (
    d <- ptr_diff ptr2 ptr1 ;; Ret (d <=? atoi (skip "&D:" rule)))
  else if str_eq rule "&レベル:強" then Some (
    b1 <- bnst_at ptr1 ;; b2 <- bnst_at ptr2 ;; subordinate_level_comp b1 b2)
  else if starts_with "&レベル:" rule then Some (subordinate_level_check (skip "&レベル:" rule) fd)
  else if starts_with "&係側:" rule then Some (
    b1 <- bnst_at ptr1 ;;
    let cp := skip "&係側:" rule in
    Ret (if byte_at cp 0 =? chr "^" then negb (has_feature (b_f b1) (sdrop 1 cp))
         else has_feature (b_f b1) cp))
  else if starts_with "&係側チェック:" rule then Some (children_have ptr2 (skip "&係側チェック:" rule))
  else if starts_with "&受側チェック:" rule then Some (parent_has ptr2 (skip "&受側チェック:" rule))
  else if starts_with "&自立語一致" rule then Some (
    b1 <- bnst_at ptr1 ;; b2 <- bnst_at ptr2 ;; Ret (str_eq (b_Jiritu_Go b1) (b_Jiritu_Go b2)))
  else if starts_with "&文字列照合:" rule then Some (
    m <- mrph_at ptr2 ;; Ret (str_contains (skip "&文字列照合:" rule) (m_Goi m)))
  else None.

(** [&ST], the options and the voice. *)
Definition check_options (rule : string) (ptr2 : ptr) : option (res bool) :=
  if starts_with "&ST" rule then Some (Ret true)
  else if starts_with "&OptCheck:" rule then Some (
    let cp := skip "&OptCheck:" rule in
    let cp := if byte_at cp 0 =? chr "-" then sdrop 1 cp else cp in
    Ret (existsb (strcasecmp_eq cp) Options))
  else if starts_with "&態:" rule then Some (
    b2 <- bnst_at ptr2 ;;
    let cp := skip "&態:" rule in
    let has v := negb (Z.land (b_voice b2) v =? 0) in
    Ret ((str_eq cp "能動" && (b_voice b2 =? 0)) ||
         (str_eq cp "受動" && (has VOICE_UKEMI || has VOICE_SHIEKI_UKEMI)) ||
         (str_eq cp "使役" && (has VOICE_SHIEKI || has VOICE_SHIEKI_UKEMI))))
  else None.

(** Does the rule look at the spelling of a morpheme? *)
Definition is_spelling_rule (rule : string) : bool :=
  match check_spelling rule EmptyString with
  | Some _ => true
  | None =>
      starts_with "&形態素長:" rule || starts_with "&数字長:" rule || starts_with "&形態素末尾:" rule
  end.

Definition check_function (rule : string) (fd : FEATURE) (ptr1 ptr2 : ptr) (st : match_state)
  : res verdict :=
  if is_spelling_rule rule then
    m <- mrph_at ptr2 ;;
    match check_spelling rule (m_Goi2 m) with
    | Some r => b <- r ;; says rule st b
    | None =>
        match check_length rule st (m_Goi2 m) with
        | Some r => r
        | None => says rule st true
        end
    end
  else if starts_with "&カテゴリ:" rule then
    m <- mrph_at ptr2 ;;
    let cp := skip "&カテゴリ:" rule in
    b <- check_category (m_f m) cp (str_eq cp "時間") ;; says rule st b
  else
    match check_meaning rule st ptr2 with
    | Some r => r
    | None =>
        match check_dependency rule fd ptr1 ptr2 with
        | Some r => b <- r ;; says rule st b
        | None =>
            match check_options rule ptr2 with
            | Some r => b <- r ;; says rule st b
            | None =>
                if str_eq rule "&記憶" then Ret (true, rule, mkMS ptr2 (cont_str st))
                else if starts_with "&名動相互情報量:" rule then
                  b2 <- bnst_at ptr2 ;;
                  says rule st
                    (check_nv_mi_parent_and_children b2 (atoi (skip "&名動相互情報量:" rule)))
                else says rule st true
            end
        end
    end.

(** ** feature_AND_match, feature_pattern_match

    The lists after the call are returned too: a test may have cut a rule. *)
Fixpoint feature_AND_match (fp fd : FEATURE) (p1 p2 : ptr) (st : match_state)
  : res (bool * FEATURE * match_state) :=
  match fp with
  | [] => Ret (true, [], st)
  | cp :: next =>
      r <- (if (byte_at cp 0 =? chr "^") && (byte_at cp 1 =? chr "&") then
              ' (b, rule, st') <- check_function (sdrop 1 cp) fd p1 p2 st ;;
              Ret (negb b, ("^" ++ rule)%string, st')
            else if byte_at cp 0 =? chr "&" then check_function cp fd p1 p2 st
            else if byte_at cp 0 =? chr "^" then Ret (negb (has_feature fd (sdrop 1 cp)), cp, st)
            else Ret (has_feature fd cp, cp, st)) ;;
      let '(b, cp', st') := r in
      if b then
        ' (b', next', st'') <- feature_AND_match next fd p1 p2 st' ;; Ret (b', cp' :: next', st'')
      else Ret (false, cp' :: next, st')
  end.

Fixpoint OR_match (fr : FEATURE_PATTERN) (fd : FEATURE) (p1 p2 : ptr) (st : match_state)
  : res (bool * FEATURE_PATTERN * match_state) :=
  match fr with
  | [] => Ret (false, [], st)
  | fp :: fr' =>
      ' (b, fp', st') <- feature_AND_match fp fd p1 p2 st ;;
      if b then Ret (true, fp' :: fr', st')
      else ' (b', fr'', st'') <- OR_match fr' fd p1 p2 st' ;; Ret (b', fp' :: fr'', st'')
  end.

Definition feature_pattern_match (fr : FEATURE_PATTERN) (fd : FEATURE) (p1 p2 : ptr) (st : match_state)
  : res (bool * FEATURE_PATTERN * match_state) :=
  match fr with
  | [] => Ret (true, [], st)
  | _ => OR_match fr fd p1 p2 st
  end.
End CheckFunction.

(** The interface of Sentence.v, from the given values of the globals and the
    rules as they were read. *)
Definition knp_FeatureMatch `{CheckEnv} (st : match_state) : FeatureMatch := {|
  feature_AND_matches := fun sp fp fd p1 p2 =>
    res_map (fun '(b, _, _) => b) (feature_AND_match sp fp fd p1 p2 st);
  feature_pattern_matches := fun sp fr fd p1 p2 =>
    res_map (fun '(b, _, _) => b) (feature_pattern_match sp fr fd p1 p2 st)
|}.

(** * Properties *)

(** ** Character types *)

(** The UTF-8 encoding of a code point of the basic plane. *)
Definition utf8_encode (c : Z) : string :=
  if c <? 0x80 then String (ascii_of_Z c) EmptyString
  else if c <? 0x800 then
    String (ascii_of_Z (0xc0 + c / 64)) (String (ascii_of_Z (0x80 + c mod 64)) EmptyString)
  else
    String (ascii_of_Z (0xe0 + c / 4096))
      (String (ascii_of_Z (0x80 + c / 64 mod 64)) (String (ascii_of_Z (0x80 + c mod 64)) EmptyString)).

Fixpoint utf8 (cs : list Z) : string :=
  match cs with
  | [] => EmptyString
  | c :: cs' => (utf8_encode c ++ utf8 cs')%string
  end.

Definition bmp (c : Z) : bool := (0 <? c) && (c <? 0x10000).

Lemma byte_of_ascii : forall z, 0 <= z < 256 -> byte_of (ascii_of_Z z) = z.
Proof.
  intros z Hz. unfold byte_of, ascii_of_Z. rewrite nat_ascii_embedding; lia.
Qed.

Lemma land_low : forall n a, 0 <= n -> Z.land a (2 ^ n - 1) = a mod 2 ^ n.
Proof. intros n a Hn. rewrite <- Z.land_ones by lia. now rewrite Z.ones_equiv, Z.sub_1_r. Qed.

Lemma char_type_encode : forall c r, bmp c = true ->
  char_type_at (utf8_encode c ++ r)%string = (check_char_type c, String.length (utf8_encode c)).
Proof.
  intros c r Hc. unfold bmp in Hc. apply andb_true_iff in Hc as [H0 H1].
  apply Z.ltb_lt in H0, H1. unfold utf8_encode, char_type_at, byte_at.
  destruct (Z.ltb_spec c 0x80).
  { cbn [append sdrop first_byte String.length]. rewrite byte_of_ascii by lia.
    repeat match goal with |- context [?a <? c] => destruct (Z.ltb_spec a c); [lia|] end. reflexivity. }
  destruct (Z.ltb_spec c 0x800).
  - cbn [append sdrop first_byte String.length].
    assert (0 <= c / 64 < 32) by (split; [apply Z.div_pos | apply Z.div_lt_upper_bound]; lia).
    pose proof (Z.mod_pos_bound c 64 ltac:(lia)). rewrite !byte_of_ascii by lia.
    set (x := 0xc0 + c / 64).
    repeat match goal with |- context [?a <? x] => destruct (Z.ltb_spec a x); try (subst x; lia) end.
    subst x. f_equal. f_equal. change 0x1f with (2 ^ 5 - 1). change 0x3f with (2 ^ 6 - 1).
    rewrite !land_low, Z.shiftl_mul_pow2 by lia.
    change (2 ^ 5) with 32. change (2 ^ 6) with 64.
    Z.div_mod_to_equations. lia.
  - cbn [append sdrop first_byte String.length].
    assert (0 <= c / 4096 < 16) by (split; [apply Z.div_pos | apply Z.div_lt_upper_bound]; lia).
    pose proof (Z.mod_pos_bound c 64 ltac:(lia)). pose proof (Z.mod_pos_bound (c / 64) 64 ltac:(lia)).
    rewrite !byte_of_ascii by lia.
    set (x := 0xe0 + c / 4096).
    repeat match goal with |- context [?a <? x] => destruct (Z.ltb_spec a x); try (subst x; lia) end.
    subst x. f_equal. f_equal. change 0x0f with (2 ^ 4 - 1). change 0x3f with (2 ^ 6 - 1).
    rewrite !land_low, !Z.shiftl_mul_pow2 by lia.
    change (2 ^ 4) with 16. change (2 ^ 6) with 64. change (2 ^ 12) with 4096.
    Z.div_mod_to_equations. lia.
Qed.

(** What check_str_type decides, on code points: every type allowed, or, with
    no type given, all types the same. *)
Definition str_types_ok (cs : list Z) (allowed : Z) : bool :=
  if allowed =? 0 then
    match cs with
    | [] => true
    | c :: cs' => forallb (fun d => check_char_type d =? check_char_type c) cs'
    end
  else forallb (fun c => negb (Z.land (check_char_type c) allowed =? 0)) cs.

Lemma check_char_type_pos : forall c, 0 < check_char_type c.
Proof.
  intros c. unfold check_char_type. repeat case_goal; vm_compute; reflexivity.
Qed.

Lemma utf8_encode_len : forall c, (1 <= String.length (utf8_encode c))%nat.
Proof. intros c. unfold utf8_encode. repeat case_goal; cbn; lia. Qed.

Lemma check_str_type_go_utf8 : forall cs fuel i length allowed precode,
  forallb bmp cs = true -> i + slen (utf8 cs) = length ->
  (Z.to_nat (slen (utf8 cs)) < fuel)%nat ->
  check_str_type_go fuel (utf8 cs) i length allowed precode =
    if allowed =? 0 then
      forallb (fun d => (precode =? 0) || (precode =? check_char_type d)) (firstn 1 cs) &&
      str_types_ok cs 0
    else str_types_ok cs allowed.
Proof.
  unfold str_types_ok. change (0 =? 0) with true.
  induction cs as [|c cs IH]; intros fuel i length allowed precode Hb Hl Hf;
    (destruct fuel as [|fuel]; [lia|]); cbn [utf8 forallb firstn check_str_type_go] in *.
  - change (slen "") with 0 in Hl. destruct (Z.ltb_spec i length); [lia|].
    now destruct (allowed =? 0).
  - apply andb_true_iff in Hb as [Hc Hb]. rewrite slen_app in *.
    pose proof (utf8_encode_len c) as Hlen.
    assert (0 <= slen (utf8 cs)) by (unfold slen; lia).
    assert (slen (utf8_encode c) = Z.of_nat (String.length (utf8_encode c))) as Hc1 by reflexivity.
    destruct (Z.ltb_spec i length); [|lia].
    rewrite char_type_encode, sdrop_app by auto.
    pose proof (check_char_type_pos c) as Hp.
    rewrite !(IH fuel (i + Z.of_nat (String.length (utf8_encode c))) length)
      by (auto; lia).
    destruct (allowed =? 0) eqn:Ea; cbn [negb].
    + replace (check_char_type c =? 0) with false by (symmetry; apply Z.eqb_neq; lia).
      cbn [orb]. rewrite andb_true_r.
      destruct (precode =? 0); destruct (precode =? check_char_type c); cbn [negb andb orb]; auto;
        (destruct cs as [|d cs]; cbn [firstn forallb andb]; auto;
         rewrite andb_true_r, (Z.eqb_sym (check_char_type d));
         destruct (Z.eqb_spec (check_char_type c) (check_char_type d)) as [->|]; auto).
    + destruct (Z.land (check_char_type c) allowed =? 0); auto.
Qed.

Lemma check_str_type_ok : forall cs allowed, forallb bmp cs = true ->
  check_str_type (utf8 cs) allowed 0 = str_types_ok cs allowed.
Proof.
  intros cs allowed Hb. unfold check_str_type. change (0 =? 0) with true. cbv iota zeta.
  rewrite check_str_type_go_utf8 by (auto; lia).
  destruct (allowed =? 0) eqn:Ea.
  - apply Z.eqb_eq in Ea as ->. now destruct cs.
  - unfold str_types_ok. now rewrite Ea.
Qed.

(** on the UTF-8 encoding of characters of the basic plane, check_str_type decodes
    every character: with a set of types it accepts exactly the strings whose
    characters all have an allowed type, and with none it rejects exactly the strings
    that mix types. *)
Theorem check_str_type_utf8 : forall cs allowed, forallb bmp cs = true ->
  check_str_type (utf8 cs) allowed 0 =
    if allowed =? 0 then
      match cs with
      | [] => true
      | c :: cs' => forallb (fun d => check_char_type d =? check_char_type c) cs'
      end
    else forallb (fun c => negb (Z.land (check_char_type c) allowed =? 0)) cs.
Proof. exact check_str_type_ok. Qed.

Lemma check_str_type_utf8_witness :
  check_str_type (utf8 [0x304b; 0x6f22; 0x30f6]) TYPE_KANJI 0 = false /\
  utf8 [0x304b; 0x6f22; 0x30f6] = "か漢ヶ"%string.
Proof.
  split; [rewrite (check_str_type_utf8 [0x304b; 0x6f22; 0x30f6] TYPE_KANJI) |]; reflexivity.
Defined.

(** ** Patterns without functions *)

(** Does an element of a pattern hold of the features, when it is no function? *)
Definition lit_holds (fd : FEATURE) (cp : string) : bool :=
  if byte_at cp 0 =? chr "^" then negb (has_feature fd (sdrop 1 cp)) else has_feature fd cp.

Definition no_function (cp : string) : bool :=
  negb (byte_at cp 0 =? chr "&") && negb ((byte_at cp 0 =? chr "^") && (byte_at cp 1 =? chr "&")).

(** Does the text end with the [-] that [&形態素長] cuts? *)
Definition cuts_rule (cp : string) : bool :=
  (starts_with "&形態素長:" cp || starts_with "^&形態素長:" cp) && ends_with "-" cp.

Section PatternProps.
Context `{E : CheckEnv} (sp : SENTENCE_DATA).

Lemma feature_AND_match_plain : forall fp fd p1 p2 st, forallb no_function fp = true ->
  feature_AND_match sp fp fd p1 p2 st = Ret (forallb (lit_holds fd) fp, fp, st).
Proof.
  induction fp as [|cp fp IH]; intros fd p1 p2 st H; cbn [forallb feature_AND_match] in *; auto.
  apply andb_true_iff in H as [Hc H]. unfold no_function in Hc.
  apply andb_true_iff in Hc as [H1 H2]. apply negb_true_iff in H1, H2.
  rewrite H1, H2. unfold lit_holds.
  destruct (byte_at cp 0 =? chr "^").
  - destruct (negb _); cbn [andb]; auto. now rewrite IH.
  - destruct (has_feature fd cp); cbn [andb]; auto. now rewrite IH.
Qed.

Lemma OR_match_plain : forall fr fd p1 p2 st, forallb (forallb no_function) fr = true ->
  OR_match sp fr fd p1 p2 st = Ret (existsb (forallb (lit_holds fd)) fr, fr, st).
Proof.
  induction fr as [|fp fr IH]; intros fd p1 p2 st H; cbn [forallb existsb OR_match] in *; auto.
  apply andb_true_iff in H as [H1 H2]. rewrite feature_AND_match_plain by auto.
  destruct (forallb (lit_holds fd) fp); cbn [orb]; auto. now rewrite IH.
Qed.

(** A pattern without feature functions is a disjunctive normal form: it matches
    when one of its lists has all its features present and all its ^-features
    absent; the empty pattern matches everything; nothing is written. *)
Theorem feature_pattern_match_plain : forall fr fd p1 p2 st,
  forallb (forallb no_function) fr = true ->
  feature_pattern_match sp fr fd p1 p2 st =
    Ret (match fr with [] => true | _ => existsb (forallb (lit_holds fd)) fr end, fr, st).
Proof.
  intros [|fp fr] fd p1 p2 st H; auto. unfold feature_pattern_match. now apply OR_match_plain.
Qed.
End PatternProps.

(** An environment without dictionaries, for concrete evaluations. *)
Definition bare_env : CheckEnv := {|
  env_sem := {| SMP2SMGExist := false; smp2smg_db := fun _ => None;
                SM2CODEExist := false; sm2code_db := fun _ => None |};
  Thesaurus := USE_NONE; Options := []; NV_MI_Exist := false; nv_mi_db := fun _ => None |}.

Definition st0 : match_state := mkMS PNULL EmptyString.

Lemma feature_pattern_match_plain_witness :
  @feature_pattern_match bare_env SENTENCE_DATA_0 [["体言"; "^用言"]; ["時間"]]%string
    ["用言:動"; "時間"]%string PNULL PNULL st0 =
    Ret (true, [["体言"; "^用言"]; ["時間"]]%string, st0).
Proof.
  rewrite (@feature_pattern_match_plain bare_env SENTENCE_DATA_0 [["体言"; "^用言"]; ["時間"]]%string);
    reflexivity.
Defined.

(** ** The text of the rules

    Only [&形態素長:N-] changes its rule. *)
Section RuleText.
Context `{E : CheckEnv} (sp : SENTENCE_DATA).

Lemma check_meaning_text : forall rule st p2 r b rule' st',
  check_meaning sp rule st p2 = Some r -> r = Ret (b, rule', st') -> rule' = rule.
Proof.
  intros rule st p2 r b rule' st' H ->. unfold check_meaning, says in H.
  repeat (case_hyp H; try discriminate); inv H; reflexivity.
Qed.

Lemma check_length_text : forall rule st goi r b rule' st',
  check_length rule st goi = Some r -> r = Ret (b, rule', st') ->
  starts_with "&形態素長:" rule && ends_with "-" rule = false -> rule' = rule.
Proof.
  intros rule st goi r b rule' st' H -> Hc. unfold check_length, says in H.
  destruct (starts_with "&形態素長:" rule); cbn [andb] in Hc.
  - rewrite Hc in H. now inv H.
  - repeat (case_hyp H; try discriminate); inv H; reflexivity.
Qed.

Lemma check_function_text : forall rule fd p1 p2 st b rule' st',
  check_function sp rule fd p1 p2 st = Ret (b, rule', st') ->
  starts_with "&形態素長:" rule && ends_with "-" rule = false -> rule' = rule.
Proof.
  intros rule fd p1 p2 st b rule' st' H Hc. unfold check_function in H.
  destruct (is_spelling_rule rule).
  - destruct (mrph_at sp p2) as [m|]; [|discriminate].
    destruct (check_spelling rule (m_Goi2 m)) as [[v|]|]; unfold says in H; try discriminate.
    + now inv H.
    + destruct (check_length rule st (m_Goi2 m)) as [r|] eqn:EL; [|now inv H].
      eapply check_length_text; eauto.
  - destruct (starts_with "&カテゴリ:" rule).
    + unfold says in H. repeat (case_hyp H; try discriminate); inv H; reflexivity.
    + destruct (check_meaning sp rule st p2) as [r|] eqn:EM.
      * eapply check_meaning_text; eauto.
      * unfold says in H. repeat (case_hyp H; try discriminate); inv H; reflexivity.
Qed.

(** An element of a pattern is left as it was unless it is cut. *)
Definition step_text (cp : string) (r : res (bool * string * match_state)) : Prop :=
  forall b cp' st', r = Ret (b, cp', st') -> cuts_rule cp = false -> cp' = cp.

Lemma caret_text : forall cp, (byte_at cp 0 =? chr "^") = true -> cp = ("^" ++ sdrop 1 cp)%string.
Proof.
  intros [|c s] H; [discriminate|]. apply Z.eqb_eq in H. apply byte_of_inj in H. now subst.
Qed.

Lemma ends_with_tail : forall c s, s <> EmptyString -> ends_with "-" (String c s) = ends_with "-" s.
Proof.
  intros c s Hs. unfold ends_with, slen. destruct s as [|d s]; [contradiction|].
  cbn [String.length]. 
  replace (Z.to_nat (Z.of_nat (S (S (String.length s))) - Z.of_nat 1)) with (S (String.length s)) by lia.
  replace (Z.to_nat (Z.of_nat (S (String.length s)) - Z.of_nat 1)) with (String.length s) by lia.
  f_equal. destruct (Z.leb_spec (Z.of_nat 1) (Z.of_nat (S (S (String.length s)))));
    destruct (Z.leb_spec (Z.of_nat 1) (Z.of_nat (S (String.length s)))); auto; lia.
Qed.

Lemma ends_with_tail_app : forall p s, s <> EmptyString ->
  ends_with "-" (p ++ s) = ends_with "-" s.
Proof.
  induction p as [|c p IH]; intros s Hs; cbn [append]; auto.
  rewrite ends_with_tail, IH; auto. destruct p; [auto | discriminate].
Qed.

Lemma ends_with_app : forall s p, ends_with p (s ++ p) = true.
Proof.
  intros s p. unfold ends_with. rewrite slen_app.
  replace (Z.to_nat (slen s + slen p - slen p)) with (String.length s) by (unfold slen; lia).
  rewrite sdrop_app, str_eq_refl, andb_true_r. apply Z.leb_le. unfold slen. lia.
Qed.

Lemma stake_app1 : forall s, stake (String.length (s ++ "-") - 1) (s ++ "-") = s.
Proof.
  intros s. rewrite length_sapp. replace (String.length s + String.length "-" - 1)%nat
    with (String.length s) by (cbn; lia).
  induction s as [|c s IH]; cbn; congruence.
Qed.

Lemma cuts_rule_caret : forall cp, (byte_at cp 0 =? chr "^") = true -> cuts_rule cp = false ->
  starts_with "&形態素長:" (sdrop 1 cp) && ends_with "-" (sdrop 1 cp) = false.
Proof.
  intros cp H Hc. rewrite (caret_text cp H) in Hc. set (s := sdrop 1 cp) in *.
  unfold cuts_rule in Hc. cbn [append] in Hc.
  change (starts_with "^&形態素長:" (String "^" s)) with (starts_with "&形態素長:" s) in Hc.
  destruct (starts_with "&形態素長:" s) eqn:E1; [|reflexivity].
  rewrite orb_true_r in Hc. cbn [andb] in *. rewrite ends_with_tail in Hc; auto.
  intros ->. discriminate.
Qed.

Lemma feature_AND_match_text : forall fp fd p1 p2 st b fp' st',
  existsb cuts_rule fp = false ->
  feature_AND_match sp fp fd p1 p2 st = Ret (b, fp', st') -> fp' = fp.
Proof.
  induction fp as [|cp fp IH]; intros fd p1 p2 st b fp' st' Hc H;
    cbn [existsb feature_AND_match] in *; [now inv H|].
  apply orb_false_iff in Hc as [Hc Hf].
  match type of H with context [match ?step with Ret _ => _ | Err _ => _ end] =>
    assert (T : step_text cp step) end.
  { intros v cp' s' R Hcut. destruct (byte_at cp 0 =? chr "^") eqn:Ecar; cbn [andb] in R.
    - destruct (byte_at cp 1 =? chr "&").
      + destruct (check_function sp (sdrop 1 cp) fd p1 p2 st) as [[[v' r] s'']|] eqn:EF;
          [|discriminate]. inv R.
        rewrite (check_function_text _ _ _ _ _ _ _ _ EF) by (now apply cuts_rule_caret).
        symmetry. now apply caret_text.
      + assert ((byte_at cp 0 =? chr "&") = false) as Eamp.
        { apply Z.eqb_eq in Ecar. rewrite Ecar. reflexivity. }
        rewrite Eamp in R. now inv R.
    - destruct (byte_at cp 0 =? chr "&").
      + eapply check_function_text; [exact R|]. unfold cuts_rule in Hcut.
        destruct (starts_with "&形態素長:" cp); auto.
      + now inv R. }
  match type of H with context [match ?step with Ret _ => _ | Err _ => _ end] =>
    destruct step as [[[v cp'] s']|] eqn:ES; [|discriminate] end.
  specialize (T _ _ _ eq_refl Hc). subst cp'. destruct v.
  - destruct (feature_AND_match sp fp fd p1 p2 s') as [[[b2 next'] s2]|] eqn:EN; [|discriminate].
    inv H. f_equal. eauto.
  - now inv H.
Qed.

Lemma OR_match_text : forall fr fd p1 p2 st b fr' st',
  existsb (existsb cuts_rule) fr = false ->
  OR_match sp fr fd p1 p2 st = Ret (b, fr', st') -> fr' = fr.
Proof.
  induction fr as [|fp fr IH]; intros fd p1 p2 st b fr' st' Hc H;
    cbn [existsb OR_match] in *; [now inv H|].
  apply orb_false_iff in Hc as [Hc Hf].
  destruct (feature_AND_match sp fp fd p1 p2 st) as [[[v fp'] s']|] eqn:EA; [|discriminate].
  apply feature_AND_match_text in EA as ->; auto. destruct v; [now inv H|].
  destruct (OR_match sp fr fd p1 p2 s') as [[[b2 fr''] s2]|] eqn:EO; [|discriminate].
  inv H. f_equal. eauto.
Qed.

(** Matching leaves a pattern as it was read when none of its elements is
    &形態素長:N- or its negation; so rules of the other kinds can be applied again. *)
Theorem feature_pattern_match_text : forall fr fd p1 p2 st b fr' st',
  existsb (existsb cuts_rule) fr = false ->
  feature_pattern_match sp fr fd p1 p2 st = Ret (b, fr', st') -> fr' = fr.
Proof.
  intros [|fp fr] fd p1 p2 st b fr' st' Hc H; unfold feature_pattern_match in H.
  - now inv H.
  - eapply OR_match_text; eauto.
Qed.

(** &形態素長:N- holds of a morpheme of at least N characters the first time, and
    cuts the - off its own text, so that from the second time on it holds only of
    morphemes of exactly N characters. *)
Theorem morpheme_length_rule_cut : forall n fd p1 i st,
  let rule := ("&形態素長:" ++ n ++ "-")%string in
  let len := slen (m_Goi2 (mrph_data sp i)) in
  ends_with "-" n = false -> n <> EmptyString ->
  check_function sp rule fd p1 (PM i) st =
    Ret (atoi n * BYTES4CHAR <=? len, ("&形態素長:" ++ n)%string, st) /\
  check_function sp ("&形態素長:" ++ n) fd p1 (PM i) st =
    Ret (len =? atoi n * BYTES4CHAR, ("&形態素長:" ++ n)%string, st).
Proof.
  intros n fd p1 i st rule len Hn Hne.
  assert (S1 : forall t, is_spelling_rule ("&形態素長:" ++ t) = true) by reflexivity.
  assert (S2 : forall t g, check_spelling ("&形態素長:" ++ t) g = None) by reflexivity.
  assert (S3 : forall t, check_length ("&形態素長:" ++ t) st (m_Goi2 (mrph_data sp i)) =
    let r := ("&形態素長:" ++ t)%string in
    let flag := ends_with "-" r in
    let rule' := if flag then stake (String.length r - 1) r else r in
    let code := atoi (skip "&形態素長:" rule') in
    Some (says rule' st ((len =? code * BYTES4CHAR) || (flag && (code * BYTES4CHAR <? len)))))
    by reflexivity.
  unfold check_function. cbn [mrph_at]. subst rule. rewrite !S1, !S2, !S3. cbv zeta. split.
  - rewrite <- !sapp_assoc, ends_with_app, stake_app1, skip_app. unfold says. cbn [andb].
    f_equal. f_equal. f_equal.
    destruct (Z.eqb_spec len (atoi n * BYTES4CHAR));
      destruct (Z.ltb_spec (atoi n * BYTES4CHAR) len);
      destruct (Z.leb_spec (atoi n * BYTES4CHAR) len); auto; lia.
  - rewrite ends_with_tail_app, Hn, skip_app by auto. unfold says. cbn [andb].
    now rewrite orb_false_r.
Qed.
(** &表層:照合, the test of a surface case, reads SCASE_code[-1] when the case of the
    modifier is not one of the eleven names of Case_name (係:未格, 係:連格, ...). *)
Theorem surface_case_unknown : forall fd i j st cp,
  check_feature (b_f (bnst_data sp i)) "係" = Some cp ->
  ~ In (skip "係:" cp) Case_name ->
  check_function sp "&表層:照合" fd (PB i) (PB j) st = Err OutOfBounds.
Proof.
  intros fd i j st cp Hc Hn.
  assert (N : case2num (skip "係:" cp) = -1).
  { unfold case2num. revert Hn. generalize (skip "係:" cp) as s, 0 as k. clear.
    induction Case_name as [|n names IH]; intros s k Hn; cbn [case2num_go]; auto.
    destruct (str_eq_spec s n) as [->|_]; [exfalso; apply Hn; now left|].
    apply IH. intros H. apply Hn. now right. }
  change (check_function sp "&表層:照合" fd (PB i) (PB j) st) with
    (b <- match check_feature (b_f (bnst_data sp i)) "係" with
          | None => Ret false
          | Some cp => scase_at (bnst_data sp j) (case2num (skip "係:" cp))
          end ;; says "&表層:照合" st b).
  rewrite Hc, N. reflexivity.
Qed.
End RuleText.

Definition length_example : SENTENCE_DATA :=
  set_mrph_data (fun _ => mkMRPH 0 "三文字" "さんもじ" "三文字" 6 1 0 0 [] None EmptyString 0 0 0 0 0 None [] 0 0 false 0 false) SENTENCE_DATA_0.

Lemma feature_pattern_match_text_witness :
  existsb (existsb cuts_rule) [["&形態素長:3"; "^用言"]]%string = false /\
  [["&形態素長:3"; "^用言"]]%string = [["&形態素長:3"; "^用言"]]%string.
Proof.
  split; [reflexivity|].
  apply (@feature_pattern_match_text bare_env length_example _ [] PNULL (PM 0) st0 true _ st0);
    vm_compute; reflexivity.
Defined.

Lemma morpheme_length_rule_cut_witness :
  @check_function bare_env length_example "&形態素長:2-" [] PNULL (PM 0) st0 =
    Ret (true, "&形態素長:2"%string, st0) /\
  @check_function bare_env length_example "&形態素長:2" [] PNULL (PM 0) st0 =
    Ret (false, "&形態素長:2"%string, st0).
Proof.
  apply (@morpheme_length_rule_cut bare_env length_example "2" [] PNULL 0 st0);
    [reflexivity | discriminate].
Defined.

Definition case_example : SENTENCE_DATA := sentence_of [["係:未格"]; ["用言:動"]]%string.

Lemma surface_case_unknown_witness :
  @check_function bare_env case_example "&表層:照合" [] (PB 0) (PB 1) st0 = Err OutOfBounds.
Proof.
  apply (@surface_case_unknown bare_env case_example [] 0 1 st0 "係:未格").
  - reflexivity.
  - vm_compute. intuition discriminate.
Defined.
