(* ===== verification/Quote.v ===== *)
(** * Brackets (src/system/quote.c)

    [check_quote] pairs the bunsetsus that open and close brackets and
    records the pairs in [quote_data]; [mask_quote] forbids in [Quote_matrix]
    the dependencies that would cross a bracket. *)
From Stdlib Require Import ZArith List Bool String Ascii Lia Sorting.Sorted.
Import ListNotations.
From S2P Require Import Prelude CStr Feature Sentence.

(** [QUOTE_DATA]; an unused entry is -1. *)
Record QUOTE_DATA : Type := mkQD { in_num : array Z; out_num : array Z }.

(** [init_quote]: the three matrices are cleared on [Bnst_num x Bnst_num]. *)
Definition init_quote_data (qd : QUOTE_DATA) : QUOTE_DATA :=
  for_up 0 QUOTE_MAX (fun i qd => mkQD (aset (in_num qd) i (-1)) (aset (out_num qd) i (-1))) qd.

Definition init_quote (sp : SENTENCE_DATA) (qd : QUOTE_DATA) (Quote_matrix qs qe : matrix Z)
  : QUOTE_DATA * matrix Z * matrix Z * matrix Z :=
  (init_quote_data qd,
   fill_rect 0 (Bnst_num sp) 0 (Bnst_num sp) 1 Quote_matrix,
   fill_rect 0 (Bnst_num sp) 0 (Bnst_num sp) (-1) qs,
   fill_rect 0 (Bnst_num sp) 0 (Bnst_num sp) (-1) qe).

(** ** check_quote

    The local state: [k], and [stack[0 .. s_num]] with its top first. *)
Record quote_state : Type := mkQS { qs_data : QUOTE_DATA; qs_k : Z; qs_stack : list Z }.

(** The loop goes on, or the function returns CONTINUE (too many quotes). *)
Inductive quote_result : Type :=
| Going (st : quote_state)
| TooMany (st : quote_state).

Definition and_then (r : quote_result) (f : quote_state -> quote_result) : quote_result :=
  match r with Going st => f st | TooMany st => TooMany st end.

(** Push an opening bracket. *)
Definition open_quote (i : Z) (st : quote_state) : quote_result :=
  let '(mkQS qd k stack) := st in
  if QUOTE_MAX - 1 <=? k then TooMany st
  else Going (mkQS (mkQD (aset (in_num qd) k i) (out_num qd)) (k + 1) (k :: stack)).

(** Close the bracket on the top of the stack; with an empty stack, a new
    entry that has no opening bracket. *)
Definition close_quote (i : Z) (st : quote_state) : quote_result :=
  let '(mkQS qd k stack) := st in
  match stack with
  | [] =>
      if QUOTE_MAX - 1 <=? k then TooMany st
      else Going (mkQS (mkQD (in_num qd) (aset (out_num qd) k i)) (k + 1) [])
  | t :: stack' => Going (mkQS (mkQD (in_num qd) (aset (out_num qd) t i)) k stack')
  end.

(** [if (p) { act; if (p2) act }] *)
Definition once_or_twice (act : quote_state -> quote_result) (p p2 : bool)
    (st : quote_state) : quote_result :=
  if p then and_then (act st) (fun st => if p2 then act st else Going st) else Going st.

Definition check_quote_step (sp : SENTENCE_DATA) (i : Z) (st : quote_state) : quote_result :=
  and_then (once_or_twice (open_quote i) (bnst_has sp i "括弧始") (bnst_has sp i "括弧始２") st)
    (once_or_twice (close_quote i) (bnst_has sp i "括弧終") (bnst_has sp i "括弧終２")).

Fixpoint check_quote_loop (sp : SENTENCE_DATA) (is_ : list Z) (st : quote_state) : quote_result :=
  match is_ with
  | [] => Going st
  | i :: is_' => and_then (check_quote_step sp i st) (check_quote_loop sp is_')
  end.

(** Unclosed brackets extend to the end of the sentence, unopened ones to its start. *)
Definition fill_quote (sp : SENTENCE_DATA) (i : Z) (qd : QUOTE_DATA) : QUOTE_DATA :=
  mkQD (if in_num qd i =? -1 then aset (in_num qd) i 0 else in_num qd)
       (if out_num qd i =? -1 then aset (out_num qd) i (Bnst_num sp - 1) else out_num qd).

(** The value returned: CONTINUE, or TRUE when a bracket was found. *)
Definition check_quote (sp : SENTENCE_DATA) (qd : QUOTE_DATA) : Z * QUOTE_DATA :=
  match check_quote_loop sp (zrange 0 (Bnst_num sp)) (mkQS qd 0 []) with
  | TooMany st => (CONTINUE, qs_data st)
  | Going (mkQS qd' k _) =>
      (if 0 <? k then TRUE else FALSE, for_up 0 k (fill_quote sp) qd')
  end.

(** ** mask_quote *)

(** [for (k = 0; quote_data.in_num[k] >= 0; k++)]: the entries visited.  The
    last entry of the arrays is the sentinel; without it the loop leaves the arrays. *)
Fixpoint quote_entries_go (fuel : nat) (qd : QUOTE_DATA) (k : Z) : res (list (Z * Z)) :=
  match fuel with
  | O => Err OutOfBounds
  | S f =>
      if 0 <=? in_num qd k then
        rest <- quote_entries_go f qd (k + 1) ;;
        Ret ((in_num qd k, out_num qd k) :: rest)
      else Ret []
  end.

Definition quote_entries (qd : QUOTE_DATA) : res (list (Z * Z)) :=
  quote_entries_go (Z.to_nat QUOTE_MAX) qd 0.

(** The bunsetsus that may depend on the last bunsetsu of a bracket from outside. *)
Definition enters_quote (sp : SENTENCE_DATA) (i : Z) : bool :=
  bnst_has sp i "係:連格" || bnst_has sp i "係:連体" || bnst_has sp i "係:ノ格" ||
  bnst_has sp i "係:同格連体" || bnst_has sp i "係:括弧並列".

(** The mask above the bracket. *)
Definition mask_above (sp : SENTENCE_DATA) (start end_ : Z) (m : matrix Z) : matrix Z :=
  for_up 0 start (fun i m =>
    let m := fill_row i start end_ 0 m in
    if negb (m i end_ =? 0) && enters_quote sp i then m else mset m i end_ 0) m.

(** The mask at the right of the bracket. *)
Definition mask_right (sp : SENTENCE_DATA) (start end_ : Z) (m : matrix Z) : matrix Z :=
  fill_rect start end_ (end_ + 1) (Bnst_num sp) 0 m.

(** The mask above and at the right of a full stop in the bracket. *)
Definition mask_stops (sp : SENTENCE_DATA) (start end_ : Z) (m : matrix Z) : matrix Z :=
  for_up start end_ (fun l m =>
    if bnst_has sp l "係:文末" then fill_rect start l (l + 1) (end_ + 1) 0 m else m) m.

Definition mask_one_quote (sp : SENTENCE_DATA) (m : matrix Z) (q : Z * Z) : matrix Z :=
  let '(start, end_) := q in
  if start =? end_ then m
  else mask_stops sp start end_ (mask_right sp start end_ (mask_above sp start end_ m)).

Definition mask_quote (sp : SENTENCE_DATA) (qd : QUOTE_DATA) (Quote_matrix : matrix Z)
  : res (matrix Z) :=
  qs <- quote_entries qd ;;
  Ret (fold_left (mask_one_quote sp) qs Quote_matrix).

(** [mask_quote_for_chi], for Chinese *)
Definition chi_matrices : Type := matrix Z * matrix Z * matrix Z.

Definition mask_one_quote_for_chi (sp : SENTENCE_DATA) (OptChiPos : bool) (ms : chi_matrices)
    (q : Z * Z) : chi_matrices :=
  let '(start, end_) := q in
  let '(m, qs, qe) := ms in
  if start =? end_ then ms
  else if OptChiPos || (bnst_has sp start "PU" && bnst_has sp end_ "PU") then
    let m := for_up 0 start (fun i m => mset (mset m i start 0) i end_ 0) m in
    let m := for_up (end_ + 1) (Bnst_num sp) (fun i m => mset (mset m start i 0) end_ i 0) m in
    let m := mset m start end_ 0 in
    let qs := for_up start (end_ + 1) (fun j s => fill_row j j (end_ + 1) start s) qs in
    let qe := for_up start (end_ + 1) (fun j s => fill_row j j (end_ + 1) end_ s) qe in
    (m, mset qs start end_ (-1), mset qe start end_ (-1))
  else ms.

Definition mask_quote_for_chi (sp : SENTENCE_DATA) (OptChiPos : bool) (qd : QUOTE_DATA)
    (ms : chi_matrices) : res chi_matrices :=
  qs <- quote_entries qd ;;
  Ret (fold_left (mask_one_quote_for_chi sp OptChiPos) qs ms).

(** ** quote *)
Definition quote (Chinese OptChiGenerative OptChiPos : bool) (sp : SENTENCE_DATA)
    (qd : QUOTE_DATA) (ms : chi_matrices) : res (Z * QUOTE_DATA * chi_matrices) :=
  let '(m, qs, qe) := ms in
  let '(qd, m, qs, qe) := init_quote sp qd m qs qe in
  if negb Chinese || negb OptChiGenerative then
    let '(quote_p, qd) := check_quote sp qd in
    if (quote_p =? FALSE) || (quote_p =? CONTINUE) then Ret (quote_p, qd, (m, qs, qe))
    else if Chinese then
      ms <- mask_quote_for_chi sp OptChiPos qd (m, qs, qe) ;; Ret (quote_p, qd, ms)
    else
      m <- mask_quote sp qd m ;; Ret (quote_p, qd, (m, qs, qe))
  else Ret (FALSE, qd, (m, qs, qe)).

(** ** add_comment *)
Definition add_comment (add_string : string) (sp : SENTENCE_DATA) : SENTENCE_DATA :=
  match Comment sp with
  | Some orig => set_Comment (Some (orig ++ " " ++ add_string)%string) sp
  | None => set_Comment (Some add_string) sp
  end.

(** ** process_input_paren

    The marks of [paren_table]. *)
Definition PAREN_B : string := "（".
Definition PAREN_E : string := "）".
Definition PAREN_COMMENT_TEMPLATE : string := "括弧始:（ 括弧終:） 括弧位置:".

Inductive mark : Type := Outside | Begin | Inside | End_.

Definition is_mark (a b : mark) : bool :=
  match a, b with
  | Outside, Outside | Begin, Begin | Inside, Inside | End_, End_ => true
  | _, _ => false
  end.

(** The check of the parentheses.  [pc_start] is the local [paren_start],
    [None] before its first assignment (reading it then is undefined). *)
Record paren_check : Type := mkPC {
  pc_table : array mark;
  pc_level : Z;
  pc_start : option Z;
  pc_mrph_num : Z;
  pc_num : Z
}.

Definition paren_check_step (goi : string) (i : Z) (st : res paren_check) : res paren_check :=
  st <- st ;;
  let '(mkPC table level start mrph_num num) := st in
  if str_eq goi PAREN_B then
    Ret (mkPC table (level + 1) (if level =? 0 then Some i else start) mrph_num num)
  else if str_eq goi PAREN_E then
    let level := level - 1 in
    if level =? 0 then
      match start with
      | None => Err BadPointer
      | Some s =>
          if i =? s + 1 then Ret (mkPC table level start mrph_num num)
          else
            let table := aset (aset table s Begin) i End_ in
            let table := for_up (s + 1) i (fun j t => aset t j Inside) table in
            Ret (mkPC table level start (mrph_num + 2 + (i - (s + 1))) (num + 1))
      end
    else Ret (mkPC table level start mrph_num num)
  else Ret st.

Definition check_parens (sp : SENTENCE_DATA) : res paren_check :=
  for_up 0 (Mrph_num sp) (fun i => paren_check_step (m_Goi (mrph_data sp i)) i)
    (Ret (mkPC (fun _ => Outside) 0 None 0 0)).

(** [sprintf("%02d", n)] for the numbers of the sentences ([n >= 0]) *)
Definition itoa02 (n : Z) : string :=
  if n <? 10 then String "0" (itoa n) else itoa n.

(** A sentence for a parenthesis: it gets the fields that the code sets. *)
Definition new_paren_sentence (sp : SENTENCE_DATA) (i : Z) : SENTENCE_DATA :=
  set_Mrph_num 0
    (set_KNPSID (KNPSID sp ++ "-" ++ itoa02 (i + 2))%string
      (set_Comment (Some PAREN_COMMENT_TEMPLATE) SENTENCE_DATA_0)).

(** The text of the position fits in the buffer when it has at most three
    digits: [Comment] is allocated with [strlen(PAREN_COMMENT_TEMPLATE) + 4]. *)
Definition append_position (char_pos : Z) (psp : SENTENCE_DATA) : res SENTENCE_DATA :=
  match Comment psp with
  | None => Err NullDeref
  | Some c =>
      let c' := (c ++ itoa char_pos)%string in
      if slen PAREN_COMMENT_TEMPLATE + 4 <=? slen c' then Err OutOfBounds
      else Ret (set_Comment (Some c') psp)
  end.

Definition append_mrph (m : MRPH_DATA) (psp : SENTENCE_DATA) : SENTENCE_DATA :=
  set_Mrph_num (Mrph_num psp + 1)
    (set_mrph_data (aset (mrph_data psp) (Mrph_num psp) (set_m_num (Mrph_num psp) m)) psp).

(** The separation of the sentence. *)
Record paren_split : Type := mkPS {
  ps_sp : SENTENCE_DATA;
  ps_paren : array SENTENCE_DATA;
  ps_j : Z;
  ps_count : Z;
  ps_pos : Z
}.

Definition set_mrph (i : Z) (m : MRPH_DATA) (sp : SENTENCE_DATA) : SENTENCE_DATA :=
  set_mrph_data (aset (mrph_data sp) i m) sp.

Definition clear_mrph_f (i : Z) (sp : SENTENCE_DATA) : SENTENCE_DATA :=
  set_mrph i (set_m_f [] (mrph_data sp i)) sp.

Definition split_step (table : array mark) (i : Z) (st : res paren_split) : res paren_split :=
  st <- st ;;
  let '(mkPS sp paren j count pos) := st in
  r <- match table i with
       | Outside =>
           let sp' := if i =? j then sp
             else clear_mrph_f i (set_mrph j (set_m_num j (mrph_data sp i)) sp) in
           Ret (sp', paren, j + 1, count)
       | Begin =>
           let count := count + 1 in
           psp <- append_position pos (paren count) ;;
           Ret (sp, aset paren count psp, j, count)
       | Inside =>
           Ret (clear_mrph_f i sp,
                aset paren count (append_mrph (mrph_data sp i) (paren count)), j, count)
       | End_ => Ret (sp, paren, j, count)
       end ;;
  let '(sp', paren, j, count) := r in
  len <- string_length (m_Goi2 (mrph_data sp' i)) ;;
  Ret (mkPS sp' paren j count (pos + len)).

(** The number of parentheses and their sentences; 0 when nothing is done. *)
Definition process_input_paren (sp : SENTENCE_DATA)
  : res (Z * SENTENCE_DATA * array SENTENCE_DATA) :=
  pc <- check_parens sp ;;
  let '(mkPC table _ _ paren_mrph_num paren_num) := pc in
  if (paren_num =? 0) || (PAREN_MAX <=? paren_num) ||
     (is_mark (table 0) Begin && is_mark (table (Mrph_num sp - 1)) End_)
  then Ret (0, sp, fun _ => SENTENCE_DATA_0)
  else
    let paren := fun i => new_paren_sentence sp i in
    let sp := add_comment "括弧削除" (set_KNPSID (KNPSID sp ++ "-01")%string sp) in
    st <- for_up 0 (Mrph_num sp) (split_step table) (Ret (mkPS sp paren 0 (-1) 0)) ;;
    let sp' := ps_sp st in
    Ret (paren_num, set_Mrph_num (Mrph_num sp' - paren_mrph_num) sp', ps_paren st).

Definition prepare_paren_sentence (sp paren_sp : SENTENCE_DATA) : SENTENCE_DATA :=
  let sp := set_Mrph_num (Mrph_num paren_sp)
              (set_Comment (Comment paren_sp) (set_KNPSID (KNPSID paren_sp) sp)) in
  for_up 0 (Mrph_num paren_sp) (fun i sp => set_mrph i (mrph_data paren_sp i) sp) sp.

(** * Properties *)

(** ** The brackets found by check_quote *)

(** The extent of entry [j]; a missing end is open to the start, or to [n - 1]. *)
Definition qstart (qd : QUOTE_DATA) (j : Z) : Z := Z.max 0 (in_num qd j).

(** Two ranges that do not cross. *)
Definition laminar (a b c d : Z) : Prop :=
  b < c \/ d < a \/ (a <= c /\ d <= b) \/ (c <= a /\ b <= d).

(** The invariant of the loop: [i] bounds the bunsetsus of the entries,
    [o] those of the closing brackets. *)
Record quote_inv (i o : Z) (st : quote_state) : Prop := {
  qi_k : 0 <= qs_k st <= QUOTE_MAX - 1;
  qi_unused : forall j, qs_k st <= j < QUOTE_MAX ->
    in_num (qs_data st) j = -1 /\ out_num (qs_data st) j = -1;
  qi_in : forall j, 0 <= j < qs_k st -> -1 <= in_num (qs_data st) j <= i;
  qi_out : forall j, 0 <= j < qs_k st -> -1 <= out_num (qs_data st) j <= o;
  qi_one : forall j, 0 <= j < qs_k st -> out_num (qs_data st) j = -1 -> 0 <= in_num (qs_data st) j;
  qi_le : forall j, 0 <= j < qs_k st -> out_num (qs_data st) j <> -1 ->
    in_num (qs_data st) j <= out_num (qs_data st) j;
  qi_stack : forall j, In j (qs_stack st) <-> 0 <= j < qs_k st /\ out_num (qs_data st) j = -1;
  qi_sorted : StronglySorted Z.gt (qs_stack st);
  qi_open : forall j1 j2, 0 <= j1 < j2 -> j2 < qs_k st ->
    out_num (qs_data st) j1 = -1 -> 0 <= in_num (qs_data st) j1 <= in_num (qs_data st) j2;
  qi_before : forall j1 j2, 0 <= j1 < j2 -> j2 < qs_k st ->
    out_num (qs_data st) j1 <> -1 -> out_num (qs_data st) j2 = -1 ->
    out_num (qs_data st) j1 < in_num (qs_data st) j2;
  qi_laminar : forall j1 j2, 0 <= j1 < j2 -> j2 < qs_k st ->
    out_num (qs_data st) j1 <> -1 -> out_num (qs_data st) j2 <> -1 ->
    laminar (qstart (qs_data st) j1) (out_num (qs_data st) j1)
            (qstart (qs_data st) j2) (out_num (qs_data st) j2)
}.

Lemma quote_inv_weaken : forall i o i' o' st, quote_inv i o st -> i <= i' -> o <= o' ->
  quote_inv i' o' st.
Proof.
  intros i o i' o' st H Hi Ho. destruct H as [H1 H2 H3 H4 H5 H6 H7 H8 H9 H10 H11].
  split; auto; intros j Hj.
  - specialize (H3 j Hj). lia.
  - specialize (H4 j Hj). lia.
Qed.

(** A new entry at [k] whose bunsetsu is [i], opened after all others were recorded. *)
Lemma open_quote_inv : forall i st st', 0 <= i -> quote_inv i (i - 1) st ->
  open_quote i st = Going st' -> quote_inv i (i - 1) st'.
Proof.
  intros i [qd k stack] st' Hi H E. unfold open_quote in E.
  destruct (Z.leb_spec (QUOTE_MAX - 1) k); inv E.
  destruct H as [H1 H2 H3 H4 H5 H6 H7 H8 H9 H10 H11]. unfold qstart in *.
  cbn [qs_data qs_k qs_stack in_num out_num] in *.
  pose proof (H2 k ltac:(lia)) as [Hk1 Hk2].
  split; unfold qstart; cbn [qs_data qs_k qs_stack in_num out_num].
  - lia.
  - intros j Hj. specialize (H2 j ltac:(lia)). aset_cases; [lia | auto].
  - intros j Hj. aset_cases; [lia | apply H3; lia].
  - intros j Hj. destruct (Z.eq_dec j k) as [->|]; [lia | apply H4; lia].
  - intros j Hj Ho. aset_cases; [lia | apply H5; lia].
  - intros j Hj Ho. aset_cases; [lia | apply H6; lia].
  - intros j. cbn [In]. rewrite H7. split.
    + intros [<-|[? ?]]; split; lia.
    + intros [? ?]. destruct (Z.eq_dec k j); [auto | right; lia].
  - constructor; auto. apply Forall_forall. intros j Hj. apply H7 in Hj. lia.
  - intros j1 j2 Hj Hk Ho. aset_cases; try lia.
    + specialize (H5 j1 ltac:(lia) Ho). specialize (H3 j1 ltac:(lia)). lia.
    + apply H9; lia.
  - intros j1 j2 Hj Hk Ho1 Ho2. aset_cases.
    + specialize (H4 j1 ltac:(lia)). lia.
    + apply H10; lia.
  - intros j1 j2 Hj Hk Ho1 Ho2. aset_cases; try lia. apply H11; lia.
Qed.

Lemma close_quote_inv : forall i st st', 0 <= i -> quote_inv i i st ->
  close_quote i st = Going st' -> quote_inv i i st'.
Proof.
  intros i [qd k stack] st' Hi H E. unfold close_quote in E.
  destruct H as [H1 H2 H3 H4 H5 H6 H7 H8 H9 H10 H11]. unfold qstart in *.
  cbn [qs_data qs_k qs_stack in_num out_num] in *.
  destruct stack as [|t stack].
  - destruct (Z.leb_spec (QUOTE_MAX - 1) k); inv E.
    pose proof (H2 k ltac:(lia)) as [Hk1 Hk2].
    assert (Hc : forall j, 0 <= j < k -> out_num qd j <> -1).
    { intros j Hj Ho. now apply (H7 j). }
    split; unfold qstart; cbn [qs_data qs_k qs_stack in_num out_num]; auto; try lia.
    + intros j Hj. specialize (H2 j ltac:(lia)). aset_cases; [lia | auto].
    + intros j Hj. destruct (Z.eq_dec j k) as [->|]; [lia | apply H3; lia].
    + intros j Hj. aset_cases; [lia | apply H4; lia].
    + intros j Hj Ho. aset_cases; [lia | apply H5; lia].
    + intros j Hj Ho. aset_cases; [lia | apply H6; lia].
    + intros j. split; [intros [] |]. intros [Hj Ho]. aset_cases; [lia|].
      exfalso. apply (Hc j); lia.
    + intros j1 j2 Hj Hk Ho. aset_cases; [lia|]. exfalso. apply (Hc j1); lia.
    + intros j1 j2 Hj Hk Ho1 Ho2. aset_cases; try lia. exfalso. apply (Hc j2); lia.
    + intros j1 j2 Hj Hk Ho1 Ho2. aset_cases; try lia; [|apply H11; lia].
      specialize (H4 j1 ltac:(lia)). unfold laminar. lia.
  - inv E. assert (Ht : 0 <= t < k /\ out_num qd t = -1) by (apply H7; left; auto).
    destruct Ht as [Ht Hto]. apply StronglySorted_inv in H8 as [Hs Hall].
    rewrite Forall_forall in Hall.
    assert (Hc : forall j, t < j < k -> out_num qd j <> -1).
    { intros j Hj Ho. assert (In j (t :: stack)) as [->|Hin] by (apply H7; lia); [lia|].
      apply Hall in Hin. lia. }
    pose proof (H5 t Ht Hto) as Hti. pose proof (H3 t Ht) as Hti'.
    split; unfold qstart; cbn [qs_data qs_k qs_stack in_num out_num]; auto; try lia.
    + intros j Hj. specialize (H2 j ltac:(lia)). aset_cases; [lia | auto].
    + intros j Hj. aset_cases; [lia | apply H4; lia].
    + intros j Hj Ho. aset_cases; [lia | apply H5; lia].
    + intros j Hj Ho. aset_cases; [lia | apply H6; lia].
    + intros j. specialize (H7 j). cbn [In] in H7. split.
      * intros Hin. specialize (Hall j Hin). aset_cases; [lia | tauto].
      * intros [Hj Ho]. aset_cases; [lia|]. destruct (proj2 H7 (conj Hj Ho)); [lia | auto].
    + intros j1 j2 Hj Hk Ho. aset_cases; [lia | apply H9; lia].
    + intros j1 j2 Hj Hk Ho1 Ho2. aset_cases; try lia; [|apply H10; lia].
      exfalso. apply (Hc j2); lia.
    + intros j1 j2 Hj Hk Ho1 Ho2. aset_cases; try lia; [ | |apply H11; lia].
      * specialize (H10 j1 t ltac:(lia) ltac:(lia) Ho1 Hto). unfold laminar. lia.
      * specialize (H9 t j2 ltac:(lia) Hk Hto). specialize (H4 j2 ltac:(lia)).
        unfold laminar. lia.
Qed.

Lemma once_or_twice_inv : forall (P : quote_state -> Prop) act p p2 st st',
  (forall st st', P st -> act st = Going st' -> P st') ->
  P st -> once_or_twice act p p2 st = Going st' -> P st'.
Proof.
  intros P act p p2 st st' Hact H E. unfold once_or_twice in E.
  destruct p; [|now inv E]. destruct (act st) as [st1|] eqn:E1; [|discriminate].
  cbn in E. destruct p2; [eauto | inv E; eauto].
Qed.

Lemma check_quote_step_inv : forall sp i st st', 0 <= i -> quote_inv i (i - 1) st ->
  check_quote_step sp i st = Going st' -> quote_inv i i st'.
Proof.
  intros sp i st st' Hi H E. unfold check_quote_step in E.
  destruct (once_or_twice (open_quote i) _ _ st) as [st1|] eqn:E1; [|discriminate].
  cbn in E. apply once_or_twice_inv with (P := quote_inv i (i - 1)) in E1; auto.
  - apply once_or_twice_inv with (P := quote_inv i i) in E; auto.
    + intros. eapply close_quote_inv; eauto.
    + eapply quote_inv_weaken; eauto; lia.
  - intros. eapply open_quote_inv; eauto.
Qed.

Lemma check_quote_loop_inv : forall sp n lo st st', 0 <= lo ->
  quote_inv (lo - 1) (lo - 1) st ->
  check_quote_loop sp (zseq lo n) st = Going st' ->
  quote_inv (lo + Z.of_nat n - 1) (lo + Z.of_nat n - 1) st'.
Proof.
  intros sp. induction n as [|n IH]; intros lo st st' Hlo H E; cbn [zseq check_quote_loop] in E.
  - inv E. now replace (lo + Z.of_nat 0 - 1) with (lo - 1) by lia.
  - destruct (check_quote_step sp lo st) as [st1|] eqn:E1; [|discriminate]. cbn in E.
    apply IH in E; [| lia |].
    + now replace (lo + Z.of_nat (S n) - 1) with (lo + 1 + Z.of_nat n - 1) by lia.
    + replace (lo + 1 - 1) with lo by lia.
      eapply check_quote_step_inv; eauto. eapply quote_inv_weaken; eauto; lia.
Qed.

Lemma init_quote_data_at : forall qd j, 0 <= j < QUOTE_MAX ->
  in_num (init_quote_data qd) j = -1 /\ out_num (init_quote_data qd) j = -1.
Proof.
  intros qd j Hj. unfold init_quote_data.
  assert (W : within 0 j QUOTE_MAX = true) by (destruct (within_spec 0 j QUOTE_MAX); auto; lia).
  split.
  - rewrite (for_up_pointwise (fun qd p => in_num qd p) (fun i p => p =? i) (fun _ _ => -1));
      [now rewrite existsb_zrange_eq, W | reflexivity | intros; blia].
  - rewrite (for_up_pointwise (fun qd p => out_num qd p) (fun i p => p =? i) (fun _ _ => -1));
      [now rewrite existsb_zrange_eq, W | reflexivity | intros; blia].
Qed.

Lemma quote_inv_init : forall qd, quote_inv (-1) (-1) (mkQS (init_quote_data qd) 0 []).
Proof.
  intros qd. split; cbn [qs_data qs_k qs_stack]; try (intros; lia); try (unfold QUOTE_MAX; lia).
  - intros j Hj. apply init_quote_data_at. lia.
  - intros j. cbn [In]. lia.
  - constructor.
Qed.

Lemma fill_quotes_at : forall sp k qd j,
  in_num (for_up 0 k (fill_quote sp) qd) j =
    (if within 0 j k then if in_num qd j =? -1 then 0 else in_num qd j else in_num qd j) /\
  out_num (for_up 0 k (fill_quote sp) qd) j =
    (if within 0 j k then if out_num qd j =? -1 then Bnst_num sp - 1 else out_num qd j
     else out_num qd j).
Proof.
  intros sp k qd j. split.
  - rewrite (for_up_pointwise (fun qd p => in_num qd p) (fun i p => p =? i)
      (fun _ v => if v =? -1 then 0 else v)).
    + now rewrite existsb_zrange_eq.
    + intros i s _. unfold fill_quote. cbn [in_num].
      destruct (Z.eqb_spec (in_num s i) (-1)); unfold aset;
        destruct (Z.eqb_spec j i); subst; auto;
        destruct (Z.eqb_spec (in_num s i) (-1)); auto; contradiction.
    + intros; blia.
  - rewrite (for_up_pointwise (fun qd p => out_num qd p) (fun i p => p =? i)
      (fun _ v => if v =? -1 then Bnst_num sp - 1 else v)).
    + now rewrite existsb_zrange_eq.
    + intros i s _. unfold fill_quote. cbn [out_num].
      destruct (Z.eqb_spec (out_num s i) (-1)); unfold aset;
        destruct (Z.eqb_spec j i); subst; auto;
        destruct (Z.eqb_spec (out_num s i) (-1)); auto; contradiction.
    + intros; blia.
Qed.

(** What check_quote promises to its clients (mask_quote, mask_quote_scope): [k]
    brackets that do not cross, and a sentinel after them. *)
Record quotes_ok (n k : Z) (qd : QUOTE_DATA) : Prop := {
  qo_k : 0 <= k <= QUOTE_MAX - 1;
  qo_sentinel : forall j, k <= j < QUOTE_MAX -> in_num qd j = -1;
  qo_range : forall j, 0 <= j < k -> 0 <= in_num qd j <= out_num qd j /\ out_num qd j < n;
  qo_laminar : forall j1 j2, 0 <= j1 < k -> 0 <= j2 < k ->
    laminar (in_num qd j1) (out_num qd j1) (in_num qd j2) (out_num qd j2)
}.

Lemma quote_inv_final : forall sp st, 0 <= Bnst_num sp ->
  quote_inv (Bnst_num sp - 1) (Bnst_num sp - 1) st ->
  quotes_ok (Bnst_num sp) (qs_k st) (for_up 0 (qs_k st) (fill_quote sp) (qs_data st)).
Proof.
  intros sp [qd k stack] Hn H. destruct H as [H1 H2 H3 H4 H5 H6 H7 H8 H9 H10 H11].
  cbn [qs_data qs_k qs_stack] in *. unfold qstart in H11.
  assert (F : forall j, 0 <= j < k ->
    in_num (for_up 0 k (fill_quote sp) qd) j = (if in_num qd j =? -1 then 0 else in_num qd j) /\
    out_num (for_up 0 k (fill_quote sp) qd) j =
      (if out_num qd j =? -1 then Bnst_num sp - 1 else out_num qd j)).
  { intros j Hj. destruct (fill_quotes_at sp k qd j) as [-> ->].
    destruct (within_spec 0 j k); [auto | lia]. }
  assert (R : forall j, 0 <= j < k ->
    0 <= in_num (for_up 0 k (fill_quote sp) qd) j <= out_num (for_up 0 k (fill_quote sp) qd) j /\
    out_num (for_up 0 k (fill_quote sp) qd) j < Bnst_num sp).
  { intros j Hj. destruct (F j Hj) as [-> ->].
    pose proof (H3 j Hj). pose proof (H4 j Hj). pose proof (H5 j Hj). pose proof (H6 j Hj).
    destruct (Z.eqb_spec (in_num qd j) (-1)); destruct (Z.eqb_spec (out_num qd j) (-1)); lia. }
  assert (L : forall j1 j2, 0 <= j1 < j2 -> j2 < k ->
    laminar (in_num (for_up 0 k (fill_quote sp) qd) j1) (out_num (for_up 0 k (fill_quote sp) qd) j1)
      (in_num (for_up 0 k (fill_quote sp) qd) j2) (out_num (for_up 0 k (fill_quote sp) qd) j2)).
  { intros j1 j2 Hj Hk. pose proof (R j1 ltac:(lia)) as R1. pose proof (R j2 ltac:(lia)) as R2.
    destruct (F j1 ltac:(lia)) as [E1 E2]. destruct (F j2 ltac:(lia)) as [E3 E4].
    rewrite E1, E2, E3, E4 in *. unfold laminar in *.
    pose proof (H9 j1 j2 Hj Hk). pose proof (H10 j1 j2 Hj Hk). pose proof (H11 j1 j2 Hj Hk).
    destruct (Z.eqb_spec (in_num qd j1) (-1)); destruct (Z.eqb_spec (out_num qd j1) (-1));
    destruct (Z.eqb_spec (in_num qd j2) (-1)); destruct (Z.eqb_spec (out_num qd j2) (-1)); lia. }
  split; auto.
  - intros j Hj. destruct (fill_quotes_at sp k qd j) as [-> _].
    destruct (within_spec 0 j k); [lia | apply H2; lia].
  - intros j1 j2 Hj1 Hj2. destruct (Z.lt_total j1 j2) as [?|[->|?]].
    + apply L; lia.
    + unfold laminar. lia.
    + specialize (L j2 j1 ltac:(lia) ltac:(lia)). unfold laminar in *. lia.
Qed.

Lemma check_quote_ok : forall sp qd p qd', 0 <= Bnst_num sp ->
  check_quote sp (init_quote_data qd) = (p, qd') -> p <> CONTINUE ->
  exists k, quotes_ok (Bnst_num sp) k qd' /\ p = if 0 <? k then TRUE else FALSE.
Proof.
  intros sp qd p qd' Hn E Hp. unfold check_quote in E.
  destruct (check_quote_loop _ _ _) as [[qd1 k s]|] eqn:EL; inv E; [|contradiction].
  exists k. split; auto.
  apply (quote_inv_final sp (mkQS qd1 k s) Hn).
  unfold zrange in EL. apply check_quote_loop_inv in EL; [| lia | apply quote_inv_init].
  cbn [qs_k qs_data] in EL.
  now replace (0 + Z.of_nat (Z.to_nat (Bnst_num sp - 0)) - 1) with (Bnst_num sp - 1) in EL by lia.
Qed.

(** The brackets that check_quote finds are ranges of bunsetsus of the sentence, no
    two of them cross (they are disjoint or nested), at most QUOTE_MAX - 1 of them are
    recorded, the entry after them is the sentinel -1 that ends the loops over
    quote_data, and TRUE is returned exactly when there is one. *)
Theorem check_quote_laminar : forall sp qd p qd', 0 <= Bnst_num sp ->
  check_quote sp (init_quote_data qd) = (p, qd') -> p <> CONTINUE ->
  exists k, 0 <= k <= QUOTE_MAX - 1 /\ (p = TRUE <-> 0 < k) /\
    (forall j, k <= j < QUOTE_MAX -> in_num qd' j = -1) /\
    (forall j, 0 <= j < k -> 0 <= in_num qd' j <= out_num qd' j /\ out_num qd' j < Bnst_num sp) /\
    (forall j1 j2, 0 <= j1 < k -> 0 <= j2 < k ->
       laminar (in_num qd' j1) (out_num qd' j1) (in_num qd' j2) (out_num qd' j2)).
Proof.
  intros sp qd p qd' Hn E Hp. destruct (check_quote_ok sp qd p qd' Hn E Hp) as [k [[] ->]].
  exists k. repeat split; auto; try lia.
  - destruct (Z.ltb_spec 0 k); [auto | discriminate].
  - intros H. destruct (Z.ltb_spec 0 k); [reflexivity | lia].
  - now apply qo_range0.
  - now apply qo_range0.
  - now apply qo_range0.
Qed.

Definition quote_example : SENTENCE_DATA :=
  sentence_of [["係:連格"]; ["括弧始"; "括弧始２"]; ["括弧終"; "係:文末"]; []; ["括弧終"]; ["括弧終"]]%string.

Definition no_quotes : QUOTE_DATA := mkQD (fun _ => 0) (fun _ => 0).

Lemma check_quote_laminar_witness :
  exists k, 0 <= k <= QUOTE_MAX - 1 /\ (TRUE = TRUE <-> 0 < k) /\
    (forall j, k <= j < QUOTE_MAX ->
       in_num (snd (check_quote quote_example (init_quote_data no_quotes))) j = -1) /\
    (forall j, 0 <= j < k ->
       0 <= in_num (snd (check_quote quote_example (init_quote_data no_quotes))) j
         <= out_num (snd (check_quote quote_example (init_quote_data no_quotes))) j /\
       out_num (snd (check_quote quote_example (init_quote_data no_quotes))) j < 6) /\
    (forall j1 j2, 0 <= j1 < k -> 0 <= j2 < k ->
       laminar (in_num (snd (check_quote quote_example (init_quote_data no_quotes))) j1)
               (out_num (snd (check_quote quote_example (init_quote_data no_quotes))) j1)
               (in_num (snd (check_quote quote_example (init_quote_data no_quotes))) j2)
               (out_num (snd (check_quote quote_example (init_quote_data no_quotes))) j2)).
Proof.
  apply (check_quote_laminar quote_example no_quotes TRUE
    (snd (check_quote quote_example (init_quote_data no_quotes)))).
  - vm_compute. discriminate.
  - apply injective_projections; [vm_compute|]; reflexivity.
  - discriminate.
Defined.

(** ** The mask of the brackets *)

(** Does the bracket [start .. end_] forbid the dependency of [i] on [j]? *)
Definition quote_blocks (sp : SENTENCE_DATA) (i j : Z) (q : Z * Z) : bool :=
  let '(start, end_) := q in
  negb (start =? end_) &&
  ((within 0 i start && within start j end_) ||
   (within 0 i start && (j =? end_) && negb (enters_quote sp i)) ||
   (within start i end_ && within (end_ + 1) j (Bnst_num sp)) ||
   existsb (fun l => bnst_has sp l "係:文末" && (within start i l && within (l + 1) j (end_ + 1)))
     (zrange start end_)).

Lemma mask_above_at : forall sp start end_ m i j,
  mask_above sp start end_ m i j =
    if within 0 i start && (within start j end_ || ((j =? end_) && negb (enters_quote sp i)))
    then 0 else m i j.
Proof.
  intros sp start end_ m i j. unfold mask_above.
  rewrite (for_up_pointwise (fun (m : matrix Z) (p : Z * Z) => m (fst p) (snd p))
    (fun l p => (fst p =? l) &&
       (within start (snd p) end_ || ((snd p =? end_) && negb (enters_quote sp (fst p)))))
    (fun _ _ => 0) 0 start _ m (i, j)); cbn [fst snd].
  - destruct (within start j end_ || (j =? end_) && negb (enters_quote sp i)).
    + rewrite andb_true_r. erewrite existsb_ext; [|intros; apply andb_true_r].
      now rewrite existsb_zrange_eq.
    + rewrite andb_false_r, existsb_false; auto. intros. apply andb_false_r.
  - intros l s _.
    assert (F : forall x y, fill_row l start end_ 0 s x y =
      if (x =? l) && within start y end_ then 0 else s x y) by (intros; apply fill_row_at).
    assert (W : within start end_ end_ = false) by (destruct (within_spec start end_ end_); auto; lia).
    rewrite F, Z.eqb_refl, W. cbn [andb].
    destruct (Z.eqb_spec i l) as [->|Hn]; cbn [andb].
    + destruct (Z.eqb_spec j end_) as [->|Hj].
      * rewrite W. cbn [orb andb]. destruct (enters_quote sp l); cbn [negb].
        -- rewrite andb_true_r. destruct (Z.eqb_spec (s l end_) 0) as [E|E]; cbn [negb].
           ++ unfold mset. rewrite !Z.eqb_refl. now rewrite E.
           ++ now rewrite F, Z.eqb_refl, W.
        -- rewrite andb_false_r. unfold mset. now rewrite !Z.eqb_refl.
      * rewrite orb_false_r. destruct (_ && enters_quote sp l).
        -- now rewrite F, Z.eqb_refl.
        -- rewrite mset_ne by lia. now rewrite F, Z.eqb_refl.
    + destruct (_ && enters_quote sp l).
      * rewrite F. now destruct (Z.eqb_spec i l).
      * rewrite mset_ne by lia. rewrite F. now destruct (Z.eqb_spec i l).
  - intros a b _ _ Ha Hb. blia.
Qed.

(** A sequence of masks zeroes a point when one of them does. *)
Lemma masks_at : forall {A} (f : matrix Z -> A -> matrix Z) (blk : A -> bool) i j l m,
  (forall m a, f m a i j = if blk a then 0 else m i j) ->
  fold_left f l m i j = if existsb blk l then 0 else m i j.
Proof.
  intros A f blk i j l. induction l as [|a l IH]; intros m H; cbn; auto.
  rewrite IH, H by auto. destruct (blk a); cbn [orb]; auto.
  now destruct (existsb blk l).
Qed.

Lemma mask_one_quote_at : forall sp m q i j,
  mask_one_quote sp m q i j = if quote_blocks sp i j q then 0 else m i j.
Proof.
  intros sp m [start end_] i j. unfold mask_one_quote, quote_blocks.
  destruct (start =? end_); cbn [negb andb]; auto.
  unfold mask_stops, for_up.
  rewrite masks_at with
    (blk := fun l => bnst_has sp l "係:文末" && (within start i l && within (l + 1) j (end_ + 1))).
  - unfold mask_right. rewrite fill_rect_at, mask_above_at.
    destruct (existsb _ _); [now rewrite orb_true_r|]. rewrite orb_false_r.
    destruct (within start i end_ && within (end_ + 1) j (Bnst_num sp));
      [now rewrite orb_true_r|]. rewrite orb_false_r.
    destruct (within 0 i start); cbn [andb]; auto.
  - intros m' l. destruct (bnst_has sp l "係:文末"); cbn [andb]; auto. apply fill_rect_at.
Qed.

(** The loops over quote_data end at the sentinel. *)
Definition brackets (k : Z) (qd : QUOTE_DATA) : list (Z * Z) :=
  map (fun j => (in_num qd j, out_num qd j)) (zrange 0 k).

Lemma quote_entries_ok : forall n k qd, quotes_ok n k qd ->
  quote_entries qd = Ret (brackets k qd).
Proof.
  intros n k qd [Hk Hs Hr _]. unfold quote_entries, brackets, zrange.
  assert (G : forall m fuel lo, 0 <= lo -> lo + Z.of_nat m = k -> (m < fuel)%nat ->
    quote_entries_go fuel qd lo = Ret (map (fun j => (in_num qd j, out_num qd j)) (zseq lo m))).
  { induction m as [|m IH]; intros fuel lo Hlo Hm Hf; (destruct fuel as [|fuel]; [lia|]);
      cbn [quote_entries_go zseq map].
    - rewrite Hs by lia. reflexivity.
    - destruct (Z.leb_spec 0 (in_num qd lo)) as [_|H].
      + rewrite IH by lia. reflexivity.
      + specialize (Hr lo ltac:(lia)). lia. }
  apply G; unfold QUOTE_MAX in *; lia.
Qed.

(** C33: for Japanese, quote never leaves the arrays, and unless there are too many
    brackets a dependency of bunsetsu [i] on [j] stays allowed exactly when no bracket
    forbids it: it does not enter a bracket from the left, except at its last bunsetsu
    for the adnominal kinds, does not leave one to the right, and does not cross a full
    stop inside one. *)
Theorem quote_spec : forall sp qd m qs qe gen pos, 0 <= Bnst_num sp ->
  exists p qd' m' qs' qe',
    quote false gen pos sp qd (m, qs, qe) = Ret (p, qd', (m', qs', qe')) /\
    (p <> CONTINUE -> exists k, quotes_ok (Bnst_num sp) k qd' /\
      forall i j, 0 <= i < Bnst_num sp -> 0 <= j < Bnst_num sp ->
        m' i j = if existsb (quote_blocks sp i j) (brackets k qd') then 0 else 1).
Proof.
  intros sp qd m qs qe gen pos Hn. unfold quote, init_quote. cbn [negb orb].
  destruct (check_quote sp (init_quote_data qd)) as [p qd'] eqn:E.
  assert (I : forall i j, 0 <= i < Bnst_num sp -> 0 <= j < Bnst_num sp ->
    fill_rect 0 (Bnst_num sp) 0 (Bnst_num sp) 1 m i j = 1).
  { intros i j Hi Hj. rewrite fill_rect_at.
    destruct (within_spec 0 i (Bnst_num sp)); [|lia].
    destruct (within_spec 0 j (Bnst_num sp)); [reflexivity | lia]. }
  destruct (Z.eq_dec p CONTINUE) as [->|Hp].
  { do 5 eexists. split; [reflexivity | intros H; now elim H]. }
  destruct (check_quote_ok sp qd p qd' Hn E Hp) as [k [Hok ->]].
  destruct (Z.ltb_spec 0 k) as [Hk|Hk].
  - change ((TRUE =? FALSE) || (TRUE =? CONTINUE)) with false. cbv iota.
    unfold mask_quote. rewrite (quote_entries_ok _ _ _ Hok).
    do 5 eexists. split; [reflexivity|]. intros _. exists k. split; auto.
    intros i j Hi Hj. rewrite masks_at with (blk := quote_blocks sp i j).
    + now rewrite I.
    + intros. apply mask_one_quote_at.
  - change ((FALSE =? FALSE) || (FALSE =? CONTINUE)) with true. cbv iota.
    do 5 eexists. split; [reflexivity|]. intros _. exists k. split; auto.
    intros i j Hi Hj. unfold brackets. rewrite zrange_nil by lia. now rewrite I.
Qed.

Lemma quote_spec_witness :
  exists p qd' m' qs' qe',
    quote false false false quote_example no_quotes
      (fun _ _ => 0, fun _ _ => 0, fun _ _ => 0) = Ret (p, qd', (m', qs', qe')) /\
    (p <> CONTINUE -> exists k, quotes_ok 6 k qd' /\
      forall i j, 0 <= i < 6 -> 0 <= j < 6 ->
        m' i j = if existsb (quote_blocks quote_example i j) (brackets k qd') then 0 else 1).
Proof. apply (quote_spec quote_example no_quotes). vm_compute. discriminate. Defined.
