(* ===== verification/Regexp.v ===== *)
(** * Patterns on morphemes, bunsetsus and basic phrases (src/system/regexp.c)

    Rules condition a run of morphemes (or bunsetsus, or basic phrases) by a
    pattern: a sequence of element patterns, some of them starred.  This file
    holds the compilation of S-expressions into patterns ([store_*]) and the
    matchers ([regexp*_match], [regexp*rule_match]). *)
From Stdlib Require Import ZArith List Bool String Ascii Lia.
Import ListNotations.
From S2P Require Import Prelude CStr Lisp Feature Sentence SemCode CheckFunction.

(** ** Flags *)
Definition NOT_FLG : Z := chr "^".
Definition MAT_FLG : Z := 0.
Definition AST_FLG : Z := chr "*".
Definition QST_FLG : Z := chr "?".
Definition NOT_STR : string := "^".
Definition AST_STR : string := "*".
Definition QST_STR : string := "?".
Definition RM_MAX : nat := 64.

(** A value list of a pattern is given by its entries before the terminator
    (-1, or a null pointer). *)
Record REGEXPMRPH : Type := mkRM {
  rm_type_flag : Z;
  rm_ast_flag : Z;
  Hinshi_not : Z;
  rm_Hinshi : list Z;
  Bunrui_not : Z;
  rm_Bunrui : list Z;
  Kata_not : Z;
  rm_Katuyou_Kata : list Z;
  Kei_not : Z;
  rm_Katuyou_Kei : list string;
  Goi_not : Z;
  rm_Goi : list string;
  rm_f_pattern : FEATURE_PATTERN
}.

Definition RegexpMrphInitValue : REGEXPMRPH := {|
  rm_type_flag := MAT_FLG; rm_ast_flag := 0;
  Hinshi_not := 0; rm_Hinshi := [0]; Bunrui_not := 0; rm_Bunrui := [0];
  Kata_not := 0; rm_Katuyou_Kata := [0]; Kei_not := 0; rm_Katuyou_Kei := [];
  Goi_not := 0; rm_Goi := []; rm_f_pattern := [] |}.

(** [REGEXPMRPHS]: the array and its size; the null pointer is [None] where it may occur. *)
Definition REGEXPMRPHS : Type := list REGEXPMRPH.

Record REGEXPBNST : Type := mkRB {
  rb_type_flag : Z;
  rb_ast_flag : Z;
  rb_mrphs : option REGEXPMRPHS;
  rb_f_pattern : FEATURE_PATTERN
}.

Definition RegexpBnstInitValue : REGEXPBNST := {|
  rb_type_flag := MAT_FLG; rb_ast_flag := 0; rb_mrphs := None; rb_f_pattern := [] |}.

Definition REGEXPBNSTS : Type := list REGEXPBNST.

Record MrphRule : Type := mkMR {
  mr_pre_pattern : option REGEXPMRPHS;
  mr_self_pattern : option REGEXPMRPHS;
  mr_post_pattern : option REGEXPMRPHS;
  mr_f : FEATURE
}.

Record BnstRule : Type := mkBR {
  br_pre_pattern : option REGEXPBNSTS;
  br_self_pattern : option REGEXPBNSTS;
  br_post_pattern : option REGEXPBNSTS;
  br_f : FEATURE
}.

(** ** The grammar tables of JUMAN

    [Class], [Type] and [Form] are read from the grammar files when the
    program starts: the name of a part of speech [Class i 0], of its subclass
    [Class i j], of a conjugation type and of its forms. *)
Class Grammar : Type := {
  Class_id : Z -> Z -> option string;
  Type_name : Z -> option string;
  Form_name : Z -> Z -> option string
}.

Definition CLASSIFY_NO : Z := 128.
Definition TYPE_NO : Z := 128.
Definition FORM_NO : Z := 128.
Definition RENGO_ID : Z := 127.
(** [error(OtherError, ..)] *)
Definition OtherError : Z := 11.

(** [for (i = 1; strcmp(name[i], x); ) if (!name[++i]) error(..);] *)
Fixpoint search_name (fuel : nat) (name : Z -> option string) (x : string) (i : Z) : res Z :=
  match fuel with
  | O => Err OutOfBounds
  | S f =>
      match name i with
      | None => if i =? 1 then Err NullDeref else Err (ExitErr OtherError)
      | Some s => if str_eq s x then Ret i else search_name f name x (i + 1)
      end
  end.

Section WithGrammar.
Context `{G : Grammar}.

Definition get_hinsi_id (x : string) : res Z :=
  if str_eq x "*" then Ret 0
  else if str_eq x "連語" then Ret RENGO_ID
  else search_name (Z.to_nat CLASSIFY_NO) (fun i => Class_id i 0) x 1.

Definition get_bunrui_id (x : string) (hinsi : Z) : res Z :=
  if str_eq x "*" then Ret 0
  else
    match Class_id hinsi 1 with
    | None => Err (ExitErr OtherError)
    | Some _ => search_name (Z.to_nat CLASSIFY_NO) (fun i => Class_id hinsi i) x 1
    end.

Definition get_type_id (x : string) : res Z :=
  if str_eq x "*" then Ret 0
  else search_name (Z.to_nat (TYPE_NO - 1)) Type_name x 1.

(** ** Storing patterns *)

Inductive item : Type := MRPH_HINSHI | MRPH_BUNRUI | MRPH_KATA | MRPH_KEI | MRPH_GOI.

Definition store_mrph_nflag (mp : REGEXPMRPH) (type : item) : REGEXPMRPH :=
  let '(mkRM t a hn h bn b kn k en e gn g f) := mp in
  match type with
  | MRPH_HINSHI => mkRM t a NOT_FLG h bn b kn k en e gn g f
  | MRPH_BUNRUI => mkRM t a hn h NOT_FLG b kn k en e gn g f
  | MRPH_KATA => mkRM t a hn h bn b NOT_FLG k en e gn g f
  | MRPH_KEI => mkRM t a hn h bn b kn k NOT_FLG e gn g f
  | MRPH_GOI => mkRM t a hn h bn b kn k en e NOT_FLG g f
  end.

(** [while (!Null(car(list_cell))) v[nth++] = conv(_Atom(car(list_cell)))].
    The arrays have 64 entries; a 64th value would leave no terminator. *)
Fixpoint store_values {A} (conv : string -> res A) (cell : CELL) (nth : nat) : res (list A) :=
  match cell with
  | NIL => Ret []
  | ATOM _ => Err LispError
  | CONS NIL _ => Ret []
  | CONS a d =>
      s <- _Atom a ;;
      v <- conv s ;;
      if (RM_MAX <=? S nth)%nat then Err OutOfBounds
      else vs <- store_values conv d (S nth) ;; Ret (v :: vs)
  end.

(** With no value the array keeps its initial contents. *)
Definition stored {A} (old new : list A) : list A := match new with [] => old | _ => new end.

Definition store_item_values (mp : REGEXPMRPH) (list_cell : CELL) (type : item) : res REGEXPMRPH :=
  let '(mkRM t a hn h bn b kn k en e gn g f) := mp in
  match type with
  | MRPH_HINSHI =>
      v <- store_values get_hinsi_id list_cell 0 ;;
      Ret (mkRM t a hn (stored h v) bn b kn k en e gn g f)
  | MRPH_BUNRUI =>
      match h with
      | _ :: _ :: _ => Err LispError
      | _ =>
          v <- store_values (fun s => get_bunrui_id s (hd 0 h)) list_cell 0 ;;
          Ret (mkRM t a hn h bn (stored b v) kn k en e gn g f)
      end
  | MRPH_KATA =>
      v <- store_values get_type_id list_cell 0 ;;
      Ret (mkRM t a hn h bn b kn (stored k v) en e gn g f)
  | MRPH_KEI =>
      v <- store_values (fun s => Ret s) list_cell 0 ;;
      Ret (mkRM t a hn h bn b kn k en (stored e v) gn g f)
  | MRPH_GOI =>
      v <- store_values (fun s => Ret s) list_cell 0 ;;
      Ret (mkRM t a hn h bn b kn k en e gn (stored g v) f)
  end.

(** The rest of the cell (NIL for the null pointer) and the pattern. *)
Definition store_mrph_item (mp : REGEXPMRPH) (mcell : CELL) (type : item)
  : res (CELL * REGEXPMRPH) :=
  a <- car mcell ;;
  if Null a then Ret (NIL, mp)
  else
    r <- (if Atomp a then
            tmp <- _Atom a ;;
            if str_eq tmp AST_STR then Ret None
            else if str_eq tmp NOT_STR then
              mcell' <- cdr mcell ;;
              a' <- car mcell' ;;
              Ret (Some (mcell', if Atomp a' then CONS a' NIL else a', store_mrph_nflag mp type))
            else if starts_with NOT_STR tmp then
              Ret (Some (mcell, CONS (ATOM (skip NOT_STR tmp)) NIL, store_mrph_nflag mp type))
            else Ret (Some (mcell, CONS a NIL, mp))
          else Ret (Some (mcell, a, mp))) ;;
    match r with
    | None => d <- cdr mcell ;; Ret (d, mp)
    | Some (mcell', list_cell, mp') =>
        mp'' <- store_item_values mp' list_cell type ;;
        d <- cdr mcell' ;;
        Ret (d, mp'')
    end.

(** The items of a morpheme in turn, until the cell ends. *)
Fixpoint store_mrph_items (types : list item) (mp : REGEXPMRPH) (mcell : CELL)
  : res (CELL * REGEXPMRPH) :=
  match types with
  | [] => Ret (mcell, mp)
  | type :: types' =>
      ' (mcell', mp') <- store_mrph_item mp mcell type ;;
      if Null mcell' then Ret (NIL, mp') else store_mrph_items types' mp' mcell'
  end.

(** What [store_regexpmrph] does: the element is complete (MAT_FLG, QST_FLG),
    it is a prefix of the next one (NOT_FLG), or it stars the previous one. *)
Inductive stored_as (P : Type) : Type :=
| Complete (mp : P)
| Prefix (mp : P)
| StarPrevious.
Arguments Complete {P} mp.
Arguments Prefix {P} mp.
Arguments StarPrevious {P}.

Definition set_rm_type_flag (v : Z) (r : REGEXPMRPH) : REGEXPMRPH :=
  let '(mkRM t a hn h bn b kn k en e gn g f) := r in mkRM v a hn h bn b kn k en e gn g f.
Definition set_rm_ast_flag (v : Z) (r : REGEXPMRPH) : REGEXPMRPH :=
  let '(mkRM t a hn h bn b kn k en e gn g f) := r in mkRM t v hn h bn b kn k en e gn g f.
Definition set_rm_f_pattern (v : FEATURE_PATTERN) (r : REGEXPMRPH) : REGEXPMRPH :=
  let '(mkRM t a hn h bn b kn k en e gn g f) := r in mkRM t a hn h bn b kn k en e gn g v.

Definition store_regexpmrph (mp : REGEXPMRPH) (mcell : CELL) : res (stored_as REGEXPMRPH) :=
  match mcell with
  | ATOM s =>
      if str_eq s NOT_STR then Ret (Prefix (set_rm_type_flag NOT_FLG mp))
      else if str_eq s QST_STR then Ret (Complete (set_rm_type_flag QST_FLG mp))
      else if str_eq s AST_STR then Ret StarPrevious
      else if str_eq s (QST_STR ++ AST_STR) then
        Ret (Complete (set_rm_ast_flag AST_FLG (set_rm_type_flag QST_FLG mp)))
      else Err LispError
  | _ =>
      let mp := set_rm_f_pattern [] mp in
      ' (mcell, mp) <-
        store_mrph_items [MRPH_HINSHI; MRPH_BUNRUI; MRPH_KATA; MRPH_KEI; MRPH_GOI] mp mcell ;;
      if Null mcell then Ret (Complete mp)
      else
        a <- car mcell ;;
        f <- list2feature_pattern a ;;
        d <- cdr mcell ;;
        if Null d then Ret (Complete (set_rm_f_pattern f mp)) else Err LispError
  end.

(** The loop of [store_regexpmrphs] and [store_regexpbnsts]: [done] are the
    complete elements, last first, and [cur] the one being built.  A star
    with no element before it writes in front of the array. *)
Fixpoint store_seq {P} (store : P -> CELL -> res (stored_as P)) (star : P -> P) (init : P)
    (cell : CELL) (done : list P) (cur : P) : res (list P) :=
  match cell with
  | NIL => Ret (rev done)
  | ATOM _ => Err LispError
  | CONS a d =>
      r <- store cur a ;;
      match r with
      | Complete mp => store_seq store star init d (mp :: done) init
      | Prefix mp => store_seq store star init d done mp
      | StarPrevious =>
          match done with
          | [] => Err OutOfBounds
          | last :: done' => store_seq store star init d (star last :: done') cur
          end
      end
  end.

Definition store_regexpmrphs (cell : CELL) : res (option REGEXPMRPHS) :=
  match cell with
  | NIL => Ret None
  | _ => res_map Some (store_seq store_regexpmrph (set_rm_ast_flag AST_FLG) RegexpMrphInitValue
                         cell [] RegexpMrphInitValue)
  end.

Definition set_rb_type_flag (v : Z) (r : REGEXPBNST) : REGEXPBNST :=
  let '(mkRB t a m f) := r in mkRB v a m f.
Definition set_rb_ast_flag (v : Z) (r : REGEXPBNST) : REGEXPBNST :=
  let '(mkRB t a m f) := r in mkRB t v m f.

Definition store_regexpbnst (bp : REGEXPBNST) (cell : CELL) : res (stored_as REGEXPBNST) :=
  match cell with
  | ATOM s =>
      if str_eq s NOT_STR then Ret (Prefix (set_rb_type_flag NOT_FLG bp))
      else if str_eq s QST_STR then Ret (Complete (set_rb_type_flag QST_FLG bp))
      else if str_eq s AST_STR then Ret StarPrevious
      else if str_eq s (QST_STR ++ AST_STR) then
        Ret (Complete (set_rb_ast_flag AST_FLG (set_rb_type_flag QST_FLG bp)))
      else Err LispError
  | _ =>
      a <- car cell ;;
      ms <- store_regexpmrphs a ;;
      d <- cdr cell ;;
      f <- (if Null d then Ret [] else fc <- car d ;; list2feature_pattern fc) ;;
      Ret (Complete (mkRB (rb_type_flag bp) (rb_ast_flag bp) ms f))
  end.

Definition store_regexpbnsts (cell : CELL) : res (option REGEXPBNSTS) :=
  match cell with
  | NIL => Ret None
  | _ => res_map Some (store_seq store_regexpbnst (set_rb_ast_flag AST_FLG) RegexpBnstInitValue
                         cell [] RegexpBnstInitValue)
  end.

End WithGrammar.

(** ** Matching one morpheme *)

(** The verdict for a negated or plain condition. *)
Definition flag_result (flg : Z) (found : bool) : bool :=
  ((flg =? MAT_FLG) && found) || ((flg =? NOT_FLG) && negb found).

Definition rule_HBK_cmp (flg : Z) (r_data : list Z) (data : Z) : bool :=
  match r_data with
  | [] => true
  | r0 :: _ => if r0 =? 0 then true else flag_result flg (existsb (fun r => r =? data) r_data)
  end.

Definition rule_Kei_cmp `{Grammar} (flg : Z) (r_string : list string) (kata kei : Z) : bool :=
  match r_string with
  | [] => true
  | r0 :: _ =>
      if str_eq r0 AST_STR then true
      else if (kata =? 0) || (kei =? 0) || (TYPE_NO <=? kata) || (FORM_NO <=? kei) then false
      else
        match Form_name kata kei with
        | None => false
        | Some name => flag_result flg (existsb (fun r => str_eq r name) r_string)
        end
  end.

Definition rule_Goi_cmp (flg : Z) (r_string : list string) (d_string : string) : bool :=
  match r_string with
  | [] => true
  | r0 :: _ =>
      if str_eq r0 AST_STR then true
      else flag_result flg (existsb (fun r => str_eq r d_string) r_string)
  end.

(** ** Matching a sequence

    One recursion serves the three copies in the code ([regexpmrphs_match],
    [regexpbnsts_match], [regexptags_match]).  The pattern and the data are
    given in the direction of the match: [r_ptr], [r_ptr + step], ... and
    [d_ptr], [d_ptr + step], ...  The result is the number of data elements
    left, or -1. *)
Section SeqMatch.
Context {P D : Type} (ast : P -> bool) (elem_match : P -> D -> res bool).

Fixpoint seq_match (part long : bool) (rs : list P) (ds : list D) {struct rs} : res Z :=
  match rs with
  | [] =>
      match ds with
      | [] => Ret 0
      | _ => if part then Ret (Z.of_nat (List.length ds)) else Ret (-1)
      end
  | r :: rs' =>
      if ast r then
        (fix star (ds : list D) : res Z :=
           if long then
             match ds with
             | [] => seq_match part long rs' ds
             | d :: ds' =>
                 b <- elem_match r d ;;
                 if b then
                   n <- star ds' ;;
                   if n =? -1 then seq_match part long rs' ds else Ret n
                 else seq_match part long rs' ds
             end
           else
             n <- seq_match part long rs' ds ;;
             if n =? -1 then
               match ds with
               | [] => Ret (-1)
               | d :: ds' => b <- elem_match r d ;; if b then star ds' else Ret (-1)
               end
             else Ret n) ds
      else
        match ds with
        | [] => Ret (-1)
        | d :: ds' =>
            b <- elem_match r d ;;
            if b then seq_match part long rs' ds' else Ret (-1)
        end
  end.

(** The equation of the starred case. *)
Lemma seq_match_star : forall part long r rs ds, ast r = true ->
  seq_match part long (r :: rs) ds =
    if long then
      match ds with
      | [] => seq_match part long rs ds
      | d :: ds' =>
          b <- elem_match r d ;;
          if b then
            n <- seq_match part long (r :: rs) ds' ;;
            if n =? -1 then seq_match part long rs ds else Ret n
          else seq_match part long rs ds
      end
    else
      n <- seq_match part long rs ds ;;
      if n =? -1 then
        match ds with
        | [] => Ret (-1)
        | d :: ds' => b <- elem_match r d ;; if b then seq_match part long (r :: rs) ds' else Ret (-1)
        end
      else Ret n.
Proof.
  intros part long r rs ds H. cbn [seq_match]. rewrite H.
  destruct long; destruct ds as [|d ds]; auto.
Qed.

Lemma seq_match_one : forall part long r rs ds, ast r = false ->
  seq_match part long (r :: rs) ds =
    match ds with
    | [] => Ret (-1)
    | d :: ds' => b <- elem_match r d ;; if b then seq_match part long rs ds' else Ret (-1)
    end.
Proof. intros part long r rs ds H. cbn [seq_match]. now rewrite H. Qed.

(** *** The language of a pattern *)
Context (em : P -> D -> bool).

Inductive matches : list P -> list D -> Prop :=
| m_nil : matches [] []
| m_one : forall r rs d ds, ast r = false -> em r d = true ->
    matches rs ds -> matches (r :: rs) (d :: ds)
| m_skip : forall r rs ds, ast r = true -> matches rs ds -> matches (r :: rs) ds
| m_star : forall r rs d ds, ast r = true -> em r d = true ->
    matches (r :: rs) ds -> matches (r :: rs) (d :: ds).

Inductive suffix_of : list P -> list P -> Prop :=
| sf_refl : forall l, suffix_of l l
| sf_cons : forall x l l', suffix_of l l' -> suffix_of l (x :: l').

Lemma suffix_of_trans : forall a b c, suffix_of a b -> suffix_of b c -> suffix_of a c.
Proof. intros a b c H1 H2. induction H2; auto. constructor. auto. Qed.

Lemma suffix_of_tail : forall x a b, suffix_of (x :: a) b -> suffix_of a b.
Proof. intros x a b H. eapply suffix_of_trans; [|exact H]. constructor. constructor. Qed.

(** A match that consumes an element goes on with a suffix of the pattern. *)
Lemma matches_consume : forall q d l, matches q (d :: l) ->
  exists q', suffix_of q' q /\ matches q' l /\ (forall l', matches q' l' -> matches q (d :: l')).
Proof.
  intros q d l H. remember (d :: l) as dl eqn:E. revert d l E.
  induction H as [|r rs d' ds Ha He H IH|r rs ds Ha H IH|r rs d' ds Ha He H IH]; intros d l E.
  - discriminate.
  - inv E. exists rs. split; [constructor; constructor|]. split; auto.
    intros. now apply m_one.
  - destruct (IH d l E) as [q' [Hs [Hm Hr]]]. exists q'.
    split; [now constructor|]. split; auto. intros. apply m_skip; auto.
  - inv E. exists (r :: rs). split; [constructor|]. split; auto. intros. now apply m_star.
Qed.

(** Two matches of different lengths, one of a pattern and one of a suffix of
    it, can be exchanged: their paths meet. *)
Lemma matches_exchange : forall p l, matches p l -> forall q l2,
  suffix_of q p -> matches q (l ++ l2) -> matches p (l ++ l2) /\ matches q l.
Proof.
  intros p l H.
  induction H as [|r rs d ds Ha He H IH|r rs ds Ha H IH|r rs d ds Ha He H IH];
    intros q l2 Hs Hq.
  - inv Hs. split; [exact Hq | constructor].
  - inv Hs; [split; [exact Hq | now apply m_one]|].
    cbn [app] in *. destruct (matches_consume _ _ _ Hq) as [q' [Hs' [Hm Hr]]].
    destruct (IH q' l2) as [H3 H4]; auto. { eapply suffix_of_trans; eauto. }
    split; [now apply m_one | now apply Hr].
  - inv Hs; [split; [exact Hq | now apply m_skip]|].
    destruct (IH q l2) as [H3 H4]; auto. split; auto. now apply m_skip.
  - inv Hs; [split; [exact Hq | now apply m_star]|].
    cbn [app] in *. destruct (matches_consume _ _ _ Hq) as [q' [Hs' [Hm Hr]]].
    destruct (IH q' l2) as [H3 H4]; auto.
    { constructor. eapply suffix_of_trans; eauto. }
    split; [now apply m_star | now apply Hr].
Qed.

(** *** Correctness *)
Hypothesis elem_match_em : forall r d, elem_match r d = Ret (em r d).

(** The specification of a result on [ds]: [-1], or the rest after a match of a prefix. *)
Definition is_match (part : bool) (rs : list P) (ds : list D) (n : Z) : Prop :=
  exists l l2, ds = l ++ l2 /\ matches rs l /\ n = Z.of_nat (List.length l2) /\
    (part = false -> l2 = []).

Definition no_match (part : bool) (rs : list P) (ds : list D) : Prop :=
  forall n, ~ is_match part rs ds n.

(** [n] is best: the longest (resp. shortest) prefix that matches leaves [n]. *)
Definition best_match (part long : bool) (rs : list P) (ds : list D) (n : Z) : Prop :=
  is_match part rs ds n /\
  forall m, is_match part rs ds m -> if long then n <= m else m <= n.

Definition match_result (part long : bool) (rs : list P) (ds : list D) (n : Z) : Prop :=
  (n = -1 /\ no_match part rs ds) \/ (0 <= n /\ best_match part long rs ds n).

Lemma is_match_nil : forall part ds n, is_match part [] ds n <->
  n = Z.of_nat (List.length ds) /\ (part = false -> ds = []).
Proof.
  intros part ds n. split.
  - intros [l [l2 [-> [H [-> Hp]]]]]. inv H. cbn. auto.
  - intros [-> Hp]. exists [], ds. repeat split; auto. constructor.
Qed.

Lemma is_match_one : forall part r rs d ds n, ast r = false ->
  is_match part (r :: rs) (d :: ds) n <-> em r d = true /\ is_match part rs ds n.
Proof.
  intros part r rs d ds n Ha. split.
  - intros [l [l2 [E [H [-> Hp]]]]]. inv H; try congruence. cbn in E. inv E.
    split; auto. exists ds0, l2. auto.
  - intros [He [l [l2 [-> [H [-> Hp]]]]]]. exists (d :: l), l2. repeat split; auto.
    now apply m_one.
Qed.

Lemma is_match_star : forall part r rs d ds n, ast r = true ->
  is_match part (r :: rs) (d :: ds) n <->
  is_match part rs (d :: ds) n \/ (em r d = true /\ is_match part (r :: rs) ds n).
Proof.
  intros part r rs d ds n Ha. split.
  - intros [l [l2 [E [H [-> Hp]]]]]. inv H; try congruence.
    + left. exists l, l2. auto.
    + right. cbn in E. inv E. split; auto. exists ds0, l2. auto.
  - intros [[l [l2 [E [H [-> Hp]]]]]|[He [l [l2 [-> [H [-> Hp]]]]]]].
    + exists l, l2. repeat split; auto. now apply m_skip.
    + exists (d :: l), l2. repeat split; auto. now apply m_star.
Qed.

Lemma is_match_star_nil : forall part r rs n, ast r = true ->
  is_match part (r :: rs) [] n <-> is_match part rs [] n.
Proof.
  intros part r rs n Ha. split; intros [l [l2 [E [H [-> Hp]]]]];
    symmetry in E; apply app_eq_nil in E as [-> ->].
  - inv H; try congruence. exists [], []. auto.
  - exists [], []. repeat split; auto. now apply m_skip.
Qed.

Lemma is_match_nonneg : forall part rs ds n, is_match part rs ds n -> 0 <= n.
Proof. intros part rs ds n [l [l2 [_ [_ [-> _]]]]]. lia. Qed.

(** The exchange for results: of two matches, one of the starred pattern that
    consumes [d] and one that skips the star, each one's length is also
    reached by the other way. *)
Lemma is_match_exchange : forall part r rs d ds n m, ast r = true -> em r d = true ->
  is_match part (r :: rs) ds n -> is_match part rs (d :: ds) m ->
  (m <= n -> is_match part (r :: rs) ds m) /\ (m <= n -> is_match part rs (d :: ds) n).
Proof.
  intros part r rs d ds n m Ha He [l [l2 [E1 [H1 [-> Hp1]]]]] [k [k2 [E2 [H2 [-> Hp2]]]]].
  assert (G : (List.length k2 <= List.length l2)%nat ->
    exists x, k = (d :: l) ++ x /\ l2 = x ++ k2).
  { intros Hle. subst ds. change (d :: l ++ l2) with ((d :: l) ++ l2) in E2.
    exists (skipn (List.length (d :: l)) k).
    assert (Hlen : (List.length (d :: l) <= List.length k)%nat).
    { apply (f_equal (@List.length D)) in E2. rewrite !length_app in E2. lia. }
    assert (E3 : firstn (List.length (d :: l)) k = d :: l).
    { apply (f_equal (firstn (List.length (d :: l)))) in E2.
      rewrite !firstn_app, Nat.sub_diag, firstn_all in E2.
      replace (List.length (d :: l) - List.length k)%nat with O in E2 by lia.
      rewrite !firstn_O, !app_nil_r in E2. auto. }
    split.
    - rewrite <- E3 at 1. symmetry. apply firstn_skipn.
    - apply (f_equal (skipn (List.length (d :: l)))) in E2.
      rewrite !skipn_app, Nat.sub_diag, skipn_all in E2.
      replace (List.length (d :: l) - List.length k)%nat with O in E2 by lia.
      now rewrite !skipn_O in E2. }
  split; intros Hle; destruct G as [x [-> ->]]; try lia.
  - cbn [app] in H2. destruct (matches_consume _ _ _ H2) as [q [Hs [Hm _]]].
    destruct (matches_exchange _ _ H1 q x) as [H3 _]; auto. { now constructor. }
    exists (l ++ x), k2. rewrite <- app_assoc. auto.
  - destruct (matches_exchange _ _ (m_star _ _ _ _ Ha He H1) rs x) as [_ H3]; auto.
    { constructor. constructor. }
    exists (d :: l), (x ++ k2). cbn [app]. rewrite E1. repeat split; auto.
Qed.
Lemma match_result_cases : forall part long rs ds n, match_result part long rs ds n ->
  (n =? -1) = true /\ n = -1 /\ no_match part rs ds \/
  (n =? -1) = false /\ best_match part long rs ds n.
Proof.
  intros part long rs ds n [[-> H]|[Hn H]].
  - left. auto.
  - right. split; auto. destruct (Z.eqb_spec n (-1)); [lia | auto].
Qed.

(** Results carry over between patterns with the same matches. *)
Lemma match_result_equiv : forall part long rs ds rs' ds' n,
  (forall m, is_match part rs ds m <-> is_match part rs' ds' m) ->
  match_result part long rs ds n -> match_result part long rs' ds' n.
Proof.
  intros part long rs ds rs' ds' n H [[-> Hn]|[Hn [Hm Hb]]].
  - left. split; auto. intros m Hm. apply H in Hm. now apply Hn in Hm.
  - right. split; auto. split; [now apply H|]. intros m Hm'. apply Hb. now apply H.
Qed.

(** The two ways past a star, combined: [n1] skips it, [n2] consumes [d]. *)
Lemma match_result_star : forall part long r rs d ds n1 n2, ast r = true -> em r d = true ->
  match_result part long rs (d :: ds) n1 -> match_result part long (r :: rs) ds n2 ->
  match_result part long (r :: rs) (d :: ds)
    (if long then if n2 =? -1 then n1 else n2 else if n1 =? -1 then n2 else n1).
Proof.
  intros part long r rs d ds n1 n2 Ha He H1 H2.
  destruct (match_result_cases _ _ _ _ _ H1) as [[E1 [-> N1]]|[E1 B1]];
    destruct (match_result_cases _ _ _ _ _ H2) as [[E2 [-> N2]]|[E2 B2]];
    rewrite ?E1, ?E2; change (-1 =? -1) with true; cbv iota.
  - assert (match_result part long (r :: rs) (d :: ds) (-1)).
    { left. split; auto. intros m Hm. apply (is_match_star part r rs d ds m Ha) in Hm as [Hm|[_ Hm]].
      - now apply N1 in Hm.
      - now apply N2 in Hm. }
    destruct long; auto.
  - replace (if long then n2 else n2) with n2 by (destruct long; auto).
    destruct B2 as [M2 B2]. right. split; [eapply is_match_nonneg; eauto|]. split.
    + apply is_match_star; auto.
    + intros m Hm. apply (is_match_star part r rs d ds m Ha) in Hm as [Hm|[_ Hm]];
        [now apply N1 in Hm | now apply B2].
  - replace (if long then n1 else n1) with n1 by (destruct long; auto).
    destruct B1 as [M1 B1]. right. split; [eapply is_match_nonneg; eauto|]. split.
    + apply is_match_star; auto.
    + intros m Hm. apply (is_match_star part r rs d ds m Ha) in Hm as [Hm|[_ Hm]];
        [now apply B1 | now apply N2 in Hm].
  - destruct B1 as [M1 B1]. destruct B2 as [M2 B2].
    right. split; [destruct long; eapply is_match_nonneg; eauto|].
    split; [destruct long; apply is_match_star; auto|].
    intros m Hm. apply (is_match_star part r rs d ds m Ha) in Hm as [Hm|[_ Hm]]; destruct long; auto.
    + destruct (Z.le_gt_cases n2 m); auto.
      apply B2. apply (is_match_exchange part r rs d ds n2 m Ha He M2 Hm). lia.
    + destruct (Z.le_gt_cases m n1); auto.
      apply B1. apply (is_match_exchange part r rs d ds m n1 Ha He Hm M1). lia.
Qed.

Lemma match_result_fail : forall part long rs ds,
  (forall m, ~ is_match part rs ds m) -> match_result part long rs ds (-1).
Proof. intros. left. auto. Qed.

Lemma seq_match_ok : forall part long rs ds,
  exists n, seq_match part long rs ds = Ret n /\ match_result part long rs ds n.
Proof.
  intros part long. induction rs as [|r rs IH]; intros ds.
  - cbn [seq_match]. destruct ds as [|d ds].
    + exists 0. split; auto. right. split; [lia|]. split.
      * apply is_match_nil. auto.
      * intros m Hm. apply is_match_nil in Hm as [-> _]. destruct long; cbn; lia.
    + destruct part.
      * eexists. split; [reflexivity|]. right. split; [lia|]. split.
        -- apply is_match_nil. split; [auto | discriminate].
        -- intros m Hm. apply is_match_nil in Hm as [-> _]. destruct long; lia.
      * exists (-1). split; auto. apply match_result_fail. intros m Hm.
        apply is_match_nil in Hm as [_ Hm]. now specialize (Hm eq_refl).
  - destruct (ast r) eqn:Ha.
    + induction ds as [|d ds IHd].
      * destruct (IH []) as [n [E H]]. exists n. rewrite seq_match_star by auto. rewrite E.
        split.
        -- destruct long; auto. destruct (Z.eqb_spec n (-1)); congruence.
        -- eapply match_result_equiv; [|exact H]. intros m. symmetry. now apply is_match_star_nil.
      * destruct (IH (d :: ds)) as [n1 [E1 H1]]. destruct IHd as [n2 [E2 H2]].
        rewrite seq_match_star, E1, E2, elem_match_em by auto.
        destruct (em r d) eqn:He.
        -- eexists. split; [|apply (match_result_star part long r rs d ds n1 n2); auto].
           destruct long; [now destruct (n2 =? -1) | now destruct (n1 =? -1)].
        -- exists n1. split.
           ++ destruct long; auto. destruct (Z.eqb_spec n1 (-1)); congruence.
           ++ eapply match_result_equiv; [|exact H1]. intros m.
              rewrite (is_match_star part r rs d ds m Ha). intuition congruence.
    + rewrite seq_match_one by auto. destruct ds as [|d ds].
      * exists (-1). split; auto. apply match_result_fail.
        intros m [l [l2 [E [H _]]]]. symmetry in E. apply app_eq_nil in E as [-> ->].
        inv H. congruence.
      * rewrite elem_match_em. destruct (em r d) eqn:He.
        -- destruct (IH ds) as [n [E H]]. exists n. split; auto.
           eapply match_result_equiv; [|exact H]. intros m.
           rewrite (is_match_one part r rs d ds m Ha). tauto.
        -- exists (-1). split; auto. apply match_result_fail. intros m Hm.
           apply is_match_one in Hm as [Hm _]; congruence.
Qed.
End SeqMatch.

(** Only the elements of the pattern and of the data are tested. *)
Lemma seq_match_ext : forall {P D} (ast : P -> bool) (e1 e2 : P -> D -> res bool) part long rs ds,
  (forall r d, In r rs -> In d ds -> e1 r d = e2 r d) ->
  seq_match ast e1 part long rs ds = seq_match ast e2 part long rs ds.
Proof.
  intros P D ast e1 e2 part long. induction rs as [|r rs IH]; intros ds H; auto.
  assert (IH' : forall l, incl l ds -> seq_match ast e1 part long rs l = seq_match ast e2 part long rs l).
  { intros l Hl. apply IH. intros r' d' Hr Hd. apply H; [now right | now apply Hl]. }
  destruct (ast r) eqn:Ha.
  - induction ds as [|d ds IHd];
      [rewrite !seq_match_star by auto |
       rewrite (seq_match_star ast e1 part long r rs (d :: ds)) by auto;
       rewrite (seq_match_star ast e2 part long r rs (d :: ds)) by auto].
    + now rewrite (IH' []) by apply incl_refl.
    + rewrite (IH' (d :: ds)) by apply incl_refl. rewrite H by (now left).
      rewrite IHd; auto.
      * intros r' d' Hr Hd. apply H; auto. now right.
      * intros l Hl. apply IH'. intros x Hx. right. now apply Hl.
  - rewrite !seq_match_one by auto. destruct ds as [|d ds]; auto.
    rewrite H by (now left). rewrite IH'; auto. intros x Hx. now right.
Qed.

(** ** Applying a rule

    [regexpmrphrule_match] and its two copies.  The elements at [d_ptr], in
    the direction of the match, are [data] on a range of indices; a backward
    match reads the pattern and the data from their ends. *)
Section RuleMatch.
Context {P D : Type} (ast : P -> bool) (elem_match : P -> D -> res bool) (data : array D).

Definition fw_window (d n : Z) : list D := map data (zrange d (d + n)).
Definition bw_window (d n : Z) : list D := map data (rev (zrange (d - n + 1) (d + 1))).

Definition all_match (rs : list P) (ds : list D) : res bool :=
  n <- seq_match ast elem_match false false rs ds ;; Ret (negb (n =? -1)).

Definition post_match (post : option (list P)) (d_ptr fw_length match_length : Z) : res bool :=
  match post with
  | None => Ret true
  | Some p => all_match p (fw_window (d_ptr + match_length) (fw_length - match_length))
  end.

(** [while (match_length > 0)]; it decreases at each turn. *)
Fixpoint rule_match_loop (fuel : nat) (self post : option (list P)) (d_ptr fw_length : Z)
    (match_length : Z) : res Z :=
  match fuel with
  | O => Err OutOfFuel
  | S f =>
      if match_length <=? 0 then Ret (-1)
      else
        rest <- match self with
                | None => Ret (match_length - 1)
                | Some p => seq_match ast elem_match true true p (fw_window d_ptr match_length)
                end ;;
        if rest =? -1 then Ret (-1)
        else
          let match_length := match_length - rest in
          ok <- post_match post d_ptr fw_length match_length ;;
          if ok then Ret match_length
          else rule_match_loop f self post d_ptr fw_length (match_length - 1)
  end.

Definition rule_match (pre self post : option (list P)) (d_ptr bw_length fw_length : Z) : res Z :=
  ok <- match pre with
        | None => Ret (bw_length =? 0)
        | Some p => all_match (rev p) (bw_window (d_ptr - 1) bw_length)
        end ;;
  if ok then rule_match_loop (S (Z.to_nat fw_length)) self post d_ptr fw_length fw_length
  else Ret (-1).

(** *** What a rule match means *)
Context (em : P -> D -> bool).
Hypothesis elem_match_em : forall r d, elem_match r d = Ret (em r d).

Definition pre_ok (pre : option (list P)) (d_ptr bw_length : Z) : Prop :=
  match pre with
  | None => bw_length = 0
  | Some p => matches ast em (rev p) (bw_window (d_ptr - 1) bw_length)
  end.

Definition self_ok (self : option (list P)) (d_ptr len : Z) : Prop :=
  match self with
  | None => len = 1
  | Some p => matches ast em p (fw_window d_ptr len)
  end.

Definition post_ok (post : option (list P)) (d_ptr fw_length len : Z) : Prop :=
  match post with
  | None => True
  | Some p => matches ast em p (fw_window (d_ptr + len) (fw_length - len))
  end.

Lemma all_match_ok : forall rs ds, exists b, all_match rs ds = Ret b /\
  (b = true <-> matches ast em rs ds).
Proof.
  intros rs ds. unfold all_match.
  destruct (seq_match_ok ast elem_match em elem_match_em false false rs ds) as [n [-> H]].
  exists (negb (n =? -1)). split; auto. rewrite negb_true_iff.
  destruct H as [[-> N]|[Hn [[l [l2 [-> [M [-> Hp]]]]] _]]].
  - change (-1 =? -1) with true. split; [discriminate|]. intros M. exfalso.
    apply (N 0). exists ds, []. rewrite app_nil_r. auto.
  - rewrite (Hp eq_refl), app_nil_r. cbn. tauto.
Qed.

Lemma post_match_ok : forall post d_ptr fw_length len, exists b,
  post_match post d_ptr fw_length len = Ret b /\
  (b = true <-> post_ok post d_ptr fw_length len).
Proof.
  intros [p|] d_ptr fw_length len; cbn.
  - apply all_match_ok.
  - exists true. tauto.
Qed.

Lemma fw_window_length : forall d n, 0 <= n -> Z.of_nat (List.length (fw_window d n)) = n.
Proof.
  intros d n Hn. unfold fw_window, zrange. rewrite length_map.
  assert (G : forall k lo, List.length (zseq lo k) = k) by (induction k; intros; cbn; auto).
  rewrite G. lia.
Qed.

Lemma fw_window_app : forall d n k, 0 <= k <= n ->
  fw_window d n = fw_window d k ++ fw_window (d + k) (n - k).
Proof.
  intros d n k Hk. unfold fw_window. rewrite (zrange_app d (d + k) (d + n)) by lia.
  rewrite map_app. now replace (d + k + (n - k)) with (d + n) by lia.
Qed.

(** The prefixes of a window are windows. *)
Lemma fw_window_prefix : forall d n l l2, 0 <= n -> fw_window d n = l ++ l2 ->
  l = fw_window d (n - Z.of_nat (List.length l2)) /\ Z.of_nat (List.length l2) <= n.
Proof.
  intros d n l l2 Hn E.
  pose proof (f_equal (@List.length D) E) as EL. rewrite length_app in EL.
  pose proof (fw_window_length d n Hn) as WL. split; [|lia].
  rewrite (fw_window_app d n (n - Z.of_nat (List.length l2))) in E by lia.
  symmetry. eapply app_prefix_eq; [exact E|].
  apply Nat2Z.inj. rewrite fw_window_length; lia.
Qed.

(** One turn: the longest self match within [len]. *)
Lemma self_match_ok : forall self d_ptr len, 0 < len ->
  exists rest,
    (match self with
     | None => Ret (len - 1)
     | Some p => seq_match ast elem_match true true p (fw_window d_ptr len)
     end) = Ret rest /\
    ((rest = -1 /\ forall k, 0 <= k <= len -> ~ self_ok self d_ptr k) \/
     (0 <= rest <= len /\ self_ok self d_ptr (len - rest) /\
      forall k, len - rest < k <= len -> ~ self_ok self d_ptr k)).
Proof.
  intros [p|] d_ptr len Hlen; cbn [self_ok].
  - destruct (seq_match_ok ast elem_match em elem_match_em true true p (fw_window d_ptr len))
      as [n [-> H]].
    exists n. split; auto. destruct H as [[-> N]|[Hn [[l [l2 [E [M [-> _]]]]] B]]].
    + left. split; auto. intros k Hk M. apply (N (len - k)).
      exists (fw_window d_ptr k), (fw_window (d_ptr + k) (len - k)).
      split; [apply fw_window_app; lia|]. split; auto. rewrite fw_window_length by lia.
      split; [auto | discriminate].
    + right. destruct (fw_window_prefix _ _ _ _ (Z.lt_le_incl _ _ Hlen) E) as [El Hl].
      split; [lia|]. rewrite <- El. split; auto. intros k Hk Mk.
      assert (Z.of_nat (List.length l2) <= len - k); [|lia]. apply (B (len - k)).
      exists (fw_window d_ptr k), (fw_window (d_ptr + k) (len - k)).
      split; [apply fw_window_app; lia|]. split; auto. rewrite fw_window_length by lia.
      split; [auto | discriminate].
  - exists (len - 1). split; auto. right. split; [lia|].
    split; [lia|]. intros. lia.
Qed.

(** The longest self match whose rest the post pattern matches. *)
Definition rule_result (self post : option (list P)) (d_ptr fw_length len n : Z) : Prop :=
  (n = -1 /\ forall k, 0 < k <= len ->
     ~ (self_ok self d_ptr k /\ post_ok post d_ptr fw_length k)) \/
  (0 <= n <= len /\ self_ok self d_ptr n /\ post_ok post d_ptr fw_length n /\
   forall k, n < k <= len -> ~ (self_ok self d_ptr k /\ post_ok post d_ptr fw_length k)).

Lemma rule_match_loop_ok : forall fuel self post d_ptr fw_length len,
  len <= fw_length -> (Z.to_nat len < fuel)%nat ->
  exists n, rule_match_loop fuel self post d_ptr fw_length len = Ret n /\
    rule_result self post d_ptr fw_length len n.
Proof.
  induction fuel as [|fuel IH]; intros self post d_ptr fw_length len Hle Hf; [lia|].
  cbn [rule_match_loop]. destruct (Z.leb_spec len 0) as [H0|H0].
  { exists (-1). split; auto. left. split; auto. intros. lia. }
  destruct (self_match_ok self d_ptr len H0) as [rest [-> [[-> N]|[Hr [S N]]]]].
  { exists (-1). split; auto. left. split; auto. intros k Hk [Hs _].
    apply (N k); [lia | auto]. }
  destruct (Z.eqb_spec rest (-1)); [lia|].
  destruct (post_match_ok post d_ptr fw_length (len - rest)) as [b [-> Hb]].
  destruct b.
  - exists (len - rest). split; auto. right. split; [lia|]. split; auto.
    split; [now apply Hb|]. intros k Hk [Hs _]. apply (N k); [lia | auto].
  - destruct (IH self post d_ptr fw_length (len - rest - 1)) as [n' [E R]]; [lia | lia |].
    exists n'. split; auto.
    assert (F : ~ post_ok post d_ptr fw_length (len - rest)).
    { intros F. apply Hb in F. discriminate. }
    assert (G : forall k, len - rest - 1 < k <= len ->
      ~ (self_ok self d_ptr k /\ post_ok post d_ptr fw_length k)).
    { intros k Hk [Hs Hp]. destruct (Z.eq_dec k (len - rest)) as [->|]; [auto|].
      apply (N k); [lia | auto]. }
    destruct R as [[-> R]|[Hn [Rs [Rp R]]]].
    + left. split; auto. intros k Hk. destruct (Z.le_gt_cases k (len - rest - 1)).
      * apply R. lia.
      * apply G. lia.
    + right. split; [lia|]. split; auto. split; auto. intros k Hk.
      destruct (Z.le_gt_cases k (len - rest - 1)); [apply R | apply G]; lia.
Qed.

Lemma rule_match_ok : forall pre self post d_ptr bw_length fw_length,
  exists n, rule_match pre self post d_ptr bw_length fw_length = Ret n /\
    ((n = -1 /\ ~ pre_ok pre d_ptr bw_length) \/
     (pre_ok pre d_ptr bw_length /\
      rule_result self post d_ptr fw_length fw_length n)).
Proof.
  intros pre self post d_ptr bw_length fw_length. unfold rule_match.
  assert (Hpre : exists b,
    match pre with
    | None => Ret (bw_length =? 0)
    | Some p => all_match (rev p) (bw_window (d_ptr - 1) bw_length)
    end = Ret b /\ (b = true <-> pre_ok pre d_ptr bw_length)).
  { destruct pre as [p|]; cbn [pre_ok].
    - apply all_match_ok.
    - eexists. split; [reflexivity|]. apply Z.eqb_eq. }
  destruct Hpre as [b [-> Hb]]. destruct b.
  - destruct (rule_match_loop_ok (S (Z.to_nat fw_length)) self post d_ptr fw_length fw_length)
      as [n [-> R]]; [lia | lia |].
    exists n. split; auto. right. split; auto. now apply Hb.
  - exists (-1). split; auto. left. split; auto. intros F. apply Hb in F. discriminate.
Qed.
End RuleMatch.

(** The patterns of a rule and the range it looks at. *)
Definition pattern_of {P} (o : option (list P)) : list P := match o with Some p => p | None => [] end.

Section RuleMatchOn.
Context {P D : Type} (ast : P -> bool) (elem_match : P -> D -> res bool) (data : array D).
Context (em : P -> D -> bool).
Let pure (r : P) (d : D) : res bool := Ret (em r d).
Let pure_em : forall r d, pure r d = Ret (em r d) := fun r d => eq_refl.

Lemma in_fw_window : forall d n x, In x (fw_window data d n) -> exists i, x = data i /\ d <= i < d + n.
Proof.
  intros d n x H. apply in_map_iff in H as [i [<- Hi]]. apply in_zrange in Hi. eauto.
Qed.

Lemma all_match_ext : forall rs ds,
  (forall r d, In r rs -> In d ds -> elem_match r d = pure r d) ->
  all_match ast elem_match rs ds = all_match ast pure rs ds.
Proof. intros rs ds H. unfold all_match. now rewrite (seq_match_ext ast elem_match pure). Qed.

Lemma rule_match_loop_ext : forall self post d_ptr fw_length,
  (forall r i, In r (pattern_of self ++ pattern_of post) -> d_ptr <= i < d_ptr + fw_length ->
     elem_match r (data i) = pure r (data i)) ->
  forall fuel len, len <= fw_length ->
  rule_match_loop ast elem_match data fuel self post d_ptr fw_length len =
  rule_match_loop ast pure data fuel self post d_ptr fw_length len.
Proof.
  intros self post d_ptr fw_length H. induction fuel as [|fuel IH]; intros len Hle; auto.
  cbn [rule_match_loop]. destruct (Z.leb_spec len 0) as [|Hlen]; auto.
  assert (E : match self with
     | None => Ret (len - 1)
     | Some p => seq_match ast elem_match true true p (fw_window data d_ptr len)
     end = match self with
     | None => Ret (len - 1)
     | Some p => seq_match ast pure true true p (fw_window data d_ptr len)
     end).
  { destruct self as [p|]; auto. apply seq_match_ext. intros r d Hr Hd.
    apply in_fw_window in Hd as [i [-> Hi]]. apply H; [now apply in_or_app; left | lia]. }
  rewrite E.
  destruct (self_match_ok ast pure data em pure_em self d_ptr len Hlen) as [rest [-> R]].
  destruct (Z.eqb_spec rest (-1)); auto.
  assert (0 <= rest <= len) by (destruct R as [[? _]|[? _]]; lia).
  replace (post_match ast elem_match data post d_ptr fw_length (len - rest))
    with (post_match ast pure data post d_ptr fw_length (len - rest)).
  - rewrite IH by lia. reflexivity.
  - destruct post as [p|]; auto. symmetry. apply all_match_ext. intros r d Hr Hd.
    apply in_fw_window in Hd as [i [-> Hi]]. apply H; [now apply in_or_app; right | lia].
Qed.

(** The rule's specification when its element tests return on the data it looks at. *)
Lemma rule_match_on : forall pre self post d_ptr bw_length fw_length,
  (forall r i, In r (pattern_of pre ++ pattern_of self ++ pattern_of post) ->
     d_ptr - bw_length <= i < d_ptr + fw_length ->
     elem_match r (data i) = Ret (em r (data i))) ->
  0 <= bw_length -> 0 <= fw_length ->
  exists n, rule_match ast elem_match data pre self post d_ptr bw_length fw_length = Ret n /\
    ((n = -1 /\ ~ pre_ok ast data em pre d_ptr bw_length) \/
     (pre_ok ast data em pre d_ptr bw_length /\
      rule_result ast data em self post d_ptr fw_length fw_length n)).
Proof.
  intros pre self post d_ptr bw_length fw_length H Hbw Hfw.
  destruct (rule_match_ok ast pure data em pure_em pre self post d_ptr bw_length fw_length)
    as [n [E R]].
  exists n. split; [|exact R]. rewrite <- E. unfold rule_match.
  replace (match pre with
           | Some p => all_match ast elem_match (rev p) (bw_window data (d_ptr - 1) bw_length)
           | None => Ret (bw_length =? 0) end)
    with (match pre with
           | Some p => all_match ast pure (rev p) (bw_window data (d_ptr - 1) bw_length)
           | None => Ret (bw_length =? 0) end).
  - destruct (match pre with Some _ => _ | None => _ end) as [[]|]; auto.
    apply rule_match_loop_ext; [|lia]. intros r i Hr Hi. apply H; [|lia].
    apply in_or_app. now right.
  - destruct pre as [p|]; auto. symmetry. apply all_match_ext. intros r d Hr Hd.
    apply in_rev in Hr. unfold bw_window in Hd. apply in_map_iff in Hd as [i [<- Hi]].
    apply in_rev, in_zrange in Hi. apply H; [now apply in_or_app; left | lia].
Qed.
End RuleMatchOn.

(** ** The matchers of the code *)
Section Matchers.
Context `{G : Grammar} `{FM : FeatureMatch} (sp : SENTENCE_DATA).

Definition is_ast_mrph (r : REGEXPMRPH) : bool := rm_ast_flag r =? AST_FLG.
Definition is_ast_bnst (r : REGEXPBNST) : bool := rb_ast_flag r =? AST_FLG.

(** The conditions on a morpheme, without the flag and the features. *)
Definition mrph_cmp (ptr1 : REGEXPMRPH) (m : MRPH_DATA) : bool :=
  rule_HBK_cmp (Hinshi_not ptr1) (rm_Hinshi ptr1) (m_Hinshi m) &&
  rule_HBK_cmp (Bunrui_not ptr1) (rm_Bunrui ptr1) (m_Bunrui m) &&
  rule_HBK_cmp (Kata_not ptr1) (rm_Katuyou_Kata ptr1) (m_Katuyou_Kata m) &&
  rule_Kei_cmp (Kei_not ptr1) (rm_Katuyou_Kei ptr1) (m_Katuyou_Kata m) (m_Katuyou_Kei m) &&
  rule_Goi_cmp (Goi_not ptr1) (rm_Goi ptr1) (m_Goi m).

Definition regexpmrph_match (ptr1 : REGEXPMRPH) (ptr2 : Z) : res bool :=
  if rm_type_flag ptr1 =? QST_FLG then Ret true
  else
    let m := mrph_data sp ptr2 in
    if flag_result (rm_type_flag ptr1) (mrph_cmp ptr1 m)
    then feature_pattern_matches sp (rm_f_pattern ptr1) (m_f m) PNULL (PM ptr2)
    else Ret false.

(** [regexpmrphs_match], forward from [d_ptr]. *)
Definition regexpmrphs_match (part long : bool) (rs : REGEXPMRPHS) (d_ptr d_num : Z) : res Z :=
  seq_match is_ast_mrph regexpmrph_match part long rs (fw_window (fun i => i) d_ptr d_num).

Definition regexpmrphrule_match (r_ptr : MrphRule) (d_ptr bw_length fw_length : Z) : res Z :=
  rule_match is_ast_mrph regexpmrph_match (fun i => i)
    (mr_pre_pattern r_ptr) (mr_self_pattern r_ptr) (mr_post_pattern r_ptr)
    d_ptr bw_length fw_length.

(** A bunsetsu, or a basic phrase cast to one. *)
Definition deref_bnst (p : ptr) : res BNST_DATA :=
  match p with
  | PB i => Ret (bnst_data sp i)
  | PT i => Ret (tag_data sp i)
  | PNULL => Err NullDeref
  | PM _ => Err BadPointer
  end.

Definition _regexpbnst_match (r_ptr : REGEXPMRPHS) (b : BNST_DATA) : res Z :=
  regexpmrphs_match false false r_ptr (b_mrph_ptr b) (b_mrph_num b).

Definition regexpbnst_match (ptr1 : REGEXPBNST) (ptr2 : ptr) : res bool :=
  if rb_type_flag ptr1 =? QST_FLG then Ret true
  else
    match rb_mrphs ptr1 with
    | None => Err NullDeref
    | Some ms =>
        b <- deref_bnst ptr2 ;;
        n <- _regexpbnst_match ms b ;;
        if flag_result (rb_type_flag ptr1) (negb (n =? -1))
        then feature_pattern_matches sp (rb_f_pattern ptr1) (b_f b) PNULL ptr2
        else Ret false
    end.

Definition regexpbnsts_match (part long : bool) (rs : REGEXPBNSTS) (d_ptr d_num : Z) : res Z :=
  seq_match is_ast_bnst regexpbnst_match part long rs (fw_window PB d_ptr d_num).

Definition regexptags_match (part long : bool) (rs : REGEXPBNSTS) (d_ptr d_num : Z) : res Z :=
  seq_match is_ast_bnst regexpbnst_match part long rs (fw_window PT d_ptr d_num).

Definition regexpbnstrule_match (r_ptr : BnstRule) (d_ptr bw_length fw_length : Z) : res Z :=
  rule_match is_ast_bnst regexpbnst_match PB
    (br_pre_pattern r_ptr) (br_self_pattern r_ptr) (br_post_pattern r_ptr)
    d_ptr bw_length fw_length.

Definition regexptagrule_match (r_ptr : BnstRule) (d_ptr bw_length fw_length : Z) : res Z :=
  rule_match is_ast_bnst regexpbnst_match PT
    (br_pre_pattern r_ptr) (br_self_pattern r_ptr) (br_post_pattern r_ptr)
    d_ptr bw_length fw_length.

(** ** Properties of the matchers *)

(** C30: matching a pattern against a run of [d_num] morphemes always ends.  With
    ALL_MATCHING the result is 0 when the run is in the language of the pattern
    (elements, each possibly starred) and -1 when it is not, for SHORT as for LONG; with
    PART_MATCHING and LONG_MATCHING it is the number of morphemes left after the
    longest prefix in the language, -1 when there is none. *)
Theorem regexpmrphs_match_spec : forall em rs d_ptr d_num, 0 <= d_num ->
  (forall r i, In r rs -> d_ptr <= i < d_ptr + d_num -> regexpmrph_match r i = Ret (em r i)) ->
  (forall long, exists n, regexpmrphs_match false long rs d_ptr d_num = Ret n /\
     (n = 0 \/ n = -1) /\
     (n = 0 <-> matches is_ast_mrph em rs (zrange d_ptr (d_ptr + d_num)))) /\
  (exists n, regexpmrphs_match true true rs d_ptr d_num = Ret n /\
     ((n = -1 /\ forall k, 0 <= k <= d_num ->
         ~ matches is_ast_mrph em rs (zrange d_ptr (d_ptr + k))) \/
      (0 <= n <= d_num /\ matches is_ast_mrph em rs (zrange d_ptr (d_ptr + (d_num - n))) /\
       forall k, d_num - n < k <= d_num ->
         ~ matches is_ast_mrph em rs (zrange d_ptr (d_ptr + k))))).
Proof.
  intros em rs d_ptr d_num Hn H.
  assert (W : forall k, fw_window (fun i => i) d_ptr k = zrange d_ptr (d_ptr + k)) by (intros; apply map_id).
  assert (X : forall part long, exists n, regexpmrphs_match part long rs d_ptr d_num = Ret n /\
    match_result is_ast_mrph em part long rs (zrange d_ptr (d_ptr + d_num)) n).
  { intros part long. unfold regexpmrphs_match. rewrite W.
    rewrite (seq_match_ext _ regexpmrph_match (fun r i => Ret (em r i))).
    - now apply seq_match_ok.
    - intros r i Hr Hi. apply in_zrange in Hi. auto. }
  split.
  - intros long. destruct (X false long) as [n [E R]].
    exists n. split; auto. destruct R as [[-> N]|[Hn0 [[l [l2 [-> [M [-> Hp]]]]] _]]].
    + split; auto. split; [discriminate|]. intros M. exfalso. apply (N 0).
      exists (zrange d_ptr (d_ptr + d_num)), []. rewrite app_nil_r. auto.
    + rewrite (Hp eq_refl), app_nil_r. cbn. tauto.
  - destruct (X true true) as [n [E R]]. exists n. split; auto. rewrite <- !W in R.
    assert (P : forall k, 0 <= k <= d_num -> matches is_ast_mrph em rs (zrange d_ptr (d_ptr + k)) ->
      is_match is_ast_mrph em true rs (fw_window (fun i => i) d_ptr d_num) (d_num - k)).
    { intros k Hk Mk. rewrite <- W in Mk.
      exists (fw_window (fun i => i) d_ptr k), (fw_window (fun i => i) (d_ptr + k) (d_num - k)).
      split; [apply fw_window_app; lia|]. split; auto. rewrite fw_window_length by lia.
      split; [auto | discriminate]. }
    destruct R as [[-> N]|[Hn0 [[l [l2 [El [M [-> _]]]]] B]]]; [left | right].
    + split; auto. intros k Hk Mk. exact (N _ (P k Hk Mk)).
    + destruct (fw_window_prefix _ _ _ _ _ Hn El) as [El' Hl]. rewrite <- W, <- El'.
      split; [lia|]. split; auto. intros k Hk Mk. specialize (B _ (P k ltac:(lia) Mk)).
      cbv iota in B. lia.
Qed.

(** a morpheme rule matches at [d_ptr] with the greatest length such that the pre
    pattern matches exactly the [bw_length] morphemes before it (read backwards), the
    self pattern exactly that many morphemes, and the post pattern exactly the rest of
    the [fw_length]; -1 means that no positive length will do.  The search ends. *)
Theorem regexpmrphrule_match_spec : forall em r_ptr d_ptr bw_length fw_length,
  0 <= bw_length -> 0 <= fw_length ->
  (forall r i, In r (pattern_of (mr_pre_pattern r_ptr) ++ pattern_of (mr_self_pattern r_ptr) ++
                     pattern_of (mr_post_pattern r_ptr)) ->
     d_ptr - bw_length <= i < d_ptr + fw_length -> regexpmrph_match r i = Ret (em r i)) ->
  exists n, regexpmrphrule_match r_ptr d_ptr bw_length fw_length = Ret n /\
    let pre := pre_ok is_ast_mrph (fun i => i) em (mr_pre_pattern r_ptr) d_ptr bw_length in
    let body := fun k =>
      self_ok is_ast_mrph (fun i => i) em (mr_self_pattern r_ptr) d_ptr k /\
      post_ok is_ast_mrph (fun i => i) em (mr_post_pattern r_ptr) d_ptr fw_length k in
    (n = -1 /\ (~ pre \/ forall k, 0 < k <= fw_length -> ~ body k)) \/
    (0 <= n <= fw_length /\ pre /\ body n /\ forall k, n < k <= fw_length -> ~ body k).
Proof.
  intros em r_ptr d_ptr bw_length fw_length Hbw Hfw H.
  destruct (rule_match_on is_ast_mrph regexpmrph_match (fun i => i) em
    (mr_pre_pattern r_ptr) (mr_self_pattern r_ptr) (mr_post_pattern r_ptr)
    d_ptr bw_length fw_length H Hbw Hfw) as [n [E R]].
  exists n. split; [exact E|]. cbv zeta.
  destruct R as [[-> R]|[Hp [[-> R]|[Hn [Rs [Rp R]]]]]]; [left | left | right]; auto.
Qed.
End Matchers.

(** ** Concrete matches *)
Definition example_grammar : Grammar := {|
  Class_id := fun i j => if (i =? 6) && (j =? 0) then Some "名詞"%string else None;
  Type_name := fun _ => None; Form_name := fun _ _ => None |}.

Definition mrph_of (goi : string) (hinshi : Z) (f : FEATURE) : MRPH_DATA :=
  mkMRPH 0 goi goi goi hinshi 0 0 0 f None EmptyString 0 0 0 0 0 None [] 0 0 false 0 false.

Definition match_example : SENTENCE_DATA :=
  set_mrph_data (fun i => nth (Z.to_nat i)
    [mrph_of "京都" 6 ["地名"]; mrph_of "大学" 6 []; mrph_of "の" 9 []]%string MRPH_DATA_0)
    (set_Mrph_num 3 SENTENCE_DATA_0).

(** [名詞]* and の *)
Definition noun_star : REGEXPMRPH := set_rm_ast_flag AST_FLG
  (mkRM 0 0 0 [6] 0 [0] 0 [0] 0 [] 0 [] []).
Definition goi_no : REGEXPMRPH := mkRM 0 0 0 [0] 0 [0] 0 [0] 0 [] 0 ["の"]%string [].

Definition example_em (r : REGEXPMRPH) (i : Z) : bool := mrph_cmp (G := example_grammar) r (mrph_data match_example i).

Lemma example_em_ok : forall r i, In r [noun_star; goi_no] ->
  regexpmrph_match (G := example_grammar) (FM := @knp_FeatureMatch bare_env st0) match_example r i =
    Ret (example_em r i).
Proof.
  intros r i [<-|[<-|[]]]; unfold regexpmrph_match, example_em; cbn [rm_type_flag noun_star goi_no
    set_rm_ast_flag]; destruct (mrph_cmp _ _); reflexivity.
Qed.

Lemma regexpmrphs_match_spec_witness :
  (forall long, exists n,
     @regexpmrphs_match example_grammar (@knp_FeatureMatch bare_env st0) match_example
       false long [noun_star; goi_no] 0 3 = Ret n /\ (n = 0 \/ n = -1) /\
     (n = 0 <-> matches is_ast_mrph example_em [noun_star; goi_no] (zrange 0 (0 + 3)))) /\
  (exists n,
     @regexpmrphs_match example_grammar (@knp_FeatureMatch bare_env st0) match_example
       true true [noun_star; goi_no] 0 3 = Ret n /\
     ((n = -1 /\ forall k, 0 <= k <= 3 ->
        ~ matches is_ast_mrph example_em [noun_star; goi_no] (zrange 0 (0 + k))) \/
      (0 <= n <= 3 /\ matches is_ast_mrph example_em [noun_star; goi_no] (zrange 0 (0 + (3 - n))) /\
       forall k, 3 - n < k <= 3 ->
         ~ matches is_ast_mrph example_em [noun_star; goi_no] (zrange 0 (0 + k))))).
Proof.
  apply (@regexpmrphs_match_spec example_grammar (@knp_FeatureMatch bare_env st0) match_example
    example_em [noun_star; goi_no] 0 3); [lia|].
  intros r i Hr _. now apply example_em_ok.
Defined.

Definition example_rule : MrphRule := mkMR None (Some [noun_star]) (Some [goi_no]) ["連体"]%string.

Example example_rule_match :
  @regexpmrphrule_match example_grammar (@knp_FeatureMatch bare_env st0) match_example
    example_rule 0 0 3 = Ret 2.
Proof. reflexivity. Qed.

Lemma regexpmrphrule_match_spec_witness :
  exists n, @regexpmrphrule_match example_grammar (@knp_FeatureMatch bare_env st0) match_example
      example_rule 0 0 3 = Ret n /\
    let pre := pre_ok is_ast_mrph (fun i => i) example_em None 0 0 in
    let body := fun k =>
      self_ok is_ast_mrph (fun i => i) example_em (Some [noun_star]) 0 k /\
      post_ok is_ast_mrph (fun i => i) example_em (Some [goi_no]) 0 3 k in
    (n = -1 /\ (~ pre \/ forall k, 0 < k <= 3 -> ~ body k)) \/
    (0 <= n <= 3 /\ pre /\ body n /\ forall k, n < k <= 3 -> ~ body k).
Proof.
  apply (@regexpmrphrule_match_spec example_grammar (@knp_FeatureMatch bare_env st0) match_example
    example_em example_rule 0 0 3); [lia | lia |].
  intros r i Hr _. now apply example_em_ok.
Defined.
