(* ===== verification/Similarity.v ===== *)
(** * The similarity of bunsetsus (src/system/bnst_compare.c, thesaurus.c)

    [calc_match] compares two bunsetsus by their classes, their content words
    and their function words; [calc_match_matrix] fills the matrix that the
    analysis of the coordinations works on.  Japanese.  The distributional
    similarity of two words (distsim/) and the codes of the thesauri other
    than BGH ([sm_match]) are behind the interface [WordSim]. *)
From Stdlib Require Import ZArith List Bool String Ascii Lia.
From Stdlib Require Import Floats.SpecFloat.
Import ListNotations.
From S2P Require Import Prelude CStr Feature Sentence SemCode CheckFunction Regexp.
Open Scope string_scope.
Open Scope Z_scope.

(** The values of [ParaThesaurus]. *)
Inductive para_thesaurus : Type := USE_NONE | USE_BGH | USE_DISTSIM | USE_SM.

Class WordSim : Type := {
  ParaThesaurus : para_thesaurus;
  calc_distsim : string -> string -> spec_float;
  sm_match : BNST_DATA -> BNST_DATA -> res Z
}.

(** [(int)x] for a double that fits. *)
Definition truncate (x : spec_float) : Z :=
  match x with
  | S754_finite s m e =>
      let n := if 0 <=? e then Zpos m * 2 ^ e else Zpos m / 2 ^ (- e) in
      if s then - n else n
  | _ => 0
  end.

Definition f64_of_Z (z : Z) : spec_float := binary_normalize 53 1024 z 0 false.

Section Similarity.
Context `{WS : WordSim} `{G : Grammar} (sp : SENTENCE_DATA).

Local Abbreviation has b s := (has_feature (b_f b) s).
Local Abbreviation both b1 b2 s := (has_feature (b_f b1) s && has_feature (b_f b2) s).

(** ** Words *)
Definition get_bnst_head_canonical_rep (b : BNST_DATA) (compound_flag : bool) : option string :=
  match (if compound_flag then check_feature (b_f b) "主辞’代表表記" else None) with
  | Some cp => Some (skip "主辞’代表表記:" cp)
  | None =>
      match check_feature (b_f b) "主辞代表表記" with
      | Some cp => Some (skip "主辞代表表記:" cp)
      | None => None
      end
  end.

(** Without [OPT_CASE_CF_USE_ID].  [DISTSIM_PARAMETER] is 1.00. *)
Definition calc_distsim_from_bnst (b1 b2 : BNST_DATA) : Z :=
  match get_bnst_head_canonical_rep b1 true, get_bnst_head_canonical_rep b2 true with
  | Some rep1, Some rep2 =>
      let full := Z.of_nat BGH_CODE_SIZE - 3 in
      let score :=
        if negb (has b1 "用言") && negb (has b2 "用言")
        then SFmul 53 1024 (SFdiv 53 1024 (calc_distsim rep1 rep2) (f64_of_Z 1)) (f64_of_Z full)
        else f64_of_Z 0 in
      if SFleb (f64_of_Z full) score then full else truncate score
  | _, _ => -1
  end.

(** [ptr->head_ptr->Goi] *)
Definition head_goi (b : BNST_DATA) : res string :=
  match b_head_ptr b with
  | Some h => Ret (m_Goi (mrph_data sp h))
  | None => Err NullDeref
  end.

Definition jiritu_fuzoku_check (b1 b2 : BNST_DATA) (cp : string) : res bool :=
  g1 <- head_goi b1 ;;
  if str_eq g1 cp && check_fuzoku sp (Some b2) 0 0 (Some cp) then Ret true
  else g2 <- head_goi b2 ;; Ret (str_eq g2 cp && check_fuzoku sp (Some b1) 0 0 (Some cp)).

(** ** The classes of the bunsetsus *)

(** The condition of the outer [if]. *)
Definition same_class (b1 b2 : BNST_DATA) : bool :=
  match check_feature (b_f b1) "用言", check_feature (b_f b2) "用言" with
  | Some cp1, Some cp2 =>
      str_eq cp1 "用言:判" || negb (str_eq cp2 "用言:判") || negb (has b2 "形副名詞")
  | _, _ => false
  end ||
  (has b1 "名詞的形容詞語幹" && has b2 "用言:形") ||
  both b1 b2 "体言" || both b1 b2 "数量" ||
  (has b1 "並キ:名" && both b1 b2 "類似計算:的").

(** The early returns. *)
Definition excluded (b1 b2 : BNST_DATA) : bool :=
  (has b1 "用言:判" && negb (has b1 "並キ:？") && has b2 "体言" && negb (has b2 "用言:判")) ||
  xorb (has b1 "ため-せい") (has b2 "ため-せい") ||
  xorb (has b1 "複合辞") (has b2 "複合辞").

(** [flag1], [flag2] *)
Definition noun_class (b : BNST_DATA) : Z :=
  if has b "人名" then 0 else if has b "地名" then 1 else if has b "組織名" then 2
  else if has b "数量" then 3 else 5.

Definition counters_agree (b1 b2 : BNST_DATA) : bool :=
  match check_feature (b_f b1) "カウンタ", check_feature (b_f b2) "カウンタ" with
  | None, _ => true
  | Some c1, Some c2 => str_eq c1 c2
  | Some _, None => false
  end.

(** The points of two nouns by their classes, and [content_word_match]. *)
Definition noun_points (b1 b2 : BNST_DATA) : Z * bool :=
  let flag1 := noun_class b1 in
  let flag2 := noun_class b2 in
  if (flag1 =? flag2) && (flag1 <=? 2) then (5, false)
  else if (flag1 <=? 2) && (flag2 <=? 2) then (2, false)
  else if (flag1 =? 3) && (flag2 =? 3) then (2 + (if counters_agree b1 b2 then 5 else 0), false)
  else (0, (flag1 =? 5) && (flag2 =? 5)).

(** ** Content words *)
Definition thesaurus_points (b1 b2 : BNST_DATA) : res Z :=
  match ParaThesaurus with
  | USE_NONE => Ret (-1)
  | USE_DISTSIM => Ret (calc_distsim_from_bnst b1 b2 * 2)
  | USE_BGH => n <- bgh_match b1 b2 ;; Ret (n * 2)
  | USE_SM => n <- sm_match b1 b2 ;; Ret (n * 2)
  end.

(** The limits of [mt_point] for two predicates. *)
Definition limit_predicates (b1 b2 : BNST_DATA) (mt_point : Z) : Z :=
  if both b1 b2 "用言" then
    let mt_point := if str_eq (b_Jiritu_Go b1) "する" || str_eq (b_Jiritu_Go b2) "する"
                    then Z.min mt_point 2 else mt_point in
    if has b1 "敬語" && negb (has b2 "敬語") then Z.min mt_point 2 else mt_point
  else mt_point.

Definition content_points (b1 b2 : BNST_DATA) : res Z :=
  g1 <- head_goi b1 ;;
  g2 <- head_goi b2 ;;
  if str_eq g1 g2 then Ret 10
  else
    mt <- thesaurus_points b1 b2 ;;
    let mt := limit_predicates b1 b2 mt in
    let part := if (mt <? 0) && both b1 b2 "体言" then str_part_cmp g1 g2 else 0 in
    Ret (Z.min (part + Z.max mt 0) 10).

(** ** Function words *)
Definition is_suffix (k : Z) : res bool :=
  match Class_id (m_Hinshi (mrph_data sp k)) 0 with
  | Some id => Ret (str_eq id "接尾辞")
  | None => Err NullDeref
  end.

(** A function word after the head [h]. *)
Definition after_head (h k : Z) : bool := has_feature (m_f (mrph_data sp k)) "付属" && (h <? k).

(** The inner loop: the words of [ks] that agree with [goi], two points each. *)
Fixpoint agreeing_words (goi : string) (h : Z) (ks : list Z) : res Z :=
  match ks with
  | [] => Ret 0
  | k :: ks' =>
      if after_head h k then
        s <- is_suffix k ;;
        n <- agreeing_words goi h ks' ;;
        Ret (if negb s && str_eq goi (m_Goi (mrph_data sp k)) then n + 2 else n)
      else Ret 0
  end.

Fixpoint function_points (h1 : Z) (ks1 : list Z) (h2 : Z) (ks2 : list Z) : res Z :=
  match ks1 with
  | [] => Ret 0
  | k :: ks1' =>
      if after_head h1 k then
        s <- is_suffix k ;;
        if s then function_points h1 ks1' h2 ks2
        else
          n <- agreeing_words (m_Goi (mrph_data sp k)) h2 ks2 ;;
          r <- function_points h1 ks1' h2 ks2 ;;
          Ret (n + r)
      else Ret 0
  end.

(** The morphemes of a bunsetsu from the last to the first. *)
Definition mrphs_down (b : BNST_DATA) : list Z :=
  rev (zrange (b_mrph_ptr b) (b_mrph_ptr b + b_mrph_num b)).

(** ** The bonuses *)
Definition cross (b1 b2 : BNST_DATA) (s t : string) : bool :=
  (has b1 s && has b2 t) || (has b1 t && has b2 s).

Definition bonus_points (b1 b2 : BNST_DATA) : res Z :=
  suru <- jiritu_fuzoku_check b1 b2 "する" ;;
  kana <- jiritu_fuzoku_check b1 b2 "できる" ;;
  kanji <- (if kana then Ret true else jiritu_fuzoku_check b1 b2 "出来る") ;;
  let points (c : bool) (n : Z) := if c then n else 0 in
  Ret (points (cross b1 b2 "〜れる" "〜られる") 2 + points (cross b1 b2 "〜せる" "〜させる") 2 +
       points (cross b1 b2 "〜ない" "〜ぬ") 2 + points (both b1 b2 "タリ") 2 +
       points (both b1 b2 "提題") 3 + points suru 1 + points kanji 3).

(** ** The comparison

    Without a head morpheme the first of its uses fails. *)
Definition calc_match (pre pos : Z) : res Z :=
  let b1 := bnst_data sp pre in
  let b2 := bnst_data sp pos in
  if negb (same_class b1 b2) || excluded b1 b2 then Ret 0
  else
    let '(classes, content_word_match) :=
      if both b1 b2 "体言" then noun_points b1 b2 else (0, true) in
    content <- (if content_word_match then content_points b1 b2 else Ret 0) ;;
    match b_head_ptr b1, b_head_ptr b2 with
    | Some h1, Some h2 =>
        words <- function_points h1 (mrphs_down b1) h2 (mrphs_down b2) ;;
        bonus <- bonus_points b1 b2 ;;
        Ret (2 + classes + content + words + bonus)
    | _, _ => Err NullDeref
    end.

Definition calc_match_cell (OptParaFix : bool) (i j : Z) (st : bool * matrix Z) : res (bool * matrix Z) :=
  let '(calc_flag, m) := st in
  if calc_flag then
    n <- calc_match i j ;;
    let stop := negb OptParaFix && negb (has (bnst_data sp i) "用言") && has (bnst_data sp j) "Ｔ名並終点" in
    Ret (negb stop, mset m i j n)
  else Ret (false, mset m i j 0).

Definition calc_match_matrix (OptParaFix : bool) (m : matrix Z) : res (matrix Z) :=
  for_res 0 (Bnst_num sp) (fun i m =>
    ' (_, m) <- for_res (i + 1) (Bnst_num sp) (calc_match_cell OptParaFix i) (true, m) ;; Ret m) m.
End Similarity.

(** * Properties *)
Section Bounds.
Context `{WS : WordSim} `{G : Grammar} (sp : SENTENCE_DATA).

Lemma noun_points_range : forall b1 b2, let '(n, more) := noun_points b1 b2 in
  0 <= n <= 7 /\ (more = true -> n = 0).
Proof.
  intros b1 b2. unfold noun_points.
  destruct (_ && (noun_class b1 <=? 2)); [lia|]. destruct (_ && _); [lia|].
  destruct (_ && _); [destruct (counters_agree b1 b2); split; try discriminate; lia | lia].
Qed.

Lemma common_prefix_nonneg : forall a b, 0 <= common_prefix a b.
Proof.
  induction a as [|x a IH]; intros [|y b]; cbn [common_prefix]; try lia.
  destruct (Ascii.eqb x y); [specialize (IH b)|]; lia.
Qed.

Lemma str_part_cmp_nonneg : forall a b, 0 <= str_part_cmp a b.
Proof.
  intros a b. unfold str_part_cmp.
  pose proof (common_prefix_nonneg a b). pose proof (common_prefix_nonneg (srev a EmptyString) (srev b EmptyString)).
  set (m := if _ <? _ then _ else _). assert (0 <= m) by (subst m; destruct (_ <? _); lia).
  pose proof (Z.mod_le m 3 ltac:(lia) ltac:(lia)). unfold BYTES4CHAR. apply Z.div_pos; lia.
Qed.

Lemma content_points_range : forall b1 b2 n, content_points sp b1 b2 = Ret n -> 0 <= n <= 10.
Proof.
  intros b1 b2 n E. unfold content_points in E.
  destruct (head_goi sp b1) as [g1|]; [|discriminate]. destruct (head_goi sp b2) as [g2|]; [|discriminate].
  destruct (str_eq g1 g2); [injection E as <-; lia|].
  destruct (thesaurus_points b1 b2) as [mt|]; [|discriminate]. injection E as <-.
  pose proof (str_part_cmp_nonneg g1 g2). destruct (_ && _); lia.
Qed.

Lemma agreeing_words_range : forall goi h ks n, agreeing_words sp goi h ks = Ret n ->
  0 <= n <= 2 * Z.of_nat (List.length ks).
Proof.
  induction ks as [|k ks IH]; intros n E; cbn [agreeing_words] in E; [injection E as <-; cbn; lia|].
  cbn [List.length]. destruct (after_head sp h k); [|injection E as <-; lia].
  destruct (is_suffix sp k) as [s|]; [|discriminate].
  destruct (agreeing_words sp goi h ks) as [r|]; [|discriminate]. specialize (IH r eq_refl).
  injection E as <-. destruct (_ && _); lia.
Qed.

Lemma function_points_range : forall h1 h2 ks2 ks1 n, function_points sp h1 ks1 h2 ks2 = Ret n ->
  0 <= n <= 2 * (Z.of_nat (List.length ks1) * Z.of_nat (List.length ks2)).
Proof.
  induction ks1 as [|k ks1 IH]; intros n E; cbn [function_points] in E; [injection E as <-; cbn; lia|].
  cbn [List.length]. destruct (after_head sp h1 k); [|injection E as <-; lia].
  destruct (is_suffix sp k) as [[|]|]; [|..|discriminate].
  - specialize (IH n E). lia.
  - destruct (agreeing_words _ _ _ _) as [a|] eqn:EA; [|discriminate]. apply agreeing_words_range in EA.
    destruct (function_points _ _ _ _ _) as [r|]; [|discriminate]. specialize (IH r eq_refl).
    injection E as <-. lia.
Qed.

Lemma bonus_points_range : forall b1 b2 n, bonus_points sp b1 b2 = Ret n -> 0 <= n <= 15.
Proof.
  intros b1 b2 n E. unfold bonus_points in E.
  destruct (jiritu_fuzoku_check sp b1 b2 "する") as [s1|]; [|discriminate].
  destruct (jiritu_fuzoku_check sp b1 b2 "できる") as [s2|]; [|discriminate].
  destruct (if s2 then _ else _) as [s3|]; [|discriminate].
  destruct (cross b1 b2 "〜れる" "〜られる"), (cross b1 b2 "〜せる" "〜させる"), (cross b1 b2 "〜ない" "〜ぬ"),
    (has_feature (b_f b1) "タリ" && has_feature (b_f b2) "タリ"),
    (has_feature (b_f b1) "提題" && has_feature (b_f b2) "提題"), s1, s3; injection E as <-; lia.
Qed.

Lemma length_mrphs_down : forall b, 0 <= b_mrph_num b ->
  Z.of_nat (List.length (mrphs_down b)) = b_mrph_num b.
Proof. intros b H. unfold mrphs_down. rewrite length_rev, length_zrange. lia. Qed.
End Bounds.

(** The similarity of two bunsetsus is 0 exactly when their classes do not agree or are
    kept apart; otherwise it lies between 2 and 27 plus two points for each pair of their
    morphemes, so that no similarity overflows. *)
Theorem calc_match_bounds : forall (WS : WordSim) (G : Grammar) sp pre pos n,
  let b1 := bnst_data sp pre in
  let b2 := bnst_data sp pos in
  0 <= b_mrph_num b1 -> 0 <= b_mrph_num b2 -> calc_match sp pre pos = Ret n ->
  (n = 0 <-> same_class b1 b2 = false \/ excluded b1 b2 = true) /\
  (n <> 0 -> 2 <= n <= 27 + 2 * (b_mrph_num b1 * b_mrph_num b2)).
Proof.
  intros WS G sp pre pos n b1 b2 H1 H2 E. unfold calc_match in E. fold b1 b2 in E.
  destruct (same_class b1 b2), (excluded b1 b2); cbn [negb orb] in E;
    try (injection E as <-; split; [tauto|lia]).
  assert (C : let '(c, more) := if has_feature (b_f b1) "体言" && has_feature (b_f b2) "体言" then noun_points b1 b2 else (0, true) in
    0 <= c <= 7 /\ (more = true -> c = 0)).
  { destruct (_ && _); [apply noun_points_range | lia]. }
  destruct (if _ && _ then _ else _) as [c more]. destruct C as [C1 C2].
  destruct (if more then _ else _) as [w|] eqn:EW; [|discriminate].
  assert (0 <= w <= 10 /\ c + w <= 10).
  { destruct more; [apply content_points_range in EW; specialize (C2 eq_refl); lia | injection EW as <-; lia]. }
  destruct (b_head_ptr b1) as [h1|]; [|discriminate]. destruct (b_head_ptr b2) as [h2|]; [|discriminate].
  destruct (function_points _ _ _ _ _) as [f|] eqn:EF; [|discriminate].
  apply function_points_range in EF. rewrite !length_mrphs_down in EF by assumption.
  destruct (bonus_points sp b1 b2) as [b|] eqn:EB; [|discriminate]. apply bonus_points_range in EB.
  assert (En : 2 + c + w + f + b = n) by congruence. clear E. split; [split; [intros; exfalso; lia | intros [?|?]; discriminate]|].
  intros _. clear C2 EW. clearbody b1 b2. set (k := b_mrph_num b1 * b_mrph_num b2) in *. lia.
Qed.

(** ** The matrix *)
Section Matrix.
Context `{WS : WordSim} `{G : Grammar} (sp : SENTENCE_DATA) (OptParaFix : bool).

(** Bunsetsu [j] ends the candidates for bunsetsu [i]. *)
Definition stops (i j : Z) : bool :=
  negb OptParaFix && negb (has_feature (b_f (bnst_data sp i)) "用言") &&
  has_feature (b_f (bnst_data sp j)) "Ｔ名並終点".

Definition stopped (i j : Z) : bool := existsb (stops i) (zrange (i + 1) j).

(** The value of a cell. *)
Definition cell_value (i j : Z) (v : Z) : Prop :=
  if stopped i j then v = 0 else calc_match sp i j = Ret v.

Lemma stopped_next : forall i j, i < j -> stopped i (j + 1) = stopped i j || stops i j.
Proof.
  intros i j H. unfold stopped. rewrite zrange_snoc by lia. replace (j + 1 - 1) with j by lia.
  rewrite existsb_app. cbn [existsb]. now rewrite orb_false_r.
Qed.

Lemma calc_match_row : forall i hi m m' flag, i + 1 <= hi ->
  for_res (i + 1) hi (calc_match_cell sp OptParaFix i) (true, m) = Ret (flag, m') ->
  (forall j, i < j < hi -> cell_value i j (m' i j)) /\
  (forall x y, x <> i \/ ~ i < y < hi -> m' x y = m x y).
Proof.
  intros i hi m m' flag Hhi E.
  pose (P j (st : bool * matrix Z) := fst st = negb (stopped i j) /\
    (forall y, i < y < j -> cell_value i y (snd st i y)) /\
    (forall x y, x <> i \/ ~ i < y < j -> snd st x y = m x y)).
  assert (H : P hi (flag, m')).
  { revert E. apply for_res_inv; [exact Hhi| |].
    - intros j [c m1] [c' m2] Hj (P1 & P2 & P3) E. cbn [fst snd] in P1, P2, P3.
      assert (Q : exists v, m2 = mset m1 i j v /\ c' = negb (stopped i (j + 1)) /\ cell_value i j v).
      { unfold calc_match_cell in E. rewrite stopped_next by lia. unfold cell_value.
        destruct c; destruct (stopped i j); try discriminate.
        - destruct (calc_match sp i j) as [v|] eqn:EV; [|discriminate]. injection E as <- <-. exists v. auto.
        - injection E as <- <-. exists 0. auto. }
      destruct Q as (v & -> & -> & Q). unfold P. cbn [fst snd]. split; [reflexivity|]. split.
      + intros y Hy. destruct (Z.eq_dec y j) as [->|]; [now rewrite mset_eq|].
        rewrite mset_ne by lia. apply P2. lia.
      + intros x y H. rewrite mset_ne by lia. apply P3. lia.
    - unfold P. cbn [fst snd]. split; [|split; [intros; lia | reflexivity]].
      unfold stopped. now rewrite zrange_nil by lia. }
  exact (proj2 H).
Qed.
End Matrix.

(** Each cell of the matrix of similarities above the diagonal holds the similarity of its two
    bunsetsus, or 0 behind the first end of a coordination of nouns when the coordinations are not
    fixed in advance; the other cells keep their values. *)
Theorem calc_match_matrix_spec : forall (WS : WordSim) (G : Grammar) sp OptParaFix m m',
  0 <= Bnst_num sp -> calc_match_matrix sp OptParaFix m = Ret m' ->
  (forall i j, 0 <= i < j -> j < Bnst_num sp ->
     if existsb (stops sp OptParaFix i) (zrange (i + 1) j) then m' i j = 0
     else calc_match sp i j = Ret (m' i j)) /\
  (forall i j, ~ (0 <= i < j /\ j < Bnst_num sp) -> m' i j = m i j).
Proof.
  intros WS G sp fix_ m m' Hn E.
  pose (P k (mm : matrix Z) :=
    (forall i j, 0 <= i < j -> i < k -> j < Bnst_num sp -> cell_value sp fix_ i j (mm i j)) /\
    (forall i j, ~ (0 <= i < j /\ j < Bnst_num sp) \/ k <= i -> mm i j = m i j)).
  assert (H : P (Bnst_num sp) m').
  { revert E. apply for_res_inv; [exact Hn| |split; intros; [lia|reflexivity]].
    intros i m1 m2 Hi [P1 P2] E.
    destruct (for_res _ _ _ _) as [[flag m3]|] eqn:E3; [|discriminate]. injection E as ->.
    apply calc_match_row in E3; [|lia]. destruct E3 as [R1 R2]. split.
    - intros x y Hx Hk Hy. destruct (Z.eq_dec x i) as [->|]; [apply R1; lia|].
      rewrite R2 by lia. apply P1; lia.
    - intros x y H. rewrite R2 by lia. apply P2. lia. }
  destruct H as [H1 H2]. split; [|intros; apply H2; now left].
  intros i j Hi Hj. pose proof (H1 i j Hi ltac:(lia) Hj) as H. exact H.
Qed.

(** Three bunsetsus of one noun each: リンゴ, ミカン と 本; the second ends a coordination. *)
Definition no_sim : WordSim := {| ParaThesaurus := USE_NONE; calc_distsim := fun _ _ => S754_zero false;
  sm_match := fun _ _ => Ret 0 |}.

Definition sim_bnst (i : Z) (f : FEATURE) : BNST_DATA :=
  set_b_f f (set_b_head_ptr (Some i) (set_b_mrph_num 1 (set_b_mrph_ptr i BNST_DATA_0))).

Definition sim_example : SENTENCE_DATA :=
  set_mrph_data (fun i => nth (Z.to_nat i) [mrph_of "リンゴ" 6 []; mrph_of "ミカンゴ" 6 []; mrph_of "本" 6 []] MRPH_DATA_0)
    (set_bnst_data (fun i => nth (Z.to_nat i)
       [sim_bnst 0 ["体言"; "提題"]; sim_bnst 1 ["体言"; "提題"; "Ｔ名並終点"]; sim_bnst 2 ["体言"]] BNST_DATA_0)
       (set_Bnst_num 3 (set_Mrph_num 3 SENTENCE_DATA_0))).

Abbreviation sim_result := (@calc_match_matrix no_sim example_grammar sim_example false (fun _ _ => -1)).

Example sim_values : match sim_result with
  | Ret m => map (fun j => map (fun i => m i j) [0; 1; 2]) [0; 1; 2] = [[-1; -1; -1]; [9; -1; -1]; [0; 2; -1]]
  | Err _ => False
  end.
Proof. vm_compute. reflexivity. Qed.

Lemma calc_match_bounds_witness : @calc_match no_sim example_grammar sim_example 0 1 = Ret 9 /\ 2 <= 9 <= 27 + 2 * (1 * 1).
Proof.
  assert (E : @calc_match no_sim example_grammar sim_example 0 1 = Ret 9) by (vm_compute; reflexivity).
  split; [exact E|]. refine (proj2 (@calc_match_bounds no_sim example_grammar sim_example 0 1 9 _ _ E) _);
    [apply Zle_bool_imp_le; reflexivity.. | discriminate].
Defined.

Lemma calc_match_matrix_spec_witness : exists m, sim_result = Ret m /\ m 0 2 = 0.
Proof.
  destruct sim_result as [m|] eqn:E; [|vm_compute in E; discriminate E].
  exists m. split; [reflexivity|].
  pose proof (proj1 (@calc_match_matrix_spec no_sim example_grammar sim_example false _ _ ltac:(apply Zle_bool_imp_le; reflexivity) E)
    0 2 ltac:(lia) ltac:(reflexivity)) as H.
  exact H.
Defined.
