(* ===== verification/PredCase.v ===== *)
(** * The surface cases of predicates

    The names and cases that the rules give to predicates and compound
    particles (src/system/case_data.c, lib_scase.c, case_analysis.c, and the
    strings of read_data.c and case_ipal.c they are looked up by).  Heap
    buffers are taken as large enough; static and automatic ones are checked.
    [make_pred_string] is modelled as [get_scase_code] calls it: [cf_type] and
    [cpncf_flag] FALSE, no [orig_form]. *)
From Stdlib Require Import ZArith List Bool String Ascii Lia.
Import ListNotations.
From S2P Require Import Prelude CStr Feature Sentence SemCode CheckFunction Regexp.
Open Scope string_scope.
Open Scope Z_scope.

(** ** The environment: options, the dictionary of surface cases and the endings of the conjugations *)
Class CaseEnv : Type := {
  case_grammar :: Grammar;
  gobi : Z -> Z -> option string;
  OptKatakanaNormalize : bool;
  use_rep_cf : bool;
  ScaseDicExist : bool;
  scase_db : string -> option string
}.

(** [OptCaseFlag & OPT_CASE_USE_REP_CF] is [use_rep_cf]. *)

Definition BASIC_FORM : string := "基本形".
Definition VOICE_MORAU : Z := 8.
Definition VOICE_HOSHII : Z := 16.

(** ** Compound particles (case_data.h, case_analysis.c) *)
Definition FukugojiYomiTable : list (string * string) :=
  [("を除く", "をのぞく"); ("を通じる", "をつうじる"); ("を通ずる", "をつうじる"); ("を通す", "をつうじる");
   ("を含める", "をふくめる"); ("を始める", "をはじめる"); ("に絡む", "にからむ"); ("に沿う", "にそう");
   ("に向ける", "にむける"); ("に伴う", "にともなう"); ("に基づく", "にもとづく"); ("に対する", "にたいする");
   ("に関する", "にかんする"); ("に代わる", "にかわる"); ("に加える", "にくわえる"); ("に限る", "にかぎる");
   ("に続く", "につづく"); ("に合わせる", "にあわせる"); ("に比べる", "にくらべる"); ("に並ぶ", "にならぶ");
   ("に限るぬ", "にかぎるぬ")].

Definition FukugojiCanonicalTable : list (string * string) :=
  [("による", "によって"); ("をめぐる", "を巡って"); ("をのぞく", "を除いて"); ("をつうじる", "を通じて");
   ("をつうずる", "を通じて"); ("をふくめる", "を含めて"); ("をはじめる", "を始めて"); ("にからむ", "に絡んで");
   ("にそう", "に沿って"); ("にむける", "に向けて"); ("にともなう", "に伴って"); ("にもとづく", "に基づいて");
   ("にたいする", "に対して"); ("にかんする", "に関して"); ("にかわる", "に代わって"); ("におく", "において");
   ("につく", "について"); ("にとる", "にとって"); ("にくわえる", "に加えて"); ("にかぎる", "に限って");
   ("につづく", "に続いて"); ("にあわせる", "に合わせて"); ("にくらべる", "に比べて"); ("にならぶ", "に並んで");
   ("とする", "として"); ("によるぬ", "によらず"); ("にかぎるぬ", "に限らず")].

(** The rows before the one of NULLs: [hstr], [kstr] and [code]. *)
Definition PP_str_to_code : list (string * string * Z) :=
  [("φ", "φ", 0); ("が", "ガ", 1); ("を", "ヲ", 2); ("に", "ニ", 3); ("から", "カラ", 4);
   ("へ", "ヘ", 5); ("より", "ヨリ", 6); ("と", "ト", 7); ("で", "デ", 8);
   ("によって", "ニヨッテ", 9); ("をめぐる", "ヲメグル", 10); ("をつうじる", "ヲツウジル", 11);
   ("をつうずる", "ヲツウズル", 12); ("をふくめる", "ヲフクメル", 13); ("をはじめる", "ヲハジメル", 14);
   ("にからむ", "ニカラム", 15); ("にそう", "ニソウ", 16); ("にむける", "ニムケル", 17);
   ("にともなう", "ニトモナウ", 18); ("にもとづく", "ニモトヅク", 19); ("をのぞく", "ヲノゾク", 20);
   ("による", "ニヨル", 21); ("にたいする", "ニタイスル", 22); ("にかんする", "ニカンスル", 23);
   ("にかわる", "ニカワル", 24); ("におく", "ニオク", 25); ("につく", "ニツク", 26);
   ("にとる", "ニトル", 27); ("にくわえる", "ニクワエル", 28); ("にかぎる", "ニカギル", 29);
   ("につづく", "ニツヅク", 30); ("にあわせる", "ニアワセル", 31); ("にくらべる", "ニクラベル", 32);
   ("にならぶ", "ニナラブ", 33); ("とする", "トスル", 34); ("によるぬ", "ニヨルヌ", 35);
   ("にかぎるぬ", "ニカギルヌ", 36); ("という", "トイウ", 37); ("時間", "時間", 38); ("まで", "マデ", 39);
   ("修飾", "修飾", 40); ("の", "ノ", 41); ("が２", "ガ２", 42); ("外の関係", "外の関係", 43);
   ("がが", "ガガ", 42); ("外の関係", "外ノ関係", 43); ("は", "ハ", 1); ("未", "未", -3);
   ("＊", "＊", -2)].
Definition END_M : Z := -10.

Definition pp_hstr_to_code (cp : string) : Z :=
  match find (fun '(h, _, _) => str_eq h cp) PP_str_to_code with
  | Some (_, code) => code
  | None => END_M
  end.

Definition pp_code_to_kstr (num : Z) : res string :=
  if num <? 0 then Err OutOfBounds
  else
    match nth_error PP_str_to_code (Z.to_nat num) with
    | Some (_, k, _) => Ret k
    | None => if num =? Z.of_nat (List.length PP_str_to_code) then Err NullDeref else Err OutOfBounds
    end.

Definition table_lookup (t : list (string * string)) (str : string) : option string :=
  option_map snd (find (fun '(key, _) => str_eq str key) t).

Definition canonicalize_fukugoji (str : string) : option string := table_lookup FukugojiCanonicalTable str.

Section PredCase.
Context `{E : CaseEnv} (sp : SENTENCE_DATA).

(** A morpheme of the array. *)
Definition mrph_ref (i : Z) : res MRPH_DATA := if within 0 i MRPH_MAX then Ret (mrph_data sp i) else Err OutOfBounds.

(** [!strcmp(Class[i][j].id, name)] *)
Definition class_is (i j : Z) (name : string) : res bool :=
  match Class_id i j with Some id => Ret (str_eq id name) | None => Err NullDeref end.

(** The words of the bunsetsu [b] up to its first content word that is no symbol, with a following ぬ. *)
Fixpoint fukugoji_word (ks : list Z) : res string :=
  match ks with
  | [] => Ret EmptyString
  | k :: ks' =>
      m <- mrph_ref k ;;
      content <- (if has_feature (m_f m) "自立" then s <- class_is (m_Hinshi m) 0 "特殊" ;; Ret (negb s) else Ret false) ;;
      if content then
        match ks' with
        | k1 :: _ =>
            m1 <- mrph_ref k1 ;;
            nu <- (if str_eq (m_Goi m1) "ぬ" then class_is (m_Hinshi m1) 0 "助動詞" else Ret false) ;;
            Ret (if nu then m_Goi m ++ m_Goi m1 else m_Goi m)%string
        | [] => Ret (m_Goi m)
        end
      else fukugoji_word ks'
  end.

(** [fukugoji_string[SMALL_DATA_LEN]] *)
Definition SMALL_DATA_LEN : Z := 128.

Definition extract_fukugoji_string (b pre : BNST_DATA) : res (option string) :=
  if (b_num b <? 1) || (b_mrph_num pre =? 0) then Ret None
  else
    last <- mrph_ref (b_mrph_ptr pre + b_mrph_num pre - 1) ;;
    word <- fukugoji_word (zrange (b_mrph_ptr b) (b_mrph_ptr b + b_mrph_num b)) ;;
    let str := (m_Goi last ++ word)%string in
    if SMALL_DATA_LEN <=? slen str then Err OutOfBounds
    else
      Ret (Some match table_lookup FukugojiYomiTable str with Some yomi => yomi | None => str end).

Definition make_fukugoji_id (b pre : BNST_DATA) : res (option string) :=
  str <- extract_fukugoji_string b pre ;;
  match str with
  | None => Ret None
  | Some str => Ret (option_map (append "ID:〜") (canonicalize_fukugoji str))
  end.

(** "Ｔ解析格-" is put before the case in the same buffer. *)
Definition make_fukugoji_case_string (b pre : BNST_DATA) : res (option string) :=
  str <- extract_fukugoji_string b pre ;;
  match str with
  | None => Ret None
  | Some str =>
      let fc := pp_hstr_to_code str in
      if fc =? END_M then Ret None
      else k <- pp_code_to_kstr fc ;; Ret (Some ("Ｔ解析格-" ++ k)%string)
  end.

(** ** Representative forms (read_data.c) *)

(** [strstr(s, p)]: the text from the first [p] on. *)
Fixpoint strstr (p s : string) : option string :=
  if starts_with p s then Some s
  else match s with EmptyString => None | String _ s' => strstr p s' end.

Definition get_mrph_rep (m : MRPH_DATA) : option string :=
  option_map (skip "代表表記:") (strstr "代表表記:" (m_Imi m)).

(** Up to a space or else to a quote; the difference to NULL is no length. *)
Definition get_mrph_rep_length (rep_strt : option string) : res Z :=
  match rep_strt with
  | None => Ret 0
  | Some s =>
      match span_not " " s with
      | (a, String _ _) => Ret (slen a)
      | _ => match span_not dquote s with
             | (a, String _ _) => Ret (slen a)
             | _ => Err BadPointer
             end
      end
  end.

Definition get_form_id (x : string) (type : Z) : res Z :=
  if str_eq x "*" then Ret 0
  else if type =? 0 then Err (ExitErr OtherError)
  else if negb (within 0 type TYPE_NO) then Err OutOfBounds
  else search_name (Z.to_nat (FORM_NO - 1)) (Form_name type) x 1.

(** [Form[kata][kei].gobi], which is read *)
Definition gobi_at (kata kei : Z) : res string :=
  if within 0 kata TYPE_NO && within 0 kei FORM_NO then
    match gobi kata kei with Some g => Ret g | None => Err NullDeref end
  else Err OutOfBounds.

Definition basic_gobi (kata : Z) : res string := i <- get_form_id BASIC_FORM kata ;; gobi_at kata i.

(** [s] without its last [n] bytes: [s[strlen(s) - n] = 0]. *)
Definition cut_end (n : Z) (s : string) : res string :=
  if slen s <? n then Err OutOfBounds else Ret (stake (Z.to_nat (slen s - n)) s).

Definition KATAKANA_VARIATION_ABSORB_LENGTH : Z := 4 * BYTES4CHAR.

(** Does a long sound at the end of a word in katakana fall away? *)
Definition drops_long_sound (m : MRPH_DATA) : res bool :=
  if OptKatakanaNormalize then
    unknown <- class_is (m_Hinshi m) 0 "未定義語" ;;
    katakana <- (if unknown then class_is (m_Hinshi m) (m_Bunrui m) "カタカナ" else Ret false) ;;
    let learned := match strstr "自動獲得" (m_Imi m) with Some _ => true | None => false end in
    if (katakana || learned) && (KATAKANA_VARIATION_ABSORB_LENGTH <=? slen (m_Goi m))
    then Ret (ends_with "ー" (m_Goi m) && negb (ends_with "ーー" (m_Goi m)))
    else Ret false
  else Ret false.

(** A negative precision of [%.*s] is taken as none. *)
Definition print_prefix (n : Z) (s : string) : string := if n <? 0 then s else stake (Z.to_nat n) s.

Definition make_mrph_rn (m : MRPH_DATA) : res string :=
  long <- drops_long_sound m ;;
  let buf := (if long
              then print_prefix (slen (m_Goi m) - BYTES4CHAR) (m_Goi m) ++ "/" ++
                   print_prefix (slen (m_Yomi m) - BYTES4CHAR) (m_Yomi m)
              else m_Goi m ++ "/" ++ m_Yomi m)%string in
  let kata := m_Katuyou_Kata m in
  let kei := m_Katuyou_Kei m in
  if (0 <? kata) && (0 <? kei) then
    match (if (kata <? TYPE_NO) && (kei <? FORM_NO) then gobi kata kei else None) with
    | Some g =>
        if starts_with "-" g then Ret (m_Goi m ++ "/" ++ m_Goi m)%string
        else stem <- cut_end (slen g) buf ;; basic <- basic_gobi kata ;; Ret (stem ++ basic)%string
    | None => Ret buf
    end
  else Ret buf.

(** ** The string of a predicate (case_ipal.c)

    [m_ptr] is a morpheme to use in place of the head. *)
Definition head_at (t : BNST_DATA) (d : Z) : res MRPH_DATA :=
  match b_head_ptr t with Some h => mrph_ref (h + d) | None => Err NullDeref end.

Definition main_pred (t : BNST_DATA) (m_ptr : option MRPH_DATA) (use_rep_flag : bool) : res string :=
  let goi := match m_ptr with Some m => Ret (m_Goi m) | None => h <- head_at t 0 ;; Ret (m_Goi h) end in
  if use_rep_flag then
    match m_ptr with
    | Some m =>
        n <- get_mrph_rep_length (get_mrph_rep m) ;;
        match get_mrph_rep m with
        | Some rep => if n =? 0 then goi else Ret (stake (Z.to_nat n) rep)
        | None => goi
        end
    | None =>
        h <- head_at t 0 ;;
        match get_mrph_rep_from_f h false with Some s => Ret s | None => make_mrph_rn h end
    end
  else goi.

(** The condition of 「形容詞+なる」. *)
Definition joins_next (t : BNST_DATA) : res bool :=
  if has_feature (b_f t) "Ｔ用言見出→" then
    h <- head_at t 0 ;;
    if has_feature (m_f h) "サ変" then
      h1 <- head_at t 1 ;;
      Ret match get_mrph_rep_from_f h1 false with Some cp => negb (str_eq cp "する/する") | None => false end
    else Ret true
  else Ret false.

Definition joins_previous (t : BNST_DATA) : res bool :=
  if has_feature (b_f t) "Ｔ用言見出←" then h <- head_at t (-1) ;; Ret (negb (has_feature (m_f h) "付属")) else Ret false.

Definition make_pred_string (t : BNST_DATA) (m_ptr : option MRPH_DATA) (use_rep_flag : bool) : res string :=
  pred <- main_pred t m_ptr use_rep_flag ;;
  if has_feature (b_f t) "ID:（〜を）〜に" then Ret (if use_rep_flag then "する/する" else "する")
  else
    next <- joins_next t ;;
    if next then
      h1 <- head_at t 1 ;;
      if use_rep_flag then
        Ret (pred ++ "+" ++ match get_mrph_rep_from_f h1 false with Some cp => cp | None => m_Goi h1 end)%string
      else h <- head_at t 0 ;; Ret (m_Goi2 h ++ m_Goi h1)%string
    else
      previous <- joins_previous t ;;
      if previous then
        h <- head_at t (-1) ;;
        match (if use_rep_flag then get_mrph_rep_from_f h false else None) with
        | Some cp => Ret (cp ++ "+" ++ pred)%string
        | None => Ret (m_Goi2 h ++ pred)%string
        end
      else Ret pred.

(** ** Alternatives (read_data.c, lib_scase.c) *)

(** [%[^-]-]: a non-empty text up to '-', and what follows it. *)
Definition scan_field (s : string) : option (string * string) :=
  match span_not "-" s with
  | (String c a, String _ r) => Some (String c a, r)
  | _ => None
  end.

(** [%d-] *)
Definition scan_number (s : string) : option (Z * string) :=
  match scan_int s with
  | Some n => match after_int s with String c r => if Ascii.eqb c "-" then Some (n, r) else None | EmptyString => None end
  | None => None
  end.

Definition newline : ascii := "010".

(** [sscanf(s, "%[^-]-%[^-]-%[^-]-%d-%d-%d-%d-%[^\n]", Goi2, Yomi, Goi, ..., Imi)] into a morpheme with
    the other fields of [m]; [None] when a field stays unset. *)
Definition scan_alt (s : string) (m : MRPH_DATA) : option MRPH_DATA :=
  match scan_field s with
  | None => None
  | Some (goi2, s) =>
  match scan_field s with
  | None => None
  | Some (yomi, s) =>
  match scan_field s with
  | None => None
  | Some (goi, s) =>
  match scan_number s with
  | None => None
  | Some (hinshi, s) =>
  match scan_number s with
  | None => None
  | Some (bunrui, s) =>
  match scan_number s with
  | None => None
  | Some (kata, s) =>
  match scan_number s with
  | None => None
  | Some (kei, s) =>
  match fst (span_not newline s) with
  | EmptyString => None
  | imi =>
      Some (set_m_Imi imi (set_m_Katuyou_Kei kei (set_m_Katuyou_Kata kata (set_m_Bunrui bunrui
             (set_m_Hinshi hinshi (set_m_Goi goi (set_m_Yomi yomi (set_m_Goi2 goi2 m))))))))
  end end end end end end end end.

(** The fields fit in the arrays of a morpheme. *)
Definition fits_mrph (m : MRPH_DATA) : bool :=
  (slen (m_Goi2 m) <=? WORD_LEN_MAX) && (slen (m_Yomi m) <=? WORD_LEN_MAX) && (slen (m_Goi m) <=? WORD_LEN_MAX) &&
  (slen (m_Imi m) <? IMI_MAX).

(** An alternative read into [m]; the fields that are not set are not initialised. *)
Definition read_alt (s : string) (m : MRPH_DATA) : res MRPH_DATA :=
  match scan_alt s m with
  | None => Err BadPointer
  | Some m' => if fits_mrph m' then Ret m' else Err OutOfBounds
  end.

(** ** Voice (case_data.c) *)
Definition voice_bit (token : string) : Z :=
  if str_eq token "受動" then VOICE_UKEMI
  else if str_eq token "使役" then VOICE_SHIEKI
  else if str_eq token "もらう" then VOICE_MORAU
  else if str_eq token "ほしい" then VOICE_HOSHII
  else if str_eq token "使役&受動" then VOICE_SHIEKI_UKEMI
  else 0.

Definition set_pred_voice (b : BNST_DATA) : BNST_DATA :=
  set_b_voice
    match check_feature (b_f b) "態" with
    | Some cp => fold_left (fun v token => Z.lor v (voice_bit token)) (tokens (skip "態:" cp) EmptyString) 0
    | None => 0
    end b.

(** ** Surface cases (lib_scase.c) *)

(** [*(value+i) -= '0'] for a signed char *)
Definition minus_zero (c : ascii) : Z := (byte_of c - 48 + 128) mod 256 - 128.

(** The codes with the terminating 0. *)
Definition get_scase (cp : string) : option (list Z) :=
  if ScaseDicExist then
    match scase_db cp with
    | Some value => Some (map minus_zero (list_ascii_of_string value) ++ [0])%list
    | None => None
    end
  else None.

(** [for (i = 0; *( *dst + i) != '\0'; i++) *( *dst + i) |= *(src + i);] *)
Fixpoint or_codes (dst src : list Z) : res (list Z) :=
  match dst with
  | [] => Err OutOfBounds
  | x :: dst' =>
      if x =? 0 then Ret dst
      else
        match src with
        | [] => Err OutOfBounds
        | y :: src' => r <- or_codes dst' src' ;; Ret (Z.lor x y :: r)
        end
  end.

Definition or_scase_code (dst src : option (list Z)) : res (option (list Z)) :=
  match dst, src with
  | None, _ => Ret src
  | Some d, Some s => r <- or_codes d s ;; Ret (Some r)
  | Some d, None => Ret (Some d)
  end.

(** The suffix of the lookup for the voice. *)
Definition voice_suffix (v : Z) : string :=
  if negb (Z.land v VOICE_UKEMI =? 0) then ":P"
  else if negb (Z.land v VOICE_SHIEKI =? 0) then ":C"
  else if negb (Z.land v VOICE_SHIEKI_UKEMI =? 0) then ":PC"
  else EmptyString.

Definition scase_key (b : BNST_DATA) (vtype pred : string) : string :=
  (pred ++ ":" ++ vtype ++ voice_suffix (b_voice b))%string.

(** The loop over the alternatives of the head. *)
Fixpoint alt_scases (b : BNST_DATA) (vtype : string) (fp : FEATURE) (ans : option (list Z)) : res (option (list Z)) :=
  match fp with
  | [] => Ret ans
  | cp :: fp' =>
      if starts_with "ALT-" cp then
        m <- read_alt (sdrop 4 cp) MRPH_DATA_0 ;;
        pred <- make_pred_string b (Some m) use_rep_cf ;;
        ans <- or_scase_code ans (get_scase (scase_key b vtype pred)) ;;
        alt_scases b vtype fp' ans
      else alt_scases b vtype fp' ans
  end.

(** The codes of the dictionary: of the predicate and, when its base form is ambiguous, of the alternatives. *)
Definition lookup_scase (b : BNST_DATA) : res (option (list Z)) :=
  match (if ScaseDicExist then check_feature (b_f b) "用言" else None) with
  | None => Ret None
  | Some cp =>
      if str_eq cp "用言:判" then Ret None
      else
        let vtype := skip "用言:" cp in
        pred <- make_pred_string b None use_rep_cf ;;
        let ans := get_scase (scase_key b vtype pred) in
        h <- head_at b 0 ;;
        if has_feature (m_f h) "原形曖昧" then alt_scases b vtype (m_f h) ans else Ret ans
  end.

Definition add_cases (names : list string) (code : array Z) : array Z :=
  fold_left (fun code name => aset code (case2num name) 1) names code.

(** Without an entry of the dictionary. *)
Definition default_cases (f : FEATURE) : list string :=
  if has_feature f "用言:判" then ["ガ格"]
  else if has_feature f "用言:形" then ["ガ格"; "ニ格"]
  else if has_feature f "用言:動" then ["ガ格"; "ヲ格"; "ニ格"; "ヘ格"; "ト格"]
  else [].

(** The cases that the voice adds. *)
Definition voice_cases (v : Z) : list string :=
  if negb (Z.land v VOICE_SHIEKI =? 0) then ["ヲ格"; "ニ格"]
  else if negb (Z.land v VOICE_UKEMI =? 0) || negb (Z.land v VOICE_SHIEKI_UKEMI =? 0) then ["ニ格"]
  else if negb (Z.land v VOICE_MORAU =? 0) || negb (Z.land v VOICE_HOSHII =? 0) then ["ヲ格"; "ニ格"]
  else [].

Definition no_cases (code : array Z) : array Z := for_up 0 SCASE_CODE_SIZE (fun i c => aset c i 0) code.

Definition get_scase_code (b : BNST_DATA) : res BNST_DATA :=
  let code := no_cases (b_SCASE_code b) in
  ans <- lookup_scase b ;;
  code <- match ans with
          | Some codes =>
              if Z.of_nat (List.length codes) <? SCASE_CODE_SIZE then Err OutOfBounds
              else Ret (for_up 0 SCASE_CODE_SIZE (fun i c => aset c i (nth (Z.to_nat i) codes 0)) code)
          | None => Ret (add_cases (default_cases (b_f b)) code)
          end ;;
  Ret (set_b_SCASE_code (add_cases (voice_cases (b_voice b)) code) b).
End PredCase.

(** * Properties *)

(** An entry of the dictionary is a row of flags. *)
Definition flag_row (value : string) : bool :=
  forallb (fun c => Ascii.eqb c "0" || Ascii.eqb c "1") (list_ascii_of_string value).

Definition flag_codes (codes : list Z) : Prop := Forall (fun x => x = 0 \/ x = 1) codes.

Lemma or_flags : forall d s r, flag_codes d -> flag_codes s -> or_codes d s = Ret r -> r = d.
Proof.
  induction d as [|x d IH]; intros s r HD HS E; [discriminate E|]. cbn [or_codes] in E. inv HD.
  destruct (Z.eqb_spec x 0) as [H|H]; [now injection E|]. destruct s as [|y s]; [discriminate E|]. inv HS.
  destruct (or_codes d s) as [t|] eqn:ET; [|discriminate E]. injection E as <-.
  rewrite (IH s t) by assumption. f_equal. intuition (subst; cbn; lia).
Qed.

Section PredCaseProps.
Context `{E : CaseEnv} (sp : SENTENCE_DATA).
Hypothesis rows : forall key value, scase_db key = Some value -> flag_row value = true.

Lemma get_scase_flags : forall key codes, get_scase key = Some codes -> flag_codes codes.
Proof.
  intros key codes H. unfold get_scase in H. destruct ScaseDicExist; [|discriminate].
  destruct (scase_db key) as [value|] eqn:EV; [|discriminate]. injection H as <-. apply rows in EV. unfold flag_row in EV.
  rewrite forallb_forall in EV. apply Forall_app. split; [|repeat constructor].
  apply Forall_forall. intros x Hx. apply in_map_iff in Hx as [c [<- Hc]]. apply EV, orb_true_iff in Hc as [Hc|Hc];
    apply Ascii.eqb_eq in Hc as ->; auto.
Qed.

Lemma alt_scases_keep : forall b vtype fp codes ans, flag_codes codes ->
  alt_scases sp b vtype fp (Some codes) = Ret ans -> ans = Some codes.
Proof.
  intros b vtype. induction fp as [|cp fp IH]; intros codes ans HC H; cbn [alt_scases] in H; [now injection H|].
  destruct (starts_with _ cp); [|now apply IH].
  destruct (read_alt _ _) as [m|]; [|discriminate H]. destruct (make_pred_string _ _ _ _) as [pred|]; [|discriminate H].
  destruct (get_scase (scase_key b vtype pred)) as [s|] eqn:ES; cbn [or_scase_code] in H; [|now apply IH].
  destruct (or_codes codes s) as [r|] eqn:EO; [|discriminate H].
  rewrite (or_flags _ _ _ HC (get_scase_flags _ _ ES) EO) in H. now apply IH.
Qed.

(** The alternatives of an ambiguous predicate never add a surface case: [or_scase_code] stops at the first case
    that is not set, so when the dictionary knows the predicate itself its row is the result, whatever the
    rows of the alternatives are. *)
Theorem ambiguous_scase_first : forall b cp pred codes ans,
  check_feature (b_f b) "用言" = Some cp -> cp <> "用言:判"%string ->
  make_pred_string sp b None use_rep_cf = Ret pred ->
  get_scase (scase_key b (skip "用言:" cp) pred) = Some codes ->
  lookup_scase sp b = Ret ans -> ans = Some codes.
Proof.
  intros b cp pred codes ans HF HN HP HG HL. unfold lookup_scase in HL.
  assert (HS : ScaseDicExist = true) by (unfold get_scase in HG; now destruct ScaseDicExist).
  rewrite HS, HF in HL. destruct (str_eq_spec cp "用言:判") as [|_]; [contradiction|].
  cbv zeta in HL. rewrite HP in HL. rewrite HG in HL. destruct (head_at sp b 0) as [h|]; [|discriminate HL].
  destruct (has_feature (m_f h) "原形曖昧"); [|now injection HL].
  eapply alt_scases_keep; [|exact HL]. now apply get_scase_flags in HG.
Qed.
End PredCaseProps.

(** ** Compound particles *)

(** A row of the table that has a case: the row at its code stands for the same case. *)
Definition row_ok (row : string * string * Z) : bool :=
  let '(h, _, code) := row in
  if code <? 0 then str_eq h "未" || str_eq h "＊"
  else match nth_error PP_str_to_code (Z.to_nat code) with Some (_, _, code') => code' =? code | None => false end.

Lemma rows_ok : forallb row_ok PP_str_to_code = true.
Proof. reflexivity. Qed.

Lemma rows_not_end : forallb (fun '(_, _, code) => negb (code =? END_M)) PP_str_to_code = true.
Proof. reflexivity. Qed.

(** the case string of a compound particle is that of the row of the table at the code of its own row, so that
    both stand for the same case; only for the texts 未 and ＊, whose codes are negative, the table is read
    before its start. *)
Theorem fukugoji_case_bounds : forall `{CaseEnv} sp b pre str, extract_fukugoji_string sp b pre = Ret (Some str) ->
  match make_fukugoji_case_string sp b pre with
  | Ret None => forall k code, ~ In (str, k, code) PP_str_to_code
  | Ret (Some s) => exists k code h' k', In (str, k, code) PP_str_to_code /\
      nth_error PP_str_to_code (Z.to_nat code) = Some (h', k', code) /\ s = ("Ｔ解析格-" ++ k')%string
  | Err e => e = OutOfBounds /\ In str ["未"; "＊"]%string
  end.
Proof.
  intros E sp b pre str H. unfold make_fukugoji_case_string. rewrite H. unfold pp_hstr_to_code.
  destruct (find _ PP_str_to_code) as [[[h k] code]|] eqn:EF.
  - apply find_some in EF as [HI HE]. destruct (str_eq_spec h str) as [->|]; [|discriminate].
    pose proof (proj1 (forallb_forall _ _) rows_not_end _ HI) as HN. cbn beta iota in HN. apply negb_true_iff in HN. rewrite HN.
    pose proof (proj1 (forallb_forall _ _) rows_ok _ HI) as HR. unfold row_ok in HR. unfold pp_code_to_kstr.
    destruct (code <? 0).
    + split; [reflexivity|]. apply orb_true_iff in HR as [HR|HR];
        [destruct (str_eq_spec str "未") | destruct (str_eq_spec str "＊")]; subst; cbn [In]; auto; discriminate.
    + destruct (nth_error _ _) as [[[h' k'] code']|] eqn:EN; [|discriminate]. apply Z.eqb_eq in HR as ->. exists k, code, h', k'. auto.
  - rewrite Z.eqb_refl. intros k code HI. apply (find_none _ _ EF) in HI. cbn beta iota in HI. now rewrite str_eq_refl in HI.
Qed.

(** ** On concrete bunsetsus *)
Definition no_case : CaseEnv := {|
  case_grammar := example_grammar; gobi := fun _ _ => None; OptKatakanaNormalize := false; use_rep_cf := false;
  ScaseDicExist := false; scase_db := fun _ => None |}.

(** A dictionary with the ambiguous さける. *)
Definition scase_example : CaseEnv := {|
  case_grammar := example_grammar; gobi := fun _ _ => None; OptKatakanaNormalize := false; use_rep_cf := false;
  ScaseDicExist := true;
  scase_db := fun key => if str_eq key "避ける:動" then Some "10100000000"%string
                         else if str_eq key "裂ける:動" then Some "11000000000"%string else None |}.

Definition sakeru_sentence : SENTENCE_DATA :=
  set_mrph_data (fun i => if i =? 0 then mrph_of "避ける" 6 ["原形曖昧"; "ALT-裂ける-さける-裂ける-6-0-0-0-x"]%string else MRPH_DATA_0)
    SENTENCE_DATA_0.
Definition sakeru : BNST_DATA := set_b_head_ptr (Some 0) (set_b_f ["用言:動"]%string BNST_DATA_0).

Lemma ambiguous_scase_first_witness :
  @lookup_scase scase_example sakeru_sentence sakeru = Ret (Some [1; 0; 1; 0; 0; 0; 0; 0; 0; 0; 0; 0]).
Proof.
  assert (R : forall key value, @scase_db scase_example key = Some value -> flag_row value = true).
  { intros key value. cbn. destruct (str_eq key "避ける:動"); [intros [= <-]; reflexivity|].
    destruct (str_eq key "裂ける:動"); [intros [= <-]; reflexivity | discriminate]. }
  destruct (@lookup_scase scase_example sakeru_sentence sakeru) as [ans|] eqn:HL; [|discriminate HL].
  f_equal. apply (@ambiguous_scase_first scase_example sakeru_sentence R sakeru "用言:動" "避ける"); try reflexivity;
    [discriminate | exact HL].
Defined.

(** に, and 対する in the next basic phrase *)
Definition taisuru_sentence : SENTENCE_DATA :=
  set_mrph_data (fun i => if i =? 0 then mrph_of "に" 9 [] else mrph_of "対する" 6 ["自立"]%string) SENTENCE_DATA_0.
Definition ni_phrase : BNST_DATA := set_b_mrph_num 1 BNST_DATA_0.
Definition taisuru_phrase : BNST_DATA := set_b_num 1 (set_b_mrph_ptr 1 (set_b_mrph_num 1 BNST_DATA_0)).

Lemma fukugoji_case_bounds_witness :
  @extract_fukugoji_string no_case taisuru_sentence taisuru_phrase ni_phrase = Ret (Some "にたいする"%string) /\
  @make_fukugoji_case_string no_case taisuru_sentence taisuru_phrase ni_phrase = Ret (Some "Ｔ解析格-ニタイスル"%string) /\
  exists k code h' k', In ("にたいする", k, code)%string PP_str_to_code /\
      nth_error PP_str_to_code (Z.to_nat code) = Some (h', k', code) /\ "Ｔ解析格-ニタイスル"%string = ("Ｔ解析格-" ++ k')%string.
Proof.
  split; [reflexivity|]. split; [reflexivity|].
  exact (@fukugoji_case_bounds no_case taisuru_sentence taisuru_phrase ni_phrase "にたいする" eq_refl).
Defined.
