(* ===== verification/ChangeMrph.v ===== *)
(** * Changes of morphemes by the rules (src/system/read_data.c)

    The rules may give a morpheme another part of speech and keep its old form
    in the semantic information, in the features and in the alternatives
    ([change_mrph], [change_one_mrph_rep]).  The local buffers have the sizes
    of the code; a buffer that [sscanf] may leave unset and that is then read
    is an error. *)
From Stdlib Require Import ZArith List Bool String Ascii Lia.
Import ListNotations.
From S2P Require Import Prelude CStr Feature Sentence SemCode CheckFunction Regexp PredCase.
Open Scope string_scope.
Open Scope Z_scope.

Definition DATA_LEN : Z := 5120.

(** [-] between the fields. *)
Definition dashed (fields : list string) : string := join "-" fields.

(** Goi2-Yomi-Goi-Hinshi-Bunrui-Katuyou_Kata-Katuyou_Kei *)
Definition mrph_fields (m : MRPH_DATA) : list string :=
  [m_Goi2 m; m_Yomi m; m_Goi m; itoa (m_Hinshi m); itoa (m_Bunrui m); itoa (m_Katuyou_Kata m); itoa (m_Katuyou_Kei m)].

(** The text up to the last quote ([strrchr]). *)
Fixpoint before_last_quote (s : string) : option string :=
  match s with
  | EmptyString => None
  | String c s' =>
      match before_last_quote s' with
      | Some a => Some (String c a)
      | None => if Ascii.eqb c dquote then Some EmptyString else None
      end
  end.

Section ChangeMrph.
Context `{E : CaseEnv}.

(** ** The old form, as a feature and in the semantic information *)
Definition change_one_mrph_imi (m : MRPH_DATA) (buf : string) : res (MRPH_DATA * string) :=
  let org := ("品詞変更:" ++ dashed (mrph_fields m ++ [m_Imi m]))%string in
  if DATA_LEN <=? slen org then Err OutOfBounds
  else
    let '(f, buf) := assign_cfeature buf (m_f m) org false in
    let m := set_m_f f m in
    match before_last_quote (m_Imi m) with
    | None => Ret (m, buf)
    | Some imi =>
        let imi := (imi ++ " 品詞変更:" ++ dashed (mrph_fields m) ++ String dquote EmptyString)%string in
        if IMI_MAX <=? slen imi then Err OutOfBounds else Ret (set_m_Imi imi m, buf)
    end.

(** ** The representative form

    [str1/str2] after "代表表記:" in the semantic information, with the text before and behind it. *)
Definition split_rep (imi : string) : res (option (string * string * string * string)) :=
  match strstr "代表表記:" imi with
  | None => Ret None
  | Some t =>
      let cp := skip "代表表記:" t in
      let pre := stake (Z.to_nat (slen imi - slen cp)) imi in
      let str1 := fst (span_not "/" cp) in
      if str_eq str1 EmptyString then Err BadPointer
      else if slen cp <? slen str1 + 1 then Err OutOfBounds
      else
        let r := sdrop (Z.to_nat (slen str1 + 1)) cp in
        let a := fst (span_not " " r) in
        let str2 := fst (span_not dquote a) in
        if str_eq str2 EmptyString then Err BadPointer
        else Ret (Some (pre, str1, str2, sdrop (Z.to_nat (slen str2)) r))
  end.

(** The stem with the ending of the form of [m] in place of the one of the base form. *)
Definition inflect (m : MRPH_DATA) (str : string) : res string :=
  basic <- basic_gobi (m_Katuyou_Kata m) ;;
  stem <- cut_end (slen basic) str ;;
  g <- gobi_at (m_Katuyou_Kata m) (m_Katuyou_Kei m) ;;
  Ret (stem ++ g)%string.

(** [sprintf] into a buffer of [IMI_MAX] bytes *)
Definition in_imi (s : string) : res string := if IMI_MAX <=? slen s then Err OutOfBounds else Ret s.

(** [suffix_char] is one byte, or empty for the terminating 0, which ends the text. *)
Definition change_one_mrph_rep (m : MRPH_DATA) (modify_feature_flag : bool) (suffix_char : string) (buf : string)
    : res (MRPH_DATA * string) :=
  if (m_Katuyou_Kata m =? 0) || (m_Katuyou_Kei m =? 0) || has_feature (m_f m) "代表表記変更" then Ret (m, buf)
  else
    r <- split_rep (m_Imi m) ;;
    match r with
    | None => Ret (m, buf)
    | Some (pre, str1, str2, post) =>
        orig_rep <- in_imi ("代表表記変更:" ++ str1 ++ "/" ++ str2)%string ;;
        new1 <- inflect m str1 ;;
        new2 <- inflect m str2 ;;
        let m := if slen pre + slen new1 + slen new2 + slen orig_rep + slen post + 4 <=? IMI_MAX
                 then set_m_Imi (pre ++ new1 ++ "/" ++ new2 ++
                        (if str_eq suffix_char EmptyString then EmptyString else suffix_char ++ " " ++ orig_rep ++ post))%string m
                 else m in
        if modify_feature_flag then
          ' (f, buf) <- match check_feature (m_f m) "代表表記" with
                        | Some cp =>
                            old <- in_imi ("代表表記変更:" ++ skip "代表表記:" cp)%string ;;
                            Ret (assign_cfeature buf (m_f m) old false)
                        | None => Ret (m_f m, buf)
                        end ;;
          new <- in_imi ("代表表記:" ++ new1 ++ "/" ++ new2 ++ suffix_char)%string ;;
          let '(f, buf) := assign_cfeature buf f new false in
          Ret (set_m_f f m, buf)
        else Ret (m, buf)
    end.

(** ** The part of speech

    [sscanf(cp, "%*[^:]:%[^:]:%[^:]:%[^:]:%[^:]", ..)]: the fields behind the first one, at most four,
    each in a buffer of 62 bytes. *)
Fixpoint colon_fields (n : nat) (s : string) : list string :=
  match n with
  | O => []
  | S n' =>
      match span_not colon s with
      | (EmptyString, _) => []
      | (a, String _ r) => a :: colon_fields n' r
      | (a, EmptyString) => [a]
      end
  end.

Definition change_fields (cp : string) : list string :=
  match span_not colon cp with
  | (String _ _, String _ r) => colon_fields 4 r
  | _ => []
  end.

Definition change_one_mrph (m : MRPH_DATA) (cp : string) : res MRPH_DATA :=
  let fields := change_fields cp in
  if existsb (fun s => 62 <=? slen s) fields then Err OutOfBounds
  else
    match fields with
    | [] => Err BadPointer
    | h :: fields =>
        hinshi <- get_hinsi_id h ;;
        bunrui <- match fields with
                  | b :: _ => if str_eq b "*" then Ret 0 else get_bunrui_id b hinshi
                  | [] => Ret 0
                  end ;;
        ' (kata, kei) <- match fields with
                         | [_; _] => Err BadPointer
                         | _ :: ka :: ke :: _ =>
                             kata <- get_type_id ka ;; kei <- get_form_id ke kata ;; Ret (kata, kei)
                         | _ => Ret (0, 0)
                         end ;;
        let m := set_m_Katuyou_Kei kei (set_m_Katuyou_Kata kata (set_m_Bunrui bunrui (set_m_Hinshi hinshi m))) in
        Ret (if kata =? 0 then set_m_Goi (m_Goi2 m) m else m)
    end.

(** ** The alternatives *)
Definition alt_text (m : MRPH_DATA) : string := ("ALT-" ++ dashed (mrph_fields m ++ [m_Imi m]))%string.

Definition assign_feature_alt_mrph (f : FEATURE) (m : MRPH_DATA) (buf : string) : FEATURE * string :=
  assign_cfeature buf f (alt_text m) false.

(** The loop over the features: the other ones, the new alternatives; the features of the local [m] stay. *)
Fixpoint change_alts (cp : string) (f : FEATURE) (m : MRPH_DATA) (ret_fp : FEATURE) (buf : string)
    : res (FEATURE * FEATURE * string) :=
  match f with
  | [] => Ret ([], ret_fp, buf)
  | a :: f' =>
      if starts_with "ALT-" a then
        m <- read_alt (sdrop 4 a) m ;;
        ' (m, buf) <- change_one_mrph_imi m buf ;;
        ' (m, buf) <- change_one_mrph_rep m false "v" buf ;;
        m <- change_one_mrph m cp ;;
        let '(ret_fp, buf) := assign_feature_alt_mrph ret_fp m buf in
        change_alts cp f' m ret_fp buf
      else
        ' (rest, ret_fp, buf) <- change_alts cp f' m ret_fp buf ;;
        Ret (a :: rest, ret_fp, buf)
  end.

Definition change_alt_mrph (m : MRPH_DATA) (cp : string) (buf : string) : res (MRPH_DATA * string) :=
  ' (rest, ret_fp, buf) <- change_alts cp (m_f m) MRPH_DATA_0 [] buf ;;
  Ret (set_m_f (append_feature rest ret_fp) m, buf).

Definition change_mrph (m : MRPH_DATA) (cp : string) (buf : string) : res (MRPH_DATA * string) :=
  ' (m, buf) <- change_one_mrph_imi m buf ;;
  ' (m, buf) <- change_one_mrph_rep m true "v" buf ;;
  m <- change_one_mrph m cp ;;
  change_alt_mrph m cp buf.
End ChangeMrph.

(** * Properties *)

(** ** Numbers in texts *)
Definition stops (r : string) : Prop := match r with String c _ => is_digit c = false | EmptyString => True end.

Lemma digit_byte : forall k, 0 <= k < 10 -> byte_of (ascii_of_Z (48 + k)) = 48 + k.
Proof.
  intros k Hk. unfold byte_of, ascii_of_Z. rewrite nat_ascii_embedding by (apply Nat2Z.inj_lt; lia). lia.
Qed.

Lemma digit_is : forall k, 0 <= k < 10 -> is_digit (ascii_of_Z (48 + k)) = true.
Proof. intros k Hk. unfold is_digit. cbv zeta. rewrite digit_byte by exact Hk. apply andb_true_iff. split; apply Z.leb_le; lia. Qed.

Fixpoint all_digits (s : string) : bool :=
  match s with String c s' => is_digit c && all_digits s' | EmptyString => true end.

Lemma digits_app : forall ds r a, all_digits ds = true -> stops r -> digits a (ds ++ r) = digits a ds.
Proof.
  induction ds as [|c ds IH]; intros r a HD HR; cbn [append digits all_digits] in *.
  - destruct r as [|c r]; [reflexivity|]. cbn in HR |- *. now rewrite HR.
  - apply andb_true_iff in HD as [-> HD]. now apply IH.
Qed.

Lemma skip_digits_app : forall ds r, all_digits ds = true -> stops r -> skip_digits (ds ++ r) = r.
Proof.
  induction ds as [|c ds IH]; intros r HD HR; cbn [append skip_digits all_digits] in *.
  - destruct r as [|c r]; [reflexivity|]. cbn in HR |- *. now rewrite HR.
  - apply andb_true_iff in HD as [-> HD]. now apply IH.
Qed.

Lemma digits_snoc : forall ds c a, all_digits ds = true -> is_digit c = true ->
  digits a (ds ++ String c EmptyString) = 10 * digits a ds + (byte_of c - 48).
Proof.
  induction ds as [|d ds IH]; intros c a HD HC; cbn [append digits all_digits] in *; [now rewrite HC|].
  apply andb_true_iff in HD as [-> HD]. now apply IH.
Qed.

Lemma all_digits_app : forall a b, all_digits (a ++ b) = all_digits a && all_digits b.
Proof. induction a as [|c a IH]; intros b; cbn [append all_digits]; [reflexivity|]. now rewrite IH, andb_assoc. Qed.

Lemma zdigits_text : forall f n acc, (0 < f)%nat -> 0 <= n -> n < 10 ^ Z.of_nat f ->
  exists ds, zdigits f n acc = (ds ++ acc)%string /\ ds <> EmptyString /\ all_digits ds = true /\ digits 0 ds = n.
Proof.
  induction f as [|f IH]; intros n acc Hf H0 Hn; [lia|]. cbn [zdigits].
  pose proof (Z.mod_pos_bound n 10 ltac:(lia)) as HM. set (c := ascii_of_Z (48 + n mod 10)).
  assert (Hc : is_digit c = true) by (apply digit_is; lia). assert (HB : byte_of c = 48 + n mod 10) by (apply digit_byte; lia).
  destruct (Z.ltb_spec n 10).
  - exists (String c EmptyString). split; [reflexivity|]. split; [discriminate|]. cbn [all_digits digits]. rewrite Hc, HB, Z.mod_small by lia.
    split; [reflexivity | lia].
  - destruct (IH (n / 10) (String c acc)) as [ds [E [HN [HD HV]]]].
    { destruct f; [cbn in Hn; lia | lia]. }
    { apply Z.div_pos; lia. }
    { apply Z.div_lt_upper_bound; [lia|]. now rewrite Nat2Z.inj_succ, Z.pow_succ_r in Hn by lia. }
    exists (ds ++ String c EmptyString)%string. split; [rewrite E, sapp_assoc; reflexivity|].
    split; [destruct ds; [contradiction | discriminate]|]. rewrite all_digits_app, HD. cbn [all_digits]. rewrite Hc.
    split; [reflexivity|]. rewrite digits_snoc, HV, HB by assumption. pose proof (Z.div_mod n 10 ltac:(lia)). lia.
Qed.

(** [%d] and [atoi] read back what [%d] wrote. *)
Lemma int_text : forall n r, - 10 ^ 11 < n < 10 ^ 11 -> stops r ->
  scans_int (itoa n ++ r) = true /\ atoi (itoa n ++ r) = n /\ after_int (itoa n ++ r) = r.
Proof.
  intros n r Hn HR.
  assert (POS : forall ds x, all_digits ds = true -> ds <> EmptyString ->
            exists c t, (ds ++ x)%string = String c t /\ is_digit c = true /\ is_space c = false /\
                   Ascii.eqb c "-" = false /\ Ascii.eqb c "+" = false).
  { intros [|c ds] x HD HN; [contradiction|]. cbn [all_digits] in HD. apply andb_true_iff in HD as [HC _].
    exists c, (ds ++ x)%string. split; [reflexivity|]. split; [exact HC|]. unfold is_digit, is_space in *. cbv zeta in *.
    apply andb_true_iff in HC as [H1 H2]. apply Z.leb_le in H1, H2.
    split; [apply orb_false_iff; split; [apply Z.eqb_neq; lia|]; apply andb_false_iff; right; apply Z.leb_gt; lia|].
    split; apply Ascii.eqb_neq; intros ->; revert H1; vm_compute; tauto. }
  unfold itoa. destruct (Z.ltb_spec n 0).
  - destruct (zdigits_text 11 (- n) EmptyString) as [ds [-> [HN [HD HV]]]]; [lia | lia | cbn; lia|]. rewrite sapp_nil_r.
    destruct (POS ds r HD HN) as [c [t [EX [HC _]]]].
    unfold scans_int, after_int, atoi. cbn [append skip_spaces].
    change (is_space "-") with false. cbv iota. change (Ascii.eqb "-" "-") with true. cbn [orb]. cbv iota.
    rewrite EX, HC, <- EX. rewrite skip_digits_app, digits_app by assumption. rewrite HV. repeat split. lia.
  - destruct (zdigits_text 11 n EmptyString) as [ds [-> [HN [HD HV]]]]; [lia | lia | cbn; lia|]. rewrite sapp_nil_r.
    destruct (POS ds r HD HN) as [c [t [EX [HC [HS [H1 H2]]]]]].
    unfold scans_int, after_int, atoi. rewrite EX. cbn [skip_spaces]. rewrite HS. rewrite H1, H2. cbn [orb].
    rewrite HC, <- EX. rewrite skip_digits_app, digits_app by assumption. auto.
Qed.

Lemma scan_number_itoa : forall n r, - 10 ^ 11 < n < 10 ^ 11 -> scan_number (itoa n ++ String "-" r) = Some (n, r).
Proof.
  intros n r Hn. destruct (int_text n (String "-" r) Hn eq_refl) as [H1 [H2 H3]]. unfold scan_number, scan_int.
  now rewrite H1, H2, H3, Ascii.eqb_refl.
Qed.

Lemma scan_field_text : forall a r, str_free "-" a = true -> a <> EmptyString -> scan_field (a ++ String "-" r) = Some (a, r).
Proof. intros a r HF HN. unfold scan_field. rewrite span_not_sep by exact HF. destruct a; [contradiction | reflexivity]. Qed.

(** ** The alternatives *)

(** The fields of a morpheme that can be read back. *)
Definition word_field (s : string) : bool := str_free "-" s && negb (str_eq s EmptyString).
Definition int_field (n : Z) : bool := (-2147483648 <=? n) && (n <=? 2147483647).
Definition alt_fields (m : MRPH_DATA) : bool :=
  word_field (m_Goi2 m) && word_field (m_Yomi m) && word_field (m_Goi m) &&
  int_field (m_Hinshi m) && int_field (m_Bunrui m) && int_field (m_Katuyou_Kata m) && int_field (m_Katuyou_Kei m) &&
  str_free newline (m_Imi m) && negb (str_eq (m_Imi m) EmptyString) && fits_mrph m.

(** The other fields of [m0]. *)
Definition alt_of (m m0 : MRPH_DATA) : MRPH_DATA :=
  set_m_Imi (m_Imi m) (set_m_Katuyou_Kei (m_Katuyou_Kei m) (set_m_Katuyou_Kata (m_Katuyou_Kata m) (set_m_Bunrui (m_Bunrui m)
    (set_m_Hinshi (m_Hinshi m) (set_m_Goi (m_Goi m) (set_m_Yomi (m_Yomi m) (set_m_Goi2 (m_Goi2 m) m0))))))).

Lemma word_field_text : forall a r, word_field a = true -> scan_field (a ++ String "-" r) = Some (a, r).
Proof.
  intros a r H. apply andb_true_iff in H as [HF HN]. apply scan_field_text; [exact HF|]. intros ->. discriminate HN.
Qed.

Lemma int_field_text : forall n r, int_field n = true -> scan_number (itoa n ++ String "-" r) = Some (n, r).
Proof.
  intros n r H. apply andb_true_iff in H as [H1 H2]. apply Z.leb_le in H1, H2. apply scan_number_itoa. lia.
Qed.

Lemma atoi_itoa : forall n, int_field n = true -> atoi (itoa n) = n.
Proof.
  intros n H. apply andb_true_iff in H as [H1 H2]. apply Z.leb_le in H1, H2. rewrite <- (sapp_nil_r (itoa n)).
  apply int_text; [lia | exact I].
Qed.

(** Reading an alternative back ([change_alt_mrph], [get_scase_code]) gives the morpheme that
    [assign_feature_alt_mrph] wrote, when its three spellings have no '-' and are not empty, the
    semantic information is one line and not empty, and the arrays hold them. *)
Theorem alternative_roundtrip : forall m m0, alt_fields m = true -> read_alt (sdrop 4 (alt_text m)) m0 = Ret (alt_of m m0).
Proof.
  intros m m0 H. unfold alt_fields in H. rewrite !andb_true_iff in H.
  destruct H as [[[[[[[[[? ?] ?] ?] ?] ?] ?] ?] HI] HF0].
  unfold alt_text. change 4%nat with (String.length "ALT-"). rewrite sdrop_app. unfold dashed, mrph_fields. cbn [app].
  repeat rewrite join_cons by discriminate. cbn [join append]. unfold read_alt, scan_alt.
  do 3 (rewrite word_field_text by assumption; cbv iota). do 4 (rewrite int_field_text by assumption; cbv iota).
  rewrite span_not_free_all by assumption. cbn [fst]. fold (alt_of m m0).
  assert (HF : fits_mrph (alt_of m m0) = fits_mrph m) by (destruct m, m0; reflexivity).
  destruct (m_Imi m) eqn:EI; [discriminate|]. rewrite <- EI. fold (alt_of m m0). now rewrite HF, HF0.
Qed.

(** ** The semantic information stays in its array *)

(** [change_one_mrph_rep] never overruns the semantic information of the morpheme: the test on the lengths leaves
    room for the text with the slash, the suffix, the space and the terminating 0; and it changes nothing
    but the semantic information and the features. *)
Theorem change_rep_bounds : forall `{CaseEnv} m flag c buf m' buf', slen c <= 1 -> slen (m_Imi m) < IMI_MAX ->
  change_one_mrph_rep m flag c buf = Ret (m', buf') ->
  slen (m_Imi m') < IMI_MAX /\ m' = set_m_f (m_f m') (set_m_Imi (m_Imi m') m).
Proof.
  intros E m flag c buf m' buf' Hc HI H. unfold change_one_mrph_rep in H.
  destruct (_ || _ || _); [injection H as <- _; split; [exact HI | now destruct m]|].
  destruct (split_rep (m_Imi m)) as [[[[[pre str1] str2] post]|]|]; [| injection H as <- _; split; [exact HI | now destruct m] | discriminate H].
  destruct (in_imi _) as [orig|]; [|discriminate H]. destruct (inflect m str1) as [new1|]; [|discriminate H].
  destruct (inflect m str2) as [new2|]; [|discriminate H]. cbv zeta in H.
  set (imi := (pre ++ new1 ++ "/" ++ new2 ++ (if str_eq c EmptyString then EmptyString else c ++ " " ++ orig ++ post))%string) in H.
  set (m1 := if _ <=? IMI_MAX then _ else _) in H.
  assert (H1 : slen (m_Imi m1) < IMI_MAX /\ m1 = set_m_f (m_f m1) (set_m_Imi (m_Imi m1) m)).
  { subst m1. destruct (Z.leb_spec (slen pre + slen new1 + slen new2 + slen orig + slen post + 4) IMI_MAX) as [HL|HL];
      [|split; [exact HI | now destruct m]].
    split; [|now destruct m]. replace (m_Imi (set_m_Imi imi m)) with imi by now destruct m. subst imi.
    destruct (str_eq c EmptyString); rewrite !slen_app; change (slen "/") with 1; change (slen " ") with 1.
    - assert (0 <= slen orig /\ 0 <= slen post) by (unfold slen; lia). change (slen EmptyString) with 0. lia.
    - lia. }
  clearbody m1. destruct H1 as [H1 H2]. destruct flag; [|injection H as <- _; split; assumption].
  destruct (match check_feature (m_f m1) "代表表記" with Some _ => _ | None => _ end) as [[f b]|]; [|discriminate H].
  destruct (in_imi _); [|discriminate H]. destruct (assign_cfeature b f _ false) as [f' b']. injection H as <- _.
  replace (m_Imi (set_m_f f' m1)) with (m_Imi m1) by now destruct m1. split; [exact H1|]. rewrite H2. now destruct m.
Qed.

(** ** On concrete morphemes *)
Definition ugoku : MRPH_DATA :=
  set_m_Imi "代表表記:動く/うごく" (set_m_Katuyou_Kei 2 (set_m_Katuyou_Kata 2 (mrph_of "動く" 2 []))).

Lemma alternative_roundtrip_witness :
  alt_fields ugoku = true /\ read_alt (sdrop 4 (alt_text ugoku)) MRPH_DATA_0 = Ret (alt_of ugoku MRPH_DATA_0).
Proof. split; [reflexivity | now apply (alternative_roundtrip ugoku MRPH_DATA_0)]. Defined.

(** 動く in its form 動き *)
Definition ugoku_env : CaseEnv := {|
  case_grammar := {| Class_id := fun _ _ => None; Type_name := fun _ => None;
                     Form_name := fun kata i => if i =? 1 then Some "基本形"%string else if i =? 2 then Some "基本連用形"%string else None |};
  gobi := fun kata i => if i =? 1 then Some "く"%string else if i =? 2 then Some "き"%string else None;
  OptKatakanaNormalize := false; use_rep_cf := false; ScaseDicExist := false; scase_db := fun _ => None |}.

Lemma change_rep_bounds_witness :
  exists m' buf', @change_one_mrph_rep ugoku_env ugoku true "v" EmptyString = Ret (m', buf') /\
    m_Imi m' = "代表表記:動き/うごきv 代表表記変更:動く/うごく"%string /\
    slen (m_Imi m') < IMI_MAX /\ m' = set_m_f (m_f m') (set_m_Imi (m_Imi m') ugoku).
Proof.
  destruct (@change_one_mrph_rep ugoku_env ugoku true "v" EmptyString) as [[m' buf']|] eqn:E; [|discriminate E].
  exists m', buf'. split; [reflexivity|].
  split; [|apply (@change_rep_bounds ugoku_env ugoku true "v" EmptyString m' buf'); [discriminate | reflexivity | exact E]].
  vm_compute in E. injection E as <- _. reflexivity.
Defined.
