(* ===== verification/Rules.v ===== *)
(** * The rules on morphemes, basic phrases and bunsetsus

    What a rule does to the units it has matched ([assign_feature] of
    src/system/feature.c, with [check_auto_dic] of dic.c and [assign_sm] of
    lib_sm.c), and the loops that try the rules on a sentence
    ([assign_mrph_feature], [assign_tag_feature], [assign_bnst_feature] and
    [assign_general_feature] of read_data.c).  The match of one rule is an
    interface; the matchers of Regexp.v implement it for patterns without
    &記憶.  The rules are taken as they were read. *)
From Stdlib Require Import ZArith List Bool String Ascii Lia.
Import ListNotations.
From S2P Require Import Prelude CStr Feature Sentence SemCode CheckFunction Regexp PredCase ChangeMrph.
Open Scope string_scope.
Open Scope Z_scope.

(** [InputParsed]: the bit OPT_INPUT_PARSED of [OptInput], which the reading of the sentence sets. *)
Class RuleEnv : Type := {
  rule_case :: CaseEnv;
  rule_check :: CheckEnv;
  OptPosModification : bool;
  InputParsed : bool;
  AutoDicExist : bool;
  used_auto_dic_features : list string;
  auto_dic_db : string -> option string
}.

(** The globals while a sentence is read. *)
Definition with_parsed (parsed : bool) (E : RuleEnv) : RuleEnv := {|
  rule_case := rule_case; rule_check := rule_check; OptPosModification := OptPosModification;
  InputParsed := parsed; AutoDicExist := AutoDicExist; used_auto_dic_features := used_auto_dic_features;
  auto_dic_db := auto_dic_db
|}.

(** The sentence and the globals: [feature_buffer], [PM_Memo], and [matched_ptr] with the buffer of [sm2code]. *)
Record rule_state : Type := mkRU {
  ru_sp : SENTENCE_DATA;
  ru_buf : string;
  ru_memo : string;
  ru_match : match_state
}.

Definition with_sentence (sp : SENTENCE_DATA) (st : rule_state) : rule_state :=
  mkRU sp (ru_buf st) (ru_memo st) (ru_match st).
Definition with_buffer (sp : SENTENCE_DATA) (buf : string) (st : rule_state) : rule_state :=
  mkRU sp buf (ru_memo st) (ru_match st).

(** ** Units: pointers into the arrays *)
Definition unit_f (p : ptr) (sp : SENTENCE_DATA) : FEATURE :=
  match p with
  | PM i => m_f (mrph_data sp i)
  | PB i => b_f (bnst_data sp i)
  | PT i => b_f (tag_data sp i)
  | PNULL => []
  end.

Definition set_unit_f (p : ptr) (f : FEATURE) (sp : SENTENCE_DATA) : SENTENCE_DATA :=
  match p with
  | PM i => upd_mrph i (set_m_f f) sp
  | PB i => upd_bnst i (set_b_f f) sp
  | PT i => upd_tag i (set_b_f f) sp
  | PNULL => sp
  end.

(** The pointer is into its array. *)
Definition check_unit (p : ptr) : res ptr :=
  match p with
  | PM i => if within 0 i MRPH_MAX then Ret p else Err OutOfBounds
  | PB i => if within 0 i BNST_MAX then Ret p else Err OutOfBounds
  | PT i => if within 0 i TAG_MAX then Ret p else Err OutOfBounds
  | PNULL => Err NullDeref
  end.

(** [(MRPH_DATA * )ptr + offset], [(BNST_DATA * )ptr + offset], [(TAG_DATA * )ptr + offset].  BNST_DATA and
    TAG_DATA begin with the same fields, but differ in size. *)
Definition as_mrph (p : ptr) (offset : Z) : res Z :=
  match p with
  | PM i => if within 0 (i + offset) MRPH_MAX then Ret (i + offset) else Err OutOfBounds
  | PNULL => Err NullDeref
  | _ => Err BadPointer
  end.

Definition as_bnst (p : ptr) (offset : Z) : res ptr :=
  match p with
  | PB i => check_unit (PB (i + offset))
  | PT i => if offset =? 0 then check_unit p else Err BadPointer
  | PM _ => Err BadPointer
  | PNULL => Err NullDeref
  end.

Definition as_tag (p : ptr) (offset : Z) : res ptr :=
  match p with
  | PT i => check_unit (PT (i + offset))
  | PB i => if offset =? 0 then check_unit p else Err BadPointer
  | PM _ => Err BadPointer
  | PNULL => Err NullDeref
  end.

(** A field that only TAG_DATA has. *)
Definition tag_index (p : ptr) : res Z := match p with PT i => Ret i | _ => Err BadPointer end.

(** The bunsetsu or basic phrase at a checked pointer, and its update. *)
Definition unit_data (p : ptr) (sp : SENTENCE_DATA) : BNST_DATA :=
  match p with PB i => bnst_data sp i | PT i => tag_data sp i | _ => BNST_DATA_0 end.
Definition upd_unit (p : ptr) (b : BNST_DATA) (sp : SENTENCE_DATA) : SENTENCE_DATA :=
  match p with PB i => upd_bnst i (fun _ => b) sp | PT i => upd_tag i (fun _ => b) sp | _ => sp end.

(** [assign_cfeature] and [delete_cfeature] on the features of a unit. *)
Definition assign_unit (p : ptr) (fname : string) (temp : bool) (st : rule_state) : rule_state :=
  let '(f, buf) := assign_cfeature (ru_buf st) (unit_f p (ru_sp st)) fname temp in
  with_buffer (set_unit_f p f (ru_sp st)) buf st.

Definition delete_unit (p : ptr) (type : string) (st : rule_state) : rule_state :=
  with_sentence (set_unit_f p (delete_cfeature (unit_f p (ru_sp st)) type) (ru_sp st)) st.

Section AssignFeature.
Context `{E : RuleEnv}.

(** ** The functions of rules *)

(** [assign_sm] (lib_sm.c): the code is appended if none of the unit's codes matches it. *)
Definition EX_ELEMENT_MAX : Z := 256.
Definition SM_ELEMENT_MAX : Z := 256.

Definition assign_sm (p : ptr) (cp : string) (st : rule_state) : res rule_state :=
  let m := sm2code (ru_match st) cp in
  let st := mkRU (ru_sp st) (ru_buf st) (ru_memo st) m in
  let target := cont_str m in
  let b := unit_data p (ru_sp st) in
  match Thesaurus with
  | USE_BGH =>
      has <- bgh_match_check target (b_BGH_code b) ;;
      if has then Ret st
      else
        let code := (b_BGH_code b ++ target)%string in
        if EX_ELEMENT_MAX * Z.of_nat BGH_CODE_SIZE <? slen code then Err OutOfBounds
        else Ret (with_sentence (upd_unit p (set_b_BGH_num (b_BGH_num b + 1) (set_b_BGH_code code b)) (ru_sp st)) st)
  | USE_NTT =>
      has <- sm_match_check target (b_SM_code b) SM_NO_EXPAND_NE ;;
      if has then Ret st
      else
        let code := (b_SM_code b ++ target)%string in
        if SM_ELEMENT_MAX * Z.of_nat SM_CODE_SIZE <? slen code then Err OutOfBounds
        else Ret (with_sentence (upd_unit p (set_b_SM_num (b_SM_num b + 1) (set_b_SM_code code b)) (ru_sp st)) st)
  | _ => Ret st
  end.

(** The key of the dictionary for the morphemes of the list; [None]: it is too long. *)
Fixpoint auto_dic_key (sp : SENTENCE_DATA) (key : string) (is_ : list Z) : res (option string) :=
  match is_ with
  | [] => Ret (Some key)
  | i :: is_' =>
      m <- mrph_ref sp i ;;
      match get_mrph_rep_from_f m false with
      | Some rep =>
          if DATA_LEN <? slen key + slen rep + 2 then Ret None
          else auto_dic_key sp (key ++ rep ++ match is_' with [] => EmptyString | _ => "+" end) is_'
      | None =>
          let key := (key ++ m_Goi2 m ++ match is_' with [] => EmptyString | _ => "+" end)%string in
          if DATA_LEN <=? slen key then Err OutOfBounds else auto_dic_key sp key is_'
      end
  end.

(** The entry for the first [m_length] morphemes that the rule asks for. *)
Definition auto_dic_entry (sp : SENTENCE_DATA) (i m_length : Z) (rule_value : string) : res (option (option string)) :=
  key <- auto_dic_key sp EmptyString (zrange i (i + m_length)) ;;
  match key with
  | None => Ret None
  | Some key =>
      Ret (Some match auto_dic_db key with
                | Some dic_str => find (starts_with rule_value) (tokens dic_str EmptyString)
                | None => None
                end)
  end.

(** The loop over ever shorter runs of morphemes. *)
Fixpoint auto_dic_loop (fuel : nat) (i assign_pos m_length : Z) (rule_value : string) (temp : bool) (st : rule_state)
    : res rule_state :=
  match fuel with
  | O => Ret st
  | S f =>
      if m_length <=? 0 then Ret st
      else
        entry <- auto_dic_entry (ru_sp st) i m_length rule_value ;;
        match entry with
        | None => Ret st
        | Some (Some token) =>
            let num k := itoa (m_num (mrph_data (ru_sp st) k)) in
            k <- as_mrph (PM i) assign_pos ;;
            Ret (assign_unit (PM k) (token ++ ":" ++ num i ++ "-" ++ num (i + m_length - 1))%string temp st)
        | Some None =>
            auto_dic_loop f i (if assign_pos =? 0 then 0 else assign_pos - 1) (m_length - 1) rule_value temp st
        end
  end.

Definition check_auto_dic (i assign_pos m_length : Z) (rule_value : string) (temp : bool) (st : rule_state) : res rule_state :=
  if negb AutoDicExist then Ret st
  else
    match used_auto_dic_features with
    | [] => auto_dic_loop (Z.to_nat m_length) i assign_pos m_length rule_value temp st
    | used =>
        if existsb (str_eq rule_value) used
        then auto_dic_loop (Z.to_nat m_length) i assign_pos m_length rule_value temp st
        else Ret st
    end.

(** [(MRPH_DATA * )matched_ptr] *)
Definition matched_mrph (st : rule_state) : res MRPH_DATA :=
  i <- as_mrph (matched_ptr (ru_match st)) 0 ;; Ret (mrph_data (ru_sp st) i).

Definition memo_add (text : string) (st : rule_state) : res rule_state :=
  let memo := (ru_memo st ++ " " ++ text)%string in
  if DATA_LEN <=? slen memo then Err OutOfBounds else Ret (mkRU (ru_sp st) (ru_buf st) memo (ru_match st)).

(** &表層: the surface cases of a predicate. *)
Definition surface_case (text : string) (p : ptr) (offset : Z) (st : rule_state) : res rule_state :=
  q <- as_bnst p offset ;;
  let b := unit_data q (ru_sp st) in
  let set_code n v :=
    if within 0 n SCASE_CODE_SIZE
    then Ret (with_sentence (upd_unit q (set_b_SCASE_code (aset (b_SCASE_code b) n v) b) (ru_sp st)) st)
    else Err OutOfBounds in
  if str_eq text "&表層:付与" then
    b <- get_scase_code (ru_sp st) (set_pred_voice b) ;;
    Ret (with_sentence (upd_unit q b (ru_sp st)) st)
  else if str_eq text "&表層:削除" then
    Ret (with_sentence (upd_unit q (set_b_SCASE_code (no_cases (b_SCASE_code b)) b) (ru_sp st)) st)
  else if starts_with "&表層:^" text then set_code (case2num (skip "&表層:^" text)) 0
  else set_code (case2num (skip "&表層:" text)) 1.

(** &品詞変更, &代表表記変更: changes of a morpheme. *)
Definition change_unit (change : MRPH_DATA -> string -> res (MRPH_DATA * string)) (p : ptr) (offset : Z) (st : rule_state)
    : res rule_state :=
  i <- as_mrph p offset ;;
  ' (m, buf) <- change (mrph_data (ru_sp st) i) (ru_buf st) ;;
  Ret (with_buffer (upd_mrph i (fun _ => m) (ru_sp st)) buf st).

(** A feature that may be missing. *)
Definition assign_if (p : ptr) (fname : option string) (temp : bool) (st : rule_state) : rule_state :=
  match fname with Some s => assign_unit p s temp st | None => st end.

(** &複合辞格解析, &複合辞ID付与.  Before the first bunsetsu of a sentence nothing is read. *)
Definition fukugoji_case (p : ptr) (offset : Z) (temp : bool) (st : rule_state) : res rule_state :=
  t <- as_tag p offset ;;
  i <- tag_index t ;;
  next <- check_unit (PT (i + 1)) ;;
  s <- make_fukugoji_case_string (ru_sp st) (unit_data next (ru_sp st)) (unit_data t (ru_sp st)) ;;
  Ret (assign_if t s temp st).

Definition fukugoji_id (p : ptr) (offset : Z) (temp : bool) (st : rule_state) : res rule_state :=
  q <- as_bnst p offset ;;
  let b := unit_data q (ru_sp st) in
  if b_num b <? 1 then Ret st
  else
    pre <- match q with PB i => check_unit (PB (i - 1)) | _ => Err BadPointer end ;;
    s <- make_fukugoji_id (ru_sp st) b (unit_data pre (ru_sp st)) ;;
    Ret (assign_if q s temp st).

(** &記憶語彙付与, &記憶FEATURE昇格: from the remembered morpheme.  The buffer has [DATA_LEN] bytes. *)
Definition remembered_word (text : string) (p : ptr) (offset : Z) (temp : bool) (st : rule_state) : res rule_state :=
  m <- matched_mrph st ;;
  let s := (skip "&記憶語彙付与:" text ++ ":" ++ m_Goi m)%string in
  if DATA_LEN <=? slen s then Err OutOfBounds
  else q <- as_bnst p offset ;; Ret (assign_unit q s temp st).

Definition promote_feature (text : string) (p : ptr) (offset : Z) (temp : bool) (st : rule_state) : res rule_state :=
  m <- matched_mrph st ;;
  match str_delete_last_column (check_feature (m_f m) (skip "&記憶FEATURE付与:" text)) with
  | Some s => t <- as_tag p offset ;; Ret (assign_unit t s temp st)
  | None => Ret st
  end.

(** &伝搬:n:FEATURE *)
Definition copy_or_delete (p q : ptr) (pat : string) (temp : bool) (st : rule_state) : rule_state :=
  match check_feature (unit_f p (ru_sp st)) pat with
  | Some cp => assign_unit q cp temp st
  | None => delete_unit q pat st
  end.

Definition propagate (text : string) (p : ptr) (offset : Z) (temp : bool) (st : rule_state) : res rule_state :=
  let pat := skip "&伝搬:" text in
  match scan_int pat, span_not colon pat with
  | None, _ => Err BadPointer
  | Some _, (_, EmptyString) => Err NullDeref
  | Some n, (_, String _ pat) =>
      t <- as_tag p offset ;;
      i <- tag_index t ;;
      t' <- check_unit (PT (i + n)) ;;
      let st := copy_or_delete t t' pat temp st in
      let tag := tag_data (ru_sp st) i in
      if 0 <=? b_bnum tag then
        b <- check_unit (PB (b_b_ptr tag)) ;;
        b' <- check_unit (PB (b_b_ptr tag + n)) ;;
        Ret (copy_or_delete b b' pat temp st)
      else Ret st
  end.

(** &形態素付属化 *)
Definition make_fuzoku (p : ptr) (offset : Z) (temp : bool) (st : rule_state) : res rule_state :=
  t <- as_tag p offset ;;
  let b := unit_data t (ru_sp st) in
  fold_res (fun i st =>
      k <- as_mrph (PM i) 0 ;;
      Ret (assign_unit (PM k) "付属" temp
            (delete_unit (PM k) "準内容語" (delete_unit (PM k) "内容語" (delete_unit (PM k) "自立" st)))))
    (zrange (b_mrph_ptr b) (b_mrph_ptr b + b_mrph_num b)) st.

(** &自動辞書:先頭:X, &自動辞書:末尾:X *)
Definition auto_dic (text : string) (p : ptr) (offset length : Z) (temp : bool) (st : rule_state) : res rule_state :=
  if negb (offset =? 0) then Ret st
  else
    let rest := skip "&自動辞書:" text in
    pos <- (if starts_with "先頭:" rest then Ret 0
            else if starts_with "末尾:" rest then Ret (length - 1)
            else Err (ExitErr (-1))) ;;
    if negb AutoDicExist then Ret st
    else i <- as_mrph p 0 ;; check_auto_dic i pos length (skip "&自動辞書:先頭:" text) temp st.

(** The functions; any other one does nothing. *)
Definition rule_function (text : string) (p : ptr) (offset length : Z) (temp : bool) (st : rule_state) : res rule_state :=
  if starts_with "&表層:" text then surface_case text p offset st
  else if starts_with "&MEMO:" text then memo_add (skip "&MEMO:" text) st
  else if starts_with "&品詞変更:" text then
    if OptPosModification && negb InputParsed then change_unit (fun m => change_mrph m text) p offset st else Ret st
  else if starts_with "&代表表記変更:" text then
    change_unit (fun m => change_one_mrph_rep m true (stake 1 (skip "&代表表記変更:" text))) p offset st
  else if starts_with "&意味素付与:" text then
    q <- as_bnst p offset ;; assign_sm q (skip "&意味素付与:" text) st
  else if starts_with "&複合辞格解析" text then fukugoji_case p offset temp st
  else if starts_with "&複合辞ID付与" text then fukugoji_id p offset temp st
  else if starts_with "&記憶語彙付与:" text then remembered_word text p offset temp st
  else if starts_with "&記憶FEATURE昇格:" text then promote_feature text p offset temp st
  else if starts_with "&伝搬:" text then propagate text p offset temp st
  else if starts_with "&形態素付属化" text then make_fuzoku p offset temp st
  else if starts_with "&自動辞書:" text then auto_dic text p offset length temp st
  else Ret st.

(** ** assign_feature

    [target] is the unit whose features are changed ([fpp1]), [p + offset] the unit the functions work on. *)
Definition assign_one (target p : ptr) (offset length : Z) (temp : bool) (text : string) (st : rule_state) : res rule_state :=
  match text with
  | String c r =>
      if Ascii.eqb c "^" then
        Ret (with_sentence (set_unit_f target (delete_feature_all (unit_f target (ru_sp st)) r) (ru_sp st)) st)
      else if Ascii.eqb c "&" then rule_function text p offset length temp st
      else Ret (assign_unit target text temp st)
  | EmptyString => Ret (assign_unit target text temp st)
  end.

Definition assign_feature (target p : ptr) (offset length : Z) (temp : bool) (fs : FEATURE) (st : rule_state) : res rule_state :=
  target <- check_unit target ;;
  fold_res (assign_one target p offset length temp) fs st.
End AssignFeature.

(** ** The match of a rule

    The length of the match at a position with so many units before it and from it on, -1 for none, and
    the globals that the tests write. *)
Class RuleMatch : Type := {
  mrph_rule_match : SENTENCE_DATA -> match_state -> MrphRule -> Z -> Z -> Z -> res (Z * match_state);
  bnst_rule_match : SENTENCE_DATA -> match_state -> BnstRule -> Z -> Z -> Z -> res (Z * match_state);
  tag_rule_match : SENTENCE_DATA -> match_state -> BnstRule -> Z -> Z -> Z -> res (Z * match_state)
}.

(** The matchers of Regexp.v; they clear [matched_ptr], and without &記憶 nothing sets it. *)
Definition regexp_RuleMatch `{Grammar} `{FeatureMatch} : RuleMatch := {|
  mrph_rule_match := fun sp m r d bw fw =>
    n <- regexpmrphrule_match sp r d bw fw ;; Ret (n, mkMS PNULL (cont_str m));
  bnst_rule_match := fun sp m r d bw fw =>
    n <- regexpbnstrule_match sp r d bw fw ;; Ret (n, mkMS PNULL (cont_str m));
  tag_rule_match := fun sp m r d bw fw =>
    n <- regexptagrule_match sp r d bw fw ;; Ret (n, mkMS PNULL (cont_str m))
|}.

(** ** The loops (read_data.c) *)
Inductive rule_loop : Type := RLOOP_MRM | RLOOP_RMM.
Inductive rule_break : Type := RLOOP_BREAK_NONE | RLOOP_BREAK_NORMAL | RLOOP_BREAK_JUMP.
Inductive rule_direction : Type := LtoR | RtoL.

Fixpoint break_feature (fp : FEATURE) : rule_break :=
  match fp with
  | [] => RLOOP_BREAK_NONE
  | cp :: fp' =>
      if str_eq cp "&break:normal" then RLOOP_BREAK_NORMAL
      else if str_eq cp "&break:jump" then RLOOP_BREAK_JUMP
      else if starts_with "&break" cp then RLOOP_BREAK_NORMAL
      else break_feature fp'
  end.

(** The break after a match: the one of the loop, or else the one of the rule. *)
Definition after_match (break_mode feature_break_mode : rule_break) : rule_break :=
  match break_mode, feature_break_mode with
  | RLOOP_BREAK_NORMAL, _ | _, RLOOP_BREAK_NORMAL => RLOOP_BREAK_NORMAL
  | RLOOP_BREAK_JUMP, _ | _, RLOOP_BREAK_JUMP => RLOOP_BREAK_JUMP
  | _, _ => RLOOP_BREAK_NONE
  end.

(** The three functions have the same loops over units of their kind: [match_at r d bw fw] is the match of
    a rule, [apply r d k n] what it does to the unit [d + k] when [n] units match at [d]. *)
Section Loops.
Context {R S : Type} (rule_f : R -> FEATURE).
Context (match_at : R -> Z -> Z -> Z -> S -> res (Z * S)) (apply : R -> Z -> Z -> Z -> S -> res S).
Context (break_mode : rule_break) (direction : rule_direction) (base length : Z).

(** The unit of step [i] is the one with so many units before it. *)
Definition units_before (i : Z) : Z := match direction with LtoR => i | RtoL => length - i - 1 end.
Definition units_from (i : Z) : Z := match direction with LtoR => length - i | RtoL => i + 1 end.

Definition match_step (r : R) (i : Z) (st : S) : res (Z * S) :=
  match_at r (base + units_before i) (units_before i) (units_from i) st.

Definition apply_match (r : R) (i n : Z) (st : S) : res S :=
  for_res 0 n (fun k => apply r (base + units_before i) k n) st.

(** MRM: the rules at one position; the result is the jump of [i]. *)
Fixpoint rules_at (rs : list R) (i : Z) (st : S) : res (Z * S) :=
  match rs with
  | [] => Ret (0, st)
  | r :: rs' =>
      ' (n, st) <- match_step r i st ;;
      if n =? -1 then rules_at rs' i st
      else
        st <- apply_match r i n st ;;
        match after_match break_mode (break_feature (rule_f r)) with
        | RLOOP_BREAK_NORMAL => Ret (0, st)
        | RLOOP_BREAK_JUMP => Ret (n - 1, st)
        | RLOOP_BREAK_NONE => rules_at rs' i st
        end
  end.

Fixpoint mrm_loop (fuel : nat) (rs : list R) (i : Z) (st : S) : res S :=
  match fuel with
  | O => Err OutOfFuel
  | Datatypes.S f =>
      if i <? length then ' (jump, st) <- rules_at rs i st ;; mrm_loop f rs (i + jump + 1) st
      else Ret st
  end.

(** RMM: one rule at the positions [is_]; any break ends them. *)
Fixpoint rule_at_all (r : R) (is_ : list Z) (st : S) : res S :=
  match is_ with
  | [] => Ret st
  | i :: is_' =>
      ' (n, st) <- match_step r i st ;;
      if n =? -1 then rule_at_all r is_' st
      else
        st <- apply_match r i n st ;;
        match after_match break_mode (break_feature (rule_f r)) with
        | RLOOP_BREAK_NONE => rule_at_all r is_' st
        | _ => Ret st
        end
  end.

Definition rule_loops (fuel : nat) (mode : rule_loop) (rs : list R) (st : S) : res S :=
  match mode with
  | RLOOP_MRM => mrm_loop fuel rs 0 st
  | RLOOP_RMM => fold_res (fun r st => rule_at_all r (zrange 0 length) st) rs st
  end.
End Loops.

Section Rules.
Context `{E : RuleEnv} `{RM : RuleMatch}.

(** A match with its globals. *)
Definition matching {R} (m : SENTENCE_DATA -> match_state -> R -> Z -> Z -> Z -> res (Z * match_state))
    (r : R) (d bw fw : Z) (st : rule_state) : res (Z * rule_state) :=
  ' (n, ms) <- m (ru_sp st) (ru_match st) r d bw fw ;;
  Ret (n, mkRU (ru_sp st) (ru_buf st) (ru_memo st) ms).

Definition apply_mrph (temp : bool) (r : MrphRule) (d k n : Z) (st : rule_state) : res rule_state :=
  assign_feature (PM (d + k)) (PM d) k (n - k) temp (mr_f r) st.

(** Also to the bunsetsu of the basic phrase. *)
Definition apply_tag (also temp : bool) (r : BnstRule) (d k n : Z) (st : rule_state) : res rule_state :=
  st <- assign_feature (PT (d + k)) (PT d) k (n - k) temp (br_f r) st ;;
  if also
  then assign_feature (PB (b_b_ptr (tag_data (ru_sp st) (d + k)))) (PT d) k (n - k) temp (br_f r) st
  else Ret st.

(** Also to the last basic phrase of the bunsetsu. *)
Definition apply_bnst (also temp : bool) (r : BnstRule) (d k n : Z) (st : rule_state) : res rule_state :=
  st <- assign_feature (PB (d + k)) (PB d) k (n - k) temp (br_f r) st ;;
  if also
  then
    let b := bnst_data (ru_sp st) (d + k) in
    assign_feature (PT (b_tag_ptr b + b_tag_num b - 1)) (PB d) k (n - k) temp (br_f r) st
  else Ret st.

Definition assign_mrph_feature (fuel : nat) (rs : list MrphRule) (base length : Z) (mode : rule_loop)
    (break_mode : rule_break) (direction : rule_direction) (also temp : bool) : rule_state -> res rule_state :=
  rule_loops mr_f (matching mrph_rule_match) (apply_mrph temp) break_mode direction base length fuel mode rs.

Definition assign_tag_feature (fuel : nat) (rs : list BnstRule) (base length : Z) (mode : rule_loop)
    (break_mode : rule_break) (direction : rule_direction) (also temp : bool) : rule_state -> res rule_state :=
  rule_loops br_f (matching tag_rule_match) (apply_tag also temp) break_mode direction base length fuel mode rs.

Definition assign_bnst_feature (fuel : nat) (rs : list BnstRule) (base length : Z) (mode : rule_loop)
    (break_mode : rule_break) (direction : rule_direction) (also temp : bool) : rule_state -> res rule_state :=
  rule_loops br_f (matching bnst_rule_match) (apply_bnst also temp) break_mode direction base length fuel mode rs.

(** ** The rule files *)
Inductive rule_array : Type := MrphRules (rs : list MrphRule) | BnstRules (rs : list BnstRule).

Record GeneralRuleType : Type := mkGR {
  gr_type : Z;
  gr_rules : rule_array;
  gr_mode : rule_loop;
  gr_breakmode : rule_break;
  gr_direction : rule_direction
}.

Definition MorphRuleType : Z := 1.
Definition BnstRuleType : Z := 2.
Definition NeMorphRuleType : Z := 6.
Definition TagRuleType : Z := 11.
Definition AfterDpndBnstRuleType : Z := 12.
Definition AfterDpndTagRuleType : Z := 13.
Definition PostProcessTagRuleType : Z := 14.
Definition PreProcessMorphRuleType : Z := 16.

(** The function for a kind of rules; for another kind the pointer is not set. *)
Definition assign_function (flag : Z) (fuel : nat) (g : GeneralRuleType) (base length : Z) (also temp : bool)
    (st : rule_state) : res rule_state :=
  let is_ flags := existsb (Z.eqb flag) flags in
  let '(mkGR _ rules mode breakmode direction) := g in
  if is_ [MorphRuleType; PreProcessMorphRuleType; NeMorphRuleType] then
    match rules with
    | MrphRules rs => assign_mrph_feature fuel rs base length mode breakmode direction also temp st
    | BnstRules _ => Err BadPointer
    end
  else
    match rules with
    | MrphRules _ => Err BadPointer
    | BnstRules rs =>
        if is_ [TagRuleType; AfterDpndTagRuleType; PostProcessTagRuleType]
        then assign_tag_feature fuel rs base length mode breakmode direction also temp st
        else if is_ [BnstRuleType; AfterDpndBnstRuleType]
        then assign_bnst_feature fuel rs base length mode breakmode direction also temp st
        else Err BadPointer
    end.

Definition assign_general_feature (fuel : nat) (GeneralRuleArray : list GeneralRuleType) (base size flag : Z)
    (also temp : bool) (st : rule_state) : res rule_state :=
  fold_res (fun g st => if gr_type g =? flag then assign_function flag fuel g base size also temp st else Ret st)
    GeneralRuleArray st.
End Rules.
