(* ===== verification/RuleFrame.v ===== *)
(** * What the rules leave alone

    A rule gives features, surface cases and codes to units, and changes the part of speech, the base form and the
    semantic information of morphemes.  It moves no unit and changes no word. *)
From Stdlib Require Import ZArith List Bool String Ascii Lia RelationClasses.
Import ListNotations.
From S2P Require Import Prelude CStr Feature Sentence Units SemCode CheckFunction Regexp PredCase ChangeMrph Rules.
Open Scope string_scope.
Open Scope Z_scope.

(** [r], run from [st], leaves the units where they are. *)
Definition framed (st : rule_state) (r : res rule_state) : Prop :=
  forall st', r = Ret st' -> same_units (ru_sp st) (ru_sp st').

Lemma framed_ret : forall st st', same_units (ru_sp st) (ru_sp st') -> framed st (Ret st').
Proof. intros st st' H x E. now injection E as <-. Qed.

Lemma framed_err : forall st e, framed st (Err e).
Proof. intros st e x E. discriminate E. Qed.

(** A value that is computed, and a step. *)
Lemma framed_value : forall {A} st (c : res A) k, (forall a, c = Ret a -> framed st (k a)) ->
  framed st (match c with Ret a => k a | Err e => Err e end).
Proof. intros A st [a|e] k H; [now apply H | apply framed_err]. Qed.

Lemma framed_step : forall st c k, framed st c -> (forall st1, framed st1 (k st1)) ->
  framed st (match c with Ret st1 => k st1 | Err e => Err e end).
Proof.
  intros st [st1|e] k HC HK; [|apply framed_err]. intros st' E. transitivity (ru_sp st1); [now apply HC | now apply HK].
Qed.

Lemma framed_fold : forall {A} (f : A -> rule_state -> res rule_state) l st, (forall a st, framed st (f a st)) ->
  framed st (fold_res f l st).
Proof.
  intros A f. induction l as [|a l IH]; intros st H; cbn [fold_res]; [now apply framed_ret|]. apply framed_step; auto.
Qed.

(** ** Changes of a unit *)
Lemma set_unit_frame : forall p f sp, same_units sp (set_unit_f p f sp).
Proof.
  intros [|i|i|i] f sp; cbn [set_unit_f]; [reflexivity | apply units_mrph; split; auto | now apply units_bnst | now apply units_tag].
Qed.

Lemma assign_unit_frame : forall p fname temp st, same_units (ru_sp st) (ru_sp (assign_unit p fname temp st)).
Proof. intros. unfold assign_unit. destruct (assign_cfeature _ _ _ _). apply set_unit_frame. Qed.

Lemma delete_unit_frame : forall p type st, same_units (ru_sp st) (ru_sp (delete_unit p type st)).
Proof. intros. apply set_unit_frame. Qed.

Lemma assign_if_frame : forall p fname temp st, same_units (ru_sp st) (ru_sp (assign_if p fname temp st)).
Proof. intros p [s|] temp st; [apply assign_unit_frame | reflexivity]. Qed.

Lemma upd_unit_frame : forall p b sp, unit_place b = unit_place (unit_data p sp) -> same_units sp (upd_unit p b sp).
Proof.
  intros [|i|i|i] b sp H; cbn [upd_unit]; try reflexivity; [now apply units_bnst_to | now apply units_tag_to].
Qed.

Lemma copy_or_delete_frame : forall p q pat temp st, same_units (ru_sp st) (ru_sp (copy_or_delete p q pat temp st)).
Proof. intros. unfold copy_or_delete. destruct (check_feature _ _); [apply assign_unit_frame | apply delete_unit_frame]. Qed.

Section Frame.
Context `{E : RuleEnv}.

Lemma change_imi_place : forall m buf m' buf', change_one_mrph_imi m buf = Ret (m', buf') -> same_word m m'.
Proof.
  intros m buf m' buf' H. unfold change_one_mrph_imi in H. cbv zeta in H.
  repeat (case_hyp H; try discriminate); injection H as <- _; split; auto.
Qed.

Lemma change_rep_place : forall m b c buf m' buf', change_one_mrph_rep m b c buf = Ret (m', buf') -> same_word m m'.
Proof.
  intros m b c buf m' buf' H. unfold change_one_mrph_rep in H. cbv zeta in H.
  case_hyp H; [injection H as <- _; reflexivity|]. destruct (split_rep _) as [[[[[pre s1] s2] post]|]|]; [|injection H as <- _; reflexivity|discriminate].
  destruct (in_imi _) as [orig|]; [|discriminate]. destruct (inflect m s1) as [n1|]; [|discriminate].
  destruct (inflect m s2) as [n2|]; [|discriminate].
  set (m1 := if _ <=? IMI_MAX then _ else m) in H.
  assert (P : same_word m m1) by (unfold m1; destruct (_ <=? IMI_MAX); split; auto). clearbody m1.
  destruct b; [|injection H as <- _; exact P].
  match type of H with match ?x with _ => _ end = _ => destruct x as [[f b1]|]; [|discriminate] end.
  destruct (in_imi _) as [new|]; [|discriminate]. destruct (assign_cfeature _ _ _ _) as [f1 b2]. injection H as <- _. exact P.
Qed.

Lemma change_one_place : forall m cp m', change_one_mrph m cp = Ret m' -> same_word m m'.
Proof.
  intros m cp m' H. unfold change_one_mrph in H. cbv zeta in H. destruct (existsb _ _); [discriminate|].
  destruct (change_fields cp) as [|h fields]; [discriminate|]. destruct (get_hinsi_id h) as [hinshi|]; [|discriminate].
  match type of H with match ?x with _ => _ end = _ => destruct x as [bunrui|]; [|discriminate] end.
  match type of H with match ?x with _ => _ end = _ => destruct x as [[kata kei]|]; [|discriminate] end.
  injection H as <-. destruct (kata =? 0); split; auto.
Qed.

Lemma change_mrph_place : forall m cp buf m' buf', change_mrph m cp buf = Ret (m', buf') -> same_word m m'.
Proof.
  intros m cp buf m' buf' H. unfold change_mrph in H.
  destruct (change_one_mrph_imi m buf) as [[m1 b1]|] eqn:E1; [|discriminate]. apply change_imi_place in E1.
  destruct (change_one_mrph_rep m1 _ _ b1) as [[m2 b2]|] eqn:E2; [|discriminate]. apply change_rep_place in E2.
  destruct (change_one_mrph m2 cp) as [m3|] eqn:E3; [|discriminate]. apply change_one_place in E3.
  unfold change_alt_mrph in H. destruct (change_alts _ _ _ _ _) as [[[rest ret] b3]|]; [|discriminate]. injection H as <- _.
  transitivity m3; [transitivity m2; [now transitivity m1 | exact E3] | split; auto].
Qed.

Lemma scase_code_place : forall sp b b', get_scase_code sp b = Ret b' -> unit_place b' = unit_place b.
Proof.
  intros sp b b' H. unfold get_scase_code in H. cbv zeta in H. destruct (lookup_scase sp b) as [ans|]; [|discriminate].
  match type of H with match ?x with _ => _ end = _ => destruct x as [code|]; [|discriminate] end. now injection H as <-.
Qed.

(** ** The functions of the rules *)
Create HintDb frame.
#[local] Hint Resolve framed_err set_unit_frame assign_unit_frame delete_unit_frame assign_if_frame copy_or_delete_frame : frame.
#[local] Hint Extern 1 (same_units _ _) => reflexivity : frame.

Ltac framed :=
  repeat first
    [ progress (intros; cbv zeta)
    | solve [auto with frame]
    | apply framed_ret
    | match goal with
      | |- framed ?st (match ?c with Ret a => _ | Err e => Err e end) => apply framed_value
      | |- framed _ (if ?b then _ else _) => destruct b
      | |- framed _ (match ?x with _ => _ end) => destruct x
      end ].

Lemma surface_frame : forall text p offset st, framed st (surface_case text p offset st).
Proof.
  intros. unfold surface_case. apply framed_value. intros q _. cbv zeta.
  case_goal; [apply framed_value; intros b Hb; apply framed_ret, upd_unit_frame; apply scase_code_place in Hb; exact Hb|].
  repeat (case_goal; [|framed]); framed; now apply upd_unit_frame.
Qed.

Lemma change_frame : forall change p offset st,
  (forall m buf m' buf', change m buf = Ret (m', buf') -> same_word m m') -> framed st (change_unit change p offset st).
Proof.
  intros change p offset st H. unfold change_unit. apply framed_value. intros i _. apply framed_value. intros [m buf] Hm.
  apply framed_ret, units_mrph_to. now apply H in Hm.
Qed.

Lemma assign_sm_frame : forall p cp st, framed st (assign_sm p cp st).
Proof. intros. unfold assign_sm. framed; now apply upd_unit_frame. Qed.

Lemma make_fuzoku_frame : forall p offset temp st, framed st (make_fuzoku p offset temp st).
Proof.
  intros. unfold make_fuzoku. apply framed_value. intros t _. apply framed_fold. intros a st'. apply framed_value. intros k _.
  apply framed_ret. repeat (etransitivity; [|apply assign_unit_frame || apply delete_unit_frame]). reflexivity.
Qed.

Lemma auto_loop_frame : forall f i pos n v temp st, framed st (auto_dic_loop f i pos n v temp st).
Proof.
  induction f as [|f IH]; intros; cbn [auto_dic_loop]; [now apply framed_ret|].
  destruct (n <=? 0); [now apply framed_ret|]. apply framed_value. intros [[token|]|] _; framed; apply IH.
Qed.

Lemma propagate_frame : forall text p offset temp st, framed st (propagate text p offset temp st).
Proof.
  intros. unfold propagate. framed. etransitivity; [|apply copy_or_delete_frame]. apply copy_or_delete_frame.
Qed.

#[local] Hint Resolve surface_frame assign_sm_frame make_fuzoku_frame auto_loop_frame propagate_frame : frame.

Lemma rule_function_frame : forall text p offset length temp st, framed st (rule_function text p offset length temp st).
Proof.
  intros. unfold rule_function.
  destruct (starts_with "&表層:" text); [apply surface_frame|].
  destruct (starts_with "&MEMO:" text); [unfold memo_add; framed|].
  destruct (starts_with "&品詞変更:" text); [destruct (OptPosModification && negb InputParsed); [apply change_frame; intros; eapply change_mrph_place; eauto | framed]|].
  destruct (starts_with "&代表表記変更:" text); [apply change_frame; intros; eapply change_rep_place; eauto|].
  unfold fukugoji_case, fukugoji_id, remembered_word, promote_feature, auto_dic, check_auto_dic. framed.
Qed.

Lemma assign_feature_frame : forall target p offset length temp fs st, framed st (assign_feature target p offset length temp fs st).
Proof.
  intros. unfold assign_feature. apply framed_value. intros q _. apply framed_fold. intros text s. unfold assign_one.
  destruct text as [|c r]; [framed|]. destruct (Ascii.eqb c "^"); [apply framed_ret, set_unit_frame|]. destruct (Ascii.eqb c "&"); [apply rule_function_frame | framed].
Qed.
End Frame.

(** ** The loops over the rules *)
Section Loops.
Context {R : Type} (rule_f : R -> FEATURE).
Context (match_at : R -> Z -> Z -> Z -> rule_state -> res (Z * rule_state)).
Context (apply : R -> Z -> Z -> Z -> rule_state -> res rule_state).
Context (break_mode : rule_break) (direction : rule_direction) (base length : Z).
Hypothesis match_frame : forall r d b f st n st', match_at r d b f st = Ret (n, st') -> same_units (ru_sp st) (ru_sp st').
Hypothesis apply_frame : forall r d k n st, framed st (apply r d k n st).

Lemma apply_match_frame : forall r i n st, framed st (apply_match apply direction base length r i n st).
Proof. intros. unfold apply_match. apply framed_fold. intros. apply apply_frame. Qed.

Lemma rules_at_frame : forall rs i st j st', rules_at rule_f match_at apply break_mode direction base length rs i st = Ret (j, st') ->
  same_units (ru_sp st) (ru_sp st').
Proof.
  induction rs as [|r rs IH]; intros i st j st' E; cbn [rules_at] in E; [injection E as _ <-; reflexivity|].
  destruct (match_step _ _ _ _ r i st) as [[n st1]|] eqn:E1; [|discriminate]. apply match_frame in E1. transitivity (ru_sp st1); [exact E1|].
  destruct (n =? -1); [now apply IH in E|].
  destruct (apply_match _ _ _ _ r i n st1) as [st2|] eqn:E2; [|discriminate]. apply apply_match_frame in E2. transitivity (ru_sp st2); [exact E2|].
  destruct (after_match _ _); [now apply IH in E | injection E as _ <-; reflexivity | injection E as _ <-; reflexivity].
Qed.

Lemma mrm_loop_frame : forall f rs i st, framed st (mrm_loop rule_f match_at apply break_mode direction base length f rs i st).
Proof.
  induction f as [|f IH]; intros rs i st; cbn [mrm_loop]; [apply framed_err|]. destruct (i <? length); [|now apply framed_ret].
  apply framed_value. intros [j st1] E1. apply rules_at_frame in E1. intros st' E. apply IH in E. now transitivity (ru_sp st1).
Qed.

Lemma rule_at_all_frame : forall r is_ st, framed st (rule_at_all rule_f match_at apply break_mode direction base length r is_ st).
Proof.
  intros r. induction is_ as [|i is_ IH]; intros st; cbn [rule_at_all]; [now apply framed_ret|].
  apply framed_value. intros [n st1] E1. apply match_frame in E1.
  assert (G : forall c, framed st1 c -> framed st c) by (intros c H st' E; transitivity (ru_sp st1); [exact E1 | now apply H]).
  apply G. destruct (n =? -1); [apply IH|]. apply framed_step; [apply apply_match_frame|]. intros st2.
  destruct (after_match _ _); [apply IH | now apply framed_ret | now apply framed_ret].
Qed.

Lemma rule_loops_frame : forall f mode rs st, framed st (rule_loops rule_f match_at apply break_mode direction base length f mode rs st).
Proof.
  intros f [|] rs st; cbn [rule_loops]; [apply mrm_loop_frame|]. apply framed_fold. intros. apply rule_at_all_frame.
Qed.
End Loops.

Section GeneralRules.
Context `{E : RuleEnv} `{RM : RuleMatch}.

Lemma matching_frame : forall {R} (m : SENTENCE_DATA -> match_state -> R -> Z -> Z -> Z -> res (Z * match_state)) r d bw fw st n st',
  matching m r d bw fw st = Ret (n, st') -> same_units (ru_sp st) (ru_sp st').
Proof. intros R m r d bw fw st n st' H. unfold matching in H. destruct (m _ _ _ _ _ _) as [[k ms]|]; [|discriminate]. now injection H as _ <-. Qed.

Lemma assign_function_frame : forall flag f g base length also temp st, framed st (assign_function flag f g base length also temp st).
Proof.
  intros flag f [ty rules mode bm dir] base length also temp st. unfold assign_function. cbv zeta.
  destruct (existsb _ _); [destruct rules; [|apply framed_err]; apply rule_loops_frame;
    [intros; eapply matching_frame; eauto | intros; apply assign_feature_frame]|].
  destruct rules as [rs|rs]; [apply framed_err|]. destruct (existsb _ _); [|destruct (existsb _ _); [|apply framed_err]].
  - apply rule_loops_frame; [intros; eapply matching_frame; eauto|]. intros r d k n st1. unfold apply_tag.
    apply framed_step; [apply assign_feature_frame|]. intros st2. destruct also; [apply assign_feature_frame | now apply framed_ret].
  - apply rule_loops_frame; [intros; eapply matching_frame; eauto|]. intros r d k n st1. unfold apply_bnst.
    apply framed_step; [apply assign_feature_frame|]. intros st2. destruct also; [apply assign_feature_frame | now apply framed_ret].
Qed.

(** The rules of a file. *)
Lemma general_rules_frame : forall f rules base size flag also temp st,
  framed st (assign_general_feature f rules base size flag also temp st).
Proof.
  intros. unfold assign_general_feature. apply framed_fold. intros g s. destruct (gr_type g =? flag); [apply assign_function_frame | now apply framed_ret].
Qed.
End GeneralRules.
