(* ===== verification/RuleLoops.v ===== *)
(** * What the rules do to a sentence

    The loops of Rules.v come to an end on every sentence; and for rules on words alone, the order of the
    rules, the mode and the direction of the loops do not matter. *)
From Stdlib Require Import ZArith List Bool String Ascii Lia.
Import ListNotations.
From S2P Require Import Prelude CStr Feature Sentence Units SemCode CheckFunction Regexp PredCase ChangeMrph Rules RuleFrame.
Open Scope string_scope.
Open Scope Z_scope.

(** ** The loops end *)
Definition no_fuel {A} (r : res A) : Prop := r <> Err OutOfFuel.

Lemma no_fuel_ret : forall {A} (a : A), no_fuel (Ret a).
Proof. intros A a H. discriminate H. Qed.

Lemma no_fuel_bind : forall {A B} (c : res A) (k : A -> res B), no_fuel c -> (forall a, no_fuel (k a)) ->
  no_fuel (match c with Ret a => k a | Err e => Err e end).
Proof.
  intros A B [a|e] k HC HK; [apply HK|]. intros H. injection H as ->. now apply HC.
Qed.

Lemma no_fuel_fold : forall {A S} (f : A -> S -> res S) l s, (forall a s, no_fuel (f a s)) -> no_fuel (fold_res f l s).
Proof.
  intros A S f l. induction l as [|a l IH]; intros s H; cbn; [apply no_fuel_ret|].
  apply no_fuel_bind; auto.
Qed.

Create HintDb no_fuel.
#[export] Hint Resolve no_fuel_ret : no_fuel.

(** Goals [no_fuel r] by the structure of [r]. *)
Ltac no_fuel :=
  repeat first
    [ progress (intros; cbv zeta)
    | solve [auto with no_fuel]
    | match goal with
      | |- no_fuel (fold_res _ _ _) => apply no_fuel_fold
      | |- no_fuel (Err _) => let H := fresh in intros H; discriminate H
      | |- no_fuel (match ?c with Ret a => _ | Err e => Err e end) => apply no_fuel_bind
      | |- no_fuel (if ?b then _ else _) => destruct b
      | |- no_fuel (match ?x with _ => _ end) => destruct x
      end ].

Lemma some_code_fuel : forall f size test codes, (0 < size)%nat -> (forall c, no_fuel (test c)) ->
  (String.length codes < f)%nat -> no_fuel (some_code f size test codes).
Proof.
  induction f as [|f IH]; intros size test codes HS HT HF; [lia|]. cbn [some_code].
  destruct codes as [|c codes]; [no_fuel|]. apply no_fuel_bind; [apply HT|]. intros b. destruct b; [no_fuel|].
  destruct (Z.ltb_spec (slen (String c codes)) (Z.of_nat size)) as [H|H]; [no_fuel|].
  apply IH; auto. unfold slen in H. rewrite sdrop_length by lia. lia.
Qed.

Lemma search_name_fuel : forall f name x i, no_fuel (search_name f name x i).
Proof. induction f; intros; cbn [search_name]; no_fuel. Qed.
#[export] Hint Resolve search_name_fuel : no_fuel.

(** None of the functions of the rules depends on fuel. *)
Section NoFuel.
Context `{E : RuleEnv}.

Lemma class_is_fuel : forall i j name, no_fuel (class_is i j name).
Proof. unfold class_is. no_fuel. Qed.
Lemma mrph_ref_fuel : forall sp i, no_fuel (mrph_ref sp i).
Proof. unfold mrph_ref. no_fuel. Qed.
Lemma check_unit_fuel : forall p, no_fuel (check_unit p).
Proof. unfold check_unit. no_fuel. Qed.
#[local] Hint Resolve class_is_fuel mrph_ref_fuel check_unit_fuel : no_fuel.

Lemma as_mrph_fuel : forall p o, no_fuel (as_mrph p o).
Proof. unfold as_mrph. no_fuel. Qed.
Lemma as_bnst_fuel : forall p o, no_fuel (as_bnst p o).
Proof. unfold as_bnst. no_fuel. Qed.
Lemma as_tag_fuel : forall p o, no_fuel (as_tag p o).
Proof. unfold as_tag. no_fuel. Qed.
Lemma tag_index_fuel : forall p, no_fuel (tag_index p).
Proof. unfold tag_index. no_fuel. Qed.
Lemma head_at_fuel : forall sp t d, no_fuel (head_at sp t d).
Proof. unfold head_at. no_fuel. Qed.
Lemma rep_length_fuel : forall s, no_fuel (get_mrph_rep_length s).
Proof. unfold get_mrph_rep_length. no_fuel. Qed.
Lemma form_id_fuel : forall x t, no_fuel (get_form_id x t).
Proof. unfold get_form_id. no_fuel. Qed.
Lemma gobi_fuel : forall i j, no_fuel (gobi_at i j).
Proof. unfold gobi_at. no_fuel. Qed.
Lemma cut_end_fuel : forall n s, no_fuel (cut_end n s).
Proof. unfold cut_end. no_fuel. Qed.
Lemma in_imi_fuel : forall s, no_fuel (in_imi s).
Proof. unfold in_imi. no_fuel. Qed.
Lemma read_alt_fuel : forall s m, no_fuel (read_alt s m).
Proof. unfold read_alt. no_fuel. Qed.
#[local] Hint Resolve as_mrph_fuel as_bnst_fuel as_tag_fuel tag_index_fuel head_at_fuel rep_length_fuel form_id_fuel
  gobi_fuel cut_end_fuel in_imi_fuel read_alt_fuel : no_fuel.

Lemma basic_gobi_fuel : forall k, no_fuel (basic_gobi k).
Proof. unfold basic_gobi. no_fuel. Qed.
Lemma drops_fuel : forall m, no_fuel (drops_long_sound m).
Proof. unfold drops_long_sound. no_fuel. Qed.
#[local] Hint Resolve basic_gobi_fuel drops_fuel : no_fuel.

Lemma mrph_rn_fuel : forall m, no_fuel (make_mrph_rn m).
Proof. unfold make_mrph_rn. no_fuel. Qed.
#[local] Hint Resolve mrph_rn_fuel : no_fuel.

Lemma pred_string_fuel : forall sp t m r, no_fuel (make_pred_string sp t m r).
Proof. unfold make_pred_string, main_pred, joins_next, joins_previous. no_fuel. Qed.
#[local] Hint Resolve pred_string_fuel : no_fuel.

Lemma or_codes_fuel : forall d s, no_fuel (or_codes d s).
Proof. induction d as [|x d IH]; intros [|y s]; cbn [or_codes]; no_fuel. Qed.
#[local] Hint Resolve or_codes_fuel : no_fuel.

Lemma alt_scases_fuel : forall sp b v f ans, no_fuel (alt_scases sp b v f ans).
Proof. intros sp b v. induction f as [|a f IH]; intros ans; cbn [alt_scases]; unfold or_scase_code; no_fuel. Qed.
#[local] Hint Resolve alt_scases_fuel : no_fuel.

Lemma scase_code_fuel : forall sp b, no_fuel (get_scase_code sp b).
Proof. unfold get_scase_code, lookup_scase. no_fuel. Qed.

Lemma fukugoji_word_fuel : forall sp ks, no_fuel (fukugoji_word sp ks).
Proof. intros sp. induction ks as [|k ks IH]; cbn [fukugoji_word]; no_fuel. Qed.
#[local] Hint Resolve scase_code_fuel fukugoji_word_fuel : no_fuel.

Lemma fukugoji_id_fuel : forall sp b pre, no_fuel (make_fukugoji_id sp b pre).
Proof. unfold make_fukugoji_id, extract_fukugoji_string. no_fuel. Qed.
Lemma fukugoji_case_fuel : forall sp b pre, no_fuel (make_fukugoji_case_string sp b pre).
Proof. unfold make_fukugoji_case_string, extract_fukugoji_string, pp_code_to_kstr. no_fuel. Qed.
#[local] Hint Resolve fukugoji_id_fuel fukugoji_case_fuel : no_fuel.

Lemma change_imi_fuel : forall m buf, no_fuel (change_one_mrph_imi m buf).
Proof. unfold change_one_mrph_imi. no_fuel. Qed.
Lemma change_rep_fuel : forall m b c buf, no_fuel (change_one_mrph_rep m b c buf).
Proof. unfold change_one_mrph_rep, split_rep, inflect. no_fuel. Qed.
Lemma change_one_fuel : forall m cp, no_fuel (change_one_mrph m cp).
Proof. unfold change_one_mrph, get_hinsi_id, get_bunrui_id, get_type_id. no_fuel. Qed.
#[local] Hint Resolve change_imi_fuel change_rep_fuel change_one_fuel : no_fuel.

Lemma change_alts_fuel : forall cp f m r buf, no_fuel (change_alts cp f m r buf).
Proof. intros cp. induction f as [|a f IH]; intros; cbn [change_alts]; no_fuel. Qed.
#[local] Hint Resolve change_alts_fuel : no_fuel.

Lemma change_mrph_fuel : forall m cp buf, no_fuel (change_mrph m cp buf).
Proof. unfold change_mrph, change_alt_mrph. no_fuel. Qed.
#[local] Hint Resolve change_mrph_fuel : no_fuel.

Lemma sms_match_fuel : forall pat codes, no_fuel (sm_match_check pat codes SM_NO_EXPAND_NE).
Proof.
  intros pat codes. apply some_code_fuel; [unfold SM_CODE_SIZE; lia | | lia].
  intros c. unfold _sm_match_score. no_fuel.
Qed.
Lemma bgh_match_fuel : forall pat codes, no_fuel (bgh_match_check pat codes).
Proof. intros pat codes. apply some_code_fuel; [unfold BGH_CODE_SIZE; lia | | lia]. no_fuel. Qed.
#[local] Hint Resolve sms_match_fuel bgh_match_fuel : no_fuel.

Lemma auto_key_fuel : forall sp is_ key, no_fuel (auto_dic_key sp key is_).
Proof. intros sp. induction is_ as [|i is_ IH]; intros; cbn [auto_dic_key]; no_fuel. Qed.
#[local] Hint Resolve auto_key_fuel : no_fuel.

Lemma auto_loop_fuel : forall f i a n v t st, no_fuel (auto_dic_loop f i a n v t st).
Proof. induction f as [|f IH]; intros; cbn [auto_dic_loop]; unfold auto_dic_entry; no_fuel. Qed.
#[local] Hint Resolve auto_loop_fuel : no_fuel.

Lemma assign_feature_fuel : forall target p offset length temp fs st,
  no_fuel (assign_feature target p offset length temp fs st).
Proof.
  intros. unfold assign_feature. apply no_fuel_bind; [auto with no_fuel|]. intros q. apply no_fuel_fold.
  intros text s. unfold assign_one, rule_function, surface_case, memo_add, change_unit, fukugoji_case, fukugoji_id,
    remembered_word, promote_feature, matched_mrph, propagate, make_fuzoku, auto_dic, check_auto_dic, assign_sm.
  no_fuel.
Qed.
End NoFuel.

(** A loop ends when the rules that jump match something.  [Inv] is what matching needs of the state and the rules keep. *)
Section LoopsEnd.
Context {R S : Type} (rule_f : R -> FEATURE) (Inv : S -> Prop).
Context (match_at : R -> Z -> Z -> Z -> S -> res (Z * S)) (apply : R -> Z -> Z -> Z -> S -> res S).
Context (break_mode : rule_break) (direction : rule_direction) (base length : Z).

Local Abbreviation jumps r := (after_match break_mode (break_feature (rule_f r)) = RLOOP_BREAK_JUMP).

Record advancing (r : R) : Prop := {
  ad_match : forall d bw fw st, Inv st -> 0 <= fw -> no_fuel (match_at r d bw fw st);
  ad_range : forall d bw fw st n st', Inv st -> 0 <= fw -> match_at r d bw fw st = Ret (n, st') ->
    (n = -1 \/ 0 <= n <= fw) /\ Inv st';
  ad_jump : jumps r -> forall d bw fw st st', Inv st -> match_at r d bw fw st <> Ret (0, st');
  ad_apply : forall d k n st, no_fuel (apply r d k n st);
  ad_keep : forall d k n st st', Inv st -> apply r d k n st = Ret st' -> Inv st'
}.

Local Abbreviation step := (match_step match_at direction base length).
Local Abbreviation at_one := (rules_at rule_f match_at apply break_mode direction base length).
Local Abbreviation mrm := (mrm_loop rule_f match_at apply break_mode direction base length).
Local Abbreviation at_all := (rule_at_all rule_f match_at apply break_mode direction base length).

Lemma units_from_pos : forall i, 0 <= i < length -> 1 <= units_from direction length i.
Proof. intros i Hi. unfold units_from. destruct direction; lia. Qed.

Lemma apply_match_fuel : forall r i n st, advancing r -> no_fuel (apply_match apply direction base length r i n st).
Proof. intros r i n st A. unfold apply_match, for_res. apply no_fuel_fold. intros. apply (ad_apply r A). Qed.

Lemma apply_match_keeps : forall r i n st st', advancing r -> Inv st ->
  apply_match apply direction base length r i n st = Ret st' -> Inv st'.
Proof.
  intros r i n st st' A HI. unfold apply_match, for_res. apply (fold_res_inv Inv); [|exact HI].
  intros k s s' _ HS. apply (ad_keep r A _ _ _ _ _ HS).
Qed.

Lemma units_from_nonneg : forall i, 0 <= i < length -> 0 <= units_from direction length i.
Proof. intros i Hi. pose proof (units_from_pos i Hi). lia. Qed.
#[local] Hint Resolve units_from_nonneg : core.

Lemma rules_at_advance : forall rs i st, (forall r, In r rs -> advancing r) -> Inv st -> 0 <= i < length ->
  no_fuel (at_one rs i st) /\ forall j st' , at_one rs i st = Ret (j, st') -> 0 <= j /\ Inv st'.
Proof.
  induction rs as [|r rs IH]; intros i st A HI Hi; cbn [rules_at].
  - split; [apply no_fuel_ret|]. intros j st' [= <- <-]. split; [lia | exact HI].
  - pose proof (A r (or_introl eq_refl)) as Ar. assert (IH' := fun s HS => IH i s (fun r' H => A r' (or_intror H)) HS Hi).
    destruct (step r i st) as [[n st1]|e] eqn:E; [|split; [|discriminate]].
    + destruct (ad_range r Ar _ _ _ _ _ _ HI (units_from_nonneg i Hi) E) as [Hn HI1].
      destruct (Z.eqb_spec n (-1)) as [->|Hn1]; [now apply IH'|]. pose proof (apply_match_fuel r i n st1 Ar) as HA.
      destruct (apply_match _ _ _ _ r i n st1) as [st2|e] eqn:EA; [|split; [congruence | discriminate]].
      apply apply_match_keeps in EA; [|exact Ar | exact HI1].
      destruct (after_match _ _) eqn:EB; [now apply IH' | |]; (split; [apply no_fuel_ret|]); intros j st' [= <- <-]; (split; [|exact EA]); [lia|].
      destruct (Z.eq_dec n 0) as [->|]; [|lia]. elim (ad_jump r Ar EB _ _ _ _ _ HI E).
    + intros H. injection H as ->. exact (ad_match r Ar _ _ _ _ HI (units_from_nonneg i Hi) E).
Qed.

Lemma mrm_loop_ends : forall rs, (forall r, In r rs -> advancing r) -> forall f f' i st, Inv st -> 0 <= i ->
  (0 < f)%nat -> length - i < Z.of_nat f -> (f <= f')%nat ->
  mrm f' rs i st = mrm f rs i st /\ no_fuel (mrm f rs i st) /\ forall st', mrm f rs i st = Ret st' -> Inv st'.
Proof.
  intros rs A. induction f as [|f IH]; intros f' i st HI Hi Hp Hf Hle; [lia|].
  destruct f' as [|f']; [lia|]. cbn [mrm_loop].
  destruct (Z.ltb_spec i length) as [H|H];
    [|split; [reflexivity | split; [apply no_fuel_ret | now intros st' [= <-]]]].
  destruct (rules_at_advance rs i st A HI (conj Hi H)) as [HF HJ].
  destruct (at_one rs i st) as [[j st1]|e]; [|split; [reflexivity | split; [congruence | discriminate]]].
  destruct (HJ j st1 eq_refl) as [Hj HI1]. apply IH; auto; lia.
Qed.

Lemma rule_at_all_ends : forall r is_ st, advancing r -> (forall i, In i is_ -> 0 <= i < length) -> Inv st ->
  no_fuel (at_all r is_ st) /\ forall st', at_all r is_ st = Ret st' -> Inv st'.
Proof.
  intros r. induction is_ as [|i is_ IH]; intros st A H HI; cbn [rule_at_all];
    [split; [apply no_fuel_ret | now intros st' [= <-]]|].
  assert (IH' : forall s, Inv s -> no_fuel (at_all r is_ s) /\ forall st', at_all r is_ s = Ret st' -> Inv st')
    by (intros s HS; apply IH; [exact A | intros k Hk; apply H; now right | exact HS]).
  pose proof (units_from_nonneg i (H i (or_introl eq_refl))) as Hu.
  pose proof (ad_match r A (base + units_before direction length i) (units_before direction length i) _ st HI Hu) as HM.
  destruct (step r i st) as [[n st1]|e] eqn:E; [|split; [intros HE; injection HE as ->; now apply HM | discriminate]].
  destruct (ad_range r A _ _ _ _ _ _ HI Hu E) as [_ HI1]. destruct (n =? -1); [now apply IH'|].
  pose proof (apply_match_fuel r i n st1 A) as HA.
  destruct (apply_match _ _ _ _ r i n st1) as [st2|e] eqn:EA; [|split; [congruence | discriminate]].
  apply apply_match_keeps in EA; [|exact A | exact HI1].
  destruct (after_match _ _); [now apply IH' | |]; (split; [apply no_fuel_ret | now intros st' [= <-]]).
Qed.

Lemma rule_loops_end : forall rs mode f f' st, (forall r, In r rs -> advancing r) -> Inv st ->
  (0 < f)%nat -> length < Z.of_nat f -> (f <= f')%nat ->
  let run g := rule_loops rule_f match_at apply break_mode direction base length g mode rs st in
  run f' = run f /\ no_fuel (run f) /\ forall st', run f = Ret st' -> Inv st'.
Proof.
  intros rs mode f f' st A HI Hp Hf Hle run. unfold run. clear run. destruct mode; cbn [rule_loops].
  - apply mrm_loop_ends; auto; lia.
  - split; [reflexivity|]. revert st HI A. clear. induction rs as [|r rs IH]; intros st HI A; cbn;
      [split; [apply no_fuel_ret | now intros st' [= <-]]|].
    destruct (rule_at_all_ends r (zrange 0 length) st (A r (or_introl eq_refl)) (fun i => proj1 (in_zrange 0 length i)) HI) as [F K].
    destruct (at_all r _ st) as [s|e]; [|split; [congruence | discriminate]].
    apply IH; [now apply K | intros r' H; apply A; now right].
Qed.
End LoopsEnd.


(** *** The matchers of patterns *)

(** How many elements of a pattern are not starred. *)
Definition needs {P} (ast : P -> bool) (rs : list P) : Z := Z.of_nat (List.length (filter (fun r => negb (ast r)) rs)).

Section PatternLaws.
Context {P D : Type} (ast : P -> bool) (elem_match : P -> D -> res bool).
Hypothesis elem_ends : forall r d, no_fuel (elem_match r d).

Definition left_of (most : Z) (r : res Z) : Prop :=
  match r with Ret n => n = -1 \/ 0 <= n <= most | Err e => e <> OutOfFuel end.

Lemma left_of_elem : forall r d most (k : res Z), left_of most k ->
  left_of most (b <- elem_match r d ;; if b then k else Ret (-1)).
Proof.
  intros r d most k H. pose proof (elem_ends r d). destruct (elem_match r d) as [[]|e]; cbn; auto. congruence.
Qed.

Lemma left_of_le : forall a b r, a <= b -> left_of a r -> left_of b r.
Proof. intros a b [n|e] H; cbn; [lia | auto]. Qed.

Lemma left_of_or : forall most (k1 k2 : res Z), left_of most k1 -> left_of most k2 ->
  left_of most (n <- k1 ;; if n =? -1 then k2 else Ret n).
Proof. intros most [n|e] k2 H1 H2; [|exact H1]. destruct (n =? -1); auto. Qed.

Lemma needs_cons : forall r rs, needs ast (r :: rs) = (if ast r then 0 else 1) + needs ast rs.
Proof. intros r rs. unfold needs. cbn [filter]. destruct (ast r); cbn [negb List.length]; lia. Qed.

Lemma needs_nonneg : forall rs : list P, 0 <= needs ast rs.
Proof. intros rs. unfold needs. lia. Qed.

Lemma seq_match_left : forall part long rs ds,
  left_of (Z.of_nat (List.length ds) - needs ast rs) (seq_match ast elem_match part long rs ds).
Proof.
  intros part long. induction rs as [|r rs IH]; intros ds.
  - cbn [seq_match]. change (needs ast []) with 0. destruct ds as [|d ds]; [cbn; lia|]. destruct part; cbn [left_of]; lia.
  - rewrite needs_cons. destruct (ast r) eqn:A.
    + induction ds as [|d ds IHd]; rewrite seq_match_star by assumption.
      * destruct long; [apply IH|]. apply left_of_or; [apply IH | now left].
      * assert (IHd' : left_of (Z.of_nat (List.length (d :: ds)) - (0 + needs ast rs)) (seq_match ast elem_match part long (r :: rs) ds)).
        { eapply left_of_le; [|exact IHd]. cbn [List.length]. lia. }
        destruct long.
        -- pose proof (elem_ends r d). destruct (elem_match r d) as [[]|e]; [| apply IH | cbn; congruence].
           apply left_of_or; [exact IHd' | apply IH].
        -- apply left_of_or; [apply IH | now apply left_of_elem].
    + rewrite seq_match_one by assumption. destruct ds as [|d ds]; [now left|]. apply left_of_elem.
      eapply left_of_le; [|apply IH]. cbn [List.length]. lia.
Qed.

Context (data : array D).

Lemma all_match_fuel : forall rs ds, no_fuel (all_match ast elem_match rs ds).
Proof.
  intros rs ds. unfold all_match. pose proof (seq_match_left false false rs ds) as H.
  destruct (seq_match _ _ _ _ _ _); [apply no_fuel_ret | cbn in H; congruence].
Qed.

(** The length of a match: at least the number of elements that are not starred, at least 1 without a pattern. *)
Definition self_needs (self : option (list P)) : Z := match self with Some p => needs ast p | None => 1 end.

Lemma rule_loop_length : forall self post d fw, 0 <= fw -> forall f n, (Z.to_nat n < f)%nat -> n <= fw ->
  match rule_match_loop ast elem_match data f self post d fw n with
  | Ret len => len = -1 \/ 0 <= len <= fw /\ self_needs self <= len
  | Err e => e <> OutOfFuel
  end.
Proof.
  intros self post d fw Hfw. induction f as [|f IH]; intros n Hf Hn; [lia|]. cbn [rule_match_loop].
  destruct (Z.leb_spec n 0) as [H0|H0]; [now left|].
  assert (HS : left_of (n - self_needs self) (match self with Some p => seq_match ast elem_match true true p (fw_window data d n)
                                            | None => Ret (n - 1) end)).
  { destruct self as [p|]; cbn [self_needs left_of]; [|lia].
    eapply left_of_le; [|apply seq_match_left]. rewrite fw_window_length by lia. lia. }
  assert (HN : 0 <= self_needs self) by (destruct self; [apply needs_nonneg | cbn; lia]).
  destruct (match self with Some _ => _ | None => _ end) as [rest|e]; [|exact HS]. cbn [left_of] in HS.
  destruct (Z.eqb_spec rest (-1)); [now left|].
  assert (HP : no_fuel (post_match ast elem_match data post d fw (n - rest))).
  { destruct post; [apply all_match_fuel | apply no_fuel_ret]. }
  destruct (post_match _ _ _ _ _ _ _) as [[]|e]; [right; lia | | congruence]. apply IH; lia.
Qed.

Lemma rule_match_length : forall pre self post d bw fw, 0 <= fw ->
  match rule_match ast elem_match data pre self post d bw fw with
  | Ret len => len = -1 \/ 0 <= len <= fw /\ self_needs self <= len
  | Err e => e <> OutOfFuel
  end.
Proof.
  intros pre self post d bw fw Hfw. unfold rule_match.
  assert (HP : no_fuel (match pre with Some p => all_match ast elem_match (rev p) (bw_window data (d - 1) bw)
                        | None => Ret (bw =? 0) end)).
  { destruct pre; [apply all_match_fuel | apply no_fuel_ret]. }
  destruct (match pre with Some _ => _ | None => _ end) as [[]|e]; [| now left | congruence].
  apply rule_loop_length; lia.
Qed.
End PatternLaws.

(** *** The tests of features come to an end

    Those on a morpheme on every sentence, those on a bunsetsu or tag on a [good] one. *)
Class MrphTestsEnd {FM : FeatureMatch} : Prop :=
  mrph_tests_end : forall sp fr fd i, no_fuel (feature_pattern_matches sp fr fd PNULL (PM i)).
Class TestsEnd {FM : FeatureMatch} (good : SENTENCE_DATA -> Prop) : Prop :=
  tests_end : forall sp fr fd p, good sp -> no_fuel (feature_pattern_matches sp fr fd PNULL p).

(** The walk of &係側チェック from a node of a coordination to its first child ends: the nodes have depths that fall on this way.
    The arrays hold [2 * BNST_MAX] nodes. *)
Definition para_ends (nodes : array BNST_DATA) : Prop := exists depth : Z -> Z, forall i,
  0 <= depth i <= 2 * BNST_MAX /\
  (b_para_top_p (nodes i) = true -> forall c cs, b_child (nodes i) = c :: cs -> depth c < depth i).

Definition coordinations_end (sp : SENTENCE_DATA) : Prop := para_ends (bnst_data sp) /\ para_ends (tag_data sp).

(** Before the dependencies there are no such nodes. *)
Lemma no_coordinations_end : forall sp, (forall i, b_para_top_p (bnst_data sp i) = false) ->
  (forall i, b_para_top_p (tag_data sp i) = false) -> coordinations_end sp.
Proof.
  intros sp H1 H2. split; exists (fun _ => 0); intros i; (split; [unfold BNST_MAX; lia|]); [rewrite H1 | rewrite H2]; discriminate.
Qed.

Lemma para_ends_same : forall a a', (forall i, unit_place (a' i) = unit_place (a i)) -> para_ends a -> para_ends a'.
Proof.
  intros a a' H [depth D]. exists depth. intros i. destruct (D i) as [D1 D2]. split; [exact D1|].
  pose proof (H i) as HI. unfold unit_place in HI. intros T c cs C. apply (D2 ltac:(congruence) c cs). congruence.
Qed.

Lemma coordinations_same : forall sp sp', same_units sp sp' -> coordinations_end sp -> coordinations_end sp'.
Proof.
  intros sp sp' [_ _ HB HT] [H1 H2]. split; [exact (para_ends_same _ _ HB H1) | exact (para_ends_same _ _ HT H2)].
Qed.

Section ProgramTests.
Context {CE : CheckEnv}.

Lemma all_match_go_fuel : forall f c target flag, (String.length c < f)%nat -> no_fuel (sm_all_match_go f c target flag).
Proof.
  induction f as [|f IH]; intros c target flag HF; [lia|]. cbn [sm_all_match_go]. destruct c as [|x c]; [no_fuel|].
  destruct (Z.ltb_spec (slen (String x c)) (Z.of_nat SM_CODE_SIZE)) as [|HL]; [no_fuel|].
  assert (HS : (String.length (sdrop SM_CODE_SIZE (String x c)) < f)%nat)
    by (unfold slen, SM_CODE_SIZE in *; rewrite sdrop_length by lia; lia).
  no_fuel; apply IH; exact HS.
Qed.

Lemma sm_score_fuel : forall cp c flag, flag <> SM_EXPAND_NE -> no_fuel (_sm_match_score cp c flag).
Proof. intros cp c [| |] H; try contradiction; unfold _sm_match_score; no_fuel. Qed.

Lemma rule_code_flag : forall cp st c flag st', rule_code cp st = (c, flag, st') -> flag <> SM_EXPAND_NE.
Proof.
  intros cp st c flag st' H. unfold rule_code in H. destruct (_ =? 0); [|destruct SM2CODEExist]; injection H as _ <- _; discriminate.
Qed.

Lemma mrph_at_fuel : forall sp p, no_fuel (mrph_at sp p).
Proof. intros sp [|i|i|i]; unfold mrph_at; no_fuel. Qed.
Lemma bnst_at_fuel : forall sp p, no_fuel (bnst_at sp p).
Proof. intros sp [|i|i|i]; unfold bnst_at; no_fuel. Qed.
#[local] Hint Resolve mrph_at_fuel bnst_at_fuel : no_fuel.

Lemma scored_fuel : forall cp flag (k : Z -> bool) codes, flag <> SM_EXPAND_NE ->
  no_fuel (some_code (S (String.length codes)) SM_CODE_SIZE (fun c => s <- _sm_match_score cp c flag ;; Ret (k s)) codes).
Proof.
  intros cp flag k codes H. apply some_code_fuel; [unfold SM_CODE_SIZE; lia | | lia].
  intros c. apply no_fuel_bind; [now apply sm_score_fuel | intros s; apply no_fuel_ret].
Qed.
Lemma sm_codes_fuel : forall cp codes flag, flag <> SM_EXPAND_NE -> no_fuel (sm_match_check cp codes flag).
Proof. intros cp codes flag H. apply (scored_fuel cp flag (Z.ltb 0) codes H). Qed.
Lemma bgh_codes_fuel : forall cp codes, no_fuel (bgh_match_check cp codes).
Proof. intros. unfold bgh_match_check. apply some_code_fuel; [unfold BGH_CODE_SIZE; lia | intros; apply no_fuel_ret | lia]. Qed.
Lemma sm_all_fuel : forall c target, no_fuel (sm_all_match c target).
Proof. intros. apply all_match_go_fuel. lia. Qed.

Lemma meaning_fuel : forall sp rule st p r, check_meaning sp rule st p = Some r -> no_fuel r.
Proof.
  intros sp rule st p r H. unfold check_meaning in H. destruct (starts_with "&意味素:" rule);
    [|destruct (starts_with "&文節意味素:" rule); [|destruct (starts_with "&文節全意味素:" rule); [|discriminate H]]]; injection H as <-;
    destruct Thesaurus; try apply no_fuel_ret; try (apply no_fuel_bind; [apply mrph_at_fuel|]; intros m; destruct (m_SM m) as [sm|]; [|apply no_fuel_ret]);
    destruct (rule_code _ st) as [[[cp|] flag] st'] eqn:ER; try apply no_fuel_ret; apply rule_code_flag in ER.
  1: apply no_fuel_bind; [apply (scored_fuel cp flag (fun s => negb (s =? 0)) sm ER) | intros b; apply no_fuel_ret].
  all: apply no_fuel_bind; [apply bnst_at_fuel|]; intros d; cbv zeta.
  1: apply no_fuel_bind; [apply bgh_codes_fuel | intros b; apply no_fuel_ret].
  1: apply no_fuel_bind; [now apply sm_codes_fuel | intros b; apply no_fuel_ret].
  all: destruct (str_eq _ _); [apply no_fuel_ret|]; apply no_fuel_bind; [apply sm_all_fuel | intros b; apply no_fuel_ret].
Qed.

Lemma skip_para_fuel : forall nodes depth, (forall i, 0 <= depth i <= 2 * BNST_MAX /\
    (b_para_top_p (nodes i) = true -> forall c cs, b_child (nodes i) = c :: cs -> depth c < depth i)) ->
  forall f i, depth i < Z.of_nat f -> no_fuel (skip_para f nodes i).
Proof.
  intros nodes depth H. induction f as [|f IH]; intros i HD; [destruct (H i); lia|]. cbn [skip_para].
  destruct (H i) as [_ HC]. destruct (b_para_top_p (nodes i)); [|no_fuel].
  destruct (b_child (nodes i)) as [|c cs] eqn:EC; [no_fuel|]. apply IH. specialize (HC eq_refl c cs eq_refl). lia.
Qed.

Lemma children_fuel : forall sp p cp, coordinations_end sp \/ (exists i, p = PM i) -> no_fuel (children_have sp p cp).
Proof.
  intros sp p cp [[[d1 H1] [d2 H2]]|[i ->]]; [|unfold children_have; no_fuel].
  destruct p as [|i|i|i]; unfold children_have; try solve [no_fuel];
    (apply no_fuel_bind; [|intros j; apply no_fuel_ret]); eapply skip_para_fuel; try eassumption;
    [destruct (H1 i) | destruct (H2 i)]; lia.
Qed.

Lemma levelcmp_fuel : forall a b, no_fuel (levelcmp a b).
Proof. intros. unfold levelcmp. no_fuel. Qed.
#[local] Hint Resolve levelcmp_fuel : no_fuel.

Lemma dependency_fuel : forall sp rule fd p1 p2 r, coordinations_end sp \/ (exists i, p2 = PM i) ->
  check_dependency sp rule fd p1 p2 = Some r -> no_fuel r.
Proof.
  intros sp rule fd p1 p2 r HG H. pose proof (fun cp => children_fuel sp p2 cp HG) as HC.
  unfold check_dependency in H. repeat (destruct (starts_with _ rule) in H || destruct (str_eq rule _) in H); try discriminate H;
    injection H as <-; unfold scase_at, ptr_diff, subordinate_level_comp, subordinate_level_check, parent_has; no_fuel.
Qed.

Lemma function_fuel : forall sp rule fd p1 p2 st, coordinations_end sp \/ (exists i, p2 = PM i) ->
  no_fuel (check_function sp rule fd p1 p2 st).
Proof.
  intros sp rule fd p1 p2 st HG. unfold check_function. destruct (is_spelling_rule rule).
  { apply no_fuel_bind; [apply mrph_at_fuel|]. intros m. destruct (check_spelling rule (m_Goi2 m)) as [r|] eqn:ES.
    - apply no_fuel_bind; [|unfold says; no_fuel]. unfold check_spelling in ES. cbv zeta in ES.
      repeat (destruct (str_eq rule _) in ES || destruct (starts_with _ rule) in ES); try discriminate ES;
        repeat match type of ES with (if ?b then _ else _) = _ => destruct b end; injection ES as <-; unfold last_bytes; no_fuel.
    - destruct (check_length rule st (m_Goi2 m)) as [r|] eqn:EL; [|apply no_fuel_ret]. unfold check_length in EL. cbv zeta in EL.
      repeat (destruct (starts_with _ rule) in EL); try discriminate EL; injection EL as <-; apply no_fuel_ret. }
  destruct (starts_with "&カテゴリ:" rule); [unfold check_category, says; no_fuel|].
  destruct (check_meaning sp rule st p2) as [r|] eqn:EM; [now apply meaning_fuel in EM|].
  destruct (check_dependency sp rule fd p1 p2) as [r|] eqn:ED; [apply dependency_fuel in ED; [unfold says; no_fuel; exact ED | exact HG]|].
  destruct (check_options sp rule p2) as [r|] eqn:EO; [|unfold says; no_fuel].
  apply no_fuel_bind; [|unfold says; no_fuel]. unfold check_options in EO.
  repeat (destruct (starts_with _ rule) in EO); try discriminate EO; injection EO as <-; no_fuel.
Qed.

Lemma AND_fuel : forall sp fp fd p1 p2 st, coordinations_end sp \/ (exists i, p2 = PM i) ->
  no_fuel (feature_AND_match sp fp fd p1 p2 st).
Proof.
  intros sp fp fd p1 p2 st HG. revert st. induction fp as [|cp fp IH]; intros st; cbn [feature_AND_match]; [no_fuel|].
  apply no_fuel_bind.
  - pose proof (fun rule st => function_fuel sp rule fd p1 p2 st HG) as HF. no_fuel.
  - intros [[b cp'] st']. destruct b; [|no_fuel]. apply no_fuel_bind; [apply IH|]. intros [[b' n'] st'']. no_fuel.
Qed.

Lemma pattern_fuel : forall sp fr fd p1 p2 st, coordinations_end sp \/ (exists i, p2 = PM i) ->
  no_fuel (feature_pattern_match sp fr fd p1 p2 st).
Proof.
  intros sp fr fd p1 p2 st HG. unfold feature_pattern_match. destruct fr as [|fp fr]; [no_fuel|]. revert st.
  generalize (fp :: fr). clear fp fr. induction l as [|fp fr IH]; intros st; cbn [OR_match]; [no_fuel|].
  apply no_fuel_bind; [now apply AND_fuel|]. intros [[b fp'] st']. destruct b; [no_fuel|].
  apply no_fuel_bind; [apply IH|]. intros [[b' fr''] st'']. no_fuel.
Qed.

(** The tests of the program. *)
#[global] Instance knp_mrph_tests_end : forall ms, @MrphTestsEnd (knp_FeatureMatch ms).
Proof.
  intros ms sp fr fd i. cbn [feature_pattern_matches knp_FeatureMatch].
  pose proof (pattern_fuel sp fr fd PNULL (PM i) ms (or_intror (ex_intro _ i eq_refl))) as H.
  destruct (feature_pattern_match _ _ _ _ _ _) as [[[b r] s]|e]; [discriminate | intros HE; injection HE as ->; now apply H].
Qed.

#[global] Instance knp_tests_end : forall ms, @TestsEnd (knp_FeatureMatch ms) coordinations_end.
Proof.
  intros ms sp fr fd p HG. cbn [feature_pattern_matches knp_FeatureMatch].
  pose proof (pattern_fuel sp fr fd PNULL p ms (or_introl HG)) as H.
  destruct (feature_pattern_match _ _ _ _ _ _) as [[[b r] s]|e]; [discriminate | intros HE; injection HE as ->; now apply H].
Qed.
End ProgramTests.

Section RegexpLaws.
Context `{G : Grammar} `{FM : FeatureMatch} {ME : MrphTestsEnd}.

Lemma regexpmrph_fuel : forall sp r i, no_fuel (regexpmrph_match sp r i).
Proof. intros. unfold regexpmrph_match. destruct (_ =? _); [no_fuel|]. cbv zeta. destruct (flag_result _ _); [apply mrph_tests_end | no_fuel]. Qed.

Lemma regexpbnst_fuel : forall good {TE : TestsEnd good} sp r p, good sp -> no_fuel (regexpbnst_match sp r p).
Proof.
  intros good TE sp r p HG. unfold regexpbnst_match. destruct (_ =? _); [no_fuel|]. destruct (rb_mrphs r) as [l|]; [|no_fuel].
  apply no_fuel_bind; [unfold deref_bnst; no_fuel|]. intros b. apply no_fuel_bind.
  - unfold _regexpbnst_match, regexpmrphs_match.
    pose proof (seq_match_left is_ast_mrph (regexpmrph_match sp) (regexpmrph_fuel sp) false false l
                  (fw_window (fun i => i) (b_mrph_ptr b) (b_mrph_num b))) as H.
    destruct (seq_match _ _ _ _ _ _); [apply no_fuel_ret | cbn in H; congruence].
  - intros n. destruct (flag_result _ _); [now apply tests_end | no_fuel].
Qed.
End RegexpLaws.

(** *** The rule files come to an end *)

(** A rule that jumps has an element that is not starred, or no pattern for the match itself. *)
Definition steps_on {R P} (rule_f : R -> FEATURE) (self : R -> option (list P)) (ast : P -> bool) (break_mode : rule_break)
    (r : R) : bool :=
  match after_match break_mode (break_feature (rule_f r)) with
  | RLOOP_BREAK_JUMP => 0 <? self_needs ast (self r)
  | _ => true
  end.

Definition rules_step_on (g : GeneralRuleType) : bool :=
  match gr_rules g with
  | MrphRules rs => forallb (steps_on mr_f mr_self_pattern is_ast_mrph (gr_breakmode g)) rs
  | BnstRules rs => forallb (steps_on br_f br_self_pattern is_ast_bnst (gr_breakmode g)) rs
  end.

Section Advancing.
Context {R P D : Type} (rule_f : R -> FEATURE) (pre self post : R -> option (list P)) (ast : P -> bool).
Context (elem : SENTENCE_DATA -> P -> D -> res bool) (data : array D) (break_mode : rule_break).
Context (good : SENTENCE_DATA -> Prop).
Hypothesis elem_ends : forall sp r d, good sp -> no_fuel (elem sp r d).
Context (apply : R -> Z -> Z -> Z -> rule_state -> res rule_state).
Hypothesis apply_ends : forall r d k n st, no_fuel (apply r d k n st).
Hypothesis apply_keeps : forall r d k n st st', good (ru_sp st) -> apply r d k n st = Ret st' -> good (ru_sp st').

Definition pattern_match (sp : SENTENCE_DATA) (m : match_state) (r : R) (d bw fw : Z) : res (Z * match_state) :=
  n <- rule_match ast (elem sp) data (pre r) (self r) (post r) d bw fw ;; Ret (n, mkMS PNULL (cont_str m)).

Lemma matching_length : forall r d bw fw st, good (ru_sp st) -> 0 <= fw ->
  match matching pattern_match r d bw fw st with
  | Ret (n, st') => (n = -1 \/ 0 <= n <= fw /\ self_needs ast (self r) <= n) /\ ru_sp st' = ru_sp st
  | Err e => e <> OutOfFuel
  end.
Proof.
  intros r d bw fw st HG Hfw. unfold matching, pattern_match.
  pose proof (rule_match_length ast (elem (ru_sp st)) (fun p x => elem_ends _ p x HG) data (pre r) (self r) (post r) d bw fw Hfw) as H.
  destruct (rule_match _ _ _ _ _ _ _ _ _); [split; [exact H | reflexivity] | exact H].
Qed.

Lemma pattern_advancing : forall r, steps_on rule_f self ast break_mode r = true ->
  advancing rule_f (fun st => good (ru_sp st)) (matching pattern_match) apply break_mode r.
Proof.
  intros r H. split.
  - intros d bw fw st HG Hfw. pose proof (matching_length r d bw fw st HG Hfw) as L.
    destruct (matching _ _ _ _ _ _); [apply no_fuel_ret | congruence].
  - intros d bw fw st n st' HG Hfw E. pose proof (matching_length r d bw fw st HG Hfw) as L. rewrite E in L.
    destruct L as [L ->]. split; [lia | exact HG].
  - intros J d bw fw st st' HG E. unfold steps_on in H. rewrite J in H. apply Z.ltb_lt in H.
    destruct (Z.le_gt_cases 0 fw) as [Hfw|Hfw].
    + pose proof (matching_length r d bw fw st HG Hfw) as L. rewrite E in L. lia.
    + unfold matching, pattern_match, rule_match in E. replace (Z.to_nat fw) with O in E by lia. cbn [rule_match_loop] in E.
      destruct (Z.leb_spec fw 0); [|lia].
      destruct (match pre r with Some _ => _ | None => _ end) as [[]|]; discriminate E.
  - intros. apply apply_ends.
  - intros. eapply apply_keeps; eauto.
Qed.
End Advancing.

Section RulesEnd.
Context `{E : RuleEnv} `{G : Grammar} (ms : match_state).
#[local] Instance knp_tests : FeatureMatch := knp_FeatureMatch ms.
#[local] Existing Instance regexp_RuleMatch.

Lemma apply_mrph_fuel : forall temp r d k n st, no_fuel (apply_mrph temp r d k n st).
Proof. intros. apply assign_feature_fuel. Qed.
Lemma apply_tag_fuel : forall also temp r d k n st, no_fuel (apply_tag also temp r d k n st).
Proof. intros. unfold apply_tag. apply no_fuel_bind; [apply assign_feature_fuel|]. intros s. destruct also; [apply assign_feature_fuel | apply no_fuel_ret]. Qed.
Lemma apply_bnst_fuel : forall also temp r d k n st, no_fuel (apply_bnst also temp r d k n st).
Proof. intros. unfold apply_bnst. apply no_fuel_bind; [apply assign_feature_fuel|]. intros s. destruct also; [apply assign_feature_fuel | apply no_fuel_ret]. Qed.

Lemma apply_tag_frame : forall also temp r d k n st, framed st (apply_tag also temp r d k n st).
Proof.
  intros. unfold apply_tag. apply framed_step; [apply assign_feature_frame|]. intros st2.
  destruct also; [apply assign_feature_frame | now apply framed_ret].
Qed.
Lemma apply_bnst_frame : forall also temp r d k n st, framed st (apply_bnst also temp r d k n st).
Proof.
  intros. unfold apply_bnst. apply framed_step; [apply assign_feature_frame|]. intros st2.
  destruct also; [apply assign_feature_frame | now apply framed_ret].
Qed.

Lemma framed_good : forall st r st', framed st r -> coordinations_end (ru_sp st) -> r = Ret st' -> coordinations_end (ru_sp st').
Proof. intros st r st' F H E'. apply (coordinations_same (ru_sp st)); [now apply F | exact H]. Qed.

Lemma assign_function_ends : forall g flag base length also temp f f' st, rules_step_on g = true -> coordinations_end (ru_sp st) ->
  (0 < f)%nat -> length < Z.of_nat f -> (f <= f')%nat ->
  let run h := assign_function flag h g base length also temp st in
  run f' = run f /\ no_fuel (run f) /\ forall st', run f = Ret st' -> coordinations_end (ru_sp st').
Proof.
  intros [t rules mode bm dir] flag base length also temp f f' st H HG Hp Hf Hle run. unfold run. clear run.
  unfold rules_step_on in H. cbn [gr_rules gr_breakmode] in H. unfold assign_function. cbv zeta.
  destruct rules as [rs|rs]; repeat match goal with |- context [existsb ?h ?l] => destruct (existsb h l) end;
    try (split; [reflexivity | split; [no_fuel | discriminate]]).
  - apply (rule_loops_end mr_f (fun s => coordinations_end (ru_sp s))); auto. intros r Hr.
    apply (pattern_advancing mr_f mr_pre_pattern mr_self_pattern mr_post_pattern is_ast_mrph regexpmrph_match (fun i => i));
      [intros; apply regexpmrph_fuel | apply apply_mrph_fuel | intros; eapply framed_good; [apply assign_feature_frame | eassumption..] |
       now apply (proj1 (forallb_forall _ _) H)].
  - apply (rule_loops_end br_f (fun s => coordinations_end (ru_sp s))); auto. intros r Hr.
    apply (pattern_advancing br_f br_pre_pattern br_self_pattern br_post_pattern is_ast_bnst regexpbnst_match PT);
      [intros; now apply (regexpbnst_fuel coordinations_end) | apply apply_tag_fuel |
       intros; eapply framed_good; [apply apply_tag_frame | eassumption..] | now apply (proj1 (forallb_forall _ _) H)].
  - apply (rule_loops_end br_f (fun s => coordinations_end (ru_sp s))); auto. intros r Hr.
    apply (pattern_advancing br_f br_pre_pattern br_self_pattern br_post_pattern is_ast_bnst regexpbnst_match PB);
      [intros; now apply (regexpbnst_fuel coordinations_end) | apply apply_bnst_fuel |
       intros; eapply framed_good; [apply apply_bnst_frame | eassumption..] | now apply (proj1 (forallb_forall _ _) H)].
Qed.

(** C31: the rules of a kind come to an end on a sentence, with the tests of features of the program and whatever the rules
    do to the sentence: when every rule that jumps after a match has an element that is not starred (or no pattern of its own), and
    the walks of &係側チェック along the coordination nodes end (as they do before there are such nodes), more steps
    than units change nothing, and the model does not run out of them. *)
Theorem general_rules_end : forall rules base size flag also temp f f' st,
  (forall g, In g rules -> gr_type g = flag -> rules_step_on g = true) -> coordinations_end (ru_sp st) ->
  (0 < f)%nat -> size < Z.of_nat f -> (f <= f')%nat ->
  assign_general_feature f' rules base size flag also temp st = assign_general_feature f rules base size flag also temp st /\
  assign_general_feature f rules base size flag also temp st <> Err OutOfFuel.
Proof.
  intros rules base size flag also temp f f' st H HG Hp Hf Hle. unfold assign_general_feature.
  revert st HG. induction rules as [|g rules IH]; intros st HG; cbn [fold_res]; [split; [reflexivity | discriminate]|].
  assert (IH' := IH (fun g' Hg' => H g' (or_intror Hg'))).
  destruct (Z.eqb_spec (gr_type g) flag) as [Hg|]; [|now apply IH'].
  destruct (assign_function_ends g flag base size also temp f f' st (H g (or_introl eq_refl) Hg) HG Hp Hf Hle) as [-> [HF HK]].
  destruct (assign_function _ _ _ _ _ _ _ _) as [s|e]; [apply IH'; now apply HK | split; [reflexivity | exact HF]].
Qed.
End RulesEnd.

(** ** Rules that do not depend on each other *)

(** [tells K st]: in [st] the unit [u] has the feature [g] when [K u g]. *)
Section Independent.
Context {R S : Type} (rule_f : R -> FEATURE).
Context (match_at : R -> Z -> Z -> Z -> S -> res (Z * S)) (apply : R -> Z -> Z -> Z -> S -> res S).
Context (break_mode : rule_break) (direction : rule_direction) (base length : Z).
Context (M : R -> Z -> Z) (tells : (Z -> string -> Prop) -> S -> Prop).

(** What the rule adds at step [i]. *)
Definition adds (r : R) (i u : Z) (g : string) : Prop :=
  In g (rule_f r) /\ base + units_before direction length i <= u < base + units_before direction length i + M r i.

Definition with_adds (K : Z -> string -> Prop) (A : R -> Z -> Prop) (u : Z) (g : string) : Prop :=
  K u g \/ exists r i, A r i /\ adds r i u g.

Record independent_at (r : R) : Prop := {
  in_break : after_match break_mode (break_feature (rule_f r)) = RLOOP_BREAK_NONE;
  in_match : forall i st K, 0 <= i < length -> tells K st ->
    exists st', match_step match_at direction base length r i st = Ret (M r i, st') /\ tells K st';
  in_apply : forall i st K, 0 <= i < length -> tells K st ->
    exists st', apply_match apply direction base length r i (M r i) st = Ret st' /\
      tells (fun u g => K u g \/ adds r i u g) st'
}.
Hypothesis tells_iff : forall K K' st, (forall u g, K u g <-> K' u g) -> tells K st -> tells K' st.

Lemma tells_adds : forall K (A : R -> Z -> Prop) (A' : R -> Z -> Prop) st, (forall r i, A r i <-> A' r i) ->
  tells (with_adds K A) st -> tells (with_adds K A') st.
Proof.
  intros K A A' st H. apply tells_iff. intros u g. unfold with_adds.
  split; intros [HK|[r [i [HA Hr]]]]; auto; right; exists r, i; split; auto; now apply H.
Qed.

(** The adds of [A], then those of [A']. *)
Lemma tells_more : forall K A A' st, tells (with_adds (with_adds K A) A') st -> tells (with_adds K (fun r i => A r i \/ A' r i)) st.
Proof.
  intros K A A' st. apply tells_iff. intros u g. unfold with_adds. split.
  - intros [[HK|[r [i [HA Hr]]]]|[r [i [HA Hr]]]]; auto; right; exists r, i; auto.
  - intros [HK|[r [i [[HA|HA] Hr]]]]; auto; [left|]; right; exists r, i; auto.
Qed.

Lemma tells_none : forall K st, tells K st -> tells (with_adds K (fun _ _ => False)) st.
Proof. intros K st. apply tells_iff. intros u g. unfold with_adds. split; [auto|]. intros [H|[r [i [[] _]]]]; auto. Qed.

Lemma tells_here : forall K r i st, tells (fun u g => K u g \/ adds r i u g) st ->
  tells (with_adds K (fun r' i' => r' = r /\ i' = i)) st.
Proof.
  intros K r i st. apply tells_iff. intros u g. unfold with_adds. split.
  - intros [H|H]; auto. right. exists r, i. auto.
  - intros [H|[r' [i' [[-> ->] H]]]]; auto.
Qed.

Lemma no_adds : forall K r i st, M r i = -1 -> tells K st -> tells (fun u g => K u g \/ adds r i u g) st.
Proof.
  intros K r i st H. apply tells_iff. intros u g. split; [auto|]. unfold adds. rewrite H. intros [HK|[_ HK]]; [exact HK | lia].
Qed.

Lemma visit_adds : forall r i st K, independent_at r -> 0 <= i < length -> tells K st ->
  exists st', (if M r i =? -1 then Ret st else apply_match apply direction base length r i (M r i) st) = Ret st' /\
    tells (with_adds K (fun r' i' => r' = r /\ i' = i)) st'.
Proof.
  intros r i st K Ar Hi HK. destruct (Z.eqb_spec (M r i) (-1)) as [E|E].
  - exists st. split; [reflexivity|]. now apply tells_here, no_adds.
  - destruct (in_apply r Ar i st K Hi HK) as [st2 [E2 H2]]. exists st2. split; [exact E2|]. now apply tells_here.
Qed.

Lemma rules_at_adds : forall rs i, (forall r, In r rs -> independent_at r) -> 0 <= i < length -> forall st K, tells K st ->
  exists st', rules_at rule_f match_at apply break_mode direction base length rs i st = Ret (0, st') /\
    tells (with_adds K (fun r k => In r rs /\ k = i)) st'.
Proof.
  induction rs as [|r rs IH]; intros i A Hi st K HK; cbn [rules_at].
  - exists st. split; [reflexivity|]. eapply tells_adds; [|now apply tells_none]. intros r k. tauto.
  - pose proof (A r (or_introl eq_refl)) as Ar. destruct (in_match r Ar i st K Hi HK) as [st1 [-> H1]].
    destruct (visit_adds r i st1 K Ar Hi H1) as [st2 [E2 H2]].
    destruct (IH i (fun r' H => A r' (or_intror H)) Hi st2 _ H2) as [st3 [E3 H3]]. exists st3. split.
    + destruct (M r i =? -1); [injection E2 as ->; exact E3|]. now rewrite E2, (in_break r Ar).
    + eapply tells_adds; [|apply tells_more, H3]. intros r' k. cbn [In]. intuition congruence.
Qed.

Lemma mrm_loop_adds : forall rs, (forall r, In r rs -> independent_at r) -> forall f i st K, tells K st -> 0 <= i ->
  (0 < f)%nat -> length - i < Z.of_nat f ->
  exists st', mrm_loop rule_f match_at apply break_mode direction base length f rs i st = Ret st' /\
    tells (with_adds K (fun r k => In r rs /\ i <= k < length)) st'.
Proof.
  intros rs A. induction f as [|f IH]; intros i st K HK Hi Hp Hf; [lia|]. cbn [mrm_loop].
  destruct (Z.ltb_spec i length) as [H|H].
  - destruct (rules_at_adds rs i A (conj Hi H) st K HK) as [st1 [-> H1]].
    destruct (IH (i + 0 + 1) st1 _ H1) as [st2 [E2 H2]]; [lia..|]. exists st2. split; [exact E2|].
    eapply tells_adds; [|apply tells_more, H2]. intros r k. cbn beta.
    destruct (Z.eq_dec k i); intuition (try lia).
  - exists st. split; [reflexivity|]. eapply tells_adds; [|now apply tells_none]. intros r k. cbn beta. intuition lia.
Qed.

Lemma rule_at_all_adds : forall r is_, independent_at r -> (forall i, In i is_ -> 0 <= i < length) -> forall st K, tells K st ->
  exists st', rule_at_all rule_f match_at apply break_mode direction base length r is_ st = Ret st' /\
    tells (with_adds K (fun r' k => r' = r /\ In k is_)) st'.
Proof.
  intros r. induction is_ as [|i is_ IH]; intros Ar Hin st K HK; cbn [rule_at_all].
  - exists st. split; [reflexivity|]. eapply tells_adds; [|now apply tells_none]. intros r' k. cbn [In]. tauto.
  - pose proof (Hin i (or_introl eq_refl)) as Hi. destruct (in_match r Ar i st K Hi HK) as [st1 [-> H1]].
    destruct (visit_adds r i st1 K Ar Hi H1) as [st2 [E2 H2]].
    destruct (IH Ar (fun k H => Hin k (or_intror H)) st2 _ H2) as [st3 [E3 H3]]. exists st3. split.
    + destruct (M r i =? -1); [injection E2 as ->; exact E3|]. now rewrite E2, (in_break r Ar).
    + eapply tells_adds; [|apply tells_more, H3]. intros r' k. cbn [In]. intuition congruence.
Qed.

(** Both ways to loop, in both directions, add the same. *)
Lemma rule_loops_adds : forall rs mode f st K, (forall r, In r rs -> independent_at r) -> tells K st ->
  (0 < f)%nat -> length < Z.of_nat f ->
  exists st', rule_loops rule_f match_at apply break_mode direction base length f mode rs st = Ret st' /\
    tells (with_adds K (fun r k => In r rs /\ 0 <= k < length)) st'.
Proof.
  intros rs mode f st K A HK Hp Hf. destruct mode; cbn [rule_loops].
  - apply mrm_loop_adds; auto; lia.
  - clear Hp Hf. revert st K HK A. induction rs as [|r rs IH]; intros st K HK A; cbn [fold_res].
    + exists st. split; [reflexivity|]. eapply tells_adds; [|now apply tells_none]. intros r k. cbn [In]. tauto.
    + destruct (rule_at_all_adds r (zrange 0 length) (A r (or_introl eq_refl)) (fun i H => proj1 (in_zrange _ _ _) H) st K HK)
        as [st1 [-> H1]].
      destruct (IH st1 _ H1 (fun r' H => A r' (or_intror H))) as [st2 [E2 H2]]. exists st2. split; [exact E2|].
      eapply tells_adds; [|apply tells_more, H2]. intros r' k. cbn [In]. rewrite in_zrange. intuition congruence.
Qed.
End Independent.

(** A feature that [assign_one] takes as it is, without a value. *)
Definition atomic (text : string) : bool :=
  match text with
  | EmptyString => false
  | String c _ => negb (Ascii.eqb c "^") && negb (Ascii.eqb c "&") && str_free colon text
  end.

(** A rule on the words alone, whose features are atomic. *)
Definition word_pattern (p : option REGEXPMRPHS) : bool :=
  forallb (fun r => match rm_f_pattern r with [] => true | _ => false end) (pattern_of p).
Definition word_rule (r : MrphRule) : bool :=
  forallb atomic (mr_f r) && word_pattern (mr_pre_pattern r) && word_pattern (mr_self_pattern r) && word_pattern (mr_post_pattern r).

Lemma comp_column : forall data p, str_free colon p = true ->
  comp_feature data p = str_eq (fst (span_not colon data)) p.
Proof.
  intros data p H. apply eq_true_iff_eq. rewrite comp_feature_spec.
  destruct (str_eq_spec (fst (span_not colon data)) p) as [E|E]; (split; [|intros E']); try reflexivity; try discriminate.
  - pose proof (span_not_app colon data) as D. destruct (span_not colon data) as [q r] eqn:S. cbn [fst snd] in *. subst q.
    destruct (span_not_tail colon data p r S) as [->|[r' ->]]; [left; now rewrite sapp_nil_r in D | eauto].
  - intros [->|[r ->]]; elim E; [now rewrite span_not_free_all | now rewrite span_not_sep].
Qed.

Lemma has_assigned : forall a g f, str_free colon a = true -> str_free colon g = true ->
  has_feature (assign_walk a a false f) g = has_feature f g || str_eq a g.
Proof.
  intros a g f Ha Hg. unfold has_feature. induction f as [|cp f IH]; cbn [assign_walk check_feature].
  - rewrite comp_column, span_not_free_all by assumption. cbn [fst]. now destruct (str_eq a g).
  - rewrite (comp_column cp a), (comp_column cp g) by assumption.
    destruct (str_eq_spec (fst (span_not colon cp)) a) as [E|E]; cbn [check_feature].
    + rewrite E, comp_column, span_not_free_all by assumption. cbn [fst]. destruct (str_eq a g); [reflexivity|].
      now rewrite orb_false_r.
    + rewrite comp_column by assumption. destruct (str_eq (fst _) g); [reflexivity | exact IH].
Qed.

(** Only the features of morphemes differ. *)
Definition same_words (sp sp' : SENTENCE_DATA) : Prop :=
  exists d, sp' = set_mrph_data d sp /\ forall i, set_m_f [] (d i) = set_m_f [] (mrph_data sp i).

Definition words_tell (sp : SENTENCE_DATA) (K : Z -> string -> Prop) (st : rule_state) : Prop :=
  same_words sp (ru_sp st) /\
  forall u g, str_free colon g = true -> has_feature (m_f (mrph_data (ru_sp st) u)) g = true <-> K u g.

Lemma same_words_refl : forall sp, same_words sp sp.
Proof. intros sp. exists (mrph_data sp). split; [now destruct sp | reflexivity]. Qed.

Lemma same_words_data : forall sp sp' i, same_words sp sp' -> set_m_f [] (mrph_data sp' i) = set_m_f [] (mrph_data sp i).
Proof. intros sp sp' i [d [-> H]]. now destruct sp. Qed.

Lemma same_words_assign : forall sp sp' i f, same_words sp sp' -> same_words sp (set_unit_f (PM i) f sp').
Proof.
  intros sp sp' i f [d [-> H]]. exists (aset d i (set_m_f f (d i))). split; [now destruct sp|]. intros j. unfold aset.
  destruct (Z.eqb_spec j i) as [->|]; [rewrite <- H; now destruct (d i) | apply H].
Qed.

Lemma assigned_data : forall sp i f u, m_f (mrph_data (set_unit_f (PM i) f sp) u) = if u =? i then f else m_f (mrph_data sp u).
Proof. intros sp i f u. destruct sp. cbn. unfold aset. destruct (Z.eqb_spec u i) as [->|]; [|reflexivity]. now destruct (mrph_data i). Qed.

Lemma assign_one_word : forall `{E : RuleEnv} sp K st i p k n text, atomic text = true -> words_tell sp K st ->
  exists st', assign_one (PM i) p k n false text st = Ret st' /\ words_tell sp (fun u g => K u g \/ u = i /\ g = text) st'.
Proof.
  intros E sp K st i p k n text HA [HS HK]. destruct text as [|c r]; [discriminate|].
  unfold atomic in HA. apply andb_true_iff in HA as [HA HF]. apply andb_true_iff in HA as [H1 H2].
  apply negb_true_iff in H1, H2. cbn [assign_one]. rewrite H1, H2. eexists. split; [reflexivity|].
  set (text := String c r) in *. assert (KEY : feature_key (ru_buf st) text = text).
  { unfold feature_key. rewrite span_not_free_all by exact HF. subst text. cbn [fst]. now rewrite str_eq_refl. }
  unfold assign_unit, assign_cfeature. rewrite KEY. split; [now apply same_words_assign|].
  intros u g Hg. cbn [ru_sp with_buffer]. rewrite assigned_data. destruct (Z.eqb_spec u i) as [->|Hu].
  - rewrite has_assigned, orb_true_iff by assumption. change (unit_f (PM i) (ru_sp st)) with (m_f (mrph_data (ru_sp st) i)).
    rewrite HK by exact Hg. destruct (str_eq_spec text g); intuition congruence.
  - rewrite HK by exact Hg. intuition congruence.
Qed.

(** Only the tests of the patterns' elements count. *)
Lemma rule_match_ext : forall {P D} (ast : P -> bool) (e1 e2 : P -> D -> res bool) (data : array D) pre self post d bw fw,
  (forall r i, In r (pattern_of pre ++ pattern_of self ++ pattern_of post) -> e1 r (data i) = e2 r (data i)) ->
  rule_match ast e1 data pre self post d bw fw = rule_match ast e2 data pre self post d bw fw.
Proof.
  intros P D ast e1 e2 data pre self post d bw fw H. unfold rule_match.
  assert (EQ : forall part long rs is_, (forall r, In r rs -> In r (pattern_of pre ++ pattern_of self ++ pattern_of post)) ->
            seq_match ast e1 part long rs (map data is_) = seq_match ast e2 part long rs (map data is_)).
  { intros part long rs is_ Hrs. apply seq_match_ext. intros r x Hr Hx. apply in_map_iff in Hx as [i [<- _]]. auto. }
  assert (HPre : match pre with Some p => all_match ast e1 (rev p) (bw_window data (d - 1) bw) | None => Ret (bw =? 0) end =
                 match pre with Some p => all_match ast e2 (rev p) (bw_window data (d - 1) bw) | None => Ret (bw =? 0) end).
  { destruct pre as [p|]; [|reflexivity]. unfold all_match, bw_window. rewrite EQ; [reflexivity|].
    intros r Hr. apply in_rev in Hr. apply in_or_app. now left. }
  rewrite HPre. clear HPre. destruct (match pre with Some _ => _ | None => _ end) as [[]|]; try reflexivity.
  enough (L : forall f len, rule_match_loop ast e1 data f self post d fw len = rule_match_loop ast e2 data f self post d fw len)
    by apply L.
  induction f as [|f IH]; intros len; [reflexivity|]. cbn [rule_match_loop].
  destruct (len <=? 0); [reflexivity|].
  replace (match self with Some p => seq_match ast e1 true true p (fw_window data d len) | None => Ret (len - 1) end)
    with (match self with Some p => seq_match ast e2 true true p (fw_window data d len) | None => Ret (len - 1) end).
  - destruct (match self with Some _ => _ | None => _ end) as [rest|]; [|reflexivity]. destruct (rest =? -1); [reflexivity|].
    replace (post_match ast e1 data post d fw (len - rest)) with (post_match ast e2 data post d fw (len - rest)); [now rewrite IH|].
    destruct post as [p|]; [|reflexivity]. cbn [post_match]. unfold all_match, fw_window. rewrite EQ; [reflexivity|].
    intros r Hr. rewrite !in_app_iff. auto.
  - destruct self as [p|]; [|reflexivity]. symmetry. apply EQ. intros r Hr. rewrite !in_app_iff. auto.
Qed.

Section WordRules.
Context `{E : RuleEnv} {FM : FeatureMatch}.
#[local] Existing Instance regexp_RuleMatch.
Hypothesis no_condition : forall sp fd p1 p2, feature_pattern_matches sp [] fd p1 p2 = Ret true.
Context (sp : SENTENCE_DATA).

Lemma words_tell_iff : forall K K' st, (forall u g, K u g <-> K' u g) -> words_tell sp K st -> words_tell sp K' st.
Proof. intros K K' st H [HS HK]. split; [exact HS|]. intros u g Hg. rewrite <- H. now apply HK. Qed.

Lemma assign_words : forall fs K st i p k n, forallb atomic fs = true -> 0 <= i < MRPH_MAX -> words_tell sp K st ->
  exists st', assign_feature (PM i) p k n false fs st = Ret st' /\ words_tell sp (fun u g => K u g \/ u = i /\ In g fs) st'.
Proof.
  intros fs K st i p k n HF Hi. unfold assign_feature, check_unit. destruct (within_spec 0 i MRPH_MAX); [|lia].
  revert K st. induction fs as [|t fs IH]; intros K st HK; cbn [fold_res].
  - exists st. split; [reflexivity|]. eapply words_tell_iff; [|exact HK]. intros u g. cbn [In]. tauto.
  - cbn [forallb] in HF. apply andb_true_iff in HF as [Ht HF]. destruct (assign_one_word sp K st i p k n t Ht HK) as [st1 [-> H1]].
    destruct (IH HF _ st1 H1) as [st2 [E2 H2]]. exists st2. split; [exact E2|]. eapply words_tell_iff; [|exact H2].
    intros u g. cbn [In]. intuition congruence.
Qed.

Lemma apply_words : forall r K st direction base length i n, forallb atomic (mr_f r) = true ->
  0 <= base + units_before direction length i -> base + units_before direction length i + n <= MRPH_MAX -> words_tell sp K st ->
  exists st', apply_match (apply_mrph false) direction base length r i n st = Ret st' /\
    words_tell sp (fun u g => K u g \/ In g (mr_f r) /\ base + units_before direction length i <= u < base + units_before direction length i + n) st'.
Proof.
  intros r K st direction base length i n HF. unfold apply_match, for_res. set (d := base + units_before direction length i). intros Hd Hn HK.
  assert (G : forall l, (forall k, In k l -> 0 <= k < n) -> forall K st, words_tell sp K st ->
    exists st', fold_res (fun k st => apply_mrph false r d k n st) l st = Ret st' /\
      words_tell sp (fun u g => K u g \/ In g (mr_f r) /\ exists k, In k l /\ u = d + k) st').
  { clear K st HK. induction l as [|k l IH]; intros Hl K st HK; cbn [fold_res].
    - exists st. split; [reflexivity|]. eapply words_tell_iff; [|exact HK]. intros u g. split; [auto|]. intros [H|[_ [k [[] _]]]]; exact H.
    - pose proof (Hl k (or_introl eq_refl)).
      destruct (assign_words (mr_f r) K st (d + k) (PM d) k (n - k) HF ltac:(lia) HK) as [st1 [E1 H1]].
      unfold apply_mrph at 1. rewrite E1. destruct (IH (fun j Hj => Hl j (or_intror Hj)) _ st1 H1) as [st2 [E2 H2]].
      exists st2. split; [exact E2|]. eapply words_tell_iff; [|exact H2]. intros u g. cbn [In]. split.
      + intros [[H0|[-> H0]]|[H0 [j [Hj ->]]]]; eauto 8.
      + intros [H0|[H0 [j [[<-|Hj] ->]]]]; eauto 8. }
  destruct (G (zrange 0 n) (fun k Hk => proj1 (in_zrange _ _ _) Hk) K st HK) as [st' [E' H']]. exists st'. split; [exact E'|].
  eapply words_tell_iff; [|exact H']. intros u g. split.
  - intros [H0|[H0 [k [Hk ->]]]]; [auto|]. apply in_zrange in Hk. right. split; [exact H0 | lia].
  - intros [H0|[H0 Hu]]; [auto|]. right. split; [exact H0|]. exists (u - d). rewrite in_zrange. lia.
Qed.

(** The match of a rule on words is the same as long as the words are. *)
Definition word_em (r : REGEXPMRPH) (i : Z) : bool :=
  (rm_type_flag r =? QST_FLG) || flag_result (rm_type_flag r) (mrph_cmp r (set_m_f [] (mrph_data sp i))).

Lemma word_em_ok : forall sp' r i, same_words sp sp' -> rm_f_pattern r = [] -> regexpmrph_match sp' r i = Ret (word_em r i).
Proof.
  intros sp' r i HS HF. unfold regexpmrph_match, word_em. rewrite <- (same_words_data sp sp' i HS), HF.
  destruct (_ =? QST_FLG); [reflexivity|]. cbv zeta.
  replace (mrph_cmp r (set_m_f [] (mrph_data sp' i))) with (mrph_cmp r (mrph_data sp' i)) by now destruct (mrph_data sp' i).
  cbn [orb]. destruct (flag_result _ _); [apply no_condition | reflexivity].
Qed.

Definition word_length (r : MrphRule) (d bw fw : Z) : Z :=
  match rule_match is_ast_mrph (fun r i => Ret (word_em r i)) (fun i => i)
          (mr_pre_pattern r) (mr_self_pattern r) (mr_post_pattern r) d bw fw with
  | Ret n => n
  | Err _ => -1
  end.

Lemma word_rule_parts : forall r, word_rule r = true -> forallb atomic (mr_f r) = true /\
  forall e, In e (pattern_of (mr_pre_pattern r) ++ pattern_of (mr_self_pattern r) ++ pattern_of (mr_post_pattern r)) -> rm_f_pattern e = [].
Proof.
  intros r H. unfold word_rule, word_pattern in H. rewrite !andb_true_iff, !forallb_forall in H. destruct H as [[[HF H1] H2] H3].
  split; [now apply forallb_forall|]. intros e He. rewrite !in_app_iff in He.
  assert (HE : match rm_f_pattern e with [] => true | _ => false end = true) by (destruct He as [He|[He|He]]; auto).
  destruct (rm_f_pattern e); [reflexivity | discriminate].
Qed.

Lemma word_match : forall sp' r d bw fw, same_words sp sp' -> word_rule r = true -> 0 <= fw ->
  regexpmrphrule_match sp' r d bw fw = Ret (word_length r d bw fw) /\ -1 <= word_length r d bw fw <= fw.
Proof.
  intros sp' r d bw fw HS HW Hfw. apply word_rule_parts in HW as [_ HW]. unfold regexpmrphrule_match, word_length.
  rewrite (rule_match_ext is_ast_mrph (regexpmrph_match sp') (fun r i => Ret (word_em r i)))
    by (intros e i He; apply word_em_ok; [exact HS | now apply HW]).
  destruct (rule_match_ok is_ast_mrph (fun r i => Ret (word_em r i)) (fun i => i) word_em (fun _ _ => eq_refl)
             (mr_pre_pattern r) (mr_self_pattern r) (mr_post_pattern r) d bw fw) as [n [-> H]].
  split; [reflexivity|]. destruct H as [[-> _]|[_ [[-> _]|[H _]]]]; lia.
Qed.

Lemma word_independent : forall r direction base length, word_rule r = true -> 0 <= base -> base + length <= MRPH_MAX ->
  independent_at mr_f (matching mrph_rule_match) (apply_mrph false) RLOOP_BREAK_NONE direction base length
    (fun r i => word_length r (base + units_before direction length i) (units_before direction length i)
                  (units_from direction length i)) (words_tell sp) r.
Proof.
  intros r direction base length HW Hb Hl. pose proof (word_rule_parts r HW) as [HF _].
  assert (HU : forall i, 0 <= i < length -> 0 <= units_before direction length i /\
            units_before direction length i + units_from direction length i = length /\ 0 <= units_from direction length i)
    by (intros i Hi; unfold units_before, units_from; destruct direction; lia).
  split.
  - unfold after_match. revert HF. generalize (mr_f r). clear. induction f as [|t f IH]; [reflexivity|]. cbn [forallb break_feature].
    intros H. apply andb_true_iff in H as [H1 H2]. destruct t as [|c t]; [discriminate H1|].
    unfold atomic in H1. apply andb_true_iff in H1 as [H1 _]. apply andb_true_iff in H1 as [_ H1]. apply negb_true_iff in H1.
    assert (forall u, str_eq (String c t) (String "&" u) = false) as NE by (intros u; rewrite str_eq_cons, H1; reflexivity).
    rewrite !NE. replace (starts_with "&break" (String c t)) with false; [now apply IH|].
    cbn [starts_with]. now rewrite Ascii.eqb_sym, H1.
  - intros i st K Hi [HS HK]. destruct (HU i Hi) as [H1 [H2 H3]].
    destruct (word_match (ru_sp st) r (base + units_before direction length i) (units_before direction length i)
                (units_from direction length i) HS HW H3) as [HM _].
    unfold match_step, matching. cbn [mrph_rule_match regexp_RuleMatch]. rewrite HM. eexists. split; [reflexivity|]. now split.
  - intros i st K Hi HK. destruct (HU i Hi) as [H1 [H2 H3]].
    destruct (word_match sp r (base + units_before direction length i) (units_before direction length i)
                (units_from direction length i) (same_words_refl sp) HW H3) as [_ HM].
    unfold adds. revert HM. generalize (word_length r (base + units_before direction length i) (units_before direction length i) (units_from direction length i)).
    intros n Hn. apply apply_words; [exact HF | lia | lia | exact HK].
Qed.

(** C32: for rules on words (no conditions on features, atomic features to assign, no breaks) neither the order
    of the rules nor the mode of the loops nor their direction matters: afterwards a morpheme has a
    feature if it had it, or if a rule with that feature matches a stretch with the morpheme in it; nothing else
    of the sentence changes. *)
Theorem independent_rules : forall rs base length mode direction also st f,
  ru_sp st = sp -> forallb word_rule rs = true -> 0 <= base -> base + length <= MRPH_MAX -> (0 < f)%nat -> length < Z.of_nat f ->
  exists st', assign_mrph_feature f rs base length mode RLOOP_BREAK_NONE direction also false st = Ret st' /\
    same_words sp (ru_sp st') /\
    forall u g, str_free colon g = true ->
      has_feature (m_f (mrph_data (ru_sp st') u)) g = true <->
      has_feature (m_f (mrph_data sp u)) g = true \/
      exists r d n, In r rs /\ base <= d < base + length /\
        regexpmrphrule_match sp r d (d - base) (base + length - d) = Ret n /\ d <= u < d + n /\ In g (mr_f r).
Proof.
  intros rs base length mode direction also st f Hst HW Hb Hl Hp Hf. rewrite forallb_forall in HW.
  assert (HK : words_tell sp (fun u g => has_feature (m_f (mrph_data sp u)) g = true) st).
  { rewrite <- Hst. split; [apply same_words_refl | tauto]. }
  destruct (rule_loops_adds mr_f (matching mrph_rule_match) (apply_mrph false) RLOOP_BREAK_NONE direction base length _ (words_tell sp)
              words_tell_iff rs mode f st _ (fun r Hr => word_independent r direction base length (HW r Hr) Hb Hl) HK Hp Hf)
    as [st' [E' [HS' H']]].
  exists st'. split; [exact E'|]. split; [exact HS'|]. intros u g Hg. rewrite (H' u g Hg). unfold with_adds, adds.
  assert (HM : forall r d, In r rs -> base <= d < base + length ->
            regexpmrphrule_match sp r d (d - base) (base + length - d) = Ret (word_length r d (d - base) (base + length - d)))
    by (intros r d Hr Hd; apply word_match; [apply same_words_refl | now apply HW | lia]).
  set (U := units_before direction length). set (V := units_from direction length).
  assert (HUV : forall i, 0 <= i < length -> 0 <= U i < length /\ V i = length - U i)
    by (intros i Hi; unfold U, V, units_before, units_from; destruct direction; lia).
  split; (intros [H0|H0]; [now left|right]).
  - destruct H0 as [r [i [[Hr Hi] [Hg' Hu]]]]. destruct (HUV i Hi) as [H1 H2]. rewrite H2 in Hu.
    assert (Hd : base <= base + U i < base + length) by lia. specialize (HM r _ Hr Hd).
    replace (base + U i - base) with (U i) in HM by lia. replace (base + length - (base + U i)) with (length - U i) in HM by lia.
    exists r, (base + U i), (word_length r (base + U i) (U i) (length - U i)).
    replace (base + U i - base) with (U i) by lia. replace (base + length - (base + U i)) with (length - U i) by lia. auto.
  - destruct H0 as [r [d [n [Hr [Hd [HE [Hu Hg']]]]]]]. rewrite (HM r d Hr Hd) in HE. injection HE as <-.
    exists r, (U (d - base)).
    assert (HUU : U (U (d - base)) = d - base) by (unfold U, units_before; destruct direction; lia).
    destruct (HUV (d - base) ltac:(lia)) as [H1 _]. destruct (HUV (U (d - base)) H1) as [_ H2]. rewrite HUU, H2 in *.
    replace (base + (d - base)) with d by lia. replace (length - (d - base)) with (base + length - d) by lia. auto.
Qed.
End WordRules.

(** ** On a concrete sentence *)
Definition no_rule_env : RuleEnv := {|
  rule_case := no_case; rule_check := bare_env; OptPosModification := false; InputParsed := false; AutoDicExist := false;
  used_auto_dic_features := []; auto_dic_db := fun _ => None |}.

(** Tests of features by their text alone. *)
Definition text_tests : FeatureMatch := {|
  feature_AND_matches := fun _ fp fd _ _ => Ret (forallb (has_feature fd) fp);
  feature_pattern_matches := fun _ fr fd _ _ =>
    Ret (match fr with [] => true | _ => existsb (fun fp => forallb (has_feature fd) fp) fr end) |}.

Definition rules_start (sp : SENTENCE_DATA) : rule_state := mkRU sp EmptyString EmptyString st0.

(** [名詞]* の gets 連体; の gets 助詞. *)
Definition word_rules : list MrphRule :=
  [mkMR None (Some [noun_star; goi_no]) None ["連体"]; mkMR (Some [RegexpMrphInitValue]) (Some [goi_no]) None ["助詞"]]%string.

Lemma independent_rules_witness :
  exists st', @assign_mrph_feature no_rule_env (@regexp_RuleMatch example_grammar text_tests) 4 word_rules 0 3 RLOOP_RMM
                RLOOP_BREAK_NONE RtoL false false (rules_start match_example) = Ret st' /\
    same_words match_example (ru_sp st') /\
    forall u g, str_free colon g = true ->
      has_feature (m_f (mrph_data (ru_sp st') u)) g = true <->
      has_feature (m_f (mrph_data match_example u)) g = true \/
      exists r d n, In r word_rules /\ 0 <= d < 0 + 3 /\
        @regexpmrphrule_match example_grammar text_tests match_example r d (d - 0) (0 + 3 - d) = Ret n /\
        d <= u < d + n /\ In g (mr_f r).
Proof.
  apply (@independent_rules no_rule_env text_tests (fun _ _ _ _ => eq_refl) match_example);
    [reflexivity | reflexivity | lia | unfold MRPH_MAX; lia | lia | lia].
Defined.

Definition word_file : list GeneralRuleType := [mkGR MorphRuleType (MrphRules word_rules) RLOOP_MRM RLOOP_BREAK_JUMP LtoR].

Lemma general_rules_end_witness :
  let run := fun f => @assign_general_feature no_rule_env (@regexp_RuleMatch example_grammar (@knp_FeatureMatch bare_env st0)) f word_file 0 3
                        MorphRuleType false false (rules_start match_example) in
  run 9%nat = run 4%nat /\ run 4%nat <> Err OutOfFuel.
Proof.
  apply (@general_rules_end no_rule_env example_grammar st0 word_file 0 3 MorphRuleType false false 4 9
           (rules_start match_example)); [| |lia..].
  - intros g [<-|[]] _. reflexivity.
  - apply no_coordinations_end; reflexivity.
Defined.

(** A rule whose elements are all starred may match no morpheme before its post pattern: when it jumps, the loop stays where it is. *)
Definition star_rule : MrphRule := mkMR (Some []) (Some [noun_star]) (Some [goi_no]) ["&break:jump"]%string.
Definition no_sentence : SENTENCE_DATA :=
  set_mrph_data (fun i => if i =? 0 then mrph_of "の" 9 [] else MRPH_DATA_0) SENTENCE_DATA_0.

Lemma star_rule_loops : forall f,
  @assign_mrph_feature no_rule_env (@regexp_RuleMatch example_grammar text_tests) f [star_rule] 0 1 RLOOP_MRM
    RLOOP_BREAK_NONE LtoR false false (rules_start no_sentence) = Err OutOfFuel.
Proof.
  assert (E : @rules_at _ _ mr_f (@matching MrphRule (@mrph_rule_match (@regexp_RuleMatch example_grammar text_tests)))
                (@apply_mrph no_rule_env false) RLOOP_BREAK_NONE LtoR 0 1 [star_rule] 0 (rules_start no_sentence) =
              Ret (-1, rules_start no_sentence)) by reflexivity.
  unfold assign_mrph_feature, rule_loops. induction f as [|f IH]; [reflexivity|]. cbn [mrm_loop]. rewrite E. exact IH.
Qed.
