(* ===== verification/Merge.v ===== *)
(** * Joining morphemes (src/system/read_data.c, preprocess_mrph)

    Rules mark morphemes that belong together (形態素連結-X: the digits of a number, the parts of a name).
    [preprocess_mrph] joins each run of morphemes with the same mark to its first one, when the words fit
    ([merge_mrph]), and then closes the gaps ([reset_mrph]).  [copy_mrph] is modelled as [reset_mrph] calls it, with
    its features; warnings are left out. *)
From Stdlib Require Import ZArith List Bool String Ascii Lia.
Import ListNotations.
From S2P Require Import Prelude CStr Feature Sentence Units SemCode CheckFunction Regexp PredCase ChangeMrph Rules RuleLoops RuleFrame.
Open Scope string_scope.
Open Scope list_scope.
Open Scope Z_scope.

(** ** The representative forms *)

(** The forms behind "代表表記:" in a semantic information, as [sscanf] reads them ([src_str1], [src_str2]): the second
    buffer may stay unset. *)
Definition source_rep (imi : string) : res (option (string * option string)) :=
  match strstr "代表表記:" imi with
  | None => Ret None
  | Some t =>
      let cp := skip "代表表記:" t in
      let str1 := fst (span_not "/" cp) in
      if str_eq str1 EmptyString then Err BadPointer
      else if slen cp <? slen str1 + 1 then Err OutOfBounds
      else
        let str2 := fst (span_not dquote (fst (span_not " " (sdrop (Z.to_nat (slen str1 + 1)) cp)))) in
        Ret (Some (str1, if str_eq str2 EmptyString then None else Some str2))
  end.

Definition merge_mrph_rep (dst src : MRPH_DATA) : res MRPH_DATA :=
  s <- source_rep (m_Imi src) ;;
  match s with
  | None => Ret dst
  | Some (src_str1, src_str2) =>
      d <- split_rep (m_Imi dst) ;;
      match d, src_str2 with
      | None, _ => Ret dst
      | Some _, None => Err BadPointer
      | Some (dst_pre, dst_str1, dst_str2, dst_post), Some src_str2 =>
          if (slen dst_str1 + slen src_str1 <? IMI_MAX) && (slen dst_str2 + slen src_str2 <? IMI_MAX) then
            let str1 := (dst_str1 ++ src_str1)%string in
            let str2 := (dst_str2 ++ src_str2)%string in
            Ret (if slen dst_pre + slen str1 + slen str2 + slen dst_post + 2 <=? IMI_MAX
                 then set_m_Imi (dst_pre ++ str1 ++ "/" ++ str2 ++ dst_post)%string dst else dst)
          else Ret dst
      end
  end.

(** The form with its name becomes a feature. *)
Definition assign_rep_f_from_imi (m : MRPH_DATA) (buf : string) : res (bool * MRPH_DATA * string) :=
  match strstr "代表表記:" (m_Imi m) with
  | None => Ret (false, m, buf)
  | Some cp =>
      length <- get_mrph_rep_length (Some cp) ;;
      let '(f, buf) := assign_cfeature buf (m_f m) (stake (Z.to_nat length) cp) false in
      Ret (true, set_m_f f m, buf)
  end.

(** ** Joining *)

(** The words of [s] behind those of [d], and its representative form. *)
Definition join_word (s d : MRPH_DATA) : res MRPH_DATA :=
  merge_mrph_rep (set_m_Goi2 (m_Goi2 d ++ m_Goi2 s)%string (set_m_Yomi (m_Yomi d ++ m_Yomi s)%string
    (set_m_Goi (m_Goi d ++ m_Goi s)%string d))) s.

(** A morpheme that was joined to another one. *)
Definition joined (s : MRPH_DATA) : MRPH_DATA := set_m_f (clear_feature (m_f s)) (set_m_Goi EmptyString s).

Definition join_to (d i : Z) (sp : SENTENCE_DATA) : res SENTENCE_DATA :=
  m <- join_word (mrph_data sp i) (mrph_data sp d) ;;
  Ret (upd_mrph i joined (upd_mrph d (fun _ => m) sp)).

(** [goi_length], [yomi_length], [goi2_length]. *)
Definition words_length (word : MRPH_DATA -> string) (ms : list MRPH_DATA) : Z :=
  fold_left (fun n m => n + slen (word m)) ms 0.

Definition words_fit (ms : list MRPH_DATA) : bool :=
  negb ((WORD_LEN_MAX <? words_length m_Goi ms) || (WORD_LEN_MAX <? words_length m_Yomi ms) ||
        (WORD_LEN_MAX <? words_length m_Goi2 ms)).

(** The alternatives of the first morpheme go, its form becomes a feature. *)
Definition finish_join (m : MRPH_DATA) (buf : string) : res (MRPH_DATA * string) :=
  ' (_, m, buf) <- assign_rep_f_from_imi (set_m_f (delete_alt_feature (m_f m)) m) buf ;; Ret (m, buf).

Definition mrphs_from (sp : SENTENCE_DATA) (lo hi : Z) : list MRPH_DATA := map (mrph_data sp) (zrange lo hi).

Definition merge_mrph (sp : SENTENCE_DATA) (start_num length : Z) (buf : string) : res (bool * SENTENCE_DATA * string) :=
  if words_fit (mrphs_from sp start_num (start_num + length)) then
    sp <- for_res 1 length (fun i => join_to start_num (start_num + i)) sp ;;
    ' (m, buf) <- finish_join (mrph_data sp start_num) buf ;;
    Ret (true, upd_mrph start_num (fun _ => m) sp, buf)
  else Ret (false, sp, buf).

(** ** The gaps *)

(** How many places each morpheme moves, and how many are deleted. *)
Definition count_gaps (sp : SENTENCE_DATA) : array Z * Z :=
  for_up 1 (Mrph_num sp) (fun i '(move_table, delete_count) =>
      if str_eq (m_Goi (mrph_data sp i)) EmptyString then (aset move_table i 0, delete_count + 1)
      else (aset move_table i delete_count, delete_count)) ((fun _ => 0), 0).

(** [copy_mrph(dst, src, FALSE)]: what is copied, the features too. *)
Definition copy_mrph (src dst : MRPH_DATA) : MRPH_DATA :=
  set_m_f (m_f src) (set_m_Imi (m_Imi src) (set_m_Katuyou_Kei (m_Katuyou_Kei src) (set_m_Katuyou_Kata (m_Katuyou_Kata src)
    (set_m_Bunrui (m_Bunrui src) (set_m_Hinshi (m_Hinshi src) (set_m_Goi2 (m_Goi2 src) (set_m_Yomi (m_Yomi src)
      (set_m_Goi (m_Goi src) dst)))))))).

Definition move_mrph (move_table : array Z) (i : Z) (sp : SENTENCE_DATA) : SENTENCE_DATA :=
  if 0 <? move_table i
  then upd_mrph i (set_m_f []) (upd_mrph (i - move_table i) (copy_mrph (mrph_data sp i)) sp)
  else sp.

Definition reset_mrph (sp : SENTENCE_DATA) : SENTENCE_DATA :=
  let '(move_table, delete_count) := count_gaps sp in
  set_Mrph_num (Mrph_num sp - delete_count) (for_up 1 (Mrph_num sp) (move_mrph move_table) sp).

(** ** The sentence *)
Definition JOIN : string := "形態素連結-".

(** The first mark; another one is only reported. *)
Definition join_type (m : MRPH_DATA) : option string := find (starts_with JOIN) (m_f m).

(** [strcpy] to [merge_type]. *)
Definition in_merge_type (cp : string) : res string := if SMALL_DATA_LEN <=? slen cp then Err OutOfBounds else Ret cp.

(** [delete_cfeature] on one morpheme. *)
Definition unmark (type : string) (m : MRPH_DATA) : MRPH_DATA := set_m_f (delete_cfeature (m_f m) type) m.

(** The run from [start_num] to before [i] is joined, or loses its marks. *)
Definition end_run (start_num i : Z) (merge_type : string) (sp : SENTENCE_DATA) (buf : string) : res (SENTENCE_DATA * string) :=
  ' (ok, sp, buf) <- merge_mrph sp start_num (i - start_num) buf ;;
  Ret (if ok then sp else for_up start_num i (fun k => upd_mrph k (unmark merge_type)) sp, buf).

(** One morpheme; the open run is its start and its mark. *)
Definition join_step (i : Z) (st : option (Z * string) * SENTENCE_DATA * string)
    : res (option (Z * string) * SENTENCE_DATA * string) :=
  let '(run, sp, buf) := st in
  match join_type (mrph_data sp i), run with
  | None, None => Ret st
  | None, Some (start_num, merge_type) =>
      ' (sp, buf) <- end_run start_num i merge_type sp buf ;; Ret (None, sp, buf)
  | Some cp, None => type <- in_merge_type cp ;; Ret (Some (i, type), sp, buf)
  | Some cp, Some (start_num, merge_type) =>
      if str_eq merge_type cp then Ret st
      else
        ' (sp, buf) <- end_run start_num i merge_type sp buf ;;
        type <- in_merge_type cp ;; Ret (Some (i, type), sp, buf)
  end.

Definition join_mrphs (sp : SENTENCE_DATA) (buf : string) : res (SENTENCE_DATA * string) :=
  let n := Mrph_num sp in
  ' (run, sp, buf) <- for_res 0 n join_step (None, sp, buf) ;;
  ' (sp, buf) <- match run with
                 | Some (start_num, merge_type) => end_run start_num n merge_type sp buf
                 | None => Ret (sp, buf)
                 end ;;
  Ret (reset_mrph sp, buf).

Section Preprocess.
Context `{E : RuleEnv} `{RM : RuleMatch} (fuel : nat) (GeneralRuleArray : list GeneralRuleType) (parsed : bool).

Definition preprocess_mrph (st : rule_state) : res rule_state :=
  st <- assign_general_feature (E := with_parsed parsed E) fuel GeneralRuleArray 0 (Mrph_num (ru_sp st)) PreProcessMorphRuleType false false st ;;
  if parsed then Ret st
  else ' (sp, buf) <- join_mrphs (ru_sp st) (ru_buf st) ;; Ret (with_buffer sp buf st).
End Preprocess.

(** * Properties

    The joining on lists: the morphemes are cut into runs with the same mark, each run becomes one
    morpheme or, when its words are too long together, loses its marks. *)
Fixpoint runs (ms : list MRPH_DATA) : list (option string * list MRPH_DATA) :=
  match ms with
  | [] => []
  | m :: ms' =>
      match join_type m, runs ms' with
      | Some t, (Some t', g) :: rs => if str_eq t t' then (Some t, m :: g) :: rs else (Some t, [m]) :: (Some t', g) :: rs
      | t, rs => (t, [m]) :: rs
      end
  end.

Definition join_run (run : option string * list MRPH_DATA) (buf : string) : res (list MRPH_DATA * string) :=
  match run with
  | (Some type, m :: ms) =>
      type <- in_merge_type type ;;
      if words_fit (m :: ms) then
        m <- fold_res join_word ms m ;;
        ' (m, buf) <- finish_join m buf ;; Ret ([m], buf)
      else Ret (map (unmark type) (m :: ms), buf)
  | (_, ms) => Ret (ms, buf)
  end.

Fixpoint join_runs (rs : list (option string * list MRPH_DATA)) (buf : string) : res (list MRPH_DATA * string) :=
  match rs with
  | [] => Ret ([], buf)
  | r :: rs' =>
      ' (ms, buf) <- join_run r buf ;;
      ' (ms', buf) <- join_runs rs' buf ;; Ret (ms ++ ms', buf)
  end.

Definition mrphs (sp : SENTENCE_DATA) : list MRPH_DATA := mrphs_from sp 0 (Mrph_num sp).

(** What [copy_mrph] copies: all that the joining is about; the number of a morpheme stays with its place. *)
Definition word_data (m : MRPH_DATA) :=
  (m_Goi m, m_Yomi m, m_Goi2 m, (m_Hinshi m, m_Bunrui m, m_Katuyou_Kata m, m_Katuyou_Kei m), m_Imi m, m_f m).

(** A morpheme that [reset_mrph] keeps. *)
Definition kept (m : MRPH_DATA) : bool := negb (str_eq (m_Goi m) EmptyString).

(** ** The lists *)
Lemma runs_split : forall ty acc ms, acc <> [] -> Forall (fun m => join_type m = Some ty) acc ->
  (forall m ms', ms = m :: ms' -> join_type m <> Some ty) -> runs (acc ++ ms) = (Some ty, acc) :: runs ms.
Proof.
  intros ty acc ms HN HF HM. induction HF as [|a acc Ha HF IH]; [contradiction|]. cbn [app runs]. rewrite Ha.
  destruct acc as [|b acc].
  - cbn [app]. destruct ms as [|m ms]; [reflexivity|]. specialize (HM m ms eq_refl). cbn [runs].
    destruct (join_type m) as [t|].
    + assert (HT : t <> ty) by congruence. destruct (runs ms) as [|[[t'|] g] rs]; try destruct (str_eq t t');
        (destruct (str_eq_spec ty t) as [->|]; [contradiction | reflexivity]).
    + reflexivity.
  - rewrite IH by discriminate. destruct (str_eq_spec ty ty); [reflexivity | contradiction].
Qed.

Lemma runs_single : forall m ms, join_type m = None -> runs (m :: ms) = (None, [m]) :: runs ms.
Proof. intros m ms H. cbn [runs]. now rewrite H. Qed.

Lemma mrphs_from_cons : forall sp lo hi, lo < hi -> mrphs_from sp lo hi = mrph_data sp lo :: mrphs_from sp (lo + 1) hi.
Proof. intros sp lo hi H. unfold mrphs_from. now rewrite zrange_cons by lia. Qed.

Lemma mrphs_from_nil : forall sp lo hi, hi <= lo -> mrphs_from sp lo hi = [].
Proof. intros sp lo hi H. unfold mrphs_from. now rewrite zrange_nil by lia. Qed.

Lemma mrphs_from_app : forall sp lo mid hi, lo <= mid <= hi -> mrphs_from sp lo hi = mrphs_from sp lo mid ++ mrphs_from sp mid hi.
Proof. intros sp lo mid hi H. unfold mrphs_from. now rewrite (zrange_app lo mid hi), map_app by lia. Qed.

Lemma mrphs_from_ext : forall sp sp' lo hi, (forall j, lo <= j < hi -> mrph_data sp' j = mrph_data sp j) ->
  mrphs_from sp' lo hi = mrphs_from sp lo hi.
Proof. intros sp sp' lo hi H. apply map_ext_in. intros j Hj. apply H. now apply in_zrange. Qed.

(** ** One run *)

(** Each morpheme of the run joined to the first one. *)
Lemma join_loop : forall start hi lo sp, 1 <= lo <= hi ->
  match fold_res join_word (mrphs_from sp (start + lo) (start + hi)) (mrph_data sp start) with
  | Err e => for_res lo hi (fun i => join_to start (start + i)) sp = Err e
  | Ret m => exists sp', for_res lo hi (fun i => join_to start (start + i)) sp = Ret sp' /\ Mrph_num sp' = Mrph_num sp /\
      forall j, mrph_data sp' j = if j =? start then m else if within (start + lo) j (start + hi) then joined (mrph_data sp j)
                                  else mrph_data sp j
  end.
Proof.
  intros start hi lo sp H. remember (Z.to_nat (hi - lo)) as n eqn:En. revert lo sp H En.
  induction n as [|n IH]; intros lo sp H En.
  - rewrite mrphs_from_nil by lia. cbn [fold_res]. exists sp. unfold for_res. rewrite zrange_nil by lia. split; [reflexivity|].
    split; [reflexivity|]. intros j. destruct (within_spec (start + lo) j (start + hi)); [lia|].
    destruct (Z.eqb_spec j start) as [->|]; reflexivity.
  - rewrite mrphs_from_cons by lia. unfold for_res. rewrite zrange_cons by lia. cbn [fold_res].
    assert (J : join_to start (start + lo) sp = (m <- join_word (mrph_data sp (start + lo)) (mrph_data sp start) ;;
      Ret (upd_mrph (start + lo) joined (upd_mrph start (fun _ => m) sp)))) by reflexivity.
    rewrite J. clear J. destruct (join_word (mrph_data sp (start + lo)) (mrph_data sp start)) as [m|e]; [|reflexivity].
    set (sp1 := upd_mrph (start + lo) joined (upd_mrph start (fun _ => m) sp)).
    assert (A1 : forall j, mrph_data sp1 j = if j =? start then m else if j =? start + lo then joined (mrph_data sp j) else mrph_data sp j).
    { intros j. unfold sp1. rewrite !upd_mrph_at. destruct (Z.eqb_spec j (start + lo)) as [->|].
      - destruct (Z.eqb_spec (start + lo) start); [lia | reflexivity].
      - destruct (j =? start); reflexivity. }
    assert (N1 : Mrph_num sp1 = Mrph_num sp) by reflexivity. clearbody sp1.
    specialize (IH (lo + 1) sp1 ltac:(lia) ltac:(lia)). rewrite Z.add_assoc in IH.
    rewrite (mrphs_from_ext sp sp1) in IH by
      (intros j Hj; rewrite A1; destruct (Z.eqb_spec j start), (Z.eqb_spec j (start + lo)); (lia || reflexivity)).
    rewrite A1, Z.eqb_refl in IH. destruct (fold_res join_word _ m) as [m'|e]; [|exact IH].
    destruct IH as (sp' & E1 & E2 & E3). exists sp'. split; [exact E1|]. split; [congruence|]. intros j. rewrite E3, A1.
    destruct (Z.eqb_spec j start); [reflexivity|].
    destruct (within_spec (start + lo + 1) j (start + hi)), (within_spec (start + lo) j (start + hi)), (Z.eqb_spec j (start + lo)); (lia || reflexivity).
Qed.

(** Joining changes no word but by putting the others behind it. *)
Definition words (m : MRPH_DATA) : string * string * string := (m_Goi m, m_Yomi m, m_Goi2 m).

Lemma merge_rep_words : forall dst src m, merge_mrph_rep dst src = Ret m -> words m = words dst /\ m_num m = m_num dst.
Proof.
  intros dst src m H. unfold merge_mrph_rep in H. destruct (source_rep _) as [[[s1 s2]|]|]; [|now injection H as <-|discriminate].
  destruct (split_rep _) as [[[[[p d1] d2] q]|]|]; [|now injection H as <-|discriminate]. destruct s2 as [s2|]; [|discriminate].
  destruct (_ && _); [|now injection H as <-]. injection H as <-. destruct (_ <=? IMI_MAX); split; reflexivity.
Qed.

Lemma join_word_words : forall s d m, join_word s d = Ret m ->
  words m = ((m_Goi d ++ m_Goi s)%string, (m_Yomi d ++ m_Yomi s)%string, (m_Goi2 d ++ m_Goi2 s)%string) /\ m_num m = m_num d.
Proof. intros s d m H. apply merge_rep_words in H. exact H. Qed.

Lemma finish_words : forall m buf m' buf', finish_join m buf = Ret (m', buf') -> words m' = words m /\ m_num m' = m_num m.
Proof.
  intros m buf m' buf' H. unfold finish_join, assign_rep_f_from_imi in H.
  destruct (strstr _ _) as [cp|]; [|now injection H as <- _]. destruct (get_mrph_rep_length _) as [n|]; [|discriminate].
  destruct (assign_cfeature _ _ _ _). now injection H as <- _.
Qed.

(** The words of a run, one behind the other. *)
Definition concat (word : MRPH_DATA -> string) (ms : list MRPH_DATA) : string := String.concat "" (map word ms).

Lemma concat_cons : forall word m ms, concat word (m :: ms) = (word m ++ concat word ms)%string.
Proof. intros word m [|m' ms]; unfold concat; cbn [map String.concat]; [now rewrite sapp_nil_r | reflexivity]. Qed.

Lemma concat_app : forall word ms ms', concat word (ms ++ ms') = (concat word ms ++ concat word ms')%string.
Proof. intros word. induction ms as [|m ms IH]; intros ms'; [reflexivity|]. cbn [app]. now rewrite !concat_cons, IH, sapp_assoc. Qed.

Lemma join_all_words : forall ms m m', fold_res join_word ms m = Ret m' ->
  words m' = ((m_Goi m ++ concat m_Goi ms)%string, (m_Yomi m ++ concat m_Yomi ms)%string, (m_Goi2 m ++ concat m_Goi2 ms)%string) /\
  m_num m' = m_num m.
Proof.
  induction ms as [|s ms IH]; intros m m' H; cbn [fold_res] in H.
  - injection H as <-. unfold concat. cbn. now rewrite !sapp_nil_r.
  - destruct (join_word s m) as [m1|] eqn:E1; [|discriminate]. apply join_word_words in E1 as [W N]. apply IH in H as [W' N'].
    unfold words in W. injection W as W1 W2 W3. split; [|congruence]. now rewrite W', W1, W2, W3, !concat_cons, !sapp_assoc.
Qed.

Lemma kept_app : forall m m' b, kept m = true -> m_Goi m' = (m_Goi m ++ b)%string -> kept m' = true.
Proof. intros m m' b K H. unfold kept in *. rewrite H. destruct (m_Goi m); [discriminate | reflexivity]. Qed.

Lemma kept_same : forall m m', m_Goi m' = m_Goi m -> kept m' = kept m.
Proof. intros m m' H. unfold kept. now rewrite H. Qed.

Lemma filter_all : forall {A} (p : A -> bool) l, Forall (fun x => p x = true) l -> filter p l = l.
Proof. intros A p l H. induction H as [|x l Hx H IH]; [reflexivity|]. cbn. now rewrite Hx, IH. Qed.

(** The effect of [end_run] on the sentence. *)
Definition run_ended (s i : Z) (sp : SENTENCE_DATA) (out : list MRPH_DATA) (sp' : SENTENCE_DATA) : Prop :=
  Mrph_num sp' = Mrph_num sp /\ (forall j, ~ s <= j < i -> mrph_data sp' j = mrph_data sp j) /\
  (forall j, m_num (mrph_data sp' j) = m_num (mrph_data sp j)) /\ kept (mrph_data sp' s) = true /\
  filter kept (mrphs_from sp' s i) = out.

Lemma unmark_run : forall s i ty sp, s < i -> Forall (fun m => kept m = true) (mrphs_from sp s i) ->
  run_ended s i sp (map (unmark ty) (mrphs_from sp s i)) (for_up s i (fun k => upd_mrph k (unmark ty)) sp).
Proof.
  intros s i ty sp Hs HK.
  assert (A : forall j, mrph_data (for_up s i (fun k => upd_mrph k (unmark ty)) sp) j =
    if within s j i then unmark ty (mrph_data sp j) else mrph_data sp j).
  { intros j. rewrite (for_up_pointwise mrph_data (fun k j => j =? k) (fun _ => unmark ty)).
    - now rewrite existsb_zrange_eq.
    - intros k x _. rewrite upd_mrph_at. destruct (Z.eqb_spec j k) as [->|]; reflexivity.
    - intros a b _ _ Ha Hb. lia. }
  split; [|split; [|split; [|split]]].
  - unfold for_up. apply (fold_left_inv _ (fun x => Mrph_num x = Mrph_num sp)); [|reflexivity]. intros. assumption.
  - intros j Hj. rewrite A. destruct (within_spec s j i); [contradiction | reflexivity].
  - intros j. rewrite A. destruct (within s j i); reflexivity.
  - rewrite A, within_true by lia. rewrite mrphs_from_cons in HK by lia. now inversion HK.
  - unfold mrphs_from at 1. rewrite (map_ext_in _ (fun j => unmark ty (mrph_data sp j))).
    + unfold mrphs_from. rewrite map_map. apply filter_all. unfold mrphs_from in HK. rewrite Forall_map in *. exact HK.
    + intros j Hj. apply in_zrange in Hj. rewrite A. now rewrite within_true.
Qed.

Lemma end_run_spec : forall s i ty sp buf, s < i -> Forall (fun m => kept m = true) (mrphs_from sp s i) -> slen ty < SMALL_DATA_LEN ->
  match join_run (Some ty, mrphs_from sp s i) buf with
  | Err e => end_run s i ty sp buf = Err e
  | Ret (out, buf') => exists sp', end_run s i ty sp buf = Ret (sp', buf') /\ run_ended s i sp out sp'
  end.
Proof.
  intros s i ty sp buf H HK HT. unfold end_run, merge_mrph. replace (s + (i - s)) with i by lia.
  pose proof (unmark_run s i ty sp H HK) as U. revert HK U. rewrite mrphs_from_cons by lia. intros HK U. cbn [join_run]. unfold in_merge_type.
  destruct (Z.leb_spec SMALL_DATA_LEN (slen ty)); [lia|].
  destruct (words_fit _); [|eexists; split; [reflexivity | exact U]]. clear U.
  pose proof (join_loop s (i - s) 1 sp ltac:(lia)) as J. replace (s + (i - s)) with i in J by lia.
  destruct (fold_res join_word _ _) as [m|e] eqn:EF; [|now rewrite J]. destruct J as (sp1 & E1 & N1 & A1). rewrite E1, A1, Z.eqb_refl.
  destruct (finish_join m buf) as [[m' buf']|e] eqn:EM; [|reflexivity]. eexists. split; [reflexivity|].
  apply join_all_words in EF as [WF NF]. apply finish_words in EM as [WM NM].
  assert (A2 : forall j, mrph_data (upd_mrph s (fun _ => m') sp1) j = if j =? s then m' else if within (s + 1) j i then joined (mrph_data sp j) else mrph_data sp j).
  { intros j. rewrite upd_mrph_at, A1. destruct (j =? s); reflexivity. }
  assert (KM : kept m' = true).
  { apply (kept_app (mrph_data sp s) _ (concat m_Goi (mrphs_from sp (s + 1) i))); [now inversion HK|]. unfold words in WM, WF. congruence. }
  split; [exact N1|]. split; [|split; [|split]].
  - intros j Hj. rewrite A2. destruct (Z.eqb_spec j s); [lia|]. destruct (within_spec (s + 1) j i); [lia | reflexivity].
  - intros j. rewrite A2. destruct (Z.eqb_spec j s) as [->|]; [congruence|]. destruct (within _ _ _); reflexivity.
  - now rewrite A2, Z.eqb_refl.
  - rewrite mrphs_from_cons by lia. cbn [filter]. rewrite A2, Z.eqb_refl, KM. f_equal. apply filter_none. intros x Hx.
    unfold mrphs_from in Hx. apply in_map_iff in Hx as (j & <- & Hj). apply in_zrange in Hj.
    rewrite A2. destruct (Z.eqb_spec j s); [lia|]. rewrite within_true by lia. reflexivity.
Qed.

(** ** The gaps *)

(** The morphemes before [i] that are kept. *)
Definition gaps (sp : SENTENCE_DATA) (i : Z) : Z := zlen (filter (fun m => negb (kept m)) (mrphs_from sp 1 i)).

Lemma gaps_next : forall sp i, 1 <= i -> gaps sp (i + 1) = gaps sp i + (if kept (mrph_data sp i) then 0 else 1).
Proof.
  intros sp i Hi. unfold gaps. rewrite (mrphs_from_app sp 1 i (i + 1)) by lia. rewrite filter_app, zlen_app. f_equal.
  rewrite mrphs_from_cons, mrphs_from_nil by lia. cbn [filter]. destruct (kept _); reflexivity.
Qed.

Lemma gaps_range : forall sp i, 1 <= i -> 0 <= gaps sp i <= i - 1.
Proof.
  intros sp i Hi. replace i with (1 + Z.of_nat (Z.to_nat (i - 1))) by lia. generalize (Z.to_nat (i - 1)) as n.
  induction n as [|n IH].
  - unfold gaps. rewrite mrphs_from_nil by lia. cbn. lia.
  - replace (1 + Z.of_nat (S n)) with (1 + Z.of_nat n + 1) by lia. rewrite gaps_next by lia. destruct (kept _); lia.
Qed.

Lemma count_gaps_spec : forall sp, 1 <= Mrph_num sp ->
  snd (count_gaps sp) = gaps sp (Mrph_num sp) /\
  forall i, 1 <= i < Mrph_num sp -> fst (count_gaps sp) i = if kept (mrph_data sp i) then gaps sp i else 0.
Proof.
  intros sp H. unfold count_gaps.
  apply (for_up_inv (fun n st => snd st = gaps sp n /\ forall i, 1 <= i < n -> fst st i = if kept (mrph_data sp i) then gaps sp i else 0)).
  - exact H.
  - split; [reflexivity | intros i Hi; lia].
  - intros i [t c] Hi [HC HT]. cbn [fst snd] in *. rewrite gaps_next by lia. fold (m_Goi (mrph_data sp i)).
    unfold kept at 1. destruct (str_eq _ _) eqn:EK; cbn [negb fst snd]; (split; [lia|]); intros j Hj; unfold aset;
      (destruct (Z.eqb_spec j i) as [->|]; [unfold kept; rewrite EK; cbn [negb]; lia | apply HT; lia]).
Qed.

Lemma mrphs_from_snoc : forall sp lo i, lo <= i -> mrphs_from sp lo (i + 1) = mrphs_from sp lo i ++ [mrph_data sp i].
Proof. intros sp lo i H. rewrite (mrphs_from_app sp lo i (i + 1)) by lia. f_equal. now rewrite mrphs_from_cons, mrphs_from_nil by lia. Qed.

Lemma word_data_ext : forall sp sp' lo hi, (forall j, lo <= j < hi -> word_data (mrph_data sp' j) = word_data (mrph_data sp j)) ->
  map word_data (mrphs_from sp' lo hi) = map word_data (mrphs_from sp lo hi).
Proof. intros sp sp' lo hi H. unfold mrphs_from. rewrite !map_map. apply map_ext_in. intros j Hj. apply H. now apply in_zrange. Qed.

Lemma copied : forall src dst, word_data (copy_mrph src dst) = word_data src /\ m_num (copy_mrph src dst) = m_num dst.
Proof. intros [] []. split; reflexivity. Qed.

(** The kept morphemes move together, in their order. *)
Lemma reset_spec : forall sp, (0 < Mrph_num sp -> kept (mrph_data sp 0) = true) ->
  map word_data (mrphs (reset_mrph sp)) = map word_data (filter kept (mrphs sp)) /\
  forall j, m_num (mrph_data (reset_mrph sp) j) = m_num (mrph_data sp j).
Proof.
  intros sp HK. set (n := Mrph_num sp). destruct (Z.le_gt_cases n 0) as [Hn|Hn].
  { unfold reset_mrph, count_gaps. fold n. rewrite !for_up_empty by lia. unfold mrphs. cbn [Mrph_num set_Mrph_num]. fold n.
    rewrite !mrphs_from_nil by lia. split; reflexivity. }
  specialize (HK Hn). pose proof (count_gaps_spec sp ltac:(lia)) as [HC HT]. fold n in HC, HT. unfold reset_mrph. fold n.
  destruct (count_gaps sp) as [t c]. cbn [fst snd] in *. subst c.
  assert (G : forall s, s = for_up 1 n (move_mrph t) sp -> Mrph_num s = n /\
    map word_data (mrphs_from s 0 (n - gaps sp n)) = map word_data (filter kept (mrphs_from sp 0 n)) /\
    (forall j, n <= j -> mrph_data s j = mrph_data sp j) /\ forall j, m_num (mrph_data s j) = m_num (mrph_data sp j)).
  { intros s ->. apply (for_up_inv (fun i s => Mrph_num s = n /\
      map word_data (mrphs_from s 0 (i - gaps sp i)) = map word_data (filter kept (mrphs_from sp 0 i)) /\
      (forall j, i <= j -> mrph_data s j = mrph_data sp j) /\ forall j, m_num (mrph_data s j) = m_num (mrph_data sp j))); [lia| |].
    - split; [reflexivity|]. split; [|auto]. unfold gaps. rewrite (mrphs_from_nil sp 1 1) by lia. change (1 - zlen (filter (fun m => negb (kept m)) [])) with 1.
      rewrite !mrphs_from_cons, !mrphs_from_nil by lia. cbn [filter]. now rewrite HK.
    - intros i s Hi (N & W & R & M). rewrite gaps_next by lia. rewrite (mrphs_from_snoc sp 0 i), filter_app, map_app, <- W by lia.
      pose proof (gaps_range sp i ltac:(lia)) as HG. unfold move_mrph. rewrite HT by lia. cbn [filter]. destruct (kept (mrph_data sp i)) eqn:EK.
      + replace (i + 1 - (gaps sp i + 0)) with (i - gaps sp i + 1) by lia.
        rewrite mrphs_from_snoc, map_app by lia. cbn [map]. destruct (Z.ltb_spec 0 (gaps sp i)) as [HP|HP].
        * set (s' := upd_mrph i _ _).
          assert (A : forall j, mrph_data s' j = if j =? i then set_m_f [] (mrph_data s i)
            else if j =? i - gaps sp i then copy_mrph (mrph_data s i) (mrph_data s j) else mrph_data s j).
          { intros j. unfold s'. rewrite !upd_mrph_at. destruct (Z.eqb_spec j i) as [->|].
            - destruct (Z.eqb_spec i (i - gaps sp i)); [lia | reflexivity].
            - destruct (Z.eqb_spec j (i - gaps sp i)) as [->|]; reflexivity. }
          assert (N' : Mrph_num s' = n) by exact N. clearbody s'. split; [exact N'|]. split; [|split].
          -- f_equal.
             ++ apply word_data_ext. intros j Hj. rewrite A. destruct (Z.eqb_spec j i), (Z.eqb_spec j (i - gaps sp i)); (lia || reflexivity).
             ++ rewrite A, Z.eqb_refl. destruct (Z.eqb_spec (i - gaps sp i) i); [lia|]. f_equal.
                rewrite (proj1 (copied _ _)). now rewrite R by lia.
          -- intros j Hj. rewrite A. destruct (Z.eqb_spec j i), (Z.eqb_spec j (i - gaps sp i)); try lia. apply R. lia.
          -- intros j. rewrite A. destruct (Z.eqb_spec j i) as [->|]; [apply M|].
             destruct (Z.eqb_spec j (i - gaps sp i)); [rewrite (proj2 (copied _ _)); apply M | apply M].
        * split; [exact N|]. split; [|split; [intros j Hj; apply R; lia | exact M]].
          f_equal. replace (i - gaps sp i) with i by lia. now rewrite R by lia.
      + cbn [Z.ltb Z.compare]. replace (i + 1 - (gaps sp i + 1)) with (i - gaps sp i) by lia.
        split; [exact N|]. split; [now rewrite app_nil_r|]. split; [intros j Hj; apply R; lia | exact M]. }
  destruct (G _ eq_refl) as (N & W & _ & M). split; [|exact M]. exact W.
Qed.

(** ** The sentence *)
Section Joining.
Context (sp0 : SENTENCE_DATA).
Abbreviation n := (Mrph_num sp0).
Hypothesis nonempty : forall j, 0 <= j < n -> kept (mrph_data sp0 j) = true.

(** Before morpheme [i], with the morphemes before [s] done. *)
Record joined_upto (s : Z) (sp : SENTENCE_DATA) (done : list MRPH_DATA) : Prop := {
  ju_num : Mrph_num sp = n;
  ju_done : filter kept (mrphs_from sp 0 s) = done;
  ju_rest : forall j, s <= j -> mrph_data sp j = mrph_data sp0 j;
  ju_place : forall j, m_num (mrph_data sp j) = m_num (mrph_data sp0 j);
  ju_first : 0 < n -> kept (mrph_data sp 0) = true
}.

(** The rest of [join_mrphs]. *)
Definition finish_joins (st : option (Z * string) * SENTENCE_DATA * string) : res (SENTENCE_DATA * string) :=
  let '(run, sp, buf) := st in
  ' (sp, buf) <- match run with
                 | Some (start_num, merge_type) => end_run start_num n merge_type sp buf
                 | None => Ret (sp, buf)
                 end ;;
  Ret (reset_mrph sp, buf).

Definition joins_as (r : res (SENTENCE_DATA * string)) (done : list MRPH_DATA) (spec : res (list MRPH_DATA * string)) : Prop :=
  match spec with
  | Err e => r = Err e
  | Ret (ms, buf') => exists sp', r = Ret (sp', buf') /\ map word_data (mrphs sp') = map word_data (done ++ ms) /\
      forall j, m_num (mrph_data sp' j) = m_num (mrph_data sp0 j)
  end.

Abbreviation loop_from i st := (st' <- for_res i n join_step st ;; finish_joins st').

Lemma kept_rest : forall s i, 0 <= s -> i <= n -> Forall (fun m => kept m = true) (mrphs_from sp0 s i).
Proof. intros s i Hs Hi. unfold mrphs_from. rewrite Forall_map, Forall_forall. intros j Hj. apply in_zrange in Hj. apply nonempty. lia. Qed.

Lemma close_ok : forall s i ty sp buf done, 0 <= s < i -> i <= n -> joined_upto s sp done -> slen ty < SMALL_DATA_LEN ->
  match join_run (Some ty, mrphs_from sp0 s i) buf with
  | Err e => end_run s i ty sp buf = Err e
  | Ret (out, buf') => exists sp', end_run s i ty sp buf = Ret (sp', buf') /\ joined_upto i sp' (done ++ out)
  end.
Proof.
  intros s i ty sp buf done Hs Hi [J1 J2 J3 J4 J5] HT.
  assert (EM : mrphs_from sp s i = mrphs_from sp0 s i) by (apply mrphs_from_ext; intros j Hj; apply J3; lia).
  pose proof (end_run_spec s i ty sp buf ltac:(lia)) as S. rewrite EM in S. specialize (S (kept_rest s i ltac:(lia) Hi) HT).
  destruct (join_run _ _) as [[out buf']|e]; [|exact S]. destruct S as (sp' & E & N & R & M & K & F). exists sp'. split; [exact E|]. split.
  - congruence.
  - rewrite (mrphs_from_app sp' 0 s i), filter_app, F by lia. f_equal. rewrite (mrphs_from_ext sp sp'); [exact J2|].
    intros j Hj. apply R. lia.
  - intros j Hj. rewrite R by lia. apply J3. lia.
  - intros j. now rewrite M.
  - intros Hn. destruct (Z.eq_dec s 0) as [->|]; [exact K|]. rewrite R by lia. auto.
Qed.

Lemma step_open : forall s i ty sp buf, s < i -> join_step i (Some (s, ty), sp, buf) =
  match join_type (mrph_data sp i) with
  | Some cp => if str_eq ty cp then Ret (Some (s, ty), sp, buf)
               else ' (sp, buf) <- end_run s i ty sp buf ;; type <- in_merge_type cp ;; Ret (Some (i, type), sp, buf)
  | None => ' (sp, buf) <- end_run s i ty sp buf ;; Ret (None, sp, buf)
  end.
Proof. intros. cbn [join_step]. destruct (join_type _); reflexivity. Qed.

(** Another run begins behind a closed one. *)
Lemma loop_closed : forall s i ty sp buf, s < i <= n ->
  (i < n -> join_type (mrph_data sp i) <> Some ty) ->
  (forall sp' buf', end_run s i ty sp buf = Ret (sp', buf') -> mrph_data sp' i = mrph_data sp i) ->
  loop_from i (Some (s, ty), sp, buf) = (' (sp', buf') <- end_run s i ty sp buf ;; loop_from i (None, sp', buf')).
Proof.
  intros s i ty sp buf H HT HS. unfold for_res. destruct (Z.eq_dec i n) as [->|Hn].
  - rewrite zrange_nil by lia. cbn [fold_res finish_joins]. destruct (end_run s n ty sp buf) as [[sp' buf']|]; reflexivity.
  - rewrite zrange_cons by lia. cbn [fold_res]. rewrite step_open by lia. specialize (HT ltac:(lia)).
    destruct (join_type (mrph_data sp i)) as [cp|] eqn:EJ.
    + destruct (str_eq_spec ty cp) as [->|]; [contradiction|].
      destruct (end_run s i ty sp buf) as [[sp' buf']|] eqn:EE; [|reflexivity]. cbn [join_step]. rewrite (HS _ _ eq_refl), EJ.
      destruct (in_merge_type cp); reflexivity.
    + destruct (end_run s i ty sp buf) as [[sp' buf']|] eqn:EE; [|reflexivity]. cbn [join_step]. now rewrite (HS _ _ eq_refl), EJ.
Qed.

Lemma joins_app : forall r done out spec, joins_as r (done ++ out) spec ->
  joins_as r done (' (ms, buf) <- spec ;; Ret (out ++ ms, buf)).
Proof.
  intros r done out [[ms buf]|e] H; [|exact H]. cbn [joins_as] in *. now rewrite <- app_assoc in H.
Qed.

(** From morpheme [i] on, without and with an open run. *)
Lemma joins_done : forall sp buf done, joined_upto n sp done -> joins_as (loop_from n (None, sp, buf)) done (Ret ([], buf)).
Proof.
  intros sp buf done [J1 J2 J3 J4 J5]. unfold for_res. rewrite zrange_nil by lia. cbn [fold_res finish_joins joins_as].
  exists (reset_mrph sp). destruct (reset_spec sp) as [R1 R2]; [rewrite J1; exact J5|]. split; [reflexivity|].
  rewrite R1, app_nil_r. unfold mrphs. rewrite J1, J2. split; [reflexivity|]. intros j. now rewrite R2.
Qed.

Lemma runs_open : forall t m ms, join_type m = Some t -> exists g rs, runs (m :: ms) = (Some t, m :: g) :: rs.
Proof.
  intros t m ms H. cbn [runs]. rewrite H. destruct (runs ms) as [|[[t'|] g] rs]; [now eexists _, _ | | now eexists _, _].
  destruct (str_eq t t'); now eexists _, _.
Qed.

(** The loop from morpheme [i] on gives what the lists say, without an open run and with one. *)
Definition closed_from (i : Z) : Prop := forall sp buf done, joined_upto i sp done ->
  joins_as (loop_from i (None, sp, buf)) done (join_runs (runs (mrphs_from sp0 i n)) buf).

Definition open_from (i : Z) : Prop := forall s ty sp buf done, 0 <= s < i -> joined_upto s sp done -> slen ty < SMALL_DATA_LEN ->
  Forall (fun m => join_type m = Some ty) (mrphs_from sp0 s i) ->
  joins_as (loop_from i (Some (s, ty), sp, buf)) done (join_runs (runs (mrphs_from sp0 s n)) buf).

Lemma closed_step : forall i, 0 <= i < n -> closed_from (i + 1) -> open_from (i + 1) -> closed_from i.
Proof.
  intros i Hi HC HO sp buf done J. unfold for_res. rewrite zrange_cons by lia. cbn [fold_res join_step].
  rewrite (ju_rest _ _ _ J i) by lia. destruct (join_type (mrph_data sp0 i)) as [cp|] eqn:EJ.
  - unfold in_merge_type. destruct (Z.leb_spec SMALL_DATA_LEN (slen cp)) as [HL|HL].
    + rewrite mrphs_from_cons by lia. destruct (runs_open cp _ (mrphs_from sp0 (i + 1) n) EJ) as (g & rs & ->).
      cbn [join_runs join_run]. unfold in_merge_type. destruct (Z.leb_spec SMALL_DATA_LEN (slen cp)); [reflexivity | lia].
    + apply HO; [lia | exact J | exact HL|]. rewrite mrphs_from_cons, mrphs_from_nil by lia. constructor; [exact EJ | constructor].
  - rewrite mrphs_from_cons, runs_single by (lia || exact EJ). cbn [join_runs join_run].
    apply (joins_app _ _ [mrph_data sp0 i]). apply HC. destruct J as [J1 J2 J3 J4 J5]. split; auto.
    + rewrite mrphs_from_snoc, filter_app, J2 by lia. f_equal. cbn [filter]. rewrite (J3 i), nonempty by lia. reflexivity.
    + intros j Hj. apply J3. lia.
Qed.

Lemma open_close : forall i, 0 <= i <= n -> closed_from i ->
  forall s ty sp buf done, 0 <= s < i -> joined_upto s sp done -> slen ty < SMALL_DATA_LEN ->
  Forall (fun m => join_type m = Some ty) (mrphs_from sp0 s i) -> (i < n -> join_type (mrph_data sp0 i) <> Some ty) ->
  joins_as (loop_from i (Some (s, ty), sp, buf)) done (join_runs (runs (mrphs_from sp0 s n)) buf).
Proof.
  intros i Hi HC s ty sp buf done Hs J HL HF HT. pose proof (close_ok s i ty sp buf done Hs ltac:(lia) J HL) as C.
  rewrite loop_closed; [| lia | rewrite (ju_rest _ _ _ J) by lia; exact HT |].
  - rewrite (mrphs_from_app sp0 s i n), (runs_split ty) by
      (lia || exact HF || (intros m ms' E; unfold mrphs_from in E; destruct (Z.eq_dec i n) as [->|];
         [rewrite zrange_nil in E by lia; discriminate | rewrite zrange_cons in E by lia; injection E as <- _; apply HT; lia])
       || (rewrite mrphs_from_cons by lia; discriminate)).
    cbn [join_runs]. destruct (join_run _ _) as [[out buf']|e]; [|now rewrite C].
    destruct C as (sp' & -> & J'). apply (joins_app _ _ out). now apply HC.
  - intros sp' buf' E. destruct (join_run _ _) as [[out b]|e]; [|rewrite C in E; discriminate].
    destruct C as (sp1 & E1 & J1). rewrite E1 in E. injection E as <- _. rewrite (ju_rest _ _ _ J1), (ju_rest _ _ _ J) by lia. reflexivity.
Qed.

Lemma joins_from : forall k i, 0 <= i -> i + Z.of_nat k = n -> closed_from i /\ open_from i.
Proof.
  induction k as [|k IH]; intros i Hi Hk.
  - assert (C : closed_from i).
    { replace i with n by lia. intros sp buf done J. rewrite mrphs_from_nil by lia. now apply joins_done. }
    split; [exact C|]. intros s ty sp buf done Hs J HL HF. apply open_close; auto; lia.
  - destruct (IH (i + 1) ltac:(lia) ltac:(lia)) as [IC IO]. assert (C : closed_from i) by (apply closed_step; auto; lia).
    split; [exact C|]. intros s ty sp buf done Hs J HL HF.
    destruct (join_type (mrph_data sp0 i)) as [cp|] eqn:EJ; [destruct (str_eq_spec ty cp) as [->|HT]|].
    + unfold for_res. rewrite zrange_cons by lia. cbn [fold_res]. rewrite step_open, (ju_rest _ _ _ J), EJ by lia.
      destruct (str_eq_spec cp cp); [|contradiction]. apply IO; [lia | exact J | exact HL|].
      rewrite mrphs_from_snoc by lia. apply Forall_app. split; [exact HF|]. constructor; [exact EJ | constructor].
    + apply open_close; auto; [lia|]. intros _. congruence.
    + apply open_close; auto; [lia|]. intros _. congruence.
Qed.
End Joining.

(** [join_mrphs] on a sentence whose words are not empty. *)
Lemma join_mrphs_spec : forall sp buf, (forall j, 0 <= j < Mrph_num sp -> kept (mrph_data sp j) = true) ->
  joins_as sp (join_mrphs sp buf) [] (join_runs (runs (mrphs sp)) buf).
Proof.
  intros sp buf H. change (join_mrphs sp buf) with (st' <- for_res 0 (Mrph_num sp) join_step (None, sp, buf) ;; finish_joins sp st').
  assert (J : joined_upto sp 0 sp []) by (split; auto; intros; apply H; lia).
  destruct (Z.le_gt_cases (Mrph_num sp) 0) as [Hn|Hn].
  - unfold mrphs. rewrite mrphs_from_nil by lia. unfold for_res. rewrite zrange_nil by lia. cbn [fold_res finish_joins runs join_runs joins_as].
    exists (reset_mrph sp). destruct (reset_spec sp) as [R1 R2]; [lia|]. split; [reflexivity|]. split; [|exact R2].
    rewrite R1. unfold mrphs. now rewrite mrphs_from_nil by lia.
  - destruct (joins_from sp H (Z.to_nat (Mrph_num sp)) 0 ltac:(lia) ltac:(lia)) as [C _]. now apply C.
Qed.

(** ** The text of the sentence *)
Lemma concat_map : forall word (f : MRPH_DATA -> MRPH_DATA) ms, (forall m, word (f m) = word m) -> concat word (map f ms) = concat word ms.
Proof. intros word f ms H. unfold concat. rewrite map_map. f_equal. apply map_ext. exact H. Qed.

Lemma join_run_words : forall word r buf ms buf', (word = m_Goi \/ word = m_Yomi \/ word = m_Goi2) ->
  join_run r buf = Ret (ms, buf') -> concat word ms = concat word (snd r).
Proof.
  intros word [[ty|] [|m g] ] buf ms buf' HW H; cbn [join_run snd] in *; try now injection H as <- _.
  destruct (in_merge_type ty) as [ty'|]; [|discriminate]. destruct (words_fit (m :: g)).
  - destruct (fold_res join_word g m) as [m1|] eqn:E1; [|discriminate]. apply join_all_words in E1 as [W _].
    destruct (finish_join m1 buf) as [[m2 b2]|] eqn:E2; [|discriminate]. apply finish_words in E2 as [W2 _]. injection H as <- _.
    rewrite !concat_cons. unfold concat at 1. cbn [map String.concat]. rewrite sapp_nil_r. unfold words in W, W2.
    destruct HW as [->|[->| ->]]; congruence.
  - injection H as <- _. apply (concat_map word (unmark ty') (m :: g)). intros x. destruct HW as [->|[->| ->]]; reflexivity.
Qed.

Lemma join_runs_words : forall word, (word = m_Goi \/ word = m_Yomi \/ word = m_Goi2) -> forall rs buf ms buf',
  join_runs rs buf = Ret (ms, buf') -> concat word ms = concat word (flat_map snd rs).
Proof.
  intros word HW. induction rs as [|r rs IH]; intros buf ms buf' H; cbn [join_runs flat_map] in *; [now injection H as <- _|].
  destruct (join_run r buf) as [[m1 b1]|] eqn:E1; [|discriminate]. apply (join_run_words word) in E1; [|exact HW].
  destruct (join_runs rs b1) as [[m2 b2]|] eqn:E2; [|discriminate]. apply IH in E2. injection H as <- _. now rewrite !concat_app, E1, E2.
Qed.

Lemma runs_flat : forall ms, flat_map snd (runs ms) = ms.
Proof.
  induction ms as [|m ms IH]; [reflexivity|]. cbn [runs]. generalize dependent (runs ms). intros rs IH. rewrite <- IH. clear IH.
  destruct (join_type m) as [t|]; [|reflexivity]. destruct rs as [|[[t'|] g] rs]; try reflexivity. destruct (str_eq t t'); reflexivity.
Qed.

(** Words are read from [word_data]. *)
Lemma concat_data : forall word, (word = m_Goi \/ word = m_Yomi \/ word = m_Goi2) -> forall ms ms',
  map word_data ms = map word_data ms' -> concat word ms = concat word ms'.
Proof.
  intros word HW. induction ms as [|m ms IH]; intros [|m' ms'] H; try discriminate H; [reflexivity|].
  cbn [map] in H. injection H as W1 W2 W3 _ _ _ _ _ _ H. rewrite !concat_cons, (IH _ H). f_equal. destruct HW as [->|[->| ->]]; assumption.
Qed.

(** The words of the joined morphemes are not empty, and they are not more. *)
Definition worded (m : MRPH_DATA) : Prop := m_Goi m <> EmptyString /\ m_Goi2 m <> EmptyString.

Lemma worded_app : forall m m' a b, worded m -> m_Goi m' = (m_Goi m ++ a)%string -> m_Goi2 m' = (m_Goi2 m ++ b)%string -> worded m'.
Proof. intros m m' a b [H1 H2] E1 E2. unfold worded. rewrite E1, E2. split; [now destruct (m_Goi m) | now destruct (m_Goi2 m)]. Qed.

Lemma join_run_worded : forall r buf ms buf', Forall worded (snd r) -> join_run r buf = Ret (ms, buf') ->
  Forall worded ms /\ (List.length ms <= List.length (snd r))%nat.
Proof.
  intros [[ty|] [|m g] ] buf ms buf' HW H; cbn [join_run snd] in *; try (injection H as <- _; auto).
  destruct (in_merge_type ty) as [ty'|]; [|discriminate]. destruct (words_fit (m :: g)).
  - destruct (fold_res join_word g m) as [m1|] eqn:E1; [|discriminate]. apply join_all_words in E1 as [W _].
    destruct (finish_join m1 buf) as [[m2 b2]|] eqn:E2; [|discriminate]. apply finish_words in E2 as [W2 _]. injection H as <- _.
    split; [|cbn; lia]. constructor; [|constructor]. unfold words in W, W2.
    apply (worded_app m _ (concat m_Goi g) (concat m_Goi2 g)); [now inversion HW | congruence..].
  - injection H as <- _. change (unmark ty' m :: map (unmark ty') g) with (map (unmark ty') (m :: g)).
    rewrite length_map. split; [|lia]. rewrite Forall_map. exact HW.
Qed.

Lemma join_runs_worded : forall rs buf ms buf', Forall worded (flat_map snd rs) -> join_runs rs buf = Ret (ms, buf') ->
  Forall worded ms /\ (List.length ms <= List.length (flat_map snd rs))%nat.
Proof.
  induction rs as [|r rs IH]; intros buf ms buf' HW H; cbn [join_runs flat_map] in *; [now injection H as <- _|].
  apply Forall_app in HW as [HW1 HW2]. destruct (join_run r buf) as [[m1 b1]|] eqn:E1; [|discriminate]. apply join_run_worded in E1 as [F1 L1]; [|exact HW1].
  destruct (join_runs rs b1) as [[m2 b2]|] eqn:E2; [|discriminate]. apply IH in E2 as [F2 L2]; [|exact HW2]. injection H as <- _.
  rewrite !length_app. split; [now apply Forall_app | lia].
Qed.

Lemma worded_data : forall ms ms', map word_data ms' = map word_data ms -> Forall worded ms -> Forall worded ms'.
Proof.
  induction ms as [|m ms IH]; intros [|m' ms'] H F; try discriminate H; [constructor|].
  cbn [map] in H. injection H as W1 _ W3 _ _ _ _ _ _ H. inversion F as [|? ? [F1 F2] F3]. subst. constructor; [|auto].
  split; congruence.
Qed.

Lemma mrphs_worded : forall sp, Forall worded (mrphs sp) <-> forall j, 0 <= j < Mrph_num sp -> worded (mrph_data sp j).
Proof.
  intros sp. unfold mrphs, mrphs_from. rewrite Forall_map, Forall_forall.
  split; intros H j Hj; apply H; now apply in_zrange.
Qed.

Lemma words_from_units : forall sp sp', same_units sp sp' ->
  map m_Goi2 (mrphs sp') = map m_Goi2 (mrphs sp) /\ map m_Yomi (mrphs sp') = map m_Yomi (mrphs sp).
Proof.
  intros sp sp' [(N & _) H _ _]. unfold mrphs, mrphs_from. rewrite N, !map_map.
  split; apply map_ext; intros j; destruct (H j) as [P _]; unfold word_place in P; congruence.
Qed.

(** C26: On a sentence whose morphemes all have a base form, [join_mrphs] is the joining on lists: the morphemes are cut into
    maximal runs with the same mark 形態素連結-X, each run becomes one morpheme (the words one behind the
    other, with the part of speech of the first) or, when a word would not fit its array, stays and loses its marks; the result
    fills the first places in order, and the numbers of the places stay.  It fails when, and as, the joining on lists fails. *)
Theorem join_mrphs_runs : forall sp buf, (forall j, 0 <= j < Mrph_num sp -> m_Goi (mrph_data sp j) <> EmptyString) ->
  match join_runs (runs (mrphs sp)) buf with
  | Err e => join_mrphs sp buf = Err e
  | Ret (ms, buf') => exists sp', join_mrphs sp buf = Ret (sp', buf') /\
      map word_data (mrphs sp') = map word_data ms /\ forall j, m_num (mrph_data sp' j) = m_num (mrph_data sp j)
  end.
Proof.
  intros sp buf H. pose proof (join_mrphs_spec sp buf) as S. unfold joins_as in S. cbn [app] in S. apply S.
  intros j Hj. unfold kept. destruct (str_eq_spec (m_Goi (mrph_data sp j)) EmptyString) as [E|]; [now destruct (H j Hj) | reflexivity].
Qed.

Lemma worded_kept : forall m, worded m -> kept m = true.
Proof. intros m [H _]. unfold kept. now destruct (str_eq_spec (m_Goi m) EmptyString). Qed.

Lemma mrphs_zlen : forall sp, zlen (mrphs sp) = Z.max 0 (Mrph_num sp).
Proof. intros sp. unfold mrphs, mrphs_from, zlen. rewrite length_map, length_zrange. lia. Qed.

(** The rules change neither the words nor the numbers. *)
Lemma rules_keep_words : forall sp sp', same_units sp sp' ->
  (forall j, 0 <= j < Mrph_num sp -> m_num (mrph_data sp j) = j /\ worded (mrph_data sp j)) ->
  (forall j, 0 <= j < Mrph_num sp' -> worded (mrph_data sp' j)) /\ (forall j, 0 <= j < Mrph_num sp' -> m_num (mrph_data sp' j) = j) /\
  concat m_Goi2 (mrphs sp') = concat m_Goi2 (mrphs sp) /\ concat m_Yomi (mrphs sp') = concat m_Yomi (mrphs sp) /\
  zlen (mrphs sp') = zlen (mrphs sp).
Proof.
  intros sp sp' SU HW. pose proof (words_from_units _ _ SU) as [W2 WY].
  destruct (su_counts _ _ SU) as (EN & _). unfold concat. rewrite W2, WY, !mrphs_zlen, EN. split; [|split; [|auto]].
  - intros j Hj. destruct (HW j Hj) as [_ [G1 G2]]. destruct (su_mrph _ _ SU j) as [P G]. unfold word_place in P. split; [|congruence].
    intros Z. rewrite Z in G. destruct G; congruence.
  - intros j Hj. destruct (HW j Hj) as [M _]. destruct (su_mrph _ _ SU j) as [P _]. unfold word_place in P. congruence.
Qed.

Section Preprocessed.
Context `{E : RuleEnv} `{RM : RuleMatch}.

(** C27: Whatever the rules are: on a sentence whose morphemes have words and are numbered by their places, when
    [preprocess_mrph] returns, the text of the sentence and its reading are unchanged (the words of the new morphemes, one behind the
    other), the morphemes have not become more, they are numbered by their places again, and none of them is left without words. *)
Theorem preprocess_text : forall fuel rules parsed st st',
  (forall j, 0 <= j < Mrph_num (ru_sp st) -> m_num (mrph_data (ru_sp st) j) = j /\
     m_Goi (mrph_data (ru_sp st) j) <> EmptyString /\ m_Goi2 (mrph_data (ru_sp st) j) <> EmptyString) ->
  preprocess_mrph fuel rules parsed st = Ret st' ->
  concat m_Goi2 (mrphs (ru_sp st')) = concat m_Goi2 (mrphs (ru_sp st)) /\
  concat m_Yomi (mrphs (ru_sp st')) = concat m_Yomi (mrphs (ru_sp st)) /\
  zlen (mrphs (ru_sp st')) <= zlen (mrphs (ru_sp st)) /\
  forall j, 0 <= j < Mrph_num (ru_sp st') -> m_num (mrph_data (ru_sp st') j) = j /\
    m_Goi (mrph_data (ru_sp st') j) <> EmptyString /\ m_Goi2 (mrph_data (ru_sp st') j) <> EmptyString.
Proof.
  intros fuel rules parsed st st' HW E1. unfold preprocess_mrph in E1.
  destruct (assign_general_feature _ _ _ _ _ _ _ _) as [st1|] eqn:ER; [|discriminate]. apply (@general_rules_frame (with_parsed parsed E)) in ER.
  destruct (rules_keep_words _ _ ER HW) as (WF & NF & C1 & C2 & C3). clear ER HW.
  destruct parsed; [injection E1 as <-; rewrite C1, C2, C3; repeat (split; [reflexivity || lia|]); intros j Hj; split; [auto | now apply WF]|].
  pose proof (join_mrphs_spec (ru_sp st1) (ru_buf st1)) as S. unfold joins_as in S. cbn [app] in S.
  destruct (join_runs _ _) as [[ms buf']|] eqn:EJ; [|rewrite S in E1; [discriminate | intros j Hj; apply worded_kept, WF, Hj]].
  destruct S as (sp' & EQ & SD & SN); [intros j Hj; apply worded_kept, WF, Hj|]. rewrite EQ in E1. injection E1 as <-. cbn [ru_sp with_buffer].
  pose proof EJ as EJ'. apply join_runs_worded in EJ' as [FW FL]; [|rewrite runs_flat; now apply mrphs_worded]. rewrite runs_flat in FL.
  assert (T : forall word, (word = m_Goi \/ word = m_Yomi \/ word = m_Goi2) -> concat word (mrphs sp') = concat word (mrphs (ru_sp st1))).
  { intros word Hw. rewrite (concat_data word Hw _ _ SD). apply (join_runs_words word Hw) in EJ. now rewrite runs_flat in EJ. }
  pose proof (f_equal (@List.length _) SD) as SL. rewrite !length_map in SL.
  assert (LE : zlen (mrphs sp') <= zlen (mrphs (ru_sp st1))) by (unfold zlen; lia).
  rewrite <- C1, <- C2, <- C3, !T by auto. split; [reflexivity|]. split; [reflexivity|]. split; [exact LE|].
  intros j Hj. split; [|apply mrphs_worded; [now apply (worded_data ms) | exact Hj]].
  rewrite SN. apply NF. rewrite !mrphs_zlen in LE. lia.
Qed.
End Preprocessed.

(** ** On a concrete sentence *)
Definition join_example : SENTENCE_DATA :=
  set_Mrph_num 4 (set_mrph_data (fun i =>
    let word s rep f := set_m_num i (set_m_Imi ("代表表記:" ++ rep ++ " x")%string (set_m_Yomi s (set_m_Goi2 s (mrph_of s 6 f)))) in
    if i =? 0 then word "１" "１/いち" ["ALT-一"] else if i =? 1 then word "５" "５/ご" [] else if i =? 2 then word "の" "の/の" []
    else word "本" "本/ほん" []) SENTENCE_DATA_0).

(** A rule that joins digits. *)
Definition any_mrphs : REGEXPMRPH := set_rm_ast_flag AST_FLG RegexpMrphInitValue.
Definition digit : REGEXPMRPH := mkRM 0 0 0 [0] 0 [0] 0 [0] 0 [] 0 ["１"; "５"]%string [].
Definition join_rule : MrphRule := mkMR (Some [any_mrphs]) (Some [digit]) (Some [any_mrphs]) ["形態素連結-数詞"]%string.
Definition join_file : list GeneralRuleType := [mkGR PreProcessMorphRuleType (MrphRules [join_rule]) RLOOP_MRM RLOOP_BREAK_NONE LtoR].

Lemma preprocess_text_witness : exists st',
  @preprocess_mrph no_rule_env (@regexp_RuleMatch example_grammar text_tests) 9 join_file false (rules_start join_example) = Ret st' /\
  map m_Goi2 (mrphs (ru_sp st')) = ["１５"; "の"; "本"]%string /\
  concat m_Goi2 (mrphs (ru_sp st')) = concat m_Goi2 (mrphs join_example).
Proof.
  eexists. split; [vm_compute; reflexivity|]. split; [vm_compute; reflexivity|].
  refine (proj1 (@preprocess_text no_rule_env (@regexp_RuleMatch example_grammar text_tests) 9 join_file false (rules_start join_example) _ _ _)).
  - intros j Hj. cbn [ru_sp rules_start Mrph_num join_example set_Mrph_num] in Hj.
    assert (J : j = 0 \/ j = 1 \/ j = 2 \/ j = 3) by lia. destruct J as [->|[->|[->| ->]]]; (split; [reflexivity | split; discriminate]).
  - vm_compute. reflexivity.
Defined.

(** The sentence with the marks of the rule. *)
Definition marked_example : SENTENCE_DATA := upd_mrph 0 (set_m_f ["形態素連結-数詞"]%string) (upd_mrph 1 (set_m_f ["形態素連結-数詞"]%string) join_example).

Lemma join_mrphs_runs_witness : exists sp', join_mrphs marked_example EmptyString = Ret (sp', "代表表記"%string) /\
  map m_Goi (mrphs sp') = ["１５"; "の"; "本"]%string /\ map m_Imi (mrphs sp') = ["代表表記:１５/いちご x"; "代表表記:の/の x"; "代表表記:本/ほん x"]%string.
Proof.
  pose proof (join_mrphs_runs marked_example EmptyString) as T. destruct (join_runs (runs (mrphs marked_example)) EmptyString) as [[ms buf']|] eqn:E.
  - vm_compute in E. injection E as <- <-. destruct T as (sp' & E' & W & _).
    + intros j Hj. change (Mrph_num marked_example) with 4 in Hj.
      assert (J : j = 0 \/ j = 1 \/ j = 2 \/ j = 3) by lia. destruct J as [->|[->|[->| ->]]]; discriminate.
    + exists sp'. split; [exact E'|]. assert (G : map (fun w => fst (fst (fst (fst (fst w))))) (map word_data (mrphs sp')) = map m_Goi (mrphs sp') /\
        map (fun w => snd (fst w)) (map word_data (mrphs sp')) = map m_Imi (mrphs sp')) by (rewrite !map_map; split; reflexivity).
      destruct G as [<- <-]. rewrite W. split; reflexivity.
  - vm_compute in E. discriminate E.
Defined.
