(* ===== verification/Thesaurus.v ===== *)
(** * The semantic codes of bunsetsus and tags (src/system/thesaurus.c, lib_sm.c, lib_bgh.c)

    The content words of a bunsetsu or tag are looked up in a thesaurus, the longest run of words that ends
    with the head first ([get_bnst_code]); the forms of the head, its own and those of its
    alternatives, give one key each ([make_key_and_get_code]).  The data bases are parameters.  Fixed buffers are
    checked, warnings are left out; the cache of nouns ([check_noun_sm], Caches.v) is only
    read here. *)
From Stdlib Require Import ZArith List Bool String Ascii Lia RelationClasses.
Import ListNotations.
From S2P Require Import Prelude CStr Feature Sentence Units SemCode CheckFunction Regexp PredCase ChangeMrph Rules.
Open Scope string_scope.
Open Scope Z_scope.

(** [THESAURUS], the data bases of words and what the cache of nouns holds; [use_rn] is [OptUseRN != 0]. *)
Class Thesauri : Type := {
  th_case :: CaseEnv;
  th_check :: CheckEnv;
  th_exist : Z -> bool;
  th_code_size : Z -> Z;
  th_db : Z -> string -> option string;
  noun_cache : string -> option string;
  use_rn : bool
}.

Definition USE_BGH_ID : Z := 1.
Definition USE_NTT_ID : Z := 2.
Definition USE_SUFFIX_SM : Z := 8.
Definition USE_PREFIX_SM : Z := 16.
Definition USE_RN : Z := 32.
Definition THESAURUS_MAX : Z := 3.

Definition flagged (flag bit : Z) : bool := negb (Z.land flag bit =? 0).

(** ** One key *)

(** The codes of a string, [SM_CODE_SIZE] bytes each; a last one that is too short is read over its end. *)
Fixpoint sm_chunks (fuel : nat) (code : string) : res (list string) :=
  match fuel, code with
  | _, EmptyString => Ret []
  | O, _ => Err OutOfFuel
  | S f, _ =>
      if slen code <? Z.of_nat SM_CODE_SIZE then Err OutOfBounds
      else rest <- sm_chunks f (sdrop SM_CODE_SIZE code) ;; Ret (stake SM_CODE_SIZE code :: rest)
  end.

(** The parts of speech that get codes; [arg] is one more, 0 for none. *)
Definition noun_code (arg : Z) (c : string) : bool :=
  (negb (arg =? 0) && (first_byte c =? arg)) ||
  existsb (fun a => first_byte c =? chr a) ["3"; "4"; "5"; "6"; "7"; "9"; "a"]%char.

Section Codes.
Context `{T : Thesauri}.

Definition _get_ntt (cp : string) (arg : Z) : res (option string) :=
  match th_db USE_NTT_ID cp with
  | None => Ret None
  | Some code =>
      let code := stake (Z.to_nat (Z.of_nat SM_CODE_SIZE * SM_ELEMENT_MAX)) code in
      cs <- sm_chunks (String.length code) code ;;
      let proper c := first_byte c =? chr "2" in
      Ret (Some (String.concat EmptyString
        (if forallb proper cs then filter (fun c => proper c && negb (starts_with "2001030" c)) cs
         else filter (noun_code arg) cs)))
  end.

(** [get_code]: for another thesaurus the index must be in [THESAURUS]. *)
Definition get_code (cp : string) (arg th : Z) : res (option string) :=
  if th =? USE_NTT_ID then _get_ntt cp arg else Ret (th_db th cp).

(** [katakana2hiragana]: the first byte of each character, 0xa5, to 0xa4 (that is for EUC). *)
Fixpoint euc_katakana (fuel : nat) (s : string) : bool :=
  match fuel, s with
  | S f, String _ _ => (first_byte s =? 0xa5) && euc_katakana f (sdrop (Z.to_nat BYTES4CHAR) s)
  | _, _ => true
  end.
Fixpoint katakana2hiragana (fuel : nat) (s : string) : string :=
  match fuel, s with
  | S f, String c _ =>
      (String (if (first_byte s =? 0xa5)%Z then ascii_of_Z 0xa4 else c) (stake (Z.to_nat BYTES4CHAR - 1) (sdrop 1 s)) ++
       katakana2hiragana f (sdrop (Z.to_nat BYTES4CHAR) s))%string
  | _, _ => s
  end.

Definition get_str_code (cp : string) (flag : Z) : res (option string) :=
  let '(th, arg) :=
    if flagged flag USE_NTT_ID then
      (USE_NTT_ID, if flagged flag USE_SUFFIX_SM then chr "m" else if flagged flag USE_PREFIX_SM then chr "l" else 0)
    else (if flagged flag USE_BGH_ID then USE_BGH_ID else flag, 0) in
  match (if flagged flag USE_NTT_ID then noun_cache cp else None) with
  | Some code => Ret (Some code)
  | None =>
  if negb (within 0 th THESAURUS_MAX) then Err OutOfBounds
  else if negb (th_exist th) then Ret None
  else
    code <- get_code cp arg th ;;
    match code with
    | Some code => Ret (Some code)
    | None =>
        if flagged flag USE_RN then Ret None
        else if euc_katakana (String.length cp) cp
        then get_code (katakana2hiragana (String.length cp) cp) arg th
        else Ret None
    end
  end.

(** ** The keys of a head *)

(** [str_buffer], the codes found ([ret_buffer]) and the keys that had some ([used_key]). *)
Record key_state : Type := mkKS { str_buffer : string; ret_buffer : string; used_key : string }.

Definition with_str (s : string) (st : key_state) : key_state := mkKS s (ret_buffer st) (used_key st).

(** ナ形容詞: its ending is not looked up. *)
Definition na_adjective (m : MRPH_DATA) : res bool :=
  adjective <- class_is (m_Hinshi m) 0 "形容詞" ;;
  if adjective then
    match (if within 0 (m_Katuyou_Kata m) TYPE_NO then Type_name (m_Katuyou_Kata m) else None) with
    | Some name => Ret (existsb (str_eq name) ["ナ形容詞"; "ナ形容詞特殊"; "ナノ形容詞"])
    | None => Err NullDeref
    end
  else Ret false.

(** [add_rep_str] with [org_flag] TRUE: the form of a word behind the buffer, and its length; 0 when it does not fit. *)
Definition add_rep_str (m : MRPH_DATA) (flag : Z) (buffer : string) : res (Z * string) :=
  let rep := get_mrph_rep m in
  let rep_end rep :=
    if flagged flag USE_RN then
      match span_not " " rep with
      | (a, String _ _) => Some a
      | _ => match span_not dquote rep with (a, String _ _) => Some a | _ => None end
      end
    else match span_not "/" rep with (a, String _ _) => Some a | _ => None end in
  match (match rep with Some rep => rep_end rep | None => None end) with
  | Some a => Ret (if BNST_LENGTH_MAX <? slen buffer + slen a + 2 then (0, buffer) else (slen a, (buffer ++ a)%string))
  | None =>
      if BNST_LENGTH_MAX <? slen buffer + slen (m_Goi m) + 2 then Ret (0, buffer)
      else
        na <- na_adjective m ;;
        let add_len := slen (m_Goi m) - (if na then 2 else 0) in
        if add_len <? 0 then Err OutOfBounds
        else Ret (add_len, (buffer ++ stake (Z.to_nat add_len) (m_Goi m))%string)
  end.

(** The key is complete ([strt > end]).  [capacity]: the bytes of the codes that fit. *)
Definition lookup_key (capacity end_ flag : Z) (st : key_state) : res key_state :=
  if (0 <? end_) && str_eq (str_buffer st) "する" then Ret st
  else if str_eq (str_buffer st) EmptyString then Err OutOfBounds
  else
    let n := slen (str_buffer st) - 1 in
    let key := if str_eq (sdrop (Z.to_nat n) (str_buffer st)) "+" then stake (Z.to_nat n) (str_buffer st) else str_buffer st in
    code <- get_str_code key flag ;;
    match code with
    | None => Ret (with_str key st)
    | Some code =>
        let ret := (ret_buffer st ++ code)%string in
        if capacity <? slen ret then Err OutOfBounds
        else if BNST_LENGTH_MAX <? slen (used_key st) + slen key + 3 then Ret (mkKS key ret (used_key st))
        else Ret (mkKS key ret ((if str_eq (used_key st) EmptyString then EmptyString else used_key st ++ "|") ++ key)%string)
    end.

(** The alternatives of the head; [m] is the local morpheme they are read to.  [None]: the form of one does not fit.  The buffer is cut
    only behind a lookup. *)
Fixpoint alt_keys (capacity end_ flag : Z) (last_key : string) (f : FEATURE) (m : MRPH_DATA) (st : key_state)
    : res (bool * key_state) :=
  match f with
  | [] => Ret (true, st)
  | a :: f' =>
      if starts_with "ALT-" a then
        m <- read_alt (sdrop 4 a) m ;;
        ' (add_len, s) <- add_rep_str m flag (str_buffer st) ;;
        if add_len =? 0 then Ret (false, st)
        else if str_eq last_key s then alt_keys capacity end_ flag last_key f' m (with_str s st)
        else
          st <- lookup_key capacity end_ flag (with_str s st) ;;
          s <- cut_end add_len (str_buffer st) ;;
          alt_keys capacity end_ flag last_key f' m (with_str s st)
      else alt_keys capacity end_ flag last_key f' m st
  end.

(** The form before a change of the representative form (代表表記変更), for a head alone. *)
Definition original_key (capacity end_ flag : Z) (last_key : string) (f : FEATURE) (st : key_state) : res key_state :=
  match (if str_eq (str_buffer st) EmptyString then check_feature f "代表表記変更" else None) with
  | None => Ret st
  | Some cp =>
      if slen cp <? slen "代表表記変更:" then Err OutOfBounds
      else
        let s := skip "代表表記変更:" cp in
        if BNST_LENGTH_MAX <=? slen s then Err OutOfBounds
        else if str_eq last_key s then Ret (with_str s st)
        else st <- lookup_key capacity end_ flag (with_str s st) ;; Ret (with_str EmptyString st)
  end.

(** The head ([strt == end]). *)
Definition head_keys (sp : SENTENCE_DATA) (ptr capacity end_ flag : Z) (st : key_state) : res key_state :=
  m <- mrph_ref sp (ptr + end_) ;;
  ' (add_len, s) <- add_rep_str m flag (str_buffer st) ;;
  if add_len =? 0 then Ret st
  else
    st <- lookup_key capacity end_ flag (with_str s st) ;;
    let last_key := str_buffer st in
    s <- cut_end add_len (str_buffer st) ;;
    ' (ok, st) <- alt_keys capacity end_ flag last_key (m_f m) MRPH_DATA_0 (with_str s st) ;;
    if ok then original_key capacity end_ flag last_key (m_f m) st else Ret st.

(** The words before the head ([strt < end]), of the list. *)
Fixpoint make_key_and_get_code (sp : SENTENCE_DATA) (ptr capacity : Z) (is_ : list Z) (end_ flag : Z) (st : key_state) : res key_state :=
  match is_ with
  | [] => head_keys sp ptr capacity end_ flag st
  | i :: is_' =>
      m <- mrph_ref sp (ptr + i) ;;
      let buf := match (if flagged flag USE_RN then get_mrph_rep_from_f m false else None) with
                 | Some rep => rep
                 | None => m_Goi2 m
                 end in
      if BNST_LENGTH_MAX <? slen (str_buffer st) + slen buf + 3 then Ret st
      else
        let s := (str_buffer st ++ buf ++ (if flagged flag USE_RN then "+" else EmptyString))%string in
        st <- make_key_and_get_code sp ptr capacity is_' end_ flag (with_str s st) ;;
        s <- cut_end (slen buf) (str_buffer st) ;; Ret (with_str s st)
  end.

(** ** The codes of a bunsetsu or tag *)

(** [code_depth]: the place before the first star. *)
Definition code_depth (cp : string) (code_size : Z) : Z :=
  match find_up 1 code_size (fun i => byte_at cp (Z.to_nat i) =? star) with Some i => i - 1 | None => code_size - 1 end.

(** The places of the codes of a string. *)
Fixpoint code_tails (fuel : nat) (size : nat) (codes : string) : res (list string) :=
  match fuel, codes with
  | _, EmptyString => Ret []
  | O, _ => Err OutOfFuel
  | S f, _ =>
      if slen codes <? Z.of_nat size then Err OutOfBounds
      else rest <- code_tails f size (sdrop size codes) ;; Ret (codes :: rest)
  end.

(** [smp2smg(cpd, TRUE)]: the codes of a proper noun code, with those of side effects. *)
Fixpoint smg_codes (fuel : nat) (cp : string) : res string :=
  match fuel, cp with
  | _, EmptyString => Ret EmptyString
  | O, _ => Err OutOfFuel
  | S f, _ =>
      if slen cp <? Z.of_nat SM_CODE_SIZE then Err OutOfBounds
      else
        let rest := sdrop SM_CODE_SIZE cp in
        let more := if starts_with "/" rest then Some (sdrop 1 rest)
                    else if starts_with " side-effect" rest then
                      if starts_with "/" (sdrop 12 rest) then Some (sdrop 13 rest) else None
                    else match rest with String _ r => Some r | EmptyString => None end in
        match more with
        | Some r => codes <- smg_codes f r ;; Ret (stake SM_CODE_SIZE cp ++ codes)%string
        | None => Ret (stake SM_CODE_SIZE cp)
        end
  end.

Definition smp2smg (cpd : string) : res (option string) :=
  if negb SMP2SMGExist then Ret None
  else
    match _smp2smg cpd with
    | None => Ret None
    | Some start => codes <- smg_codes (String.length start) start ;; Ret (if str_eq codes EmptyString then None else Some codes)
    end.

(** [!strncmp(a + start, b + start, len)] *)
Definition same_bytes (start len : Z) (a b : string) : bool :=
  let part s := stake (Z.to_nat len) (sdrop (Z.to_nat start) s) in str_eq (part a) (part b).

Definition _cf_match_element (d p : string) (start len : Z) : res bool :=
  match Thesaurus with
  | USE_BGH =>
      ds <- code_tails (String.length d) BGH_CODE_SIZE d ;;
      ps <- code_tails (String.length p) BGH_CODE_SIZE p ;;
      Ret (existsb (fun d => existsb (same_bytes start len d) ps) ds)
  | USE_NTT =>
      ds <- code_tails (String.length d) SM_CODE_SIZE d ;;
      some_res (fun d =>
          if first_byte d =? chr "2" then
            code <- smp2smg d ;;
            match code with
            | None => Ret false
            | Some code => cs <- code_tails (String.length code) SM_CODE_SIZE code ;; Ret (existsb (fun c => same_bytes start len c p) cs)
            end
          else Ret (same_bytes start len d p)) ds
  | _ => Ret false
  end.

(** [bgh_code_match_for_sm]: the code [sm] is added when one of its BGH codes covers a code of the unit. *)
Definition bgh_code_match_for_sm (capacity : Z) (result_code sm : string) : res (bool * string) :=
  match sm2code_db sm with
  | None => Ret (false, result_code)
  | Some code =>
      cs <- code_tails (String.length code) BGH_CODE_SIZE code ;;
      hit <- some_res (fun c => _cf_match_element result_code c 0 (code_depth c (Z.of_nat BGH_CODE_SIZE) + 1)) cs ;;
      if hit then
        let r := (result_code ++ sm)%string in
        if capacity <? slen r then Err OutOfBounds else Ret (true, r)
      else Ret (false, result_code)
  end.

Definition sm_classes : list (string * string) :=
  [("sm-sub*****", "SM-主体"); ("sm-act*****", "SM-動作"); ("sm-per*****", "SM-人"); ("sm-loc*****", "SM-場所"); ("sm-org*****", "SM-組織")].

(** The classes of the BGH codes, as codes and as features. *)
Definition bgh_classes (capacity : Z) (code : string) (f : FEATURE) (buf : string) : res (string * FEATURE * string) :=
  fold_res (fun '(sm, fname) '(code, f, buf) =>
      ' (hit, code) <- bgh_code_match_for_sm capacity code sm ;;
      if (hit : bool) then let '(f, buf) := assign_cfeature buf f fname false in Ret (code, f, buf) else Ret (code, f, buf))
    sm_classes (code, f, buf).

(** The starts of the list, the longest run of words first, until one has a code. *)
Fixpoint try_starts (sp : SENTENCE_DATA) (ptr capacity : Z) (strts : list Z) (end_ flag : Z) (codes : string * string)
    : res (string * string) :=
  match strts with
  | [] => Ret codes
  | strt :: strts' =>
      st <- make_key_and_get_code sp ptr capacity (zrange strt end_) end_ flag (mkKS EmptyString (fst codes) (snd codes)) ;;
      let codes := (ret_buffer st, used_key st) in
      if str_eq (fst codes) EmptyString then try_starts sp ptr capacity strts' end_ flag codes else Ret codes
  end.

(** The last word that is looked up: the head, for BGH with する behind it. *)
Definition last_word (sp : SENTENCE_DATA) (b : BNST_DATA) (head flag : Z) : res Z :=
  let end_ := head - b_mrph_ptr b in
  if (flag =? USE_BGH_ID) && (head <? b_mrph_ptr b + b_mrph_num b - 1) then
    m <- mrph_ref sp (head + 1) ;;
    verb <- class_is (m_Hinshi m) 0 "動詞" ;;
    Ret (if verb && str_eq (m_Goi m) "する" then end_ + 1 else end_)
  else Ret end_.

(** The first start and the flags of the lookup: of a counter only the last word, as a suffix. *)
Definition first_start (sp : SENTENCE_DATA) (b : BNST_DATA) (head end_ flag : Z) : res (Z * Z) :=
  h <- mrph_ref sp head ;;
  let counter := (flag =? USE_NTT_ID) && has_feature (m_f h) "カウンタ" in
  Ret (if counter then end_ else if b_type b =? IS_TAG_DATA then b_settou_num b else 0,
       Z.lor flag (Z.lor (if counter then USE_SUFFIX_SM else 0) (if use_rn then USE_RN else 0))).

Definition code_capacity (flag : Z) : Z :=
  if flag =? USE_BGH_ID then EX_ELEMENT_MAX * Z.of_nat BGH_CODE_SIZE else SM_ELEMENT_MAX * Z.of_nat SM_CODE_SIZE.

Definition set_codes (flag : Z) (code : string) (b : BNST_DATA) : BNST_DATA :=
  if flag =? USE_BGH_ID then set_b_BGH_code code b else set_b_SM_code code b.
Definition set_code_num (flag n : Z) (b : BNST_DATA) : BNST_DATA :=
  if flag =? USE_BGH_ID then set_b_BGH_num n b else set_b_SM_num n b.

Definition get_bnst_code (sp : SENTENCE_DATA) (b : BNST_DATA) (flag : Z) (buf : string) : res (BNST_DATA * string) :=
  if negb (th_exist flag) then Ret (b, buf)
  else
    match b_head_ptr b with
    | None => Err NullDeref
    | Some head =>
        end_ <- last_word sp b head flag ;;
        ' (strt, flags) <- first_start sp b head end_ flag ;;
        ' (code, used) <- try_starts sp (b_mrph_ptr b) (code_capacity flag) (zrange strt (end_ + 1)) end_ flags (EmptyString, EmptyString) ;;
        if str_eq code EmptyString then Ret (set_codes flag EmptyString b, buf)
        else
          ' (code, f, buf) <- (if (flag =? USE_BGH_ID) && negb (str_contains "sm" code)
                               then bgh_classes (code_capacity flag) code (b_f b) buf else Ret (code, b_f b, buf)) ;;
          if th_code_size flag =? 0 then Err IntOverflow
          else
            let '(f, buf) := assign_cfeature buf f ((if (flag =? USE_BGH_ID)%Z then "BGH:" else "NTT:") ++ used)%string false in
            Ret (set_b_f f (set_code_num flag (slen code / th_code_size flag) (set_codes flag code b)), buf)
    end.

Definition get_bnst_code_all (sp : SENTENCE_DATA) (b : BNST_DATA) (buf : string) : res (BNST_DATA * string) :=
  fold_res (fun i '(b, buf) => get_bnst_code sp b i buf) (zrange 0 THESAURUS_MAX) (b, buf).
End Codes.

(** * Properties *)

(** ** The buffers *)

(** The buffers of the keys in [make_key_and_get_code] fit their arrays. *)
Record fits_keys (st : key_state) : Prop := {
  fk_str : slen (str_buffer st) < BNST_LENGTH_MAX;
  fk_used : slen (used_key st) < BNST_LENGTH_MAX
}.

Lemma slen_stake : forall n s, slen (stake n s) <= slen s.
Proof.
  unfold slen. intros n s. apply Nat2Z.inj_le. revert n. induction s as [|c s IH]; intros [|n]; cbn [stake String.length]; try lia.
  specialize (IH n). lia.
Qed.

Lemma slen_pos : forall s, 0 <= slen s.
Proof. intros. unfold slen. lia. Qed.

Section Bounds.
Context `{T : Thesauri} (capacity : Z).

Lemma cut_end_shorter : forall n s s', cut_end n s = Ret s' -> slen s' <= slen s.
Proof. intros n s s' H. unfold cut_end in H. destruct (_ <? _); [discriminate|]. injection H as <-. apply slen_stake. Qed.

Lemma add_rep_fits : forall m flag s n s', slen s < BNST_LENGTH_MAX -> add_rep_str m flag s = Ret (n, s') -> slen s' < BNST_LENGTH_MAX.
Proof.
  intros m flag s n s' HS H. unfold add_rep_str in H. cbv zeta in H.
  match type of H with match ?x with _ => _ end = _ => destruct x as [a|] end.
  - destruct (Z.ltb_spec BNST_LENGTH_MAX (slen s + slen a + 2)); injection H as _ <-; [exact HS|]. rewrite slen_app. lia.
  - destruct (Z.ltb_spec BNST_LENGTH_MAX (slen s + slen (m_Goi m) + 2)); [injection H as _ <-; exact HS|].
    destruct (na_adjective m) as [na|]; [|discriminate]. destruct (_ <? 0); [discriminate|]. injection H as _ <-.
    rewrite slen_app. pose proof (slen_stake (Z.to_nat (slen (m_Goi m) - (if na then 2 else 0))) (m_Goi m)). lia.
Qed.

Lemma with_str_fits : forall s st, fits_keys st -> slen s < BNST_LENGTH_MAX -> fits_keys (with_str s st).
Proof. intros s st [F1 F2] H. now split. Qed.

Lemma lookup_fits : forall end_ flag st st', fits_keys st -> lookup_key capacity end_ flag st = Ret st' -> fits_keys st'.
Proof.
  intros end_ flag st st' F H. unfold lookup_key in H. cbv zeta in H. destruct (_ && _); [now injection H as <-|].
  destruct (str_eq (str_buffer st) EmptyString); [discriminate|].
  set (key := if str_eq (sdrop _ _) "+" then _ else _) in H.
  assert (HK : slen key <= slen (str_buffer st)) by (unfold key; destruct (str_eq _ "+"); [apply slen_stake | lia]). clearbody key.
  destruct F as [F1 F3]. destruct (get_str_code key flag) as [[code|]|]; [|injection H as <-; split; cbn; auto; lia|discriminate].
  destruct (Z.ltb_spec capacity (slen (ret_buffer st ++ code)%string)) as [|HC]; [discriminate|].
  destruct (Z.ltb_spec BNST_LENGTH_MAX (slen (used_key st) + slen key + 3)); injection H as <-; split; cbn; auto; try lia.
  destruct (str_eq (used_key st) EmptyString); rewrite !slen_app; change (slen "|") with 1; change (slen "") with 0; pose proof (slen_pos (used_key st)); lia.
Qed.

Lemma alt_fits : forall end_ flag last f m st ok st', fits_keys st ->
  alt_keys capacity end_ flag last f m st = Ret (ok, st') -> fits_keys st'.
Proof.
  intros end_ flag last. induction f as [|a f IH]; intros m st ok st' F H; cbn [alt_keys] in H; [now injection H as _ <-|].
  destruct (starts_with _ a); [|now apply IH in H].
  destruct (read_alt _ m) as [m1|]; [|discriminate]. destruct (add_rep_str _ _ _) as [[n s]|] eqn:EA; [|discriminate].
  apply add_rep_fits in EA; [|exact (fk_str _ F)]. destruct (n =? 0); [now injection H as _ <-|].
  destruct (str_eq last s); [eapply IH; [|exact H]; now apply with_str_fits|].
  destruct (lookup_key _ _ _ _) as [st1|] eqn:EL; [|discriminate]. apply lookup_fits in EL; [|now apply with_str_fits].
  destruct (cut_end n _) as [s1|] eqn:EC; [|discriminate]. apply cut_end_shorter in EC. eapply IH; [|exact H].
  apply with_str_fits; [exact EL|]. pose proof (fk_str _ EL). lia.
Qed.

Lemma original_fits : forall end_ flag last f st st', fits_keys st ->
  original_key capacity end_ flag last f st = Ret st' -> fits_keys st'.
Proof.
  intros end_ flag last f st st' F H. unfold original_key in H.
  match type of H with match ?x with _ => _ end = _ => destruct x as [cp|] end; [|now injection H as <-].
  destruct (_ <? _); [discriminate|]. cbv zeta in H. destruct (Z.leb_spec BNST_LENGTH_MAX (slen (skip "代表表記変更:" cp))); [discriminate|].
  destruct (str_eq last _); [injection H as <-; now apply with_str_fits|].
  destruct (lookup_key _ _ _ _) as [st1|] eqn:EL; [|discriminate]. apply lookup_fits in EL; [|now apply with_str_fits].
  injection H as <-. now apply with_str_fits.
Qed.

Lemma head_fits : forall sp ptr end_ flag st st', fits_keys st ->
  head_keys sp ptr capacity end_ flag st = Ret st' -> fits_keys st'.
Proof.
  intros sp ptr end_ flag st st' F H. unfold head_keys in H. destruct (mrph_ref _ _) as [m|]; [|discriminate].
  destruct (add_rep_str _ _ _) as [[n s]|] eqn:EA; [|discriminate]. apply add_rep_fits in EA; [|exact (fk_str _ F)].
  destruct (n =? 0); [now injection H as <-|].
  destruct (lookup_key _ _ _ _) as [st1|] eqn:EL; [|discriminate]. apply lookup_fits in EL; [|now apply with_str_fits].
  cbv zeta in H. destruct (cut_end n _) as [s1|] eqn:EC; [|discriminate]. apply cut_end_shorter in EC.
  destruct (alt_keys _ _ _ _ _ _ _) as [[ok st2]|] eqn:EK; [|discriminate].
  apply alt_fits in EK; [|apply with_str_fits; [exact EL | pose proof (fk_str _ EL); lia]].
  destruct ok; [now apply original_fits in H | now injection H as <-].
Qed.

Lemma make_key_fits : forall sp ptr end_ flag is_ st st', fits_keys st ->
  make_key_and_get_code sp ptr capacity is_ end_ flag st = Ret st' -> fits_keys st'.
Proof.
  intros sp ptr end_ flag. induction is_ as [|i is_ IH]; intros st st' F H; cbn [make_key_and_get_code] in H; [now apply head_fits in H|].
  destruct (mrph_ref _ _) as [m|]; [|discriminate]. cbv zeta in H. match type of H with context [slen (str_buffer st) + slen ?b + 3] => set (buf := b) in H; clearbody buf end.
  destruct (Z.ltb_spec BNST_LENGTH_MAX (slen (str_buffer st) + slen buf + 3)); [now injection H as <-|].
  match type of H with match ?x with _ => _ end = _ => destruct x as [st1|] eqn:E1; [|discriminate] end.
  apply IH in E1; [|apply with_str_fits; [exact F|]; rewrite !slen_app; destruct (flagged flag USE_RN);
    [change (slen "+") with 1 | change (slen "") with 0]; lia].
  destruct (cut_end _ _) as [s|] eqn:EC; [|discriminate]. injection H as <-. apply cut_end_shorter in EC.
  apply with_str_fits; [exact E1|]. pose proof (fk_str _ E1). lia.
Qed.

(** ** The longest run of words *)

(** The run from [strt] on, with the keys used before. *)
Definition run_finds (sp : SENTENCE_DATA) (ptr end_ flag strt : Z) (used code used' : string) : Prop :=
  exists st, make_key_and_get_code sp ptr capacity (zrange strt end_) end_ flag (mkKS EmptyString EmptyString used) = Ret st /\
    ret_buffer st = code /\ used_key st = used' /\ fits_keys st.

(** No run of the list finds a code. *)
Definition none_finds (sp : SENTENCE_DATA) (ptr end_ flag : Z) (strts : list Z) : Prop :=
  forall strt, In strt strts -> exists used used', run_finds sp ptr end_ flag strt used EmptyString used'.

Lemma try_starts_spec : forall sp ptr end_ flag strts used code used', slen used < BNST_LENGTH_MAX ->
  try_starts sp ptr capacity strts end_ flag (EmptyString, used) = Ret (code, used') ->
  slen used' < BNST_LENGTH_MAX /\
  ((code = EmptyString /\ none_finds sp ptr end_ flag strts) \/
   (code <> EmptyString /\ exists pre strt post used0, strts = (pre ++ strt :: post)%list /\ none_finds sp ptr end_ flag pre /\
      run_finds sp ptr end_ flag strt used0 code used')).
Proof.
  intros sp ptr end_ flag strts. induction strts as [|strt strts IH]; intros used code used' HU H; cbn [try_starts fst snd] in H.
  - injection H as <- <-. split; [exact HU|]. left. split; [reflexivity | intros s []].
  - destruct (make_key_and_get_code _ _ _ _ _ _ _) as [st|] eqn:EM; [|discriminate].
    assert (F : fits_keys st) by (apply make_key_fits in EM; [exact EM | split; cbn; auto; reflexivity]).
    destruct (str_eq_spec (ret_buffer st) EmptyString) as [EE|EE].
    + rewrite EE in H. apply IH in H; [|exact (fk_used _ F)]. destruct H as [H1 H2]. split; [exact H1|].
      assert (S : exists u u', run_finds sp ptr end_ flag strt u EmptyString u') by (exists used, (used_key st), st; auto).
      destruct H2 as [[H2 H3]|[H2 (pre & s & post & u & H3 & H4 & H5)]].
      * left. split; [exact H2|]. intros s [<-|Hs]; [exact S | now apply H3].
      * right. split; [exact H2|]. exists (strt :: pre), s, post, u. split; [now rewrite H3|]. split; [|exact H5].
        intros s' [<-|Hs]; [exact S | now apply H4].
    + injection H as <- <-. split; [exact (fk_used _ F)|]. right. split; [exact EE|].
      exists [], strt, strts, used. split; [reflexivity|]. split; [intros s []|]. exists st. auto.
Qed.
End Bounds.

Definition codes_of (flag : Z) (b : BNST_DATA) : string := if flag =? USE_BGH_ID then b_BGH_code b else b_SM_code b.
Definition code_num (flag : Z) (b : BNST_DATA) : Z := if flag =? USE_BGH_ID then b_BGH_num b else b_SM_num b.

Lemma assigned_has : forall key fname f, In fname (assign_walk key fname false f).
Proof. intros key fname. induction f as [|a f IH]; cbn [assign_walk]; [now left|]. destruct (comp_feature a key); [now left | now right]. Qed.

Lemma assigned_from : forall key fname f x, In x (assign_walk key fname false f) -> In x f \/ x = fname.
Proof.
  intros key fname. induction f as [|a f IH]; intros x H; cbn [assign_walk] in H; [destruct H as [<-|[]]; now right|].
  destruct (comp_feature a key); (destruct H as [<-|H]; [|]); cbn [In]; auto. destruct (IH x H); auto.
Qed.

Lemma set_codes_at : forall flag code b, codes_of flag (set_codes flag code b) = code /\ b_f (set_codes flag code b) = b_f b.
Proof. intros flag code b. unfold codes_of, set_codes. destruct (flag =? USE_BGH_ID); repeat split. Qed.

(** A split of a range. *)
Lemma zrange_split : forall pre lo hi s post, zrange lo (hi + 1) = (pre ++ s :: post)%list -> lo <= s <= hi /\ pre = zrange lo s.
Proof.
  induction pre as [|x pre IH]; intros lo hi s post E; (destruct (Z.le_gt_cases (hi + 1) lo); [rewrite zrange_nil in E by lia; discriminate|]);
    rewrite zrange_cons in E by lia; cbn [app] in E.
  - injection E as -> _. split; [lia | now rewrite zrange_nil by lia].
  - injection E as -> E. apply IH in E as [E1 E2]. split; [lia|]. rewrite zrange_cons by lia. now rewrite <- E2.
Qed.

Section Codes.
Context `{T : Thesauri}.

(** The classes go behind the codes, and are features. *)
Lemma classes_behind : forall capacity code f buf code' f' buf', bgh_classes capacity code f buf = Ret (code', f', buf') ->
  (exists classes, code' = (code ++ classes)%string) /\ forall x, In x f' -> In x f \/ In x (map snd sm_classes).
Proof.
  intros capacity code f buf code' f' buf' H. unfold bgh_classes in H. generalize sm_classes, H. clear H. intros l. revert code f buf.
  induction l as [|[sm fname] l IH]; intros code f buf H; cbn [fold_res] in H.
  - injection H as <- <- _. split; [exists EmptyString; now rewrite sapp_nil_r | auto].
  - destruct (bgh_code_match_for_sm capacity code sm) as [[hit code1]|] eqn:E1; [|discriminate].
    assert (S : exists c, code1 = (code ++ c)%string).
    { unfold bgh_code_match_for_sm in E1. destruct (sm2code_db sm) as [cs|]; [|injection E1 as _ <-; exists EmptyString; now rewrite sapp_nil_r].
      destruct (code_tails _ _ cs) as [tails|]; [|discriminate]. destruct (some_res _ tails) as [[|]|]; [|injection E1 as _ <-; exists EmptyString; now rewrite sapp_nil_r|discriminate].
      cbv zeta in E1. destruct (capacity <? _); [discriminate|]. injection E1 as _ <-. now exists sm. }
    destruct S as [c ->]. destruct hit.
    + destruct (assign_cfeature _ _ _ _) as [f1 b1] eqn:EA. unfold assign_cfeature in EA. injection EA as EA _.
      apply IH in H. destruct H as [[c' ->] H]. split; [exists (c ++ c')%string; now rewrite sapp_assoc|].
      intros x Hx. cbn [map snd In]. destruct (H x Hx) as [Hf|Hf]; [|auto]. rewrite <- EA in Hf. apply assigned_from in Hf as [Hf|Hf]; auto.
    + apply IH in H. destruct H as [[c' ->] H]. split; [exists (c ++ c')%string; now rewrite sapp_assoc|].
      intros x Hx. cbn [map snd In]. destruct (H x Hx); auto.
Qed.

(** The key of the codes, as a feature. *)
Definition key_feature (flag : Z) (used : string) : string := ((if (flag =? USE_BGH_ID)%Z then "BGH:" else "NTT:") ++ used)%string.

(** C36: When [get_bnst_code] returns, the codes of the unit are those of the longest run of words up to its head that has any
    (behind them, for BGH, the classes they belong to), their number is the length divided by the size of one, and the keys
    are a feature, with the features of the classes; without a run that has codes the codes are empty and the features as before.
    Nothing else of the unit changes: [b'] is [b] with these codes, number and features.  The keys fit their buffers at each
    lookup.  (Codes beyond the end of their array are no result here: the program does not check them.) *)
Theorem get_bnst_code_longest : forall sp b flag buf b' buf', th_exist flag = true -> get_bnst_code sp b flag buf = Ret (b', buf') ->
  exists head end_ strt flags, b_head_ptr b = Some head /\ last_word sp b head flag = Ret end_ /\ first_start sp b head end_ flag = Ret (strt, flags) /\
    ((b' = set_codes flag EmptyString b /\ none_finds (code_capacity flag) sp (b_mrph_ptr b) end_ flags (zrange strt (end_ + 1))) \/
     (exists s used0 code classes used f, strt <= s <= end_ /\ none_finds (code_capacity flag) sp (b_mrph_ptr b) end_ flags (zrange strt s) /\
        run_finds (code_capacity flag) sp (b_mrph_ptr b) end_ flags s used0 code used /\ code <> EmptyString /\
        (flag <> USE_BGH_ID -> classes = EmptyString) /\
        b' = set_b_f f (set_code_num flag (slen (code ++ classes) / th_code_size flag) (set_codes flag (code ++ classes)%string b)) /\
        In (key_feature flag used) f /\
        forall x, In x f -> In x (b_f b) \/ x = key_feature flag used \/ (flag = USE_BGH_ID /\ In x (map snd sm_classes)))).
Proof.
  intros sp b flag buf b' buf' HE H. unfold get_bnst_code in H. rewrite HE in H. cbn [negb] in H.
  destruct (b_head_ptr b) as [head|]; [|discriminate]. destruct (last_word sp b head flag) as [end_|] eqn:EL; [|discriminate].
  destruct (first_start sp b head end_ flag) as [[strt flags]|] eqn:EF; [|discriminate].
  exists head, end_, strt, flags. split; [reflexivity|]. split; [exact EL|]. split; [exact EF|]. clear EL EF.
  set (cap := code_capacity flag) in *. clearbody cap.
  destruct (try_starts _ _ _ _ _ _ _) as [[code used]|] eqn:ET; [|discriminate].
  apply try_starts_spec in ET; [|reflexivity]. destruct ET as [_ ET].
  destruct (str_eq_spec code EmptyString) as [->|HN].
  { injection H as <- _. left. destruct ET as [[_ ET]|[ET _]]; [auto | contradiction]. }
  right. destruct ET as [[ET _]|[_ (pre & s & post & used0 & E1 & E2 & E3)]]; [contradiction|].
  apply zrange_split in E1 as [HS ->].
  match type of H with match ?x with _ => _ end = _ => destruct x as [[[code' f1] buf1]|] eqn:EC; [|discriminate] end.
  assert (C : exists classes, code' = (code ++ classes)%string /\ (flag <> USE_BGH_ID -> classes = EmptyString) /\
    forall x, In x f1 -> In x (b_f b) \/ (flag = USE_BGH_ID /\ In x (map snd sm_classes))).
  { assert (D : Ret (code, b_f b, buf) = Ret (code', f1, buf1) -> exists classes, code' = (code ++ classes)%string /\
      (flag <> USE_BGH_ID -> classes = EmptyString) /\ forall x, In x f1 -> In x (b_f b) \/ (flag = USE_BGH_ID /\ In x (map snd sm_classes))).
    { intros D. injection D as <- <- _. exists EmptyString. rewrite sapp_nil_r. auto. }
    destruct (Z.eqb_spec flag USE_BGH_ID) as [->|HF]; cbn [andb] in EC; [|now apply D]. destruct (negb _); [|now apply D].
    apply classes_behind in EC as [[classes ->] C]. exists classes. split; [reflexivity|]. split; [contradiction|].
    intros x Hx. destruct (C x Hx); auto. }
  destruct C as (classes & -> & C2 & C3). destruct (th_code_size flag =? 0); [discriminate|].
  fold (key_feature flag used) in H. destruct (assign_cfeature _ _ _ _) as [f2 buf2] eqn:EA. unfold assign_cfeature in EA. injection EA as EA _. injection H as <- _.
  exists s, used0, code, classes, used, f2. repeat (split; [solve [auto]|]). rewrite <- EA. split; [apply assigned_has|].
  intros x Hx. apply assigned_from in Hx as [Hx|Hx]; [destruct (C3 x Hx); auto | auto].
Qed.
End Codes.

(** ** What the program finds *)

(** UTF-8: no character begins with the byte 0xa5, so a key that is not in the thesaurus is not tried in hiragana. *)
Lemma no_hiragana_lookup : forall `{T : Thesauri} cp flag, first_byte cp <> 0xa5 -> cp <> EmptyString -> flagged flag USE_NTT_ID = false ->
  flagged flag USE_BGH_ID = true -> th_exist USE_BGH_ID = true -> get_str_code cp flag = Ret (th_db USE_BGH_ID cp).
Proof.
  intros T cp flag HB HN HF HG HE. unfold get_str_code. rewrite HF, HG, HE. cbn [within negb]. change (negb (within 0 USE_BGH_ID THESAURUS_MAX)) with false.
  cbn iota. change (get_code cp 0 USE_BGH_ID) with (Ret (th_db USE_BGH_ID cp)). destruct (th_db USE_BGH_ID cp); [reflexivity|].
  destruct (flagged flag USE_RN); [reflexivity|]. destruct cp as [|c cp]; [contradiction|]. cbn [String.length euc_katakana].
  destruct (Z.eqb_spec (first_byte (String c cp)) 0xa5); [contradiction | reflexivity].
Qed.

(** The thesaurus of the configuration file has the index 0; with representative forms the flag for them is taken
    for an index. *)
Lemma thesaurus_0_out_of_bounds : forall `{T : Thesauri} cp, get_str_code cp (Z.lor 0 USE_RN) = Err OutOfBounds.
Proof. reflexivity. Qed.

(** ** On concrete words *)
Definition noun_codes : list (string * string) :=
  [("大学", "3a"); ("楽しみ", "3b"); ("音楽", "3c"); ("娯楽", "3d"); ("音楽娯楽", "3e")]%string.

(** The codes, filled up to twelve bytes. *)
Definition noun_thesaurus : Thesauri := {|
  th_case := no_case; th_check := bare_env; th_exist := fun th => th =? USE_NTT_ID; th_code_size := fun _ => 12;
  th_db := fun th key => if th =? USE_NTT_ID then option_map (fun '(_, c) => (c ++ "0000000000")%string) (find (fun '(k, _) => str_eq k key) noun_codes) else None;
  noun_cache := fun _ => None; use_rn := false |}.

Definition compound : BNST_DATA := set_b_head_ptr (Some 1) (set_b_mrph_num 2 BNST_DATA_0).

(** 京都大学 is not in the thesaurus, 大学 is. *)
Lemma get_bnst_code_longest_witness : exists b' buf', @get_bnst_code noun_thesaurus match_example compound USE_NTT_ID EmptyString = Ret (b', buf') /\
  b_SM_code b' = "3a0000000000" /\ b_f b' = ["NTT:大学"] /\ unit_place b' = unit_place compound.
Proof.
  destruct (@get_bnst_code noun_thesaurus match_example compound USE_NTT_ID EmptyString) as [[b' buf']|] eqn:E; [|vm_compute in E; discriminate E].
  pose proof (@get_bnst_code_longest noun_thesaurus match_example compound USE_NTT_ID EmptyString b' buf' eq_refl E) as (h & e & s & fl & _ & _ & _ & P).
  exists b', buf'. split; [reflexivity|]. split; [|split].
  - vm_compute in E. injection E as <- _. reflexivity.
  - vm_compute in E. injection E as <- _. reflexivity.
  - destruct P as [[-> _]|(s0 & u & c & cl & us & f & _ & _ & _ & _ & _ & -> & _)]; reflexivity.
Defined.

(** The word has three readings; the second one has the form of the first. *)
Definition ambiguous_word : SENTENCE_DATA :=
  set_mrph_data (fun _ => mrph_of "楽しみ" 6 ["ALT-楽-らく-楽しみ-6-0-0-0-NIL"; "ALT-楽-らく-音楽-6-0-0-0-NIL"; "ALT-楽-らく-娯楽-6-0-0-0-NIL"])
    (set_Mrph_num 1 SENTENCE_DATA_0).

(** The buffer is not cut behind the reading that needs no lookup: the keys of the ones after it begin with its form, and the
    codes of 音楽 and 娯楽 are not found. *)
Lemma repeated_form_spoils_keys : exists b' buf',
  @get_bnst_code noun_thesaurus ambiguous_word (set_b_head_ptr (Some 0) (set_b_mrph_num 1 BNST_DATA_0)) USE_NTT_ID EmptyString = Ret (b', buf') /\
  b_SM_code b' = "3b0000000000" /\ b_f b' = ["NTT:楽しみ"].
Proof. eexists _, _. split; [vm_compute; reflexivity|]. split; reflexivity. Qed.

(** Each reading of a word adds its codes to the array, which has room for those of one lookup: two readings with so many codes
    run over its end. *)
Definition many_codes : string := String.concat EmptyString (repeat "3a0000000000"%string (Z.to_nat SM_ELEMENT_MAX)).
Definition full_thesaurus : Thesauri := {|
  th_case := no_case; th_check := bare_env; th_exist := fun th => th =? USE_NTT_ID; th_code_size := fun _ => 12;
  th_db := fun th key => if existsb (str_eq key) ["楽しみ"; "音楽"] then Some many_codes else None;
  noun_cache := fun _ => None; use_rn := false |}.
Definition two_readings (alts : FEATURE) : SENTENCE_DATA := set_mrph_data (fun _ => mrph_of "楽しみ" 6 alts) (set_Mrph_num 1 SENTENCE_DATA_0).

Lemma codes_overflow : let codes alts := @get_bnst_code full_thesaurus (two_readings alts)
    (set_b_head_ptr (Some 0) (set_b_mrph_num 1 BNST_DATA_0)) USE_NTT_ID EmptyString in
  (exists b' buf', codes [] = Ret (b', buf') /\ slen (b_SM_code b') = code_capacity USE_NTT_ID) /\
  codes ["ALT-音楽-おんがく-音楽-6-0-0-0-NIL"]%string = Err OutOfBounds.
Proof. split; [eexists _, _; split; [vm_compute; reflexivity | vm_compute; reflexivity] | vm_compute; reflexivity]. Qed.
