(* ===== verification/Double.v ===== *)
(** * Floating-point numbers of C

    [double] is IEEE binary64 and [float] is binary32, both as [spec_float] of the Standard Library, rounded to the
    nearest even.  A [float] that meets a [double] is promoted first.  The comparisons are total preorders on what is
    not NaN; a comparison with NaN is false. *)
From Stdlib Require Import ZArith SpecFloat Bool Lia.
From S2P Require Import Prelude.

Definition double : Type := spec_float.

Definition d_nan : double := S754_nan.
Definition d_add : double -> double -> double := SFadd 53 1024.
Definition d_div : double -> double -> double := SFdiv 53 1024.
Definition f_mul : spec_float -> spec_float -> spec_float := SFmul 24 128.
Definition d_sqrt : double -> double := SFsqrt 53 1024.
Definition d_lt : double -> double -> bool := SFltb.
Definition d_eq : double -> double -> bool := SFeqb.
Definition d_of_int (n : Z) : double := binary_normalize 53 1024 n 0 false.

(** A decimal constant: [n] over a power of ten. *)
Definition d_const (n den : Z) : double := d_div (d_of_int n) (d_of_int den).

(** [>=] is not the negation of [<]: with NaN both are false. *)
Definition d_ge (a b : double) : bool := SFleb b a.

(** ** [float] *)
Definition float : Type := spec_float.

Definition f_of_int (n : Z) : float := binary_normalize 24 128 n 0 false.
Definition f_div : float -> float -> float := SFdiv 24 128.

Definition f_of_double (x : double) : float :=
  match x with S754_finite s m e => binary_round 24 128 s m e | _ => x end.

Definition d_of_float (x : float) : double :=
  match x with S754_finite s m e => binary_round 53 1024 s m e | _ => x end.

(** [(int)x]: truncation; undefined when the result does not fit. *)
Definition d_to_int (x : double) : res Z :=
  match x with
  | S754_zero _ => Ret 0
  | S754_finite s m e =>
      let n := if 0 <=? e then Zpos m * 2 ^ e else Zpos m / 2 ^ (- e) in
      let n := if s then - n else n in
      if (- 2 ^ 31 <=? n) && (n <? 2 ^ 31) then Ret n else Err IntOverflow
  | _ => Err IntOverflow
  end.

(** * The order *)

(** Comparing two numbers is comparing these triples lexicographically. *)
Definition d_key (x : double) : Z * Z * Z :=
  match x with
  | S754_infinity s => (if s then -2 else 2, 0, 0)
  | S754_finite s m e => if s then (-1, - e, - Zpos m) else (1, e, Zpos m)
  | _ => (0, 0, 0)
  end.

Definition is_nan (x : double) : bool := match x with S754_nan => true | _ => false end.

Definition lex_lt (a b : Z * Z * Z) : Prop :=
  let '(a1, a2, a3) := a in let '(b1, b2, b3) := b in a1 < b1 \/ (a1 = b1 /\ (a2 < b2 \/ (a2 = b2 /\ a3 < b3))).

Lemma d_compare : forall x y, is_nan x = false -> is_nan y = false ->
  (d_lt x y = true <-> lex_lt (d_key x) (d_key y)) /\ (d_eq x y = true <-> d_key x = d_key y).
Proof.
  intros x y HX HY. unfold d_lt, d_eq, SFltb, SFeqb, lex_lt.
  destruct x as [sx|sx| |sx mx ex], y as [sy|sy| |sy my ey]; try discriminate HX; try discriminate HY;
    cbn [SFcompare d_key]; try (destruct sx); try (destruct sy); try (split; split; intros H; (discriminate H || reflexivity || lia || congruence));
    change (Pos.compare_cont Eq mx my) with (Pos.compare mx my);
    destruct (Z.compare_spec ex ey); try destruct (Pos.compare_spec mx my); cbn [CompOpp];
    (split; split; intros HC; try discriminate HC; try reflexivity; try injection HC; intros; subst; try lia; f_equal; lia).
Qed.

Lemma d_lt_nan : forall x y, d_lt x y = true -> is_nan x = false /\ is_nan y = false.
Proof. intros [?|?| |? ? ?] [?|?| |? ? ?] H; try discriminate H; split; reflexivity. Qed.

Lemma d_eq_nan : forall x y, d_eq x y = true -> is_nan x = false /\ is_nan y = false.
Proof. intros [?|?| |? ? ?] [?|?| |? ? ?] H; try discriminate H; split; reflexivity. Qed.

Lemma lex_lt_trans : forall a b c, lex_lt a b -> lex_lt b c -> lex_lt a c.
Proof. intros [[a1 a2] a3] [[b1 b2] b3] [[c1 c2] c3]. unfold lex_lt. lia. Qed.

Lemma lex_lt_irrefl : forall a, ~ lex_lt a a.
Proof. intros [[a1 a2] a3]. unfold lex_lt. lia. Qed.

Lemma d_lt_trans : forall x y z, d_lt x y = true -> d_lt y z = true -> d_lt x z = true.
Proof.
  intros x y z H1 H2. destruct (d_lt_nan _ _ H1) as [NX NY]. destruct (d_lt_nan _ _ H2) as [_ NZ].
  apply (d_compare x z NX NZ). apply (d_compare x y NX NY) in H1. apply (d_compare y z NY NZ) in H2. exact (lex_lt_trans _ _ _ H1 H2).
Qed.

Lemma d_lt_irrefl : forall x, d_lt x x = false.
Proof.
  intros x. destruct (d_lt x x) eqn:H; [|reflexivity]. destruct (d_lt_nan _ _ H) as [N _]. apply (d_compare x x N N) in H.
  now apply lex_lt_irrefl in H.
Qed.

(** Equal numbers compare alike. *)
Lemma d_eq_lt : forall x y z, d_eq x y = true -> d_lt x z = d_lt y z /\ d_lt z x = d_lt z y.
Proof.
  intros x y z H. destruct (d_eq_nan _ _ H) as [NX NY]. apply (d_compare x y NX NY) in H. destruct (is_nan z) eqn:NZ.
  - destruct z; try discriminate NZ. clear. destruct x, y; split; reflexivity.
  - pose proof (proj1 (d_compare x z NX NZ)). pose proof (proj1 (d_compare y z NY NZ)). pose proof (proj1 (d_compare z x NZ NX)).
    pose proof (proj1 (d_compare z y NZ NY)). rewrite H in *. split; apply eq_true_iff_eq; tauto.
Qed.

Lemma d_eq_sym : forall x y, d_eq x y = d_eq y x.
Proof.
  intros x y. apply eq_true_iff_eq. split; intros H; destruct (d_eq_nan _ _ H) as [N1 N2]; apply d_compare in H; try assumption; apply d_compare; congruence.
Qed.

Lemma d_eq_trans : forall x y z, d_eq x y = true -> d_eq y z = true -> d_eq x z = true.
Proof.
  intros x y z H1 H2. destruct (d_eq_nan _ _ H1) as [NX NY]. destruct (d_eq_nan _ _ H2) as [_ NZ].
  apply d_compare in H1, H2; try assumption. apply d_compare; congruence.
Qed.

Lemma d_eq_refl : forall x, is_nan x = false -> d_eq x x = true.
Proof. intros x N. now apply d_compare. Qed.

(** Of two numbers one is smaller or they are equal. *)
Lemma d_total : forall x y, is_nan x = false -> is_nan y = false -> d_lt x y = true \/ d_eq x y = true \/ d_lt y x = true.
Proof.
  intros x y NX NY. pose proof (d_compare x y NX NY) as [H1 H2]. pose proof (d_compare y x NY NX) as [H3 _]. rewrite H1, H2, H3.
  destruct (d_key x) as [[a1 a2] a3], (d_key y) as [[b1 b2] b3]. unfold lex_lt.
  assert (D : (a1 < b1 \/ a1 = b1 /\ (a2 < b2 \/ a2 = b2 /\ a3 < b3)) \/ (a1 = b1 /\ a2 = b2 /\ a3 = b3) \/
    (b1 < a1 \/ b1 = a1 /\ (b2 < a2 \/ b2 = a2 /\ b3 < a3))) by lia.
  destruct D as [D|[(-> & -> & ->)|D]]; auto.
Qed.

Lemma d_lt_eq : forall x y, d_lt x y = true -> d_eq x y = false.
Proof.
  intros x y H. destruct (d_lt_nan _ _ H) as [NX NY]. destruct (d_eq x y) eqn:E; [|reflexivity]. apply d_compare in H, E; try assumption.
  rewrite E in H. now apply lex_lt_irrefl in H.
Qed.

Example d_one_tenth : d_add (d_const 1 10) (d_const 2 10) = S754_finite false 5404319552844596 (-54).
Proof. vm_compute. reflexivity. Qed.

Example d_trunc : d_to_int (d_const (-275) 100) = Ret (-2).
Proof. vm_compute. reflexivity. Qed.
