(* ===== verification/Rounding.v ===== *)
(** * Rounding keeps what is at most seven below eight

    The program multiplies a similarity, a [float] from 0 to 1, by 7, promotes the product to a [double] and truncates it to the
    index of a table (src/system/case_match.c, [elmnt_match_score]).  Rounding to the nearest may go up, but not as far as
    8: a number of a binary format is [m * 2 ^ e], and one rounding adds at most one to [m]. *)
From Stdlib Require Import ZArith SpecFloat Bool Lia.
From S2P Require Import Prelude Double.
Open Scope Z_scope.

(** ** Shifting to the right is dividing by a power of two *)
Lemma shr_1_half : forall mrs, 0 <= shr_m mrs -> shr_m (shr_1 mrs) = shr_m mrs / 2.
Proof.
  intros [m r s] H. cbn in H |- *. destruct m as [|[p|p|]|p]; cbn; try reflexivity; try lia.
  - rewrite Pos2Z.inj_xI. apply Z.div_unique with 1; lia.
  - rewrite Pos2Z.inj_xO. apply Z.div_unique with 0; lia.
Qed.

Lemma shr_1_pos : forall mrs, 0 <= shr_m mrs -> 0 <= shr_m (shr_1 mrs).
Proof. intros mrs H. rewrite shr_1_half by exact H. apply Z.div_pos; lia. Qed.

Lemma iter_shr : forall n mrs, 0 <= shr_m mrs -> shr_m (iter_pos shr_1 n mrs) = shr_m mrs / 2 ^ Zpos n.
Proof.
  assert (D : forall m a b, 0 <= a -> 0 <= b -> m / 2 ^ a / 2 ^ b = m / 2 ^ (a + b)).
  { intros m a b Ha Hb. rewrite Z.div_div by lia. now rewrite <- Z.pow_add_r. }
  induction n as [n IH|n IH|]; intros mrs H; cbn [iter_pos].
  - pose proof (shr_1_pos mrs H) as H1. assert (H2 : 0 <= shr_m (iter_pos shr_1 n (shr_1 mrs))) by (rewrite IH by exact H1; apply Z.div_pos; lia).
    rewrite IH, IH, shr_1_half by assumption. change 2 with (2 ^ 1) at 1. rewrite !D by lia. f_equal. f_equal. lia.
  - assert (H2 : 0 <= shr_m (iter_pos shr_1 n mrs)) by (rewrite IH by exact H; apply Z.div_pos; lia).
    rewrite IH, IH by assumption. rewrite D by lia. f_equal. f_equal. lia.
  - now apply shr_1_half.
Qed.

Lemma shr_m_of_loc : forall m l, shr_m (shr_record_of_loc m l) = m.
Proof. intros m [|[]]; reflexivity. Qed.

Lemma digits_log2 : forall p, Zpos (digits2_pos p) = Z.log2 (Zpos p) + 1.
Proof.
  induction p as [p IH|p IH|]; cbn [digits2_pos]; [..|reflexivity]; rewrite Pos2Z.inj_succ, IH.
  - rewrite Pos2Z.inj_xI, Z.log2_succ_double; lia.
  - rewrite Pos2Z.inj_xO, Z.log2_double; lia.
Qed.

(** ** Below a bound *)

(** [m * 2 ^ e <= C / 2 ^ 21], for negative exponents *)
Definition scaled_le (C m e : Z) : Prop := 0 <= m /\ e <= -21 /\ m * 2 ^ 21 <= C * 2 ^ (- e).

(** A shift by [n] on exponents below -21 keeps the bound. *)
Lemma scaled_shift : forall C m e n, scaled_le C m e -> 0 <= C -> 0 <= n -> e + n <= -21 -> scaled_le C (m / 2 ^ n) (e + n).
Proof.
  intros C m e n (Hm & He & HC) PC Hn Hb. pose proof (Z.pow_pos_nonneg 2 n ltac:(lia) Hn) as Pn. split; [apply Z.div_pos; lia|]. split; [exact Hb|].
  apply Z.mul_le_mono_pos_r with (2 ^ n); [exact Pn|]. rewrite <- (Z.mul_assoc C), <- Z.pow_add_r by lia. replace (- (e + n) + n) with (- e) by lia.
  pose proof (Z.mul_div_le m (2 ^ n) Pn). nia.
Qed.

Lemma scaled_digits : forall C m e, scaled_le C m e -> C < 2 ^ 24 -> Zdigits2 m + e <= 3.
Proof.
  intros C m e (Hm & He & HC) BC. destruct m as [|p|p]; [cbn; lia | | lia]. cbn [Zdigits2]. rewrite digits_log2.
  pose proof (Z.log2_spec (Zpos p) ltac:(lia)) as [L _]. pose proof (Z.pow_pos_nonneg 2 (- e) ltac:(lia) ltac:(lia)) as P.
  assert (H : 2 ^ Z.log2 (Zpos p) < 2 ^ (3 - e)).
  { replace (3 - e) with (3 + - e) by lia. rewrite Z.pow_add_r by lia. change (2 ^ 24) with 16777216 in BC. change (2 ^ 21) with 2097152 in HC. change (2 ^ 3) with 8. nia. }
  apply Z.pow_lt_mono_r_iff in H; lia.
Qed.

Section Format.
Context (prec emax : Z) (wide : 24 <= prec) (high : -21 <= emax - prec).

Lemma shr_fexp_scaled : forall C m e l, scaled_le C m e -> 0 <= C < 2 ^ 24 ->
  let '(mrs, e') := shr_fexp prec emax m e l in scaled_le C (shr_m mrs) e'.
Proof.
  intros C m e l H BC. pose proof (scaled_digits C m e H ltac:(lia)) as D. unfold shr_fexp, shr. destruct (fexp prec emax (Zdigits2 m + e) - e) as [|n|n] eqn:N;
    try (rewrite shr_m_of_loc; exact H).
  rewrite iter_shr by (rewrite shr_m_of_loc; apply H). rewrite shr_m_of_loc. apply scaled_shift; [exact H | lia | lia|].
  unfold fexp, emin in N. destruct H as (_ & He & _). lia.
Qed.

Lemma nearest_up : forall m l, m <= round_nearest_even m l <= m + 1.
Proof. intros m [|[]]; cbn; try lia. destruct (Z.even m); lia. Qed.

Lemma scaled_up : forall C m e m', scaled_le C m e -> m <= m' <= m + 1 -> scaled_le (C + 1) m' e.
Proof.
  intros C m e m' (Hm & He & HC) H. split; [lia|]. split; [exact He|]. assert (2 ^ 21 <= 2 ^ (- e)) by (apply Z.pow_le_mono_r; lia). nia.
Qed.

(** One rounding adds at most [1 / 2 ^ 21]. *)
Lemma round_scaled : forall C m e l, scaled_le C m e -> 0 <= C < 2 ^ 24 - 1 ->
  match binary_round_aux prec emax false m e l with S754_zero _ => True | S754_finite s m' e' => s = false /\ scaled_le (C + 1) (Zpos m') e' | _ => False end.
Proof.
  intros C m e l H BC. unfold binary_round_aux. pose proof (shr_fexp_scaled C m e l H ltac:(lia)) as H1. destruct (shr_fexp prec emax m e l) as [mrs e1].
  pose proof (scaled_up C _ e1 _ H1 (nearest_up (shr_m mrs) (loc_of_shr_record mrs))) as H2.
  pose proof (shr_fexp_scaled (C + 1) _ e1 loc_Exact H2 ltac:(lia)) as H3. destruct (shr_fexp prec emax (round_nearest_even _ _) e1 loc_Exact) as [mrs2 e2].
  destruct (shr_m mrs2) as [|p|p] eqn:M; [exact I | | destruct H3; lia]. replace (e2 <=? emax - prec) with true by (destruct H3 as (_ & ? & _); lia). now split.
Qed.

Lemma shl_scaled : forall C p e e', scaled_le C (Zpos p) e -> let '(q, d) := shl_align p e e' in scaled_le C (Zpos q) d.
Proof.
  intros C p e e' (Hm & He & HC). unfold shl_align. destruct (e' - e) as [|d|d] eqn:E; try (split; [lia|]; split; assumption).
  assert (S : forall k q, Zpos (Pos.iter xO q k) = Zpos q * 2 ^ Zpos k).
  { clear. intros k q. induction k as [|k IH] using Pos.peano_ind; [cbn [Pos.iter]; lia|]. rewrite Pos.iter_succ, Pos2Z.inj_xO, IH, Pos2Z.inj_succ, Z.pow_succ_r; lia. }
  split; [lia|]. split; [lia|]. rewrite S. replace (- e') with (- e + Zpos d) by lia. rewrite Z.pow_add_r by lia. nia.
Qed.

Lemma round_pos_scaled : forall C p e, scaled_le C (Zpos p) e -> 0 <= C < 2 ^ 24 - 1 ->
  match binary_round prec emax false p e with S754_zero _ => True | S754_finite s m' e' => s = false /\ scaled_le (C + 1) (Zpos m') e' | _ => False end.
Proof.
  intros C p e H BC. unfold binary_round. pose proof (shl_scaled C p e (fexp prec emax (Zpos (digits2_pos p) + e)) H) as S.
  destruct (shl_align p e _) as [q d]. now apply round_scaled.
Qed.
End Format.

(** ** Seven times a number from 0 to 1 *)

(** A [float] of its format is at most 1 exactly when its mantissa is at most [2 ^ (- e)]. *)
Lemma unit_mantissa : forall m e, valid_binary 24 128 (S754_finite false m e) = true -> SFleb (S754_finite false m e) (f_of_int 1) = true -> e <= -23 /\ Zpos m <= 2 ^ (- e).
Proof.
  intros m e V L. cbn [valid_binary] in V. apply andb_true_iff in V as [V _]. apply Z.eqb_eq in V. unfold fexp, emin in V. rewrite digits_log2 in V.
  change (f_of_int 1) with (S754_finite false 8388608 (-23)) in L. unfold SFleb, SFcompare in L.
  pose proof (Z.log2_spec (Zpos m) ltac:(lia)) as [_ U]. destruct (Z.compare_spec e (-23)) as [->|E|E]; [| |discriminate].
  - change (Pos.compare_cont Eq m 8388608) with (Pos.compare m 8388608) in L. destruct (Pos.compare_spec m 8388608) as [->|X|X]; [| |discriminate]; cbn; lia.
  - split; [lia|]. assert (2 ^ Z.succ (Z.log2 (Zpos m)) <= 2 ^ (- e)) by (apply Z.pow_le_mono_r; lia). lia.
Qed.

(** The index of a similarity from 0 to 1 is from 0 to 7. *)
Lemma seven_times_index : forall s, valid_binary 24 128 s = true -> SFleb (f_of_int 0) s = true -> SFleb s (f_of_int 1) = true ->
  exists k, d_to_int (d_of_float (f_mul s (f_of_int 7))) = Ret k /\ 0 <= k <= 7.
Proof.
  intros s V Z0 O1. destruct s as [b|b| |b m e]; try (destruct b; discriminate); try discriminate; [exists 0; now split|]. destruct b; [discriminate Z0|].
  destruct (unit_mantissa m e V O1) as [He Hm]. change (f_of_int 7) with (S754_finite false 14680064 (-21)). unfold f_mul, SFmul. cbn [xorb].
  assert (S : scaled_le (7 * 2 ^ 21) (Zpos (m * 14680064)) (e + -21)).
  { split; [lia|]. split; [lia|]. replace (- (e + -21)) with (21 + - e) by lia. rewrite Z.pow_add_r by lia. change (2 ^ 21) with 2097152. lia. }
  pose proof (round_scaled 24 128 ltac:(lia) ltac:(lia) _ _ _ loc_Exact S ltac:(lia)) as R.
  destruct (binary_round_aux 24 128 false _ _ _) as [b|b| |b m1 e1]; try contradiction; [exists 0; now split|]. destruct R as [-> R]. cbn [d_of_float].
  pose proof (round_pos_scaled 53 1024 ltac:(lia) ltac:(lia) _ _ _ R ltac:(lia)) as R2.
  destruct (binary_round 53 1024 false m1 e1) as [b|b| |b m2 e2]; try contradiction; [exists 0; now split|]. destruct R2 as [-> (_ & E2 & B2)].
  cbn [d_to_int]. replace (0 <=? e2) with false by lia. pose proof (Z.pow_pos_nonneg 2 (- e2) ltac:(lia) ltac:(lia)) as P.
  assert (K : 0 <= Zpos m2 / 2 ^ (- e2) <= 7).
  { split; [apply Z.div_pos; lia|]. apply Z.lt_succ_r, Z.div_lt_upper_bound; [exact P|]. change (2 ^ 21) with 2097152 in B2. nia. }
  exists (Zpos m2 / 2 ^ (- e2)). split; [|exact K]. replace (- 2 ^ 31 <=? Zpos m2 / 2 ^ (- e2)) with true by lia. replace (Zpos m2 / 2 ^ (- e2) <? 2 ^ 31) with true by lia. reflexivity.
Qed.
