(* ===== verification/CaseData.v ===== *)
(** * Case frames and their correspondences (src/system/const.h, with the cases of case_analysis.c)

    The structures of the case analysis: [CASE_FRAME] for the input and for the dictionary, [LIST] for a correspondence,
    [CF_MATCH_MGR] for the best ones of one frame and [CF_PRED_MGR] for a predicate.  The fields are those that the
    matching reads; pointers to frames and basic phrases are their values.  An array that ends with
    [END_M] is the list before it. *)
From Stdlib Require Import ZArith List Bool String Lia.
Import ListNotations.
From S2P Require Import Prelude CStr Feature Sentence Regexp PredCase Double.
Open Scope string_scope.
Open Scope list_scope.
Open Scope Z_scope.

Definition CF_ELEMENT_MAX : Z := 24.
Definition MAX_MATCH_MAX : Z := 10.
Definition CMM_MAX : Z := 5.
Definition UNASSIGNED : Z := -1.
Definition NIL_ASSIGNED : Z := -2.
Definition MATCH_SUBJECT : Z := -1.
Definition MATCH_NONE : Z := -2.
Definition CF_PRED : Z := 1.
Definition CF_NOUN : Z := 2.
Definition CF_SUM : Z := 1.
Definition SEMANTIC_MARKER : Z := 1.
Definition EXAMPLE : Z := 2.
Definition CASE_MATCH_FAILURE_SCORE : Z := -2.
Definition CASE_MATCH_FAILURE_PROB : Z := -1001.

(** ** The structures *)
Record CASE_FRAME : Type := mkCF {
  cf_type : Z;
  cf_type_flag : bool;
  element_num : Z;
  oblig : array bool;
  adjacent : array bool;
  pp : array (list Z);
  cf_sp : array Z;
  cf_sm : array (option string);
  cf_ex : array (option string);
  ex_freq : array (option (list Z));
  cf_entry : string;
  etcflag : Z;
  weight : array Z;
  samecase : list (Z * Z);
  cf_pred_num : Z
}.

Record LIST : Type := mkLIST { flag : array Z; l_score : array double; l_pos : array Z }.

(** One correspondence: what each element of the input is assigned to, and each slot of the frame; [pure_score]. *)
Record match_result : Type := mkMR { list_d : LIST; list_p : LIST; pure_score : double }.

(** [results] are the first [result_num] entries of the three arrays. *)
Record CF_MATCH_MGR : Type := mkCMM { cf_ptr : CASE_FRAME; cmm_score : double; sufficiency : double; results : list match_result }.

Record CF_PRED_MGR : Type := mkCPM {
  cpm_cf : CASE_FRAME;
  pred_b_ptr : BNST_DATA;
  elem_b_ptr : array (option BNST_DATA);
  elem_b_num : array Z;
  cpm_score : double;
  tie_num : Z;
  cmm : list CF_MATCH_MGR;
  decided : Z
}.

(** ** Cases *)
Definition pp_kstr_to_code (cp : string) : Z :=
  let row name := find (fun '(_, k, _) => str_eq k name) PP_str_to_code in
  if str_eq cp "NIL" then END_M
  else
    match row cp with
    | Some (_, _, code) => code
    | None => match (if str_eq cp "ニトッテ" then row "ニヨッテ" else None) with Some (_, _, code) => code | None => END_M end
    end.

(** [pp[i][0]] *)
Definition first_pp (codes : list Z) : Z := hd END_M codes.

Definition MatchPPn (n : Z) (codes : list Z) : bool := negb (n <? 0) && existsb (Z.eqb n) codes.

Definition MatchPP (n : Z) (name : string) : res bool :=
  if n <? 0 then Ret false else k <- pp_code_to_kstr n ;; Ret (str_eq k name).

(** Every code is looked up, even one before the table. *)
Definition MatchPP2 (codes : list Z) (name : string) : res bool :=
  some_res (fun c => k <- pp_code_to_kstr c ;; Ret (str_eq k name)) codes.

Definition CF_MatchPP (c : Z) (cf : CASE_FRAME) : bool :=
  existsb (fun i => existsb (Z.eqb c) (pp cf i)) (zrange 0 (element_num cf)).

(** [check_case]: the first slot of a case. *)
Definition check_case (cf : CASE_FRAME) (c : Z) : Z :=
  match find_up 0 (element_num cf) (fun i => existsb (Z.eqb c) (pp cf i)) with Some i => i | None => -1 end.

Definition check_same_case (dp p : Z) (cf : CASE_FRAME) : bool :=
  existsb (fun '(a, b) => (a =? Z.min dp p) && (b =? Z.max dp p)) (samecase cf).

Definition have_real_component (cf : CASE_FRAME) : res bool :=
  some_res (fun i =>
      m <- MatchPP (first_pp (pp cf i)) "修飾" ;;
      n <- (if (m : bool) then Ret true else MatchPP (first_pp (pp cf i)) "φ") ;; Ret (negb n))
    (zrange 0 (element_num cf)).

(** ** Correspondences *)
Definition no_list : LIST := mkLIST (fun _ => UNASSIGNED) (fun _ => d_of_int (-1)) (fun _ => -1).

Definition set_flag (i v : Z) (l : LIST) : LIST := mkLIST (aset (flag l) i v) (l_score l) (l_pos l).
Definition set_score (i : Z) (v : double) (l : LIST) : LIST := mkLIST (flag l) (aset (l_score l) i v) (l_pos l).
Definition set_pos (i v : Z) (l : LIST) : LIST := mkLIST (flag l) (l_score l) (aset (l_pos l) i v).

Definition count_pat_element (cfp : CASE_FRAME) (list2 : LIST) : Z :=
  zlen (filter (fun i => negb (negb (oblig cfp i) && (flag list2 i =? UNASSIGNED))) (zrange 0 (element_num cfp))).

Definition count_assigned_adjacent_element (cfp : CASE_FRAME) (list2 : LIST) : Z :=
  zlen (filter (fun i => oblig cfp i && negb (flag list2 i =? UNASSIGNED)) (zrange 0 (element_num cfp))).
