(* ===== verification/CaseMatch.v ===== *)
(** * Matching a case frame (src/system/case_match.c)

    [case_frame_match] looks for the best correspondence of the elements of a predicate with the slots of a case frame:
    [assign_list] tries every slot of an agreeing case for one element after the other, those with a
    case particle first, and every complete correspondence is evaluated, by its probability or by its score.
    The scores of single elements and the probabilities come from data bases and are arguments ([CaseScores]). *)
From Stdlib Require Import ZArith List Bool String Lia.
Import ListNotations.
From S2P Require Import Prelude CStr Feature Sentence SemCode CheckFunction Regexp PredCase Thesaurus Double CaseData.
Open Scope string_scope.
Open Scope list_scope.
Open Scope Z_scope.

(** [elmnt_match_score] gives [pos], MATCH_NONE when it does not set it, and the score.  The predicate of the coordination
    ([para_cpm_ptr]) belongs to the environment. *)
Class CaseScores : Type := {
  elmnt_match_score : Z -> CASE_FRAME -> Z -> CASE_FRAME -> Z -> res (Z * double);
  get_cf_probability : CASE_FRAME -> CASE_FRAME -> double;
  get_np_modifying_probability : Z -> CASE_FRAME -> double;
  get_case_probability : Z -> CASE_FRAME -> bool -> double;
  get_case_probability_from_str : string -> CASE_FRAME -> bool -> double;
  get_topic_generating_probability : bool -> CASE_FRAME -> double;
  get_case_num_probability : CASE_FRAME -> Z -> double;
  get_case_function_probability_for_pred : Z -> CASE_FRAME -> Z -> CASE_FRAME -> double
}.

Definition NIL_ASSINED_SCORE : double := d_of_int (-20).
Definition FREQ0_ASSINED_SCORE : double := d_const (-13815511) 1000000.
Definition NOUN_THRESHOLD : Z := 5.

(** The code of a class, unless [sm2code] would return its buffer unchanged. *)
Definition class_code `{CheckEnv} (cp : string) : res string :=
  if negb SM2CODEExist then Ret EmptyString
  else match sm2code_db cp, Thesaurus with
       | Some code, _ => Ret code
       | None, (USE_NTT | USE_BGH) => Err BadPointer
       | None, _ => Ret EmptyString
       end.

(** [cf_match_element(d, target, FALSE)]: a code below the one of the class. *)
Definition cf_match_element `{Thesauri} (d : option string) (target : string) : res bool :=
  match d with
  | None => Ret false
  | Some d =>
      code <- class_code target ;;
      size <- match Thesaurus with
              | USE_BGH => Ret (Z.of_nat BGH_CODE_SIZE)
              | USE_NTT => Ret (Z.of_nat SM_CODE_SIZE)
              | _ => Err BadPointer
              end ;;
      _cf_match_element d code 1 (code_depth code size)
  end.

(** The codes of the cases that are treated apart. *)
Definition SOTO : Z := pp_kstr_to_code "外の関係".
Definition GA2 : Z := pp_kstr_to_code "ガ２".
Definition NO : Z := pp_kstr_to_code "ノ".
Definition MI : Z := pp_kstr_to_code "未".

Section Match.
Context `{T : Thesauri} `{S : CaseScores}.

(** [prob] is [OptCaseFlag & OPT_CASE_USE_PROBABILITY], [mode] the argument [flag]; [pc] is [cfd->pred_b_ptr->cpm_ptr]. *)
Context (prob OptEllipsis : bool) (SOTO_THRESHOLD : Z) (cfd cfp : CASE_FRAME) (pc : CF_PRED_MGR) (mode closest : Z).

(** ** The next element, and what it may be assigned to *)

Definition target_of (assign_flag : bool) (list1 : LIST) : option Z :=
  find_up 0 (element_num cfd) (fun i => (flag list1 i =? UNASSIGNED) && Bool.eqb assign_flag (negb (elem_b_num pc i =? -1))).

(** Elements with a particle first. *)
Definition next_target (list1 : LIST) : option Z :=
  match target_of true list1 with Some t => Some t | None => target_of false list1 end.

(** A slot of the case has an element ([gaflag], [toflag]). *)
Definition filled_case (name : string) (list2 : LIST) : res bool :=
  some_res (fun i => if flag list2 i =? UNASSIGNED then Ret false else MatchPP2 (pp cfp i) name) (zrange 0 (element_num cfp)).

(** An element that is not assigned yet has the flag -1: its slot is read before the array. *)
Definition check_adjacent_assigned (list1 : LIST) : res bool :=
  some_res (fun i =>
      if adjacent cfd i && negb (flag list1 i =? NIL_ASSIGNED) then
        if within 0 (flag list1 i) CF_ELEMENT_MAX then Ret (adjacent cfp (flag list1 i)) else Err OutOfBounds
      else Ret false)
    (zrange 0 (element_num cfd)).

(** The case [c] of the element agrees with the case [q] of a slot. *)
Definition case_agrees (gaflag sotoflag : bool) (list1 : LIST) (target c q : Z) : res bool :=
  let undecided := (c =? MI) && check_same_case (cf_sp cfd target) q cfp in
  if negb (c =? q) then Ret undecided
  else if ((q =? SOTO) && negb sotoflag) || ((q =? GA2) && negb gaflag) then Ret undecided
  else if q =? NO then a <- check_adjacent_assigned list1 ;; Ret (a || undecided)
  else Ret true.

(** The first case of the slot that agrees; the loop stops at the first negative code. *)
Fixpoint first_agreeing (gaflag sotoflag : bool) (list1 : LIST) (target c : Z) (qs : list Z) : res (option Z) :=
  match qs with
  | [] => Ret None
  | q :: qs' =>
      if q <? 0 then Ret None
      else
        b <- case_agrees gaflag sotoflag list1 target c q ;;
        if b then Ret (Some q) else first_agreeing gaflag sotoflag list1 target c qs'
  end.

(** The thresholds. *)
Definition good_match (q : Z) (elmnt_score : double) : bool :=
  let apart := (q =? SOTO) || (q =? NO) in
  let noun := cf_type (cpm_cf pc) =? CF_NOUN in
  (prob || (negb apart && negb noun) || (apart && d_ge elmnt_score (d_of_int SOTO_THRESHOLD)) ||
   (noun && d_ge elmnt_score (d_of_int NOUN_THRESHOLD))) &&
  ((mode =? EXAMPLE) || ((mode =? SEMANTIC_MARKER) && d_ge elmnt_score (d_of_int 0))).

Definition weighted (target : Z) (s : double) : double :=
  if weight cfd target =? 0 then s else d_div s (d_of_int (weight cfd target)).

(** ** The search *)
Section Search.
Context {A : Type} (eval : LIST -> LIST -> double -> A -> res A).

(** The lists, whether a slot was available, and the correspondences so far. *)
Record search_state : Type := mkSS { ss_list1 : LIST; ss_list2 : LIST; case_available : bool; ss_acc : A }.

Section Element.
Context (rec : LIST -> LIST -> double -> A -> res A) (target : Z) (gaflag sotoflag : bool) (score : double).

(** The case [c] of the element with the slot [i]. *)
Definition try_case (i c : Z) (st : search_state) : res search_state :=
  q <- first_agreeing gaflag sotoflag (ss_list1 st) target c (pp cfp i) ;;
  match q with
  | None => Ret st
  | Some q =>
      ' (pos, elmnt_score) <- elmnt_match_score target cfd i cfp mode ;;
      if good_match q elmnt_score then
        let s := weighted target elmnt_score in
        let list1 := set_score target s (set_flag target i (ss_list1 st)) in
        let list2 := set_pos i pos (set_score i s (set_flag i target (ss_list2 st))) in
        acc <- rec list1 list2 (d_add score s) (ss_acc st) ;;
        Ret (mkSS list1 (set_pos i MATCH_NONE (set_flag i UNASSIGNED list2)) true acc)
      else Ret (mkSS (ss_list1 st) (ss_list2 st) true (ss_acc st))
  end.

Definition try_slot (i : Z) (st : search_state) : res search_state :=
  if flag (ss_list2 st) i =? UNASSIGNED then fold_res (try_case i) (pp cfd target) st else Ret st.

(** No slot: with probabilities only when none was available. *)
Definition try_nil (st : search_state) : res A :=
  if negb ((cf_type (cpm_cf pc) =? CF_PRED) && prob) || negb (case_available st) then
    let s := weighted target (d_add FREQ0_ASSINED_SCORE (get_case_function_probability_for_pred target cfd NIL_ASSIGNED cfp)) in
    let list1 := set_score target s (set_flag target NIL_ASSIGNED (ss_list1 st)) in
    rec list1 (ss_list2 st) (if prob then d_add score s else score) (ss_acc st)
  else Ret (ss_acc st).
End Element.

(** The body of [_assign_list] for its target. *)
Definition assign_target (rec : LIST -> LIST -> double -> A -> res A) (target : Z) (list1 list2 : LIST) (score : double) (acc : A) : res A :=
  gaflag <- filled_case "ガ" list2 ;;
  person <- cf_match_element (cf_sm cfd target) "主体" ;;
  toflag <- filled_case "ト" list2 ;;
  st <- for_res 0 (element_num cfp) (try_slot rec target gaflag (negb person) score) (mkSS list1 list2 false acc) ;;
  try_nil rec target score st.

Fixpoint assign_list (fuel : nat) (list1 list2 : LIST) (score : double) (acc : A) : res A :=
  match fuel with
  | O => Err OutOfFuel
  | Datatypes.S f =>
      match next_target list1 with
      | Some target => assign_target (assign_list f) target list1 list2 score acc
      | None => eval list1 list2 score acc
      end
  end.
End Search.

(** ** Evaluation *)
Record rank : Type := mkRank { Current_max_score : double; Current_max_m_e : Z; Current_max_m_p : Z; Current_max_c_e : Z }.

(** The best correspondences so far, [Current_max_num] of them. *)
Record current : Type := mkCur { Current_rank : rank; Current_sufficiency : double; Current_max : list match_result }.

Definition add_result (r : match_result) (cur : current) : current :=
  if zlen (Current_max cur) <? MAX_MATCH_MAX then mkCur (Current_rank cur) (Current_sufficiency cur) (Current_max cur ++ [r]) else cur.

(** The probability of a correspondence, with the probabilities of the empty slots in [list2]. *)
Definition data_probability (list1 : LIST) (i : Z) (st : double * bool) : res (double * bool) :=
  let '(score, have_topic) := st in
  let nil := flag list1 i =? NIL_ASSIGNED in
  topic <- (if nil then
              match elem_b_ptr pc i with
              | None => Err NullDeref
              | Some b => Ret ((b_num b <? cf_pred_num cfd) && has_feature (b_f b) "提題")
              end
            else Ret false) ;;
  let have_topic := have_topic || topic in
  let score := d_add (d_add score (get_np_modifying_probability i cfd)) (l_score list1 i) in
  let c := first_pp (pp cfd i) in
  phi <- MatchPP c "φ" ;;
  modifier <- (if (phi : bool) then Ret true else MatchPP c "修飾") ;;
  if modifier || negb nil then Ret (score, have_topic)
  else if CF_MatchPP c cfp then Ret (d_add score NIL_ASSINED_SCORE, have_topic)
  else
    name <- pp_code_to_kstr c ;;
    Ret (d_add (d_add score (get_case_probability_from_str name cfp true)) NIL_ASSINED_SCORE, have_topic).

Definition slot_probability (i : Z) (st : double * LIST) : double * LIST :=
  let '(score, list2) := st in
  if flag list2 i =? UNASSIGNED then
    let s := get_case_probability i cfp false in (d_add score s, set_score i s list2)
  else st.

Definition assign_probability (list1 list2 : LIST) : res (double * LIST) :=
  let score := if cf_type cfp =? CF_PRED then get_cf_probability cfd cfp else d_of_int 0 in
  ' (score, have_topic) <- for_res 0 (element_num cfd) (data_probability list1) (score, false) ;;
  let '(score, list2) := for_up 0 (element_num cfp) slot_probability
                           (d_add score (get_topic_generating_probability have_topic cfd), list2) in
  Ret (d_add score (get_case_num_probability cfp (element_num cfd)), list2).

(** The element before the predicate must match. *)
Definition closest_missing (list1 : LIST) : bool :=
  (-1 <? closest) && oblig cfd closest && (flag list1 closest =? NIL_ASSIGNED).

Definition prob_rank (list1 : LIST) (score : double) : rank :=
  mkRank (if closest_missing list1 then d_add score (d_of_int (-500)) else score) 0 0 0.

(** Ties are kept for predicates only.  The other fields of the rank stay 0. *)
Definition keep_prob (v : rank) (r : match_result) (cur : current) : current :=
  if d_lt (Current_max_score (Current_rank cur)) (Current_max_score v) then mkCur v (Current_sufficiency cur) [r]
  else if d_eq (Current_max_score v) (Current_max_score (Current_rank cur)) && (cf_type cfp =? CF_PRED) then add_result r cur
  else cur.

Definition eval_assign_prob (list1 list2 : LIST) (cur : current) : res current :=
  ' (score, list2) <- assign_probability list1 list2 ;;
  Ret (keep_prob (prob_rank list1 score) (mkMR list1 list2 score) cur).

(** The assigned elements: how many, where they are, and how many pairs of them are crossed. *)
Definition assigned (list1 : LIST) : list Z := filter (fun i => negb (flag list1 i =? NIL_ASSIGNED)) (zrange 0 (element_num cfd)).

Definition crossings (list1 : LIST) (i : Z) : Z :=
  zlen (filter (fun j => negb (flag list1 j =? NIL_ASSIGNED) && (flag list1 j <? flag list1 i)) (zrange (i + 1) (element_num cfd))).

Definition zsum (l : list Z) : Z := fold_left Z.add l 0.

(** [unassigned_ga] and [lastpp] *)
Definition empty_ga (list2 : LIST) : res bool :=
  fold_res (fun i b =>
      if flag list2 i =? UNASSIGNED then ga <- MatchPP (first_pp (pp cfp i)) "ガ" ;; Ret (b || ga) else Ret b)
    (zrange 0 (element_num cfp)) false.

Definition last_filled (list2 : LIST) : option Z :=
  hd_error (rev (filter (fun i => negb (flag list2 i =? UNASSIGNED)) (zrange 0 (element_num cfp)))).

Definition filled_slots (list2 : LIST) : Z := zlen (filter (fun i => negb (flag list2 i =? UNASSIGNED)) (zrange 0 (element_num cfp))).

(** [local_score], a [float]. *)
Definition local_score (list1 list2 : LIST) (score : Z) : res float :=
  let m_e := zlen (assigned list1) in
  let dat_element := zlen (filter (fun i => negb (negb (oblig cfd i) && (flag list1 i =? NIL_ASSIGNED))) (zrange 0 (element_num cfd))) in
  let pat_element := count_pat_element cfp list2 in
  outside <- (if (m_e <? dat_element) || closest_missing list1 then Ret true
              else if negb OptEllipsis && (filled_slots list2 =? 1) then
                match last_filled list2 with Some i => MatchPP (first_pp (pp cfp i)) "外の関係" | None => Ret false end
              else Ret false) ;;
  Ret (if outside then f_of_int (-1)
       else if (dat_element =? 0) || (pat_element =? 0) || (m_e =? 0) then f_of_int 0
       else f_of_double (d_div (d_of_float (f_of_int score)) (d_sqrt (d_of_int pat_element)))).

(** [(float)cf_element/cfp->element_num] *)
Definition sufficient (list2 : LIST) : double := d_of_float (f_div (f_of_int (filled_slots list2)) (f_of_int (element_num cfp))).

Definition score_rank (list1 : LIST) (local : float) : rank :=
  mkRank (d_of_float local) (zlen (assigned list1)) (zsum (assigned list1)) (- zsum (map (crossings list1) (assigned list1))).

(** The ranks in their order; [same_rank]: all four are equal. *)
Definition same_rank (v cur : rank) : bool :=
  d_eq (Current_max_score v) (Current_max_score cur) && (Current_max_m_e v =? Current_max_m_e cur) &&
  (Current_max_m_p v =? Current_max_m_p cur) && (Current_max_c_e v =? Current_max_c_e cur).

Definition better_rank (v cur : rank) : bool :=
  let same := d_eq (Current_max_score v) (Current_max_score cur) in
  d_lt (Current_max_score cur) (Current_max_score v) ||
  (same && (Current_max_m_e cur <? Current_max_m_e v)) ||
  (same && (Current_max_m_e v =? Current_max_m_e cur) && (Current_max_m_p cur <? Current_max_m_p v)) ||
  (same && (Current_max_m_e v =? Current_max_m_e cur) && (Current_max_m_p v =? Current_max_m_p cur) &&
    (Current_max_c_e cur <? Current_max_c_e v)).

(** Among equal ones, one that leaves no ガ empty replaces those before it. *)
Definition keep_score (v : rank) (unassigned_ga : bool) (suff : double) (r : match_result) (cur : current) : current :=
  if better_rank v (Current_rank cur) || (same_rank v (Current_rank cur) && negb unassigned_ga) then mkCur v suff [r]
  else if same_rank v (Current_rank cur) then add_result r cur
  else cur.

Definition eval_assign_score (list1 list2 : LIST) (score : Z) (cur : current) : res current :=
  unassigned_ga <- empty_ga list2 ;;
  local <- local_score list1 list2 score ;;
  Ret (keep_score (score_rank list1 local) unassigned_ga (sufficient list2) (mkMR list1 list2 (d_of_int score)) cur).

Definition eval_assign (list1 list2 : LIST) (score : double) (cur : current) : res current :=
  if prob then eval_assign_prob list1 list2 cur
  else n <- d_to_int score ;; eval_assign_score list1 list2 n cur.

(** ** One frame *)
Definition no_current : current :=
  mkCur (mkRank (d_of_int (if prob then CASE_MATCH_FAILURE_PROB else CASE_MATCH_FAILURE_SCORE)) 0 0 0) (d_of_int 0) [].

(** One element is assigned for each unit of fuel. *)
Definition search_fuel : nat := Datatypes.S (Z.to_nat (element_num cfd)).

Definition case_frame_match : res CF_MATCH_MGR :=
  cur <- assign_list eval_assign search_fuel no_list no_list (d_of_int 0) no_current ;;
  let best := Current_max_score (Current_rank cur) in
  let score :=
    match Current_max cur with
    | r :: _ =>
        if (-1 <? closest) && d_ge best (d_of_int 0) && negb (flag (list_d r) closest =? NIL_ASSIGNED)
        then l_score (list_d r) closest else best
    | [] => best
    end in
  Ret (mkCMM cfp score (Current_sufficiency cur) (Current_max cur)).

(** * Properties *)

(** ** The search and the evaluation

    The search does not look at what it evaluates: it folds the evaluation over the list of complete correspondences. *)
Definition leaf : Type := LIST * LIST * double.

Definition collect (list1 list2 : LIST) (score : double) (acc : list leaf) : res (list leaf) := Ret (acc ++ [(list1, list2, score)]).

Section Fold.
Context {A : Type} (eval : LIST -> LIST -> double -> A -> res A).

Definition eval_leaf (l : leaf) (a : A) : res A := let '(list1, list2, score) := l in eval list1 list2 score a.

Definition with_acc {X Y} (a : Y) (st : search_state (A := X)) : search_state (A := Y) := mkSS (ss_list1 st) (ss_list2 st) (case_available st) a.

Definition follows (f : search_state -> res search_state) (g : search_state -> res search_state) : Prop :=
  forall st st', f st = Ret st' -> exists L, ss_acc st' = ss_acc st ++ L /\
    forall a, g (with_acc a st) = res_map (fun a' => with_acc a' st') (fold_res eval_leaf L a).

Definition rec_follows (f : LIST -> LIST -> double -> list leaf -> res (list leaf)) (g : LIST -> LIST -> double -> A -> res A) : Prop :=
  forall l1 l2 s acc acc', f l1 l2 s acc = Ret acc' -> exists L, acc' = acc ++ L /\ forall a, g l1 l2 s a = fold_res eval_leaf L a.

Lemma follows_fold : forall {X} (f : X -> search_state -> res search_state) g l, (forall x, follows (f x) (g x)) -> follows (fold_res f l) (fold_res g l).
Proof.
  intros X f g l H. induction l as [|x l IH]; intros st st' E; cbn [fold_res] in *.
  - injection E as <-. exists []. rewrite app_nil_r. split; [reflexivity|]. intros a. reflexivity.
  - destruct (f x st) as [st1|] eqn:E1; [|discriminate]. destruct (H x _ _ E1) as (L1 & A1 & G1). destruct (IH _ _ E) as (L2 & A2 & G2).
    exists (L1 ++ L2). rewrite A2, A1, app_assoc. split; [reflexivity|]. intros a. rewrite G1, fold_res_app.
    destruct (fold_res eval_leaf L1 a) as [a1|]; [|reflexivity]. cbn [res_map]. apply G2.
Qed.

Lemma try_case_follows : forall f g target ga soto score i c, rec_follows f g ->
  follows (try_case f target ga soto score i c) (try_case g target ga soto score i c).
Proof.
  intros f g target ga soto score i c H st st' E. unfold try_case in *. cbn [with_acc ss_list1 ss_list2 case_available ss_acc].
  destruct (first_agreeing _ _ _ _ _ _) as [[q|]|]; [| |discriminate].
  - destruct (elmnt_match_score _ _ _ _ _) as [[pos s]|]; [|discriminate]. destruct (good_match q s).
    + destruct (f _ _ _ (ss_acc st)) as [acc|] eqn:EF; [|discriminate]. injection E as <-. destruct (H _ _ _ _ _ EF) as (L & -> & G).
      exists L. split; [reflexivity|]. intros a. cbn [with_acc ss_list1 ss_list2 case_available ss_acc]. rewrite G.
      destruct (fold_res eval_leaf L a); reflexivity.
    + injection E as <-. exists []. rewrite app_nil_r. split; reflexivity.
  - injection E as <-. exists []. rewrite app_nil_r. split; [reflexivity|]. intros a. destruct st; reflexivity.
Qed.

Lemma try_slot_follows : forall f g target ga soto score i, rec_follows f g ->
  follows (try_slot f target ga soto score i) (try_slot g target ga soto score i).
Proof.
  intros f g target ga soto score i H st st' E. unfold try_slot in *. cbn [with_acc ss_list2].
  destruct (flag (ss_list2 st) i =? UNASSIGNED).
  - revert st st' E. apply follows_fold. intros c. now apply try_case_follows.
  - injection E as <-. exists []. rewrite app_nil_r. split; [reflexivity|]. intros a. reflexivity.
Qed.

Lemma assign_target_follows : forall f g target, rec_follows f g -> rec_follows (assign_target f target) (assign_target g target).
Proof.
  intros f g target H l1 l2 s acc acc' E. unfold assign_target in *. destruct (filled_case "ガ" l2) as [ga|]; [|discriminate].
  destruct (cf_match_element _ _) as [person|]; [|discriminate]. destruct (filled_case "ト" l2) as [to|]; [|discriminate].
  destruct (for_res _ _ (try_slot f _ _ _ _) _) as [st|] eqn:E1; [|discriminate]. unfold for_res in *.
  apply (follows_fold _ _ _ (fun i => try_slot_follows f g target _ _ s i H)) in E1. destruct E1 as (L & A1 & G1). cbn [ss_acc] in A1.
  unfold try_nil in *. destruct (_ || _) eqn:EN.
  - destruct (H _ _ _ _ _ E) as (L2 & -> & G2). exists (L ++ L2). rewrite A1, app_assoc. split; [reflexivity|]. intros a.
    change (mkSS l1 l2 false a) with (with_acc a (mkSS l1 l2 false acc)). rewrite G1, fold_res_app. destruct (fold_res eval_leaf L a) as [a1|]; [|reflexivity].
    cbn [res_map with_acc ss_list1 ss_list2 case_available ss_acc]. rewrite EN. apply G2.
  - injection E as <-. exists L. split; [exact A1|]. intros a. change (mkSS l1 l2 false a) with (with_acc a (mkSS l1 l2 false acc)). rewrite G1.
    destruct (fold_res eval_leaf L a) as [a1|]; [|reflexivity]. cbn [res_map with_acc ss_list1 ss_list2 case_available ss_acc]. now rewrite EN.
Qed.

Lemma assign_list_follows : forall fuel, rec_follows (assign_list collect fuel) (assign_list eval fuel).
Proof.
  induction fuel as [|f IH]; intros l1 l2 s acc acc' E; [discriminate|]. cbn [assign_list] in *. destruct (next_target l1) as [t|].
  - now apply (assign_target_follows _ _ _ IH).
  - injection E as <-. eexists. split; [reflexivity|]. intros a. cbn. now destruct (eval l1 l2 s a).
Qed.
End Fold.

(** ** The correspondences

    The slots of the frame have cases of the table and no ノ, the classes of the elements and their scores can be found. *)
Record frames_ok : Prop := {
  ok_slots : forall i q, 0 <= i < element_num cfp -> In q (pp cfp i) -> 0 <= q < zlen PP_str_to_code /\ q <> NO;
  ok_person : forall t, 0 <= t < element_num cfd -> exists b, cf_match_element (cf_sm cfd t) "主体" = Ret b;
  ok_scores : forall t i, 0 <= t < element_num cfd -> 0 <= i < element_num cfp -> exists r, elmnt_match_score t cfd i cfp mode = Ret r
}.

Definition person (t : Z) : bool := match cf_match_element (cf_sm cfd t) "主体" with Ret b => b | Err _ => false end.
Definition elmnt_score (t i : Z) : double := match elmnt_match_score t cfd i cfp mode with Ret (_, s) => s | Err _ => d_nan end.
Definition is_case (name : string) (q : Z) : bool := match pp_code_to_kstr q with Ret k => str_eq k name | Err _ => false end.

Definition filled (name : string) (list2 : LIST) : bool :=
  existsb (fun i => negb (flag list2 i =? UNASSIGNED) && existsb (is_case name) (pp cfp i)) (zrange 0 (element_num cfp)).

(** The case [c] of the element [t] is the case [q], which is allowed: ガ２ when ガ has an element, 外の関係 for no person;
    or it is undecided, and the frame says that it may be [q]. *)
Definition agrees (list2 : LIST) (t c q : Z) : bool :=
  ((c =? q) && negb (((q =? SOTO) && person t) || ((q =? GA2) && negb (filled "ガ" list2)))) ||
  ((c =? MI) && check_same_case (cf_sp cfd t) q cfp).

Definition case_fits (list2 : LIST) (t i c : Z) : bool :=
  match find (agrees list2 t c) (pp cfp i) with Some q => good_match q (elmnt_score t i) | None => false end.

Definition slot_fits (list2 : LIST) (t i : Z) : bool := existsb (case_fits list2 t i) (pp cfd t).

Definition case_offered (list2 : LIST) (t i c : Z) : bool := existsb (agrees list2 t c) (pp cfp i).

Definition slot_offered (list2 : LIST) (t : Z) : bool :=
  existsb (fun i => (flag list2 i =? UNASSIGNED) && existsb (case_offered list2 t i) (pp cfd t)) (zrange 0 (element_num cfp)).

Definition nil_allowed (list2 : LIST) (t : Z) : bool :=
  negb ((cf_type (cpm_cf pc) =? CF_PRED) && prob) || negb (slot_offered list2 t).

Definition slot_score (t i : Z) : double := weighted t (elmnt_score t i).
Definition nil_score (t : Z) : double :=
  weighted t (d_add FREQ0_ASSINED_SCORE (get_case_function_probability_for_pred t cfd NIL_ASSIGNED cfp)).

Definition like1 (a b : LIST) : Prop := (forall x, flag a x = flag b x) /\ forall x, l_score a x = l_score b x.
Definition like2 (a b : LIST) : Prop := forall x, flag a x = flag b x.

(** Which complete correspondences a partial one can become: one element after the other goes to an empty slot that fits
    it, or to none. *)
Inductive ends : LIST -> LIST -> double -> LIST -> LIST -> double -> Prop :=
| ends_done : forall l1 l2 s g1 g2, next_target l1 = None -> like1 l1 g1 -> like2 l2 g2 -> ends l1 l2 s g1 g2 s
| ends_assign : forall l1 l2 s t i g1 g2 s', next_target l1 = Some t -> 0 <= i < element_num cfp -> flag l2 i = UNASSIGNED ->
    slot_fits l2 t i = true ->
    ends (set_score t (slot_score t i) (set_flag t i l1)) (set_flag i t l2) (d_add s (slot_score t i)) g1 g2 s' ->
    ends l1 l2 s g1 g2 s'
| ends_nil : forall l1 l2 s t g1 g2 s', next_target l1 = Some t -> nil_allowed l2 t = true ->
    ends (set_score t (nil_score t) (set_flag t NIL_ASSIGNED l1)) l2 (if prob then d_add s (nil_score t) else s) g1 g2 s' ->
    ends l1 l2 s g1 g2 s'.

Definition correspondence : LIST -> LIST -> double -> Prop := ends no_list no_list (d_of_int 0).

(** *** Lists that are alike *)
Lemma find_up_ext : forall lo hi p q, (forall i, lo <= i < hi -> p i = q i) -> find_up lo hi p = find_up lo hi q.
Proof.
  intros lo hi p q H. unfold find_up. assert (G : forall l, (forall x, In x l -> p x = q x) -> find p l = find q l).
  { induction l as [|x l IH]; intros HL; [reflexivity|]. cbn. rewrite HL by now left. destruct (q x); [reflexivity|]. apply IH. intros. apply HL. now right. }
  apply G. intros x Hx. apply in_zrange in Hx. now apply H.
Qed.

Lemma existsb_ext_in : forall {A} (p q : A -> bool) l, (forall x, In x l -> p x = q x) -> existsb p l = existsb q l.
Proof. intros A p q. induction l as [|x l IH]; intros H; [reflexivity|]. cbn. rewrite H by now left. f_equal. apply IH. intros. apply H. now right. Qed.

Lemma next_target_like : forall a b, (forall x, flag a x = flag b x) -> next_target a = next_target b.
Proof. intros a b H. unfold next_target, target_of. rewrite !(find_up_ext _ _ (fun i => (flag a i =? UNASSIGNED) && _) (fun i => (flag b i =? UNASSIGNED) && _)) by (intros; now rewrite H). reflexivity. Qed.

Lemma filled_like : forall name a b, like2 a b -> filled name a = filled name b.
Proof. intros name a b H. apply existsb_ext_in. intros i _. now rewrite H. Qed.

Lemma agrees_like : forall a b t c q, like2 a b -> agrees a t c q = agrees b t c q.
Proof. intros a b t c q H. unfold agrees. now rewrite (filled_like _ a b H). Qed.

Lemma find_ext : forall {A} (p q : A -> bool) l, (forall x, p x = q x) -> find p l = find q l.
Proof. intros A p q l H. induction l as [|x l IH]; [reflexivity|]. cbn. rewrite H. destruct (q x); auto. Qed.

Lemma slot_fits_like : forall a b t i, like2 a b -> slot_fits a t i = slot_fits b t i.
Proof. intros a b t i H. apply existsb_ext_in. intros c _. unfold case_fits. now rewrite (find_ext _ (agrees b t c)) by (intros; now apply agrees_like). Qed.

Lemma nil_allowed_like : forall a b t, like2 a b -> nil_allowed a t = nil_allowed b t.
Proof.
  intros a b t H. unfold nil_allowed, slot_offered. do 2 f_equal. apply existsb_ext_in. intros i _. rewrite H. f_equal.
  apply existsb_ext_in. intros c _. apply existsb_ext_in. intros q _. now apply agrees_like.
Qed.

Lemma like1_set : forall a b t v s, (forall x, x <> t -> flag a x = flag b x /\ l_score a x = l_score b x) ->
  like1 (set_score t s (set_flag t v a)) (set_score t s (set_flag t v b)).
Proof. intros a b t v s H. split; intros x; cbn; unfold aset; destruct (Z.eqb_spec x t); (reflexivity || now apply H). Qed.

Lemma like2_set : forall a b i v, like2 a b -> like2 (set_flag i v a) (set_flag i v b).
Proof. intros a b i v H x. cbn. unfold aset. now rewrite H. Qed.

Lemma ends_like : forall l1 l2 s g1 g2 s', ends l1 l2 s g1 g2 s' -> forall k1 k2, like1 l1 k1 -> like2 l2 k2 -> ends k1 k2 s g1 g2 s'.
Proof.
  induction 1 as [l1 l2 s g1 g2 H H1 H2|l1 l2 s t i g1 g2 s' H HI HF HS HE IH|l1 l2 s t g1 g2 s' H HN HE IH]; intros k1 k2 [K1 K1'] K2;
    rewrite (next_target_like _ _ K1) in H.
  - apply ends_done; [exact H | | intros x; now rewrite <- K2]. destruct H1 as [H1 H1']. split; intros x; [now rewrite <- K1 | now rewrite <- K1'].
  - apply (ends_assign _ _ _ t i); [exact H | exact HI | now rewrite <- K2 | now rewrite <- (slot_fits_like l2 k2) |].
    apply IH; [apply like1_set; auto | now apply like2_set].
  - apply (ends_nil _ _ _ t); [exact H | now rewrite <- (nil_allowed_like l2 k2) |]. apply IH; [apply like1_set; auto | exact K2].
Qed.

(** *** The search finds them all *)
Lemma next_target_some : forall l1 t, next_target l1 = Some t -> 0 <= t < element_num cfd /\ flag l1 t = UNASSIGNED.
Proof.
  intros l1 t H. unfold next_target, target_of in H. destruct (find_up _ _ _) as [u|] eqn:E in H.
  - injection H as <-. apply find_up_some in E as [E1 E2]. apply andb_prop in E2 as [E2 _]. lia.
  - apply find_up_some in H as [E1 E2]. apply andb_prop in E2 as [E2 _]. lia.
Qed.

Lemma next_target_none : forall l1, next_target l1 = None -> forall t, 0 <= t < element_num cfd -> flag l1 t <> UNASSIGNED.
Proof.
  intros l1 H t Ht F. unfold next_target, target_of in H. destruct (find_up _ _ _) as [u|] eqn:E in H; [discriminate|].
  pose proof (find_up_none _ _ _ E t Ht) as H1. pose proof (find_up_none _ _ _ H t Ht) as H2. cbn beta in H1, H2. rewrite F in *.
  destruct (elem_b_num pc t =? -1); discriminate.
Qed.

Definition unassigned (l1 : LIST) : list Z := filter (fun i => flag l1 i =? UNASSIGNED) (zrange 0 (element_num cfd)).

Lemma unassigned_less : forall l1 t v s, next_target l1 = Some t -> v <> UNASSIGNED ->
  (List.length (unassigned (set_score t s (set_flag t v l1))) < List.length (unassigned l1))%nat.
Proof.
  intros l1 t v s H Hv. destruct (next_target_some _ _ H) as [Ht Hf]. unfold unassigned. cbn [flag set_score set_flag]. apply in_zrange in Ht.
  assert (G : forall l, (List.length (filter (fun i => (aset (flag l1) t v i =? UNASSIGNED)%Z) l) <= List.length (filter (fun i => (flag l1 i =? UNASSIGNED)%Z) l))%nat).
  { induction l as [|x l IH]; [reflexivity|]. cbn [filter]. unfold aset at 1. destruct (Z.eqb_spec x t) as [->|].
    - destruct (Z.eqb_spec v UNASSIGNED); [contradiction|]. destruct (flag l1 t =? UNASSIGNED); cbn; lia.
    - destruct (flag l1 x =? UNASSIGNED); cbn; lia. }
  induction (zrange 0 (element_num cfd)) as [|x l IH]; [contradiction|]. cbn [filter]. unfold aset at 1. destruct (Z.eqb_spec x t) as [->|N].
  - destruct (Z.eqb_spec v UNASSIGNED); [contradiction|]. rewrite Hf. specialize (G l). cbn. lia.
  - destruct Ht as [->|Ht]; [contradiction|]. specialize (IH Ht). destruct (flag l1 x =? UNASSIGNED); cbn; lia.
Qed.

(** The list [L] holds the correspondences of the set [E], up to the scores of slots. *)
Definition like_leaf (l : leaf) (g1 g2 : LIST) (s : double) : Prop := let '(l1, l2, s') := l in like1 l1 g1 /\ like2 l2 g2 /\ s' = s.

Definition holds (L : list leaf) (E : LIST -> LIST -> double -> Prop) : Prop :=
  forall g1 g2 s, E g1 g2 s <-> exists l, In l L /\ like_leaf l g1 g2 s.

Lemma holds_nil : forall E : LIST -> LIST -> double -> Prop, (forall g1 g2 s, ~ E g1 g2 s) -> holds [] E.
Proof. intros E H g1 g2 s. split; [intros HE; now apply H in HE | intros (l & [] & _)]. Qed.

Lemma holds_app : forall L1 L2 E1 E2 E, holds L1 E1 -> holds L2 E2 -> (forall g1 g2 s, E g1 g2 s <-> E1 g1 g2 s \/ E2 g1 g2 s) -> holds (L1 ++ L2) E.
Proof.
  intros L1 L2 E1 E2 E H1 H2 HE g1 g2 s. rewrite HE, (H1 g1 g2 s), (H2 g1 g2 s). split.
  - intros [(l & Hl & HK)|(l & Hl & HK)]; exists l; rewrite in_app_iff; auto.
  - intros (l & Hl & HK). apply in_app_iff in Hl as [Hl|Hl]; eauto.
Qed.

Lemma holds_iff : forall L E E', holds L E -> (forall g1 g2 s, E g1 g2 s <-> E' g1 g2 s) -> holds L E'.
Proof. intros L E E' H HE g1 g2 s. rewrite <- HE. apply H. Qed.

Section Element.
Context (OK : frames_ok) (rec : LIST -> LIST -> double -> list leaf -> res (list leaf)) (l1 l2 : LIST) (t : Z) (score : double).
Context (HT : next_target l1 = Some t).
Context (HR : forall k1 k2 s acc v, v <> UNASSIGNED -> (forall x, x <> t -> flag k1 x = flag l1 x /\ l_score k1 x = l_score l1 x) -> flag k1 t = v ->
  exists L, rec k1 k2 s acc = Ret (acc ++ L) /\ holds L (ends k1 k2 s)).

(** The state of the loops: only the element itself has changed. *)
Definition kept_lists (st : search_state (A := list leaf)) : Prop :=
  (forall x, x <> t -> flag (ss_list1 st) x = flag l1 x /\ l_score (ss_list1 st) x = l_score l1 x) /\ like2 (ss_list2 st) l2.

Definition yields (body : search_state (A := list leaf) -> res (search_state (A := list leaf))) (E : LIST -> LIST -> double -> Prop) (offered : bool) : Prop :=
  forall st, kept_lists st -> exists st' L, body st = Ret st' /\ kept_lists st' /\ ss_acc st' = ss_acc st ++ L /\ holds L E /\
    case_available st' = case_available st || offered.

Lemma yields_none : forall (st st' : search_state (A := list leaf)) (E : LIST -> LIST -> double -> Prop) offered,
  kept_lists st' -> ss_acc st' = ss_acc st -> case_available st' = case_available st || offered -> (forall g1 g2 s, ~ E g1 g2 s) ->
  exists st1 L, Ret st' = Ret st1 /\ kept_lists st1 /\ ss_acc st1 = ss_acc st ++ L /\ holds L E /\ case_available st1 = case_available st || offered.
Proof. intros st st' E offered HK HA HC HE. exists st', []. rewrite app_nil_r. repeat (split; [assumption || reflexivity|]). split; [now apply holds_nil | exact HC]. Qed.

Lemma yields_fold : forall {X} (body : X -> search_state (A := list leaf) -> res search_state) (E : X -> LIST -> LIST -> double -> Prop) offered l,
  (forall x, In x l -> yields (body x) (E x) (offered x)) ->
  yields (fold_res body l) (fun g1 g2 s => exists x, In x l /\ E x g1 g2 s) (existsb offered l).
Proof.
  intros X body E offered. induction l as [|x l IH]; intros H st HK; cbn [fold_res existsb].
  - apply yields_none; [exact HK | reflexivity | now rewrite orb_false_r |]. intros g1 g2 s (x & [] & _).
  - destruct (H x (or_introl eq_refl) st HK) as (st1 & L1 & -> & K1 & A1 & H1 & C1).
    destruct (IH (fun y Hy => H y (or_intror Hy)) st1 K1) as (st2 & L2 & -> & K2 & A2 & H2 & C2).
    exists st2, (L1 ++ L2). split; [reflexivity|]. split; [exact K2|]. split; [now rewrite A2, A1, app_assoc|]. split; [|now rewrite C2, C1, orb_assoc].
    apply (holds_app _ _ _ _ _ H1 H2). intros g1 g2 s. split.
    + intros (y & [<-|Hy] & HE); [left; exact HE | right; eauto].
    + intros [HE|(y & Hy & HE)]; [exists x | exists y]; split; auto; [now left | now right].
Qed.

Lemma first_agreeing_find : forall k1 c qs, (forall q, In q qs -> 0 <= q /\ q <> NO) ->
  first_agreeing (filled "ガ" l2) (negb (person t)) k1 t c qs = Ret (find (agrees l2 t c) qs).
Proof.
  intros k1 c. induction qs as [|q qs IH]; intros H; [reflexivity|]. destruct (H q (or_introl eq_refl)) as [H1 H2]. cbn [first_agreeing find].
  destruct (Z.ltb_spec q 0); [lia|]. assert (EA : case_agrees (filled "ガ" l2) (negb (person t)) k1 t c q = Ret (agrees l2 t c q)).
  { unfold case_agrees, agrees. destruct (c =? q); cbn [negb andb orb]; [|reflexivity]. rewrite negb_involutive.
    destruct ((q =? SOTO) && person t || (q =? GA2) && negb (filled "ガ" l2)); [reflexivity|]. destruct (Z.eqb_spec q NO); [contradiction | reflexivity]. }
  rewrite EA. destruct (agrees l2 t c q); [reflexivity|]. apply IH. intros. apply H. now right.
Qed.

Lemma find_existsb : forall {X} (p : X -> bool) l, existsb p l = match find p l with Some _ => true | None => false end.
Proof. intros X p. induction l as [|x l IH]; [reflexivity|]. cbn. now destruct (p x). Qed.

Definition with_slot (i : Z) : LIST -> LIST -> double -> Prop :=
  ends (set_score t (slot_score t i) (set_flag t i l1)) (set_flag i t l2) (d_add score (slot_score t i)).

Lemma try_case_yields : forall i c, 0 <= i < element_num cfp -> flag l2 i = UNASSIGNED ->
  yields (try_case rec t (filled "ガ" l2) (negb (person t)) score i c)
    (fun g1 g2 s => case_fits l2 t i c = true /\ with_slot i g1 g2 s) (case_offered l2 t i c).
Proof.
  intros i c Hi HF st [K1 K2]. destruct (next_target_some _ _ HT) as [Ht _]. unfold try_case, case_fits, case_offered.
  rewrite first_agreeing_find by (intros q Hq; destruct (ok_slots OK i q Hi Hq); lia). rewrite find_existsb.
  destruct (find (agrees l2 t c) (pp cfp i)) as [q|].
  - destruct (ok_scores OK t i Ht Hi) as [[pos s] ES]. unfold with_slot, slot_score, elmnt_score. rewrite ES. destruct (good_match q s).
    + destruct (HR (set_score t (weighted t s) (set_flag t i (ss_list1 st))) (set_pos i pos (set_score i (weighted t s) (set_flag i t (ss_list2 st))))
        (d_add score (weighted t s)) (ss_acc st) i) as (L & -> & HL).
      { unfold UNASSIGNED. lia. }
      { intros x Hx. cbn. unfold aset. destruct (Z.eqb_spec x t); [contradiction | now apply K1]. }
      { cbn. apply aset_eq. }
      eexists _, L. split; [reflexivity|]. split; [|split; [reflexivity|]; split; [|now rewrite orb_true_r]].
      * split; cbn; intros x.
        -- intros Hx. unfold aset. destruct (Z.eqb_spec x t); [contradiction | now apply K1].
        -- cbn. unfold aset. destruct (Z.eqb_spec x i) as [E|]; [subst x; symmetry; exact HF | apply K2].
      * refine (holds_iff _ _ _ HL _). intros g1 g2 s'. split.
        -- intros HE. split; [reflexivity|]. apply (ends_like _ _ _ _ _ _ HE); [now apply like1_set|]. intros x. cbn. unfold aset. now rewrite K2.
        -- intros [_ HE]. apply (ends_like _ _ _ _ _ _ HE); [apply like1_set; intros x Hx; destruct (K1 x Hx); auto|]. intros x. cbn. unfold aset. now rewrite K2.
    + apply yields_none; [split; assumption | reflexivity | now rewrite orb_true_r |]. intros g1 g2 s' [[=] _].
  - apply yields_none; [split; assumption | reflexivity | now rewrite orb_false_r |]. intros g1 g2 s' [[=] _].
Qed.

Lemma try_slot_yields : forall i, 0 <= i < element_num cfp ->
  yields (try_slot rec t (filled "ガ" l2) (negb (person t)) score i)
    (fun g1 g2 s => flag l2 i = UNASSIGNED /\ slot_fits l2 t i = true /\ with_slot i g1 g2 s)
    ((flag l2 i =? UNASSIGNED) && existsb (case_offered l2 t i) (pp cfd t)).
Proof.
  intros i Hi st HK. unfold try_slot. rewrite (proj2 HK i). destruct (Z.eqb_spec (flag l2 i) UNASSIGNED) as [HF|HF].
  - destruct (yields_fold _ _ _ (pp cfd t) (fun c _ => try_case_yields i c Hi HF) st HK) as (st' & L & E & K & A & H & C).
    exists st', L. split; [exact E|]. split; [exact K|]. split; [exact A|]. split; [|exact C]. refine (holds_iff _ _ _ H _).
    intros g1 g2 s. unfold slot_fits. rewrite existsb_exists. split; [intros (c & H1 & H2 & H3) | intros (_ & (c & H1 & H2) & H3)]; eauto.
  - apply yields_none; [exact HK | reflexivity | now rewrite orb_false_r |]. intros g1 g2 s [H _]. contradiction.
Qed.

Lemma code_known : forall q, 0 <= q < zlen PP_str_to_code -> exists k, pp_code_to_kstr q = Ret k.
Proof.
  intros q H. unfold pp_code_to_kstr, zlen in *. destruct (Z.ltb_spec q 0); [lia|]. destruct (nth_error _ _) as [[[h k] c]|] eqn:E; [eauto|].
  apply nth_error_None in E. lia.
Qed.

Lemma filled_case_ret : forall name k2, filled_case name k2 = Ret (filled name k2).
Proof.
  intros name k2. apply some_res_ret. intros i Hi. apply in_zrange in Hi. destruct (flag k2 i =? UNASSIGNED); [reflexivity|]. cbn [negb andb].
  apply some_res_ret. intros q Hq. unfold is_case. destruct (code_known q) as [k ->]; [now apply (ok_slots OK i q Hi)|]. reflexivity.
Qed.

Lemma ends_target : forall g1 g2 s, ends l1 l2 score g1 g2 s <->
  (exists i, In i (zrange 0 (element_num cfp)) /\ flag l2 i = UNASSIGNED /\ slot_fits l2 t i = true /\ with_slot i g1 g2 s) \/
  (nil_allowed l2 t = true /\
    ends (set_score t (nil_score t) (set_flag t NIL_ASSIGNED l1)) l2 (if prob then d_add score (nil_score t) else score) g1 g2 s).
Proof.
  intros g1 g2 s. split.
  - intros H. inversion H as [? ? ? ? ? HN|? ? ? t' i ? ? ? HT' Hi HF HS HE|? ? ? t' ? ? ? HT' HN HE]; subst; try congruence;
      (assert (t' = t) by congruence; subst t').
    + left. exists i. rewrite in_zrange. auto.
    + right. auto.
  - intros [(i & Hi & HF & HS & HE)|[HN HE]].
    + apply in_zrange in Hi. exact (ends_assign _ _ _ t i _ _ _ HT Hi HF HS HE).
    + exact (ends_nil _ _ _ t _ _ _ HT HN HE).
Qed.

Lemma assign_target_finds : forall acc, exists L, assign_target rec t l1 l2 score acc = Ret (acc ++ L) /\ holds L (ends l1 l2 score).
Proof.
  intros acc. destruct (next_target_some _ _ HT) as [Ht _]. unfold assign_target. rewrite !filled_case_ret.
  assert (EP : cf_match_element (cf_sm cfd t) "主体" = Ret (person t)) by (unfold person; destruct (ok_person OK t Ht) as [b ->]; reflexivity).
  rewrite EP. unfold for_res.
  destruct (yields_fold _ _ _ (zrange 0 (element_num cfp)) (fun i Hi => try_slot_yields i (proj1 (in_zrange _ _ _) Hi)) (mkSS l1 l2 false acc))
    as (st & L & -> & [K1 K2] & A & H & C).
  { split; [intros; split; reflexivity | intros x; reflexivity]. }
  cbn [ss_acc case_available orb] in A, C. unfold try_nil. rewrite C, A. fold (slot_offered l2 t). fold (nil_allowed l2 t).
  fold (nil_score t). destruct (nil_allowed l2 t) eqn:EN.
  - destruct (HR (set_score t (nil_score t) (set_flag t NIL_ASSIGNED (ss_list1 st))) (ss_list2 st)
      (if prob then d_add score (nil_score t) else score) (acc ++ L) NIL_ASSIGNED) as (L2 & -> & HL).
    { discriminate. }
    { intros x Hx. cbn. unfold aset. destruct (Z.eqb_spec x t); [contradiction | now apply K1]. }
    { cbn. apply aset_eq. }
    exists (L ++ L2). rewrite app_assoc. split; [reflexivity|]. apply (holds_app _ _ _ _ _ H HL). intros g1 g2 s. rewrite ends_target, EN.
    assert (EL : forall g1 g2 s k, ends (set_score t (nil_score t) (set_flag t NIL_ASSIGNED (ss_list1 st))) (ss_list2 st) k g1 g2 s <->
      ends (set_score t (nil_score t) (set_flag t NIL_ASSIGNED l1)) l2 k g1 g2 s).
    { intros h1 h2 s' k. split; intros HE; apply (ends_like _ _ _ _ _ _ HE); try (apply like1_set; intros x Hx; destruct (K1 x Hx); auto); try exact K2.
      intros x. symmetry. apply K2. }
    rewrite EL. split; [intros [HE|[_ HE]] | intros [HE|HE]]; auto.
  - exists L. split; [reflexivity|]. refine (holds_iff _ _ _ H _). intros g1 g2 s. rewrite ends_target, EN. split; [now left | intros [HE|[HE _]]; [exact HE | discriminate]].
Qed.
End Element.

Lemma assign_list_finds : frames_ok -> forall fuel l1 l2 s acc, (List.length (unassigned l1) < fuel)%nat ->
  exists L, assign_list collect fuel l1 l2 s acc = Ret (acc ++ L) /\ holds L (ends l1 l2 s).
Proof.
  intros OK. induction fuel as [|f IH]; intros l1 l2 s acc HM; [lia|]. cbn [assign_list]. destruct (next_target l1) as [t|] eqn:HT.
  - apply (assign_target_finds OK); [exact HT|]. intros k1 k2 s' acc' v Hv HK HV. apply IH.
    enough (unassigned k1 = unassigned (set_score t s' (set_flag t v l1))) as -> by (pose proof (unassigned_less l1 t v s' HT Hv); lia).
    apply filter_ext_in. intros x _. cbn. unfold aset. destruct (Z.eqb_spec x t) as [->|]; [now rewrite HV | now rewrite (proj1 (HK x n))].
  - exists [(l1, l2, s)]. split; [reflexivity|]. intros g1 g2 s'. split.
    + intros H. inversion H; subst; try congruence. exists (l1, l2, s'). split; [now left|]. split; [assumption|]. split; [assumption|reflexivity].
    + intros (l & [<-|[]] & H1 & H2 & ->). now apply ends_done.
Qed.

(** ** What a correspondence is *)

(** The two lists are inverse to each other, and what is paired agrees and matches well enough. *)
Record paired (l1 l2 : LIST) : Prop := {
  pd_data : forall t, 0 <= t < element_num cfd -> flag l1 t = UNASSIGNED \/ flag l1 t = NIL_ASSIGNED \/ 0 <= flag l1 t < element_num cfp;
  pd_slot : forall i, 0 <= i < element_num cfp -> flag l2 i = UNASSIGNED \/ 0 <= flag l2 i < element_num cfd;
  pd_inverse : forall t i, 0 <= t < element_num cfd -> 0 <= i < element_num cfp -> (flag l1 t = i <-> flag l2 i = t);
  pd_agree : forall t i, 0 <= t < element_num cfd -> 0 <= i < element_num cfp -> flag l1 t = i ->
    exists c q, In c (pp cfd t) /\ In q (pp cfp i) /\ (c = q \/ c = MI /\ check_same_case (cf_sp cfd t) q cfp = true) /\
      good_match q (elmnt_score t i) = true
}.

Lemma no_list_paired : paired no_list no_list.
Proof. split; cbn; unfold UNASSIGNED; intros; lia. Qed.

Lemma slot_fits_agree : forall l2 t i, slot_fits l2 t i = true ->
  exists c q, In c (pp cfd t) /\ In q (pp cfp i) /\ (c = q \/ c = MI /\ check_same_case (cf_sp cfd t) q cfp = true) /\ good_match q (elmnt_score t i) = true.
Proof.
  intros l2 t i H. apply existsb_exists in H as (c & Hc & H). unfold case_fits in H. destruct (find _ _) as [q|] eqn:E; [|discriminate].
  apply find_some in E as [Hq E]. exists c, q. split; [exact Hc|]. split; [exact Hq|]. split; [|exact H]. unfold agrees in E.
  apply orb_prop in E as [E|E]; apply andb_prop in E as [E1 E2]; apply Z.eqb_eq in E1; auto.
Qed.

Lemma paired_assign : forall l1 l2 t i s, paired l1 l2 -> next_target l1 = Some t -> 0 <= i < element_num cfp -> flag l2 i = UNASSIGNED ->
  slot_fits l2 t i = true -> paired (set_score t s (set_flag t i l1)) (set_flag i t l2).
Proof.
  intros l1 l2 t i s [P1 P2 P3 P4] HT Hi HF HS. destruct (next_target_some _ _ HT) as [Ht HU]. unfold UNASSIGNED in *.
  assert (N : forall u, 0 <= u < element_num cfd -> flag l1 u <> i) by (intros u Hu E; apply P3 in E; lia).
  split; cbn; unfold aset.
  - intros u Hu. destruct (Z.eqb_spec u t); auto.
  - intros j Hj. destruct (Z.eqb_spec j i); auto.
  - intros u j Hu Hj. specialize (P3 u j Hu Hj). specialize (N u Hu). destruct (Z.eqb_spec u t), (Z.eqb_spec j i); split; intros E; subst; try lia; try (now apply P3).
  - intros u j Hu Hj. destruct (Z.eqb_spec u t) as [->|]; [intros <-; exact (slot_fits_agree _ _ _ HS) | apply P4; assumption].
Qed.

Lemma paired_nil : forall l1 l2 t s, paired l1 l2 -> next_target l1 = Some t -> paired (set_score t s (set_flag t NIL_ASSIGNED l1)) l2.
Proof.
  intros l1 l2 t s [P1 P2 P3 P4] HT. destruct (next_target_some _ _ HT) as [Ht HU]. unfold UNASSIGNED, NIL_ASSIGNED in *. split; cbn; unfold aset; [|exact P2| |].
  - intros u Hu. destruct (Z.eqb_spec u t); auto.
  - intros u j Hu Hj. destruct (Z.eqb_spec u t) as [->|]; [|now apply P3]. specialize (P3 t j Ht Hj). split; intros E; [lia|]. apply P3 in E. lia.
  - intros u j Hu Hj. destruct (Z.eqb_spec u t) as [->|]; [lia | apply P4; assumption].
Qed.

Lemma ends_paired : forall l1 l2 s g1 g2 s', ends l1 l2 s g1 g2 s' -> paired l1 l2 ->
  paired g1 g2 /\ forall t, 0 <= t < element_num cfd -> flag g1 t <> UNASSIGNED.
Proof.
  induction 1 as [l1 l2 s g1 g2 H [H1 _] H2|l1 l2 s t i g1 g2 s' H HI HF HS HE IH|l1 l2 s t g1 g2 s' H HN HE IH]; intros HP.
  - pose proof (next_target_none _ H) as HU. destruct HP as [P1 P2 P3 P4]. split; [|intros t Ht; rewrite <- H1; auto].
    split; intros; repeat rewrite <- ?H1, <- ?H2 in *; auto.
  - apply IH. now apply paired_assign.
  - apply IH. now apply paired_nil.
Qed.

(** ** Evaluation of lists that are alike *)
Lemma filter_ext' : forall {X} (p q : X -> bool) l, (forall x, p x = q x) -> filter p l = filter q l.
Proof. intros X p q l H. apply filter_ext_in. auto. Qed.

Lemma fold_res_ext : forall {X Y} (f g : X -> Y -> res Y) l, (forall x y, f x y = g x y) -> forall y, fold_res f l y = fold_res g l y.
Proof. intros X Y f g l H. induction l as [|x l IH]; intros y; [reflexivity|]. cbn [fold_res]. rewrite H. destruct (g x y); auto. Qed.

Definition value (list1 list2 : LIST) (score : double) : res rank :=
  if prob then ' (score, _) <- assign_probability list1 list2 ;; Ret (prob_rank list1 score)
  else
    n <- d_to_int score ;;
    _ <- empty_ga list2 ;;
    local <- local_score list1 list2 n ;;
    Ret (score_rank list1 local).

Lemma slots_like : forall l s a b, like2 a b ->
  fst (fold_left (fun st i => slot_probability i st) l (s, a)) = fst (fold_left (fun st i => slot_probability i st) l (s, b)) /\
  like2 (snd (fold_left (fun st i => slot_probability i st) l (s, a))) (snd (fold_left (fun st i => slot_probability i st) l (s, b))).
Proof.
  induction l as [|i l IH]; intros s a b H; cbn [fold_left fst snd]; [auto|]. unfold slot_probability at 2 4 6 8. rewrite (H i).
  destruct (flag b i =? UNASSIGNED); apply IH; exact H.
Qed.

Lemma slots_flags : forall l s a, like2 (snd (fold_left (fun st i => slot_probability i st) l (s, a))) a.
Proof.
  induction l as [|i l IH]; intros s a; cbn [fold_left snd]; [intros x; reflexivity|]. unfold slot_probability at 2. destruct (flag a i =? UNASSIGNED); [|apply IH].
  intros x. now rewrite (IH _ _ x).
Qed.

Lemma assign_probability_like : forall a1 a2 b1 b2, like1 a1 b1 -> like2 a2 b2 ->
  match assign_probability a1 a2 with
  | Ret (s, k) => exists k', assign_probability b1 b2 = Ret (s, k') /\ like2 k a2 /\ like2 k' b2
  | Err e => assign_probability b1 b2 = Err e
  end.
Proof.
  intros a1 a2 b1 b2 [F1 S1] H2. unfold assign_probability, for_res.
  rewrite (fold_res_ext (data_probability a1) (data_probability b1)) by (intros i [s h]; unfold data_probability; now rewrite F1, S1).
  destruct (fold_res _ _ _) as [[s h]|]; [|reflexivity]. unfold for_up.
  set (s0 := d_add s (get_topic_generating_probability h cfd)). destruct (slots_like (zrange 0 (element_num cfp)) s0 a2 b2 H2) as [E1 _].
  pose proof (slots_flags (zrange 0 (element_num cfp)) s0 a2) as Ka. pose proof (slots_flags (zrange 0 (element_num cfp)) s0 b2) as Kb.
  destruct (fold_left _ _ (s0, a2)) as [sa ka], (fold_left _ _ (s0, b2)) as [sb kb]. cbn [fst snd] in *. subst sb. eauto.
Qed.

Lemma closest_missing_like : forall a b, like1 a b -> closest_missing a = closest_missing b.
Proof. intros a b [F _]. unfold closest_missing. now rewrite F. Qed.

Lemma assigned_like : forall a b, like1 a b -> assigned a = assigned b.
Proof. intros a b [F _]. apply filter_ext'. intros i. now rewrite F. Qed.

Lemma filled_slots_like : forall a b, like2 a b -> filled_slots a = filled_slots b.
Proof. intros a b H. unfold filled_slots. now rewrite (filter_ext' _ (fun i => negb (flag b i =? UNASSIGNED))) by (intros i; now rewrite H). Qed.

Lemma local_score_like : forall a1 a2 b1 b2 n, like1 a1 b1 -> like2 a2 b2 -> local_score a1 a2 n = local_score b1 b2 n.
Proof.
  intros a1 a2 b1 b2 n H1 H2. unfold local_score, last_filled, count_pat_element.
  rewrite (assigned_like a1 b1 H1), (closest_missing_like a1 b1 H1), (filled_slots_like a2 b2 H2).
  rewrite (filter_ext' (fun i => negb (negb (oblig cfd i) && (flag a1 i =? NIL_ASSIGNED))) (fun i => negb (negb (oblig cfd i) && (flag b1 i =? NIL_ASSIGNED))))
    by (intros i; now rewrite (proj1 H1)).
  rewrite (filter_ext' (fun i => negb (flag a2 i =? UNASSIGNED)) (fun i => negb (flag b2 i =? UNASSIGNED))) by (intros i; now rewrite H2).
  rewrite (filter_ext' (fun i => negb (negb (oblig cfp i) && (flag a2 i =? UNASSIGNED))) (fun i => negb (negb (oblig cfp i) && (flag b2 i =? UNASSIGNED))))
    by (intros i; now rewrite H2).
  reflexivity.
Qed.

Lemma empty_ga_like : forall a b, like2 a b -> empty_ga a = empty_ga b.
Proof. intros a b H. unfold empty_ga. apply fold_res_ext. intros i r. now rewrite H. Qed.

Lemma score_rank_like : forall a b local, like1 a b -> score_rank a local = score_rank b local.
Proof.
  intros a b local H. unfold score_rank. rewrite (assigned_like a b H). f_equal. do 2 f_equal. apply map_ext. intros i. unfold crossings. f_equal.
  apply filter_ext'. intros j. now rewrite !(proj1 H).
Qed.

Lemma value_like : forall a1 a2 b1 b2 s, like1 a1 b1 -> like2 a2 b2 -> value a1 a2 s = value b1 b2 s.
Proof.
  intros a1 a2 b1 b2 s H1 H2. unfold value. destruct prob.
  - pose proof (assign_probability_like a1 a2 b1 b2 H1 H2) as H. destruct (assign_probability a1 a2) as [[p k]|e].
    + destruct H as (k' & -> & _). unfold prob_rank. now rewrite (closest_missing_like a1 b1 H1).
    + now rewrite H.
  - destruct (d_to_int s); [|reflexivity]. rewrite (empty_ga_like a2 b2 H2), (local_score_like a1 a2 b1 b2 _ H1 H2). destruct (empty_ga b2); [|reflexivity].
    destruct (local_score b1 b2 a); [|reflexivity]. now rewrite (score_rank_like a1 b1 _ H1).
Qed.

(** ** The best ones *)
Lemma better_iff : forall v c, better_rank v c = true <-> d_lt (Current_max_score c) (Current_max_score v) = true \/
  (d_eq (Current_max_score v) (Current_max_score c) = true /\
    (Current_max_m_e c < Current_max_m_e v \/ (Current_max_m_e c = Current_max_m_e v /\
      (Current_max_m_p c < Current_max_m_p v \/ (Current_max_m_p c = Current_max_m_p v /\ Current_max_c_e c < Current_max_c_e v))))).
Proof.
  intros v c. unfold better_rank. rewrite !orb_true_iff, !andb_true_iff, !Z.ltb_lt, !Z.eqb_eq.
  split; [intros [[[H|[H1 H2]]|[[H1 H2] H3]]|[[[H1 H2] H3] H4]] | intros [H|[H1 [H2|[H2 [H3|[H3 H4]]]]]]]; intuition (try lia).
Qed.

Lemma same_iff : forall v c, same_rank v c = true <-> d_eq (Current_max_score v) (Current_max_score c) = true /\
  Current_max_m_e v = Current_max_m_e c /\ Current_max_m_p v = Current_max_m_p c /\ Current_max_c_e v = Current_max_c_e c.
Proof. intros v c. unfold same_rank. rewrite !andb_true_iff, !Z.eqb_eq. tauto. Qed.

Lemma better_trans : forall a b c, better_rank a b = true -> better_rank b c = true -> better_rank a c = true.
Proof.
  intros a b c. rewrite !better_iff. intros [H1|[E1 H1]] [H2|[E2 H2]].
  - left. exact (d_lt_trans _ _ _ H2 H1).
  - left. now rewrite <- (proj1 (d_eq_lt _ _ (Current_max_score a) E2)).
  - left. now rewrite (proj2 (d_eq_lt _ _ (Current_max_score c) E1)).
  - right. split; [exact (d_eq_trans _ _ _ E1 E2) | lia].
Qed.

Lemma same_better : forall a b c, same_rank b c = true -> better_rank a b = true -> better_rank a c = true.
Proof.
  intros a b c HS. apply same_iff in HS as (E & S1 & S2 & S3). rewrite !better_iff, S1, S2, S3. intros [H|[H1 H2]].
  - left. now rewrite <- (proj1 (d_eq_lt _ _ (Current_max_score a) E)).
  - right. split; [exact (d_eq_trans _ _ _ H1 E) | exact H2].
Qed.

Lemma same_trans : forall a b c, same_rank a b = true -> same_rank b c = true -> same_rank a c = true.
Proof. intros a b c. rewrite !same_iff. intros (E1 & H1) (E2 & H2). split; [exact (d_eq_trans _ _ _ E1 E2) | lia]. Qed.

Lemma same_sym : forall a b, same_rank a b = true -> same_rank b a = true.
Proof. intros a b. rewrite !same_iff. rewrite d_eq_sym. intros (E & H). split; [exact E | lia]. Qed.

(** What is better or the same is a number. *)
Lemma same_refl_if : forall v c, better_rank v c || same_rank v c = true -> same_rank v v = true.
Proof.
  intros v c H. rewrite same_iff. split; [|auto]. apply d_eq_refl. apply orb_prop in H as [H|H].
  - apply better_iff in H as [H|[H _]]; [apply d_lt_nan in H | apply d_eq_nan in H]; apply H.
  - apply same_iff in H as [H _]. apply d_eq_nan in H. apply H.
Qed.

(** What an evaluation keeps: the new correspondence alone, behind the others, or not at all. *)
Inductive keeps (v : rank) (r : match_result) (cur : current) : current -> Prop :=
| keeps_new : forall suff, better_rank v (Current_rank cur) || same_rank v (Current_rank cur) = true -> keeps v r cur (mkCur v suff [r])
| keeps_also : same_rank v (Current_rank cur) = true -> zlen (Current_max cur) < MAX_MATCH_MAX ->
    keeps v r cur (mkCur (Current_rank cur) (Current_sufficiency cur) (Current_max cur ++ [r]))
| keeps_old : better_rank v (Current_rank cur) = false -> keeps v r cur cur.

Definition plain_rank (v : rank) : Prop := prob = true -> Current_max_m_e v = 0 /\ Current_max_m_p v = 0 /\ Current_max_c_e v = 0.

Lemma same_not_better : forall v c, same_rank v c = true -> better_rank v c = false.
Proof.
  intros v c H. apply same_iff in H as (E & H1 & H2 & H3). destruct (better_rank v c) eqn:B; [|reflexivity]. apply better_iff in B as [B|[_ B]]; [|lia].
  rewrite (proj1 (d_eq_lt _ _ _ (eq_trans (d_eq_sym _ _) E))) in B. now rewrite d_lt_irrefl in B.
Qed.

Lemma add_result_keeps : forall v r cur, same_rank v (Current_rank cur) = true -> keeps v r cur (add_result r cur).
Proof.
  intros v r cur H. unfold add_result. destruct (Z.ltb_spec (zlen (Current_max cur)) MAX_MATCH_MAX); [now apply keeps_also | now apply keeps_old, same_not_better].
Qed.

Lemma keep_prob_keeps : forall v r cur, prob = true -> plain_rank v -> plain_rank (Current_rank cur) -> keeps v r cur (keep_prob v r cur).
Proof.
  intros v r cur P HV HC. specialize (HV P) as (V1 & V2 & V3). specialize (HC P) as (C1 & C2 & C3). unfold keep_prob.
  assert (EB : better_rank v (Current_rank cur) = d_lt (Current_max_score (Current_rank cur)) (Current_max_score v)).
  { apply eq_true_iff_eq. rewrite better_iff. intuition lia. }
  assert (ES : same_rank v (Current_rank cur) = d_eq (Current_max_score v) (Current_max_score (Current_rank cur))).
  { apply eq_true_iff_eq. rewrite same_iff. intuition lia. }
  destruct (d_lt _ _) eqn:EL; [apply keeps_new; now rewrite EB|]. destruct (_ && _) eqn:EE; [|now apply keeps_old].
  apply andb_prop in EE as [EE _]. apply add_result_keeps. now rewrite ES.
Qed.

Lemma keep_score_keeps : forall v ga suff r cur, keeps v r cur (keep_score v ga suff r cur).
Proof.
  intros v ga suff r cur. unfold keep_score. destruct (better_rank v (Current_rank cur)) eqn:EB; cbn [orb]; [now apply keeps_new; rewrite EB|].
  destruct (same_rank v (Current_rank cur)) eqn:ES; cbn [andb]; [|now apply keeps_old]. destruct ga; cbn [negb]; [now apply add_result_keeps | apply keeps_new; now rewrite EB, ES].
Qed.

Lemma eval_assign_keeps : forall l1 l2 s v cur, value l1 l2 s = Ret v -> plain_rank (Current_rank cur) ->
  exists r cur', eval_assign l1 l2 s cur = Ret cur' /\ list_d r = l1 /\ like2 (list_p r) l2 /\ keeps v r cur cur' /\ plain_rank v.
Proof.
  intros l1 l2 s v cur HV HC. unfold value, eval_assign in *. destruct prob eqn:EP.
  - pose proof (assign_probability_like l1 l2 l1 l2 (conj (fun _ => eq_refl) (fun _ => eq_refl)) (fun _ => eq_refl)) as HL.
    unfold eval_assign_prob. destruct (assign_probability l1 l2) as [[p k]|]; [|discriminate]. destruct HL as (_ & _ & HK & _). injection HV as <-.
    assert (PR : plain_rank (prob_rank l1 p)) by (intros _; cbn; auto).
    eexists (mkMR l1 k p), _. split; [reflexivity|]. split; [reflexivity|]. split; [exact HK|]. split; [|exact PR]. now apply keep_prob_keeps.
  - destruct (d_to_int s) as [n|]; [|discriminate]. unfold eval_assign_score. destruct (empty_ga l2) as [ga|]; [|discriminate].
    destruct (local_score l1 l2 n) as [loc|]; [|discriminate]. injection HV as <-.
    eexists (mkMR l1 l2 (d_of_int n)), _. split; [reflexivity|]. split; [reflexivity|]. split; [intros x; reflexivity|]. split; [apply keep_score_keeps|].
    unfold plain_rank. rewrite EP. discriminate.
Qed.

(** The invariant of the search: [done] are the correspondences that were evaluated. *)
Record best_of (done : list leaf) (cur : current) : Prop := {
  bo_plain : plain_rank (Current_rank cur);
  bo_few : zlen (Current_max cur) <= MAX_MATCH_MAX;
  bo_best : forall l1 l2 s v, In (l1, l2, s) done -> value l1 l2 s = Ret v -> better_rank v (Current_rank cur) = false;
  bo_from : forall r, In r (Current_max cur) -> exists l2 s v, In (list_d r, l2, s) done /\ like2 (list_p r) l2 /\
    value (list_d r) l2 s = Ret v /\ same_rank v (Current_rank cur) = true;
  bo_none : Current_max cur = [] -> Current_rank cur = Current_rank no_current
}.

Lemma best_of_step : forall done l1 l2 s v cur, best_of done cur -> value l1 l2 s = Ret v ->
  exists cur', eval_assign l1 l2 s cur = Ret cur' /\ best_of (done ++ [(l1, l2, s)]) cur'.
Proof.
  intros done l1 l2 s v cur [B1 B2 B3 B4 B5] HV. destruct (eval_assign_keeps l1 l2 s v cur HV B1) as (r & cur' & E & <- & HR & HK & HP).
  exists cur'. split; [exact E|].
  assert (IN : forall k1 k2 k, In (k1, k2, k) (done ++ [(list_d r, l2, s)]) -> In (k1, k2, k) done \/ (k1, k2, k) = (list_d r, l2, s))
    by (intros k1 k2 k H; apply in_app_iff in H as [H|[H|[]]]; auto).
  assert (OLD : forall x, In x done -> In x (done ++ [(list_d r, l2, s)])) by (intros x H; apply in_app_iff; now left).
  destruct HK as [suff HN|HS HF|HN].
  - pose proof (same_refl_if _ _ HN) as HVV. split; cbn [Current_rank Current_max].
    + exact HP.
    + unfold zlen, MAX_MATCH_MAX. cbn. lia.
    + intros k1 k2 k w HI HW. apply IN in HI as [HI|HI].
      * destruct (better_rank w v) eqn:EB; [|reflexivity]. rewrite <- (B3 _ _ _ _ HI HW). apply orb_prop in HN as [HN|HN];
          [now rewrite (better_trans _ _ _ EB HN) | now rewrite (same_better _ _ _ HN EB)].
      * injection HI as -> -> ->. rewrite HV in HW. injection HW as <-. now apply same_not_better.
    + intros r' [<-|[]]. exists l2, s, v. split; [apply in_app_iff; right; now left | auto].
    + discriminate.
  - split; cbn [Current_rank Current_max].
    + exact B1.
    + unfold zlen in *. rewrite length_app. cbn. lia.
    + intros k1 k2 k w HI HW. apply IN in HI as [HI|HI]; [eauto|]. injection HI as -> -> ->. rewrite HV in HW. injection HW as <-. now apply same_not_better.
    + intros r' HI. apply in_app_iff in HI as [HI|[<-|[]]].
      * destruct (B4 r' HI) as (k2 & k & w & H1 & H2). exists k2, k, w. split; [now apply OLD | exact H2].
      * exists l2, s, v. split; [apply in_app_iff; right; now left | auto].
    + intros H. now apply app_eq_nil in H as [_ H].
  - split; [exact B1 | exact B2 | | | exact B5].
    + intros k1 k2 k w HI HW. apply IN in HI as [HI|HI]; [eauto|]. injection HI as -> -> ->. rewrite HV in HW. now injection HW as <-.
    + intros r' HI. destruct (B4 r' HI) as (k2 & k & w & H1 & H2). exists k2, k, w. split; [now apply OLD | exact H2].
Qed.

Lemma best_of_all : forall L done cur, best_of done cur -> (forall l1 l2 s, In (l1, l2, s) L -> exists v, value l1 l2 s = Ret v) ->
  exists cur', fold_res (eval_leaf eval_assign) L cur = Ret cur' /\ best_of (done ++ L) cur'.
Proof.
  induction L as [|[[l1 l2] s] L IH]; intros done cur HB HV; cbn [fold_res eval_leaf].
  - exists cur. rewrite app_nil_r. auto.
  - destruct (HV l1 l2 s (or_introl eq_refl)) as [v EV]. destruct (best_of_step done l1 l2 s v cur HB EV) as (cur1 & -> & HB1).
    destruct (IH _ _ HB1 (fun a b c H => HV a b c (or_intror H))) as (cur2 & E2 & HB2). exists cur2. split; [exact E2|]. now rewrite <- app_assoc in HB2.
Qed.

Lemma best_of_nothing : best_of [] no_current.
Proof. split; cbn; try (intros; contradiction); auto; [intros _; auto | unfold MAX_MATCH_MAX; lia]. Qed.

Lemma case_frame_match_current : frames_ok -> (forall g1 g2 s, correspondence g1 g2 s -> exists v, value g1 g2 s = Ret v) ->
  exists L cur, holds L correspondence /\ assign_list eval_assign search_fuel no_list no_list (d_of_int 0) no_current = Ret cur /\ best_of L cur.
Proof.
  intros OK HV. destruct (assign_list_finds OK search_fuel no_list no_list (d_of_int 0) []) as (L & E & HL).
  { unfold search_fuel, unassigned. pose proof (filter_length_le (fun i => flag no_list i =? UNASSIGNED) (zrange 0 (element_num cfd))) as H.
    rewrite length_zrange in H. lia. }
  destruct (assign_list_follows eval_assign _ _ _ _ _ _ E) as (L' & EL & F). cbn in EL. subst L'.
  destruct (best_of_all L [] no_current best_of_nothing) as (cur & EC & HB).
  { intros l1 l2 s HI. apply HV, HL. exists (l1, l2, s). split; [exact HI|]. repeat split. }
  exists L, cur. split; [exact HL|]. split; [now rewrite F | exact HB].
Qed.

(** With probabilities every correspondence has a value when the elements are basic phrases and their first cases are in the
    table. *)
Lemma prob_values : prob = true -> (forall t, elem_b_ptr pc t <> None) -> (forall t, 0 <= t < element_num cfd -> 0 <= first_pp (pp cfd t) < zlen PP_str_to_code) ->
  forall l1 l2 s, exists v, value l1 l2 s = Ret v.
Proof.
  intros P HB HC l1 l2 s. unfold value. rewrite P. unfold assign_probability, for_res.
  assert (F : forall l st, (forall t, In t l -> 0 <= t < element_num cfd) -> exists st', fold_res (data_probability l1) l st = Ret st').
  { induction l as [|t l IH]; intros [p h] Hl; [eexists; reflexivity|]. cbn [fold_res].
    assert (D : exists st', data_probability l1 t (p, h) = Ret st').
    { destruct (code_known _ (HC t (Hl t (or_introl eq_refl)))) as [k EK]. unfold data_probability, MatchPP. cbn zeta.
      destruct (Z.ltb_spec (first_pp (pp cfd t)) 0) as [HN|_]; [specialize (HC t (Hl t (or_introl eq_refl))); lia|]. rewrite EK.
      specialize (HB t). destruct (elem_b_ptr pc t) as [b|]; [|contradiction].
      destruct (flag l1 t =? NIL_ASSIGNED); cbn [negb];
        destruct (str_eq k "φ"), (str_eq k "修飾"); cbn [orb]; try destruct (CF_MatchPP _ _); eexists; reflexivity. }
    destruct D as [st' ->]. apply IH. intros u Hu. apply Hl. now right. }
  destruct (F (zrange 0 (element_num cfd)) (if cf_type cfp =? CF_PRED then get_cf_probability cfd cfp else d_of_int 0, false)
    (fun t Ht => proj1 (in_zrange _ _ _) Ht)) as [[p h] ->].
  destruct (for_up _ _ _ _) as [q k]. eexists; reflexivity.
Qed.

(** ** What the matching promises *)

(** C13: The search for correspondences between the elements of a predicate and the slots of a case frame ends, and the list
    of what it evaluates is exactly the set of complete correspondences: those that are reached when the elements,
    the ones with a particle first, go one after the other to an empty slot of an agreeing case with a good
    match, or, when that is allowed, to none.  The evaluation is a fold over that list. *)
Theorem correspondences_enumerated : frames_ok -> exists L,
  assign_list collect search_fuel no_list no_list (d_of_int 0) [] = Ret L /\
  (forall g1 g2 s, correspondence g1 g2 s <-> exists l, In l L /\ like_leaf l g1 g2 s) /\
  forall cur, assign_list eval_assign search_fuel no_list no_list (d_of_int 0) cur = fold_res (eval_leaf eval_assign) L cur.
Proof.
  intros OK. destruct (assign_list_finds OK search_fuel no_list no_list (d_of_int 0) []) as (L & E & HL).
  { unfold search_fuel, unassigned. pose proof (filter_length_le (fun i => flag no_list i =? UNASSIGNED) (zrange 0 (element_num cfd))) as H.
    rewrite length_zrange in H. lia. }
  destruct (assign_list_follows eval_assign _ _ _ _ _ _ E) as (L' & EL & F). cbn in EL. subst L'. eauto.
Qed.

(** C12: [case_frame_match] keeps the best correspondences: no complete correspondence of the predicate and the frame has a
    better rank than those in the result, by probability or by score, number, place and crossings of the
    elements; all of the result have the same rank, they are complete correspondences, and at most [MAX_MATCH_MAX]; the
    result is only empty when none is better than the value for failure. *)
Theorem case_frame_match_best : frames_ok -> (forall g1 g2 s, correspondence g1 g2 s -> exists v, value g1 g2 s = Ret v) ->
  exists mgr best, case_frame_match = Ret mgr /\ zlen (results mgr) <= MAX_MATCH_MAX /\
    (forall g1 g2 s v, correspondence g1 g2 s -> value g1 g2 s = Ret v -> better_rank v best = false) /\
    (forall r, In r (results mgr) -> exists g2 s v, correspondence (list_d r) g2 s /\ like2 (list_p r) g2 /\
      value (list_d r) g2 s = Ret v /\ same_rank v best = true) /\
    (results mgr = [] -> best = Current_rank no_current).
Proof.
  intros OK HV. destruct (case_frame_match_current OK HV) as (L & cur & HL & E & [_ B2 B3 B4 B5]).
  unfold case_frame_match. rewrite E. eexists _, (Current_rank cur). split; [reflexivity|]. cbn [results].
  split; [exact B2|]. split; [|split; [|exact B5]].
  - intros g1 g2 s v HC Hv. apply HL in HC as ([[l1 l2] s'] & HI & H1 & H2 & ->). apply (B3 _ _ _ _ HI). now rewrite (value_like l1 l2 g1 g2).
  - intros r HI. destruct (B4 r HI) as (k2 & k & w & HI' & H2 & H3 & H4). exists k2, k, w. split; [|auto]. apply HL.
    exists (list_d r, k2, k). split; [exact HI'|]. repeat split.
Qed.

(** C35: In every result of [case_frame_match] the two lists are inverse to each other, as the comment at [CF_MATCH_MGR]
    says: every element has a slot of the frame or none, an element has a slot exactly when the slot has that
    element, and the cases of the two agree. *)
Theorem case_frame_match_paired : frames_ok -> (forall g1 g2 s, correspondence g1 g2 s -> exists v, value g1 g2 s = Ret v) ->
  exists mgr, case_frame_match = Ret mgr /\ forall r, In r (results mgr) ->
    (forall t, 0 <= t < element_num cfd -> flag (list_d r) t = NIL_ASSIGNED \/ 0 <= flag (list_d r) t < element_num cfp) /\
    forall t i, 0 <= t < element_num cfd -> 0 <= i < element_num cfp ->
      (flag (list_d r) t = i <-> flag (list_p r) i = t) /\
      (flag (list_d r) t = i -> exists c q, In c (pp cfd t) /\ In q (pp cfp i) /\ (c = q \/ c = MI /\ check_same_case (cf_sp cfd t) q cfp = true) /\
        good_match q (elmnt_score t i) = true).
Proof.
  intros OK HV. destruct (case_frame_match_current OK HV) as (L & cur & HL & E & [_ _ _ B4 _]).
  unfold case_frame_match. rewrite E. eexists. split; [reflexivity|]. cbn [results]. intros r HI. destruct (B4 r HI) as (k2 & k & w & HI' & H2 & _).
  assert (HC : correspondence (list_d r) k2 k) by (apply HL; exists (list_d r, k2, k); repeat split; exact HI').
  apply ends_paired in HC as [[P1 P2 P3 P4] HU]; [|exact no_list_paired]. split.
  - intros t Ht. destruct (P1 t Ht) as [H|H]; [now apply HU in H | exact H].
  - intros t i Ht Hi. rewrite (H2 i). auto.
Qed.
End Match.

(** ** On a concrete frame: 太郎が本を読む *)
Definition example_slots (cases : list Z) : CASE_FRAME :=
  {| cf_type := CF_PRED; cf_type_flag := false; element_num := zlen cases; oblig := fun _ => true; adjacent := fun _ => false;
     pp := fun i => match nth_error cases (Z.to_nat i) with Some c => [c] | None => [] end; cf_sp := fun _ => END_M;
     cf_sm := fun _ => None; cf_ex := fun _ => None; ex_freq := fun _ => None; cf_entry := ""; etcflag := 0; weight := fun _ => 0; samecase := []; cf_pred_num := 2 |}.

(** A match costs 3, an empty slot 5. *)
Definition example_scores : CaseScores := {|
  elmnt_match_score := fun _ _ _ _ _ => Ret (0, d_of_int (-3)); get_cf_probability := fun _ _ => d_of_int 0;
  get_np_modifying_probability := fun _ _ => d_of_int 0; get_case_probability := fun _ _ _ => d_of_int (-5);
  get_case_probability_from_str := fun _ _ _ => d_of_int (-30); get_topic_generating_probability := fun _ _ => d_of_int 0;
  get_case_num_probability := fun _ _ => d_of_int 0; get_case_function_probability_for_pred := fun _ _ _ _ => d_of_int 0 |}.

Definition no_thesauri : Thesauri := {|
  th_case := no_case; th_check := bare_env; th_exist := fun _ => false; th_code_size := fun _ => 12; th_db := fun _ _ => None;
  noun_cache := fun _ => None; use_rn := false |}.

(** ヲ before ガ in the input, ガ, ヲ and ニ in the frame. *)
Definition example_input : CASE_FRAME := example_slots [2; 1].
Definition example_frame : CASE_FRAME := example_slots [1; 2; 3].
Definition example_cpm : CF_PRED_MGR := mkCPM example_input BNST_DATA_0 (fun _ => Some BNST_DATA_0) (fun i => i) (d_of_int 0) 0 [] 0.

Lemma example_ok : @frames_ok no_thesauri example_scores example_input example_frame EXAMPLE.
Proof.
  split.
  - intros i q Hi Hq. assert (i = 0 \/ i = 1 \/ i = 2) as [->|[->| ->]] by (change (element_num example_frame) with 3 in Hi; lia);
      destruct Hq as [<-|[]]; vm_compute; repeat split; discriminate.
  - intros t _. exists false. reflexivity.
  - intros t i _ _. eexists. reflexivity.
Qed.

Lemma example_values : forall l1 l2 s, exists v, @value example_scores true false example_input example_frame example_cpm 1 l1 l2 s = Ret v.
Proof.
  apply prob_values; [reflexivity | discriminate |]. intros t Ht. assert (t = 0 \/ t = 1) as [->| ->] by (change (element_num example_input) with 2 in Ht; lia);
    vm_compute; split; [discriminate | reflexivity | discriminate | reflexivity].
Qed.

Lemma correspondences_enumerated_witness : exists L,
  @assign_list no_thesauri example_scores true 0 example_input example_frame example_cpm EXAMPLE (list leaf) collect (search_fuel example_input)
    no_list no_list (d_of_int 0) [] = Ret L /\ List.length L = 1%nat.
Proof.
  destruct (@correspondences_enumerated no_thesauri example_scores true false 0 example_input example_frame example_cpm EXAMPLE 1 example_ok) as (L & E & _).
  exists L. split; [exact E|]. vm_compute in E. injection E as <-. reflexivity.
Defined.

(** The input is matched with the second and the first slot; the third one stays empty: -3 - 3 - 5. *)
Lemma case_frame_match_best_witness : exists mgr,
  @case_frame_match no_thesauri example_scores true false 0 example_input example_frame example_cpm EXAMPLE 1 = Ret mgr /\
    map (fun r => (flag (list_d r) 0, flag (list_d r) 1)) (results mgr) = [(1, 0)] /\ cmm_score mgr = d_of_int (-11).
Proof.
  destruct (@case_frame_match_best no_thesauri example_scores true false 0 example_input example_frame example_cpm EXAMPLE 1 example_ok
    (fun g1 g2 s _ => example_values g1 g2 s)) as (mgr & best & E & _).
  exists mgr. split; [exact E|]. vm_compute in E. injection E as <-. split; vm_compute; reflexivity.
Defined.

Lemma case_frame_match_paired_witness : exists mgr,
  @case_frame_match no_thesauri example_scores true false 0 example_input example_frame example_cpm EXAMPLE 1 = Ret mgr /\
    map (fun r => (flag (list_p r) 0, flag (list_p r) 1, flag (list_p r) 2)) (results mgr) = [(1, 0, UNASSIGNED)].
Proof.
  destruct (@case_frame_match_paired no_thesauri example_scores true false 0 example_input example_frame example_cpm EXAMPLE 1 example_ok
    (fun g1 g2 s _ => example_values g1 g2 s)) as (mgr & E & _).
  exists mgr. split; [exact E|]. vm_compute in E. injection E as <-. vm_compute. reflexivity.
Defined.

(** ** What the program finds *)

(** 未 has the code -3: an element of that case without a slot makes the evaluation read before the table of cases. *)
Lemma undecided_before_table : exists l2 cur,
  @eval_assign_prob example_scores (example_slots [MI]) example_frame example_cpm (-1) (set_flag 0 NIL_ASSIGNED no_list) l2 cur = Err OutOfBounds.
Proof. exists no_list, (no_current true). vm_compute. reflexivity. Qed.

(** The element before the predicate is not assigned yet when an element with ノ is: its flag -1 is used as an index. *)
Lemma adjacent_before_assigned : forall cfd cfp list1, element_num cfd = 1 -> adjacent cfd 0 = true -> flag list1 0 = UNASSIGNED ->
  check_adjacent_assigned cfd cfp list1 = Err OutOfBounds.
Proof.
  intros cfd cfp list1 HN HA HF. unfold check_adjacent_assigned. rewrite HN. change (zrange 0 1) with [0]. cbn [some_res]. now rewrite HA, HF.
Qed.
