(* ===== verification/CaseScore.v ===== *)
(** * The score of one element in one slot (src/system/case_match.c)

    [elmnt_match_score] by probabilities, by examples or by semantic codes: the instance of [CaseScores] for its first operation.
    How similar a word is to the examples of a slot, and the probabilities, are arguments.  The scores by
    examples and codes are integers that the program keeps in a [double]. *)
From Stdlib Require Import ZArith List Bool String Ascii Lia SpecFloat.
Import ListNotations.
From S2P Require Import Prelude CStr Feature Sentence SemCode CheckFunction Regexp PredCase Thesaurus Double Rounding CaseData CaseMatch.
Open Scope string_scope.
Open Scope list_scope.
Open Scope Z_scope.

Definition SM_match_score : list Z := [0; 10; 10; 10; 10; 10; 10; 10; 10; 10; 10; 10; 10].
Definition SM_match_unknown : Z := 10.
Definition EX_match_score : list Z := [0; 0; 0; 1; 3; 5; 8; 11].
Definition EX_match_unknown : Z := 6.
Definition EX_match_sentence : Z := 10.
Definition EX_match_tim : Z := 0.
Definition EX_match_tim2 : Z := 12.
Definition EX_match_tim3 : Z := 8.
Definition EX_match_qua : Z := 9.
Definition EX_match_exact : Z := 12.
Definition EX_match_subject : Z := 8.
Definition EX_match_modification : Z := 0.
Definition EX_match_demonstrative : Z := 0.

(** [calc_similarity_word_cf] gives [pos], MATCH_NONE when it does not set it, and the similarity. *)
Class WordSimilarity : Type := {
  SMExist : bool;
  calc_similarity : string -> string -> float;
  calc_similarity_word_cf : BNST_DATA -> CASE_FRAME -> Z -> Z * float;
  cf_match_sm_thesaurus : BNST_DATA -> CASE_FRAME -> Z -> bool;
  get_ex_probability_with_para : Z -> CASE_FRAME -> Z -> CASE_FRAME -> double;
  case_probability : Z -> CASE_FRAME -> double;
  get_case_function_probability : Z -> CASE_FRAME -> Z -> CASE_FRAME -> double
}.

Section Score.
Context `{T : Thesauri} `{W : WordSimilarity} (prob : bool) (pc : CF_PRED_MGR).

(** [cf_match_both_element(d, p, target, TRUE)]: without a thesaurus the function returns nothing. *)
Definition cf_match_both_element (d p : option string) (target : string) : res bool :=
  match p with
  | None => Ret false
  | Some p =>
      code <- class_code target ;;
      size <- match Thesaurus with
              | USE_BGH => Ret (Z.of_nat BGH_CODE_SIZE)
              | USE_NTT => Ret (Z.of_nat SM_CODE_SIZE)
              | _ => Err BadPointer
              end ;;
      match d with
      | None => Err NullDeref
      | Some d =>
          a <- _cf_match_element d code 0 size ;;
          if a then _cf_match_element p code 0 size else Ret false
      end
  end.

(** [cfd->pp[as1][1] != END_M] *)
Definition ambiguous_case (codes : list Z) : bool := match codes with _ :: _ :: _ => true | _ => false end.

Definition elmnt_match_score_each_sm (as1 : Z) (cfd : CASE_FRAME) (as2 : Z) (cfp : CASE_FRAME) : res Z :=
  let both := cf_match_both_element (cf_sm cfd as1) (cf_sm cfp as2) in
  sentence <- both "補文" ;;
  if (sentence : bool) then Ret EX_match_sentence
  else
    time <- both "時間" ;;
    if (time : bool) then
      slot <- MatchPP (first_pp (pp cfp as2)) "時間" ;;
      Ret (if slot then EX_match_tim else if ambiguous_case (pp cfd as1) then EX_match_tim3 else EX_match_tim2)
    else quantity <- both "数量" ;; Ret (if quantity then EX_match_qua else -100).

(** [calc_similarity_word_cf_with_sm] *)
Definition word_similarity (tp : BNST_DATA) (cfp : CASE_FRAME) (n : Z) : Z * float :=
  let '(pos, raw) := calc_similarity_word_cf tp cfp n in
  if d_lt (d_of_int 1) (d_of_float raw) then (pos, raw)
  else if cf_match_sm_thesaurus tp cfp n then (MATCH_SUBJECT, f_div (f_of_int EX_match_subject) (f_of_int 11))
  else (pos, raw).

(** [EX_match_score[(int)(ex_rawscore * 7)]] *)
Definition example_score (raw : float) : res Z :=
  n <- d_to_int (d_of_float (f_mul raw (f_of_int 7))) ;;
  match (if n <? 0 then None else nth_error EX_match_score (Z.to_nat n)) with Some s => Ret s | None => Err OutOfBounds end.

Definition first_char_0 (s : option string) : res bool := match s with Some s => Ret (str_eq s EmptyString) | None => Err NullDeref end.

(** [flag == EXAMPLE] without probabilities *)
Definition score_by_example (as1 : Z) (cfd : CASE_FRAME) (as2 : Z) (cfp : CASE_FRAME) : res (Z * Z) :=
  modifier <- MatchPP (first_pp (pp cfd as1)) "修飾" ;;
  if (modifier : bool) then Ret (MATCH_NONE, EX_match_modification)
  else
    match elem_b_ptr pc as1 with
    | None => Err NullDeref
    | Some tp =>
        if has_feature (b_f tp) "指示詞" then Ret (MATCH_NONE, EX_match_demonstrative)
        else
          let '(pos, raw) := if cf_type (cpm_cf pc) =? CF_PRED then word_similarity tp cfp as2 else calc_similarity_word_cf tp cfp as2 in
          let exact := d_lt (d_of_int 1) (d_of_float raw) in
          outside <- MatchPP (first_pp (pp cfp as2)) "外の関係" ;;
          if (outside : bool) then Ret (pos, if exact then 11 else 0)
          else if exact then Ret (pos, EX_match_exact)
          else if pos =? MATCH_SUBJECT then Ret (pos, EX_match_subject)
          else
            score <- elmnt_match_score_each_sm as1 cfd as2 cfp ;;
            no_ex <- first_char_0 (cf_ex cfd as1) ;;
            unknown <- (if (no_ex : bool) then first_char_0 (cf_sm cfd as1) else Ret false) ;;
            let '(raw, score) := if (unknown : bool) then (f_of_int 0, EX_match_unknown) else (raw, score) in
            ex_score <- example_score raw ;;
            Ret (pos, Z.max ex_score score)
    end.

(** The best match of the codes of the element with one code of the slot. *)
Definition code_score (sm code : string) (score : Z) : res Z :=
  cs <- code_tails (String.length sm) SM_CODE_SIZE sm ;;
  fold_res (fun c score =>
      n <- _sm_match_score code c SM_NO_EXPAND_NE ;;
      match (if n <? 0 then None else nth_error SM_match_score (Z.to_nat n)) with Some s => Ret (Z.max s score) | None => Err OutOfBounds end)
    cs score.

(** The codes of the slot; [inl] ends the loop: the example itself is in the frame. *)
Fixpoint score_codes (sm ex1 ex2 : string) (codes : list string) (score : Z) : res Z :=
  match codes with
  | [] => Ret score
  | code :: codes' =>
      arrow <- class_code "→" ;;
      if same_bytes 0 (Z.of_nat SM_CODE_SIZE) code arrow then
        n <- d_to_int (d_of_float (calc_similarity ex1 ex2)) ;;
        if n =? 1 then Ret 10 else score_codes sm ex1 ex2 codes' score
      else score <- code_score sm code score ;; score_codes sm ex1 ex2 codes' score
  end.

(** [flag == SEMANTIC_MARKER] *)
Definition score_by_codes (as1 : Z) (cfd : CASE_FRAME) (as2 : Z) (cfp : CASE_FRAME) : res Z :=
  if negb SMExist then Ret SM_match_unknown
  else
    no_sm <- first_char_0 (cf_sm cfd as1) ;;
    if (no_sm : bool) then Ret SM_match_unknown
    else
      match cf_sm cfp as2 with
      | None => Ret SM_match_unknown
      | Some EmptyString => Ret SM_match_unknown
      | Some slot =>
          codes <- code_tails (String.length slot) SM_CODE_SIZE slot ;;
          let text s := match s with Some s => s | None => EmptyString end in
          score_codes (text (cf_sm cfd as1)) (text (cf_ex cfd as1)) (text (cf_ex cfp as2)) codes (-100)
      end.

Definition match_score (as1 : Z) (cfd : CASE_FRAME) (as2 : Z) (cfp : CASE_FRAME) (flag : Z) : res (Z * double) :=
  if flag =? SEMANTIC_MARKER then s <- score_by_codes as1 cfd as2 cfp ;; Ret (MATCH_NONE, d_of_int s)
  else if flag =? EXAMPLE then
    if prob then
      Ret (MATCH_NONE, d_add (d_add (get_ex_probability_with_para as1 cfd as2 cfp) (case_probability as2 cfp))
                         (get_case_function_probability as1 cfd as2 cfp))
    else ' (pos, s) <- score_by_example as1 cfd as2 cfp ;; Ret (pos, d_of_int s)
  else Ret (MATCH_NONE, d_of_int (-100)).

(** * Properties *)

(** ** The range of the scores *)
Lemma example_score_range : forall raw n, example_score raw = Ret n -> 0 <= n <= 11.
Proof.
  intros raw n H. unfold example_score in H. destruct (d_to_int _) as [k|]; [|discriminate]. destruct (k <? 0); [discriminate|].
  destruct (nth_error EX_match_score (Z.to_nat k)) as [s|] eqn:E; [|discriminate]. injection H as <-. apply nth_error_In in E. cbn in E. lia.
Qed.

Ltac score_lia :=
  unfold EX_match_unknown, EX_match_sentence, EX_match_tim, EX_match_tim2, EX_match_tim3, EX_match_qua, EX_match_exact, EX_match_subject,
    EX_match_modification, EX_match_demonstrative in *; lia.

Lemma each_sm_range : forall as1 cfd as2 cfp n, elmnt_match_score_each_sm as1 cfd as2 cfp = Ret n -> -100 <= n <= 12.
Proof.
  intros as1 cfd as2 cfp n H. unfold elmnt_match_score_each_sm in H. destruct (cf_match_both_element _ _ "補文") as [[|]|]; [injection H as <-; score_lia | |discriminate].
  destruct (cf_match_both_element _ _ "時間") as [[|]|]; [| |discriminate].
  - destruct (MatchPP _ _) as [[|]|]; [| |discriminate]; injection H as <-; [score_lia|]. destruct (ambiguous_case _); score_lia.
  - destruct (cf_match_both_element _ _ "数量") as [[|]|]; [| |discriminate]; injection H as <-; score_lia.
Qed.

(** ** When the score is there *)

(** A number of the format from 0 to 1 *)
Definition from_0_to_1 (raw : float) : bool := valid_binary 24 128 raw && SFleb (f_of_int 0) raw && SFleb raw (f_of_int 1).

Lemma unit_score : forall raw, from_0_to_1 raw = true -> exists n, example_score raw = Ret n.
Proof.
  intros raw H. unfold from_0_to_1 in H. apply andb_true_iff in H as [H L1]. apply andb_true_iff in H as [V L0]. unfold example_score.
  destruct (seven_times_index raw V L0 L1) as (k & -> & K). replace (k <? 0) with false by lia.
  destruct (nth_error EX_match_score (Z.to_nat k)) as [n|] eqn:E; [eauto|]. apply nth_error_None in E. cbn [List.length EX_match_score] in E. lia.
Qed.

(** A string of whole codes; what a code of a proper noun stands for is one, too. *)
Definition whole_codes (size : nat) (cs : string) : bool := Nat.eqb (String.length cs mod size) 0.

Definition sm_size : nat := match Thesaurus with USE_BGH => BGH_CODE_SIZE | _ => SM_CODE_SIZE end.

Definition readable_code (d : string) : bool :=
  if first_byte d =? chr "2" then match smp2smg d with Ret (Some c) => whole_codes SM_CODE_SIZE c | Ret None => true | Err _ => false end else true.

Definition readable_codes (cs : string) : bool :=
  whole_codes sm_size cs && match code_tails (String.length cs) sm_size cs with Ret ds => forallb readable_code ds | Err _ => false end.

Lemma code_tails_whole : forall size k cs, (0 < size)%nat -> String.length cs = (k * size)%nat -> forall fuel, (k <= fuel)%nat -> exists ds, code_tails fuel size cs = Ret ds.
Proof.
  intros size. induction k as [|k IH]; intros cs Hs L fuel Hf.
  - destruct cs; [|discriminate L]. destruct fuel; eexists; reflexivity.
  - destruct fuel as [|fuel]; [lia|]. destruct cs as [|c cs]; [cbn in L; lia|]. cbn [code_tails]. replace (slen (String c cs) <? Z.of_nat size) with false by (unfold slen; lia).
    destruct (IH (sdrop size (String c cs)) Hs) with (fuel := fuel) as [ds ->]; [rewrite sdrop_length; lia | lia | eauto].
Qed.

Lemma whole_tails : forall size cs, (0 < size)%nat -> whole_codes size cs = true -> exists ds, code_tails (String.length cs) size cs = Ret ds.
Proof.
  intros size cs H C. apply Nat.eqb_eq in C. apply Nat.Div0.div_exact in C. apply code_tails_whole with (k := (String.length cs / size)%nat); [exact H | lia|].
  apply Nat.Div0.div_le_upper_bound. nia.
Qed.

Lemma element_returns : forall d p start len, readable_codes d = true -> whole_codes sm_size p = true -> exists b, _cf_match_element d p start len = Ret b.
Proof.
  intros d p start len Hd Hp. unfold readable_codes, sm_size in Hd, Hp. unfold _cf_match_element. destruct Thesaurus; [eauto | | | eauto].
  - apply andb_true_iff in Hd as [_ Hd]. destruct (code_tails _ _ d) as [ds|]; [|discriminate].
    destruct (whole_tails BGH_CODE_SIZE p ltac:(unfold BGH_CODE_SIZE; lia) Hp) as [ps ->]. eauto.
  - apply andb_true_iff in Hd as [_ Hd]. destruct (code_tails _ _ d) as [ds|]; [|discriminate]. clear Hp. induction ds as [|c ds IH]; [eexists; reflexivity|].
    cbn [forallb] in Hd. apply andb_true_iff in Hd as [Hc Hd]. cbn [some_res]. specialize (IH Hd). unfold readable_code in Hc. destruct (_ =? _).
    + destruct (smp2smg c) as [[code|]|]; [| |discriminate]; [|exact IH]. destruct (whole_tails SM_CODE_SIZE code ltac:(unfold SM_CODE_SIZE; lia) Hc) as [cs ->].
      destruct (existsb _ cs); eauto.
    + destruct (same_bytes _ _ _ _); eauto.
Qed.

(** The element [as1] is the unit [tp] and has lists of whole codes, the thesaurus knows the three common classes, and the
    first cases of the element and of the slot are cases of the table. *)
Record readable_pair (as1 : Z) (cfd : CASE_FRAME) (as2 : Z) (cfp : CASE_FRAME) (tp : BNST_DATA) (ex sm : string) : Prop := {
  rp_thesaurus : Thesaurus = USE_BGH \/ Thesaurus = USE_NTT;
  rp_classes : forall name, In name ["補文"; "時間"; "数量"] -> exists code, class_code name = Ret code /\ whole_codes sm_size code = true;
  rp_element : elem_b_ptr pc as1 = Some tp;
  rp_ex : cf_ex cfd as1 = Some ex;
  rp_sm : cf_sm cfd as1 = Some sm;
  rp_codes : readable_codes sm = true;
  rp_slot : forall slot, cf_sm cfp as2 = Some slot -> readable_codes slot = true;
  rp_case : first_pp (pp cfd as1) < zlen PP_str_to_code;
  rp_slot_case : first_pp (pp cfp as2) < zlen PP_str_to_code
}.

Lemma case_found : forall n name, n < zlen PP_str_to_code -> exists b, MatchPP n name = Ret b.
Proof.
  intros n name H. unfold MatchPP. destruct (n <? 0) eqn:N; [eauto|]. unfold pp_code_to_kstr. rewrite N.
  destruct (nth_error PP_str_to_code (Z.to_nat n)) as [[[h k] c]|] eqn:E; [eauto|]. apply nth_error_None in E. unfold zlen in H. lia.
Qed.

Lemma each_sm_returns : forall as1 cfd as2 cfp tp ex sm, readable_pair as1 cfd as2 cfp tp ex sm -> exists n, elmnt_match_score_each_sm as1 cfd as2 cfp = Ret n.
Proof.
  intros as1 cfd as2 cfp tp ex sm R. unfold elmnt_match_score_each_sm. rewrite (rp_sm _ _ _ _ _ _ _ R).
  assert (B : forall name, In name ["補文"; "時間"; "数量"] -> exists b, cf_match_both_element (Some sm) (cf_sm cfp as2) name = Ret b).
  { intros name HN. unfold cf_match_both_element. destruct (cf_sm cfp as2) as [slot|] eqn:S; [|eauto].
    destruct (rp_classes _ _ _ _ _ _ _ R name HN) as (code & -> & HC).
    destruct (element_returns sm code 0 (Z.of_nat sm_size) (rp_codes _ _ _ _ _ _ _ R) HC) as [b1 E1].
    destruct (element_returns slot code 0 (Z.of_nat sm_size) (rp_slot _ _ _ _ _ _ _ R slot S) HC) as [b2 E2].
    unfold sm_size in E1, E2. destruct (rp_thesaurus _ _ _ _ _ _ _ R) as [T1|T1]; rewrite T1 in *; cbn iota in *; rewrite E1; (destruct b1; [rewrite E2|]); eauto. }
  destruct (B "補文") as [[|] ->]; [cbn; auto | eauto|]. destruct (B "時間") as [[|] ->]; [cbn; auto | |].
  - destruct (case_found _ "時間" (rp_slot_case _ _ _ _ _ _ _ R)) as [b ->]. eauto.
  - destruct (B "数量") as [b ->]; [cbn; auto | eauto].
Qed.


(** What [calc_similarity_word_cf] gives for the unit: a similarity from 0 to 1, one above 1 for the word itself, or any number, which
    is not used, for a unit that has neither codes nor classes.  In the program the number for a unit without codes is -1. *)
Definition similarity_known (tp : BNST_DATA) (cfp : CASE_FRAME) (as2 : Z) (ex sm : string) : Prop :=
  let raw := snd (calc_similarity_word_cf tp cfp as2) in
  from_0_to_1 raw = true \/ d_lt (d_of_int 1) (d_of_float raw) = true \/ (ex = EmptyString /\ sm = EmptyString).

Lemma score_by_example_returns : forall as1 cfd as2 cfp tp ex sm, readable_pair as1 cfd as2 cfp tp ex sm -> similarity_known tp cfp as2 ex sm ->
  exists pos n, score_by_example as1 cfd as2 cfp = Ret (pos, n).
Proof.
  intros as1 cfd as2 cfp tp ex sm R K. unfold score_by_example. destruct (case_found _ "修飾" (rp_case _ _ _ _ _ _ _ R)) as [[|] ->]; [eauto|].
  rewrite (rp_element _ _ _ _ _ _ _ R). destruct (has_feature _ _); [eauto|]. destruct (case_found _ "外の関係" (rp_slot_case _ _ _ _ _ _ _ R)) as [o ->].
  destruct (each_sm_returns _ _ _ _ _ _ _ R) as [e ->]. rewrite (rp_ex _ _ _ _ _ _ _ R), (rp_sm _ _ _ _ _ _ _ R). cbn [first_char_0].
  unfold similarity_known in K. unfold word_similarity. destruct (calc_similarity_word_cf tp cfp as2) as [pos raw]. cbn [snd] in K.
  assert (D : exists pos' raw', (if cf_type (cpm_cf pc) =? CF_PRED then if d_lt (d_of_int 1) (d_of_float raw) then (pos, raw)
      else if cf_match_sm_thesaurus tp cfp as2 then (MATCH_SUBJECT, f_div (f_of_int EX_match_subject) (f_of_int 11)) else (pos, raw) else (pos, raw)) = (pos', raw')
      /\ (pos' = MATCH_SUBJECT \/ raw' = raw)).
  { destruct (_ =? CF_PRED); [|eauto]. destruct (d_lt _ _); [eauto|]. destruct (cf_match_sm_thesaurus _ _ _); eauto. }
  destruct D as (pos' & raw' & -> & D). destruct o; [eauto|]. destruct (d_lt _ (d_of_float raw')) eqn:X; [eauto|]. destruct (pos' =? MATCH_SUBJECT) eqn:Y; [eauto|].
  destruct D as [D| ->]; [lia|]. destruct K as [K|[K|[H1 H2]]]; [|congruence|subst ex sm].
  - destruct (unit_score raw K) as [x EX]. destruct (str_eq ex ""); [destruct (str_eq sm "")|]; cbn iota; rewrite ?EX; eauto.
    destruct (unit_score (f_of_int 0) eq_refl) as [y ->]. eauto.
  - change (str_eq "" "") with true. cbn iota. destruct (unit_score (f_of_int 0) eq_refl) as [y ->]. eauto.
Qed.

Lemma score_by_example_range : forall as1 cfd as2 cfp pos n, score_by_example as1 cfd as2 cfp = Ret (pos, n) -> 0 <= n <= 12.
Proof.
  intros as1 cfd as2 cfp pos n E. unfold score_by_example in E. destruct (MatchPP _ "修飾") as [[|]|]; [injection E as _ <-; score_lia | |discriminate].
  destruct (elem_b_ptr pc as1) as [tp|]; [|discriminate]. destruct (has_feature _ _); [injection E as _ <-; score_lia|].
  destruct (if cf_type (cpm_cf pc) =? CF_PRED then word_similarity tp cfp as2 else calc_similarity_word_cf tp cfp as2) as [q raw].
  destruct (MatchPP _ "外の関係") as [[|]|]; [| |discriminate].
  { injection E as _ <-. destruct (d_lt _ _); lia. }
  destruct (d_lt _ _); [injection E as _ <-; score_lia|]. destruct (q =? MATCH_SUBJECT); [injection E as _ <-; score_lia|].
  destruct (elmnt_match_score_each_sm _ _ _ _) as [e|] eqn:EE; [|discriminate]. apply each_sm_range in EE.
  destruct (first_char_0 (cf_ex cfd as1)) as [no_ex|]; [|discriminate].
  destruct (if no_ex then _ else _) as [[|]|]; [| |discriminate]; (destruct (example_score _) as [x|] eqn:EX; [|discriminate]); apply example_score_range in EX;
    injection E as _ <-; score_lia.
Qed.

End Score.

Instance case_scores `{T : Thesauri} `{W : WordSimilarity} (prob : bool) (pc : CF_PRED_MGR) (S : CaseScores) : CaseScores := {|
  elmnt_match_score := match_score prob pc; get_cf_probability := @get_cf_probability S; get_np_modifying_probability := @get_np_modifying_probability S;
  get_case_probability := @get_case_probability S; get_case_probability_from_str := @get_case_probability_from_str S;
  get_topic_generating_probability := @get_topic_generating_probability S; get_case_num_probability := @get_case_num_probability S;
  get_case_function_probability_for_pred := @get_case_function_probability_for_pred S |}.

(** ** On concrete words *)
Definition no_codes : Thesauri := {|
  th_case := no_case; th_check := {| env_sem := {| SMP2SMGExist := false; smp2smg_db := fun _ => None; SM2CODEExist := true; sm2code_db := fun _ => Some "300000000000" |};
                                     Thesaurus := USE_NTT; Options := []; NV_MI_Exist := false; nv_mi_db := fun _ => None |};
  th_exist := fun _ => false; th_code_size := fun _ => 12; th_db := fun _ _ => None; noun_cache := fun _ => None; use_rn := false |}.

(** Every word has the given similarity to the examples of a slot. *)
Definition similarity (raw : float) : WordSimilarity := {|
  SMExist := true; calc_similarity := fun _ _ => f_of_int 0; calc_similarity_word_cf := fun _ _ _ => (MATCH_NONE, raw);
  cf_match_sm_thesaurus := fun _ _ _ => false; get_ex_probability_with_para := fun _ _ _ _ => d_of_int 0; case_probability := fun _ _ => d_of_int 0;
  get_case_function_probability := fun _ _ _ _ => d_of_int 0 |}.

(** An element of the case 1 with the codes [ex] of its word and the class [sm]. *)
Definition element_of (ex sm : string) : CASE_FRAME :=
  {| cf_type := CF_PRED; cf_type_flag := false; element_num := 1; oblig := fun _ => true; adjacent := fun _ => false; pp := fun _ => [1]; cf_sp := fun _ => END_M;
     cf_sm := fun _ => Some sm; cf_ex := fun _ => Some ex; ex_freq := fun _ => None; cf_entry := ""; etcflag := 0; weight := fun _ => 0; samecase := []; cf_pred_num := 1 |}.

(** A similarity of 6/7 scores 8; the codes of the word are those of the class of 補文 but for the last digit. *)
Lemma example_readable : @readable_pair no_codes example_cpm 0 (element_of "300000000001" "400000000001") 0 example_frame BNST_DATA_0 "300000000001" "400000000001".
Proof.
  split; try reflexivity; [now right | |].
  - intros name _. exists "300000000000". split; reflexivity.
  - intros slot H. vm_compute in H. discriminate H.
Qed.


(** ** What the program finds *)

(** A word without codes has the similarity -1; with a class from a rule it is not set to 0, and the table of scores is
    read at -7. *)
Lemma no_codes_out_of_bounds : @match_score no_codes (similarity (f_of_int (-1))) false example_cpm 0 (element_of "" "500000000000") 0 example_frame EXAMPLE = Err OutOfBounds.
Proof. vm_compute. reflexivity. Qed.
