(* ===== verification/CaseSim.v ===== *)
(** * The similarity of words by their codes (src/system/thesaurus.c, lib_sm.c, case_match.c)

    Two codes are as similar as the part of their ways from the root that they share; two words are as similar as
    the best pair of their codes.  The comment in the code gives the range from 0 to 1, which is also what the case analysis
    relies on: a greater value stands for an equal word, and seven times the value is the index into a
    table of scores. *)
From Stdlib Require Import ZArith List Bool String Ascii Lia SpecFloat.
Import ListNotations.
From S2P Require Import Prelude CStr Feature Sentence SemCode CheckFunction Regexp PredCase Thesaurus Double CaseData CaseMatch CaseScore.
Open Scope string_scope.
Open Scope list_scope.
Open Scope Z_scope.

(** SM_NO_EXPAND_NE, SM_EXPAND_NE and SM_EXPAND_NE_DATA; the value 0 of some calls is [ExpandOther]. *)
Inductive ne_expand : Type := NoExpand | ExpandNE | ExpandData | ExpandOther.

(** [(float)2 * n / d] *)
Definition twice_over (n d : Z) : float := f_div (f_mul (f_of_int 2) (f_of_int n)) (f_of_int d).

Definition f_lt : float -> float -> bool := SFltb.

(** The first place from [i] on, up to [min], where two codes differ *)
Definition differ_at (c1 c2 : string) (min : Z) : option Z :=
  find_up 1 (min + 1) (fun i => negb (byte_at c1 (Z.to_nat i) =? byte_at c2 (Z.to_nat i))).

Definition _ntt_code_match (c1 c2 : string) : float :=
  if negb (Bool.eqb (byte_at c1 0 =? chr "2"%char) (byte_at c2 0 =? chr "2"%char)) then f_of_int 0
  else
    let d1 := code_depth c1 (Z.of_nat SM_CODE_SIZE) in
    let d2 := code_depth c2 (Z.of_nat SM_CODE_SIZE) in
    let min := Z.min d1 d2 in
    if (d1 + d2 =? 0) || (min =? 0) then f_of_int 0
    else match differ_at c1 c2 min with Some i => twice_over (i - 1) (d1 + d2) | None => twice_over min (d1 + d2) end.

(** Another thesaurus: its codes are compared in parts of the lengths in [format]. *)
Fixpoint shared_parts (format : list Z) (c1 c2 : string) (l : Z) : option Z :=
  match format with
  | [] => None
  | n :: format' => if same_bytes l n c1 c2 then shared_parts format' c1 c2 (l + n) else Some l
  end.

Definition general_code_match (code_size : Z) (format : list Z) (c1 c2 : string) : float :=
  let d1 := code_depth c1 code_size in
  let d2 := code_depth c2 code_size in
  let min := Z.min d1 d2 in
  if (d1 + d2 =? 0) || (min =? 0) then f_of_int 0
  else match shared_parts format c1 c2 0 with Some l => twice_over l (d1 + d2) | None => twice_over min (d1 + d2) end.

(** The greatest of the values of a list *)
Definition f_max (s : float) (v : float) : float := if f_lt s v then v else s.

Definition f_best (f : string -> float) (cs : list string) (s : float) : float := fold_left (fun s c => f_max s (f c)) cs s.

Section Similarity.
Context `{T : Thesauri} (code_size : Z) (format : list Z).

(** [smp2smg(cpd, FALSE)]: without the codes of side effects *)
Fixpoint plain_codes (fuel : nat) (cp : string) : res string :=
  match fuel, cp with
  | _, EmptyString => Ret EmptyString
  | O, _ => Err OutOfFuel
  | S f, _ =>
      if slen cp <? Z.of_nat SM_CODE_SIZE then Err OutOfBounds
      else
        let rest := sdrop SM_CODE_SIZE cp in
        let side := negb (starts_with "/" rest) && starts_with " side-effect" rest in
        let more := if starts_with "/" rest then Some (sdrop 1 rest)
                    else if starts_with " side-effect" rest then
                      if starts_with "/" (sdrop 12 rest) then Some (sdrop 13 rest) else None
                    else match rest with String _ r => Some r | EmptyString => None end in
        let code := if side then EmptyString else stake SM_CODE_SIZE cp in
        match more with
        | Some r => codes <- plain_codes f r ;; Ret (code ++ codes)%string
        | None => Ret code
        end
  end.

Definition smp2smg_plain (cpd : string) : res (option string) :=
  if negb SMP2SMGExist then Ret None
  else
    match _smp2smg cpd with
    | None => Ret None
    | Some start => codes <- plain_codes (String.length start) start ;; Ret (if str_eq codes EmptyString then None else Some codes)
    end.

(** The codes that a code stands for: those of a proper noun are looked up. *)
Definition expanded (c : string) : res (option (list string)) :=
  if byte_at c 0 =? chr "2"%char then
    codes <- smp2smg_plain c ;;
    match codes with
    | None => Ret None
    | Some codes => cs <- code_tails (String.length codes) SM_CODE_SIZE codes ;; Ret (Some cs)
    end
  else Ret (Some [c]).

Definition ntt_code_match (c1 c2 : string) (flag : ne_expand) : res float :=
  match flag with
  | ExpandNE =>
      cs1 <- expanded c1 ;;
      match cs1 with
      | None => Ret (f_of_int 0)
      | Some cs1 =>
          cs2 <- expanded c2 ;;
          match cs2 with
          | None => Ret (f_of_int 0)
          | Some cs2 => Ret (fold_left (fun s c => f_best (_ntt_code_match c) cs2 s) cs1 (f_of_int 0))
          end
      end
  | ExpandData =>
      if byte_at c1 0 =? chr "2"%char then Ret (_ntt_code_match c1 c2)
      else
        cs2 <- expanded c2 ;;
        match cs2 with
        | None => Ret (f_of_int 0)
        | Some cs2 => Ret (f_best (_ntt_code_match c1) cs2 (f_of_int 0))
        end
  | _ => Ret (_ntt_code_match c1 c2)
  end.

(** The similarity of two codes, by the thesaurus *)
Definition code_similarity (flag : ne_expand) (p d : string) : res float :=
  match Thesaurus with
  | USE_BGH => Ret (f_of_int (bgh_code_match_for_case p d))
  | USE_NTT => ntt_code_match p d flag
  | _ => Ret (general_code_match code_size format p d)
  end.

Definition step_size : nat := match Thesaurus with USE_BGH => BGH_CODE_SIZE | USE_NTT => SM_CODE_SIZE | _ => Z.to_nat code_size end.

Definition data_expand (expand : ne_expand) : ne_expand :=
  match Thesaurus, expand with
  | USE_NTT, NoExpand => NoExpand
  | USE_NTT, _ => ExpandData
  | _, _ => expand
  end.

Definition best_code (flag : ne_expand) (p : string) (ds : list string) (score : float) : res float :=
  fold_res (fun d s => v <- code_similarity flag p d ;; Ret (f_max s v)) ds score.

Definition calc_similarity (exd exp : option string) (expand : ne_expand) : res float :=
  match exd, exp with
  | Some exd, Some exp =>
      if str_eq exd "" || str_eq exp "" then Ret (f_of_int 0)
      else
        match Thesaurus with
        | USE_NONE => Ret (f_of_int 0)
        | _ =>
            ps <- code_tails (String.length exp) step_size exp ;;
            ds <- code_tails (String.length exd) step_size exd ;;
            score <- fold_res (fun p s => best_code (data_expand expand) p ds s) ps (f_of_int 0) ;;
            Ret (match Thesaurus with USE_BGH => f_div score (f_of_int 7) | _ => score end)
        end
  | _, _ => Ret (f_of_int 0)
  end.

(** ** Words and lists of words *)
Definition Thesaurus_flag : res Z := match Thesaurus with USE_NONE => Ret (-1) | USE_BGH => Ret USE_BGH_ID | USE_NTT => Ret USE_NTT_ID | USE_OTHER => Ret 0 end.

Definition calc_word_similarity (exd exp : string) : res float :=
  flag <- Thesaurus_flag ;;
  smd <- get_str_code exd flag ;;
  smp <- get_str_code exp flag ;;
  match smd, smp with
  | Some smd, Some smp => calc_similarity (Some smd) (Some smp) ExpandOther
  | _, _ => Ret (f_of_int 0)
  end.

(** The codes [sm] without those in [del]; codes of proper nouns stay. *)
Definition delete_specified_sm (sm del : string) : res string :=
  cs <- code_tails (String.length sm) SM_CODE_SIZE sm ;;
  ds <- code_tails (String.length del) SM_CODE_SIZE del ;;
  Ret (String.concat EmptyString (map (stake SM_CODE_SIZE)
    (filter (fun c => (byte_at c 0 =? chr "2"%char) || negb (existsb (same_bytes 1 (Z.of_nat SM_CODE_SIZE - 1) c) ds)) cs))).

Definition calc_sm_word_similarity (smd : option string) (exp : string) (del : option string) (expand : ne_expand) : res float :=
  flag <- Thesaurus_flag ;;
  smp <- get_str_code exp flag ;;
  match smp with
  | None => Ret (f_of_int 0)
  | Some smp =>
      smp <- (match Thesaurus, del with USE_NTT, Some del => delete_specified_sm smp del | _, _ => Ret smp end) ;;
      match smd with
      | Some _ => if str_eq smp "" then Ret (f_of_int 0) else calc_similarity smd (Some smp) expand
      | None => Ret (f_of_int 0)
      end
  end.

(** The greatest similarity and the place of the first word that has it; [pos] is only set by a word with some. *)
Definition best_word (sim : string -> res float) (i : Z) (w : string) (st : option Z * float) : res (option Z * float) :=
  score <- sim w ;; Ret (if f_lt (snd st) score then (Some i, score) else st).

Fixpoint best_words (sim : string -> res float) (i : Z) (ws : list string) (st : option Z * float) : res (option Z * float) :=
  match ws with
  | [] => Ret st
  | w :: ws' => st <- best_word sim i w st ;; best_words sim (i + 1) ws' st
  end.

Definition calc_words_similarity (exd : string) (exp : list string) : res (option Z * float) :=
  best_words (calc_word_similarity exd) 0 exp (None, f_of_int 0).

(** A word that must not match counts as 0, as it never replaces the best one. *)
Definition calc_sm_words_similarity (smd : option string) (exp : list string) (del : option string) (expand : ne_expand) (unmatch_word : option string) :
  res (option Z * float) :=
  best_words (fun w => if match unmatch_word with Some u => str_eq w u | None => false end then Ret (f_of_int 0)
                       else calc_sm_word_similarity smd w del expand) 0 exp (None, f_of_int 0).

(** [_calc_similarity_sm_cf], with the restriction, the examples and the excluded codes of the slot *)
Definition _calc_similarity_sm_cf (exd : option string) (expand : ne_expand) (unmatch_word : option string)
  (sm_specify : option string) (ex_list : list string) (sm_delete : option string) : res (option Z * float) :=
  match sm_specify with
  | Some sm => s <- calc_similarity exd (Some sm) expand ;; Ret (None, s)
  | None => calc_sm_words_similarity exd ex_list sm_delete expand unmatch_word
  end.
(** ** The classes of a slot ([cf_match_sm_thesaurus]) *)
Definition sms_match (cpp cpd : string) (expand : sm_flag) : res bool :=
  match Thesaurus with
  | USE_BGH => bgh_match_check cpp cpd
  | USE_NTT => sm_match_check cpp cpd expand
  | _ => Ret false
  end.

(** [!strncmp(c, sm2code(name), step)] *)
Definition is_class (step : nat) (c name : string) : res bool := k <- class_code name ;; Ret (same_bytes 0 (Z.of_nat step) c k).

(** One class [c] of the slot [n] against the codes of the unit *)
Definition slot_class (step : nat) (tp : BNST_DATA) (cfp : CASE_FRAME) (n : Z) (c : string) : res bool :=
  let expand := if has_feature (b_f tp) "Ｔ固有一般展開禁止" then SM_NO_EXPAND_NE else SM_EXPAND_NE in
  let code := match Thesaurus with USE_BGH => b_BGH_code tp | _ => b_SM_code tp end in
  agent <- some_res (is_class step c) ["主体"; "人"; "組織"] ;;
  if (agent : bool) then
    if has_feature (b_f tp) "非主体" then Ret false
    else wo <- MatchPP (first_pp (pp cfp n)) "ヲ" ;; if (wo : bool) then Ret false else sms_match c code expand
  else
    motion <- (match Thesaurus with USE_NTT => is_class SM_CODE_SIZE c "動作" | _ => Ret false end) ;;
    if (motion : bool) then some_res (fun name => k <- class_code name ;; sms_match k code SM_CHECK_FULL) ["名(転生)"; "サ変"]
    else place <- is_class step c "場所" ;; if (place : bool) then sms_match c code expand else Ret false.

Definition cf_match_sm_thesaurus (tp : BNST_DATA) (cfp : CASE_FRAME) (n : Z) : res bool :=
  match cf_sm cfp n with
  | None => Ret false
  | Some sm =>
      if str_eq sm "" then Ret false
      else
        match Thesaurus with
        | USE_BGH => some_code (S (String.length sm)) BGH_CODE_SIZE (slot_class BGH_CODE_SIZE tp cfp n) sm
        | USE_NTT => some_code (S (String.length sm)) SM_CODE_SIZE (slot_class SM_CODE_SIZE tp cfp n) sm
        | _ => Err BadPointer
        end
  end.
End Similarity.

(** ** The range of the similarity *)

(** A number of the format from 0 to 1, and seven times the value is an index into the table of scores *)
Definition unit (s : float) : bool := from_0_to_1 s && is_ret (example_score s).

(** Every quotient of two depths *)
Lemma ratio_unit : forall k d1 d2, 0 <= d1 < 12 -> 0 <= d2 < 12 -> 0 <= k <= Z.min d1 d2 -> 0 < Z.min d1 d2 -> unit (twice_over k (d1 + d2)) = true.
Proof.
  assert (F : forallb (fun d1 => forallb (fun d2 => forallb (fun k => negb (0 <? Z.min d1 d2) || negb (k <=? Z.min d1 d2) || unit (twice_over k (d1 + d2)))
    (zrange 0 12)) (zrange 0 12)) (zrange 0 12) = true) by (vm_compute; reflexivity).
  intros k d1 d2 H1 H2 Hk Hm. rewrite forallb_forall in F. specialize (F d1 (proj2 (in_zrange 0 12 d1) H1)). rewrite forallb_forall in F.
  specialize (F d2 (proj2 (in_zrange 0 12 d2) H2)). rewrite forallb_forall in F. specialize (F k (proj2 (in_zrange 0 12 k) ltac:(lia))).
  replace (0 <? Z.min d1 d2) with true in F by lia. replace (k <=? Z.min d1 d2) with true in F by lia. exact F.
Qed.

Lemma depth_range : forall c size, 1 <= size -> 0 <= code_depth c size < size.
Proof.
  intros c size H. unfold code_depth. destruct (find_up 1 size _) as [i|] eqn:E; [|lia]. apply find_up_some in E. lia.
Qed.

Lemma ntt_unit : forall c1 c2, unit (_ntt_code_match c1 c2) = true.
Proof.
  intros c1 c2. unfold _ntt_code_match. destruct (negb _); [vm_compute; reflexivity|]. pose proof (depth_range c1 12 ltac:(lia)). pose proof (depth_range c2 12 ltac:(lia)).
  change (Z.of_nat SM_CODE_SIZE) with 12. destruct ((_ =? 0) || _) eqn:E; [vm_compute; reflexivity|]. apply orb_false_iff in E as [E1 E2].
  unfold differ_at. destruct (find_up _ _ _) as [i|] eqn:D; [apply find_up_some in D|]; apply ratio_unit; lia.
Qed.

Lemma max_unit : forall s v, unit s = true -> unit v = true -> unit (f_max s v) = true.
Proof. intros s v H1 H2. unfold f_max. now destruct (f_lt s v). Qed.

Lemma best_unit : forall f cs s, (forall c, unit (f c) = true) -> unit s = true -> unit (f_best f cs s) = true.
Proof. intros f cs. unfold f_best. induction cs as [|c cs IH]; intros s Hf Hs; cbn; [exact Hs|]. apply IH; auto. now apply max_unit. Qed.

Lemma zero_unit : unit (f_of_int 0) = true.
Proof. reflexivity. Qed.

Lemma pairs_unit : forall cs1 cs2 v, unit v = true -> unit (fold_left (fun s c => f_best (_ntt_code_match c) cs2 s) cs1 v) = true.
Proof. induction cs1 as [|c cs1 IH]; intros cs2 v Hv; cbn [fold_left]; [exact Hv|]. apply IH, best_unit; auto using ntt_unit. Qed.

Section Range.
Context `{T : Thesauri} (code_size : Z) (format : list Z).

Lemma ntt_code_unit : forall c1 c2 flag s, ntt_code_match c1 c2 flag = Ret s -> unit s = true.
Proof.
  intros c1 c2 flag s H. assert (B : forall c cs v, unit v = true -> unit (f_best (_ntt_code_match c) cs v) = true) by (intros; apply best_unit; auto using ntt_unit).
  destruct flag; cbn [ntt_code_match] in H; try (injection H as <-; apply ntt_unit).
  - destruct (expanded c1) as [[cs1|]|]; try discriminate; [|injection H as <-; apply zero_unit].
    destruct (expanded c2) as [[cs2|]|]; try discriminate; injection H as <-; [|apply zero_unit].
    apply pairs_unit. reflexivity.
  - destruct (_ =? _); [injection H as <-; apply ntt_unit|]. destruct (expanded c2) as [[cs2|]|]; try discriminate; injection H as <-; [now apply B | reflexivity].
Qed.

(** Levels of the codes of BGH *)
Lemma bgh_points_range : forall n c1 c2 i p, p <= bgh_points n c1 c2 i p <= p + zlen (filter (fun j => negb (existsb (Nat.eqb j) [5; 7; 8; 9]%nat)) (seq i n)).
Proof.
  induction n as [|n IH]; intros c1 c2 i p; cbn [bgh_points seq filter]; [change (zlen _) with 0; lia|].
  destruct (_ =? _).
  - destruct (existsb _ _); cbn [negb]; rewrite ?zlen_cons; [apply IH | specialize (IH c1 c2 (S i) (p + 1)); lia].
  - pose proof (zlen_pos (filter (fun j => negb (existsb (Nat.eqb j) [5; 7; 8; 9]%nat)) (seq (S i) n))). destruct (negb _); rewrite ?zlen_cons; lia.
Qed.

Lemma bgh_range : forall c1 c2, 0 <= bgh_code_match_for_case c1 c2 <= 7.
Proof.
  intros c1 c2. assert (M : 0 <= bgh_code_match c1 c2 <= 7).
  { unfold bgh_code_match. destruct (_ || _); [lia|]. destruct (_ =? _).
    - pose proof (bgh_points_range (BGH_CODE_SIZE - 1) c1 c2 1 1) as R. change (zlen _) with 6 in R. lia.
    - destruct (_ && _); [|lia]. pose proof (bgh_points_range 2 c1 c2 2 2) as R. change (zlen _) with 2 in R. lia. }
  unfold bgh_code_match_for_case. destruct (_ || _); [lia|]. destruct (_ && _) eqn:E; lia.
Qed.

(** The values before the division by 7 *)
Definition level (s : float) : Prop := exists n, 0 <= n <= 7 /\ s = f_of_int n.

Lemma level_unit : forall s, level s -> unit (f_div s (f_of_int 7)) = true.
Proof.
  intros s (n & Hn & ->). assert (F : forallb (fun n => unit (f_div (f_of_int n) (f_of_int 7))) (zrange 0 8) = true) by (vm_compute; reflexivity).
  rewrite forallb_forall in F. apply F, in_zrange. lia.
Qed.

Lemma best_codes_inv : forall (P : float -> Prop) flag ps ds s s', (forall p d v, code_similarity code_size format flag p d = Ret v -> P v) -> P s ->
  fold_res (fun p s => best_code code_size format flag p ds s) ps s = Ret s' -> P s'.
Proof.
  intros P flag ps ds s s' HP Hs H. refine (fold_res_inv P _ ps s s' _ Hs H). intros p v v' _ Hv Hb. refine (fold_res_inv P _ ds v v' _ Hv Hb).
  intros d w w' _ Hw Hc. destruct (code_similarity code_size format flag p d) as [u|] eqn:E; [|discriminate]. injection Hc as <-. unfold f_max. destruct (f_lt w u); eauto.
Qed.

(** C39: With the codes of BGH or NTT the similarity of two lists of codes is a number from 0 to 1, however the
    codes look, so it is never taken for an exact match and seven times the similarity is an index of the
    table of scores. *)
Theorem similarity_unit : Thesaurus <> USE_OTHER -> forall exd exp expand s, calc_similarity code_size format exd exp expand = Ret s -> unit s = true.
Proof.
  intros N exd exp expand s H. unfold calc_similarity in H. destruct exd as [exd|], exp as [exp|]; try (injection H as <-; reflexivity).
  destruct (_ || _); [injection H as <-; reflexivity|]. destruct Thesaurus eqn:ET; try congruence; [injection H as <-; reflexivity| |];
    destruct (code_tails _ _ exp) as [ps|]; try discriminate; destruct (code_tails _ _ exd) as [ds|]; try discriminate;
    destruct (fold_res _ ps _) as [v|] eqn:E; try discriminate; injection H as <-.
  - apply level_unit. apply (best_codes_inv level) in E; [exact E | | exists 0; split; [lia | reflexivity]].
    intros p d w Hw. unfold code_similarity in Hw. rewrite ET in Hw. injection Hw as <-. eexists. split; [apply bgh_range | reflexivity].
  - apply (best_codes_inv (fun s => unit s = true)) in E; [exact E | | reflexivity]. intros p d w Hw. unfold code_similarity in Hw. rewrite ET in Hw. now apply ntt_code_unit in Hw.
Qed.
End Range.

(** Two codes of NTT, the second one a step below the first *)
Lemma similarity_unit_witness : exists s, calc_similarity (T := no_codes) 12 [] (Some "311********z") (Some "3111********") ExpandOther = Ret s /\ unit s = true.
Proof.
  eexists. split; [reflexivity|]. apply (similarity_unit (T := no_codes) 12 []) with (exd := Some "311********z") (exp := Some "3111********") (expand := ExpandOther);
    [discriminate | reflexivity].
Defined.

(** For another thesaurus the shared part is counted in characters, the depths from 0, so a code and one below it are
    more similar than 1, which stands for the same word. *)
Lemma general_match_exceeds : general_code_match 5 [1; 1; 1; 2] "12***" "123**" = twice_over 2 3 /\ f_lt (f_of_int 1) (twice_over 2 3) = true.
Proof. split; vm_compute; reflexivity. Qed.
