(* ===== verification/CaseBest.v ===== *)
(** * The best case frame of a predicate (src/system/case_analysis.c)

    [find_best_cf] matches the case frames of a predicate one after the other, keeps the best ones in order
    ([cmm]), and decides for the first one.  [get_closest_case_component] finds the element whose match
    counts most.  When the predicate has no elements, the frame that sums up the others is used.
    Output for debugging is left out. *)
From Stdlib Require Import ZArith List Bool String Lia Permutation Sorted.
Import ListNotations.
From S2P Require Import Prelude CStr Feature Sentence SemCode CheckFunction Regexp PredCase Thesaurus Double CaseData CaseMatch CaseScore.
Open Scope string_scope.
Open Scope list_scope.
Open Scope Z_scope.

Definition CF_UNDECIDED : Z := 0.
Definition CF_CAND_DECIDED : Z := 1.
Definition CF_DECIDED : Z := 2.
Definition CF_DECIDE_THRESHOLD : Z := 7.

Definition set_cmm_score (s : double) (m : CF_MATCH_MGR) : CF_MATCH_MGR := mkCMM (cf_ptr m) s (sufficiency m) (results m).

Definition set_match (score : double) (ties : Z) (ms : list CF_MATCH_MGR) (c : CF_PRED_MGR) : CF_PRED_MGR :=
  mkCPM (cpm_cf c) (pred_b_ptr c) (elem_b_ptr c) (elem_b_num c) score ties ms (decided c).

Definition set_decided (d : Z) (ms : list CF_MATCH_MGR) (c : CF_PRED_MGR) : CF_PRED_MGR :=
  mkCPM (cpm_cf c) (pred_b_ptr c) (elem_b_ptr c) (elem_b_num c) (cpm_score c) (tie_num c) ms d.

(** ** The order of the frames *)
Section Order.
Context (prob : bool) (closest : Z).

(** The first result; there is none when the matching failed. *)
Definition first_result (m : CF_MATCH_MGR) : res match_result := match results m with r :: _ => Ret r | [] => Err BadPointer end.

(** The element may have no slot: its flag -2 is used as an index. *)
Definition CheckCfClosest (m : CF_MATCH_MGR) : res bool :=
  r <- first_result m ;;
  if within 0 (flag (list_d r) closest) CF_ELEMENT_MAX then Ret (adjacent (cf_ptr m) (flag (list_d r) closest)) else Err OutOfBounds.

Definition match_failed (m : CF_MATCH_MGR) : bool :=
  d_eq (cmm_score m) (d_of_int (if prob then CASE_MATCH_FAILURE_PROB else CASE_MATCH_FAILURE_SCORE)).

(** [cmm[j]] goes behind [cmm[j+1]]. *)
Definition worse (m n : CF_MATCH_MGR) : res bool :=
  if d_lt (cmm_score m) (cmm_score n) then Ret true
  else if negb (match_failed m) && d_eq (cmm_score m) (cmm_score n) then
    if -1 <? closest then
      b <- CheckCfClosest n ;;
      if b then c <- CheckCfClosest m ;; Ret (negb c) else Ret false
    else Ret (d_lt (sufficiency m) (sufficiency n))
  else Ret false.

(** From the last frame to the first one, as long as they are worse. *)
Fixpoint bubble (ms : list CF_MATCH_MGR) (n : CF_MATCH_MGR) : res (list CF_MATCH_MGR) :=
  match ms with
  | [] => Ret [n]
  | m :: ms' => w <- worse m n ;; if w then r <- bubble ms' n ;; Ret (m :: r) else Ret (n :: m :: ms')
  end.

(** The last entry of the array is only used to sort. *)
Definition add_frame (n : CF_MATCH_MGR) (ms : list CF_MATCH_MGR) : res (list CF_MATCH_MGR) :=
  r <- bubble (rev ms) n ;; Ret (firstn (Z.to_nat (CMM_MAX - 1)) (rev r)).

Fixpoint ties (top : double) (ms : list CF_MATCH_MGR) : Z :=
  match ms with
  | m :: ms' => if d_eq (cmm_score m) top then 1 + ties top ms' else 0
  | [] => 0
  end.

Definition count_ties (ms : list CF_MATCH_MGR) (old : Z) : res Z :=
  match ms with
  | m :: ms' =>
      if match_failed m then Ret old
      else
        _ <- (if -1 <? closest then CheckCfClosest m else Ret false) ;;
        Ret (1 + ties (cmm_score m) ms')
  | [] => Ret old
  end.

(** ** With the score of all elements *)

(** The loop ends at the first frame without a score. *)
Fixpoint rescore (ms : list CF_MATCH_MGR) : list CF_MATCH_MGR :=
  match ms with
  | [] => []
  | m :: ms' =>
      match results m with
      | [] => ms
      | r :: _ =>
          let pat_num := count_pat_element (cf_ptr m) (list_p r) in
          if d_lt (cmm_score m) (d_of_int 0) || (pat_num =? 0) then ms
          else set_cmm_score (if prob then pure_score r else d_div (pure_score r) (d_sqrt (d_of_int pat_num))) m :: rescore ms'
      end
  end.

(** The example that the closest element matched: the frequencies of its slot and its place. *)
Definition example_place (m : CF_MATCH_MGR) : res (option (list Z * Z)) :=
  r <- first_result m ;;
  let slot := flag (list_d r) closest in
  Ret (if slot <? 0 then None
       else match ex_freq (cf_ptr m) slot with
            | Some freq => if l_pos (list_p r) slot <? 0 then None else Some (freq, l_pos (list_p r) slot)
            | None => None
            end).

Definition freq_at (f : list Z * Z) : res Z := match nth_error (fst f) (Z.to_nat (snd f)) with Some n => Ret n | None => Err OutOfBounds end.

Definition nth_frame (ms : list CF_MATCH_MGR) (i : Z) : res CF_MATCH_MGR :=
  match (if i <? 0 then None else nth_error ms (Z.to_nat i)) with Some m => Ret m | None => Err OutOfBounds end.

Fixpoint put_frame (i : nat) (m : CF_MATCH_MGR) (ms : list CF_MATCH_MGR) : list CF_MATCH_MGR :=
  match i, ms with
  | O, _ :: ms' => m :: ms'
  | S i', n :: ms' => n :: put_frame i' m ms'
  | _, [] => []
  end.

Definition swap_frames (i j : Z) (ms : list CF_MATCH_MGR) : res (list CF_MATCH_MGR) :=
  m <- nth_frame ms i ;;
  n <- nth_frame ms j ;;
  fi <- example_place m ;;
  fj <- example_place n ;;
  more <- (if d_lt (cmm_score n) (cmm_score m) then Ret true
           else match fi, fj with
                | Some fi, Some fj => a <- freq_at fi ;; b <- freq_at fj ;; Ret (b <? a)
                | _, _ => Ret false
                end) ;;
  Ret (if more then put_frame (Z.to_nat j) m (put_frame (Z.to_nat i) n ms) else ms).

Definition sort_ties (tie_num : Z) (ms : list CF_MATCH_MGR) : res (list CF_MATCH_MGR) :=
  fold_res (fun i => fold_res (swap_frames i) (rev (zrange 0 i))) (rev (zrange 1 tie_num)) ms.
End Order.

(** ** The best frame *)
Section Best.
Context `{T : Thesauri} (alone with_para : CaseScores) (prob OptEllipsis use_rep_cf : bool) (SOTO_THRESHOLD : Z) (mode : Z).

(** [case_frame_match] without and with [para_cpm_ptr]; the manager of the predicate is the one that is filled. *)
Definition match_frame (scores : CaseScores) (closest : Z) (c : CF_PRED_MGR) (cf : CASE_FRAME) : res CF_MATCH_MGR :=
  @case_frame_match T scores prob OptEllipsis SOTO_THRESHOLD (cpm_cf c) cf c mode closest.

Definition is_sum (cf : CASE_FRAME) : bool := negb (Z.land (etcflag cf) CF_SUM =? 0).

(** The frame for a predicate without elements. *)
Definition sum_frame (frames : list CASE_FRAME) : res CASE_FRAME :=
  match frames with
  | [] => Err BadPointer
  | [cf] => Ret cf
  | cf :: _ => Ret (match find is_sum frames with Some s => s | None => cf end)
  end.

(** A predicate in hiragana: 1 for frames in hiragana, -1 for the others. *)
Definition hiragana_prefer (sp : SENTENCE_DATA) (b : BNST_DATA) : res Z :=
  if use_rep_cf then Ret 0
  else
    match b_head_ptr b with
    | None => Err NullDeref
    | Some head =>
        m <- mrph_ref sp head ;;
        Ret (if check_str_type (m_Goi m) TYPE_HIRAGANA 0 then if has_feature (b_f b) "代表ひらがな" then 1 else -1 else 0)
    end.

Definition usable_frame (flag : Z) (cf : CASE_FRAME) : bool :=
  negb (is_sum cf) &&
  negb (((0 <? flag) && negb (check_str_type (cf_entry cf) TYPE_HIRAGANA 0)) || ((flag <? 0) && check_str_type (cf_entry cf) TYPE_HIRAGANA 0)).

Definition chosen_frames (flag : Z) (frames : list CASE_FRAME) : list CASE_FRAME :=
  match filter (usable_frame flag) frames with [] => frames | l => l end.

(** The frames matched and put in their order. *)
Definition rank_frames (closest : Z) (c : CF_PRED_MGR) (frames : list CASE_FRAME) : res (list CF_MATCH_MGR) :=
  fold_res (fun cf ms => m <- match_frame with_para closest c cf ;; add_frame prob closest m ms) frames [].

Definition no_elements (c : CF_PRED_MGR) : res bool :=
  if cf_type (cpm_cf c) =? CF_PRED then
    if element_num (cpm_cf c) =? 0 then Ret true else real <- have_real_component (cpm_cf c) ;; Ret (negb real)
  else Ret false.

Definition match_all (sp : SENTENCE_DATA) (frames : list CASE_FRAME) (closest : Z) (c : CF_PRED_MGR) : res CF_PRED_MGR :=
  none <- no_elements c ;;
  if none then
    cf <- sum_frame frames ;;
    m <- match_frame alone (-1) c cf ;;
    Ret (set_match (cmm_score m) (tie_num c) [m] c)
  else
    flag <- hiragana_prefer sp (pred_b_ptr c) ;;
    ms <- rank_frames closest c (chosen_frames flag frames) ;;
    n <- count_ties prob closest ms (tie_num c) ;;
    match ms with
    | [] => Err BadPointer
    | m :: _ => score <- d_to_int (cmm_score m) ;; Ret (set_match (d_of_int score) n ms c)
    end.

(** [decided], and with an exact match only the first frame. *)
Definition decide_frame (closest : Z) (c : CF_PRED_MGR) : CF_PRED_MGR :=
  if OptEllipsis then
    if (-1 <? closest) && d_lt (d_of_int CF_DECIDE_THRESHOLD) (cpm_score c) then
      if 1 <? tie_num c then set_decided CF_CAND_DECIDED (cmm c) c
      else set_decided CF_DECIDED (if d_eq (cpm_score c) (d_of_int EX_match_exact) then firstn 1 (cmm c) else cmm c) c
    else if (closest =? -1) && (0 <? element_num (cpm_cf c)) && has_feature (b_f (pred_b_ptr c)) "用言:形" then set_decided CF_DECIDED (cmm c) c
    else c
  else if -1 <? closest then set_decided CF_DECIDED (cmm c) c
  else c.

Definition final_order (closest : Z) (c : CF_PRED_MGR) : res CF_PRED_MGR :=
  if element_num (cpm_cf c) =? 0 then Ret c
  else
    ms <- (if -1 <? closest then sort_ties closest (tie_num c) (rescore prob (cmm c)) else Ret (cmm c)) ;;
    match ms with
    | [] => Err BadPointer
    | m :: _ => Ret (set_match (cmm_score m) (tie_num c) ms c)
    end.

Definition find_best_cf (sp : SENTENCE_DATA) (frames : list CASE_FRAME) (closest : Z) (decide : bool) (c : CF_PRED_MGR) : res CF_PRED_MGR :=
  c <- match_all sp frames closest c ;;
  final_order closest (if decide then decide_frame closest c else c).
End Best.

(** ** The closest element *)
Section Closest.
Context `{T : Thesauri} (sp : SENTENCE_DATA) (c : CF_PRED_MGR).

(** The loop: [inl] what the function returns at once, [inr] [min] with its element. *)
Definition scan_element (i : Z) (st : Z + option (Z * Z)) : res (Z + option (Z * Z)) :=
  match st, elem_b_ptr c i with
  | inr best, Some e =>
      if 0 <? b_inum e then Ret (inl (-1))
      else if b_num (pred_b_ptr c) =? b_num e then Ret (inl i)
      else if (-2 <? elem_b_num c i) && (b_num e <=? b_num (pred_b_ptr c)) && (match best with Some (min, _) => min | None => -1 end <? b_num e) then
        phi <- MatchPP (first_pp (pp (cpm_cf c) i)) "φ" ;;
        Ret (inr (if phi && has_feature (b_f e) "回数" then best else Some (b_num e, i)))
      else Ret st
  | _, _ => Ret st
  end.

(** A case that can be the closest one: 未格 next to the predicate, ヲ, ニ, or another basic case of no person. *)
Definition closest_case (min i : Z) : res bool :=
  let c0 := first_pp (pp (cpm_cf c) i) in
  let p := b_num (pred_b_ptr c) in
  let adverb := has_feature (b_f (tag_data sp (min + 1))) "副詞" || has_feature (b_f (tag_data sp (min + 1))) "係:連用" in
  if (c0 =? -1) && ((p =? min + 1) || ((p =? min + 2) && adverb)) then Ret true
  else
    wo <- MatchPP c0 "ヲ" ;;
    ni <- (if (wo : bool) then Ret true else MatchPP c0 "ニ") ;;
    if (ni : bool) then Ret true
    else
      basic <- (if (0 <? c0) && (c0 <? 9) then Ret true else MatchPP c0 "マデ") ;;
      if (basic : bool) then person <- cf_match_element (cf_sm (cpm_cf c) i) "主体" ;; Ret (negb person) else Ret false.

(** The element, -1 for none and -2 for one that does not decide; an element that is found is marked. *)
Definition get_closest_case_component : res (Z * CASE_FRAME) :=
  let cf := cpm_cf c in
  st <- for_res 0 (element_num cf) scan_element (inr None) ;;
  match st with
  | inl r => Ret (r, cf)
  | inr None => Ret (-1, cf)
  | inr (Some (min, i)) =>
      let t := tag_data sp min in
      undecided <- (if has_feature (b_f t) "指示詞" then Ret true
                    else match Thesaurus with
                         | USE_NTT => if str_eq (b_SM_code t) EmptyString then MatchPP (first_pp (pp cf i)) "ガ" else Ret false
                         | _ => Ret false
                         end) ;;
      if (undecided : bool) then Ret (-2, cf)
      else
        ok <- closest_case min i ;;
        Ret (if ok
             then (i, mkCF (cf_type cf) (cf_type_flag cf) (element_num cf) (oblig cf) (aset (adjacent cf) i true) (pp cf) (cf_sp cf) (cf_sm cf) (cf_ex cf)
                        (ex_freq cf) (cf_entry cf) (etcflag cf) (weight cf) (samecase cf) (cf_pred_num cf))
             else (-1, cf))
  end.
End Closest.

(** * Properties *)

(** ** The best [k] of a list

    Insertion from the end with a bound, for a strict weak order on the elements of [P]. *)
Section TopK.
Context {A : Type} (w : A -> A -> bool) (P : A -> Prop) (k : nat).
Context (w_asym : forall x y, P x -> P y -> w x y = true -> w y x = false).
Context (w_weak : forall x y z, P x -> P y -> P z -> w x y = false -> w y z = false -> w x z = false).

Fixpoint sink (ms : list A) (n : A) : list A :=
  match ms with [] => [n] | m :: ms' => if w m n then m :: sink ms' n else n :: m :: ms' end.

Definition insert_top (n : A) (ms : list A) : list A := firstn k (rev (sink (rev ms) n)).

Lemma sink_split : forall ms n, exists a b, ms = a ++ b /\ sink ms n = a ++ n :: b /\ (forall x, In x a -> w x n = true) /\
  (forall x b', b = x :: b' -> w x n = false).
Proof.
  induction ms as [|m ms IH]; intros n; cbn [sink].
  - exists [], []. repeat split; try contradiction. discriminate.
  - destruct (w m n) eqn:E.
    + destruct (IH n) as (a & b & -> & -> & H1 & H2). exists (m :: a), b. repeat split; auto. intros x [<-|Hx]; auto.
    + exists [], (m :: ms). repeat split; try contradiction. intros x b' [= -> _]. exact E.
Qed.

Definition best_first (ms : list A) : Prop := StronglySorted (fun x y => w x y = false) ms.

Lemma best_first_app : forall a b, best_first (a ++ b) <-> best_first a /\ best_first b /\ forall x y, In x a -> In y b -> w x y = false.
Proof.
  unfold best_first. induction a as [|x a IH]; intros b; cbn [app].
  - split; [intros H; repeat split; auto; try constructor; contradiction | now intros (_ & H & _)].
  - split.
    + intros H. inversion H as [|? ? HS HF]; subst. apply IH in HS as (H1 & H2 & H3). rewrite Forall_forall in HF. repeat split; auto.
      * constructor; [exact H1|]. apply Forall_forall. intros y Hy. apply HF, in_app_iff. auto.
      * intros z y [<-|Hz] Hy; [apply HF, in_app_iff; auto | auto].
    + intros (H1 & H2 & H3). inversion H1 as [|? ? HS HF]; subst. constructor; [apply IH; repeat split; auto; intros; apply H3; auto; now right|].
      rewrite Forall_forall in *. intros y Hy. apply in_app_iff in Hy as [Hy|Hy]; [now apply HF | apply H3; auto; now left].
Qed.

(** Where the new element goes: behind those that are not worse, before those that are. *)
Lemma insert_place : forall ms n, best_first ms -> (forall x, In x ms -> P x) -> P n ->
  exists a b, ms = a ++ b /\ rev (sink (rev ms) n) = a ++ n :: b /\ (forall x, In x a -> w x n = false) /\ (forall x, In x b -> w x n = true).
Proof.
  intros ms n HS HP Pn. destruct (sink_split (rev ms) n) as (b & a & E1 & E2 & H1 & H2). exists (rev a), (rev b).
  assert (EM : ms = rev a ++ rev b) by (rewrite <- rev_app_distr, <- E1; now rewrite rev_involutive).
  split; [exact EM|]. split; [rewrite E2, rev_app_distr; cbn; now rewrite <- app_assoc|]. split; [|intros x Hx; apply in_rev in Hx; auto].
  intros x Hx. destruct a as [|l a]; [contradiction|]. pose proof (H2 l a eq_refl) as HL. apply in_rev in Hx. destruct Hx as [<-|Hx]; [exact HL|].
  cbn [rev] in EM. rewrite EM, <- app_assoc in HS. apply best_first_app in HS as (_ & _ & HS).
  apply (w_weak x l n); [apply HP; rewrite EM, !in_app_iff; left; left; now apply in_rev in Hx | apply HP; rewrite EM, !in_app_iff; left; right; now left | exact Pn | | exact HL].
  apply HS; [now apply in_rev in Hx | now left].
Qed.

Record top_of (done ms : list A) : Prop := {
  top_sorted : best_first ms;
  top_few : (List.length ms <= k)%nat;
  top_rest : exists rest, Permutation done (ms ++ rest) /\ (rest <> [] -> List.length ms = k) /\ forall x y, In x ms -> In y rest -> w x y = false
}.

Lemma top_insert : forall done ms n, (0 < k)%nat -> (forall x, In x done -> P x) -> P n -> top_of done ms -> top_of (done ++ [n]) (insert_top n ms).
Proof.
  intros done ms n K HP Pn [T1 T2 (rest & R1 & R2 & R3)].
  assert (PM : forall x, In x ms \/ In x rest -> P x) by (intros x Hx; apply HP; rewrite R1, in_app_iff; exact Hx).
  destruct (insert_place ms n T1 (fun x H => PM x (or_introl H)) Pn) as (a & b & EM & EI & HA & HB). unfold insert_top. rewrite EI.
  assert (SI : best_first (a ++ n :: b)).
  { rewrite EM in T1. apply best_first_app in T1 as (S1 & S2 & S3). apply best_first_app. repeat split; auto.
    - constructor; [exact S2|]. apply Forall_forall. intros x Hx. apply w_asym; auto. apply PM. left. rewrite EM, in_app_iff. auto.
    - intros x y Hx [<-|Hy]; auto. }
  assert (LI : List.length (a ++ n :: b) = S (List.length ms)) by (rewrite EM, !length_app; cbn; lia).
  assert (PI : Permutation (done ++ [n]) ((a ++ n :: b) ++ rest)).
  { transitivity (n :: done); [apply Permutation_sym, Permutation_cons_append|]. rewrite R1, EM, <- !app_assoc. cbn [app]. apply Permutation_middle. }
  destruct (Nat.le_gt_cases (List.length (a ++ n :: b)) k) as [HL|HL].
  - rewrite firstn_all2 by exact HL. split; [exact SI | exact HL|]. exists rest. split; [exact PI|].
    destruct rest as [|z rest]; [split; contradiction|]. specialize (R2 ltac:(discriminate)). lia.
  - assert (LK : List.length ms = k) by lia. destruct b as [|z b _] using rev_ind.
    + (* the new one is the last *)
      rewrite app_nil_r in EM. subst a. rewrite <- LK, firstn_app, Nat.sub_diag, firstn_all, app_nil_r. split; [exact T1 | lia|].
      exists (n :: rest). split; [now rewrite <- app_assoc in PI|]. split; [auto|]. intros x y Hx [<-|Hy]; auto.
    + (* the last one goes *)
      change (n :: b ++ [z]) with ((n :: b) ++ [z]) in *. rewrite app_assoc in *. rewrite length_app in LI. cbn [List.length] in LI.
      replace k with (List.length (a ++ n :: b)) by lia. rewrite firstn_app, Nat.sub_diag, firstn_all, app_nil_r. apply best_first_app in SI as (S1 & _ & S3).
      split; [exact S1 | lia|]. exists (z :: rest). split; [now rewrite <- app_assoc in PI|]. split; [intros _; lia|].
      assert (INZ : In z ms) by (rewrite EM, !in_app_iff; right; now left).
      intros x y Hx [<-|Hy]; [apply S3; [exact Hx | now left]|]. pose proof Hx as Hx'. apply in_app_iff in Hx' as [Hx'|[<-|Hx']];
        [apply R3; [rewrite EM, !in_app_iff; auto | exact Hy] | | apply R3; [rewrite EM, !in_app_iff; auto | exact Hy]].
      apply (w_weak n z y); auto. apply S3; [exact Hx | now left].
Qed.

End TopK.

(** ** The order of frames *)
Section Frames.
Context (prob : bool) (closest : Z).

(** The scores are numbers, and the closest element of a match that did not fail has a slot. *)
Record comparable (m : CF_MATCH_MGR) : Prop := {
  cmp_score : is_nan (cmm_score m) = false;
  cmp_suff : is_nan (sufficiency m) = false;
  cmp_near : -1 < closest -> match_failed prob m = false -> exists b, CheckCfClosest closest m = Ret b
}.

(** The closest element has the closest slot of the frame. *)
Definition near (m : CF_MATCH_MGR) : bool := match CheckCfClosest closest m with Ret b => b | Err _ => false end.

Definition worse_frame (m n : CF_MATCH_MGR) : bool :=
  d_lt (cmm_score m) (cmm_score n) ||
  (negb (match_failed prob m) && d_eq (cmm_score m) (cmm_score n) &&
   (if -1 <? closest then near n && negb (near m) else d_lt (sufficiency m) (sufficiency n))).

Lemma failed_eq : forall m n, d_eq (cmm_score m) (cmm_score n) = true -> match_failed prob m = match_failed prob n.
Proof.
  intros m n H. unfold match_failed. set (f := d_of_int _). clearbody f. apply eq_true_iff_eq. split; intros E; (eapply d_eq_trans; [|exact E]); [rewrite d_eq_sym|]; exact H.
Qed.

Lemma worse_ret : forall m n, comparable m -> comparable n -> worse prob closest m n = Ret (worse_frame m n).
Proof.
  intros m n [M1 M2 M3] [N1 N2 N3]. unfold worse, worse_frame. destruct (d_lt (cmm_score m) (cmm_score n)); [reflexivity|]. cbn [orb].
  destruct (match_failed prob m) eqn:FM; [reflexivity|]. cbn [negb andb]. destruct (d_eq (cmm_score m) (cmm_score n)) eqn:E; [|reflexivity].
  destruct (Z.ltb_spec (-1) closest) as [H|H]; [|reflexivity]. cbn [andb]. unfold near. rewrite (failed_eq m n E) in FM.
  destruct (N3 H FM) as [b ->], (M3 H eq_refl) as [a ->]. destruct b; reflexivity.
Qed.

Lemma worse_asym : forall m n, comparable m -> comparable n -> worse_frame m n = true -> worse_frame n m = false.
Proof.
  intros m n _ _ H. unfold worse_frame in *. destruct (d_lt (cmm_score m) (cmm_score n)) eqn:L; cbn [orb] in H.
  - destruct (d_lt (cmm_score n) (cmm_score m)) eqn:L2; [pose proof (d_lt_trans _ _ _ L L2) as X; now rewrite d_lt_irrefl in X|].
    rewrite (d_eq_sym (cmm_score n)), (d_lt_eq _ _ L), andb_false_r. reflexivity.
  - apply andb_prop in H as [H K]. apply andb_prop in H as [_ E]. rewrite <- (proj1 (d_eq_lt _ _ (cmm_score m) E)), d_lt_irrefl. cbn [orb].
    destruct (-1 <? closest).
    + apply andb_prop in K as [K1 K2]. rewrite K1. cbn [negb]. now rewrite !andb_false_r.
    + destruct (d_lt (sufficiency n) (sufficiency m)) eqn:L2; [|now rewrite andb_false_r]. pose proof (d_lt_trans _ _ _ K L2) as X. now rewrite d_lt_irrefl in X.
Qed.

Lemma worse_weak : forall m n o, comparable m -> comparable n -> comparable o ->
  worse_frame m n = false -> worse_frame n o = false -> worse_frame m o = false.
Proof.
  intros m n o [M1 M2 _] [N1 N2 _] [O1 O2 _] H1 H2. unfold worse_frame in *. apply orb_false_iff in H1 as [A1 B1], H2 as [A2 B2].
  assert (NT : forall a b c, is_nan a = false -> is_nan b = false -> is_nan c = false -> d_lt a b = false -> d_lt b c = false -> d_lt a c = false).
  { intros a b c Na Nb Nc H1 H2. destruct (d_lt a c) eqn:H3; [|reflexivity]. destruct (d_total b a Nb Na) as [H|[H|H]].
    - now rewrite (d_lt_trans _ _ _ H H3) in H2.
    - rewrite <- H2. now rewrite (proj1 (d_eq_lt _ _ c H)).
    - congruence. }
  rewrite (NT _ _ _ M1 N1 O1 A1 A2). cbn [orb]. destruct (match_failed prob m) eqn:FM; [reflexivity|]. cbn [negb andb] in *.
  destruct (d_eq (cmm_score m) (cmm_score o)) eqn:E; [|reflexivity]. cbn [andb].
  assert (EMN : d_eq (cmm_score m) (cmm_score n) = true).
  { destruct (d_total _ _ M1 N1) as [H|[H|H]]; [congruence | exact H |]. rewrite (proj2 (d_eq_lt _ _ (cmm_score n) E)) in H. congruence. }
  assert (ENO : d_eq (cmm_score n) (cmm_score o) = true) by (apply (d_eq_trans _ (cmm_score m)); [now rewrite d_eq_sym | exact E]).
  rewrite EMN in B1. rewrite <- (failed_eq m n EMN), FM, ENO in B2. cbn [negb andb] in *. destruct (-1 <? closest).
  - destruct (near m), (near n), (near o); try reflexivity; discriminate.
  - exact (NT _ _ _ M2 N2 O2 B1 B2).
Qed.

Lemma bubble_sink : forall ms n, comparable n -> (forall m, In m ms -> comparable m) -> bubble prob closest ms n = Ret (sink worse_frame ms n).
Proof.
  induction ms as [|m ms IH]; intros n HN HM; [reflexivity|]. cbn [bubble sink]. rewrite worse_ret by (auto; apply HM; now left).
  destruct (worse_frame m n); [|reflexivity]. rewrite IH; [reflexivity | exact HN | intros; apply HM; now right].
Qed.

Lemma add_frame_top : forall done ms n, (forall m, In m done -> comparable m) -> comparable n ->
  top_of worse_frame (Z.to_nat (CMM_MAX - 1)) done ms ->
  exists ms', add_frame prob closest n ms = Ret ms' /\ top_of worse_frame (Z.to_nat (CMM_MAX - 1)) (done ++ [n]) ms'.
Proof.
  intros done ms n HD HN HT. unfold add_frame. rewrite bubble_sink; [|exact HN|].
  - eexists. split; [reflexivity|]. apply (top_insert worse_frame comparable _ worse_asym worse_weak); auto. cbn. lia.
  - intros m Hm. apply in_rev in Hm. apply HD. destruct HT as [_ _ (rest & R & _)]. rewrite R, in_app_iff. now left.
Qed.
End Frames.

Section Ranking.
Context `{T : Thesauri} (alone with_para : CaseScores) (prob OptEllipsis use_rep_cf : bool) (SOTO_THRESHOLD : Z) (mode : Z).

(** C14: The frames of a predicate are ranked by the scores of their best correspondences, for equal scores by a match of the
    closest element with the closest slot, or, when there is no closest element, by how many slots are filled.  The
    result holds the best ones in this order, four at most: it is sorted, and no frame that was left out is
    better than one that was kept; only when four are kept is one left out. *)
Theorem rank_frames_best : forall closest c frames matched,
  Forall2 (fun cf m => match_frame prob OptEllipsis SOTO_THRESHOLD mode with_para closest c cf = Ret m) frames matched ->
  Forall (comparable prob closest) matched ->
  exists ms, rank_frames with_para prob OptEllipsis SOTO_THRESHOLD mode closest c frames = Ret ms /\
    top_of (worse_frame prob closest) (Z.to_nat (CMM_MAX - 1)) matched ms.
Proof.
  intros closest c frames matched H2 HC. unfold rank_frames. set (body := fun cf ms => _).
  assert (G : forall frames matched, Forall2 (fun cf m => match_frame prob OptEllipsis SOTO_THRESHOLD mode with_para closest c cf = Ret m) frames matched ->
    Forall (comparable prob closest) matched -> forall done ms, (forall m, In m done -> comparable prob closest m) ->
    top_of (worse_frame prob closest) (Z.to_nat (CMM_MAX - 1)) done ms ->
    exists ms', fold_res body frames ms = Ret ms' /\ top_of (worse_frame prob closest) (Z.to_nat (CMM_MAX - 1)) (done ++ matched) ms').
  { induction 1 as [|cf m fs ns E H IH]; intros HF done ms HD HT; cbn [fold_res].
    - exists ms. rewrite app_nil_r. auto.
    - inversion HF as [|? ? HM HF']; subst. unfold body at 1. rewrite E. destruct (add_frame_top prob closest done ms m HD HM HT) as (ms1 & -> & HT1).
      destruct (IH HF' (done ++ [m]) ms1) as (ms2 & E2 & HT2); [|exact HT1|].
      + intros x Hx. apply in_app_iff in Hx as [Hx|[<-|[]]]; auto.
      + exists ms2. split; [exact E2|]. now rewrite <- app_assoc in HT2. }
  apply (G frames matched H2 HC [] []); [contradiction|]. split; [constructor | cbn; lia|]. exists []. split; [constructor|]. split; contradiction.
Qed.
End Ranking.

(** The frame without ヲ has an element without slot. *)
Definition poor_frame : CASE_FRAME := example_slots [1; 3].

Lemma rank_frames_best_witness : exists ms,
  @rank_frames no_thesauri example_scores true false 0 EXAMPLE (-1) example_cpm [poor_frame; example_frame] = Ret ms /\
    map (fun m => (element_num (cf_ptr m), cmm_score m)) ms = [(3, d_of_int (-11)); (2, d_add (d_add (d_add FREQ0_ASSINED_SCORE (d_of_int (-30))) (d_of_int (-20))) (d_of_int (-8)))].
Proof.
  destruct (@match_frame no_thesauri true false 0 EXAMPLE example_scores (-1) example_cpm poor_frame) as [m1|] eqn:E1; [|vm_compute in E1; discriminate E1].
  destruct (@match_frame no_thesauri true false 0 EXAMPLE example_scores (-1) example_cpm example_frame) as [m2|] eqn:E2; [|vm_compute in E2; discriminate E2].
  destruct (@rank_frames_best no_thesauri example_scores true false 0 EXAMPLE (-1) example_cpm [poor_frame; example_frame] [m1; m2]) as (ms & E & _).
  - repeat constructor; assumption.
  - vm_compute in E1, E2. injection E1 as <-. injection E2 as <-. repeat constructor; cbn; try reflexivity; intros H; discriminate H.
  - exists ms. split; [exact E|]. vm_compute in E. injection E as <-. vm_compute. reflexivity.
Defined.

(** ** What the program finds *)

(** With probabilities the closest element may stay without a slot; two frames with the same score then make the comparison
    read before the array [adjacent]. *)
Lemma closest_without_slot : forall m r, results m = [r] -> flag (list_d r) 0 = NIL_ASSIGNED -> CheckCfClosest 0 m = Err OutOfBounds.
Proof. intros m r HR HF. unfold CheckCfClosest, first_result. now rewrite HR, HF. Qed.

(** Logarithms are negative, so with probabilities the scores of the frames are never replaced by those of all elements. *)
Lemma probabilities_not_rescored : forall m ms, d_lt (cmm_score m) (d_of_int 0) = true -> rescore true (m :: ms) = m :: ms.
Proof. intros m ms H. cbn [rescore]. destruct (results m); [reflexivity|]. now rewrite H. Qed.
