(* ===== verification/Tables.v ===== *)
(** * The tables of the grammar (src/juman/lib/grammar.c, katuyou.c)

    The parts of speech and the conjugations, read from their S-expressions
    into [Class], [Type] and [Form], and the loop over the cells of a file,
    which the rule files share. *)
From Stdlib Require Import ZArith List Bool String Ascii Lia.
Import ListNotations.
From S2P Require Import Prelude CStr Lisp Feature Sentence SemCode CheckFunction Regexp PredCase.
Open Scope string_scope.
Open Scope Z_scope.

(** ** The loop over a file: [while (!s_feof(fp)) { cell = s_read(fp); ... }] *)
Section ReadFile.
Context (BUFSIZE : Z) {S : Type} (step : CELL -> S -> res S).

Fixpoint read_file_go (fuel : nat) (fp : stream) (st : S) : res S :=
  match fuel with
  | O => Err OutOfFuel
  | Datatypes.S f =>
      let '(e, fp1) := s_feof fp in
      if e then Ret st
      else
        ' (c, fp2) <- s_read BUFSIZE fp1 ;;
        st <- step c st ;;
        read_file_go f fp2 st
  end.

Definition read_file (fp : stream) (st : S) : res S := read_file_go (Datatypes.S (String.length (rest fp))) fp st.
End ReadFile.

(** ** Parts of speech (grammar.c) *)
Definition GramError : Z := 4.

Record CLASS : Type := mkCLASS { cl_id : option string; cl_kt : bool; cl_cost : Z }.
Definition class_table : Type := Z -> Z -> CLASS.

Definition initialize_class : class_table := fun _ _ => mkCLASS None false 0.

(** [Class[i][j].id = name], and [.kt = TRUE] if [kt]; the arrays have [CLASSIFY_NO + 1] rows and columns. *)
Definition set_class (i j : Z) (name : string) (kt : bool) (t : class_table) : res class_table :=
  if within 0 i (CLASSIFY_NO + 1) && within 0 j (CLASSIFY_NO + 1)
  then Ret (mset t i j (mkCLASS (Some name) (if kt then true else cl_kt (t i j)) (cl_cost (t i j))))
  else Err OutOfBounds.

(** The name at the head of the cell, and whether something follows it. *)
Definition class_name (cell : CELL) : res (string * bool) :=
  a <- car cell ;; name <- _Atom a ;; d <- cdr cell ;; Ret (name, negb (Null d)).

(** [while (!Null(cell2 = car(cell1)))] *)
Fixpoint read_subclasses (cell1 : CELL) (i j : Z) (katuyou_flag : bool) (t : class_table) : res class_table :=
  match cell1 with
  | NIL => Ret t
  | ATOM _ => Err LispError
  | CONS cell2 rest =>
      if Null cell2 then Ret t
      else
        ' (name, conjugates) <- class_name cell2 ;;
        t <- set_class i j name (katuyou_flag || conjugates) t ;;
        if CLASSIFY_NO <=? j + 1 then Err (ExitErr GramError)
        else read_subclasses rest i (j + 1) katuyou_flag t
  end.

Definition read_class_step (cell1 : CELL) (st : Z * class_table) : res (Z * class_table) :=
  let '(i, t) := st in
  cell2 <- car cell1 ;;
  if Null cell2 then Err (ExitErr GramError)
  else
    ' (name, katuyou_flag) <- class_name cell2 ;;
    t <- set_class i 0 name katuyou_flag t ;;
    d <- cdr cell1 ;;
    subs <- car d ;;
    t <- read_subclasses subs i 1 katuyou_flag t ;;
    if CLASSIFY_NO <=? i + 1 then Err (ExitErr GramError) else Ret (i + 1, t).

Definition read_class (BUFSIZE : Z) (fp : stream) : res class_table :=
  ' (_, t) <- read_file BUFSIZE read_class_step fp (1, initialize_class) ;; Ret t.

(** ** Conjugations (katuyou.c) *)
Record FORM : Type := mkFORM { fo_name : option string; fo_gobi : option string; fo_gobi_yomi : option string }.
Record type_tables : Type := mkTT { tt_Type : array (option string); tt_Form : Z -> Z -> FORM }.

Definition initialize_type_form : type_tables := mkTT (fun _ => None) (fun _ _ => mkFORM None None None).

(** An ending; "*" is the empty one. *)
Definition ending (s : string) : string := if str_eq s "*" then EmptyString else s.

(** [while (!Null(cell2 = car(cell1)))] *)
Fixpoint read_forms (cell1 : CELL) (i j : Z) (t : type_tables) : res type_tables :=
  match cell1 with
  | NIL => Ret t
  | ATOM _ => Err LispError
  | CONS cell2 rest =>
      if Null cell2 then Ret t
      else if negb (within 0 i TYPE_NO && within 0 j FORM_NO) then Err OutOfBounds
      else
        a <- car cell2 ;; name <- _Atom a ;;
        d <- cdr cell2 ;; b <- car d ;; g <- _Atom b ;;
        dd <- cdr d ;; c <- car dd ;;
        yomi <- (if Null c then Ret (ending g) else y <- _Atom c ;; Ret (ending y)) ;;
        read_forms rest i (j + 1)
          (mkTT (tt_Type t) (mset (tt_Form t) i j (mkFORM (Some name) (Some (ending g)) (Some yomi))))
  end.

Definition read_type_form_step (cell1 : CELL) (st : Z * type_tables) : res (Z * type_tables) :=
  let '(i, t) := st in
  a <- car cell1 ;;
  name <- _Atom a ;;
  if negb (within 0 i TYPE_NO) then Err OutOfBounds
  else
    let t := mkTT (aset (tt_Type t) i (Some name)) (tt_Form t) in
    d <- cdr cell1 ;;
    forms <- car d ;;
    t <- read_forms forms i 1 t ;;
    Ret (i + 1, t).

Definition read_type_form (BUFSIZE : Z) (fp : stream) : res type_tables :=
  ' (_, t) <- read_file BUFSIZE read_type_form_step fp (1, initialize_type_form) ;; Ret t.

(** ** The grammar of the analyses *)
Definition tables_Grammar (c : class_table) (t : type_tables) : Grammar := {|
  Class_id := fun i j => cl_id (c i j);
  Type_name := tt_Type t;
  Form_name := fun i j => fo_name (tt_Form t i j)
|}.

(** * Properties *)

(** ** The loop over a file *)
Lemma read_file_go_all : forall BUFSIZE {S} (step : CELL -> S -> res S) f fp cs st,
  read_all_go BUFSIZE f fp = Ret cs -> read_file_go BUFSIZE step f fp st = fold_res step cs st.
Proof.
  intros BUFSIZE S step. induction f as [|f IH]; intros fp cs st H; [discriminate H|]. cbn [read_all_go read_file_go] in *.
  destruct (s_feof fp) as [[] fp1]; [now injection H as <-|].
  destruct (s_read BUFSIZE fp1) as [[c fp2]|]; [|discriminate H].
  destruct (read_all_go BUFSIZE f fp2) as [cs'|] eqn:E; [|discriminate H]. injection H as <-. cbn [fold_res].
  destruct (step c st); [now apply IH | reflexivity].
Qed.

(** The cells that were printed are the ones that are read. *)
Lemma read_file_print : forall BUFSIZE {S} (step : CELL -> S -> res S) cs st, forallb (cell_ok BUFSIZE) cs = true ->
  read_file BUFSIZE step (mkStream (print_all cs) 1) st = fold_res step cs st.
Proof.
  intros BUFSIZE S step cs st H. unfold read_file. cbn [rest]. apply read_file_go_all. apply (read_all_go_print BUFSIZE cs _ 1 false H). lia.
Qed.

(** The loop ends on every file. *)
Lemma read_file_fuel : forall BUFSIZE {S} (step : CELL -> S -> res S) fp st,
  (forall c s, step c s <> Err OutOfFuel) -> read_file BUFSIZE step fp st <> Err OutOfFuel.
Proof.
  intros BUFSIZE S step fp st HS. unfold read_file.
  pose proof (read_all_go_fuel BUFSIZE (Datatypes.S (String.length (rest fp))) fp ltac:(unfold left; lia)) as HF.
  revert HF st. generalize (Datatypes.S (String.length (rest fp))) as f. intros f. revert fp.
  induction f as [|f IH]; intros fp HF st; cbn [read_all_go read_file_go] in *; [exact (fun _ => HF eq_refl)|].
  destruct (s_feof fp) as [[] fp1]; [discriminate|]. destruct (s_read BUFSIZE fp1) as [[c fp2]|]; [|congruence].
  specialize (HS c st). destruct (step c st) as [s|]; [|congruence]. apply IH.
  destruct (read_all_go BUFSIZE f fp2); [discriminate | congruence].
Qed.

(** ** Names and numbers of the parts of speech *)
Lemma search_name_found : forall f name x i k, i <= k -> k - i < Z.of_nat f -> name k = Some x ->
  (forall n, i <= n < k -> exists s, name n = Some s /\ s <> x) -> search_name f name x i = Ret k.
Proof.
  induction f as [|f IH]; intros name x i k Hik Hf Hk HN; [lia|]. cbn [search_name].
  destruct (Z.eq_dec i k) as [->|Hne]; [now rewrite Hk, str_eq_refl|].
  destruct (HN i ltac:(lia)) as [s [-> Hs]]. destruct (str_eq_spec s x); [contradiction|]. apply IH; [lia | lia | exact Hk|].
  intros m Hm. apply HN. lia.
Qed.

Definition list_cell (l : list CELL) : CELL := fold_right CONS NIL l.

(** A name, with a mark if it conjugates. *)
Definition name_cell (n : string * bool) : CELL := CONS (ATOM (fst n)) (if snd n then CONS (ATOM "%") NIL else NIL).

(** A part of speech of the grammar file: its name and its subclasses. *)
Definition part_of_speech : Type := (string * bool) * list (string * bool).
Definition pos_cell (p : part_of_speech) : CELL := CONS (name_cell (fst p)) (CONS (list_cell (map name_cell (snd p))) NIL).

Lemma class_name_cell : forall n, class_name (name_cell n) = Ret n.
Proof. intros [n []]; reflexivity. Qed.

Lemma read_subclasses_names : forall subs i j kf t, 0 <= i < CLASSIFY_NO -> 1 <= j -> j + zlen subs < CLASSIFY_NO ->
  exists t', read_subclasses (list_cell (map name_cell subs)) i j kf t = Ret t' /\
    (forall k n, nth_error subs k = Some n -> cl_id (t' i (j + Z.of_nat k)) = Some (fst n)) /\
    forall x y, x <> i \/ y < j \/ j + zlen subs <= y -> t' x y = t x y.
Proof.
  induction subs as [|s subs IH]; intros i j kf t Hi Hj Hn.
  - exists t. split; [reflexivity|]. split; [intros [|k]; discriminate | reflexivity].
  - rewrite zlen_cons in Hn. pose proof (zlen_pos subs). unfold CLASSIFY_NO in Hi, Hn.
    cbn [map list_cell fold_right read_subclasses Null]. rewrite class_name_cell. destruct s as [n c].
    unfold set_class. destruct (within_spec 0 i (CLASSIFY_NO + 1)) as [_|HX]; [|unfold CLASSIFY_NO in HX; lia].
    destruct (within_spec 0 j (CLASSIFY_NO + 1)) as [_|HX]; [|unfold CLASSIFY_NO in HX; lia]. cbn [andb].
    destruct (Z.leb_spec CLASSIFY_NO (j + 1)) as [HX|_]; [unfold CLASSIFY_NO in HX; lia|].
    set (t1 := mset t i j _).
    destruct (IH i (j + 1) kf t1) as [t' [E [HK HF]]]; [unfold CLASSIFY_NO; lia | lia | unfold CLASSIFY_NO; lia |].
    exists t'. split; [exact E|]. split.
    + intros [|k] m Hm; cbn [nth_error] in Hm.
      * injection Hm as <-. replace (j + Z.of_nat 0) with j by lia. rewrite HF by lia. subst t1. unfold mset. now rewrite !Z.eqb_refl.
      * specialize (HK k m Hm). replace (j + Z.of_nat (S k)) with (j + 1 + Z.of_nat k) by lia. exact HK.
    + intros x y Hxy. rewrite zlen_cons in Hxy. rewrite HF by lia. subst t1. unfold mset.
      destruct (Z.eqb_spec x i), (Z.eqb_spec y j); cbn [andb]; auto. lia.
Qed.

(** The row [i] of the table holds the part of speech [p]. *)
Definition holds (t : class_table) (i : Z) (p : part_of_speech) : Prop :=
  cl_id (t i 0) = Some (fst (fst p)) /\ forall k n, nth_error (snd p) k = Some n -> cl_id (t i (Z.of_nat k + 1)) = Some (fst n).

Lemma read_class_rows : forall (ps : list part_of_speech) i t, 1 <= i -> i + zlen ps < CLASSIFY_NO ->
  (forall p, In p ps -> 1 + zlen (snd p) < CLASSIFY_NO) ->
  exists t', fold_res read_class_step (map pos_cell ps) (i, t) = Ret (i + zlen ps, t') /\
    (forall k p, nth_error ps k = Some p -> holds t' (i + Z.of_nat k) p) /\
    forall x y, x < i -> t' x y = t x y.
Proof.
  induction ps as [|[[n c] subs] ps IH]; intros i t Hi Hn HS.
  - exists t. split; [cbn; f_equal; f_equal; lia|]. split; [intros [|k]; discriminate | reflexivity].
  - rewrite zlen_cons in *. pose proof (zlen_pos ps). unfold CLASSIFY_NO in Hn.
    cbn [map fold_res]. unfold read_class_step at 1. cbn [pos_cell car cdr fst snd Null name_cell].
    change (CONS (ATOM n) _) with (name_cell (n, c)). rewrite class_name_cell. unfold set_class.
    destruct (within_spec 0 i (CLASSIFY_NO + 1)) as [_|HX]; [|unfold CLASSIFY_NO in HX; lia]. cbn [within andb]. change (within 0 0 (CLASSIFY_NO + 1)) with true. cbv iota.
    set (t1 := mset t i 0 _).
    destruct (read_subclasses_names subs i 1 c t1) as [t2 [E2 [HK HF]]];
      [unfold CLASSIFY_NO; lia | lia | exact (HS _ (or_introl eq_refl)) |].
    cbn [car]. rewrite E2. destruct (Z.leb_spec CLASSIFY_NO (i + 1)) as [HX|_]; [unfold CLASSIFY_NO in HX; lia|].
    destruct (IH (i + 1) t2) as [t3 [E3 [HK3 HF3]]]; [lia | unfold CLASSIFY_NO; lia | intros p Hp; apply HS; now right |].
    exists t3. split; [rewrite E3; f_equal; f_equal; lia|]. split.
    + intros [|k] p Hp; cbn [nth_error] in Hp.
      * injection Hp as <-. replace (i + Z.of_nat 0) with i by lia. split.
        -- rewrite HF3, HF by lia. subst t1. unfold mset. now rewrite !Z.eqb_refl.
        -- intros k m Hm. rewrite HF3 by lia. rewrite (Z.add_comm (Z.of_nat k)). now apply HK.
      * specialize (HK3 k p Hp). now replace (i + Z.of_nat (S k)) with (i + 1 + Z.of_nat k) by lia.
    + intros x y Hx. rewrite HF3, HF by lia. subst t1. unfold mset. destruct (Z.eqb_spec x i); [lia | reflexivity].
Qed.

Lemma nth_inj : forall {A B} (f : A -> B) l a b x y, NoDup (map f l) -> nth_error l a = Some x -> nth_error l b = Some y ->
  f x = f y -> a = b.
Proof.
  intros A B f l a b x y HN Ha Hb E. apply (proj1 (NoDup_nth_error (map f l)) HN).
  - rewrite length_map. apply nth_error_Some. congruence.
  - rewrite !nth_error_map, Ha, Hb. cbn [option_map]. now rewrite E.
Qed.

(** The entries of a table, from index 1 on, have different names: the search finds each of them. *)
Lemma search_table : forall {A} (f : A -> string) (l : list A) (name : Z -> option string) fuel k x,
  (forall m y, nth_error l m = Some y -> name (Z.of_nat m + 1) = Some (f y)) -> NoDup (map f l) ->
  nth_error l k = Some x -> Z.of_nat k < Z.of_nat fuel -> search_name fuel name (f x) 1 = Ret (Z.of_nat k + 1).
Proof.
  intros A f l name fuel k x HT HN Hk Hf. apply search_name_found; [lia | lia | now apply HT |].
  intros n Hn. assert (HL : (Z.to_nat (n - 1) < List.length l)%nat).
  { assert (k < List.length l)%nat by (apply nth_error_Some; congruence). lia. }
  destruct (nth_error l (Z.to_nat (n - 1))) as [y|] eqn:EY; [|apply nth_error_None in EY; lia].
  exists (f y). split.
  - rewrite <- (HT _ _ EY). f_equal. lia.
  - intros E. pose proof (nth_inj f l _ _ _ _ HN EY Hk E). lia.
Qed.

(** The names that are not looked up. *)
Definition special_name (s : string) : bool := str_eq s "*" || str_eq s "連語".

(** the numbers of the parts of speech are their places in the grammar file: after [read_class] of the text of a
    grammar with fewer than 127 parts of speech and subclasses, [get_hinsi_id] and [get_bunrui_id]
    give for each name (different from the others of its kind) the place of its list. *)
Theorem grammar_file_ids : forall BUFSIZE (ps : list part_of_speech), forallb (cell_ok BUFSIZE) (map pos_cell ps) = true ->
  zlen ps + 1 < CLASSIFY_NO -> (forall p, In p ps -> zlen (snd p) + 1 < CLASSIFY_NO) ->
  NoDup (map (fun p => fst (fst p)) ps) -> (forall p, In p ps -> special_name (fst (fst p)) = false) ->
  exists c, read_class BUFSIZE (mkStream (print_all (map pos_cell ps)) 1) = Ret c /\
    forall t k p, nth_error ps k = Some p ->
      get_hinsi_id (G := tables_Grammar c t) (fst (fst p)) = Ret (Z.of_nat k + 1) /\
      (NoDup (map fst (snd p)) -> forall j s, nth_error (snd p) j = Some s -> special_name (fst s) = false ->
         get_bunrui_id (G := tables_Grammar c t) (fst s) (Z.of_nat k + 1) = Ret (Z.of_nat j + 1)).
Proof.
  intros BUFSIZE ps HC HN HS HD HX. unfold read_class. rewrite read_file_print by exact HC.
  destruct (read_class_rows ps 1 initialize_class) as [c [E [HR _]]]; [lia | lia | intros p Hp; specialize (HS p Hp); lia |].
  rewrite E. exists c. split; [reflexivity|]. intros t k p Hk. pose proof (nth_error_In _ _ Hk) as Hp.
  assert (HL : (k < List.length ps)%nat) by (apply nth_error_Some; congruence).
  split.
  - pose proof (HX p Hp) as H1. unfold special_name in H1. apply orb_false_iff in H1 as [H1 H2]. unfold get_hinsi_id. rewrite H1, H2.
    apply (search_table (fun p => fst (fst p)) ps (fun i => Class_id i 0)); auto; [|unfold zlen, CLASSIFY_NO in *; lia].
    intros m y Hm. cbn. rewrite (Z.add_comm (Z.of_nat m)). now apply HR.
  - intros HD' j s Hj HX'. unfold special_name in HX'. apply orb_false_iff in HX' as [H1 _]. unfold get_bunrui_id. rewrite H1.
    destruct (HR k p Hk) as [_ HR2]. rewrite (Z.add_comm 1) in HR2.
    assert (HJ : (j < List.length (snd p))%nat) by (apply nth_error_Some; congruence).
    specialize (HS p Hp). unfold zlen in HS.
    destruct (Class_id (Z.of_nat k + 1) 1) as [u|] eqn:EU.
    + apply (search_table fst (snd p) (fun i => Class_id (Z.of_nat k + 1) i)); auto; unfold CLASSIFY_NO in *; lia.
    + cbn in EU. destruct (snd p) as [|s0 subs] eqn:ES; [destruct j; discriminate|]. pose proof (HR2 O s0 eq_refl) as H0.
      change (Z.of_nat 0 + 1) with 1 in H0. congruence.
Qed.

(** ** Conjugations *)

(** A form: its name, its ending and the reading of the ending, when it is given. *)
Definition form_entry : Type := string * string * option string.
Definition form_cell (f : form_entry) : CELL :=
  let '(name, gobi, yomi) := f in
  CONS (ATOM name) (CONS (ATOM gobi) match yomi with Some y => CONS (ATOM y) NIL | None => NIL end).
Definition type_cell (t : string * list form_entry) : CELL := CONS (ATOM (fst t)) (CONS (list_cell (map form_cell (snd t))) NIL).

Definition form_of (f : form_entry) : FORM :=
  let '(name, g, yomi) := f in mkFORM (Some name) (Some (ending g)) (Some (match yomi with Some y => ending y | None => ending g end)).

Lemma read_forms_entries : forall fs i j t, 0 <= i < TYPE_NO -> 1 <= j -> j + zlen fs <= FORM_NO ->
  exists F, read_forms (list_cell (map form_cell fs)) i j t = Ret (mkTT (tt_Type t) F) /\
    (forall k f, nth_error fs k = Some f -> F i (j + Z.of_nat k) = form_of f) /\
    forall x y, x <> i \/ y < j -> F x y = tt_Form t x y.
Proof.
  induction fs as [|f fs IH]; intros i j t Hi Hj Hn.
  - exists (tt_Form t). split; [now destruct t|]. split; [intros [|k]; discriminate | reflexivity].
  - rewrite zlen_cons in Hn. pose proof (zlen_pos fs).
    destruct f as [[n g] y]. set (F1 := mset (tt_Form t) i j (form_of (n, g, y))).
    assert (STEP : read_forms (list_cell (map form_cell ((n, g, y) :: fs))) i j t =
                   read_forms (list_cell (map form_cell fs)) i (j + 1) (mkTT (tt_Type t) F1)).
    { unfold list_cell. cbn [map fold_right read_forms form_cell Null].
      destruct (within_spec 0 i TYPE_NO) as [_|HX]; [|lia]. destruct (within_spec 0 j FORM_NO) as [_|HX]; [|lia].
      destruct y; reflexivity. }
    destruct (IH i (j + 1) (mkTT (tt_Type t) F1)) as [F [E [HK HF]]]; [lia | lia | lia |].
    exists F. split; [exact (eq_trans STEP E)|]. split.
    + intros [|k] m Hm; cbn [nth_error] in Hm.
      * injection Hm as <-. replace (j + Z.of_nat 0) with j by lia. rewrite HF by lia. cbn [tt_Form]. subst F1. unfold mset. now rewrite !Z.eqb_refl.
      * specialize (HK k m Hm). now replace (j + Z.of_nat (S k)) with (j + 1 + Z.of_nat k) by lia.
    + intros x z Hxz. rewrite HF by lia. cbn [tt_Form]. subst F1. unfold mset. destruct (Z.eqb_spec x i), (Z.eqb_spec z j); cbn [andb]; auto. lia.
Qed.

Lemma read_type_rows : forall ts i t, 1 <= i -> i + zlen ts <= TYPE_NO ->
  (forall p, In p ts -> 1 + zlen (snd p) <= FORM_NO) ->
  exists t', fold_res read_type_form_step (map type_cell ts) (i, t) = Ret (i + zlen ts, t') /\
    (forall k p, nth_error ts k = Some p -> tt_Type t' (i + Z.of_nat k) = Some (fst p) /\
       forall m f, nth_error (snd p) m = Some f -> tt_Form t' (i + Z.of_nat k) (Z.of_nat m + 1) = form_of f) /\
    forall x, x < i -> tt_Type t' x = tt_Type t x /\ forall y, tt_Form t' x y = tt_Form t x y.
Proof.
  induction ts as [|[n fs] ts IH]; intros i t Hi Hn HS.
  - exists t. split; [cbn; f_equal; f_equal; lia|]. split; [intros [|k]; discriminate | auto].
  - rewrite zlen_cons in *. pose proof (zlen_pos ts).
    cbn [map fold_res]. unfold read_type_form_step at 1. cbn [type_cell car cdr _Atom fst snd].
    destruct (within_spec 0 i TYPE_NO) as [_|HX]; [|lia]. cbn [negb]. cbv zeta.
    destruct (read_forms_entries fs i 1 (mkTT (aset (tt_Type t) i (Some n)) (tt_Form t))) as [F [E2 [HK HF]]];
      [lia | lia | exact (HS _ (or_introl eq_refl)) |].
    rewrite E2. cbn [tt_Type tt_Form] in *.
    destruct (IH (i + 1) (mkTT (aset (tt_Type t) i (Some n)) F)) as [t3 [E3 [HK3 HF3]]]; [lia | lia | intros p Hp; apply HS; now right |].
    exists t3. split; [rewrite E3; f_equal; f_equal; lia|]. cbn [tt_Type tt_Form] in HF3. split.
    + intros [|k] p Hp; cbn [nth_error] in Hp.
      * injection Hp as <-. replace (i + Z.of_nat 0) with i by lia. destruct (HF3 i ltac:(lia)) as [H1 H2]. split.
        -- now rewrite H1, aset_eq.
        -- intros m f Hm. rewrite H2, (Z.add_comm (Z.of_nat m)). now apply HK.
      * specialize (HK3 k p Hp). now replace (i + Z.of_nat (S k)) with (i + 1 + Z.of_nat k) by lia.
    + intros x Hx. destruct (HF3 x ltac:(lia)) as [H1 H2]. split; [rewrite H1; now apply aset_ne; lia|].
      intros y. rewrite H2. apply HF. lia.
Qed.

(** the same for the conjugations: after [read_type_form] of the text of the file [get_type_id] and
    [get_form_id] give the places of a type and of its forms, and the table has the ending of each form, the
    reading of the ending being the ending itself when it is left out. *)
Theorem katuyou_file_forms : forall BUFSIZE ts, forallb (cell_ok BUFSIZE) (map type_cell ts) = true ->
  zlen ts < TYPE_NO -> (forall p, In p ts -> zlen (snd p) < FORM_NO) ->
  NoDup (map fst ts) -> (forall p, In p ts -> special_name (fst p) = false) ->
  exists t, read_type_form BUFSIZE (mkStream (print_all (map type_cell ts)) 1) = Ret t /\
    forall c k p, nth_error ts k = Some p ->
      get_type_id (G := tables_Grammar c t) (fst p) = Ret (Z.of_nat k + 1) /\
      forall m n g y, nth_error (snd p) m = Some (n, g, y) ->
        tt_Form t (Z.of_nat k + 1) (Z.of_nat m + 1) = form_of (n, g, y) /\
        (NoDup (map (fun f : form_entry => fst (fst f)) (snd p)) -> special_name n = false ->
           forall E, case_grammar (CaseEnv := E) = tables_Grammar c t -> get_form_id n (Z.of_nat k + 1) = Ret (Z.of_nat m + 1)).
Proof.
  intros BUFSIZE ts HC HN HS HD HX. unfold read_type_form. rewrite read_file_print by exact HC.
  destruct (read_type_rows ts 1 initialize_type_form) as [t [E [HR _]]]; [lia | lia | intros p Hp; specialize (HS p Hp); lia |].
  rewrite E. exists t. split; [reflexivity|]. intros c k p Hk. pose proof (nth_error_In _ _ Hk) as Hp.
  assert (HL : (k < List.length ts)%nat) by (apply nth_error_Some; congruence).
  destruct (HR k p Hk) as [_ HR2]. rewrite (Z.add_comm 1) in HR2. unfold zlen in HN. split.
  - pose proof (HX p Hp) as H1. unfold special_name in H1. apply orb_false_iff in H1 as [H1 _]. unfold get_type_id. rewrite H1.
    apply (search_table fst ts); auto; [|unfold TYPE_NO in *; lia].
    intros m y Hm. cbn. rewrite (Z.add_comm (Z.of_nat m)). now apply HR.
  - intros m n g y Hm. split; [now apply HR2|]. intros HD' HX' env HE. unfold special_name in HX'. apply orb_false_iff in HX' as [H1 _].
    unfold get_form_id. rewrite H1, HE. destruct (Z.eqb_spec (Z.of_nat k + 1) 0); [lia|].
    destruct (within_spec 0 (Z.of_nat k + 1) TYPE_NO) as [_|HW]; [|lia]. cbn [negb].
    assert (HM : (m < List.length (snd p))%nat) by (apply nth_error_Some; congruence).
    specialize (HS p Hp). unfold zlen in HS.
    apply (search_table (fun f : form_entry => fst (fst f)) (snd p) _ _ m (n, g, y)); auto; [|unfold FORM_NO in *; lia].
    intros j f Hj. cbn. rewrite (HR2 j f Hj). destruct f as [[fn fg] fy]. reflexivity.
Qed.

(** ** On concrete files *)
Definition grammar_example : list part_of_speech :=
  [(("名詞", false), [("普通名詞", false); ("サ変名詞", false)]); (("動詞", true), []); (("助詞", false), [("格助詞", false)])].

Lemma grammar_file_ids_witness :
  exists c, read_class 8192 (mkStream (print_all (map pos_cell grammar_example)) 1) = Ret c /\
    get_hinsi_id (G := tables_Grammar c initialize_type_form) "助詞" = Ret 3 /\
    get_bunrui_id (G := tables_Grammar c initialize_type_form) "サ変名詞" 1 = Ret 2.
Proof.
  destruct (grammar_file_ids 8192 grammar_example) as [c [E H]].
  - vm_compute. reflexivity.
  - reflexivity.
  - intros p [<-|[<-|[<-|[]]]]; reflexivity.
  - repeat (constructor; [cbn; intuition discriminate|]). constructor.
  - intros p [<-|[<-|[<-|[]]]]; reflexivity.
  - exists c. split; [exact E|]. split.
    + exact (proj1 (H initialize_type_form 2%nat _ eq_refl)).
    + apply (proj2 (H initialize_type_form 0%nat _ eq_refl)) with (j := 1%nat) (s := ("サ変名詞", false)); try reflexivity.
      repeat (constructor; [cbn; intuition discriminate|]). constructor.
Defined.

(** 子音動詞カ行 with its base form and one more. *)
Definition katuyou_example : list (string * list form_entry) :=
  [("母音動詞", [("語幹", "*", None); ("基本形", "る", None)]);
   ("子音動詞カ行", [("語幹", "*", None); ("基本形", "く", None); ("基本連用形", "き", Some "き")])].

Lemma katuyou_file_forms_witness :
  exists t, read_type_form 8192 (mkStream (print_all (map type_cell katuyou_example)) 1) = Ret t /\
    get_type_id (G := tables_Grammar initialize_class t) "子音動詞カ行" = Ret 2 /\
    tt_Form t 2 2 = mkFORM (Some "基本形") (Some "く") (Some "く").
Proof.
  destruct (katuyou_file_forms 8192 katuyou_example) as [t [E H]].
  - vm_compute. reflexivity.
  - reflexivity.
  - intros p [<-|[<-|[]]]; reflexivity.
  - repeat (constructor; [cbn; intuition discriminate|]). constructor.
  - intros p [<-|[<-|[]]]; reflexivity.
  - exists t. split; [exact E|]. destruct (H initialize_class 1%nat _ eq_refl) as [H1 H2]. split; [exact H1|].
    exact (proj1 (H2 1%nat "基本形" "く" None eq_refl)).
Defined.

(** [read_type_form] does not test the number of types: the one at [TYPE_NO] is written behind the array. *)
Lemma too_many_types : forall n forms t,
  read_type_form_step (CONS (ATOM n) forms) (TYPE_NO, t) = Err OutOfBounds.
Proof. reflexivity. Qed.
