(* ===== verification/Lattice.v ===== *)
(** * The morpheme lattice of JUMAN (src/juman/lib/juman_lib.c, connect.c)

    JUMAN reads a sentence from left to right and keeps a lattice: [m_buffer]
    holds the morphemes found so far, [p_buffer] the nodes, each one a morpheme
    with its place, its best score (the lowest) and its possible predecessors
    ([path], the best one first).  [check_connect] adds a node; the connections of a
    morpheme are cached by its column of the connection matrix.  Numerals are
    joined ([suusi_word]), and brackets and blanks let the connection of the
    word before them through ([through_word]).  [get_best_path_num] reads the best
    path.  The buffers grow with the sentence ([realloc_*_buffer]); a score that is no
    C int ends the run with [IntOverflow].  UTF-8. *)
From Stdlib Require Import ZArith List Bool String Ascii Lia.
Import ListNotations.
From S2P Require Import Prelude CStr Feature Sentence SemCode Regexp.
Open Scope list_scope.
Open Scope Z_scope.

(** ** Morphemes and nodes *)
Record MRPH : Type := mkM {
  j_midasi : string;
  j_midasi2 : string;
  j_yomi : string;
  j_imis : string;
  j_hinsi : Z;
  j_bunrui : Z;
  j_katuyou1 : Z;
  j_katuyou2 : Z;
  j_weight : Z;
  j_con_tbl : Z;
  j_length : Z
}.

Definition MRPH_0 : MRPH :=
  mkM EmptyString EmptyString EmptyString EmptyString 0 0 0 0 0 0 0.

(** [path] is the part of the array before its -1. *)
Record PROCESS_BUFFER : Type := mkP {
  pb_mrph_p : Z;
  pb_start : Z;
  pb_end : Z;
  pb_score : Z;
  pb_path : list Z;
  pb_connect : bool
}.

Definition PROCESS_BUFFER_0 : PROCESS_BUFFER := mkP 0 0 0 0 [] false.

(** An entry of the cache; [p_no] and [pos] are of type [short]. *)
Record CONNECT_COST : Type := mkCC { cc_p_no : Z; cc_pos : Z; cc_cost : Z; cc_opt : Z }.

Definition short (n : Z) : Z := (n + 32768) mod 65536 - 32768.

(** An [unsigned char], the type of a weight. *)
Definition u_char (n : Z) : Z := n mod 256.

Definition MAX_PATHES : Z := 500.
Definition MAX_PATHES_WK : Z := 5000.
Definition CONNECT_MATRIX_MAX : Z := 1000.
Definition DEFAULT_C_WEIGHT : Z := 10.
Definition MRPH_DEFAULT_WEIGHT : Z := 10.
Definition MIDASI_MAX : Z := 129.
Definition SUUSI_MIDASI_MAX : Z := 108.
Definition SUUSI_YOMI_MAX : Z := 108.
Definition OPT_DEVOICE : Z := 4.

Record RENSETU_PAIR : Type := mkRP {
  i_pos : Z;
  j_pos : Z;
  rp_hinsi : Z;
  rp_bunrui : Z;
  rp_type : Z;
  rp_form : Z;
  rp_goi : option string
}.

Record COST_OMOMI : Type := mkCO { rensetsu : Z; keitaiso : Z; cost_haba : Z }.

(** The tables that JUMAN loads, its weights, and [Show_Opt_debug]. *)
Class JumanTables : Type := {
  jt_grammar :: Grammar;
  Class_cost : Z -> Z -> Z;
  rensetu_tbl : list RENSETU_PAIR;
  I_NUM : Z;
  J_NUM : Z;
  rensetu_mtr : array Z;
  cost_omomi : COST_OMOMI;
  Show_Opt_debug : Z
}.

(** ** Kinds of characters (the UTF-8 branch) *)
Definition KUUHAKU : Z := 0x20.
Definition PRIOD : Z := 0xa1a5.
Definition CHOON : Z := 0xa1bc.
Definition KIGOU : Z := 0xa3b0.
Definition SUJI : Z := 0xa3c0.
Definition ALPH : Z := 0xa4a0.
Definition HIRAGANA : Z := 0xa5a0.
Definition KATAKANA : Z := 0xa6a0.
Definition GR : Z := 0xb0a0.
Definition KANJI : Z := 0xffff.

Definition check_unicode_char_type (code : Z) : Z :=
  if (0x303f <? code) && (code <? 0x30a0) then HIRAGANA
  else if (0x309f <? code) && (code <? 0x30fb) then KATAKANA
  else if code =? 0x30fc then CHOON
  else if code =? 0xff0e then PRIOD
  else if ((0xff0f <? code) && (code <? 0xff1a)) || ((0x2f <? code) && (code <? 0x3a)) then SUJI
  else if ((0x40 <? code) && (code <? 0x5b)) || ((0x60 <? code) && (code <? 0x7b)) ||
          ((0xbf <? code) && (code <? 0x0100)) || ((0xff20 <? code) && (code <? 0xff3b)) ||
          ((0xff40 <? code) && (code <? 0xff5b)) then ALPH
  else if ((0x4dff <? code) && (code <? 0xa000)) || (code =? 0x3005) then KANJI
  else if (0x036f <? code) && (code <? 0x0400) then GR
  else KIGOU.

(** A truncated character reads the terminator as 0. *)
Definition check_utf8_char_type (ucp : string) : Z :=
  let c := byte_at ucp 0 in
  if 0xef <? c then 0
  else if 0xdf <? c then
    check_unicode_char_type (Z.shiftl (Z.land c 0x0f) 12 + Z.shiftl (Z.land (byte_at ucp 1) 0x3f) 6 +
                             Z.land (byte_at ucp 2) 0x3f)
  else if 0x7f <? c then
    check_unicode_char_type (Z.shiftl (Z.land c 0x1f) 6 + Z.land (byte_at ucp 1) 0x3f)
  else check_unicode_char_type c.

(** [cp] is the string from [pos] on. *)
Definition check_code (cp : string) : Z :=
  let c := byte_at cp 0 in
  if c =? 0 then 0 else if c =? KUUHAKU then KUUHAKU else check_utf8_char_type cp.

Definition utf8_bytes (ucp : string) : Z :=
  let c := byte_at ucp 0 in
  if 0xfb <? c then 6 else if 0xf7 <? c then 5 else if 0xef <? c then 4
  else if 0xdf <? c then 3 else if 0x7f <? c then 2 else 1.

(** ** The connection matrix (connect.c) *)
Section Tables.
Context `{T : JumanTables}.

Definition rensetu_at (i : Z) : res RENSETU_PAIR :=
  if i <? 0 then Err OutOfBounds
  else match nth_error rensetu_tbl (Z.to_nat i) with Some r => Ret r | None => Err OutOfBounds end.

Definition check_matrix (postcon precon : Z) : res Z :=
  if (postcon =? -1) || (precon =? -1) then Ret DEFAULT_C_WEIGHT
  else
    l <- rensetu_at postcon ;;
    r <- rensetu_at precon ;;
    if within 0 (i_pos l) I_NUM && within 0 (j_pos r) J_NUM
    then Ret (rensetu_mtr (i_pos l * J_NUM + j_pos r)) else Err OutOfBounds.

Definition check_matrix_left (precon : Z) : res bool :=
  if precon =? -1 then Ret false
  else
    r <- rensetu_at precon ;;
    if within 0 (j_pos r) J_NUM
    then Ret (existsb (fun i => negb (rensetu_mtr (i * J_NUM + j_pos r) =? 0)) (zrange 0 I_NUM))
    else Err OutOfBounds.

Definition check_matrix_right (postcon : Z) : res bool :=
  if postcon =? -1 then Ret false
  else
    l <- rensetu_at postcon ;;
    if within 0 (i_pos l) I_NUM
    then Ret (existsb (fun j => negb (rensetu_mtr (i_pos l * J_NUM + j) =? 0)) (zrange 0 J_NUM))
    else Err OutOfBounds.

Definition check_table_for_undef (hinsi bunrui : Z) : Z :=
  match find (fun '(i, r) => (rp_hinsi r =? hinsi) && (rp_bunrui r =? bunrui) &&
                match rp_goi r with None => true | Some _ => false end)
             (combine (zrange 0 (zlen rensetu_tbl)) rensetu_tbl) with
  | Some (i, _) => i
  | None => -1
  end.
End Tables.

(** ** The numbers of the grammar (juman_init_etc) *)
Record juman_ids : Type := mkIds {
  undef_hinsi : Z; undef_kata_bunrui : Z; undef_alph_bunrui : Z; undef_etc_bunrui : Z;
  undef_kata_con_tbl : Z; undef_alph_con_tbl : Z; undef_etc_con_tbl : Z;
  suusi_hinsi : Z; suusi_bunrui : Z;
  kakko_hinsi : Z; kakko_bunrui2 : Z;
  kuuhaku_hinsi : Z; kuuhaku_bunrui : Z; kuuhaku_con_tbl : Z;
  rendaku_hinsi1 : Z; rendaku_renyou : Z; rendaku_hinsi2 : Z; rendaku_bunrui2_3 : Z;
  rendaku_hinsi4 : Z; rendaku_bunrui4 : list Z
}.

(** ** The lattice *)
Record lattice : Type := mkL {
  m_buffer : array MRPH;
  m_buffer_num : Z;
  p_buffer : array PROCESS_BUFFER;
  p_buffer_num : Z;
  match_pbuf : list Z;
  connect_cache : array CONNECT_COST
}.

Definition set_match_pbuf (v : list Z) (L : lattice) : lattice :=
  mkL (m_buffer L) (m_buffer_num L) (p_buffer L) (p_buffer_num L) v (connect_cache L).
Definition set_m_buffer (v : array MRPH) (L : lattice) : lattice :=
  mkL v (m_buffer_num L) (p_buffer L) (p_buffer_num L) (match_pbuf L) (connect_cache L).
Definition set_p_buffer (v : array PROCESS_BUFFER) (L : lattice) : lattice :=
  mkL (m_buffer L) (m_buffer_num L) v (p_buffer_num L) (match_pbuf L) (connect_cache L).
Definition set_connect_cache (v : array CONNECT_COST) (L : lattice) : lattice :=
  mkL (m_buffer L) (m_buffer_num L) (p_buffer L) (p_buffer_num L) (match_pbuf L) v.

(** A new entry of each buffer. *)
Definition push_mrph (m : MRPH) (L : lattice) : lattice :=
  mkL (aset (m_buffer L) (m_buffer_num L) m) (m_buffer_num L + 1) (p_buffer L) (p_buffer_num L)
      (match_pbuf L) (connect_cache L).
Definition push_node (p : PROCESS_BUFFER) (L : lattice) : lattice :=
  mkL (m_buffer L) (m_buffer_num L) (aset (p_buffer L) (p_buffer_num L) p) (p_buffer_num L + 1)
      (match_pbuf L) (connect_cache L).

Definition node (L : lattice) (i : Z) : PROCESS_BUFFER := p_buffer L i.
Definition mrph_of_node (L : lattice) (i : Z) : MRPH := m_buffer L (pb_mrph_p (node L i)).

(** [pos_match_process]: the nodes that end at [pos], and the new [p_start]. *)
Definition pos_match_process (pos p_start : Z) (L : lattice) : Z * lattice :=
  let '(p_start', js) :=
    for_up p_start (p_buffer_num L) (fun i '(p_start, js) =>
      let p := node L i in
      if (pb_end p <=? pos) || negb (pb_connect p) then
        (if i =? p_start then p_start + 1 else p_start,
         if (pb_end p =? pos) && pb_connect p then js ++ [i] else js)
      else (p_start, js)) (p_start, []) in
  (p_start', set_match_pbuf js L).

(** ** The nodes that end at a place *)

(** Node [i] can precede a morpheme at [pos]. *)
Definition ends_at (pos : Z) (L : lattice) (i : Z) : bool :=
  (pb_end (node L i) =? pos) && pb_connect (node L i).

Definition nodes_ending (pos : Z) (L : lattice) : list Z :=
  filter (ends_at pos L) (zrange 0 (p_buffer_num L)).

(** The nodes before [p_start] are of no use from [pos] on. *)
Definition passed (pos p_start : Z) (L : lattice) : Prop :=
  0 <= p_start <= p_buffer_num L /\
  forall i, 0 <= i < p_start -> pb_end (node L i) <= pos \/ pb_connect (node L i) = false.

(** Skipping the nodes before [p_start] loses no predecessor, and the new [p_start] is as good
    for the places that follow. *)
Lemma pos_match_process_spec : forall pos p_start L, passed (pos - 1) p_start L ->
  exists p_start', pos_match_process pos p_start L = (p_start', set_match_pbuf (nodes_ending pos L) L) /\
    passed pos p_start' L.
Proof.
  intros pos p_start L [Hr Hp]. unfold pos_match_process.
  set (body := fun i '(ps, js) => _).
  assert (G : exists ps, for_up p_start (p_buffer_num L) body (p_start, []) =
              (ps, filter (ends_at pos L) (zrange p_start (p_buffer_num L))) /\
              p_start <= ps <= p_buffer_num L /\
              forall i, p_start <= i < ps -> pb_end (node L i) <= pos \/ pb_connect (node L i) = false).
  { apply (for_up_inv (fun i s => exists ps, s = (ps, filter (ends_at pos L) (zrange p_start i)) /\
              p_start <= ps <= i /\
              forall k, p_start <= k < ps -> pb_end (node L k) <= pos \/ pb_connect (node L k) = false)); [lia| |].
    - exists p_start. rewrite zrange_nil by lia. split; [reflexivity|]. split; [lia|]. intros; lia.
    - intros i s Hi [ps [-> [Hps Hk]]]. rewrite (zrange_snoc p_start (i + 1)), filter_app by lia.
      replace (i + 1 - 1) with i by lia. unfold body. cbn [filter].
      change (ends_at pos L i) with ((pb_end (node L i) =? pos) && pb_connect (node L i)).
      destruct ((pb_end (node L i) <=? pos) || negb (pb_connect (node L i))) eqn:E.
      + exists (if i =? ps then ps + 1 else ps).
        split; [destruct ((pb_end (node L i) =? pos) && pb_connect (node L i)); [|rewrite app_nil_r]; reflexivity|].
        split; [destruct (i =? ps) eqn:Ei; lia|]. intros k Hk'. destruct (Z.eq_dec k i) as [->|Hne].
        * apply orb_true_iff in E as [E|E]; [left; lia|right; now apply negb_true_iff].
        * apply Hk. destruct (i =? ps) eqn:Ei; lia.
      + apply orb_false_iff in E as [E1 E2]. replace (pb_end (node L i) =? pos) with false by lia.
        exists ps. cbn [andb]. rewrite app_nil_r. split; [reflexivity|]. split; [lia|exact Hk]. }
  destruct G as [ps [-> [Hps Hk]]]. exists ps. split.
  - f_equal. f_equal. unfold nodes_ending. rewrite (zrange_app 0 p_start) by lia. rewrite filter_app.
    assert (E0 : filter (ends_at pos L) (zrange 0 p_start) = []).
    { apply filter_none. intros i Hi. apply in_zrange in Hi. unfold ends_at.
      destruct (Hp i Hi) as [H|H]; [|rewrite H; apply andb_false_r].
      replace (pb_end (node L i) =? pos) with false by lia. reflexivity. }
    now rewrite E0.
  - split; [lia|]. intros i Hi. destruct (Z.lt_ge_cases i p_start); [|apply Hk; lia].
    destruct (Hp i) as [H'|H']; [lia|left; lia|now right].
Qed.

Section Lattice.
Context `{T : JumanTables} (ids : juman_ids).

(** ** Connecting a morpheme *)

(** A voiced word does not follow this morpheme. *)
Definition no_devoice (pre : MRPH) : bool :=
  negb ((j_hinsi pre =? rendaku_hinsi1 ids) && (j_katuyou2 pre =? rendaku_renyou ids) ||
        (j_hinsi pre =? rendaku_hinsi2 ids) && negb (j_bunrui pre =? rendaku_bunrui2_3 ids) ||
        (j_hinsi pre =? rendaku_hinsi4 ids) && existsb (Z.eqb (j_bunrui pre)) (rendaku_bunrui4 ids)) ||
  (negb (j_hinsi pre =? rendaku_hinsi4 ids) && (check_code (j_midasi pre) =? HIRAGANA) &&
   (j_length pre =? BYTES4CHAR)).

(** The cost of the connection of node [j] with a morpheme, 0 when there is none. *)
Definition c_score (L : lattice) (right_con opt : Z) (j : Z) : res Z :=
  let pre := mrph_of_node L j in
  c <- check_matrix (j_con_tbl pre) right_con ;;
  Ret (if negb (Z.land opt OPT_DEVOICE =? 0) && no_devoice pre then 0 else c).

(** [chk_connect], the connected nodes with their scores, and the index and score of the best. *)
Record chk_state : Type := mkChk { chk_connect : list (Z * Z); best_score : Z; best_score_num : Z }.

Fixpoint connect_loop (cost : Z -> res Z) (score_of : Z -> Z) (js : list Z) (st : chk_state) : res chk_state :=
  match js with
  | [] => Ret st
  | j :: js' =>
      c <- cost j ;;
      if c =? 0 then connect_loop cost score_of js' st
      else
        let '(mkChk chk best num) := st in
        let score := score_of j + c * rensetsu cost_omomi in
        if negb (is_int score) then Err IntOverflow else
        let st := if score <? best then mkChk (chk ++ [(j, score)]) score (zlen chk)
                  else mkChk (chk ++ [(j, score)]) best num in
        if MAX_PATHES_WK <=? zlen (chk_connect st) then Ret st
        else connect_loop cost score_of js' st
  end.

(** The other predecessors within the width, up to the size of [path]. *)
Fixpoint other_paths (haba_score best_num : Z) (j : Z) (chk : list (Z * Z)) (pathes : Z) : list Z :=
  match chk with
  | [] => []
  | (p, score) :: chk' =>
      if (score <=? haba_score) && negb (j =? best_num) then
        if MAX_PATHES - 1 <=? pathes then []
        else p :: other_paths haba_score best_num (j + 1) chk' (pathes + 1)
      else other_paths haba_score best_num (j + 1) chk' pathes
  end.

(** The search of [check_connect]: the best score before the new morpheme, and the predecessors. *)
Definition best_connection (L : lattice) (right_con opt : Z) : res (option (Z * list Z)) :=
  st <- connect_loop (c_score L right_con opt) (fun j => pb_score (node L j)) (match_pbuf L)
          (mkChk [] INT_MAX 0) ;;
  let '(mkChk chk best num) := st in
  if best =? INT_MAX then Ret None
  else
    match nth_error chk (Z.to_nat num) with
    | Some (p, _) => Ret (Some (best, p :: other_paths (best + cost_haba cost_omomi) num 0 chk 1))
    | None => Err OutOfBounds
    end.

Definition lattice_node (L : lattice) (pos m_num score : Z) (path : list Z) : PROCESS_BUFFER :=
  mkP m_num pos (pos + j_length (m_buffer L m_num)) score path true.

Definition push_scored (p : PROCESS_BUFFER) (L : lattice) : res lattice :=
  if is_int (pb_score p) then Ret (push_node p L) else Err IntOverflow.

(** [check_connect] always returns TRUE. *)
Definition check_connect (pos m_num opt : Z) (L : lattice) : res lattice :=
  let new_mrph := m_buffer L m_num in
  let class_score := Class_cost (j_hinsi new_mrph) (j_bunrui new_mrph) * j_weight new_mrph * keitaiso cost_omomi in
  r <- rensetu_at (j_con_tbl new_mrph) ;;
  if negb (within 0 (j_pos r) CONNECT_MATRIX_MAX) then Err OutOfBounds
  else
    let c_cache := connect_cache L (j_pos r) in
    if (Show_Opt_debug =? 0) && (cc_pos c_cache =? pos) && (0 <? cc_p_no c_cache) && (cc_opt c_cache =? opt) then
      push_scored (lattice_node L pos m_num (cc_cost c_cache + class_score) (pb_path (node L (cc_p_no c_cache)))) L
    else
      b <- best_connection L (j_con_tbl new_mrph) opt ;;
      match b with
      | None => Ret L
      | Some (best, path) =>
          let L := set_connect_cache (aset (connect_cache L) (j_pos r)
                     (mkCC (short (p_buffer_num L)) (short pos) best opt)) L in
          push_scored (lattice_node L pos m_num (best + class_score) path) L
      end.

(** ** Numerals *)

Definition is_suusi (m : MRPH) : bool := (j_hinsi m =? suusi_hinsi ids) && (j_bunrui m =? suusi_bunrui ids).

(** The numeral [pre] followed by [new]. *)
Definition join_suusi (pre new : MRPH) : MRPH :=
  mkM (j_midasi pre ++ j_midasi new) (j_midasi2 pre ++ j_midasi2 new) (j_yomi pre ++ j_yomi new) (j_imis pre)
      (j_hinsi pre) (j_bunrui pre) (j_katuyou1 pre) (j_katuyou2 pre) (j_weight new) (j_con_tbl new)
      (j_length pre + slen (j_midasi new)).

Fixpoint suusi_loop (pos : Z) (new : MRPH) (js : list Z) (L : lattice) : res lattice :=
  match js with
  | [] => Ret L
  | i :: js' =>
      let pre := mrph_of_node L i in
      c <- (if is_suusi pre then check_matrix (j_con_tbl pre) (j_con_tbl new) else Ret 0) ;;
      if c =? 0 then suusi_loop pos new js' L
      else if (SUUSI_MIDASI_MAX <=? slen (j_midasi pre) + slen (j_midasi new)) ||
              (SUUSI_YOMI_MAX <=? slen (j_yomi pre) + slen (j_yomi new)) then Ret L
      else
        let p := node L i in
        let score := pb_score p + (j_weight new - j_weight pre) *
                       Class_cost (j_hinsi new) (j_bunrui new) * keitaiso cost_omomi in
        let p' := mkP (m_buffer_num L) (pb_start p) (pos + slen (j_midasi new)) score (pb_path p) (pb_connect p) in
        L <- push_scored p' (push_mrph (join_suusi pre new) L) ;;
        suusi_loop pos new js' L
  end.

(** [suusi_word] always returns TRUE. *)
Definition suusi_word (pos m_num : Z) (L : lattice) : res lattice :=
  let new := m_buffer L m_num in
  if is_suusi new then suusi_loop pos new (match_pbuf L) L else Ret L.

(** ** Brackets and blanks *)

Definition is_through (m : MRPH) : bool :=
  ((j_hinsi m =? kakko_hinsi ids) && (j_bunrui m =? kakko_bunrui2 ids)) ||
  ((j_hinsi m =? kuuhaku_hinsi ids) && (j_bunrui m =? kuuhaku_bunrui ids)).

Definition set_j_con_tbl (v : Z) (m : MRPH) : MRPH :=
  mkM (j_midasi m) (j_midasi2 m) (j_yomi m) (j_imis m) (j_hinsi m) (j_bunrui m) (j_katuyou1 m) (j_katuyou2 m)
      (j_weight m) v (j_length m).

(** The same bracket with the connection [con] of the morpheme before it. *)
Definition same_through (now : MRPH) (con : Z) (m : MRPH) : bool :=
  (j_hinsi m =? j_hinsi now) && (j_bunrui m =? j_bunrui now) && (j_con_tbl m =? con) &&
  (j_weight m =? j_weight now) && str_eq (j_midasi m) (j_midasi now) && str_eq (j_yomi m) (j_yomi now).

(** A new predecessor [i] for an old node: the expensive ones are cut, and one of the cheapest ones
    comes first. *)
Definition min_score (L : lattice) (js : list Z) : Z :=
  fold_left (fun s j => if pb_score (node L j) <? s then pb_score (node L j) else s) js INT_MAX.

Fixpoint swap_first (p : Z -> bool) (x : Z) (before l : list Z) : list Z :=
  match l with
  | [] => x :: before
  | y :: l' => if p y then y :: before ++ x :: l' else swap_first p x (before ++ [y]) l'
  end.

Definition through_again (i sc : Z) (nn : Z) (L : lattice) : res lattice :=
  let p := node L nn in
  if MAX_PATHES <=? zlen (pb_path p) + 1 then Err OutOfBounds
  else
    let path := pb_path p ++ [i] in
    let scmin := min_score L path in
    let path := filter (fun j => negb (scmin + cost_haba cost_omomi <? pb_score (node L j))) path in
    let path := match path with
                | [] => []
                | x :: l => swap_first (fun j => pb_score (node L j) =? scmin) x [] l
                end in
    if negb (is_int (scmin + sc)) then Err IntOverflow else
    Ret (set_p_buffer (aset (p_buffer L) nn (mkP (pb_mrph_p p) (pb_start p) (pb_end p) (scmin + sc) path (pb_connect p))) L).

Definition through_one (pos : Z) (now : MRPH) (i : Z) (L : lattice) : res lattice :=
  let con := j_con_tbl (mrph_of_node L i) in
  let '(n, L) := match find_up 0 (m_buffer_num L) (fun j => same_through now con (m_buffer L j)) with
                 | Some j => (j, L)
                 | None => (m_buffer_num L, push_mrph (set_j_con_tbl con now) L)
                 end in
  let sc := j_weight now * keitaiso cost_omomi * Class_cost (j_hinsi now) (j_bunrui now) in
  match find_up 0 (p_buffer_num L) (fun j => (pb_mrph_p (node L j) =? n) && (pb_start (node L j) =? pos)) with
  | None => push_scored (mkP n pos (pos + j_length now) (pb_score (node L i) + sc) [i] true) L
  | Some nn => through_again i sc nn L
  end.

(** [through_word] always returns TRUE. *)
Definition through_word (pos m_num : Z) (L : lattice) : res lattice :=
  let now := m_buffer L m_num in
  if is_through now then fold_res (through_one pos now) (match_pbuf L) L else Ret L.

(** ** The best path *)

(** The loop of [get_best_path_num]: the nodes from the one before [last], the sentence's end first. *)
Fixpoint best_path_loop (fuel : nat) (L : lattice) (last : Z) : res (list Z) :=
  match pb_path (node L last) with
  | [] => Err OutOfBounds
  | last :: _ =>
      match pb_path (node L last) with
      | 0 :: _ => Ret [last]
      | _ =>
          match fuel with
          | O => Err OutOfFuel
          | S f => ps <- best_path_loop f L last ;; Ret (last :: ps)
          end
      end
  end.

(** Each step goes back to a node that ends earlier. *)
Definition get_best_path_num (L : lattice) : res (list Z) :=
  let last := p_buffer_num L - 1 in
  best_path_loop (S (Z.to_nat (pb_end (node L (hd 0 (pb_path (node L last))))))) L last.
End Lattice.

(** ** What [check_connect] finds *)
Section Connect.
Context `{T : JumanTables} (ids : juman_ids).

Definition max_wk : nat := Z.to_nat MAX_PATHES_WK.

(** The connected nodes among [js] and the score of a path through each one. *)
Definition scored_nodes (f score_of : Z -> Z) (js : list Z) : list (Z * Z) :=
  map (fun j => (j, score_of j + f j * rensetsu cost_omomi)) (filter (fun j => negb (f j =? 0)) js).

(** [best] is the lowest score of [chk] below INT_MAX, at index [num]. *)
Definition is_best (chk : list (Z * Z)) (best num : Z) : Prop :=
  Forall (fun c => best <= snd c) chk /\
  (best = INT_MAX \/ best < INT_MAX /\ exists p, nth_error chk (Z.to_nat num) = Some (p, best)).

Lemma is_best_snoc : forall chk best num j score, is_best chk best num ->
  is_best (chk ++ [(j, score)]) (if score <? best then score else best) (if score <? best then zlen chk else num).
Proof.
  intros chk best num j score [Hf Hb]. destruct (Z.ltb_spec score best).
  - split.
    + apply Forall_app. split; [|repeat constructor; cbn; lia].
      eapply Forall_impl; [|exact Hf]. cbn. lia.
    + right. split; [destruct Hb as [->|[Hb _]]; lia|]. exists j. unfold zlen. rewrite Nat2Z.id.
      now rewrite nth_error_app2, Nat.sub_diag by lia.
  - split.
    + apply Forall_app. split; [exact Hf|repeat constructor; cbn; lia].
    + destruct Hb as [->|[Hb [p Hp]]]; [now left|right; split; [exact Hb|]]. exists p.
      rewrite nth_error_app1; [exact Hp|]. apply nth_error_Some. congruence.
Qed.

(** The loop examines the scored_nodes up to the size of its table. *)
Lemma connect_loop_spec : forall cost score_of f js chk best num,
  (forall j, In j js -> cost j = Ret (f j)) ->
  (forall j, In j js -> f j <> 0 -> is_int (score_of j + f j * rensetsu cost_omomi) = true) ->
  (List.length chk < max_wk)%nat -> is_best chk best num ->
  exists best' num', connect_loop cost score_of js (mkChk chk best num) =
      Ret (mkChk (firstn max_wk (chk ++ scored_nodes f score_of js)) best' num') /\
    is_best (firstn max_wk (chk ++ scored_nodes f score_of js)) best' num'.
Proof.
  induction js as [|j js IH]; intros chk best num Hc Hi Hl Hb.
  - exists best, num. cbn [scored_nodes filter map connect_loop]. rewrite app_nil_r, firstn_all2 by lia. auto.
  - cbn [connect_loop]. rewrite (Hc j) by now left. unfold scored_nodes. cbn [filter].
    destruct (Z.eqb_spec (f j) 0) as [E|E]; cbn [negb map].
    + apply IH; auto; intros; [apply Hc|apply Hi]; auto; now right.
    + rewrite (Hi j) by (auto; now left). cbn [negb]. set (score := score_of j + f j * rensetsu cost_omomi).
      pose proof (is_best_snoc chk best num j score Hb) as Hb'.
      set (b1 := if score <? best then score else best) in *.
      set (n1 := if score <? best then zlen chk else num) in *.
      replace (if score <? best then mkChk (chk ++ [(j, score)]) score (zlen chk)
               else mkChk (chk ++ [(j, score)]) best num) with (mkChk (chk ++ [(j, score)]) b1 n1)
        by (unfold b1, n1; now destruct (score <? best)).
      cbn [chk_connect]. fold (scored_nodes f score_of js).
      replace (chk ++ (j, score) :: scored_nodes f score_of js) with ((chk ++ [(j, score)]) ++ scored_nodes f score_of js)
        by now rewrite <- app_assoc.
      assert (Hlen : List.length (chk ++ [(j, score)]) = S (List.length chk)) by (rewrite length_app; cbn; lia).
      unfold zlen. destruct (Z.leb_spec MAX_PATHES_WK (Z.of_nat (List.length (chk ++ [(j, score)])))) as [Hm|Hm].
      * exists b1, n1. rewrite firstn_app.
        replace (max_wk - List.length (chk ++ [(j, score)]))%nat with O by (unfold max_wk in *; lia).
        cbn [firstn]. rewrite app_nil_r, firstn_all2 by (unfold max_wk in *; lia). auto.
      * apply IH; auto; [intros; apply Hc; now right|intros; apply Hi; auto; now right|unfold max_wk; lia].
Qed.

(** The loop and the search depend on the costs of the nodes alone. *)
Lemma connect_loop_ext : forall cost cost' sc sc' js st,
  (forall j, In j js -> cost j = cost' j /\ sc j = sc' j) -> connect_loop cost sc js st = connect_loop cost' sc' js st.
Proof.
  induction js as [|j js IH]; intros st H; [reflexivity|]. cbn [connect_loop].
  destruct (H j) as [-> ->]; [now left|]. assert (H' : forall j, In j js -> cost j = cost' j /\ sc j = sc' j)
    by (intros; apply H; now right).
  destruct (cost' j) as [c|e]; [|reflexivity]. destruct (c =? 0); [now apply IH|].
  destruct (negb (is_int _)); [reflexivity|]. destruct st as [chk best num].
  now destruct (MAX_PATHES_WK <=? _); [|apply IH].
Qed.

Lemma rensetu_at_pos : forall i r, rensetu_at i = Ret r -> 0 <= i.
Proof. intros i r H. unfold rensetu_at in H. destruct (Z.ltb_spec i 0); [discriminate|lia]. Qed.

Lemma check_matrix_column : forall left_con rc rc' r r', rensetu_at rc = Ret r -> rensetu_at rc' = Ret r' ->
  j_pos r = j_pos r' -> check_matrix left_con rc = check_matrix left_con rc'.
Proof.
  intros left_con rc rc' r r' H H' E. unfold check_matrix.
  pose proof (rensetu_at_pos _ _ H). pose proof (rensetu_at_pos _ _ H').
  replace (rc =? -1) with false by lia. replace (rc' =? -1) with false by lia. rewrite H, H', E. reflexivity.
Qed.

(** Two lattices agree on the nodes [js] and on their morphemes. *)
Definition agree_on (js : list Z) (L L' : lattice) : Prop :=
  forall j, In j js -> node L j = node L' j /\ mrph_of_node L j = mrph_of_node L' j.

Lemma best_connection_ext : forall L L' rc rc' r r' opt, match_pbuf L = match_pbuf L' ->
  agree_on (match_pbuf L) L L' -> rensetu_at rc = Ret r -> rensetu_at rc' = Ret r' -> j_pos r = j_pos r' ->
  best_connection ids L rc opt = best_connection ids L' rc' opt.
Proof.
  intros L L' rc rc' r r' opt Hm Ha H H' E. unfold best_connection. rewrite <- Hm.
  rewrite (connect_loop_ext _ (c_score ids L' rc' opt) _ (fun j => pb_score (node L' j))); [reflexivity|].
  intros j Hj. destruct (Ha j Hj) as [E1 E2]. split; [|now rewrite E1].
  unfold c_score. rewrite E2. now rewrite (check_matrix_column _ _ _ _ _ H H' E).
Qed.

Lemma other_paths_in : forall haba num chk j n x, In x (other_paths haba num j chk n) ->
  exists score, In (x, score) chk /\ score <= haba.
Proof.
  induction chk as [|[p s] chk IH]; intros j n x Hin; [easy|]. cbn [other_paths] in Hin.
  destruct ((s <=? haba) && negb (j =? num)) eqn:E.
  - destruct (MAX_PATHES - 1 <=? n); [easy|]. destruct Hin as [->|Hin]; [exists s; split; [now left|blia]|].
    destruct (IH _ _ _ Hin) as [s' [H1 H2]]. exists s'. split; [now right|exact H2].
  - destruct (IH _ _ _ Hin) as [s' [H1 H2]]. exists s'. split; [now right|exact H2].
Qed.

(** The search finds a cheapest connection among the scored_nodes, and the other predecessors are
    scored_nodes within the width. *)
Lemma best_connection_spec : forall L rc opt f, (forall j, In j (match_pbuf L) -> c_score ids L rc opt j = Ret (f j)) ->
  (forall j, In j (match_pbuf L) -> f j <> 0 -> is_int (pb_score (node L j) + f j * rensetsu cost_omomi) = true) ->
  let chk := firstn max_wk (scored_nodes f (fun j => pb_score (node L j)) (match_pbuf L)) in
  (best_connection ids L rc opt = Ret None /\ Forall (fun c => INT_MAX <= snd c) chk) \/
  (exists best p rest, best_connection ids L rc opt = Ret (Some (best, p :: rest)) /\ best < INT_MAX /\
     In (p, best) chk /\ Forall (fun c => best <= snd c) chk /\
     Forall (fun x => exists score, In (x, score) chk /\ score <= best + cost_haba cost_omomi) rest).
Proof.
  intros L rc opt f Hf Hi chk. unfold best_connection.
  destruct (connect_loop_spec (c_score ids L rc opt) (fun j => pb_score (node L j)) f (match_pbuf L) [] INT_MAX 0)
    as [best [num [E [Hall Hb]]]]; [exact Hf|exact Hi|unfold max_wk, MAX_PATHES_WK; cbn [List.length]; lia| |].
  { split; [constructor|now left]. }
  cbn [app] in E, Hall, Hb. fold chk in E, Hall, Hb. rewrite E.
  destruct (Z.eqb_spec best INT_MAX) as [->|Hne]; [now left|]. right.
  destruct Hb as [Hb|[Hb [p Hp]]]; [congruence|]. exists best, p. rewrite Hp.
  eexists. split; [reflexivity|]. split; [exact Hb|]. split; [now apply nth_error_In in Hp|]. split; [exact Hall|].
  apply Forall_forall. intros x Hx. now apply other_paths_in in Hx.
Qed.
End Connect.

(** ** The cache of connections *)
Section Cache.
Context `{T : JumanTables} (ids : juman_ids).

(** [check_connect] without the cache. *)
Definition check_connect_ref (pos m_num opt : Z) (L : lattice) : res lattice :=
  let new_mrph := m_buffer L m_num in
  let class_score := Class_cost (j_hinsi new_mrph) (j_bunrui new_mrph) * j_weight new_mrph * keitaiso cost_omomi in
  r <- rensetu_at (j_con_tbl new_mrph) ;;
  if negb (within 0 (j_pos r) CONNECT_MATRIX_MAX) then Err OutOfBounds
  else
    b <- best_connection ids L (j_con_tbl new_mrph) opt ;;
    match b with
    | None => Ret L
    | Some (best, path) => push_scored (lattice_node L pos m_num (best + class_score) path) L
    end.

(** The nodes of [match_pbuf] and their morphemes are in the buffers. *)
Definition match_ok (L : lattice) : Prop :=
  forall j, In j (match_pbuf L) -> 0 <= j < p_buffer_num L /\ pb_mrph_p (node L j) < m_buffer_num L.

(** A live entry of the cache for [pos] is what the search would find now. *)
Definition cache_ok (pos : Z) (L : lattice) : Prop :=
  forall rc r, rensetu_at rc = Ret r ->
    let e := connect_cache L (j_pos r) in
    cc_pos e = pos -> 0 < cc_p_no e ->
    cc_p_no e < p_buffer_num L /\
    best_connection ids L rc (cc_opt e) = Ret (Some (cc_cost e, pb_path (node L (cc_p_no e)))).

Definition forget_cache (L : lattice) : lattice := set_connect_cache (fun _ => mkCC 0 0 0 0) L.

Lemma short_id : forall n, -32768 <= n < 32768 -> short n = n.
Proof. intros n H. unfold short. rewrite Z.mod_small; lia. Qed.

Lemma short_live : forall n, 0 <= n <= 65536 -> 0 < short n -> short n = n.
Proof.
  intros n H Hp. unfold short in *. destruct (Z.lt_ge_cases n 32768); [rewrite Z.mod_small; lia|].
  pose proof (Z.mod_pos_bound (n + 32768) 65536).
  assert (E : n + 32768 = (n + 32768 - 65536) + 1 * 65536) by lia. rewrite E, Z_mod_plus_full in Hp.
  destruct (Z.eq_dec n 65536) as [->|]; [discriminate Hp|]. rewrite Z.mod_small in Hp; lia.
Qed.

Lemma push_node_agree : forall p js L, (forall j, In j js -> 0 <= j < p_buffer_num L) -> agree_on js L (push_node p L).
Proof.
  intros p js L H j Hj. specialize (H j Hj). unfold mrph_of_node, node, push_node. cbn.
  rewrite aset_ne by lia. auto.
Qed.

Lemma push_mrph_agree : forall m js L, (forall j, In j js -> pb_mrph_p (node L j) < m_buffer_num L) ->
  agree_on js L (push_mrph m L).
Proof.
  intros m js L H j Hj. specialize (H j Hj). unfold mrph_of_node, node, push_mrph in *. cbn.
  rewrite aset_ne by lia. auto.
Qed.

(** A new node that does not end at [pos] keeps the cache. *)
Lemma push_node_cache : forall pos p L, match_ok L -> cache_ok pos L -> cache_ok pos (push_node p L).
Proof.
  intros pos p L Hm Hc rc r Hr e Hp Hn. destruct (Hc rc r Hr Hp Hn) as [H1 H2]. split; [cbn; lia|].
  replace (node (push_node p L) (cc_p_no e)) with (node L (cc_p_no e)).
  - rewrite <- (best_connection_ext ids L (push_node p L) rc rc r r (cc_opt e)); auto.
    now apply push_node_agree; intros j Hj; apply Hm.
  - unfold node, push_node. cbn. rewrite aset_ne by (unfold e; cbn; lia). reflexivity.
Qed.

Lemma push_mrph_cache : forall pos m L, match_ok L -> cache_ok pos L -> cache_ok pos (push_mrph m L).
Proof.
  intros pos m L Hm Hc rc r Hr e Hp Hn. destruct (Hc rc r Hr Hp Hn) as [H1 H2]. split; [exact H1|].
  change (node (push_mrph m L) (cc_p_no e)) with (node L (cc_p_no e)).
  rewrite <- (best_connection_ext ids L (push_mrph m L) rc rc r r (cc_opt e)); auto.
  apply push_mrph_agree; intros j Hj; now apply Hm.
Qed.

(** The new entry is right for its column. *)
Lemma new_entry_cache : forall pos L rc r opt best path p, match_ok L -> cache_ok pos L -> rensetu_at rc = Ret r ->
  best_connection ids L rc opt = Ret (Some (best, path)) -> 0 < p_buffer_num L <= 65536 -> pb_path p = path ->
  cache_ok pos (push_node p (set_connect_cache
    (aset (connect_cache L) (j_pos r) (mkCC (short (p_buffer_num L)) (short pos) best opt)) L)).
Proof.
  intros pos L rc r opt best path p Hm Hc Hr Hb Hn Hpath rc' r' Hr' e Hp Hpos. subst e.
  unfold push_node, set_connect_cache in *. cbn [connect_cache p_buffer p_buffer_num match_pbuf m_buffer m_buffer_num] in *.
  set (L' := mkL _ _ _ _ _ _).
  assert (Ha : agree_on (match_pbuf L) L L') by (apply (push_node_agree p _ L); intros j Hj; now apply Hm).
  unfold aset in Hp, Hpos |- * at 1 2 3 4. destruct (Z.eqb_spec (j_pos r') (j_pos r)) as [E|E].
  - cbn [cc_p_no cc_pos cc_cost cc_opt] in *. rewrite (short_live (p_buffer_num L)) by lia. split; [lia|].
    rewrite <- (best_connection_ext ids L L' rc rc' r r' opt) by auto. rewrite Hb.
    unfold node, L'. cbn [p_buffer]. now rewrite aset_eq, Hpath.
  - destruct (Hc rc' r' Hr' Hp Hpos) as [H1 H2]. split; [lia|].
    rewrite <- (best_connection_ext ids L L' rc' rc' r' r') by auto. rewrite H2.
    unfold node, L'. cbn [p_buffer]. rewrite aset_ne by lia. reflexivity.
Qed.

Lemma push_scored_ret : forall p L L', push_scored p L = Ret L' -> L' = push_node p L /\ is_int (pb_score p) = true.
Proof. intros p L L' H. unfold push_scored in H. destruct (is_int (pb_score p)) eqn:E; inv H. auto. Qed.

(** With a right cache [check_connect] adds the node that the search would find, and the cache stays right. *)
Lemma check_connect_cached : forall pos m_num opt L, match_ok L -> cache_ok pos L -> 0 < p_buffer_num L <= 65536 ->
  res_map forget_cache (check_connect ids pos m_num opt L) =
  res_map forget_cache (check_connect_ref pos m_num opt L) /\
  forall L', check_connect ids pos m_num opt L = Ret L' -> cache_ok pos L'.
Proof.
  intros pos m_num opt L Hm Hc Hn. unfold check_connect, check_connect_ref.
  destruct (rensetu_at (j_con_tbl (m_buffer L m_num))) as [r|e] eqn:Hr; [|split; [reflexivity|discriminate]].
  destruct (negb (within 0 (j_pos r) CONNECT_MATRIX_MAX)); [split; [reflexivity|discriminate]|].
  destruct ((Show_Opt_debug =? 0) && _ && _ && _) eqn:Hit.
  - assert (Hh : cc_pos (connect_cache L (j_pos r)) = pos /\ 0 < cc_p_no (connect_cache L (j_pos r)) /\
                 cc_opt (connect_cache L (j_pos r)) = opt) by blia.
    destruct Hh as [Hp [Hpn Ho]]. destruct (Hc _ r Hr Hp Hpn) as [H1 H2]. rewrite Ho in H2. rewrite H2.
    split; [unfold push_scored; now destruct (is_int _)|].
    intros L' H'. apply push_scored_ret in H' as [-> _]. now apply push_node_cache.
  - destruct (best_connection ids L (j_con_tbl (m_buffer L m_num)) opt) as [[[best path]|]|e] eqn:Hb.
    + split; [unfold push_scored; now destruct (is_int _)|]. intros L' H'. apply push_scored_ret in H' as [-> _].
      now apply (new_entry_cache pos L (j_con_tbl (m_buffer L m_num)) r opt best path).
    + split; [reflexivity|]. now intros L' [= <-].
    + split; [reflexivity|discriminate].
Qed.
End Cache.

(** ** The shape of the lattice *)
Section Shape.
Context `{T : JumanTables} (ids : juman_ids).

(** Each node but the first one, the beginning of the sentence, has predecessors, which end where
    it starts; a live entry of the cache names a node that starts at its place. *)
Record lattice_ok (L : lattice) : Prop := {
  ok_num : 0 < p_buffer_num L <= 65536 /\ 0 < m_buffer_num L;
  ok_bos : pb_end (node L 0) = 0 /\ pb_mrph_p (node L 0) = 0 /\ j_hinsi (m_buffer L 0) = 0;
  ok_node : forall k, 1 <= k < p_buffer_num L ->
    0 <= pb_start (node L k) < pb_end (node L k) /\ pb_path (node L k) <> [] /\
    forall j, In j (pb_path (node L k)) -> 0 <= j < p_buffer_num L /\ pb_end (node L j) = pb_start (node L k);
  ok_score : forall k, 0 <= k < p_buffer_num L -> is_int (pb_score (node L k)) = true;
  ok_cache : forall c, let e := connect_cache L c in 0 < cc_p_no e -> 0 <= cc_pos e ->
    cc_p_no e < p_buffer_num L /\ pb_start (node L (cc_p_no e)) = cc_pos e
}.

(** The nodes of [match_pbuf] end at [pos]. *)
Definition match_at (pos : Z) (L : lattice) : Prop :=
  forall j, In j (match_pbuf L) -> 0 <= j < p_buffer_num L /\ pb_end (node L j) = pos.

Lemma push_node_new : forall p L, node (push_node p L) (p_buffer_num L) = p.
Proof. intros. unfold node, push_node. cbn. now rewrite aset_eq. Qed.

Lemma push_node_old : forall p L k, k <> p_buffer_num L -> node (push_node p L) k = node L k.
Proof. intros. unfold node, push_node. cbn. now rewrite aset_ne. Qed.

Lemma push_node_ok : forall p L, lattice_ok L -> p_buffer_num L < 65536 -> 0 <= pb_start p < pb_end p -> pb_path p <> [] ->
  is_int (pb_score p) = true ->
  (forall j, In j (pb_path p) -> 0 <= j < p_buffer_num L /\ pb_end (node L j) = pb_start p) ->
  lattice_ok (push_node p L).
Proof.
  intros p L H Hn Hse Hne Hs Hp. destruct H as [[N1 N2] B Nd Sc Ca]. constructor.
  - cbn. lia.
  - rewrite push_node_old by lia. exact B.
  - intros k Hk. change (p_buffer_num (push_node p L)) with (p_buffer_num L + 1) in *.
    assert (G : forall j, 0 <= j < p_buffer_num L -> node (push_node p L) j = node L j)
      by (intros j Hj; apply push_node_old; lia).
    destruct (Z.eq_dec k (p_buffer_num L)) as [->|Hk'].
    + rewrite push_node_new. split; [exact Hse|]. split; [exact Hne|]. intros j Hj. destruct (Hp j Hj).
      split; [lia|]. now rewrite G.
    + rewrite push_node_old by lia. destruct (Nd k) as [A1 [A2 A3]]; [lia|]. split; [exact A1|]. split; [exact A2|].
      intros j Hj. destruct (A3 j Hj). split; [lia|]. now rewrite G.
  - intros k Hk. change (p_buffer_num (push_node p L)) with (p_buffer_num L + 1) in *.
    destruct (Z.eq_dec k (p_buffer_num L)) as [->|Hk']; [now rewrite push_node_new|].
    rewrite push_node_old by lia. apply Sc. lia.
  - intros c e H1 H2. destruct (Ca c H1 H2) as [C1 C2]. split; [cbn; lia|].
    rewrite push_node_old by (unfold e; cbn; lia). exact C2.
Qed.

(** Writes past the morphemes in use, and their number. *)
Lemma lattice_ok_mrph : forall L L', lattice_ok L -> p_buffer L' = p_buffer L -> p_buffer_num L' = p_buffer_num L ->
  connect_cache L' = connect_cache L -> 0 < m_buffer_num L' -> m_buffer L' 0 = m_buffer L 0 -> lattice_ok L'.
Proof.
  intros L L' [N B Nd Sc Ca] E1 E2 E3 E4 E5.
  constructor; unfold node in *; rewrite ?E1, ?E2, ?E3, ?E5; auto. split; [apply N|exact E4].
Qed.

Lemma push_mrph_ok : forall m L, lattice_ok L -> lattice_ok (push_mrph m L).
Proof.
  intros m L H. pose proof (ok_num _ H) as [_ Hm]. apply (lattice_ok_mrph L); auto; [cbn; lia|].
  unfold push_mrph. cbn. now rewrite aset_ne by lia.
Qed.

(** A new entry of the cache for the node that is added next. *)
Lemma push_cached_ok : forall c best opt pos p L, lattice_ok L -> lattice_ok (push_node p L) -> 0 <= pos < 65536 ->
  pb_start p = pos ->
  lattice_ok (push_node p (set_connect_cache
    (aset (connect_cache L) c (mkCC (short (p_buffer_num L)) (short pos) best opt)) L)).
Proof.
  intros c best opt pos p L H [N B Nd Sc Ca] Hpos Hst. constructor; auto.
  intros c' e Hn Hp. unfold e in *. clear e. cbn [push_node set_connect_cache connect_cache p_buffer_num] in *.
  set (d := mkCC (short (p_buffer_num L)) (short pos) best opt) in *.
  assert (Ee : aset (connect_cache L) c d c' = if c' =? c then d else connect_cache L c') by reflexivity.
  rewrite Ee in *. clear Ee. destruct (c' =? c).
  - unfold d in *. clear d. cbn [cc_p_no cc_pos] in *. pose proof (ok_num _ H) as [Hb _].
    rewrite (short_live (p_buffer_num L)) by lia. split; [lia|].
    transitivity (pb_start p); [exact (f_equal pb_start (push_node_new p L))|]. rewrite Hst. unfold short in *.
    destruct (Z.lt_ge_cases pos 32768); [rewrite Z.mod_small; lia|].
    assert (E : pos + 32768 = (pos - 32768) + 1 * 65536) by lia. rewrite E, Z_mod_plus_full, Z.mod_small in Hp; lia.
  - exact (Ca c' Hn Hp).
Qed.

Lemma best_connection_path : forall L rc opt best path, best_connection ids L rc opt = Ret (Some (best, path)) ->
  path <> [] /\ forall j, In j path -> In j (match_pbuf L).
Proof.
  intros L rc opt best path H. unfold best_connection in H.
  assert (G : forall cost sc js st st', connect_loop cost sc js st = Ret st' ->
    forall c, In c (chk_connect st') -> In c (chk_connect st) \/ In (fst c) js).
  { induction js as [|j js IH]; intros st st' E c Hc; cbn [connect_loop] in E; [inv E; now left|].
    destruct (cost j) as [k|]; [|discriminate]. destruct (k =? 0).
    - destruct (IH _ _ E c Hc); [now left|right; now right].
    - destruct st as [chk b n]. destruct (negb (is_int _)); [discriminate|]. set (st1 := if _ <? b then _ else _) in E.
      assert (G1 : forall c, In c (chk_connect st1) -> In c chk \/ fst c = j).
      { intros c' Hc'. unfold st1 in Hc'. destruct (_ <? b); cbn [chk_connect] in Hc';
          apply in_app_iff in Hc' as [Hc'|[<-|[]]]; auto. }
      destruct (MAX_PATHES_WK <=? _).
      + inv E. destruct (G1 c Hc) as [|<-]; [now left|right; now left].
      + destruct (IH _ _ E c Hc) as [Hc1|Hc1]; [|right; now right].
        destruct (G1 c Hc1) as [|<-]; [now left|right; now left]. }
  destruct (connect_loop _ _ _ _) as [[chk b n]|] eqn:E; [|discriminate]. destruct (b =? INT_MAX); [discriminate|].
  destruct (nth_error chk (Z.to_nat n)) as [[p s]|] eqn:En; [|discriminate]. inv H. split; [discriminate|].
  intros j [<-|Hj].
  - apply nth_error_In in En. destruct (G _ _ _ _ _ E _ En) as [[]|]; auto.
  - apply other_paths_in in Hj as [s' [Hj _]]. destruct (G _ _ _ _ _ E _ Hj) as [[]|]; auto.
Qed.

(** [L'] has at least the nodes of [L], at the same places, and the same [match_pbuf]. *)
Definition extends (L L' : lattice) : Prop :=
  match_pbuf L' = match_pbuf L /\ p_buffer_num L <= p_buffer_num L' /\ m_buffer_num L <= m_buffer_num L' /\
  (forall k, 0 <= k < p_buffer_num L -> pb_start (node L' k) = pb_start (node L k) /\
     pb_end (node L' k) = pb_end (node L k) /\ pb_connect (node L' k) = pb_connect (node L k)) /\
  (forall k, 0 <= k < m_buffer_num L -> m_buffer L' k = m_buffer L k).

Lemma extends_refl : forall L, extends L L.
Proof. unfold extends. intuition lia. Qed.

Lemma extends_trans : forall L1 L2 L3, extends L1 L2 -> extends L2 L3 -> extends L1 L3.
Proof.
  intros L1 L2 L3 [A1 [A2 [A3 [A4 A5]]]] [B1 [B2 [B3 [B4 B5]]]].
  split; [congruence|]. split; [lia|]. split; [lia|]. split.
  - intros k Hk. destruct (A4 k Hk) as [-> [-> ->]] || destruct (A4 k Hk) as [C1 [C2 C3]].
    destruct (B4 k) as [D1 [D2 D3]]; [lia|]. now rewrite D1, D2, D3.
  - intros k Hk. rewrite B5 by lia. now apply A5.
Qed.

Lemma push_node_extends : forall p L, extends L (push_node p L).
Proof.
  intros p L. split; [reflexivity|]. split; [cbn; lia|]. split; [cbn; lia|]. split; [|reflexivity].
  intros k Hk. now rewrite push_node_old by lia.
Qed.

Lemma push_mrph_extends : forall m L, extends L (push_mrph m L).
Proof.
  intros m L. split; [reflexivity|]. split; [cbn; lia|]. split; [cbn; lia|]. split; [auto|].
  intros k Hk. unfold push_mrph. cbn. now rewrite aset_ne by lia.
Qed.

Lemma extends_match : forall pos L L', extends L L' -> match_at pos L -> match_at pos L'.
Proof.
  intros pos L L' [E1 [E2 [_ [E4 _]]]] H j Hj. rewrite E1 in Hj. destruct (H j Hj). split; [lia|].
  destruct (E4 j) as [_ [-> _]]; [lia|assumption].
Qed.

(** [check_connect] adds at most one node, which starts at [pos]. *)
Lemma check_connect_ok : forall pos m_num opt L L', lattice_ok L -> match_at pos L -> 0 <= pos < 65536 ->
  0 < j_length (m_buffer L m_num) -> p_buffer_num L < 65536 ->
  check_connect ids pos m_num opt L = Ret L' ->
  lattice_ok L' /\ extends L L' /\ m_buffer L' = m_buffer L /\ m_buffer_num L' = m_buffer_num L /\
  (p_buffer_num L' = p_buffer_num L \/
   p_buffer_num L' = p_buffer_num L + 1 /\ pb_mrph_p (node L' (p_buffer_num L)) = m_num /\
   pb_start (node L' (p_buffer_num L)) = pos /\ pb_end (node L' (p_buffer_num L)) = pos + j_length (m_buffer L m_num)).
Proof.
  intros pos m_num opt L L' Hok Hm Hpos Hlen Hnum H. unfold check_connect in H.
  destruct (rensetu_at _) as [r|]; [|discriminate]. destruct (negb (within 0 _ _)); [discriminate|].
  assert (P : forall score path, is_int score = true -> path <> [] ->
    (forall j, In j path -> 0 <= j < p_buffer_num L /\ pb_end (node L j) = pos) ->
    lattice_ok (push_node (lattice_node L pos m_num score path) L)).
  { intros score path Hi Hne Hp. apply push_node_ok; auto. cbn. lia. }
  destruct ((Show_Opt_debug =? 0) && _ && _ && _) eqn:Hit.
  - apply push_scored_ret in H as [-> Hi].
    assert (Hh : cc_pos (connect_cache L (j_pos r)) = pos /\ 0 < cc_p_no (connect_cache L (j_pos r))) by blia.
    destruct Hh as [Hp Hpn]. destruct (ok_cache _ Hok _ Hpn) as [C1 C2]; [lia|].
    destruct (ok_node _ Hok (cc_p_no (connect_cache L (j_pos r)))) as [_ [D1 D2]]; [lia|].
    split; [apply P; auto; rewrite C2, Hp in D2; exact D2|]. split; [apply push_node_extends|].
    split; [reflexivity|]. split; [reflexivity|]. right. rewrite push_node_new. auto.
  - destruct (best_connection ids L _ opt) as [[[best path]|]|e] eqn:Hb; [| |discriminate].
    + apply push_scored_ret in H as [-> Hi]. apply best_connection_path in Hb as [Hne Hin].
      assert (HP : lattice_ok (push_node (lattice_node L pos m_num
                     (best + Class_cost (j_hinsi (m_buffer L m_num)) (j_bunrui (m_buffer L m_num)) *
                        j_weight (m_buffer L m_num) * keitaiso cost_omomi) path) L))
        by (apply P; auto; intros j Hj; now apply Hm, Hin).
      split; [now apply (push_cached_ok (j_pos r) best opt pos)|]. split; [exact (push_node_extends _ L)|].
      split; [reflexivity|]. split; [reflexivity|]. right. rewrite (push_node_new _ (set_connect_cache _ L)). auto.
    + inv H. split; [exact Hok|]. split; [apply extends_refl|]. auto.
Qed.

(** A numeral is joined with the numerals before it. *)
Lemma suusi_word_ok : forall pos m_num L L', suusi_hinsi ids <> 0 -> lattice_ok L -> match_at pos L ->
  suusi_word ids pos m_num L = Ret L' -> p_buffer_num L' <= 65536 -> lattice_ok L' /\ extends L L'.
Proof.
  intros pos m_num L L' Hs0 Hok Hm H. unfold suusi_word in H.
  destruct (is_suusi ids (m_buffer L m_num)); [|inv H; split; [exact Hok|apply extends_refl]].
  remember (m_buffer L m_num) as new. clear Heqnew.
  assert (G : forall js L, (forall j, In j js -> In j (match_pbuf L)) -> lattice_ok L -> match_at pos L ->
    suusi_loop ids pos new js L = Ret L' -> p_buffer_num L' <= 65536 -> lattice_ok L' /\ extends L L').
  { clear H Hm Hok L. induction js as [|i js IH]; intros L Hin Hok Hm H Hnum; cbn [suusi_loop] in H;
      [inv H; split; [exact Hok|apply extends_refl]|].
    assert (Hin' : forall j, In j js -> In j (match_pbuf L)) by (intros; apply Hin; now right).
    destruct (is_suusi ids (mrph_of_node L i)) eqn:Esu; [|cbn in H; now apply IH].
    destruct (check_matrix _ _) as [c|]; [|discriminate]. destruct (c =? 0); [now apply IH|].
    destruct (_ || _); [inv H; split; [exact Hok|apply extends_refl]|].
    destruct (push_scored _ _) as [L1|] eqn:E1; [|discriminate]. apply push_scored_ret in E1 as [-> Hi].
    set (L1 := push_mrph _ L) in *. set (p' := mkP _ _ _ _ _ _) in *.
    destruct (Hm i) as [Hi1 Hi2]; [apply Hin; now left|].
    assert (Hi0 : i <> 0).
    { intros ->. destruct (ok_bos _ Hok) as [_ [B1 B2]]. unfold is_suusi, mrph_of_node in Esu. rewrite B1, B2 in Esu.
      blia. }
    destruct (ok_node _ Hok i) as [D1 [D2 D3]]; [lia|].
    assert (Hlt : p_buffer_num L < p_buffer_num L').
    { assert (M : forall js L, suusi_loop ids pos new js L = Ret L' -> p_buffer_num L <= p_buffer_num L').
      { clear. induction js as [|i js IH]; intros L H; cbn [suusi_loop] in H; [inv H; lia|].
        destruct (if is_suusi ids _ then _ else _) as [c|]; [|discriminate]. destruct (c =? 0); [now apply IH|].
        destruct (_ || _); [inv H; lia|]. destruct (push_scored _ _) eqn:E; [|discriminate].
        apply push_scored_ret in E as [-> _]. apply IH in H. cbn in H. lia. }
      apply M in H. cbn in H. lia. }
    assert (Hok1 : lattice_ok (push_node p' L1)).
    { apply push_node_ok; auto; [now apply push_mrph_ok|cbn; lia|].
      unfold p', slen. cbn [pb_start pb_end]. lia. }
    assert (Hex : extends L (push_node p' L1))
      by (eapply extends_trans; [apply push_mrph_extends|apply push_node_extends]).
    destruct (IH (push_node p' L1)) as [R1 R2]; auto; [now apply (extends_match pos L)|].
    split; [exact R1|]. eapply extends_trans; eauto. }
  now apply (G (match_pbuf L) L).
Qed.

Lemma swap_first_in : forall p x l before z, In z (swap_first p x before l) <-> z = x \/ In z before \/ In z l.
Proof.
  induction l as [|y l IH]; intros before z; cbn [swap_first].
  - cbn. intuition.
  - destruct (p y); cbn [In]; rewrite ?IH, ?in_app_iff; cbn [In]; intuition.
Qed.

Lemma min_score_spec : forall L js, (forall j, In j js -> is_int (pb_score (node L j)) = true) -> js <> [] ->
  (exists j, In j js /\ pb_score (node L j) = min_score L js) /\
  forall j, In j js -> min_score L js <= pb_score (node L j).
Proof.
  intros L js Hi Hne. unfold min_score.
  assert (G : forall js m, let r := fold_left (fun s j => if pb_score (node L j) <? s then pb_score (node L j) else s) js m in
    (r = m \/ exists j, In j js /\ pb_score (node L j) = r) /\ r <= m /\ forall j, In j js -> r <= pb_score (node L j)).
  { clear. induction js as [|j js IH]; intros m; cbn [fold_left]; [split; [now left|]; split; [lia|]; now intros|].
    destruct (IH (if pb_score (node L j) <? m then pb_score (node L j) else m)) as [A [B C]].
    split; [|split].
    - destruct A as [A|[k [A1 A2]]]; [|right; exists k; split; [now right|exact A2]].
      destruct (Z.ltb_spec (pb_score (node L j)) m); [right; exists j; split; [now left|lia]|now left].
    - destruct (Z.ltb_spec (pb_score (node L j)) m); lia.
    - intros k [->|Hk]; [|now apply C]. destruct (Z.ltb_spec (pb_score (node L k)) m); lia. }
  destruct (G js INT_MAX) as [A [B C]]. split; [|exact C].
  destruct A as [A|A]; [|exact A]. destruct js as [|j js]; [easy|]. exists j. split; [now left|].
  pose proof (C j (or_introl eq_refl)). specialize (Hi j (or_introl eq_refl)). unfold is_int in Hi. cbv zeta in *. blia.
Qed.

(** The path that a bracket of several words keeps: some of the old predecessors and the new one,
    within the width of the best, which comes first. *)
Lemma through_again_spec : forall i sc nn L L', 0 <= cost_haba cost_omomi ->
  (forall j, In j (pb_path (node L nn) ++ [i]) -> is_int (pb_score (node L j)) = true) ->
  through_again i sc nn L = Ret L' ->
  exists path m, m = min_score L (pb_path (node L nn) ++ [i]) /\
    L' = set_p_buffer (aset (p_buffer L) nn (mkP (pb_mrph_p (node L nn)) (pb_start (node L nn)) (pb_end (node L nn))
           (m + sc) path (pb_connect (node L nn)))) L /\
    is_int (m + sc) = true /\ pb_score (node L (hd 0 path)) = m /\ path <> [] /\
    forall j, In j path <-> In j (pb_path (node L nn) ++ [i]) /\ pb_score (node L j) <= m + cost_haba cost_omomi.
Proof.
  intros i sc nn L L' Hh Hi H. unfold through_again in H. destruct (MAX_PATHES <=? _); [discriminate|].
  set (path0 := pb_path (node L nn) ++ [i]) in *. set (m := min_score L path0) in *.
  destruct (min_score_spec L path0 Hi) as [[k [Hk1 Hk2]] Hmin]; [unfold path0; now destruct (pb_path (node L nn))|].
  fold m in Hk2, Hmin.
  set (kept := filter _ path0) in *.
  assert (Hkept : forall j, In j kept <-> In j path0 /\ pb_score (node L j) <= m + cost_haba cost_omomi).
  { intros j. unfold kept. rewrite filter_In, negb_true_iff, Z.ltb_ge. reflexivity. }
  assert (Hkk : In k kept) by (apply Hkept; split; [exact Hk1|lia]).
  destruct (negb (is_int (m + sc))) eqn:Esc; [discriminate|]. apply negb_false_iff in Esc.
  destruct kept as [|x l] eqn:Ek; [easy|].
  set (path := swap_first _ x [] l) in H. exists path, m. split; [reflexivity|]. split; [now inv H|]. split; [exact Esc|].
  assert (Hp : forall j, In j path <-> In j (x :: l)).
  { intros j. unfold path. rewrite swap_first_in. cbn. intuition. }
  assert (Hhd : pb_score (node L (hd 0 path)) = m).
  { unfold path. clear - Hkk Hk2. revert Hkk. generalize ([] : list Z) as before.
    assert (G : forall l before, (exists k, In k l /\ pb_score (node L k) = m) ->
      pb_score (node L (hd 0 (swap_first (fun j => pb_score (node L j) =? m) x before l))) = m).
    { clear. induction l as [|y l IH]; intros before [k [Hk E]]; [easy|]. cbn [swap_first].
      destruct (Z.eqb_spec (pb_score (node L y)) m); [assumption|].
      apply IH. destruct Hk as [->|Hk]; [congruence|]. now exists k. }
    assert (G2 : forall l before, (forall k, In k l -> pb_score (node L k) <> m) ->
      swap_first (fun j => pb_score (node L j) =? m) x before l = x :: before ++ l).
    { clear. induction l as [|y l IH]; intros before Hn; cbn [swap_first]; [now rewrite app_nil_r|].
      destruct (Z.eqb_spec (pb_score (node L y)) m); [now destruct (Hn y (or_introl eq_refl))|].
      rewrite IH by (intros; apply Hn; now right). now rewrite <- app_assoc. }
    intros before Hkk.
    destruct (existsb (fun j => pb_score (node L j) =? m) l) eqn:E.
    - apply existsb_exists in E as [y [Hy E]]. apply G. exists y. split; [exact Hy|lia].
    - rewrite G2; [cbn [hd]|].
      + destruct Hkk as [->|Hkk]; [exact Hk2|]. exfalso. apply not_true_iff_false in E. apply E, existsb_exists.
        exists k. split; [exact Hkk|lia].
      + intros j Hj Ej. apply not_true_iff_false in E. apply E, existsb_exists. exists j. split; [exact Hj|lia]. }
  split; [exact Hhd|]. split; [intros Ep; apply (Hp k) in Hkk; now rewrite Ep in Hkk|].
  intros j. rewrite Hp. apply Hkept.
Qed.

(** The predecessors of the node that [check_connect] adds at [at_] end at [pos], or at [at_] when the cache
    has them. *)
Lemma check_connect_path : forall pos at_ n opt L L', lattice_ok L -> match_at pos L -> 0 <= at_ ->
  check_connect ids at_ n opt L = Ret L' -> p_buffer_num L' <> p_buffer_num L ->
  p_buffer_num L' = p_buffer_num L + 1 /\ (forall k, 0 <= k < p_buffer_num L -> node L' k = node L k) /\
  pb_path (node L' (p_buffer_num L)) <> [] /\
  exists e, (e = pos \/ e = at_) /\
    forall j, In j (pb_path (node L' (p_buffer_num L))) -> 0 <= j < p_buffer_num L /\ pb_end (node L j) = e.
Proof.
  intros pos at_ n opt L L' Hok Hm Hat H Hne. unfold check_connect in H.
  destruct (rensetu_at _) as [r|]; [|discriminate]. destruct (negb (within 0 _ _)); [discriminate|].
  destruct ((Show_Opt_debug =? 0) && _ && _ && _) eqn:Hit.
  - apply push_scored_ret in H as [-> _].
    assert (Hh : cc_pos (connect_cache L (j_pos r)) = at_ /\ 0 < cc_p_no (connect_cache L (j_pos r))) by blia.
    destruct Hh as [Hp Hpn]. destruct (ok_cache _ Hok _ Hpn) as [C1 C2]; [lia|].
    destruct (ok_node _ Hok (cc_p_no (connect_cache L (j_pos r)))) as [_ [D1 D2]]; [lia|].
    split; [reflexivity|]. split; [intros k Hk; apply push_node_old; lia|]. rewrite push_node_new.
    split; [exact D1|]. exists at_. split; [now right|]. rewrite C2, Hp in D2. exact D2.
  - destruct (best_connection ids L _ opt) as [[[best path]|]|e] eqn:Hb; [| |discriminate]; [|inv H; lia].
    apply push_scored_ret in H as [-> _]. apply best_connection_path in Hb as [Hnil Hin].
    split; [reflexivity|]. split; [intros k Hk; exact (push_node_old _ L k ltac:(lia))|].
    rewrite (push_node_new _ (set_connect_cache _ L)). split; [exact Hnil|]. exists pos. split; [now left|].
    intros j Hj. now apply Hm, Hin.
Qed.

Definition set_node (nn : Z) (p : PROCESS_BUFFER) (L : lattice) : lattice := set_p_buffer (aset (p_buffer L) nn p) L.

(** A node keeps its place and takes new predecessors that end where it starts. *)
Lemma set_node_ok : forall nn p L, lattice_ok L -> 1 <= nn < p_buffer_num L -> is_int (pb_score p) = true ->
  pb_start p = pb_start (node L nn) -> pb_end p = pb_end (node L nn) -> pb_path p <> [] ->
  (forall j, In j (pb_path p) -> 0 <= j < p_buffer_num L /\ pb_end (node L j) = pb_start (node L nn)) ->
  lattice_ok (set_node nn p L).
Proof.
  intros nn p L [N B Nd Sc Ca] Hnn Hi Hs He Hne Hp. set (L' := set_node nn p L).
  assert (Eq : forall k, k <> nn -> node L' k = node L k)
    by (intros k Hk; unfold node, L', set_node, set_p_buffer; cbn; now rewrite aset_ne).
  assert (En : node L' nn = p) by (unfold node, L', set_node, set_p_buffer; cbn; now rewrite aset_eq).
  assert (Es : forall k, pb_start (node L' k) = pb_start (node L k) /\ pb_end (node L' k) = pb_end (node L k)).
  { intros k. destruct (Z.eq_dec k nn) as [->|Hk]; [now rewrite En|now rewrite Eq]. }
  constructor; auto.
  - rewrite Eq by lia. exact B.
  - intros k Hk. change (p_buffer_num L') with (p_buffer_num L) in *. destruct (Es k) as [-> ->].
    destruct (Nd k Hk) as [A1 [A2 A3]]. split; [exact A1|].
    destruct (Z.eq_dec k nn) as [->|Hk']; [rewrite En|rewrite Eq by exact Hk'].
    + split; [exact Hne|]. intros j Hj. destruct (Es j) as [_ ->]. now apply Hp.
    + split; [exact A2|]. intros j Hj. destruct (Es j) as [_ ->]. now apply A3.
  - intros k Hk. destruct (Z.eq_dec k nn) as [->|Hk']; [rewrite En; exact Hi|rewrite Eq by exact Hk'; now apply Sc].
  - intros c e H1 H2. destruct (Es (cc_p_no e)) as [-> _]. now apply Ca.
Qed.

Lemma set_path_ok : forall nn score path L, lattice_ok L -> 1 <= nn < p_buffer_num L -> is_int score = true ->
  path <> [] -> (forall j, In j path -> 0 <= j < p_buffer_num L /\ pb_end (node L j) = pb_start (node L nn)) ->
  let p := mkP (pb_mrph_p (node L nn)) (pb_start (node L nn)) (pb_end (node L nn)) score path (pb_connect (node L nn)) in
  lattice_ok (set_node nn p L) /\ extends L (set_node nn p L).
Proof.
  intros nn score path L Hok Hnn Hi Hne Hp p. split; [now apply set_node_ok|].
  split; [reflexivity|]. split; [cbn; lia|]. split; [cbn; lia|]. split; [|reflexivity].
  intros k _. unfold node, set_node, set_p_buffer. cbn. destruct (Z.eq_dec k nn) as [->|Hk]; [now rewrite aset_eq|].
  now rewrite aset_ne.
Qed.

(** The brackets of the grammar have a part of speech of their own. *)
Definition ids_ok : Prop := suusi_hinsi ids <> 0 /\ kakko_hinsi ids <> 0 /\ kuuhaku_hinsi ids <> 0.

(** The node of the bracket [n] after node [i], a new one or an old one. *)
Lemma through_node_ok : forall pos now n i L L', 0 <= cost_haba cost_omomi -> 0 < j_length now -> n <> 0 ->
  lattice_ok L -> 0 <= i < p_buffer_num L -> pb_end (node L i) = pos -> 0 <= pos -> p_buffer_num L < 65536 ->
  (let sc := j_weight now * keitaiso cost_omomi * Class_cost (j_hinsi now) (j_bunrui now) in
   match find_up 0 (p_buffer_num L) (fun j => (pb_mrph_p (node L j) =? n) && (pb_start (node L j) =? pos)) with
   | None => push_scored (mkP n pos (pos + j_length now) (pb_score (node L i) + sc) [i] true) L
   | Some nn => through_again i sc nn L
   end) = Ret L' -> lattice_ok L' /\ extends L L'.
Proof.
  intros pos now n i L L' Hh Hlen Hn0 Hok Hi Hend Hpos Hnum H. cbv zeta in H.
  destruct (find_up 0 (p_buffer_num L) _) as [nn|] eqn:Eg.
  - apply find_up_some in Eg as [Hnn1 Hnn2].
    assert (Hnn : nn <> 0) by (intros ->; destruct (ok_bos _ Hok) as [_ [B1 _]]; rewrite B1 in Hnn2; blia).
    destruct (ok_node _ Hok nn) as [D1 [D2 D3]]; [lia|].
    apply through_again_spec in H as [path [m [_ [-> [Hs [_ [Hne Hin]]]]]]]; [|exact Hh|].
    + apply set_path_ok; auto; [lia|]. intros j Hj. apply Hin in Hj as [Hj _].
      apply in_app_iff in Hj as [Hj|[<-|[]]]; [now apply D3|]. split; [lia|]. blia.
    + intros j Hj. apply (ok_score _ Hok). apply in_app_iff in Hj as [Hj|[<-|[]]]; [now apply D3|lia].
  - apply push_scored_ret in H as [-> Hsc]. split; [|apply push_node_extends].
    apply push_node_ok; auto; [cbn; lia|cbn; congruence|]. intros j [<-|[]]. now split.
Qed.

Lemma through_one_ok : forall pos now i L L', ids_ok -> 0 <= cost_haba cost_omomi -> is_through ids now = true ->
  0 < j_length now -> 0 <= pos -> lattice_ok L -> 0 <= i < p_buffer_num L -> pb_end (node L i) = pos ->
  p_buffer_num L < 65536 -> through_one pos now i L = Ret L' -> lattice_ok L' /\ extends L L'.
Proof.
  intros pos now i L L' Hids Hh Hth Hlen Hpos Hok Hi Hend Hnum H. unfold through_one in H.
  destruct (find_up 0 (m_buffer_num L) _) as [n|] eqn:Ef.
  - apply (through_node_ok pos now n i); auto. apply find_up_some in Ef as [Hn1 Hn2].
    intros ->. destruct (ok_bos _ Hok) as [_ [_ B2]]. unfold same_through in Hn2. rewrite B2 in Hn2.
    unfold is_through in Hth. destruct Hids as [_ [I1 I2]]. apply orb_true_iff in Hth as [Hth|Hth]; blia.
  - pose proof (ok_num _ Hok) as [_ Hm].
    apply (through_node_ok pos now (m_buffer_num L) i) in H; auto; [|lia|now apply push_mrph_ok].
    destruct H as [R1 R2]. split; [exact R1|]. eapply extends_trans; [apply push_mrph_extends|exact R2].
Qed.

Lemma through_one_num : forall pos now i L L', through_one pos now i L = Ret L' -> p_buffer_num L <= p_buffer_num L'.
Proof.
  intros pos now i L L' H. unfold through_one in H.
  assert (G : forall n i sc L1, p_buffer_num L1 = p_buffer_num L -> 
    match find_up 0 (p_buffer_num L1) (fun j => (pb_mrph_p (node L1 j) =? n) && (pb_start (node L1 j) =? pos)) with
    | None => push_scored (mkP n pos (pos + j_length now) (pb_score (node L1 i) + sc) [i] true) L1
    | Some nn => through_again i sc nn L1
    end = Ret L' -> p_buffer_num L <= p_buffer_num L').
  { clear. intros n i sc L1 E H. destruct (find_up _ _ _) as [nn|].
    - unfold through_again in H. destruct (MAX_PATHES <=? _); [discriminate|]. destruct (negb _); [discriminate|].
      inv H. cbn. lia.
    - apply push_scored_ret in H as [-> _]. cbn. lia. }
  destruct (find_up 0 (m_buffer_num L) _) as [n|]; now apply G in H.
Qed.

(** Brackets and blanks let the connection of the word before them through. *)
Lemma through_word_ok : forall pos m_num L L', ids_ok -> 0 <= cost_haba cost_omomi ->
  0 < j_length (m_buffer L m_num) -> 0 <= pos -> lattice_ok L -> match_at pos L ->
  through_word ids pos m_num L = Ret L' -> p_buffer_num L' < 65536 -> lattice_ok L' /\ extends L L'.
Proof.
  intros pos m_num L L' Hids Hh Hlen Hpos Hok Hm H. unfold through_word in H.
  remember (m_buffer L m_num) as now. clear Heqnow.
  destruct (is_through ids now) eqn:Hth; [|inv H; split; [exact Hok|apply extends_refl]].
  assert (Hin : forall j, In j (match_pbuf L) -> In j (match_pbuf L)) by auto. revert H Hin.
  generalize (match_pbuf L) at 1 2 as js. intros js. revert L Hok Hm.
  assert (M : forall js L, fold_res (through_one pos now) js L = Ret L' -> p_buffer_num L <= p_buffer_num L').
  { induction js0 as [|i js0 IH]; intros L H; cbn [fold_res] in H; [inv H; lia|].
    destruct (through_one pos now i L) as [L1|] eqn:E; [|discriminate]. apply IH in H.
    apply through_one_num in E. lia. }
  induction js as [|i js IH]; intros L Hok Hm H Hin Hnum; cbn [fold_res] in H;
    [inv H; split; [exact Hok|apply extends_refl]|].
  destruct (through_one pos now i L) as [L1|] eqn:E; [|discriminate].
  pose proof (M _ _ H). pose proof (through_one_num _ _ _ _ _ E).
  destruct (Hm i) as [Hi1 Hi2]; [apply Hin; now left|].
  apply through_one_ok in E as [R1 R2]; auto; [|lia].
  destruct (IH L1) as [S1 S2]; auto; [now apply (extends_match pos L)| |].
  - intros j Hj. destruct R2 as [-> _]. apply Hin. now right.
  - split; [exact S1|]. eapply extends_trans; eauto.
Qed.
End Shape.

(** ** The best path *)
Section BestPath.
Context `{T : JumanTables}.

(** The nodes of [ps], the last one first, cover the sentence from its beginning to [pos]. *)
Inductive covers (L : lattice) : Z -> list Z -> Prop :=
| covers_first : forall k, 1 <= k < p_buffer_num L -> pb_start (node L k) = 0 -> pb_path (node L k) <> [] ->
    hd 0 (pb_path (node L k)) = 0 -> covers L (pb_end (node L k)) [k]
| covers_next : forall k ps, 1 <= k < p_buffer_num L -> pb_start (node L k) < pb_end (node L k) ->
    covers L (pb_start (node L k)) ps -> hd 0 (pb_path (node L k)) = hd 0 ps ->
    covers L (pb_end (node L k)) (k :: ps).

(** From a node [last] whose predecessors are nodes of [L], a lattice of which [L'] has the nodes. *)
Lemma best_path_loop_ok : forall L L' fuel last, lattice_ok L -> p_buffer_num L <= p_buffer_num L' ->
  (forall k, 0 <= k < p_buffer_num L -> node L' k = node L k) ->
  pb_path (node L' last) <> [] -> (forall j, In j (pb_path (node L' last)) -> 1 <= j < p_buffer_num L) ->
  pb_end (node L' (hd 0 (pb_path (node L' last)))) < Z.of_nat fuel ->
  exists ps, best_path_loop fuel L' last = Ret ps /\ hd 0 ps = hd 0 (pb_path (node L' last)) /\
    covers L' (pb_end (node L' (hd 0 (pb_path (node L' last))))) ps.
Proof.
  intros L L'. induction fuel as [|fuel IH]; intros last Hok Hnum Hs Hne Hin Hf.
  - destruct (pb_path (node L' last)) as [|k l] eqn:E; [easy|]. cbn [hd] in Hf.
    assert (Hk : 1 <= k < p_buffer_num L) by (apply Hin; now left). rewrite Hs in Hf by lia.
    destruct (ok_node _ Hok k) as [A _]; lia.
  - cbn [best_path_loop]. destruct (pb_path (node L' last)) as [|k l] eqn:E; [easy|]. cbn [hd] in *.
    assert (Hk : 1 <= k < p_buffer_num L) by (apply Hin; now left). assert (Ek' : node L' k = node L k) by (apply Hs; lia).
    destruct (ok_node _ Hok k Hk) as [A [B C]]. rewrite <- Ek' in A, B, C.
    destruct (pb_path (node L' k)) as [|k' l'] eqn:Ek; [easy|].
    destruct (C k') as [C1 C2]; [now left|]. destruct (ok_bos _ Hok) as [B0 _].
    destruct (Z.eq_dec (pb_start (node L' k)) 0) as [E0|E0].
    + assert (k' = 0) as ->. { destruct (Z.eq_dec k' 0); [assumption|]. destruct (ok_node _ Hok k'); lia. }
      exists [k]. split; [reflexivity|]. split; [reflexivity|].
      apply covers_first; auto; [lia|rewrite Ek; easy|now rewrite Ek].
    + assert (Hk' : k' <> 0) by (intros ->; lia).
      destruct (IH k) as [ps [P1 [P2 P3]]]; auto; rewrite ?Ek.
      * easy.
      * intros j Hj. destruct (C j Hj) as [D1 D2]. destruct (Z.eq_dec j 0) as [->|]; lia.
      * cbn [hd]. rewrite Hs by lia. lia.
      * rewrite Ek in P2, P3. cbn [hd] in *. rewrite P1. exists (k :: ps).
        split; [destruct k'; [lia|reflexivity|reflexivity]|]. split; [reflexivity|].
        rewrite Hs in P3 by lia. apply covers_next; [lia|lia|congruence|now rewrite Ek, P2].
Qed.
End BestPath.

(** The entry of the cache for the node 65537 names the node 1. *)
Lemma cache_wraps : forall n, n = 65537 -> short n = 1.
Proof. intros n ->. reflexivity. Qed.

(** ** Examples *)
(** A small grammar: class 1 nouns, 2 particles, 15 unknown words; every pair connects, a noun before a
    particle best. *)
Definition example_tables : JumanTables := {|
  jt_grammar := example_grammar;
  Class_cost := fun h _ => if h =? 15 then 100 else 10;
  rensetu_tbl := [mkRP 0 0 0 0 0 0 None; mkRP 1 1 1 0 0 0 None; mkRP 2 2 2 0 0 0 None; mkRP 3 3 15 0 0 0 None];
  I_NUM := 4; J_NUM := 4;
  rensetu_mtr := fun i => if i =? 6 then 5 else 10;
  cost_omomi := mkCO 100 1 200;
  Show_Opt_debug := 0 |}.

Definition word (midasi : string) (hinsi con : Z) : MRPH :=
  mkM midasi midasi midasi "NIL" hinsi 0 0 0 10 con (slen midasi).

Definition example_ids : juman_ids := mkIds 15 1 2 3 3 3 3 6 7 1 5 1 6 3 2 3 6 1 14 [1; 2].

Definition empty_lattice : lattice :=
  mkL (fun _ => MRPH_0) 0 (fun _ => PROCESS_BUFFER_0) 0 [] (fun _ => mkCC 0 0 0 0).

(** The beginning of a sentence *)
Definition begin_lattice : lattice := set_match_pbuf [0] (push_mrph (word "" 0 0) (push_node PROCESS_BUFFER_0 empty_lattice)).
