(* ===== verification/CharLattice.v ===== *)
(** * The character lattice of JUMAN (src/juman/lib/juman_lib.c, darts/darts_for_juman.cc)

    Before it looks words up, [juman_sent] makes a lattice of characters: each character of the
    sentence, with its replacements (a long sound by a vowel, a small letter by a large one, a
    voiced letter by its voiceless one) and a deletion of a long sound.  Without replacements the
    dictionary is searched with the text itself ([da_search]); with them
    [da_search_from_position] follows the double array along the lattice.  The words go to
    [pat_buffer], each with a byte of options and a byte of deleted bytes before it.  The double
    array (Darts) and the data base behind it are parameters.  Buffers of bytes have no bound
    here; UTF-8. *)
From Stdlib Require Import ZArith List Bool String Ascii Lia.
Import ListNotations.
From S2P Require Import Prelude CStr Feature Sentence SemCode Regexp Lattice.
Open Scope list_scope.
Open Scope Z_scope.

Definition OPT_NORMAL : Z := 1.
Definition OPT_NORMALIZE : Z := 2.
Definition OPT_PROLONG_DEL : Z := 8.
Definition OPT_PROLONG_REPLACE : Z := 16.
Definition OPT_PROLONG_DEL_LAST : Z := 32.
Definition PAT_BUF_INFO_BASE : Z := 11.
Definition WORD_CHAR_NUM_MAX : Z := 16.
Definition MAX_LATTICES : Z := 16000.
Definition MAX_NODE_POS_NUM : nat := 10.
Definition DEF_PROLONG_SYMBOL1 : string := "ー".
Definition DEF_PROLONG_SYMBOL2 : string := "〜".
Definition DEF_PROLONG_SYMBOL3 : string := "っ".

Definition lowercase : list string :=
  ["ぁ"; "ぃ"; "ぅ"; "ぇ"; "ぉ"; "ゎ"; "ヵ"; "ァ"; "ィ"; "ゥ"; "ェ"; "ォ"; "ヮ"; "っ"; "ッ"; "ん"; "ン";
   "ゃ"; "ャ"; "ゅ"; "ュ"; "ょ"; "ョ"]%string.
Definition uppercase : list string := ["あ"; "い"; "う"; "え"; "お"; "わ"; "か"]%string.
Definition dakuon : list string :=
  ["が"; "ガ"; "ぎ"; "ギ"; "ぐ"; "グ"; "げ"; "ゲ"; "ご"; "ゴ"; "ざ"; "ザ"; "じ"; "ジ"; "ず"; "ズ"; "ぜ"; "ゼ";
   "ぞ"; "ゾ"; "だ"; "ダ"; "ぢ"; "ヂ"; "づ"; "ヅ"; "で"; "デ"; "ど"; "ド"; "ば"; "バ"; "び"; "ビ"; "ぶ"; "ブ";
   "べ"; "ベ"; "ぼ"; "ボ"; "ぱ"; "パ"; "ぴ"; "ピ"; "ぷ"; "プ"; "ぺ"; "ペ"; "ぽ"; "ポ"]%string.
Definition seion : list string :=
  ["か"; "カ"; "き"; "キ"; "く"; "ク"; "け"; "ケ"; "こ"; "コ"; "さ"; "サ"; "し"; "シ"; "す"; "ス"; "せ"; "セ";
   "そ"; "ソ"; "た"; "タ"; "ち"; "チ"; "つ"; "ツ"; "て"; "テ"; "と"; "ト"; "は"; "ハ"; "ひ"; "ヒ"; "ふ"; "フ";
   "へ"; "ヘ"; "ほ"; "ホ"]%string.
Definition pre_prolonged : list string :=
  ["か"; "ば"; "ま"; "ゃ"; "い"; "き"; "し"; "ち"; "に"; "ひ"; "じ"; "け"; "せ"; "へ"; "め"; "れ"; "げ"; "ぜ";
   "で"; "べ"; "ぺ"; "く"; "す"; "つ"; "ふ"; "ゆ"; "ぐ"; "ず"; "ぷ"; "ゅ"; "お"; "こ"; "そ"; "と"; "の"; "ほ";
   "も"; "よ"; "ろ"; "ご"; "ぞ"; "ど"; "ぼ"; "ぽ"; "ょ"; "え"; "ね"]%string.
Definition prolonged2chr : list string :=
  repeat "あ"%string 4 ++ repeat "い"%string 17 ++ repeat "う"%string 24 ++ repeat "え"%string 2.
Definition pre_lower : list (list string) :=
  [["か"; "さ"; "た"; "な"; "は"; "ま"; "や"; "ら"; "わ"; "が"; "ざ"; "だ"; "ば"; "ぱ"];
   ["い"; "し"; "に"; "り"; "ぎ"; "じ"; "ね"; "れ"; "ぜ"];
   ["う"; "く"; "す"; "ふ"; "む"; "る"; "よ"];
   ["け"; "せ"; "て"; "め"; "れ"; "ぜ"; "で"];
   ["こ"; "そ"; "の"; "も"; "よ"; "ろ"; "ぞ"; "ど"]]%string.

(** ** Bytes *)

(** The string that a C function reads in a buffer: the bytes before the first NUL. *)
Fixpoint cstr (s : string) : string :=
  match s with
  | EmptyString => EmptyString
  | String c s' => if Ascii.eqb c zero then EmptyString else String c (cstr s')
  end.

(** [String + pos] *)
Definition at_pos (s : string) (pos : Z) : string := sdrop (Z.to_nat pos) s.

(** [strstr]: the rest of [s] from the first [p] on. *)
Fixpoint strstr (s p : string) : option string :=
  if starts_with p s then Some s else match s with EmptyString => None | String _ s' => strstr s' p end.

(** [check_code(s, pos)] within the string [s]. *)
Definition code_within (s : string) (pos : Z) : res Z :=
  if within 0 pos (slen s + 1) then Ret (check_code (at_pos s pos)) else Err OutOfBounds.

(** A [char]. *)
Definition s_char (n : Z) : Z := (n + 128) mod 256 - 128.

(** [imis[strlen(imis) - 1] = c] *)
Definition set_last (c : ascii) (s : string) : res string :=
  match String.length s with
  | O => Err OutOfBounds
  | S n => Ret (stake n s ++ String c EmptyString)%string
  end.

Definition quote_char : ascii := ascii_of_Z 34.
Definition quoted (s : string) : string := (String quote_char s ++ String quote_char EmptyString)%string.

(** [!strncmp(a, b, n)] *)
Definition strncmp_eq (n : Z) (a b : string) : bool :=
  str_eq (cstr (stake (Z.to_nat n) a)) (cstr (stake (Z.to_nat n) b)).

(** ** The lattice of characters *)

(** The options of the replacements. *)
Record char_opts : Type := mkCO_ {
  LongSoundRep_Opt : bool; LowercaseRep_Opt : bool; Rendaku_Opt : bool;
  LongSoundDel_Opt : bool; LowercaseDel_Opt : bool
}.

(** A node: its character (empty for a deletion) and its type. *)
Definition char_node : Type := (string * Z)%type.

(** The state of the loop: bytes of the previous character, whether it was deleted, and the deletions. *)
Record char_state : Type := mkCS { pre_byte_length : Z; pre_is_deleted : bool; local_deleted_num : Z }.

Section Characters.
Variable o : char_opts.
Variable text : string.

Definition is_prolong (s : string) : bool := starts_with DEF_PROLONG_SYMBOL1 s || starts_with DEF_PROLONG_SYMBOL2 s.

(** The first entry of a table that matches, with its replacement. *)
Fixpoint replacement (test : string -> bool) (from to : list string) (type : Z) : list char_node :=
  match from, to with
  | x :: from', y :: to' => if test x then [(y, type)] else replacement test from' to' type
  | _, _ => []
  end.

(** Replacements of a long sound or a small letter. *)
Definition normalized_nodes (pos : Z) (st : char_state) : list char_node :=
  let s := at_pos text pos in
  let pre := at_pos text (pos - pre_byte_length st) in
  let next := at_pos text (pos + BYTES4CHAR) in
  if LongSoundRep_Opt o && is_prolong s &&
     ((byte_at next 0 =? 0) || (check_code next =? KIGOU) || (check_code next =? HIRAGANA)) && (0 <? pos)
  then replacement (strncmp_eq (pre_byte_length st) pre) pre_prolonged prolonged2chr
         (OPT_NORMALIZE + OPT_PROLONG_REPLACE)
  else if LowercaseRep_Opt o
  then replacement (fun x => starts_with x s) (firstn 7 lowercase) uppercase OPT_NORMALIZE
  else [].

Definition voiceless_nodes (pos : Z) (st : char_state) : list char_node :=
  let s := at_pos text pos in
  let pre := at_pos text (pos - pre_byte_length st) in
  if Rendaku_Opt o && (0 <? pos) &&
     ((check_code s =? HIRAGANA) ||
      (check_code s =? KATAKANA) && negb (check_code pre =? KATAKANA) && negb (check_code pre =? CHOON))
  then replacement (fun x => starts_with x s) (firstn 40 dakuon) seion OPT_DEVOICE
  else [].

(** A long sound, or a small letter that stands for one, is deleted. *)
Definition deletion (pos next_pos : Z) (st : char_state) : bool * char_state :=
  let s := at_pos text pos in
  let pre := at_pos text (pos - pre_byte_length st) in
  let deleted := mkCS next_pos true (local_deleted_num st + 1) in
  if (LongSoundDel_Opt o || LowercaseDel_Opt o) && (next_pos =? BYTES4CHAR) then
    let pre_code := if 0 <? pos then check_code pre else -1 in
    let post_code := check_code (at_pos text (pos + next_pos)) in
    let room := (WORD_CHAR_NUM_MAX + local_deleted_num st + 1) * BYTES4CHAR <? MIDASI_MAX in
    if (LongSoundDel_Opt o && (0 <? pre_code) && room &&
        (pre_is_deleted st || (pre_code =? HIRAGANA) || (pre_code =? KATAKANA) ||
         (pre_code =? KANJI) && (post_code =? HIRAGANA)) && is_prolong s) ||
       (pre_is_deleted st && starts_with DEF_PROLONG_SYMBOL3 s && ((post_code =? 0) || (post_code =? KIGOU)))
    then (true, deleted)
    else if LowercaseDel_Opt o && (0 <? pre_code) && room then
      if existsb (fun '(l, pres) => starts_with l s &&
            (existsb (strncmp_eq (pre_byte_length st) pre) pres ||
             pre_is_deleted st && strncmp_eq (pre_byte_length st) pre s)) (combine lowercase pre_lower)
      then (true, deleted) else (false, mkCS next_pos false (local_deleted_num st))
    else (false, mkCS next_pos false 0)
  else (false, mkCS next_pos false (local_deleted_num st)).

(** The nodes of the character at [pos], the character itself first. *)
Definition char_nodes (pos : Z) (st : char_state) : list char_node * Z * char_state :=
  let s := at_pos text pos in
  let wide := 0x80 <=? byte_at s 0 in
  let next_pos := if wide then utf8_bytes s else 1 in
  let extra := if wide then normalized_nodes pos st ++ voiceless_nodes pos st else [] in
  let '(del, st) := deletion pos next_pos st in
  ((cstr (stake (Z.to_nat next_pos) s), OPT_NORMAL) :: extra ++ (if del then [(EmptyString, OPT_PROLONG_DEL)] else []),
   next_pos, st).

(** The lattice has room for [MAX_LATTICES] characters. *)
Fixpoint char_lattice (fuel : nat) (length pos CharNum : Z) (st : char_state) : res (list (list char_node)) :=
  if length <=? pos then Ret []
  else
    match fuel with
    | O => Err OutOfFuel
    | S f =>
        if MAX_LATTICES <=? CharNum then Err OutOfBounds
        else
          let '(nodes, next_pos, st) := char_nodes pos st in
          rest <- char_lattice f length (pos + next_pos) (CharNum + 1) st ;;
          Ret (nodes :: rest)
    end.

Definition make_char_lattice : res (list (list char_node)) :=
  char_lattice (String.length text) (slen (cstr text)) 0 0 (mkCS 0 false 0).

(** [CharLatticeUsedFlag]: some character has another node. *)
Definition CharLatticeUsedFlag (lat : list (list char_node)) : bool :=
  existsb (fun ns => match ns with _ :: _ :: _ => true | _ => false end) lat.
End Characters.

(** ** The double array *)

(** Darts and the data base of entries. [traverse dic key node] gives the value of the key, or -1 when
    it can be continued, or -2, and the new node. *)
Class Darts : Type := {
  commonPrefixSearch : Z -> string -> list Z;
  traverse : Z -> string -> Z -> Z * Z;
  db_entries : Z -> Z -> list string
}.

Definition nl : string := String (ascii_of_Z 10) EmptyString.

Section Search.
Context `{D : Darts}.

(** An entry with its options and its deleted bytes. *)
Definition tagged_entry (key_type deleted_bytes : Z) (entry : string) : string :=
  String (ascii_of_Z ((key_type + PAT_BUF_INFO_BASE) mod 256))
    (String (ascii_of_Z ((deleted_bytes + PAT_BUF_INFO_BASE) mod 256)) (entry ++ nl)).

Definition db_get (dic_no index key_type deleted_bytes : Z) : string :=
  String.concat EmptyString (map (tagged_entry key_type deleted_bytes) (db_entries dic_no index)).

Definition da_search (dic_no : Z) (str : string) : string :=
  String.concat EmptyString (map (fun i => db_get dic_no i 1 1) (commonPrefixSearch dic_no str)).

(** The status, the new node and the words found. *)
Definition da_traverse (dic_no : Z) (str : string) (node_pos key_type deleted_bytes : Z) : Z * Z * string :=
  let '(value, node_pos) := traverse dic_no str node_pos in
  if 0 <=? value then (1, node_pos, db_get dic_no value key_type (deleted_bytes + 1))
  else (value, node_pos, EmptyString).

(** *** Following the double array along the lattice *)

(** A state of the search at a character: the node of the double array, the options used so far, the
    deleted bytes and the words found here. *)
Record da_state : Type := mkDA { da_node_pos : Z; node_type : Z; deleted_bytes : Z; p_buf : option string }.

(** The words in [src], with new options and deleted bytes. *)
Fixpoint register_go (src cur : string) (t d : Z) : string :=
  match src with
  | EmptyString => EmptyString
  | String c src' =>
      let cur := (cur ++ String c EmptyString)%string in
      if Ascii.eqb c (ascii_of_Z 10)
      then (String (ascii_of_Z (t mod 256)) (String (ascii_of_Z (d mod 256)) (sdrop 2 cur)) ++
            register_go src' EmptyString t d)%string
      else register_go src' cur t d
  end.

Definition register_nodes_by_deletion (src : string) (node_type deleted_bytes : Z) : string :=
  register_go src EmptyString (node_type + PAT_BUF_INFO_BASE) (deleted_bytes + 1 + PAT_BUF_INFO_BASE).

(** A node of the lattice with the states of the search there. *)
Definition search_node : Type := (char_node * list da_state)%type.

(** [da_node_pos_num] stays below [MAX_NODE_POS_NUM]: the last place of the table is reused. *)
Definition push_state (s : da_state) (ss : list da_state) : list da_state :=
  let ss := ss ++ [s] in
  if (MAX_NODE_POS_NUM <=? List.length ss)%nat then firstn (MAX_NODE_POS_NUM - 1) ss else ss.

(** One state and one node of the next character: the new state and the words found. [first]: the
    search starts at this character. *)
Definition follow (dic_no : Z) (first : bool) (main_bytes : Z) (l : da_state) (n : char_node) : option da_state * string :=
  let '(chr, type) := n in
  match chr with
  | EmptyString =>
      if first then (None, EmptyString)
      else
        let t := Z.lor (node_type l) type in
        let d := deleted_bytes l + main_bytes in
        (Some (mkDA (da_node_pos l) t d (p_buf l)),
         match p_buf l with
         | Some words => register_nodes_by_deletion words (Z.lor t OPT_PROLONG_DEL_LAST) d
         | None => EmptyString
         end)
  | _ =>
      let devoice := negb (Z.land type OPT_DEVOICE =? 0) in
      let replace := negb (Z.land type OPT_PROLONG_REPLACE =? 0) in
      if negb (devoice || replace) || devoice && first || replace && negb first then
        let t := Z.lor (node_type l) type in
        let '(status, pos, words) := da_traverse dic_no chr (da_node_pos l) t (deleted_bytes l) in
        if 0 <? status then (Some (mkDA pos t (deleted_bytes l) (Some words)), words)
        else if status =? -1 then (Some (mkDA pos t (deleted_bytes l) None), EmptyString)
        else (None, EmptyString)
      else (None, EmptyString)
  end.

(** One state against the nodes of the next character; [found] says whether one of them continues. *)
Fixpoint follow_all (dic_no : Z) (first : bool) (main_bytes : Z) (l : da_state) (rs : list search_node)
    : list search_node * string * bool :=
  match rs with
  | [] => ([], EmptyString, false)
  | (n, ss) :: rs' =>
      let '(s, words) := follow dic_no first main_bytes l n in
      let '(rs', words', found) := follow_all dic_no first main_bytes l rs' in
      match s with
      | Some s => ((n, push_state s ss) :: rs', (words ++ words')%string, true)
      | None => ((n, ss) :: rs', (words ++ words')%string, found)
      end
  end.

Fixpoint one_step_go (dic_no : Z) (first : bool) (main_bytes : Z) (ls : list da_state) (rs : list search_node)
    : list search_node * string * bool :=
  match ls with
  | [] => (rs, EmptyString, false)
  | l :: ls' =>
      let '(rs, words, found) := follow_all dic_no first main_bytes l rs in
      let '(rs, words', found') := one_step_go dic_no first main_bytes ls' rs in
      (rs, (words ++ words')%string, found || found')
  end.

Definition main_length (ns : list char_node) : Z :=
  match ns with n :: _ => slen (fst n) | [] => 0 end.

(** [da_search_one_step] from the states [ls] to the nodes [ns] of a character. *)
Definition da_search_one_step (dic_no : Z) (first : bool) (ls : list da_state) (ns : list char_node)
    : list da_state * string * bool :=
  let '(rs, words, found) := one_step_go dic_no first (main_length ns) ls (map (fun n => (n, [])) ns) in
  (flat_map snd rs, words, found).

Fixpoint da_search_steps (dic_no : Z) (ls : list da_state) (lat : list (list char_node)) : string :=
  match lat with
  | [] => EmptyString
  | ns :: lat' =>
      let '(ls, words, found) := da_search_one_step dic_no false ls ns in
      if found then (words ++ da_search_steps dic_no ls lat')%string else words
  end.

Definition root_state : da_state := mkDA 0 0 0 None.

Definition da_search_from_position (dic_no position : Z) (lat : list (list char_node)) : string :=
  match skipn (Z.to_nat position) lat with
  | [] => EmptyString
  | ns :: lat' =>
      let '(ls, words, found) := da_search_one_step dic_no true [root_state] ns in
      if found then (words ++ da_search_steps dic_no ls lat')%string else words
  end.

(** What [search_all] finds in the dictionary [dic_no] at [pos]. *)
Definition pat_buffer_at (text : string) (lat : list (list char_node)) (dic_no pos pos_in_char : Z) : string :=
  if CharLatticeUsedFlag lat then da_search_from_position dic_no pos_in_char lat
  else da_search dic_no (cstr (at_pos text pos)).
End Search.
