(* ===== verification/Juman.v ===== *)
(** * The sentence loop of JUMAN (src/juman/lib/juman_lib.c)

    The dictionary search leaves the words it finds at a place in a buffer of bytes,
    [pat_buffer]; [_take_data] decodes one of them, [take_data] puts it in the lattice
    (Lattice.v), and a compound ([RENGO_ID]) as a chain of nodes.  [undef_word] adds an unknown
    word at each place, [recognize_onomatopoeia] a repetition or a pattern.  [juman_sent] runs
    over the sentence.  The text is a buffer, with the bytes that follow its terminator.  The
    patterns of onomatopoeias are a parameter ([regexec]).  What an entry of [m_buffer] past the
    last one holds from a word that was given up is not kept. *)
From Stdlib Require Import ZArith List Bool String Ascii Lia.
Import ListNotations.
From S2P Require Import Prelude CStr Lisp Feature Sentence SemCode Regexp Lattice CharLattice.
Open Scope list_scope.
Open Scope Z_scope.

Definition STOP_MRPH_WEIGHT : Z := 255.
Definition RENGO_BUFSIZE : Z := 20.
Definition NORMALIZED_COST : Z := 6.
Definition PROLONG_DEL_COST1 : Z := 6.
Definition PROLONG_DEL_COST2 : Z := 50.
Definition PROLONG_DEL_COST3 : Z := 9.
Definition REPETITION_COST : Z := 13.
Definition DAKUON_BONUS : Z := 1.
Definition CONTRACTED_BONUS : Z := 4.
Definition KATAKANA_BONUS : Z := 2.
Definition DEF_ONOMATOPOEIA_IMIS : string := "自動認識 スル接続可能".
Definition DEF_PROLONG_IMIS : string := "長音挿入".
Definition DEF_ABNORMAL_IMIS : string := "非標準表記".
Definition DEF_PROLONG_OK_FEATURE : string := "長音挿入可".

(** ** Decoding an entry of the buffer *)
Definition numeral_decode (s : string) : res (Z * string) :=
  match s with
  | String a (String b s') => Ret ((byte_of a - 0x20) * (0x100 - 0x20) + byte_of b - 0x20 - 1, s')
  | _ => Err OutOfBounds
  end.

Fixpoint string_decode (s : string) : res (string * string) :=
  match s with
  | EmptyString => Err OutOfBounds
  | String c s' =>
      if (byte_of c =? 0x20) || (byte_of c =? 9) then Ret (EmptyString, s')
      else '(out, rest) <- string_decode s' ;; Ret (String c out, rest)
  end.

Definition set_j_weight (v : Z) (m : MRPH) : MRPH :=
  mkM (j_midasi m) (j_midasi2 m) (j_yomi m) (j_imis m) (j_hinsi m) (j_bunrui m) (j_katuyou1 m) (j_katuyou2 m)
      v (j_con_tbl m) (j_length m).
Definition set_j_imis (v : string) (m : MRPH) : MRPH :=
  mkM (j_midasi m) (j_midasi2 m) (j_yomi m) v (j_hinsi m) (j_bunrui m) (j_katuyou1 m) (j_katuyou2 m)
      (j_weight m) (j_con_tbl m) (j_length m).
Definition set_j_length (v : Z) (m : MRPH) : MRPH :=
  mkM (j_midasi m) (j_midasi2 m) (j_yomi m) (j_imis m) (j_hinsi m) (j_bunrui m) (j_katuyou1 m) (j_katuyou2 m)
      (j_weight m) (j_con_tbl m) v.

(** The parts of speech that the treatment of long sounds names. *)
Record prolong_ids : Type := mkPr {
  prolong_interjection : Z; prolong_copula : Z;
  prolong_ng_hinsi1 : Z; prolong_ng_hinsi2 : Z; prolong_ng_hinsi3 : Z; prolong_ng_hinsi4 : Z;
  prolong_ng_bunrui4_1 : Z; prolong_ng_bunrui4_2 : Z; prolong_ng_bunrui4_3 : Z;
  onomatopoeia_hinsi : Z; onomatopoeia_bunrui : Z; onomatopoeia_con_tbl : Z
}.

(** The options, the dictionaries and the patterns. [regexec i s] is the match of the [i]-th pattern
    in [s], with its first and last offsets. *)
Class JumanEnv : Type := {
  UseGivenSegmentation_Opt : bool;
  Onomatopoeia_Opt : bool;
  Repetition_Opt : bool;
  DicFile_number : Z;
  char_options : char_opts;
  Unkword_Pat_Num : Z;
  regexec : Z -> string -> option (Z * Z);
  m_pattern_weight : Z -> Z
}.

Section Take.
Context `{T : JumanTables} (pids : prolong_ids).

(** The words that no long sound is deleted from. *)
Definition prolong_ng (m : MRPH) : bool :=
  ((j_hinsi m =? prolong_ng_hinsi1 pids) || (j_hinsi m =? prolong_ng_hinsi2 pids) ||
   (j_hinsi m =? prolong_ng_hinsi3 pids) ||
   (j_hinsi m =? prolong_ng_hinsi4 pids) && (j_bunrui m =? prolong_ng_bunrui4_1 pids) ||
   (j_hinsi m =? prolong_ng_hinsi4 pids) && (j_bunrui m =? prolong_ng_bunrui4_2 pids) && (j_length m =? BYTES4CHAR) ||
   (j_hinsi m =? prolong_ng_hinsi4 pids) && (j_bunrui m =? prolong_ng_bunrui4_3 pids) && (j_length m =? BYTES4CHAR)) &&
  negb (str_contains DEF_PROLONG_OK_FEATURE (j_imis m)).

(** The same word with its long sound is in the buffer already. *)
Fixpoint prolonged_before (m : MRPH) (l : list MRPH) : res bool :=
  match l with
  | [] => Ret false
  | x :: l' =>
      if j_length x =? j_length m + 3 then
        c <- code_within (j_midasi2 x) (j_length x - 3) ;;
        if (c =? CHOON) && str_eq (j_imis x) (j_imis m) then Ret true else prolonged_before m l'
      else prolonged_before m l'
  end.

(** [imis] with one more piece of information. *)
Definition add_imis (info : string) (imi_length : Z) (imis : string) : res string :=
  if imi_length =? 0 then Ret (quoted info)
  else s <- set_last " "%char imis ;; Ret (s ++ info ++ String quote_char EmptyString)%string.

(** The penalty for a deleted long sound. *)
Definition prolong_weight (deleted_bytes opt imi_length : Z) (before : list MRPH) (m : MRPH) : res MRPH :=
  last <- (if negb (Z.land opt OPT_PROLONG_DEL_LAST =? 0) && (j_hinsi m =? prolong_ng_hinsi2 pids) &&
              (deleted_bytes =? 3) && (check_code (j_midasi m) =? KATAKANA)
           then c <- code_within (j_midasi m) (j_length m - 3) ;; Ret (c =? KATAKANA) else Ret false) ;;
  if last then
    if match strstr (j_imis m) "代表表記:" with Some r => check_code (at_pos r 13) =? KANJI | None => false end
    then Ret (set_j_weight STOP_MRPH_WEIGHT m)
    else b <- prolonged_before m before ;; Ret (if b then set_j_weight STOP_MRPH_WEIGHT m else m)
  else if prolong_ng m then Ret (set_j_weight STOP_MRPH_WEIGHT m)
  else
    let cost := if j_hinsi m =? prolong_interjection pids then PROLONG_DEL_COST1
                else if j_hinsi m =? prolong_copula pids then PROLONG_DEL_COST2 else PROLONG_DEL_COST3 in
    imis <- add_imis DEF_PROLONG_IMIS imi_length (j_imis m) ;;
    Ret (set_j_imis imis (set_j_weight (u_char (j_weight m + cost)) m)).

(** The fields of an entry; the meaning has [imi_length] bytes. *)
Definition take_mrph (s : string) : res (MRPH * Z * string) :=
  '(midasi, s) <- string_decode s ;;
  '(hinsi, s) <- numeral_decode s ;;
  '(bunrui, s) <- numeral_decode s ;;
  '(katuyou1, s) <- numeral_decode s ;;
  '(katuyou2, s) <- numeral_decode s ;;
  '(weight, s) <- numeral_decode s ;;
  '(con_tbl, s) <- numeral_decode s ;;
  '(yomi, s) <- string_decode s ;;
  '(midasi2, s) <- string_decode s ;;
  '(imi_length, s) <- numeral_decode s ;;
  let midasi2 := match midasi2 with EmptyString => midasi | _ => midasi2 end in
  if slen s <? imi_length then Err OutOfBounds
  else
    let imis := if imi_length =? 0 then NILSYMBOL else stake (Z.to_nat imi_length) s in
    Ret (mkM midasi midasi2 yomi imis (s_char hinsi) (s_char bunrui) (s_char katuyou1) (s_char katuyou2)
             (u_char weight) con_tbl (slen midasi), imi_length, at_pos s imi_length).

(** A word of the dictionary for voiced words: its mark D is dropped. *)
Definition drop_voiced_mark (opt imi_length : Z) (m : MRPH) : res (MRPH * Z) :=
  if imi_length =? 1 then Err OutOfBounds
  else if (0 <? imi_length) && (byte_at (j_imis m) (Z.to_nat (imi_length - 2)) =? chr "D") then
    let m := set_j_imis (stake (Z.to_nat (imi_length - 2)) (j_imis m) ++ String quote_char EmptyString)%string m in
    Ret (if negb (opt =? OPT_NORMAL) then (set_j_weight STOP_MRPH_WEIGHT m, opt) else (m, OPT_DEVOICE))
  else Ret (m, opt).

(** [before]: the morphemes found at the same place so far. *)
Definition _take_data (s : string) (deleted_bytes opt : Z) (before : list MRPH) : res (MRPH * Z * string) :=
  '(m, imi_length, s) <- take_mrph s ;;
  '(m, opt) <- drop_voiced_mark opt imi_length m ;;
  '(m, imi_length) <- (if negb (Z.land opt OPT_NORMALIZE =? 0) && negb (j_weight m =? STOP_MRPH_WEIGHT) then
          imis <- add_imis DEF_ABNORMAL_IMIS imi_length (j_imis m) ;;
          Ret (set_j_imis imis (set_j_weight (u_char (j_weight m + NORMALIZED_COST)) m), slen imis)
        else Ret (m, imi_length)) ;;
  m <- (if negb (Z.land opt OPT_PROLONG_DEL =? 0) && negb (j_weight m =? STOP_MRPH_WEIGHT)
        then prolong_weight deleted_bytes opt imi_length before m else Ret m) ;;
  let m := set_j_length (j_length m + deleted_bytes) m in
  Ret (if MIDASI_MAX <=? j_length m then set_j_weight STOP_MRPH_WEIGHT m else m, opt, s).
End Take.

(** ** Placing the words *)
Definition store_mrph (m : MRPH) (L : lattice) : lattice := set_m_buffer (aset (m_buffer L) (m_buffer_num L) m) L.
Definition incr_mrph (L : lattice) : lattice :=
  mkL (m_buffer L) (m_buffer_num L + 1) (p_buffer L) (p_buffer_num L) (match_pbuf L) (connect_cache L).

Section Sentence.
Context `{T : JumanTables} `{D : Darts} `{E : JumanEnv} (ids : juman_ids) (pids : prolong_ids).

(** The sentence, with the bytes after its end, its lattice of characters, and the lengths of the given
    segments. *)
Variable text : string.
Variable lat : list (list char_node).
Variable String2Length : array Z.

Definition class_score (m : MRPH) : Z := Class_cost (j_hinsi m) (j_bunrui m) * j_weight m * keitaiso cost_omomi.

(** *** Compounds *)

(** The first component is connected as a word, with the connection of the compound if it has one, and
    closed to other words. [false]: it does not connect. *)
Definition rengo_first (pos opt rengo_con_tbl rengo_weight : Z) (c : MRPH) (L : lattice) : res (bool * lattice) :=
  left_ <- (if rengo_con_tbl =? -1 then Ret false else check_matrix_left rengo_con_tbl) ;;
  let L0 := store_mrph (if (left_ : bool) then set_j_con_tbl rengo_con_tbl c else c) L in
  L1 <- check_connect ids pos (m_buffer_num L) opt L0 ;;
  if p_buffer_num L1 =? p_buffer_num L then Ret (false, L1)
  else
    let nb := p_buffer_num L in
    let p := node L1 nb in
    let p := mkP (pb_mrph_p p) (pb_start p) (pos + j_length c)
                 (pb_score p + Z.quot (class_score c * (rengo_weight - 10)) 10) (pb_path p) false in
    if negb (is_int (pb_score p)) then Err IntOverflow
    else Ret (true, set_p_buffer (aset (p_buffer L1) nb p) (store_mrph c L1)).

(** The next components follow the node before them. *)
Definition rengo_next (last : bool) (pos rengo_con_tbl rengo_weight : Z) (c : MRPH) (L : lattice) : res lattice :=
  let L := store_mrph c L in
  let prev := p_buffer_num L - 1 in
  w <- check_matrix (j_con_tbl (mrph_of_node L prev)) (j_con_tbl c) ;;
  let c_weight := if (w =? 0) || (DEFAULT_C_WEIGHT <? w) then DEFAULT_C_WEIGHT else w in
  let score := pb_score (node L prev) +
                 Z.quot ((class_score c + c_weight * rensetsu cost_omomi) * rengo_weight) 10 in
  right_ <- (if last && negb (rengo_con_tbl =? -1) then check_matrix_right rengo_con_tbl else Ret false) ;;
  let L := if (right_ : bool) then store_mrph (set_j_con_tbl rengo_con_tbl c) L else L in
  push_scored (mkP (m_buffer_num L) pos (pos + j_length c) score [prev] last) L.

Fixpoint rengo_loop (first : bool) (pos opt rengo_con_tbl rengo_weight : Z) (cs : list MRPH) (L : lattice) : res lattice :=
  match cs with
  | [] => Ret L
  | c :: cs' =>
      if UseGivenSegmentation_Opt && negb (j_length c =? String2Length pos) then Ret (store_mrph c L)
      else
        '(connected, L) <- (if first then rengo_first pos opt rengo_con_tbl rengo_weight c L
               else res_map (pair true) (rengo_next match cs' with [] => true | _ => false end
                                             pos rengo_con_tbl rengo_weight c L)) ;;
        if (connected : bool) then rengo_loop false (pos + j_length c) opt rengo_con_tbl rengo_weight cs' (incr_mrph L)
        else Ret L
  end.

(** The components of a compound, all at once. *)
Fixpoint take_components (n : nat) (s : string) (opt : Z) (before : list MRPH) : res (list MRPH * Z * string) :=
  match n with
  | O => Ret ([], opt, s)
  | S n' =>
      '(c, opt, s) <- _take_data pids s 0 opt before ;;
      let c := if negb (opt =? OPT_NORMAL) then set_j_weight STOP_MRPH_WEIGHT c else c in
      '(cs, opt, s) <- take_components n' s opt before ;;
      Ret (c :: cs, opt, s)
  end.

(** *** Words *)

(** A voiced word cannot start here. *)
Definition no_voicing (pos : Z) : bool :=
  (pos <? BYTES4CHAR) ||
  (check_code (at_pos text pos) =? KATAKANA) &&
  let c := check_code (at_pos text (pos - BYTES4CHAR)) in ((c =? KATAKANA) || (c =? CHOON)).

Definition place_mrph (pos opt : Z) (mrph : MRPH) (L : lattice) : res lattice :=
  let mrph := if UseGivenSegmentation_Opt && negb (j_length mrph =? String2Length pos)
              then set_j_weight STOP_MRPH_WEIGHT mrph else mrph in
  if j_weight mrph =? STOP_MRPH_WEIGHT then Ret L
  else if negb (Z.land opt OPT_DEVOICE =? 0) && no_voicing pos then Ret L
  else if negb (Z.land opt OPT_NORMALIZE =? 0) &&
          negb ((BYTES4CHAR <? slen (j_midasi mrph)) || starts_with "か" (j_midasi mrph)) then Ret L
  else
    let n := m_buffer_num L in
    L <- check_connect ids pos n opt (store_mrph mrph L) ;;
    L <- suusi_word ids pos n (incr_mrph L) ;;
    through_word ids pos n L.

(** [take_data] always returns TRUE; [before] starts at [pre_m_buffer_num]. *)
Definition take_data (pos pre_m_buffer_num : Z) (s : string) (L : lattice) : res (string * lattice) :=
  match s with
  | String o (String d s) =>
      let before := map (m_buffer L) (zrange pre_m_buffer_num (m_buffer_num L)) in
      let opt := s_char (byte_of o - PAT_BUF_INFO_BASE) in
      '(mrph, opt, s) <- _take_data pids s (byte_of d - 1 - PAT_BUF_INFO_BASE) opt before ;;
      '(s, L) <- (if j_hinsi mrph =? RENGO_ID then
          if RENGO_BUFSIZE <? j_bunrui mrph then Err OutOfBounds
          else
            '(cs, opt, s) <- take_components (Z.to_nat (j_bunrui mrph)) s opt before ;;
            L <- rengo_loop true pos opt (j_con_tbl mrph) (j_weight mrph) cs L ;;
            Ret (s, L)
        else L <- place_mrph pos opt mrph L ;; Ret (s, L)) ;;
      match s with
      | EmptyString => Err OutOfBounds
      | String _ s => Ret (s, L)
      end
  | _ => Err OutOfBounds
  end.

Fixpoint take_all (fuel : nat) (pos pre_m_buffer_num : Z) (s : string) (L : lattice) : res lattice :=
  match s with
  | EmptyString => Ret L
  | _ =>
      match fuel with
      | O => Err OutOfFuel
      | S f => '(s, L) <- take_data pos pre_m_buffer_num s L ;; take_all f pos pre_m_buffer_num s L
      end
  end.

Definition search_all (pos pos_in_char pre_m_buffer_num : Z) (L : lattice) : res lattice :=
  for_res 0 DicFile_number (fun dic_no L =>
    let s := cstr (pat_buffer_at text lat dic_no pos pos_in_char) in
    take_all (String.length s) pos pre_m_buffer_num s L) L.

(** *** Unknown words *)
Fixpoint undef_end (fuel : nat) (code pos end_ cur_bytes : Z) : res Z :=
  match fuel with
  | O => Err OutOfFuel
  | S f =>
      if MIDASI_MAX - cur_bytes <=? end_ - pos then Ret end_
      else
        let end_ := end_ + cur_bytes in
        let next_code := check_code (at_pos text end_) in
        if (next_code =? code) || ((code =? KATAKANA) && (next_code =? CHOON)) ||
           ((code =? ALPH) && (next_code =? PRIOD))
        then undef_end f code pos end_ (utf8_bytes (at_pos text end_)) else Ret end_
  end.

Definition word_at (pos len : Z) : string := cstr (stake (Z.to_nat len) (at_pos text pos)).

Definition onomatopoeia (s : string) (len weight : Z) : MRPH :=
  mkM s s s (quoted DEF_ONOMATOPOEIA_IMIS) (s_char (onomatopoeia_hinsi pids)) (s_char (onomatopoeia_bunrui pids)) 0 0
      (u_char weight) (onomatopoeia_con_tbl pids) len.

Definition add_word (pos : Z) (m : MRPH) (L : lattice) : res lattice :=
  res_map incr_mrph (check_connect ids pos (m_buffer_num L) 0 (store_mrph m L)).

(** The weight of a repetition of [len] characters, [None] when it is too short. *)
Definition repetition_weight (midasi : string) (len code : Z) : option Z :=
  let w := REPETITION_COST * len in
  let contracted := existsb (fun c => str_contains c midasi) (skipn 17 lowercase) in
  if contracted && (len =? 2) then None
  else
    let w := if contracted then w - (REPETITION_COST + CONTRACTED_BONUS) else w in
    let w := match find (fun c => str_contains c midasi) dakuon with
             | Some c => if starts_with c midasi then w - DAKUON_BONUS - DAKUON_BONUS else w - DAKUON_BONUS
             | None => w
             end in
    Some (if code =? KATAKANA then w - KATAKANA_BONUS else w).

(** Repetitions of 2 to 4 characters, the first one only. *)
Fixpoint repetition (n : nat) (pos len code : Z) (L : lattice) : res lattice :=
  match n with
  | O => Ret L
  | S n' =>
      let s := at_pos text pos in
      let next_code := check_code (at_pos text (pos + len * BYTES4CHAR - BYTES4CHAR)) in
      let next_code := if next_code =? CHOON then code else next_code in
      if (slen (cstr s) <? len * 2 * BYTES4CHAR) || negb (code =? next_code) then Ret L
      else
        let same n k := strncmp_eq n s (at_pos text (pos + k)) in
        let midasi := word_at pos (len * 2 * BYTES4CHAR) in
        if negb (same (len * BYTES4CHAR) (len * BYTES4CHAR)) ||
           same BYTES4CHAR BYTES4CHAR && same BYTES4CHAR (2 * BYTES4CHAR)
        then repetition n' pos (len + 1) next_code L
        else match repetition_weight midasi len next_code with
             | None => repetition n' pos (len + 1) next_code L
             | Some w => add_word pos (onomatopoeia midasi (len * 2 * BYTES4CHAR) w) L
             end
  end.

Definition recognize_onomatopoeia (pos : Z) (L : lattice) : res lattice :=
  let s := at_pos text pos in
  let code := check_code s in
  if negb ((code =? HIRAGANA) || (code =? KATAKANA)) || existsb (fun l => starts_with l s) lowercase then Ret L
  else
    L <- (if Onomatopoeia_Opt && (code =? check_code (at_pos text (pos + BYTES4CHAR))) then
            match find_up 0 Unkword_Pat_Num (fun i => match regexec i (cstr s) with Some _ => true | None => false end) with
            | None => Ret L
            | Some i =>
                match regexec i (cstr s) with
                | Some (so, eo) => add_word pos (onomatopoeia (word_at pos (eo - so)) (eo - so) (m_pattern_weight i)) L
                | None => Ret L
                end
            end
          else Ret L) ;;
    if Repetition_Opt then repetition 3 pos 2 code L else Ret L.

Definition undef_mrph (code pos len : Z) : MRPH :=
  let s := if code =? KUUHAKU then "\ "%string else word_at pos len in
  let '(hinsi, bunrui, con_tbl) :=
    if code =? KUUHAKU then (kuuhaku_hinsi ids, kuuhaku_bunrui ids, kuuhaku_con_tbl ids)
    else if code =? KATAKANA then (undef_hinsi ids, undef_kata_bunrui ids, undef_kata_con_tbl ids)
    else if code =? ALPH then (undef_hinsi ids, undef_alph_bunrui ids, undef_alph_con_tbl ids)
    else (undef_hinsi ids, undef_etc_bunrui ids, undef_etc_con_tbl ids) in
  mkM s s s NILSYMBOL (s_char hinsi) (s_char bunrui) 0 0 MRPH_DEFAULT_WEIGHT con_tbl len.

(** The end of the unknown word at [pos]. *)
Definition undef_word_end (code pos : Z) : res Z :=
  let cur_bytes := utf8_bytes (at_pos text pos) in
  if UseGivenSegmentation_Opt then Ret (pos + String2Length pos)
  else if (code =? HIRAGANA) || (code =? KANJI) || (code =? KIGOU) then Ret (pos + cur_bytes)
  else if code =? KUUHAKU then Ret (pos + 1)
  else undef_end (Z.to_nat MIDASI_MAX) code pos pos cur_bytes.

Definition undef_word (pos : Z) (L : lattice) : res (bool * lattice) :=
  let code := check_code (at_pos text pos) in
  end_ <- undef_word_end code pos ;;
  if MIDASI_MAX <=? end_ - pos then Ret (false, L)
  else
    L <- add_word pos (undef_mrph code pos (end_ - pos)) L ;;
    L <- (if Repetition_Opt || Onomatopoeia_Opt then recognize_onomatopoeia pos L else Ret L) ;;
    L <- (if code =? KUUHAKU then through_word ids pos (m_buffer_num L - 1) L else Ret L) ;;
    Ret (true, L).

(** *** The sentence *)

(** The words at [pos], when some node ends there. [false]: [undef_word] gave up. *)
Definition words_at (pos count : Z) (L : lattice) : res (bool * lattice) :=
  match match_pbuf L with
  | [] => Ret (true, L)
  | _ =>
      if negb UseGivenSegmentation_Opt || negb (String2Length pos =? 0) then
        L <- search_all pos count (m_buffer_num L) L ;;
        undef_word pos L
      else Ret (true, L)
  end.

Fixpoint sentence_loop (fuel : nat) (length pos count p_start : Z) (L : lattice) : res (bool * Z * Z * lattice) :=
  if length <=? pos then Ret (true, pos, p_start, L)
  else
    match fuel with
    | O => Err OutOfFuel
    | S f =>
        let '(p_start, L) := pos_match_process pos p_start L in
        '(ok, L) <- words_at pos count L ;;
        if (ok : bool) then sentence_loop f length (pos + utf8_bytes (at_pos text pos)) (count + 1) p_start L
        else Ret (false, pos, p_start, L)
    end.

(** The marks of the beginning and of the end of the sentence, over what the buffers hold. *)
Definition mark (name : string) (m : MRPH) : MRPH :=
  mkM name (j_midasi2 m) (j_yomi m) (j_imis m) 0 0 (j_katuyou1 m) (j_katuyou2 m) MRPH_DEFAULT_WEIGHT 0 (j_length m).

Definition begin_sentence (L : lattice) : lattice :=
  mkL (aset (m_buffer L) 0 (mark "(文頭)" (m_buffer L 0))) 1
      (aset (p_buffer L) 0 (mkP 0 (pb_start (p_buffer L 0)) 0 0 [] true)) 1 (match_pbuf L)
      (fun c => mkCC 0 (cc_pos (connect_cache L c)) (cc_cost (connect_cache L c)) (cc_opt (connect_cache L c))).

Definition end_sentence (length pos p_start : Z) (L : lattice) : res lattice :=
  let n := m_buffer_num L in
  let L := incr_mrph (store_mrph (mark "(文末)" (m_buffer L n)) L) in
  let '(_, L) := pos_match_process pos p_start L in
  check_connect ids length n 0 L.

Definition analyze (L : lattice) : res (bool * lattice) :=
  let length := slen (cstr text) in
  if length =? 0 then Ret (false, L)
  else
    '(ok, pos, p_start, L) <- sentence_loop (String.length text) length 0 0 0 (begin_sentence L) ;;
    if (ok : bool) then L <- end_sentence length pos p_start L ;; Ret (true, L) else Ret (false, L).
End Sentence.

(** The segments of the input between its colons ([strtok]) and their lengths, in place: the bytes
    after the new end of the string are the old ones. *)
Fixpoint segments (s cur : string) : list string :=
  match s with
  | EmptyString => match cur with EmptyString => [] | _ => [cur] end
  | String c s' =>
      if Ascii.eqb c ":"%char then match cur with EmptyString => segments s' EmptyString | _ => cur :: segments s' EmptyString end
      else segments s' (cur ++ String c EmptyString)%string
  end.

Definition given_segments (text : string) : string * array Z :=
  let segs := segments (cstr text) EmptyString in
  let s := String.concat EmptyString segs in
  ((s ++ String zero (sdrop (S (String.length s)) text))%string,
   snd (fold_left (fun '(count, a) seg => (count + slen seg, aset a count (slen seg))) segs (0, fun _ => 0))).

(** [juman_sent], from what the buffers hold. *)
Definition juman_sent `{T : JumanTables} `{D : Darts} `{E : JumanEnv} (ids : juman_ids) (pids : prolong_ids)
    (text : string) (L : lattice) : res (bool * lattice) :=
  let '(text, String2Length) := if UseGivenSegmentation_Opt then given_segments text else (text, fun _ => 0) in
  if slen (cstr text) =? 0 then Ret (false, L)
  else
    lat <- make_char_lattice char_options text ;;
    analyze ids pids text lat String2Length L.

(** ** What the operations at a place preserve

    A relation between lattices that holds of the elementary steps (a word and its node, a joined
    numeral, a bracket, a compound) holds of all that is done at a place. *)
Section Words.
Context `{T : JumanTables} `{D : Darts} `{E : JumanEnv} (ids : juman_ids) (pids : prolong_ids).
Context (text : string) (lat : list (list char_node)) (seglen : array Z) (pos : Z).

Record step_rel (R : lattice -> lattice -> Prop) : Prop := {
  sr_refl : forall L, R L L;
  sr_trans : forall L1 L2 L3, R L1 L2 -> R L2 L3 -> R L1 L3;
  sr_num : forall L L', R L L' -> m_buffer_num L <= m_buffer_num L';
  sr_add : forall m opt L L1, check_connect ids pos (m_buffer_num L) opt (store_mrph m L) = Ret L1 -> R L (incr_mrph L1);
  sr_suusi : forall n L L', 1 <= n < m_buffer_num L -> suusi_word ids pos n L = Ret L' -> R L L';
  sr_through : forall n L L', 1 <= n < m_buffer_num L -> through_word ids pos n L = Ret L' -> R L L';
  sr_rengo : forall opt con w cs L L', rengo_loop ids seglen true pos opt con w cs L = Ret L' -> R L L'
}.

Lemma check_connect_num : forall n opt L L', check_connect ids pos n opt L = Ret L' ->
  m_buffer_num L' = m_buffer_num L /\ m_buffer L' = m_buffer L.
Proof.
  intros n opt L L' H. unfold check_connect in H. destruct (rensetu_at _) as [r|]; [|discriminate].
  destruct (negb (within 0 _ _)); [discriminate|]. destruct ((Show_Opt_debug =? 0) && _ && _ && _).
  - apply push_scored_ret in H as [-> _]. auto.
  - destruct (best_connection ids L _ opt) as [[[best path]|]|e]; [| |discriminate].
    + apply push_scored_ret in H as [-> _]. auto.
    + now inv H.
Qed.

Variable R : lattice -> lattice -> Prop.
Hypothesis HR : step_rel R.

Lemma place_step : forall opt m L L', place_mrph ids text seglen pos opt m L = Ret L' -> 0 < m_buffer_num L ->
  R L L'.
Proof.
  intros opt m L L' H Hn. unfold place_mrph in H. cbv zeta in H. set (m' := if _ && _ then set_j_weight _ m else m) in H.
  destruct (j_weight m' =? _); [inv H; apply (sr_refl _ HR)|]. destruct (negb _ && no_voicing _ _); [inv H; apply (sr_refl _ HR)|].
  destruct (negb _ && negb _); [inv H; apply (sr_refl _ HR)|].
  destruct (check_connect _ _ _ _ _) as [L1|] eqn:E1; [|discriminate].
  destruct (suusi_word _ _ _ _) as [L2|] eqn:E2; [|discriminate].
  pose proof (check_connect_num _ _ _ _ E1) as [A _]. cbn in A.
  apply (sr_add _ HR) in E1. apply (sr_suusi _ HR) in E2; [|cbn; lia]. pose proof (sr_num _ HR _ _ E2) as G. cbn in G.
  apply (sr_trans _ HR _ _ _ E1). apply (sr_trans _ HR _ _ _ E2). apply (sr_through _ HR (m_buffer_num L)); [lia|exact H].
Qed.

Lemma add_word_step : forall m L L', add_word ids pos m L = Ret L' -> R L L'.
Proof.
  intros m L L' H. unfold add_word in H. destruct (check_connect _ _ _ _ _) as [L1|] eqn:E1; [|discriminate].
  inv H. now apply (sr_add _ HR m 0).
Qed.

Lemma take_data_step : forall pre s L s' L', take_data ids pids text seglen pos pre s L = Ret (s', L') ->
  0 < m_buffer_num L -> R L L'.
Proof.
  intros pre s L s' L' H Hn. unfold take_data in H. destruct s as [|o [|d s]]; try discriminate.
  destruct (_take_data _ _ _ _ _) as [[[m opt] s1]|]; [|discriminate].
  destruct (j_hinsi m =? RENGO_ID).
  - destruct (RENGO_BUFSIZE <? _); [discriminate|]. destruct (take_components _ _ _ _ _) as [[[cs opt'] s2]|]; [|discriminate].
    destruct (rengo_loop _ _ _ _ _ _ _ _) as [L1|] eqn:E1; [|discriminate]. destruct s2; [discriminate|]. inv H.
    now apply (sr_rengo _ HR) in E1.
  - destruct (place_mrph _ _ _ _ _ _) as [L1|] eqn:E1; [|discriminate]. destruct s1; [discriminate|]. inv H.
    now apply place_step in E1.
Qed.

Lemma step_num : forall L L', R L L' -> 0 < m_buffer_num L -> 0 < m_buffer_num L'.
Proof. intros L L' H Hn. pose proof (sr_num _ HR _ _ H). lia. Qed.

Lemma take_all_step : forall fuel pre s L L', take_all ids pids text seglen fuel pos pre s L = Ret L' ->
  0 < m_buffer_num L -> R L L'.
Proof.
  induction fuel as [|fuel IH]; intros pre s L L' H Hn; cbn [take_all] in H.
  - destruct s; [inv H; apply (sr_refl _ HR)|discriminate].
  - destruct s as [|c s]; [inv H; apply (sr_refl _ HR)|].
    destruct (take_data _ _ _ _ _ _ _ _) as [[s1 L1]|] eqn:E1; [|discriminate].
    apply take_data_step in E1; [|exact Hn]. apply (sr_trans _ HR _ _ _ E1). apply IH in H; [exact H|].
    now apply (step_num L).
Qed.

Lemma search_all_step : forall count pre L L', search_all ids pids text lat seglen pos count pre L = Ret L' ->
  0 < m_buffer_num L -> R L L'.
Proof.
  intros count pre L L' H Hn. unfold search_all, for_res in H.
  assert (G : R L L' /\ 0 < m_buffer_num L').
  { revert H. apply (fold_res_inv (fun L1 => R L L1 /\ 0 < m_buffer_num L1)); [|split; [apply (sr_refl _ HR)|exact Hn]].
    intros dic L1 L2 _ [S1 N1] H. apply take_all_step in H; [|exact N1].
    split; [now apply (sr_trans _ HR L L1)|now apply (step_num L1)]. }
  apply G.
Qed.

Lemma repetition_step : forall n len code L L', repetition ids pids text n pos len code L = Ret L' -> R L L'.
Proof.
  induction n as [|n IH]; intros len code L L' H; cbn [repetition] in H; [inv H; apply (sr_refl _ HR)|].
  destruct (_ || negb _); [inv H; apply (sr_refl _ HR)|]. destruct (negb _ || _); [now apply IH in H|].
  destruct (repetition_weight _ _ _); [now apply add_word_step in H|now apply IH in H].
Qed.

Lemma recognize_step : forall L L', recognize_onomatopoeia ids pids text pos L = Ret L' -> R L L'.
Proof.
  intros L L' H. unfold recognize_onomatopoeia in H. destruct (_ || existsb _ _); [inv H; apply (sr_refl _ HR)|].
  destruct (if Onomatopoeia_Opt && _ then _ else _) as [L1|] eqn:E1; [|discriminate].
  assert (S1 : R L L1).
  { destruct (Onomatopoeia_Opt && _); [|inv E1; apply (sr_refl _ HR)]. destruct (find_up _ _ _) as [i|]; [|inv E1; apply (sr_refl _ HR)].
    destruct (regexec i _) as [[so eo]|]; [now apply add_word_step in E1|inv E1; apply (sr_refl _ HR)]. }
  apply (sr_trans _ HR _ _ _ S1). destruct Repetition_Opt; [now apply repetition_step in H|inv H; apply (sr_refl _ HR)].
Qed.

Lemma undef_word_step : forall L ok L', undef_word ids pids text seglen pos L = Ret (ok, L') -> 0 < m_buffer_num L ->
  R L L'.
Proof.
  intros L ok L' H Hn. unfold undef_word in H. destruct (undef_word_end _ _ _ _) as [e|]; [|discriminate].
  destruct (MIDASI_MAX <=? _); [inv H; apply (sr_refl _ HR)|].
  destruct (add_word _ _ _ _) as [L1|] eqn:E1; [|discriminate].
  assert (N1 : m_buffer_num L1 = m_buffer_num L + 1).
  { unfold add_word in E1. destruct (check_connect _ _ _ _ _) eqn:E0; [|discriminate]. inv E1.
    apply check_connect_num in E0 as [A _]. cbn in A |- *. lia. }
  apply add_word_step in E1.
  destruct (if _ || _ then _ else _) as [L2|] eqn:E2; [|discriminate].
  assert (S2 : R L1 L2).
  { destruct (_ || _); [now apply recognize_step in E2|inv E2; apply (sr_refl _ HR)]. }
  destruct (if _ =? KUUHAKU then _ else _) as [L3|] eqn:E3; [|discriminate]. inv H.
  apply (sr_trans _ HR _ _ _ E1). apply (sr_trans _ HR _ _ _ S2).
  pose proof (sr_num _ HR _ _ S2) as G.
  destruct (_ =? KUUHAKU); [|inv E3; apply (sr_refl _ HR)]. apply (sr_through _ HR) in E3; [exact E3|lia].
Qed.

Lemma words_at_step : forall count L ok L', words_at ids pids text lat seglen pos count L = Ret (ok, L') ->
  0 < m_buffer_num L -> R L L'.
Proof.
  intros count L ok L' H Hn. unfold words_at in H. destruct (match_pbuf L); [inv H; apply (sr_refl _ HR)|].
  destruct (_ || _); [|inv H; apply (sr_refl _ HR)].
  destruct (search_all _ _ _ _ _ _ _ _ _) as [L1|] eqn:E1; [|discriminate]. apply search_all_step in E1; [|exact Hn].
  apply (sr_trans _ HR _ _ _ E1). apply undef_word_step in H; [exact H|now apply (step_num L)].
Qed.
End Words.

(** ** The shape of the lattice of a sentence *)
Section Shape.
Context `{T : JumanTables} (ids : juman_ids).

(** The buffers only grow, and the new nodes have morphemes below [b]. *)
Definition grows (b : Z) (L L' : lattice) : Prop :=
  p_buffer_num L <= p_buffer_num L' /\ m_buffer_num L <= m_buffer_num L' /\
  (forall k, 0 <= k < m_buffer_num L -> m_buffer L' k = m_buffer L k) /\
  (forall k, k < p_buffer_num L -> pb_mrph_p (node L' k) = pb_mrph_p (node L k)) /\
  (forall k, p_buffer_num L <= k < p_buffer_num L' -> pb_mrph_p (node L' k) < b).

(** The nodes can be numbered in the cache, and no morpheme is empty. *)
Definition good (L : lattice) : Prop :=
  p_buffer_num L < 65536 /\ forall k, 1 <= k < m_buffer_num L -> 0 < j_length (m_buffer L k).

(** An operation at [pos]. *)
Definition step_ok (pos : Z) (L L' : lattice) : Prop :=
  grows (m_buffer_num L') L L' /\ (lattice_ok L -> match_at pos L -> good L' -> lattice_ok L' /\ extends L L').

Lemma grows_refl : forall b L, grows b L L.
Proof. unfold grows. intuition lia. Qed.

Lemma grows_trans : forall b1 b L1 L2 L3, b1 <= b -> grows b1 L1 L2 -> grows b L2 L3 -> grows b L1 L3.
Proof.
  intros b1 b L1 L2 L3 Hb [A1 [A2 [A3 [A4 A5]]]] [B1 [B2 [B3 [B4 B5]]]]. split; [lia|]. split; [lia|].
  split; [|split]; intros k Hk.
  - rewrite B3 by lia. now apply A3.
  - rewrite B4 by lia. now apply A4.
  - destruct (Z.lt_ge_cases k (p_buffer_num L2)); [rewrite B4 by lia; specialize (A5 k); lia|apply B5; lia].
Qed.

Lemma grows_bound : forall b b' L L', b <= b' -> grows b L L' -> grows b' L L'.
Proof. intros b b' L L' Hb G. apply (grows_trans b b' L L' L'); auto. apply grows_refl. Qed.

Lemma grows_incr : forall b L L', grows b L L' -> grows b L (incr_mrph L').
Proof. intros b L L' [A1 [A2 [A3 A4]]]. split; [exact A1|]. split; [cbn; lia|]. split; assumption. Qed.

Lemma good_before : forall b L L', grows b L L' -> good L' -> good L.
Proof.
  intros b L L' [A1 [A2 [A3 _]]] [B1 B2]. split; [lia|]. intros k Hk. rewrite <- A3 by lia. apply B2. lia.
Qed.

Lemma step_refl : forall pos L, step_ok pos L L.
Proof. intros. split; [apply grows_refl|]. intros. split; [assumption|apply extends_refl]. Qed.

Lemma step_trans : forall pos L1 L2 L3, step_ok pos L1 L2 -> step_ok pos L2 L3 -> step_ok pos L1 L3.
Proof.
  intros pos L1 L2 L3 [G1 S1] [G2 S2].
  split; [apply (grows_trans (m_buffer_num L2) _ L1 L2); auto; apply G2|]. intros Hok Hm Hg.
  destruct S1 as [K1 E1]; auto; [now apply (good_before (m_buffer_num L3) L2 L3)|].
  destruct S2 as [K2 E2]; auto; [now apply (extends_match pos L1)|]. split; [exact K2|]. now apply (extends_trans L1 L2).
Qed.

Lemma push_scored_grows : forall p L L', push_scored p L = Ret L' -> grows (pb_mrph_p p + 1) L L' /\ m_buffer_num L' = m_buffer_num L /\
  m_buffer L' = m_buffer L /\ match_pbuf L' = match_pbuf L /\ p_buffer_num L' = p_buffer_num L + 1.
Proof.
  intros p L L' H. apply push_scored_ret in H as [-> _]. split; [|cbn; auto].
  split; [cbn; lia|]. split; [cbn; lia|]. split; [auto|]. split; intros k Hk.
  - now rewrite push_node_old by lia.
  - cbn in Hk. replace k with (p_buffer_num L) by lia. rewrite push_node_new. lia.
Qed.

Lemma check_connect_same : forall pos n opt L L', check_connect ids pos n opt L = Ret L' ->
  grows (n + 1) L L' /\ m_buffer_num L' = m_buffer_num L /\ m_buffer L' = m_buffer L /\ match_pbuf L' = match_pbuf L /\
  p_buffer_num L <= p_buffer_num L' <= p_buffer_num L + 1.
Proof.
  intros pos n opt L L' H. unfold check_connect in H. destruct (rensetu_at _) as [r|]; [|discriminate].
  destruct (negb (within 0 _ _)); [discriminate|].
  destruct ((Show_Opt_debug =? 0) && _ && _ && _).
  - apply push_scored_grows in H as [G [A [B [C D]]]]. intuition lia.
  - destruct (best_connection ids L _ opt) as [[[best path]|]|e]; [| |discriminate].
    + apply push_scored_grows in H as [G [A [B [C D]]]]. change (p_buffer_num (set_connect_cache _ L)) with (p_buffer_num L) in D.
      split; [exact G|]. split; [exact A|]. split; [exact B|]. split; [exact C|lia].
    + inv H. split; [apply grows_refl|]. intuition lia.
Qed.

Lemma push_mrph_grows : forall b m L, grows b L (push_mrph m L).
Proof.
  intros b m L. unfold grows, push_mrph, node. cbn. repeat split; try lia; intros k Hk; try reflexivity.
  now rewrite aset_ne by lia.
Qed.

Lemma suusi_grows : forall pos n L L', suusi_word ids pos n L = Ret L' -> grows (m_buffer_num L') L L'.
Proof.
  intros pos n L L' H. unfold suusi_word in H. destruct (is_suusi ids _); [|inv H; apply grows_refl].
  revert H. generalize (m_buffer L n) as new. intros new. generalize (match_pbuf L) as js. intros js. revert L.
  induction js as [|i js IH]; intros L H; cbn [suusi_loop] in H; [inv H; apply grows_refl|].
  destruct (if is_suusi ids _ then _ else _) as [c|]; [|discriminate]. destruct (c =? 0); [now apply IH|].
  destruct (_ || _); [inv H; apply grows_refl|]. destruct (push_scored _ _) as [L1|] eqn:E; [|discriminate].
  apply push_scored_grows in E as [G [A _]]. apply IH in H. cbn in G, A.
  apply (grows_trans (m_buffer_num L + 1) _ L L1 L'); [destruct H as [_ [H _]]; lia| |exact H].
  apply (grows_trans (m_buffer_num L + 1) _ _ _ _ (Z.le_refl _) (push_mrph_grows _ _ _) G).
Qed.

Lemma through_grows : forall pos n L L', through_word ids pos n L = Ret L' -> grows (m_buffer_num L') L L'.
Proof.
  intros pos n L L' H. unfold through_word in H. destruct (is_through ids _); [|inv H; apply grows_refl].
  revert H. generalize (m_buffer L n) as now. intros nw. generalize (match_pbuf L) as js. intros js. revert L.
  induction js as [|i js IH]; intros L H; cbn [fold_res] in H; [inv H; apply grows_refl|].
  destruct (through_one pos nw i L) as [L1|] eqn:E; [|discriminate]. apply IH in H.
  apply (grows_trans (m_buffer_num L1) _ L L1 L'); [apply H| |exact H].
  clear H IH. unfold through_one in E.
  assert (G : forall n i sc L0, match find_up 0 (p_buffer_num L0) (fun j => (pb_mrph_p (node L0 j) =? n) && (pb_start (node L0 j) =? pos)) with
    | None => push_scored (mkP n pos (pos + j_length nw) (pb_score (node L0 i) + sc) [i] true) L0
    | Some nn => through_again i sc nn L0
    end = Ret L1 -> grows (n + 1) L0 L1 /\ m_buffer_num L1 = m_buffer_num L0).
  { clear. intros n i sc L0 H. destruct (find_up _ _ _) as [nn|].
    - unfold through_again in H. destruct (MAX_PATHES <=? _); [discriminate|]. destruct (negb _); [discriminate|].
      inv H. split; [|reflexivity]. unfold grows, node. cbn. repeat split; try lia; intros k Hk; try reflexivity.
      unfold aset. destruct (Z.eqb_spec k nn) as [->|]; reflexivity.
    - apply push_scored_grows in H as [G [A _]]. split; [exact G|exact A]. }
  destruct (find_up 0 (m_buffer_num L) _) as [m|] eqn:Ef; apply G in E as [E A].
  - apply find_up_some in Ef as [Ef _]. apply (grows_bound (m + 1)); [lia|exact E].
  - cbn in A. rewrite A. apply (grows_trans _ _ _ _ _ (Z.le_refl _) (push_mrph_grows _ _ _) E).
Qed.

(** What the proofs assume of the grammar and of the place. *)
Hypothesis Hids : ids_ok ids.
Hypothesis Hhaba : 0 <= cost_haba cost_omomi.

Lemma suusi_step : forall pos n L L', suusi_word ids pos n L = Ret L' -> step_ok pos L L'.
Proof.
  intros pos n L L' H. split; [now apply suusi_grows in H|]. intros Hok Hm [Hg _].
  apply (suusi_word_ok ids pos n); auto; [apply Hids|lia].
Qed.

Lemma through_step : forall pos n L L', 0 <= pos -> 1 <= n < m_buffer_num L -> through_word ids pos n L = Ret L' ->
  step_ok pos L L'.
Proof.
  intros pos n L L' Hpos Hn H. pose proof (through_grows _ _ _ _ H) as G. split; [exact G|]. intros Hok Hm [Hg1 Hg2].
  apply (through_word_ok ids pos n); auto. destruct G as [_ [G2 [G3 _]]]. rewrite <- G3 by lia. apply Hg2. lia.
Qed.

Lemma store_grows : forall b m L, grows b L (store_mrph m L).
Proof.
  intros b m L. unfold grows, store_mrph, set_m_buffer, node. cbn.
  repeat split; try lia; intros k Hk; try reflexivity.
  now rewrite aset_ne by lia.
Qed.

(** A new morpheme and the node that connects it. *)
Lemma add_step : forall pos m opt L L1, 0 <= pos < 65536 ->
  check_connect ids pos (m_buffer_num L) opt (store_mrph m L) = Ret L1 -> step_ok pos L (incr_mrph L1).
Proof.
  intros pos m opt L L1 Hpos H. pose proof (check_connect_same _ _ _ _ _ H) as [G [A [B [C D]]]]. cbn in A, B, C, D.
  assert (Gr : grows (m_buffer_num (incr_mrph L1)) L (incr_mrph L1)).
  { apply grows_incr. replace (m_buffer_num (incr_mrph L1)) with (m_buffer_num L + 1) by (cbn; lia).
    apply (grows_trans _ _ _ _ _ (Z.le_refl _) (store_grows _ _ _) G). }
  split; [exact Gr|]. intros Hok Hm [Hg1 Hg2]. pose proof (ok_num _ Hok) as [N1 N2].
  assert (Hok0 : lattice_ok (store_mrph m L)).
  { apply (lattice_ok_mrph L); auto. cbn. now rewrite aset_ne by lia. }
  apply check_connect_ok in H as [R1 [R2 _]]; auto.
  - split; [apply (lattice_ok_mrph L1); auto; cbn; lia|]. destruct R2 as [S1 [S2 [S3 [S4 S5]]]].
    split; [exact S1|]. split; [exact S2|]. split; [cbn; lia|]. split; [exact S4|]. apply Gr.
  - cbn. specialize (Hg2 (m_buffer_num L)). cbn in Hg2. rewrite B in Hg2. cbn in Hg2. apply Hg2. lia.
  - cbn in Hg1. cbn. lia.
Qed.

(** *** Compounds *)

Lemma store_ok : forall m L, lattice_ok L -> lattice_ok (store_mrph m L) /\ extends L (store_mrph m L).
Proof.
  intros m L Hok. pose proof (ok_num _ Hok) as [N1 N2]. split.
  - apply (lattice_ok_mrph L); auto. cbn. now rewrite aset_ne by lia.
  - split; [reflexivity|]. split; [cbn; lia|]. split; [cbn; lia|]. split; [auto|]. apply (store_grows 0 m L).
Qed.

Lemma incr_ok : forall L, lattice_ok L -> lattice_ok (incr_mrph L).
Proof. intros L Hok. apply (lattice_ok_mrph L); auto. cbn. pose proof (ok_num _ Hok). lia. Qed.

Lemma extends_incr : forall L L', extends L L' -> extends L (incr_mrph L').
Proof. intros L L' [A [B [C [D E]]]]. split; [exact A|]. split; [exact B|]. split; [cbn; lia|]. split; assumption. Qed.

(** The components after the first one. *)
Lemma rengo_next_ok : forall last pos con w c L L', rengo_next last pos con w c L = Ret L' ->
  grows (m_buffer_num L + 1) L (incr_mrph L') /\ m_buffer_num L' = m_buffer_num L /\
  (lattice_ok L -> pb_end (node L (p_buffer_num L - 1)) = pos -> 0 <= pos -> good (incr_mrph L') ->
   lattice_ok (incr_mrph L') /\ extends L (incr_mrph L') /\
   pb_end (node L' (p_buffer_num L' - 1)) = pos + j_length c).
Proof.
  intros last pos con w c L L' H. unfold rengo_next in H.
  destruct (check_matrix _ _) as [cw|]; [|discriminate].
  destruct (if last && _ then _ else _) as [r|]; [|discriminate].
  set (L0 := store_mrph c L) in *.
  set (L1 := if (r : bool) then store_mrph (set_j_con_tbl con c) L0 else L0) in *.
  assert (HL1 : p_buffer L1 = p_buffer L /\ p_buffer_num L1 = p_buffer_num L /\ m_buffer_num L1 = m_buffer_num L /\
                j_length (m_buffer L1 (m_buffer_num L)) = j_length c /\ grows (m_buffer_num L + 1) L L1).
  { assert (G0 : grows (m_buffer_num L + 1) L L0) by apply store_grows. unfold L1.
    destruct r; (split; [reflexivity|]; split; [reflexivity|]; split; [reflexivity|]; split; [cbn; now rewrite aset_eq|]).
    - apply (grows_trans _ _ _ _ _ (Z.le_refl _) G0 (store_grows _ _ _)).
    - exact G0. }
  destruct HL1 as [P1 [P2 [P3 [P4 P5]]]].
  pose proof (push_scored_grows _ _ _ H) as [G [A [B [_ D]]]].
  cbn [pb_mrph_p] in G. rewrite P3 in G, A.
  split; [apply grows_incr, (grows_trans _ _ _ _ _ (Z.le_refl _) P5 G)|]. split; [exact A|].
  intros Hok Hend Hpos [Hg1 Hg2]. apply push_scored_ret in H as [-> Hs]. pose proof (ok_num _ Hok) as [N1 N2].
  assert (Hok1 : lattice_ok L1 /\ extends L L1).
  { destruct (store_ok c L Hok) as [S1 S2]. unfold L1. destruct r; [|split; assumption].
    destruct (store_ok (set_j_con_tbl con c) L0 S1) as [S3 S4]. split; [exact S3|]. now apply (extends_trans L L0). }
  destruct Hok1 as [Hok1 Hex1].
  assert (Hlen : 0 < j_length c).
  { specialize (Hg2 (m_buffer_num L)). cbn in Hg2. rewrite <- P4, P3 in *. apply Hg2. lia. }
  split; [|split].
  - apply incr_ok, push_node_ok; auto; [cbn in Hg1; lia|cbn; lia|cbn; congruence|].
    intros j [<-|[]]. unfold node. rewrite P1, P2. cbn. split; [lia|]. exact Hend.
  - apply extends_incr. eapply extends_trans; [exact Hex1|apply push_node_extends].
  - change (p_buffer_num (push_node _ L1)) with (p_buffer_num L1 + 1).
    replace (p_buffer_num L1 + 1 - 1) with (p_buffer_num L1) by lia. rewrite push_node_new. reflexivity.
Qed.

Lemma check_connect_none : forall pos n opt L L', check_connect ids pos n opt L = Ret L' ->
  p_buffer_num L' = p_buffer_num L -> L' = L.
Proof.
  intros pos n opt L L' H E. unfold check_connect in H. destruct (rensetu_at _) as [r|]; [|discriminate].
  destruct (negb (within 0 _ _)); [discriminate|]. destruct ((Show_Opt_debug =? 0) && _ && _ && _).
  - apply push_scored_ret in H as [-> _]. cbn in E. lia.
  - destruct (best_connection ids L _ opt) as [[[best path]|]|e]; [| |discriminate].
    + apply push_scored_ret in H as [-> _]. cbn in E. lia.
    + now inv H.
Qed.

(** The first component: the state before the next one when it connects. *)
Lemma rengo_first_ok : forall pos opt con w c L b L', rengo_first ids pos opt con w c L = Ret (b, L') ->
  0 <= pos < 65536 ->
  grows (m_buffer_num L + if b then 1 else 0) L L' /\ m_buffer_num L' = m_buffer_num L /\ (b = true -> m_buffer L' (m_buffer_num L) = c) /\
  (lattice_ok L -> match_at pos L -> p_buffer_num L' < 65536 -> (b = true -> 0 < j_length c) ->
   lattice_ok L' /\ extends L L' /\ (b = true -> pb_end (node L' (p_buffer_num L' - 1)) = pos + j_length c)).
Proof.
  intros pos opt con w c L b L' H Hpos. unfold rengo_first in H.
  destruct (if con =? -1 then _ else _) as [l|]; [|discriminate].
  set (c0 := if (l : bool) then set_j_con_tbl con c else c) in *.
  destruct (check_connect ids pos (m_buffer_num L) opt (store_mrph c0 L)) as [L1|] eqn:E; [|discriminate].
  pose proof (check_connect_same _ _ _ _ _ E) as [G [A [B [C D]]]]. cbn in A, D.
  assert (G1 : grows (m_buffer_num L + 1) L L1) by apply (grows_trans _ _ _ _ _ (Z.le_refl _) (store_grows _ _ _) G).
  destruct (Z.eqb_spec (p_buffer_num L1) (p_buffer_num L)) as [En|En].
  - inv H. apply check_connect_none in E; [|exact En]. subst L'.
    split; [apply store_grows|]. split; [exact A|]. split; [discriminate|]. intros Hok Hm Hn _. destruct (store_ok c0 L Hok) as [K1 K2].
    split; [exact K1|]. split; [exact K2|discriminate].
  - destruct (negb (is_int _)) eqn:Es; [discriminate|]. apply negb_false_iff in Es. inv H.
    set (p := mkP _ _ _ _ _ _) in *. change (set_p_buffer _ _) with (set_node (p_buffer_num L) p (store_mrph c L1)).
    split.
    { destruct (grows_trans _ _ _ _ _ (Z.le_refl _) G1 (store_grows _ c L1)) as [X1 [X2 [X3 [X4 X5]]]].
      split; [exact X1|]. split; [exact X2|]. split; [exact X3|].
      assert (Em : forall k, pb_mrph_p (node (set_node (p_buffer_num L) p (store_mrph c L1)) k) = pb_mrph_p (node L1 k)).
      { intros k. unfold node, set_node, set_p_buffer. cbn. unfold aset. now destruct (Z.eqb_spec k (p_buffer_num L)) as [->|]. }
      split; intros k Hk; rewrite Em; [now apply X4|now apply X5]. }
    split; [exact A|].
    split; [intros _; cbn; rewrite A; now rewrite aset_eq|].
    intros Hok Hm Hn Hlen. specialize (Hlen eq_refl). change (p_buffer_num (set_node _ _ _)) with (p_buffer_num L1) in *.
    destruct (store_ok c0 L Hok) as [Hok0 Hex0].
    apply check_connect_ok in E as [R1 [R2 [_ [_ R3]]]];
      [|exact Hok0|now apply (extends_match pos L)|exact Hpos|cbn; rewrite aset_eq; unfold c0; now destruct l|cbn; lia].
    cbn in R3. destruct R3 as [R3|[R3 [Q1 [Q2 Q3]]]]; [lia|]. rewrite aset_eq in Q3.
    replace (j_length c0) with (j_length c) in Q3 by (unfold c0; now destruct l).
    destruct (store_ok c L1 R1) as [Hok1 Hex1]. pose proof (ok_num _ Hok) as [N1 N2].
    assert (Hex : extends L (store_mrph c L1)) by (eapply extends_trans; [exact Hex0|]; eapply extends_trans; eauto).
    destruct (ok_node _ R1 (p_buffer_num L)) as [D1 [D2 D3]]; [lia|].
    split; [apply set_node_ok; auto; cbn; lia|]. split.
    + destruct Hex as [X1 [X2 [X3 [X4 X5]]]]. split; [exact X1|]. split; [exact X2|]. split; [exact X3|]. split; [|exact X5].
      intros k Hk. unfold node, set_node, set_p_buffer. cbn. rewrite aset_ne by lia. now apply X4.
    + intros _. replace (p_buffer_num L1 - 1) with (p_buffer_num L) by lia. unfold node, set_node, set_p_buffer. cbn.
      now rewrite aset_eq.
Qed.

(** The rest of a compound, after a component that ends at [pos]. *)
Lemma rengo_loop_next : forall `{E : JumanEnv} seglen opt con w cs pos L L',
  rengo_loop ids seglen false pos opt con w cs L = Ret L' ->
  grows (m_buffer_num L') L L' /\
  (lattice_ok L -> pb_end (node L (p_buffer_num L - 1)) = pos -> 0 <= pos -> good L' -> lattice_ok L' /\ extends L L').
Proof.
  intros E seglen opt con w. induction cs as [|c cs IH]; intros pos L L' H; cbn [rengo_loop] in H.
  - inv H. split; [apply grows_refl|]. intros. split; [assumption|apply extends_refl].
  - destruct (UseGivenSegmentation_Opt && _).
    + inv H. split; [apply store_grows|]. intros Hok _ _ _. now apply store_ok.
    + destruct (rengo_next _ _ _ _ _ _) as [L1|] eqn:E1; [|discriminate]. cbn [res_map] in H.
      destruct (rengo_next_ok _ _ _ _ _ _ _ E1) as [G1 [A1 S1]]. destruct (IH _ _ _ H) as [G2 S2].
      split; [apply (grows_trans (m_buffer_num L + 1) _ _ (incr_mrph L1)); auto; destruct G2 as [_ [G2 _]]; cbn in G2; lia|].
      intros Hok He Hpos Hg.
      destruct S1 as [K1 [X1 Y1]]; auto; [now apply (good_before (m_buffer_num L') (incr_mrph L1) L')|].
      destruct S2 as [K2 X2]; auto.
      * destruct (good_before _ _ _ G2 Hg) as [_ Hl].
        assert (0 < j_length c); [|lia].
        unfold rengo_next in E1. destruct (check_matrix _ _); [|discriminate].
        destruct (if _ && _ then _ else _) as [r|]; [|discriminate]. apply push_scored_grows in E1 as [_ [A [B _]]].
        pose proof (ok_num _ Hok) as [N1 N2]. specialize (Hl (m_buffer_num L)). cbn in Hl. rewrite B in Hl.
        destruct r; cbn in Hl, A; rewrite aset_eq in Hl; apply Hl; lia.
      * split; [exact K2|]. eapply extends_trans; eauto.
Qed.

Lemma rengo_step : forall `{E : JumanEnv} seglen opt con w cs pos L L', 0 <= pos < 65536 ->
  rengo_loop ids seglen true pos opt con w cs L = Ret L' -> step_ok pos L L'.
Proof.
  intros E seglen opt con w cs pos L L' Hpos H. destruct cs as [|c cs]; cbn [rengo_loop] in H; [inv H; apply step_refl|].
  destruct (UseGivenSegmentation_Opt && _).
  - inv H. split; [apply store_grows|]. intros Hok _ _. now apply store_ok.
  - destruct (rengo_first _ _ _ _ _ _ _) as [[b L1]|] eqn:E1; [|discriminate].
    destruct (rengo_first_ok _ _ _ _ _ _ _ _ E1 Hpos) as [G1 [A1 [Z1 S1]]]. destruct b.
    + destruct (rengo_loop_next _ _ _ _ _ _ _ _ H) as [G2 S2]. specialize (Z1 eq_refl).
      split.
      { apply (grows_trans (m_buffer_num L + 1) _ _ (incr_mrph L1)); [|now apply grows_incr|exact G2].
        destruct G2 as [_ [G2 _]]. cbn in G2. lia. }
      intros Hok Hm Hg. destruct (good_before _ _ _ G2 Hg) as [Hn Hl].
      cbn in Hn, Hl. pose proof (ok_num _ Hok) as [N1 N2].
      assert (Hlen : 0 < j_length c) by (rewrite <- Z1; apply Hl; lia).
      destruct (S1 Hok Hm Hn (fun _ => Hlen)) as [K1 [X1 Y1]]. specialize (Y1 eq_refl).
      destruct S2 as [K2 X2]; auto; [now apply incr_ok|lia|]. split; [exact K2|].
      apply (extends_trans L (incr_mrph L1)); [now apply extends_incr|exact X2].
    + inv H. rewrite Z.add_0_r, <- A1 in G1. split; [exact G1|]. intros Hok Hm [Hn _]. destruct (S1 Hok Hm Hn) as [K1 [X1 _]]; [discriminate|].
      split; assumption.
Qed.


(** *** The sentence *)
Section Sentences.
Context `{D : Darts} `{E : JumanEnv} (pids : prolong_ids) (text : string) (lat : list (list char_node)) (seglen : array Z).

Lemma passed_extends : forall pos pos' p_start L L', passed pos p_start L -> extends L L' -> pos <= pos' ->
  passed pos' p_start L'.
Proof.
  intros pos pos' p_start L L' [H1 H2] [_ [X2 [_ [X4 _]]]] Hp. split; [lia|]. intros i Hi.
  destruct (X4 i) as [_ [-> ->]]; [lia|]. destruct (H2 i Hi); [left; lia|now right].
Qed.

Lemma nodes_ending_match : forall pos L, match_at pos (set_match_pbuf (nodes_ending pos L) L).
Proof.
  intros pos L j Hj. cbn in Hj. unfold nodes_ending in Hj. apply filter_In in Hj as [Hj He]. apply in_zrange in Hj.
  unfold ends_at in He. split; [exact Hj|]. unfold node in *. cbn. blia.
Qed.

Lemma set_match_ok : forall l L, lattice_ok L -> lattice_ok (set_match_pbuf l L).
Proof. intros l L Hok. apply (lattice_ok_mrph L); auto. apply (ok_num _ Hok). Qed.

Lemma utf8_bytes_range : forall s, 1 <= utf8_bytes s <= 6.
Proof. intros s. unfold utf8_bytes. repeat (destruct (_ <? _); [lia|]). lia. Qed.

Lemma step_ok_rel : forall pos, 0 <= pos < 65536 -> step_rel ids seglen pos (step_ok pos).
Proof.
  intros pos Hpos. constructor.
  - apply step_refl.
  - apply step_trans.
  - intros L L' [[_ [G _]] _]. exact G.
  - intros m opt L L1 H. now apply (add_step _ m opt).
  - intros n L L' _. apply suusi_step.
  - intros n L L' Hn H. now apply (through_step _ n); [lia| |].
  - intros opt con w cs L L' H. now apply rengo_step in H.
Qed.

Lemma pos_match_grows : forall b pos p_start L, grows b L (snd (pos_match_process pos p_start L)).
Proof.
  intros b pos p_start L. unfold pos_match_process. destruct (for_up _ _ _ _) as [ps js]. cbn.
  unfold grows, node. cbn. repeat split; try lia; auto.
Qed.

(** The loop keeps the shape of the lattice, and stops at the end of a character. *)
Lemma sentence_loop_ok : forall fuel length pos count p_start L ok pos' p_start' L',
  sentence_loop ids pids text lat seglen fuel length pos count p_start L = Ret (ok, pos', p_start', L') ->
  0 < m_buffer_num L -> 0 <= pos -> length <= 65536 ->
  grows (m_buffer_num L') L L' /\
  (lattice_ok L -> passed (pos - 1) p_start L -> good L' ->
   lattice_ok L' /\ (ok = true -> passed (pos' - 1) p_start' L' /\ length <= pos' /\ (pos < length + 6 -> pos' < length + 6))).
Proof.
  induction fuel as [|fuel IH]; intros length pos count p_start L ok pos' p_start' L' H Hn Hpos Hlen;
    cbn [sentence_loop] in H; destruct (Z.leb_spec length pos) as [Hl|Hl]; try discriminate;
    try (inv H; split; [apply grows_refl|]; intros Hok Hp _; split; [exact Hok|]; intros _; auto).
  pose proof (pos_match_grows 0 pos p_start L) as G0.
  destruct (pos_match_process pos p_start L) as [ps L0] eqn:E0. cbn [snd] in G0.
  destruct (words_at _ _ _ _ _ _ _ _) as [[ok1 L1]|] eqn:E1; [|discriminate].
  assert (Hn0 : 0 < m_buffer_num L0) by (destruct G0 as [_ [G0 _]]; lia).
  apply (words_at_step ids pids text lat seglen pos _ (step_ok_rel pos ltac:(lia))) in E1 as [G1 S1]; [|exact Hn0].
  assert (G01 : grows (m_buffer_num L1) L L1).
  { apply (grows_trans 0 _ _ L0); [destruct G1 as [_ [G1 _]]; lia|exact G0|exact G1]. }
  assert (Hsh : lattice_ok L -> passed (pos - 1) p_start L -> good L1 -> lattice_ok L1 /\ passed pos ps L1).
  { intros Hok Hp Hg. destruct (pos_match_process_spec pos p_start L Hp) as [ps0 [E2 Hp0]]. rewrite E2 in E0. inv E0.
    destruct S1 as [K1 X1]; [now apply set_match_ok|apply nodes_ending_match|exact Hg|]. split; [exact K1|].
    now apply (passed_extends pos pos ps (set_match_pbuf (nodes_ending pos L) L)); [exact Hp0| |lia]. }
  pose proof (utf8_bytes_range (at_pos text pos)) as Hu. destruct ok1.
  - destruct (IH _ _ _ _ _ _ _ _ _ H) as [G2 S2]; [destruct G01 as [_ [G01 _]]; lia|lia|lia|].
    split; [apply (grows_trans (m_buffer_num L1) _ _ L1); auto; apply G2|]. intros Hok Hp Hg.
    destruct (Hsh Hok Hp (good_before _ _ _ G2 Hg)) as [K1 P1].
    destruct (S2 K1) as [K2 R2]; [|exact Hg|].
    + apply (passed_extends pos _ ps L1 L1 P1 (extends_refl L1)). lia.
    + split; [exact K2|]. intros Hok'. destruct (R2 Hok') as [R3 [R4 R5]]. split; [exact R3|]. split; [exact R4|lia].
  - inv H. split; [exact G01|]. intros Hok Hp Hg. split; [now apply Hsh|discriminate].
Qed.

Lemma begin_ok : forall L, lattice_ok (begin_sentence L) /\ passed (-1) 0 (begin_sentence L).
Proof.
  intros L. split; [constructor|].
  - cbn. lia.
  - cbn. auto.
  - cbn. lia.
  - intros k Hk. cbn in Hk. replace k with 0 by lia. reflexivity.
  - cbn. lia.
  - split; [cbn; lia|]. cbn. lia.
Qed.

Lemma get_best_path_ok : forall L L' e, lattice_ok L -> p_buffer_num L' = p_buffer_num L + 1 ->
  (forall k, 0 <= k < p_buffer_num L -> node L' k = node L k) -> pb_path (node L' (p_buffer_num L)) <> [] -> 0 < e ->
  (forall j, In j (pb_path (node L' (p_buffer_num L))) -> 0 <= j < p_buffer_num L /\ pb_end (node L j) = e) ->
  exists ps, get_best_path_num L' = Ret ps /\ covers L' e ps /\ hd 0 ps = hd 0 (pb_path (node L' (p_buffer_num L))).
Proof.
  intros L L' e Hok Hnum Hs Hne He Hin. unfold get_best_path_num. rewrite Hnum, Z.add_simpl_r.
  set (h := hd 0 (pb_path (node L' (p_buffer_num L)))).
  assert (Hh : In h (pb_path (node L' (p_buffer_num L)))).
  { unfold h. destruct (pb_path (node L' (p_buffer_num L))); [easy|now left]. }
  destruct (Hin h Hh) as [Hh1 Hh2]. rewrite <- Hs in Hh2 by lia. destruct (ok_bos _ Hok) as [B0 _].
  destruct (best_path_loop_ok L L' (S (Z.to_nat (pb_end (node L' h)))) (p_buffer_num L)) as [ps [P1 [P2 P3]]]; auto.
  - lia.
  - intros j Hj. destruct (Hin j Hj) as [J1 J2]. destruct (Z.eq_dec j 0) as [->|]; lia.
  - fold h. lia.
  - exists ps. split; [exact P1|]. fold h in P3. rewrite Hh2 in P3. split; assumption.
Qed.

(** The end of the sentence is connected to nodes that end there. *)
Lemma end_sentence_ok : forall length pos ps L L', end_sentence ids length pos ps L = Ret L' -> lattice_ok L ->
  passed (pos - 1) ps L -> 0 < length <= pos -> (forall k, 0 <= k < p_buffer_num L -> pb_mrph_p (node L k) < m_buffer_num L) ->
  pb_mrph_p (node L' (p_buffer_num L' - 1)) = m_buffer_num L' - 1 ->
  exists p e, get_best_path_num L' = Ret p /\ covers L' e p /\ (e = pos \/ e = length) /\
    hd 0 p = hd 0 (pb_path (node L' (p_buffer_num L' - 1))).
Proof.
  intros length pos ps L L' H Hok Hp Hl Hmr Hlast. unfold end_sentence in H.
  set (L2 := incr_mrph _) in H. pose proof (ok_num _ Hok) as [N1 N2].
  assert (H2 : lattice_ok L2 /\ extends L L2).
  { destruct (store_ok (mark "(文末)" (m_buffer L (m_buffer_num L))) L Hok) as [K X].
    split; [now apply incr_ok|now apply extends_incr]. }
  destruct H2 as [H2 X2]. pose proof (passed_extends _ _ _ _ _ Hp X2 (Z.le_refl _)) as P2.
  destruct (pos_match_process_spec pos ps L2 P2) as [ps3 [E3 _]]. rewrite E3 in H. clear E3.
  set (L3 := set_match_pbuf _ L2) in H. assert (H3 : lattice_ok L3) by now apply set_match_ok.
  pose proof (check_connect_same _ _ _ _ _ H) as [G4 [A4 [_ [_ D4]]]].
  change (p_buffer_num L3) with (p_buffer_num L) in *. change (m_buffer_num L3) with (m_buffer_num L + 1) in A4.
  destruct (Z.eq_dec (p_buffer_num L') (p_buffer_num L)) as [En|En].
  - exfalso. destruct G4 as [_ [_ [_ [G4 _]]]]. rewrite G4 in Hlast by (change (p_buffer_num L3) with (p_buffer_num L); lia).
    rewrite En, A4 in Hlast. change (node L3) with (node L) in Hlast. specialize (Hmr (p_buffer_num L - 1)). lia.
  - destruct (check_connect_path ids pos length _ _ _ _ H3 (nodes_ending_match pos L2) ltac:(lia) H En)
      as [Q1 [Q2 [Q3 [e [Q4 Q5]]]]].
    destruct (get_best_path_ok L3 L' e) as [p [P1 [P3 P4]]]; auto; [lia|]. exists p, e.
    rewrite Q1, Z.add_simpl_r. auto.
Qed.

(** The best path of an analyzed sentence exists, and its morphemes cover the sentence from its
    beginning to its end, without gap or overlap. *)
Lemma analyze_covers : forall L L', analyze ids pids text lat seglen L = Ret (true, L') -> slen (cstr text) <= 65536 ->
  p_buffer_num L' < 65536 -> (forall k, 1 <= k < m_buffer_num L' - 1 -> 0 < j_length (m_buffer L' k)) ->
  pb_mrph_p (node L' (p_buffer_num L' - 1)) = m_buffer_num L' - 1 ->
  exists ps e, get_best_path_num L' = Ret ps /\ covers L' e ps /\ slen (cstr text) <= e < slen (cstr text) + 6 /\
    hd 0 ps = hd 0 (pb_path (node L' (p_buffer_num L' - 1))).
Proof.
  intros L L' H Hlen Hnum Hpos Hlast. unfold analyze in H. set (length := slen (cstr text)) in *.
  destruct (Z.eqb_spec length 0) as [|Hl0]; [discriminate|]. assert (Hl : 0 < length) by (unfold length, slen in *; lia).
  destruct (sentence_loop _ _ _ _ _ _ _ _ _ _ _) as [[[[ok pos] ps] L1]|] eqn:E1; [|discriminate]. destruct ok; [|discriminate].
  destruct (end_sentence _ _ _ _ _) as [L2|] eqn:E2; [|discriminate]. inv H.
  destruct (begin_ok L) as [Hb Hp].
  destruct (sentence_loop_ok _ _ _ _ _ _ _ _ _ _ E1) as [G1 S1]; [cbn; lia|lia|lia|].
  assert (G2 : exists b, grows b L1 L' /\ m_buffer_num L' = m_buffer_num L1 + 1).
  { unfold end_sentence in E2. set (L2 := incr_mrph _) in E2.
    pose proof (pos_match_grows (m_buffer_num L1 + 1) pos ps L2) as G3.
    destruct (pos_match_process pos ps L2) as [ps3 L3] eqn:E3. cbn [snd] in G3.
    pose proof (check_connect_same _ _ _ _ _ E2) as [G4 [A4 _]]. exists (m_buffer_num L1 + 1). split.
    - assert (G0 : grows (m_buffer_num L1 + 1) L1 L2) by (apply grows_incr, store_grows).
      apply (grows_trans _ _ _ _ _ (Z.le_refl _) G0), (grows_trans _ _ _ _ _ (Z.le_refl _) G3 G4).
    - rewrite A4. unfold pos_match_process in E3. destruct (for_up _ _ _ _) in E3. now inv E3. }
  destruct G2 as [b [G2 A2]]. 
  assert (Hg : good L1).
  { destruct G2 as [X1 [X2 [X3 _]]]. split.
    - lia.
    - intros k Hk. rewrite <- X3 by lia. apply Hpos. lia. }
  destruct (S1 Hb Hp Hg) as [K1 R1]. destruct (R1 eq_refl) as [R2 [R3 R4]].
  destruct (end_sentence_ok _ _ _ _ _ E2 K1 R2) as [p [e [P1 [P2 [P3 P4]]]]]; auto.
  - intros k Hk. destruct G1 as [X1 [X2 [_ [X4 X5]]]]. cbn in X1, X2.
    destruct (Z.eq_dec k 0) as [->|]; [rewrite X4 by (cbn; lia); cbn; lia|apply X5; cbn; lia].
  - exists p, e. split; [exact P1|]. split; [exact P2|]. split; [lia|exact P4].
Qed.
End Sentences.
End Shape.
