(* ===== verification/ConnectCache.v ===== *)
(** * The cache of connections at one place (src/juman/lib/juman_lib.c)

    [check_connect] keeps, for each column of the connection matrix, the best connection of the last morpheme with that
    column, its place and the node it was given to.  At one place the words are connected one after the other, and
    each may also extend a numeral ([suusi_word]).  The cache is transparent for words that are not brackets or blanks: the
    nodes are those of the search without it.  A bracket rewrites the predecessors of a node that the cache may name
    ([through_word]); then it is not. *)
From Stdlib Require Import ZArith List Bool String Ascii Lia.
Import ListNotations.
From S2P Require Import Prelude CStr Lisp Feature Sentence SemCode Regexp Lattice CharLattice Juman.
Open Scope list_scope.
Open Scope Z_scope.

Section Place.
Context `{T : JumanTables} `{E : JumanEnv} (ids : juman_ids).
Context (text : string) (String2Length : array Z) (pos : Z).

(** [place_mrph] of a word that is not a bracket or a blank, with the search of [check_connect] every time. *)
Definition place_mrph_ref (opt : Z) (mrph : MRPH) (L : lattice) : res lattice :=
  let mrph := if UseGivenSegmentation_Opt && negb (j_length mrph =? String2Length pos)
              then set_j_weight STOP_MRPH_WEIGHT mrph else mrph in
  if j_weight mrph =? STOP_MRPH_WEIGHT then Ret L
  else if negb (Z.land opt OPT_DEVOICE =? 0) && no_voicing text pos then Ret L
  else if negb (Z.land opt OPT_NORMALIZE =? 0) &&
          negb ((BYTES4CHAR <? slen (j_midasi mrph)) || starts_with "か" (j_midasi mrph)) then Ret L
  else
    let n := m_buffer_num L in
    L <- check_connect_ref ids pos n opt (store_mrph mrph L) ;;
    suusi_word ids pos n (incr_mrph L).

Definition place_words (ws : list (Z * MRPH)) (L : lattice) : res lattice :=
  fold_res (fun '(opt, m) L => place_mrph ids text String2Length pos opt m L) ws L.

Definition place_words_ref (ws : list (Z * MRPH)) (L : lattice) : res lattice :=
  fold_res (fun '(opt, m) L => place_mrph_ref opt m L) ws L.

(** No entry of the cache is for this place. *)
Definition no_entry (at_ : Z) (L : lattice) : Prop := forall c, 0 < cc_p_no (connect_cache L c) -> cc_pos (connect_cache L c) <> at_.

(** ** Without the cache nothing depends on it *)
Lemma forget_connect_loop : forall L rc opt, best_connection ids (forget_cache L) rc opt = best_connection ids L rc opt.
Proof. reflexivity. Qed.

Lemma forget_pushed : forall p L, push_scored p (forget_cache L) = res_map forget_cache (push_scored p L).
Proof. intros p L. unfold push_scored. now destruct (is_int _). Qed.

Lemma forget_connect : forall n opt L, check_connect_ref ids pos n opt (forget_cache L) = res_map forget_cache (check_connect_ref ids pos n opt L).
Proof.
  intros n opt L. unfold check_connect_ref. change (m_buffer (forget_cache L)) with (m_buffer L). destruct (rensetu_at _) as [r|]; [|reflexivity].
  destruct (negb _); [reflexivity|]. rewrite forget_connect_loop. destruct (best_connection _ _ _ _) as [[[best path]|]|]; [|reflexivity..].
  change (lattice_node (forget_cache L)) with (lattice_node L). apply forget_pushed.
Qed.

Lemma forget_suusi_loop : forall new js L, suusi_loop ids pos new js (forget_cache L) = res_map forget_cache (suusi_loop ids pos new js L).
Proof.
  intros new. induction js as [|i js IH]; intros L; cbn [suusi_loop]; [reflexivity|]. change (mrph_of_node (forget_cache L)) with (mrph_of_node L).
  change (node (forget_cache L)) with (node L). change (m_buffer_num (forget_cache L)) with (m_buffer_num L).
  destruct (if is_suusi ids (mrph_of_node L i) then _ else _) as [c|]; [|reflexivity]. destruct (c =? 0); [apply IH|].
  destruct (_ || _); [reflexivity|]. change (push_mrph (join_suusi (mrph_of_node L i) new) (forget_cache L)) with (forget_cache (push_mrph (join_suusi (mrph_of_node L i) new) L)).
  rewrite forget_pushed. destruct (push_scored _ _) as [L1|]; [apply IH | reflexivity].
Qed.

Lemma forget_suusi : forall n L, suusi_word ids pos n (forget_cache L) = res_map forget_cache (suusi_word ids pos n L).
Proof.
  intros n L. unfold suusi_word. change (m_buffer (forget_cache L)) with (m_buffer L). change (match_pbuf (forget_cache L)) with (match_pbuf L).
  destruct (is_suusi _ _); [apply forget_suusi_loop | reflexivity].
Qed.

Lemma forget_place : forall opt m L, place_mrph_ref opt m (forget_cache L) = res_map forget_cache (place_mrph_ref opt m L).
Proof.
  intros opt m L. unfold place_mrph_ref. cbv zeta. set (m' := if _ && _ then set_j_weight _ m else m). clearbody m'. destruct (j_weight m' =? _); [reflexivity|].
  destruct (_ && _); [reflexivity|]. destruct (_ && _); [reflexivity|]. change (store_mrph m' (forget_cache L)) with (forget_cache (store_mrph m' L)).
  change (m_buffer_num (forget_cache L)) with (m_buffer_num L). rewrite forget_connect. destruct (check_connect_ref _ _ _ _ _) as [L1|]; [|reflexivity].
  exact (forget_suusi _ (incr_mrph L1)).
Qed.

Lemma forget_words : forall ws L, place_words_ref ws (forget_cache L) = res_map forget_cache (place_words_ref ws L).
Proof.
  unfold place_words_ref. induction ws as [|[opt m] ws IH]; intros L; cbn [fold_res]; [reflexivity|]. rewrite forget_place.
  destruct (place_mrph_ref opt m L) as [L1|]; [apply IH | reflexivity].
Qed.

(** ** What the steps keep *)

(** The predecessors and the cache are right, and the lattice has at most [k] new nodes. *)
Record kept (k : Z) (L L' : lattice) : Prop := {
  kp_pbuf : match_pbuf L' = match_pbuf L;
  kp_num : p_buffer_num L <= p_buffer_num L' <= p_buffer_num L + k;
  kp_mrphs : m_buffer_num L <= m_buffer_num L';
  kp_match : match_ok L -> match_ok L';
  kp_cache : match_ok L -> cache_ok ids pos L -> 0 < p_buffer_num L -> p_buffer_num L + k <= 65536 -> cache_ok ids pos L';
  kp_entry : forall at_, at_ <> short pos -> no_entry at_ L -> no_entry at_ L'
}.

Lemma kept_refl : forall k L, 0 <= k -> kept k L L.
Proof. intros k L Hk. split; auto; lia. Qed.

Lemma kept_trans : forall k1 k2 L1 L2 L3, kept k1 L1 L2 -> kept k2 L2 L3 -> kept (k1 + k2) L1 L3.
Proof.
  intros k1 k2 L1 L2 L3 [A1 A2 A0 A3 A4 A5] [B1 B2 B0 B3 B4 B5]. split; auto; [congruence | lia | lia|].
  intros M C P H. apply B4; auto; [|lia|lia]. apply A4; auto. lia.
Qed.

Lemma store_kept : forall m L, kept 0 L (store_mrph m L).
Proof.
  intros m L. split; [reflexivity | change (p_buffer_num (store_mrph m L)) with (p_buffer_num L); lia | apply Z.le_refl | auto | | auto].
  intros M C _ _ rc r Hr e Hp Hn. destruct (C rc r Hr Hp Hn) as [H1 H2]. split; [exact H1|].
  rewrite <- (best_connection_ext ids L (store_mrph m L) rc rc r r (cc_opt e)); auto.
  intros j Hj. destruct (M j Hj) as [_ Hm]. unfold mrph_of_node, node, store_mrph in *. cbn. rewrite aset_ne by lia. auto.
Qed.

Lemma incr_kept : forall L, kept 0 L (incr_mrph L).
Proof.
  intros L. split; [reflexivity | change (p_buffer_num (incr_mrph L)) with (p_buffer_num L); lia | cbn; lia | | auto | auto].
  intros M j Hj. destruct (M j Hj). split; [assumption|]. change (pb_mrph_p (node L j) < m_buffer_num L + 1). lia.
Qed.

Lemma push_kept : forall m p L, kept 1 L (push_node p (push_mrph m L)).
Proof.
  intros m p L. assert (M1 : match_ok L -> match_ok (push_mrph m L)).
  { intros M j Hj. destruct (M j Hj). split; [assumption|]. change (pb_mrph_p (node L j) < m_buffer_num L + 1). lia. }
  split; [reflexivity | change (p_buffer_num (push_node p (push_mrph m L))) with (p_buffer_num L + 1); lia | cbn; lia | | | auto].
  - intros M j Hj. destruct (M1 M j Hj) as [H1 H2]. split; [change (0 <= j < p_buffer_num L + 1); change (0 <= j < p_buffer_num L) in H1; lia|].
    rewrite push_node_old by (change (p_buffer_num (push_mrph m L)) with (p_buffer_num L) in *; lia). exact H2.
  - intros M C _ _. apply push_node_cache; [now apply M1|]. now apply push_mrph_cache.
Qed.

Lemma suusi_kept : forall new js L L', suusi_loop ids pos new js L = Ret L' -> kept (zlen js) L L'.
Proof.
  intros new. induction js as [|i js IH]; intros L L' H; cbn [suusi_loop] in H; [injection H as <-; now apply kept_refl|].
  rewrite zlen_cons. pose proof (zlen_pos js) as Z0.
  destruct (if is_suusi ids (mrph_of_node L i) then _ else _) as [c|]; [|discriminate]. destruct (c =? 0).
  - apply IH in H. apply (kept_trans 1 (zlen js) L L) in H; [|now apply kept_refl]. now replace (zlen js + 1) with (1 + zlen js) by lia.
  - destruct (_ || _); [injection H as <-; apply kept_refl; lia|].
    destruct (push_scored _ _) as [L1|] eqn:E1; [|discriminate]. apply push_scored_ret in E1 as [-> _]. apply IH in H.
    replace (zlen js + 1) with (1 + zlen js) by lia. eapply kept_trans; [apply push_kept | exact H].
Qed.

Lemma connect_kept : forall n opt L L', check_connect ids pos n opt L = Ret L' -> kept 1 L L'.
Proof.
  intros n opt L L' H. destruct (check_connect_num ids pos n opt L L' H) as [N1 N2].
  assert (G : match_pbuf L' = match_pbuf L /\ (L' = L \/ exists p, forall j, 0 <= j < p_buffer_num L -> node L' j = node L j /\ p_buffer_num L' = p_buffer_num L + 1 /\ p = p_buffer_num L) /\
    p_buffer_num L <= p_buffer_num L' <= p_buffer_num L + 1 /\ forall at_, at_ <> short pos -> no_entry at_ L -> no_entry at_ L').
  { revert H. unfold check_connect. destruct (rensetu_at _) as [r|]; [|discriminate]. destruct (negb _); [discriminate|].
    assert (Old : forall p K, p_buffer_num K = p_buffer_num L -> p_buffer K = p_buffer L -> exists q, forall j, 0 <= j < p_buffer_num L ->
      node (push_node p K) j = node L j /\ p_buffer_num (push_node p K) = p_buffer_num L + 1 /\ q = p_buffer_num L).
    { intros p K K1 K2. exists (p_buffer_num L). intros j Hj. rewrite push_node_old by lia. unfold node, push_node. cbn [p_buffer_num]. rewrite K1, K2. auto. }
    destruct (_ && _); intros H.
    - apply push_scored_ret in H as [-> _]. split; [reflexivity|]. split; [right; now apply Old|]. split; [cbn; lia | auto].
    - destruct (best_connection _ _ _ _) as [[[best path]|]|]; [| |discriminate].
      + apply push_scored_ret in H as [-> _]. split; [reflexivity|]. split; [right; now apply Old|]. split; [cbn; lia|].
        intros at_ Ha HN c. unfold push_node, set_connect_cache. cbn [connect_cache]. unfold aset. destruct (c =? j_pos r); [cbn [cc_pos]; auto | apply HN].
      + injection H as <-. split; [reflexivity|]. split; [now left|]. split; [lia | auto]. }
  destruct G as (G1 & G2 & G3 & G4). assert (GN : forall j, 0 <= j < p_buffer_num L -> node L' j = node L j).
  { intros j Hj. destruct G2 as [->|[p G2]]; [reflexivity | apply (G2 j Hj)]. }
  split; auto; [lia | |].
  - intros M j Hj. rewrite G1 in Hj. destruct (M j Hj). split; [lia|]. rewrite GN, N1 by lia. assumption.
  - intros M C P Hk. destruct (check_connect_cached ids pos n opt L M C ltac:(lia)) as [_ K]. now apply K.
Qed.

(** ** One word and all of them *)
Lemma place_cached : forall opt m L, is_through ids m = false -> 0 <= m_buffer_num L -> match_ok L -> cache_ok ids pos L -> 0 < p_buffer_num L ->
  p_buffer_num L + (1 + zlen (match_pbuf L)) <= 65536 ->
  res_map forget_cache (place_mrph ids text String2Length pos opt m L) = res_map forget_cache (place_mrph_ref opt m L) /\
  forall L', place_mrph ids text String2Length pos opt m L = Ret L' -> kept (1 + zlen (match_pbuf L)) L L'.
Proof.
  intros opt m L HT HM M C P Hk. pose proof (zlen_pos (match_pbuf L)) as Z0. unfold place_mrph, place_mrph_ref. cbv zeta. set (m' := if _ && _ then set_j_weight _ m else m).
  assert (HT' : is_through ids m' = false) by (unfold m'; now destruct (_ && _)). clearbody m'.
  assert (SK : forall L', Ret L = Ret L' -> kept (1 + zlen (match_pbuf L)) L L') by (intros L' [= <-]; apply kept_refl; lia).
  destruct (j_weight m' =? _); [auto|]. destruct (_ && _); [auto|]. destruct (_ && _); [auto|]. clear SK.
  pose proof (store_kept m' L) as K0. set (n := m_buffer_num L).
  destruct (check_connect_cached ids pos n opt (store_mrph m' L) (kp_match _ _ _ K0 M) (kp_cache _ _ _ K0 M C P ltac:(lia))) as [E1 _];
    [change (p_buffer_num (store_mrph m' L)) with (p_buffer_num L); lia|].
  destruct (check_connect ids pos n opt (store_mrph m' L)) as [L1|] eqn:EC; destruct (check_connect_ref ids pos n opt (store_mrph m' L)) as [R1|]; try discriminate E1; [|split; [congruence | discriminate]].
  pose proof (connect_kept _ _ _ _ EC) as K1. pose proof (kept_trans _ _ _ _ _ K0 (kept_trans _ _ _ _ _ K1 (incr_kept L1))) as K2.
  cbn [res_map] in E1. assert (E3 : forget_cache L1 = forget_cache R1) by congruence.
  assert (ES : res_map forget_cache (suusi_word ids pos n (incr_mrph L1)) = res_map forget_cache (suusi_word ids pos n (incr_mrph R1))).
  { rewrite <- !forget_suusi. f_equal. change (forget_cache (incr_mrph L1)) with (incr_mrph (forget_cache L1)). now rewrite E3. }
  destruct (suusi_word ids pos n (incr_mrph L1)) as [L2|] eqn:EU; [|split; [exact ES | discriminate]].
  assert (KU : kept (zlen (match_pbuf L)) (incr_mrph L1) L2).
  { unfold suusi_word in EU. destruct (is_suusi _ _); [|injection EU as <-; now apply kept_refl]. apply suusi_kept in EU.
    now rewrite (kp_pbuf _ _ _ K2) in EU. }
  assert (NT : is_through ids (m_buffer L2 n) = false).
  { assert (B : m_buffer L2 n = m').
    { destruct (check_connect_num ids pos n opt _ _ EC) as [N1 N2]. destruct (suusi_grows ids pos n _ _ EU) as (_ & _ & G & _).
      rewrite G by (cbn; change (m_buffer_num (store_mrph m' L)) with n in N1; unfold n in *; lia).
      transitivity (m_buffer L1 n); [reflexivity|]. rewrite N2. apply aset_eq. }
    now rewrite B. }
  unfold through_word. rewrite NT. split; [exact ES|]. intros L' [= <-].
  pose proof (kept_trans _ _ _ _ _ K2 KU) as K3. now replace (0 + (1 + 0) + zlen (match_pbuf L)) with (1 + zlen (match_pbuf L)) in K3 by lia.
Qed.

(** C19: At one place the cache of [check_connect] is transparent for the words of the dictionary that are not brackets or blanks: whatever
    these words are, connecting them one after the other, joined with numerals, with the cache gives exactly the lattice (or the error) that the
    search gives without it, when no entry of the cache is for this place at the start and the nodes stay below the 65536 that
    a [short] can tell apart.  And the entries it leaves are for this place only, so that a later place starts without one.  For a
    bracket, which rewrites the predecessors of nodes, this does not hold: [through_breaks_cache] below. *)
Theorem place_words_cache : forall ws L, (forall opt m, In (opt, m) ws -> is_through ids m = false) ->
  match_ok L -> no_entry pos L -> 0 < p_buffer_num L -> 0 <= m_buffer_num L ->
  p_buffer_num L + zlen ws * (1 + zlen (match_pbuf L)) <= 65536 ->
  res_map forget_cache (place_words ws L) = res_map forget_cache (place_words_ref ws L) /\
  forall L', place_words ws L = Ret L' -> forall at_, at_ <> short pos -> no_entry at_ L -> no_entry at_ L'.
Proof.
  intros ws L HT M NE P HM Hk. assert (C : cache_ok ids pos L) by (intros rc r Hr e Hp Hn; now elim (NE (j_pos r))). clear NE.
  revert L HT M C P HM Hk. unfold place_words, place_words_ref. induction ws as [|[opt m] ws IH]; intros L HT M C P HM Hk; cbn [fold_res].
  { split; [reflexivity|]. now intros L' [= <-]. }
  rewrite zlen_cons in Hk. pose proof (zlen_pos ws) as Z1. pose proof (zlen_pos (match_pbuf L)) as Z0.
  destruct (place_cached opt m L (HT opt m (or_introl eq_refl)) HM M C P ltac:(nia)) as [E1 K].
  destruct (place_mrph ids text String2Length pos opt m L) as [L1|] eqn:EP; destruct (place_mrph_ref opt m L) as [R1|]; try discriminate E1; [|split; [congruence | discriminate]].
  specialize (K L1 eq_refl). destruct (IH L1) as [E2 N2]; [intros; apply (HT opt0 m0); now right | now apply (kp_match _ _ _ K) |
    apply (kp_cache _ _ _ K); auto; nia | destruct (kp_num _ _ _ K); lia | destruct K; lia | rewrite (kp_pbuf _ _ _ K); destruct (kp_num _ _ _ K); nia |].
  cbn [res_map] in E1. assert (E3 : forget_cache L1 = forget_cache R1) by congruence. split.
  - transitivity (res_map forget_cache (fold_res (fun '(opt, m) L => place_mrph_ref opt m L) ws L1)); [exact E2|].
    pose proof (forget_words ws L1) as F1. pose proof (forget_words ws R1) as F2. unfold place_words_ref in F1, F2. rewrite <- F1, <- F2. now rewrite E3.
  - intros L' H at_ Ha HN. apply (N2 L' H at_ Ha). now apply (kp_entry _ _ _ K).
Qed.
End Place.

(** ** Examples *)
Definition no_options : JumanEnv := {|
  UseGivenSegmentation_Opt := false; Onomatopoeia_Opt := false; Repetition_Opt := false; DicFile_number := 1;
  char_options := mkCO_ false false false false false; Unkword_Pat_Num := 0; regexec := fun _ _ => None;
  m_pattern_weight := fun _ => 10 |}.

Definition two_nouns : list (Z * MRPH) := [(0, word "にわ" 1 1); (0, word "わ" 1 1)].

(** The second noun takes its connection from the cache. *)
Lemma place_words_cache_witness :
  res_map forget_cache (place_words (T := example_tables) (E := no_options) example_ids "" (fun _ => 0) 0 two_nouns begin_lattice) =
  res_map forget_cache (place_words_ref (T := example_tables) (E := no_options) example_ids "" (fun _ => 0) 0 two_nouns begin_lattice) /\
  match place_words (T := example_tables) (E := no_options) example_ids "" (fun _ => 0) 0 two_nouns begin_lattice with
  | Ret L => map (fun i => pb_path (node L i)) [1; 2] = [[0]; [0]] /\ cc_p_no (connect_cache L 1) = 1
  | Err _ => False
  end.
Proof.
  split; [|vm_compute; split; reflexivity].
  refine (proj1 (place_words_cache (T := example_tables) (E := no_options) example_ids "" (fun _ => 0) 0 two_nouns begin_lattice _ _ _ _ _ _)).
  - intros opt m [[= <- <-]|[[= <- <-]|[]]]; reflexivity.
  - intros j [<-|[]]. vm_compute. split; [split; [discriminate | reflexivity] | reflexivity].
  - intros c Hc. vm_compute in Hc. discriminate Hc.
  - reflexivity.
  - vm_compute. discriminate.
  - vm_compute. discriminate.
Defined.

(** ** What the program finds *)

(** A bracket at the beginning, connected and then passed through, gets its predecessor twice; the noun that is connected next takes this from the cache,
    while the search would find the predecessor once. *)
Definition bracket : MRPH := mkM "」" "」" "」" "NIL" 1 5 0 0 10 0 3.

Definition after_bracket : res lattice :=
  L <- check_connect (T := example_tables) example_ids 0 1 0 (store_mrph bracket begin_lattice) ;;
  through_word (T := example_tables) example_ids 0 1 (incr_mrph L).

Lemma through_breaks_cache :
  let last r := match r with Ret L => Some (pb_path (node L (p_buffer_num L - 1))) | Err _ => None end in
  let noun L := store_mrph (word "わ" 1 0) L in
  last (L <- after_bracket ;; check_connect (T := example_tables) example_ids 0 2 0 (noun L)) = Some [0; 0] /\
  last (L <- after_bracket ;; check_connect_ref (T := example_tables) example_ids 0 2 0 (noun L)) = Some [0].
Proof. vm_compute. split; reflexivity. Qed.
