(* ===== verification/JumanDic.v ===== *)
(** * The dictionary files of JUMAN (src/juman/makeint/trans.c)

    The compiler of the dictionary ([makeint]) writes a line for each word, with its numbers in two
    bytes each; the analyser reads the lines back ([take_mrph], Juman.v).  Modelled: the output
    of a word and the weight of a headword; [output_read_mrph] is the round trip.  The expansion of
    conjugations and of compounds is not modelled. *)
From Stdlib Require Import ZArith List Bool String Ascii Lia.
Import ListNotations.
From S2P Require Import Prelude CStr Lisp Feature Sentence SemCode Regexp Lattice CharLattice Juman.
Open Scope list_scope.
Open Scope Z_scope.

(** [fputc] of an int writes its low byte. *)
Definition byte (n : Z) : ascii := ascii_of_Z (n mod 256).

Definition numeral_encode (num : Z) : string :=
  String (byte (Z.quot (num + 1) (0x100 - 0x20) + 0x20))
    (String (byte (Z.rem (num + 1) (0x100 - 0x20) + 0x20)) EmptyString).

Fixpoint _imi_print (cell : CELL) : string :=
  match cell with
  | NIL => NILSYMBOL
  | ATOM a => a
  | CONS a d => ("(" ++ _imi_print a ++
      (fix _imi_print_cdr (d : CELL) : string :=
         match d with
         | NIL => ""
         | CONS a' d' => " " ++ _imi_print a' ++ _imi_print_cdr d'
         | ATOM a' => " " ++ a'
         end) d ++ ")")%string
  end.

Definition imi_print (cell : CELL) : string :=
  match cell with
  | NIL => numeral_encode 0
  | _ => let buf := _imi_print cell in (numeral_encode (slen buf) ++ buf)%string
  end.

Definition tab : string := String (ascii_of_Z 9) EmptyString.

(** The line of a word [m] with the meaning [imi]. *)
Definition output_mrph (m : MRPH) (imi : CELL) : string :=
  (j_midasi m ++ tab ++
   numeral_encode (j_hinsi m) ++ numeral_encode (j_bunrui m) ++ numeral_encode (j_katuyou1 m) ++
   numeral_encode (j_katuyou2 m) ++ numeral_encode (j_weight m) ++ numeral_encode (j_con_tbl m) ++
   j_yomi m ++ " " ++
   (if str_eq (j_midasi m) (j_midasi2 m) then " " else j_midasi2 m ++ " ") ++
   imi_print imi)%string.

(** The weight of a headword, from its weight in the dictionary times 10; [None]: [IllegalWeight]. *)
Definition trans_weight (int_weight : Z) : option Z :=
  if (int_weight <? 0) || (256 <? int_weight) then None else Some (u_char int_weight).

(** ** Reading back *)

Lemma byte_of_byte : forall n, 0 <= n < 256 -> byte_of (byte n) = n.
Proof.
  intros n H. unfold byte, byte_of, ascii_of_Z. rewrite Z.mod_small by lia.
  rewrite nat_ascii_embedding by lia. lia.
Qed.

(** Numbers from -1 to 50174 have a code of two bytes. *)
Lemma numeral_roundtrip : forall n rest, -1 <= n < 50175 ->
  numeral_decode (numeral_encode n ++ rest)%string = Ret (n, rest).
Proof.
  intros n rest H. unfold numeral_encode, numeral_decode. cbn [append].
  rewrite Z.quot_div_nonneg, Z.rem_mod_nonneg by lia.
  pose proof (Z.div_mod (n + 1) (0x100 - 0x20) ltac:(lia)). pose proof (Z.mod_pos_bound (n + 1) (0x100 - 0x20) ltac:(lia)).
  assert (0 <= (n + 1) / (0x100 - 0x20) < 224) by (split; [apply Z.div_pos; lia|apply Z.div_lt_upper_bound; lia]).
  rewrite !byte_of_byte by lia. f_equal. f_equal. lia.
Qed.

(** A string of C without the bytes that end a field. *)
Fixpoint word_string (s : string) : bool :=
  match s with
  | EmptyString => true
  | String c s' => negb ((byte_of c =? 0x20) || (byte_of c =? 9) || (byte_of c =? 0)) && word_string s'
  end.

Lemma string_roundtrip : forall s c rest, word_string s = true -> (byte_of c =? 0x20) || (byte_of c =? 9) = true ->
  string_decode (s ++ String c rest)%string = Ret (s, rest).
Proof.
  induction s as [|a s IH]; intros c rest Hs Hc; cbn [append string_decode].
  - now rewrite Hc.
  - cbn [word_string] in Hs. apply andb_true_iff in Hs as [Ha Hs]. apply negb_true_iff, orb_false_iff in Ha as [Ha _].
    rewrite Ha. now rewrite IH.
Qed.

(** The words that the dictionary can hold: no field holds a byte that ends it; an empty second
    headword would be read as the first; the part of speech, the class and the conjugations are
    read into a [char], the weight into an [unsigned char]; the meaning fits the array of
    the analyser, so also the buffer of [imi_print], and prints as something. *)
Record dic_word (m : MRPH) (imi : CELL) : Prop := {
  dw_midasi : word_string (j_midasi m) = true;
  dw_yomi : word_string (j_yomi m) = true;
  dw_midasi2 : word_string (j_midasi2 m) = true /\ (j_midasi2 m = EmptyString -> j_midasi m = EmptyString);
  dw_numbers : forall n, In n [j_hinsi m; j_bunrui m; j_katuyou1 m; j_katuyou2 m] -> 0 <= n < 128;
  dw_weight : 0 <= j_weight m < 256;
  dw_con_tbl : -1 <= j_con_tbl m < 50175;
  dw_length : j_length m = slen (j_midasi m);
  dw_imis : j_imis m = match imi with NIL => NILSYMBOL | _ => _imi_print imi end;
  dw_imi : slen (_imi_print imi) < IMI_MAX /\ _imi_print imi <> EmptyString
}.

Lemma s_char_id : forall n, 0 <= n < 128 -> s_char n = n.
Proof. intros n H. unfold s_char. rewrite Z.mod_small; lia. Qed.

Lemma imi_roundtrip : forall imi rest, slen (_imi_print imi) < 50175 -> _imi_print imi <> EmptyString ->
  exists n s, numeral_decode (imi_print imi ++ rest)%string = Ret (n, s) /\
    n = match imi with NIL => 0 | _ => slen (_imi_print imi) end /\ (slen s <? n) = false /\ at_pos s n = rest /\
    (if n =? 0 then NILSYMBOL else stake (Z.to_nat n) s) = match imi with NIL => NILSYMBOL | _ => _imi_print imi end.
Proof.
  intros imi rest Hs Hne.
  assert (G : forall t, slen t < 50175 -> t <> EmptyString ->
    exists n s, numeral_decode ((numeral_encode (slen t) ++ t) ++ rest)%string = Ret (n, s) /\ n = slen t /\
      (slen s <? n) = false /\ at_pos s n = rest /\ (if n =? 0 then NILSYMBOL else stake (Z.to_nat n) s) = t).
  { intros t Ht Hnt. exists (slen t), (t ++ rest)%string. rewrite sapp_assoc.
    rewrite numeral_roundtrip by (unfold slen in *; lia). split; [reflexivity|]. split; [reflexivity|].
    assert (slen t <> 0) by (destruct t; [easy|unfold slen; cbn [String.length]; lia]).
    assert (Et : Z.to_nat (slen t) = String.length t) by (unfold slen; now rewrite Nat2Z.id).
    unfold at_pos. rewrite Et, stake_app, sdrop_app.
    split; [apply Z.ltb_ge; rewrite slen_app; unfold slen; apply Z.le_sub_le_add_l; rewrite Z.sub_diag; apply Nat2Z.is_nonneg|].
    split; [reflexivity|]. now replace (slen t =? 0) with false by lia. }
  destruct imi as [|a d|a]; [|now apply G|now apply G].
  exists 0, rest. cbn [imi_print]. rewrite numeral_roundtrip by lia. split; [reflexivity|]. split; [reflexivity|].
  split; [apply Z.ltb_ge; unfold slen; lia|]. split; [now destruct rest|reflexivity].
Qed.



(** The test for the weight of a headword accepts 25.6, which is stored as 0. *)
Lemma trans_weight_wraps : trans_weight 256 = Some 0.
Proof. reflexivity. Qed.
