(* ===== verification/Viterbi.v ===== *)
(** * The cheapest analysis (src/juman/lib/juman_lib.c)

    [check_connect] gives a node the score of its cheapest predecessor (Lattice.v); here is what that
    means for a sentence.  In a plain lattice (no joined numerals, no brackets or blanks that let a
    connection through, no compounds, whose scores follow other rules) the score of each node is the
    cost of the cheapest path from the beginning of the sentence to it, and the path that
    [get_best_path_num] reads has that cost. *)
From Stdlib Require Import ZArith List Bool String Ascii Lia.
Import ListNotations.
From S2P Require Import Prelude CStr Feature Sentence SemCode Regexp Lattice CharLattice Juman.
Open Scope list_scope.
Open Scope Z_scope.

(** ** Paths and their costs *)
Section Paths.
Context `{T : JumanTables} (ids : juman_ids).

(** Node [j] can come before node [k], at the cost [c]; [opts] are the options of the words. *)
Definition edge (opts : Z -> Z) (L : lattice) (j k c : Z) : Prop :=
  0 <= j < k /\ pb_end (node L j) = pb_start (node L k) /\ pb_connect (node L j) = true /\
  c_score ids L (j_con_tbl (mrph_of_node L k)) (opts k) j = Ret c /\ c <> 0.

Definition word_cost (L : lattice) (k : Z) : Z := class_score (mrph_of_node L k).

(** A path from the beginning of the sentence, the last node first, with its cost. *)
Inductive chain (opts : Z -> Z) (L : lattice) : list Z -> Z -> Prop :=
| chain_nil : chain opts L [] 0
| chain_cons : forall k ps s c, chain opts L ps s -> 1 <= k < p_buffer_num L -> edge opts L (hd 0 ps) k c ->
    chain opts L (k :: ps) (s + c * rensetsu cost_omomi + word_cost L k).

(** The score of a node is that of its cheapest predecessor, the first of its path. *)
Definition best_node (opts : Z -> Z) (L : lattice) (k : Z) : Prop :=
  exists best, pb_score (node L k) = best + word_cost L k /\
    (forall j c, edge opts L j k c -> best <= pb_score (node L j) + c * rensetsu cost_omomi) /\
    exists c, edge opts L (hd 0 (pb_path (node L k))) k c /\
      best = pb_score (node L (hd 0 (pb_path (node L k)))) + c * rensetsu cost_omomi.

Definition viterbi (opts : Z -> Z) (L : lattice) : Prop :=
  pb_score (node L 0) = 0 /\ forall k, 1 <= k < p_buffer_num L -> best_node opts L k.

(** No path is cheaper than the score of its last node. *)
Lemma viterbi_lower : forall opts L ps s, viterbi opts L -> chain opts L ps s -> pb_score (node L (hd 0 ps)) <= s.
Proof.
  intros opts L ps s [V0 V] H. induction H as [|k ps s c H IH Hk He]; cbn [hd]; [lia|].
  destruct (V k Hk) as [best [-> [Hmin _]]]. specialize (Hmin _ _ He). lia.
Qed.

(** The path of first predecessors has the cost of its last node. *)
Lemma viterbi_best : forall opts L e ps, viterbi opts L -> covers L e ps -> chain opts L ps (pb_score (node L (hd 0 ps))).
Proof.
  intros opts L e ps [V0 V] H. induction H as [k Hk _ _ Hh|k ps Hk _ H IH Hh]; cbn [hd].
  - destruct (V k Hk) as [best [-> [_ [c [He ->]]]]]. rewrite Hh in *. rewrite V0.
    apply (chain_cons opts L k [] 0 c); [constructor|exact Hk|exact He].
  - destruct (V k Hk) as [best [-> [_ [c [He ->]]]]]. rewrite Hh in *.
    now apply (chain_cons opts L k ps (pb_score (node L (hd 0 ps))) c).
Qed.

(** ** One more node *)

(** The nodes that were there keep their edges. *)
Lemma edge_old : forall opts opts' L L' j k c, 1 <= k < p_buffer_num L ->
  (forall i, 0 <= i < p_buffer_num L -> node L' i = node L i /\ mrph_of_node L' i = mrph_of_node L i) ->
  opts' k = opts k -> edge opts L j k c <-> edge opts' L' j k c.
Proof.
  intros opts opts' L L' j k c Hk Hs Ho. unfold edge.
  destruct (Hs k) as [-> ->]; [lia|]. rewrite Ho.
  split; intros [Hj H]; (split; [exact Hj|]); destruct (Hs j) as [E1 E2]; try lia;
    unfold c_score in *; rewrite E1, E2 in *; exact H.
Qed.

Lemma connect_loop_all : forall cost sc js chk b n st, connect_loop cost sc js (mkChk chk b n) = Ret st ->
  zlen chk + zlen js < MAX_PATHES_WK ->
  forall j, In j js -> exists c, cost j = Ret c /\ (c <> 0 -> is_int (sc j + c * rensetsu cost_omomi) = true).
Proof.
  induction js as [|i js IH]; intros chk b n st H Hl j Hj; [easy|]. cbn [connect_loop] in H. rewrite zlen_cons in Hl.
  destruct (cost i) as [c|e] eqn:E; [|discriminate].
  destruct (Z.eqb_spec c 0) as [->|Hc].
  - destruct Hj as [->|Hj]; [exists 0; split; [exact E|easy]|]. apply (IH _ _ _ _ H); [lia|exact Hj].
  - destruct (negb (is_int _)) eqn:Ei; [discriminate|]. apply negb_false_iff in Ei.
    destruct Hj as [->|Hj]; [exists c; auto|].
    set (st1 := if _ <? b then _ else _) in H.
    assert (Hs : exists b' n', st1 = mkChk (chk ++ [(i, sc i + c * rensetsu cost_omomi)]) b' n')
      by (unfold st1; destruct (_ <? b); do 2 eexists; reflexivity).
    destruct Hs as [b' [n' Hs]]. rewrite Hs in H. cbn [chk_connect] in H. clear Hs st1.
    assert (Hz : zlen (chk ++ [(i, sc i + c * rensetsu cost_omomi)]) = zlen chk + 1) by (rewrite zlen_app; reflexivity).
    rewrite Hz in H. pose proof (zlen_pos js).
    destruct (Z.leb_spec MAX_PATHES_WK (zlen chk + 1)); [lia|]. apply (IH _ _ _ _ H); [lia|exact Hj].
Qed.

(** The search looks at all the predecessors when they fit in its table. *)
Lemma best_connection_all : forall L rc opt best path, best_connection ids L rc opt = Ret (Some (best, path)) ->
  zlen (match_pbuf L) < MAX_PATHES_WK ->
  (forall j c, In j (match_pbuf L) -> c_score ids L rc opt j = Ret c -> c <> 0 ->
     best <= pb_score (node L j) + c * rensetsu cost_omomi) /\
  In (hd 0 path) (match_pbuf L) /\
  exists c, c_score ids L rc opt (hd 0 path) = Ret c /\ c <> 0 /\ best = pb_score (node L (hd 0 path)) + c * rensetsu cost_omomi.
Proof.
  intros L rc opt best path H Hl.
  set (f := fun j => match c_score ids L rc opt j with Ret c => c | Err _ => 0 end).
  assert (Hall : forall j, In j (match_pbuf L) -> c_score ids L rc opt j = Ret (f j) /\
            (f j <> 0 -> is_int (pb_score (node L j) + f j * rensetsu cost_omomi) = true)).
  { intros j Hj. unfold best_connection in H. destruct (connect_loop _ _ _ _) as [st|] eqn:E; [|discriminate].
    destruct (connect_loop_all _ _ _ _ _ _ _ E ltac:(cbn; exact Hl) j Hj) as [c [E1 E2]]. unfold f. rewrite E1. auto. }
  destruct (best_connection_spec ids L rc opt f) as [[E _]|[b [p [rest [E [_ [Hin [Hmin _]]]]]]]];
    [intros j Hj; now apply Hall|intros j Hj; now apply Hall|congruence|].
  rewrite E in H. inv H. cbn [hd].
  assert (Hlen : (List.length (scored_nodes f (fun j => pb_score (node L j)) (match_pbuf L)) <= max_wk)%nat).
  { unfold scored_nodes. rewrite length_map. pose proof (filter_length_le (fun j => negb (f j =? 0)) (match_pbuf L)).
    unfold max_wk, zlen in *. lia. }
  rewrite firstn_all2 in Hin, Hmin by exact Hlen. unfold scored_nodes in Hin, Hmin.
  rewrite Forall_forall in Hmin. split; [|].
  - intros j c Hj Ec Hc. specialize (Hmin (j, pb_score (node L j) + f j * rensetsu cost_omomi)). cbn [snd] in Hmin.
    destruct (Hall j Hj) as [E1 _]. rewrite Ec in E1. injection E1 as ->. apply Hmin, in_map_iff. exists j.
    split; [reflexivity|]. apply filter_In. split; [exact Hj|]. now apply negb_true_iff, Z.eqb_neq.
  - apply in_map_iff in Hin as [j [Ej Hj]]. injection Ej as -> <-. apply filter_In in Hj as [Hj Hc].
    apply negb_true_iff, Z.eqb_neq in Hc. split; [exact Hj|]. exists (f p).
    split; [now apply Hall|]. split; [exact Hc|reflexivity].
Qed.
End Paths.

(** ** A place of a plain sentence *)
Section Plain.
Context `{T : JumanTables} (ids : juman_ids).

(** No numeral or bracket, no compound, and room for all the predecessors. *)
Definition plain (L : lattice) : Prop :=
  p_buffer_num L < MAX_PATHES_WK /\
  (forall k, 1 <= k < m_buffer_num L ->
     0 < j_length (m_buffer L k) /\ is_suusi ids (m_buffer L k) = false /\ is_through ids (m_buffer L k) = false) /\
  (forall k, 0 <= k < p_buffer_num L -> pb_connect (node L k) = true).

(** While the words at [pos] are added: the predecessors are all the nodes that end there. *)
Record at_place (pos : Z) (L : lattice) : Prop := {
  ap_num : 0 < p_buffer_num L /\ 0 < m_buffer_num L;
  ap_mrph : forall k, 0 <= k < p_buffer_num L -> pb_mrph_p (node L k) < m_buffer_num L;
  ap_match : match_pbuf L = nodes_ending pos L;
  ap_cache : cache_ok ids pos L;
  ap_fresh : forall c, 0 < cc_p_no (connect_cache L c) -> cc_pos (connect_cache L c) <= pos;
  ap_viterbi : exists opts, viterbi ids opts L
}.

Lemma at_place_match : forall pos L, at_place pos L -> match_ok L.
Proof.
  intros pos L H j Hj. rewrite (ap_match _ _ H) in Hj. unfold nodes_ending in Hj. apply filter_In in Hj as [Hj _].
  apply in_zrange in Hj. split; [exact Hj|]. now apply (ap_mrph _ _ H).
Qed.

(** Writing past the morphemes in use changes nothing. *)
Lemma viterbi_same : forall opts L L', viterbi ids opts L -> 0 < p_buffer_num L -> p_buffer_num L' = p_buffer_num L ->
  (forall i, 0 <= i < p_buffer_num L -> node L' i = node L i /\ mrph_of_node L' i = mrph_of_node L i) ->
  viterbi ids opts L'.
Proof.
  intros opts L L' [V0 V] Hn Hp Hs. split; [destruct (Hs 0) as [-> _]; [lia|exact V0]|]. intros k Hk. rewrite Hp in Hk.
  destruct (V k Hk) as [best [B1 [B2 [c [B3 B4]]]]]. destruct (Hs k) as [Ek Em]; [lia|].
  exists best. unfold word_cost in *. rewrite Ek, Em. split; [exact B1|]. split.
  - intros j d Hd. apply (edge_old ids opts opts L L' j k d Hk Hs eq_refl) in Hd. pose proof Hd as [Hj _].
    destruct (Hs j) as [-> _]; [lia|]. now apply B2.
  - exists c. pose proof B3 as [Hj _]. split; [now apply (edge_old ids opts opts L L' _ k c Hk Hs eq_refl)|].
    destruct (Hs (hd 0 (pb_path (node L k)))) as [-> _]; [lia|exact B4].
Qed.

(** The node that [check_connect] adds after a search among all the nodes that end at [pos]. *)
Lemma viterbi_push : forall pos opts opt n best path L L',
  viterbi ids opts L -> 0 < p_buffer_num L < MAX_PATHES_WK -> match_pbuf L = nodes_ending pos L ->
  (forall k, 0 <= k < p_buffer_num L -> pb_mrph_p (node L k) < n) ->
  best_connection ids L (j_con_tbl (m_buffer L n)) opt = Ret (Some (best, path)) ->
  p_buffer_num L' = p_buffer_num L + 1 -> m_buffer L' = m_buffer L ->
  (forall k, 0 <= k < p_buffer_num L -> node L' k = node L k) ->
  node L' (p_buffer_num L) = lattice_node L pos n (best + class_score (m_buffer L n)) path ->
  viterbi ids (aset opts (p_buffer_num L) opt) L'.
Proof.
  intros pos opts opt n best path L L' [V0 V] Hnum Hm Hmr Hb Hp' Hmb Hs Hnew.
  assert (Hs' : forall i, 0 <= i < p_buffer_num L -> node L' i = node L i /\ mrph_of_node L' i = mrph_of_node L i).
  { intros i Hi. unfold mrph_of_node. rewrite Hs, Hmb by exact Hi. auto. }
  split; [rewrite Hs by lia; exact V0|]. intros k Hk. rewrite Hp' in Hk.
  destruct (Z.eq_dec k (p_buffer_num L)) as [->|Hne].
  - assert (Hl : zlen (match_pbuf L) < MAX_PATHES_WK).
    { rewrite Hm. unfold nodes_ending, zlen. pose proof (filter_length_le (ends_at pos L) (zrange 0 (p_buffer_num L))) as F.
      rewrite length_zrange in F. lia. }
    destruct (best_connection_all ids L _ opt best path Hb Hl) as [A1 [A2 [c [A3 [A4 A5]]]]].
    assert (Emr : mrph_of_node L' (p_buffer_num L) = m_buffer L n)
      by (unfold mrph_of_node; rewrite Hnew, Hmb; reflexivity).
    assert (Hin : forall j, In j (match_pbuf L) <-> 0 <= j < p_buffer_num L /\ pb_end (node L' j) = pos /\ pb_connect (node L' j) = true).
    { intros j. rewrite Hm. unfold nodes_ending. rewrite filter_In, in_zrange. unfold ends_at. split.
      - intros [Hj He]. rewrite Hs by exact Hj. apply andb_true_iff in He as [He Hc]. split; [exact Hj|]. split; [lia|exact Hc].
      - intros [Hj [He Hc]]. rewrite Hs in He, Hc by exact Hj. split; [exact Hj|].
        apply andb_true_iff. split; [now apply Z.eqb_eq|exact Hc]. }
    assert (Hcs : forall j c, In j (match_pbuf L) -> c_score ids L' (j_con_tbl (m_buffer L n)) opt j = Ret c <->
                    c_score ids L (j_con_tbl (m_buffer L n)) opt j = Ret c).
    { intros j d Hj. apply Hin in Hj as [Hj _]. unfold c_score. destruct (Hs' j Hj) as [_ ->]. reflexivity. }
    exists best. unfold word_cost. rewrite Emr, Hnew. cbn [pb_score pb_path]. split; [reflexivity|]. split.
    + intros j d [Hj [He [Hc [Hd Hd0]]]]. rewrite Emr, aset_eq in Hd. rewrite Hnew in He. cbn in He.
      assert (Hj' : In j (match_pbuf L)) by (apply Hin; auto). rewrite Hs by exact Hj.
      apply (A1 j d Hj'); [now apply Hcs|exact Hd0].
    + exists c. pose proof A2 as A2'. apply Hin in A2' as [Hj [He Hc]].
      split; [|now rewrite Hs]. unfold edge. rewrite Emr, aset_eq, Hnew. split; [exact Hj|]. split; [exact He|].
      split; [exact Hc|]. split; [now apply Hcs|exact A4].
  - assert (Hk' : 1 <= k < p_buffer_num L) by lia.
    destruct (V k Hk') as [b [B1 [B2 [c [B3 B4]]]]]. destruct (Hs' k) as [Ek Em]; [lia|].
    assert (Ho : aset opts (p_buffer_num L) opt k = opts k) by (apply aset_ne; lia).
    exists b. unfold word_cost in *. rewrite Ek, Em. split; [exact B1|]. split.
    + intros j d Hd. apply (edge_old ids opts _ L L' j k d Hk' Hs' Ho) in Hd. pose proof Hd as [Hj _].
      rewrite Hs by lia. now apply B2.
    + exists c. pose proof B3 as [Hj _]. split; [now apply (edge_old ids opts _ L L' _ k c Hk' Hs' Ho)|].
      rewrite Hs by lia. exact B4.
Qed.

(** What the call that adds a word does, with or without the cache. *)
Lemma check_connect_cases : forall pos n opt L L', match_ok L -> cache_ok ids pos L -> 0 < p_buffer_num L <= 65536 ->
  check_connect ids pos n opt L = Ret L' ->
  cache_ok ids pos L' /\
  (forall c, connect_cache L' c = connect_cache L c \/ cc_pos (connect_cache L' c) = short pos) /\
  m_buffer L' = m_buffer L /\ m_buffer_num L' = m_buffer_num L /\ match_pbuf L' = match_pbuf L /\
  (p_buffer L' = p_buffer L /\ p_buffer_num L' = p_buffer_num L \/
   exists best path, best_connection ids L (j_con_tbl (m_buffer L n)) opt = Ret (Some (best, path)) /\
     p_buffer_num L' = p_buffer_num L + 1 /\
     p_buffer L' = aset (p_buffer L) (p_buffer_num L) (lattice_node L pos n (best + class_score (m_buffer L n)) path)).
Proof.
  intros pos n opt L L' Hm Hc Hn H. unfold check_connect in H.
  destruct (rensetu_at (j_con_tbl (m_buffer L n))) as [r|] eqn:Hr; [|discriminate].
  destruct (negb (within 0 (j_pos r) CONNECT_MATRIX_MAX)); [discriminate|].
  destruct ((Show_Opt_debug =? 0) && _ && _ && _) eqn:Hit.
  - assert (Hh : cc_pos (connect_cache L (j_pos r)) = pos /\ 0 < cc_p_no (connect_cache L (j_pos r)) /\
                 cc_opt (connect_cache L (j_pos r)) = opt) by blia.
    destruct Hh as [Hp [Hpn Ho]]. destruct (Hc _ r Hr Hp Hpn) as [H1 H2]. rewrite Ho in H2.
    apply push_scored_ret in H as [-> _]. split; [now apply push_node_cache|]. split; [now left|]. do 3 (split; [reflexivity|]).
    right. do 2 eexists. split; [exact H2|]. split; reflexivity.
  - destruct (best_connection ids L (j_con_tbl (m_buffer L n)) opt) as [[[best path]|]|e] eqn:Hb; [| |discriminate].
    + apply push_scored_ret in H as [-> _].
      split; [now apply (new_entry_cache ids pos L (j_con_tbl (m_buffer L n)) r opt best path)|].
      split; [intros c; cbn; unfold aset; destruct (c =? j_pos r); [now right|now left]|]. do 3 (split; [reflexivity|]).
      right. do 2 eexists. split; [reflexivity|]. split; reflexivity.
    + inv H. split; [exact Hc|]. split; [now left|]. do 3 (split; [reflexivity|]). left. auto.
Qed.

(** *** The steps at a place *)

(** Old nodes and morphemes stay as they are. *)
Definition keeps (L L' : lattice) : Prop :=
  p_buffer_num L <= p_buffer_num L' /\ m_buffer_num L <= m_buffer_num L' /\
  (forall k, 0 <= k < m_buffer_num L -> m_buffer L' k = m_buffer L k) /\
  (forall k, 0 <= k < p_buffer_num L -> node L' k = node L k).

Lemma keeps_refl : forall L, keeps L L.
Proof. unfold keeps. intuition lia. Qed.

Lemma keeps_trans : forall L1 L2 L3, keeps L1 L2 -> keeps L2 L3 -> keeps L1 L3.
Proof.
  intros L1 L2 L3 [A1 [A2 [A3 A4]]] [B1 [B2 [B3 B4]]]. split; [lia|]. split; [lia|].
  split; intros k Hk; [rewrite B3 by lia; now apply A3|rewrite B4 by lia; now apply A4].
Qed.

Lemma plain_keeps : forall L L', keeps L L' -> plain L' -> plain L.
Proof.
  intros L L' [A1 [A2 [A3 A4]]] [P1 [P2 P3]]. split; [lia|]. split; intros k Hk.
  - rewrite <- A3 by lia. apply P2. lia.
  - rewrite <- A4 by lia. apply P3. lia.
Qed.

Definition plain_step (pos : Z) (L L' : lattice) : Prop :=
  m_buffer_num L <= m_buffer_num L' /\ p_buffer_num L <= p_buffer_num L' /\
  (0 <= p_buffer_num L -> plain L' -> keeps L L' /\ (at_place pos L -> at_place pos L')).

Lemma plain_step_trans : forall pos L1 L2 L3, plain_step pos L1 L2 -> plain_step pos L2 L3 -> plain_step pos L1 L3.
Proof.
  intros pos L1 L2 L3 [A1 [A2 A3]] [B1 [B2 B3]]. split; [lia|]. split; [lia|]. intros H0 P3.
  destruct B3 as [K2 S2]; [lia|exact P3|]. destruct (A3 H0 (plain_keeps _ _ K2 P3)) as [K1 S1]. split; [now apply (keeps_trans L1 L2)|auto].
Qed.

Lemma store_keeps : forall m L, keeps L (store_mrph m L).
Proof.
  intros m L. split; [cbn; lia|]. split; [cbn; lia|]. split; [|reflexivity]. intros k Hk. cbn. now rewrite aset_ne by lia.
Qed.

Lemma store_agree : forall m L, (forall k, 0 <= k < p_buffer_num L -> pb_mrph_p (node L k) < m_buffer_num L) ->
  forall i, 0 <= i < p_buffer_num L -> node (store_mrph m L) i = node L i /\ mrph_of_node (store_mrph m L) i = mrph_of_node L i.
Proof.
  intros m L H i Hi. split; [reflexivity|]. unfold mrph_of_node, store_mrph, set_m_buffer, node in *. cbn.
  specialize (H i Hi). now rewrite aset_ne by lia.
Qed.

Lemma store_cache : forall pos m L, match_ok L -> cache_ok ids pos L -> cache_ok ids pos (store_mrph m L).
Proof.
  intros pos m L Hm Hc rc r Hr e Hp Hn. destruct (Hc rc r Hr Hp Hn) as [H1 H2]. split; [exact H1|].
  change (node (store_mrph m L) (cc_p_no e)) with (node L (cc_p_no e)).
  rewrite <- (best_connection_ext ids L (store_mrph m L) rc rc r r (cc_opt e)); auto.
  intros j Hj. destruct (Hm j Hj) as [Hj1 Hj2]. unfold mrph_of_node, store_mrph, set_m_buffer, node in *. cbn.
  split; [reflexivity|]. now rewrite aset_ne by lia.
Qed.

Lemma store_place : forall pos m L, at_place pos L -> at_place pos (store_mrph m L).
Proof.
  intros pos m L H. pose proof (at_place_match _ _ H) as Hm. destruct H as [N M Ma C F [opts V]]. constructor; auto.
  - now apply store_cache.
  - exists opts. apply (viterbi_same opts L); auto; [lia|]. now apply store_agree.
Qed.

Lemma nodes_ending_keep : forall pos L L', (forall k, 0 <= k < p_buffer_num L -> node L' k = node L k) ->
  p_buffer_num L' = p_buffer_num L \/
  p_buffer_num L' = p_buffer_num L + 1 /\ pb_end (node L' (p_buffer_num L)) <> pos -> 0 <= p_buffer_num L ->
  nodes_ending pos L' = nodes_ending pos L.
Proof.
  intros pos L L' Hs Hn H0. unfold nodes_ending.
  assert (E : filter (ends_at pos L') (zrange 0 (p_buffer_num L)) = filter (ends_at pos L) (zrange 0 (p_buffer_num L))).
  { apply filter_ext_in. intros i Hi. apply in_zrange in Hi. unfold ends_at. now rewrite Hs. }
  destruct Hn as [->|[-> He]]; [exact E|]. rewrite zrange_snoc, filter_app by lia. rewrite Z.add_simpl_r, E.
  cbn [filter]. unfold ends_at at 2. replace (pb_end (node L' (p_buffer_num L)) =? pos) with false by lia. apply app_nil_r.
Qed.

Lemma check_connect_keeps : forall pos n opt L L', check_connect ids pos n opt L = Ret L' -> keeps L L'.
Proof.
  intros pos n opt L L' H. unfold check_connect in H. destruct (rensetu_at _) as [r|]; [|discriminate].
  destruct (negb (within 0 _ _)); [discriminate|].
  assert (G : forall p L0, keeps L0 (push_node p L0)).
  { intros p L0. split; [cbn; lia|]. split; [cbn; lia|]. split; [reflexivity|]. intros k Hk. apply push_node_old. lia. }
  destruct ((Show_Opt_debug =? 0) && _ && _ && _).
  - apply push_scored_ret in H as [-> _]. apply G.
  - destruct (best_connection ids L _ opt) as [[[best path]|]|e]; [| |discriminate].
    + apply push_scored_ret in H as [-> _]. exact (G _ L).
    + inv H. apply keeps_refl.
Qed.

Lemma add_plain : forall pos m opt L L1, 0 <= pos ->
  check_connect ids pos (m_buffer_num L) opt (store_mrph m L) = Ret L1 -> plain_step pos L (incr_mrph L1).
Proof.
  intros pos m opt L L1 Hpos H. pose proof (check_connect_keeps _ _ _ _ _ H) as K.
  assert (K' : keeps L (incr_mrph L1)).
  { destruct (keeps_trans _ _ _ (store_keeps m L) K) as [A1 [A2 [A3 A4]]]. split; [exact A1|]. split; [cbn; lia|auto]. }
  split; [apply K'|]. split; [apply K'|]. intros _ P. split; [exact K'|]. intros HL. pose proof (plain_keeps _ _ K' P) as [PL _].
  pose proof (store_place pos m L HL) as H0. pose proof (ap_num _ _ HL) as [N1 N2].
  apply check_connect_cases in H as [C1 [C2 [C3 [C4 [C5 C6]]]]];
    [|now apply (at_place_match pos)|apply (ap_cache _ _ H0)|unfold MAX_PATHES_WK in *; cbn; lia].
  assert (Hfresh : forall c, 0 < cc_p_no (connect_cache (incr_mrph L1) c) -> cc_pos (connect_cache (incr_mrph L1) c) <= pos).
  { intros c Hc. cbn in *. destruct (C2 c) as [E|E]; rewrite E in *; [now apply (ap_fresh _ _ HL)|].
    unfold short. pose proof (Z.mod_le (pos + 32768) 65536). lia. }
  set (L0 := store_mrph m L) in *. change (p_buffer_num L0) with (p_buffer_num L) in *. change (p_buffer L0) with (p_buffer L) in *.
  change (m_buffer_num L0) with (m_buffer_num L) in *.
  assert (Em : m_buffer L0 (m_buffer_num L) = m) by (cbn; now rewrite aset_eq).
  destruct K as [K1 [K2 [K3 K4]]]. change (p_buffer_num L0) with (p_buffer_num L) in *.
  destruct C6 as [[D1 D2]|[best [path [D1 [D2 D3]]]]].
  - constructor; auto.
    + cbn. lia.
    + intros k Hk. cbn in Hk. change (node (incr_mrph L1) k) with (node L1 k). rewrite K4 by lia.
      pose proof (ap_mrph _ _ HL k). change (node L0 k) with (node L k). cbn [m_buffer_num incr_mrph]. lia.
    + cbn. rewrite C5. cbn. rewrite (ap_match _ _ HL). symmetry.
      apply (nodes_ending_keep pos L (incr_mrph L1)); [intros k Hk; now apply K4|left; exact D2|lia].
    + destruct (ap_viterbi _ _ H0) as [opts V]. exists opts. apply (viterbi_same opts L0); [exact V|exact N1|exact D2|].
      intros i Hi. split; [now apply K4|]. unfold mrph_of_node. change (node (incr_mrph L1) i) with (node L1 i).
      rewrite K4 by exact Hi. cbn [m_buffer incr_mrph]. now rewrite C3.
  - assert (Hnew : node L1 (p_buffer_num L) = lattice_node L0 pos (m_buffer_num L) (best + class_score (m_buffer L0 (m_buffer_num L))) path).
    { unfold node. rewrite D3. apply aset_eq. }
    destruct P as [_ [P2 _]].
    assert (Hlen : 0 < j_length m).
    { destruct (P2 (m_buffer_num L)) as [P2' _]; [cbn; lia|]. cbn in P2'. rewrite C3, Em in P2'. exact P2'. }
    constructor; auto.
    + cbn. lia.
    + intros k Hk. cbn in Hk. change (node (incr_mrph L1) k) with (node L1 k). cbn [m_buffer_num incr_mrph].
      destruct (Z.eq_dec k (p_buffer_num L)) as [->|Hne]; [rewrite Hnew; cbn; lia|]. rewrite K4 by lia.
      pose proof (ap_mrph _ _ HL k). change (node L0 k) with (node L k). lia.
    + cbn. rewrite C5. cbn. rewrite (ap_match _ _ HL). symmetry.
      apply (nodes_ending_keep pos L (incr_mrph L1)); [intros k Hk; now apply K4| |lia].
      right. split; [exact D2|]. change (node (incr_mrph L1) (p_buffer_num L)) with (node L1 (p_buffer_num L)).
      rewrite Hnew. unfold lattice_node. cbn [pb_end]. rewrite Em. lia.
    + destruct (ap_viterbi _ _ H0) as [opts V]. exists (aset opts (p_buffer_num L) opt).
      apply (viterbi_push pos opts opt (m_buffer_num L) best path L0);
        [exact V|exact (conj N1 PL)|apply (ap_match _ _ H0)|apply (ap_mrph _ _ H0)|exact D1|exact D2|exact C3|exact K4|exact Hnew].
Qed.

Lemma rengo_next_keeps : forall `{E : JumanEnv} seglen opt con w cs pos L L',
  rengo_loop ids seglen false pos opt con w cs L = Ret L' -> keeps L L'.
Proof.
  intros E seglen opt con w. induction cs as [|c cs IH]; intros pos L L' H; cbn [rengo_loop] in H; [inv H; apply keeps_refl|].
  destruct (UseGivenSegmentation_Opt && _); [inv H; apply store_keeps|].
  destruct (rengo_next _ _ _ _ _ _) as [L1|] eqn:E1; [|discriminate]. cbn [res_map] in H.
  apply (keeps_trans _ (incr_mrph L1)); [|exact (IH _ _ _ H)]. clear H IH. unfold rengo_next in E1.
  destruct (check_matrix _ _); [|discriminate]. destruct (if _ && _ then _ else _) as [r|]; [|discriminate].
  apply push_scored_ret in E1 as [-> _].
  assert (G : forall p L0, keeps L L0 -> keeps L (incr_mrph (push_node p L0))).
  { intros p L0 [A1 [A2 [A3 A4]]]. split; [cbn; lia|]. split; [cbn; lia|]. split; [exact A3|].
    intros k Hk. rewrite <- A4 by exact Hk. exact (push_node_old p L0 k ltac:(lia)). }
  apply G. destruct r; [|apply store_keeps]. apply (keeps_trans _ (store_mrph c L)); apply store_keeps.
Qed.

(** A compound closes its first node, so a plain lattice has none. *)
Lemma rengo_plain : forall `{E : JumanEnv} seglen opt con w cs pos L L',
  rengo_loop ids seglen true pos opt con w cs L = Ret L' -> plain_step pos L L'.
Proof.
  intros E seglen opt con w cs pos L L' H.
  assert (St : forall m, plain_step pos L (store_mrph m L)).
  { intros m. split; [cbn; lia|]. split; [cbn; lia|]. intros _ _. split; [apply store_keeps|apply store_place]. }
  destruct cs as [|c cs]; cbn [rengo_loop] in H.
  { inv H. split; [lia|]. split; [lia|]. intros _ _. split; [apply keeps_refl|auto]. }
  destruct (UseGivenSegmentation_Opt && _); [inv H; apply St|].
  destruct (rengo_first _ _ _ _ _ _ _) as [[b L1]|] eqn:E1; [|discriminate]. unfold rengo_first in E1.
  destruct (if con =? -1 then _ else _) as [l|]; [|discriminate].
  set (c0 := if (l : bool) then set_j_con_tbl con c else c) in *.
  destruct (check_connect _ _ _ _ _) as [L2|] eqn:E2; [|discriminate].
  destruct (Z.eqb_spec (p_buffer_num L2) (p_buffer_num L)) as [En|En].
  - inv E1. inv H. apply check_connect_none in E2; [|exact En]. subst L'. apply St.
  - destruct (negb (is_int _)); [discriminate|]. inv E1. set (p := mkP _ _ _ _ _ _) in *.
    pose proof (rengo_next_keeps _ _ _ _ _ _ _ _ H) as [K1 [K2 [_ K4]]]. cbn in K1, K2.
    pose proof (check_connect_same _ _ _ _ _ _ E2) as [_ [A [_ [_ D]]]]. cbn in A, D.
    split; [lia|]. split; [lia|]. intros H0 [_ [_ P]]. exfalso. specialize (P (p_buffer_num L)).
    rewrite K4 in P by (cbn; lia). unfold node, set_p_buffer in P. cbn in P. rewrite aset_eq in P.
    discriminate P. lia.
Qed.

Lemma plain_rel : forall `{E : JumanEnv} seglen pos, 0 <= pos -> step_rel ids seglen pos (plain_step pos).
Proof.
  intros E seglen pos Hpos. constructor.
  - intros L. split; [lia|]. split; [lia|]. intros _ _. split; [apply keeps_refl|auto].
  - apply plain_step_trans.
  - intros L L' [H _]. exact H.
  - intros m opt L L1 H. now apply (add_plain pos m opt).
  - intros n L L' Hn H. pose proof (suusi_grows ids _ _ _ _ H) as [G1 [G2 [G3 _]]]. split; [exact G2|]. split; [exact G1|]. intros _ [_ [P _]].
    destruct (P n) as [_ [P1 _]]; [lia|]. rewrite G3 in P1 by lia. unfold suusi_word in H. rewrite P1 in H. inv H.
    split; [apply keeps_refl|auto].
  - intros n L L' Hn H. pose proof (through_grows ids _ _ _ _ H) as [G1 [G2 [G3 _]]]. split; [exact G2|]. split; [exact G1|]. intros _ [_ [P _]].
    destruct (P n) as [_ [_ P1]]; [lia|]. rewrite G3 in P1 by lia. unfold through_word in H. rewrite P1 in H. inv H.
    split; [apply keeps_refl|auto].
  - intros opt con w cs L L' H. now apply rengo_plain in H.
Qed.

(** *** Along the sentence *)

(** Between two places: the cache has nothing for [pos] yet. *)
Record before_place (pos : Z) (L : lattice) : Prop := {
  bp_num : 0 < p_buffer_num L /\ 0 < m_buffer_num L;
  bp_mrph : forall k, 0 <= k < p_buffer_num L -> pb_mrph_p (node L k) < m_buffer_num L;
  bp_fresh : forall c, 0 < cc_p_no (connect_cache L c) -> cc_pos (connect_cache L c) < pos;
  bp_viterbi : exists opts, viterbi ids opts L
}.

Lemma arrive : forall pos L, before_place pos L -> at_place pos (set_match_pbuf (nodes_ending pos L) L).
Proof.
  intros pos L [N M F [opts V]]. constructor; auto; [|intros c Hc; specialize (F c Hc); cbn in *; lia|now exists opts].
  intros rc r Hr e Hp Hn. specialize (F (j_pos r) Hn). unfold e in *. cbn in *. lia.
Qed.

Lemma leave : forall pos pos' L, at_place pos L -> pos < pos' -> before_place pos' L.
Proof. intros pos pos' L [N M _ _ F V] H. constructor; auto. intros c Hc. specialize (F c Hc). lia. Qed.

Section Sentence.
Context `{D : Darts} `{E : JumanEnv} (pids : prolong_ids) (text : string) (lat : list (list char_node)) (seglen : array Z).

(** Where the loop over the sentence ends. *)
Fixpoint last_pos (fuel : nat) (length pos : Z) : Z :=
  match fuel with
  | O => pos
  | S f => if length <=? pos then pos else last_pos f length (pos + utf8_bytes (at_pos text pos))
  end.

Lemma sentence_loop_pos : forall fuel length pos count p_start L pos' p_start' L',
  sentence_loop ids pids text lat seglen fuel length pos count p_start L = Ret (true, pos', p_start', L') ->
  pos' = last_pos fuel length pos.
Proof.
  induction fuel as [|fuel IH]; intros length pos count p_start L pos' p_start' L' H; cbn [sentence_loop last_pos] in *;
    destruct (length <=? pos); try discriminate; try (now inv H).
  destruct (pos_match_process pos p_start L) as [ps L0]. destruct (words_at _ _ _ _ _ _ _ _) as [[ok1 L1]|]; [|discriminate].
  destruct ok1; [|discriminate]. now apply IH in H.
Qed.

Lemma match_keeps : forall pos p_start L, keeps L (snd (pos_match_process pos p_start L)).
Proof.
  intros pos p_start L. unfold pos_match_process. destruct (for_up _ _ _ _) as [ps js].
  split; [cbn; lia|]. split; [cbn; lia|]. split; reflexivity.
Qed.

Lemma sentence_loop_plain : forall fuel length pos count p_start L pos' p_start' L',
  sentence_loop ids pids text lat seglen fuel length pos count p_start L = Ret (true, pos', p_start', L') ->
  0 < m_buffer_num L -> 0 < p_buffer_num L -> 0 <= pos -> plain L' ->
  keeps L L' /\
  (before_place pos L -> passed (pos - 1) p_start L -> before_place pos' L' /\ passed (pos' - 1) p_start' L').
Proof.
  induction fuel as [|fuel IH]; intros length pos count p_start L pos' p_start' L' H Hm Hp Hpos P;
    cbn [sentence_loop] in H; destruct (length <=? pos); try discriminate;
    try (inv H; split; [apply keeps_refl|auto]).
  pose proof (match_keeps pos p_start L) as K0.
  destruct (pos_match_process pos p_start L) as [ps L0] eqn:E0. cbn [snd] in K0.
  destruct (words_at _ _ _ _ _ _ _ _) as [[ok1 L1]|] eqn:E1; [|discriminate]. destruct ok1; [|discriminate].
  pose proof K0 as [A1 [A2 [A3 A4]]].
  apply (words_at_step ids pids text lat seglen pos _ (plain_rel seglen pos Hpos)) in E1 as [B1 [B2 B3]]; [|lia].
  pose proof (utf8_bytes_range (at_pos text pos)) as Hu.
  destruct (IH _ _ _ _ _ _ _ _ H) as [I2 I3]; auto; [lia|lia|lia|].
  destruct B3 as [K1 S1]; [lia|now apply (plain_keeps L1 L')|].
  split; [apply (keeps_trans L L0); [exact K0|now apply (keeps_trans L0 L1)]|].
  intros HB HP. destruct (pos_match_process_spec pos p_start L HP) as [ps0 [E2 Hp0]]. rewrite E2 in E0. inv E0.
  apply I3; [apply (leave pos); [|lia]; now apply S1, arrive|].
  destruct Hp0 as [Q1 Q2]. destruct K1 as [C1 [C2 [C3 C4]]]. cbn in C1. split; [lia|]. intros i Hi.
  rewrite C4 by (cbn; lia). destruct (Q2 i Hi); [left|right; assumption].
  change (node (set_match_pbuf (nodes_ending pos L) L)) with (node L). lia.
Qed.

(** A plain sentence; the last morpheme is its end. *)
Definition plain_sentence (L : lattice) : Prop :=
  p_buffer_num L < MAX_PATHES_WK /\
  (forall k, 1 <= k < m_buffer_num L - 1 ->
     0 < j_length (m_buffer L k) /\ is_suusi ids (m_buffer L k) = false /\ is_through ids (m_buffer L k) = false) /\
  (forall k, 0 <= k < p_buffer_num L -> pb_connect (node L k) = true).

Lemma end_keeps : forall length pos ps L L', end_sentence ids length pos ps L = Ret L' ->
  keeps L L' /\ m_buffer_num L' = m_buffer_num L + 1.
Proof.
  intros length pos ps L L' H. unfold end_sentence in H.
  set (m := mark _ _) in H. set (L2 := incr_mrph (store_mrph m L)) in H.
  pose proof (match_keeps pos ps L2) as K2. destruct (pos_match_process pos ps L2) as [ps3 L3] eqn:E3. cbn [snd] in K2.
  pose proof (check_connect_keeps _ _ _ _ _ H) as K3. pose proof (check_connect_same _ _ _ _ _ _ H) as [_ [A _]].
  assert (Em : m_buffer_num L3 = m_buffer_num L + 1).
  { unfold pos_match_process in E3. destruct (for_up _ _ _ _) in E3. now inv E3. }
  split; [|lia]. apply (keeps_trans L L2); [|now apply (keeps_trans L2 L3)].
  destruct (store_keeps m L) as [X1 [X2 X3]]. split; [exact X1|]. split; [cbn; lia|exact X3].
Qed.

Lemma end_plain : forall length ps L L', end_sentence ids length length ps L = Ret L' ->
  plain_sentence L' -> 0 < p_buffer_num L -> 
  plain L /\ (before_place length L -> passed (length - 1) ps L -> p_buffer_num L' <> p_buffer_num L ->
              exists opts, viterbi ids opts L').
Proof.
  intros length ps L L' H [P1 [P2 P3]] Hn. pose proof (end_keeps _ _ _ _ _ H) as [[X1 [X2 [X3 X4]]] Em].
  unfold end_sentence in H. set (m := mark _ _) in H. set (L2 := incr_mrph (store_mrph m L)) in H.
  destruct (pos_match_process length ps L2) as [ps3 L3] eqn:E3.
  pose proof (check_connect_keeps _ _ _ _ _ H) as K3. pose proof (check_connect_same _ _ _ _ _ _ H) as [_ [_ [_ [_ D']]]].
  split.
  - split; [lia|]. split; intros k Hk.
    + rewrite <- X3 by lia. apply P2. lia.
    + rewrite <- X4 by lia. apply P3. lia.
  - intros HB HP Hne.
    assert (HP2 : passed (length - 1) ps L2) by exact HP.
    destruct (pos_match_process_spec length ps L2 HP2) as [ps0 [E2 _]]. rewrite E2 in E3. inv E3.
    pose proof (bp_mrph _ _ HB) as Hmr. pose proof (bp_num _ _ HB) as [_ Nm].
    assert (HB2 : before_place length L2).
    { destruct HB as [N M F [opts V]]. constructor; [cbn; lia| |exact F|].
      - intros k Hk. specialize (M k Hk). change (node L2 k) with (node L k). cbn. lia.
      - exists opts. apply (viterbi_same opts L); auto. exact (store_agree m L M). }
    apply arrive in HB2. set (L3 := set_match_pbuf (nodes_ending length L2) L2) in *.
    apply check_connect_cases in H as [_ [_ [C3 [_ [_ C6]]]]];
      [|now apply (at_place_match length)|apply (ap_cache _ _ HB2)|unfold MAX_PATHES_WK in *; cbn; cbn in X1; lia].
    destruct C6 as [[_ D2]|[best [path [D1 [D2 D3]]]]]; [cbn in D2; lia|].
    destruct (ap_viterbi _ _ HB2) as [opts V]. exists (aset opts (p_buffer_num L3) 0).
    apply (viterbi_push length opts 0 (m_buffer_num L) best path L3);
      [exact V|cbn in *; lia|reflexivity|exact Hmr|exact D1|exact D2|exact C3|apply K3|].
    unfold node. rewrite D3. apply aset_eq.
Qed.
End Sentence.
End Plain.
