(* ===== verification/JumanSent.v ===== *)
(** * The analysis of a sentence by JUMAN (src/juman/lib/juman_lib.c)

    What [juman_sent] (Juman.v) finds: its best path covers the sentence, and for a plain
    dictionary it is the cheapest analysis. *)
From Stdlib Require Import ZArith List Bool String Ascii Lia.
Import ListNotations.
From S2P Require Import Prelude CStr Lisp Feature Sentence SemCode Regexp Lattice CharLattice Juman JumanDic Viterbi.
Open Scope list_scope.
Open Scope Z_scope.

(** The text that is analysed: the given segments, or the input. *)
Definition sentence_text `{E : JumanEnv} (text : string) : string :=
  if UseGivenSegmentation_Opt then fst (given_segments text) else text.

(** An analysis that names the end of the sentence as its last morpheme is complete. *)
Definition complete (L : lattice) : bool :=
  pb_mrph_p (node L (p_buffer_num L - 1)) =? m_buffer_num L - 1.

Section Sentences.
Context `{T : JumanTables} `{D : Darts} `{E : JumanEnv} (ids : juman_ids) (pids : prolong_ids).

(** [juman_sent] analyses its text with the lattice of its characters. *)
Lemma juman_sent_analyze : forall text L L', juman_sent ids pids text L = Ret (true, L') ->
  exists lat seglen, analyze ids pids (sentence_text text) lat seglen L = Ret (true, L').
Proof.
  intros text L L' H. unfold juman_sent in H. unfold sentence_text.
  destruct UseGivenSegmentation_Opt; [destruct (given_segments text) as [t seglen]; cbn [fst]|];
    (destruct (slen (cstr _) =? 0); [discriminate|]); (destruct (make_char_lattice _ _) as [lat|]; [|discriminate]);
    eauto.
Qed.

(** The last character of the text is complete. *)
Definition text_complete (text : string) : bool :=
  last_pos text (String.length text) (slen (cstr text)) 0 =? slen (cstr text).

Lemma analyze_viterbi : forall text lat seglen L L', analyze ids pids text lat seglen L = Ret (true, L') ->
  ids_ok ids -> 0 <= cost_haba cost_omomi -> slen (cstr text) <= 65536 ->
  text_complete text = true -> complete L' = true -> plain_sentence ids L' -> exists opts, viterbi ids opts L'.
Proof.
  intros text lat seglen L L' H Hids Hh Hlen Ht Hc HP. unfold analyze in H. unfold text_complete in Ht.
  apply Z.eqb_eq in Ht, Hc. set (length := slen (cstr text)) in *. destruct (length =? 0); [discriminate|].
  destruct (sentence_loop _ _ _ _ _ _ _ _ _ _ _) as [[[[ok pos] ps] L1]|] eqn:E1; [|discriminate]. destruct ok; [|discriminate].
  destruct (end_sentence _ _ _ _ _) as [L2|] eqn:E2; [|discriminate]. inv H.
  apply sentence_loop_pos in E1 as Ep. rewrite Ht in Ep. subst pos.
  assert (N1 : 0 < p_buffer_num L1).
  { destruct (sentence_loop_ok ids Hids Hh _ _ _ _ _ _ _ _ _ _ _ _ _ _ E1) as [[N _] _]; [cbn; lia|lia|lia|]. cbn in N. lia. }
  destruct (end_plain ids length ps L1 L' E2 HP N1) as [P1 S1].
  destruct (sentence_loop_plain ids pids text lat seglen _ _ _ _ _ _ _ _ _ E1) as [K1 B1]; [cbn; lia|cbn; lia|lia|exact P1|].
  assert (HB : before_place ids 0 (begin_sentence L)).
  { constructor; [cbn; lia|intros k Hk; cbn in *; replace k with 0 by lia; cbn; lia|intros c Hp; cbn in Hp; lia|].
    exists (fun _ => 0). split; [reflexivity|]. intros k Hk. cbn in Hk. lia. }
  destruct (B1 HB) as [B2 HP2]; [apply begin_ok|]. apply (S1 B2 HP2). intros En.
  pose proof (end_keeps ids _ _ _ _ _ E2) as [[_ [_ [_ K4]]] Em].
  pose proof (bp_mrph _ _ _ B2 (p_buffer_num L1 - 1)). rewrite En, K4, Em in Hc by lia. lia.
Qed.

(** C7: when the end of the sentence is connected, the best path exists, and its morphemes cover the
    sentence from its beginning to its end, without gap or overlap. *)
Theorem juman_sent_covers : forall text L L', ids_ok ids -> 0 <= cost_haba cost_omomi ->
  juman_sent ids pids text L = Ret (true, L') -> complete L' = true ->
  slen (cstr (sentence_text text)) <= 65536 -> p_buffer_num L' < 65536 ->
  (forall k, 1 <= k < m_buffer_num L' - 1 -> 0 < j_length (m_buffer L' k)) ->
  exists ps e, get_best_path_num L' = Ret ps /\ covers L' e ps /\
    slen (cstr (sentence_text text)) <= e < slen (cstr (sentence_text text)) + 6.
Proof.
  intros text L L' Hids Hh H Hc Hlen Hnum Hpos. apply juman_sent_analyze in H as [lat [seglen H]].
  unfold complete in Hc.
  destruct (analyze_covers ids Hids Hh pids (sentence_text text) lat seglen L L' H) as [ps [e [P1 [P2 [P3 _]]]]]; auto; [lia|].
  now exists ps, e.
Qed.

(** C5: in a plain sentence the best path is a cheapest one: the options of its words give the paths
    through the nodes found their costs, the best path has the cost of the last node, and no path to
    the end of the sentence costs less. *)
Theorem juman_sent_optimal : forall text L L', ids_ok ids -> 0 <= cost_haba cost_omomi ->
  juman_sent ids pids text L = Ret (true, L') -> complete L' = true -> plain_sentence ids L' ->
  slen (cstr (sentence_text text)) <= 65536 -> text_complete (sentence_text text) = true ->
  let last := p_buffer_num L' - 1 in
  exists opts ps, get_best_path_num L' = Ret ps /\
    chain ids opts L' (last :: ps) (pb_score (node L' last)) /\
    forall ps' s, chain ids opts L' (last :: ps') s -> pb_score (node L' last) <= s.
Proof.
  intros text L L' Hids Hh H Hc HP Hlen Ht last. apply juman_sent_analyze in H as [lat [seglen H]].
  destruct (analyze_viterbi _ _ _ _ _ H Hids Hh Hlen Ht Hc HP) as [opts V]. destruct HP as [P1 [P2 P3]].
  destruct (analyze_covers ids Hids Hh pids (sentence_text text) lat seglen L L' H) as [ps [e [Q1 [Q2 [Q3 Q4]]]]];
    [exact Hlen|unfold MAX_PATHES_WK in *; lia|intros k Hk; now apply P2|unfold complete in Hc; lia|].
  exists opts, ps. split; [exact Q1|]. split.
  - destruct V as [V0 V]. assert (Hl : 1 <= last < p_buffer_num L').
    { unfold last. destruct Q2; lia. }
    destruct (V last Hl) as [best [E1 [_ [c [E2 E3]]]]]. fold last in Q4. rewrite <- Q4 in E2, E3. rewrite E1, E3.
    apply chain_cons; auto. apply (viterbi_best ids opts L' e); [split; assumption|exact Q2].
  - intros ps' s Hs. exact (viterbi_lower ids opts L' (last :: ps') s V Hs).
Qed.
End Sentences.

(** The words of the dictionary that begin a string. *)
Definition example_words : list MRPH := [word "に" 2 2; word "わ" 1 1; word "にわ" 1 1; word "と" 2 2].

Definition example_darts : Darts := {|
  commonPrefixSearch := fun _ s => map fst (filter (fun '(_, w) => starts_with (j_midasi w) s) (combine (zrange 0 4) example_words));
  traverse := fun _ _ p => (-2, p);
  db_entries := fun _ i => match nth_error example_words (Z.to_nat i) with Some w => [output_mrph w NIL] | None => [] end |}.

Definition example_env : JumanEnv := {|
  UseGivenSegmentation_Opt := false; Onomatopoeia_Opt := false; Repetition_Opt := true; DicFile_number := 1;
  char_options := mkCO_ false false false false false; Unkword_Pat_Num := 0; regexec := fun _ _ => None;
  m_pattern_weight := fun _ => 10 |}.

Definition example_pids : prolong_ids := mkPr 12 4 2 6 13 9 1 2 3 8 0 3.

Abbreviation example_run text :=
  (juman_sent (T := example_tables) (D := example_darts) (E := example_env) example_ids example_pids text empty_lattice).

(** What the hypotheses of the theorems ask of a result, as tests. *)
Definition good_test (L : lattice) : bool :=
  (p_buffer_num L <? 65536) && forallb (fun k => 0 <? j_length (m_buffer L k)) (zrange 1 (m_buffer_num L - 1)).

Definition plain_test (L : lattice) : bool :=
  (p_buffer_num L <? MAX_PATHES_WK) &&
  forallb (fun k => let m := m_buffer L k in
    (0 <? j_length m) && negb (is_suusi example_ids m) && negb (is_through example_ids m)) (zrange 1 (m_buffer_num L - 1)) &&
  forallb (fun k => pb_connect (node L k)) (zrange 0 (p_buffer_num L)).

Definition run_facts (r : res (bool * lattice)) : res (bool * bool * bool * bool) :=
  res_map (fun '(ok, L) => (ok, complete L, good_test L, plain_test L)) r.

Lemma good_test_ok : forall L, good_test L = true ->
  p_buffer_num L < 65536 /\ forall k, 1 <= k < m_buffer_num L - 1 -> 0 < j_length (m_buffer L k).
Proof.
  intros L H. apply andb_true_iff in H as [H1 H2]. split; [lia|]. intros k Hk. rewrite forallb_forall in H2.
  specialize (H2 k). rewrite in_zrange in H2. specialize (H2 Hk). lia.
Qed.

Lemma plain_test_ok : forall L, plain_test L = true -> plain_sentence example_ids L.
Proof.
  intros L H. apply andb_true_iff in H as [H H3]. apply andb_true_iff in H as [H1 H2]. rewrite forallb_forall in H2, H3.
  split; [lia|]. split; intros k Hk; [specialize (H2 k)|specialize (H3 k)]; rewrite in_zrange in *.
  - specialize (H2 Hk). cbv zeta in H2. apply andb_true_iff in H2 as [H2 H4]. apply andb_true_iff in H2 as [H2 H5].
    apply negb_true_iff in H4, H5. split; [lia|auto].
  - now apply H3.
Qed.

Lemma example_length : slen (cstr (sentence_text (E := example_env) "にわに")) = 9.
Proof. vm_compute. reflexivity. Qed.

Lemma juman_sent_covers_witness : exists L', example_run "にわに" = Ret (true, L') /\
  exists ps e, get_best_path_num L' = Ret ps /\ covers L' e ps /\ 9 <= e < 9 + 6.
Proof.
  assert (F : run_facts (example_run "にわに") = Ret (true, true, true, true)) by (vm_compute; reflexivity).
  destruct (example_run "にわに") as [[ok L']|] eqn:E; [|discriminate]. cbn [run_facts res_map] in F.
  injection F as -> Hc Hg Hp. exists L'. split; [reflexivity|]. destruct (good_test_ok L' Hg) as [Hn Hl].
  rewrite <- example_length.
  refine (juman_sent_covers (T := example_tables) (D := example_darts) (E := example_env) example_ids example_pids
           "にわに" empty_lattice L' _ _ E Hc _ Hn Hl).
  - split; [|split]; discriminate.
  - discriminate.
  - rewrite example_length. discriminate.
Defined.

Lemma juman_sent_optimal_witness : exists L', example_run "にわに" = Ret (true, L') /\
  exists opts ps, get_best_path_num L' = Ret ps /\
    chain (T := example_tables) example_ids opts L' (p_buffer_num L' - 1 :: ps) (pb_score (node L' (p_buffer_num L' - 1))) /\
    forall ps' s, chain (T := example_tables) example_ids opts L' (p_buffer_num L' - 1 :: ps') s ->
      pb_score (node L' (p_buffer_num L' - 1)) <= s.
Proof.
  assert (F : run_facts (example_run "にわに") = Ret (true, true, true, true)) by (vm_compute; reflexivity).
  destruct (example_run "にわに") as [[ok L']|] eqn:E; [|discriminate]. cbn [run_facts res_map] in F.
  injection F as -> Hc Hg Hp. exists L'. split; [reflexivity|]. apply plain_test_ok in Hp.
  refine (juman_sent_optimal (T := example_tables) (D := example_darts) (E := example_env) example_ids example_pids
           "にわに" empty_lattice L' _ _ E Hc Hp _ _).
  - split; [|split]; discriminate.
  - discriminate.
  - rewrite example_length. discriminate.
  - vm_compute. reflexivity.
Defined.

(** The best path of the example: にわ, に. *)
Example example_best_path : (match example_run "にわに" with Ret (_, L) =>
  res_map (map (fun k => j_midasi (mrph_of_node L k))) (get_best_path_num L) | Err e => Err e end) = Ret ["に"; "にわ"]%string.
Proof. vm_compute. reflexivity. Qed.

(** A character of four bytes has no kind (code 0), and neither has the end of the sentence: at the end
    the unknown word runs past it, nothing reaches the end of the sentence, and reading the best path
    leaves [p_buffer]. *)
Lemma wide_character_at_end : match example_run "😀" with
  | Ret (ok, L) => ok = true /\ pb_end (node L 1) = 128 /\ complete L = false /\ get_best_path_num L = Err OutOfBounds
  | Err _ => False
  end.
Proof. vm_compute. repeat split; reflexivity. Qed.
