(* ===== verification/JumanTerm.v ===== *)
(** * Termination of the analysis (src/juman/lib/juman_lib.c)

    The loops of JUMAN end: each word taken from the buffer shortens it, an unknown word has at most
    [MIDASI_MAX] bytes, and each place is after the one before it.  So the fuel of the definitions
    (Juman.v, CharLattice.v) is never used up, whatever the text, the dictionary and the grammar
    are. *)
From Stdlib Require Import ZArith List Bool String Ascii Lia.
Import ListNotations.
From S2P Require Import Prelude CStr Feature Sentence SemCode Regexp Lattice CharLattice Juman.
Open Scope list_scope.
Open Scope Z_scope.

(** The fuel was enough. *)
Definition fueled {A} (r : res A) : Prop := r <> Err OutOfFuel.

Create HintDb fuel discriminated.

Lemma fueled_ret : forall {A} (a : A), fueled (Ret a).
Proof. discriminate. Qed.

Lemma fueled_err : forall {A} (e : err), e <> OutOfFuel -> fueled (@Err A e).
Proof. congruence. Qed.

Lemma fueled_cast : forall {A B} (e : err), fueled (@Err A e) -> fueled (@Err B e).
Proof. congruence. Qed.

Lemma fueled_bind : forall {A B} (r : res A) (k : A -> res B), fueled r -> (forall a, r = Ret a -> fueled (k a)) ->
  fueled (match r with Ret a => k a | Err e => Err e end).
Proof. intros A B [a|e] k H K; [now apply K|congruence]. Qed.

Lemma fueled_map : forall {A B} (f : A -> B) r, fueled r -> fueled (res_map f r).
Proof. intros A B f [a|e] H; [discriminate|cbn; congruence]. Qed.

Lemma fueled_fold : forall {A S} (body : A -> S -> res S) l s, (forall a s, fueled (body a s)) -> fueled (fold_res body l s).
Proof.
  intros A S body l. induction l as [|a l IH]; intros s H; cbn [fold_res]; [discriminate|].
  pose proof (H a s). destruct (body a s); [now apply IH|congruence].
Qed.

#[export] Hint Resolve fueled_ret fueled_map : fuel.

(** Splits binds and cases; leaves the calls that the hints do not know. *)
Ltac fuel_step :=
  match goal with
  | |- fueled (Ret _) => apply fueled_ret
  | |- fueled (Err _) => apply fueled_err; discriminate
  | |- fueled (match ?r with Ret _ => _ | Err _ => _ end) => apply fueled_bind; [|intros ? ?]
  | |- fueled (let '(_, _) := ?p in _) => destruct p
  | |- fueled (if ?b then _ else _) => destruct b
  | |- fueled (match ?x with _ => _ end) => destruct x
  | |- fueled (let x := _ in _) => cbv zeta
  | |- fueled _ => solve [auto with fuel]
  end.
Ltac fuel := cbv beta zeta; repeat fuel_step.

Section Lattices.
Context `{T : JumanTables} (ids : juman_ids).

Lemma fueled_rensetu : forall i, fueled (rensetu_at i).
Proof. intros. unfold rensetu_at. fuel. Qed.
#[local] Hint Resolve fueled_rensetu : fuel.

Lemma fueled_matrix : forall a b, fueled (check_matrix a b).
Proof. intros. unfold check_matrix. fuel. Qed.

Lemma fueled_left : forall a, fueled (check_matrix_left a).
Proof. intros. unfold check_matrix_left. fuel. Qed.

Lemma fueled_right : forall a, fueled (check_matrix_right a).
Proof. intros. unfold check_matrix_right. fuel. Qed.

Lemma fueled_push : forall p L, fueled (push_scored p L).
Proof. intros. unfold push_scored. fuel. Qed.
#[local] Hint Resolve fueled_matrix fueled_left fueled_right fueled_push : fuel.

Lemma fueled_connect_loop : forall cost sc js st, (forall j, fueled (cost j)) -> fueled (connect_loop cost sc js st).
Proof.
  intros cost sc js st H. revert st. induction js as [|j js IH]; intros st; cbn [connect_loop]; [discriminate|].
  apply fueled_bind; [apply H|]. intros c _. destruct (c =? 0); [apply IH|]. destruct st as [chk best num].
  destruct (negb _); [discriminate|]. destruct (MAX_PATHES_WK <=? _); [discriminate|apply IH].
Qed.

Lemma fueled_connect : forall pos n opt L, fueled (check_connect ids pos n opt L).
Proof.
  intros. unfold check_connect, best_connection. fuel. apply fueled_connect_loop. intros j. unfold c_score. fuel.
Qed.
#[local] Hint Resolve fueled_connect : fuel.

Lemma fueled_suusi : forall pos n L, fueled (suusi_word ids pos n L).
Proof.
  intros. unfold suusi_word. destruct (is_suusi ids _); [|discriminate]. generalize (match_pbuf L) as js.
  generalize (m_buffer L n) as new. intros new js. revert L.
  induction js as [|i js IH]; intros L; cbn [suusi_loop]; [discriminate|]. fuel; apply IH.
Qed.

Lemma fueled_through : forall pos n L, fueled (through_word ids pos n L).
Proof.
  intros. unfold through_word. destruct (is_through ids _); [|discriminate]. apply fueled_fold. intros i L0.
  unfold through_one, through_again. fuel.
Qed.
End Lattices.
#[export] Hint Resolve fueled_matrix fueled_left fueled_right fueled_push fueled_connect fueled_suusi fueled_through : fuel.

(** ** Decoding *)

Lemma string_decode_rest : forall s out rest, string_decode s = Ret (out, rest) -> (String.length rest < String.length s)%nat.
Proof.
  induction s as [|c s IH]; intros out rest H; cbn [string_decode] in H; [discriminate|].
  destruct (_ || _); [inv H; cbn; lia|]. destruct (string_decode s) as [[o r]|]; [|discriminate]. inv H.
  specialize (IH _ _ eq_refl). cbn. lia.
Qed.

Lemma fueled_string : forall s, fueled (string_decode s).
Proof. induction s as [|c s IH]; cbn [string_decode]; fuel. Qed.

Lemma numeral_decode_rest : forall s n rest, numeral_decode s = Ret (n, rest) -> (String.length rest < String.length s)%nat.
Proof. intros [|a [|b s]] n rest H; inv H. cbn. lia. Qed.

Lemma fueled_numeral : forall s, fueled (numeral_decode s).
Proof. intros. unfold numeral_decode. fuel. Qed.

Lemma at_pos_length : forall s n, (String.length (at_pos s n) <= String.length s)%nat.
Proof.
  intros s n. unfold at_pos. generalize (Z.to_nat n) as k. intros k. revert s.
  induction k as [|k IH]; intros [|c s]; cbn; try lia. specialize (IH s). lia.
Qed.
#[export] Hint Resolve fueled_string fueled_numeral : fuel.

(** Decodings with a shorter rest. *)
Definition shortens {A} (s : string) (r : res (A * string)) : Prop :=
  fueled r /\ forall a rest, r = Ret (a, rest) -> (String.length rest < String.length s)%nat.

Lemma read_mrph_shortens : forall s, shortens s (take_mrph s).
Proof.
  intros s. split; [unfold take_mrph; fuel|]. intros [m n] rest H. unfold take_mrph in H.
  destruct (string_decode s) as [[v1 s1]|] eqn:E1; [|discriminate]. apply string_decode_rest in E1.
  assert (N : forall s0 (k : Z -> string -> res (MRPH * Z * string)),
    (forall v s', k v s' = Ret (m, n, rest) -> (String.length rest <= String.length s')%nat) ->
    match numeral_decode s0 with Ret (v, s') => k v s' | Err e => Err e end = Ret (m, n, rest) ->
    (String.length rest <= String.length s0)%nat).
  { intros s0 k Hk H0. destruct (numeral_decode s0) as [[v s']|] eqn:E; [|discriminate].
    apply numeral_decode_rest in E. apply Hk in H0. lia. }
  assert (S : forall s0 (k : string -> string -> res (MRPH * Z * string)),
    (forall v s', k v s' = Ret (m, n, rest) -> (String.length rest <= String.length s')%nat) ->
    match string_decode s0 with Ret (v, s') => k v s' | Err e => Err e end = Ret (m, n, rest) ->
    (String.length rest <= String.length s0)%nat).
  { intros s0 k Hk H0. destruct (string_decode s0) as [[v s']|] eqn:E; [|discriminate].
    apply string_decode_rest in E. apply Hk in H0. lia. }
  enough (String.length rest <= String.length s1)%nat by lia. revert H.
  do 6 (apply N; intros ? ?). do 2 (apply S; intros ? ?). apply N. intros ? s2 H.
  destruct (slen s2 <? _); [discriminate|]. inv H. apply at_pos_length.
Qed.

Lemma fueled_set_last : forall c s, fueled (set_last c s).
Proof. intros. unfold set_last. fuel. Qed.

Lemma fueled_code_within : forall s p, fueled (code_within s p).
Proof. intros. unfold code_within. fuel. Qed.
#[export] Hint Resolve fueled_set_last fueled_code_within : fuel.

Lemma fueled_add_imis : forall i n s, fueled (add_imis i n s).
Proof. intros. unfold add_imis. fuel. Qed.

Lemma fueled_prolonged : forall m l, fueled (prolonged_before m l).
Proof. induction l as [|x l IH]; cbn [prolonged_before]; fuel. Qed.
#[export] Hint Resolve fueled_add_imis fueled_prolonged : fuel.

Section Words.
Context `{T : JumanTables} `{D : Darts} `{E : JumanEnv} (ids : juman_ids) (pids : prolong_ids).

Lemma fueled_prolong : forall d opt n b m, fueled (prolong_weight pids d opt n b m).
Proof. intros. unfold prolong_weight. fuel. Qed.
#[local] Hint Resolve fueled_prolong : fuel.

Lemma take_data_mrph_shortens : forall s d opt b, shortens s (_take_data pids s d opt b).
Proof.
  intros s d opt b. destruct (read_mrph_shortens s) as [R1 R2]. unfold _take_data. split.
  - apply fueled_bind; [exact R1|]. intros [[m n] s1] _. unfold drop_voiced_mark. fuel.
  - intros a rest H. destruct (take_mrph s) as [[[m n] s1]|] eqn:E1; [|discriminate]. specialize (R2 _ _ eq_refl).
    destruct (drop_voiced_mark _ _ _) as [[m1 o1]|]; [|discriminate]. destruct (if _ && _ then _ else _) as [[m2 n2]|]; [|discriminate].
    destruct (if _ && _ then _ else _) as [m3|]; [|discriminate]. now inv H.
Qed.

Lemma take_components_rest : forall n s opt b, fueled (take_components pids n s opt b) /\
  forall cs o rest, take_components pids n s opt b = Ret (cs, o, rest) -> (String.length rest <= String.length s)%nat.
Proof.
  induction n as [|n IH]; intros s opt b; cbn [take_components].
  - split; [discriminate|]. intros cs o rest [= _ _ <-]. lia.
  - destruct (take_data_mrph_shortens s 0 opt b) as [R1 R2].
    destruct (_take_data pids s 0 opt b) as [[[c o1] s1]|e]; [|split; [exact (fueled_cast _ R1)|discriminate]].
    specialize (R2 _ _ eq_refl). destruct (IH s1 o1 b) as [I1 I2]. split; [fuel; exact I1|].
    intros cs o rest H. destruct (take_components pids n s1 o1 b) as [[[cs1 o2] s2]|]; [|discriminate]. inv H.
    specialize (I2 _ _ _ eq_refl). lia.
Qed.

Lemma fueled_rengo : forall seglen opt con w cs first pos L, fueled (rengo_loop ids seglen first pos opt con w cs L).
Proof.
  intros seglen opt con w. induction cs as [|c cs IH]; intros first pos L; cbn [rengo_loop]; [discriminate|].
  destruct (_ && _); [discriminate|]. apply fueled_bind.
  - destruct first; [unfold rengo_first; fuel|]. apply fueled_map. unfold rengo_next. fuel.
  - intros [[] L1] _; [apply IH|discriminate].
Qed.

Variable text : string.
Variable seglen : array Z.

Lemma fueled_place : forall pos opt m L, fueled (place_mrph ids text seglen pos opt m L).
Proof. intros. unfold place_mrph. fuel. Qed.
#[local] Hint Resolve fueled_rengo fueled_place : fuel.

(** An entry taken from the buffer shortens it. *)
Lemma take_data_shortens : forall pos pre s L, fueled (take_data ids pids text seglen pos pre s L) /\
  forall rest L', take_data ids pids text seglen pos pre s L = Ret (rest, L') -> (String.length rest < String.length s)%nat.
Proof.
  intros pos pre s L. unfold take_data. destruct s as [|o [|d s]]; [split; discriminate..|]. cbv zeta.
  set (b := map _ _). set (dd := byte_of d - 1 - PAT_BUF_INFO_BASE). set (oo := s_char _).
  destruct (take_data_mrph_shortens s dd oo b) as [R1 R2].
  destruct (_take_data pids s dd oo b) as [[[m o1] s1]|e]; [|split; [exact (fueled_cast _ R1)|discriminate]].
  specialize (R2 _ _ eq_refl). destruct (j_hinsi m =? RENGO_ID).
  - destruct (RENGO_BUFSIZE <? _); [split; discriminate|].
    destruct (take_components_rest (Z.to_nat (j_bunrui m)) s1 o1 b) as [I1 I2].
    destruct (take_components pids _ s1 o1 b) as [[[cs o2] s2]|e]; [|split; [exact (fueled_cast _ I1)|discriminate]].
    specialize (I2 _ _ _ eq_refl). pose proof (fueled_rengo seglen o2 (j_con_tbl m) (j_weight m) cs true pos L) as F.
    destruct (rengo_loop _ _ _ _ _ _ _ _ _) as [L1|e]; [|split; [exact (fueled_cast _ F)|discriminate]].
    split; [fuel|]. intros rest L' H. destruct s2; [discriminate|]. inv H. cbn in *. lia.
  - pose proof (fueled_place pos o1 m L) as F. destruct (place_mrph _ _ _ _ _ _ _) as [L1|e]; [|split; [exact (fueled_cast _ F)|discriminate]].
    split; [fuel|]. intros rest L' H. destruct s1; [discriminate|]. inv H. cbn in *. lia.
Qed.

Lemma fueled_take_all : forall fuel pos pre s L, (String.length s <= fuel)%nat ->
  fueled (take_all ids pids text seglen fuel pos pre s L).
Proof.
  induction fuel as [|fuel IH]; intros pos pre s L Hf; destruct s as [|c s]; try discriminate; [cbn in Hf; lia|].
  cbn [take_all]. destruct (take_data_shortens pos pre (String c s) L) as [R1 R2].
  destruct (take_data _ _ _ _ _ _ _ _) as [[s1 L1]|e]; [|exact (fueled_cast _ R1)]. specialize (R2 _ _ eq_refl). apply IH. cbn in *. lia.
Qed.

(** An unknown word ends after at most [MIDASI_MAX] bytes. *)
Lemma fueled_undef_end : forall fuel code pos end_ cur, 1 <= cur -> (0 < fuel)%nat ->
  MIDASI_MAX - Z.of_nat fuel <= end_ - pos -> fueled (undef_end text fuel code pos end_ cur).
Proof.
  induction fuel as [|fuel IH]; intros code pos end_ cur Hc Hf He; [lia|]. cbn [undef_end].
  destruct (Z.leb_spec (MIDASI_MAX - cur) (end_ - pos)); [discriminate|]. cbv zeta. destruct (_ || _); [|discriminate].
  pose proof (utf8_bytes_range (at_pos text (end_ + cur))). apply IH; lia.
Qed.

Lemma fueled_add_word : forall pos m L, fueled (add_word ids pos m L).
Proof. intros. unfold add_word. fuel. Qed.
#[local] Hint Resolve fueled_add_word : fuel.

Lemma fueled_repetition : forall n pos len code L, fueled (repetition ids pids text n pos len code L).
Proof. induction n as [|n IH]; intros; cbn [repetition]; fuel; apply IH. Qed.
#[local] Hint Resolve fueled_repetition : fuel.

Lemma fueled_undef : forall pos L, fueled (undef_word ids pids text seglen pos L).
Proof.
  intros. unfold undef_word, undef_word_end. cbv zeta. apply fueled_bind.
  - destruct UseGivenSegmentation_Opt; [discriminate|]. destruct (_ || _); [discriminate|].
    destruct (_ =? KUUHAKU); [discriminate|]. apply fueled_undef_end; [apply utf8_bytes_range|unfold MIDASI_MAX; lia|unfold MIDASI_MAX; lia].
  - intros e _. unfold recognize_onomatopoeia. fuel.
Qed.

Variable lat : list (list char_node).

Lemma fueled_words_at : forall pos count L, fueled (words_at ids pids text lat seglen pos count L).
Proof.
  intros. unfold words_at, search_all, for_res. pose proof (fueled_undef pos). fuel; auto.
  apply fueled_fold. intros dic L1. apply fueled_take_all. lia.
Qed.

Lemma fueled_sentence_loop : forall fuel length pos count p_start L, length - pos <= Z.of_nat fuel ->
  fueled (sentence_loop ids pids text lat seglen fuel length pos count p_start L).
Proof.
  induction fuel as [|fuel IH]; intros length pos count p_start L Hf; cbn [sentence_loop];
    destruct (Z.leb_spec length pos); try discriminate; [lia|].
  destruct (pos_match_process pos p_start L) as [ps L0]. apply fueled_bind; [apply fueled_words_at|].
  intros [[] L1] _; [|discriminate]. pose proof (utf8_bytes_range (at_pos text pos)). apply IH. lia.
Qed.
End Words.

Lemma cstr_length : forall s, (String.length (cstr s) <= String.length s)%nat.
Proof. induction s as [|c s IH]; cbn [cstr]; [auto|]. destruct (Ascii.eqb c zero); cbn [String.length]; lia. Qed.

Lemma fueled_char_lattice : forall o text fuel length pos n st, length - pos <= Z.of_nat fuel ->
  fueled (char_lattice o text fuel length pos n st).
Proof.
  induction fuel as [|fuel IH]; intros length pos n st Hf; cbn [char_lattice]; destruct (Z.leb_spec length pos);
    try discriminate; [lia|].
  destruct (MAX_LATTICES <=? n); [discriminate|]. unfold char_nodes. cbv zeta.
  destruct (deletion _ _ _ _ _) as [del st1]. apply fueled_bind; [|intros ? _; discriminate]. apply IH.
  pose proof (utf8_bytes_range (at_pos text pos)). destruct (0x80 <=? _); lia.
Qed.

(** C20: the analysis of a sentence ends, whatever the text, the dictionary, the grammar and the contents
    of the buffers. *)
Theorem juman_sent_terminates : forall `{T : JumanTables} `{D : Darts} `{E : JumanEnv} ids pids text L,
  juman_sent ids pids text L <> Err OutOfFuel.
Proof.
  intros T D E ids pids text L. change (fueled (juman_sent ids pids text L)). unfold juman_sent.
  destruct (if UseGivenSegmentation_Opt then _ else _) as [t seglen].
  destruct (slen (cstr t) =? 0); [discriminate|].
  assert (Hlen : slen (cstr t) - 0 <= Z.of_nat (String.length t)) by (pose proof (cstr_length t); unfold slen; lia).
  apply fueled_bind; [now apply fueled_char_lattice|]. intros lat _. unfold analyze. destruct (_ =? 0); [discriminate|].
  apply fueled_bind; [now apply fueled_sentence_loop|]. intros [[[ok pos] ps] L1] _. destruct ok; [|discriminate].
  unfold end_sentence. destruct (pos_match_process _ _ _) as [ps3 L3]. fuel.
Qed.
