(* ===== verification/Pat.v ===== *)
(** * The Patricia dictionary of JUMAN (src/juman/lib/pat.c, patfile.c, src/juman/makepat/makepat.c)

    A dictionary is a text of lines, each a key, a tab and what the dictionary says of it, with a NUL at the end of
    each.  [insert_dic_data] builds a Patricia tree over the bits of the keys whose nodes hold the places of the lines in the
    text; [pat_search_exact] finds the lines of a key, [pat_search] those of all its prefixes; [com_s] writes the tree
    to a file and [com_l] reads it.  A node is an index into the array of nodes that [malloc_pat_node] hands
    out; the node 0 is the top.  HAVE_MMAP, without USE_HASH, UTF-8. *)
From Stdlib Require Import ZArith List Bool String Ascii Lia.
Import ListNotations.
From S2P Require Import Prelude CStr.

Definition SIKII_BIT : Z := 24.
Definition BUFFER_MAX : Z := 50000.
Definition KEY_MAX : Z := 1000.
Definition BUFSIZ : Z := 8192.

Definition NUL : ascii := ascii_of_nat 0.
Definition TAB : ascii := ascii_of_nat 9.
Definition NL : string := String (ascii_of_nat 10) EmptyString.

Record pat_node : Type := mkNode { il : list Z; checkbit : Z; p_right : Z; p_left : Z }.
Record heap : Type := mkHeap { node : array pat_node; used : Z }.

Definition top : Z := 0.

Definition set_node (a : Z) (v : pat_node) (h : heap) : heap := mkHeap (aset (node h) a v) (used h).

Definition set_il (v : list Z) (x : pat_node) : pat_node := mkNode v (checkbit x) (p_right x) (p_left x).
Definition set_right (v : Z) (x : pat_node) : pat_node := mkNode (il x) (checkbit x) v (p_left x).
Definition set_left (v : Z) (x : pat_node) : pat_node := mkNode (il x) (checkbit x) (p_right x) v.

(** The index in a node itself, the first one of its list *)
Definition index (x : pat_node) : Z := hd (-1) (il x).

Definition pat_init_tree_top (ptr : Z) (h : heap) : heap := set_node ptr (mkNode [-1] (-1) ptr ptr) h.

(** Nothing allocated but the top *)
Definition no_nodes : heap := mkHeap (fun _ => mkNode [] 0 0 0) 1.

(** A value stored in a short *)
Definition to_short (n : Z) : Z := (n + 32768) mod 65536 - 32768.

(** The check bits are shorts and grow along every way, so no way is longer than this. *)
Definition short_steps : nat := Z.to_nat 65536.

Definition pat_bits (string : string) (cbit : Z) : Z :=
  let moji_idx := cbit / 8 in
  let idx_in_moji := cbit mod 8 in
  if cbit =? -1 then 1
  else if slen string - 1 <? moji_idx then 0
  else Z.shiftr (Z.land (Z.shiftl (byte_at string (Z.to_nat moji_idx)) idx_in_moji) 128) 7.

(** [strtok(buffer, "c")]: what is left in [buffer]. *)
Fixpoint strtok_cut (c : ascii) (buffer : string) : string :=
  match buffer with
  | EmptyString => EmptyString
  | String a buffer' => if Ascii.eqb a c then String a (strtok_cut c buffer') else fst (span_not c buffer)
  end.

(** [strncmp(a, b, n) == 0] *)
Definition strncmp_eq (a b : string) (n : Z) : bool := str_eq (stake (Z.to_nat n) a) (stake (Z.to_nat n) b).

Section Dictionary.
(** The text of the dictionary *)
Context (dic : string).

(** [addr + pos] as a string; [None] behind the end *)
Definition get_line (pos : Z) : res (option string) :=
  if slen dic <=? pos then Ret None
  else if pos <? 0 then Err OutOfBounds
  else
    match span_not NUL (sdrop (Z.to_nat pos) dic) with
    | (_, EmptyString) => Err OutOfBounds
    | (line, _) => Ret (Some line)
    end.

Definition hash_check_proc (index : Z) : res string :=
  line <- get_line index ;;
  match line with
  | None => Err NullDeref
  | Some buf => if slen buf <? BUFFER_MAX then Ret buf else Err OutOfBounds
  end.

(** The lines of a node, appended to the result *)
Fixpoint put_lines (l_ptr : list Z) (r : string) : res string :=
  match l_ptr with
  | [] => Ret r
  | i :: l_ptr' => buffer <- hash_check_proc i ;; put_lines l_ptr' (r ++ (buffer ++ NL))
  end%string.

Section Search.
Context (n : array pat_node) (key : string).

Definition step (x : Z) : Z := if pat_bits key (checkbit (n x)) =? 1 then p_right (n x) else p_left (n x).

(** [do { ptr = x_ptr; ... } while (ptr->checkbit < x_ptr->checkbit);] *)
Fixpoint descend (fuel : nat) (x_ptr : Z) : res Z :=
  match fuel with
  | O => Err OutOfFuel
  | Datatypes.S fuel' =>
      let x' := step x_ptr in
      if checkbit (n x_ptr) <? checkbit (n x') then descend fuel' x' else Ret x'
  end.

Definition pat_search4insert (x_ptr : Z) : res Z := descend short_steps x_ptr.

Definition pat_search_exact (x_ptr : Z) (rslt : string) : res (Z * string) :=
  x_ptr <- descend short_steps x_ptr ;;
  buffer <- hash_check_proc (index (n x_ptr)) ;;
  if str_eq key (strtok_cut TAB buffer) then
    r <- put_lines (il (n x_ptr)) rslt ;; Ret (x_ptr, r)
  else Ret (x_ptr, rslt).

(** The leftmost node below [x] *)
Fixpoint leftmost (fuel : nat) (x : Z) : res Z :=
  match fuel with
  | O => Err OutOfFuel
  | Datatypes.S fuel' =>
      let x' := p_left (n x) in
      if checkbit (n x) <? checkbit (n x') then leftmost fuel' x' else Ret x'
  end.

(** Where the search is: [Stopped] when a prefix fails on the way. *)
Inductive way : Type :=
| Stopped (x_ptr : Z) (r : string)
| Arrived (x_ptr tmp_x_ptr totyu_match_len : Z) (r : string).

Definition at_threshold (checkbit : Z) : bool := (Z.rem checkbit SIKII_BIT =? 0) && negb (checkbit =? 0).

(** At a threshold bit the word that ends there is put out when it is a prefix of the key. *)
Definition threshold (ptr tmp_x_ptr len : Z) (r : string) : res way :=
  let cb := checkbit (n ptr) in
  if at_threshold cb then
    tmp_x_ptr <- leftmost short_steps ptr ;;
    buffer <- hash_check_proc (index (n tmp_x_ptr)) ;;
    if strncmp_eq key (strtok_cut TAB buffer) (cb / 8) then
      r <- put_lines (il (n tmp_x_ptr)) r ;; Ret (Arrived ptr tmp_x_ptr (cb / 8) r)
    else Ret (Stopped ptr r)
  else Ret (Arrived ptr tmp_x_ptr len r).

Fixpoint prefixes (fuel : nat) (x_ptr tmp_x_ptr len : Z) (r : string) : res way :=
  match fuel with
  | O => Err OutOfFuel
  | Datatypes.S fuel' =>
      w <- threshold x_ptr tmp_x_ptr len r ;;
      match w with
      | Stopped _ _ => Ret w
      | Arrived _ tmp_x_ptr len r =>
          let x' := step x_ptr in
          if checkbit (n x_ptr) <? checkbit (n x') then prefixes fuel' x' tmp_x_ptr len r
          else Ret (Arrived x' tmp_x_ptr len r)
      end
  end.

(** The node where the search ends: its word when it is a prefix that was not put out on the way. *)
Definition end_word (x_ptr totyu_match_len : Z) (r : string) : res string :=
  buffer <- hash_check_proc (index (n x_ptr)) ;;
  match span_not TAB buffer with
  | (_, EmptyString) => Err NullDeref
  | (word, _) =>
      if strncmp_eq key word (slen word) && negb (totyu_match_len =? slen key) then put_lines (il (n x_ptr)) r else Ret r
  end.

Definition pat_search (top_ptr : Z) (rslt : string) : res (Z * string) :=
  w <- prefixes short_steps top_ptr top_ptr 0 rslt ;;
  match w with
  | Stopped x_ptr r => Ret (x_ptr, r)
  | Arrived x_ptr tmp_x_ptr len r =>
      if negb (tmp_x_ptr =? x_ptr) || (top_ptr =? x_ptr) then
        r <- end_word x_ptr len r ;; Ret (x_ptr, r)
      else Ret (x_ptr, r)
  end.

(** The place of a new node with the check bit [diff_bit]: its parent and its child. *)
Fixpoint place (fuel : nat) (diff_bit : Z) (x_ptr : Z) : res (Z * Z) :=
  match fuel with
  | O => Err OutOfFuel
  | Datatypes.S fuel' =>
      let x' := step x_ptr in
      if (checkbit (n x') <? diff_bit) && (checkbit (n x_ptr) <? checkbit (n x')) then place fuel' diff_bit x'
      else Ret (x_ptr, x')
  end.
End Search.

(** ** Insertion *)

(** The first bit where two strings differ; behind both of them all bits are 0. *)
Fixpoint first_diff (fuel : nat) (key buffer : string) (diff_bit : Z) : res Z :=
  match fuel with
  | O => Err OutOfFuel
  | Datatypes.S fuel' =>
      if pat_bits key diff_bit =? pat_bits buffer diff_bit then first_diff fuel' key buffer (diff_bit + 1) else Ret diff_bit
  end.

Definition diff_fuel (key buffer : string) : nat := (8 * (String.length key + String.length buffer) + 1)%nat.

(** A new node between [p_ptr] and [x_ptr] *)
Definition link_node (key : string) (idx diff_bit p_ptr x_ptr : Z) (h : heap) : heap :=
  let new_ptr := used h in
  let cb := to_short diff_bit in
  let new := if pat_bits key cb =? 1 then mkNode [idx] cb new_ptr x_ptr else mkNode [idx] cb x_ptr new_ptr in
  let n := aset (node h) new_ptr new in
  let parent := n p_ptr in
  mkHeap (aset n p_ptr (if pat_bits key (checkbit parent) =? 1 then set_right new_ptr parent else set_left new_ptr parent)) (used h + 1).

Definition insert_node (key buffer : string) (idx x_ptr : Z) (h : heap) : res heap :=
  diff_bit <- first_diff (diff_fuel key buffer) key buffer 0 ;;
  ' (p_ptr, x_ptr) <- place (node h) key short_steps diff_bit x_ptr ;;
  Ret (link_node key idx diff_bit p_ptr x_ptr h).

(** One more line for the key of a node, unless the node has it *)
Definition insert_line (line : string) (idx t_ptr : Z) (h : heap) : res heap :=
  let t := node h t_ptr in
  same <- some_res (fun i => buffer <- hash_check_proc i ;; Ret (str_eq buffer line)) (il t) ;;
  Ret (if (same : bool) then h else set_node t_ptr (set_il (il t ++ [idx]) t) h).

Definition pat_insert (line : string) (idx x_ptr : Z) (kugiri : ascii) (h : heap) : res heap :=
  if KEY_MAX <=? slen line then Err OutOfBounds
  else
    let key := strtok_cut kugiri line in
    t_ptr <- pat_search4insert (node h) key x_ptr ;;
    if 0 <=? index (node h t_ptr) then
      buffer <- hash_check_proc (index (node h t_ptr)) ;;
      if starts_with key buffer then insert_line line idx t_ptr h
      else insert_node key buffer idx x_ptr h
    else insert_node key EmptyString idx x_ptr h.

(** Every line of the dictionary from [i] on *)
Fixpoint insert_lines (fuel : nat) (i x_ptr : Z) (kugiri : ascii) (h : heap) : res heap :=
  match fuel with
  | O => Err OutOfFuel
  | Datatypes.S fuel' =>
      c <- get_line i ;;
      match c with
      | None => Ret h
      | Some line =>
          if BUFFER_MAX <=? slen line then Err OutOfBounds
          else h <- pat_insert line i x_ptr kugiri h ;; insert_lines fuel' (i + (slen line + 1)) x_ptr kugiri h
      end
  end.

Definition insert_dic_data (x_ptr : Z) (kugiri : ascii) (h : heap) : res heap :=
  insert_lines (Datatypes.S (String.length dic)) 0 x_ptr kugiri h.
End Dictionary.

(** ** The file of a tree *)

(** An index with the mark of a leaf, and of the last one of a leaf *)
Definition out_index (idx : Z) (last : bool) : list Z :=
  [Z.lor (Z.land (Z.shiftr idx 24) 63) (if last then 192 else 128); Z.land (Z.shiftr idx 16) 255; Z.land (Z.shiftr idx 8) 255; Z.land idx 255].

Fixpoint out_indices (l : list Z) : list Z :=
  match l with
  | [] => []
  | i :: l' => out_index i (match l' with [] => true | _ => false end) ++ out_indices l'
  end.

Definition dummy : list Z := [255; 255; 255; 255].

Definition out_leaf (x : pat_node) : list Z := if index x <? 0 then dummy else out_indices (il x).

Fixpoint save_pat (n : array pat_node) (fuel : nat) (top_ptr : Z) : res (list Z) :=
  match fuel with
  | O => Err OutOfFuel
  | Datatypes.S fuel' =>
      let x := n top_ptr in
      let below child := if checkbit x <? checkbit (n child) then save_pat n fuel' child else Ret (out_leaf (n child)) in
      l <- below (p_left x) ;;
      r <- below (p_right x) ;;
      Ret ([Z.land (Z.shiftr (checkbit x + 1) 8) 127; Z.land (checkbit x + 1) 255] ++ l ++ r)
  end.

(** The bytes are written in full buffers; zeros fill the last one. *)
Definition com_s (ptr : Z) (h : heap) : res (list Z) :=
  out <- save_pat (node h) short_steps (p_right (node h ptr)) ;;
  Ret (out ++ repeat 0 (Z.to_nat (BUFSIZ - zlen out mod BUFSIZ))).

Definition egetc (file : list Z) : res (Z * list Z) :=
  match file with
  | c :: file' => Ret (c, file')
  | [] => Err OutOfBounds
  end.

(** The indices of a leaf after its first byte [c], appended to those read so far; [t_ptr] of the code is the last one. *)
Fixpoint load_indices (fuel : nat) (c : Z) (ils : list Z) (file : list Z) : res (list Z * list Z) :=
  match fuel with
  | O => Err OutOfFuel
  | Datatypes.S fuel' =>
      ' (c1, file) <- egetc file ;;
      ' (c2, file) <- egetc file ;;
      ' (c3, file) <- egetc file ;;
      let tmp_idx := Z.lor (Z.shiftl (Z.land c 63) 24) (Z.lor (Z.shiftl c1 16) (Z.lor (Z.shiftl c2 8) c3)) in
      let ils := ils ++ [tmp_idx] in
      if negb (Z.land c 64 =? 0) then Ret (ils, file)
      else
        ' (c, file) <- egetc file ;;
        if negb (Z.land c 128 =? 0) then load_indices fuel' c ils file else Ret (ils, file)
  end.

Fixpoint load_anode (fuel : nat) (p_ptr : Z) (file : list Z) (h : heap) : res (Z * list Z * heap) :=
  match fuel with
  | O => Err OutOfFuel
  | Datatypes.S fuel' =>
      ' (c, file) <- egetc file ;;
      if negb (Z.land c 128 =? 0) then
        if index (node h p_ptr) <? 0 then
          ' (ils, file) <- load_indices (Datatypes.S (List.length file)) c [] file ;;
          Ret (p_ptr, file, set_node p_ptr (set_il ils (node h p_ptr)) h)
        else Err NullDeref
      else
        ' (c2, file) <- egetc file ;;
        let new_ptr := used h in
        let h := mkHeap (aset (node h) new_ptr (mkNode [-1] (to_short (Z.lor (Z.shiftl c 8) c2 - 1)) (p_right (node h new_ptr)) (p_left (node h new_ptr))))
                   (used h + 1) in
        ' (l, file, h) <- load_anode fuel' new_ptr file h ;;
        let h := set_node new_ptr (set_left l (node h new_ptr)) h in
        ' (r, file, h) <- load_anode fuel' p_ptr file h ;;
        Ret (new_ptr, file, set_node new_ptr (set_right r (node h new_ptr)) h)
  end.

Definition com_l (file : list Z) (ptr : Z) (h : heap) : res heap :=
  ' (r, _, h) <- load_anode (Datatypes.S (List.length file)) ptr file h ;;
  Ret (set_node ptr (set_right r (node h ptr)) h).
