(* ===== verification/PatBits.v ===== *)
(** * Keys as sequences of bits (src/juman/lib/pat.c, pat_bits)

    Where two keys first differ, and that the tab behind the key of a line does not disturb this as long as keys have
    no control characters. *)
From Stdlib Require Import ZArith List Bool String Ascii Lia.
Import ListNotations.
From S2P Require Import Prelude CStr Pat.

Lemma existsb_none : forall {A} (f : A -> bool) l x, existsb f l = false -> In x l -> f x = false.
Proof. intros A f l x E H. apply not_true_is_false. intros T. rewrite (proj2 (existsb_exists f l)) in E; [discriminate | eauto]. Qed.

(** The bytes of a string *)
Fixpoint bytes (s : string) : list Z :=
  match s with
  | EmptyString => []
  | String c s' => byte_of c :: bytes s'
  end.

Lemma pat_bits_nil : forall b, 0 <= b -> pat_bits EmptyString b = 0.
Proof.
  intros b Hb. unfold pat_bits. destruct (Z.eqb_spec b (-1)); [lia|]. change (slen EmptyString) with 0.
  pose proof (Z.div_pos b 8). destruct (Z.ltb_spec (0 - 1) (b / 8)); lia.
Qed.

Lemma byte_bit : forall v i, 0 <= i < 8 -> Z.shiftr (Z.land (Z.shiftl v i) 128) 7 = Z.b2z (Z.testbit v (7 - i)).
Proof.
  intros v i Hi. apply Z.bits_inj'. intros k Hk. rewrite Z.shiftr_spec, Z.land_spec by lia. change 128 with (2 ^ 7). rewrite Z.pow2_bits_eqb by lia.
  destruct (Z.eqb_spec 7 (k + 7)) as [E|E].
  - assert (k = 0) as -> by lia. rewrite Z.shiftl_spec by lia. rewrite andb_true_r, Z.b2z_bit0. f_equal; lia.
  - rewrite andb_false_r. symmetry. destruct (Z.testbit v (7 - i)); cbn [Z.b2z]; [|apply Z.bits_0]. change 1 with (2 ^ 0). rewrite Z.pow2_bits_false; lia.
Qed.

Lemma pat_bits_head : forall c s b, 0 <= b < 8 -> pat_bits (String c s) b = Z.b2z (Z.testbit (byte_of c) (7 - b)).
Proof.
  intros c s b Hb. unfold pat_bits. destruct (Z.eqb_spec b (-1)); [lia|]. rewrite Z.div_small, Z.mod_small by lia.
  unfold slen. cbn [String.length]. destruct (Z.ltb_spec (Z.of_nat (Datatypes.S (String.length s)) - 1) 0); [lia|]. apply byte_bit. lia.
Qed.

Lemma pat_bits_tail : forall c s b, 8 <= b -> pat_bits (String c s) b = pat_bits s (b - 8).
Proof.
  intros c s b Hb. unfold pat_bits. destruct (Z.eqb_spec b (-1)); [lia|]. destruct (Z.eqb_spec (b - 8) (-1)); [lia|].
  assert (E : b = (b - 8) + 1 * 8) by lia. assert (D : b / 8 = (b - 8) / 8 + 1) by (rewrite E at 1; apply Z.div_add; lia).
  assert (M : b mod 8 = (b - 8) mod 8) by (rewrite E at 1; apply Z.mod_add; lia). rewrite D, M.
  pose proof (Z.div_pos (b - 8) 8 ltac:(lia) ltac:(lia)) as P. unfold slen. cbn [String.length].
  replace (Z.of_nat (Datatypes.S (String.length s)) - 1 <? (b - 8) / 8 + 1) with (Z.of_nat (String.length s) - 1 <? (b - 8) / 8)
    by (destruct (Z.ltb_spec (Z.of_nat (String.length s) - 1) ((b - 8) / 8)), (Z.ltb_spec (Z.of_nat (Datatypes.S (String.length s)) - 1) ((b - 8) / 8 + 1)); lia).
  replace (Z.to_nat ((b - 8) / 8 + 1)) with (Datatypes.S (Z.to_nat ((b - 8) / 8))) by lia. reflexivity.
Qed.

Lemma pat_bits_01 : forall s b, 0 <= b -> pat_bits s b = 0 \/ pat_bits s b = 1.
Proof.
  induction s as [|c s IH]; intros b Hb; [left; now apply pat_bits_nil|].
  destruct (Z.lt_ge_cases b 8); [|rewrite pat_bits_tail by lia; apply IH; lia].
  rewrite pat_bits_head by lia. destruct (Z.testbit _ _); cbn; auto.
Qed.

Lemma pat_bits_top : forall s, pat_bits s (-1) = 1.
Proof. reflexivity. Qed.

(** Behind a string there are only zeros. *)
Lemma pat_bits_end : forall s b, 8 * slen s <= b -> pat_bits s b = 0.
Proof.
  induction s as [|c s IH]; intros b Hb; [apply pat_bits_nil; exact Hb|]. unfold slen in *. cbn [String.length] in Hb.
  rewrite pat_bits_tail by lia. apply IH. lia.
Qed.

Lemma pat_bits_app : forall s t b, 0 <= b < 8 * slen s -> pat_bits (s ++ t) b = pat_bits s b.
Proof.
  induction s as [|c s IH]; intros t b Hb; unfold slen in *; cbn [String.length append] in *; [lia|].
  destruct (Z.lt_ge_cases b 8); [now rewrite !pat_bits_head by lia|]. rewrite !pat_bits_tail by lia. apply IH. lia.
Qed.

(** ** Where strings differ *)
Lemma byte_bits_inj : forall a b, 0 <= a < 256 -> 0 <= b < 256 -> (forall i, 0 <= i < 8 -> Z.testbit a i = Z.testbit b i) -> a = b.
Proof.
  intros a b Ha Hb H. apply Z.bits_inj'. intros i Hi. destruct (Z.lt_ge_cases i 8); [apply H; lia|].
  assert (B : forall x, 0 <= x < 256 -> Z.testbit x i = false).
  { intros x Hx. destruct (Z.eq_dec x 0) as [->|]; [apply Z.bits_0|]. apply Z.bits_above_log2; [lia|].
    assert (x < 2 ^ i) by (apply Z.lt_le_trans with (2 ^ 8); [lia | apply Z.pow_le_mono_r; lia]). apply Z.log2_lt_pow2; lia. }
  now rewrite !B.
Qed.

Lemma head_differ : forall a b s t, a <> b -> exists i, 0 <= i < 8 /\ pat_bits (String a s) i <> pat_bits (String b t) i.
Proof.
  intros a b s t H. destruct (existsb (fun i => negb (Bool.eqb (Z.testbit (byte_of a) i) (Z.testbit (byte_of b) i))) (zrange 0 8)) eqn:E.
  - apply existsb_exists in E as (i & Hi & D). apply in_zrange in Hi. exists (7 - i). split; [lia|]. rewrite !pat_bits_head by lia.
    replace (7 - (7 - i)) with i by lia. destruct (Z.testbit (byte_of a) i), (Z.testbit (byte_of b) i); cbn in *; congruence.
  - exfalso. apply H, byte_of_inj, byte_bits_inj; [apply byte_of_range | apply byte_of_range|]. intros i Hi.
    pose proof (existsb_none _ _ i E (proj2 (in_zrange 0 8 i) Hi)) as F. cbn beta in F. apply negb_false_iff, eqb_prop in F. exact F.
Qed.

(** No control characters: the high half of every byte is not 0. *)
Definition plain (s : string) : bool := forallb (fun v => 16 <=? v) (bytes s).

Lemma plain_cons : forall c s, plain (String c s) = (16 <=? byte_of c) && plain s.
Proof. reflexivity. Qed.

Lemma high_bit : forall c s, 16 <= byte_of c -> exists i, 0 <= i < 4 /\ pat_bits (String c s) i = 1.
Proof.
  intros c s H. pose proof (byte_of_range c) as R. set (v := byte_of c) in *.
  destruct (existsb (fun i => Z.testbit v (7 - i)) (zrange 0 4)) eqn:E.
  - apply existsb_exists in E as (i & Hi & D). apply in_zrange in Hi. exists i. split; [lia|]. rewrite pat_bits_head by lia. fold v. now rewrite D.
  - exfalso. assert (v = v mod 16); [|pose proof (Z.mod_pos_bound v 16 ltac:(lia)); lia].
    apply byte_bits_inj; [lia | pose proof (Z.mod_pos_bound v 16 ltac:(lia)); lia|]. intros i Hi. change 16 with (2 ^ 4).
    destruct (Z.lt_ge_cases i 4); [now rewrite Z.mod_pow2_bits_low by lia|]. rewrite Z.mod_pow2_bits_high by lia.
    pose proof (existsb_none _ _ (7 - i) E (proj2 (in_zrange 0 4 (7 - i)) ltac:(lia))) as F. cbn beta in F. now replace (7 - (7 - i)) with i in F by lia.
Qed.

(** A key that is no prefix of another one differs from it before the fourth bit behind it. *)
Lemma keys_differ : forall k q, plain k = true -> starts_with k q = false ->
  exists b, 0 <= b < 8 * slen q + 4 /\ pat_bits k b <> pat_bits q b.
Proof.
  induction k as [|c k IH]; intros q P H; [discriminate|]. rewrite plain_cons in P. apply andb_prop in P as [P1 P2]. destruct q as [|d q].
  - destruct (high_bit c k ltac:(lia)) as (i & Hi & E). exists i. split; [cbn; lia|]. rewrite E, pat_bits_nil by lia. lia.
  - cbn [starts_with] in H. unfold slen. cbn [String.length]. destruct (Ascii.eqb_spec c d) as [->|N].
    + destruct (IH q P2 H) as (b & Hb & D). exists (b + 8). unfold slen in Hb. split; [lia|]. rewrite !pat_bits_tail by lia. now replace (b + 8 - 8) with b by lia.
    + destruct (head_differ c d k q N) as (i & Hi & D). exists i. split; [lia | exact D].
Qed.

(** The line of a key has the bits of the key up to the fourth one behind it. *)
Lemma line_bits : forall key rest b, 0 <= b < 8 * slen key + 4 -> pat_bits (key ++ String TAB rest) b = pat_bits key b.
Proof.
  induction key as [|c key IH]; intros rest b Hb; unfold slen in *; cbn [String.length append] in *.
  - rewrite pat_bits_head by lia. rewrite pat_bits_nil by lia. change (byte_of TAB) with 9.
    assert (D : b = 0 \/ b = 1 \/ b = 2 \/ b = 3) by lia. destruct D as [->|[->|[->| ->]]]; reflexivity.
  - destruct (Z.lt_ge_cases b 8); [now rewrite !pat_bits_head by lia|]. rewrite !pat_bits_tail by lia. apply IH. lia.
Qed.

Definition agree (s t : string) (d : Z) : Prop := forall b, 0 <= b < d -> pat_bits s b = pat_bits t b.

Definition differ (s t : string) (d : Z) : Prop := 0 <= d /\ agree s t d /\ pat_bits s d <> pat_bits t d.

Lemma first_diff_from : forall fuel key buffer d b, agree key buffer d -> d <= b -> pat_bits key b <> pat_bits buffer b ->
  0 <= d -> (Z.to_nat (b - d) < fuel)%nat -> exists d', first_diff fuel key buffer d = Ret d' /\ differ key buffer d' /\ d' <= b.
Proof.
  induction fuel as [|fuel IH]; intros key buffer d b A L D Hd F; [lia|]. cbn [first_diff].
  destruct (Z.eqb_spec (pat_bits key d) (pat_bits buffer d)) as [E|E].
  - assert (d <> b) by congruence. apply (IH _ _ _ b); [| lia | exact D | lia | lia]. intros i Hi. destruct (Z.eq_dec i d) as [->|]; [exact E | apply A; lia].
  - exists d. repeat split; auto.
Qed.

Lemma differ_below : forall s t b, pat_bits s b <> pat_bits t b -> 0 <= b -> b < 8 * (slen s + slen t).
Proof.
  intros s t b D Hb. destruct (Z.lt_ge_cases b (8 * (slen s + slen t))); [assumption|]. exfalso. apply D.
  assert (0 <= slen s /\ 0 <= slen t) by (unfold slen; lia). now rewrite !pat_bits_end by lia.
Qed.

Lemma first_diff_spec : forall key buffer b, 0 <= b -> pat_bits key b <> pat_bits buffer b ->
  exists d, first_diff (diff_fuel key buffer) key buffer 0 = Ret d /\ differ key buffer d /\ d <= b.
Proof.
  intros key buffer b Hb D. pose proof (differ_below key buffer b D Hb) as L. apply (first_diff_from _ _ _ 0 b); [intros i Hi; lia | lia | exact D | lia|].
  unfold diff_fuel, slen in *. lia.
Qed.

(** The two keys with the same bits are the same. *)
Lemma agree_all : forall s t, plain s = true -> plain t = true -> (forall b, 0 <= b -> pat_bits s b = pat_bits t b) -> s = t.
Proof.
  induction s as [|c s IH]; intros [|d t] Ps Pt H; [reflexivity| | |].
  - rewrite plain_cons in Pt. apply andb_prop in Pt as [P _]. destruct (high_bit d t ltac:(lia)) as (i & Hi & E).
    rewrite <- H, pat_bits_nil in E by lia. lia.
  - rewrite plain_cons in Ps. apply andb_prop in Ps as [P _]. destruct (high_bit c s ltac:(lia)) as (i & Hi & E).
    rewrite H, pat_bits_nil in E by lia. lia.
  - rewrite plain_cons in Ps, Pt. apply andb_prop in Ps as [_ Ps], Pt as [_ Pt]. destruct (Ascii.eqb_spec c d) as [->|N].
    + f_equal. apply IH; auto. intros b Hb. specialize (H (b + 8) ltac:(lia)). rewrite !pat_bits_tail in H by lia. now replace (b + 8 - 8) with b in H by lia.
    + destruct (head_differ c d s t N) as (i & Hi & D). now rewrite H in D by lia.
Qed.

(** A byte that is there shows in its bits. *)
Lemma bits_prefix : forall s t d, agree s t (8 * d) -> 0 <= d -> (forall i, 0 <= i < d -> exists j, 0 <= j < 8 /\ pat_bits s (8 * i + j) = 1) ->
  d <= slen s -> stake (Z.to_nat d) s = stake (Z.to_nat d) t /\ d <= slen t.
Proof.
  induction s as [|c s IH]; intros t d A Hd F L.
  - unfold slen in L. cbn in L. assert (d = 0) as -> by lia. split; [now destruct t | unfold slen; lia].
  - destruct (Z.eq_dec d 0) as [->|]; [split; [now destruct t | unfold slen; lia]|]. destruct t as [|e t].
    + exfalso. destruct (F 0 ltac:(lia)) as (j & Hj & E). rewrite (A (8 * 0 + j)), pat_bits_nil in E by lia. lia.
    + assert (c = e) as <-.
      { destruct (Ascii.eqb_spec c e) as [->|N]; [reflexivity|]. exfalso. destruct (head_differ c e s t N) as (i & Hi & D). apply D, A. lia. }
      replace (Z.to_nat d) with (Datatypes.S (Z.to_nat (d - 1))) by lia. cbn [stake]. unfold slen in *. cbn [String.length] in *.
      destruct (IH t (d - 1)) as [E1 E2]; try lia.
      * intros b Hb. specialize (A (b + 8) ltac:(lia)). rewrite !pat_bits_tail in A by lia. now replace (b + 8 - 8) with b in A by lia.
      * intros i Hi. destruct (F (i + 1) ltac:(lia)) as (j & Hj & E). exists j. split; [lia|]. rewrite pat_bits_tail in E by lia.
        now replace (8 * (i + 1) + j - 8) with (8 * i + j) in E by lia.
      * split; [now rewrite E1 | lia].
Qed.
