(* ===== verification/PatTree.v ===== *)
(** * The trees in the nodes of a Patricia dictionary (src/juman/lib/pat.c)

    A pointer to a node with a greater check bit leads down, any other one is the leaf of a way.  [rep] reads the tree
    off the nodes; [split] says that every node divides the keys below it by its check bit, the first one where they
    differ.  Both searches follow from it. *)
From Stdlib Require Import ZArith List Bool String Ascii Lia Sorted.
Import ListNotations.
From S2P Require Import Prelude CStr Pat PatBits.

Inductive ptree : Type :=
| PL (a : Z)
| PN (a : Z) (l r : ptree).

Fixpoint leaves (t : ptree) : list Z := match t with PL a => [a] | PN _ l r => leaves l ++ leaves r end.
Fixpoint inner (t : ptree) : list Z := match t with PL _ => [] | PN a l r => a :: inner l ++ inner r end.

Section Rep.
Context (n : array pat_node).

(** The tree behind a pointer [p] in a node with the check bit [c] *)
Inductive rep : Z -> Z -> ptree -> Prop :=
| rep_L c p : checkbit (n p) <= c -> rep c p (PL p)
| rep_N c p l r : c < checkbit (n p) < 32768 -> rep (checkbit (n p)) (p_left (n p)) l -> rep (checkbit (n p)) (p_right (n p)) r -> rep c p (PN p l r).

Fixpoint find (key : string) (t : ptree) : Z :=
  match t with
  | PL a => a
  | PN a l r => find key (if pat_bits key (checkbit (n a)) =? 1 then r else l)
  end.

Lemma find_in : forall key t, In (find key t) (leaves t).
Proof.
  intros key t. induction t as [a|a l IHl r IHr]; cbn; [now left|]. apply in_or_app. destruct (_ =? 1); auto.
Qed.

Lemma descend_find : forall key t x fuel, rep (checkbit (n x)) (step n key x) t -> checkbit (n x) < 32768 ->
  32768 - checkbit (n x) <= Z.of_nat fuel -> descend n key fuel x = Ret (find key t).
Proof.
  intros key t. induction t as [a|a l IHl r IHr]; intros x fuel R C F; (destruct fuel as [|fuel]; [lia|]); cbn [descend]; inv R.
  - replace (checkbit (n x) <? checkbit (n (step n key x))) with false by lia. reflexivity.
  - set (a := step n key x) in *. replace (checkbit (n x) <? checkbit (n a)) with true by lia. cbn [find].
    destruct (pat_bits key (checkbit (n a)) =? 1) eqn:B; [apply IHr | apply IHl]; try lia; unfold step; now rewrite B.
Qed.

Section Keys.
Context (K : Z -> string).

(** Every node divides the keys below it by the first bit where they differ. *)
Fixpoint split (t : ptree) : Prop :=
  match t with
  | PL _ => True
  | PN a l r =>
      0 <= checkbit (n a) /\
      (forall x, In x (leaves l) -> pat_bits (K x) (checkbit (n a)) = 0) /\
      (forall x, In x (leaves r) -> pat_bits (K x) (checkbit (n a)) = 1) /\
      (forall x y, In x (leaves l ++ leaves r) -> In y (leaves l ++ leaves r) -> agree (K x) (K y) (checkbit (n a))) /\
      split l /\ split r
  end.

Lemma find_leaf : forall t a, split t -> In a (leaves t) -> find (K a) t = a.
Proof.
  induction t as [b|b l IHl r IHr]; intros a H I; cbn in *; [tauto|]. destruct H as (_ & Hl & Hr & _ & Sl & Sr).
  apply in_app_or in I as [I|I]; [rewrite (Hl a I) | rewrite (Hr a I)]; cbn; auto.
Qed.

(** Two leaves with the same key are the same. *)
Lemma leaves_keys : forall t a b, split t -> In a (leaves t) -> In b (leaves t) -> K a = K b -> a = b.
Proof. intros t a b H Ha Hb E. rewrite <- (find_leaf t a H Ha), E. now apply find_leaf. Qed.
End Keys.
End Rep.

Lemma split_ext : forall n K K' t, (forall x, In x (leaves t) -> K x = K' x) -> split n K t -> split n K' t.
Proof.
  intros n K K' t. induction t as [b|b l IHl r IHr]; intros E H; cbn in *; [exact I|].
  assert (El : forall x, In x (leaves l) -> K x = K' x) by (intros; apply E, in_or_app; auto).
  assert (Er : forall x, In x (leaves r) -> K x = K' x) by (intros; apply E, in_or_app; auto).
  destruct H as (H0 & Hl & Hr & Ha & Sl & Sr). repeat split; auto.
  - intros x Hx. rewrite <- El by exact Hx. auto.
  - intros x Hx. rewrite <- Er by exact Hx. auto.
  - intros x y Hx Hy. rewrite <- !E by assumption. auto.
Qed.

(** What is said about a tree depends only on its nodes. *)
Lemma rep_frame : forall n n' t c p, rep n c p t ->
  (forall a, In a (inner t) -> n' a = n a) -> (forall a, In a (leaves t) -> checkbit (n' a) = checkbit (n a)) -> rep n' c p t.
Proof.
  intros n n' t. induction t as [b|b l IHl r IHr]; intros c p R Hi Hl; inv R.
  - apply rep_L. rewrite Hl; [lia | now left].
  - assert (n' b = n b) as E by (apply Hi; now left). apply rep_N; rewrite E; [lia | apply IHl | apply IHr]; auto;
      intros a Ha; try apply Hl; try apply Hi; cbn; rewrite ?in_app_iff; auto.
Qed.

Lemma rep_ext : forall n n' t c p, (forall b, checkbit (n' b) = checkbit (n b) /\ p_right (n' b) = p_right (n b) /\ p_left (n' b) = p_left (n b)) ->
  rep n c p t -> rep n' c p t.
Proof.
  intros n n' t. induction t as [b|b l IHl r IHr]; intros c p E R; inv R; destruct (E b) as (E1 & E2 & E3); [apply rep_L | apply rep_N]; rewrite ?E1, ?E2, ?E3; auto.
Qed.

Lemma split_frame : forall n n' K t, (forall a, In a (inner t) -> checkbit (n' a) = checkbit (n a)) -> split n K t -> split n' K t.
Proof.
  intros n n' K t. induction t as [b|b l IHl r IHr]; intros E H; cbn in *; [exact I|]. rewrite (E b) by now left.
  destruct H as (H0 & Hl & Hr & Ha & Sl & Sr). repeat split; auto; [apply IHl | apply IHr]; auto; intros a Hx; apply E; right; apply in_or_app; auto.
Qed.

Lemma find_frame : forall n n' key t, (forall a, In a (inner t) -> checkbit (n' a) = checkbit (n a)) -> find n' key t = find n key t.
Proof.
  intros n n' key t. induction t as [b|b l IHl r IHr]; intros E; cbn in *; [reflexivity|]. rewrite (E b) by now left.
  destruct (_ =? 1); [apply IHr | apply IHl]; intros a Ha; apply E; right; apply in_or_app; auto.
Qed.

(** ** The lines of a dictionary *)
Section Dictionary.
Context (dic : string).

Definition line_at (i : Z) : string := match hash_check_proc dic i with Ret s => s | Err _ => EmptyString end.
Definition key_at (i : Z) : string := strtok_cut TAB (line_at i).

(** There is a line at [i], with a key without control characters. *)
Definition good_line (i : Z) : Prop := exists key rest,
  hash_check_proc dic i = Ret (key ++ String TAB rest)%string /\ key <> EmptyString /\ plain key = true /\ slen (line_at i) < KEY_MAX.

Definition add_entry (key : string) (ils : list Z) (i : Z) : list Z :=
  if str_eq (key_at i) key && negb (existsb (fun j => str_eq (line_at j) (line_at i)) ils) then ils ++ [i] else ils.

(** The lines of a key among those at [E], each text once *)
Definition entries (key : string) (E : list Z) : list Z := fold_left (add_entry key) E [].

Definition text_of (ils : list Z) : string := fold_right (fun i r => (line_at i ++ NL) ++ r)%string EmptyString ils.

Lemma plain_free : forall s, plain s = true -> str_free TAB s = true.
Proof.
  induction s as [|c s IH]; intros P; [reflexivity|]. rewrite plain_cons in P. apply andb_prop in P as [P1 P2]. cbn [str_free].
  rewrite IH by exact P2. destruct (Ascii.eqb_spec c TAB) as [->|]; [discriminate | reflexivity].
Qed.

Lemma cut_line : forall key rest, key <> EmptyString -> plain key = true -> strtok_cut TAB (key ++ String TAB rest)%string = key.
Proof.
  intros [|c key] rest N P; [congruence|]. pose proof (plain_free _ P) as F. cbn [append strtok_cut].
  rewrite plain_cons in P. destruct (Ascii.eqb_spec c TAB) as [->|]; [discriminate|].
  change (String c (key ++ String TAB rest)) with (String c key ++ String TAB rest)%string. now rewrite span_not_sep.
Qed.

Lemma good_key : forall i, good_line i -> exists rest, hash_check_proc dic i = Ret (key_at i ++ String TAB rest)%string /\
  line_at i = (key_at i ++ String TAB rest)%string /\ key_at i <> EmptyString /\ plain (key_at i) = true /\ slen (line_at i) < KEY_MAX.
Proof.
  intros i (key & rest & H & N & P & L). exists rest. assert (E : line_at i = (key ++ String TAB rest)%string) by (unfold line_at; now rewrite H).
  assert (K : key_at i = key) by (unfold key_at; rewrite E; now apply cut_line). rewrite K. auto.
Qed.

Lemma entries_snoc : forall key E i, entries key (E ++ [i]) = add_entry key (entries key E) i.
Proof. intros. unfold entries. now rewrite fold_left_app. Qed.

Lemma entries_in : forall key E i, In i (entries key E) -> In i E /\ key_at i = key.
Proof.
  intros key E i. induction E as [|j E IH] using rev_ind; [intros []|]. rewrite entries_snoc. unfold add_entry. rewrite in_app_iff.
  destruct (str_eq_spec (key_at j) key) as [Hk|]; cbn [andb]; [|intros H; destruct (IH H); auto].
  destruct (negb _); [|intros H; destruct (IH H); auto]. rewrite in_app_iff. intros [H|[<-|[]]]; [destruct (IH H); auto | split; [right; now left | exact Hk]].
Qed.

Lemma entries_some : forall key E i, In i E -> key_at i = key -> entries key E <> [].
Proof.
  intros key E i. induction E as [|j E IH] using rev_ind; [intros []|]. rewrite entries_snoc, in_app_iff. unfold add_entry.
  intros [H|[->|[]]] Hk.
  - specialize (IH H Hk). destruct (_ && _); [|exact IH]. now destruct (entries key E).
  - destruct (str_eq_spec (key_at i) key); [|contradiction]. cbn [andb]. destruct (existsb _ _) eqn:X; cbn [negb]; [|now destruct (entries key E)].
    intros N. now rewrite N in X.
Qed.

Lemma entries_none : forall key E, (forall i, In i E -> key_at i <> key) -> entries key E = [].
Proof.
  intros key E H. destruct (entries key E) as [|i l] eqn:D; [reflexivity|]. exfalso.
  destruct (entries_in key E i) as [H1 H2]; [rewrite D; now left|]. now apply (H i).
Qed.

Lemma put_lines_text : forall ils r, (forall i, In i ils -> good_line i) -> put_lines dic ils r = Ret (r ++ text_of ils)%string.
Proof.
  induction ils as [|i ils IH]; intros r G; cbn [put_lines text_of fold_right]; [now rewrite sapp_nil_r|].
  destruct (good_key i (G i ltac:(now left))) as (rest & H & L & _). rewrite H, L. rewrite IH by (intros; apply G; now right).
  now rewrite !sapp_assoc.
Qed.

(** ** Trees that hold a list of lines *)
Section Holds.
Context (E : list Z) (n : array pat_node) (z : Z).

(** The leaf [z] has no line; every other one has those of its key. *)
Definition leaf_key (a : Z) : string := if a =? z then EmptyString else key_at (index (n a)).

Record holds (t : ptree) : Prop := {
  holds_top : checkbit (n top) = -1;
  holds_rep : rep n (-1) (p_right (n top)) t;
  holds_split : split n leaf_key t;
  holds_z : In z (leaves t);
  holds_lost : forall s, hash_check_proc dic (index (n z)) <> Ret s;
  holds_il : forall a, In a (leaves t) -> a <> z -> il (n a) = entries (leaf_key a) E /\ il (n a) <> [];
  holds_all : forall i, In i E -> exists a, In a (leaves t) /\ a <> z /\ leaf_key a = key_at i;
  holds_good : forall i, In i E -> good_line i }.

Context (t : ptree) (H : holds t).

Lemma leaf_lines : forall a, In a (leaves t) -> a <> z -> (forall i, In i (il (n a)) -> good_line i) /\
  In (index (n a)) (il (n a)) /\ leaf_key a = key_at (index (n a)).
Proof using H.
  intros a Ha Hz. destruct (holds_il t H a Ha Hz) as [I N]. repeat split.
  - rewrite I. intros i Hi. apply (holds_good t H). now apply entries_in in Hi as [Hi _].
  - unfold index. destruct (il (n a)); [congruence | now left].
  - unfold leaf_key. now destruct (Z.eqb_spec a z).
Qed.

Lemma leaf_line : forall a, In a (leaves t) -> a <> z -> exists rest,
  hash_check_proc dic (index (n a)) = Ret (leaf_key a ++ String TAB rest)%string /\ leaf_key a <> EmptyString /\ plain (leaf_key a) = true.
Proof using H.
  intros a Ha Hz. destruct (leaf_lines a Ha Hz) as (G & I & ->). destruct (good_key _ (G _ I)) as (rest & E1 & _ & N & P & _). eauto.
Qed.

Lemma leaf_of : forall key, entries key E <> [] -> exists a, In a (leaves t) /\ a <> z /\ leaf_key a = key.
Proof using H.
  intros key N. destruct (entries key E) as [|i l] eqn:D; [congruence|]. destruct (entries_in key E i) as [I <-]; [rewrite D; now left|]. now apply (holds_all t H).
Qed.

Lemma step_top : forall key, step n key top = p_right (n top).
Proof using H. intros key. unfold step. now rewrite (holds_top t H). Qed.

Lemma search_leaf : forall key, descend n key short_steps top = Ret (find n key t).
Proof using H.
  intros key. apply descend_find; rewrite ?(step_top key), (holds_top t H); [apply (holds_rep t H) | lia | unfold short_steps; lia].
Qed.

(** The search for a key finds its lines; without any it finds nothing, or ends at the leaf without a line. *)
Lemma exact_search : forall key r,
  match entries key E with
  | [] => pat_search_exact dic n key top r = Ret (find n key t, r) \/ exists e, pat_search_exact dic n key top r = Err e
  | ils => pat_search_exact dic n key top r = Ret (find n key t, (r ++ text_of ils)%string)
  end.
Proof using H.
  intros key r. unfold pat_search_exact. rewrite search_leaf. set (a := find n key t). assert (Ha : In a (leaves t)) by apply find_in.
  assert (F : entries key E <> [] -> a <> z /\ leaf_key a = key).
  { intros N. destruct (leaf_of key N) as (b & Hb & Hz & <-). unfold a. now rewrite (find_leaf n leaf_key t b (holds_split t H) Hb). }
  destruct (Z.eq_dec a z) as [Ez|Hz].
  - destruct (entries key E) eqn:D; [|now destruct (F ltac:(congruence))]. right. rewrite Ez.
    destruct (hash_check_proc dic (index (n z))) as [s|e] eqn:L; [now destruct (holds_lost t H s) | eauto].
  - destruct (leaf_line a Ha Hz) as (rest & L & Nk & P). rewrite L, (cut_line _ _ Nk P).
    destruct (str_eq_spec key (leaf_key a)) as [Ek|Nk'].
    + destruct (holds_il t H a Ha Hz) as [I N]. rewrite <- Ek in I. rewrite <- I. rewrite put_lines_text by (apply leaf_lines; assumption).
      destruct (il (n a)); [congruence | reflexivity].
    + destruct (entries key E) eqn:D; [now left|]. destruct (F ltac:(congruence)). congruence.
Qed.
End Holds.
End Dictionary.
