(* ===== verification/PatPrefix.v ===== *)
(** * The search for all prefixes (src/juman/lib/pat.c, pat_search)

    Keys of characters of three bytes: at a check bit that is a multiple of 24 the left side is the one word that ends
    there, so the prefixes of a text are found on the way of the text itself. *)
From Stdlib Require Import ZArith List Bool String Ascii Lia Sorted.
Import ListNotations.
From S2P Require Import Prelude CStr Pat PatBits PatTree.

(** Characters of three bytes, without those of ASCII *)
Definition high (s : string) : bool := forallb (fun v => 128 <=? v) (bytes s).
Definition wide (s : string) : bool := high s && (slen s mod 3 =? 0).

Lemma high_bits : forall s i, high s = true -> 0 <= i < slen s -> pat_bits s (8 * i) = 1.
Proof.
  induction s as [|c s IH]; intros i W Hi; unfold slen in *; cbn [String.length] in Hi; [lia|].
  change (high (String c s)) with ((128 <=? byte_of c) && high s) in W. apply andb_prop in W as [W1 W2].
  destruct (Z.eq_dec i 0) as [->|].
  - rewrite pat_bits_head by lia. change (7 - 8 * 0) with 7. pose proof (byte_of_range c) as R.
    assert (Z.testbit (byte_of c) 7 = true) as ->; [|reflexivity]. rewrite Z.testbit_true by lia.
    assert (byte_of c / 2 ^ 7 = 1) as -> by (symmetry; apply Z.div_unique with (byte_of c - 128); lia). reflexivity.
  - rewrite pat_bits_tail by lia. replace (8 * i - 8) with (8 * (i - 1)) by lia. apply IH; [exact W2 | lia].
Qed.

Lemma high_end : forall s i, high s = true -> 0 <= i -> pat_bits s (8 * i) = 0 -> slen s <= i.
Proof. intros s i W Hi B. destruct (Z.lt_ge_cases i (slen s)); [|assumption]. rewrite high_bits in B by (auto; lia). lia. Qed.

Lemma one_inside : forall s b, pat_bits s b = 1 -> 0 <= b -> b < 8 * slen s.
Proof. intros s b B Hb. destruct (Z.lt_ge_cases b (8 * slen s)); [assumption|]. rewrite pat_bits_end in B by lia. lia. Qed.

Lemma prefix_bits : forall w key b, starts_with w key = true -> 0 <= b < 8 * slen w -> pat_bits key b = pat_bits w b.
Proof. intros w key b P Hb. apply starts_with_spec in P as [r ->]. now apply pat_bits_app. Qed.

Lemma stake_all : forall s, stake (String.length s) s = s.
Proof. intros s. rewrite <- (sapp_nil_r s) at 2. apply stake_app. Qed.

Lemma strncmp_prefix : forall w key, strncmp_eq key w (slen w) = starts_with w key.
Proof.
  intros w key. unfold strncmp_eq, slen. rewrite Nat2Z.id, stake_all. apply eq_true_iff_eq. rewrite starts_with_spec. destruct (str_eq_spec (stake (String.length w) key) w) as [E|N].
  - split; [intros _|reflexivity]. revert key E. induction w as [|c w IH]; intros key E; [exists key; reflexivity|]. destruct key as [|d key]; [discriminate|].
    cbn [String.length stake] in E. injection E as -> E. destruct (IH key E) as [r ->]. now exists r.
  - split; [discriminate|]. intros [r ->]. now rewrite stake_app in N.
Qed.

Lemma strncmp_refl_prefix : forall w x key, starts_with x key = true -> stake (String.length w) w = stake (String.length w) x -> slen w <= slen x ->
  starts_with w key = true.
Proof.
  intros w x key P E L. apply starts_with_spec in P as [r ->]. rewrite stake_all in E. unfold slen in L. revert x E L.
  induction w as [|c w IH]; intros x E L; [reflexivity|]. destruct x as [|d x]; [discriminate|]. cbn [String.length stake] in *. injection E as -> E.
  cbn [append starts_with]. rewrite Ascii.eqb_refl. apply IH; [exact E | lia].
Qed.

Fixpoint rightmost (t : ptree) : Z := match t with PL a => a | PN _ _ r => rightmost r end.

Lemma rightmost_in : forall t, In (rightmost t) (leaves t).
Proof. induction t as [a|a l IHl r IHr]; cbn; [now left | apply in_or_app; auto]. Qed.

Lemma some_leaf : forall t, exists a, In a (leaves t).
Proof. intros t. exists (rightmost t). apply rightmost_in. Qed.

Section Prefixes.
Context (dic : string) (E : list Z) (n : array pat_node) (z : Z) (t : ptree) (H : holds dic E n z t).
Context (Hwide : forall a, In a (leaves t) -> a <> z -> wide (leaf_key dic n z a) = true) (key : string).

Local Abbreviation K := (leaf_key dic n z).

Definition is_prefix (a : Z) : bool := negb (a =? z) && starts_with (K a) key.
Definition matched (u : ptree) : list Z := filter is_prefix (leaves u).
Definition texts (l : list Z) : string := fold_right (fun a r => text_of dic (il (n a)) ++ r)%string EmptyString l.

Definition finish (w : way) : res (Z * string) :=
  match w with
  | Stopped x r => Ret (x, r)
  | Arrived x tmp len r => if negb (tmp =? x) || (top =? x) then r <- end_word dic n key x len r ;; Ret (x, r) else Ret (x, r)
  end.

Definition enter (fuel : nat) (x tmp len : Z) (r : string) : res way :=
  if checkbit (n x) <? checkbit (n (step n key x)) then prefixes dic n key fuel (step n key x) tmp len r else Ret (Arrived (step n key x) tmp len r).

Lemma prefixes_enter : forall fuel x tmp len r, prefixes dic n key (Datatypes.S fuel) x tmp len r =
  (w <- threshold dic n key x tmp len r ;; match w with Stopped _ _ => Ret w | Arrived _ tmp len r => enter fuel x tmp len r end).
Proof. reflexivity. Qed.

Lemma rep_node : forall c p a l r, rep n c p (PN a l r) ->
  a = p /\ c < checkbit (n p) < 32768 /\ rep n (checkbit (n p)) (p_left (n p)) l /\ rep n (checkbit (n p)) (p_right (n p)) r.
Proof. intros c p a l r R. inversion R; subst. auto. Qed.

(** A part of the tree below the leaf without a line *)
Record part (u : ptree) : Prop := {
  part_split : split n K u;
  part_leaves : forall a, In a (leaves u) -> In a (leaves t) /\ a <> z;
  part_top : In top (leaves u) -> rightmost u = top }.

Lemma part_words : forall u a, part u -> In a (leaves u) -> high (K a) = true /\ slen (K a) mod 3 = 0 /\ 0 < slen (K a) /\ plain (K a) = true.
Proof using H Hwide.
  intros u a P Ha. destruct (part_leaves u P a Ha) as [I Z1]. pose proof (Hwide a I Z1) as W. apply andb_prop in W as [W1 W2].
  destruct (leaf_line dic E n z t H a I Z1) as (_ & _ & N & Pl).  repeat split; auto; [lia|].
  destruct (K a); [congruence | unfold slen; cbn; lia].
Qed.

Lemma part_l : forall a l r, part (PN a l r) -> part l.
Proof.
  intros a l r P. destruct (part_split _ P) as (H0 & Hl & Hr & _ & Sl & _). constructor; [exact Sl| |].
  - intros x Hx. apply (part_leaves _ P). cbn. apply in_or_app; auto.
  - intros Hx. exfalso. pose proof (part_top _ P ltac:(cbn; apply in_or_app; auto)) as R. cbn in R. pose proof (rightmost_in r) as I. rewrite R in I.
    specialize (Hl _ Hx). specialize (Hr _ I). lia.
Qed.

Lemma part_r : forall a l r, part (PN a l r) -> part r.
Proof.
  intros a l r P. destruct (part_split _ P) as (_ & _ & _ & _ & _ & Sr). constructor; [exact Sr| |].
  - intros x Hx. apply (part_leaves _ P). cbn. apply in_or_app; auto.
  - intros Hx. apply (part_top _ P). cbn. apply in_or_app; auto.
Qed.

Lemma top_not_l : forall a l r, part (PN a l r) -> ~ In top (leaves l).
Proof.
  intros a l r P Hx. destruct (part_split _ P) as (_ & Hl & Hr & _). pose proof (part_top _ P ltac:(cbn; apply in_or_app; auto)) as R. cbn in R.
  pose proof (rightmost_in r) as I. rewrite R in I. specialize (Hl _ Hx). specialize (Hr _ I). lia.
Qed.

Lemma matched_none : forall u, (forall a, In a (leaves u) -> a <> z -> starts_with (K a) key = true -> False) -> matched u = [].
Proof.
  intros u F. apply filter_none. intros a Ha. unfold is_prefix. destruct (Z.eqb_spec a z); [reflexivity|]. cbn. apply not_true_is_false. eauto.
Qed.

(** Going left no word on the right is missed. *)
Lemma right_none : forall a l r, part (PN a l r) -> pat_bits key (checkbit (n a)) <> 1 -> matched r = [].
Proof.
  intros a l r P B. destruct (part_split _ P) as (H0 & _ & Hr & _). apply matched_none. intros x Hx _ S. apply B. specialize (Hr x Hx).
  rewrite (prefix_bits _ _ _ S); [exact Hr|]. split; [exact H0|]. now apply one_inside.
Qed.

(** Going right no word on the left is missed, but at a threshold. *)
Lemma left_none : forall a l r, part (PN a l r) -> pat_bits key (checkbit (n a)) = 1 -> at_threshold (checkbit (n a)) = false -> matched l = [].
Proof using H Hwide.
  intros a l r P B T. destruct (part_split _ P) as (H0 & Hl & Hr & Ha & _). set (c := checkbit (n a)) in *. apply matched_none. intros x Hx _ S. specialize (Hl x Hx).
  destruct (part_words _ x (part_l _ _ _ P) Hx) as (W & M & L & _). destruct (Z.lt_ge_cases c (8 * slen (K x))) as [C|C].
  { rewrite (prefix_bits _ _ _ S) in B by lia. lia. }
  assert (c <> 8 * slen (K x)).
  { intros Ec. unfold at_threshold, SIKII_BIT in T. rewrite Z.rem_mod_nonneg in T by lia. apply Z.mod_divide in M as [m M]; [|lia].
    rewrite Ec, M in T. replace (8 * (m * 3)) with (m * 24) in T by lia. rewrite Z.mod_mul in T by lia. cbn in T. lia. }
  destruct (some_leaf r) as [b Hb]. specialize (Hr b Hb). destruct (part_words _ b (part_r _ _ _ P) Hb) as (Wb & _).
  pose proof (Ha x b (proj2 (in_app_iff _ _ _) (or_introl Hx)) (proj2 (in_app_iff _ _ _) (or_intror Hb)) (8 * slen (K x)) ltac:(lia)) as D.
  rewrite pat_bits_end in D by lia. symmetry in D. apply high_end in D; [|exact Wb | lia]. rewrite pat_bits_end in Hr by lia. lia.
Qed.

(** The left side of a threshold is one word. *)
Lemma threshold_word : forall a l r, part (PN a l r) -> at_threshold (checkbit (n a)) = true ->
  exists w, l = PL w /\ checkbit (n a) = 8 * slen (K w).
Proof using H Hwide.
  intros a l r P T. pose proof (part_split _ P) as (H0 & Hl & Hr & Ha & Sl & _). set (c := checkbit (n a)) in *.
  unfold at_threshold, SIKII_BIT in T. rewrite Z.rem_mod_nonneg in T by lia. apply andb_prop in T as [T _]. apply Z.eqb_eq, Z.mod_divide in T as [k T]; [|lia].
  assert (Len : forall x, In x (leaves l) -> 8 * slen (K x) = c).
  { intros x Hx. destruct (part_words _ x (part_l _ _ _ P) Hx) as (W & _ & L & _). specialize (Hl x Hx). replace c with (8 * (3 * k)) in Hl by lia.
    apply high_end in Hl; [|exact W | lia]. destruct (Z.eq_dec (slen (K x)) (3 * k)); [lia|]. exfalso.
    destruct (some_leaf r) as [b Hb]. specialize (Hr b Hb). destruct (part_words _ b (part_r _ _ _ P) Hb) as (Wb & _).
    pose proof (Ha x b (proj2 (in_app_iff _ _ _) (or_introl Hx)) (proj2 (in_app_iff _ _ _) (or_intror Hb)) (8 * slen (K x)) ltac:(lia)) as D.
    rewrite pat_bits_end in D by lia. symmetry in D. apply high_end in D; [|exact Wb | lia]. apply one_inside in Hr; lia. }
  destruct l as [w|b l1 l2]; [exists w; split; [reflexivity|]; symmetry; apply Len; now left|]. exfalso.
  destruct (some_leaf l1) as [x Hx], (some_leaf l2) as [y Hy]. cbn [leaves] in *. destruct Sl as (_ & S1 & S2 & _).
  specialize (S1 x Hx). specialize (S2 y Hy). assert (Ix : In x (leaves l1 ++ leaves l2)) by (apply in_or_app; auto). assert (Iy : In y (leaves l1 ++ leaves l2)) by (apply in_or_app; auto).
  destruct (part_words _ x (part_l _ _ _ P) Ix) as (_ & _ & _ & Px). destruct (part_words _ y (part_l _ _ _ P) Iy) as (_ & _ & _ & Py).
  assert (K x = K y) as EK; [|rewrite EK in S1; lia]. apply agree_all; auto. intros i Hi. destruct (Z.lt_ge_cases i c).
  - apply Ha; [apply in_or_app; auto | apply in_or_app; auto | lia].
  - rewrite !pat_bits_end by (rewrite ?(Len x Ix), ?(Len y Iy); lia). reflexivity.
Qed.

(** When the word of a threshold is no prefix, none below it is. *)
Lemma threshold_none : forall a w r, part (PN a (PL w) r) -> checkbit (n a) = 8 * slen (K w) -> starts_with (K w) key = false -> matched (PN a (PL w) r) = [].
Proof using H Hwide.
  intros a w r P C F. pose proof (part_split _ P) as (_ & _ & _ & Ha & _). apply matched_none. cbn [leaves]. intros x Hx _ S.
  apply in_app_or in Hx as [[<-|[]]|Hx]; [congruence|]. destruct (part_words _ w (part_l _ _ _ P) ltac:(now left)) as (W & _ & L & _).
  pose proof (Ha w x ltac:(now left) ltac:(now right)) as D. rewrite C in D. destruct (bits_prefix (K w) (K x) (slen (K w)) D) as [E1 E2]; [lia | | lia|].
  - intros i Hi. exists 0. split; [lia|]. rewrite Z.add_0_r. now apply high_bits.
  - unfold slen in E1. rewrite Nat2Z.id in E1. now rewrite (strncmp_refl_prefix _ _ _ S E1 E2) in F.
Qed.

(** The end of the way, at a leaf that was not put out yet *)
Lemma finish_leaf : forall x tmp len r, In x (leaves t) -> x <> z -> (tmp = x -> top = x) -> len < slen key ->
  finish (Arrived x tmp len r) = Ret (x, (r ++ texts (matched (PL x)))%string).
Proof using H.
  intros x tmp len r I Hz T L. cbn [finish]. replace (negb (tmp =? x) || (top =? x)) with true
    by (destruct (Z.eqb_spec tmp x) as [->|]; [rewrite T by reflexivity; now rewrite Z.eqb_refl, orb_true_r | reflexivity]).
  unfold end_word. destruct (leaf_line dic E n z t H x I Hz) as (rest & Hc & Nk & Pk).  rewrite Hc, span_not_sep by (now apply plain_free).
  rewrite strncmp_prefix. unfold matched. cbn [leaves filter]. unfold is_prefix. replace (x =? z) with false by lia. cbn [negb andb].
  replace (len =? slen key) with false by lia. rewrite andb_true_r. destruct (starts_with (K x) key); cbn [texts fold_right]; [|now rewrite sapp_nil_r].
  rewrite put_lines_text by (apply (leaf_lines dic E n z t H x I Hz)). now rewrite sapp_nil_r.
Qed.

Lemma texts_app : forall l1 l2, texts (l1 ++ l2) = (texts l1 ++ texts l2)%string.
Proof. induction l1 as [|a l1 IH]; intros l2; [reflexivity|]. cbn. rewrite sapp_assoc. f_equal. apply IH. Qed.

Lemma matched_node : forall a l r, matched (PN a l r) = matched l ++ matched r.
Proof. intros. apply filter_app. Qed.

Lemma enter_spec : forall u x tmp len r fuel, rep n (checkbit (n x)) (step n key x) u -> checkbit (n x) < 32768 ->
  32768 - checkbit (n x) <= Z.of_nat fuel -> part u -> (In tmp (leaves u) -> tmp = top) -> len < slen key ->
  exists y, (w <- enter fuel x tmp len r ;; finish w) = Ret (y, (r ++ texts (matched u))%string).
Proof using H Hwide.
  intros u. induction u as [a|a l IHl r IHr]; intros x tmp len s fuel R Cx F P T L; unfold enter; inv R; set (a := step n key x) in *.
  - replace (checkbit (n x) <? checkbit (n a)) with false by lia. exists a. destruct (part_leaves _ P a ltac:(now left)) as [I Z1].
    apply finish_leaf; auto. intros ->. rewrite T; [reflexivity | now left].
  - replace (checkbit (n x) <? checkbit (n a)) with true by lia. destruct fuel as [|fuel]; [lia|]. rewrite prefixes_enter. unfold threshold.
    destruct (at_threshold (checkbit (n a))) eqn:TH.
    + destruct (threshold_word a l r P TH) as (w & -> & C). destruct (part_leaves _ P w ltac:(now left)) as [I Z1].
      match goal with R : rep _ _ _ (PL w) |- _ => assert (p_left (n a) = w /\ checkbit (n w) <= checkbit (n a)) as [Ew Cw] by (inversion R; subst; auto) end.
      assert (LM : leftmost n short_steps a = Ret w).
      { unfold short_steps. destruct (Z.to_nat 65536) eqn:D; [lia|]. cbn [leftmost]. rewrite Ew. replace (checkbit (n a) <? checkbit (n w)) with false by lia. reflexivity. }
      rewrite LM. destruct (leaf_line dic E n z t H w I Z1) as (rest & Hc & Nk & Pk).  rewrite Hc, (cut_line _ _ Nk Pk).
      replace (checkbit (n a) / 8) with (slen (K w)) by (rewrite C, Z.mul_comm, Z.div_mul; lia). rewrite strncmp_prefix. rewrite matched_node.
      destruct (starts_with (K w) key) eqn:S.
      * rewrite put_lines_text by (apply (leaf_lines dic E n z t H w I Z1)). assert (M : matched (PL w) = [w]).
        { unfold matched, is_prefix. cbn [leaves filter]. rewrite S. now replace (w =? z) with false by lia. }
        rewrite M, texts_app. cbn [texts fold_right]. rewrite sapp_nil_r, <- sapp_assoc. destruct (pat_bits key (checkbit (n a)) =? 1) eqn:B.
        -- apply IHr; [unfold step; now rewrite B | lia | lia | now apply part_r in P | | assert (0 <= slen (K w)) by (unfold slen; lia); apply Z.eqb_eq, one_inside in B; lia].
           intros Hw. exfalso. destruct (part_split _ P) as (_ & Hl & Hr & _). specialize (Hl w ltac:(now left)). specialize (Hr w Hw). lia.
        -- rewrite (right_none _ _ _ P) by lia. unfold enter, step. rewrite B, Ew. replace (checkbit (n a) <? checkbit (n w)) with false by lia.
           exists w. cbn [finish texts fold_right]. rewrite Z.eqb_refl, sapp_nil_r. pose proof (top_not_l _ _ _ P) as NT. cbn [leaves In] in NT.
           replace (top =? w) with false by (symmetry; apply Z.eqb_neq; intros Et; apply NT; now left). reflexivity.
      * exists a. rewrite <- (matched_node a), (threshold_none _ _ _ P C S). cbn. now rewrite sapp_nil_r.
    + rewrite matched_node. destruct (pat_bits key (checkbit (n a)) =? 1) eqn:B.
      * rewrite (left_none _ _ _ P) by (auto; lia). apply IHr; [unfold step; now rewrite B | lia | lia | now apply part_r in P | | exact L].
        intros Hw. apply T. cbn. apply in_or_app; auto.
      * rewrite (right_none _ _ _ P), app_nil_r by lia. apply IHl; [unfold step; now rewrite B | lia | lia | now apply part_l in P | | exact L].
        intros Hw. apply T. cbn. apply in_or_app; auto.
Qed.

(** ** The whole tree *)
Context (Htop : top = z \/ rightmost t = top) (Hsome : E <> []) (Hkey : pat_bits key 0 = 1).

Lemma root_bit : exists a l r, t = PN a l r /\ checkbit (n a) = 0.
Proof using H Hwide Hsome.
  clear Htop Hkey. destruct E as [|i E'] eqn:EE; [congruence|]. destruct (holds_all dic _ n z t H i ltac:(now left)) as (a & Ha & Az & _). pose proof (holds_z dic _ n z t H) as Hz.
  pose proof (holds_split dic _ n z t H) as S. destruct t as [b|b l r]; [cbn in *; intuition congruence|].
  exists b, l, r. split; [reflexivity|]. destruct S as (H0 & _ & _ & A & _). cbn [leaves] in *. specialize (A a z Ha Hz 0).
  destruct (Z.eq_dec (checkbit (n b)) 0); [assumption|]. exfalso. specialize (A ltac:(lia)). unfold leaf_key at 2 in A. rewrite Z.eqb_refl, pat_bits_nil in A by lia.
  pose proof (Hwide a Ha Az) as W. apply andb_prop in W as [W _]. destruct (leaf_line dic _ n z _ H a Ha Az) as (_ & _ & N & _).
  change 0 with (8 * 0) in A. rewrite high_bits in A; [lia | exact W|]. destruct (leaf_key dic n z a); [congruence | unfold slen; cbn; lia].
Qed.

Lemma prefix_search_tree : forall r, exists y, pat_search dic n key top r = Ret (y, (r ++ texts (matched t))%string).
Proof using H Hwide Htop Hsome Hkey.
  intros s. destruct root_bit as (a & l & r & Et & C). pose proof (holds_rep dic E n z t H) as R. pose proof (holds_split dic E n z t H) as S.
  pose proof (step_top dic E n z t H key) as ST. pose proof (holds_top dic E n z t H) as CT. pose proof (holds_z dic E n z t H) as Hz. rewrite Et in R, S, Hz. apply rep_node in R as (-> & Cb & Rl & Rr).
  pose proof S as (_ & Sl & Sr & _ & _ & Srr). rewrite C in Sl, Sr.
  assert (Zr : ~ In z (leaves r)). { intros I. specialize (Sr z I). unfold leaf_key in Sr. rewrite Z.eqb_refl in Sr. cbn in Sr. discriminate. }
  assert (P : part r).
  { constructor; [exact Srr| |].
    - intros x Hx. split; [rewrite Et; cbn; apply in_or_app; auto | intros ->; contradiction].
    - intros Hx. destruct Htop as [<-|Ht]; [contradiction|]. rewrite Et in Ht. exact Ht. }
  assert (L0 : 0 < slen key) by (apply one_inside in Hkey; lia).
  assert (Ml : matched l = []).
  { apply matched_none. intros x Hx Nz Sx. specialize (Sl x Hx). assert (It : In x (leaves t)) by (rewrite Et; cbn; apply in_or_app; auto).
    pose proof (Hwide x It Nz) as W.
    apply andb_prop in W as [W _]. destruct (leaf_line dic E n z t H x It Nz) as (_ & _ & N & _). 
    change 0 with (8 * 0) in Sl. rewrite high_bits in Sl; [lia | exact W|]. destruct (K x); [congruence | unfold slen; cbn; lia]. }
  rewrite Et, matched_node, Ml. cbn [app]. unfold pat_search, short_steps. destruct (Z.to_nat 65536) as [|[|f]] eqn:F; [lia | lia|].
  rewrite prefixes_enter. unfold threshold at 1. rewrite CT. cbn [at_threshold]. change (at_threshold (-1)) with false. cbn iota. unfold enter at 1. rewrite ST.
  replace (checkbit (n top) <? checkbit (n (p_right (n top)))) with true by lia. rewrite prefixes_enter. unfold threshold. rewrite C. change (at_threshold 0) with false. cbn iota.
  destruct (enter_spec r (p_right (n top)) top 0 s f) as [y Hy]; try lia; auto; [unfold step; rewrite C, Hkey; now rewrite <- C |].
  exists y. exact Hy.
Qed.
(** ** The words that are found *)
Lemma part_sorted : forall u, split n K u -> (forall a, In a (leaves u) -> In a (leaves t)) ->
  StronglySorted (fun v w => slen v < slen w) (map K (matched u)).
Proof using H.
  clear Htop Hsome Hkey Hwide. intros u. induction u as [a|a l IHl r IHr]; intros S I.
  - unfold matched. cbn [leaves filter]. destruct (is_prefix a); cbn [map]; repeat constructor.
  - destruct S as (H0 & Hl & Hr & _ & Sl & Sr). rewrite matched_node, map_app. cbn [leaves] in I.
    specialize (IHl Sl ltac:(intros; apply I, in_or_app; auto)). specialize (IHr Sr ltac:(intros; apply I, in_or_app; auto)).
    assert (C : forall v w, In v (map K (matched l)) -> In w (map K (matched r)) -> slen v < slen w).
    { intros v w Iv Iw. apply in_map_iff in Iv as (x & <- & Ix), Iw as (y & <- & Iy). apply filter_In in Ix as [Ix Px], Iy as [Iy Py].
      apply andb_prop in Px as [_ Px], Py as [_ Py]. specialize (Hl x Ix). specialize (Hr y Iy).
      pose proof (one_inside _ _ Hr H0). rewrite <- (prefix_bits _ _ _ Py) in Hr by lia.
      destruct (Z.lt_ge_cases (checkbit (n a)) (8 * slen (K x))); [|lia]. rewrite (prefix_bits _ _ _ Px) in Hr by lia. lia. }
    induction (map K (matched l)) as [|v l1 IH1]; [exact IHr|]. inv IHl. cbn [app]. constructor; [apply IH1; auto; intros; apply C; auto; now right|].
    apply Forall_app. split; [assumption|]. apply Forall_forall. intros w Iw. apply C; [now left | exact Iw].
Qed.

Definition words_text (ws : list string) : string := fold_right (fun w r => text_of dic (entries dic w E) ++ r)%string EmptyString ws.

Lemma matched_text : texts (matched t) = words_text (map K (matched t)).
Proof using H.
  unfold texts, words_text. assert (I : forall a, In a (matched t) -> In a (leaves t) /\ a <> z).
  { intros a Ha. apply filter_In in Ha as [I P]. apply andb_prop in P as [P _]. split; [exact I | lia]. }
  induction (matched t) as [|a l IH]; [reflexivity|]. cbn [fold_right map]. rewrite IH by (intros; apply I; now right).
  destruct (I a ltac:(now left)) as [Ia Za]. now destruct (holds_il dic E n z t H a Ia Za) as [-> _].
Qed.

Lemma prefix_search : forall r, exists y ws, StronglySorted (fun v w => slen v < slen w) ws /\
  (forall w, In w ws <-> starts_with w key = true /\ entries dic w E <> []) /\
  pat_search dic n key top r = Ret (y, (r ++ words_text ws)%string).
Proof using H Hwide Htop Hsome Hkey.
  intros r. destruct (prefix_search_tree r) as [y Hy]. exists y, (map K (matched t)). rewrite <- matched_text. split; [|split; [|exact Hy]].
  - apply part_sorted; auto. apply (holds_split dic E n z t H).
  - intros w. rewrite in_map_iff. split.
    + intros (a & <- & I). apply filter_In in I as [I P]. apply andb_prop in P as [Pz P]. split; [exact P|].
      destruct (holds_il dic E n z t H a I ltac:(lia)) as [<- N]. exact N.
    + intros [P N]. destruct (leaf_of dic E n z t H w N) as (a & I & Az & <-). exists a. split; [reflexivity|]. apply filter_In. split; [exact I|].
      unfold is_prefix. rewrite P. now replace (a =? z) with false by lia.
Qed.
End Prefixes.
