(* ===== verification/PatInsert.v ===== *)
(** * Building a Patricia dictionary (src/juman/lib/pat.c, src/juman/makepat/makepat.c)

    [pat_insert] puts a new node where the key leaves the tree, or a line into the node of its key; so
    [insert_dic_data] makes a tree that holds the lines of the dictionary.  No key may be the beginning of
    one that comes before it. *)
From Stdlib Require Import ZArith List Bool String Ascii Lia Sorted.
Import ListNotations.
From S2P Require Import Prelude CStr Pat PatBits PatTree.

(** ** One more leaf in a tree *)
Section Graft.
Context (n : array pat_node) (key : string) (d a : Z).

Definition fork (s : ptree) : ptree := if pat_bits key d =? 1 then PN a s (PL a) else PN a (PL a) s.

Fixpoint graft (t : ptree) : ptree :=
  match t with
  | PL _ => fork t
  | PN b l r =>
      if checkbit (n b) <? d then if pat_bits key (checkbit (n b)) =? 1 then PN b l (graft r) else PN b (graft l) r
      else fork t
  end.

Lemma fork_leaves : forall s x, In x (leaves (fork s)) <-> x = a \/ In x (leaves s).
Proof. intros s x. unfold fork. destruct (_ =? 1); cbn; rewrite ?in_app_iff; cbn; intuition auto. Qed.

Lemma fork_inner : forall s x, In x (inner (fork s)) <-> x = a \/ In x (inner s).
Proof. intros s x. unfold fork. destruct (_ =? 1); cbn; rewrite ?in_app_iff; cbn; intuition auto. Qed.

Lemma graft_leaves : forall t x, In x (leaves (graft t)) <-> x = a \/ In x (leaves t).
Proof.
  induction t as [b|b l IHl r IHr]; intros x; cbn [graft]; [apply fork_leaves|]. destruct (_ <? d); [|apply fork_leaves].
  destruct (_ =? 1); cbn; rewrite !in_app_iff, ?IHl, ?IHr; tauto.
Qed.

Lemma graft_inner : forall t x, In x (inner (graft t)) <-> x = a \/ In x (inner t).
Proof.
  induction t as [b|b l IHl r IHr]; intros x; cbn [graft]; [apply fork_inner|]. destruct (_ <? d); [|apply fork_inner].
  destruct (_ =? 1); cbn; rewrite !in_app_iff, ?IHl, ?IHr; intuition auto.
Qed.

Lemma fork_nodup : forall s, ~ In a (inner s) -> NoDup (inner s) -> NoDup (inner (fork s)).
Proof. intros s Na N. unfold fork. destruct (_ =? 1); cbn; rewrite ?app_nil_r; now constructor. Qed.

Lemma nodup_swap : forall (l1 l2 l2' : list Z), NoDup (l1 ++ l2) -> NoDup l2' -> (forall x, In x l2' -> In x l2 \/ x = a) -> ~ In a l1 -> NoDup (l1 ++ l2').
Proof.
  induction l1 as [|x l1 IH]; intros l2 l2' N N2 I Na; [exact N2|]. cbn [app] in *. inv N. constructor.
  - rewrite in_app_iff in *. cbn in Na. intros [X|X]; [tauto|]. destruct (I x X); [tauto|]. subst. tauto.
  - apply (IH l2); auto. cbn in Na. tauto.
Qed.

Lemma nodup_app_l : forall (l1 l2 : list Z), NoDup (l1 ++ l2) -> NoDup l1.
Proof. induction l1 as [|x l1 IH]; intros l2 N; [constructor|]. inv N. constructor; [rewrite in_app_iff in *; tauto | eauto]. Qed.

Lemma nodup_app_r : forall (l1 l2 : list Z), NoDup (l1 ++ l2) -> NoDup l2.
Proof. induction l1 as [|x l1 IH]; intros l2 N; [exact N|]. inv N. eauto. Qed.

Lemma nodup_app_comm : forall (l1 l2 : list Z), NoDup (l1 ++ l2) -> NoDup (l2 ++ l1).
Proof.
  induction l1 as [|x l1 IH]; intros l2 N; [now rewrite app_nil_r|]. inv N. rewrite in_app_iff in *. apply NoDup_app; [now apply nodup_app_r in H2 | constructor; [tauto | now apply nodup_app_l in H2]|].
  intros y Hy [<-|Hz]; [tauto|]. now apply (NoDup_app_sep l1 l2 y H2).
Qed.

Lemma graft_nodup : forall t, ~ In a (inner t) -> NoDup (inner t) -> NoDup (inner (graft t)).
Proof.
  induction t as [b|b l IHl r IHr]; intros Na N; cbn [graft]; [now apply fork_nodup|]. destruct (_ <? d); [|now apply fork_nodup].
  cbn [inner In] in *. rewrite in_app_iff in Na. inv N. rewrite in_app_iff in *. destruct (_ =? 1); cbn [inner]; constructor.
  - rewrite in_app_iff, graft_inner. intuition congruence.
  - apply (nodup_swap _ (inner r)); auto; [apply IHr; [tauto | now apply nodup_app_r in H2] | intros x; rewrite graft_inner; tauto].
  - rewrite in_app_iff, graft_inner. intuition congruence.
  - apply nodup_app_comm. apply nodup_app_comm in H2. apply (nodup_swap _ (inner l)); auto; [apply IHl; [tauto | now apply nodup_app_r in H2] | intros x; rewrite graft_inner; tauto].
Qed.

Section Place.
Context (K : Z -> string).

(** The check bit of the new node is new on its way. *)
Lemma way_bit : forall b l r, split n K (PN b l r) -> differ key (K (find n key (PN b l r))) d -> checkbit (n b) <> d.
Proof.
  intros b l r (H0 & Hl & Hr & _) (_ & _ & D) E. cbn [find] in D. pose proof (pat_bits_01 key d) as B. rewrite E in *. specialize (B H0). destruct B as [B|B]; rewrite B in D.
  - replace (0 =? 1) with false in D by lia. specialize (Hl _ (find_in n key l)). lia.
  - replace (1 =? 1) with true in D by lia. specialize (Hr _ (find_in n key r)). lia.
Qed.

(** The nodes after [link_node] *)
Definition new_node (idx y : Z) : pat_node := if pat_bits key d =? 1 then mkNode [idx] d a y else mkNode [idx] d y a.

Definition linked (idx p y : Z) : array pat_node :=
  aset (aset n a (new_node idx y)) p (if pat_bits key (checkbit (n p)) =? 1 then set_right a (n p) else set_left a (n p)).

Lemma linked_bit : forall idx p y b, b <> a -> p <> a -> checkbit (linked idx p y b) = checkbit (n b).
Proof. intros idx p y b Hb Hp. unfold linked, aset. destruct (Z.eqb_spec b p) as [->|]; [destruct (_ =? 1); reflexivity|]. now destruct (Z.eqb_spec b a). Qed.

Lemma linked_il : forall idx p y b, b <> a -> p <> a -> il (linked idx p y b) = il (n b).
Proof. intros idx p y b Hb Hp. unfold linked, aset. destruct (Z.eqb_spec b p) as [->|]; [destruct (_ =? 1); reflexivity|]. now destruct (Z.eqb_spec b a). Qed.

Lemma linked_other : forall idx p y b, b <> a -> b <> p -> linked idx p y b = n b.
Proof. intros idx p y b Hb Hp. unfold linked, aset. destruct (Z.eqb_spec b p); [contradiction|]. now destruct (Z.eqb_spec b a). Qed.

Lemma linked_new : forall idx p y, p <> a -> linked idx p y a = new_node idx y.
Proof. intros idx p y Hp. unfold linked, aset. destruct (Z.eqb_spec a p); [congruence|]. now rewrite Z.eqb_refl. Qed.

Lemma linked_step : forall idx p y, p <> a -> step (linked idx p y) key p = a.
Proof.
  intros idx p y Hp. unfold step. rewrite linked_bit by auto. unfold linked, aset. rewrite Z.eqb_refl. now destruct (_ =? 1).
Qed.

Lemma new_bit : forall idx y, checkbit (new_node idx y) = d.
Proof. intros. unfold new_node. now destruct (_ =? 1). Qed.

(** The tree behind the new node *)
Lemma fork_rep : forall idx s x y, rep n (checkbit (n x)) y s -> (forall b l r, s = PN b l r -> d < checkbit (n b)) -> checkbit (n x) < d < 32768 ->
  ~ In x (inner s) -> ~ In a (inner s) -> ~ In a (leaves s) -> x <> a ->
  rep (linked idx x y) (checkbit (n x)) a (fork s).
Proof.
  intros idx s x y R G D Nx Na Nl Xa.
  assert (Rs : rep (linked idx x y) d y s).
  { apply rep_frame with (n := n).
    - destruct s as [b|b l r]; inv R; [apply rep_L; lia|]. specialize (G _ _ _ eq_refl). apply rep_N; auto; lia.
    - intros b Hb. apply linked_other; intros ->; contradiction.
    - intros b Hb. apply linked_bit; [intros ->; contradiction | exact Xa]. }
  assert (Ra : rep (linked idx x y) d a (PL a)) by (apply rep_L; rewrite linked_new, new_bit by exact Xa; lia).
  unfold fork. destruct (pat_bits key d =? 1) eqn:B; apply rep_N; rewrite linked_new, ?new_bit by exact Xa; auto; unfold new_node; rewrite B; cbn; auto; lia.
Qed.

Lemma place_graft : forall idx t x fuel, rep n (checkbit (n x)) (step n key x) t -> split n K t -> differ key (K (find n key t)) d ->
  checkbit (n x) < d < 32768 -> NoDup (inner t) -> ~ In x (inner t) -> ~ In a (inner t) -> ~ In a (leaves t) -> x <> a ->
  32768 - checkbit (n x) <= Z.of_nat fuel ->
  exists p y, place n key fuel d x = Ret (p, y) /\ (p = x \/ In p (inner t)) /\
    rep (linked idx p y) (checkbit (n x)) (step (linked idx p y) key x) (graft t).
Proof.
  intros idx t. induction t as [b|b l IHl r IHr]; intros x fuel R S F D N Nx Na Nl Xa Fu; (destruct fuel as [|fuel]; [lia|]); cbn [place].
  - pose proof R as R'. inv R'. set (b := step n key x) in *. replace (checkbit (n x) <? checkbit (n b)) with false by lia. rewrite andb_false_r.
    exists x, b. split; [reflexivity|]. split; [now left|]. rewrite linked_step by exact Xa. apply fork_rep; auto. intros. discriminate.
  - pose proof (way_bit b l r S F) as WB. pose proof R as R'. inv R'. set (b := step n key x) in *. replace (checkbit (n x) <? checkbit (n b)) with true by lia. rewrite andb_true_r.
    cbn [graft]. destruct (Z.ltb_spec (checkbit (n b)) d) as [L|L].
    + pose proof S as (_ & _ & _ & _ & Sl & Sr). cbn [inner leaves In find] in *. rewrite in_app_iff in *. inv N. rewrite in_app_iff in *.
      assert (Bx : b <> x) by tauto. assert (Ba : b <> a) by tauto.
      assert (GO : forall (c o : ptree) p y, (p = b \/ In p (inner c)) -> ~ In x (inner c) -> (forall q, In q (inner o) -> ~ In q (inner c) /\ q <> b /\ q <> a) ->
        ~ In a (inner c) -> (forall q, In q (leaves o) -> q <> a) -> rep n (checkbit (n b)) (if pat_bits key (checkbit (n b)) =? 1 then p_left (n b) else p_right (n b)) o ->
        p <> a /\ step (linked idx p y) key x = b /\ (checkbit (n x) < checkbit (linked idx p y b) < 32768) /\ checkbit (linked idx p y b) = checkbit (n b) /\
        rep (linked idx p y) (checkbit (n b)) (if pat_bits key (checkbit (n b)) =? 1 then p_left (linked idx p y b) else p_right (linked idx p y b)) o /\
        step (linked idx p y) key b = (if pat_bits key (checkbit (n b)) =? 1 then p_right (linked idx p y b) else p_left (linked idx p y b))).
      { intros c o p y Hp Hx Ho Ia Hlo Ro. assert (Pa : p <> a) by (destruct Hp as [->|Hp]; congruence).
        assert (Px : p <> x) by (destruct Hp as [->|Hp]; congruence). rewrite linked_bit by auto. split; [exact Pa|]. split; [unfold step; rewrite linked_other by auto; reflexivity|].
        split; [lia|]. split; [reflexivity|]. split; [|unfold step; now rewrite linked_bit by auto].
        assert (EO : (if pat_bits key (checkbit (n b)) =? 1 then p_left (linked idx p y b) else p_right (linked idx p y b)) =
                     (if pat_bits key (checkbit (n b)) =? 1 then p_left (n b) else p_right (n b))).
        { destruct (Z.eq_dec b p) as [<-|Bp]; [|now rewrite linked_other by auto]. unfold linked, aset. rewrite Z.eqb_refl. now destruct (_ =? 1). }
        rewrite EO. apply rep_frame with (n := n); auto.
        - intros q Hq. destruct (Ho q Hq) as (Q1 & Q2 & Q3). apply linked_other; [exact Q3|]. intros ->. destruct Hp; contradiction.
        - intros q Hq. apply linked_bit; auto. }
      destruct (pat_bits key (checkbit (n b)) =? 1) eqn:B.
      * destruct (IHr b fuel) as (p & y & Ep & Hp & Rp); auto; try lia; try tauto; [unfold step; now rewrite B | now apply nodup_app_r in H2|].
        exists p, y. split; [exact Ep|]. destruct (GO r l p y) as (Pa & Sx & Cb & Ce & Ro & Sb); auto; try tauto.
        -- intros q Hq. repeat split; [intros Q; now apply (NoDup_app_sep _ _ _ H2 Hq) | intros ->; tauto | intros ->; tauto].
        -- intros q Hq ->. tauto.
        -- split; [right; destruct Hp as [->|Hp]; rewrite ?in_app_iff; auto|]. rewrite Sx. rewrite Ce in Cb. apply rep_N; rewrite ?Ce; [exact Cb | exact Ro | rewrite Sb in Rp; exact Rp].
      * destruct (IHl b fuel) as (p & y & Ep & Hp & Rp); auto; try lia; try tauto; [unfold step; now rewrite B | now apply nodup_app_l in H2|].
        exists p, y. split; [exact Ep|]. destruct (GO l r p y) as (Pa & Sx & Cb & Ce & Ro & Sb); auto; try tauto.
        -- intros q Hq. repeat split; [intros Q; now apply (NoDup_app_sep _ _ _ H2 Q) | intros ->; tauto | intros ->; tauto].
        -- intros q Hq ->. tauto.
        -- split; [right; destruct Hp as [->|Hp]; rewrite ?in_app_iff; auto|]. rewrite Sx. rewrite Ce in Cb. apply rep_N; rewrite ?Ce; [exact Cb | rewrite Sb in Rp; exact Rp | exact Ro].
    + exists x, b. split; [reflexivity|]. split; [now left|]. rewrite linked_step by exact Xa. apply fork_rep; auto. intros b' l' r' Eb. injection Eb as <- _ _. lia.
Qed.
End Place.
End Graft.

(** The grafted tree divides the keys, with the new one at the new leaf. *)
Lemma fork_split : forall n' K key d a s q, In q (leaves s) -> differ key (K q) d -> 0 <= d -> K a = key -> checkbit (n' a) = d ->
  (forall x y, In x (leaves s) -> In y (leaves s) -> agree (K x) (K y) (d + 1)) -> split n' K s -> split n' K (fork key d a s).
Proof.
  intros n' K key d a s q Iq (_ & Ag & D) Hd Ka Cb A S.
  assert (B : forall x, In x (leaves s) -> pat_bits (K x) d = pat_bits (K q) d) by (intros x Hx; apply A; auto; lia).
  assert (AA : forall x y, In x (leaves s ++ [a]) -> In y (leaves s ++ [a]) -> agree (K x) (K y) d).
  { intros x y Hx Hy b Hb. apply in_app_or in Hx as [Hx|[<-|[]]], Hy as [Hy|[<-|[]]]; rewrite ?Ka; auto.
    - apply A; auto; lia.
    - rewrite Ag by lia. apply A; auto; lia.
    - rewrite Ag by lia. symmetry. apply A; auto; lia. }
  pose proof (pat_bits_01 (K q) d Hd) as Bq. pose proof (pat_bits_01 key d Hd) as Bk.
  unfold fork. destruct (Z.eqb_spec (pat_bits key d) 1) as [E|E]; cbn [split leaves]; rewrite Cb; refine (conj Hd (conj _ (conj _ (conj _ (conj _ _))))); auto; try exact I.
  - intros x Hx. rewrite B by exact Hx. lia.
  - intros x [<-|[]]. now rewrite Ka.
  - intros x [<-|[]]. rewrite Ka. lia.
  - intros x Hx. rewrite B by exact Hx. lia.
  - intros x y Hx Hy. apply AA; rewrite in_app_iff in *; cbn in *; tauto.
Qed.

Lemma graft_split : forall n n' K key d a t, split n K t -> differ key (K (find n key t)) d -> K a = key -> checkbit (n' a) = d ->
  (forall b, In b (inner t) -> checkbit (n' b) = checkbit (n b)) -> split n' K (graft n key d a t).
Proof.
  intros n n' K key d a t. induction t as [b|b l IHl r IHr]; intros S F Ka Ca Cb; cbn [graft].
  - apply fork_split with (q := b); cbn [leaves find split] in *; auto; [now left | apply F|]. intros x y [<-|[]] [<-|[]] i Hi. reflexivity.
  - assert (Sn : split n' K (PN b l r)) by (apply split_frame with (n := n); auto). pose proof (way_bit n key d K b l r S F) as WB. cbn [inner In] in Cb.
    destruct S as (H0 & Hl & Hr & A & Sl & Sr). destruct (Z.ltb_spec (checkbit (n b)) d) as [L|L].
    + assert (Ak : forall x, In x (leaves l ++ leaves r) -> agree (K x) key (checkbit (n b))).
      { intros x Hx i Hi. destruct F as (_ & Ag & _). rewrite Ag by lia. apply A; auto. apply find_in. }
      assert (AA : forall x y, x = a \/ In x (leaves l ++ leaves r) -> y = a \/ In y (leaves l ++ leaves r) -> agree (K x) (K y) (checkbit (n b))).
      { intros x y [->|Hx] [->|Hy] i Hi; rewrite ?Ka; [reflexivity | symmetry; now apply Ak | now apply Ak | now apply A]. }
      pose proof (pat_bits_01 key (checkbit (n b)) H0) as B01. cbn [find] in F. destruct (Z.eqb_spec (pat_bits key (checkbit (n b))) 1) as [B|B]; cbn [split]; rewrite Cb by auto;
        refine (conj H0 (conj _ (conj _ (conj _ (conj _ _))))); auto.
      * intros x Hx. apply graft_leaves in Hx as [->|Hx]; [now rewrite Ka | auto].
      * intros x y Hx Hy. apply AA; rewrite in_app_iff, graft_leaves in *; tauto.
      * apply split_frame with (n := n); auto. intros c Hc. apply Cb. right. apply in_or_app; auto.
      * apply IHr; auto. intros c Hc. apply Cb. right. apply in_or_app; auto.
      * intros x Hx. apply graft_leaves in Hx as [->|Hx]; [rewrite Ka; lia | auto].
      * intros x y Hx Hy. apply AA; rewrite in_app_iff, graft_leaves in *; tauto.
      * apply IHl; auto. intros c Hc. apply Cb. right. apply in_or_app; auto.
      * apply split_frame with (n := n); auto. intros c Hc. apply Cb. right. apply in_or_app; auto.
    + apply fork_split with (q := find n key (PN b l r)); auto; [apply find_in | apply F|].
      intros x y Hx Hy i Hi. apply A; auto. lia.
Qed.

(** ** The tree of the lines inserted so far *)
Section Build.
Context (dic : string).

(** A good line is shorter than [key] in [pat_insert], so all check bits are below this. *)
Definition BIT_MAX : Z := 8 * KEY_MAX.

Record built (E : list Z) (h : heap) (t : ptree) : Prop := {
  built_holds : holds dic E (node h) top t;
  built_leaves : forall a, In a (leaves t) -> a = top \/ In a (inner t);
  built_inner : forall a, In a (inner t) -> top < a < used h /\ checkbit (node h a) < BIT_MAX;
  built_nodup : NoDup (inner t);
  built_top : il (node h top) = [-1] /\ top < used h }.

Definition fits_before (E : list Z) (i : Z) : Prop :=
  forall j, In j E -> starts_with (key_at dic i) (key_at dic j) = true -> key_at dic j = key_at dic i.

Lemma no_line : forall s, hash_check_proc dic (-1) <> Ret s.
Proof.
  intros s. unfold hash_check_proc, get_line. destruct (Z.leb_spec (slen dic) (-1)) as [L|]; [unfold slen in L; lia|]. discriminate.
Qed.

Lemma built_nil : built [] (pat_init_tree_top top no_nodes) (PL top).
Proof.
  split; cbn [leaves inner]; try (intros ? []); try (intros ? [<-|[]]); auto; [|constructor|split; [reflexivity | reflexivity]].
  split; cbn [leaves]; try (intros ? []; fail); try (intros ? [<-|[]]; congruence); auto; [apply rep_L; cbn; lia | exact I | now left | apply no_line].
Qed.

Lemma good_hash : forall i, good_line dic i -> hash_check_proc dic i = Ret (line_at dic i).
Proof. intros i G. destruct (good_key dic i G) as (rest & -> & -> & _). reflexivity. Qed.

Lemma good_index : forall i, good_line dic i -> 0 <= i.
Proof.
  intros i (key & rest & G & _). unfold hash_check_proc, get_line in G. destruct (Z.leb_spec (slen dic) i); [discriminate|]. destruct (Z.ltb_spec i 0); [discriminate | assumption].
Qed.

Lemma starts_line : forall k q rest, plain k = true -> starts_with k (q ++ String TAB rest) = starts_with k q.
Proof.
  induction k as [|c k IH]; intros q rest P; [reflexivity|]. rewrite plain_cons in P. apply andb_prop in P as [P1 P2]. destruct q as [|x q]; cbn [append starts_with].
  - destruct (Ascii.eqb_spec c TAB) as [->|]; [discriminate | reflexivity].
  - now rewrite IH.
Qed.

Lemma line_longer : forall i, good_line dic i -> slen (key_at dic i) < KEY_MAX.
Proof.
  intros i G. destruct (good_key dic i G) as (rest & _ & E & _ & _ & L). rewrite E, slen_app in L. assert (0 <= slen (String TAB rest)) by (unfold slen; lia). lia.
Qed.

Lemma leaf_key_top : forall n, leaf_key dic n top top = EmptyString.
Proof. reflexivity. Qed.

(** A line whose key the tree has *)
Lemma insert_line_spec : forall E h t a i, built E h t -> In a (leaves t) -> a <> top -> leaf_key dic (node h) top a = key_at dic i -> good_line dic i ->
  exists h', insert_line dic (line_at dic i) i a h = Ret h' /\ built (E ++ [i]) h' t.
Proof.
  intros E h t a i B Ha Az Ek G. destruct B as [H Bl Bi Bn Bt]. destruct (holds_il dic _ _ _ _ H a Ha Az) as [Il Nl].
  destruct (leaf_lines dic _ _ _ _ H a Ha Az) as (Gl & Ix & _). unfold insert_line.
  rewrite (some_res_ret _ (fun j => str_eq (line_at dic j) (line_at dic i))) by (intros j Hj; now rewrite good_hash by auto).
  set (same := existsb _ _). eexists. split; [reflexivity|].
  set (h' := if same then h else set_node a (set_il (il (node h a) ++ [i]) (node h a)) h).
  assert (Fo : forall b, b <> a -> node h' b = node h b) by (intros b Hb; unfold h'; destruct same; [reflexivity | cbn; now rewrite aset_ne]).
  assert (Fb : forall b, checkbit (node h' b) = checkbit (node h b) /\ p_right (node h' b) = p_right (node h b) /\ p_left (node h' b) = p_left (node h b)).
  { intros b. destruct (Z.eq_dec b a) as [->|Hb]; [|now rewrite Fo]. unfold h'. destruct same; [auto|]. cbn. now rewrite aset_eq. }
  assert (Fi : index (node h' a) = index (node h a)).
  { unfold h'. destruct same; [reflexivity|]. cbn. rewrite aset_eq. unfold index. cbn. destruct (il (node h a)); [congruence | reflexivity]. }
  assert (Fk : forall b, leaf_key dic (node h') top b = leaf_key dic (node h) top b).
  { intros b. unfold leaf_key. destruct (b =? top); [reflexivity|]. destruct (Z.eq_dec b a) as [->|Hb]; [now rewrite Fi | now rewrite Fo]. }
  assert (Fl : il (node h' a) = add_entry dic (key_at dic i) (il (node h a)) i).
  { unfold add_entry. rewrite str_eq_refl. cbn [andb]. unfold h'. fold same. destruct same; cbn; [reflexivity | now rewrite aset_eq]. }
  assert (Fu : used h' = used h) by (unfold h'; now destruct same).
  split; [split|auto|intros b Hb; rewrite Fu; destruct (Fb b) as [-> _]; auto|exact Bn|now rewrite Fu, Fo by congruence].
  - destruct (Fb top) as [-> _]. apply (holds_top _ _ _ _ _ H).
  - destruct (Fb top) as (_ & -> & _). apply rep_ext with (n := node h); [exact Fb | apply (holds_rep _ _ _ _ _ H)].
  - apply split_ext with (K := leaf_key dic (node h) top); [intros; now rewrite Fk|]. apply split_frame with (n := node h); [intros; apply Fb | apply (holds_split _ _ _ _ _ H)].
  - apply (holds_z _ _ _ _ _ H).
  - rewrite Fo by congruence. apply (holds_lost _ _ _ _ _ H).
  - intros b Hb Bz. rewrite Fk, entries_snoc. destruct (Z.eq_dec b a) as [->|Ba].
    + rewrite Fl, Ek, Il, Ek. split; [reflexivity|]. unfold add_entry. destruct (_ && _); [now destruct (entries dic (key_at dic i) E)|]. rewrite <- Ek, <- Il. exact Nl.
    + rewrite Fo by exact Ba. destruct (holds_il _ _ _ _ _ H b Hb Bz) as [-> N]. split; [|exact N]. unfold add_entry.
      destruct (str_eq_spec (key_at dic i) (leaf_key dic (node h) top b)) as [K|]; [|reflexivity]. exfalso. apply Ba.
      apply (leaves_keys _ _ _ _ _ (holds_split _ _ _ _ _ H) Hb Ha). congruence.
  - intros j Hj. apply in_app_or in Hj as [Hj|[<-|[]]].
    + destruct (holds_all _ _ _ _ _ H j Hj) as (b & ? & ? & ?). exists b. now rewrite Fk.
    + exists a. now rewrite Fk.
  - intros j Hj. apply in_app_or in Hj as [Hj|[<-|[]]]; [now apply (holds_good _ _ _ _ _ H) | exact G].
Qed.

(** A line with a new key *)
Lemma insert_node_spec : forall E h t i buffer, built E h t -> good_line dic i ->
  let key := key_at dic i in let q := find (node h) key t in
  leaf_key dic (node h) top q <> key -> starts_with key (leaf_key dic (node h) top q) = false ->
  slen (leaf_key dic (node h) top q) < KEY_MAX ->
  (forall b, 0 <= b < 8 * slen (leaf_key dic (node h) top q) + 4 -> pat_bits buffer b = pat_bits (leaf_key dic (node h) top q) b) ->
  exists h' t', insert_node key buffer i top h = Ret h' /\ built (E ++ [i]) h' t'.
Proof.
  intros E h t i buffer B G key q Nk Ns Lq Hb. set (K := leaf_key dic (node h) top) in *. destruct B as [H Bl Bi Bn Bt].
  destruct (good_key dic i G) as (rest & _ & _ & Nek & Pk & _). fold key in Nek, Pk.
  destruct (keys_differ key (K q) Pk Ns) as (b & Rb & Db). destruct (first_diff_spec key buffer b ltac:(lia)) as (d & Ed & Dd & Ld); [rewrite Hb by lia; exact Db|].
  assert (Dq : differ key (K q) d) by (destruct Dd as (D0 & D1 & D2); split; [exact D0|]; split; [intros j Hj; rewrite <- Hb by lia; now apply D1 | rewrite <- Hb by lia; exact D2]).
  assert (Rd : 0 <= d < BIT_MAX) by (destruct Dd; unfold BIT_MAX, KEY_MAX in *; lia).
  set (a := used h). assert (Fa : forall x, In x (leaves t) \/ In x (inner t) -> x <> a).
  { intros x [Hx|Hx]; [destruct (Bl x Hx) as [->|Hx']; [unfold a; lia|]; apply Bi in Hx'; unfold a; lia | apply Bi in Hx; unfold a; lia]. }
  pose proof (holds_top _ _ _ _ _ H) as Ct.
  destruct (place_graft (node h) key d a K i t top short_steps) as (p & y & Ep & Hp & Rp);
    [rewrite (step_top dic E (node h) top t H key), Ct; apply (holds_rep _ _ _ _ _ H) | apply (holds_split _ _ _ _ _ H) | exact Dq | rewrite Ct; unfold BIT_MAX, KEY_MAX in Rd; lia
    | exact Bn | intros I0; apply Bi in I0; lia | intros I0; now apply (Fa a); auto | intros I0; now apply (Fa a); auto | unfold a; lia | rewrite Ct; unfold short_steps; lia |].
  unfold insert_node. rewrite Ed, Ep. unfold link_node. assert (Sd : to_short d = d) by (unfold to_short; rewrite Z.mod_small; unfold BIT_MAX, KEY_MAX in Rd; lia).
  assert (Pa : p <> a) by (destruct Hp as [->|Hp]; [unfold a; lia | auto]). fold a. rewrite Sd, aset_ne by exact Pa. fold (new_node key d a i y).
  fold (linked (node h) key d a i p y). set (n' := linked (node h) key d a i p y) in *. exists (mkHeap n' (a + 1)), (graft (node h) key d a t). split; [reflexivity|].
  assert (Fb : forall x, x <> a -> checkbit (n' x) = checkbit (node h x)) by (intros; now apply linked_bit).
  assert (Fi : forall x, x <> a -> il (n' x) = il (node h x)) by (intros; now apply linked_il).
  assert (Na : n' a = new_node key d a i y) by now apply linked_new.
  assert (Ka : leaf_key dic n' top a = key) by (unfold leaf_key; replace (a =? top) with false by (unfold a; lia); rewrite Na; unfold new_node, index; now destruct (_ =? 1)).
  assert (Fk : forall x, In x (leaves t) -> leaf_key dic n' top x = K x) by (intros x Hx; unfold K, leaf_key, index; now rewrite Fi by auto).
  assert (Ne : entries dic key E = []).
  { apply entries_none. intros j Hj Ej. destruct (holds_all _ _ _ _ _ H j Hj) as (c & Hc & _ & Kc). fold K in Kc. apply Nk. fold key in Ej. rewrite Ej in Kc. unfold q.
    rewrite <- Kc. fold K. now rewrite (find_leaf (node h) K t c (holds_split _ _ _ _ _ H) Hc). }
  assert (Ct' : checkbit (n' top) = -1) by (rewrite Fb; [exact Ct | unfold a; lia]).
  split; cbn [node used]; [split| | | |].
  - exact Ct'.
  - rewrite Ct in Rp. unfold step in Rp. rewrite Ct' in Rp. exact Rp.
  - apply graft_split; auto; [apply split_ext with (K := K); [intros; now rewrite Fk | apply (holds_split _ _ _ _ _ H)]
      | fold q; rewrite Fk by apply find_in; exact Dq | rewrite Na; apply new_bit].
  - apply graft_leaves. right. apply (holds_z _ _ _ _ _ H).
  - unfold index. rewrite Fi by (unfold a; lia). apply (holds_lost _ _ _ _ _ H).
  - intros x Hx Xz. apply graft_leaves in Hx as [->|Hx].
    + rewrite Ka, entries_snoc, Ne, Na. unfold add_entry. fold key. rewrite str_eq_refl. cbn. unfold new_node. destruct (_ =? 1); cbn; split; congruence.
    + rewrite Fk, Fi, entries_snoc by auto. destruct (holds_il _ _ _ _ _ H x Hx Xz) as [-> N]. fold K. split; [|exact N]. unfold add_entry. fold key.
      destruct (str_eq_spec key (K x)) as [Ek|]; [|reflexivity]. exfalso. apply N. fold K. now rewrite <- Ek.
  - intros j Hj. apply in_app_or in Hj as [Hj|[<-|[]]].
    + destruct (holds_all _ _ _ _ _ H j Hj) as (c & Hc & Cz & Kc). exists c. rewrite graft_leaves, Fk by exact Hc. auto.
    + exists a. rewrite graft_leaves, Ka. repeat split; auto. unfold a. lia.
  - intros j Hj. apply in_app_or in Hj as [Hj|[<-|[]]]; [now apply (holds_good _ _ _ _ _ H) | exact G].
  - intros x Hx. rewrite graft_inner. apply graft_leaves in Hx as [->|Hx]; [auto|]. destruct (Bl x Hx); auto.
  - intros x Hx. apply graft_inner in Hx as [->|Hx]; [rewrite Na, new_bit; unfold a; lia|]. rewrite Fb by auto. apply Bi in Hx. unfold a. lia.
  - apply graft_nodup; [intros I0; now apply (Fa a); auto | exact Bn].
  - rewrite Fi by (unfold a; lia). unfold a. split; [apply Bt | lia].
Qed.

Lemma pat_insert_spec : forall E h t i, built E h t -> good_line dic i -> fits_before E i ->
  exists h' t', pat_insert dic (line_at dic i) i top TAB h = Ret h' /\ built (E ++ [i]) h' t'.
Proof.
  intros E h t i B G F. destruct (good_key dic i G) as (rest & _ & El & Nk & Pk & Lk). pose proof (built_holds _ _ _ B) as H.
  unfold pat_insert. replace (KEY_MAX <=? slen (line_at dic i)) with false by lia.
  assert (Cut : strtok_cut TAB (line_at dic i) = key_at dic i) by reflexivity. rewrite Cut. unfold pat_search4insert. rewrite (search_leaf dic E (node h) top t H).
  set (q := find (node h) (key_at dic i) t). assert (Iq : In q (leaves t)) by apply find_in. destruct (Z.eq_dec q top) as [Qt|Qt].
  - rewrite Qt. replace (0 <=? index (node h top)) with false by (unfold index; rewrite (proj1 (built_top _ _ _ B)); reflexivity).
    apply (insert_node_spec E h t i EmptyString B G); fold q; rewrite Qt, leaf_key_top; auto.
    + destruct (key_at dic i); [congruence | reflexivity].
    + reflexivity.
  - destruct (leaf_lines dic E (node h) top t H q Iq Qt) as (Gq & Ix & Kq). destruct (leaf_line dic E (node h) top t H q Iq Qt) as (rq & Hq & _ & _).
    pose proof (good_index _ (Gq _ Ix)) as I0. replace (0 <=? index (node h q)) with true by lia. rewrite Hq, starts_line by exact Pk.
    destruct (starts_with (key_at dic i) (leaf_key dic (node h) top q)) eqn:S.
    + assert (Ek : leaf_key dic (node h) top q = key_at dic i).
      { rewrite Kq in *. apply F; [|exact S]. destruct (holds_il _ _ _ _ _ H q Iq Qt) as [Il _]. rewrite Il in Ix. now apply entries_in in Ix as [Ix _]. }
      destruct (insert_line_spec E h t q i B Iq Qt Ek G) as (h' & E' & B'). eauto.
    + apply (insert_node_spec E h t i _ B G); fold q; auto.
      * intros Ek. rewrite Ek, starts_with_refl in S. discriminate.
      * rewrite Kq. apply line_longer, Gq, Ix.
      * intros b Hb. now apply line_bits.
Qed.
End Build.
