(* ===== verification/PatFile.v ===== *)
(** * Writing and reading a Patricia tree (src/juman/lib/patfile.c)

    [com_s] writes the tree in the order of the nodes, [com_l] reads it into new nodes and keeps the lines of a leaf in
    the node the leaf points back to.  The tree that is read holds the same lines; the leaf without a line gets
    the index of the mark for it, which is behind the end of the dictionary. *)
From Stdlib Require Import ZArith List Bool String Ascii Lia.
Import ListNotations.
From S2P Require Import Prelude CStr Pat PatBits PatTree PatPrefix.

(** The indices that fit the file, and the mark of the leaf without a line *)
Definition INDEX_MAX : Z := 1073741823.

Definition small (i : Z) : Prop := 0 <= i < INDEX_MAX.

(** ** Bytes *)
Lemma lor_add : forall hi lo k, 0 <= k -> 0 <= lo < 2 ^ k -> Z.lor (Z.shiftl hi k) lo = hi * 2 ^ k + lo.
Proof.
  intros hi lo k Hk Hl. assert (D : Z.land (Z.shiftl hi k) lo = 0).
  { apply Z.bits_inj'. intros i Hi. rewrite Z.land_spec, Z.shiftl_spec, Z.bits_0 by lia. destruct (Z.lt_ge_cases i k).
    - now rewrite Z.testbit_neg_r by lia.
    - assert (Z.testbit lo i = false) as ->; [|apply andb_false_r]. destruct (Z.eq_dec lo 0) as [->|]; [apply Z.bits_0|].
      apply Z.bits_above_log2; [lia|]. apply Z.lt_le_trans with k; [apply Z.log2_lt_pow2; lia | assumption]. }
  rewrite <- Z.shiftl_mul_pow2 by lia. rewrite Z.add_nocarry_lxor by exact D. now rewrite Z.lxor_lor.
Qed.

Lemma land_255 : forall v, Z.land v 255 = v mod 256.
Proof. intros v. change 255 with (Z.ones 8). now rewrite Z.land_ones by lia. Qed.

Lemma land_bit : forall c k, 0 <= k -> (Z.land c (2 ^ k) =? 0) = negb (Z.testbit c k).
Proof.
  intros c k Hk. destruct (Z.testbit c k) eqn:B; cbn [negb].
  - apply Z.eqb_neq. intros E. assert (T : Z.testbit (Z.land c (2 ^ k)) k = false) by (rewrite E; apply Z.bits_0).
    rewrite Z.land_spec, B, Z.pow2_bits_true in T by lia. discriminate.
  - apply Z.eqb_eq, Z.bits_inj'. intros i Hi. rewrite Z.land_spec, Z.bits_0, Z.pow2_bits_eqb by lia.
    destruct (Z.eqb_spec k i) as [<-|]; [now rewrite B | apply andb_false_r].
Qed.

(** The first byte of an index: its high bits, and the marks. *)
Lemma mark_byte : forall v (last : bool), 0 <= v < 64 -> let c := Z.lor (Z.land v 63) (if last then 192 else 128) in
  (Z.land c 128 =? 0) = false /\ (Z.land c 64 =? 0) = negb last /\ Z.land c 63 = v.
Proof.
  intros v last Hv. assert (F : forallb (fun v => let c := Z.lor (Z.land v 63) (if last then 192 else 128) in
    negb (Z.land c 128 =? 0) && Bool.eqb (Z.land c 64 =? 0) (negb last) && (Z.land c 63 =? v)) (zrange 0 64) = true) by (destruct last; vm_compute; reflexivity).
  rewrite forallb_forall in F. specialize (F v (proj2 (in_zrange 0 64 v) Hv)). apply andb_prop in F as [F F3]. apply andb_prop in F as [F1 F2].
  cbv zeta. repeat split; [now apply negb_true_iff in F1 | now apply eqb_prop in F2 | now apply Z.eqb_eq in F3].
Qed.

Lemma index_bytes : forall i, 0 <= i < 2 ^ 30 ->
  Z.lor (Z.shiftl (Z.shiftr i 24) 24) (Z.lor (Z.shiftl (Z.land (Z.shiftr i 16) 255) 16) (Z.lor (Z.shiftl (Z.land (Z.shiftr i 8) 255) 8) (Z.land i 255))) = i.
Proof.
  intros i Hi. rewrite !land_255, !Z.shiftr_div_pow2 by lia. pose proof (Z.mod_pos_bound i 256 ltac:(lia)). pose proof (Z.mod_pos_bound (i / 2 ^ 8) 256 ltac:(lia)).
  pose proof (Z.mod_pos_bound (i / 2 ^ 16) 256 ltac:(lia)). rewrite (lor_add (i / 2 ^ 8 mod 256)) by lia. rewrite (lor_add (i / 2 ^ 16 mod 256)) by lia. rewrite lor_add by lia.
  pose proof (Z.div_mod i 256 ltac:(lia)). pose proof (Z.div_mod (i / 2 ^ 8) 256 ltac:(lia)). pose proof (Z.div_mod (i / 2 ^ 16) 256 ltac:(lia)).
  assert (i / 2 ^ 16 = i / 2 ^ 8 / 256) by (rewrite Z.div_div by lia; reflexivity). assert (i / 2 ^ 24 = i / 2 ^ 16 / 256) by (rewrite Z.div_div by lia; reflexivity).
  change (2 ^ 8) with 256 in *. lia.
Qed.

Lemma load_indices_spec : forall ils acc rest fuel, ils <> [] -> (forall i, In i ils -> 0 <= i < 2 ^ 30) -> (List.length ils <= fuel)%nat ->
  exists c file, out_indices ils ++ rest = c :: file /\ (Z.land c 128 =? 0) = false /\ load_indices fuel c acc file = Ret (acc ++ ils, rest).
Proof.
  induction ils as [|i ils IH]; intros acc rest fuel N H F; [congruence|]. cbn [out_indices]. unfold out_index. cbn [app].
  destruct fuel as [|fuel]; [cbn in F; lia|]. pose proof (H i ltac:(now left)) as Hi.
  assert (Hv : 0 <= Z.shiftr i 24 < 64) by (rewrite Z.shiftr_div_pow2 by lia; split; [apply Z.div_pos; lia | apply Z.div_lt_upper_bound; lia]).
  set (last := match ils with [] => true | _ => false end). destruct (mark_byte _ last Hv) as (M1 & M2 & M3).
  do 2 eexists. split; [reflexivity|]. split; [exact M1|]. cbn [load_indices egetc]. rewrite M2, M3, index_bytes by exact Hi. destruct ils as [|j ils]; [reflexivity|].
  cbn [negb last]. destruct (IH (acc ++ [i]) rest fuel) as (c & file & E1 & E2 & E3); [congruence | intros; apply H; now right | cbn in F |- *; lia|].
  subst last. cbn [negb] in *. change ((out_index j match ils with [] => true | _ => false end ++ out_indices ils) ++ rest) with (out_indices (j :: ils) ++ rest).
  rewrite E1. cbn [egetc]. rewrite E2. cbn [negb]. rewrite E3, <- app_assoc. reflexivity.
Qed.

(** The indices of a leaf as they are read *)
Definition read_il (l : list Z) : list Z := if hd (-1) l <? 0 then [INDEX_MAX] else l.

Lemma out_leaf_read : forall x, out_leaf x = out_indices (read_il (il x)).
Proof. intros x. unfold out_leaf, read_il, index. destruct (_ <? 0); reflexivity. Qed.

Lemma header_bytes : forall cb, -1 <= cb < 32767 ->
  let c := Z.land (Z.shiftr (cb + 1) 8) 127 in let c2 := Z.land (cb + 1) 255 in
  (Z.land c 128 =? 0) = true /\ to_short (Z.lor (Z.shiftl c 8) c2 - 1) = cb.
Proof.
  intros cb H c c2. assert (Ec : c = (cb + 1) / 256).
  { unfold c. change 127 with (Z.ones 7). rewrite Z.land_ones, Z.shiftr_div_pow2 by lia. change (2 ^ 8) with 256. apply Z.mod_small.
    split; [apply Z.div_pos; lia | apply Z.div_lt_upper_bound; lia]. }
  split.
  - change 128 with (2 ^ 7). rewrite land_bit by lia. unfold c. change 127 with (Z.ones 7). rewrite Z.land_spec, Z.ones_spec_high by lia. now rewrite andb_false_r.
  - unfold c2. rewrite land_255, Ec, lor_add by (try lia; apply Z.mod_pos_bound; lia). change (2 ^ 8) with 256. pose proof (Z.div_mod (cb + 1) 256 ltac:(lia)).
    replace ((cb + 1) / 256 * 256 + (cb + 1) mod 256 - 1) with cb by lia. unfold to_short. rewrite Z.mod_small; lia.
Qed.

(** ** The bytes of a tree *)
Section Encode.
Context (n : array pat_node).

Fixpoint enc (t : ptree) : list Z :=
  match t with
  | PL a => out_leaf (n a)
  | PN a l r => [Z.land (Z.shiftr (checkbit (n a) + 1) 8) 127; Z.land (checkbit (n a) + 1) 255] ++ enc l ++ enc r
  end.

Lemma save_enc : forall t c p fuel, rep n c p t -> -1 <= c -> 32768 - c <= Z.of_nat fuel ->
  match t with PL _ => True | _ => save_pat n fuel p = Ret (enc t) end /\ (if c <? checkbit (n p) then save_pat n fuel p else Ret (out_leaf (n p))) = Ret (enc t).
Proof.
  induction t as [a|a l IHl r IHr]; intros c p fuel R Hc F; inversion R; subst.
  - split; [exact I|]. now replace (c <? checkbit (n a)) with false by lia.
  - assert (G : save_pat n fuel a = Ret (enc (PN a l r))).
    { destruct fuel as [|fuel]; [lia|]. cbn [save_pat enc].
      destruct (IHl (checkbit (n a)) (p_left (n a)) fuel) as [_ ->]; [assumption | lia | lia|]. destruct (IHr (checkbit (n a)) (p_right (n a)) fuel) as [_ ->]; [assumption | lia | lia|].
      reflexivity. }
    split; [exact G|]. now replace (c <? checkbit (n a)) with true by lia.
Qed.

(** A leaf can be written. *)
Definition writable (l : list Z) : Prop := l = [-1] \/ l <> [] /\ forall i, In i l -> small i.

Lemma writable_read : forall l, writable l -> read_il l <> [] /\ forall i, In i (read_il l) -> 0 <= i < 2 ^ 30.
Proof.
  intros l [->|[N H]]; [cbn; split; [congruence | intros i [<-|[]]; unfold INDEX_MAX; lia]|]. unfold read_il. destruct l as [|i l]; [congruence|]. cbn [hd].
  pose proof (H i ltac:(now left)) as Hi. unfold small, INDEX_MAX in *. replace (i <? 0) with false by lia. split; [exact N|]. intros j Hj. specialize (H j Hj). lia.
Qed.

(** The tree that is read has the same check bits and lines. *)
Fixpoint same (n' : array pat_node) (t t' : ptree) : Prop :=
  match t, t' with
  | PL a, PL a' => il (n' a') = read_il (il (n a))
  | PN a l r, PN a' l' r' => checkbit (n' a') = checkbit (n a) /\ same n' l l' /\ same n' r r'
  | _, _ => False
  end.

Lemma same_frame : forall n1 n2 t t', (forall a, In a (inner t') -> checkbit (n2 a) = checkbit (n1 a)) -> (forall a, In a (leaves t') -> il (n2 a) = il (n1 a)) ->
  same n1 t t' -> same n2 t t'.
Proof.
  intros n1 n2 t. induction t as [a|a l IHl r IHr]; intros [a'|a' l' r'] Hi Hl S; cbn in *; try contradiction; [now rewrite Hl by auto|].
  destruct S as (S1 & S2 & S3). rewrite Hi by auto. split; [exact S1|]. split; [apply IHl | apply IHr]; auto; intros x Hx; [apply Hi | apply Hl | apply Hi | apply Hl]; rewrite ?in_app_iff; auto.
Qed.

Record loaded (t : ptree) (P : Z) (h h' : heap) (c y : Z) (t' : ptree) : Prop := {
  ld_rep : rep (node h') c y t';
  ld_same : same (node h') t t';
  ld_used : used h <= used h';
  ld_frame : forall b, b < used h -> b <> P -> node h' b = node h b;
  ld_P : exists l, node h' P = set_il l (node h P);
  ld_inner : forall a, In a (inner t') -> used h <= a < used h';
  ld_leaves : forall a, In a (leaves t') -> a = P \/ used h <= a < used h';
  ld_right : rightmost t' = P }.

Lemma enc_length : forall t, (forall a, In a (leaves t) -> writable (il (n a))) -> (1 <= List.length (enc t))%nat.
Proof.
  destruct t as [a|a l r]; intros H; cbn; [|lia]. rewrite out_leaf_read. destruct (writable_read _ (H a ltac:(now left))) as [N _].
  destruct (read_il (il (n a))); [congruence | cbn; lia].
Qed.

Lemma length_out : forall l, (List.length l <= List.length (out_indices l))%nat.
Proof. induction l as [|i l IH]; [reflexivity|]. cbn [out_indices]. rewrite length_app. cbn. lia. Qed.

Lemma load_leaf : forall a P h rest fuel c, writable (il (n a)) -> index (node h P) < 0 -> checkbit (node h P) <= c -> P < used h -> (1 <= fuel)%nat ->
  exists y h' t', load_anode fuel P (enc (PL a) ++ rest) h = Ret (y, rest, h') /\ loaded (PL a) P h h' c y t'.
Proof.
  intros a P h rest fuel c W I C U F. cbn [enc]. rewrite out_leaf_read. destruct (writable_read _ W) as [N S]. set (ils := read_il (il (n a))) in *.
  destruct (load_indices_spec ils [] rest (List.length (out_indices ils ++ rest)) N S) as (c1 & file & E1 & E2 & E3).
  { rewrite length_app. pose proof (length_out ils). lia. }
  destruct fuel as [|fuel]; [lia|]. rewrite E1 in *. cbn [load_anode egetc]. rewrite E2. cbn [negb]. replace (index (node h P) <? 0) with true by lia.
  cbn [List.length] in E3. rewrite E3. cbn [app]. do 2 eexists. exists (PL P). split; [reflexivity|].
  split; cbn [same leaves inner rightmost node used set_node]; rewrite ?aset_eq; auto; try lia; try (intros ? []; fail).
  - apply rep_L. rewrite aset_eq. exact C.
  - intros b Hb Hp. now rewrite aset_ne.
  - now exists ils.
  - intros b [<-|[]]. now left.
Qed.

Lemma load_spec : forall t c p, rep n c p t -> -1 <= c -> (forall a, In a (leaves t) -> writable (il (n a))) -> (forall a, In a (inner t) -> checkbit (n a) < 32767) ->
  forall P h rest fuel, index (node h P) < 0 -> checkbit (node h P) <= c -> P < used h -> (List.length (enc t) <= fuel)%nat ->
  exists y h' t', load_anode fuel P (enc t ++ rest) h = Ret (y, rest, h') /\ loaded t P h h' c y t'.
Proof.
  induction t as [a|a l IHl r IHr]; intros c p R Hc W B P h rest fuel I C U F.
  - apply load_leaf; auto; [apply W; now left|]. pose proof (enc_length (PL a) W). lia.
  - inversion R; subst. assert (Wl : forall x, In x (leaves l) -> writable (il (n x))) by (intros; apply W; cbn; apply in_or_app; auto).
    assert (Wr : forall x, In x (leaves r) -> writable (il (n x))) by (intros; apply W; cbn; apply in_or_app; auto).
    assert (Ba : checkbit (n a) < 32767) by (apply B; now left). cbn [inner] in B.
    destruct (header_bytes (checkbit (n a)) ltac:(lia)) as [H1 H2]. cbn [enc] in F |- *. rewrite !length_app in F. cbn [List.length] in F.
    destruct fuel as [|fuel]; [lia|]. cbn [app load_anode egetc]. rewrite H1. cbn [negb]. rewrite H2. set (new := used h).
    set (h1 := mkHeap (aset (node h) new _) (new + 1)). rewrite <- app_assoc. assert (N1 : checkbit (node h1 new) = checkbit (n a) /\ index (node h1 new) = -1) by (cbn; rewrite aset_eq; auto).
    destruct (IHl (checkbit (n a)) (p_left (n a)) ltac:(assumption) ltac:(lia) Wl ltac:(intros; apply B; right; apply in_or_app; auto) new h1 (enc r ++ rest) fuel)
      as (y1 & h2 & tl & E1 & L1); [lia | lia | cbn; lia | lia|]. rewrite E1. set (h2' := set_node new (set_left y1 (node h2 new)) h2).
    destruct L1 as [Rl1 Rl2 Rl3 Rl4 [il1 Rl5] Rl6 Rl7 Rl8]. cbn [used h1] in *.
    assert (NP : node h2' P = node h P) by (cbn; rewrite aset_ne by (unfold new; lia); rewrite Rl4 by (unfold new; lia); cbn; now rewrite aset_ne by (unfold new; lia)).
    destruct (IHr (checkbit (n a)) (p_right (n a)) ltac:(assumption) ltac:(lia) Wr ltac:(intros; apply B; right; apply in_or_app; auto) P h2' rest fuel)
      as (y2 & h3 & tr & E2 & L2); [rewrite NP; lia | rewrite NP; lia | cbn; unfold new in *; lia | lia|]. rewrite E2. do 2 eexists. exists (PN new tl tr). split; [reflexivity|].
    destruct L2 as [Rr1 Rr2 Rr3 Rr4 [il2 Rr5] Rr6 Rr7 Rr8]. cbn [used h2' set_node] in Rr3, Rr4, Rr6, Rr7.
    set (h' := set_node new (set_right y2 (node h3 new)) h3).
    assert (Fo : forall b, b <> new -> node h' b = node h3 b) by (intros b Hb; cbn; now rewrite aset_ne).
    assert (F2 : forall b, b < used h2 -> b <> P -> b <> new -> node h' b = node h2 b) by (intros b Hb Hp Hn; rewrite Fo, Rr4 by auto; cbn; now rewrite aset_ne).
    assert (Nn : node h' new = mkNode (il (node h2 new)) (checkbit (n a)) y2 y1).
    { cbn. rewrite aset_eq, Rr4 by (unfold new in *; lia). cbn. rewrite aset_eq, Rl5. unfold set_right, set_left, set_il. cbn. f_equal. apply N1. }
    assert (Un : new < used h2 /\ new < used h3 /\ P <> new) by (unfold new in *; lia).
    assert (Gl : forall b, In b (leaves tl) -> checkbit (node h' b) = checkbit (node h2 b) /\ il (node h' b) = il (node h2 b)).
    { intros b Hb. destruct (Rl7 b Hb) as [->|Rb]; [rewrite Nn, Rl5; cbn; split; [symmetry; apply N1 | reflexivity]|]. rewrite F2; auto; unfold new in *; lia. }
    assert (Gr : forall b, In b (leaves tr) -> node h' b = node h3 b) by (intros b Hb; apply Fo; destruct (Rr7 b Hb) as [->|]; lia).
    split; cbn [used]; fold h'.
    + apply rep_N; rewrite Nn; cbn [checkbit p_left p_right]; [lia | |].
      * apply rep_frame with (n := node h2); [exact Rl1 | intros b Hb; apply Rl6 in Hb; apply F2; unfold new in *; lia | intros b Hb; now apply Gl].
      * apply rep_frame with (n := node h3); [exact Rr1 | intros b Hb; apply Rr6 in Hb; apply Fo; lia | intros b Hb; now rewrite Gr].
    + cbn [same]. rewrite Nn. split; [reflexivity|]. split.
      * apply same_frame with (n1 := node h2); [intros b Hb; apply Rl6 in Hb; rewrite F2; unfold new in *; auto; lia | intros b Hb; now apply Gl | exact Rl2].
      * apply same_frame with (n1 := node h3); [intros b Hb; apply Rr6 in Hb; rewrite Fo; auto; lia | intros b Hb; now rewrite Gr | exact Rr2].
    + cbn. unfold new in *. lia.
    + intros b Hb Hp. rewrite F2 by (unfold new in *; lia). rewrite Rl4 by (unfold new in *; lia). cbn. now rewrite aset_ne by (unfold new; lia).
    + exists il2. rewrite Fo by tauto. rewrite Rr5, NP. reflexivity.
    + intros b. cbn [inner]. intros [<-|Hb]; [unfold new in *; cbn; lia|]. apply in_app_or in Hb as [Hb|Hb]; [apply Rl6 in Hb | apply Rr6 in Hb]; unfold new in *; cbn; lia.
    + intros b. cbn [leaves]. intros Hb. apply in_app_or in Hb as [Hb|Hb]; [apply Rl7 in Hb | apply Rr7 in Hb]; unfold new in *; cbn; lia.
    + exact Rr8.
Qed.
End Encode.

(** ** What the tree that is read holds *)
Lemma same_forth : forall n n' t t' a, same n n' t t' -> In a (leaves t) -> exists a', In a' (leaves t') /\ il (n' a') = read_il (il (n a)).
Proof.
  intros n n' t. induction t as [b|b l IHl r IHr]; intros [b'|b' l' r'] a S I; cbn in *; try contradiction.
  - destruct I as [<-|[]]. exists b'. auto.
  - destruct S as (_ & Sl & Sr). apply in_app_or in I as [I|I]; [destruct (IHl l' a Sl I) as (x & ? & ?) | destruct (IHr r' a Sr I) as (x & ? & ?)]; exists x; rewrite in_app_iff; auto.
Qed.

Lemma same_back : forall n n' t t' a', same n n' t t' -> In a' (leaves t') -> exists a, In a (leaves t) /\ il (n' a') = read_il (il (n a)).
Proof.
  intros n n' t. induction t as [b|b l IHl r IHr]; intros [b'|b' l' r'] a S I; cbn in *; try contradiction.
  - destruct I as [<-|[]]. exists b. auto.
  - destruct S as (_ & Sl & Sr). apply in_app_or in I as [I|I]; [destruct (IHl l' a Sl I) as (x & ? & ?) | destruct (IHr r' a Sr I) as (x & ? & ?)]; exists x; rewrite in_app_iff; auto.
Qed.

Section Dictionary.
Context (dic : string) (Hdic : slen dic <= INDEX_MAX).

Definition il_key (l : list Z) : string := key_at dic (hd (-1) l).

Lemma key_lost : forall i, i < 0 \/ slen dic <= i -> (forall s, hash_check_proc dic i <> Ret s) /\ key_at dic i = EmptyString.
Proof.
  intros i H. assert (L : exists e, hash_check_proc dic i = Err e).
  { unfold hash_check_proc, get_line. destruct (Z.leb_spec (slen dic) i); [eauto|]. destruct (Z.ltb_spec i 0); [eauto | lia]. }
  destruct L as [e L]. unfold key_at, line_at. rewrite L. split; [discriminate | reflexivity].
Qed.

Lemma read_key : forall l, il_key (read_il l) = il_key l.
Proof using Hdic.
  intros l. unfold il_key, read_il. destruct (Z.ltb_spec (hd (-1) l) 0); [|reflexivity]. cbn [hd].
  now rewrite (proj2 (key_lost INDEX_MAX (or_intror Hdic))), (proj2 (key_lost _ (or_introl H))).
Qed.

Lemma same_split : forall n n' t t', same n n' t t' -> split n (fun a => il_key (il (n a))) t -> split n' (fun a => il_key (il (n' a))) t'.
Proof using Hdic.
  intros n n' t. induction t as [b|b l IHl r IHr]; intros [b'|b' l' r'] S H; cbn [same split] in *; try contradiction; [exact I|].
  destruct S as (Sb & Sl & Sr), H as (H0 & Hl & Hr & A & Pl & Pr). rewrite Sb.
  assert (Back : forall x', In x' (leaves l' ++ leaves r') -> exists x, In x (leaves l ++ leaves r) /\ il_key (il (n' x')) = il_key (il (n x))).
  { intros x' I. apply in_app_or in I as [I|I]; [destruct (same_back _ _ _ _ _ Sl I) as (x & Ix & E) | destruct (same_back _ _ _ _ _ Sr I) as (x & Ix & E)];
      exists x; rewrite in_app_iff, E, read_key; auto. }
  refine (conj H0 (conj _ (conj _ (conj _ (conj (IHl _ Sl Pl) (IHr _ Sr Pr)))))).
  - intros x I. destruct (same_back _ _ _ _ _ Sl I) as (y & Iy & E). rewrite E, read_key. auto.
  - intros x I. destruct (same_back _ _ _ _ _ Sr I) as (y & Iy & E). rewrite E, read_key. auto.
  - intros x y Ix Iy. destruct (Back x Ix) as (x0 & Ix0 & ->), (Back y Iy) as (y0 & Iy0 & ->). auto.
Qed.

Lemma leaf_il_key : forall n z a, (forall s, hash_check_proc dic (index (n z)) <> Ret s) -> leaf_key dic n z a = il_key (il (n a)).
Proof.
  intros n z a L. unfold leaf_key. destruct (Z.eqb_spec a z) as [->|]; [|reflexivity]. unfold il_key, key_at, line_at. fold (index (n z)).
  destruct (hash_check_proc dic (index (n z))) as [s|]; [now destruct (L s) | reflexivity].
Qed.

Lemma good_small : forall i, good_line dic i -> 0 <= i < slen dic.
Proof.
  intros i (key & rest & G & _). unfold hash_check_proc, get_line in G. destruct (Z.leb_spec (slen dic) i); [discriminate|]. destruct (Z.ltb_spec i 0); [discriminate | lia].
Qed.

Lemma holds_same : forall E n n' z t t', holds dic E n z t -> index (n z) < 0 -> same n n' t t' -> checkbit (n' top) = -1 -> rep n' (-1) (p_right (n' top)) t' ->
  exists z', holds dic E n' z' t'.
Proof using Hdic.
  intros E n n' z t t' H Iz S Ct R. destruct (same_forth _ _ _ _ z S (holds_z _ _ _ _ _ H)) as (z' & Iz' & Ez'). exists z'.
  assert (Lz : forall s, hash_check_proc dic (index (n' z')) <> Ret s).
  { unfold index. rewrite Ez'. unfold read_il. unfold index in Iz. replace (hd (-1) (il (n z)) <? 0) with true by lia. apply key_lost. right. exact Hdic. }
  assert (Ky : forall a, leaf_key dic n' z' a = il_key (il (n' a))) by (intros; now apply leaf_il_key).
  assert (Kx : forall a, leaf_key dic n z a = il_key (il (n a))) by (intros; apply leaf_il_key, (holds_lost _ _ _ _ _ H)).
  assert (Sp : split n' (leaf_key dic n' z') t').
  { apply split_ext with (K := fun a => il_key (il (n' a))); [intros; now rewrite Ky|]. apply (same_split n n' t t' S).
    apply split_ext with (K := leaf_key dic n z); [intros; now rewrite Kx | apply (holds_split _ _ _ _ _ H)]. }
  assert (Rd : forall a, In a (leaves t) -> a <> z -> read_il (il (n a)) = il (n a)).
  { intros a Ia Az. unfold read_il. destruct (leaf_lines dic E n z t H a Ia Az) as (G & Ix & _). specialize (G _ Ix). apply good_small in G. fold (index (n a)).
    now replace (index (n a) <? 0) with false by lia. }
  split; auto.
  - intros a Ia Az. destruct (same_back _ _ _ _ _ S Ia) as (b & Ib & Eb). destruct (Z.eq_dec b z) as [->|Bz].
    + exfalso. apply Az. apply (leaves_keys n' _ t' a z' Sp Ia Iz'). now rewrite !Ky, Eb, Ez'.
    + rewrite Ky, Eb, read_key, <- Kx. rewrite Rd by auto. now apply (holds_il _ _ _ _ _ H).
  - intros i Hi. destruct (holds_all _ _ _ _ _ H i Hi) as (a & Ia & Az & Ka). destruct (same_forth _ _ _ _ a S Ia) as (a' & Ia' & Ea'). exists a'.
    rewrite Ky, Ea', read_key, <- Kx. repeat split; auto. intros ->. destruct (leaf_line dic E n z t H a Ia Az) as (rest & Hc & _).
    apply (Lz (leaf_key dic n z a ++ String TAB rest)%string). rewrite <- Hc. unfold index. rewrite Ea', Rd by auto. reflexivity.
  - apply (holds_good _ _ _ _ _ H).
Qed.
End Dictionary.
