(* ===== verification/PatDic.v ===== *)
(** * The Patricia dictionary, from its lines to the words of a text (src/juman/makepat, src/juman/lib/pat.c, patfile.c)

    [makepat] builds the tree of a sorted dictionary, [reload] is the tree after it was written and read again.  In both
    the searches find what the list of lines says. *)
From Stdlib Require Import ZArith List Bool String Ascii Lia Sorted.
Import ListNotations.
From S2P Require Import Prelude CStr Pat PatBits PatTree PatPrefix PatInsert PatFile.

(** The file of a dictionary: every line with a NUL behind it *)
Definition dic_text (ls : list string) : string := fold_right (fun l r => l ++ String NUL r)%string EmptyString ls.

Definition makepat (ls : list string) : res heap := insert_dic_data (dic_text ls) top TAB (pat_init_tree_top top no_nodes).

Definition reload (h : heap) : res heap := file <- com_s top h ;; com_l file top (pat_init_tree_top top no_nodes).

(** ** The lines as they should be, and what is looked for *)
Definition key_of (l : string) : string := fst (span_not TAB l).

Definition good_text (l : string) : bool :=
  negb (str_eq (key_of l) EmptyString) && plain (key_of l) && negb (str_eq (snd (span_not TAB l)) EmptyString) && str_free NUL l && (slen l <? KEY_MAX).

(** No key is the beginning of one before it. *)
Fixpoint ordered (ls : list string) : bool :=
  match ls with
  | [] => true
  | l :: ls' => forallb (fun l2 => negb (starts_with (key_of l2) (key_of l)) || str_eq (key_of l) (key_of l2)) ls' && ordered ls'
  end.

Definition add_line (key : string) (found : list string) (l : string) : list string :=
  if str_eq (key_of l) key && negb (existsb (fun l2 => str_eq l2 l) found) then found ++ [l] else found.

(** The lines of a key, each once *)
Definition lines_of (key : string) (ls : list string) : list string := fold_left (add_line key) ls [].

Definition text (ls : list string) : string := fold_right (fun l r => (l ++ NL) ++ r)%string EmptyString ls.

(** ** Where the lines are *)
Fixpoint starts (i : Z) (ls : list string) : list Z :=
  match ls with
  | [] => []
  | l :: ls' => i :: starts (i + (slen l + 1)) ls'
  end.

Lemma span_parts : forall c s, s = (fst (span_not c s) ++ snd (span_not c s))%string.
Proof. intros c s. symmetry. apply span_not_app. Qed.

Lemma span_rest : forall c s, snd (span_not c s) = EmptyString \/ exists r, snd (span_not c s) = String c r.
Proof.
  intros c s. induction s as [|a s IH]; [now left|]. cbn [span_not]. destruct (Ascii.eqb_spec a c) as [->|]; [right; now exists s|].
  destruct (span_not c s) as [p q]. exact IH.
Qed.

Lemma good_text_line : forall l, good_text l = true -> exists rest, l = (key_of l ++ String TAB rest)%string /\ key_of l <> EmptyString /\
  plain (key_of l) = true /\ str_free NUL l = true /\ slen l < KEY_MAX.
Proof.
  intros l G. unfold good_text in G. repeat (apply andb_prop in G as [G ?]). apply negb_true_iff in G.
  destruct (span_rest TAB l) as [E|[r E]]; [rewrite E, str_eq_refl in *; discriminate|]. exists r. split; [unfold key_of; rewrite <- E; apply span_parts|].
  split; [|repeat split; auto; lia]. destruct (str_eq_spec (key_of l) EmptyString); congruence.
Qed.

Section Lines.
Context (dic : string).

(** The rest of the dictionary at [i] *)
Definition rest_at (i : Z) (ls : list string) : Prop := exists pre, dic = (pre ++ dic_text ls)%string /\ slen pre = i.

Lemma rest_cons : forall i l ls, rest_at i (l :: ls) -> rest_at (i + (slen l + 1)) ls.
Proof.
  intros i l ls (pre & E & L). exists (pre ++ (l ++ String NUL EmptyString))%string. split.
  - rewrite E. cbn [dic_text fold_right]. rewrite !sapp_assoc. reflexivity.
  - rewrite !slen_app. change (slen (String NUL EmptyString)) with 1. lia.
Qed.

Lemma get_line_end : forall i, rest_at i [] -> get_line dic i = Ret None.
Proof. intros i (pre & -> & <-). unfold get_line. cbn [dic_text fold_right]. rewrite sapp_nil_r. now rewrite Z.leb_refl. Qed.

Lemma get_line_at : forall i l ls, rest_at i (l :: ls) -> str_free NUL l = true -> get_line dic i = Ret (Some l).
Proof.
  intros i l ls (pre & -> & <-) F. unfold get_line. cbn [dic_text fold_right]. rewrite slen_app.
  assert (0 < slen (l ++ String NUL (dic_text ls))) by (rewrite slen_app; unfold slen; cbn [String.length]; lia).
  assert (0 <= slen pre) by (unfold slen; lia). replace (_ <=? slen pre) with false by (fold (dic_text ls); lia). replace (slen pre <? 0) with false by lia.
  replace (Z.to_nat (slen pre)) with (String.length pre) by (unfold slen; lia). rewrite sdrop_app. now rewrite span_not_sep.
Qed.

Lemma good_at : forall i l ls, rest_at i (l :: ls) -> good_text l = true -> line_at dic i = l /\ key_at dic i = key_of l /\ good_line dic i.
Proof.
  intros i l ls R G. destruct (good_text_line l G) as (rest & E & Nk & Pk & F & L). pose proof (get_line_at i l ls R F) as Gl.
  assert (Hc : hash_check_proc dic i = Ret l) by (unfold hash_check_proc; rewrite Gl; replace (slen l <? BUFFER_MAX) with true by (unfold KEY_MAX, BUFFER_MAX in *; lia); reflexivity).
  assert (La : line_at dic i = l) by (unfold line_at; now rewrite Hc). split; [exact La|]. split.
  - unfold key_at. rewrite La. transitivity (strtok_cut TAB (key_of l ++ String TAB rest)%string); [now rewrite <- E | now apply cut_line].
  - exists (key_of l), rest. rewrite La, <- E. auto.
Qed.

Definition places_ok (ix : list Z) (ls : list string) : Prop := Forall2 (fun i l => line_at dic i = l /\ key_at dic i = key_of l) ix ls.

(** What the indices say is what the lines say. *)
Lemma entries_lines : forall key ix ls acc accl, places_ok ix ls -> map (line_at dic) acc = accl ->
  map (line_at dic) (fold_left (add_entry dic key) ix acc) = fold_left (add_line key) ls accl.
Proof.
  intros key ix ls acc accl P. revert acc accl. induction P as [|i l ix ls [E1 E2] P IH]; intros acc accl E; [exact E|]. cbn [fold_left]. apply IH.
  unfold add_entry, add_line. rewrite E1, E2. replace (existsb (fun j => str_eq (line_at dic j) l) acc) with (existsb (fun l2 => str_eq l2 l) accl)
    by (rewrite <- E; clear; induction acc; cbn; congruence).
  destruct (_ && _); [|exact E]. rewrite map_app, E. cbn. now rewrite E1.
Qed.

Lemma text_lines : forall ils, text_of dic ils = text (map (line_at dic) ils).
Proof. induction ils as [|i ils IH]; [reflexivity|]. cbn. unfold text_of in IH. now rewrite IH. Qed.

(** Inserting the rest of the lines *)
Lemma insert_lines_spec : forall ls2 is1 ls1 i h t fuel, rest_at i ls2 -> forallb good_text ls2 = true -> ordered (ls1 ++ ls2) = true ->
  places_ok is1 ls1 -> built dic is1 h t -> (List.length ls2 < fuel)%nat ->
  exists h' t', insert_lines dic fuel i top TAB h = Ret h' /\ built dic (is1 ++ starts i ls2) h' t' /\ places_ok (is1 ++ starts i ls2) (ls1 ++ ls2).
Proof.
  induction ls2 as [|l ls2 IH]; intros is1 ls1 i h t fuel R G O P B F; (destruct fuel as [|fuel]; [cbn in F; lia|]); cbn [insert_lines].
  - rewrite (get_line_end i R). exists h, t. cbn [starts]. rewrite !app_nil_r. auto.
  - cbn [forallb] in G. apply andb_prop in G as [G1 G2]. destruct (good_text_line l G1) as (rest & _ & _ & _ & Fr & L).
    rewrite (get_line_at i l ls2 R Fr). replace (BUFFER_MAX <=? slen l) with false by (unfold KEY_MAX, BUFFER_MAX in *; lia).
    destruct (good_at i l ls2 R G1) as (La & Ka & Gi).
    assert (Fb : fits_before dic is1 i).
    { intros j Hj S. rewrite Ka in *. revert O Hj S. clear - P. induction P as [|j' l' ix' ls' [E1 E2] P IH]; intros O Hj S; [destruct Hj|].
      cbn [app ordered] in O. apply andb_prop in O as [O1 O2]. destruct Hj as [<-|Hj]; [|now apply IH]. rewrite E2 in *. rewrite forallb_forall in O1.
      specialize (O1 l ltac:(apply in_or_app; right; now left)). rewrite S in O1. cbn [negb orb] in O1. now destruct (str_eq_spec (key_of l') (key_of l)). }
    destruct (pat_insert_spec dic is1 h t i B Gi Fb) as (h1 & t1 & E1 & B1). rewrite La in E1. rewrite E1.
    destruct (IH (is1 ++ [i]) (ls1 ++ [l]) (i + (slen l + 1)) h1 t1 fuel) as (h2 & t2 & E2 & B2 & P2); auto.
    + now apply (rest_cons i l).
    + now rewrite <- app_assoc.
    + apply Forall2_app; [exact P | repeat constructor; auto].
    + cbn in F. lia.
    + exists h2, t2. cbn [starts]. replace (is1 ++ i :: starts (i + (slen l + 1)) ls2) with ((is1 ++ [i]) ++ starts (i + (slen l + 1)) ls2) by now rewrite <- app_assoc.
      replace (ls1 ++ l :: ls2) with ((ls1 ++ [l]) ++ ls2) by now rewrite <- app_assoc. auto.
Qed.
End Lines.

Lemma lines_length : forall ls, (List.length ls <= String.length (dic_text ls))%nat.
Proof. induction ls as [|l ls IH]; [reflexivity|]. change (dic_text (l :: ls)) with (l ++ String NUL (dic_text ls))%string. rewrite length_sapp. cbn [List.length String.length]. lia. Qed.

Lemma makepat_built : forall ls, forallb good_text ls = true -> ordered ls = true ->
  exists h t, makepat ls = Ret h /\ built (dic_text ls) (starts 0 ls) h t /\ places_ok (dic_text ls) (starts 0 ls) ls.
Proof.
  intros ls G O. unfold makepat, insert_dic_data. apply (insert_lines_spec (dic_text ls) ls [] [] 0 _ (PL top)); auto.
  - now exists EmptyString.
  - constructor.
  - apply built_nil.
  - pose proof (lines_length ls). lia.
Qed.

(** ** The tree that was written and read *)
Lemma built_root : forall dic E h t, built dic E h t -> E <> [] -> exists a l r, t = PN a l r.
Proof.
  intros dic E h t B N. destruct t as [a|a l r]; [|eauto]. exfalso. destruct E as [|i E]; [congruence|]. pose proof (built_holds _ _ _ _ B) as H.
  destruct (holds_all _ _ _ _ _ H i ltac:(now left)) as (b & Ib & Bz & _). pose proof (holds_z _ _ _ _ _ H) as Z. cbn in *. intuition congruence.
Qed.

Lemma built_writable : forall dic E h t, slen dic <= INDEX_MAX -> built dic E h t -> forall a, In a (leaves t) -> writable (il (node h a)).
Proof.
  intros dic E h t L B a Ia. pose proof (built_holds _ _ _ _ B) as H. destruct (Z.eq_dec a top) as [->|Az]; [left; apply (built_top _ _ _ _ B)|].
  right. split; [apply (holds_il _ _ _ _ _ H a Ia Az)|]. intros i Hi. destruct (leaf_lines _ _ _ _ _ H a Ia Az) as (G & _). apply G, good_small in Hi. unfold small. lia.
Qed.

Lemma reload_built : forall dic E h t, slen dic <= INDEX_MAX -> E <> [] -> built dic E h t ->
  exists h' z' t', reload h = Ret h' /\ holds dic E (node h') z' t' /\ rightmost t' = top.
Proof.
  intros dic E h t L N B. pose proof (built_holds _ _ _ _ B) as H. destruct (built_root _ _ _ _ B N) as (a & l & r & Et). pose proof (holds_rep _ _ _ _ _ H) as R.
  unfold reload, com_s. destruct (save_enc (node h) t (-1) (p_right (node h top)) short_steps R) as [Sv _]; [lia | unfold short_steps; lia|]. rewrite Et in Sv. rewrite Sv. rewrite <- Et.
  set (file := enc (node h) t ++ _). unfold com_l.
  destruct (load_spec (node h) t (-1) (p_right (node h top)) R ltac:(lia) (built_writable _ _ _ _ L B)) with (P := top) (h := pat_init_tree_top top no_nodes)
    (rest := repeat 0 (Z.to_nat (BUFSIZ - zlen (enc (node h) t) mod BUFSIZ))) (fuel := Datatypes.S (List.length file)) as (y & h1 & t' & E1 & Ld); try reflexivity.
  - intros b Hb. apply (built_inner _ _ _ _ B) in Hb. unfold BIT_MAX, KEY_MAX in Hb. lia.
  - unfold file. rewrite length_app. lia.
  - fold file in E1. rewrite E1. destruct Ld as [Lr Ls Lu Lf [l1 Lp] Li Ll Lt]. set (h' := set_node top (set_right y (node h1 top)) h1).
    assert (Fo : forall b, b <> top -> node h' b = node h1 b) by (intros b Hb; cbn; now rewrite aset_ne).
    assert (Ft : node h' top = set_right y (node h1 top)) by (unfold h', set_node; cbn [node]; now rewrite aset_eq).
    assert (Fi : forall b, In b (inner t') -> b <> top) by (intros b Hb ->; apply Li in Hb; cbn in Hb; unfold top in Hb; lia).
    assert (Fs : forall b, checkbit (node h' b) = checkbit (node h1 b) /\ il (node h' b) = il (node h1 b)) by (intros b; destruct (Z.eq_dec b top) as [->|Hb]; [rewrite Ft | rewrite Fo]; auto).
    destruct (holds_same dic L E (node h) (node h') top t t' H) as [z' Hz].
    + unfold index. rewrite (proj1 (built_top _ _ _ _ B)). cbn. lia.
    + apply same_frame with (n1 := node h1); auto; intros; apply Fs.
    + rewrite Ft, Lp. reflexivity.
    + rewrite Ft. cbn [set_right p_right]. apply rep_frame with (n := node h1); [exact Lr | intros; apply Fo; auto | intros; apply Fs].
    + exists h', z', t'. auto.
Qed.

(** A tree that has the lines: the one that was built, or read *)
Inductive tree_of (ls : list string) (h : heap) : Prop :=
| in_memory : makepat ls = Ret h -> tree_of ls h
| from_file h0 : makepat ls = Ret h0 -> reload h0 = Ret h -> tree_of ls h.

Lemma tree_of_holds : forall ls h, forallb good_text ls = true -> ordered ls = true -> slen (dic_text ls) <= INDEX_MAX -> ls <> [] -> tree_of ls h ->
  exists z t, holds (dic_text ls) (starts 0 ls) (node h) z t /\ (top = z \/ rightmost t = top) /\ places_ok (dic_text ls) (starts 0 ls) ls.
Proof.
  intros ls h G O L N T. destruct (makepat_built ls G O) as (h0 & t & E & B & P). assert (Ns : starts 0 ls <> []) by (destruct ls; [congruence | discriminate]).
  destruct T as [E1|h1 E1 E2].
  - rewrite E in E1. injection E1 as <-. exists top, t. split; [apply (built_holds _ _ _ _ B) | auto].
  - rewrite E in E1. injection E1 as <-. destruct (reload_built _ _ _ _ L Ns B) as (h' & z' & t' & E3 & H & R). rewrite E3 in E2. injection E2 as <-. exists z', t'. auto.
Qed.

Lemma entries_text : forall ls key, places_ok (dic_text ls) (starts 0 ls) ls ->
  text_of (dic_text ls) (entries (dic_text ls) key (starts 0 ls)) = text (lines_of key ls) /\
  (entries (dic_text ls) key (starts 0 ls) = [] <-> lines_of key ls = []).
Proof.
  intros ls key P. pose proof (entries_lines _ key _ _ [] [] P eq_refl) as E. fold (entries (dic_text ls) key (starts 0 ls)) (lines_of key ls) in E.
  rewrite <- E. split; [apply text_lines|]. destruct (entries _ key _); cbn; split; congruence.
Qed.

Lemma words_lines : forall ls ws, places_ok (dic_text ls) (starts 0 ls) ls ->
  words_text (dic_text ls) (starts 0 ls) ws = fold_right (fun w s => text (lines_of w ls) ++ s)%string EmptyString ws.
Proof.
  intros ls ws P. induction ws as [|w ws IH]; [reflexivity|]. cbn [fold_right]. rewrite <- IH, <- (proj1 (entries_text ls w P)). reflexivity.
Qed.

(** ** The claims *)

(** C15: The Patricia dictionary finds exactly what its lines say.  For every sorted dictionary whose keys have no control
    characters, the tree can be built, written and read, and in the tree in memory and in the one that was read the
    search for any key finds the lines of that key, each once and in their order; for a key
    without lines it finds nothing (or falls into the leaf without a line). *)
Theorem pat_search_exact_lines : forall ls, forallb good_text ls = true -> ordered ls = true -> slen (dic_text ls) <= INDEX_MAX -> ls <> [] ->
  (exists h h', makepat ls = Ret h /\ reload h = Ret h') /\
  forall h, tree_of ls h -> forall key r,
    match lines_of key ls with
    | [] => (exists x, pat_search_exact (dic_text ls) (node h) key top r = Ret (x, r)) \/ exists e, pat_search_exact (dic_text ls) (node h) key top r = Err e
    | found => exists x, pat_search_exact (dic_text ls) (node h) key top r = Ret (x, (r ++ text found)%string)
    end.
Proof.
  intros ls G O L N. split.
  - destruct (makepat_built ls G O) as (h & t & E & B & _). assert (Ns : starts 0 ls <> []) by (destruct ls; [congruence | discriminate]).
    destruct (reload_built _ _ _ _ L Ns B) as (h' & z' & t' & E' & _). eauto.
  - intros h T key r. destruct (tree_of_holds ls h G O L N T) as (z & t & H & _ & P). destruct (entries_text ls key P) as [Et En].
    pose proof (exact_search _ _ _ _ _ H key r) as S. destruct (lines_of key ls) as [|l found] eqn:D.
    + rewrite (proj2 En eq_refl) in S. destruct S as [S|S]; eauto.
    + destruct (entries (dic_text ls) key (starts 0 ls)) as [|i ils] eqn:Di; [now discriminate (proj1 En eq_refl)|]. rewrite <- Et. eauto.
Qed.

(** C16: When all keys are made of characters of three bytes, [pat_search] finds the words that a text begins with: for a text
    that does not begin with an ASCII character, in the built tree and in the one that was read, it puts out the
    lines of exactly those keys that are prefixes of the text, the shorter ones first, and it never fails. *)
Theorem pat_search_prefixes : forall ls, forallb good_text ls = true -> ordered ls = true -> slen (dic_text ls) <= INDEX_MAX -> ls <> [] ->
  forallb (fun l => wide (key_of l)) ls = true ->
  forall h, tree_of ls h -> forall key, 128 <= first_byte key -> forall r,
    exists x ws, StronglySorted (fun v w => slen v < slen w) ws /\
      (forall w, In w ws <-> starts_with w key = true /\ lines_of w ls <> []) /\
      pat_search (dic_text ls) (node h) key top r = Ret (x, (r ++ fold_right (fun w s => text (lines_of w ls) ++ s) EmptyString ws)%string).
Proof.
  intros ls G O L N W h T key K r. destruct (tree_of_holds ls h G O L N T) as (z & t & H & Tp & P).
  assert (Wl : forall a, In a (leaves t) -> a <> z -> wide (leaf_key (dic_text ls) (node h) z a) = true).
  { intros a Ia Az. destruct (leaf_lines _ _ _ _ _ H a Ia Az) as (_ & Ix & ->). destruct (holds_il _ _ _ _ _ H a Ia Az) as [Il _]. rewrite Il in Ix.
    apply entries_in in Ix as [Ix _]. rewrite forallb_forall in W. revert Ix P W. clear. generalize (dic_text ls) (starts 0 ls) (index (node h a)). intros dic ix i Ix P W. revert Ix.
    induction P as [|j l ix ls' [E1 E2] P IH]; intros Ix; [destruct Ix|]. destruct Ix as [<-|Ix]; [rewrite E2; apply W; now left | apply IH; auto; intros; apply W; now right]. }
  assert (B : pat_bits key 0 = 1).
  { destruct key as [|c key]; [cbn in K; lia|]. cbn [first_byte] in K. change 0 with (8 * 0). pose proof (byte_of_range c) as Rc. rewrite pat_bits_head by lia.
    change (7 - 8 * 0) with 7. assert (byte_of c / 2 ^ 7 = 1) as Q by (symmetry; apply Z.div_unique with (byte_of c - 128); lia).
    rewrite (proj2 (Z.testbit_true (byte_of c) 7 ltac:(lia))); [reflexivity | now rewrite Q]. }
  assert (Ns : starts 0 ls <> []) by (destruct ls; [congruence | discriminate]).
  destruct (prefix_search _ _ _ _ _ H Wl key Tp Ns B r) as (y & ws & S & I & E). exists y, ws. split; [exact S|]. split.
  - intros w. rewrite I. destruct (entries_text ls w P) as [_ En]. split; intros [A1 A2]; split; auto; intros X; apply A2; now apply En.
  - rewrite E, words_lines by exact P. reflexivity.
Qed.

(** ** On a small dictionary *)
Definition entry (key rest : string) : string := (key ++ String TAB rest)%string.

Definition small_dic : list string := [entry "あ" "1"; entry "あい" "2"; entry "あい" "3"; entry "う" "4"]%string.

Definition small_tree : heap := match makepat small_dic with Ret h => h | Err _ => no_nodes end.

Lemma pat_search_exact_lines_witness : exists x h', reload small_tree = Ret h' /\
  pat_search_exact (dic_text small_dic) (node h') "あい" top "" = Ret (x, text [entry "あい" "2"; entry "あい" "3"]%string).
Proof.
  assert (M : makepat small_dic = Ret small_tree) by (vm_compute; reflexivity).
  destruct (pat_search_exact_lines small_dic ltac:(vm_compute; reflexivity) ltac:(vm_compute; reflexivity) ltac:(vm_compute; discriminate) ltac:(discriminate))
    as [(h & h' & E & E') S].
  revert M. generalize small_tree. intros st M. rewrite M in E. injection E as <-. destruct (S h' (from_file _ _ _ M E') "あい"%string ""%string) as [x Hx]. exists x, h'. split; [exact E' | exact Hx].
Defined.

Lemma pat_search_prefixes_witness : exists x ws, StronglySorted (fun v w => slen v < slen w) ws /\
  (forall w, In w ws <-> starts_with w "あいう" = true /\ lines_of w small_dic <> []) /\
  pat_search (dic_text small_dic) (node small_tree) "あいう" top "" = Ret (x, fold_right (fun w s => text (lines_of w small_dic) ++ s)%string EmptyString ws).
Proof.
  assert (M : makepat small_dic = Ret small_tree) by (vm_compute; reflexivity).
  apply (pat_search_prefixes small_dic ltac:(vm_compute; reflexivity) ltac:(vm_compute; reflexivity) ltac:(vm_compute; discriminate) ltac:(discriminate)
    ltac:(vm_compute; reflexivity) small_tree (in_memory _ _ M) "あいう"%string ltac:(vm_compute; discriminate) ""%string).
Defined.

(** What the searches put out here *)
Example prefixes_found : match pat_search (dic_text small_dic) (node small_tree) "あいう" top "" with
  | Ret (_, r) => r = text [entry "あ" "1"; entry "あい" "2"; entry "あい" "3"]%string | Err _ => False end.
Proof. vm_compute. reflexivity. Qed.

(** A key that is the beginning of one before it is lost: [strncmp] compares only as many bytes as the new key has, so its line goes
    to the node of the longer one, where the search for it does not find it. *)
Lemma prefix_after_lost : let ls := [entry "あい" "1"; entry "あ" "2"]%string in
  lines_of "あ" ls = [entry "あ" "2"]%string /\
  match makepat ls with
  | Ret h =>
      (exists x, pat_search_exact (dic_text ls) (node h) "あ" top "" = Ret (x, ""%string)) /\
      exists x, pat_search_exact (dic_text ls) (node h) "あい" top "" = Ret (x, text ls)
  | Err _ => False
  end.
Proof. split; [vm_compute; reflexivity|]. vm_compute. split; eexists; reflexivity. Qed.

(** A search that falls into the leaf without a line reads before the dictionary, or at a place behind its end. *)
Lemma miss_out_of_bounds : pat_search (dic_text small_dic) (node small_tree) "a" top "" = Err OutOfBounds /\
  match reload small_tree with Ret h' => pat_search (dic_text small_dic) (node h') "a" top "" = Err NullDeref | Err _ => False end.
Proof. split; vm_compute; reflexivity. Qed.
