(* ===== verification/Koou.v ===== *)
(** * Correlative expressions (src/system/koou.c)

    A rule pairs a start bunsetsu with the bunsetsus that end it (and those
    that may receive it in between); [change_matrix] rewrites [Dpnd_matrix]
    accordingly. *)
From Stdlib Require Import ZArith List Bool String Ascii Lia.
Import ListNotations.
From S2P Require Import Prelude CStr Feature Sentence SemCode CheckFunction Regexp.

Record KoouRule : Type := mkKR {
  start_pattern : option REGEXPMRPHS;
  end_pattern : option REGEXPMRPHS;
  uke_pattern : option REGEXPMRPHS;
  kr_dpnd_type : Z
}.

Record koou_tables : Type := mkKT {
  koou_m_p : array bool;
  Koou_matrix : matrix Z;
  Koou_dpnd_matrix : matrix Z
}.

Definition init_koou (sp : SENTENCE_DATA) (t : koou_tables) : koou_tables :=
  mkKT (for_up 0 (Bnst_num sp) (fun i a => aset a i false) (koou_m_p t))
       (fill_rect 0 (Bnst_num sp) 0 (Bnst_num sp) 0 (Koou_matrix t))
       (fill_rect 0 (Bnst_num sp) 0 (Bnst_num sp) 0 (Koou_dpnd_matrix t)).

Section Koou.
Context `{G : Grammar} `{FM : FeatureMatch} (sp : SENTENCE_DATA).
Context (Chinese : bool) (KoouRuleArray : list KoouRule).

(** [_regexpbnst_match(pattern, sp->bnst_data + i) != -1] *)
Definition bnst_matches (pattern : option REGEXPMRPHS) (i : Z) : res bool :=
  match pattern with
  | None => Err NullDeref
  | Some ms => n <- _regexpbnst_match sp ms (bnst_data sp i) ;; Ret (negb (n =? -1))
  end.

(** In Chinese, is there a punctuation mark in [i .. k - 1]? *)
Definition pu_flag (i k : Z) : bool :=
  Chinese && existsb (fun l => bnst_has sp l "PU") (zrange i k).

(** The loop body of [check_koou] for rule [r], start [i] and bunsetsu [k]. *)
Definition koou_step (r : KoouRule) (i k : Z) (st : bool * koou_tables) : res (bool * koou_tables) :=
  let '(flag, mkKT m_p km kd) := st in
  e <- bnst_matches (end_pattern r) k ;;
  if e && (negb Chinese ||
           (negb (pu_flag i k) && (bnst_has sp k "LC" || bnst_has sp k "NN")))
  then Ret (true, mkKT (aset m_p i true) (mset km i k 1) (mset kd i k (kr_dpnd_type r)))
  else
    match uke_pattern r with
    | None => Ret st
    | Some u =>
        b <- bnst_matches (Some u) k ;;
        if b && (negb Chinese || (negb (pu_flag i k) && bnst_has sp k "LC"))
        then Ret (flag, mkKT m_p (mset km i k 2) (mset kd i k (kr_dpnd_type r)))
        else Ret st
    end.

Definition koou_rule_at (i : Z) (r : KoouRule) (st : bool * koou_tables) : res (bool * koou_tables) :=
  s <- bnst_matches (start_pattern r) i ;;
  if s && (negb Chinese || bnst_has sp i "P")
  then for_res i (Bnst_num sp) (koou_step r i) st
  else Ret st.

Definition check_koou (t : koou_tables) : res (bool * koou_tables) :=
  for_res 0 (Bnst_num sp) (fun i st => fold_res (koou_rule_at i) KoouRuleArray st) (false, t).

(** ** Rewriting the matrix *)

Definition mask_for (si start end_ : Z) (m : matrix Z) : matrix Z :=
  fill_rect (si + 1) start (end_ + 1) (Bnst_num sp) 0 m.

Definition mask_back (si start : Z) (m : matrix Z) : matrix Z :=
  fill_rect 0 si (si + 1) start 0 m.

(** The local variables of the loop over [j]. *)
Definition koou_row_state : Type := Z * Z * matrix Z.

Definition note_end (t : koou_tables) (i j f_start f_end : Z) : Z * Z :=
  if Koou_matrix t i j =? 1 then (if f_start <? 0 then j else f_start, j) else (f_start, f_end).

Definition change_entry (t : koou_tables) (i j : Z) (st : koou_row_state) : koou_row_state :=
  let '(f_start, f_end, m) := st in
  if 0 <? Koou_matrix t i j then
    let m := mset m i j (Koou_dpnd_matrix t i j) in
    let '(f_start, f_end) := note_end t i j f_start f_end in (f_start, f_end, m)
  else (f_start, f_end, mset m i j 0).

Definition change_row (t : koou_tables) (i : Z) (m : matrix Z) : matrix Z :=
  if koou_m_p t i then
    let '(f_start, f_end, m) := for_up i (Bnst_num sp) (change_entry t i) (-1, -1, m) in
    mask_back i f_start (mask_for i f_start f_end m)
  else m.

(** The dependencies between [(i, j)] and the outside, masked in Chinese. *)
Definition mask_between (i j : Z) (m : matrix Z) : matrix Z :=
  for_up (i + 1) j (fun k m =>
    let m := for_up 0 i (fun l m => mset m l k 0) m in
    for_up (j + 1) (Bnst_num sp) (fun l m => mset m k l 0) m) m.

Definition change_entry_chi (t : koou_tables) (i j : Z) (m : matrix Z) : matrix Z :=
  if 0 <? Koou_matrix t i j then
    let m := mset m i j (Koou_dpnd_matrix t i j) in
    let m := if Koou_dpnd_matrix t i j =? chr "L" then
               let m := for_up (j + 1) (Bnst_num sp) (fun k m => mset m j k 0) m in
               let m := for_up 0 i (fun k m => mset m k j 0) m in
               mask_between i j m
             else m in
    if Koou_dpnd_matrix t i j =? chr "R" then
      let m := for_up (i + 1) (Bnst_num sp) (fun k m => if k =? j then m else mset m i k 0) m in
      let m := for_up 0 i (fun k m => mset m i k 0) m in
      mask_between i j m
    else m
  else m.

Definition change_matrix (t : koou_tables) (m : matrix Z) : matrix Z :=
  if Chinese then
    for_up 0 (Bnst_num sp) (fun i m =>
      if koou_m_p t i then for_up i (Bnst_num sp) (change_entry_chi t i) m else m) m
  else for_up 0 (Bnst_num sp) (change_row t) m.

Definition koou (t : koou_tables) (Dpnd_matrix : matrix Z)
  : res (bool * koou_tables * matrix Z) :=
  ' (flag, t) <- check_koou (init_koou sp t) ;;
  Ret (flag, t, change_matrix t Dpnd_matrix).

(** * Properties *)

(** ** The rows that are rewritten

    The first and the last end of the expression that starts at [i]; -1 without one. *)
Definition ends_of (t : koou_tables) (i : Z) (l : list Z) : Z :=
  match find (fun j => Koou_matrix t i j =? 1) l with Some j => j | None => -1 end.

Definition first_end (t : koou_tables) (i : Z) : Z := ends_of t i (zrange i (Bnst_num sp)).
Definition last_end (t : koou_tables) (i : Z) : Z := ends_of t i (rev (zrange i (Bnst_num sp))).

Lemma find_app : forall {A} (p : A -> bool) l1 l2,
  find p (l1 ++ l2) = match find p l1 with Some x => Some x | None => find p l2 end.
Proof. intros A p l1 l2. induction l1 as [|x l1 IH]; cbn; auto. now destruct (p x). Qed.

Lemma ends_of_cons : forall t i j l,
  ends_of t i (j :: l) = if Koou_matrix t i j =? 1 then j else ends_of t i l.
Proof. intros. unfold ends_of. cbn [find]. now destruct (Koou_matrix t i j =? 1). Qed.

Lemma ends_of_snoc : forall t i j l, (forall x, In x l -> 0 <= x) ->
  ends_of t i (l ++ [j]) =
    if Koou_matrix t i j =? 1 then if ends_of t i l <? 0 then j else ends_of t i l
    else ends_of t i l.
Proof.
  intros t i j l H. unfold ends_of. rewrite find_app. cbn [find].
  destruct (find _ l) as [x|] eqn:EF.
  - apply find_some in EF as [EF _]. apply H in EF.
    destruct (Z.ltb_spec x 0); [lia|]. now destruct (Koou_matrix t i j =? 1).
  - now destruct (Koou_matrix t i j =? 1).
Qed.

Lemma change_entries : forall t i m, 0 <= i <= Bnst_num sp ->
  for_up i (Bnst_num sp) (change_entry t i) (-1, -1, m) =
    (first_end t i, last_end t i, snd (for_up i (Bnst_num sp) (change_entry t i) (-1, -1, m))) /\
  forall x y, snd (for_up i (Bnst_num sp) (change_entry t i) (-1, -1, m)) x y =
    if (x =? i) && within i y (Bnst_num sp)
    then if 0 <? Koou_matrix t i y then Koou_dpnd_matrix t i y else 0
    else m x y.
Proof.
  intros t i m Hi. split.
  - assert (Gk : forall k, i <= k ->
      fst (for_up i k (change_entry t i) (-1, -1, m)) =
        (ends_of t i (zrange i k), ends_of t i (rev (zrange i k)))).
    { intros k Hk. replace k with (i + Z.of_nat (Z.to_nat (k - i))) by lia.
      induction (Z.to_nat (k - i)) as [|n IH].
      - rewrite for_up_empty by lia. now rewrite zrange_nil by lia.
      - rewrite for_up_snoc by lia. rewrite zrange_snoc by lia.
        replace (i + Z.of_nat (S n) - 1) with (i + Z.of_nat n) by lia.
        set (st := for_up i (i + Z.of_nat n) (change_entry t i) (-1, -1, m)) in *.
        destruct st as [[fs fe] m']. cbn [fst] in IH. inv IH.
        rewrite rev_app_distr, ends_of_snoc.
        2: { intros z Hz. apply in_zrange in Hz. lia. }
        cbn [rev app]. rewrite ends_of_cons. unfold change_entry, note_end.
        destruct (Z.ltb_spec 0 (Koou_matrix t i (i + Z.of_nat n))) as [H0|H0];
          destruct (Z.eqb_spec (Koou_matrix t i (i + Z.of_nat n)) 1) as [H1|H1]; cbn [fst]; auto; lia. }
    specialize (Gk (Bnst_num sp) ltac:(lia)).
    destruct (for_up i (Bnst_num sp) (change_entry t i) (-1, -1, m)) as [[fs fe] m'].
    cbn [fst snd] in *. now inv Gk.
  - intros x y.
    rewrite (for_up_pointwise (fun (st : koou_row_state) (p : Z * Z) => snd st (fst p) (snd p))
      (fun j p => (fst p =? i) && (snd p =? j))
      (fun p _ => if 0 <? Koou_matrix t i (snd p) then Koou_dpnd_matrix t i (snd p) else 0)
      i (Bnst_num sp) _ _ (x, y)); cbn [fst snd].
    + destruct (x =? i); cbn [andb]; [now rewrite existsb_zrange_eq | now rewrite existsb_false].
    + intros j [[fs fe] m'] _. unfold change_entry.
      destruct (0 <? Koou_matrix t i j) eqn:E0; [destruct (note_end t i j fs fe)|];
        cbn [snd]; unfold mset; destruct (Z.eqb_spec x i); destruct (Z.eqb_spec y j);
        cbn [andb]; subst; rewrite ?E0; auto.
    + intros a b _ _ Ha Hb. blia.
Qed.

(** For a start bunsetsu [i], change_matrix allows only the dependencies of [i] on its
    ends and receivers, forbids the bunsetsus between [i] and the first end to depend
    beyond the last end, forbids those before [i] to depend on the inside, and
    leaves every other entry of Dpnd_matrix alone. *)
Theorem change_row_spec : forall t i m x y, 0 <= i < Bnst_num sp ->
  0 <= x < Bnst_num sp -> 0 <= y < Bnst_num sp -> koou_m_p t i = true ->
  change_row t i m x y =
    if (x =? i) && (i <=? y) then
      if 0 <? Koou_matrix t i y then Koou_dpnd_matrix t i y else 0
    else if (i <? x) && (x <? first_end t i) && (last_end t i <? y) then 0
    else if (x <? i) && (i <? y) && (y <? first_end t i) then 0
    else m x y.
Proof.
  intros t i m x y Hi Hx Hy Hp. unfold change_row. rewrite Hp.
  destruct (change_entries t i m ltac:(lia)) as [E1 E2].
  destruct (for_up i (Bnst_num sp) (change_entry t i) (-1, -1, m)) as [[fs fe] m'].
  cbn [snd] in *. inv E1. unfold mask_back, mask_for. rewrite !fill_rect_at, E2.
  set (f := first_end t i). set (e := last_end t i).
  destruct (within_spec 0 x i); destruct (within_spec (i + 1) y f);
    destruct (within_spec (i + 1) x f); destruct (within_spec (e + 1) y (Bnst_num sp));
    destruct (within_spec i y (Bnst_num sp));
    destruct (Z.eqb_spec x i); destruct (Z.leb_spec i y); destruct (Z.ltb_spec i x);
    destruct (Z.ltb_spec x f); destruct (Z.ltb_spec e y); destruct (Z.ltb_spec x i);
    destruct (Z.ltb_spec i y); destruct (Z.ltb_spec y f); cbn [andb]; auto; lia.
Qed.

(** ** The marks of check_koou

    With pattern tests that return. *)
Context (starts ends ukes : KoouRule -> Z -> bool).
Hypothesis start_ok : forall r i, In r KoouRuleArray -> 0 <= i < Bnst_num sp ->
  bnst_matches (start_pattern r) i = Ret (starts r i).
Hypothesis end_ok : forall r i, In r KoouRuleArray -> 0 <= i < Bnst_num sp ->
  bnst_matches (end_pattern r) i = Ret (ends r i).
Hypothesis uke_ok : forall r i, In r KoouRuleArray -> 0 <= i < Bnst_num sp ->
  match uke_pattern r with
  | None => ukes r i = false
  | Some u => bnst_matches (Some u) i = Ret (ukes r i)
  end.
Hypothesis japanese : Chinese = false.

(** A correlative pair: a rule starts at [i] and ends at [k]. *)
Definition koou_pair (i k : Z) : Prop :=
  0 <= i <= k /\ k < Bnst_num sp /\
  exists r, In r KoouRuleArray /\ starts r i = true /\ ends r k = true.

(** The loops with the results of the tests. *)
Definition koou_step' (r : KoouRule) (i : Z) (st : bool * koou_tables) (k : Z) : bool * koou_tables :=
  let '(flag, mkKT m_p km kd) := st in
  if ends r k then
    (true, mkKT (aset m_p i true) (mset km i k 1) (mset kd i k (kr_dpnd_type r)))
  else if ukes r k then (flag, mkKT m_p (mset km i k 2) (mset kd i k (kr_dpnd_type r)))
  else st.

Definition koou_rule_at' (i : Z) (st : bool * koou_tables) (r : KoouRule) : bool * koou_tables :=
  if starts r i then fold_left (koou_step' r i) (zrange i (Bnst_num sp)) st else st.

Definition check_koou' (t : koou_tables) : bool * koou_tables :=
  fold_left (fun st i => fold_left (koou_rule_at' i) KoouRuleArray st)
    (zrange 0 (Bnst_num sp)) (false, t).

Lemma check_koou_pure : forall t, check_koou t = Ret (check_koou' t).
Proof.
  intros t. unfold check_koou, for_res.
  apply (fold_res_pure _ (fun i st => fold_left (koou_rule_at' i) KoouRuleArray st)).
  intros i st Hi. apply in_zrange in Hi.
  rewrite (fold_res_pure _ (fun r st => koou_rule_at' i st r)); auto.
  intros r st1 Hr. unfold koou_rule_at, koou_rule_at'. rewrite start_ok, japanese by auto.
  cbn [negb orb]. rewrite andb_true_r. destruct (starts r i); auto.
  unfold for_res. rewrite (fold_res_pure _ (fun k st => koou_step' r i st k)); auto.
  intros k [flag [m_p km kd]] Hk. apply in_zrange in Hk. unfold koou_step, koou_step'.
  rewrite end_ok, japanese by (auto; lia). cbn [negb orb]. rewrite andb_true_r.
  destruct (ends r k); auto. pose proof (uke_ok r k Hr ltac:(lia)) as U.
  destruct (uke_pattern r) as [u|].
  - rewrite U, andb_true_r. now destruct (ukes r k).
  - now rewrite U.
Qed.

(** Every mark comes from a pair. *)
Record koou_sound (st : bool * koou_tables) : Prop := {
  ks_flag : fst st = true -> exists i k, koou_pair i k;
  ks_m_p : forall i, 0 <= i < Bnst_num sp -> koou_m_p (snd st) i = true -> exists k, koou_pair i k;
  ks_one : forall i k, 0 <= i < Bnst_num sp -> 0 <= k < Bnst_num sp ->
    Koou_matrix (snd st) i k = 1 -> koou_pair i k
}.

Lemma koou_step_sound : forall r i st k, In r KoouRuleArray -> 0 <= i -> starts r i = true ->
  In k (zrange i (Bnst_num sp)) -> koou_sound st -> koou_sound (koou_step' r i st k).
Proof.
  intros r i [flag [m_p km kd]] k Hr Hi Hs Hk [S1 S2 S3]. apply in_zrange in Hk.
  cbn [fst snd koou_m_p Koou_matrix] in *. unfold koou_step'. destruct (ends r k) eqn:He.
  - assert (P : koou_pair i k) by (split; [lia|]; split; [lia | eauto]).
    split; cbn [fst snd koou_m_p Koou_matrix]; eauto.
    + intros j Hj H. aset_cases; eauto.
    + intros j l Hj Hl H. unfold mset in H.
      destruct (Z.eqb_spec j i); destruct (Z.eqb_spec l k); cbn in H; subst; auto.
  - destruct (ukes r k); split; cbn [fst snd koou_m_p Koou_matrix]; auto.
    intros j l Hj Hl H. unfold mset in H.
    destruct ((j =? i) && (l =? k)); [discriminate | auto].
Qed.

Lemma check_koou_sound : forall t,
  (forall i, 0 <= i < Bnst_num sp -> koou_m_p t i = false) ->
  (forall i k, 0 <= i < Bnst_num sp -> 0 <= k < Bnst_num sp -> Koou_matrix t i k = 0) ->
  koou_sound (check_koou' t).
Proof.
  intros t H1 H2. unfold check_koou'. apply fold_left_inv.
  - intros i st Hi Hst. apply in_zrange in Hi. apply fold_left_inv; auto.
    intros r st1 Hr Hst1. unfold koou_rule_at'. destruct (starts r i) eqn:Hs; auto.
    apply fold_left_inv; auto. intros k st2 Hk Hst2. apply koou_step_sound; auto. lia.
  - split; cbn [fst snd].
    + discriminate.
    + intros i Hi H. now rewrite H1 in H.
    + intros i k Hi Hk H. now rewrite H2 in H.
Qed.

(** Every pair is marked, and the marks stay. *)
Definition koou_marked (i k : Z) (st : bool * koou_tables) : Prop :=
  fst st = true /\ koou_m_p (snd st) i = true /\ 0 < Koou_matrix (snd st) i k.

Lemma koou_step_marked : forall i k r j st l, koou_marked i k st -> koou_marked i k (koou_step' r j st l).
Proof.
  intros i k r j [flag [m_p km kd]] l [M1 [M2 M3]]. unfold koou_marked, koou_step' in *.
  cbn [fst snd koou_m_p Koou_matrix] in *.
  destruct (ends r l); [|destruct (ukes r l)]; cbn [fst snd koou_m_p Koou_matrix]; auto.
  - split; auto. split; [unfold aset; now destruct (i =? j)|].
    unfold mset. destruct ((i =? j) && (k =? l)); lia.
  - split; auto. split; auto. unfold mset. destruct ((i =? j) && (k =? l)); lia.
Qed.

Lemma koou_rule_marked : forall i k j st r, koou_marked i k st -> koou_marked i k (koou_rule_at' j st r).
Proof.
  intros i k j st r H. unfold koou_rule_at'. destruct (starts r j); auto.
  apply fold_left_inv; auto. intros. now apply koou_step_marked.
Qed.

Lemma check_koou_marks : forall t i k, koou_pair i k -> koou_marked i k (check_koou' t).
Proof.
  intros t i k [Hi [Hk [r [Hr [Hs He]]]]]. unfold check_koou'.
  apply fold_left_reach with (a := i).
  - intros j st Hst. apply fold_left_inv; auto. intros. now apply koou_rule_marked.
  - apply in_zrange. lia.
  - intros st. apply fold_left_reach with (a := r); auto.
    + intros. now apply koou_rule_marked.
    + intros st1. unfold koou_rule_at'. rewrite Hs. apply fold_left_reach with (a := k).
      * intros. now apply koou_step_marked.
      * apply in_zrange. lia.
      * intros [flag [m_p km kd]]. unfold koou_step', koou_marked. rewrite He.
        cbn [fst snd koou_m_p Koou_matrix]. rewrite aset_eq, mset_eq. repeat split; auto; lia.
Qed.

Lemma init_koou_at : forall t i k, 0 <= i < Bnst_num sp -> 0 <= k < Bnst_num sp ->
  koou_m_p (init_koou sp t) i = false /\ Koou_matrix (init_koou sp t) i k = 0.
Proof.
  intros t i k Hi Hk. unfold init_koou. cbn [koou_m_p Koou_matrix]. split.
  - rewrite (for_up_pointwise (fun a p => a p) (fun l p => p =? l) (fun _ _ => false));
      [|reflexivity | intros; blia].
    rewrite existsb_zrange_eq. destruct (within_spec 0 i (Bnst_num sp)); [auto | lia].
  - rewrite fill_rect_at. destruct (within_spec 0 i (Bnst_num sp)); [|lia].
    destruct (within_spec 0 k (Bnst_num sp)); [auto | lia].
Qed.

(** check_koou (outside Chinese) marks exactly the bunsetsus at which some rule starts
    that also ends at the same or a later bunsetsu; every such pair has an entry in
    Koou_matrix, an entry 1 is such a pair, and the flag says whether there is one. *)
Theorem check_koou_spec : forall t, exists flag t',
  check_koou (init_koou sp t) = Ret (flag, t') /\
  (flag = true <-> exists i k, koou_pair i k) /\
  (forall i, 0 <= i < Bnst_num sp -> (koou_m_p t' i = true <-> exists k, koou_pair i k)) /\
  (forall i k, koou_pair i k -> 0 < Koou_matrix t' i k) /\
  (forall i k, 0 <= i < Bnst_num sp -> 0 <= k < Bnst_num sp ->
     Koou_matrix t' i k = 1 -> koou_pair i k).
Proof.
  intros t. rewrite check_koou_pure.
  pose proof (check_koou_marks (init_koou sp t)) as M.
  assert (S : koou_sound (check_koou' (init_koou sp t))).
  { apply check_koou_sound; intros; now apply (init_koou_at t i 0 ltac:(lia) ltac:(lia))
      || now apply init_koou_at. }
  destruct (check_koou' (init_koou sp t)) as [flag t']. destruct S as [S1 S2 S3].
  unfold koou_marked in M. cbn [fst snd] in *.
  exists flag, t'. split; auto. split; [|split; [|split]]; auto.
  - split; auto. intros [i [k P]]. apply (M i k P).
  - intros i Hi. split; auto. intros [k P]. apply (M i k P).
  - intros i k P. apply (M i k P).
Qed.
End Koou.

Definition koou_example : SENTENCE_DATA :=
  set_mrph_data (fun i => nth (Z.to_nat i)
    [mrph_of "もし" 0 []; mrph_of "雨" 6 []; mrph_of "なら" 9 []; mrph_of "行く" 2 []]%string MRPH_DATA_0)
  (set_bnst_data (fun i => set_b_mrph_ptr i (set_b_mrph_num 1 (set_b_num i BNST_DATA_0)))
    (sentence_of [[]; []; []; []])).

Definition goi_pattern (goi : string) : REGEXPMRPH := mkRM 0 0 0 [0] 0 [0] 0 [0] 0 [] 0 [goi] [].

Definition moshi_rule : KoouRule :=
  mkKR (Some [goi_pattern "もし"]) (Some [goi_pattern "なら"]) None (chr "D").

Definition goi_test (goi : string) (i : Z) : bool := str_eq goi (m_Goi (mrph_data koou_example i)).

Definition no_koou : koou_tables := mkKT (fun _ => false) (fun _ _ => 0) (fun _ _ => 0).

(** Membership in a range, case by case. *)
Lemma bnst_cases : forall i, 0 <= i < 4 -> i = 0 \/ i = 1 \/ i = 2 \/ i = 3.
Proof. lia. Qed.

Lemma check_koou_spec_witness : exists flag t',
  @check_koou example_grammar (@knp_FeatureMatch bare_env st0) koou_example false [moshi_rule]
    (init_koou koou_example no_koou) = Ret (flag, t') /\
  (flag = true <-> exists i k, koou_pair koou_example [moshi_rule]
     (fun _ => goi_test "もし") (fun _ => goi_test "なら") i k) /\
  (forall i, 0 <= i < 4 -> (koou_m_p t' i = true <-> exists k, koou_pair koou_example [moshi_rule]
     (fun _ => goi_test "もし") (fun _ => goi_test "なら") i k)) /\
  (forall i k, koou_pair koou_example [moshi_rule]
     (fun _ => goi_test "もし") (fun _ => goi_test "なら") i k -> 0 < Koou_matrix t' i k) /\
  (forall i k, 0 <= i < 4 -> 0 <= k < 4 -> Koou_matrix t' i k = 1 ->
     koou_pair koou_example [moshi_rule] (fun _ => goi_test "もし") (fun _ => goi_test "なら") i k).
Proof.
  apply (@check_koou_spec example_grammar (@knp_FeatureMatch bare_env st0) koou_example false
    [moshi_rule] (fun _ => goi_test "もし") (fun _ => goi_test "なら") (fun _ _ => false)).
  - intros r i [<-|[]] Hi. destruct (bnst_cases i Hi) as [->|[->|[->| ->]]]; reflexivity.
  - intros r i [<-|[]] Hi. destruct (bnst_cases i Hi) as [->|[->|[->| ->]]]; reflexivity.
  - intros r i [<-|[]] Hi. reflexivity.
  - reflexivity.
Defined.

Definition koou_marks : koou_tables :=
  mkKT (fun i => i =? 0) (fun i j => if (i =? 0) && (j =? 2) then 1 else 0)
    (fun i j => if (i =? 0) && (j =? 2) then chr "D" else 0).

Lemma change_row_spec_witness : change_row koou_example koou_marks 0 (fun _ _ => chr "D") 1 3 = 0.
Proof.
  rewrite (change_row_spec koou_example koou_marks 0 (fun _ _ => chr "D") 1 3);
    vm_compute; auto; split; congruence.
Defined.
