(* ===== verification/ParaAnalysis.v ===== *)
(** * The scope of coordinations (src/system/para_analysis.c)

    For each coordination key the scope is searched by dynamic programming
    over the similarities [match_matrix] of the bunsetsus before and after
    the key; [restrict_matrix] limits the scopes. *)
From Stdlib Require Import ZArith List Bool String Ascii Lia.
From Stdlib Require Import Floats.SpecFloat.
Import ListNotations.
From S2P Require Import Prelude CStr Feature Sentence SemCode CheckFunction Quote.

Definition PENALTY : Z := 1.
Definition BONUS : Z := 2.
Definition MINUS : Z := 7.
Definition PENA_MAX : Z := 1000.
Definition START_HERE : Z := -1.
Definition NORM_SIZE : Z := 50.

(** [norm], in hundredths *)
Definition norm_table : list Z :=
  [100; 100; 159; 208; 252; 292; 330; 366; 400; 433; 464; 495; 524; 553; 581; 608; 635; 661; 687; 712;
   737; 761; 785; 809; 832; 855; 878; 900; 922; 944; 965; 987; 1008; 1029; 1050; 1070; 1090; 1110;
   1130; 1150; 1170; 1189; 1208; 1227; 1246; 1265; 1284; 1302; 1321; 1339].

Definition norm (i : Z) : res float32 :=
  if within 0 i NORM_SIZE then Ret (f32_of_decimal (nth (Z.to_nat i) norm_table 0) 2)
  else Err OutOfBounds.

(** ** Brackets and scopes *)

Definition mask_quote_scope_one (sp : SENTENCE_DATA) (key_pos : Z) (m : matrix Z) (q : Z * Z)
  : matrix Z :=
  let '(start, end_) := q in
  if key_pos <? start then fill_rect 0 start start end_ 0 m
  else if end_ <=? key_pos then fill_rect (start + 1) (end_ + 1) (end_ + 1) (Bnst_num sp) 0 m
  else
    let m := for_up 0 (end_ + 1) (fun i m =>
               for_up start (Bnst_num sp) (fun j m =>
                 if (i <? start) || (end_ <? j) then mset m i j 0 else m) m) m in
    for_up start end_ (fun l m =>
      if bnst_has sp l "係:文末" then fill_rect start (l + 1) (l + 1) (end_ + 1) 0 m else m) m.

Definition mask_quote_scope (sp : SENTENCE_DATA) (qd : QUOTE_DATA) (key_pos : Z)
    (restrict_matrix : matrix Z) : res (matrix Z) :=
  qs <- quote_entries qd ;;
  Ret (fold_left (mask_quote_scope_one sp key_pos) qs restrict_matrix).

(** ** Scores *)

Definition same_feature (sp : SENTENCE_DATA) (pos1 pos2 : Z) (fname : string) : bool :=
  match check_feature (b_f (bnst_data sp pos1)) fname, check_feature (b_f (bnst_data sp pos2)) fname with
  | Some cp1, Some cp2 => str_eq cp1 cp2
  | _, _ => false
  end.

Definition bnst_match (sp : SENTENCE_DATA) (pos1 pos2 : Z) : bool :=
  same_feature sp pos1 pos2 "係" &&
  Bool.eqb (bnst_has sp pos1 "用言") (bnst_has sp pos2 "用言") &&
  (if bnst_has sp pos1 "用言" then same_feature sp pos1 pos2 "ID" else true) &&
  Bool.eqb (bnst_has sp pos1 "読点") (bnst_has sp pos2 "読点").

Definition calc_static_level_penalty (sp : SENTENCE_DATA) (key_pos pos : Z) : Z :=
  let level1 := b_sp_level (bnst_data sp key_pos) in
  let level2 := b_sp_level (bnst_data sp pos) in
  if level1 <=? level2 then MINUS * (level2 - level1 + 1) else 0.

Definition calc_dynamic_level_penalty (sp : SENTENCE_DATA) (penalty_table : array Z)
    (key_pos pos1 pos2 : Z) : Z :=
  if (b_sp_level (bnst_data sp pos1) =? b_sp_level (bnst_data sp pos2)) &&
     bnst_match sp pos1 pos2 && negb (bnst_match sp pos1 key_pos) then 0
  else if bnst_has sp pos1 "提題" && bnst_has sp pos2 "提題" then 0
  else penalty_table pos1 + penalty_table pos2.

Definition calc_starting_bonus_score (sp : SENTENCE_DATA) (istart_pos : Z) (p : PARA_DATA) : Z :=
  if p_type p =? PARA_KEY_I then 0
  else if p_type p =? PARA_KEY_N then if bnst_has sp istart_pos "名並始点" then BONUS else 0
  else if p_type p =? PARA_KEY_P then if bnst_has sp istart_pos "述並始点" then BONUS else 0
  else 0.

Definition calc_ending_bonus_score (sp : SENTENCE_DATA) (jend_pos : Z) (p : PARA_DATA) : Z :=
  if p_type p =? PARA_KEY_I then 0
  else if p_type p =? PARA_KEY_N then
    if bnst_has sp (p_key_pos p) "係:ト格" && bnst_has sp jend_pos "Ｔ名並終点〜と〜と" then BONUS
    else if bnst_has sp jend_pos "Ｔ名並終点" then BONUS else 0
  else if p_type p =? PARA_KEY_P then if bnst_has sp jend_pos "Ｔ述並終点" then BONUS else 0
  else 0.

(** ** The dynamic programming *)

Record dp_state : Type := mkDP {
  score_matrix : matrix Z;
  prepos_matrix : matrix Z;
  maxpos_array : array Z;
  maxsco_array : array Z
}.

Section DP.
Context (sp : SENTENCE_DATA) (Chinese : bool) (match_matrix : matrix Z) (penalty_table : array Z).
Context (key_pos iend_pos jend_pos : Z).

(** The cost of standing still at column [j] and of skipping row [i]. *)
Definition side_cost (j : Z) : Z := if Chinese then PENALTY else PENALTY + penalty_table j.

(** What a diagonal step to [(i, j)] adds. *)
Definition step_gain (i j : Z) : Z :=
  if Chinese then match_matrix i j
  else match_matrix i j - calc_dynamic_level_penalty sp penalty_table key_pos i j.

(** The rightmost column. *)
Definition dp_right_column (s : dp_state) : dp_state :=
  let '(mkDP sc pp mp ms) := s in
  let sc := mset sc iend_pos jend_pos (match_matrix iend_pos jend_pos) in
  let pp := mset pp iend_pos jend_pos START_HERE in
  mkDP (for_down (iend_pos - 1) 0 (fun i sc => mset sc i jend_pos (- PENA_MAX)) sc) pp mp ms.

Definition set_cell (i j sc pos : Z) (s : dp_state) : dp_state :=
  mkDP (mset (score_matrix s) i j sc) (mset (prepos_matrix s) i j pos)
    (maxpos_array s) (maxsco_array s).

(** The bottom row of a column charges the table in both languages. *)
Definition dp_bottom (j : Z) (s : dp_state) : dp_state :=
  set_cell iend_pos j (score_matrix s iend_pos (j + 1) - PENALTY - penalty_table j) iend_pos s.

Definition dp_cell (j i : Z) (s : dp_state) : dp_state :=
  let score_upward := step_gain i j + maxsco_array s (i + 1) in
  let score_sideway := score_matrix s i (j + 1) - side_cost j in
  if Chinese && (bnst_has sp j "CC" || bnst_has sp j "PU") then set_cell i j score_sideway i s
  else if score_sideway <=? score_upward then set_cell i j score_upward (maxpos_array s (i + 1)) s
  else set_cell i j score_sideway i s.

Definition dp_column (j : Z) (s : dp_state) : dp_state :=
  if j =? jend_pos then dp_right_column s
  else for_down (iend_pos - 1) 0 (dp_cell j) (dp_bottom j s).

(** The best score at or below each row of column [j], for the next column. *)
Definition best_step (j i : Z) (cs : Z * dp_state) : Z * dp_state :=
  let '(current_max, mkDP sc pp mp ms) := cs in
  let current_max := current_max - side_cost i in
  if current_max <=? sc i j
  then (sc i j, mkDP sc pp (aset mp i i) (aset ms i (sc i j)))
  else (current_max, mkDP sc pp (aset mp i (mp (i + 1))) (aset ms i current_max)).

Definition dp_best (j : Z) (s : dp_state) : dp_state :=
  let '(mkDP sc pp mp ms) := s in
  snd (for_down (iend_pos - 1) 0 (best_step j)
         (sc iend_pos j,
          mkDP sc pp (aset mp iend_pos iend_pos) (aset ms iend_pos (sc iend_pos j)))).

Definition dp_search_scope (s : dp_state) : dp_state :=
  for_down jend_pos (key_pos + 1) (fun j s => dp_best j (dp_column j s)) s.

(** *** Optimality

    The cost of skipping the rows [lo .. hi - 1]. *)
Definition gap (lo hi : Z) : Z := fold_right Z.add 0 (map side_cost (zrange lo hi)).

(** Columns in which no row may be matched upwards. *)
Definition no_up (j : Z) : bool := Chinese && (bnst_has sp j "CC" || bnst_has sp j "PU").

(** [align j i s]: an alignment of the columns [j .. jend_pos] that has reached row [i]
    in column [j], with score [s]. *)
Inductive align : Z -> Z -> Z -> Prop :=
| al_start : align jend_pos iend_pos (match_matrix iend_pos jend_pos)
| al_dummy : forall i, 0 <= i < iend_pos -> align jend_pos i (- PENA_MAX)
| al_bottom : forall j s, key_pos < j < jend_pos -> align (j + 1) iend_pos s ->
    align j iend_pos (s - PENALTY - penalty_table j)
| al_side : forall j i s, key_pos < j < jend_pos -> 0 <= i < iend_pos -> align (j + 1) i s ->
    align j i (s - side_cost j)
| al_up : forall j i i' s, key_pos < j < jend_pos -> 0 <= i -> i < i' <= iend_pos ->
    no_up j = false -> align (j + 1) i' s ->
    align j i (s - gap (i + 1) i' + step_gain i j).

Definition optimal (j i v : Z) : Prop :=
  align j i v /\ forall s, align j i s -> s <= v.

(** [p] is the row of the best alignment of [(i, c)] in column [c + 1]. *)
Definition pred_ok (s : dp_state) (c i p : Z) : Prop :=
  (p = i /\ score_matrix s i c =
     score_matrix s i (c + 1) - (if i =? iend_pos then PENALTY + penalty_table c else side_cost c)) \/
  (i < p <= iend_pos /\
   score_matrix s i c = score_matrix s p (c + 1) - gap (i + 1) p + step_gain i c).

(** [maxsco_array i] is the best score of column [j] at or below row [i], less the gap. *)
Definition best_ok (s : dp_state) (j i : Z) : Prop :=
  i <= maxpos_array s i <= iend_pos /\
  maxsco_array s i = score_matrix s (maxpos_array s i) j - gap i (maxpos_array s i) /\
  forall i', i <= i' <= iend_pos -> score_matrix s i' j - gap i i' <= maxsco_array s i.

Lemma gap_step : forall lo hi, lo < hi -> gap lo hi = side_cost lo + gap (lo + 1) hi.
Proof. intros. unfold gap. rewrite zrange_cons by lia. reflexivity. Qed.

Lemma gap_empty : forall lo, gap lo lo = 0.
Proof. intros. unfold gap. now rewrite zrange_nil by lia. Qed.

Lemma dp_best_spec : forall j s, 0 <= iend_pos ->
  score_matrix (dp_best j s) = score_matrix s /\ prepos_matrix (dp_best j s) = prepos_matrix s /\
  forall i, 0 <= i <= iend_pos -> best_ok (dp_best j s) j i.
Proof.
  intros j [sc pp mp ms] Hi. unfold dp_best.
  set (init := (sc iend_pos j, _)).
  pose (P := fun i (cs : Z * dp_state) =>
    score_matrix (snd cs) = sc /\ prepos_matrix (snd cs) = pp /\ fst cs = maxsco_array (snd cs) i /\
    forall r, i <= r <= iend_pos -> best_ok (snd cs) j r).
  assert (F : P 0 (for_down (iend_pos - 1) 0 (best_step j) init)).
  { apply for_down_inv; [lia | |].
    - replace (iend_pos - 1 + 1) with iend_pos by lia. subst init. unfold P.
      cbn [fst snd score_matrix prepos_matrix maxsco_array maxpos_array].
      rewrite aset_eq. repeat split; auto;
        (assert (r = iend_pos) as -> by lia); unfold best_ok;
        cbn [fst snd score_matrix prepos_matrix maxsco_array maxpos_array]; rewrite ?aset_eq, ?gap_empty; try lia.
      intros i' Hi'. assert (i' = iend_pos) as -> by lia. rewrite gap_empty. lia.
    - intros i [cm [sc' pp' mp' ms']] Hr [E1 [E2 [E3 B]]].
      cbn [fst snd score_matrix prepos_matrix maxsco_array maxpos_array] in E1, E2, E3. subst sc' pp' cm.
      pose proof (B (i + 1) ltac:(lia)) as [B1 [B2 B3]].
      cbn [score_matrix maxsco_array maxpos_array snd] in B1, B2, B3.
      unfold best_step. destruct (Z.leb_spec (ms' (i + 1) - side_cost i) (sc i j)) as [Hle|Hle];
        (split; [reflexivity|]; split; [reflexivity|];
         split; [cbn [fst snd maxsco_array]; now rewrite aset_eq|]);
        intros r Hr'; cbn [snd]; unfold best_ok; cbn [score_matrix maxsco_array maxpos_array];
        (destruct (Z.eq_dec r i) as [->|Hne];
         [rewrite !aset_eq | rewrite !aset_ne by lia;
          exact (B r ltac:(lia))]).
      + rewrite gap_empty. split; [lia|]. split; [lia|]. intros i' Hi'.
        destruct (Z.eq_dec i' i) as [->|]; [rewrite gap_empty; lia|].
        rewrite gap_step by lia. specialize (B3 i' ltac:(lia)). lia.
      + split; [lia|]. rewrite gap_step by lia. split; [lia|]. intros i' Hi'.
        destruct (Z.eq_dec i' i) as [->|]; [rewrite gap_empty; lia|].
        rewrite gap_step by lia. specialize (B3 i' ltac:(lia)). lia. }
  destruct F as [F1 [F2 [_ F3]]]. repeat split; auto; apply F3; auto.
Qed.

Lemma set_cell_at : forall i j sc pos s,
  (forall x y, x <> i \/ y <> j ->
     score_matrix (set_cell i j sc pos s) x y = score_matrix s x y /\
     prepos_matrix (set_cell i j sc pos s) x y = prepos_matrix s x y) /\
  score_matrix (set_cell i j sc pos s) i j = sc /\
  prepos_matrix (set_cell i j sc pos s) i j = pos /\
  maxpos_array (set_cell i j sc pos s) = maxpos_array s /\
  maxsco_array (set_cell i j sc pos s) = maxsco_array s.
Proof.
  intros i j sc pos s. unfold set_cell. cbn [score_matrix prepos_matrix maxpos_array maxsco_array].
  rewrite !mset_eq. split; auto. intros x y H. rewrite !mset_ne by tauto. auto.
Qed.

(** One cell: it and its predecessor are as [pred_ok] says, and it is the better choice. *)
Definition cell_ok (s0 s : dp_state) (j i : Z) : Prop :=
  let up := maxsco_array s0 (i + 1) + step_gain i j in
  let side := score_matrix s0 i (j + 1) - side_cost j in
  (no_up j = false /\ side <= up /\ score_matrix s i j = up /\
     prepos_matrix s i j = maxpos_array s0 (i + 1)) \/
  ((no_up j = true \/ up < side) /\ score_matrix s i j = side /\ prepos_matrix s i j = i).

(** Column [j] of [s] is new, the others and the best scores are those of [s0]. *)
Definition same_but (s0 s : dp_state) (j : Z) : Prop :=
  maxpos_array s = maxpos_array s0 /\ maxsco_array s = maxsco_array s0 /\
  forall x y, y <> j -> score_matrix s x y = score_matrix s0 x y /\
                        prepos_matrix s x y = prepos_matrix s0 x y.

Lemma dp_cell_spec : forall s0 s j i, same_but s0 s j ->
  same_but s0 (dp_cell j i s) j /\ cell_ok s0 (dp_cell j i s) j i /\
  (forall r, r <> i -> score_matrix (dp_cell j i s) r j = score_matrix s r j /\
                       prepos_matrix (dp_cell j i s) r j = prepos_matrix s r j).
Proof.
  intros s0 s j i [M1 [M2 M3]].
  assert (G : forall sc pos, same_but s0 (set_cell i j sc pos s) j /\
    (forall r, r <> i -> score_matrix (set_cell i j sc pos s) r j = score_matrix s r j /\
                         prepos_matrix (set_cell i j sc pos s) r j = prepos_matrix s r j)).
  { intros sc pos. destruct (set_cell_at i j sc pos s) as [C1 [_ [_ [C4 C5]]]]. split.
    - split; [congruence|]. split; [congruence|]. intros x y Hy.
      destruct (C1 x y ltac:(lia)) as [-> ->]. auto.
    - intros r Hr. apply C1. lia. }
  unfold cell_ok. rewrite <- M1, <- M2. destruct (M3 i (j + 1) ltac:(lia)) as [<- _].
  unfold dp_cell. fold (no_up j).
  destruct (no_up j) eqn:En; [|destruct (Z.leb_spec (score_matrix s i (j + 1) - side_cost j)
                                   (step_gain i j + maxsco_array s (i + 1)))];
    match goal with |- context [set_cell i j ?sc ?pos s] =>
      destruct (G sc pos) as [G1 G2]; destruct (set_cell_at i j sc pos s) as [_ [C2 [C3 _]]] end;
    (split; [exact G1|]; split; [|exact G2]); rewrite ?C2, ?C3.
  - right. auto.
  - left. repeat split; auto; lia.
  - right. repeat split; auto. right. lia.
Qed.

Lemma dp_column_spec : forall s0 j, j <> jend_pos -> 0 <= iend_pos ->
  let s := dp_column j s0 in
  same_but s0 s j /\
  score_matrix s iend_pos j = score_matrix s0 iend_pos (j + 1) - PENALTY - penalty_table j /\
  prepos_matrix s iend_pos j = iend_pos /\
  forall i, 0 <= i < iend_pos -> cell_ok s0 s j i.
Proof.
  intros s0 j Hj Hi. cbv zeta. unfold dp_column. destruct (Z.eqb_spec j jend_pos); [lia|].
  pose (P := fun i s => same_but s0 s j /\
    score_matrix s iend_pos j = score_matrix s0 iend_pos (j + 1) - PENALTY - penalty_table j /\
    prepos_matrix s iend_pos j = iend_pos /\
    forall r, i <= r < iend_pos -> cell_ok s0 s j r).
  assert (F : P 0 (for_down (iend_pos - 1) 0 (dp_cell j) (dp_bottom j s0))).
  { apply for_down_inv; [lia | |].
    - unfold dp_bottom.
      match goal with |- context [set_cell iend_pos j ?sc ?pos s0] =>
        destruct (set_cell_at iend_pos j sc pos s0) as [C1 [C2 [C3 [C4 C5]]]] end.
      split; [|rewrite C2, C3; repeat split; auto; intros; lia].
      split; [auto|]. split; [auto|]. intros x y Hy. apply C1. now right.
    - intros i s Hr [S [S1 [S2 S3]]]. destruct (dp_cell_spec s0 s j i S) as [D1 [D2 D3]].
      split; auto. destruct (D3 iend_pos ltac:(lia)) as [-> ->]. split; auto. split; auto.
      intros r Hr'. destruct (Z.eq_dec r i) as [->|Hne]; auto.
      destruct (D3 r Hne) as [E1 E2]. unfold cell_ok. rewrite E1, E2. apply S3. lia. }
  destruct F as [F1 [F2 [F3 F4]]]. auto.
Qed.

(** The invariant of the outer loop: the columns from [j] on are done. *)
Record dp_inv (j : Z) (s : dp_state) : Prop := {
  di_opt : forall c i, j <= c <= jend_pos -> 0 <= i <= iend_pos -> optimal c i (score_matrix s i c);
  di_pred : forall c i, j <= c < jend_pos -> 0 <= i <= iend_pos ->
    pred_ok s c i (prepos_matrix s i c);
  di_start : prepos_matrix s iend_pos jend_pos = START_HERE;
  di_best : forall i, 0 <= i <= iend_pos -> best_ok s j i
}.

Lemma optimal_right : forall i, 0 <= i <= iend_pos ->
  optimal jend_pos i (if i =? iend_pos then match_matrix iend_pos jend_pos else - PENA_MAX).
Proof.
  intros i Hi. destruct (Z.eqb_spec i iend_pos) as [->|Hne].
  - split; [constructor|]. intros s H. inv H; lia.
  - split; [constructor; lia|]. intros s H. inv H; lia.
Qed.

Lemma dp_right_column_at : forall s, 0 <= iend_pos ->
  let s' := dp_right_column s in
  prepos_matrix s' iend_pos jend_pos = START_HERE /\
  forall i, 0 <= i <= iend_pos ->
    score_matrix s' i jend_pos =
      if i =? iend_pos then match_matrix iend_pos jend_pos else - PENA_MAX.
Proof.
  intros [sc pp mp ms] Hi. cbv zeta. unfold dp_right_column. cbn [prepos_matrix score_matrix].
  split; [apply mset_eq|].
  pose (P := fun k (m : matrix Z) => m iend_pos jend_pos = match_matrix iend_pos jend_pos /\
    forall i, k <= i < iend_pos -> m i jend_pos = - PENA_MAX).
  match goal with |- forall i, _ -> ?m i jend_pos = _ => assert (F : P 0 m) end.
  { apply for_down_inv; [lia | |].
    - split; [apply mset_eq | intros; lia].
    - intros i m Hr [M1 M2]. split; [rewrite mset_ne by lia; auto|].
      intros r Hr'. destruct (Z.eq_dec r i) as [->|]; [apply mset_eq|].
      rewrite mset_ne by lia. apply M2. lia. }
  destruct F as [F1 F2]. intros i Hi'. destruct (Z.eqb_spec i iend_pos) as [->|]; auto.
  apply F2. lia.
Qed.

(** The values of the new column in terms of the next one. *)
Lemma column_optimal : forall s0 s j, key_pos < j < jend_pos -> 0 <= iend_pos ->
  dp_inv (j + 1) s0 -> same_but s0 s j ->
  score_matrix s iend_pos j = score_matrix s0 iend_pos (j + 1) - PENALTY - penalty_table j ->
  (forall i, 0 <= i < iend_pos -> cell_ok s0 s j i) ->
  forall i, 0 <= i <= iend_pos -> optimal j i (score_matrix s i j).
Proof.
  intros s0 s j Hj Hi [I1 _ _ I4] _ Hb Hc i Hr.
  assert (O : forall r, 0 <= r <= iend_pos -> optimal (j + 1) r (score_matrix s0 r (j + 1)))
    by (intros; apply I1; lia).
  destruct (Z.eq_dec i iend_pos) as [->|Hne].
  - rewrite Hb. destruct (O iend_pos ltac:(lia)) as [O1 O2]. split; [now constructor|].
    intros v H. inv H; try lia. match goal with A : align _ _ _ |- _ => specialize (O2 _ A) end. lia.
  - destruct (O i Hr) as [O1 O2].
    destruct (I4 (i + 1) ltac:(lia)) as [B1 [B2 B3]].
    destruct (O (maxpos_array s0 (i + 1)) ltac:(lia)) as [P1 P2].
    destruct (Hc i ltac:(lia)) as [[En [Hle [-> _]]]|[En [-> _]]].
    + split.
      * rewrite B2. apply (al_up j i (maxpos_array s0 (i + 1))); auto; lia.
      * intros v H. inv H; try lia.
        -- match goal with A : align _ _ _ |- _ => specialize (O2 _ A) end. lia.
        -- destruct (O i' ltac:(lia)) as [_ Q]. match goal with A : align _ _ _ |- _ => specialize (Q _ A) end.
           specialize (B3 i' ltac:(lia)). lia.
    + split; [constructor; auto; lia|]. intros v H. inv H; try lia.
      * match goal with A : align _ _ _ |- _ => specialize (O2 _ A) end. lia.
      * destruct En as [En|En]; [congruence|].
        destruct (O i' ltac:(lia)) as [_ Q]. match goal with A : align _ _ _ |- _ => specialize (Q _ A) end.
        specialize (B3 i' ltac:(lia)). lia.
Qed.

Lemma dp_inv_step : forall s0 j, key_pos < j < jend_pos -> 0 <= iend_pos ->
  dp_inv (j + 1) s0 -> dp_inv j (dp_best j (dp_column j s0)).
Proof.
  intros s0 j Hj Hi I. pose proof (dp_column_spec s0 j ltac:(lia) Hi) as [C1 [C2 [C3 C4]]].
  set (s := dp_column j s0) in *.
  pose proof (column_optimal s0 s j Hj Hi I C1 C2 C4) as CO.
  destruct I as [I1 I2 I3 I4]. destruct C1 as [M1 [M2 M3]].
  destruct (dp_best_spec j s Hi) as [B1 [B2 B3]].
  split; rewrite ?B1, ?B2.
  - intros c i Hc Hr. destruct (Z.eq_dec c j) as [->|]; auto.
    destruct (M3 i c ltac:(lia)) as [-> _]. apply I1; lia.
  - intros c i Hc Hr. unfold pred_ok. rewrite B1. destruct (Z.eq_dec c j) as [->|].
    + destruct (Z.eq_dec i iend_pos) as [->|Hne].
      * left. rewrite Z.eqb_refl, C2. destruct (M3 iend_pos (j + 1) ltac:(lia)) as [-> _].
        split; [auto | lia].
      * destruct (Z.eqb_spec i iend_pos); [lia|]. destruct (I4 (i + 1) ltac:(lia)) as [D1 [D2 _]].
        destruct (C4 i ltac:(lia)) as [[_ [_ [-> ->]]]|[_ [-> ->]]].
        -- right. split; [lia|]. destruct (M3 (maxpos_array s0 (i + 1)) (j + 1) ltac:(lia)) as [-> _].
           lia.
        -- left. destruct (M3 i (j + 1) ltac:(lia)) as [-> _]. auto.
    + destruct (M3 i c ltac:(lia)) as [-> ->].
      destruct (M3 i (c + 1) ltac:(lia)) as [-> _].
      destruct (I2 c i ltac:(lia) Hr) as [P|[P1 P2]]; [now left|]. right. split; auto.
      destruct (M3 (prepos_matrix s0 i c) (c + 1) ltac:(lia)) as [-> _]. auto.
  - destruct (M3 iend_pos jend_pos ltac:(lia)) as [_ ->]. auto.
  - exact B3.
Qed.

Lemma dp_inv_right : forall s, 0 <= iend_pos -> dp_inv jend_pos (dp_best jend_pos (dp_column jend_pos s)).
Proof.
  intros s Hi. unfold dp_column. rewrite Z.eqb_refl.
  destruct (dp_right_column_at s Hi) as [R1 R2].
  destruct (dp_best_spec jend_pos (dp_right_column s) Hi) as [B1 [B2 B3]].
  split; rewrite ?B1, ?B2; auto; [|intros; lia].
  intros c i Hc Hr. assert (c = jend_pos) as -> by lia. rewrite R2 by auto. now apply optimal_right.
Qed.

Lemma dp_search_scope_inv : forall s, 0 <= iend_pos -> key_pos < jend_pos ->
  dp_inv (key_pos + 1) (dp_search_scope s).
Proof.
  intros s Hi Hk. unfold dp_search_scope. rewrite for_down_step by lia.
  pose proof (dp_inv_right s Hi) as R.
  apply (for_down_inv (fun j s => dp_inv j s)); [lia | |].
  - now replace (jend_pos - 1 + 1) with jend_pos by lia.
  - intros j s1 Hj I. apply dp_inv_step; auto. lia.
Qed.

(** C18: the dynamic programming computes, for every row [i], the best score over all
    alignments of the columns after the key that end in row [i], however it skips rows
    with a running maximum; and prepos_matrix leads back along a best alignment: each
    score is the score at its predecessor plus the cost of the step, up to the start mark. *)
Theorem dp_search_scope_optimal : forall s, 0 <= iend_pos -> key_pos < jend_pos ->
  let s' := dp_search_scope s in
  (forall i, 0 <= i <= iend_pos ->
     align (key_pos + 1) i (score_matrix s' i (key_pos + 1)) /\
     forall v, align (key_pos + 1) i v -> v <= score_matrix s' i (key_pos + 1)) /\
  (forall c i, key_pos < c < jend_pos -> 0 <= i <= iend_pos ->
     pred_ok s' c i (prepos_matrix s' i c)) /\
  prepos_matrix s' iend_pos jend_pos = START_HERE.
Proof.
  intros s Hi Hk s'. destruct (dp_search_scope_inv s Hi Hk) as [D1 D2 D3 _].
  split; [|split].
  - intros i Hr. apply (D1 (key_pos + 1) i); lia.
  - intros c i Hc Hr. apply D2; lia.
  - exact D3.
Qed.

End DP.

Definition dp0 : dp_state := mkDP (fun _ _ => 0) (fun _ _ => 0) (fun _ => 0) (fun _ => 0).

Definition dp_example : matrix Z := fun i j => if (i =? 0) && (j =? 2) then 9 else if i =? 1 then 3 else 1.

Lemma dp_search_scope_optimal_witness :
  let s' := dp_search_scope SENTENCE_DATA_0 false dp_example (fun _ => 0) 1 1 3 dp0 in
  score_matrix s' 0 2 = 12 /\
  (forall i, 0 <= i <= 1 ->
     align SENTENCE_DATA_0 false dp_example (fun _ => 0) 1 1 3 (1 + 1) i (score_matrix s' i (1 + 1)) /\
     forall v, align SENTENCE_DATA_0 false dp_example (fun _ => 0) 1 1 3 (1 + 1) i v ->
       v <= score_matrix s' i (1 + 1)) /\
  (forall c i, 1 < c < 3 -> 0 <= i <= 1 ->
     pred_ok SENTENCE_DATA_0 false dp_example (fun _ => 0) 1 1 s' c i (prepos_matrix s' i c)) /\
  prepos_matrix s' 1 3 = START_HERE.
Proof.
  split; [reflexivity|].
  apply (dp_search_scope_optimal SENTENCE_DATA_0 false dp_example (fun _ => 0) 1 1 3 dp0); lia.
Defined.

(** ** The best scope of a key

    [ENOUGH_MINUS]; the doubles are those of the comparison with STRONG_PARA_TH. *)
Definition ENOUGH_MINUS : float32 := f32_of_Z (-100).
Definition f64_of_f32 (x : float32) : spec_float :=
  match x with
  | S754_finite s m e => binary_normalize 53 1024 (if s then Zneg m else Zpos m) e s
  | _ => x
  end.
Definition STRONG_PARA_TH : spec_float :=
  SFdiv 53 1024 (S754_finite false 39 0) (binary_normalize 53 1024 10 0 false).
Definition MINUS_INT_MAX : spec_float := binary_normalize 53 1024 (-2147483647) 0 false.

(** [sscanf(cp, "&ST:%f", &f)] for decimal notation *)
Fixpoint frac_digits (s : string) (n k : Z) : Z * Z :=
  match s with
  | String c s' => if is_digit c then frac_digits s' (10 * n + (byte_of c - 48)) (k + 1) else (n, k)
  | EmptyString => (n, k)
  end.

Definition scan_float (s : string) : option float32 :=
  if scans_float s then
    let s := skip_spaces s in
    let neg := byte_at s 0 =? chr "-" in
    let s := if neg || (byte_at s 0 =? chr "+") then sdrop 1 s else s in
    let i := digits 0 s in
    let '(n, k) := match skip_digits s with
                   | String "." r => frac_digits r i 0
                   | _ => (i, 0)
                   end in
    Some (f32_of_decimal (if neg then - n else n) k)
  else None.

Record scope_state : Type := mkSS {
  ss_sp : SENTENCE_DATA;
  restrict_matrix : matrix Z;
  Para_matrix : Z -> matrix spec_float;
  ss_dp : dp_state
}.

Section Scope.
Context `{FM : FeatureMatch} (Chinese : bool) (match_matrix : matrix Z).

(** The similarity threshold: the least of the lists of the condition that
    match; [None] when none matches.  A threshold that cannot be read leaves
    the variable unset. *)
Definition threshold_step (sp : SENTENCE_DATA) (key_pos jend_pos : Z) (fp : FEATURE)
    (sim_threshold : float32) : res float32 :=
  b <- feature_AND_matches sp fp (b_f (bnst_data sp jend_pos)) (PB key_pos) (PB jend_pos) ;;
  if b then
    new_threshold <- match check_feature fp "&ST" with
                     | Some cp =>
                         match (if starts_with "&ST:" cp then scan_float (skip "&ST:" cp) else None) with
                         | Some f => Ret f
                         | None => Err BadPointer
                         end
                     | None => Ret f32_zero
                     end ;;
    Ret (if f32_lt new_threshold sim_threshold then new_threshold else sim_threshold)
  else Ret sim_threshold.

Definition sim_threshold (sp : SENTENCE_DATA) (fr : FEATURE_PATTERN) (key_pos jend_pos : Z)
  : res (option float32) :=
  match fr with
  | [] => Ret (Some f32_zero)
  | _ =>
      t <- fold_res (threshold_step sp key_pos jend_pos) fr (f32_of_Z 100) ;;
      Ret (if SFeqb t (f32_of_Z 100) then None else Some t)
  end.

(** The local variables of the search for the best row. *)
Record best_row : Type := mkBest {
  br_max_score : float32;
  br_pure_score : float32;
  br_max_pos : Z;
  br_para : matrix spec_float
}.

Definition best_row_step (sp : SENTENCE_DATA) (p : PARA_DATA) (restrict : matrix Z) (dp : dp_state)
    (jend_pos : Z) (threshold : float32) (ending_bonus : Z) (i : Z) (st : best_row) : res best_row :=
  let '(mkBest max_score pure_score max_pos para) := st in
  let starting_bonus := calc_starting_bonus_score sp i p in
  let pure := n <- norm (jend_pos - i + 1) ;;
              Ret (f32_div (f32_of_Z (score_matrix dp i (p_key_pos p + if Chinese then 2 else 1))) n) in
  current_score <-
    (if Chinese && negb (starting_bonus =? 0)
     then Ret (f32_add max_score (f32_of_Z starting_bonus))
     else
       q <- pure ;;
       Ret (f32_add (f32_add q (f32_of_Z starting_bonus)) (f32_of_Z ending_bonus))) ;;
  let allowed := negb (restrict i jend_pos =? 0) in
  st <- (if allowed && f32_lt max_score current_score
         then q <- pure ;; Ret (mkBest current_score q i para)
         else Ret st) ;;
  let '(mkBest max_score pure_score max_pos para) := st in
  Ret (mkBest max_score pure_score max_pos
         (if allowed && f32_le threshold pure_score then mset para i jend_pos current_score else para)).

(** [max_path[j + 1] = prepos_matrix[max_path[j]][j + key_pos + 1]] up to the
    start mark.  The matrix has [BNST_MAX] columns. *)
Fixpoint follow_path (fuel : nat) (prepos : matrix Z) (key_pos j : Z) (path : array Z)
  : res (array Z * Z) :=
  match fuel with
  | O => Err OutOfBounds
  | S f =>
      let p := prepos (path j) (j + key_pos + 1) in
      let path := aset path (j + 1) p in
      if p =? START_HERE then Ret (path, j + key_pos + 1)
      else follow_path f prepos key_pos (j + 1) path
  end.

(** May the scope replace the one found so far, and with which status? *)
Definition scope_status (p : PARA_DATA) (threshold max_score pure_score : float32) : option Z :=
  if f32_le threshold pure_score && (p_status p =? chr "x") then Some (chr "n")
  else if f32_le threshold pure_score && (p_status p =? chr "n") && f32_lt (p_max_score p) max_score
  then Some (p_status p)
  else if (p_status p =? chr "x") && f32_lt (p_max_score p) max_score then Some (p_status p)
  else None.

Definition store_scope (dp : dp_state) (b : best_row) (status : Z) (p : PARA_DATA) : res PARA_DATA :=
  let path0 := aset (p_max_path p) 0 (br_max_pos b) in
  ' (path, jend) <- follow_path (Z.to_nat (BNST_MAX - p_key_pos p - 1)) (prepos_matrix dp)
                      (p_key_pos p) 0 path0 ;;
  Ret (set_p_jend_pos jend (set_p_max_path path (set_p_pure_score (br_pure_score b)
        (set_p_max_score (br_max_score b) (set_p_status status p))))).

Definition _detect_para_scope (penalty_table : array Z) (para_num jend_pos : Z) (st : scope_state)
  : res scope_state :=
  let '(mkSS sp restrict Para dp) := st in
  let p := para_data sp para_num in
  let key_pos := p_key_pos p in
  let iend_pos := p_iend_pos p in
  let para := for_down iend_pos 0 (fun i m => mset m i jend_pos MINUS_INT_MAX) (Para para_num) in
  let stop := mkSS sp restrict (fun k => if k =? para_num then para else Para k) dp in
  if negb (within 0 iend_pos BNST_MAX) then Err OutOfBounds
  else if match_matrix iend_pos jend_pos =? 0 then Ret stop
  else if negb (existsb (fun i => negb (restrict i jend_pos =? 0)) (zrange 0 (iend_pos + 1)))
  then Ret stop
  else if (key_pos + 1 =? jend_pos) && bnst_has sp jend_pos "指示詞" then Ret stop
  else
    t <- sim_threshold sp (p_f_pattern p) key_pos jend_pos ;;
    match t with
    | None => Ret stop
    | Some threshold =>
        let dp := dp_search_scope sp Chinese match_matrix penalty_table key_pos iend_pos jend_pos dp in
        let ending_bonus := calc_ending_bonus_score sp jend_pos p in
        b <- fold_res (best_row_step sp p restrict dp jend_pos threshold ending_bonus)
               (rev (zrange 0 (iend_pos + 1))) (mkBest ENOUGH_MINUS f32_zero (-1) para) ;;
        let Para := fun k => if k =? para_num then br_para b else Para k in
        if f32_lt (br_max_score b) f32_zero then Ret (mkSS sp restrict Para dp)
        else
          match scope_status p threshold (br_max_score b) (br_pure_score b) with
          | None => Ret (mkSS sp restrict Para dp)
          | Some status =>
              p' <- store_scope dp b status p ;;
              Ret (mkSS (upd_para para_num (fun _ => p') sp) restrict Para dp)
          end
    end.

(** [restrict_p]: a key is analysed again after a failure; otherwise the
    restrictions start afresh.  [parsed]: the heads are given in the input. *)
Definition detect_para_scope (parsed : bool) (qd : QUOTE_DATA) (para_num : Z) (restrict_p : bool)
    (st : scope_state) : res scope_state :=
  let '(mkSS sp restrict Para dp) := st in
  let key_pos := p_key_pos (para_data sp para_num) in
  let sp := upd_para para_num (fun p =>
    set_p_manager_ptr None (set_p_pure_score ENOUGH_MINUS (set_p_max_score ENOUGH_MINUS
      (set_p_status (chr "x") p)))) sp in
  let restrict :=
    if restrict_p then restrict
    else for_up 0 (Bnst_num sp) (fun i m => fill_row i (i + 1) (Bnst_num sp) 1 m) restrict in
  restrict <- mask_quote_scope sp qd key_pos restrict ;;
  let penalty_table := fun k => if k =? key_pos then 0 else calc_static_level_penalty sp key_pos k in
  st <- (if parsed
         then _detect_para_scope penalty_table para_num (b_dpnd_head (bnst_data sp key_pos))
                (mkSS sp restrict Para dp)
         else for_res (key_pos + 1) (Bnst_num sp) (_detect_para_scope penalty_table para_num)
                (mkSS sp restrict Para dp)) ;;
  let p := para_data (ss_sp st) para_num in
  if (p_status p =? chr "n") && SFleb STRONG_PARA_TH (f64_of_f32 (p_pure_score p))
  then Ret (mkSS (upd_para para_num (set_p_status (chr "s")) (ss_sp st)) (restrict_matrix st)
              (Para_matrix st) (ss_dp st))
  else Ret st.

Definition detect_all_para_scope (parsed : bool) (qd : QUOTE_DATA) (st : scope_state)
  : res scope_state :=
  for_res 0 (Para_num (ss_sp st)) (fun i => detect_para_scope parsed qd i false) st.
End Scope.

(** ** The keys *)

(** [sscanf(cp, "%*[^:]:%[^:]:%s", type, condition)]: the two fields, empty
    when they are missing. *)
Definition key_fields (cp : string) : string * string :=
  match span_not colon cp with
  | (String _ _, String _ r) =>
      let '(type, r2) := span_not colon r in
      match type, r2 with
      | EmptyString, _ => (EmptyString, EmptyString)
      | _, String _ r3 => (type, nonspace_run (skip_spaces r3))
      | _, EmptyString => (type, EmptyString)
      end
  | _ => (EmptyString, EmptyString)
  end.

Definition key_type (type : string) (old : Z) : Z :=
  if starts_with "名" type then PARA_KEY_N
  else if starts_with "述" type then PARA_KEY_P
  else if starts_with "？" type then PARA_KEY_A
  else old.

(** The key at bunsetsu [i]; [type] and [condition] are buffers of 16 and 256 bytes;
    of [type] only the first byte is initialised when [sscanf] does not fill it. *)
Definition set_para_key (sp : SENTENCE_DATA) (i : Z) (cp : string) : res SENTENCE_DATA :=
  let n := Para_num sp in
  let '(type, condition) := key_fields cp in
  if (16 <=? slen type) || (256 <=? slen condition) then Err OutOfBounds
  else if slen type <? BYTES4CHAR then Err BadPointer
  else
    let kt := key_type type (b_para_key_type (bnst_data sp i)) in
    let offset := sdrop (Z.to_nat BYTES4CHAR) type in
    fp <- string2feature_pattern condition ;;
    let sp := upd_bnst i (fun b => set_b_para_key_type kt (set_b_para_num n b)) sp in
    let sp := upd_para n (fun p =>
      set_p_f_pattern fp (set_p_iend_pos (if str_eq offset EmptyString then i else i + atoi offset)
        (set_p_type kt (set_p_key_pos i (set_p_para_char (chr "a" + n) p))))) sp in
    Ret (set_Para_num (n + 1) sp).

Definition no_para_num (i : Z) (sp : SENTENCE_DATA) : SENTENCE_DATA := upd_bnst i (set_b_para_num (-1)) sp.

(** The keys in order; [true] for the early return CONTINUE. *)
Fixpoint para_keys (Chinese : bool) (is_ : list Z) (sp : SENTENCE_DATA) : res (bool * SENTENCE_DATA) :=
  match is_ with
  | [] => Ret (false, sp)
  | i :: is_' =>
      match check_feature (b_f (bnst_data sp i)) "並キ" with
      | Some cp =>
          if negb Chinese || bnst_has sp (i + 1) "CC" || bnst_has sp (i + 1) "PU" then
            sp <- set_para_key sp i cp ;;
            if PARA_MAX <=? Para_num sp
            then Ret (true, fold_left (fun sp j => no_para_num j sp) is_' sp)
            else para_keys Chinese is_' sp
          else para_keys Chinese is_' (no_para_num i sp)
      | None => para_keys Chinese is_' (no_para_num i sp)
      end
  end.

(** [sscanf(cp, "%*[^:]:%*d-%d", &level)] and [sscanf(cp, "%*[^:]:%d-%*d", &level)] *)
Definition level_field (touten : bool) (cp : string) : option Z :=
  match span_not colon cp with
  | (String _ _, String _ r) =>
      if touten then
        if scans_int r then match after_int r with String "-" r2 => scan_int r2 | _ => None end else None
      else scan_int r
  | _ => None
  end.

Definition set_level (i : Z) (sp : SENTENCE_DATA) : SENTENCE_DATA :=
  match check_feature (b_f (bnst_data sp i)) "区切" with
  | Some cp =>
      match level_field (bnst_has sp i "読点") cp with
      | Some l => upd_bnst i (set_b_sp_level l) sp
      | None => sp
      end
  | None => upd_bnst i (set_b_sp_level 0) sp
  end.

(** CONTINUE, or the number of keys. *)
Definition check_para_key (Chinese : bool) (sp : SENTENCE_DATA) : res (Z * SENTENCE_DATA) :=
  ' (too_many, sp) <- para_keys Chinese (zrange 0 (Bnst_num sp)) sp ;;
  if too_many then Ret (CONTINUE, sp)
  else if Para_num sp =? 0 then Ret (0, sp)
  else Ret (Para_num sp, for_up 0 (Bnst_num sp) set_level sp).

(** ** Properties *)

(** Keys and bunsetsus point at each other, for the bunsetsus before [lo]. *)
Record keys_ok (lo : Z) (sp : SENTENCE_DATA) : Prop := {
  kk_num : 0 <= Para_num sp <= PARA_MAX;
  kk_key : forall k, 0 <= k < Para_num sp ->
    0 <= p_key_pos (para_data sp k) < lo /\
    b_para_num (bnst_data sp (p_key_pos (para_data sp k))) = k;
  kk_bnst : forall i, 0 <= i < lo ->
    b_para_num (bnst_data sp i) = -1 \/
    (0 <= b_para_num (bnst_data sp i) < Para_num sp /\
     p_key_pos (para_data sp (b_para_num (bnst_data sp i))) = i);
  kk_sorted : forall k1 k2, 0 <= k1 < k2 -> k2 < Para_num sp ->
    p_key_pos (para_data sp k1) < p_key_pos (para_data sp k2)
}.

Lemma no_para_num_ok : forall lo sp, 0 <= lo -> keys_ok lo sp -> keys_ok (lo + 1) (no_para_num lo sp).
Proof.
  intros lo sp Hlo [K1 K2 K3 K4]. unfold no_para_num.
  split; [exact K1 | | | exact K4].
  - intros k Hk. destruct (K2 k Hk) as [Ha Hb]. cbn [para_data upd_bnst set_bnst_data] in *.
    split; [lia|]. rewrite upd_bnst_at. destruct (Z.eqb_spec (p_key_pos (para_data sp k)) lo); [lia | auto].
  - intros i Hi. rewrite upd_bnst_at. destruct (Z.eqb_spec i lo) as [->|]; [now left|].
    apply K3. lia.
Qed.

Lemma set_para_key_ok : forall lo sp cp sp', 0 <= lo -> Para_num sp < PARA_MAX -> keys_ok lo sp ->
  set_para_key sp lo cp = Ret sp' -> keys_ok (lo + 1) sp' /\ Para_num sp' = Para_num sp + 1 /\
  Bnst_num sp' = Bnst_num sp.
Proof.
  intros lo sp cp sp' Hlo Hn [K1 K2 K3 K4] E. unfold set_para_key in E.
  destruct (key_fields cp) as [type condition].
  destruct ((16 <=? slen type) || (256 <=? slen condition)); [discriminate|].
  destruct (slen type <? BYTES4CHAR); [discriminate|].
  destruct (string2feature_pattern condition) as [fp|]; [|discriminate]. inv E.
  set (sp' := set_Para_num _ _).
  assert (P : forall k, para_data sp' k =
    if k =? Para_num sp then
      para_data sp' (Para_num sp) else para_data sp k).
  { intros k. destruct (Z.eqb_spec k (Para_num sp)) as [->|Hk]; auto.
    subst sp'. cbn [para_data set_Para_num upd_para set_para_data].
    unfold aset. cbn [Para_num upd_bnst set_bnst_data]. destruct (Z.eqb_spec k (Para_num sp)); [lia | auto]. }
  assert (PK : p_key_pos (para_data sp' (Para_num sp)) = lo).
  { subst sp'. cbn [para_data set_Para_num upd_para set_para_data]. now rewrite aset_eq. }
  assert (B : forall i, b_para_num (bnst_data sp' i) =
    if i =? lo then Para_num sp else b_para_num (bnst_data sp i)).
  { intros i. subst sp'. cbn [bnst_data set_Para_num upd_para set_para_data].
    rewrite upd_bnst_at. now destruct (i =? lo). }
  assert (N : Para_num sp' = Para_num sp + 1) by reflexivity.
  assert (L : Bnst_num sp' = Bnst_num sp) by reflexivity.
  clearbody sp'. split; [|split; auto]. split; rewrite ?N.
  - lia.
  - intros k Hk. rewrite P. destruct (Z.eqb_spec k (Para_num sp)) as [->|].
    + rewrite PK, B, Z.eqb_refl. auto with zarith.
    + destruct (K2 k ltac:(lia)) as [Ha Hb]. rewrite B.
      destruct (Z.eqb_spec (p_key_pos (para_data sp k)) lo); [lia | auto with zarith].
  - intros i Hi. rewrite B. destruct (Z.eqb_spec i lo) as [->|].
    + right. rewrite PK. lia.
    + destruct (K3 i ltac:(lia)) as [Hm|[Hr He]]; [now left|]. right. split; [lia|].
      rewrite P. destruct (Z.eqb_spec (b_para_num (bnst_data sp i)) (Para_num sp)); [lia | auto].
  - intros k1 k2 H1 H2. rewrite (P k1), (P k2).
    destruct (Z.eqb_spec k1 (Para_num sp)); [lia|].
    destruct (Z.eqb_spec k2 (Para_num sp)) as [->|].
    + rewrite PK. destruct (K2 k1 ltac:(lia)). lia.
    + apply K4; lia.
Qed.

Lemma rest_keys_ok : forall n lo sp, 0 <= lo -> keys_ok lo sp ->
  keys_ok (lo + Z.of_nat n) (fold_left (fun sp j => no_para_num j sp) (zseq lo n) sp) /\
  Para_num (fold_left (fun sp j => no_para_num j sp) (zseq lo n) sp) = Para_num sp.
Proof.
  induction n as [|n IH]; intros lo sp Hlo H; cbn [zseq fold_left].
  - rewrite Z.add_0_r. auto.
  - destruct (IH (lo + 1) (no_para_num lo sp)) as [IH1 IH2]; [lia | now apply no_para_num_ok |].
    rewrite IH2. split; auto. now replace (lo + Z.of_nat (S n)) with (lo + 1 + Z.of_nat n) by lia.
Qed.

Lemma para_keys_ok : forall Chinese n lo sp tm sp', 0 <= lo -> Para_num sp < PARA_MAX ->
  keys_ok lo sp -> para_keys Chinese (zseq lo n) sp = Ret (tm, sp') ->
  keys_ok (lo + Z.of_nat n) sp' /\ (tm = true <-> Para_num sp' = PARA_MAX).
Proof.
  induction n as [|n IH]; intros lo sp tm sp' Hlo Hn K E; cbn [zseq para_keys] in E.
  - inv E. rewrite Z.add_0_r. split; auto. split; [discriminate | lia].
  - replace (lo + Z.of_nat (S n)) with (lo + 1 + Z.of_nat n) by lia.
    assert (R : para_keys Chinese (zseq (lo + 1) n) (no_para_num lo sp) = Ret (tm, sp') ->
      keys_ok (lo + 1 + Z.of_nat n) sp' /\ (tm = true <-> Para_num sp' = PARA_MAX)).
    { intros R. eapply IH; [| |apply no_para_num_ok; [|exact K]|exact R]; auto. lia. }
    destruct (check_feature _ "並キ") as [cp|]; auto.
    destruct (negb Chinese || _ || _); auto.
    destruct (set_para_key sp lo cp) as [sp1|] eqn:ES; [|discriminate].
    destruct (set_para_key_ok lo sp cp sp1 Hlo Hn K ES) as [K1 [N1 _]].
    destruct (Z.leb_spec PARA_MAX (Para_num sp1)) as [Hmax|Hmax].
    + inv E. destruct (rest_keys_ok n (lo + 1) sp1 ltac:(lia) K1) as [R1 R2].
      split; auto. rewrite R2. split; auto. lia.
    + eapply IH; [| |exact K1|exact E]; lia.
Qed.

Lemma set_level_same : forall i sp, Para_num (set_level i sp) = Para_num sp /\
  para_data (set_level i sp) = para_data sp /\
  forall j, b_para_num (bnst_data (set_level i sp) j) = b_para_num (bnst_data sp j).
Proof.
  intros i sp. unfold set_level.
  destruct (check_feature _ _) as [cp|]; [destruct (level_field _ cp)|]; auto;
    (split; [reflexivity|]; split; [reflexivity|]; intros j; rewrite upd_bnst_at;
     destruct (Z.eqb_spec j i) as [->|]; reflexivity).
Qed.

Lemma set_levels_same : forall n sp, let sp' := for_up 0 n set_level sp in
  Para_num sp' = Para_num sp /\ para_data sp' = para_data sp /\
  forall j, b_para_num (bnst_data sp' j) = b_para_num (bnst_data sp j).
Proof.
  intros n sp. cbv zeta. unfold for_up.
  apply (fold_left_inv (fun s x => set_level x s)
    (fun s => Para_num s = Para_num sp /\ para_data s = para_data sp /\
              forall j, b_para_num (bnst_data s j) = b_para_num (bnst_data sp j))); auto.
  intros x s _ [I1 [I2 I3]]. destruct (set_level_same x s) as [J1 [J2 J3]].
  split; [congruence|]. split; [congruence|]. intros j. now rewrite J3.
Qed.

Lemma check_para_key_facts : forall Chinese sp r sp', 0 <= Bnst_num sp ->
  Para_num sp = 0 -> check_para_key Chinese sp = Ret (r, sp') ->
  (r = CONTINUE <-> Para_num sp' = PARA_MAX) /\ 0 <= Para_num sp' <= PARA_MAX /\
  (forall k, 0 <= k < Para_num sp' ->
     0 <= p_key_pos (para_data sp' k) < Bnst_num sp /\
     b_para_num (bnst_data sp' (p_key_pos (para_data sp' k))) = k) /\
  (forall i, 0 <= i < Bnst_num sp ->
     b_para_num (bnst_data sp' i) = -1 \/
     (0 <= b_para_num (bnst_data sp' i) < Para_num sp' /\
      p_key_pos (para_data sp' (b_para_num (bnst_data sp' i))) = i)) /\
  (forall k1 k2, 0 <= k1 < k2 -> k2 < Para_num sp' ->
     p_key_pos (para_data sp' k1) < p_key_pos (para_data sp' k2)).
Proof.
  intros Chinese sp r sp' Hn H0 E. unfold check_para_key in E.
  destruct (para_keys Chinese (zrange 0 (Bnst_num sp)) sp) as [[tm sp1]|] eqn:EK; [|discriminate].
  unfold zrange in EK.
  assert (K0 : keys_ok 0 sp) by (split; intros; unfold PARA_MAX in *; lia).
  destruct (para_keys_ok Chinese _ 0 sp tm sp1 ltac:(lia) ltac:(unfold PARA_MAX; lia) K0 EK)
    as [K Htm].
  replace (0 + Z.of_nat (Z.to_nat (Bnst_num sp - 0))) with (Bnst_num sp) in K by lia.
  assert (G : Para_num sp' = Para_num sp1 /\ para_data sp' = para_data sp1 /\
    (forall j, b_para_num (bnst_data sp' j) = b_para_num (bnst_data sp1 j)) /\
    (r = CONTINUE <-> Para_num sp1 = PARA_MAX)).
  { destruct K as [[N1 N2] _ _ _]. unfold PARA_MAX, CONTINUE in *. destruct tm.
    - inv E. tauto.
    - destruct (Z.eqb_spec (Para_num sp1) 0) as [Hz|Hz].
      + inv E. repeat split; intros; lia.
      + inv E. destruct (set_levels_same (Bnst_num sp1) sp1) as [S1 [S2 S3]].
        split; [exact S1|]. split; [exact S2|]. split; [exact S3|].
        split; [lia|]. intros M. now apply Htm in M. }
  destruct G as [-> [-> [G3 G4]]]. destruct K as [K1 K2 K3 K4].
  split; auto. split; auto. split; [|split; auto].
  - intros k Hk. rewrite G3. auto.
  - intros i Hi. rewrite G3. auto.
Qed.

(** Check_para_key numbers the coordination keys in their order: the bunsetsus with
    a number and the entries of para_data point at each other, the other bunsetsus
    have -1; it gives up with CONTINUE exactly when PARA_MAX keys were found. *)
Theorem check_para_key_numbering : forall Chinese sp r sp', 0 <= Bnst_num sp ->
  Para_num sp = 0 -> check_para_key Chinese sp = Ret (r, sp') ->
  (r = CONTINUE <-> Para_num sp' = PARA_MAX) /\ 0 <= Para_num sp' <= PARA_MAX /\
  (forall k, 0 <= k < Para_num sp' ->
     0 <= p_key_pos (para_data sp' k) < Bnst_num sp /\
     b_para_num (bnst_data sp' (p_key_pos (para_data sp' k))) = k) /\
  (forall i, 0 <= i < Bnst_num sp ->
     b_para_num (bnst_data sp' i) = -1 \/
     (0 <= b_para_num (bnst_data sp' i) < Para_num sp' /\
      p_key_pos (para_data sp' (b_para_num (bnst_data sp' i))) = i)) /\
  (forall k1 k2, 0 <= k1 < k2 -> k2 < Para_num sp' ->
     p_key_pos (para_data sp' k1) < p_key_pos (para_data sp' k2)).
Proof. exact check_para_key_facts. Qed.

Definition two_keys : SENTENCE_DATA :=
  (sentence_of [["並キ:名:AND"]; []; ["並キ:述-1:&ST:2.0"]; []])%string.

Lemma check_para_key_numbering_witness :
  exists sp', check_para_key false two_keys = Ret (2, sp') /\
    p_iend_pos (para_data sp' 1) = 1 /\
    b_para_num (bnst_data sp' (p_key_pos (para_data sp' 1))) = 1.
Proof.
  assert (V : match check_para_key false two_keys with
              | Ret (r, sp') => r = 2 /\ p_iend_pos (para_data sp' 1) = 1 /\ Para_num sp' = 2
              | Err _ => False
              end) by (vm_compute; auto).
  destruct (check_para_key false two_keys) as [[r sp']|] eqn:E; [|easy].
  destruct V as [-> [V1 V2]]. exists sp'. split; [reflexivity|]. split; [exact V1|].
  assert (B0 : 0 <= Bnst_num two_keys) by (vm_compute; discriminate).
  destruct (check_para_key_numbering false two_keys 2 sp' B0 eq_refl E) as [_ [_ [H _]]].
  apply H. rewrite V2. lia.
Defined.

(** ** The table of norms *)

Lemma norm_ok : forall i, 0 <= i < NORM_SIZE -> exists n, norm i = Ret n.
Proof.
  intros i Hi. unfold norm. destruct (within_spec 0 i NORM_SIZE); [eauto | easy].
Qed.

Lemma norm_out : forall i, NORM_SIZE <= i -> norm i = Err OutOfBounds.
Proof.
  intros i Hi. unfold norm. destruct (within_spec 0 i NORM_SIZE); [lia | auto].
Qed.

Section Norms.
Context (sp : SENTENCE_DATA) (p : PARA_DATA) (restrict : matrix Z) (dp : dp_state)
        (jend_pos : Z) (threshold : float32) (ending_bonus : Z).

Local Abbreviation row := (best_row_step false sp p restrict dp jend_pos threshold ending_bonus).

Lemma best_row_step_in : forall i st, 0 <= jend_pos - i + 1 < NORM_SIZE ->
  exists st', row i st = Ret st'.
Proof.
  intros i [mx pu po pa] Hi. destruct (norm_ok _ Hi) as [n Hn]. unfold best_row_step.
  rewrite Hn. cbn [andb]. destruct (_ && f32_lt _ _); eauto.
Qed.

Lemma best_row_step_out : forall i st, NORM_SIZE <= jend_pos - i + 1 -> row i st = Err OutOfBounds.
Proof. intros i [mx pu po pa] Hi. unfold best_row_step. now rewrite norm_out. Qed.
End Norms.

(** A scope can be at most 49 bunsetsus from the beginning of the sentence.  When
    the search for the best row is reached (the key and the last bunsetsu may be
    coordinate, some scope is not restricted and the condition of the key allows the
    last bunsetsu), it succeeds for jend_pos below 49; from 49 on it reads beyond the
    end of the table norm, although a sentence may have 200 bunsetsus. *)
Theorem norm_table_bound : forall (FM : FeatureMatch) match_matrix penalty_table para_num jend_pos st threshold,
  let sp := ss_sp st in
  let p := para_data sp para_num in
  0 <= p_iend_pos p <= jend_pos ->
  match_matrix (p_iend_pos p) jend_pos <> 0 ->
  (exists i, 0 <= i <= p_iend_pos p /\ restrict_matrix st i jend_pos <> 0) ->
  (p_key_pos p + 1 =? jend_pos) && bnst_has sp jend_pos "指示詞" = false ->
  sim_threshold sp (p_f_pattern p) (p_key_pos p) jend_pos = Ret (Some threshold) ->
  (jend_pos < 49 -> forall dp ending_bonus b0,
     exists b, fold_res (best_row_step false sp p (restrict_matrix st) dp jend_pos threshold ending_bonus)
                 (rev (zrange 0 (p_iend_pos p + 1))) b0 = Ret b) /\
  (49 <= jend_pos ->
     _detect_para_scope false match_matrix penalty_table para_num jend_pos st = Err OutOfBounds).
Proof.
  intros FM mm pen n je [sp restrict Para dp] th sp0 p Hi Hm [i [Hr1 Hr2]] Hd Ht. cbn in sp0.
  cbn [restrict_matrix] in *. subst sp0. split.
  - intros Hj dp' eb b0. edestruct (fold_res_total (fun _ : best_row => True)
      (best_row_step false sp p restrict dp' je th eb) (rev (zrange 0 (p_iend_pos p + 1))) b0)
      as [b [E _]]; [| exact I | exists b; exact E].
    intros a s Ha _. rewrite <- in_rev in Ha. apply in_zrange in Ha.
    destruct (best_row_step_in sp p restrict dp' je th eb a s) as [s' E]; [unfold NORM_SIZE; lia | eauto].
  - intros Hj. unfold _detect_para_scope. fold p. destruct (negb (within _ _ _)); [reflexivity|].
    destruct (Z.eqb_spec (mm (p_iend_pos p) je) 0); [lia|].
    replace (existsb _ _) with true.
    2:{ symmetry. apply existsb_exists. exists i. rewrite in_zrange. split; [lia | blia]. }
    cbn [negb]. rewrite Hd, Ht. erewrite fold_res_err; [reflexivity| | |].
    + rewrite <- in_rev. apply in_zrange with (x := 0). lia.
    + intros s. apply best_row_step_out. unfold NORM_SIZE. lia.
    + intros a s Ha. rewrite <- in_rev in Ha. apply in_zrange in Ha.
      destruct (Z.lt_ge_cases (je - a + 1) NORM_SIZE).
      * left. apply best_row_step_in. lia.
      * right. now apply best_row_step_out.
Qed.

Definition long_sentence : SENTENCE_DATA :=
  sentence_of (repeat [] 51).

Lemma norm_table_bound_witness :
  _detect_para_scope (FM := @knp_FeatureMatch bare_env st0) false (fun _ _ => 1) (fun _ => 0) 0 49
    (mkSS long_sentence (fun _ _ => 1) (fun _ _ _ => f32_zero) dp0) = Err OutOfBounds.
Proof.
  apply (norm_table_bound (@knp_FeatureMatch bare_env st0) (fun _ _ => 1) (fun _ => 0) 0 49
    (mkSS long_sentence (fun _ _ => 1) (fun _ _ _ => f32_zero) dp0) f32_zero);
    try reflexivity; try lia; try discriminate; try (vm_compute; split; discriminate).
  exists 0. split; [vm_compute; split; discriminate | discriminate].
Defined.
