(* ===== verification/ParaRelation.v ===== *)
(** * The relations between coordinations (src/system/para_relation.c, para_revision.c)

    Two coordinations that overlap must fit into each other.  [para_location]
    classifies the relation of two scopes; a bad one is revised: [revise_para_rel]
    restricts the scopes of one of them.  The coordinations that share a conjunct
    are then collected in managers ([PARA_MANAGER]), and the managers ordered into
    a forest.  A pointer to a manager is its index in [para_manager]. *)
From Stdlib Require Import ZArith List Bool String Ascii Lia.
Import ListNotations.
From S2P Require Import Prelude CStr Feature Sentence ParaAnalysis.

Definition REL_NOT : Z := 0.
Definition REL_BIT : Z := 1.
Definition REL_PRE : Z := 2.
Definition REL_POS : Z := 3.
Definition REL_PAR : Z := 4.
Definition REL_REV : Z := 5.
Definition REL_IN1 : Z := 6.
Definition REL_IN2 : Z := 7.
Definition REL_BAD : Z := 8.

Definition table : Type := list (list Z).
Definition entry (m : table) (i j : Z) : Z := nth (Z.to_nat j) (nth (Z.to_nat i) m []) 0.

Definition rel_matrix_normal : table :=
  [[REL_BIT; REL_POS; REL_BAD; REL_IN2];
   [REL_PRE; REL_PAR; REL_BAD; REL_IN2];
   [REL_REV; REL_REV; REL_BAD; REL_BAD];
   [REL_IN1; REL_IN1; REL_BAD; REL_BAD]].
Definition rel_matrix_strong : table :=
  [[REL_BAD; REL_POS; REL_BAD; REL_IN2];
   [REL_PRE; REL_PAR; REL_BAD; REL_IN2];
   [REL_REV; REL_REV; REL_BAD; REL_BAD];
   [REL_IN1; REL_IN1; REL_BAD; REL_BAD]].

Definition p_start (p : PARA_DATA) : Z := p_max_path p 0.
Definition strong (p : PARA_DATA) : bool := p_status p =? chr "s".
Definition failed (p : PARA_DATA) : bool := p_status p =? chr "x".

(** The place of the start and of the end of the later coordination relative to the
    conjuncts of the earlier one. *)
Definition rel_pre (a1 a2 b1 : Z) : Z :=
  if a2 + 1 <? b1 then 0 else if a2 + 1 =? b1 then 1 else if a1 <? b1 then 2 else 3.
Definition rel_pos (a3 b2 b3 : Z) : Z :=
  if a3 <? b2 then 0 else if a3 =? b2 then 1 else if a3 <? b3 then 2 else 3.

(** The relation of the scopes [a] and [b], the later one strong or not. *)
Definition location (a1 a2 a3 b1 b2 b3 : Z) (strong_b : bool) : Z :=
  if a3 <? b1 then REL_NOT
  else entry (if strong_b then rel_matrix_strong else rel_matrix_normal)
         (rel_pre a1 a2 b1) (rel_pos a3 b2 b3).

Definition para_location (sp : SENTENCE_DATA) (pre_num pos_num : Z) : Z :=
  let a := para_data sp pre_num in
  let b := para_data sp pos_num in
  location (p_start a) (p_key_pos a) (p_jend_pos a) (p_start b) (p_key_pos b) (p_jend_pos b) (strong b).

(** ** Revision *)

Definition judge_matrix : table := [[1; 1; 0; 1]; [1; 1; 0; 1]; [1; 1; 0; 0]; [1; 1; 0; 0]].
Definition judge_matrix_pos_str : table := [[0; 0; 0; 1]; [1; 1; 0; 1]; [1; 1; 0; 0]; [1; 1; 0; 0]].
Definition judge_matrix_pre_str : table := [[0; 1; 0; 1]; [0; 1; 0; 1]; [0; 0; 0; 0]; [1; 1; 0; 0]].

Inductive revision : Type := REVISE_SPRE | REVISE_SPOS | REVISE_PRE | REVISE_POS.

Definition judge_table (flag : revision) : table :=
  match flag with
  | REVISE_SPRE => judge_matrix_pos_str
  | REVISE_SPOS => judge_matrix_pre_str
  | _ => judge_matrix
  end.

(** The scopes [a1 .. a3] of the earlier coordination that go with [b]. *)
Definition restrict_pre (n : Z) (judge : table) (a2 b1 b2 b3 : Z) (m : matrix Z) : matrix Z :=
  for_up 0 (a2 + 1) (fun a1 m =>
    for_up (a2 + 1) n (fun a3 m =>
      mset m a1 a3 (if a3 <? b1 then 1 else entry judge (rel_pre a1 a2 b1) (rel_pos a3 b2 b3))) m) m.

(** The scopes [b1 .. b3] of the later coordination that go with [a]. *)
Definition restrict_pos (n : Z) (judge : table) (a1 a2 a3 b2 : Z) (m : matrix Z) : matrix Z :=
  for_up 0 (b2 + 1) (fun b1 m =>
    for_up (b2 + 1) n (fun b3 m =>
      mset m b1 b3 (if a3 <? b1 then 1 else entry judge (rel_pre a1 a2 b1) (rel_pos a3 b2 b3))) m) m.

Definition set_restrict_matrix (sp : SENTENCE_DATA) (a1 a2 a3 b1 b2 b3 : Z) (flag : revision)
    (restrict_matrix : matrix Z) : matrix Z :=
  match flag with
  | REVISE_SPRE | REVISE_PRE =>
      restrict_pre (Bnst_num sp) (judge_table flag) a2 b1 b2 b3 restrict_matrix
  | REVISE_SPOS | REVISE_POS =>
      restrict_pos (Bnst_num sp) (judge_table flag) a1 a2 a3 b2 restrict_matrix
  end.

(** Which of the two coordinations is revised. *)
Definition choose_revision (ptr1 ptr2 : PARA_DATA) : revision :=
  if negb (strong ptr1) && strong ptr2 then REVISE_SPRE
  else if strong ptr1 && negb (strong ptr2) then REVISE_SPOS
  else if f32_le (p_max_score ptr1) (p_max_score ptr2) then REVISE_PRE
  else REVISE_POS.

(** The restrictions and [Revised_para_num]. *)
Definition revise_para_rel (sp : SENTENCE_DATA) (pre pos : Z) (restrict_matrix : matrix Z)
  : matrix Z * Z :=
  let ptr1 := para_data sp pre in
  let ptr2 := para_data sp pos in
  let flag := choose_revision ptr1 ptr2 in
  (set_restrict_matrix sp (p_start ptr1) (p_key_pos ptr1) (p_jend_pos ptr1)
     (p_start ptr2) (p_key_pos ptr2) (p_jend_pos ptr2) flag restrict_matrix,
   match flag with REVISE_SPRE | REVISE_PRE => pre | REVISE_SPOS | REVISE_POS => pos end).

(** ** Managers *)

Definition init_manager (m : PARA_MANAGER) : PARA_MANAGER :=
  set_pm_child_num 0 (set_pm_parent None (set_pm_part_num 0 (set_pm_para_num 0 m))).

Definition init_para_manager (sp : SENTENCE_DATA) : SENTENCE_DATA :=
  for_up 0 (Para_num sp) (fun i sp =>
    upd_para i (set_p_manager_ptr None) (upd_manager i init_manager sp)) (set_Para_M_num 0 sp).

Definition para_brother_p (sp : SENTENCE_DATA) (pre_num pos_num : Z) : bool :=
  let a := para_data sp pre_num in
  let b := para_data sp pos_num in
  (p_jend_pos a - p_key_pos a) * 3 <=? (p_key_pos b - p_start b + 1) * 4.

(** [delete_child]: the first occurrence, and the later ones move up. *)
Definition remove_child (child_ptr : Z) (m : PARA_MANAGER) : PARA_MANAGER :=
  match find_up 0 (pm_child_num m) (fun i => pm_child m i =? child_ptr) with
  | None => m
  | Some i =>
      set_pm_child_num (pm_child_num m - 1)
        (set_pm_child (for_up i (pm_child_num m - 1) (fun j c => aset c j (c (j + 1))) (pm_child m)) m)
  end.

Definition delete_child (parent_ptr child_ptr : Z) (sp : SENTENCE_DATA) : SENTENCE_DATA :=
  upd_manager parent_ptr (remove_child child_ptr) sp.

Definition push_child (child_ptr : Z) (m : PARA_MANAGER) : PARA_MANAGER :=
  set_pm_child_num (pm_child_num m + 1)
    (set_pm_child (aset (pm_child m) (pm_child_num m) child_ptr) m).

(** [child_ptr->parent = parent_ptr] and the new entry; FALSE if there are too many. *)
Definition link (parent_ptr child_ptr : Z) (sp : SENTENCE_DATA) : bool * SENTENCE_DATA :=
  let sp := upd_manager parent_ptr (push_child child_ptr)
              (upd_manager child_ptr (set_pm_parent (Some parent_ptr)) sp) in
  (negb (PARA_PART_MAX <=? pm_child_num (para_manager sp parent_ptr)), sp).

Section Relation.
Context (para_rel_matrix : matrix Z).

(** Does the relation of [i] to [j] make the manager of [j] a parent of that of [i]? *)
Definition child_rel (i j : Z) : bool :=
  ((i <? j) &&
   ((para_rel_matrix i j =? REL_BIT) || (para_rel_matrix i j =? REL_PRE) ||
    (para_rel_matrix i j =? REL_REV) || (para_rel_matrix i j =? REL_IN1))) ||
  ((j <? i) &&
   ((para_rel_matrix j i =? REL_POS) || (para_rel_matrix j i =? REL_IN2))).

Definition parent_rel (i j : Z) : bool :=
  ((i <? j) &&
   ((para_rel_matrix i j =? REL_POS) || (para_rel_matrix i j =? REL_IN2))) ||
  ((j <? i) &&
   ((para_rel_matrix j i =? REL_BIT) || (para_rel_matrix j i =? REL_PRE) ||
    (para_rel_matrix j i =? REL_REV) || (para_rel_matrix j i =? REL_IN1))).

(** The first related pair of the old and the new parent: is the old one nearer? *)
Fixpoint nearer (pairs : list (Z * Z)) : option bool :=
  match pairs with
  | [] => None
  | (i, j) :: pairs' =>
      if child_rel i j then Some true else if parent_rel i j then Some false else nearer pairs'
  end.

Definition paras (m : PARA_MANAGER) : list Z := map (pm_para_data_num m) (zrange 0 (pm_para_num m)).

Definition set_parent (parent_ptr child_ptr : Z) (sp : SENTENCE_DATA) : bool * SENTENCE_DATA :=
  match pm_parent (para_manager sp child_ptr) with
  | None => link parent_ptr child_ptr sp
  | Some old =>
      if old =? parent_ptr then (true, sp)
      else
        match nearer (list_prod (paras (para_manager sp old)) (paras (para_manager sp parent_ptr))) with
        | Some false => link parent_ptr child_ptr (delete_child old child_ptr sp)
        | _ => (true, sp)
        end
  end.

(** [set_parent] for the managers of [i] and [j]. *)
Definition relate (i j : Z) (st : bool * SENTENCE_DATA) : res (bool * SENTENCE_DATA) :=
  let '(ok, sp) := st in
  if negb ok || failed (para_data sp j) || negb (child_rel i j) then Ret st
  else
    match p_manager_ptr (para_data sp j), p_manager_ptr (para_data sp i) with
    | Some m2, Some m1 => Ret (set_parent m2 m1 sp)
    | _, _ => Err NullDeref
    end.

Definition relate_row (i : Z) (st : bool * SENTENCE_DATA) : res (bool * SENTENCE_DATA) :=
  if failed (para_data (snd st) i) then Ret st
  else for_res 0 (Para_num (snd st)) (relate i) st.

(** A coordination as the next one of a manager: [para_num] is incremented
    before it is tested. *)
Definition push_para (i : Z) (m : PARA_MANAGER) : PARA_MANAGER :=
  set_pm_para_num (pm_para_num m + 1) (set_pm_para_data_num (aset (pm_para_data_num m) (pm_para_num m) i) m).

Definition push_part (s e : Z) (m : PARA_MANAGER) : PARA_MANAGER :=
  set_pm_part_num (pm_part_num m + 1)
    (set_pm_end (aset (pm_end m) (pm_part_num m) e) (set_pm_start (aset (pm_start m) (pm_part_num m) s) m)).

Definition full (sp : SENTENCE_DATA) (m_ptr : Z) : bool :=
  PARA_PART_MAX <=? pm_para_num (para_manager sp m_ptr).

Definition new_manager (i : Z) (sp : SENTENCE_DATA) : bool * SENTENCE_DATA :=
  let m_ptr := Para_M_num sp in
  let p := para_data sp i in
  let sp := upd_manager m_ptr (push_para i)
              (upd_para i (set_p_manager_ptr (Some m_ptr)) (set_Para_M_num (m_ptr + 1) sp)) in
  if full sp m_ptr then (false, sp)
  else (true, upd_manager m_ptr (fun m =>
                push_part (p_key_pos p + 1) (p_jend_pos p) (push_part (p_start p) (p_key_pos p) m)) sp).

Definition add_brother (i m_ptr j : Z) (st : bool * SENTENCE_DATA) : bool * SENTENCE_DATA :=
  let '(ok, sp) := st in
  if negb ok || failed (para_data sp j) || negb (para_rel_matrix i j =? REL_PAR) then st
  else
    let p := para_data sp j in
    let sp := upd_manager m_ptr (push_para j) (upd_para j (set_p_manager_ptr (Some m_ptr)) sp) in
    if full sp m_ptr then (false, sp)
    else (true, upd_manager m_ptr (push_part (p_key_pos p + 1) (p_jend_pos p)) sp).

Definition collect_brothers (i : Z) (st : bool * SENTENCE_DATA) : bool * SENTENCE_DATA :=
  let '(ok, sp) := st in
  if negb ok || failed (para_data sp i) then st
  else
    let '(m_ptr, st) := match p_manager_ptr (para_data sp i) with
                        | Some m_ptr => (m_ptr, (true, sp))
                        | None => (Para_M_num sp, new_manager i sp)
                        end in
    for_up (i + 1) (Para_num sp) (add_brother i m_ptr) st.
End Relation.

(** The left and the right side of the first and the last child. *)
Definition revise_manager (m : Z) (sp : SENTENCE_DATA) : SENTENCE_DATA :=
  let first := para_manager sp (pm_child (para_manager sp m) 0) in
  let sp := if pm_start first 0 <? pm_start (para_manager sp m) 0
            then upd_manager m (fun r => set_pm_start (aset (pm_start r) 0 (pm_start first 0)) r) sp
            else sp in
  let r := para_manager sp m in
  let last := para_manager sp (pm_child r (pm_child_num r - 1)) in
  let e := pm_end last (pm_part_num last - 1) in
  if pm_end r (pm_part_num r - 1) <? e
  then upd_manager m (fun r => set_pm_end (aset (pm_end r) (pm_part_num r - 1) e) r) sp
  else sp.

Fixpoint para_revise_scope (fuel : nat) (m : Z) (sp : SENTENCE_DATA) : res SENTENCE_DATA :=
  match fuel with
  | O => Err OutOfFuel
  | S f =>
      let n := pm_child_num (para_manager sp m) in
      if n =? 0 then Ret sp
      else
        sp <- for_res 0 n (fun i sp => para_revise_scope f (pm_child (para_manager sp m) i) sp) sp ;;
        Ret (revise_manager m sp)
  end.

(** The first bad pair, and the relations found before it. *)
Fixpoint locate (sp : SENTENCE_DATA) (pairs : list (Z * Z)) (rel : matrix Z)
  : matrix Z * option (Z * Z) :=
  match pairs with
  | [] => (rel, None)
  | (i, j) :: pairs' =>
      if failed (para_data sp i) || failed (para_data sp j) then locate sp pairs' rel
      else
        let rel := mset rel i j (para_location sp i j) in
        if rel i j =? REL_BAD then (rel, Some (i, j)) else locate sp pairs' rel
  end.

(** [for (i = 0; i < n; i++) for (j = i + 1; j < n; j++)] *)
Definition upper_pairs (n : Z) : list (Z * Z) :=
  flat_map (fun i => map (pair i) (zrange (i + 1) n)) (zrange 0 n).

(** REL_POS of similar sizes becomes REL_PAR. *)
Definition pos_to_par (sp : SENTENCE_DATA) (rel : matrix Z) : matrix Z :=
  for_up 0 (Para_num sp) (fun i rel =>
    if failed (para_data sp i) then rel
    else for_up 0 (Para_num sp) (fun j rel =>
           if negb (failed (para_data sp j)) && (rel i j =? REL_POS) && para_brother_p sp i j
           then mset rel i j REL_PAR else rel) rel) rel.

(** Between a REL_POS on the left and a REL_PRE on the right: REL_REV. *)
Definition between_to_rev (sp : SENTENCE_DATA) (rel : matrix Z) : matrix Z :=
  let ok k := negb (failed (para_data sp k)) in
  for_up 1 (Para_num sp - 1) (fun i rel =>
    if ok i then
      for_up 0 i (fun j rel =>
        if ok j && (rel j i =? REL_POS) then
          for_up (i + 1) (Para_num sp) (fun k rel =>
            if ok k && (rel i k =? REL_PRE) then mset rel j k REL_REV else rel) rel
        else rel) rel
    else rel) rel.

Definition mark_strong (i : Z) (sp : SENTENCE_DATA) : SENTENCE_DATA :=
  upd_manager i (fun m =>
    set_pm_status (if forallb (fun k => strong (para_data sp k)) (paras m) then chr "s" else chr "w") m) sp.

(** The features of the heads of the conjuncts, with the buffer of [assign_cfeature]. *)
Definition conjunct_features (m : PARA_MANAGER) : list string :=
  [ ("並結句数:" ++ itoa (pm_part_num m))%string;
    ("並結文節数:" ++ itoa (pm_end m 1 - pm_start m 1 + 1))%string ].

Definition assign_conjunct (m : PARA_MANAGER) (j : Z) (st : SENTENCE_DATA * string)
  : SENTENCE_DATA * string :=
  fold_left (fun '(sp, buf) fname =>
    let b := pm_end m j in
    let '(f, buf) := assign_cfeature buf (b_f (bnst_data sp b)) fname false in
    (upd_bnst b (set_b_f f) sp, buf)) (conjunct_features m) st.

Definition conjuncts_to_features (sp : SENTENCE_DATA) (buf : string) : SENTENCE_DATA * string :=
  for_up 0 (Para_M_num sp) (fun i st =>
    let m := para_manager (fst st) i in
    for_up 0 (pm_part_num m - 1) (assign_conjunct m) st) (sp, buf).

(** The globals that [detect_para_relation] uses. *)
Record relation_state : Type := mkRS {
  rs_sp : SENTENCE_DATA;
  para_rel_matrix : matrix Z;
  rs_restrict_matrix : matrix Z;
  Revised_para_num : Z;
  rs_feature_buffer : string
}.

(** The managers and their forest, from the relations. *)
Definition build_managers (rel : matrix Z) (sp : SENTENCE_DATA) : res (bool * SENTENCE_DATA) :=
  let '(ok, sp) := for_up 0 (Para_num sp) (collect_brothers rel) (true, sp) in
  if negb ok then Ret (false, sp) else for_res 0 (Para_num sp) (relate_row rel) (true, sp).

Definition revise_roots (sp : SENTENCE_DATA) : res SENTENCE_DATA :=
  for_res 0 (Para_M_num sp) (fun i sp =>
    match pm_parent (para_manager sp i) with
    | None => para_revise_scope (S (Z.to_nat (Para_M_num sp))) i sp
    | Some _ => Ret sp
    end) sp.

Definition detect_para_relation (st : relation_state) : res (bool * relation_state) :=
  let '(mkRS sp rel restrict revised buf) := st in
  match locate sp (upper_pairs (Para_num sp)) rel with
  | (rel, Some (i, j)) =>
      let '(restrict, revised) := revise_para_rel sp i j restrict in
      Ret (false, mkRS sp rel restrict revised buf)
  | (rel, None) =>
      let sp := init_para_manager sp in
      let rel := between_to_rev sp (pos_to_par sp rel) in
      ' (ok, sp) <- build_managers rel sp ;;
      if negb ok then Ret (false, mkRS sp rel restrict revised buf)
      else
        sp <- revise_roots sp ;;
        let sp := for_up 0 (Para_M_num sp) mark_strong sp in
        let '(sp, buf) := conjuncts_to_features sp buf in
        Ret (true, mkRS sp rel restrict revised buf)
  end.

(** * Properties *)

(** ** The classification *)

(** The later scope is nested in the last conjunct of the earlier one, or the
    earlier one ends before the key of the later one. *)
Definition fits (a2 a3 b1 b2 b3 : Z) : Prop := a3 < b1 \/ a3 <= b2 \/ (a2 < b1 /\ b3 <= a3).

(** The places that [rel_pre] and [rel_pos] distinguish. *)
Lemma rel_pre_spec : forall a1 a2 b1,
  (rel_pre a1 a2 b1 = 0 /\ a2 + 1 < b1) \/ (rel_pre a1 a2 b1 = 1 /\ a2 + 1 = b1) \/
  (rel_pre a1 a2 b1 = 2 /\ a1 < b1 <= a2) \/ (rel_pre a1 a2 b1 = 3 /\ b1 <= a1 /\ b1 <= a2).
Proof.
  intros. unfold rel_pre.
  destruct (Z.ltb_spec (a2 + 1) b1); [lia|]. destruct (Z.eqb_spec (a2 + 1) b1); [lia|].
  destruct (Z.ltb_spec a1 b1); lia.
Qed.

Lemma rel_pos_spec : forall a3 b2 b3,
  (rel_pos a3 b2 b3 = 0 /\ a3 < b2) \/ (rel_pos a3 b2 b3 = 1 /\ a3 = b2) \/
  (rel_pos a3 b2 b3 = 2 /\ b2 < a3 < b3) \/ (rel_pos a3 b2 b3 = 3 /\ b2 < a3 /\ b3 <= a3).
Proof.
  intros. unfold rel_pos.
  destruct (Z.ltb_spec a3 b2); [lia|]. destruct (Z.eqb_spec a3 b2); [lia|].
  destruct (Z.ltb_spec a3 b3); lia.
Qed.

(** Case analysis on the two places; [H] and [K] name what they say. *)
Ltac places a1 a2 a3 b1 b2 b3 :=
  let Ep := fresh "Ep" in let Eq := fresh "Eq" in
  let H := fresh "Hpre" in let K := fresh "Hpos" in
  destruct (rel_pre_spec a1 a2 b1) as [[Ep H]|[[Ep H]|[[Ep H]|[Ep H]]]];
  destruct (rel_pos_spec a3 b2 b3) as [[Eq K]|[[Eq K]|[[Eq K]|[Eq K]]]];
  rewrite ?Ep, ?Eq in *.

Lemma location_bad : forall a1 a2 a3 b1 b2 b3 st,
  location a1 a2 a3 b1 b2 b3 st = REL_BAD <->
  ~ fits a2 a3 b1 b2 b3 \/ (st = true /\ a2 + 1 < b1 <= a3 /\ a3 < b2).
Proof.
  intros. unfold location, fits.
  destruct (Z.ltb_spec a3 b1) as [Hn|Hn]; [split; [discriminate | intros [H|H]; lia]|].
  places a1 a2 a3 b1 b2 b3; destruct st; cbn; (split;
    [ intros E; first [discriminate E | left; lia | right; split; [reflexivity | lia]]
    | intros [H|[H1 H]]; first [reflexivity | discriminate H1 | exfalso; lia] ]).
Qed.

(** two coordinations are incompatible exactly when they overlap and the earlier one
    neither ends at or before the key of the later one nor has it inside its last conjunct;
    a strong later coordination must not merely touch the other one either. *)
Theorem para_location_bad : forall sp i j,
  let a := para_data sp i in
  let b := para_data sp j in
  para_location sp i j = REL_BAD <->
  ~ fits (p_key_pos a) (p_jend_pos a) (p_start b) (p_key_pos b) (p_jend_pos b) \/
  (strong b = true /\ p_key_pos a + 1 < p_start b <= p_jend_pos a /\ p_jend_pos a < p_key_pos b).
Proof. intros. apply location_bad. Qed.

(** ** Revision *)

Definition scope_of (s e : Z) (p : PARA_DATA) : PARA_DATA :=
  set_p_jend_pos e (set_p_max_path (aset (p_max_path p) 0 s) p).

(** The sentence in which coordination [k] has the scope [s .. e]. *)
Definition with_scope (k s e : Z) (sp : SENTENCE_DATA) : SENTENCE_DATA := upd_para k (scope_of s e) sp.

Lemma judge_normal : forall a1 a2 a3 b1 b2 b3, b1 <= a3 ->
  entry judge_matrix (rel_pre a1 a2 b1) (rel_pos a3 b2 b3) = 1 <->
  location a1 a2 a3 b1 b2 b3 false <> REL_BAD.
Proof.
  intros. unfold location. destruct (Z.ltb_spec a3 b1); [lia|].
  places a1 a2 a3 b1 b2 b3; cbn; split; intros E;
    first [reflexivity | discriminate | now elim E].
Qed.

Lemma judge_strong : forall a1 a2 a3 b1 b2 b3 t st, b1 <= a3 ->
  (t = judge_matrix_pos_str \/ (t = judge_matrix_pre_str /\ st = false)) ->
  entry t (rel_pre a1 a2 b1) (rel_pos a3 b2 b3) <> 0 ->
  location a1 a2 a3 b1 b2 b3 st <> REL_BAD.
Proof.
  intros a1 a2 a3 b1 b2 b3 t st Hle Ht Hne. unfold location. destruct (Z.ltb_spec a3 b1); [lia|].
  destruct Ht as [->|[-> ->]]; places a1 a2 a3 b1 b2 b3; try destruct st; cbn in *;
    first [discriminate | now elim Hne].
Qed.

Lemma set_restrict_at : forall sp a1 a2 a3 b1 b2 b3 flag m x y,
  set_restrict_matrix sp a1 a2 a3 b1 b2 b3 flag m x y =
  match flag with
  | REVISE_SPRE | REVISE_PRE =>
      if within 0 x (a2 + 1) && within (a2 + 1) y (Bnst_num sp)
      then if y <? b1 then 1 else entry (judge_table flag) (rel_pre x a2 b1) (rel_pos y b2 b3)
      else m x y
  | REVISE_SPOS | REVISE_POS =>
      if within 0 x (b2 + 1) && within (b2 + 1) y (Bnst_num sp)
      then if a3 <? x then 1 else entry (judge_table flag) (rel_pre a1 a2 x) (rel_pos a3 b2 y)
      else m x y
  end.
Proof.
  intros. destruct flag; unfold set_restrict_matrix, restrict_pre, restrict_pos;
    now rewrite (store_rect_at (A := Z)).
Qed.

(** The relation after a change of one of the scopes. *)
Lemma location_pre : forall sp i j x y, i <> j ->
  para_location (with_scope i x y sp) i j =
  let a := para_data sp i in
  let b := para_data sp j in
  location x (p_key_pos a) y (p_start b) (p_key_pos b) (p_jend_pos b) (strong b).
Proof.
  intros. unfold para_location, with_scope. rewrite !upd_para_at, Z.eqb_refl.
  destruct (Z.eqb_spec j i); [congruence | reflexivity].
Qed.

Lemma location_pos : forall sp i j x y, i <> j ->
  para_location (with_scope j x y sp) i j =
  let a := para_data sp i in
  let b := para_data sp j in
  location (p_start a) (p_key_pos a) (p_jend_pos a) x (p_key_pos b) y (strong b).
Proof.
  intros. unfold para_location, with_scope. rewrite !upd_para_at, Z.eqb_refl.
  destruct (Z.eqb_spec i j); [congruence | reflexivity].
Qed.

(** What an entry of the restrictions says of the scope it stands for. *)
Lemma revised_fits : forall a1 a2 a3 b1 b2 b3 sa sb flag,
  match flag with
  | REVISE_SPRE => sa = false /\ sb = true
  | REVISE_SPOS => sa = true /\ sb = false
  | _ => sa = sb
  end ->
  let v := if a3 <? b1 then 1 else entry (judge_table flag) (rel_pre a1 a2 b1) (rel_pos a3 b2 b3) in
  (sa && sb = false -> v <> 0 -> location a1 a2 a3 b1 b2 b3 sb <> REL_BAD) /\
  (sa || sb = false -> location a1 a2 a3 b1 b2 b3 sb <> REL_BAD -> v = 1).
Proof.
  intros a1 a2 a3 b1 b2 b3 sa sb flag HF v. subst v. destruct (Z.ltb_spec a3 b1) as [Hn|Hn].
  - split; auto. intros _ _. unfold location. destruct (Z.ltb_spec a3 b1); [discriminate | lia].
  - assert (N : forall w, entry judge_matrix (rel_pre a1 a2 b1) (rel_pos a3 b2 b3) = w -> w <> 0 -> w = 1).
    { intros w <-. places a1 a2 a3 b1 b2 b3; cbn; intros H; first [reflexivity | now elim H]. }
    destruct flag; cbn [judge_table]; [destruct HF as [-> ->] | destruct HF as [-> ->] | subst sb | subst sb];
      cbn [andb orb]; (split; [intros Hs Hv | intros Hs Hl; try discriminate Hs]).
    + eapply judge_strong; eauto.
    + eapply judge_strong; eauto.
    + destruct sa; [discriminate|]. apply judge_normal; eauto.
    + destruct sa; [discriminate|]. now apply judge_normal.
    + destruct sa; [discriminate|]. apply judge_normal; eauto.
    + destruct sa; [discriminate|]. now apply judge_normal.
Qed.

(** Revise_para_rel restricts the scopes of one of the two coordinations and nothing
    else.  When they are not both strong, every scope that it leaves fits the other
    coordination; when neither is strong it leaves every scope that does. *)
Theorem revise_para_rel_sound : forall sp pre pos m r n, pre <> pos ->
  revise_para_rel sp pre pos m = (r, n) ->
  let a := para_data sp pre in
  let b := para_data sp pos in
  let key := p_key_pos (para_data sp n) in
  (n = pre \/ n = pos) /\
  (forall x y, 0 <= x <= key -> key < y < Bnst_num sp ->
     (strong a && strong b = false -> r x y <> 0 -> para_location (with_scope n x y sp) pre pos <> REL_BAD) /\
     (strong a || strong b = false -> para_location (with_scope n x y sp) pre pos <> REL_BAD -> r x y = 1)) /\
  (forall x y, ~ (0 <= x <= key /\ key < y < Bnst_num sp) -> r x y = m x y).
Proof.
  intros sp pre pos m r n Hne E a b key. unfold revise_para_rel in E. injection E as <- En.
  fold a b in En |- *. subst key. set (flag := choose_revision a b) in *.
  assert (F : match flag with
    | REVISE_SPRE => strong a = false /\ strong b = true /\ n = pre
    | REVISE_SPOS => strong a = true /\ strong b = false /\ n = pos
    | REVISE_PRE => strong a = strong b /\ n = pre
    | REVISE_POS => strong a = strong b /\ n = pos
    end).
  { unfold flag in *. unfold choose_revision in *. destruct (strong a), (strong b); cbn [negb andb] in *; auto;
      now destruct (f32_le _ _). }
  split; [|split].
  - destruct flag; intuition.
  - intros x y Hx Hy. rewrite set_restrict_at.
    destruct flag eqn:EF; [destruct F as [Fa [Fb ->]] | destruct F as [Fa [Fb ->]] |
      destruct F as [Fab ->] | destruct F as [Fab ->]];
      fold a b in Hx, Hy; rewrite !within_true by lia; cbn [andb];
      rewrite ?location_pre, ?location_pos by auto; cbv zeta; fold a b; now apply revised_fits.
  - intros x y Hout. rewrite set_restrict_at. destruct flag;
      [destruct F as [Fa [Fb ->]] | destruct F as [Fa [Fb ->]] | destruct F as [Fab ->] | destruct F as [Fab ->]];
      fold a b in Hout; destruct (within_spec 0 x (p_key_pos a + 1)), (within_spec (p_key_pos a + 1) y (Bnst_num sp)),
       (within_spec 0 x (p_key_pos b + 1)), (within_spec (p_key_pos b + 1) y (Bnst_num sp)); cbn [andb]; auto; lia.
Qed.

(** between two strong coordinations a bad relation of the first kind (the later one starts
    inside the last conjunct of the earlier one, which ends before its key) is not revised:
    the restrictions allow the rejected scope again. *)
Theorem strong_pair_not_revised : forall sp pre pos m r n, pre <> pos ->
  revise_para_rel sp pre pos m = (r, n) ->
  let a := para_data sp pre in
  let b := para_data sp pos in
  strong a = true -> strong b = true ->
  0 <= p_start a <= p_key_pos a -> p_key_pos a + 1 < p_start b <= p_jend_pos a ->
  p_jend_pos a < p_key_pos b < p_jend_pos b -> p_jend_pos b < Bnst_num sp ->
  para_location sp pre pos = REL_BAD /\
  r (p_start (para_data sp n)) (p_jend_pos (para_data sp n)) = 1.
Proof.
  intros sp pre pos m r n Hne E a b Sa Sb Ha Hb Hk Hn. split.
  { apply location_bad. fold a b. right. split; [exact Sb | lia]. }
  unfold revise_para_rel in E. injection E as <- <-. fold a b. rewrite set_restrict_at.
  unfold choose_revision. rewrite Sa, Sb. cbn [negb andb].
  destruct (f32_le _ _); fold a b; rewrite !within_true by lia; cbn [andb].
  - destruct (Z.ltb_spec (p_jend_pos a) (p_start b)); [lia|].
    places (p_start a) (p_key_pos a) (p_jend_pos a) (p_start b) (p_key_pos b) (p_jend_pos b); (lia || reflexivity).
  - destruct (Z.ltb_spec (p_jend_pos a) (p_start b)); [lia|].
    places (p_start a) (p_key_pos a) (p_jend_pos a) (p_start b) (p_key_pos b) (p_jend_pos b); (lia || reflexivity).
Qed.

(** ** The relations of all pairs *)

Lemma in_upper_pairs : forall n i j, In (i, j) (upper_pairs n) <-> 0 <= i < j /\ j < n.
Proof.
  intros. unfold upper_pairs. rewrite in_flat_map. split.
  - intros [x [Hx H]]. apply in_map_iff in H. destruct H as [y [E Hy]]. injection E as -> ->.
    apply in_zrange in Hx, Hy. lia.
  - intros H. exists i. rewrite in_zrange. split; [lia|]. apply in_map_iff. exists j.
    split; auto. apply in_zrange. lia.
Qed.

(** Both coordinations of the pair have a scope. *)
Definition live (sp : SENTENCE_DATA) (i j : Z) : Prop :=
  failed (para_data sp i) = false /\ failed (para_data sp j) = false.

Lemma locate_none : forall sp pairs rel rel', locate sp pairs rel = (rel', None) ->
  forall i j, live sp i j ->
  (In (i, j) pairs -> para_location sp i j <> REL_BAD) /\
  (In (i, j) pairs \/ rel i j = para_location sp i j -> rel' i j = para_location sp i j).
Proof.
  intros sp. induction pairs as [|[x y] pairs IH]; intros rel rel' E i j L; cbn [locate] in E.
  - injection E as <-. split; [easy | now intros [[]|H]].
  - destruct (failed (para_data sp x) || failed (para_data sp y)) eqn:EF.
    + destruct (IH _ _ E i j L) as [I1 I2].
      assert (N : (x, y) <> (i, j)) by (intros [= -> ->]; destruct L as [L1 L2]; now rewrite L1, L2 in EF).
      split; [intros [H|H]; [congruence | auto] | intros [[H|H]|H]; [congruence | auto | auto]].
    + rewrite mset_eq in E. destruct (Z.eqb_spec (para_location sp x y) REL_BAD) as [|Hb]; [discriminate|].
      destruct (IH _ _ E i j L) as [I1 I2]. split; [intros [[= -> ->]|H]; auto|].
      intros H. apply I2. unfold mset. destruct ((i =? x) && (j =? y)) eqn:EQ.
      * right. assert (i = x /\ j = y) as [-> ->] by blia. reflexivity.
      * destruct H as [[[= -> ->]|H]|H]; auto. exfalso. blia.
Qed.

Lemma locate_some : forall sp pairs rel rel' i j, locate sp pairs rel = (rel', Some (i, j)) ->
  In (i, j) pairs /\ live sp i j /\ para_location sp i j = REL_BAD.
Proof.
  intros sp. induction pairs as [|[x y] pairs IH]; intros rel rel' i j E; cbn [locate] in E; [discriminate|].
  destruct (failed (para_data sp x) || failed (para_data sp y)) eqn:EF.
  - destruct (IH _ _ _ _ E) as [H1 H2]. split; [now right | exact H2].
  - apply orb_false_iff in EF. rewrite mset_eq in E.
    destruct (Z.eqb_spec (para_location sp x y) REL_BAD) as [Hb|_].
    + injection E as _ <- <-. split; [now left | now split].
    + destruct (IH _ _ _ _ E) as [H1 H2]. split; [now right | exact H2].
Qed.

(** A pair of brothers was a REL_PAR or a REL_POS. *)
Definition from_par (rel rel' : matrix Z) : Prop :=
  forall i j, rel' i j = REL_PAR -> rel i j = REL_PAR \/ rel i j = REL_POS.

Lemma from_par_set : forall rel rel' i j v, from_par rel rel' ->
  (v = REL_PAR -> rel' i j = REL_POS) -> (forall x y, rel' x y = REL_POS -> rel x y = REL_POS) ->
  from_par rel (mset rel' i j v).
Proof.
  intros rel rel' i j v H Hv HP x y E. unfold mset in E. destruct ((x =? i) && (y =? j)) eqn:EQ; [|auto].
  assert (x = i /\ y = j) as [-> ->] by blia. right. auto.
Qed.

(** Nothing becomes a REL_POS. *)
Definition from_pos (rel rel' : matrix Z) : Prop :=
  from_par rel rel' /\ forall i j, rel' i j = REL_POS -> rel i j = REL_POS.

Lemma from_pos_set : forall rel rel' i j v, from_pos rel rel' -> v <> REL_POS ->
  (v = REL_PAR -> rel' i j = REL_POS) -> from_pos rel (mset rel' i j v).
Proof.
  intros rel rel' i j v [H1 H2] Hv Hp. split; [now apply from_par_set|].
  intros x y E. unfold mset in E. destruct ((x =? i) && (y =? j)); [easy | auto].
Qed.

Lemma pos_to_par_from : forall sp rel, from_pos rel (pos_to_par sp rel).
Proof.
  intros sp rel. unfold pos_to_par, for_up. apply fold_left_inv.
  - intros i r _ Hr. destruct (failed _); auto. apply fold_left_inv; auto.
    intros j r' _ Hr'. destruct (negb _ && _ && _) eqn:EB; auto.
    apply from_pos_set; auto; [discriminate|]. intros _. blia.
  - split; [intros i j H; now left | auto].
Qed.

Lemma between_to_rev_from : forall sp rel rel0, from_pos rel0 rel -> from_pos rel0 (between_to_rev sp rel).
Proof.
  intros sp rel rel0 H. unfold between_to_rev, for_up. apply fold_left_inv; auto.
  intros i r _ Hr. destruct (negb _); auto. apply fold_left_inv; auto.
  intros j r1 _ Hr1. destruct (_ && _); auto. apply fold_left_inv; auto.
  intros k r2 _ Hr2. destruct (_ && _); auto. apply from_pos_set; auto; discriminate.
Qed.

(** Brothers share a conjunct. *)
Lemma location_par : forall a1 a2 a3 b1 b2 b3 st,
  location a1 a2 a3 b1 b2 b3 st = REL_PAR \/ location a1 a2 a3 b1 b2 b3 st = REL_POS -> a3 = b2.
Proof.
  intros a1 a2 a3 b1 b2 b3 st. unfold location. destruct (a3 <? b1); [now intros []|].
  places a1 a2 a3 b1 b2 b3; destruct st; cbn; auto; now intros [|].
Qed.

(** ** How far the conjuncts of a coordination reach

    Where the right end of a scope is the key of a later coordination with its start after the key of the first, the later one
    goes on: [reach_end] follows these coordinations to the last end.  It does not fall from a child to its parent among the managers, and
    where it does not rise the keys fall, so that the managers are a forest. *)

(** Scopes around their keys *)
Definition wide (sp : SENTENCE_DATA) : Prop := forall i, 0 <= i < Para_num sp -> failed (para_data sp i) = false ->
  p_start (para_data sp i) <= p_key_pos (para_data sp i) < p_jend_pos (para_data sp i).

(** The pairs that become REL_PAR *)
Definition brotherly (sp : SENTENCE_DATA) (i j : Z) : Prop :=
  let a := para_data sp i in
  let b := para_data sp j in
  p_jend_pos a = p_key_pos b /\ p_key_pos a < p_start b /\ (p_start b = p_key_pos a + 1 \/ para_brother_p sp i j = true).

(** The coordination [j] lies behind the key of [i] and its key in the scope of [i]. *)
Definition in_scope (sp : SENTENCE_DATA) (i j : Z) : Prop :=
  i < j /\ p_key_pos (para_data sp i) < p_start (para_data sp j) /\ p_key_pos (para_data sp j) <= p_jend_pos (para_data sp i).

(** The scope of [i] ends before the key of [j], whose scope it touches. *)
Definition before (sp : SENTENCE_DATA) (i j : Z) : Prop :=
  let a := para_data sp i in
  let b := para_data sp j in
  p_start b <= p_jend_pos a <= p_key_pos b /\ (p_jend_pos a < p_key_pos b \/ p_start b <= p_key_pos a).

Definition next_inside (sp : SENTENCE_DATA) (i : Z) : option Z :=
  find_up (i + 1) (Para_num sp) (fun j => negb (failed (para_data sp j)) &&
    (p_jend_pos (para_data sp i) =? p_key_pos (para_data sp j)) && (p_key_pos (para_data sp i) <? p_start (para_data sp j))).

Fixpoint reach (fuel : nat) (sp : SENTENCE_DATA) (i : Z) : Z :=
  match fuel, next_inside sp i with
  | S f, Some j => reach f sp j
  | _, _ => p_jend_pos (para_data sp i)
  end.

Definition reach_end (sp : SENTENCE_DATA) (i : Z) : Z := reach (Z.to_nat (Para_num sp - i)) sp i.

Section Reach.
Context (sp : SENTENCE_DATA).
Local Abbreviation N := (Para_num sp).
Local Abbreviation key k := (p_key_pos (para_data sp k)).
Local Abbreviation jend k := (p_jend_pos (para_data sp k)).
Local Abbreviation start k := (p_start (para_data sp k)).
Local Abbreviation alive k := (failed (para_data sp k) = false).

Hypothesis keys_increase : forall i j, 0 <= i < j -> j < N -> key i < key j.
Hypothesis scopes : wide sp.
Hypothesis fitting : forall i j, 0 <= i < j -> j < N -> alive i -> alive j -> fits (key i) (jend i) (start j) (key j) (jend j).

Lemma keys_injective : forall i j, 0 <= i < N -> 0 <= j < N -> key i = key j -> i = j.
Proof.
  intros i j Hi Hj E. destruct (Z.lt_trichotomy i j) as [H|[H|H]]; [|exact H|];
    [pose proof (keys_increase i j ltac:(lia) ltac:(lia)) | pose proof (keys_increase j i ltac:(lia) ltac:(lia))]; lia.
Qed.

Lemma keys_order : forall i j, 0 <= i < N -> 0 <= j < N -> key i < key j -> i < j.
Proof.
  intros i j Hi Hj E. destruct (Z.lt_trichotomy i j) as [H|[->|H]]; [exact H | lia |]. pose proof (keys_increase j i ltac:(lia) ltac:(lia)). lia.
Qed.

Lemma next_some : forall i j, 0 <= i -> next_inside sp i = Some j -> i < j < N /\ alive j /\ jend i = key j /\ key i < start j.
Proof.
  intros i j Hi E. apply find_up_some in E. destruct E as [Hj E]. split; [lia|]. destruct (failed (para_data sp j)); [discriminate|]. split; [reflexivity|]. blia.
Qed.

Lemma next_unique : forall i j, 0 <= i < j -> j < N -> alive j -> jend i = key j -> key i < start j -> next_inside sp i = Some j.
Proof.
  intros i j Hi Hj Aj E1 E2. destruct (next_inside sp i) as [k|] eqn:E.
  - destruct (next_some i k ltac:(lia) E) as (Hk & _ & K & _). f_equal. apply keys_injective; lia.
  - pose proof (find_up_none _ _ _ E j ltac:(lia)) as F. cbv beta in F. rewrite Aj in F. cbn [negb andb] in F. blia.
Qed.

Lemma reach_fuel : forall f g i, 0 <= i -> N - i <= Z.of_nat f -> N - i <= Z.of_nat g -> reach f sp i = reach g sp i.
Proof.
  assert (Z0 : forall g i, 0 <= i -> N - i <= 0 -> reach g sp i = jend i).
  { intros [|g] i Hi H; cbn [reach]; [reflexivity|]. destruct (next_inside sp i) as [j|] eqn:E; [|reflexivity].
    apply next_some in E; lia. }
  induction f as [|f IH]; intros g i Hi Hf Hg; [rewrite !Z0 by lia; reflexivity|].
  destruct g as [|g]; [rewrite !Z0 by lia; reflexivity|]. cbn [reach]. destruct (next_inside sp i) as [j|] eqn:E; [|reflexivity].
  apply next_some in E; [|exact Hi]. apply IH; lia.
Qed.

Lemma reach_step : forall i, 0 <= i < N -> reach_end sp i = match next_inside sp i with Some j => reach_end sp j | None => jend i end.
Proof.
  intros i Hi. unfold reach_end. destruct (Z.to_nat (N - i)) as [|f] eqn:F; [lia|]. cbn [reach].
  destruct (next_inside sp i) as [j|] eqn:E; [|reflexivity]. apply next_some in E; [|lia]. apply reach_fuel; lia.
Qed.

(** Induction on the coordinations from right to left. *)
Lemma from_right : forall P : Z -> Prop, (forall i, 0 <= i < N -> (forall j, i < j < N -> P j) -> P i) -> forall i, 0 <= i < N -> P i.
Proof.
  intros P H. assert (G : forall n i, 0 <= i < N -> N - i <= Z.of_nat n -> P i).
  { induction n as [|n IH]; intros i Hi Hn; [lia|]. apply H; [exact Hi|]. intros j Hj. apply IH; lia. }
  intros i Hi. apply (G (Z.to_nat (N - i))); lia.
Qed.

Lemma reach_jend : forall i, 0 <= i < N -> alive i -> jend i <= reach_end sp i.
Proof.
  apply (from_right (fun i => alive i -> jend i <= reach_end sp i)). intros i Hi IH Ai. rewrite reach_step by exact Hi.
  destruct (next_inside sp i) as [j|] eqn:E; [|lia]. apply next_some in E; [|lia]. destruct E as (Hj & Aj & E & _).
  specialize (IH j ltac:(lia) Aj). pose proof (scopes j ltac:(lia) Aj). lia.
Qed.

Lemma reach_brother : forall i j, 0 <= i < j -> j < N -> alive j -> brotherly sp i j -> reach_end sp i = reach_end sp j.
Proof. intros i j Hi Hj Aj (E1 & E2 & _). rewrite (reach_step i) by lia. now rewrite (next_unique i j). Qed.

Lemma reach_inside : forall i x, 0 <= i -> x < N -> alive i -> alive x -> in_scope sp i x -> reach_end sp x <= reach_end sp i.
Proof.
  intros i x Hi Hx Ai Ax H. assert (Rx : 0 <= x < N) by (destruct H; lia). revert Ax H. revert x Rx Hx. 
  apply (from_right (fun x => x < N -> alive x -> in_scope sp i x -> reach_end sp x <= reach_end sp i)). intros x Hx IH _ Ax (H1 & H2 & H3).
  destruct (Z.eq_dec (key x) (jend i)) as [K|K].
  - rewrite (reach_step i) by lia. rewrite (next_unique i x) by (auto; lia). lia.
  - pose proof (scopes x Hx Ax) as W. destruct (fitting i x ltac:(lia) ltac:(lia) Ai Ax) as [F|[F|[_ F]]]; [lia | lia|].
    rewrite (reach_step x) by lia. destruct (next_inside sp x) as [y|] eqn:E.
    + apply next_some in E; [|lia]. destruct E as (Hy & Ay & E1 & E2). apply IH; auto; [lia|]. pose proof (keys_increase i x ltac:(lia) ltac:(lia)).
      split; [lia|]. split; lia.
    + pose proof (reach_jend i ltac:(lia) Ai). lia.
Qed.

Lemma reach_before : forall i j, 0 <= i < j -> j < N -> alive i -> alive j -> before sp i j -> reach_end sp i <= key j.
Proof.
  intros i j Hi Hj Ai Aj H. assert (Ri : 0 <= i < N) by lia. revert Ai H Hi. revert i Ri.
  apply (from_right (fun i => alive i -> before sp i j -> 0 <= i < j -> reach_end sp i <= key j)). intros i Ri IH Ai [[H1 H2] H3] Hi.
  rewrite reach_step by exact Ri. destruct (next_inside sp i) as [x|] eqn:E; [|exact H2].
  apply next_some in E; [|lia]. destruct E as (Hx & Ax & E1 & E2). pose proof (scopes x ltac:(lia) Ax) as W. pose proof (scopes j ltac:(lia) Aj) as Wj.
  assert (Xj : x < j).
  { destruct (Z.eq_dec x j) as [->|]; [lia|]. destruct (Z.lt_ge_cases x j); [lia|]. pose proof (keys_increase j x ltac:(lia) ltac:(lia)). lia. }
  apply IH; [lia | exact Ax | | lia]. pose proof (keys_increase x j ltac:(lia) ltac:(lia)).
  destruct (fitting x j ltac:(lia) ltac:(lia) Ax Aj) as [F|[F|[F _]]]; [lia | | lia]. split; [lia | right; lia].
Qed.

(** The brother before one inside [j] is inside, too. *)
Lemma brother_inside : forall j x' x, 0 <= j < N -> 0 <= x' < x -> x < N -> alive j -> alive x' -> brotherly sp x' x -> in_scope sp j x ->
  key x < jend j \/ ~ brotherly sp j x -> in_scope sp j x' /\ key x' < jend j.
Proof.
  intros j x' x Hj Hx' Hx Aj Ax' (B1 & B2 & B3) (I1 & I2 & I3) S. pose proof (keys_increase x' x ltac:(lia) ltac:(lia)) as K.
  destruct (Z.lt_trichotomy j x') as [L|[->|L]].
  - pose proof (keys_increase j x' ltac:(lia) ltac:(lia)) as KJ. split; [|lia]. split; [exact L|].
    pose proof (scopes x' ltac:(lia) Ax') as W. destruct (fitting j x' ltac:(lia) ltac:(lia) Aj Ax') as [F|[F|[F _]]]; [lia | lia | split; lia].
  - exfalso. destruct S as [S|S]; [lia|]. apply S. now split.
  - exfalso. pose proof (keys_increase x' j ltac:(lia) ltac:(lia)) as KJ. pose proof (keys_increase j x ltac:(lia) ltac:(lia)) as KX.
    pose proof (scopes j ltac:(lia) Aj) as W. destruct (fitting x' j ltac:(lia) ltac:(lia) Ax' Aj) as [F|[F|[_ F]]]; [lia | lia|].
    destruct S as [S|S]; [lia|]. apply S. split; [lia|]. split; [lia|]. right. destruct B3 as [B3|B3]; [lia|]. unfold para_brother_p in *. blia.
Qed.
End Reach.

(** ** The managers *)

(** A loop in which only one index acts. *)
Lemma for_up_once : forall {S} (sel : Z -> bool) lo hi (body : Z -> S -> S) (s : S) (ok : S -> Prop), lo <= hi ->
  ok s -> (forall k, lo <= k < hi -> ok (body k s)) ->
  (forall k s', lo <= k < hi -> ok s' -> sel k = false -> body k s' = s') ->
  (forall k l, lo <= k < l -> l < hi -> sel k = true -> sel l = false) ->
  (for_up lo hi body s = s /\ forall k, lo <= k < hi -> sel k = false) \/
  (exists k, lo <= k < hi /\ sel k = true /\ for_up lo hi body s = body k s).
Proof.
  intros S sel lo hi body s ok Hle Hok Hok' Hb Hu.
  apply (for_up_inv (fun h s' => (s' = s /\ forall k, lo <= k < h -> sel k = false) \/
    (exists k, lo <= k < h /\ sel k = true /\ s' = body k s))); auto.
  - left. split; auto. lia.
  - intros i s' Hi [[-> H]|[k [Hk [Hs ->]]]].
    + destruct (sel i) eqn:E; [right; exists i; repeat split; auto; lia|].
      left. split; [apply Hb; auto|]. intros k Hk. destruct (Z.eq_dec k i) as [->|]; auto. apply H. lia.
    + right. exists k. split; [lia|]. split; auto. apply Hb; [lia | apply Hok'; lia |].
      apply (Hu k); auto; lia.
Qed.

Section Managers.
Context (sp0 : SENTENCE_DATA) (rel : matrix Z).
Local Abbreviation N := (Para_num sp0).
Local Abbreviation key k := (p_key_pos (para_data sp0 k)).
Local Abbreviation jend k := (p_jend_pos (para_data sp0 k)).

Hypothesis keys_increase : forall i j, 0 <= i < j -> j < N -> key i < key j.
Hypothesis few_keys : 0 <= N < PARA_PART_MAX.
Hypothesis brothers : forall i j, 0 <= i < j -> j < N -> live sp0 i j -> rel i j = REL_PAR -> brotherly sp0 i j.

(** Only the pointers to managers have changed in [para_data]. *)
Definition same_paras (sp : SENTENCE_DATA) : Prop :=
  Para_num sp = N /\ forall i, exists v, para_data sp i = set_p_manager_ptr v (para_data sp0 i).

(** A manager with the coordinations [paras r]: its conjuncts follow each other,
    the keys being the ends of all but the last. *)
Record manager_ok (r : PARA_MANAGER) : Prop := {
  mo_num : 1 <= pm_para_num r;
  mo_parts : pm_part_num r = pm_para_num r + 1;
  mo_first : pm_start r 0 = p_start (para_data sp0 (pm_para_data_num r 0));
  mo_range : forall k, 0 <= k < pm_para_num r ->
    0 <= pm_para_data_num r k < N /\ failed (para_data sp0 (pm_para_data_num r k)) = false;
  mo_order : forall k, 0 <= k < pm_para_num r - 1 -> pm_para_data_num r k < pm_para_data_num r (k + 1);
  mo_brothers : forall k, 0 <= k < pm_para_num r - 1 -> brotherly sp0 (pm_para_data_num r k) (pm_para_data_num r (k + 1));
  mo_ends : forall k, 0 <= k < pm_para_num r -> pm_end r k = key (pm_para_data_num r k);
  mo_starts : forall k, 0 <= k < pm_para_num r -> pm_start r (k + 1) = key (pm_para_data_num r k) + 1
}.

Definition last_para (r : PARA_MANAGER) : Z := pm_para_data_num r (pm_para_num r - 1).

Definition ends_at_scope (r : PARA_MANAGER) : Prop := pm_end r (pm_para_num r) = jend (last_para r).

Lemma manager_bound : forall r, manager_ok r -> forall k, 0 <= k < pm_para_num r ->
  k <= pm_para_data_num r k.
Proof.
  intros r H k Hk. replace k with (Z.of_nat (Z.to_nat k)) in * by lia. revert Hk.
  generalize (Z.to_nat k) as n. clear k. induction n as [|n IH]; intros Hk.
  - change (Z.of_nat 0) with 0 in *. destruct (mo_range r H 0); lia.
  - pose proof (mo_order r H (Z.of_nat n) ltac:(lia)) as Ho. specialize (IH ltac:(lia)).
    replace (Z.of_nat n + 1) with (Z.of_nat (S n)) in Ho by lia. lia.
Qed.

Lemma manager_size : forall r, manager_ok r -> pm_para_num r <= last_para r + 1 /\ last_para r < N.
Proof.
  intros r H. pose proof (mo_num r H). destruct (mo_range r H (pm_para_num r - 1)) as [Hr _]; [lia|].
  pose proof (manager_bound r H (pm_para_num r - 1)). unfold last_para. lia.
Qed.

(** The managers when the coordinations before [i] have been collected. *)
Record collected (i : Z) (sp : SENTENCE_DATA) : Prop := {
  co_paras : same_paras sp;
  co_bnst : Bnst_num sp = Bnst_num sp0;
  co_count : 0 <= Para_M_num sp <= i;
  co_ok : forall m, 0 <= m < Para_M_num sp ->
    manager_ok (para_manager sp m) /\ ends_at_scope (para_manager sp m);
  co_ptr : forall j m, 0 <= j < N -> p_manager_ptr (para_data sp j) = Some m ->
    0 <= m < Para_M_num sp /\ In j (paras (para_manager sp m)) /\
    (i <= j -> last_para (para_manager sp m) = j);
  co_all : forall j, 0 <= j < i -> failed (para_data sp0 j) = false -> p_manager_ptr (para_data sp j) <> None;
  co_free : forall m, Para_M_num sp <= m < N ->
    pm_para_num (para_manager sp m) = 0 /\ pm_part_num (para_manager sp m) = 0;
  co_roots : forall m, 0 <= m < N ->
    pm_parent (para_manager sp m) = None /\ pm_child_num (para_manager sp m) = 0
}.

(** [sp] with the brother [j] in manager [m]. *)
Definition with_brother (m j : Z) (sp : SENTENCE_DATA) : SENTENCE_DATA :=
  upd_manager m (push_part (key j + 1) (jend j))
    (upd_manager m (push_para j) (upd_para j (set_p_manager_ptr (Some m)) sp)).

Lemma push_ok : forall r j, manager_ok r -> ends_at_scope r -> last_para r < j < N ->
  failed (para_data sp0 j) = false -> brotherly sp0 (last_para r) j ->
  manager_ok (push_part (key j + 1) (jend j) (push_para j r)) /\
  ends_at_scope (push_part (key j + 1) (jend j) (push_para j r)).
Proof.
  intros r j H He Hj Hf HB. assert (Hk : jend (last_para r) = key j) by apply HB. pose proof (mo_num r H) as Hn. destruct (manager_size r H) as [Hs Hl].
  pose proof (mo_parts r H) as Hp. split.
  - split; cbn [push_part push_para pm_para_num pm_part_num pm_para_data_num pm_start pm_end
      set_pm_para_num set_pm_para_data_num set_pm_part_num set_pm_end set_pm_start]; try lia;
      [rewrite !aset_ne by lia; apply mo_first; auto | | | | |]; intros k Hk'.
    + destruct (Z.eq_dec k (pm_para_num r)) as [->|]; [rewrite aset_eq; split; [lia | auto]|].
      rewrite aset_ne by auto. apply mo_range; auto; lia.
    + rewrite aset_ne by lia. destruct (Z.eq_dec (k + 1) (pm_para_num r)) as [E|].
      * rewrite E, aset_eq. replace k with (pm_para_num r - 1) by lia. apply Hj.
      * rewrite aset_ne by auto. apply mo_order; auto; lia.
    + rewrite (aset_ne _ _ k) by lia. destruct (Z.eq_dec (k + 1) (pm_para_num r)) as [E|].
      * rewrite E, aset_eq. replace k with (pm_para_num r - 1) by lia. exact HB.
      * rewrite aset_ne by auto. apply mo_brothers; auto; lia.
    + rewrite (aset_ne _ (pm_part_num r)) by lia.
      destruct (Z.eq_dec k (pm_para_num r)) as [->|]; [rewrite aset_eq, <- Hk; exact He|].
      rewrite aset_ne by auto. apply mo_ends; auto; lia.
    + destruct (Z.eq_dec k (pm_para_num r)) as [->|]; [rewrite Hp, !aset_eq; reflexivity|].
      rewrite !aset_ne by lia. apply mo_starts; auto; lia.
  - unfold ends_at_scope, last_para. cbn [push_part push_para pm_para_num pm_part_num pm_para_data_num pm_start pm_end
      set_pm_para_num set_pm_para_data_num set_pm_part_num set_pm_end set_pm_start].
    rewrite Hp, aset_eq. replace (pm_para_num r + 1 - 1) with (pm_para_num r) by lia. now rewrite aset_eq.
Qed.

Lemma paras_push : forall r j a b, 0 <= pm_para_num r ->
  paras (push_part a b (push_para j r)) = paras r ++ [j].
Proof.
  intros r j a b H. unfold paras. cbn [push_part push_para pm_para_num pm_para_data_num set_pm_para_num
    set_pm_para_data_num set_pm_part_num set_pm_end set_pm_start].
  rewrite zrange_snoc by lia. replace (pm_para_num r + 1 - 1) with (pm_para_num r) by lia.
  rewrite map_app. cbn [map]. rewrite aset_eq. f_equal. apply map_ext_in. intros k Hk.
  apply in_zrange in Hk. apply aset_ne. lia.
Qed.

Lemma same_paras_fields : forall sp j, same_paras sp ->
  p_key_pos (para_data sp j) = key j /\ p_jend_pos (para_data sp j) = jend j /\
  p_start (para_data sp j) = p_start (para_data sp0 j) /\
  failed (para_data sp j) = failed (para_data sp0 j) /\ strong (para_data sp j) = strong (para_data sp0 j).
Proof. intros sp j [_ H]. destruct (H j) as [v ->]. repeat split. Qed.

Lemma same_paras_ptr : forall sp j v, same_paras sp -> same_paras (upd_para j (set_p_manager_ptr v) sp).
Proof.
  intros sp j v [H1 H2]. split; [exact H1|]. intros i. rewrite upd_para_at.
  destruct (Z.eqb_spec i j) as [->|]; [|apply H2]. destruct (H2 j) as [w ->]. now exists v.
Qed.

Lemma same_paras_manager : forall sp m u, same_paras sp -> same_paras (upd_manager m u sp).
Proof. intros sp m u H. exact H. Qed.

Lemma brother_collected : forall i m j sp, collected (i + 1) sp -> 0 <= i < j -> j < N ->
  0 <= m < Para_M_num sp -> last_para (para_manager sp m) = i ->
  live sp0 i j -> rel i j = REL_PAR -> collected (i + 1) (with_brother m j sp).
Proof.
  intros i m j sp [C1 C0 C2 C3 C4 C5 C6 C7] Hi Hj Hm Hl L Hr.
  assert (Hmj : forall r, para_manager (with_brother m j sp) r =
    if r =? m then push_part (key j + 1) (jend j) (push_para j (para_manager sp m)) else para_manager sp r).
  { intros r. unfold with_brother. rewrite !upd_manager_at. destruct (Z.eqb_spec r m) as [->|]; [|reflexivity].
    now rewrite Z.eqb_refl. }
  assert (Hpj : forall x, para_data (with_brother m j sp) x =
    if x =? j then set_p_manager_ptr (Some m) (para_data sp j) else para_data sp x) by reflexivity.
  destruct (C3 m Hm) as [M1 M2]. pose proof (mo_num _ M1) as M3.
  destruct (push_ok _ j M1 M2) as [P1 P2]; [lia | apply L | rewrite Hl; apply brothers; auto; lia |].
  split; cbn [Para_M_num with_brother upd_manager upd_para set_para_manager set_para_data]; auto.
  - apply same_paras_manager, same_paras_manager, same_paras_ptr, C1.
  - intros r Hrr. rewrite Hmj. destruct (Z.eqb_spec r m) as [->|]; auto.
  - intros x r Hx E. rewrite Hpj in E. rewrite Hmj. destruct (Z.eqb_spec x j) as [->|Hne].
    + injection E as <-. rewrite Z.eqb_refl, paras_push by lia. split; [exact Hm|].
      split; [apply in_app_iff; right; now left|]. intros _. unfold last_para.
      cbn [push_part push_para pm_para_num pm_para_data_num set_pm_para_num set_pm_para_data_num set_pm_part_num
        set_pm_end set_pm_start]. replace (_ + 1 - 1) with (pm_para_num (para_manager sp m)) by lia. apply aset_eq.
    + destruct (C4 x r Hx E) as [D1 [D2 D3]]. split; [exact D1|]. destruct (Z.eqb_spec r m) as [->|]; [|auto].
      rewrite paras_push by lia. split; [apply in_app_iff; now left|]. intros Hix. rewrite D3 in Hl; lia.
  - intros x Hx Hf. rewrite Hpj. destruct (Z.eqb_spec x j) as [->|]; [discriminate | auto].
  - intros r Hrr. rewrite Hmj. destruct (Z.eqb_spec r m) as [->|]; [lia | auto].
  - intros r Hrr. rewrite Hmj. destruct (Z.eqb_spec r m) as [->|]; [apply C7; lia | auto].
Qed.

Lemma new_manager_collected : forall i sp, collected i sp -> 0 <= i < N -> failed (para_data sp0 i) = false ->
  p_manager_ptr (para_data sp i) = None -> exists sp1, new_manager i sp = (true, sp1) /\
  collected (i + 1) sp1 /\ 0 <= Para_M_num sp < Para_M_num sp1 /\
  last_para (para_manager sp1 (Para_M_num sp)) = i.
Proof.
  intros i sp [C1 C0 C2 C3 C4 C5 C6 C7] Hi Hf Hp. set (m := Para_M_num sp) in *.
  destruct (C6 m ltac:(lia)) as [F1 F2]. destruct (C7 m ltac:(lia)) as [F3 F4].
  destruct (same_paras_fields sp i C1) as [K1 [K2 [K3 [K4 K5]]]].
  set (r0 := push_part (key i + 1) (jend i) (push_part (p_start (para_data sp0 i)) (key i)
               (push_para i (para_manager sp m)))).
  set (sp1 := upd_manager m (fun r => push_part (key i + 1) (jend i) (push_part (p_start (para_data sp0 i)) (key i) r))
    (upd_manager m (push_para i) (upd_para i (set_p_manager_ptr (Some m)) (set_Para_M_num (m + 1) sp)))).
  assert (E : new_manager i sp = (true, sp1)).
  { unfold new_manager. fold m. rewrite K1, K2, K3. unfold full.
    rewrite upd_manager_at, Z.eqb_refl. cbn [push_para pm_para_num set_pm_para_num].
    cbn [upd_para set_para_data para_manager set_Para_M_num]. rewrite F1. reflexivity. }
  exists sp1. split; [exact E|]. clear E.
  assert (Hr0 : para_manager sp1 m = r0).
  { unfold sp1, r0. rewrite !upd_manager_at, !Z.eqb_refl. reflexivity. }
  assert (Hrn : forall r, r <> m -> para_manager sp1 r = para_manager sp r).
  { intros r Hr. unfold sp1. rewrite !upd_manager_at. destruct (Z.eqb_spec r m); [easy | reflexivity]. }
  assert (Hpn : forall x, para_data sp1 x =
    if x =? i then set_p_manager_ptr (Some m) (para_data sp i) else para_data sp x) by reflexivity.
  assert (HM : Para_M_num sp1 = m + 1) by reflexivity.
  assert (HN : Para_num sp1 = N) by apply C1.
  assert (HB : Bnst_num sp1 = Bnst_num sp0) by exact C0. clearbody sp1.
  assert (G : pm_para_num r0 = 1 /\ pm_part_num r0 = 2 /\ pm_para_data_num r0 0 = i /\
    pm_start r0 0 = p_start (para_data sp0 i) /\ pm_end r0 0 = key i /\ pm_start r0 1 = key i + 1 /\ pm_end r0 1 = jend i /\
    pm_parent r0 = None /\ pm_child_num r0 = 0).
  { unfold r0. cbn [push_part push_para pm_para_num pm_part_num pm_para_data_num pm_start pm_end pm_parent pm_child_num
      set_pm_para_num set_pm_para_data_num set_pm_part_num set_pm_end set_pm_start]. rewrite F1, F2. repeat split; auto. }
  clearbody r0. destruct G as [G1 [G2 [G3 [G0 [G4 [G5 [G6 [G7 G8]]]]]]]].
  assert (P : paras r0 = [i]) by (unfold paras; rewrite G1; change (zrange 0 1) with [0]; cbn [map]; now rewrite G3).
  assert (L : last_para r0 = i) by (unfold last_para; now rewrite G1).
  split; [|split; [lia | now rewrite Hr0]]. split; rewrite ?HM.
  - destruct C1 as [D1 D2]. split; [exact HN|]. intros x. rewrite Hpn.
    destruct (Z.eqb_spec x i) as [->|]; [|auto]. destruct (D2 i) as [w ->]. now exists (Some m).
  - exact HB.
  - lia.
  - intros r Hr. destruct (Z.eq_dec r m) as [->|Hne]; [|rewrite Hrn by auto; apply C3; lia].
    rewrite Hr0. split; [|unfold ends_at_scope; rewrite L, G1; exact G6].
    split; rewrite ?G1, ?G2; try lia; [rewrite G3; exact G0 | | |]; intros k Hk; replace k with 0 by lia; rewrite ?G3; auto.
  - intros x r Hx E. rewrite Hpn in E. destruct (Z.eqb_spec x i) as [->|Hne].
    + injection E as <-. rewrite Hr0, P, L. split; [lia|]. split; [now left | auto].
    + destruct (C4 x r Hx E) as [D1 [D2 D3]]. rewrite Hrn by lia. split; [lia|]. split; auto. intros. apply D3. lia.
  - intros x Hx Hfx. rewrite Hpn. destruct (Z.eqb_spec x i) as [->|]; [discriminate|]. apply C5; auto. lia.
  - intros r Hr. rewrite Hrn by lia. apply C6. lia.
  - intros r Hr. destruct (Z.eq_dec r m) as [->|Hne]; [rewrite Hr0; auto | rewrite Hrn by auto; apply C7; lia].
Qed.

Lemma add_brother_ok : forall i m j sp, collected (i + 1) sp -> 0 <= i < j -> j < N ->
  0 <= m < Para_M_num sp -> last_para (para_manager sp m) = i ->
  live sp0 i j -> rel i j = REL_PAR ->
  add_brother rel i m j (true, sp) = (true, with_brother m j sp).
Proof.
  intros i m j sp C Hi Hj Hm Hl L Hr. pose proof (co_paras _ _ C) as C1. unfold add_brother.
  destruct (same_paras_fields sp j C1) as [K1 [K2 [_ [K4 _]]]].
  rewrite K4, K1, K2. destruct L as [_ ->]. rewrite Hr. cbn [negb orb Z.eqb Pos.eqb REL_PAR].
  replace (full _ m) with false; [reflexivity|]. symmetry. unfold full. rewrite upd_manager_at, Z.eqb_refl.
  cbn [push_para pm_para_num set_pm_para_num upd_para set_para_data para_manager].
  destruct (co_ok _ _ C m Hm) as [M1 _]. destruct (manager_size _ M1). unfold PARA_PART_MAX in *. blia.
Qed.

(** Only a live brother is added. *)
Lemma add_brother_idle : forall i m j st, same_paras (snd st) ->
  negb (failed (para_data sp0 j)) && (rel i j =? REL_PAR) = false -> add_brother rel i m j st = st.
Proof.
  intros i m j [ok sp] C H. unfold add_brother. cbn [snd] in C.
  destruct (same_paras_fields sp j C) as [_ [_ [_ [-> _]]]].
  destruct (failed (para_data sp0 j)); [now rewrite orb_true_r|]. cbn [negb andb] in H. rewrite H.
  now rewrite orb_true_r.
Qed.

Lemma collect_ok : forall i sp, collected i sp -> 0 <= i < N ->
  exists sp1, collect_brothers rel i (true, sp) = (true, sp1) /\ collected (i + 1) sp1.
Proof.
  intros i sp C Hi. pose proof (co_paras _ _ C) as C1. unfold collect_brothers.
  destruct (same_paras_fields sp i C1) as [_ [_ [_ [Hfi _]]]]. rewrite Hfi. cbn [negb orb].
  destruct (failed (para_data sp0 i)) eqn:Hf.
  { exists sp. split; [reflexivity|]. destruct C as [_ D0 D2 D3 D4 D5 D6 D7]. split; auto; [lia | |].
    - intros j m Hj E. destruct (D4 j m Hj E) as [E1 [E2 E3]]. split; auto. split; auto. intros. apply E3. lia.
    - intros j Hj Hfj. destruct (Z.eq_dec j i) as [->|]; [congruence | apply D5; auto; lia]. }
  assert (O : exists m sp1, (match p_manager_ptr (para_data sp i) with
      | Some m_ptr => (m_ptr, (true, sp)) | None => (Para_M_num sp, new_manager i sp) end) = (m, (true, sp1)) /\
    collected (i + 1) sp1 /\ 0 <= m < Para_M_num sp1 /\ last_para (para_manager sp1 m) = i).
  { destruct (p_manager_ptr (para_data sp i)) as [m|] eqn:EP.
    - exists m, sp. destruct (co_ptr _ _ C i m Hi EP) as [E1 [E2 E3]].
      split; [reflexivity|]. split; [|split; [exact E1 | apply E3; lia]].
      destruct C as [_ D0 D2 D3 D4 D5 D6 D7]. split; auto; [lia | |].
      + intros j r Hj E. destruct (D4 j r Hj E) as [G1 [G2 G3]]. split; auto. split; auto. intros. apply G3. lia.
      + intros j Hj Hfj. destruct (Z.eq_dec j i) as [->|]; [congruence | apply D5; auto; lia].
    - destruct (new_manager_collected i sp C Hi Hf EP) as [sp1 [E1 [E2 [E3 E4]]]].
      exists (Para_M_num sp), sp1. rewrite E1. auto. }
  destruct O as [m [sp1 [-> [C' [Hm Hl]]]]]. cbv beta iota zeta.
  replace (Para_num sp) with N by (symmetry; apply C1).
  set (sel := fun j => negb (failed (para_data sp0 j)) && (rel i j =? REL_PAR)).
  assert (A : forall k, i + 1 <= k < N -> sel k = true ->
    add_brother rel i m k (true, sp1) = (true, with_brother m k sp1)).
  { intros k Hk Hs. unfold sel in Hs. apply andb_true_iff in Hs. destruct Hs as [H1 H2].
    apply add_brother_ok; auto; try lia; try blia. split; [auto | now destruct (failed (para_data sp0 k))]. }
  destruct (for_up_once sel (i + 1) N (add_brother rel i m) (true, sp1) (fun st => same_paras (snd st)))
    as [[E _]|[k [Hk [Hs E]]]]; [lia | apply C' | | | | |].
  - intros k Hk. destruct (sel k) eqn:Hs; [|rewrite add_brother_idle; auto; apply C'].
    rewrite A by auto. cbn [snd]. apply same_paras_manager, same_paras_manager, same_paras_ptr, C'.
  - intros k st Hk Hst Hs. now apply add_brother_idle.
  - intros k l Hk Hl' Hs. unfold sel in *. destruct (rel i l =? REL_PAR) eqn:E2; [|apply andb_false_r].
    apply andb_true_iff in Hs. destruct Hs as [H1 H2]. rewrite andb_true_r. apply not_true_is_false. intros H3.
    assert (K1 : jend i = key k).
    { apply (brothers i k); try lia; try blia. split; [auto | now destruct (failed (para_data sp0 k))]. }
    assert (K2 : jend i = key l).
    { apply (brothers i l); try lia; try blia. split; [auto | now destruct (failed (para_data sp0 l))]. }
    pose proof (keys_increase k l). lia.
  - exists sp1. now rewrite E.
  - exists (with_brother m k sp1). rewrite E, A by auto. split; [reflexivity|].
    unfold sel in Hs. apply andb_true_iff in Hs. destruct Hs as [H1 H2].
    apply brother_collected; auto; try lia; try blia. split; [auto | now destruct (failed (para_data sp0 k))].
Qed.

(** ** The forest *)

(** A relation between a child and its parent that the relations of their coordinations give. *)
Context (low : SENTENCE_DATA -> Z -> Z -> Prop).
Hypothesis low_related : forall sp1 i j c p, collected N sp1 -> 0 <= i < N -> 0 <= j < N -> live sp0 i j -> child_rel rel i j = true ->
  p_manager_ptr (para_data sp1 i) = Some c -> p_manager_ptr (para_data sp1 j) = Some p -> low sp1 c p.

Definition kids (r : PARA_MANAGER) : list Z := map (pm_child r) (zrange 0 (pm_child_num r)).

Lemma kids_push : forall c r, 0 <= pm_child_num r -> kids (push_child c r) = kids r ++ [c].
Proof.
  intros c r H. unfold kids. cbn [push_child pm_child pm_child_num set_pm_child set_pm_child_num].
  rewrite zrange_snoc by lia. replace (pm_child_num r + 1 - 1) with (pm_child_num r) by lia.
  rewrite map_app. cbn [map]. rewrite aset_eq. f_equal. apply map_ext_in. intros k Hk.
  apply in_zrange in Hk. apply aset_ne. lia.
Qed.

Lemma shift_at : forall (c : array Z) i hi k, i <= hi ->
  for_up i hi (fun j c => aset c j (c (j + 1))) c k = if within i k hi then c (k + 1) else c k.
Proof.
  intros c i hi k Hle. revert k.
  apply (for_up_inv (fun h c' => forall k, c' k = if within i k h then c (k + 1) else c k)); auto.
  - intros k. destruct (within_spec i k i); [lia | reflexivity].
  - intros j c' Hj H k. destruct (Z.eq_dec k j) as [->|Hne].
    + rewrite aset_eq, H, (within_true i j (j + 1)) by lia. destruct (within_spec i (j + 1) j); [lia | reflexivity].
    + rewrite aset_ne, H by auto. destruct (within_spec i k j), (within_spec i k (j + 1)); (lia || reflexivity).
Qed.

Lemma zrange_around : forall lo mid hi, lo <= mid < hi ->
  zrange lo hi = zrange lo mid ++ mid :: zrange (mid + 1) hi.
Proof. intros. rewrite (zrange_app lo mid hi), (zrange_cons mid hi) by lia. reflexivity. Qed.

Lemma zrange_shift : forall lo hi, map (fun k => k + 1) (zrange lo hi) = zrange (lo + 1) (hi + 1).
Proof.
  intros lo hi. unfold zrange. replace (hi + 1 - (lo + 1)) with (hi - lo) by lia.
  generalize (Z.to_nat (hi - lo)) as n. intros n. revert lo.
  induction n as [|n IH]; intros lo; cbn [zseq map]; [reflexivity|]. now rewrite IH.
Qed.

(** [remove_child] takes one occurrence out of the list of children. *)
Lemma kids_remove : forall c r, In c (kids r) ->
  exists l1 l2, kids r = l1 ++ c :: l2 /\ kids (remove_child c r) = l1 ++ l2 /\
    pm_child_num (remove_child c r) = pm_child_num r - 1.
Proof.
  intros c r Hin. unfold remove_child.
  destruct (find_up 0 (pm_child_num r) (fun i => pm_child r i =? c)) as [i|] eqn:E.
  - apply find_up_some in E. destruct E as [Hi Hc]. apply Z.eqb_eq in Hc.
    exists (map (pm_child r) (zrange 0 i)), (map (pm_child r) (zrange (i + 1) (pm_child_num r))).
    split; [|split; [|reflexivity]]; unfold kids.
    + rewrite (zrange_around 0 i) by lia. rewrite map_app. cbn [map]. now rewrite Hc.
    + cbn [pm_child pm_child_num set_pm_child set_pm_child_num].
      rewrite (zrange_app 0 i (pm_child_num r - 1)) by lia. rewrite map_app. f_equal.
      * apply map_ext_in. intros k Hk. apply in_zrange in Hk. rewrite shift_at by lia.
        destruct (within_spec i k (pm_child_num r - 1)); [lia | reflexivity].
      * replace (zrange (i + 1) (pm_child_num r)) with (map (fun k => k + 1) (zrange i (pm_child_num r - 1)))
          by (rewrite zrange_shift; f_equal; lia).
        rewrite map_map. apply map_ext_in. intros k Hk. apply in_zrange in Hk. rewrite shift_at by lia.
        now rewrite within_true by lia.
  - exfalso. unfold kids in Hin. apply in_map_iff in Hin. destruct Hin as [i [Hc Hi]]. apply in_zrange in Hi.
    apply (find_up_none _ _ _ E) in Hi. blia.
Qed.

Lemma kids_length : forall r, 0 <= pm_child_num r -> Z.of_nat (List.length (kids r)) = pm_child_num r.
Proof.
  intros r H. unfold kids. rewrite length_map, length_zrange. lia.
Qed.

Definition same_body (r r' : PARA_MANAGER) : Prop :=
  pm_para_num r' = pm_para_num r /\ pm_para_data_num r' = pm_para_data_num r /\
  pm_part_num r' = pm_part_num r /\ pm_start r' = pm_start r /\ pm_end r' = pm_end r.

(** The managers of [sp1] with pointers of a forest, except those to and from [c]. *)
Record forest_but (sp1 : SENTENCE_DATA) (hole : option Z) (sp : SENTENCE_DATA) : Prop := {
  fo_para : para_data sp = para_data sp1;
  fo_bnst : Bnst_num sp = Bnst_num sp1;
  fo_num : Para_num sp = Para_num sp1 /\ Para_M_num sp = Para_M_num sp1;
  fo_body : forall m, same_body (para_manager sp1 m) (para_manager sp m);
  fo_count : forall p, 0 <= p < Para_M_num sp1 -> 0 <= pm_child_num (para_manager sp p);
  fo_nodup : forall p, 0 <= p < Para_M_num sp1 -> NoDup (kids (para_manager sp p));
  fo_kids : forall p c, 0 <= p < Para_M_num sp1 -> (In c (kids (para_manager sp p)) <->
    Some c <> hole /\ 0 <= c < Para_M_num sp1 /\ pm_parent (para_manager sp c) = Some p);
  fo_parent : forall c p, 0 <= c < Para_M_num sp1 -> Some c <> hole ->
    pm_parent (para_manager sp c) = Some p -> 0 <= p < Para_M_num sp1;
  fo_low : forall c p, 0 <= c < Para_M_num sp1 -> Some c <> hole -> pm_parent (para_manager sp c) = Some p -> low sp1 c p
}.

Lemma forest_open : forall sp1 sp c, forest_but sp1 None sp -> pm_parent (para_manager sp c) = None ->
  forest_but sp1 (Some c) sp.
Proof.
  intros sp1 sp c [F1 F0 F2 F3 F4 F5 F6 F7 F8] Hc. split; auto.
  - intros p x Hp. rewrite F6 by auto. split; intros [H1 [H2 H3]]; repeat split; auto; try lia; try discriminate.
    intros [= ->]. congruence.
  - intros x p Hx _ Hp. now apply (F7 x).
  - intros x p Hx _ Hp. now apply (F8 x).
Qed.

Lemma forest_delete : forall sp1 sp c old, forest_but sp1 None sp -> 0 <= c < Para_M_num sp1 ->
  pm_parent (para_manager sp c) = Some old -> forest_but sp1 (Some c) (delete_child old c sp).
Proof.
  intros sp1 sp c old [F1 F0 F2 F3 F4 F5 F6 F7 F8] Hc Hp.
  assert (Ho : 0 <= old < Para_M_num sp1) by (apply (F7 c old); auto; discriminate).
  assert (Hin : In c (kids (para_manager sp old))) by (apply F6; auto; repeat split; auto; try lia; discriminate).
  destruct (kids_remove c (para_manager sp old) Hin) as [l1 [l2 [E1 [E2 E3]]]].
  assert (B : same_body (para_manager sp old) (remove_child c (para_manager sp old)) /\
    pm_parent (remove_child c (para_manager sp old)) = pm_parent (para_manager sp old)).
  { unfold remove_child, same_body. destruct (find_up _ _ _); repeat split. }
  pose proof (F5 old Ho) as ND. rewrite E1 in ND.
  assert (M : forall m, para_manager (delete_child old c sp) m =
    if m =? old then remove_child c (para_manager sp old) else para_manager sp m) by reflexivity.
  assert (Q : forall m, pm_parent (para_manager (delete_child old c sp) m) = pm_parent (para_manager sp m)).
  { intros m. rewrite M. destruct (Z.eqb_spec m old) as [->|]; [apply B | reflexivity]. }
  split; auto.
  - intros m. rewrite M. destruct (Z.eqb_spec m old) as [->|]; auto. destruct B as [B _].
    specialize (F3 old). unfold same_body in *. intuition congruence.
  - intros p Hp'. rewrite M. destruct (Z.eqb_spec p old) as [->|]; auto. rewrite E3.
    pose proof (kids_length _ (F4 old Ho)) as HL. rewrite E1, length_app in HL. cbn [List.length] in HL. lia.
  - intros p Hp'. rewrite M. destruct (Z.eqb_spec p old) as [->|]; auto. rewrite E2. now apply NoDup_remove_1 in ND.
  - intros p x Hp'. rewrite Q, M. destruct (Z.eqb_spec p old) as [->|Hne].
    + rewrite E2. pose proof (F6 old x Ho) as F. rewrite E1 in F. apply NoDup_remove_2 in ND.
      split.
      * intros Hx. destruct (proj1 F) as [G1 [G2 G3]]; [rewrite in_app_iff in *; cbn; tauto|].
        split; [intros [= ->]; tauto | auto].
      * intros [G1 [G2 G3]]. assert (Hx : In x (l1 ++ c :: l2)) by (apply F; repeat split; auto; try lia; discriminate).
        rewrite in_app_iff in *. cbn in Hx. destruct Hx as [|[->|]]; auto. now elim G1.
    + rewrite F6 by auto. split; intros [G1 [G2 G3]]; repeat split; auto; try lia; try discriminate.
      intros [= ->]. congruence.
  - intros x p Hx _ E. rewrite Q in E. apply (F7 x p); auto. discriminate.
  - intros x p Hx _ E. rewrite Q in E. apply (F8 x p); auto. discriminate.
Qed.

Lemma forest_link : forall sp1 sp c p, Para_M_num sp1 < PARA_PART_MAX -> forest_but sp1 (Some c) sp ->
  0 <= c < Para_M_num sp1 -> 0 <= p < Para_M_num sp1 -> low sp1 c p ->
  exists sp', link p c sp = (true, sp') /\ forest_but sp1 None sp'.
Proof.
  intros sp1 sp c p HM [F1 F0 F2 F3 F4 F5 F6 F7 F8] Hc Hp HL. unfold link.
  set (sp' := upd_manager p (push_child c) (upd_manager c (set_pm_parent (Some p)) sp)).
  assert (K : forall m, 0 <= m < Para_M_num sp1 -> kids (para_manager sp' m) =
      if m =? p then kids (para_manager sp p) ++ [c] else kids (para_manager sp m)).
  { intros m Hm. unfold sp'. rewrite !upd_manager_at. destruct (Z.eqb_spec m p) as [->|].
    - destruct (Z.eqb_spec p c) as [->|]; (rewrite kids_push; [reflexivity | now apply F4]).
    - destruct (Z.eqb_spec m c) as [->|]; reflexivity. }
  assert (Q : forall m, pm_parent (para_manager sp' m) = if m =? c then Some p else pm_parent (para_manager sp m)).
  { intros m. unfold sp'. rewrite !upd_manager_at. destruct (Z.eqb_spec m p) as [->|].
    - destruct (Z.eqb_spec p c) as [->|]; reflexivity.
    - destruct (Z.eqb_spec m c) as [->|]; reflexivity. }
  assert (B : forall m, same_body (para_manager sp m) (para_manager sp' m)).
  { intros m. unfold sp', same_body. rewrite !upd_manager_at.
    destruct (Z.eqb_spec m p) as [->|]; [destruct (Z.eqb_spec p c) as [->|]; repeat split|].
    destruct (Z.eqb_spec m c) as [->|]; repeat split. }
  assert (Cn : forall m, 0 <= m < Para_M_num sp1 -> 0 <= pm_child_num (para_manager sp' m)).
  { intros m Hm. unfold sp'. rewrite !upd_manager_at. pose proof (F4 p Hp). pose proof (F4 m Hm).
    destruct (Z.eqb_spec m p) as [->|]; [destruct (Z.eqb_spec p c) as [->|]; cbn; lia|].
    destruct (Z.eqb_spec m c) as [->|]; cbn; lia. }
  assert (F : forest_but sp1 None sp').
  { split; auto.
    - intros m. specialize (F3 m). specialize (B m). unfold same_body in *. intuition congruence.
    - intros m Hm. rewrite K by auto. destruct (Z.eqb_spec m p) as [->|]; auto.
      apply NoDup_app; [auto | repeat constructor; now intros [] |]. intros x Hx [<-|[]].
      apply F6 in Hx; auto. destruct Hx as [Hx _]. now elim Hx.
    - intros m x Hm. rewrite K, Q by auto. destruct (Z.eqb_spec m p) as [->|Hne].
      + rewrite in_app_iff, F6 by auto. destruct (Z.eqb_spec x c) as [->|Hxc]; [|cbn; intuition (try congruence)].
        split; [intros _; repeat split; auto; try lia; discriminate | intros _; right; now left].
      + rewrite F6 by auto. destruct (Z.eqb_spec x c) as [->|Hxc].
        * split; [intros [G _]; now elim G | intros [_ [_ [= ->]]]; congruence].
        * split; intros [G1 [G2 G3]]; repeat split; auto; try lia; try discriminate. congruence.
    - intros x q Hx _ E. rewrite Q in E. destruct (Z.eqb_spec x c) as [->|Hne]; [now injection E as <-|].
      apply (F7 x q); auto. congruence.
    - intros x q Hx _ E. rewrite Q in E. destruct (Z.eqb_spec x c) as [->|Hne]; [injection E as <-; exact HL|].
      apply (F8 x q); auto. congruence. }
  exists sp'. split; [|exact F]. f_equal. apply negb_true_iff, Z.leb_gt.
  pose proof (kids_length _ (Cn p Hp)) as HK.
  assert (I : incl (kids (para_manager sp' p)) (zrange 0 (Para_M_num sp1))).
  { intros x Hx. apply (fo_kids _ _ _ F) in Hx; auto. apply in_zrange. tauto. }
  apply NoDup_incl_length in I; [|apply (fo_nodup _ _ _ F); auto].
  assert (Z.of_nat (List.length (zrange 0 (Para_M_num sp1))) <= Para_M_num sp1) by (rewrite length_zrange; lia). lia.
Qed.

Lemma set_parent_ok : forall sp1 sp c p, Para_M_num sp1 < PARA_PART_MAX -> forest_but sp1 None sp ->
  0 <= c < Para_M_num sp1 -> 0 <= p < Para_M_num sp1 -> low sp1 c p ->
  exists sp', set_parent rel p c sp = (true, sp') /\ forest_but sp1 None sp'.
Proof.
  intros sp1 sp c p HM F Hc Hp HL. unfold set_parent.
  destruct (pm_parent (para_manager sp c)) as [old|] eqn:E.
  - destruct (old =? p); [eauto|]. destruct (nearer _ _) as [[|]|]; eauto.
    apply (forest_link sp1); auto. now apply forest_delete.
  - apply (forest_link sp1); auto. now apply forest_open.
Qed.

Lemma collected_forest : forall sp1, collected N sp1 -> forest_but sp1 None sp1.
Proof.
  intros sp1 C. pose proof (co_count _ _ C) as HM. split; auto.
  - intros m. repeat split.
  - intros p Hp. destruct (co_roots _ _ C p ltac:(lia)) as [_ ->]. lia.
  - intros p Hp. unfold kids. destruct (co_roots _ _ C p ltac:(lia)) as [_ ->]. constructor.
  - intros p c Hp. unfold kids. destruct (co_roots _ _ C p ltac:(lia)) as [_ ->]. split; [intros []|].
    intros [_ [Hc E]]. destruct (co_roots _ _ C c ltac:(lia)) as [E2 _]. congruence.
  - intros c p Hc _ E. destruct (co_roots _ _ C c ltac:(lia)) as [E2 _]. congruence.
  - intros c p Hc _ E. destruct (co_roots _ _ C c ltac:(lia)) as [E2 _]. congruence.
Qed.

(** The state of the loops over the pairs of coordinations. *)
Definition grown (sp1 : SENTENCE_DATA) (st : bool * SENTENCE_DATA) : Prop :=
  fst st = true /\ forest_but sp1 None (snd st).

Lemma relate_ok : forall sp1 i j st, collected N sp1 -> 0 <= i < N -> 0 <= j < N ->
  failed (para_data sp0 i) = false -> grown sp1 st ->
  exists st', relate rel i j st = Ret st' /\ grown sp1 st'.
Proof.
  intros sp1 i j [ok sp] C Hi Hj Hf [G1 G2]. cbn [fst snd] in *. subst ok. unfold relate. cbn [negb orb].
  pose proof (fo_para _ _ _ G2) as FP. rewrite FP.
  destruct (same_paras_fields sp1 j (co_paras _ _ C)) as [_ [_ [_ [-> _]]]].
  destruct (failed (para_data sp0 j)) eqn:Hfj; cbn [orb]; [exists (true, sp); now split|].
  destruct (child_rel rel i j) eqn:HR; cbn [negb]; [|exists (true, sp); now split].
  destruct (p_manager_ptr (para_data sp1 j)) as [m2|] eqn:E2; [|now elim (co_all _ _ C j)].
  destruct (p_manager_ptr (para_data sp1 i)) as [m1|] eqn:E1; [|now elim (co_all _ _ C i)].
  destruct (co_ptr _ _ C _ _ Hj E2) as [H2 _]. destruct (co_ptr _ _ C _ _ Hi E1) as [H1 _].
  pose proof (co_count _ _ C). 
  destruct (set_parent_ok sp1 sp m1 m2 ltac:(lia) G2 H1 H2 (low_related sp1 i j m1 m2 C Hi Hj (conj Hf Hfj) HR E1 E2)) as [sp' [-> G']].
  exists (true, sp'). now split.
Qed.

Lemma relate_row_ok : forall sp1 i st, collected N sp1 -> 0 <= i < N -> grown sp1 st ->
  exists st', relate_row rel i st = Ret st' /\ grown sp1 st'.
Proof.
  intros sp1 i st C Hi G. unfold relate_row. rewrite (fo_para _ _ _ (proj2 G)).
  destruct (same_paras_fields sp1 i (co_paras _ _ C)) as [_ [_ [_ [-> _]]]].
  destruct (failed (para_data sp0 i)) eqn:Hf; [eauto|].
  replace (Para_num (snd st)) with N
    by (rewrite (proj1 (fo_num _ _ _ (proj2 G))); symmetry; apply (co_paras _ _ C)).
  unfold for_res. apply fold_res_total; auto.
  intros j s Hj Hs. apply in_zrange in Hj. now apply relate_ok.
Qed.

(** The initial managers. *)
Lemma init_collected : forall sp, Para_num sp = N -> Bnst_num sp = Bnst_num sp0 ->
  (forall i, exists v, para_data sp i = set_p_manager_ptr v (para_data sp0 i)) ->
  collected 0 (init_para_manager sp).
Proof.
  intros sp HN HB HP.
  assert (G : forall n, 0 <= n <= N ->
    let sp' := for_up 0 n (fun i sp => upd_para i (set_p_manager_ptr None) (upd_manager i init_manager sp))
                 (set_Para_M_num 0 sp) in
    same_paras sp' /\ Para_M_num sp' = 0 /\
    (forall j, 0 <= j < n -> p_manager_ptr (para_data sp' j) = None) /\
    (forall m, 0 <= m < n -> pm_para_num (para_manager sp' m) = 0 /\ pm_part_num (para_manager sp' m) = 0 /\
       pm_parent (para_manager sp' m) = None /\ pm_child_num (para_manager sp' m) = 0)).
  { intros n Hn. refine (for_up_inv (fun n sp' => same_paras sp' /\ Para_M_num sp' = 0 /\
      (forall j, 0 <= j < n -> p_manager_ptr (para_data sp' j) = None) /\
      (forall m, 0 <= m < n -> pm_para_num (para_manager sp' m) = 0 /\ pm_part_num (para_manager sp' m) = 0 /\
       pm_parent (para_manager sp' m) = None /\ pm_child_num (para_manager sp' m) = 0)) 0 n _ _ ltac:(lia) _ _).
    - split; [now split|]. split; [reflexivity|]. split; intros; lia.
    - intros i sp' Hi [I1 [I2 [I3 I4]]]. split; [now apply same_paras_ptr|]. split; [exact I2|]. split.
      + intros j Hj. rewrite upd_para_at. destruct (Z.eqb_spec j i) as [->|]; [reflexivity|]. apply I3. lia.
      + intros m Hm. cbn [para_manager upd_para set_para_data]. rewrite upd_manager_at.
        destruct (Z.eqb_spec m i) as [->|]; [repeat split|]. apply I4. lia. }
  assert (B : Bnst_num (init_para_manager sp) = Bnst_num sp).
  { unfold init_para_manager, for_up. now apply fold_left_inv. }
  unfold init_para_manager in *. rewrite HN in *. destruct (G N ltac:(lia)) as [G1 [G2 [G3 G4]]].
  split; auto; try lia.
  - intros j m Hj E. rewrite G3 in E by lia. discriminate.
  - intros m Hm. destruct (G4 m); [lia | tauto].
  - intros m Hm. destruct (G4 m); [lia | tauto].
Qed.

Lemma build_managers_ok : forall sp, collected 0 sp ->
  exists sp1 sp', build_managers rel sp = Ret (true, sp') /\ collected N sp1 /\ forest_but sp1 None sp'.
Proof.
  intros sp C. unfold build_managers. replace (Para_num sp) with N by (symmetry; apply C).
  assert (H : exists sp1, for_up 0 N (collect_brothers rel) (true, sp) = (true, sp1) /\ collected N sp1).
  { refine (for_up_inv (fun i st => exists sp1, st = (true, sp1) /\ collected i sp1) 0 N _ _ ltac:(lia) _ _).
    - now exists sp.
    - intros i st Hi [sp1 [-> C1]]. destruct (collect_ok i sp1 C1 Hi) as [sp2 [-> C2]]. now exists sp2. }
  destruct H as [sp1 [-> C1]]. cbn [negb]. replace (Para_num sp1) with N by (symmetry; apply C1).
  destruct (fold_res_total (grown sp1) (relate_row rel) (zrange 0 N) (true, sp1)) as [[ok sp'] [E [G1 G2]]].
  - intros i s Hi Hs. apply in_zrange in Hi. now apply relate_row_ok.
  - split; [reflexivity | now apply collected_forest].
  - cbn [fst] in G1. subst ok. exists sp1, sp'. auto.
Qed.
End Managers.

(** ** The relations and the reaches *)

(** [j] is on the right of [i] and above it: directly, or a brother of a part of it. *)
Definition upward (sp : SENTENCE_DATA) (i j : Z) : Prop :=
  before sp i j \/ exists x, i < x < j /\ failed (para_data sp x) = false /\
    p_jend_pos (para_data sp i) = p_key_pos (para_data sp x) /\ p_key_pos (para_data sp i) < p_start (para_data sp x) /\ before sp x j.

Lemma location_upward : forall a1 a2 a3 b1 b2 b3 st, In (location a1 a2 a3 b1 b2 b3 st) [REL_BIT; REL_PRE; REL_REV; REL_IN1] ->
  b1 <= a3 <= b2 /\ (a3 < b2 \/ b1 <= a2).
Proof.
  intros a1 a2 a3 b1 b2 b3 st. unfold location. destruct (Z.ltb_spec a3 b1); [cbn; intuition discriminate|].
  places a1 a2 a3 b1 b2 b3; destruct st; cbn; intuition (discriminate || lia).
Qed.

Lemma location_prefix : forall a1 a2 a3 b1 b2 b3 st, location a1 a2 a3 b1 b2 b3 st = REL_PRE -> b1 = a2 + 1 /\ b1 <= a3 < b2.
Proof.
  intros a1 a2 a3 b1 b2 b3 st. unfold location. destruct (Z.ltb_spec a3 b1); [discriminate|].
  places a1 a2 a3 b1 b2 b3; destruct st; cbn; intros E; discriminate E || lia.
Qed.

Lemma location_inner : forall a1 a2 a3 b1 b2 b3 st, let l := location a1 a2 a3 b1 b2 b3 st in
  (l = REL_PAR -> a3 = b2 /\ b1 = a2 + 1) /\ (l = REL_POS -> a3 = b2 /\ a2 + 1 < b1) /\ (l = REL_IN2 -> b2 < a3 /\ a2 < b1).
Proof.
  intros a1 a2 a3 b1 b2 b3 st. cbv zeta. unfold location. destruct (Z.ltb_spec a3 b1); [repeat split; discriminate|].
  places a1 a2 a3 b1 b2 b3; destruct st; cbn; repeat split; (discriminate || lia).
Qed.

Lemma pos_to_par_at : forall sp rel i j, 0 <= i < Para_num sp -> 0 <= j < Para_num sp -> live sp i j ->
  pos_to_par sp rel i j = if (rel i j =? REL_POS) && para_brother_p sp i j then REL_PAR else rel i j.
Proof.
  intros sp rel i j Hi Hj [Ai Aj]. set (v := if _ : bool then _ else _). unfold pos_to_par.
  assert (Row : forall x r, (x = i -> r i j = rel i j) -> (x <> i -> True) ->
    for_up 0 (Para_num sp) (fun y rel0 => if negb (failed (para_data sp y)) && (rel0 x y =? REL_POS) && para_brother_p sp x y then mset rel0 x y REL_PAR else rel0) r i j =
    if x =? i then v else r i j).
  { intros x r Hr _. destruct (Z.eqb_spec x i) as [->|Ne].
    - specialize (Hr eq_refl).
      transitivity (if j <? Para_num sp then v else rel i j); [|now replace (j <? Para_num sp) with true by lia].
      apply (for_up_inv (fun h (r' : matrix Z) => r' i j = if j <? h then v else rel i j)); [lia | |].
      + replace (j <? 0) with false by lia. exact Hr.
      + intros y r' Hy E. destruct (Z.eq_dec y j) as [->|Nj].
        * replace (j <? j) with false in E by lia. replace (j <? j + 1) with true by lia. rewrite Aj, E. unfold v. cbn [negb andb].
          destruct (_ && _); [apply mset_eq | exact E].
        * replace (j <? y + 1) with (j <? y) by lia. destruct (_ && _ && _); [rewrite mset_ne by (right; auto)|]; exact E.
    - clear Hr. unfold for_up. apply (fold_left_inv _ (fun r' : matrix Z => r' i j = r i j)); [|reflexivity].
      intros y r' _ E. destruct (_ && _ && _); [rewrite mset_ne by (left; auto)|]; exact E. }
  assert (G : (fun h (r : matrix Z) => r i j = if i <? h then v else rel i j) (Para_num sp) (for_up 0 (Para_num sp) (fun x rel0 =>
      if failed (para_data sp x) then rel0
      else for_up 0 (Para_num sp) (fun y rel1 => if negb (failed (para_data sp y)) && (rel1 x y =? REL_POS) && para_brother_p sp x y then mset rel1 x y REL_PAR else rel1) rel0) rel)).
  { apply (for_up_inv (fun h (r : matrix Z) => r i j = if i <? h then v else rel i j)); [lia | |].
    - replace (i <? 0) with false by lia. reflexivity.
    - intros x r Hx E. destruct (Z.eq_dec x i) as [->|Ne].
      + replace (i <? i) with false in E by lia. replace (i <? i + 1) with true by lia. rewrite Ai, Row by auto. now rewrite Z.eqb_refl.
      + replace (i <? x + 1) with (i <? x) by lia. destruct (failed (para_data sp x)); [exact E|]. rewrite Row by (auto; lia). destruct (Z.eqb_spec x i); [lia | exact E]. }
  cbv beta in G. revert G. now replace (i <? Para_num sp) with true by lia.
Qed.

Lemma between_to_rev_at : forall sp rel i j, let r := between_to_rev sp rel in
  r i j = rel i j \/ (r i j = REL_REV /\ exists x, i < x < j /\ failed (para_data sp x) = false /\
    (0 <= i /\ j < Para_num sp /\ live sp i j) /\ rel i x = REL_POS /\ rel x j = REL_PRE).
Proof.
  intros sp rel. set (P (r : matrix Z) := forall i j, r i j = rel i j \/ (r i j = REL_REV /\ exists x, i < x < j /\ failed (para_data sp x) = false /\
    (0 <= i /\ j < Para_num sp /\ live sp i j) /\ rel i x = REL_POS /\ rel x j = REL_PRE)).
  enough (G : P (between_to_rev sp rel)) by (intros i j; apply G). unfold between_to_rev, for_up. apply fold_left_inv; [|now left].
  intros x r Hx Hr. apply in_zrange in Hx. destruct (failed (para_data sp x)) eqn:Ax; cbn [negb]; [exact Hr|]. apply fold_left_inv; [|exact Hr].
  intros j r1 Hj H1. apply in_zrange in Hj. destruct (failed (para_data sp j)) eqn:Aj; cbn [negb andb]; [exact H1|].
  destruct (Z.eqb_spec (r1 j x) REL_POS) as [E1|]; [|exact H1]. apply fold_left_inv; [|exact H1].
  intros k r2 Hk H2. apply in_zrange in Hk. destruct (failed (para_data sp k)) eqn:Ak; cbn [negb andb]; [exact H2|].
  destruct (Z.eqb_spec (r2 x k) REL_PRE) as [E2|]; [|exact H2]. intros a b. unfold mset. destruct ((a =? j) && (b =? k)) eqn:E; [|apply H2].
  assert (a = j /\ b = k) as [-> ->] by blia. right. split; [reflexivity|]. exists x. split; [lia|]. split; [exact Ax|]. split; [repeat split; auto; lia|].
  split; [destruct (H1 j x) as [H|[H _]] | destruct (H2 x k) as [H|[H _]]]; first [congruence | rewrite H in *; discriminate].
Qed.

(** What the final relations say of the scopes. *)
Lemma final_relations : forall sp sp1 rel0 rel, locate sp (upper_pairs (Para_num sp)) rel0 = (rel, None) -> same_paras sp sp1 ->
  let rel2 := between_to_rev sp1 (pos_to_par sp1 rel) in
  forall i j, 0 <= i < j -> j < Para_num sp -> live sp i j ->
  (rel2 i j = REL_PAR -> brotherly sp i j) /\
  (In (rel2 i j) [REL_BIT; REL_PRE; REL_REV; REL_IN1] -> upward sp i j) /\
  (In (rel2 i j) [REL_POS; REL_IN2] -> in_scope sp i j /\ (p_key_pos (para_data sp j) < p_jend_pos (para_data sp i) \/ ~ brotherly sp i j)).
Proof.
  intros sp sp1 rel0 rel E S rel2 i j Hi Hj L. pose proof (proj1 S) as SN.
  assert (V : forall a b, 0 <= a < b -> b < Para_num sp -> live sp a b -> rel a b = para_location sp a b).
  { intros a b Ha Hb Lab. destruct (locate_none _ _ _ _ E a b Lab) as [_ V]. apply V. left. apply in_upper_pairs. lia. }
  assert (LV : forall a b, live sp1 a b <-> live sp a b).
  { intros a b. unfold live. destruct (same_paras_fields sp sp1 a S) as (_ & _ & _ & -> & _). destruct (same_paras_fields sp sp1 b S) as (_ & _ & _ & -> & _). reflexivity. }
  assert (BP : para_brother_p sp1 i j = para_brother_p sp i j).
  { unfold para_brother_p. destruct (same_paras_fields sp sp1 i S) as (-> & -> & _). destruct (same_paras_fields sp sp1 j S) as (-> & _ & -> & _). reflexivity. }
  assert (PP : forall a b, 0 <= a < b -> b < Para_num sp -> live sp a b -> pos_to_par sp1 rel a b =
    if (para_location sp a b =? REL_POS) && para_brother_p sp1 a b then REL_PAR else para_location sp a b).
  { intros a b Ha Hb Lab. rewrite pos_to_par_at by (rewrite ?SN; try lia; now apply LV). now rewrite V. }
  destruct (between_to_rev_at sp1 (pos_to_par sp1 rel) i j) as [R|(R & x & Hx & Ax & _ & X1 & X2)]; fold rel2 in R.
  - rewrite R, PP, BP by auto. unfold para_location.
    pose proof (location_inner (p_start (para_data sp i)) (p_key_pos (para_data sp i)) (p_jend_pos (para_data sp i)) (p_start (para_data sp j))
      (p_key_pos (para_data sp j)) (p_jend_pos (para_data sp j)) (strong (para_data sp j))) as (I1 & I2 & I3).
    pose proof (location_upward (p_start (para_data sp i)) (p_key_pos (para_data sp i)) (p_jend_pos (para_data sp i)) (p_start (para_data sp j))
      (p_key_pos (para_data sp j)) (p_jend_pos (para_data sp j)) (strong (para_data sp j))) as U.
    set (l := location _ _ _ _ _ _ _) in *. destruct (Z.eqb_spec l REL_POS) as [LP|LP]; cbn [andb].
    + destruct (I2 LP) as [J1 J2]. destruct (para_brother_p sp i j) eqn:B; rewrite ?LP; (split; [|split]).
      * intros _. split; [exact J1|]. split; [lia | now right].
      * cbn. intuition discriminate.
      * cbn. intuition discriminate.
      * discriminate.
      * cbn. intuition discriminate.
      * intros _. split; [split; [lia | split; lia]|]. right. intros (_ & _ & [B3|B3]); [lia | congruence].
    + split; [|split].
      * intros H. destruct (I1 H) as [J1 J2]. split; [exact J1|]. split; [lia | now left].
      * intros H. left. now apply U.
      * intros [H|[H|[]]]; [congruence|]. destruct (I3 (eq_sym H)) as [J1 J2]. split; [split; [lia | split; lia] | now left].
  - assert (Lx : live sp i x /\ live sp x j).
    { destruct (same_paras_fields sp sp1 x S) as (_ & _ & _ & F & _). rewrite F in Ax. destruct L. repeat split; assumption. }
    destruct Lx as [L1 L2]. rewrite PP in X1, X2 by (auto; lia). rewrite R. split; [discriminate|]. split; [|cbn; intuition discriminate]. intros _. right.
    exists x. split; [exact Hx|]. split; [apply L1|].
    destruct (_ && _) in X1; [discriminate|]. destruct (_ && _) in X2; [discriminate|]. unfold para_location in X1, X2.
    apply location_inner in X1. apply location_prefix in X2. split; [apply X1|]. split; [lia|]. split; [lia | left; lia].
Qed.

(** The order of the managers: the reach of the first coordination, then its key. *)
Definition below (sp sp1 : SENTENCE_DATA) (c p : Z) : Prop :=
  let first m := pm_para_data_num (para_manager sp1 m) 0 in
  wide sp -> reach_end sp (first c) <= reach_end sp (first p) /\
    (reach_end sp (first c) = reach_end sp (first p) -> p_key_pos (para_data sp (first p)) < p_key_pos (para_data sp (first c))).

Section Below.
Context (sp : SENTENCE_DATA) (rel : matrix Z).
Local Abbreviation N := (Para_num sp).
Local Abbreviation key k := (p_key_pos (para_data sp k)).
Local Abbreviation jend k := (p_jend_pos (para_data sp k)).
Hypothesis keys_increase : forall i j, 0 <= i < j -> j < N -> key i < key j.
Hypothesis fitting : forall i j, 0 <= i < j -> j < N -> live sp i j ->
  fits (key i) (jend i) (p_start (para_data sp j)) (key j) (jend j).
Hypothesis relations : forall i j, 0 <= i < j -> j < N -> live sp i j ->
  (In (rel i j) [REL_BIT; REL_PRE; REL_REV; REL_IN1] -> upward sp i j) /\
  (In (rel i j) [REL_POS; REL_IN2] -> in_scope sp i j /\ (key j < jend i \/ ~ brotherly sp i j)).

Lemma chain_reach : forall r, wide sp -> manager_ok sp r -> forall k, 0 <= k < pm_para_num r ->
  reach_end sp (pm_para_data_num r 0) = reach_end sp (pm_para_data_num r k) /\ key (pm_para_data_num r 0) <= key (pm_para_data_num r k).
Proof.
  intros r W M k Hk. replace k with (Z.of_nat (Z.to_nat k)) in * by lia. revert Hk. generalize (Z.to_nat k) as n. clear k.
  induction n as [|n IH]; intros Hk; [change (Z.of_nat 0) with 0; split; [reflexivity | lia]|]. replace (Z.of_nat (S n)) with (Z.of_nat n + 1) in * by lia.
  destruct (IH ltac:(lia)) as [-> I]. pose proof (mo_order _ _ M (Z.of_nat n) ltac:(lia)) as O.
  destruct (mo_range _ _ M (Z.of_nat n) ltac:(lia)) as [R1 A1]. destruct (mo_range _ _ M (Z.of_nat n + 1) ltac:(lia)) as [R2 A2]. split.
  - apply reach_brother; auto; try lia. apply (mo_brothers _ _ M). lia.
  - pose proof (keys_increase _ _ (conj (proj1 R1) O) ltac:(lia)). lia.
Qed.

Lemma chain_inside : forall r j, wide sp -> manager_ok sp r -> 0 <= j < N -> failed (para_data sp j) = false -> forall k, 0 <= k < pm_para_num r ->
  in_scope sp j (pm_para_data_num r k) -> (key (pm_para_data_num r k) < jend j \/ ~ brotherly sp j (pm_para_data_num r k)) -> key j < key (pm_para_data_num r 0).
Proof.
  intros r j W M Hj Aj k Hk. replace k with (Z.of_nat (Z.to_nat k)) in * by lia. revert Hk. generalize (Z.to_nat k) as n. clear k.
  induction n as [|n IH]; intros Hk I S.
  - change (Z.of_nat 0) with 0 in *. apply keys_increase; [destruct I; lia|]. now apply (mo_range _ _ M).
  - replace (Z.of_nat (Datatypes.S n)) with (Z.of_nat n + 1) in * by lia. pose proof (mo_order _ _ M (Z.of_nat n) ltac:(lia)) as O.
    destruct (mo_range _ _ M (Z.of_nat n) ltac:(lia)) as [R1 A1]. destruct (mo_range _ _ M (Z.of_nat n + 1) ltac:(lia)) as [R2 A2].
    destruct (brother_inside sp keys_increase W (fun a b Ha Hb Aa Ab => fitting a b Ha Hb (conj Aa Ab)) j (pm_para_data_num r (Z.of_nat n))
      (pm_para_data_num r (Z.of_nat n + 1))) as [I' S']; auto; try lia.
    { apply (mo_brothers _ _ M). lia. }
    apply IH; auto. lia.
Qed.

Lemma related_below : forall sp1 i j c p, collected sp N sp1 -> 0 <= i < N -> 0 <= j < N -> live sp i j -> child_rel rel i j = true ->
  p_manager_ptr (para_data sp1 i) = Some c -> p_manager_ptr (para_data sp1 j) = Some p -> below sp sp1 c p.
Proof.
  intros sp1 i j c p C Hi Hj L R Ei Ej W. pose proof (fun a b Ha Hb Aa Ab => fitting a b Ha Hb (conj Aa Ab)) as F.
  destruct (co_ptr _ _ _ C i c Hi Ei) as (Hc & Ii & _). destruct (co_ptr _ _ _ C j p Hj Ej) as (Hp & Ij & _).
  destruct (co_ok _ _ _ C c Hc) as [Mc _]. destruct (co_ok _ _ _ C p Hp) as [Mp _].
  unfold paras in Ii, Ij. apply in_map_iff in Ii, Ij. destruct Ii as (a & Ea & Ha), Ij as (b & Eb & Hb). apply in_zrange in Ha, Hb.
  destruct (chain_reach _ W Mc a Ha) as [Rc Kc]. destruct (chain_reach _ W Mp b Hb) as [Rp Kp]. rewrite Ea in *. rewrite Eb in *. rewrite Rc, Rp.
  unfold child_rel in R. apply orb_true_iff in R. destruct L as [Ai Aj]. destruct R as [R|R].
  - assert (Hij : i < j) by blia. destruct (relations i j ltac:(lia) ltac:(lia) (conj Ai Aj)) as [U _].
    assert (B : reach_end sp i <= key j).
    { destruct U as [U|(x & Hx & Ax & X1 & X2 & U)]; [cbn; blia | |].
      - apply (reach_before sp keys_increase W F); auto; lia.
      - rewrite (reach_step sp) by lia. rewrite (next_unique sp keys_increase i x) by (auto; lia). apply (reach_before sp keys_increase W F); auto; lia. }
    pose proof (W j Hj Aj). pose proof (reach_jend sp W j Hj Aj). lia.
  - assert (Hij : j < i) by blia. destruct (relations j i ltac:(lia) ltac:(lia) (conj Aj Ai)) as [_ U]. destruct U as [U S]; [cbn; blia|].
    pose proof (reach_inside sp keys_increase W F j i ltac:(lia) ltac:(lia) Aj Ai U) as B. rewrite <- Ea in U, S.
    pose proof (chain_inside _ j W Mc Hj Aj a Ha U S). lia.
Qed.
End Below.


(** ** The revision of the scopes *)

(** Everything but the start of the first and the end of the last conjunct is kept. *)
Definition widened (r r' : PARA_MANAGER) : Prop :=
  pm_parent r' = pm_parent r /\ pm_child r' = pm_child r /\ pm_child_num r' = pm_child_num r /\
  pm_para_num r' = pm_para_num r /\ pm_para_data_num r' = pm_para_data_num r /\
  pm_part_num r' = pm_part_num r /\
  (forall k, k <> 0 -> pm_start r' k = pm_start r k) /\ pm_start r' 0 <= pm_start r 0 /\
  (forall k, k <> pm_part_num r - 1 -> pm_end r' k = pm_end r k) /\
  pm_end r (pm_part_num r - 1) <= pm_end r' (pm_part_num r - 1).

Record revised (sp sp' : SENTENCE_DATA) : Prop := {
  re_para : para_data sp' = para_data sp;
  re_bnst : Bnst_num sp' = Bnst_num sp;
  re_num : Para_num sp' = Para_num sp;
  re_count : Para_M_num sp' = Para_M_num sp;
  re_managers : forall m, widened (para_manager sp m) (para_manager sp' m)
}.

Lemma widened_refl : forall r, widened r r.
Proof. intros r. unfold widened. repeat split; lia. Qed.

Lemma widened_trans : forall a b c, widened a b -> widened b c -> widened a c.
Proof.
  unfold widened. intros a b c [A1 [A2 [A3 [A4 [A5 [A6 [A7 [A8 [A9 A10]]]]]]]]]
    [B1 [B2 [B3 [B4 [B5 [B6 [B7 [B8 [B9 B10]]]]]]]]]. rewrite A6 in *.
  repeat split; try congruence; try lia; intros k Hk; [rewrite B7, A7 | rewrite B9, A9]; auto.
Qed.

Lemma revised_refl : forall sp, revised sp sp.
Proof. intros sp. split; auto using widened_refl. Qed.

Lemma revised_trans : forall a b c, revised a b -> revised b c -> revised a c.
Proof.
  intros a b c [A1 A0 A2 A3 A4] [B1 B0 B2 B3 B4]. split; try congruence.
  intros m. eapply widened_trans; eauto.
Qed.

Lemma revised_manager : forall m u sp, (forall r, r = para_manager sp m -> widened r (u r)) ->
  revised sp (upd_manager m u sp).
Proof.
  intros m u sp H. split; auto. intros k. rewrite upd_manager_at.
  destruct (Z.eqb_spec k m) as [->|]; auto using widened_refl.
Qed.

Lemma revise_manager_widens : forall m sp, revised sp (revise_manager m sp).
Proof.
  intros m sp. unfold revise_manager.
  set (first := pm_start (para_manager sp (pm_child (para_manager sp m) 0)) 0).
  set (sp1 := if first <? pm_start (para_manager sp m) 0 then _ else sp).
  assert (H1 : revised sp sp1).
  { unfold sp1. destruct (Z.ltb_spec first (pm_start (para_manager sp m) 0)); [|apply revised_refl].
    apply revised_manager. intros r ->. unfold widened. cbn [pm_parent pm_child pm_child_num pm_para_num pm_para_data_num
      pm_part_num pm_start pm_end set_pm_start]. repeat split; try lia; [|rewrite aset_eq; lia].
    intros k Hk. now apply aset_ne. }
  apply revised_trans with sp1; [exact H1|]. clearbody sp1. clear H1.
  cbv zeta. set (e := pm_end (para_manager sp1 (pm_child (para_manager sp1 m) _)) _).
  destruct (Z.ltb_spec (pm_end (para_manager sp1 m) (pm_part_num (para_manager sp1 m) - 1)) e); [|apply revised_refl].
  apply revised_manager. intros r ->. unfold widened. cbn [pm_parent pm_child pm_child_num pm_para_num pm_para_data_num
      pm_part_num pm_start pm_end set_pm_end]. repeat split; try lia; [|rewrite aset_eq; lia].
  intros k Hk. now apply aset_ne.
Qed.

(** The children are managers, and their parent is the one they hang at. *)
Definition linked (sp : SENTENCE_DATA) : Prop :=
  forall p c, 0 <= p < Para_M_num sp -> In c (kids (para_manager sp p)) ->
    0 <= c < Para_M_num sp /\ pm_parent (para_manager sp c) = Some p.

Lemma revised_kids : forall sp sp' m, revised sp sp' -> kids (para_manager sp' m) = kids (para_manager sp m).
Proof.
  intros sp sp' m R. destruct (re_managers _ _ R m) as [_ [H1 [H2 _]]]. unfold kids. now rewrite H1, H2.
Qed.

Lemma revised_parent : forall sp sp' m, revised sp sp' ->
  pm_parent (para_manager sp' m) = pm_parent (para_manager sp m).
Proof. intros sp sp' m R. apply (re_managers _ _ R m). Qed.

Lemma revised_linked : forall sp sp', revised sp sp' -> linked sp -> linked sp'.
Proof.
  intros sp sp' R L p c Hp Hc. rewrite (revised_kids _ _ _ R) in Hc. rewrite (revised_parent _ _ _ R).
  rewrite (re_count _ _ R) in *. now apply L.
Qed.

(** The way from a manager up to a root. *)
Fixpoint up_chain (sp : SENTENCE_DATA) (l : list Z) : Prop :=
  match l with
  | [] => False
  | [x] => pm_parent (para_manager sp x) = None
  | x :: (y :: _) as l' => pm_parent (para_manager sp x) = Some y /\ up_chain sp l'
  end.

Lemma up_chain_cons : forall sp x y l, up_chain sp (x :: y :: l) <->
  pm_parent (para_manager sp x) = Some y /\ up_chain sp (y :: l).
Proof. reflexivity. Qed.

Lemma up_chain_det : forall sp l1 l2 x, up_chain sp (x :: l1) -> up_chain sp (x :: l2) -> l1 = l2.
Proof.
  intros sp. induction l1 as [|y l1 IH]; intros [|z l2] x H1 H2; auto.
  - cbn [up_chain] in H1. apply up_chain_cons in H2. destruct H2 as [H2 _]. congruence.
  - cbn [up_chain] in H2. apply up_chain_cons in H1. destruct H1 as [H1 _]. congruence.
  - apply up_chain_cons in H1, H2. destruct H1 as [E1 H1], H2 as [E2 H2].
    assert (y = z) by congruence. subst z. f_equal. now apply (IH l2 y).
Qed.

Lemma up_chain_suffix : forall sp l1 x l2, up_chain sp (l1 ++ x :: l2) -> up_chain sp (x :: l2).
Proof.
  intros sp. induction l1 as [|y l1 IH]; intros x l2 H; auto. apply IH. cbn [app] in H.
  destruct l1 as [|z l1]; cbn [app] in *; apply up_chain_cons in H; exact (proj2 H).
Qed.

Lemma up_chain_nodup : forall sp l, up_chain sp l -> NoDup l.
Proof.
  intros sp. induction l as [|x l IH]; intros H; [constructor|]. constructor.
  - intros Hin. apply in_split in Hin. destruct Hin as [l1 [l2 ->]].
    pose proof (up_chain_suffix sp (x :: l1) x l2 H) as H2. pose proof (up_chain_det _ _ _ _ H H2) as E.
    apply (f_equal (@List.length Z)) in E. rewrite length_app in E. cbn [List.length] in E. lia.
  - destruct l as [|y l]; [constructor|]. apply IH. apply up_chain_cons in H. apply H.
Qed.

Lemma up_chain_ext : forall sp sp' l, revised sp sp' -> up_chain sp l -> up_chain sp' l.
Proof.
  intros sp sp' l R. induction l as [|x l IH]; intros H; auto. destruct l as [|y l].
  - cbn [up_chain] in *. now rewrite (revised_parent _ _ _ R).
  - apply up_chain_cons in H. apply up_chain_cons. rewrite (revised_parent _ _ _ R). destruct H as [H1 H2]. split; [exact H1 | exact (IH H2)].
Qed.

(** A way up to a root is not longer than the number of managers. *)
Lemma up_chain_short : forall sp l, up_chain sp l -> Forall (fun x => 0 <= x < Para_M_num sp) l ->
  ~ Para_M_num sp < Z.of_nat (List.length l).
Proof.
  intros sp l HC HF Hlt. apply up_chain_nodup in HC as ND.
  assert (I : incl l (zrange 0 (Para_M_num sp))).
  { intros x Hx. rewrite Forall_forall in HF. apply in_zrange. auto. }
  apply NoDup_incl_length in I; auto. rewrite length_zrange in I.
  destruct l as [|m l]; [easy|]. pose proof (Forall_inv HF) as H0. cbv beta in H0. lia.
Qed.

(** From a root, the recursion of [para_revise_scope] is not deeper than the number of managers. *)
Lemma para_revise_scope_total : forall f m l sp, linked sp -> up_chain sp (m :: l) ->
  Forall (fun x => 0 <= x < Para_M_num sp) (m :: l) -> Para_M_num sp < Z.of_nat (f + List.length (m :: l)) ->
  exists sp', para_revise_scope f m sp = Ret sp' /\ revised sp sp'.
Proof.
  induction f as [|f IH]; intros m l sp HL HC HF Hf.
  - now elim (up_chain_short sp (m :: l)).
  - cbn [para_revise_scope]. destruct (pm_child_num (para_manager sp m) =? 0); [exists sp; auto using revised_refl|].
    unfold for_res.
    destruct (fold_res_total (revised sp)
      (fun i sp => para_revise_scope f (pm_child (para_manager sp m) i) sp)
      (zrange 0 (pm_child_num (para_manager sp m))) sp) as [sp1 [-> R]].
    + intros i s Hi R. set (c := pm_child (para_manager s m) i).
      assert (Hc : In c (kids (para_manager s m))).
      { rewrite (revised_kids _ _ _ R). unfold kids. apply in_map_iff. exists i. split; [|exact Hi].
        unfold c. destruct (re_managers _ _ R m) as [_ [-> _]]. reflexivity. }
      assert (HM : 0 <= m < Para_M_num s) by (rewrite (re_count _ _ R); now inv HF).
      destruct (revised_linked _ _ R HL m c HM Hc) as [Hr Hp].
      destruct (IH c (m :: l) s) as [s' [E R']].
      * now apply revised_linked with sp.
      * apply up_chain_cons. split; auto. now apply up_chain_ext with sp.
      * rewrite (re_count _ _ R) in *. now constructor.
      * rewrite (re_count _ _ R). cbn [List.length] in *. lia.
      * exists s'. split; auto. now apply revised_trans with s.
    + apply revised_refl.
    + exists (revise_manager m sp1). split; auto. apply revised_trans with sp1; auto. apply revise_manager_widens.
Qed.

Lemma revise_roots_total : forall sp, 0 <= Para_M_num sp -> linked sp ->
  exists sp', revise_roots sp = Ret sp' /\ revised sp sp'.
Proof.
  intros sp HM HL. unfold revise_roots, for_res. apply fold_res_total; [|apply revised_refl].
  intros m s Hm R. apply in_zrange in Hm.
  destruct (pm_parent (para_manager s m)) as [p|] eqn:E; [eauto|].
  destruct (para_revise_scope_total (S (Z.to_nat (Para_M_num s))) m [] s) as [s' [E' R']].
  - now apply revised_linked with sp.
  - exact E.
  - constructor; auto. now rewrite (re_count _ _ R).
  - cbn [List.length]. lia.
  - exists s'. split; auto. now apply revised_trans with s.
Qed.

(** The revision keeps the conjuncts inside the sentence. *)
Definition inside (n : Z) (sp : SENTENCE_DATA) : Prop := forall m, 0 <= m < Para_M_num sp ->
  0 <= pm_start (para_manager sp m) 0 /\ pm_end (para_manager sp m) (pm_part_num (para_manager sp m) - 1) < n.

Lemma revise_manager_inside : forall n m sp, linked sp -> 0 <= m < Para_M_num sp ->
  0 < pm_child_num (para_manager sp m) -> inside n sp -> inside n (revise_manager m sp).
Proof.
  intros n m sp HL Hm Hc HI. unfold revise_manager.
  assert (K : forall i, 0 <= i < pm_child_num (para_manager sp m) ->
    0 <= pm_child (para_manager sp m) i < Para_M_num sp).
  { intros i Hi. apply (HL m); auto. unfold kids. apply in_map_iff. exists i. split; auto. now apply in_zrange. }
  set (first := pm_start (para_manager sp (pm_child (para_manager sp m) 0)) 0).
  set (sp1 := if first <? pm_start (para_manager sp m) 0 then _ else sp).
  assert (H1 : inside n sp1 /\ Para_M_num sp1 = Para_M_num sp /\
    pm_child (para_manager sp1 m) = pm_child (para_manager sp m) /\
    pm_child_num (para_manager sp1 m) = pm_child_num (para_manager sp m)).
  { unfold sp1. destruct (first <? _); [|auto]. split; [|split; [reflexivity|]].
    - intros x Hx. rewrite upd_manager_at. destruct (Z.eqb_spec x m) as [->|]; [|now apply HI].
      cbn [pm_start pm_end pm_part_num set_pm_start]. rewrite aset_eq. split; [|now apply HI].
      apply HI, K. lia.
    - rewrite upd_manager_at, Z.eqb_refl. auto. }
  clearbody sp1. destruct H1 as [H1 [H2 [H3 H4]]]. cbv zeta. rewrite H3, H4.
  set (c := pm_child (para_manager sp m) (pm_child_num (para_manager sp m) - 1)).
  assert (Hcr : 0 <= c < Para_M_num sp1) by (rewrite H2; apply K; lia). clearbody c.
  destruct (_ <? _); [|exact H1]. intros x Hx. rewrite upd_manager_at.
  change (Para_M_num (upd_manager m _ sp1)) with (Para_M_num sp1) in Hx.
  destruct (Z.eqb_spec x m) as [->|]; [|now apply H1]. cbn [pm_start pm_end pm_part_num set_pm_end].
  rewrite aset_eq. split; [now apply H1 | now apply H1].
Qed.

Lemma para_revise_scope_inside : forall n f m sp sp', linked sp -> 0 <= m < Para_M_num sp -> inside n sp ->
  (forall x, 0 <= x < Para_M_num sp -> 0 <= pm_child_num (para_manager sp x)) -> para_revise_scope f m sp = Ret sp' ->
  inside n sp' /\ revised sp sp'.
Proof.
  intros n. induction f as [|f IH]; intros m sp sp' HL Hm HI HC E; cbn [para_revise_scope] in E; [discriminate|].
  destruct (Z.eqb_spec (pm_child_num (para_manager sp m)) 0) as [|Hne]; [injection E as <-; auto using revised_refl|].
  unfold for_res in E. destruct (fold_res _ _ sp) as [sp1|] eqn:EF; [|discriminate]. injection E as <-.
  assert (H1 : inside n sp1 /\ revised sp sp1).
  { revert EF. apply (fold_res_inv (fun s => inside n s /\ revised sp s)); [|auto using revised_refl].
    intros i s s' Hi [S1 S2] E'. apply in_zrange in Hi. pose proof (revised_linked _ _ S2 HL) as L'.
    assert (Hcm : 0 <= pm_child (para_manager s m) i < Para_M_num s).
    { apply (L' m); [now rewrite (re_count _ _ S2)|]. rewrite (revised_kids _ _ _ S2). unfold kids. apply in_map_iff.
      exists i. split; [|now apply in_zrange]. destruct (re_managers _ _ S2 m) as [_ [-> _]]. reflexivity. }
    destruct (IH _ s s' L' Hcm S1) as [G1 G2]; auto.
    - intros x Hx. rewrite (re_count _ _ S2) in Hx. destruct (re_managers _ _ S2 x) as [_ [_ [-> _]]]. auto.
    - split; [exact G1 | now apply revised_trans with s]. }
  destruct H1 as [H1 R]. split; [|apply revised_trans with sp1; auto; apply revise_manager_widens].
  apply revise_manager_inside; auto; [now apply revised_linked with sp | now rewrite (re_count _ _ R)|].
  destruct (re_managers _ _ R m) as [_ [_ [-> _]]]. specialize (HC m Hm). lia.
Qed.

Lemma revise_roots_inside : forall n sp sp', linked sp -> inside n sp ->
  (forall x, 0 <= x < Para_M_num sp -> 0 <= pm_child_num (para_manager sp x)) -> revise_roots sp = Ret sp' -> inside n sp'.
Proof.
  intros n sp sp' HL HI HC E. unfold revise_roots, for_res in E.
  assert (G : inside n sp' /\ revised sp sp'); [|apply G].
  revert E. apply (fold_res_inv (fun s => inside n s /\ revised sp s)); [|auto using revised_refl].
  intros m s s' Hm [S1 S2] E. apply in_zrange in Hm.
  destruct (pm_parent (para_manager s m)); [injection E as <-; auto|].
  apply (para_revise_scope_inside n) in E; auto.
  - destruct E as [E1 E2]. split; auto. now apply revised_trans with s.
  - now apply revised_linked with sp.
  - now rewrite (re_count _ _ S2).
  - intros x Hx. rewrite (re_count _ _ S2) in Hx. destruct (re_managers _ _ S2 x) as [_ [_ [-> _]]]. auto.
Qed.

(** ** The whole phase *)

(** The keys are numbered in their order ([check_para_key_numbering]), and there are
    fewer than PARA_PART_MAX. *)
Definition numbered (sp : SENTENCE_DATA) : Prop :=
  0 <= Para_num sp < PARA_PART_MAX /\
  forall i j, 0 <= i < j -> j < Para_num sp -> p_key_pos (para_data sp i) < p_key_pos (para_data sp j).

(** What [detect_para_relation] has done to the managers when it returns TRUE. *)
Definition finished (sp sp' : SENTENCE_DATA) : Prop := exists sp1 sp2 sp3,
  collected sp (Para_num sp) sp1 /\ forest_but (below sp) sp1 None sp2 /\ revise_roots sp2 = Ret sp3 /\ revised sp2 sp3 /\
  para_data sp' = para_data sp3 /\ (Bnst_num sp' = Bnst_num sp3 /\ Para_num sp' = Para_num sp3) /\ Para_M_num sp' = Para_M_num sp3 /\
  forall m, exists v, para_manager sp' m = set_pm_status v (para_manager sp3 m).

Lemma mark_strong_managers : forall n sp,
  let sp' := for_up 0 n mark_strong sp in
  para_data sp' = para_data sp /\ (Bnst_num sp' = Bnst_num sp /\ Para_num sp' = Para_num sp) /\ Para_M_num sp' = Para_M_num sp /\
  forall m, exists v, para_manager sp' m = set_pm_status v (para_manager sp m).
Proof.
  intros n sp. cbv zeta. unfold for_up. apply fold_left_inv.
  - intros i s _ [H1 [H0 [H2 H3]]]. split; [exact H1|]. split; [exact H0|]. split; [exact H2|]. intros m. unfold mark_strong.
    rewrite upd_manager_at. destruct (Z.eqb_spec m i) as [->|]; auto.
    destruct (H3 i) as [v ->]. eexists. reflexivity.
  - do 3 (split; auto). intros m. exists (pm_status (para_manager sp m)). now destruct (para_manager sp m).
Qed.

Lemma conjuncts_to_features_managers : forall sp buf,
  let sp' := fst (conjuncts_to_features sp buf) in
  para_data sp' = para_data sp /\ (Bnst_num sp' = Bnst_num sp /\ Para_num sp' = Para_num sp) /\ Para_M_num sp' = Para_M_num sp /\
  para_manager sp' = para_manager sp.
Proof.
  intros sp buf. cbv zeta. unfold conjuncts_to_features, for_up. apply (fold_left_inv _ (fun st =>
    para_data (fst st) = para_data sp /\ (Bnst_num (fst st) = Bnst_num sp /\ Para_num (fst st) = Para_num sp) /\ Para_M_num (fst st) = Para_M_num sp /\
    para_manager (fst st) = para_manager sp));
    auto.
  intros i [s b] _ H. cbv zeta. apply (fold_left_inv _ (fun st =>
    para_data (fst st) = para_data sp /\ (Bnst_num (fst st) = Bnst_num sp /\ Para_num (fst st) = Para_num sp) /\ Para_M_num (fst st) = Para_M_num sp /\
    para_manager (fst st) = para_manager sp));
    auto.
  intros j [s1 b1] _ H1. unfold assign_conjunct. apply (fold_left_inv _ (fun st =>
    para_data (fst st) = para_data sp /\ (Bnst_num (fst st) = Bnst_num sp /\ Para_num (fst st) = Para_num sp) /\ Para_M_num (fst st) = Para_M_num sp /\
    para_manager (fst st) = para_manager sp));
    auto.
  intros f [s2 b2] _ H2. destruct (assign_cfeature _ _ _ _) as [g b3]. exact H2.
Qed.

Lemma detect_cases : forall sp rel restrict rev buf, numbered sp ->
  (exists i j st', In (i, j) (upper_pairs (Para_num sp)) /\ live sp i j /\ para_location sp i j = REL_BAD /\
     detect_para_relation (mkRS sp rel restrict rev buf) = Ret (false, st')) \/
  (exists st', (forall i j, 0 <= i < j -> j < Para_num sp -> live sp i j -> para_location sp i j <> REL_BAD) /\
     detect_para_relation (mkRS sp rel restrict rev buf) = Ret (true, st') /\ finished sp (rs_sp st')).
Proof.
  intros sp rel restrict rev buf [HN HK]. unfold detect_para_relation.
  destruct (locate sp (upper_pairs (Para_num sp)) rel) as [rel1 [[i j]|]] eqn:E.
  - left. destruct (locate_some _ _ _ _ _ _ E) as [H1 [H2 H3]].
    destruct (revise_para_rel sp i j restrict) as [m n]. eexists i, j, _. eauto.
  - right. set (rel2 := between_to_rev _ _).
    assert (C0 : collected sp 0 (init_para_manager sp)).
    { apply init_collected; auto. intros i. exists (p_manager_ptr (para_data sp i)). now destruct (para_data sp i). }
    assert (FR : forall i j, 0 <= i < j -> j < Para_num sp -> live sp i j -> _) by exact (final_relations sp _ rel rel1 E (co_paras _ _ _ C0)).
    assert (FB : forall i j, 0 <= i < j -> j < Para_num sp -> live sp i j -> para_location sp i j <> REL_BAD).
    { intros i j Hi Hj L. apply (locate_none _ _ _ _ E i j L). apply in_upper_pairs. lia. }
    assert (HF : forall i j, 0 <= i < j -> j < Para_num sp -> live sp i j -> fits (p_key_pos (para_data sp i)) (p_jend_pos (para_data sp i))
      (p_start (para_data sp j)) (p_key_pos (para_data sp j)) (p_jend_pos (para_data sp j))).
    { intros i j Hi Hj L. pose proof (FB i j Hi Hj L) as B. rewrite para_location_bad in B. unfold fits in *. lia. }
    destruct (build_managers_ok sp rel2 HK HN (fun i j Hi Hj L => proj1 (FR i j Hi Hj L)) (below sp)
      (related_below sp rel2 HK HF (fun i j Hi Hj L => proj2 (FR i j Hi Hj L))) _ C0) as [sp1 [sp2 [-> [C1 F2]]]]. cbn [negb].
    pose proof (co_count _ _ _ C1) as HM. pose proof (proj2 (fo_num _ _ _ _ F2)) as HM2.
    destruct (revise_roots_total sp2) as [sp3 [ER R3]]; [lia | |].
    { intros p c Hp Hc. rewrite HM2 in *. now apply (fo_kids _ _ _ _ F2) in Hc; auto. }
    rewrite ER.
    destruct (mark_strong_managers (Para_M_num sp3) sp3) as [M1 [M0 [M2 M3]]].
    set (sp4 := for_up 0 (Para_M_num sp3) mark_strong sp3) in *. clearbody sp4.
    destruct (conjuncts_to_features_managers sp4 buf) as [N1 [N0 [N2 N3]]].
    destruct (conjuncts_to_features sp4 buf) as [sp5 buf5]. cbn [fst] in *.
    eexists. split; [|split; [reflexivity|]].
    + intros i j Hi Hj L. apply (locate_none _ _ _ _ E i j L). apply in_upper_pairs. lia.
    + exists sp1, sp2, sp3. cbn [rs_sp]. split; [exact C1|]. split; [exact F2|]. split; [exact ER|]. split; [exact R3|].
      split; [congruence|]. split; [split; destruct M0, N0; congruence|]. split; [congruence|].
      intros m. rewrite N3. apply M3.
Qed.

(** After a failure the sentence is as before, and the coordination to revise is one of its. *)
Lemma detect_fails : forall sp rel restrict rev buf st', numbered sp ->
  detect_para_relation (mkRS sp rel restrict rev buf) = Ret (false, st') ->
  rs_sp st' = sp /\ 0 <= Revised_para_num st' < Para_num sp.
Proof.
  intros sp rel restrict rev buf st' HN E.
  destruct (detect_cases sp rel restrict rev buf HN) as [[i [j [st1 [I [L [B _]]]]]]|[st1 [_ [E1 _]]]];
    [|rewrite E1 in E; discriminate].
  unfold detect_para_relation in E. destruct (locate sp (upper_pairs (Para_num sp)) rel) as [rel1 [[x y]|]] eqn:EL.
  - destruct (locate_some _ _ _ _ _ _ EL) as [H _]. apply in_upper_pairs in H.
    unfold revise_para_rel in E. injection E as <-. cbn. split; [reflexivity|].
    destruct (choose_revision _ _); lia.
  - now elim (proj1 (locate_none _ _ _ _ EL i j L) I).
Qed.

(** The coordinations themselves are not changed: only their pointers to managers. *)
Lemma finished_paras : forall sp sp', finished sp sp' -> Para_num sp' = Para_num sp /\ Bnst_num sp' = Bnst_num sp /\
  forall i, exists v, para_data sp' i = set_p_manager_ptr v (para_data sp i).
Proof.
  intros sp sp' [sp1 [sp2 [sp3 [C [F [_ [R [P1 [[P0 P0'] _]]]]]]]]].
  destruct (co_paras _ _ _ C) as [HN HP]. pose proof (fo_num _ _ _ _ F) as [HF _].
  rewrite P0', P0, (re_num _ _ R), (re_bnst _ _ R), HF, HN, (fo_bnst _ _ _ _ F), P1, (re_para _ _ R), (fo_para _ _ _ _ F).
  split; [reflexivity|]. split; [apply C|exact HP].
Qed.

(** detect_para_relation returns, and it returns FALSE exactly when two coordinations
    are incompatible: the recursion on the forest of managers ends and no array overflows. *)
Theorem detect_para_relation_total : forall st, numbered (rs_sp st) ->
  exists b st', detect_para_relation st = Ret (b, st') /\
  (b = false <-> exists i j, (0 <= i < j /\ j < Para_num (rs_sp st)) /\ live (rs_sp st) i j /\
                   para_location (rs_sp st) i j = REL_BAD).
Proof.
  intros [sp rel restrict rev buf] H. cbn [rs_sp] in *.
  destruct (detect_cases sp rel restrict rev buf H) as [[i [j [st' [H1 [H2 [H3 ->]]]]]]|[st' [H1 [-> _]]]].
  - exists false, st'. split; auto. split; auto. intros _. exists i, j. apply in_upper_pairs in H1. auto.
  - exists true, st'. split; auto. split; [discriminate|]. intros [i [j [[Hi Hj] [L B]]]]. now elim (H1 i j).
Qed.

(** The scopes lie below [n], the length of the sentence or of the tables. *)
Definition scoped (n : Z) (sp : SENTENCE_DATA) : Prop := forall i, 0 <= i < Para_num sp -> failed (para_data sp i) = false ->
  let p := para_data sp i in 0 <= p_start p <= p_key_pos p /\ p_key_pos p < p_jend_pos p < n.

(** The conjuncts lie below [n]. *)
Definition parts_inside (n : Z) (sp : SENTENCE_DATA) : Prop := forall m, 0 <= m < Para_M_num sp ->
  let r := para_manager sp m in
  1 <= pm_para_num r /\ pm_part_num r = pm_para_num r + 1 /\
  (forall k, 0 <= k < pm_part_num r -> 0 <= pm_start r k <= pm_end r k /\ pm_end r k < n) /\
  (forall k, 0 <= k < pm_para_num r -> p_key_pos (para_data sp (pm_para_data_num r k)) = pm_end r k).

(** The conjuncts before their revision. *)
Lemma collected_inside : forall n sp sp1, numbered sp -> scoped n sp -> collected sp (Para_num sp) sp1 ->
  forall m, 0 <= m < Para_M_num sp1 -> let r := para_manager sp1 m in
  1 <= pm_para_num r /\ pm_part_num r = pm_para_num r + 1 /\
  (forall k, 0 <= k < pm_part_num r -> 0 <= pm_start r k <= pm_end r k /\ pm_end r k < n) /\
  (forall k, 0 <= k < pm_para_num r -> p_key_pos (para_data sp (pm_para_data_num r k)) = pm_end r k).
Proof.
  intros n sp sp1 [_ HK] HS C m Hm r. destruct (co_ok _ _ _ C m Hm) as [O E]. fold r in O, E.
  assert (S : forall k, 0 <= k < pm_para_num r -> let p := para_data sp (pm_para_data_num r k) in
    0 <= p_start p <= p_key_pos p /\ p_key_pos p < p_jend_pos p < n).
  { intros k Hk. destruct (mo_range _ _ O k Hk). now apply HS. }
  cbv zeta in S. pose proof (mo_num _ _ O) as O1. pose proof (mo_parts _ _ O) as O2.
  unfold ends_at_scope, last_para in E.
  split; auto. split; auto. split; [|intros k Hk; symmetry; now apply (mo_ends _ _ O)]. intros k Hk.
  assert (Hs : 0 <= pm_start r k /\ (k < pm_para_num r -> pm_start r k <= p_key_pos (para_data sp (pm_para_data_num r k))) /\
    (k = pm_para_num r -> pm_start r k = p_key_pos (para_data sp (pm_para_data_num r (k - 1))) + 1)).
  { destruct (Z.eq_dec k 0) as [->|Hk0]; [rewrite (mo_first _ _ O); specialize (S 0 ltac:(lia)); lia|].
    pose proof (mo_starts _ _ O (k - 1) ltac:(lia)) as Hs. replace (k - 1 + 1) with k in Hs by lia. rewrite Hs.
    specialize (S (k - 1) ltac:(lia)). split; [lia|]. split; [|reflexivity]. intros Hlt.
    pose proof (mo_order _ _ O (k - 1) ltac:(lia)) as Ho. replace (k - 1 + 1) with k in Ho by lia.
    destruct (mo_range _ _ O (k - 1) ltac:(lia)) as [Hr1 _]. destruct (mo_range _ _ O k ltac:(lia)) as [Hr2 _].
    specialize (HK _ _ (conj (proj1 Hr1) Ho) (proj2 Hr2)). lia. }
  destruct Hs as [Hs1 [Hs2 Hs3]]. destruct (Z.eq_dec k (pm_para_num r)) as [->|Hne].
  - rewrite E. specialize (Hs3 eq_refl). specialize (S (pm_para_num r - 1) ltac:(lia)). lia.
  - rewrite (mo_ends _ _ O k) by lia. specialize (Hs2 ltac:(lia)). specialize (S k ltac:(lia)). lia.
Qed.

Lemma finished_inside : forall n sp sp', numbered sp -> scoped n sp -> finished sp sp' -> parts_inside n sp'.
Proof.
  intros n sp sp' HN HS [sp1 [sp2 [sp3 [C [F [ER [R [P1 [P0 [P2 P3]]]]]]]]]] m Hm r.
  assert (HM : Para_M_num sp2 = Para_M_num sp1) by apply F.
  assert (HM' : Para_M_num sp3 = Para_M_num sp2) by apply R.
  pose proof (collected_inside n sp sp1 HN HS C) as O. cbv zeta in O.
  assert (B : forall x, same_body (para_manager sp1 x) (para_manager sp2 x)) by apply F.
  assert (I : inside n sp3).
  { apply (revise_roots_inside n sp2 sp3); auto.
    - intros p c Hp Hc. rewrite HM in *. now apply (fo_kids _ _ _ _ F) in Hc; auto.
    - intros x Hx. rewrite HM in Hx. destruct (O x Hx) as [O1 [O2 [O3 _]]].
      destruct (B x) as [_ [_ [-> [-> ->]]]]. split; apply O3; lia.
    - intros x Hx. rewrite HM in Hx. now apply (fo_count _ _ _ _ F). }
  assert (Hm1 : 0 <= m < Para_M_num sp1) by congruence.
  destruct (I m ltac:(congruence)) as [I1 I2]. destruct (O m Hm1) as [O1 [O2 [O3 O4]]].
  destruct (B m) as [B1 [B2' [B3 [B4 B5]]]].
  destruct (re_managers _ _ R m) as [W1 [W2 [W3 [W4 [W5 [W6 [W7 [W8 [W9 W10]]]]]]]]].
  subst r. destruct (P3 m) as [v ->]. cbn [set_pm_status pm_part_num pm_para_num pm_para_data_num pm_start pm_end].
  rewrite P1, (re_para _ _ R), (fo_para _ _ _ _ F).
  rewrite W6, W4, W5, B3, B1, B2', B4, B5 in *. split; auto. split; auto. split.
  - intros k Hk. specialize (O3 k Hk).
    destruct (Z.eq_dec k 0) as [->|Hk0]; [rewrite W9 by lia; lia | rewrite W7 by auto].
    destruct (Z.eq_dec k (pm_part_num (para_manager sp1 m) - 1)) as [->|Hne]; [lia | rewrite W9 by auto; lia].
  - intros k Hk. rewrite W9 by lia. destruct (same_paras_fields sp sp1 (pm_para_data_num (para_manager sp1 m) k)
      (co_paras _ _ _ C)) as [-> _]. now apply O4.
Qed.

(** The coordinations of a manager are coordinations of the sentence. *)
Definition paras_inside (sp : SENTENCE_DATA) : Prop := forall m k, 0 <= m < Para_M_num sp ->
  0 <= k < pm_para_num (para_manager sp m) -> 0 <= pm_para_data_num (para_manager sp m) k < Para_num sp.

Lemma finished_numbers : forall sp sp', finished sp sp' -> paras_inside sp'.
Proof.
  intros sp sp' F m k Hm Hk. pose proof (finished_paras sp sp' F) as [-> _].
  destruct F as [sp1 [sp2 [sp3 [C [F [_ [R [_ [_ [P2 P3]]]]]]]]]].
  assert (HM : Para_M_num sp' = Para_M_num sp1) by (rewrite P2, (re_count _ _ R); apply F).
  destruct (co_ok _ _ _ C m ltac:(congruence)) as [O _]. destruct (fo_body _ _ _ _ F m) as [B1 [B2 _]].
  destruct (re_managers _ _ R m) as [W1 [W2 [W3 [W4 [W5 _]]]]]. destruct (P3 m) as [v E].
  rewrite E in *. cbn [set_pm_status pm_para_num pm_para_data_num] in *.
  rewrite W5, B2. apply (mo_range _ _ O k). congruence.
Qed.

Lemma finished_linked : forall sp sp', finished sp sp' -> linked sp' /\ 0 <= Para_M_num sp'.
Proof.
  intros sp sp' [sp1 [sp2 [sp3 [C [F [_ [R [_ [_ [P2 P3]]]]]]]]]].
  assert (HM : Para_M_num sp' = Para_M_num sp2) by (rewrite P2; apply R).
  assert (HM1 : Para_M_num sp2 = Para_M_num sp1) by apply F.
  split; [|rewrite HM, HM1; apply C]. intros p c Hp Hc. rewrite HM in *.
  assert (K : kids (para_manager sp' p) = kids (para_manager sp2 p)).
  { destruct (P3 p) as [v ->]. rewrite <- (revised_kids sp2 sp3 p R). reflexivity. }
  rewrite K, HM1 in *. apply (fo_kids _ _ _ _ F) in Hc; auto. destruct Hc as [_ [Hc Hp']]. split; auto.
  destruct (P3 c) as [v ->]. cbn [set_pm_status pm_parent]. now rewrite (revised_parent _ _ _ R).
Qed.

Lemma scoped_wide : forall n sp, scoped n sp -> wide sp.
Proof. intros n sp H i Hi A. destruct (H i Hi A). lia. Qed.

Lemma reach_scoped : forall n sp, scoped n sp -> forall i, 0 <= i < Para_num sp -> failed (para_data sp i) = false -> reach_end sp i < n.
Proof.
  intros n sp H. apply (from_right sp (fun i => failed (para_data sp i) = false -> reach_end sp i < n)). intros i Hi IH A. rewrite reach_step by exact Hi.
  destruct (next_inside sp i) as [j|] eqn:E; [|destruct (H i Hi A); lia]. apply next_some in E; [|lia]. apply IH; [lia | apply E].
Qed.

(** Parents that lower a number lead to a root. *)
Lemma climb : forall sp M (rank : Z -> Z), (forall c, 0 <= c < M -> 0 <= rank c) ->
  (forall c p, 0 <= c < M -> pm_parent (para_manager sp c) = Some p -> 0 <= p < M /\ rank p < rank c) ->
  forall c, 0 <= c < M -> exists l, up_chain sp (c :: l).
Proof.
  intros sp M rank Pos Dec. assert (G : forall n c, 0 <= c < M -> rank c <= Z.of_nat n -> exists l, up_chain sp (c :: l)).
  { induction n as [|n IH]; intros c Hc Hn; (destruct (pm_parent (para_manager sp c)) as [p|] eqn:E; [|now exists []]); destruct (Dec c p Hc E) as [Hp L].
    - pose proof (Pos p Hp). lia.
    - destruct (IH p Hp ltac:(lia)) as [l Hl]. exists (p :: l). now apply up_chain_cons. }
  intros c Hc. apply (G (Z.to_nat (rank c))); [exact Hc|]. specialize (Pos c Hc). lia.
Qed.

(** Every manager is below a root. *)
Lemma finished_forest : forall n sp sp', numbered sp -> scoped n sp -> finished sp sp' ->
  forall m, 0 <= m < Para_M_num sp' -> exists l, up_chain sp' (m :: l).
Proof.
  intros n sp sp' [HN HK] HS [sp1 [sp2 [sp3 [C [F [_ [R [_ [_ [P2 P3]]]]]]]]]].
  assert (HM : Para_M_num sp' = Para_M_num sp1) by (rewrite P2, (re_count _ _ R); apply F). rewrite HM.
  set (first m := pm_para_data_num (para_manager sp1 m) 0). set (key k := p_key_pos (para_data sp k)).
  assert (V : forall m, 0 <= m < Para_M_num sp1 -> reach_end sp (first m) < n /\ 0 <= key (first m) < n).
  { intros m Hm. destruct (co_ok _ _ _ C m Hm) as [O _]. destruct (mo_range _ _ O 0) as [R1 A1]; [pose proof (mo_num _ _ O); lia|].
    split; [now apply reach_scoped|]. unfold key, first. destruct (HS _ R1 A1). lia. }
  apply (climb sp' _ (fun m => (n - reach_end sp (first m)) * n + key (first m))).
  - intros c Hc. destruct (V c Hc). nia.
  - intros c p Hc E. destruct (P3 c) as [v Ev]. rewrite Ev in E. cbn [set_pm_status pm_parent] in E. rewrite (revised_parent _ _ _ R) in E.
    pose proof (fo_parent _ _ _ _ F c p Hc ltac:(discriminate) E) as Hp. split; [exact Hp|].
    destruct (fo_low _ _ _ _ F c p Hc ltac:(discriminate) E (scoped_wide _ _ HS)) as [L1 L2]. change (reach_end sp (first c) <= reach_end sp (first p)) in L1.
    destruct (V c Hc), (V p Hp). destruct (Z.eq_dec (reach_end sp (first c)) (reach_end sp (first p))) as [Q|Q].
    { assert (KL : key (first p) < key (first c)) by exact (L2 Q). rewrite Q. lia. }
    assert ((n - reach_end sp (first p)) * n <= (n - reach_end sp (first c) - 1) * n) by (apply Z.mul_le_mono_nonneg_r; lia). lia.
Qed.

(** What the managers are after a success. *)
Lemma detected_managers : forall st st', numbered (rs_sp st) ->
  detect_para_relation st = Ret (true, st') ->
  let sp := rs_sp st in
  let sp' := rs_sp st' in
  (forall i j, 0 <= i < j -> j < Para_num sp -> live sp i j -> para_location sp i j <> REL_BAD) /\
  (forall i, 0 <= i < Para_num sp -> failed (para_data sp i) = false ->
     exists m, p_manager_ptr (para_data sp' i) = Some m /\ 0 <= m < Para_M_num sp' /\
               In i (paras (para_manager sp' m))) /\
  (forall n, scoped n sp -> parts_inside n sp' /\ forall m, 0 <= m < Para_M_num sp' -> exists l, up_chain sp' (m :: l)) /\
  (forall m, 0 <= m < Para_M_num sp' ->
     let r := para_manager sp' m in
     2 <= pm_part_num r <= PARA_PART_MAX /\ pm_part_num r = pm_para_num r + 1 /\
     (forall k, 0 <= k < pm_para_num r ->
        pm_end r k = p_key_pos (para_data sp (pm_para_data_num r k)) /\ pm_start r (k + 1) = pm_end r k + 1) /\
     (forall k, 0 <= k < pm_para_num r - 1 -> pm_para_data_num r k < pm_para_data_num r (k + 1)) /\
     NoDup (kids r) /\
     (forall c, In c (kids r) <-> 0 <= c < Para_M_num sp' /\ pm_parent (para_manager sp' c) = Some m)).
Proof.
  intros [sp rel restrict rev buf] st' HN E sp0 sp'. cbn [rs_sp] in *. subst sp0.
  destruct (detect_cases sp rel restrict rev buf HN) as [[i [j [st1 [_ [_ [_ E1]]]]]]|[st1 [H1 [E1 F]]]];
    rewrite E1 in E; [discriminate|]. injection E as ->. fold sp' in F.
  split; [exact H1|]. pose proof (fun n HS => conj (finished_inside n sp sp' HN HS F) (finished_forest n sp sp' HN HS F)) as FI.
  destruct F as [sp1 [sp2 [sp3 [C [F [_ [R [P1 [_ [P2 P3]]]]]]]]]].
  destruct F as [F1 F0 F2 F3 F4 F5 F6 F7 F8]. destruct R as [R1 R0 R2 R3 R4].
  assert (HM : Para_M_num sp' = Para_M_num sp1) by (rewrite P2, R3; apply F2).
  assert (PP : forall m, paras (para_manager sp' m) = paras (para_manager sp1 m)).
  { intros m. destruct (P3 m) as [v ->]. unfold paras. cbn [set_pm_status pm_para_num pm_para_data_num].
    destruct (R4 m) as [_ [_ [_ [-> [-> _]]]]]. destruct (F3 m) as [-> [-> _]]. reflexivity. }
  split.
  - intros i Hi Hf. rewrite P1, R1, F1.
    destruct (p_manager_ptr (para_data sp1 i)) as [m|] eqn:EP; [|now elim (co_all _ _ _ C i)].
    destruct (co_ptr _ _ _ C i m Hi EP) as [D1 [D2 _]]. exists m. rewrite HM, PP. auto.
  - split; [exact FI|]. intros m Hm. rewrite HM in Hm.
    destruct (co_ok _ _ _ C m Hm) as [O _]. destruct (manager_size _ _ O) as [S1 S2].
    pose proof (mo_num _ _ O) as O1. pose proof (mo_parts _ _ O) as O2.
    pose proof (mo_ends _ _ O) as O3. pose proof (mo_starts _ _ O) as O4. pose proof (mo_order _ _ O) as O5.
    clear O. destruct (F3 m) as [B1 [B2 [B3 [B4 B5]]]].
    destruct (R4 m) as [W1 [W2 [W3 [W4 [W5 [W6 [W7 [_ [W9 _]]]]]]]]].
    assert (K : forall x, kids (para_manager sp' x) = kids (para_manager sp2 x) /\
      pm_parent (para_manager sp' x) = pm_parent (para_manager sp2 x)).
    { intros x. destruct (P3 x) as [v ->]. unfold kids. cbn [set_pm_status pm_child pm_child_num pm_parent].
      destruct (R4 x) as [-> [-> [-> _]]]. auto. }
    rewrite (proj1 (K m)). destruct (P3 m) as [v ->].
    cbn [set_pm_status pm_part_num pm_para_num pm_para_data_num pm_start pm_end].
    rewrite W4, W5, W6, B1, B2, B3 in *. destruct HN as [HN _].
    split; [unfold PARA_PART_MAX in *; lia|]. split; [exact O2|]. split; [|split; [exact O5|]].
    + intros k Hk. rewrite W9, W7, B4, B5, O3, O4 by lia. auto.
    + split; [apply F5; lia|]. intros c. rewrite F6 by lia. rewrite HM, (proj2 (K c)).
      split; [intros [_ H]; exact H | intros H; split; [discriminate | exact H]].
Qed.

(** C10: After a successful [detect_para_relation], for keys in their order, the scopes are compatible, every coordination
    with a scope belongs to a manager, the conjuncts of a manager follow each other with the
    keys of its coordinations as their ends, their number is within the arrays, and the
    children of a manager are exactly the managers that have it as their parent, each once.  If the scopes lie around their keys below [n],
    the conjuncts lie there, too, and the managers are a forest: from each one the parents lead to a
    root, so none is above itself. *)
Theorem detect_para_relation_managers : forall st st', numbered (rs_sp st) ->
  detect_para_relation st = Ret (true, st') ->
  let sp := rs_sp st in
  let sp' := rs_sp st' in
  (forall i j, 0 <= i < j -> j < Para_num sp -> live sp i j -> para_location sp i j <> REL_BAD) /\
  (forall i, 0 <= i < Para_num sp -> failed (para_data sp i) = false ->
     exists m, p_manager_ptr (para_data sp' i) = Some m /\ 0 <= m < Para_M_num sp' /\
               In i (paras (para_manager sp' m))) /\
  (forall n, scoped n sp -> parts_inside n sp' /\ forall m, 0 <= m < Para_M_num sp' -> exists l, up_chain sp' (m :: l)) /\
  (forall m, 0 <= m < Para_M_num sp' ->
     let r := para_manager sp' m in
     2 <= pm_part_num r <= PARA_PART_MAX /\ pm_part_num r = pm_para_num r + 1 /\
     (forall k, 0 <= k < pm_para_num r ->
        pm_end r k = p_key_pos (para_data sp (pm_para_data_num r k)) /\ pm_start r (k + 1) = pm_end r k + 1) /\
     (forall k, 0 <= k < pm_para_num r - 1 -> pm_para_data_num r k < pm_para_data_num r (k + 1)) /\
     NoDup (kids r) /\
     (forall c, In c (kids r) <-> 0 <= c < Para_M_num sp' /\ pm_parent (para_manager sp' c) = Some m)).
Proof. exact detected_managers. Qed.

(** ** Examples *)

Definition para_of (start key jend status : Z) : PARA_DATA :=
  set_p_status status (set_p_key_pos key (scope_of start jend PARA_DATA_0)).

(** A sentence of [n] bunsetsus with the coordinations [ps]. *)
Definition sentence_with (n : nat) (ps : list PARA_DATA) : SENTENCE_DATA :=
  set_para_data (fun i => nth (Z.to_nat i) ps PARA_DATA_0)
    (set_Para_num (Z.of_nat (List.length ps)) (sentence_of (repeat ["体言"%string] n))).

Definition relation_of (sp : SENTENCE_DATA) : relation_state :=
  mkRS sp (fun _ _ => 0) (fun _ _ => 1) (-1) EmptyString.

(** "A, B and C, or D": two brothers inside the first conjunct of a third coordination. *)
Definition three_paras : SENTENCE_DATA :=
  sentence_with 6 [para_of 0 0 1 (chr "n"); para_of 1 1 2 (chr "n"); para_of 0 3 5 (chr "s")].

(** A strong coordination that starts inside the last conjunct of a strong one. *)
Definition strong_pair : SENTENCE_DATA :=
  sentence_with 8 [para_of 0 1 4 (chr "s"); para_of 3 5 7 (chr "s")].

(** The same with an earlier coordination that is not strong. *)
Definition weak_pair : SENTENCE_DATA :=
  sentence_with 8 [para_of 0 1 4 (chr "n"); para_of 3 5 7 (chr "s")].

Lemma three_paras_numbered : numbered three_paras.
Proof.
  split; [vm_compute; split; [discriminate | reflexivity]|]. intros i j Hi Hj.
  change (Para_num three_paras) with 3 in Hj.
  assert ((i = 0 /\ j = 1) \/ (i = 0 /\ j = 2) \/ (i = 1 /\ j = 2)) as [[-> ->]|[[-> ->]|[-> ->]]] by lia;
    reflexivity.
Qed.

Lemma revise_para_rel_sound_witness : exists r, revise_para_rel weak_pair 0 1 (fun _ _ => 1) = (r, 0) /\
  r 0 4 = 0 /\ r 0 2 = 1 /\ para_location (with_scope 0 0 2 weak_pair) 0 1 <> REL_BAD.
Proof.
  eexists. split; [reflexivity|]. split; [reflexivity|]. split; [reflexivity|].
  destruct (revise_para_rel_sound weak_pair 0 1 (fun _ _ => 1) _ 0 ltac:(discriminate) eq_refl) as [_ [H _]].
  apply (H 0 2); [vm_compute; split; discriminate | split; reflexivity | reflexivity | discriminate].
Defined.

Lemma strong_pair_not_revised_witness : exists r, revise_para_rel strong_pair 0 1 (fun _ _ => 0) = (r, 0) /\
  para_location strong_pair 0 1 = REL_BAD /\ r 0 4 = 1.
Proof.
  eexists. split; [reflexivity|].
  apply (strong_pair_not_revised strong_pair 0 1 (fun _ _ => 0) _ 0);
    try reflexivity; try discriminate; vm_compute; split; first [discriminate | reflexivity].
Defined.

Abbreviation detected := (detect_para_relation (relation_of three_paras)).

Lemma detect_para_relation_total_witness : exists st', detected = Ret (true, st').
Proof.
  destruct (detect_para_relation_total (relation_of three_paras) three_paras_numbered) as [b [st' [E _]]].
  assert (H : match detected with Ret (b, _) => b = true | _ => False end) by (vm_compute; reflexivity).
  exists st'. rewrite E in *. now rewrite H.
Defined.

(** Three conjuncts in one manager, which is the child of the other one, and so below a root. *)
Lemma detect_para_relation_managers_witness : exists st', detected = Ret (true, st') /\
  (let m i := para_manager (rs_sp st') i in
   Para_M_num (rs_sp st') = 2 /\ pm_part_num (m 0) = 3 /\ pm_start (m 0) 1 = 1 /\ pm_end (m 0) 2 = 2 /\
   pm_parent (m 0) = Some 1 /\ kids (m 1) = [0] /\
   pm_part_num (m 0) = pm_para_num (m 0) + 1 /\ exists l, up_chain (rs_sp st') (0 :: l)).
Proof.
  assert (H : match detected with
    | Ret (true, st') => let m i := para_manager (rs_sp st') i in
        Para_M_num (rs_sp st') = 2 /\ pm_part_num (m 0) = 3 /\ pm_start (m 0) 1 = 1 /\ pm_end (m 0) 2 = 2 /\
        pm_parent (m 0) = Some 1 /\ kids (m 1) = [0]
    | _ => False end) by (vm_compute; repeat split).
  destruct detected as [[[|] st']|] eqn:E; [| elim H | elim H]. exists st'. split; [reflexivity|].
  cbv zeta in *. destruct H as [H1 [H2 [H3 [H4 [H5 H6]]]]]. repeat (split; [assumption|]).
  destruct (detect_para_relation_managers (relation_of three_paras) st' three_paras_numbered E) as [_ [_ [GF G]]].
  destruct (G 0) as [_ [G2 _]]; [rewrite H1; lia|]. split; [exact G2|]. apply (GF 6); [|rewrite H1; lia].
  intros i Hi _. change (Para_num (rs_sp (relation_of three_paras))) with 3 in Hi.
  assert (i = 0 \/ i = 1 \/ i = 2) as [->|[->| ->]] by lia; vm_compute; repeat split; discriminate || reflexivity.
Defined.
