(* ===== verification/ParaDpnd.v ===== *)
(** * Dependencies inside coordinations (src/system/para_dpnd.c, para_revision.c)

    Each conjunct must have a dependency structure of its own: a greedy search
    gives every bunsetsu its nearest possible governor without crossings
    ([_check_para_d_struct]).  When a conjunct has none, the scopes of the
    coordination are restricted ([revise_para_kakari]) or, for strong
    coordinations of the same incomplete shape, accepted; then [Mask_matrix]
    is filled.  Japanese only.  [D_found_array[-1]], which the code reads when a
    conjunct starts the sentence, is an element of the total array of the model:
    the value read does not matter. *)
From Stdlib Require Import ZArith List Bool String Ascii Lia.
Import ListNotations.
From S2P Require Import Prelude CStr Feature Sentence ParaAnalysis ParaRelation.

(** [for (i = hi; i >= lo && p(i); i--);]: the value of [i] after the loop. *)
Fixpoint skip_down (l : list Z) (p : Z -> bool) (stop : Z) : Z :=
  match l with
  | [] => stop
  | i :: l' => if p i then skip_down l' p stop else i
  end.

Definition down_while (hi lo : Z) (p : Z -> bool) : Z :=
  skip_down (rev (zrange lo (hi + 1))) p (Z.min hi (lo - 1)).

Definition check_stop_extend (sp : SENTENCE_DATA) (num : Z) : bool :=
  (bnst_has sp num "読点" && negb (bnst_has sp num "係:同格連体")) ||
  bnst_has sp num "提題" ||
  (bnst_has sp num "係:デ格" && bnst_has sp num "ハ").

Definition para_extend_p (sp : SENTENCE_DATA) (m_ptr : PARA_MANAGER) : bool :=
  strong (para_data sp (pm_para_data_num m_ptr 0)) ||
  existsb (fun i => bnst_has sp i "用言") (zrange (pm_start m_ptr 0) (pm_end m_ptr 0 + 1)).

(** The last conjunct of the parent, but the first, that starts at or before the manager. *)
Definition parent_range (sp : SENTENCE_DATA) (m_ptr : PARA_MANAGER) : Z :=
  match pm_parent m_ptr with
  | None => 0
  | Some p =>
      let r := para_manager sp p in
      match find (fun i => pm_start r i <=? pm_start m_ptr 0) (rev (zrange 1 (pm_part_num r))) with
      | Some i => pm_start r i
      | None => 0
      end
  end.

(** The global variables of the phase. *)
Record d_state : Type := mkDS {
  D_check_array : array bool;
  D_found_array : array bool;
  Mask_matrix : matrix Z;
  Dpnd_matrix : matrix Z;
  ds_restrict_matrix : matrix Z;
  ds_Revised_para_num : Z
}.

Section ParaDpnd.
Context (sp : SENTENCE_DATA) (Quote_matrix : matrix Z).

Section DStruct.
Context (D_check_array : array bool) (Mask_matrix Dpnd_matrix : matrix Z).

Definition can_govern (hikousa_array : array bool) (i j : Z) : bool :=
  negb (Mask_matrix i j =? 0) && negb (Quote_matrix i j =? 0) && negb (Dpnd_matrix i j =? 0) &&
  hikousa_array j.

(** [for (k = lo; k < hi; k++) hikousa_array[k] = 0;] *)
Definition hide (lo hi : Z) (hikousa_array : array bool) : array bool :=
  for_up lo hi (fun k a => aset a k false) hikousa_array.

(** The governor of [i], and what it hides. *)
Definition attach (end_ i : Z) (hikousa_array : array bool) : option Z :=
  find_up (i + 1) (end_ + 1) (can_govern hikousa_array i).

(** One bunsetsu of the conjunct: [D_found_array], [hikousa_array], [success_p]. *)
Definition find_head (end_ i : Z) (st : array bool * array bool * bool) : array bool * array bool * bool :=
  let '(found, hik, success) := st in
  if D_check_array i then (aset found i true, hik, success)
  else match attach end_ i hik with
       | Some j => (aset found i true, hide (i + 1) j hik, success)
       | None => (aset found i false, hide (i + 1) (end_ + 1) hik, false)
       end.

(** The extension of the first conjunct to the left: [D_found_array] and [*s_p]. *)
Fixpoint extend (end_ : Z) (is_ : list Z) (s_p : Z) (found hik : array bool) : array bool * Z :=
  match is_ with
  | [] => (found, s_p)
  | i :: is_' =>
      if check_stop_extend sp i then (found, i + 1)
      else if D_check_array i then extend end_ is_' i (aset found i true) hik
      else match attach end_ i hik with
           | Some j => extend end_ is_' i (aset found i true) (hide (i + 1) j hik)
           | None => (found, i + 1)
           end
  end.

(** [success_p], [D_found_array], and [*s_p] when it is set. *)
Definition _check_para_d_struct (str end_ : Z) (extend_p : bool) (limit : Z) (found : array bool)
  : bool * array bool * option Z :=
  let found := aset found end_ true in
  let '(found, hik, success_p) :=
    for_down (end_ - 1) str (find_head end_) (found, fun _ => true, true) in
  if extend_p && success_p then
    let '(found, s_p) := extend end_ (rev (zrange limit str)) str found hik in
    (success_p, found, Some s_p)
  else (success_p, found, None).
End DStruct.

(** The coordination that can be revised, -1 if none. *)
Definition check_error_state (m_ptr : PARA_MANAGER) (error : array bool) : Z :=
  if pm_part_num m_ptr =? 2 then pm_para_data_num m_ptr 0
  else if error 0 then
    if existsb error (zrange 1 (pm_part_num m_ptr)) then -1 else pm_para_data_num m_ptr 0
  else if error (pm_part_num m_ptr - 1) then
    if existsb error (zrange 0 (pm_part_num m_ptr - 1)) then -1
    else pm_para_data_num m_ptr (pm_para_num m_ptr - 1)
  else -1.

Definition all_allowed (m : matrix Z) : matrix Z :=
  for_up 0 (Bnst_num sp) (fun i m => fill_row i (i + 1) (Bnst_num sp) 1 m) m.

(** [revise_para_kakari]: a scope stays possible when both its parts have a structure.
    The search for the last bunsetsu without a governor reads to the left of it. *)
Definition revise_para_kakari (num : Z) (st : d_state) : res d_state :=
  let key_pos := p_key_pos (para_data sp num) in
  let n := Bnst_num sp in
  let '(mkDS chk found mask dm restrict _) := st in
  let check str end_ found := _check_para_d_struct chk mask dm str end_ false 0 found in
  let restrict := all_allowed restrict in
  let '(ok, found, _) := check 0 key_pos found in
  r <- (if ok then Ret restrict
        else
          let k := down_while key_pos 0 found in
          if k <? 0 then Err OutOfBounds
          else Ret (fill_rect 0 (k + 1) (key_pos + 1) n 0 restrict)) ;;
  let '(found, restrict) :=
    for_up (key_pos + 2) n (fun j '(found, restrict) =>
      let '(ok, found, _) := check (key_pos + 1) j found in
      (found, if ok then restrict else fill_rect 0 (key_pos + 1) j (j + 1) 0 restrict)) (found, r) in
  Ret (mkDS chk found mask dm restrict num).

(** ** The mask *)

(** The conjuncts of a coordination: rows before it, and columns after it. *)
Definition mask_first (m_ptr : PARA_MANAGER) (start_pos : Z) (m : matrix Z) : matrix Z :=
  let s := pm_start m_ptr 0 in
  let e := pm_end m_ptr 0 in
  let m := fill_rect 0 start_pos s (e + 1) 0 m in
  let m := fill_rect s (e + 1) (e + 1) (Bnst_num sp) 0 m in
  if strong (para_data sp (pm_para_data_num m_ptr 0)) then fill_rect 0 s e (e + 1) 0 m else m.

Definition mask_inner (m_ptr : PARA_MANAGER) (k : Z) (m : matrix Z) : matrix Z :=
  let s := pm_start m_ptr k in
  let e := pm_end m_ptr k in
  fill_rect s (e + 1) (e + 1) (Bnst_num sp) 0 (fill_rect 0 s s (e + 1) 0 m).

Definition mask_last (m_ptr : PARA_MANAGER) (m : matrix Z) : matrix Z :=
  let s := pm_start m_ptr (pm_part_num m_ptr - 1) in
  let e := pm_end m_ptr (pm_part_num m_ptr - 1) in
  fill_rect s e (e + 1) (Bnst_num sp) 0 (fill_rect 0 s s e 0 m).

(** The dependencies between the heads of the conjuncts. *)
Definition mark_para (m_ptr : PARA_MANAGER) (m : matrix Z) : matrix Z :=
  for_up 0 (pm_part_num m_ptr - 1) (fun k m => mset m (pm_end m_ptr k) (pm_end m_ptr (k + 1)) 2) m.

(** Bunsetsus without a governor in an incomplete conjunct. *)
Definition mark_incomplete (m_ptr : PARA_MANAGER) (found : array bool) (m : matrix Z) : matrix Z :=
  for_up 0 (pm_part_num m_ptr) (fun k m =>
    for_up (pm_start m_ptr k) (pm_end m_ptr k + 1) (fun i m =>
      if found i then m
      else mset (mset m i (pm_end m_ptr k) 3) i (pm_end m_ptr (pm_part_num m_ptr - 1)) 3) m) m.

Definition mask_conjuncts (m_ptr : PARA_MANAGER) (start_pos : Z) (m : matrix Z) : matrix Z :=
  mark_para m_ptr
    (mask_last m_ptr
      (for_up 1 (pm_part_num m_ptr - 1) (mask_inner m_ptr) (mask_first m_ptr start_pos m))).

(** ** One manager *)

(** Conjuncts that all end in a nominal: the dependencies in the earlier ones are
    overwritten by those to the end of the coordination. *)
Definition copy_dependencies (m_ptr : PARA_MANAGER) (Dpnd_matrix : matrix Z) : matrix Z :=
  let last := pm_end m_ptr (pm_part_num m_ptr - 1) in
  if (pm_status m_ptr =? chr "s") &&
     forallb (fun k => bnst_has sp (pm_end m_ptr k) "体言") (zrange 0 (pm_part_num m_ptr))
  then
    for_up 0 (pm_part_num m_ptr - 1) (fun k dm =>
      let e := pm_end m_ptr k in
      for_up (pm_start m_ptr k) e (fun i dm =>
        if (i =? e - 1) && (dm i e =? dm (last - 1) last) then dm else mset dm i e (dm i last)) dm)
      Dpnd_matrix
  else Dpnd_matrix.

(** The conjuncts: [start_pos], [error_check], [D_found_array]. *)
Definition check_conjuncts (m_ptr : PARA_MANAGER) (chk : array bool) (mask dm : matrix Z) (found : array bool)
  : Z * array bool * array bool :=
  for_up 0 (pm_part_num m_ptr) (fun k '(start_pos, error, found) =>
    let '(ok, found, s_p) :=
      _check_para_d_struct chk mask dm (pm_start m_ptr k) (pm_end m_ptr k)
        ((k =? 0) && para_extend_p sp m_ptr) (if k =? 0 then parent_range sp m_ptr else 0) found in
    (match s_p with Some s => s | None => start_pos end, aset error k (negb ok), found))
    (pm_start m_ptr 0, fun _ => false, found).

(** The next unattached bunsetsu of the inner and last conjuncts.  [here] is
    [no_more_error_here], which is not cleared between the conjuncts; the
    result is [None] when the conjuncts do not correspond. *)
Fixpoint next_errors (m_ptr : PARA_MANAGER) (found : array bool) (no_more_error here : bool) (ks : list Z)
    (error_pos : array Z) : option (array Z) :=
  match ks with
  | [] => Some error_pos
  | k :: ks' =>
      let i := down_while (error_pos k - 1) (pm_start m_ptr k) found in
      let here := here || (i =? pm_start m_ptr k - 1) in
      if Bool.eqb no_more_error here
      then next_errors m_ptr found no_more_error here ks' (aset error_pos k i)
      else None
  end.

(** The loop over the unattached bunsetsus of the first conjunct: do they
    correspond to those of the other ones? *)
Fixpoint same_errors (fuel : nat) (m_ptr : PARA_MANAGER) (found : array bool) (start_pos : Z) (error_pos : array Z)
  : res bool :=
  match fuel with
  | O => Err OutOfFuel
  | S f =>
      let i := down_while (error_pos 0 - 1) start_pos found in
      let no_more_error := i =? start_pos - 1 in
      match next_errors m_ptr found no_more_error false (zrange 1 (pm_part_num m_ptr)) (aset error_pos 0 i) with
      | None => Ret false
      | Some error_pos => if no_more_error then Ret true else same_errors f m_ptr found start_pos error_pos
      end
  end.

(** From [cannnot_revise] on. *)
Definition accept (m_ptr : PARA_MANAGER) (start_pos : Z) (invalid_flag : bool) (st : d_state) : d_state :=
  let '(mkDS chk found mask dm restrict rev) := st in
  let chk := for_up start_pos (pm_end m_ptr (pm_part_num m_ptr - 1)) (fun k a => aset a k true) chk in
  let mask := mask_conjuncts m_ptr start_pos mask in
  mkDS chk found (if invalid_flag then mark_incomplete m_ptr found mask else mask) dm restrict rev.

(** An error that cannot be explained: revise, if there is something to revise. *)
Definition reject (m_ptr : PARA_MANAGER) (start_pos : Z) (error : array bool) (st : d_state)
  : res (bool * d_state) :=
  let revised_p_num := check_error_state m_ptr error in
  if revised_p_num =? -1 then Ret (true, accept m_ptr start_pos true st)
  else st <- revise_para_kakari revised_p_num st ;; Ret (false, st).

(** [check_para_d_struct] after its children. *)
Definition check_manager (m_ptr : PARA_MANAGER) (st : d_state) : res (bool * d_state) :=
  let '(mkDS chk found mask dm restrict rev) := st in
  let dm := copy_dependencies m_ptr dm in
  let '(start_pos, error, found) := check_conjuncts m_ptr chk mask dm found in
  let st := mkDS chk found mask dm restrict rev in
  if existsb error (zrange 0 (pm_part_num m_ptr)) then
    if pm_status m_ptr =? chr "s" then
      same <- same_errors (S (S (Z.to_nat (pm_end m_ptr 0 - start_pos)))) m_ptr found start_pos (pm_end m_ptr) ;;
      if same then Ret (true, accept m_ptr start_pos true st) else reject m_ptr start_pos error st
    else reject m_ptr start_pos error st
  else Ret (true, accept m_ptr start_pos false st).

(** The children in order, until one of them returns FALSE. *)
Fixpoint check_para_d_struct (fuel : nat) (m : Z) (st : d_state) : res (bool * d_state) :=
  match fuel with
  | O => Err OutOfFuel
  | S f =>
      let m_ptr := para_manager sp m in
      ' (ok, st) <- fold_res (fun c (bs : bool * d_state) =>
                      if fst bs then check_para_d_struct f c (snd bs) else Ret bs) (kids m_ptr) (true, st) ;;
      if ok then check_manager m_ptr st else Ret (false, st)
  end.

Definition init_mask_matrix (m : matrix Z) : matrix Z :=
  fill_rect 0 (Bnst_num sp) 0 (Bnst_num sp) 1 m.

Definition check_dpnd_in_para (st : d_state) : res (bool * d_state) :=
  let '(mkDS chk found mask dm restrict rev) := st in
  let st := mkDS (for_up 0 (Bnst_num sp) (fun i a => aset a i false) chk) found
              (init_mask_matrix mask) dm restrict rev in
  for_res 0 (Para_M_num sp) (fun i (bs : bool * d_state) =>
    if fst bs then
      match pm_parent (para_manager sp i) with
      | None => check_para_d_struct (S (Z.to_nat (Para_M_num sp))) i (snd bs)
      | Some _ => Ret bs
      end
    else Ret bs) (true, st).
End ParaDpnd.

(** * Properties *)

(** ** The structure of a conjunct *)
Section DStructSpec.
Context (sp : SENTENCE_DATA) (Quote_matrix : matrix Z).
Context (D_check_array : array bool) (Mask_matrix Dpnd_matrix : matrix Z).

(** Is a dependency of [i] on [j] allowed? *)
Definition allowed (i j : Z) : bool :=
  negb (Mask_matrix i j =? 0) && negb (Quote_matrix i j =? 0) && negb (Dpnd_matrix i j =? 0).

(** The bunsetsus of [str .. end_] that are not checked yet have allowed governors up to
    [end_], without crossings: the specification of [_check_para_d_struct]. *)
Definition heads_ok (str end_ : Z) (h : Z -> Z) : Prop :=
  forall i, str <= i < end_ -> D_check_array i = false ->
    i < h i <= end_ /\ allowed i (h i) = true /\
    (forall k, i < k < end_ -> D_check_array k = false -> h i <= k \/ h k <= h i).

Definition structured (str end_ : Z) : Prop := exists h, heads_ok str end_ h.

Lemma structured_mono : forall str str' end_, str <= str' -> structured str end_ -> structured str' end_.
Proof.
  intros str str' end_ Hle [h H]. exists h. intros i Hi Hc. apply H; auto. lia.
Qed.

Lemma structured_single : forall e, structured e e.
Proof. intros e. exists (fun _ => 0). intros i Hi. lia. Qed.

Local Abbreviation find_head' := (find_head Quote_matrix D_check_array Mask_matrix Dpnd_matrix).
Local Abbreviation attach' := (attach Quote_matrix Mask_matrix Dpnd_matrix).

(** The loop of [_check_para_d_struct] down to [str]. *)
Definition run (end_ str : Z) (found : array bool) : array bool * array bool * bool :=
  for_down (end_ - 1) str (find_head' end_) (aset found end_ true, fun _ => true, true).

Definition run_found (end_ str : Z) (found : array bool) : array bool := fst (fst (run end_ str found)).
Definition run_hik (end_ str : Z) (found : array bool) : array bool := snd (fst (run end_ str found)).
Definition run_ok (end_ str : Z) (found : array bool) : bool := snd (run end_ str found).

Lemma hide_at : forall lo hi a k, hide lo hi a k = if within lo k hi then false else a k.
Proof.
  intros lo hi a k. unfold hide.
  rewrite (for_up_pointwise (fun (a : array bool) p => a p) (fun i p => p =? i) (fun _ _ => false)).
  - now rewrite existsb_zrange_eq.
  - intros i s _. reflexivity.
  - intros i j _ _ Hi Hj. blia.
Qed.

(** What one step does. *)
Inductive step_of (end_ i : Z) (f hik : array bool) (ok : bool) : array bool * array bool * bool -> Prop :=
| step_checked : D_check_array i = true -> step_of end_ i f hik ok (aset f i true, hik, ok)
| step_found j : D_check_array i = false -> i < j <= end_ -> allowed i j = true -> hik j = true ->
    (forall j', i < j' < j -> allowed i j' = true -> hik j' = false) ->
    step_of end_ i f hik ok (aset f i true, hide (i + 1) j hik, ok)
| step_none : D_check_array i = false ->
    (forall j', i < j' <= end_ -> allowed i j' = true -> hik j' = false) ->
    step_of end_ i f hik ok (aset f i false, hide (i + 1) (end_ + 1) hik, false).

Lemma find_head_step : forall end_ i f hik ok, i < end_ ->
  step_of end_ i f hik ok (find_head' end_ i (f, hik, ok)).
Proof.
  intros end_ i f hik ok Hi. unfold find_head. destruct (D_check_array i) eqn:EC; [now constructor|].
  unfold attach. destruct (find_up (i + 1) (end_ + 1) _) as [j|] eqn:EF.
  - pose proof (find_up_first _ _ _ _ EF) as HF. apply find_up_some in EF. destruct EF as [Hj EF].
    unfold can_govern in EF. apply andb_true_iff in EF. destruct EF as [EA EH].
    apply step_found; auto; [lia|]. intros j' Hj' Ha. specialize (HF j' ltac:(lia)).
    unfold can_govern in HF. fold (allowed i j') in HF. now rewrite Ha in HF.
  - apply step_none; auto. intros j' Hj' Ha. pose proof (find_up_none _ _ _ EF j' ltac:(lia)) as HF.
    unfold can_govern in HF. fold (allowed i j') in HF. now rewrite Ha in HF.
Qed.

Lemma run_step : forall end_ i found, i < end_ ->
  step_of end_ i (run_found end_ (i + 1) found) (run_hik end_ (i + 1) found) (run_ok end_ (i + 1) found)
    (run end_ i found).
Proof.
  intros end_ i found Hi. unfold run at 1. rewrite for_down_last by lia. fold (run end_ (i + 1) found).
  unfold run_found, run_hik, run_ok. destruct (run end_ (i + 1) found) as [[f hik] ok]. now apply find_head_step.
Qed.

Lemma run_init : forall end_ found, run end_ end_ found = (aset found end_ true, fun _ => true, true).
Proof. intros. unfold run. now rewrite for_down_empty by lia. Qed.

(** A property of the loop, by the steps. *)
Lemma run_ind : forall (P : Z -> array bool * array bool * bool -> Prop) end_ found,
  P end_ (aset found end_ true, fun _ => true, true) ->
  (forall i f hik ok s, i < end_ -> P (i + 1) (f, hik, ok) -> step_of end_ i f hik ok s -> P i s) ->
  forall str, str <= end_ -> P str (run end_ str found).
Proof.
  intros P end_ found H0 HS str Hle. unfold run. apply (for_down_inv P); [lia | |].
  - now replace (end_ - 1 + 1) with end_ by lia.
  - intros i [[f hik] ok] Hi HP. apply (HS i f hik ok); auto; [lia|]. apply find_head_step. lia.
Qed.

(** The positions up to [str] stay visible; the marks say whether the search succeeded. *)
Lemma run_marks : forall end_ found str, str <= end_ ->
  (forall j, j <= str -> run_hik end_ str found j = true) /\
  (run_ok end_ str found = true <-> forall k, str <= k <= end_ -> run_found end_ str found k = true).
Proof.
  intros end_ found str Hle. unfold run_hik, run_ok, run_found.
  apply (run_ind (fun i s => (forall j, j <= i -> snd (fst s) j = true) /\
    (snd s = true <-> forall k, i <= k <= end_ -> fst (fst s) k = true))); auto.
  - cbn [fst snd]. split; auto. split; auto. intros _ k Hk. replace k with end_ by lia. apply aset_eq.
  - intros i f hik ok s Hi [H1 H2] HS. cbn [fst snd] in H1, H2.
    assert (M : forall b, (b && ok = true <-> forall k, i <= k <= end_ -> aset f i b k = true)).
    { intros b. split.
      - intros E. apply andb_true_iff in E. destruct E as [-> E]. intros k Hk.
        destruct (Z.eq_dec k i) as [->|]; [apply aset_eq|]. rewrite aset_ne by auto. apply H2; auto. lia.
      - intros H. specialize (H i) as Hb. rewrite aset_eq in Hb. rewrite Hb by lia. apply H2. intros k Hk.
        specialize (H k ltac:(lia)). rewrite aset_ne in H by lia. exact H. }
    inv HS; cbn [fst snd].
    + split; [intros j' Hj'; apply H1; lia | apply (M true)].
    + split; [|apply (M true)]. intros j' Hj'. rewrite hide_at.
      destruct (within_spec (i + 1) j' j); [lia | apply H1; lia].
    + split; [|apply (M false)]. intros j' Hj'. rewrite hide_at.
      destruct (within_spec (i + 1) j' (end_ + 1)); [lia | apply H1; lia].
Qed.

(** A mark is not changed any more. *)
Lemma run_found_stable : forall end_ found str k, str <= k <= end_ ->
  run_found end_ str found k = run_found end_ k found k.
Proof.
  intros end_ found str k Hk.
  assert (G : forall n, Z.of_nat n <= k - str -> run_found end_ (k - Z.of_nat n) found k = run_found end_ k found k).
  { induction n as [|n IH]; intros Hn; [f_equal; f_equal; lia|]. rewrite <- IH by lia.
    pose proof (run_step end_ (k - Z.of_nat (S n)) found ltac:(lia)) as HS.
    replace (k - Z.of_nat (S n) + 1) with (k - Z.of_nat n) in HS by lia.
    unfold run_found at 1. destruct HS; cbn [fst snd]; apply aset_ne; lia. }
  specialize (G (Z.to_nat (k - str)) ltac:(lia)). now replace (k - Z.of_nat (Z.to_nat (k - str))) with str in G by lia.
Qed.
(** [j] is not under one of the dependencies [h] that start in [i .. end_]. *)
Definition uncovered (i end_ : Z) (h : Z -> Z) (j : Z) : Prop :=
  forall k, i <= k < end_ -> D_check_array k = false -> ~ (k < j < h k).

Lemma heads_ok_tail : forall i end_ h, heads_ok i end_ h -> heads_ok (i + 1) end_ h.
Proof. intros i end_ h H k Hk. apply H. lia. Qed.

(** The governors found do not cross, and what is still visible is not covered. *)
Lemma run_sound : forall end_ found str, str <= end_ -> run_ok end_ str found = true ->
  exists h, heads_ok str end_ h /\
    forall j, str <= j <= end_ -> run_hik end_ str found j = true -> uncovered str end_ h j.
Proof.
  intros end_ found str Hle. unfold run_ok, run_hik.
  apply (run_ind (fun i s => snd s = true -> exists h, heads_ok i end_ h /\
    forall j, i <= j <= end_ -> snd (fst s) j = true -> uncovered i end_ h j)); auto.
  - intros _. exists (fun _ => 0). split; [intros k Hk; lia|]. intros j Hj _ k Hk. lia.
  - intros i f hik ok s Hi IH HS E. cbn [fst snd] in IH. destruct HS as [HC|j HC Hj HA HV HF|HC HF]; cbn [fst snd] in *.
    + destruct (IH E) as [h [H1 H2]]. exists h. split.
      * intros k Hk Hc. destruct (Z.eq_dec k i) as [->|]; [congruence|]. apply H1; auto. lia.
      * intros j Hj HV k Hk Hc. destruct (Z.eq_dec k i) as [->|]; [congruence|].
        destruct (Z.eq_dec j i) as [->|]; [lia|]. apply (H2 j); auto; lia.
    + destruct (IH E) as [h [H1 H2]]. exists (fun x => if x =? i then j else h x). split.
      * intros k Hk Hc. destruct (Z.eqb_spec k i) as [->|Hne].
        -- split; [lia|]. split; auto. intros k' Hk' Hc'. destruct (Z.eqb_spec k' i); [lia|].
           specialize (H2 j ltac:(lia) HV k' ltac:(lia) Hc'). lia.
        -- destruct (H1 k ltac:(lia) Hc) as [G1 [G2 G3]]. split; auto. split; auto. intros k' Hk' Hc'.
           destruct (Z.eqb_spec k' i); [lia|]. auto.
      * intros j0 Hj0 HV0 k Hk Hc. rewrite hide_at in HV0.
        destruct (within_spec (i + 1) j0 j); [discriminate|]. destruct (Z.eqb_spec k i) as [->|]; [lia|].
        destruct (Z.eq_dec j0 i) as [->|]; [lia|]. apply (H2 j0); auto; lia.
    + discriminate.
Qed.

(** The greedy search hides no more than any other choice of governors. *)
Lemma run_complete : forall end_ found str h, str <= end_ -> heads_ok str end_ h ->
  run_ok end_ str found = true.
Proof.
  intros end_ found str h Hle. unfold run_ok.
  enough (G : (forall j, j <= str -> snd (fst (run end_ str found)) j = true) /\
    (heads_ok str end_ h -> snd (run end_ str found) = true /\
      forall j, str <= j <= end_ -> uncovered str end_ h j -> snd (fst (run end_ str found)) j = true)) by apply G.
  apply (run_ind (fun i s => (forall j, j <= i -> snd (fst s) j = true) /\
    (heads_ok i end_ h -> snd s = true /\
      forall j, i <= j <= end_ -> uncovered i end_ h j -> snd (fst s) j = true))); auto.
  intros i f hik ok s Hi [I0 IH] HS. cbn [fst snd] in I0, IH. split.
  { destruct HS as [HC|j HC Hj HA HV HF|HC HF]; cbn [fst snd]; intros j' Hj'; [apply I0; lia | |];
      rewrite hide_at; [destruct (within_spec (i + 1) j' j) | destruct (within_spec (i + 1) j' (end_ + 1))];
      try lia; apply I0; lia. }
  intros Hih. destruct (IH (heads_ok_tail _ _ _ Hih)) as [I1 I2].
  assert (V : forall j, i <= j <= end_ -> uncovered (i + 1) end_ h j -> hik j = true).
  { intros j Hj Hu. destruct (Z.eq_dec j i) as [->|]; [apply I0; lia | apply I2; auto; lia]. }
  assert (U : forall j, uncovered i end_ h j -> uncovered (i + 1) end_ h j) by (intros j Hu k Hk; apply Hu; lia).
  destruct HS as [HC|j HC Hj HA HV HF|HC HF]; cbn [fst snd].
  - auto.
  - destruct (Hih i ltac:(lia) HC) as [G1 [G2 G3]].
    assert (Hji : j <= h i).
    { destruct (Z.le_gt_cases j (h i)) as [|Hgt]; auto.
      assert (Hf : hik (h i) = false) by (apply HF; auto; lia).
      rewrite V in Hf; [discriminate | lia|]. intros k Hk Hc'. specialize (G3 k ltac:(lia) Hc'). lia. }
    split; auto. intros j0 Hj0 Hu. rewrite hide_at.
    destruct (within_spec (i + 1) j0 j); [|auto]. exfalso. apply (Hu i); auto; lia.
  - exfalso. destruct (Hih i ltac:(lia) HC) as [G1 [G2 G3]].
    assert (Hf : hik (h i) = false) by (apply HF; auto; lia).
    rewrite V in Hf; [discriminate | lia|]. intros k Hk Hc'. specialize (G3 k ltac:(lia) Hc'). lia.
Qed.
(** The loop decides whether there is a structure. *)
Lemma run_ok_spec : forall end_ found str, str <= end_ ->
  run_ok end_ str found = true <-> structured str end_.
Proof.
  intros end_ found str Hle. split.
  - intros E. destruct (run_sound end_ found str Hle E) as [h [H _]]. now exists h.
  - intros [h H]. now apply run_complete with h.
Qed.

(** The last bunsetsu without a governor, after a failure. *)
Lemma last_unfound : forall end_ found str, str <= end_ -> run_ok end_ str found = false ->
  exists k, str <= k < end_ /\ run_found end_ str found k = false /\
    (forall k', k < k' <= end_ -> run_found end_ str found k' = true) /\
    structured (k + 1) end_ /\ ~ structured k end_.
Proof.
  intros end_ found str Hle E.
  assert (G : forall n, Z.of_nat n <= end_ - str -> (forall k', end_ - Z.of_nat n <= k' <= end_ -> run_found end_ str found k' = true) \/
    exists k, str <= k < end_ /\ run_found end_ str found k = false /\
      (forall k', k < k' <= end_ -> run_found end_ str found k' = true)).
  { induction n as [|n IH]; intros Hn.
    - left. intros k' Hk'. replace k' with end_ by lia. rewrite run_found_stable by lia.
      unfold run_found. rewrite run_init. apply aset_eq.
    - destruct IH as [IH|IH]; [lia | | now right].
      destruct (run_found end_ str found (end_ - Z.of_nat (S n))) eqn:EF.
      + left. intros k' Hk'. destruct (Z.eq_dec k' (end_ - Z.of_nat (S n))) as [->|]; auto. apply IH. lia.
      + right. exists (end_ - Z.of_nat (S n)). split; [lia|]. split; auto. intros k' Hk'. apply IH. lia. }
  destruct (G (Z.to_nat (end_ - str)) ltac:(lia)) as [H|[k [Hk [H1 H2]]]].
  - replace (end_ - Z.of_nat (Z.to_nat (end_ - str))) with str in H by lia.
    apply run_marks in H; auto. congruence.
  - exists k. split; auto. split; auto. split; auto. split.
    + apply (run_ok_spec end_ found (k + 1)); [lia|]. apply run_marks; [lia|]. intros k' Hk'.
      rewrite run_found_stable, <- (run_found_stable end_ found str) by lia. apply H2. lia.
    + intros HS. apply (run_ok_spec end_ found k) in HS; [|lia].
      pose proof (proj1 (proj2 (run_marks end_ found k ltac:(lia))) HS k ltac:(lia)) as HF.
      rewrite <- (run_found_stable end_ found str) in HF by lia. congruence.
Qed.

Lemma run_unfold : forall end_ str found, run end_ str found =
  (run_found end_ str found, run_hik end_ str found, run_ok end_ str found).
Proof. intros. unfold run_found, run_hik, run_ok. now destruct (run end_ str found) as [[f h] o]. Qed.

Local Abbreviation extend' := (extend sp Quote_matrix D_check_array Mask_matrix Dpnd_matrix).

(** The extension goes on with the same search. *)
Lemma extend_spec : forall end_ found limit n str, n = Z.to_nat (str - limit) -> limit <= str <= end_ ->
  run_ok end_ str found = true ->
  let '(f, s) := extend' end_ (rev (zrange limit str)) str (run_found end_ str found) (run_hik end_ str found) in
  limit <= s <= str /\ run_ok end_ s found = true /\
  (forall i, s <= i < str -> check_stop_extend sp i = false) /\
  (s = limit \/ check_stop_extend sp (s - 1) = true \/ run_ok end_ (s - 1) found = false) /\
  (forall k, str <= k -> f k = run_found end_ str found k).
Proof.
  intros end_ found limit. induction n as [|n IH]; intros str Hn Hle Hok.
  - rewrite zrange_nil by lia. cbn [rev extend]. split; [lia|]. split; auto. split; [intros; lia|]. split; auto. left. lia.
  - rewrite zrange_snoc by lia. rewrite rev_app_distr. cbn [rev app extend].
    destruct (check_stop_extend sp (str - 1)) eqn:ES.
    { replace (str - 1 + 1) with str by lia. split; [lia|]. split; auto. split; [intros; lia|]. auto. }
    pose proof (run_unfold end_ (str - 1) found) as HR. unfold run in HR at 1. rewrite for_down_last in HR by lia.
    replace (str - 1 + 1) with str in HR by lia. fold (run end_ str found) in HR. rewrite run_unfold in HR.
    unfold find_head in HR.
    assert (K : forall f s, (limit <= s <= str - 1 /\ run_ok end_ s found = true /\
        (forall i, s <= i < str - 1 -> check_stop_extend sp i = false) /\
        (s = limit \/ check_stop_extend sp (s - 1) = true \/ run_ok end_ (s - 1) found = false) /\
        (forall k, str - 1 <= k -> f k = run_found end_ (str - 1) found k)) ->
      run_found end_ (str - 1) found = aset (run_found end_ str found) (str - 1) true ->
      limit <= s <= str /\ run_ok end_ s found = true /\
      (forall i, s <= i < str -> check_stop_extend sp i = false) /\
      (s = limit \/ check_stop_extend sp (s - 1) = true \/ run_ok end_ (s - 1) found = false) /\
      (forall k, str <= k -> f k = run_found end_ str found k)).
    { intros f s [K1 [K2 [K3 [K4 K5]]]] KF. split; [lia|]. split; auto. split; [|split; auto].
      - intros i Hi. destruct (Z.eq_dec i (str - 1)) as [->|]; auto. apply K3. lia.
      - intros k Hk. rewrite K5, KF by lia. apply aset_ne. lia. }
    destruct (D_check_array (str - 1)).
    + injection HR as HR1 HR2 HR3. specialize (IH (str - 1) ltac:(lia) ltac:(lia) ltac:(congruence)).
      rewrite <- HR1, <- HR2 in IH. destruct (extend' _ _ _ _ _) as [f s]. apply K; [now rewrite <- HR1 | now symmetry].
    + destruct (attach' end_ (str - 1) (run_hik end_ str found)) as [j|].
      * injection HR as HR1 HR2 HR3. specialize (IH (str - 1) ltac:(lia) ltac:(lia) ltac:(congruence)).
        rewrite <- HR1, <- HR2 in IH. destruct (extend' _ _ _ _ _) as [f s]. apply K; [now rewrite <- HR1 | now symmetry].
      * injection HR as HR1 HR2 HR3. replace (str - 1 + 1) with str by lia. split; [lia|]. split; auto.
        split; [intros; lia|]. auto.
Qed.

(** All that the search says. *)
Lemma d_struct_facts : forall str end_ extend_p limit found, limit <= str <= end_ ->
  let '(ok, found', s_p) :=
    _check_para_d_struct sp Quote_matrix D_check_array Mask_matrix Dpnd_matrix str end_ extend_p limit found in
  (ok = true <-> structured str end_) /\
  (ok = true -> forall k, str <= k <= end_ -> found' k = true) /\
  (ok = false -> exists k, str <= k < end_ /\ found' k = false /\
     (forall k', k < k' <= end_ -> found' k' = true) /\ structured (k + 1) end_ /\ ~ structured k end_) /\
  match s_p with
  | None => extend_p && ok = false
  | Some s => extend_p && ok = true /\ limit <= s <= str /\ structured s end_ /\
      (forall i, s <= i < str -> check_stop_extend sp i = false) /\
      (s = limit \/ check_stop_extend sp (s - 1) = true \/ ~ structured (s - 1) end_)
  end.
Proof.
  intros str end_ extend_p limit found Hle. unfold _check_para_d_struct. fold (run end_ str found).
  rewrite run_unfold. pose proof (run_ok_spec end_ found str ltac:(lia)) as H1.
  pose proof (proj1 (proj2 (run_marks end_ found str ltac:(lia)))) as H2.
  pose proof (last_unfound end_ found str ltac:(lia)) as H3.
  destruct (extend_p && run_ok end_ str found) eqn:EE.
  - apply andb_true_iff in EE as Eo. destruct Eo as [-> Eo].
    pose proof (extend_spec end_ found limit _ str eq_refl ltac:(lia) Eo) as HE.
    destruct (extend' _ _ _ _ _) as [f s]. destruct HE as [E1 [E2 [E3 [E4 E5]]]].
    split; auto. split; [intros E k Hk; rewrite E5 by lia; auto|].
    split; [rewrite Eo; discriminate|]. split; auto. split; auto. split; [now apply (run_ok_spec end_ found s); [lia|]|].
    split; auto. destruct E4 as [|[|E4]]; auto. right. right. intros HS.
    apply (run_ok_spec end_ found (s - 1)) in HS; [congruence | lia].
  - split; auto.
Qed.
End DStructSpec.

(** C9: the greedy search of _check_para_d_struct succeeds exactly when the bunsetsus of
    the conjunct have any allowed governors inside it without crossings; the marks
    D_found_array then are all set, and after a failure the last mark that is missing is the
    last bunsetsu from which there is no structure.  The first conjunct is extended to the
    left as far as the limit, the stop conditions and such a structure allow. *)
Theorem _check_para_d_struct_spec : forall sp Quote_matrix chk mask dm str end_ extend_p limit found ok found' s_p,
  limit <= str <= end_ ->
  _check_para_d_struct sp Quote_matrix chk mask dm str end_ extend_p limit found = (ok, found', s_p) ->
  (ok = true <-> structured Quote_matrix chk mask dm str end_) /\
  (ok = true -> forall k, str <= k <= end_ -> found' k = true) /\
  (ok = false -> exists k, str <= k < end_ /\ found' k = false /\
     (forall k', k < k' <= end_ -> found' k' = true) /\
     structured Quote_matrix chk mask dm (k + 1) end_ /\ ~ structured Quote_matrix chk mask dm k end_) /\
  (forall s, s_p = Some s -> limit <= s <= str /\ structured Quote_matrix chk mask dm s end_ /\
      (forall i, s <= i < str -> check_stop_extend sp i = false) /\
      (s = limit \/ check_stop_extend sp (s - 1) = true \/ ~ structured Quote_matrix chk mask dm (s - 1) end_)).
Proof.
  intros sp Q chk mask dm str end_ ext limit found ok found' s_p Hle E.
  pose proof (d_struct_facts sp Q chk mask dm str end_ ext limit found Hle) as H. rewrite E in H.
  destruct H as [H1 [H2 [H3 H4]]]. split; [exact H1|]. split; [exact H2|]. split; [exact H3|].
  intros s ->. apply H4.
Qed.

(** ** Revision by dependency errors *)

Lemma all_allowed_at : forall sp m i j, 0 <= i < Bnst_num sp -> i < j < Bnst_num sp -> all_allowed sp m i j = 1.
Proof.
  intros sp m i j Hi Hj. unfold all_allowed.
  rewrite (for_up_pointwise (fun (m : matrix Z) (p : Z * Z) => m (fst p) (snd p))
    (fun i p => (fst p =? i) && within (i + 1) (snd p) (Bnst_num sp)) (fun _ _ => 1) 0 (Bnst_num sp) _ m (i, j)).
  - cbn [fst snd]. replace (existsb _ _) with true; [reflexivity|]. symmetry. apply existsb_exists.
    exists i. split; [apply in_zrange; lia|]. rewrite Z.eqb_refl. apply within_true. lia.
  - intros k s _. apply fill_row_at.
  - cbn [fst snd]. intros a b _ _ Ha Hb. blia.
Qed.

(** Both parts of the scope [i .. j] of a key have a structure. *)
Definition parts_structured (Quote_matrix : matrix Z) (st : d_state) (key i j : Z) : Prop :=
  structured Quote_matrix (D_check_array st) (Mask_matrix st) (Dpnd_matrix st) i key /\
  structured Quote_matrix (D_check_array st) (Mask_matrix st) (Dpnd_matrix st) (key + 1) j.

Section Kakari.
Context (sp : SENTENCE_DATA) (Quote_matrix : matrix Z) (chk : array bool) (mask dm : matrix Z).
Local Abbreviation structured' := (structured Quote_matrix chk mask dm).
Local Abbreviation check str end_ found :=
  (_check_para_d_struct sp Quote_matrix chk mask dm str end_ false 0 found).

(** The part before the key. *)
Lemma kakari_front : forall key found restrict, 0 <= key ->
  let '(ok, found', _) := check 0 key found in
  exists r, (if ok then Ret restrict
     else let k := down_while key 0 found' in
          if k <? 0 then Err OutOfBounds
          else Ret (fill_rect 0 (k + 1) (key + 1) (Bnst_num sp) 0 restrict)) = Ret r /\
  forall i j, 0 <= i <= key -> key < j < Bnst_num sp -> restrict i j = 1 ->
    (r i j = 1 <-> structured' i key).
Proof.
  intros key found restrict Hk.
  pose proof (d_struct_facts sp Quote_matrix chk mask dm 0 key false 0 found ltac:(lia)) as H.
  destruct (check 0 key found) as [[ok found'] s_p]. destruct H as [H1 [_ [H3 _]]].
  destruct ok.
  - exists restrict. split; auto. intros i j Hi Hj ->. split; auto. intros _.
    apply structured_mono with 0; [lia | now apply H1].
  - destruct (H3 eq_refl) as [k [Hkr [F1 [F2 [S1 S2]]]]].
    assert (E : down_while key 0 found' = k).
    { unfold down_while. rewrite (zrange_app 0 k (key + 1)), (zrange_cons k) by lia.
      rewrite rev_app_distr. cbn [rev]. rewrite <- app_assoc. cbn [app].
      assert (G : forall l l2 z, (forall x, In x l -> found' x = true) -> skip_down (l ++ k :: l2) found' z = k).
      { induction l as [|x l IH]; intros l2 z Hx; cbn [app skip_down]; [now rewrite F1|].
        rewrite (Hx x (in_eq _ _)). apply IH. auto using in_cons. }
      apply G. intros x Hx. apply in_rev, in_zrange in Hx. apply F2. lia. }
    cbv zeta. rewrite E. destruct (Z.ltb_spec k 0); [lia|]. eexists. split; [reflexivity|].
    intros i j Hi Hj HR. rewrite fill_rect_at. rewrite (within_true (key + 1)) by lia. rewrite andb_true_r.
    destruct (within_spec 0 i (k + 1)) as [Hin|Hout].
    + split; [discriminate|]. intros HS. elim S2. apply structured_mono with i; auto. lia.
    + split; auto. intros _. apply structured_mono with (k + 1); auto. lia.
Qed.

(** The part after the key. *)
Lemma kakari_rear : forall key found r, 0 <= key ->
  let res := for_up (key + 2) (Bnst_num sp) (fun j '(found, restrict) =>
      let '(ok, found, _) := check (key + 1) j found in
      (found, if ok then restrict else fill_rect 0 (key + 1) j (j + 1) 0 restrict)) (found, r) in
  forall i j, 0 <= i <= key -> key < j < Bnst_num sp ->
    (snd res i j = 1 <-> r i j = 1 /\ structured' (key + 1) j).
Proof.
  intros key found r Hk res.
  assert (G : forall i j, 0 <= i <= key -> key < j < Bnst_num sp ->
    (j < Bnst_num sp -> (snd res i j = 1 <-> r i j = 1 /\ structured' (key + 1) j)) /\
    (Bnst_num sp <= j -> snd res i j = r i j)).
  { destruct (Z.le_gt_cases (Bnst_num sp) (key + 1)) as [Hn|Hn]; [intros; lia|]. unfold res.
    apply (for_up_inv (fun h (st : array bool * matrix Z) => forall i j, 0 <= i <= key -> key < j < Bnst_num sp ->
      (j < h -> (snd st i j = 1 <-> r i j = 1 /\ structured' (key + 1) j)) /\ (h <= j -> snd st i j = r i j))); [lia | |].
    - intros i j Hi Hj. split; auto. intros Hlt. replace j with (key + 1) by lia. cbn [snd].
      split; [intros H; split; [exact H | apply structured_single] | tauto].
    - intros h [f m] Hh IH i j Hi Hj. cbn [snd] in IH.
      pose proof (d_struct_facts sp Quote_matrix chk mask dm (key + 1) h false 0 f ltac:(lia)) as H.
      destruct (check (key + 1) h f) as [[ok f'] s_p]. destruct H as [H1 _]. cbn [snd].
      destruct (IH i j Hi Hj) as [I1 I2]. destruct (Z.eq_dec j h) as [->|Hne].
      + split; [intros _ | intros; lia]. destruct ok.
        * rewrite I2 by lia. split; [intros E; split; [exact E | now apply H1] | tauto].
        * rewrite fill_rect_at, !within_true by lia. cbn [andb]. split; [discriminate|].
          intros [_ HS]. apply H1 in HS. discriminate.
      + assert (E : (if ok then m else fill_rect 0 (key + 1) h (h + 1) 0 m) i j = m i j).
        { destruct ok; auto. rewrite fill_rect_at. destruct (within_spec h j (h + 1)); [lia|]. now rewrite andb_false_r. }
        rewrite E. split; intros; [apply I1 | apply I2]; lia. }
  intros i j Hi Hj. apply G; auto. lia.
Qed.
End Kakari.

(** revise_para_kakari does not read outside of D_found_array and leaves exactly the
    scopes whose two parts, before and after the key, have a dependency structure. *)
Theorem revise_para_kakari_spec : forall sp Quote_matrix num st,
  let key := p_key_pos (para_data sp num) in
  0 <= key < Bnst_num sp ->
  exists st', revise_para_kakari sp Quote_matrix num st = Ret st' /\ ds_Revised_para_num st' = num /\
    forall i j, 0 <= i <= key -> key < j < Bnst_num sp ->
      (ds_restrict_matrix st' i j = 1 <-> parts_structured Quote_matrix st key i j).
Proof.
  intros sp Q num [chk found mask dm restrict rev] key Hk. unfold revise_para_kakari. fold key. cbv zeta.
  pose proof (kakari_front sp Q chk mask dm key found (all_allowed sp restrict) ltac:(lia)) as HF. cbv zeta in HF.
  destruct (_check_para_d_struct sp Q chk mask dm 0 key false 0 found) as [[ok found1] s_p].
  destruct HF as [r [-> HF]].
  pose proof (kakari_rear sp Q chk mask dm key found1 r ltac:(lia)) as HR. cbv zeta in HR.
  set (res := for_up (key + 2) (Bnst_num sp) _ (found1, r)) in *. destruct res as [found2 m2] eqn:ER.
  eexists. split; [reflexivity|]. split; [reflexivity|]. intros i j Hi Hj.
  cbn [ds_restrict_matrix snd] in *. rewrite HR by auto. unfold parts_structured. cbn [D_check_array Mask_matrix Dpnd_matrix].
  rewrite HF; auto; [reflexivity|]. apply all_allowed_at; lia.
Qed.

(** ** Termination *)
Section Total.
Context (sp : SENTENCE_DATA) (Quote_matrix : matrix Z) (bound : Z).
Hypothesis sp_inside : parts_inside bound sp.
Hypothesis sp_linked : linked sp.

Lemma down_while_range : forall hi lo p, lo <= hi + 1 -> lo - 1 <= down_while hi lo p <= hi.
Proof.
  intros hi lo p Hle. unfold down_while. rewrite Z.min_r by lia.
  assert (G : forall l, (forall x, In x l -> lo <= x <= hi) -> lo - 1 <= skip_down l p (lo - 1) <= hi).
  { induction l as [|x l IH]; intros H; cbn [skip_down]; [lia|].
    destruct (p x); [apply IH; auto using in_cons|]. specialize (H x (in_eq _ _)). lia. }
  apply G. intros x Hx. apply in_rev, in_zrange in Hx. lia.
Qed.

Lemma next_errors_first : forall m found e ks here pos pos', (forall k, In k ks -> 1 <= k) ->
  next_errors m found e here ks pos = Some pos' -> pos' 0 = pos 0.
Proof.
  intros m found e. induction ks as [|k ks IH]; intros here pos pos' Hk E; cbn [next_errors] in E; [now injection E as <-|].
  destruct (Bool.eqb e _); [|discriminate]. apply IH in E; [|auto using in_cons].
  rewrite E. apply aset_ne. specialize (Hk k (in_eq _ _)). lia.
Qed.

Lemma same_errors_total : forall f m found start_pos pos, start_pos <= pos 0 ->
  pos 0 - start_pos + 1 < Z.of_nat f -> exists b, same_errors f m found start_pos pos = Ret b.
Proof.
  induction f as [|f IH]; intros m found start_pos pos Hle Hf; [lia|]. cbn [same_errors].
  pose proof (down_while_range (pos 0 - 1) start_pos found ltac:(lia)) as Hi.
  set (i := down_while (pos 0 - 1) start_pos found) in *.
  destruct (next_errors m found (i =? start_pos - 1) false _ (aset pos 0 i)) as [pos'|] eqn:E; [|eauto].
  apply next_errors_first in E; [|intros k Hk; apply in_zrange in Hk; lia]. rewrite aset_eq in E.
  destruct (Z.eqb_spec i (start_pos - 1)); [eauto|]. apply IH; lia.
Qed.

Lemma parent_range_bound : forall m, 0 <= m < Para_M_num sp ->
  parent_range sp (para_manager sp m) <= pm_start (para_manager sp m) 0.
Proof.
  intros m Hm. destruct (sp_inside m Hm) as [H1 [H2 [H3 _]]]. specialize (H3 0 ltac:(lia)).
  unfold parent_range. destruct (pm_parent _) as [p|]; [|lia].
  destruct (find _ _) as [i|] eqn:E; [|lia]. apply find_some in E. blia.
Qed.

(** The extended start is not after the first conjunct. *)
Lemma check_conjuncts_start : forall m chk mask dm found, 0 <= m < Para_M_num sp ->
  fst (fst (check_conjuncts sp Quote_matrix (para_manager sp m) chk mask dm found)) <= pm_start (para_manager sp m) 0.
Proof.
  intros m chk mask dm found Hm. unfold check_conjuncts, for_up.
  apply (fold_left_inv _ (fun st : Z * array bool * array bool => fst (fst st) <= pm_start (para_manager sp m) 0)); [|cbn; lia].
  intros k [[s e] f] Hk Hs. apply in_zrange in Hk. destruct (sp_inside m Hm) as [H1 [H2 [H3 _]]]. specialize (H3 k Hk).
  set (limit := if k =? 0 then parent_range sp (para_manager sp m) else 0).
  assert (Hl : limit <= pm_start (para_manager sp m) k <= pm_end (para_manager sp m) k).
  { unfold limit. destruct (Z.eqb_spec k 0) as [->|]; [|lia]. pose proof (parent_range_bound m Hm). lia. }
  pose proof (d_struct_facts sp Quote_matrix chk mask dm _ _ ((k =? 0) && para_extend_p sp (para_manager sp m)) _ f Hl) as HS.
  destruct (_check_para_d_struct _ _ _ _ _ _ _ _ _ f) as [[ok f'] s_p]. destruct HS as [_ [_ [_ HS]]].
  cbn [fst]. destruct s_p as [x|]; [|exact Hs]. destruct HS as [E [Hx _]].
  destruct (Z.eqb_spec k 0) as [->|]; [lia | discriminate].
Qed.

Lemma revise_para_kakari_total : forall num st, 0 <= p_key_pos (para_data sp num) ->
  exists st', revise_para_kakari sp Quote_matrix num st = Ret st'.
Proof.
  intros num [chk found mask dm restrict rev] Hk. unfold revise_para_kakari. cbv zeta.
  pose proof (kakari_front sp Quote_matrix chk mask dm _ found (all_allowed sp restrict) Hk) as HF. cbv zeta in HF.
  destruct (_check_para_d_struct sp Quote_matrix chk mask dm 0 _ false 0 found) as [[ok found1] s_p].
  destruct HF as [r [-> _]]. destruct (for_up _ _ _ (found1, r)). eauto.
Qed.

(** The coordination to revise is one of the manager's. *)
Lemma check_error_state_range : forall m error, 0 <= m < Para_M_num sp ->
  check_error_state (para_manager sp m) error = -1 \/
  exists k, 0 <= k < pm_para_num (para_manager sp m) /\
    check_error_state (para_manager sp m) error = pm_para_data_num (para_manager sp m) k.
Proof.
  intros m error Hm. destruct (sp_inside m Hm) as [H1 [H2 _]].
  unfold check_error_state. destruct (_ =? 2); [right; exists 0; split; [lia | auto]|].
  destruct (error 0); [destruct (existsb _ _); auto; right; exists 0; split; [lia | auto]|].
  destruct (error _); auto. destruct (existsb _ _); auto. right. eexists. split; [|reflexivity]. lia.
Qed.

Lemma reject_total : forall m start_pos error st, 0 <= m < Para_M_num sp ->
  exists b st', reject sp Quote_matrix (para_manager sp m) start_pos error st = Ret (b, st').
Proof.
  intros m start_pos error st Hm. unfold reject. destruct (sp_inside m Hm) as [H1 [H2 [H3 H4]]].
  assert (K : forall k, 0 <= k < pm_para_num (para_manager sp m) ->
    0 <= p_key_pos (para_data sp (pm_para_data_num (para_manager sp m) k))).
  { intros k Hk. rewrite H4 by auto. specialize (H3 k ltac:(lia)). lia. }
  pose proof (check_error_state_range m error Hm) as R.
  destruct R as [->|[k [Hk ->]]]; [cbn; eauto|]. destruct (_ =? -1); [eauto|].
  destruct (revise_para_kakari_total _ st (K k Hk)) as [st' ->]. eauto.
Qed.

Lemma check_manager_total : forall m st, 0 <= m < Para_M_num sp ->
  exists b st', check_manager sp Quote_matrix (para_manager sp m) st = Ret (b, st').
Proof.
  intros m [chk found mask dm restrict rev] Hm. unfold check_manager.
  set (dm' := copy_dependencies sp (para_manager sp m) dm).
  pose proof (check_conjuncts_start m chk mask dm' found Hm) as HS.
  destruct (check_conjuncts _ _ _ chk mask dm' found) as [[start_pos error] found']. cbn [fst] in HS.
  destruct (sp_inside m Hm) as [H1 [H2 [H3 _]]]. specialize (H3 0 ltac:(lia)).
  destruct (existsb error _); [|eauto]. destruct (pm_status _ =? chr "s"); [|now apply reject_total].
  destruct (same_errors_total (S (S (Z.to_nat (pm_end (para_manager sp m) 0 - start_pos)))) (para_manager sp m) found'
    start_pos (pm_end (para_manager sp m))) as [b ->]; [lia | lia|].
  destruct b; [eauto | now apply reject_total].
Qed.

(** The recursion goes down the forest. *)
Lemma check_para_d_struct_total : forall f m l st, up_chain sp (m :: l) ->
  Forall (fun x => 0 <= x < Para_M_num sp) (m :: l) -> Para_M_num sp < Z.of_nat (f + List.length (m :: l)) ->
  exists b st', check_para_d_struct sp Quote_matrix f m st = Ret (b, st').
Proof.
  induction f as [|f IH]; intros m l st HC HF Hf; [now elim (up_chain_short sp (m :: l))|].
  cbn [check_para_d_struct]. assert (Hm : 0 <= m < Para_M_num sp) by now inv HF.
  destruct (fold_res_total (fun _ => True) (fun c (bs : bool * d_state) =>
      if fst bs then check_para_d_struct sp Quote_matrix f c (snd bs) else Ret bs) (kids (para_manager sp m)) (true, st))
    as [[ok st1] [-> _]]; auto.
  - intros c [b s] Hc _. cbn [fst snd]. destruct b; [|eauto]. destruct (sp_linked m c Hm Hc) as [Hr Hp].
    destruct (IH c (m :: l) s) as [b [s' E]]; [now apply up_chain_cons | now constructor | cbn [List.length] in *; lia |].
    eauto.
  - destruct ok; [now apply check_manager_total | eauto].
Qed.

Lemma check_dpnd_total : forall st, 0 <= Para_M_num sp ->
  exists b st', check_dpnd_in_para sp Quote_matrix st = Ret (b, st').
Proof.
  intros [chk found mask dm restrict rev] HM. unfold check_dpnd_in_para, for_res.
  match goal with |- context [fold_res ?body ?l ?s] =>
    destruct (fold_res_total (fun _ => True) body l s) as [[b st'] [E _]]; auto; [|eauto] end.
  intros m [b s] Hm _. apply in_zrange in Hm. cbn [fst snd]. destruct b; [|eauto].
  destruct (pm_parent (para_manager sp m)) eqn:E; [eauto|].
  destruct (check_para_d_struct_total (S (Z.to_nat (Para_M_num sp))) m [] s) as [b [s' E']]; eauto.
  cbn [List.length]. lia.
Qed.

(** When the check fails, [Revised_para_num] is a coordination of the sentence. *)
Hypothesis sp_paras : paras_inside sp.

Definition revised_ok (bs : bool * d_state) : Prop :=
  fst bs = false -> 0 <= ds_Revised_para_num (snd bs) < Para_num sp.

Lemma reject_revised : forall m start_pos error st b st', 0 <= m < Para_M_num sp ->
  reject sp Quote_matrix (para_manager sp m) start_pos error st = Ret (b, st') -> revised_ok (b, st').
Proof.
  intros m start_pos error st b st' Hm E. unfold reject in E.
  destruct (check_error_state_range m error Hm) as [R|[k [Hk R]]]; rewrite R in E; [now injection E as <- _|].
  destruct (_ =? -1); [now injection E as <- _|].
  destruct (revise_para_kakari _ _ _ _) as [st1|] eqn:ER; [|discriminate]. injection E as <- <-. intros _. cbn [snd].
  destruct st as [chk found mask dm restrict rev]. unfold revise_para_kakari in ER. cbv zeta in ER.
  destruct (_check_para_d_struct _ _ _ _ _ _ _ _ _ _) as [[ok found1] s_p].
  match type of ER with match ?x with _ => _ end = _ => destruct x as [r|]; [|discriminate] end.
  destruct (for_up _ _ _ (found1, r)) as [f2 r2]. injection ER as <-. cbn. now apply sp_paras.
Qed.

Lemma check_manager_revised : forall m st b st', 0 <= m < Para_M_num sp ->
  check_manager sp Quote_matrix (para_manager sp m) st = Ret (b, st') -> revised_ok (b, st').
Proof.
  intros m [chk found mask dm restrict rev] b st' Hm E. unfold check_manager in E.
  destruct (check_conjuncts _ _ _ _ _ _ _) as [[start_pos error] found'].
  destruct (existsb error _); [|now injection E as <- _].
  destruct (pm_status _ =? chr "s"); [|now apply reject_revised in E].
  destruct (same_errors _ _ _ _ _) as [[|]|]; [now injection E as <- _ | now apply reject_revised in E | discriminate].
Qed.

Lemma check_para_d_struct_revised : forall f m st b st', 0 <= m < Para_M_num sp ->
  check_para_d_struct sp Quote_matrix f m st = Ret (b, st') -> revised_ok (b, st').
Proof.
  induction f as [|f IH]; intros m st b st' Hm E; [discriminate|]. cbn [check_para_d_struct] in E.
  match type of E with match ?x with _ => _ end = _ => destruct x as [[ok st1]|] eqn:EF; [|discriminate] end.
  assert (R : revised_ok (ok, st1)).
  { revert EF. apply (fold_res_inv revised_ok); [|discriminate].
    intros c [b1 s1] [b2 s2] Hc HR E1. cbn [fst snd] in E1. destruct b1; [|now injection E1 as <- <-].
    eapply IH; [|exact E1]. now apply (sp_linked m c Hm Hc). }
  destruct ok; [now apply check_manager_revised in E|]. injection E as <- <-. exact R.
Qed.

Lemma check_dpnd_revised : forall st b st', check_dpnd_in_para sp Quote_matrix st = Ret (b, st') -> revised_ok (b, st').
Proof.
  intros [chk found mask dm restrict rev] b st' E. unfold check_dpnd_in_para, for_res in E. revert E.
  apply (fold_res_inv revised_ok); [|discriminate].
  intros m [b1 s1] [b2 s2] Hm HR E. apply in_zrange in Hm. cbn [fst snd] in E. destruct b1; [|now injection E as <- <-].
  destruct (pm_parent _); [now injection E as <- <-|]. eapply check_para_d_struct_revised; [|exact E]. lia.
Qed.
End Total.

(** After a successful detect_para_relation, check_dpnd_in_para returns: the recursion
    on the managers, the extension of the conjuncts and the comparison of their
    errors all end, and the searches stay inside the arrays. *)
Theorem check_dpnd_in_para_total : forall n rst rst' Quote_matrix st, numbered (rs_sp rst) -> scoped n (rs_sp rst) ->
  detect_para_relation rst = Ret (true, rst') ->
  exists b st', check_dpnd_in_para (rs_sp rst') Quote_matrix st = Ret (b, st').
Proof.
  intros n [sp rel restrict rev buf] rst' Q st HN HS E. cbn [rs_sp] in *.
  destruct (detect_cases sp rel restrict rev buf HN) as [[i [j [st1 [_ [_ [_ E1]]]]]]|[st1 [_ [E1 F]]]];
    rewrite E1 in E; [discriminate|]. injection E as ->.
  destruct (finished_linked _ _ F) as [HL HM]. apply (check_dpnd_total _ Q n); auto. now apply (finished_inside n sp).
Qed.

(** ** The mask *)

(** The conjuncts of a manager: they follow each other. *)
Definition parts_ok (n : Z) (r : PARA_MANAGER) : Prop :=
  2 <= pm_part_num r /\
  (forall k, 0 <= k < pm_part_num r -> 0 <= pm_start r k <= pm_end r k /\ pm_end r k < n) /\
  (forall k, 0 <= k < pm_part_num r - 1 -> pm_start r (k + 1) = pm_end r k + 1).

Section Mask.
Context (sp : SENTENCE_DATA) (r : PARA_MANAGER).
Local Abbreviation n := (Bnst_num sp).
Local Abbreviation last := (pm_part_num r - 1).
Hypothesis r_ok : parts_ok n r.

Lemma parts_order : forall a b, 0 <= a < b -> b < pm_part_num r -> pm_end r a < pm_start r b.
Proof.
  destruct r_ok as [H1 [H2 H3]].
  assert (G : forall d a, 0 <= a -> a + 1 + Z.of_nat d < pm_part_num r -> pm_end r a < pm_start r (a + 1 + Z.of_nat d)).
  { induction d as [|d IH]; intros a Ha Hd.
    - replace (a + 1 + Z.of_nat 0) with (a + 1) by lia. rewrite H3 by lia. lia.
    - specialize (IH a Ha ltac:(lia)). replace (a + 1 + Z.of_nat (S d)) with (a + 1 + Z.of_nat d + 1) by lia.
      rewrite H3 by lia. specialize (H2 (a + 1 + Z.of_nat d) ltac:(lia)). lia. }
  intros a b Ha Hb. replace b with (a + 1 + Z.of_nat (Z.to_nat (b - a - 1))) by lia. apply G; lia.
Qed.

(** [x] is in conjunct [k]. *)
Definition in_part (k x : Z) : Prop := pm_start r k <= x <= pm_end r k.

Lemma in_part_unique : forall a b x, 0 <= a < pm_part_num r -> 0 <= b < pm_part_num r ->
  in_part a x -> in_part b x -> a = b.
Proof.
  intros a b x Ha Hb H1 H2. unfold in_part in *. destruct (Z.lt_trichotomy a b) as [Hlt|[|Hgt]]; auto.
  - pose proof (parts_order a b ltac:(lia) ltac:(lia)). lia.
  - pose proof (parts_order b a ltac:(lia) ltac:(lia)). lia.
Qed.

Lemma mark_para_at : forall m i j, mark_para r m i j =
  if existsb (fun k => (i =? pm_end r k) && (j =? pm_end r (k + 1))) (zrange 0 last) then 2 else m i j.
Proof.
  intros m i j. unfold mark_para. destruct r_ok as [H1 [H2 _]].
  rewrite (for_up_pointwise (fun (m : matrix Z) (p : Z * Z) => m (fst p) (snd p))
    (fun k p => (fst p =? pm_end r k) && (snd p =? pm_end r (k + 1))) (fun _ _ => 2) 0 last _ m (i, j)); auto.
  cbn [fst snd]. intros a b Ha Hb E1 E2. apply (in_part_unique a b i); try lia; unfold in_part.
  - specialize (H2 a ltac:(lia)). blia.
  - specialize (H2 b ltac:(lia)). blia.
Qed.

Definition inner_block (k i j : Z) : bool :=
  (within (pm_start r k) i (pm_end r k + 1) && within (pm_end r k + 1) j n) ||
  (within 0 i (pm_start r k) && within (pm_start r k) j (pm_end r k + 1)).

Lemma mask_inner_at : forall k m i j, mask_inner sp r k m i j = if inner_block k i j then 0 else m i j.
Proof.
  intros k m i j. unfold mask_inner, inner_block. rewrite !fill_rect_at.
  destruct (within _ i _ && _); [reflexivity|]. now destruct (within 0 i _ && _).
Qed.

Lemma mask_inners_at : forall m i j, for_up 1 last (mask_inner sp r) m i j =
  if existsb (fun k => inner_block k i j) (zrange 1 last) then 0 else m i j.
Proof.
  intros m i j. destruct r_ok as [H1 _].
  apply (for_up_inv (fun h m' => m' i j = if existsb (fun k => inner_block k i j) (zrange 1 h) then 0 else m i j)); [lia | reflexivity|].
  intros k m' Hk IH. rewrite mask_inner_at, IH, (zrange_snoc 1 (k + 1)) by lia. replace (k + 1 - 1) with k by lia.
  rewrite existsb_app. cbn [existsb]. rewrite orb_false_r.
  destruct (existsb _ _); cbn [orb]; destruct (inner_block k i j); reflexivity.
Qed.

(** What is left of the dependencies of [i] on [j] after [mask_conjuncts]. *)
Lemma mask_conjuncts_at : forall start_pos m i j, mask_conjuncts sp r start_pos m i j =
  if existsb (fun k => (i =? pm_end r k) && (j =? pm_end r (k + 1))) (zrange 0 last) then 2
  else if (within (pm_start r last) i (pm_end r last) && within (pm_end r last + 1) j n) ||
          (within 0 i (pm_start r last) && within (pm_start r last) j (pm_end r last)) then 0
  else if existsb (fun k => inner_block k i j) (zrange 1 last) then 0
  else mask_first sp r start_pos m i j.
Proof.
  intros. unfold mask_conjuncts. rewrite mark_para_at. destruct (existsb _ (zrange 0 last)); auto.
  unfold mask_last. rewrite !fill_rect_at, mask_inners_at.
  destruct (within (pm_start r last) i _ && _); auto.
Qed.

Lemma mask_first_zero : forall start_pos m i j, 0 <= i -> 0 <= j < n ->
  (in_part 0 i /\ pm_end r 0 < j) \/ (i < start_pos /\ in_part 0 j) -> mask_first sp r start_pos m i j = 0.
Proof.
  intros start_pos m i j Hi Hj H. unfold mask_first, in_part in *.
  assert (G : (if within (pm_start r 0) i (pm_end r 0 + 1) && within (pm_end r 0 + 1) j n then 0
               else if within 0 i start_pos && within (pm_start r 0) j (pm_end r 0 + 1) then 0 else m i j) = 0).
  { destruct H as [H|H]; [rewrite !within_true by lia; reflexivity|].
    destruct (within (pm_start r 0) i _ && _); [reflexivity|]. now rewrite !within_true by lia. }
  destruct (strong _); rewrite !fill_rect_at, G; auto.
  now destruct (within 0 i (pm_start r 0) && within (pm_end r 0) j (pm_end r 0 + 1)).
Qed.

Lemma marked_pair : forall i j, existsb (fun k => (i =? pm_end r k) && (j =? pm_end r (k + 1))) (zrange 0 last) = true ->
  exists k, 0 <= k < last /\ i = pm_end r k /\ j = pm_end r (k + 1).
Proof.
  intros i j E. apply existsb_exists in E. destruct E as [k [Hk E]]. apply in_zrange in Hk. exists k. blia.
Qed.
End Mask.

(** The mask of a coordination separates its conjuncts.  The head of each conjunct depends
    on the head of the next one; nothing else leaves a conjunct to the right except the
    head of the last one; nothing before it enters an inner conjunct, nor the last one
    except at its head, nor (before the extended start) the first one. *)
Theorem mask_conjuncts_separates : forall sp r start_pos m, parts_ok (Bnst_num sp) r ->
  let m' := mask_conjuncts sp r start_pos m in
  let last := pm_part_num r - 1 in
  (forall k, 0 <= k < last -> m' (pm_end r k) (pm_end r (k + 1)) = 2) /\
  (forall i j k, 0 <= k < pm_part_num r -> in_part r k i -> pm_end r k < j < Bnst_num sp -> m' i j <> 0 ->
     i = pm_end r k /\ (k = last \/ j = pm_end r (k + 1))) /\
  (forall i j k, 0 <= k < pm_part_num r -> in_part r k j -> 0 <= i < (if k =? 0 then start_pos else pm_start r k) ->
     start_pos <= pm_start r 0 -> m' i j <> 0 ->
     0 < k /\ j = pm_end r k /\ (k = last \/ i = pm_end r (k - 1))).
Proof.
  intros sp r start_pos m HR m' last. subst m'. pose proof HR as [P1 [P2 P3]].
  split; [|split].
  - intros k Hk. rewrite (mask_conjuncts_at sp r HR).
    replace (existsb _ (zrange 0 (pm_part_num r - 1))) with true; auto. symmetry. apply existsb_exists.
    exists k. rewrite in_zrange, !Z.eqb_refl. auto.
  - intros i j k Hk Hi Hj Hne. rewrite (mask_conjuncts_at sp r HR) in Hne. specialize (P2 k Hk) as P2k. unfold in_part in Hi.
    destruct (existsb _ (zrange 0 (pm_part_num r - 1))) eqn:EM.
    + apply marked_pair in EM. destruct EM as [a [Ha [-> ->]]].
      assert (a = k) as -> by (apply (in_part_unique sp r HR a k (pm_end r a)); try lia; [specialize (P2 a ltac:(lia)); unfold in_part; lia | exact Hi]).
      auto.
    + destruct (Z.eq_dec k last) as [->|Hkl].
      { split; auto. destruct (Z.eq_dec i (pm_end r last)); auto. elim Hne. fold last. now rewrite !within_true by lia. }
      destruct (_ || _); [easy|]. destruct (existsb _ (zrange 1 _)) eqn:EI; [easy|]. elim Hne.
      destruct (Z.eq_dec k 0) as [->|Hk0]; [apply mask_first_zero; auto; [lia | lia | left; unfold in_part; lia]|].
      exfalso. apply not_true_iff_false in EI. apply EI, existsb_exists. exists k. rewrite in_zrange. split; [lia|].
      unfold inner_block. now rewrite !within_true by lia.
  - intros i j k Hk Hj Hi Hs Hne. rewrite (mask_conjuncts_at sp r HR) in Hne. specialize (P2 k Hk) as P2k. unfold in_part in Hj.
    destruct (existsb _ (zrange 0 (pm_part_num r - 1))) eqn:EM.
    + apply marked_pair in EM. destruct EM as [a [Ha [-> ->]]].
      assert (a + 1 = k) as <- by (apply (in_part_unique sp r HR (a + 1) k (pm_end r (a + 1))); try lia;
        [specialize (P2 (a + 1) ltac:(lia)); unfold in_part; lia | exact Hj]).
      replace (a + 1 - 1) with a by lia. split; [lia | auto].
    + destruct (Z.eqb_spec k 0) as [->|Hk0].
      { elim Hne. destruct (_ || _); auto. destruct (existsb _ (zrange 1 _)); auto.
        apply mask_first_zero; auto; [lia | lia | right; unfold in_part; lia]. }
      destruct (Z.eq_dec k last) as [->|Hkl].
      { split; [lia|]. split; auto. destruct (Z.eq_dec j (pm_end r last)); auto. elim Hne. fold last.
        rewrite (within_true 0), (within_true (pm_start r last) j) by lia. now rewrite orb_true_r. }
      destruct (_ || _); [easy|]. destruct (existsb _ (zrange 1 _)) eqn:EI; [easy|]. exfalso.
      apply not_true_iff_false in EI. apply EI, existsb_exists. exists k. rewrite in_zrange. split; [lia|].
      unfold inner_block. rewrite (within_true 0), (within_true (pm_start r k) j) by lia. apply orb_true_r.
Qed.

(** ** Examples *)

Definition ones : matrix Z := fun _ _ => 1.
Definition open_state : d_state := mkDS (fun _ => false) (fun _ => false) ones ones ones (-1).

Abbreviation example_check := (_check_para_d_struct three_paras ones (fun _ => false) ones ones 1 3 true 0 (fun _ => false)).

Lemma _check_para_d_struct_spec_witness : exists found, example_check = (true, found, Some 0) /\
  structured ones (fun _ => false) ones ones 1 3 /\ found 2 = true.
Proof.
  assert (H : match example_check with (ok, _, s) => ok = true /\ s = Some 0 end) by (vm_compute; auto).
  destruct example_check as [[ok found] s] eqn:E. destruct H as [-> ->]. exists found. split; [reflexivity|].
  destruct (_check_para_d_struct_spec three_paras ones (fun _ => false) ones ones 1 3 true 0 (fun _ => false) true found (Some 0)
    ltac:(lia) E) as [H1 [H2 _]].
  split; [now apply H1 | apply H2; [reflexivity | lia]].
Defined.

Lemma revise_para_kakari_spec_witness : exists st', revise_para_kakari three_paras ones 2 open_state = Ret st' /\
  (ds_restrict_matrix st' 0 5 = 1 <-> parts_structured ones open_state 3 0 5).
Proof.
  destruct (revise_para_kakari_spec three_paras ones 2 open_state) as [st' [E [_ H]]];
    [vm_compute; split; [discriminate | reflexivity]|].
  exists st'. split; [exact E|]. apply H; vm_compute; split; first [discriminate | reflexivity].
Defined.

Lemma three_paras_scoped : scoped (Bnst_num three_paras) three_paras.
Proof.
  intros i Hi _. change (Para_num three_paras) with 3 in Hi.
  assert (i = 0 \/ i = 1 \/ i = 2) as [->|[->| ->]] by lia; vm_compute; repeat split; discriminate.
Qed.

Lemma check_dpnd_in_para_total_witness : exists rst' b st', detected = Ret (true, rst') /\
  check_dpnd_in_para (rs_sp rst') ones open_state = Ret (b, st').
Proof.
  assert (H : match detected with Ret (true, _) => True | _ => False end) by (vm_compute; exact I).
  destruct detected as [[[|] rst']|] eqn:E; [| elim H | elim H]. exists rst'.
  destruct (check_dpnd_in_para_total (Bnst_num three_paras) (relation_of three_paras) rst' ones open_state three_paras_numbered
    three_paras_scoped E) as [b [st' E']].
  exists b, st'. split; [reflexivity | exact E'].
Defined.

(** Two conjuncts [0 .. 1] and [2 .. 3]. *)
Definition two_parts : PARA_MANAGER :=
  push_part 2 3 (push_part 0 1 (push_para 0 PARA_MANAGER_0)).

Lemma mask_conjuncts_separates_witness :
  mask_conjuncts three_paras two_parts 0 ones 1 3 = 2 /\ mask_conjuncts three_paras two_parts 0 ones 0 3 = 0 /\
  (mask_conjuncts three_paras two_parts 0 ones 0 2 <> 0 -> 0 = 1).
Proof.
  assert (P : parts_ok (Bnst_num three_paras) two_parts).
  { split; [vm_compute; discriminate|]. split; intros k Hk.
    - change (pm_part_num two_parts) with 2 in Hk.
      assert (k = 0 \/ k = 1) as [->| ->] by lia; vm_compute; repeat split; discriminate.
    - change (pm_part_num two_parts) with 2 in Hk. assert (k = 0) as -> by lia. reflexivity. }
  destruct (mask_conjuncts_separates three_paras two_parts 0 ones P) as [H1 [H2 _]].
  split; [apply (H1 0); vm_compute; split; [discriminate | reflexivity]|]. split; [reflexivity|].
  intros H. apply (H2 0 2 0) in H; [exact (proj1 H) | | |]; vm_compute; repeat split; first [discriminate | reflexivity].
Defined.
