(* ===== verification/Tree.v ===== *)
(** * The dependency tree of a sentence (src/system/tree_conv.c)

    [make_dpnd_tree] links the bunsetsus to the tree of their dependencies
    ([make_simple_tree]) and inserts a node for every coordination
    ([para_top_expand]); with [OptExpandP] the modifiers of coordinations are
    attached to their conjuncts as well.  A child array is the list of its
    entries before the NULL; a link is the index of its node.  The inserted
    nodes follow the bunsetsus in [bnst_data].  [incomplete_para_expand] is not
    called; the trees of tags and morphemes are in TagTree.v. *)
From Stdlib Require Import ZArith List Bool String Ascii Lia Sorted Permutation.
Import ListNotations.
From S2P Require Import Prelude CStr Feature Sentence Bunsetsu ParaRelation ParaDpnd.
Open Scope list_scope.
Open Scope Z_scope.

Definition PARA_NORMAL : Z := 1.
Definition PARA_INCOMP : Z := 2.

(** ** Nodes *)

Definition clear_tree (b : BNST_DATA) : BNST_DATA :=
  set_b_to_para_p false (set_b_para_type PARA_NIL (set_b_para_top_p false (set_b_child [] (set_b_parent None b)))).

Definition init_bnst_tree_property (sp : SENTENCE_DATA) : SENTENCE_DATA :=
  for_up 0 BNST_MAX (fun i => upd_bnst i clear_tree) sp.

(** A new child at position [pos], or at the end; the array has PARA_PART_MAX entries with
    the NULL.  Behind the end the new entry cannot be seen. *)
Definition t_add_node (parent child pos : Z) (sp : SENTENCE_DATA) : res SENTENCE_DATA :=
  let cs := b_child (bnst_data sp parent) in
  if pos =? -1 then
    if PARA_PART_MAX <=? zlen cs + 1 then Err OutOfBounds
    else Ret (upd_bnst parent (set_b_child (cs ++ [child])) sp)
  else if (pos <? 0) || (PARA_PART_MAX <=? Z.max pos (zlen cs + 1)) then Err OutOfBounds
  else if zlen cs <? pos then Ret sp
  else Ret (upd_bnst parent (set_b_child (firstn (Z.to_nat pos) cs ++ child :: skipn (Z.to_nat pos) cs)) sp).

Definition t_attach_node (parent child pos : Z) (sp : SENTENCE_DATA) : res SENTENCE_DATA :=
  t_add_node parent child pos (upd_bnst child (set_b_parent (Some parent)) sp).

Fixpoint remove_first (c : Z) (l : list Z) : list Z :=
  match l with
  | [] => []
  | x :: l' => if x =? c then l' else x :: remove_first c l'
  end.

Definition t_del_node (parent child : Z) (sp : SENTENCE_DATA) : SENTENCE_DATA :=
  let sp := upd_bnst parent (fun b => set_b_child (remove_first child (b_child b)) b) sp in
  upd_bnst child (set_b_parent None) sp.

Section Tree.
Context (Mask_matrix : matrix Z).

(** ** The links *)

(** The heads, with the conjuncts of a coordination depending on the last one. *)
Definition head_buffer (sp : SENTENCE_DATA) : array Z :=
  let buffer := for_up 0 (Bnst_num sp - 1) (fun i b => aset b i (b_dpnd_head (bnst_data sp i))) (fun _ => 0) in
  for_up 0 (Para_M_num sp) (fun i buffer =>
    let m := para_manager sp i in
    let last := pm_end m (pm_part_num m - 1) in
    for_up 0 (pm_part_num m - 1) (fun j buffer =>
      let buffer := aset buffer (pm_end m j) last in
      for_up (pm_start m j) (pm_end m j + 1) (fun k buffer =>
        if Mask_matrix k (pm_end m j) =? 3 then aset buffer k last else buffer) buffer) buffer) buffer.

(** The loop over the dependants of one row [j]: its children so far, the children of the
    row before when this node was merged into it, and whether the loop was left. *)
Record link_state : Type := mkLS {
  ls_child : list Z;
  ls_pre : list Z;
  ls_done : bool;
  ls_sp : SENTENCE_DATA
}.

Definition link_dependant (buffer : array Z) (j i : Z) (st : link_state) : res link_state :=
  let '(mkLS cs pre done sp) := st in
  if done || (b_num (bnst_data sp i) =? -1) || negb (buffer i =? j) then Ret st
  else
    let merged := b_num (bnst_data sp j) =? -1 in
    if merged && (j - i =? 1) then Ret st
    else
      let cs := if merged then cs else cs ++ [i] in
      let pre := if merged then pre ++ [i] else pre in
      if (PARA_PART_MAX <? zlen cs) || (PARA_PART_MAX <? zlen pre) then Err OutOfBounds
      else if PARA_PART_MAX <=? zlen cs then
        Ret (mkLS (firstn (Z.to_nat (PARA_PART_MAX - 1)) cs) pre true sp)
      else
        let sp := upd_bnst i (fun b =>
          let b := set_b_parent (Some (if merged then j - 1 else j)) b in
          if Mask_matrix i j =? 3 then set_b_para_type PARA_INCOMP b else b) sp in
        Ret (mkLS cs pre false sp).

(** One row; [pre] are the children left by the row behind. *)
Definition link_row (buffer : array Z) (j : Z) (st : list Z * SENTENCE_DATA) : res (list Z * SENTENCE_DATA) :=
  let '(pre, sp) := st in
  st' <- fold_res (link_dependant buffer j) (rev (zrange 0 j)) (mkLS pre [] false sp) ;;
  if PARA_PART_MAX <=? zlen (ls_child st') then Err OutOfBounds
  else Ret (ls_pre st', upd_bnst j (set_b_child (ls_child st')) (ls_sp st')).

(** The exchange sort of the children, the last bunsetsu first. *)
Fixpoint sort_child_pass (num : Z -> Z) (x : Z) (l : list Z) : Z * list Z :=
  match l with
  | [] => (x, [])
  | y :: l' => if num x <? num y then let '(m, r) := sort_child_pass num y l' in (m, x :: r)
               else let '(m, r) := sort_child_pass num x l' in (m, y :: r)
  end.

Fixpoint sort_child_passes (num : Z -> Z) (n : nat) (l : list Z) : list Z :=
  match n, l with
  | S n', x :: l' => let '(m, r) := sort_child_pass num x l' in m :: sort_child_passes num n' r
  | _, _ => l
  end.

Definition sort_children (j : Z) (sp : SENTENCE_DATA) : SENTENCE_DATA :=
  let cs := b_child (bnst_data sp j) in
  if zlen cs <? 2 then sp
  else upd_bnst j (set_b_child (sort_child_passes (fun c => b_num (bnst_data sp c)) (List.length cs - 1) cs)) sp.

Definition make_simple_tree (sp : SENTENCE_DATA) : res SENTENCE_DATA :=
  let buffer := head_buffer sp in
  '(_, sp) <- fold_res (link_row buffer) (rev (zrange 0 (Bnst_num sp))) ([], sp) ;;
  Ret (for_down (Bnst_num sp - 1) 0 sort_children sp).

(** ** Strong coordinations *)

Definition strong_corr_node (p : PARA_DATA) (b : Z) : option Z :=
  match find (fun i => p_max_path p i =? b) (rev (zrange 0 (p_jend_pos p - p_key_pos p))) with
  | Some i => Some (p_key_pos p + i + 1)
  | None => None
  end.

(** The dependant [c] of a bunsetsu of the first conjunct from outside: it is added to the
    corresponding bunsetsus of the other conjuncts. *)
Definition share_dependant (m : PARA_MANAGER) (b c : Z) (sp : SENTENCE_DATA) : res SENTENCE_DATA :=
  let sp := upd_bnst c (set_b_to_para_p true) sp in
  r <- for_res 0 (pm_para_num m) (fun k '(bb, sp) =>
         match bb with
         | None => Ret (None, sp)
         | Some bb =>
             match strong_corr_node (para_data sp (pm_para_data_num m 0 + k)) bb with
             | Some bb => sp <- t_add_node bb c (-1) sp ;; Ret (Some bb, sp)
             | None => Ret (None, sp)
             end
         end) (Some b, sp) ;;
  Ret (snd r).

Definition strong_manager_expand (m : PARA_MANAGER) (sp : SENTENCE_DATA) : res SENTENCE_DATA :=
  if p_status (para_data sp (pm_para_data_num m 0)) =? chr "s" then
    for_res (pm_start m 0) (pm_end m 0) (fun b sp =>
      for_res 0 PARA_PART_MAX (fun j sp =>
        match nth_error (b_child (bnst_data sp b)) (Z.to_nat j) with
        | Some c => if c <? pm_start m 0 then share_dependant m b c sp else Ret sp
        | None => Ret sp
        end) sp) sp
  else Ret sp.

Fixpoint strong_para_expand (fuel : nat) (i : Z) (sp : SENTENCE_DATA) : res SENTENCE_DATA :=
  match fuel with
  | O => Err OutOfFuel
  | S f =>
      let m := para_manager sp i in
      sp <- fold_res (strong_para_expand f) (kids m) sp ;;
      strong_manager_expand m sp
  end.

(** ** The nodes of the coordinations *)

Definition get_correct_postprocessed_bnst_num (sp : SENTENCE_DATA) (num : Z) : Z :=
  match find (fun i => negb (b_num (bnst_data sp i) =? -1)) (rev (zrange 0 (num + 1))) with
  | Some i => i
  | None => Z.min num (-1)
  end.

(** [while (pre_end_ptr < end_ptr->child[1] && ...)] *)
Fixpoint move_children (fuel : nat) (pre_end end_ new : Z) (sp : SENTENCE_DATA) : res SENTENCE_DATA :=
  match fuel with
  | O => Err OutOfFuel
  | S f =>
      match nth_error (b_child (bnst_data sp end_)) 1 with
      | Some c =>
          if (pre_end <? c) && negb (b_para_type (bnst_data sp c) =? PARA_INCOMP) then
            sp <- t_attach_node new c (-1) (t_del_node end_ c sp) ;;
            move_children f pre_end end_ new sp
          else Ret sp
      | None => Ret sp
      end
  end.

Definition mark_conjunct (m : PARA_MANAGER) (i : Z) (sp : SENTENCE_DATA) : res SENTENCE_DATA :=
  let e := get_correct_postprocessed_bnst_num sp (pm_end m i) in
  if e <? 0 then Err OutOfBounds else Ret (upd_bnst e (set_b_para_type PARA_NORMAL) sp).

(** [para_top_expand] after its children. *)
Definition insert_para (m : PARA_MANAGER) (sp : SENTENCE_DATA) : res (bool * SENTENCE_DATA) :=
  if pm_part_num m <? 2 then Err OutOfBounds
  else
    let end_ := get_correct_postprocessed_bnst_num sp (pm_end m (pm_part_num m - 1)) in
    let pre_end := get_correct_postprocessed_bnst_num sp (pm_end m (pm_part_num m - 2)) in
    let new := Bnst_num sp + New_Bnst_num sp in
    let sp := set_New_Bnst_num (New_Bnst_num sp + 1) sp in
    if BNST_MAX <? Bnst_num sp + New_Bnst_num sp then Ret (false, sp)
    else
      let sp := if Max_New_Bnst_num sp <? New_Bnst_num sp then set_Max_New_Bnst_num (New_Bnst_num sp) sp else sp in
      if end_ <? 0 then Err OutOfBounds
      else
        let sp := upd_bnst new (fun _ => set_b_child [] (bnst_data sp end_)) sp in
        sp <- t_attach_node end_ new 0 sp ;;
        sp <- move_children (List.length (b_child (bnst_data sp end_))) pre_end end_ new sp ;;
        let sp := upd_bnst end_ (fun b => set_b_para_top_p true (set_b_para_type PARA_NIL b)) sp in
        let sp := upd_bnst new (set_b_para_type PARA_NORMAL) sp in
        sp <- for_res 0 (pm_part_num m - 1) (mark_conjunct m) sp ;;
        Ret (true, sp).

Fixpoint para_top_expand (fuel : nat) (i : Z) (sp : SENTENCE_DATA) : res (bool * SENTENCE_DATA) :=
  match fuel with
  | O => Err OutOfFuel
  | S f =>
      let m := para_manager sp i in
      ' (ok, sp) <- fold_res (fun c (st : bool * SENTENCE_DATA) =>
                       if fst st then para_top_expand f c (snd st) else Ret st) (kids m) (true, sp) ;;
      if ok then insert_para m sp else Ret (false, sp)
  end.

(** ** The modifiers of coordinations *)

(** The entry [i] of [b]'s children is a modifier: it is added to the conjuncts before the
    first NULL, and its entry is set to NULL. *)
Definition share_modifier (b i c : Z) (sp : SENTENCE_DATA) : res SENTENCE_DATA :=
  let sp := upd_bnst c (set_b_to_para_p true) sp in
  sp <- fold_res (fun d sp =>
          if b_para_type (bnst_data sp d) =? PARA_NORMAL then t_add_node d c (-1) sp else Ret sp)
        (b_child (bnst_data sp b)) sp ;;
  Ret (upd_bnst b (fun n => set_b_child (firstn (Z.to_nat i) (b_child n)) n) sp).

Definition share_modifiers (b : Z) (sp : SENTENCE_DATA) : res SENTENCE_DATA :=
  if b_para_top_p (bnst_data sp b) then
    fold_res (fun '(i, c) sp =>
      if (b_para_type (bnst_data sp c) =? PARA_NIL) && negb (has_feature (b_f (bnst_data sp c)) "係:連用"%string)
      then share_modifier b i c sp else Ret sp)
      (combine (zrange 0 PARA_PART_MAX) (b_child (bnst_data sp b))) sp
  else Ret sp.

Fixpoint para_modifier_expand (fuel : nat) (b : Z) (sp : SENTENCE_DATA) : res SENTENCE_DATA :=
  match fuel with
  | O => Err OutOfFuel
  | S f =>
      sp <- share_modifiers b sp ;;
      for_res 0 PARA_PART_MAX (fun i sp =>
        match nth_error (b_child (bnst_data sp b)) (Z.to_nat i) with
        | Some c => para_modifier_expand f c sp
        | None => Ret sp
        end) sp
  end.

(** ** The tree *)

(** The managers without a parent, in order, until one of them fails. *)
Definition top_managers (sp : SENTENCE_DATA) : list Z :=
  filter (fun i => match pm_parent (para_manager sp i) with None => true | Some _ => false end)
         (zrange 0 (Para_M_num sp)).

Definition manager_fuel (sp : SENTENCE_DATA) : nat := S (Z.to_nat (Para_M_num sp)).

Definition make_dpnd_tree (OptExpandP : bool) (sp : SENTENCE_DATA) : res (bool * SENTENCE_DATA) :=
  let sp := set_New_Bnst_num 0 (init_bnst_tree_property sp) in
  sp <- make_simple_tree sp ;;
  sp <- (if OptExpandP then fold_res (strong_para_expand (manager_fuel sp)) (top_managers sp) sp else Ret sp) ;;
  ' (ok, sp) <- fold_res (fun i (st : bool * SENTENCE_DATA) =>
                   if fst st then para_top_expand (manager_fuel sp) i (snd st) else Ret st)
                 (top_managers sp) (true, sp) ;;
  if negb ok then Ret (false, sp)
  else if OptExpandP then
    sp <- para_modifier_expand (Z.to_nat (BNST_MAX + 1)) (Bnst_num sp - 1) sp ;; Ret (true, sp)
  else Ret (true, sp).
End Tree.

(** * Properties *)

Definition child_of (sp : SENTENCE_DATA) (i : Z) : list Z := b_child (bnst_data sp i).
Definition parent_of (sp : SENTENCE_DATA) (i : Z) : option Z := b_parent (bnst_data sp i).

(** Sentences that differ in the links of their bunsetsus only: the links of [sp']. *)
Definition relinked (sp sp' : SENTENCE_DATA) (ch : Z -> list Z) (pa : Z -> option Z) : Prop :=
  sp' = set_bnst_data (bnst_data sp') sp /\
  forall i, bnst_data sp' i = set_b_child (ch i) (set_b_parent (pa i) (bnst_data sp i)).

Lemma relinked_refl : forall sp, relinked sp sp (child_of sp) (parent_of sp).
Proof.
  intros sp. split; [now destruct sp|]. intros i. unfold child_of, parent_of. now destruct (bnst_data sp i).
Qed.

Lemma relinked_child : forall sp sp' ch pa i, relinked sp sp' ch pa -> child_of sp' i = ch i.
Proof. intros sp sp' ch pa i [_ H]. unfold child_of. now rewrite H. Qed.

Lemma relinked_parent : forall sp sp' ch pa i, relinked sp sp' ch pa -> parent_of sp' i = pa i.
Proof. intros sp sp' ch pa i [_ H]. unfold parent_of. now rewrite H. Qed.

Lemma relinked_trans : forall sp sp1 sp2 ch pa ch' pa',
  relinked sp sp1 ch pa -> relinked sp1 sp2 ch' pa' -> relinked sp sp2 ch' pa'.
Proof.
  intros sp sp1 sp2 ch pa ch' pa' [E1 H1] [E2 H2]. split.
  - rewrite E2, E1. now destruct sp.
  - intros i. rewrite H2, H1. now destruct (bnst_data sp i).
Qed.

Lemma relinked_ext : forall sp sp' ch pa ch' pa', relinked sp sp' ch pa ->
  (forall i, ch i = ch' i) -> (forall i, pa i = pa' i) -> relinked sp sp' ch' pa'.
Proof. intros sp sp' ch pa ch' pa' [E H] Hc Hp. split; [exact E|]. intros i. now rewrite <- Hc, <- Hp. Qed.

Lemma relinked_upd : forall sp i u ch pa,
  (forall j, (if j =? i then u (bnst_data sp i) else bnst_data sp j) =
             set_b_child (ch j) (set_b_parent (pa j) (bnst_data sp j))) -> relinked sp (upd_bnst i u sp) ch pa.
Proof. intros sp i u ch pa H. split; [now destruct sp|]. intros j. rewrite upd_bnst_at. apply H. Qed.

Lemma relinked_set_child : forall sp p cs,
  relinked sp (upd_bnst p (set_b_child cs) sp) (aset (child_of sp) p cs) (parent_of sp).
Proof.
  intros sp p cs. apply relinked_upd. intros j. unfold aset, child_of, parent_of.
  destruct (Z.eqb_spec j p) as [->|]; [now destruct (bnst_data sp p) | now destruct (bnst_data sp j)].
Qed.

Lemma relinked_set_parent : forall sp c v,
  relinked sp (upd_bnst c (set_b_parent v) sp) (child_of sp) (aset (parent_of sp) c v).
Proof.
  intros sp c v. apply relinked_upd. intros j. unfold aset, child_of, parent_of.
  destruct (Z.eqb_spec j c) as [->|]; [now destruct (bnst_data sp c) | now destruct (bnst_data sp j)].
Qed.

Lemma attach_last : forall p c sp, zlen (child_of sp p) + 1 < PARA_PART_MAX -> exists sp',
  t_attach_node p c (-1) sp = Ret sp' /\
  relinked sp sp' (aset (child_of sp) p (child_of sp p ++ [c])) (aset (parent_of sp) c (Some p)).
Proof.
  intros p c sp H. unfold t_attach_node, t_add_node.
  pose proof (relinked_set_parent sp c (Some p)) as R1. pose proof (relinked_child _ _ _ _ p R1) as C1.
  unfold child_of in C1 at 1. rewrite C1. rewrite Z.eqb_refl.
  replace (PARA_PART_MAX <=? zlen (child_of sp p) + 1) with false by lia.
  eexists. split; [reflexivity|]. eapply relinked_trans; [exact R1|].
  eapply relinked_ext; [apply relinked_set_child | |]; intros i; cbn beta.
  - unfold aset. destruct (i =? p); [reflexivity|]. apply (relinked_child _ _ _ _ i R1).
  - apply (relinked_parent _ _ _ _ i R1).
Qed.

Lemma attach_first : forall p c sp, zlen (child_of sp p) + 1 < PARA_PART_MAX -> exists sp',
  t_attach_node p c 0 sp = Ret sp' /\
  relinked sp sp' (aset (child_of sp) p (c :: child_of sp p)) (aset (parent_of sp) c (Some p)).
Proof.
  intros p c sp H. unfold t_attach_node, t_add_node.
  pose proof (relinked_set_parent sp c (Some p)) as R1. pose proof (relinked_child _ _ _ _ p R1) as C1.
  unfold child_of in C1 at 1. rewrite C1. cbn [Z.eqb Z.ltb Z.compare orb].
  pose proof (zlen_pos (child_of sp p)). replace (PARA_PART_MAX <=? Z.max 0 (zlen (child_of sp p) + 1)) with false by lia.
  replace (zlen (child_of sp p) <? 0) with false by lia.
  eexists. split; [reflexivity|]. eapply relinked_trans; [exact R1|].
  eapply relinked_ext; [apply relinked_set_child | |]; intros i; cbn beta.
  - unfold aset. destruct (i =? p); [reflexivity|]. apply (relinked_child _ _ _ _ i R1).
  - apply (relinked_parent _ _ _ _ i R1).
Qed.

Lemma del_spec : forall p c sp, relinked sp (t_del_node p c sp)
  (aset (child_of sp) p (remove_first c (child_of sp p))) (aset (parent_of sp) c None).
Proof.
  intros p c sp. unfold t_del_node.
  assert (R : relinked sp (upd_bnst p (fun b => set_b_child (remove_first c (b_child b)) b) sp)
                (aset (child_of sp) p (remove_first c (child_of sp p))) (parent_of sp)).
  { apply relinked_upd. intros j. unfold aset, child_of, parent_of.
    destruct (Z.eqb_spec j p) as [->|]; [now destruct (bnst_data sp p) | now destruct (bnst_data sp j)]. }
  eapply relinked_trans; [exact R|]. eapply relinked_ext; [apply relinked_set_parent| |]; intros i; cbn beta.
  - apply (relinked_child _ _ _ _ i R).
  - unfold aset. destruct (i =? c); [reflexivity|]. apply (relinked_parent _ _ _ _ i R).
Qed.

(** ** Trees *)

(** The way up from a node ends in the root. *)
Inductive reaches (parent : Z -> option Z) (root : Z) : Z -> Prop :=
| reaches_root : reaches parent root root
| reaches_up : forall c p, parent c = Some p -> reaches parent root p -> reaches parent root c.

(** The nodes below [n] are a tree: the links up and down agree. *)
Record tree (n root : Z) (child : Z -> list Z) (parent : Z -> option Z) : Prop := {
  tr_root : 0 <= root < n /\ parent root = None;
  tr_child : forall p c, 0 <= p < n -> In c (child p) -> 0 <= c < n /\ parent c = Some p;
  tr_parent : forall c, 0 <= c < n -> c <> root -> exists p, parent c = Some p /\ 0 <= p < n /\ In c (child p);
  tr_nodup : forall p, 0 <= p < n -> NoDup (child p);
  tr_reach : forall c, 0 <= c < n -> reaches parent root c
}.

Lemma tree_ext : forall n root child parent child' parent', tree n root child parent ->
  (forall i, 0 <= i < n -> child' i = child i) -> (forall i, 0 <= i < n -> parent' i = parent i) ->
  tree n root child' parent'.
Proof.
  intros n root child parent child' parent' [[R0 R1] C P N W] Hc Hp.
  assert (In' : forall c, 0 <= c < n -> c <> root -> forall p, parent c = Some p -> 0 <= p < n).
  { intros c Hc' Hr p E. destruct (P c Hc' Hr) as (q & E' & Hq & _). congruence. }
  split.
  - split; [exact R0|]. now rewrite Hp.
  - intros p c Hpn Hin. rewrite Hc in Hin by exact Hpn. destruct (C p c Hpn Hin) as [H1 H2].
    split; [exact H1|]. now rewrite Hp.
  - intros c Hcn Hr. destruct (P c Hcn Hr) as (p & E & Hpn & Hin). exists p. rewrite Hp, Hc by assumption. auto.
  - intros p Hpn. rewrite Hc by exact Hpn. auto.
  - intros c Hcn. specialize (W c Hcn). revert Hcn. induction W as [|c p E W IH]; intros Hcn; [constructor|].
    destruct (Z.eq_dec c root) as [->|Hr]; [constructor|].
    apply reaches_up with p; [now rewrite Hp | apply IH; eauto].
Qed.

(** The last node is not below itself. *)
Lemma tree_irrefl : forall n root child parent e, tree n root child parent -> 0 <= e < n -> ~ In e (child e).
Proof.
  intros n root child parent e [[R0 R1] C P N W] He Hin. destruct (C e e He Hin) as [_ E].
  specialize (W e He). induction W as [|c p E' W IH]; [congruence|]. assert (p = c) by congruence. subst p. auto.
Qed.

(** A new node [n] between [e] and its first children [moved]. *)
Lemma tree_insert : forall n root child parent child' parent' e moved rest, tree n root child parent ->
  0 <= e < n -> child e = moved ++ rest ->
  child' n = moved -> child' e = n :: rest -> (forall p, 0 <= p < n -> p <> e -> child' p = child p) ->
  parent' n = Some e -> (forall c, In c moved -> parent' c = Some n) ->
  (forall c, 0 <= c < n -> ~ In c moved -> parent' c = parent c) ->
  tree (n + 1) root child' parent'.
Proof.
  intros n root child parent child' parent' e moved rest T He Ee Cn Ce Co Pn Pm Po.
  pose proof T as [[R0 R1] C P N W].
  assert (Hm : forall c, In c moved -> 0 <= c < n /\ parent c = Some e).
  { intros c Hc. apply (C e c He). rewrite Ee. apply in_or_app. now left. }
  assert (Hr : ~ In root moved) by (intros H; apply Hm in H; destruct H; congruence).
  assert (ND : NoDup (moved ++ rest)) by (rewrite <- Ee; auto).
  assert (Hsep : forall c, In c moved -> ~ In c rest).
  { intros c. now apply NoDup_app_sep. }
  split.
  - split; [lia|]. now rewrite Po.
  - intros p c Hp Hin. destruct (Z.eq_dec p n) as [->|Hpn]; [|destruct (Z.eq_dec p e) as [->|Hpe]].
    + rewrite Cn in Hin. split; [destruct (Hm c Hin); lia | auto].
    + rewrite Ce in Hin. destruct Hin as [<-|Hin]; [split; [lia | auto]|].
      assert (Hin' : In c (child e)) by (rewrite Ee; apply in_or_app; now right).
      destruct (C e c He Hin') as [H1 H2]. split; [lia|]. rewrite Po; [auto | lia|].
      intros Hc. now apply (Hsep c).
    + rewrite Co in Hin by lia. destruct (C p c ltac:(lia) Hin) as [H1 H2]. split; [lia|].
      rewrite Po; [auto|lia|]. intros Hc. destruct (Hm c Hc). congruence.
  - intros c Hc Hcr. destruct (Z.eq_dec c n) as [->|Hcn].
    + exists e. split; [auto|]. split; [lia|]. rewrite Ce. now left.
    + destruct (P c ltac:(lia) Hcr) as (p & E & Hp & Hin). destruct (inb_spec c moved) as [Hcm|Hcm].
      * exists n. split; [auto|]. split; [lia|]. now rewrite Cn.
      * exists p. rewrite Po by (auto; lia). split; [auto|]. split; [lia|].
        destruct (Z.eq_dec p e) as [->|Hpe]; [|now rewrite Co].
        rewrite Ce. right. rewrite Ee in Hin. apply in_app_or in Hin. tauto.
  - intros p Hp. destruct (Z.eq_dec p n) as [->|Hpn]; [|destruct (Z.eq_dec p e) as [->|Hpe]].
    + rewrite Cn. now apply NoDup_app_remove_r in ND.
    + rewrite Ce. constructor; [|now apply NoDup_app_remove_l in ND].
      intros Hin. assert (Hin' : In n (child e)) by (rewrite Ee; apply in_or_app; now right).
      destruct (C e n He Hin'). lia.
    + rewrite Co by lia. apply N. lia.
  - assert (G : forall c, reaches parent root c -> 0 <= c < n -> reaches parent' root c).
    { intros c H. induction H as [|c p E H IH]; intros Hc; [constructor|].
      destruct (Z.eq_dec c root) as [->|Hcr]; [constructor|].
      destruct (P c Hc Hcr) as (q & E' & Hq & _). assert (q = p) by congruence. subst q.
      destruct (inb_spec c moved) as [Hcm|Hcm].
      - apply reaches_up with n; [auto|]. apply reaches_up with e; [auto|].
        destruct (Hm c Hcm) as [_ E2]. assert (p = e) by congruence. subst p. auto.
      - apply reaches_up with p; [now rewrite Po | auto]. }
    intros c Hc. destruct (Z.eq_dec c n) as [->|Hcn]; [|apply G; [apply W|]; lia].
    apply reaches_up with e; [auto|]. apply G; auto.
Qed.

(** ** Inserting a node *)

Lemma remove_first_absent : forall c l, ~ In c l -> remove_first c l = l.
Proof.
  intros c. induction l as [|x l IH]; intros H; auto. cbn [remove_first].
  destruct (Z.eqb_spec x c) as [->|]; [elim H; now left|]. f_equal. apply IH. intros Hin. apply H. now right.
Qed.

(** [move_children] moves the first children of [e] behind the first one. *)
Lemma move_children_spec : forall pre e new f cs acc sp, new <> e ->
  (List.length cs < f)%nat -> child_of sp e = new :: cs -> child_of sp new = acc -> NoDup (new :: cs) -> ~ In e cs ->
  zlen acc + zlen cs < PARA_PART_MAX ->
  exists moved rest sp', move_children f pre e new sp = Ret sp' /\ cs = moved ++ rest /\
    (forall c, In c moved -> pre < c /\ b_para_type (bnst_data sp c) <> PARA_INCOMP) /\
    (forall c l, rest = c :: l -> c <= pre \/ b_para_type (bnst_data sp c) = PARA_INCOMP) /\
    relinked sp sp' (aset (aset (child_of sp) e (new :: rest)) new (acc ++ moved))
      (fun i => if inb i moved then Some new else parent_of sp i).
Proof.
  intros pre e new. induction f as [|f IH]; intros cs acc sp Hne Hf Ce Cn ND He HL; [lia|].
  assert (Done : forall l, cs = l -> relinked sp sp (aset (aset (child_of sp) e (new :: l)) new (acc ++ []))
      (fun i => if inb i [] then Some new else parent_of sp i)).
  { intros l <-. eapply relinked_ext; [apply relinked_refl| |reflexivity]. intros i. unfold aset.
    destruct (Z.eqb_spec i new) as [->|]; [now rewrite app_nil_r|]. destruct (Z.eqb_spec i e) as [->|]; auto. }
  cbn [move_children]. unfold child_of in Ce at 1. rewrite Ce. destruct cs as [|c cs]; cbn [nth_error].
  - exists [], [], sp. split; [reflexivity|]. split; [reflexivity|]. split; [easy|]. split; [easy|]. now apply Done.
  - destruct ((pre <? c) && _) eqn:Hc.
    + apply andb_true_iff in Hc. destruct Hc as [Hc1 Hc2]. apply Z.ltb_lt in Hc1. apply negb_true_iff, Z.eqb_neq in Hc2.
      fold (child_of sp e) in Ce. set (sp1 := t_del_node e c sp). pose proof (del_spec e c sp) as R1. fold sp1 in R1.
      assert (HNc : new <> c) by (inversion ND as [|? ? HN _]; intros ->; apply HN; now left).
      assert (HNe : c <> e) by (intros ->; apply He; now left).
      rewrite Ce in R1. cbn [remove_first] in R1. replace (new =? c) with false in R1 by lia. rewrite Z.eqb_refl in R1.
      assert (C1 : child_of sp1 new = acc) by (rewrite (relinked_child _ _ _ _ _ R1); now rewrite aset_ne).
      rewrite zlen_cons in HL. pose proof (zlen_pos cs).
      destruct (attach_last new c sp1 ltac:(rewrite C1; lia)) as (sp2 & -> & R2). rewrite C1 in R2.
      assert (C2 : child_of sp2 e = new :: cs).
      { rewrite (relinked_child _ _ _ _ _ R2), aset_ne by auto. rewrite (relinked_child _ _ _ _ _ R1). apply aset_eq. }
      assert (C2n : child_of sp2 new = acc ++ [c]) by (rewrite (relinked_child _ _ _ _ _ R2); apply aset_eq).
      assert (ND2 : NoDup (new :: cs)).
      { inversion ND as [|? ? HN ND']. subst. inversion ND'. subst. constructor; [|assumption].
        intros Hin. apply HN. now right. }
      assert (R12 : relinked sp sp2 (aset (aset (child_of sp) e (new :: cs)) new (acc ++ [c])) (aset (parent_of sp) c (Some new))).
      { eapply relinked_ext; [exact (relinked_trans _ _ _ _ _ _ _ R1 R2)| |]; intros i; unfold aset; cbn beta.
        - destruct (Z.eqb_spec i new); [reflexivity|]. apply (relinked_child _ _ _ _ i R1).
        - destruct (Z.eqb_spec i c) as [->|Hi]; [reflexivity|]. rewrite (relinked_parent _ _ _ _ i R1). now rewrite aset_ne. }
      destruct (IH cs (acc ++ [c]) sp2) as (moved & rest & sp' & E & -> & Hm & Hr & R3); auto.
      { cbn [List.length] in Hf. lia. } { intros Hin. apply He. now right. } { rewrite zlen_app. unfold zlen in *. cbn. lia. }
      assert (TY : forall x, b_para_type (bnst_data sp2 x) = b_para_type (bnst_data sp x)).
      { intros x. destruct R12 as [_ H12]. rewrite H12. reflexivity. }
      exists (c :: moved), rest, sp'. split; [exact E|]. split; [reflexivity|].
      split; [|split]; [|intros x l Hx; rewrite <- TY; exact (Hr x l Hx)|].
      * intros x [<-|Hx]; [auto|]. rewrite <- TY. auto.
      * eapply relinked_ext; [exact (relinked_trans _ _ _ _ _ _ _ R12 R3)| |]; intros i; unfold aset; cbn beta.
        -- destruct (Z.eqb_spec i new); [now rewrite <- app_assoc|]. destruct (Z.eqb_spec i e); [reflexivity|].
           rewrite (relinked_child _ _ _ _ i R12). now rewrite !aset_ne.
        -- rewrite (relinked_parent _ _ _ _ i R12). unfold inb, aset. cbn [existsb].
           destruct (existsb (Z.eqb i) moved); [now rewrite orb_true_r|]. rewrite orb_false_r. reflexivity.
    + exists [], (c :: cs), sp. split; [reflexivity|]. split; [reflexivity|]. split; [easy|]. split; [|now apply Done].
      intros x l Hx. injection Hx as <- <-. apply andb_false_iff in Hc. destruct Hc as [Hc|Hc]; [left; lia|right].
      now apply negb_false_iff, Z.eqb_eq in Hc.
Qed.

Lemma get_correct_id : forall sp num, 0 <= num -> b_num (bnst_data sp num) <> -1 ->
  get_correct_postprocessed_bnst_num sp num = num.
Proof.
  intros sp num H0 H. unfold get_correct_postprocessed_bnst_num. rewrite zrange_snoc, rev_app_distr by lia.
  cbn [rev app find]. replace (num + 1 - 1) with num by lia.
  now replace (b_num (bnst_data sp num) =? -1) with false by lia.
Qed.

Lemma mark_conjuncts : forall m l sp,
  (forall k, In k l -> 0 <= pm_end m k /\ b_num (bnst_data sp (pm_end m k)) <> -1) ->
  exists sp', fold_res (mark_conjunct m) l sp = Ret sp' /\ sp' = set_bnst_data (bnst_data sp') sp /\
    forall i, bnst_data sp' i = if inb i (map (pm_end m) l) then set_b_para_type PARA_NORMAL (bnst_data sp i)
                                else bnst_data sp i.
Proof.
  intros m. induction l as [|k l IH]; intros sp H; cbn [fold_res map].
  - exists sp. split; [reflexivity|]. split; [now destruct sp | reflexivity].
  - destruct (H k ltac:(now left)) as [H0 H1]. unfold mark_conjunct at 1. rewrite get_correct_id by assumption.
    replace (pm_end m k <? 0) with false by lia.
    destruct (IH (upd_bnst (pm_end m k) (set_b_para_type PARA_NORMAL) sp)) as (sp' & -> & E & HB).
    { intros x Hx. destruct (H x ltac:(now right)) as [Hx0 Hx1]. split; [exact Hx0|]. rewrite upd_bnst_at.
      destruct (Z.eqb_spec (pm_end m x) (pm_end m k)); auto. }
    exists sp'. split; [reflexivity|]. split; [rewrite E; now destruct sp|].
    intros i. rewrite HB, upd_bnst_at. unfold inb. cbn [existsb].
    destruct (Z.eqb_spec i (pm_end m k)) as [->|]; [|reflexivity]. cbn [orb].
    destruct (existsb _ _); [now destruct (bnst_data sp (pm_end m k)) | reflexivity].
Qed.

Definition last_end (m : PARA_MANAGER) : Z := pm_end m (pm_part_num m - 1).
Definition prev_end (m : PARA_MANAGER) : Z := pm_end m (pm_part_num m - 2).
Definition first_ends (m : PARA_MANAGER) : list Z := map (pm_end m) (zrange 0 (pm_part_num m - 1)).

(** The sentence [sp'] after the insertion of a node for the manager [m], as a function of [sp]. *)
Record inserted (m : PARA_MANAGER) (sp sp' : SENTENCE_DATA) (moved rest : list Z) : Prop := {
  in_frame : Bnst_num sp' = Bnst_num sp /\ New_Bnst_num sp' = New_Bnst_num sp + 1 /\
    Para_M_num sp' = Para_M_num sp /\ para_manager sp' = para_manager sp;
  in_split : child_of sp (last_end m) = moved ++ rest /\
    (forall c, In c moved -> prev_end m < c /\ b_para_type (bnst_data sp c) <> PARA_INCOMP) /\
    (forall c l, rest = c :: l -> c <= prev_end m \/ b_para_type (bnst_data sp c) = PARA_INCOMP);
  in_node : forall i, bnst_data sp' i =
    let new := Bnst_num sp + New_Bnst_num sp in
    let e := last_end m in
    let b := bnst_data sp (if i =? new then e else i) in
    let parent := if i =? new then Some e else if inb i moved then Some new else b_parent b in
    let child := if i =? new then moved else if i =? e then new :: rest else b_child b in
    let type := if (i =? new) || inb i (first_ends m) then PARA_NORMAL else if i =? e then PARA_NIL else b_para_type b in
    let top := if i =? e then true else b_para_top_p b in
    set_b_para_top_p top (set_b_para_type type (set_b_child child (set_b_parent parent b)))
}.

(** The ends of the conjuncts are different bunsetsus, none of them merged. *)
Definition parts_ok (sp : SENTENCE_DATA) (m : PARA_MANAGER) : Prop :=
  2 <= pm_part_num m /\
  (forall k, 0 <= k < pm_part_num m -> 0 <= pm_end m k < Bnst_num sp) /\
  (forall k, 0 <= k < pm_part_num m - 1 -> pm_end m k < pm_end m (k + 1)).

Lemma ends_below : forall sp m k, parts_ok sp m -> 0 <= k < pm_part_num m - 1 -> pm_end m k < last_end m.
Proof.
  intros sp m k (H1 & H2 & H3) Hk. unfold last_end.
  assert (G : forall d, 0 <= d -> forall k, 0 <= k < pm_part_num m - 1 -> pm_part_num m - 2 - k = d ->
            pm_end m k < pm_end m (pm_part_num m - 1)).
  { apply (natlike_ind (fun d => forall k, 0 <= k < pm_part_num m - 1 -> pm_part_num m - 2 - k = d ->
            pm_end m k < pm_end m (pm_part_num m - 1))).
    - intros j Hj E. replace (pm_part_num m - 1) with (j + 1) by lia. apply H3. exact Hj.
    - intros d Hd IH j Hj E. specialize (IH (j + 1) ltac:(lia) ltac:(lia)). specialize (H3 j Hj). lia. }
  apply (G (pm_part_num m - 2 - k)); lia.
Qed.

Lemma insert_para_inserted : forall m sp, parts_ok sp m -> 0 <= New_Bnst_num sp ->
  Bnst_num sp + New_Bnst_num sp < BNST_MAX ->
  (forall i, 0 <= i < Bnst_num sp -> b_num (bnst_data sp i) <> -1) ->
  NoDup (child_of sp (last_end m)) -> ~ In (last_end m) (child_of sp (last_end m)) ->
  ~ In (Bnst_num sp + New_Bnst_num sp) (child_of sp (last_end m)) ->
  zlen (child_of sp (last_end m)) + 1 < PARA_PART_MAX ->
  exists sp' moved rest, insert_para m sp = Ret (true, sp') /\ inserted m sp sp' moved rest.
Proof.
  intros m sp HP HN HM HB ND He Hn HL. pose proof HP as (P1 & P2 & P3).
  assert (He0 : 0 <= last_end m < Bnst_num sp) by (apply P2; lia).
  unfold insert_para. replace (pm_part_num m <? 2) with false by lia.
  assert (G1 : get_correct_postprocessed_bnst_num sp (pm_end m (pm_part_num m - 1)) = last_end m).
  { apply get_correct_id; [apply P2; lia | apply HB, P2; lia]. }
  assert (G2 : get_correct_postprocessed_bnst_num sp (pm_end m (pm_part_num m - 2)) = prev_end m).
  { apply get_correct_id; [apply P2; lia | apply HB, P2; lia]. }
  rewrite G1, G2. clear G1 G2. set (e := last_end m) in *. set (new := Bnst_num sp + New_Bnst_num sp) in *.
  cbn [Bnst_num New_Bnst_num set_New_Bnst_num].
  replace (BNST_MAX <? Bnst_num sp + (New_Bnst_num sp + 1)) with false by lia.
  replace (e <? 0) with false by lia.
  match goal with |- context [t_attach_node e new 0 (upd_bnst new _ ?s)] => set (sp1 := s) end.
  assert (F1 : Bnst_num sp1 = Bnst_num sp /\ New_Bnst_num sp1 = New_Bnst_num sp + 1 /\ bnst_data sp1 = bnst_data sp /\
               Para_M_num sp1 = Para_M_num sp /\ para_manager sp1 = para_manager sp).
  { subst sp1. destruct (_ <? _); repeat split. }
  clearbody sp1. destruct F1 as (F1 & F2 & F3 & F4 & F5).
  set (sp2 := upd_bnst new (fun _ => set_b_child [] (bnst_data sp1 e)) sp1).
  assert (B2 : forall i, bnst_data sp2 i = if i =? new then set_b_child [] (bnst_data sp e) else bnst_data sp i).
  { intros i. subst sp2. rewrite upd_bnst_at, F3. reflexivity. }
  assert (FR2 : sp2 = set_bnst_data (bnst_data sp2) sp1) by now destruct sp1.
  clearbody sp2.
  assert (Hne : new <> e) by lia.
  assert (C2 : child_of sp2 e = child_of sp e) by (unfold child_of; rewrite B2; now replace (e =? new) with false by lia).
  destruct (attach_first e new sp2 ltac:(now rewrite C2)) as (sp3 & -> & R3). rewrite C2 in R3.
  assert (C3 : child_of sp3 e = new :: child_of sp e) by (rewrite (relinked_child _ _ _ _ _ R3); apply aset_eq).
  assert (C3n : child_of sp3 new = []).
  { rewrite (relinked_child _ _ _ _ _ R3), aset_ne by auto. unfold child_of. now rewrite B2, Z.eqb_refl. }
  unfold child_of in C3 at 1. rewrite C3. fold (child_of sp3 e) in C3.
  destruct (move_children_spec (prev_end m) e new (List.length (new :: child_of sp e)) (child_of sp e) [] sp3)
    as (moved & rest & sp4 & -> & E4 & M1 & M2 & R4); auto.
  { constructor; auto. } { unfold zlen in *. cbn. lia. }
  pose proof (relinked_trans _ _ _ _ _ _ _ R3 R4) as [FR4 B4].
  cbn [app] in B4.
  assert (B4' : forall i, bnst_data sp4 i = if i =? new
      then set_b_child moved (set_b_parent (Some e) (bnst_data sp e))
      else set_b_child (if i =? e then new :: rest else b_child (bnst_data sp i))
             (set_b_parent (if inb i moved then Some new else b_parent (bnst_data sp i)) (bnst_data sp i))).
  { intros i. rewrite B4, B2. unfold aset.
    rewrite (relinked_parent _ _ _ _ i R3), (relinked_child _ _ _ _ i R3). unfold aset, child_of, parent_of. rewrite B2.
    destruct (Z.eqb_spec i new) as [->|Hi].
    - destruct (inb_spec new moved) as [Hin|_]; [elim Hn; rewrite E4; apply in_or_app; now left | now destruct (bnst_data sp e)].
    - destruct (Z.eqb_spec i e) as [->|]; reflexivity. }
  clear B4. unfold for_res.
  set (sp6 := upd_bnst new _ (upd_bnst e _ sp4)).
  assert (B6 : forall i, bnst_data sp6 i = if i =? new then set_b_para_type PARA_NORMAL (bnst_data sp4 new)
     else if i =? e then set_b_para_top_p true (set_b_para_type PARA_NIL (bnst_data sp4 e)) else bnst_data sp4 i).
  { intros i. subst sp6. rewrite !upd_bnst_at. destruct (Z.eqb_spec i new) as [->|]; [|reflexivity].
    now replace (new =? e) with false by lia. }
  assert (FR6 : sp6 = set_bnst_data (bnst_data sp6) sp4) by now destruct sp4.
  clearbody sp6.
  assert (N6 : forall i, i <> new -> b_num (bnst_data sp6 i) = b_num (bnst_data sp i)).
  { intros i Hi. rewrite B6, !B4'. replace (i =? new) with false by lia. replace (e =? new) with false by lia.
    destruct (Z.eqb_spec i e) as [->|]; reflexivity. }
  destruct (mark_conjuncts m (zrange 0 (pm_part_num m - 1)) sp6) as (sp7 & -> & FR7 & B7).
  { intros k Hk. apply in_zrange in Hk. specialize (P2 k ltac:(lia)). split; [lia|]. rewrite N6 by lia. now apply HB. }
  exists sp7, moved, rest. split; [reflexivity|]. split.
  - rewrite FR7, FR6, FR4, FR2. cbn. auto.
  - split; [exact E4|]. split.
    + intros c Hc. destruct (M1 c Hc) as [H1 H2]. split; [exact H1|].
      destruct R3 as [_ H3]. rewrite H3 in H2. cbn in H2. rewrite B2 in H2.
      destruct (Z.eqb_spec c new) as [->|]; [|exact H2]. elim Hn. rewrite E4. apply in_or_app. now left.
    + intros c l Hr. destruct (M2 c l Hr) as [H1|H1]; [now left|right].
      destruct R3 as [_ H3]. rewrite H3 in H1. cbn in H1. rewrite B2 in H1.
      destruct (Z.eqb_spec c new) as [->|]; [|exact H1]. elim Hn. rewrite E4, Hr. apply in_or_app. right. now left.
  - intros i. cbv zeta. fold e new. rewrite B7, B6, !B4'. fold (first_ends m). rewrite Z.eqb_refl.
    replace (e =? new) with false by lia. rewrite Z.eqb_refl.
    assert (Hend : In e (first_ends m) -> False).
    { intros Hin. apply in_map_iff in Hin as [k [Ek Hk]]. apply in_zrange in Hk.
      pose proof (ends_below sp m k HP ltac:(lia)). fold e in H. lia. }
    destruct (Z.eqb_spec i new) as [->|Hi]; [|destruct (Z.eqb_spec i e) as [->|Hie]].
    + replace (new =? e) with false by lia. cbn [orb]. destruct (inb new (first_ends m)); now destruct (bnst_data sp e).
    + destruct (inb_spec e (first_ends m)) as [Hin|_]; [now elim Hend|]. now destruct (bnst_data sp e).
    + cbn [orb]. destruct (inb i (first_ends m)); now destruct (bnst_data sp i).
Qed.

(** ** Trees with inserted nodes *)
Section Grow.
Context (sp0 : SENTENCE_DATA) (K : Z).

(** A tree of [sp0]'s bunsetsus and inserted nodes; the arrays of children are filled up to
    [K] entries and one for every inserted node. *)
Record grown (sp : SENTENCE_DATA) : Prop := {
  gr_frame : Bnst_num sp = Bnst_num sp0 /\ Para_M_num sp = Para_M_num sp0 /\ para_manager sp = para_manager sp0;
  gr_new : 0 <= New_Bnst_num sp;
  gr_num : forall i, 0 <= i < Bnst_num sp0 -> b_num (bnst_data sp i) <> -1;
  gr_tree : tree (Bnst_num sp0 + New_Bnst_num sp) (Bnst_num sp0 - 1) (child_of sp) (parent_of sp);
  gr_len : forall i, 0 <= i < Bnst_num sp0 + New_Bnst_num sp -> zlen (child_of sp i) <= K + New_Bnst_num sp
}.

Lemma inserted_grown : forall m sp sp' moved rest, grown sp -> parts_ok sp m ->
  inserted m sp sp' moved rest -> grown sp' /\ New_Bnst_num sp' = New_Bnst_num sp + 1.
Proof.
  intros m sp sp' moved rest [(F1 & F2 & F3) GN GB GT GL] (P1 & P2 & P3) [(I1 & I2 & I3 & I4) (S1 & _ & _) IN].
  assert (He : 0 <= last_end m < Bnst_num sp0) by (rewrite <- F1; apply P2; lia).
  set (e := last_end m) in *. set (new := Bnst_num sp + New_Bnst_num sp) in *.
  assert (Cn : child_of sp' new = moved) by (unfold child_of; rewrite IN; cbn; now rewrite Z.eqb_refl).
  assert (Co : forall i, i <> new -> child_of sp' i = if i =? e then new :: rest else child_of sp i).
  { intros i Hi. unfold child_of. rewrite IN. cbn. fold new e. now replace (i =? new) with false by lia. }
  assert (Ce : child_of sp' e = new :: rest) by (rewrite Co by lia; now rewrite Z.eqb_refl).
  assert (Pn : parent_of sp' new = Some e) by (unfold parent_of; rewrite IN; cbn; now rewrite Z.eqb_refl).
  assert (Po : forall i, i <> new -> parent_of sp' i = if inb i moved then Some new else parent_of sp i).
  { intros i Hi. unfold parent_of. rewrite IN. cbn. fold new. now replace (i =? new) with false by lia. }
  split; [|exact I2]. split.
  - rewrite I1, I3, I4. auto.
  - lia.
  - intros i Hi. rewrite IN. cbn. fold new. replace (i =? new) with false by lia. now apply GB.
  - rewrite I2. replace (Bnst_num sp0 + (New_Bnst_num sp + 1)) with (new + 1) by lia.
    rewrite <- F1 in GT at 1. fold new in GT.
    assert (Hin : forall c, In c moved -> 0 <= c < new).
    { intros c Hc. apply (tr_child _ _ _ _ GT e c); [lia|]. rewrite S1. apply in_or_app. now left. }
    apply (tree_insert _ _ _ _ _ _ e moved rest GT); auto; try lia.
    + intros p Hp Hpe. rewrite Co by lia. now replace (p =? e) with false by lia.
    + intros c Hc. rewrite Po by (specialize (Hin c Hc); lia). now destruct (inb_spec c moved).
    + intros c Hc Hcm. rewrite Po by lia. now destruct (inb_spec c moved).
  - intros i Hi. rewrite I2 in *.
    assert (L : zlen moved + zlen rest <= K + New_Bnst_num sp) by (rewrite <- zlen_app, <- S1; apply GL; lia).
    pose proof (zlen_pos moved). pose proof (zlen_pos rest).
    destruct (Z.eq_dec i new) as [->|Hin]; [rewrite Cn; lia|]. rewrite Co by exact Hin.
    destruct (Z.eqb_spec i e); [rewrite zlen_cons; lia|]. specialize (GL i). lia.
Qed.

Context (cap : Z) (Hcap : Bnst_num sp0 + cap <= BNST_MAX) (HK : K + cap < PARA_PART_MAX).
Context (parts : forall m, 0 <= m < Para_M_num sp0 -> parts_ok sp0 (para_manager sp0 m)).

Lemma insert_para_grown : forall m sp, 0 <= m < Para_M_num sp0 -> grown sp -> New_Bnst_num sp < cap ->
  exists sp' moved rest, insert_para (para_manager sp0 m) sp = Ret (true, sp') /\
    inserted (para_manager sp0 m) sp sp' moved rest /\ grown sp' /\ New_Bnst_num sp' = New_Bnst_num sp + 1.
Proof.
  intros m sp Hm G Hc. pose proof G as [(F1 & F2 & F3) GN GB GT GL].
  assert (PO : parts_ok sp (para_manager sp0 m)) by (unfold parts_ok; rewrite F1; now apply parts).
  assert (He : 0 <= last_end (para_manager sp0 m) < Bnst_num sp0) by (destruct PO as (? & P2 & _); rewrite <- F1; apply P2; lia).
  destruct (insert_para_inserted (para_manager sp0 m) sp) as (sp' & moved & rest & E & I); auto; try lia.
  - rewrite F1. auto.
  - apply (tr_nodup _ _ _ _ GT). lia.
  - apply (tree_irrefl _ _ _ _ _ GT). lia.
  - intros Hin. apply (tr_child _ _ _ _ GT) in Hin; lia.
  - specialize (GL (last_end (para_manager sp0 m)) ltac:(lia)). lia.
  - exists sp', moved, rest. destruct (inserted_grown _ _ _ _ _ G PO I). auto.
Qed.

(** The managers in the order in which [para_top_expand] comes to them. *)
Fixpoint visits (fuel : nat) (i : Z) : list Z :=
  match fuel with
  | O => []
  | S f => (flat_map (visits f) (kids (para_manager sp0 i)) ++ [i])%list
  end.

Hypothesis sp_linked : linked sp0.

Lemma expand_total : forall f i l sp, up_chain sp0 (i :: l) ->
  Forall (fun x => 0 <= x < Para_M_num sp0) (i :: l) -> Para_M_num sp0 < Z.of_nat (f + List.length (i :: l)) ->
  grown sp -> New_Bnst_num sp + zlen (visits f i) <= cap ->
  exists sp', para_top_expand f i sp = Ret (true, sp') /\ grown sp' /\
    New_Bnst_num sp' = New_Bnst_num sp + zlen (visits f i).
Proof.
  induction f as [|f IH]; intros i l sp HC HF Hf G HN; [now elim (up_chain_short sp0 (i :: l))|].
  cbn [para_top_expand visits] in *. assert (Hi : 0 <= i < Para_M_num sp0) by now inv HF.
  replace (para_manager sp i) with (para_manager sp0 i) by (destruct (gr_frame _ G) as (_ & _ & ->); reflexivity).
  rewrite zlen_app in *. change (zlen [i]) with 1 in *.
  assert (Kids : forall cs sp, incl cs (kids (para_manager sp0 i)) -> grown sp ->
     New_Bnst_num sp + zlen (flat_map (visits f) cs) <= cap ->
     exists sp', fold_res (fun c (st : bool * SENTENCE_DATA) =>
                       if fst st then para_top_expand f c (snd st) else Ret st) cs (true, sp) = Ret (true, sp') /\
       grown sp' /\ New_Bnst_num sp' = New_Bnst_num sp + zlen (flat_map (visits f) cs)).
  { clear sp G HN. induction cs as [|c cs IHc]; intros sp Hincl G HN.
    - exists sp. split; [reflexivity|]. split; [exact G|]. change (zlen (flat_map (visits f) [])) with 0. lia.
    - cbn [fold_res flat_map fst snd] in *. rewrite zlen_app in *.
      pose proof (zlen_pos (flat_map (visits f) cs)).
      destruct (sp_linked i c Hi (Hincl c (or_introl eq_refl))) as [Hr Hp].
      destruct (IH c (i :: l) sp) as (sp1 & -> & G1 & N1); auto; try lia.
      { now apply up_chain_cons. } { cbn [List.length] in *. lia. }
      destruct (IHc sp1) as (sp2 & -> & G2 & N2); auto; try lia.
      { intros x Hx. apply Hincl. now right. }
      exists sp2. split; [reflexivity|]. split; [exact G2|lia]. }
  destruct (Kids (kids (para_manager sp0 i)) sp) as (sp1 & -> & G1 & N1); auto; try lia; [apply incl_refl|].
  destruct (insert_para_grown i sp1 Hi G1) as (sp2 & moved & rest & -> & _ & G2 & N2); [lia|].
  exists sp2. split; [reflexivity|]. split; [exact G2|lia].
Qed.

(** Every manager is visited once. *)
Lemma visits_chain : forall f i l x, up_chain sp0 (i :: l) -> 0 <= i < Para_M_num sp0 -> In x (visits f i) ->
  0 <= x < Para_M_num sp0 /\ exists w pre, up_chain sp0 (x :: w) /\ x :: w = pre ++ i :: l.
Proof.
  induction f as [|f IH]; intros i l x HC Hi Hx; [destruct Hx|]. cbn [visits] in Hx.
  apply in_app_or in Hx as [Hx|[->|[]]]; [|split; [exact Hi|]; now exists l, []].
  apply in_flat_map in Hx as [c [Hc Hx]]. destruct (sp_linked i c Hi Hc) as [Hr Hp].
  destruct (IH c (i :: l) x) as [Hxr (w & pre & Hw & E)]; auto; [now apply up_chain_cons|].
  split; [exact Hxr|]. exists w, (pre ++ [c]). split; [exact Hw|]. rewrite <- app_assoc. exact E.
Qed.

Lemma chain_ends : forall x w w' pre pre' i j l l', up_chain sp0 (x :: w) -> x :: w = pre ++ i :: l ->
  up_chain sp0 (x :: w') -> x :: w' = pre' ++ j :: l' -> List.length l = List.length l' -> i = j.
Proof.
  intros x w w' pre pre' i j l l' H E H' E' L. pose proof (up_chain_det _ _ _ _ H H') as <-. rewrite E in E'.
  assert (HL : List.length pre = List.length pre').
  { apply (f_equal (@List.length Z)) in E'. rewrite !length_app in E'. cbn in E'. lia. }
  pose proof (app_prefix_eq _ _ _ _ E' HL) as ->. apply app_inv_head in E'. congruence.
Qed.

Hypothesis kids_once : forall m, 0 <= m < Para_M_num sp0 -> NoDup (kids (para_manager sp0 m)).

Lemma visits_once : forall f i l, up_chain sp0 (i :: l) -> 0 <= i < Para_M_num sp0 -> NoDup (visits f i).
Proof.
  induction f as [|f IH]; intros i l HC Hi; [constructor|]. cbn [visits].
  assert (KC : forall c, In c (kids (para_manager sp0 i)) -> 0 <= c < Para_M_num sp0 /\ up_chain sp0 (c :: i :: l)).
  { intros c Hc. destruct (sp_linked i c Hi Hc) as [Hr Hp]. split; [exact Hr|]. now apply up_chain_cons. }
  apply NoDup_app.
  - apply NoDup_flat_map; [now apply kids_once| |].
    + intros c Hc. destruct (KC c Hc). eauto.
    + intros c d x Hc Hd H1 H2. destruct (KC c Hc) as [Rc Cc], (KC d Hd) as [Rd Cd].
      destruct (visits_chain f c _ x Cc Rc H1) as [_ (w & pre & Hw & E)].
      destruct (visits_chain f d _ x Cd Rd H2) as [_ (w' & pre' & Hw' & E')].
      exact (chain_ends x w w' pre pre' c d _ _ Hw E Hw' E' eq_refl).
  - constructor; [easy|constructor].
  - intros x Hx [<-|[]]. apply in_flat_map in Hx as [c [Hc Hx]]. destruct (KC c Hc) as [Rc Cc].
    destruct (visits_chain f c _ i Cc Rc Hx) as [_ (w & pre & Hw & E)].
    pose proof (up_chain_det _ _ _ _ HC Hw) as <-.
    apply (f_equal (@List.length Z)) in E. rewrite length_app in E. cbn in E. lia.
Qed.

Lemma tops_chain : forall i, In i (top_managers sp0) -> 0 <= i < Para_M_num sp0 /\ up_chain sp0 [i].
Proof.
  intros i Hi. unfold top_managers in Hi. apply filter_In in Hi as [Hi Hp]. apply in_zrange in Hi.
  split; [exact Hi|]. cbn. now destruct (pm_parent (para_manager sp0 i)).
Qed.

Lemma visits_count : forall f, 0 <= Para_M_num sp0 -> zlen (flat_map (visits f) (top_managers sp0)) <= Para_M_num sp0.
Proof.
  intros f HM. set (vs := flat_map _ _). assert (ND : NoDup vs).
  { apply NoDup_flat_map; [apply NoDup_filter, NoDup_zrange| |].
    - intros i Hi. destruct (tops_chain i Hi). eapply visits_once; eauto.
    - intros i j x Hi Hj H1 H2. destruct (tops_chain i Hi) as [Ri Ci], (tops_chain j Hj) as [Rj Cj].
      destruct (visits_chain f i _ x Ci Ri H1) as [_ (w & pre & Hw & E)].
      destruct (visits_chain f j _ x Cj Rj H2) as [_ (w' & pre' & Hw' & E')].
      exact (chain_ends x w w' pre pre' i j _ _ Hw E Hw' E' eq_refl). }
  assert (I : incl vs (zrange 0 (Para_M_num sp0))).
  { intros x Hx. apply in_flat_map in Hx as [i [Hi Hx]]. destruct (tops_chain i Hi) as [Ri Ci].
    apply in_zrange. apply (visits_chain f i _ x Ci Ri Hx). }
  pose proof (NoDup_incl_length ND I) as L. rewrite length_zrange in L. unfold zlen. lia.
Qed.

(** The loop over the managers without a parent. *)
Lemma expand_tops : 0 <= Para_M_num sp0 <= cap -> forall sp, grown sp -> New_Bnst_num sp = 0 ->
  exists sp', fold_res (fun i (st : bool * SENTENCE_DATA) =>
                   if fst st then para_top_expand (manager_fuel sp0) i (snd st) else Ret st)
                 (top_managers sp0) (true, sp) = Ret (true, sp') /\ grown sp' /\
    New_Bnst_num sp' <= Para_M_num sp0.
Proof.
  intros HM sp G HN. pose proof (visits_count (manager_fuel sp0) ltac:(lia)) as HV.
  assert (T : forall l sp, incl l (top_managers sp0) -> grown sp ->
     New_Bnst_num sp + zlen (flat_map (visits (manager_fuel sp0)) l) <= cap ->
     exists sp', fold_res (fun i (st : bool * SENTENCE_DATA) =>
                   if fst st then para_top_expand (manager_fuel sp0) i (snd st) else Ret st) l (true, sp) = Ret (true, sp') /\
       grown sp' /\ New_Bnst_num sp' = New_Bnst_num sp + zlen (flat_map (visits (manager_fuel sp0)) l)).
  { clear sp G HN HV. induction l as [|i l IH]; intros sp Hincl G HN.
    - exists sp. split; [reflexivity|]. split; [exact G|]. change (zlen (flat_map _ [])) with 0. lia.
    - cbn [fold_res flat_map fst snd] in *. rewrite zlen_app in *.
      pose proof (zlen_pos (flat_map (visits (manager_fuel sp0)) l)).
      destruct (tops_chain i (Hincl i (or_introl eq_refl))) as [Ri Ci].
      destruct (expand_total (manager_fuel sp0) i [] sp) as (sp1 & -> & G1 & N1); auto; try lia.
      { unfold manager_fuel. cbn [List.length]. lia. }
      destruct (IH sp1) as (sp2 & -> & G2 & N2); auto; try lia.
      { intros x Hx. apply Hincl. now right. }
      exists sp2. split; [reflexivity|]. split; [exact G2|lia]. }
  destruct (T (top_managers sp0) sp) as (sp' & -> & G' & N'); auto; [apply incl_refl|lia|].
  exists sp'. split; [reflexivity|]. split; [exact G'|lia].
Qed.
End Grow.

(** ** The simple tree *)
Section Simple.
Context (Mask_matrix : matrix Z) (buffer : array Z).

Definition dependants (j : Z) : list Z := filter (fun i => buffer i =? j) (rev (zrange 0 j)).

Lemma in_dependants : forall i j, In i (dependants j) <-> 0 <= i < j /\ buffer i = j.
Proof.
  intros i j. unfold dependants. rewrite filter_In, <- in_rev, in_zrange, Z.eqb_eq. reflexivity.
Qed.

Lemma NoDup_dependants : forall j, NoDup (dependants j).
Proof. intros j. apply NoDup_filter, NoDup_rev, NoDup_zrange. Qed.

(** The dependant [i] of [j]. *)
Definition link (j i : Z) (b : BNST_DATA) : BNST_DATA :=
  let b := set_b_parent (Some j) b in
  if Mask_matrix i j =? 3 then set_b_para_type PARA_INCOMP b else b.

Lemma b_num_link : forall j i b, b_num (link j i b) = b_num b.
Proof. intros j i b. unfold link. now destruct (_ =? 3). Qed.

Lemma b_child_link : forall j i b, b_child (link j i b) = b_child b.
Proof. intros j i b. unfold link. now destruct (_ =? 3). Qed.

Lemma link_set_child : forall j i cs b, link j i (set_b_child cs b) = set_b_child cs (link j i b).
Proof. intros j i cs b. unfold link. now destruct (_ =? 3), b. Qed.

Lemma upd_each : forall (g : Z -> BNST_DATA -> BNST_DATA) l sp, NoDup l ->
  let sp' := fold_left (fun sp i => upd_bnst i (g i) sp) l sp in
  sp' = set_bnst_data (bnst_data sp') sp /\
  forall i, bnst_data sp' i = if inb i l then g i (bnst_data sp i) else bnst_data sp i.
Proof.
  intros g. induction l as [|x l IH]; intros sp ND; cbn [fold_left].
  - split; [now destruct sp | reflexivity].
  - inversion ND as [|? ? Hx ND']. subst. destruct (IH (upd_bnst x (g x) sp) ND') as [E H]. split.
    + cbv zeta. rewrite E. now destruct sp.
    + intros i. cbv zeta. rewrite H, !upd_bnst_at. unfold inb. cbn [existsb].
      destruct (Z.eqb_spec i x) as [->|]; [|reflexivity]. cbn [orb].
      fold (inb x l). now destruct (inb_spec x l).
Qed.

Lemma link_dependants : forall j l cs sp, b_num (bnst_data sp j) <> -1 ->
  (forall i, In i l -> b_num (bnst_data sp i) <> -1) ->
  zlen cs + zlen (filter (fun i => buffer i =? j) l) < PARA_PART_MAX ->
  fold_res (link_dependant Mask_matrix buffer j) l (mkLS cs [] false sp) =
  Ret (mkLS (cs ++ filter (fun i => buffer i =? j) l) [] false
         (fold_left (fun sp i => upd_bnst i (link j i) sp) (filter (fun i => buffer i =? j) l) sp)).
Proof.
  intros j. induction l as [|i l IH]; intros cs sp Hj Hl HL; cbn [fold_res filter].
  - now rewrite app_nil_r.
  - unfold link_dependant at 1. cbn [filter] in HL.
    replace (b_num (bnst_data sp i) =? -1) with false by (specialize (Hl i (or_introl eq_refl)); lia).
    replace (b_num (bnst_data sp j) =? -1) with false by lia. cbn [orb andb].
    destruct (buffer i =? j) eqn:E; cbn [negb] in *.
    + pose proof (zlen_pos (filter (fun i => buffer i =? j) l)). rewrite zlen_cons in HL. rewrite !zlen_app, zlen_cons.
      change (zlen (A := Z) []) with 0. rewrite !(proj2 (Z.ltb_ge _ _)) by (unfold PARA_PART_MAX in *; lia).
      replace (PARA_PART_MAX <=? zlen cs + (0 + 1)) with false by lia. cbn [orb].
      rewrite IH; cbn [fold_left].
      * rewrite <- app_assoc. reflexivity.
      * rewrite upd_bnst_at. destruct (Z.eqb_spec j i) as [<-|]; [|exact Hj]. destruct (_ =? 3); exact Hj.
      * intros x Hx. specialize (Hl x (or_intror Hx)). rewrite upd_bnst_at. destruct (Z.eqb_spec x i) as [->|]; [|exact Hl].
        destruct (_ =? 3); exact Hl.
      * rewrite zlen_app, zlen_cons. change (zlen (A := Z) []) with 0. lia.
    + rewrite IH; auto. intros x Hx. apply Hl. now right.
Qed.

(** A node after the rows of [rows]. *)
Definition row_node (rows : list Z) (i : Z) (b : BNST_DATA) : BNST_DATA :=
  let b := if (0 <=? i) && (i <? buffer i) && inb (buffer i) rows then link (buffer i) i b else b in
  if inb i rows then set_b_child (dependants i) b else b.

Lemma link_row_spec : forall j sp, 0 <= j -> (forall i, 0 <= i <= j -> b_num (bnst_data sp i) <> -1) ->
  zlen (dependants j) < PARA_PART_MAX ->
  exists sp', link_row Mask_matrix buffer j ([], sp) = Ret ([], sp') /\ sp' = set_bnst_data (bnst_data sp') sp /\
    forall i, bnst_data sp' i = row_node [j] i (bnst_data sp i).
Proof.
  intros j sp Hj HB HL. unfold link_row. rewrite link_dependants.
  2: { apply HB. lia. } 2: { intros i Hi. apply in_rev, in_zrange in Hi. apply HB. lia. } 2: exact HL.
  fold (dependants j). cbn [app ls_child ls_pre ls_sp]. replace (PARA_PART_MAX <=? zlen (dependants j)) with false by lia.
  destruct (upd_each (link j) (dependants j) sp (NoDup_dependants j)) as [E H].
  eexists. split; [reflexivity|]. split.
  - rewrite E. now destruct sp.
  - intros i. rewrite upd_bnst_at, !H. unfold row_node.
    destruct (inb_spec i (dependants j)) as [Hin|Hin].
    + apply in_dependants in Hin as [Hi Hb]. replace (i =? j) with false by lia. rewrite Hb.
      unfold inb. cbn [existsb]. rewrite Z.eqb_refl. replace (0 <=? i) with true by lia. replace (i <? j) with true by lia.
      replace (i =? j) with false by lia. reflexivity.
    + assert (Hd : ((0 <=? i) && (i <? buffer i) && inb (buffer i) [j])%bool = false).
      { destruct (Z.leb_spec 0 i); [|reflexivity]. destruct (Z.ltb_spec i (buffer i)); [|reflexivity].
        unfold inb. cbn [andb existsb]. rewrite orb_false_r. apply Z.eqb_neq. intros Hb. apply Hin, in_dependants. lia. }
      rewrite Hd. unfold inb. cbn [existsb]. rewrite orb_false_r. destruct (Z.eqb_spec i j) as [->|]; [|reflexivity].
      destruct (existsb (Z.eqb j) (dependants j)) eqn:Ej; [|reflexivity].
      exfalso. apply Hin. now apply (reflect_iff _ _ (inb_spec j (dependants j))).
Qed.

Lemma link_rows_spec : forall rows sp, NoDup rows ->
  (forall j, In j rows -> 0 <= j /\ zlen (dependants j) < PARA_PART_MAX) ->
  (forall j i, In j rows -> 0 <= i <= j -> b_num (bnst_data sp i) <> -1) ->
  exists sp', fold_res (link_row Mask_matrix buffer) rows ([], sp) = Ret ([], sp') /\
    sp' = set_bnst_data (bnst_data sp') sp /\
    forall i, bnst_data sp' i = row_node rows i (bnst_data sp i).
Proof.
  induction rows as [|j rows IH]; intros sp ND HR HB; cbn [fold_res].
  - exists sp. split; [reflexivity|]. split; [now destruct sp|]. intros i. unfold row_node.
    cbn. now rewrite andb_false_r.
  - inversion ND as [|? ? Hj ND']. subst. destruct (HR j (or_introl eq_refl)) as [Hj0 HjL].
    destruct (link_row_spec j sp Hj0) as (sp1 & -> & E1 & B1); auto. { intros i Hi. apply (HB j); auto. now left. }
    assert (N1 : forall i, b_num (bnst_data sp1 i) = b_num (bnst_data sp i)).
    { intros i. rewrite B1. unfold row_node. destruct (_ && _ && _), (inb i [j]); cbn; now rewrite ?b_num_link. }
    destruct (IH sp1 ND') as (sp2 & -> & E2 & B2).
    { intros x Hx. apply HR. now right. } { intros x i Hx Hi. rewrite N1. apply (HB x); auto. now right. }
    exists sp2. split; [reflexivity|]. split; [rewrite E2, E1; now destruct sp|].
    intros i. rewrite B2, B1. unfold row_node. set (c := (0 <=? i) && (i <? buffer i)).
    unfold inb. cbn [existsb]. rewrite !orb_false_r. fold (inb i rows) (inb (buffer i) rows).
    destruct (Z.eqb_spec i j) as [->|Hi]; cbn [orb].
    + destruct (inb_spec j rows) as [Hin|_]; [now elim Hj|].
      destruct c; cbn [andb]; [|reflexivity]. destruct (Z.eqb_spec (buffer j) j) as [->|]; cbn [orb].
      * destruct (inb_spec j rows); [easy|reflexivity].
      * destruct (inb (buffer j) rows); now rewrite ?link_set_child.
    + destruct c; cbn [andb]; [|reflexivity]. destruct (Z.eqb_spec (buffer i) j) as [->|]; cbn [orb]; [|reflexivity].
      destruct (inb_spec j rows); [easy|reflexivity].
Qed.
End Simple.

(** A sorted list stays as it is. *)
Lemma sort_child_pass_sorted : forall num l x, (forall y, In y l -> num y <= num x) -> sort_child_pass num x l = (x, l).
Proof.
  intros num. induction l as [|y l IH]; intros x H; cbn [sort_child_pass]; [reflexivity|].
  replace (num x <? num y) with false by (specialize (H y (or_introl eq_refl)); lia).
  rewrite IH; auto. intros z Hz. apply H. now right.
Qed.

Lemma sort_child_passes_sorted : forall num n l, StronglySorted (fun x y => num y <= num x) l -> sort_child_passes num n l = l.
Proof.
  intros num. induction n as [|n IH]; intros [|x l] H; cbn [sort_child_passes]; auto.
  inversion H as [|? ? H1 H2]. subst. rewrite sort_child_pass_sorted.
  - f_equal. now apply IH.
  - intros y Hy. rewrite Forall_forall in H2. auto.
Qed.

Lemma sorted_rev_zrange : forall n, StronglySorted (fun x y => y < x) (rev (zrange 0 (Z.of_nat n))).
Proof.
  induction n as [|n IH]; [constructor|]. rewrite zrange_snoc, rev_app_distr by lia. cbn [rev app].
  replace (Z.of_nat (S n) - 1) with (Z.of_nat n) by lia. constructor; [exact IH|].
  apply Forall_forall. intros y Hy. apply in_rev, in_zrange in Hy. lia.
Qed.

Lemma dependants_sorted : forall buffer j, StronglySorted (fun x y => y < x) (dependants buffer j).
Proof.
  intros buffer j. apply StronglySorted_filter. destruct (Z_le_gt_dec j 0).
  - rewrite zrange_nil by lia. constructor.
  - replace j with (Z.of_nat (Z.to_nat j)) by lia. apply sorted_rev_zrange.
Qed.

Lemma sort_children_same : forall j sp,
  StronglySorted (fun x y => b_num (bnst_data sp y) <= b_num (bnst_data sp x)) (child_of sp j) ->
  sort_children j sp = set_bnst_data (bnst_data (sort_children j sp)) sp /\
  forall i, bnst_data (sort_children j sp) i = bnst_data sp i.
Proof.
  intros j sp H. unfold sort_children. fold (child_of sp j).
  destruct (zlen (child_of sp j) <? 2); [split; [now destruct sp|reflexivity]|].
  rewrite (sort_child_passes_sorted (fun c => b_num (bnst_data sp c))) by exact H.
  split; [now destruct sp|]. intros i. rewrite upd_bnst_at. destruct (Z.eqb_spec i j) as [->|]; [|reflexivity].
  unfold child_of. now destruct (bnst_data sp j).
Qed.

Section Links.
Context (Mask_matrix : matrix Z).

Lemma make_simple_tree_nodes : forall sp, 0 <= Bnst_num sp ->
  (forall i, 0 <= i < Bnst_num sp -> b_num (bnst_data sp i) = i) ->
  (forall j, 0 <= j < Bnst_num sp -> zlen (dependants (head_buffer Mask_matrix sp) j) < PARA_PART_MAX) ->
  exists sp', make_simple_tree Mask_matrix sp = Ret sp' /\ sp' = set_bnst_data (bnst_data sp') sp /\
    forall i, bnst_data sp' i =
      row_node Mask_matrix (head_buffer Mask_matrix sp) (rev (zrange 0 (Bnst_num sp))) i (bnst_data sp i).
Proof.
  intros sp Hn HB HL. unfold make_simple_tree. set (buffer := head_buffer Mask_matrix sp) in *.
  destruct (link_rows_spec Mask_matrix buffer (rev (zrange 0 (Bnst_num sp))) sp) as (sp1 & -> & E1 & B1).
  - apply NoDup_rev, NoDup_zrange.
  - intros j Hj. apply in_rev, in_zrange in Hj. split; [lia | now apply HL].
  - intros j i Hj Hi. apply in_rev, in_zrange in Hj. rewrite HB by lia. lia.
  - assert (C1 : forall j, 0 <= j < Bnst_num sp -> child_of sp1 j = dependants buffer j).
    { intros j Hj. unfold child_of. rewrite B1. unfold row_node.
      destruct (inb_spec j (rev (zrange 0 (Bnst_num sp)))) as [_|H]; [reflexivity|].
      elim H. apply in_rev. rewrite rev_involutive. now apply in_zrange. }
    assert (N1 : forall i, 0 <= i < Bnst_num sp -> b_num (bnst_data sp1 i) = i).
    { intros i Hi. rewrite <- (HB i Hi) at 2. rewrite B1. unfold row_node.
      destruct (_ && _ && _), (inb i _); cbn; now rewrite ?b_num_link. }
    replace (Bnst_num sp1) with (Bnst_num sp) by now rewrite E1.
    assert (G : let s := for_down (Bnst_num sp - 1) 0 sort_children sp1 in
      s = set_bnst_data (bnst_data s) sp1 /\ forall i, bnst_data s i = bnst_data sp1 i).
    { cbv zeta. unfold for_down. apply (fold_left_inv _ (fun s => s = set_bnst_data (bnst_data s) sp1 /\
                                  forall i, bnst_data s i = bnst_data sp1 i)); [|split; [now destruct sp1|reflexivity]].
      intros j s Hj [Es Hs]. apply in_rev, in_zrange in Hj.
      destruct (sort_children_same j s) as [E2 H2].
      - unfold child_of. rewrite Hs. fold (child_of sp1 j). rewrite C1 by lia.
        assert (S := dependants_sorted buffer j). assert (I : forall x, In x (dependants buffer j) -> 0 <= x < Bnst_num sp).
        { intros x Hx. apply in_dependants in Hx. lia. }
        induction S as [|x l S IH F]; constructor.
        + apply IH. intros y Hy. apply I. now right.
        + rewrite Forall_forall in *. intros y Hy. specialize (F y Hy). rewrite !Hs, !N1; [lia| |]; apply I; cbn; auto.
      - split; [rewrite E2, Es; now destruct sp1|]. intros i. now rewrite H2, Hs. }
    cbv zeta in G. destruct G as [Es Hs]. eexists. split; [reflexivity|]. split.
    + rewrite Es, E1. now destruct sp.
    + intros i. rewrite Hs. apply B1.
Qed.

(** The heads follow their dependants. *)
Definition heads_right (sp : SENTENCE_DATA) : Prop := forall i, 0 <= i < Bnst_num sp - 1 ->
  i < b_dpnd_head (bnst_data sp i) < Bnst_num sp.

Lemma head_buffer_right : forall sp, heads_right sp ->
  (forall m, 0 <= m < Para_M_num sp -> parts_ok sp (para_manager sp m)) ->
  forall i, 0 <= i < Bnst_num sp - 1 -> i < head_buffer Mask_matrix sp i < Bnst_num sp.
Proof.
  intros sp HR HP. unfold head_buffer. set (P := fun b : array Z => forall i, 0 <= i < Bnst_num sp - 1 -> i < b i < Bnst_num sp).
  match goal with |- forall i, _ -> i < ?f i < _ => change (P f) end.
  unfold for_up at 1. apply fold_left_inv.
  - intros m b Hm Hb. apply in_zrange in Hm. pose proof (HP m Hm) as HPm. destruct HPm as (P1 & P2 & P3).
    unfold for_up at 1. apply fold_left_inv; [|exact Hb].
    intros j b1 Hj Hb1. apply in_zrange in Hj.
    pose proof (ends_below sp _ j (HP m Hm) ltac:(lia)) as HE. unfold last_end in HE.
    specialize (P2 (pm_part_num (para_manager sp m) - 1) ltac:(lia)).
    unfold for_up. apply fold_left_inv.
    + intros k b2 Hk Hb2. apply in_zrange in Hk. destruct (_ =? 3); [|exact Hb2].
      intros i Hi. unfold aset. destruct (Z.eqb_spec i k); [lia | now apply Hb2].
    + intros i Hi. unfold aset. destruct (Z.eqb_spec i (pm_end (para_manager sp m) j)); [lia | now apply Hb1].
  - assert (G : forall n, 0 <= n -> n <= Bnst_num sp - 1 -> forall b i, 0 <= i < n ->
      for_up 0 n (fun i b => aset b i (b_dpnd_head (bnst_data sp i))) b i = b_dpnd_head (bnst_data sp i)).
    { apply (natlike_ind (fun n => n <= Bnst_num sp - 1 -> forall b i, 0 <= i < n ->
        for_up 0 n (fun i b => aset b i (b_dpnd_head (bnst_data sp i))) b i = b_dpnd_head (bnst_data sp i))); [lia|].
      intros n Hn IH Hle b i Hi. rewrite for_up_snoc by lia. replace (Z.succ n - 1) with n by lia. unfold aset at 1.
      destruct (Z.eqb_spec i n) as [->|]; [reflexivity|]. apply IH; lia. }
    intros i Hi. rewrite G by lia. now apply HR.
Qed.

(** Links by a table of heads to the right are a tree. *)
Lemma right_heads_tree : forall n buffer child parent, 0 < n ->
  (forall i, 0 <= i < n - 1 -> i < buffer i < n) ->
  (forall j, 0 <= j < n -> NoDup (child j)) ->
  (forall j c, 0 <= j < n -> (In c (child j) <-> 0 <= c < n - 1 /\ buffer c = j)) ->
  (forall i, 0 <= i < n -> parent i = if i =? n - 1 then None else Some (buffer i)) ->
  tree n (n - 1) child parent.
Proof.
  intros n buffer child parent Hn HB HN HC HP.
  assert (PS : forall i, 0 <= i < n - 1 -> parent i = Some (buffer i)).
  { intros i Hi. rewrite HP by lia. now replace (i =? n - 1) with false by lia. }
  split.
  - split; [lia|]. rewrite HP by lia. now rewrite Z.eqb_refl.
  - intros p c Hp Hin. apply HC in Hin as [H1 H2]; [|exact Hp]. split; [lia|]. rewrite PS by lia. now rewrite H2.
  - intros c Hc Hr. exists (buffer c). specialize (HB c ltac:(lia)). split; [apply PS; lia|]. split; [lia|].
    apply HC; [lia|]. split; [lia | reflexivity].
  - exact HN.
  - assert (G : forall d, 0 <= d -> forall c, 0 <= c < n -> n - 1 - c <= d -> reaches parent (n - 1) c).
    { apply (natlike_ind (fun d => forall c, 0 <= c < n -> n - 1 - c <= d -> reaches parent (n - 1) c)).
      - intros c Hc Hd. replace c with (n - 1) by lia. constructor.
      - intros d Hd IH c Hc Hle. destruct (Z.eq_dec c (n - 1)) as [->|Hr]; [constructor|].
        specialize (HB c ltac:(lia)). apply reaches_up with (buffer c); [apply PS; lia | apply IH; lia]. }
    intros c Hc. apply (G (n - 1 - c)); lia.
Qed.

(** The links of the bunsetsus by a table of heads are a tree. *)
Lemma heads_tree : forall n buffer child parent, 0 < n ->
  (forall i, 0 <= i < n - 1 -> i < buffer i < n) ->
  (forall j, 0 <= j < n -> child j = dependants buffer j) ->
  (forall i, 0 <= i < n -> parent i = if i =? n - 1 then None else Some (buffer i)) ->
  tree n (n - 1) child parent.
Proof.
  intros n buffer child parent Hn HB HC HP. apply (right_heads_tree n buffer); auto.
  - intros j Hj. rewrite HC by exact Hj. apply NoDup_dependants.
  - intros j c Hj. rewrite HC by exact Hj. rewrite in_dependants. split; [lia|].
    intros [H1 H2]. specialize (HB c H1). lia.
Qed.

Lemma init_tree_at : forall sp sp', sp' = init_bnst_tree_property sp ->
  sp' = set_bnst_data (bnst_data sp') sp /\
  forall i, bnst_data sp' i = if within 0 i BNST_MAX then clear_tree (bnst_data sp i) else bnst_data sp i.
Proof.
  intros sp sp' ->. unfold init_bnst_tree_property, for_up.
  destruct (upd_each (fun _ => clear_tree) (zrange 0 BNST_MAX) sp (NoDup_zrange 0 BNST_MAX)) as [E H].
  split; [exact E|]. intros i. rewrite H.
  destruct (inb_spec i (zrange 0 BNST_MAX)) as [Hi|Hi]; rewrite in_zrange in Hi; destruct (within_spec 0 i BNST_MAX);
    auto; lia.
Qed.

Lemma head_buffer_same : forall sp sp', Bnst_num sp' = Bnst_num sp -> Para_M_num sp' = Para_M_num sp ->
  para_manager sp' = para_manager sp ->
  (forall i, 0 <= i < Bnst_num sp -> b_dpnd_head (bnst_data sp' i) = b_dpnd_head (bnst_data sp i)) ->
  head_buffer Mask_matrix sp' = head_buffer Mask_matrix sp.
Proof.
  intros sp sp' H1 H2 H3 H4. unfold head_buffer. rewrite H1, H2, H3. f_equal. apply for_up_ext.
  intros i b Hi. now rewrite H4 by lia.
Qed.

(** The hypotheses of the tree: numbered bunsetsus with heads to the right, disjoint conjuncts and a
    forest of managers, and room for the children. *)
Record tree_input (sp : SENTENCE_DATA) : Prop := {
  ti_bnst : 0 < Bnst_num sp;
  ti_managers : 0 <= Para_M_num sp;
  ti_nodes : Bnst_num sp + Para_M_num sp <= BNST_MAX;
  ti_num : forall i, 0 <= i < Bnst_num sp -> b_num (bnst_data sp i) = i;
  ti_heads : heads_right sp;
  ti_parts : forall m, 0 <= m < Para_M_num sp -> parts_ok sp (para_manager sp m);
  ti_kids : forall m, 0 <= m < Para_M_num sp -> NoDup (kids (para_manager sp m));
  ti_linked : linked sp;
  ti_room : forall j, 0 <= j < Bnst_num sp ->
    zlen (dependants (head_buffer Mask_matrix sp) j) + Para_M_num sp < PARA_PART_MAX
}.

(** The sentence with the links and flags cleared. *)
Definition cleared (sp sp1 : SENTENCE_DATA) : Prop :=
  Bnst_num sp1 = Bnst_num sp /\ Para_M_num sp1 = Para_M_num sp /\ para_manager sp1 = para_manager sp /\
  New_Bnst_num sp1 = 0 /\
  forall i, 0 <= i < Bnst_num sp -> bnst_data sp1 i = clear_tree (bnst_data sp i).

Lemma init_cleared : forall sp sp0, Bnst_num sp <= BNST_MAX -> sp0 = init_bnst_tree_property sp ->
  cleared sp (set_New_Bnst_num 0 sp0).
Proof.
  intros sp sp0 H E. destruct (init_tree_at sp sp0 E) as [E0 B0]. clear E.
  assert (F : Bnst_num sp0 = Bnst_num sp /\ Para_M_num sp0 = Para_M_num sp /\ para_manager sp0 = para_manager sp).
  { rewrite E0. auto. }
  destruct F as (F1 & F2 & F3). split; [exact F1|]. split; [exact F2|]. split; [exact F3|]. split; [reflexivity|].
  intros i Hi. cbn [bnst_data set_New_Bnst_num]. rewrite B0. now rewrite within_true by lia.
Qed.

Lemma head_buffer_cleared : forall sp sp1, cleared sp sp1 -> head_buffer Mask_matrix sp1 = head_buffer Mask_matrix sp.
Proof.
  intros sp sp1 (F1 & F2 & F3 & _ & B). apply head_buffer_same; auto. intros i Hi. now rewrite B.
Qed.

Lemma inb_rows : forall n i, inb i (rev (zrange 0 n)) = within 0 i n.
Proof.
  intros n i. destruct (inb_spec i (rev (zrange 0 n))) as [H|H]; rewrite <- in_rev, in_zrange in H;
    destruct (within_spec 0 i n); auto; lia.
Qed.

(** The simple tree: every bunsetsu has its dependants as children, the last one first. *)
Lemma simple_tree_links : forall sp sp1, tree_input sp -> cleared sp sp1 ->
  exists sp2, make_simple_tree Mask_matrix sp1 = Ret sp2 /\ sp2 = set_bnst_data (bnst_data sp2) sp1 /\
    forall i, 0 <= i < Bnst_num sp ->
      child_of sp2 i = dependants (head_buffer Mask_matrix sp) i /\
      parent_of sp2 i = (if i =? Bnst_num sp - 1 then None else Some (head_buffer Mask_matrix sp i)) /\
      b_num (bnst_data sp2 i) = i.
Proof.
  intros sp sp1 I C. pose proof (head_buffer_cleared _ _ C) as HH. destruct C as (F1 & F2 & F3 & F4 & B1).
  set (buffer := head_buffer Mask_matrix sp) in *.
  destruct (make_simple_tree_nodes sp1) as (sp2 & E & E2 & B2).
  - rewrite F1. pose proof (ti_bnst _ I). lia.
  - intros i Hi. rewrite F1 in Hi. rewrite B1 by exact Hi. exact (ti_num _ I i Hi).
  - intros j Hj. rewrite F1 in Hj. rewrite HH. pose proof (ti_room _ I j Hj). pose proof (ti_managers _ I). fold buffer in H. lia.
  - exists sp2. split; [exact E|]. split; [exact E2|]. intros i Hi. clear E E2.
    pose proof (head_buffer_right sp (ti_heads _ I) (ti_parts _ I)) as HR. fold buffer in HR.
    unfold child_of, parent_of. rewrite B2, B1, HH, F1 by exact Hi. unfold row_node. rewrite !inb_rows, (within_true 0 i) by exact Hi.
    replace (0 <=? i) with true by lia. cbn [andb b_child b_parent b_num set_b_child].
    split; [reflexivity|]. split.
    + destruct (Z.eqb_spec i (Bnst_num sp - 1)) as [Hl|Hl].
      * destruct (Z.ltb_spec i (buffer i)), (within_spec 0 (buffer i) (Bnst_num sp)); cbn [andb]; try reflexivity. lia.
      * specialize (HR i ltac:(lia)). replace (i <? buffer i) with true by lia. rewrite within_true by lia.
        cbn [andb]. unfold link. destruct (_ =? 3); reflexivity.
    + destruct (_ && _); rewrite ?b_num_link; exact (ti_num _ I i Hi).
Qed.

Lemma simple_tree_grown : forall sp sp1, tree_input sp -> cleared sp sp1 ->
  exists sp2, make_simple_tree Mask_matrix sp1 = Ret sp2 /\ New_Bnst_num sp2 = 0 /\
    grown sp (PARA_PART_MAX - 1 - Para_M_num sp) sp2.
Proof.
  intros sp sp1 I C. destruct (simple_tree_links sp sp1 I C) as (sp2 & E & E2 & L).
  destruct C as (F1 & F2 & F3 & F4 & _). exists sp2. split; [exact E|]. clear E.
  assert (N2 : New_Bnst_num sp2 = 0) by (rewrite E2; exact F4). split; [exact N2|]. split.
  - rewrite E2. cbn [Bnst_num Para_M_num para_manager set_bnst_data]. auto.
  - lia.
  - intros i Hi. destruct (L i Hi) as (_ & _ & ->). lia.
  - rewrite N2, Z.add_0_r. apply (heads_tree _ (head_buffer Mask_matrix sp)).
    + apply (ti_bnst _ I).
    + apply head_buffer_right; [apply (ti_heads _ I) | apply (ti_parts _ I)].
    + intros j Hj. apply (L j Hj).
    + intros i Hi. apply (L i Hi).
  - intros i Hi. rewrite N2 in *. destruct (L i ltac:(lia)) as (-> & _). pose proof (ti_room _ I i ltac:(lia)). lia.
Qed.

Lemma make_dpnd_tree_grown : forall sp, tree_input sp ->
  exists sp', make_dpnd_tree Mask_matrix false sp = Ret (true, sp') /\
    grown sp (PARA_PART_MAX - 1 - Para_M_num sp) sp' /\ New_Bnst_num sp' <= Para_M_num sp.
Proof.
  intros sp I. unfold make_dpnd_tree. pose proof (ti_nodes _ I). pose proof (ti_managers _ I).
  destruct (simple_tree_grown sp _ I (init_cleared sp _ ltac:(lia) eq_refl)) as (sp2 & -> & N2 & G2).
  assert (T : top_managers sp2 = top_managers sp /\ manager_fuel sp2 = manager_fuel sp).
  { unfold top_managers, manager_fuel. destruct (gr_frame _ _ _ G2) as (_ & -> & ->). auto. }
  destruct T as [-> ->].
  destruct (expand_tops sp (PARA_PART_MAX - 1 - Para_M_num sp) (Para_M_num sp)
              ltac:(lia) ltac:(lia) (ti_parts _ I) (ti_linked _ I) (ti_kids _ I) ltac:(lia) sp2 G2 N2)
    as (sp3 & -> & G3 & N3).
  cbn [negb]. eauto.
Qed.

End Links.

(** C17: make_dpnd_tree links the bunsetsus and the nodes of the coordinations to one tree whose root is the
    last bunsetsu: the links up and down agree, no node is listed twice, every way up ends in the
    root, and at most one node is inserted for every coordination. *)
Theorem make_dpnd_tree_is_tree : forall Mask_matrix sp, tree_input Mask_matrix sp ->
  exists sp', make_dpnd_tree Mask_matrix false sp = Ret (true, sp') /\
    tree (Bnst_num sp + New_Bnst_num sp') (Bnst_num sp - 1) (child_of sp') (parent_of sp') /\
    0 <= New_Bnst_num sp' <= Para_M_num sp.
Proof.
  intros Mask_matrix sp I. destruct (make_dpnd_tree_grown Mask_matrix sp I) as (sp' & E & G & N).
  exists sp'. split; [exact E|]. destruct G. auto.
Qed.

(** A sentence of bunsetsus with these heads. *)
Definition headed (heads : list Z) : SENTENCE_DATA :=
  for_up 0 (zlen heads) (fun i => upd_bnst i (set_b_dpnd_head (nth (Z.to_nat i) heads 0)))
    (sentence_of (map (fun _ => []) heads)).

(** Two coordinations, the second one inside the last conjunct of the first one. *)
Definition tree_example : SENTENCE_DATA :=
  let manager m start end_ :=
    upd_manager m (fun r => set_pm_part_num 2 (set_pm_para_num 1
      (set_pm_start (fun k => nth (Z.to_nat k) start 0) (set_pm_end (fun k => nth (Z.to_nat k) end_ 0) r)))) in
  set_Para_M_num 2
    (upd_manager 1 (set_pm_parent (Some 0)) (upd_manager 0 (fun r => set_pm_child_num 1 (set_pm_child (fun _ => 1) r))
      (manager 1 [3; 4] [3; 4] (manager 0 [0; 3] [2; 4] (headed [1; 2; 4; 4; 6; 6; 0]))))).

Abbreviation tree_example_result := (make_dpnd_tree (fun _ _ => 1) false tree_example).

Lemma tree_example_input : tree_input (fun _ _ => 1) tree_example.
Proof.
  assert (M : forall (P : Z -> Prop) n, (forall k, In k (zrange 0 n) -> P k) -> forall k, 0 <= k < n -> P k).
  { intros P n H k Hk. apply H. now apply in_zrange. }
  split; try (vm_compute; split; discriminate); try (vm_compute; discriminate); try reflexivity.
  - apply (M (fun i => b_num (bnst_data tree_example i) = i) 7). apply Forall_forall. vm_compute. repeat constructor.
  - unfold heads_right. apply (M (fun i => i < b_dpnd_head (bnst_data tree_example i) < 7) 6). apply Forall_forall. vm_compute.
    repeat (constructor; [split; reflexivity|]). constructor.
  - apply (M (fun m => parts_ok tree_example (para_manager tree_example m)) 2). apply Forall_forall.
    assert (P : forall m, In m [0; 1] -> parts_ok tree_example (para_manager tree_example m)).
    { intros m Hm. assert (HN : pm_part_num (para_manager tree_example m) = 2) by (destruct Hm as [<-|[<-|[]]]; reflexivity).
      split; [lia|]. rewrite HN. split; intros k Hk.
      - assert (k = 0 \/ k = 1) as [->| ->] by lia; destruct Hm as [<-|[<-|[]]]; vm_compute; split; congruence.
      - assert (k = 0) as -> by lia; destruct Hm as [<-|[<-|[]]]; reflexivity. }
    repeat constructor; apply P; cbn; auto.
  - apply (M (fun m => NoDup (kids (para_manager tree_example m))) 2). apply Forall_forall. vm_compute.
    repeat constructor; intros [].
  - intros p c Hp Hc. change (Para_M_num tree_example) with 2 in Hp. assert (p = 0 \/ p = 1) as [->| ->] by lia; vm_compute in Hc.
    + destruct Hc as [<-|[]]. vm_compute. repeat split; congruence.
    + destruct Hc.
  - apply (M (fun j => zlen (dependants (head_buffer (fun _ _ => 1) tree_example) j) + 2 < 32) 7). apply Forall_forall.
    vm_compute. repeat constructor.
Qed.

Lemma make_dpnd_tree_is_tree_witness : exists sp', tree_example_result = Ret (true, sp') /\
  map (child_of sp') (zrange 0 9) = [[]; [0]; [1]; []; [8; 2]; []; [5; 4]; []; [7; 3]] /\
  tree 9 6 (child_of sp') (parent_of sp').
Proof.
  assert (V : match tree_example_result with
              | Ret (b, sp') => New_Bnst_num sp' = 2 /\
                  map (child_of sp') (zrange 0 9) = [[]; [0]; [1]; []; [8; 2]; []; [5; 4]; []; [7; 3]]
              | Err _ => False end) by (vm_compute; auto).
  destruct (make_dpnd_tree_is_tree (fun _ _ => 1) tree_example tree_example_input) as (sp' & E & T & _).
  rewrite E in V. destruct V as [N V]. rewrite N in T. exists sp'. split; [exact E|]. split; [exact V|exact T].
Defined.

(** The node inserted for a coordination takes over the children of the last conjunct behind the one before;
    then the last conjunct is the node of the coordination, and its children are the heads of the conjuncts,
    all marked as conjuncts, the inserted node standing for the last one. *)
Theorem insert_para_conjuncts : forall m sp, let e := last_end m in let new := Bnst_num sp + New_Bnst_num sp in
  parts_ok sp m -> 0 <= New_Bnst_num sp -> new < BNST_MAX ->
  (forall i, 0 <= i < Bnst_num sp -> b_num (bnst_data sp i) <> -1) ->
  NoDup (child_of sp e) -> ~ In e (child_of sp e) -> ~ In new (child_of sp e) ->
  zlen (child_of sp e) + 1 < PARA_PART_MAX -> incl (first_ends m) (child_of sp e) ->
  exists sp' moved rest, insert_para m sp = Ret (true, sp') /\
    New_Bnst_num sp' = New_Bnst_num sp + 1 /\ child_of sp e = moved ++ rest /\
    child_of sp' e = new :: rest /\ child_of sp' new = moved /\
    (forall c, In c moved -> prev_end m < c /\ parent_of sp' c = Some new) /\
    b_para_top_p (bnst_data sp' e) = true /\ incl (new :: first_ends m) (child_of sp' e) /\
    (forall c, In c (new :: first_ends m) -> b_para_type (bnst_data sp' c) = PARA_NORMAL) /\
    b_num (bnst_data sp' new) = b_num (bnst_data sp e).
Proof.
  intros m sp e new HP HN HM HB ND He Hn HL Hin.
  destruct (insert_para_inserted m sp) as (sp' & moved & rest & E & I); auto.
  destruct I as [(_ & I2 & _) (S1 & S2 & _) IN]. fold e in S1, IN. fold new in IN.
  pose proof HP as (P1 & P2 & _). assert (He0 : 0 <= e < Bnst_num sp) by (apply P2; lia).
  assert (HF : forall c, In c (first_ends m) -> 0 <= c <= prev_end m /\ c < e).
  { intros c Hc. apply in_map_iff in Hc as [k [<- Hk]]. apply in_zrange in Hk. pose proof (ends_below sp m k HP Hk).
    specialize (P2 k ltac:(lia)). split; [split; [lia|]|exact H]. unfold prev_end.
    destruct (Z.eq_dec k (pm_part_num m - 2)) as [->|]; [lia|].
    assert (HP' : parts_ok sp (set_pm_part_num (pm_part_num m - 1) m)).
    { split; [cbn; lia|]. split; cbn; intros j Hj; apply HP; lia. }
    pose proof (ends_below sp _ k HP' ltac:(cbn; lia)) as H'. unfold last_end in H'. cbn in H'.
    replace (pm_part_num m - 1 - 1) with (pm_part_num m - 2) in H' by lia. lia. }
  exists sp', moved, rest. split; [exact E|]. split; [exact I2|]. split; [exact S1|].
  unfold child_of, parent_of. rewrite !IN. cbn. rewrite !Z.eqb_refl. replace (e =? new) with false by lia.
  split; [reflexivity|]. split; [reflexivity|]. split.
  { intros c Hc. split; [apply (S2 c Hc)|]. rewrite IN. cbn.
    destruct (Z.eqb_spec c new) as [->|_]; [elim Hn; rewrite S1; apply in_or_app; now left|].
    now destruct (inb_spec c moved). }
  split; [reflexivity|]. split; [|split; [|reflexivity]].
  - intros c [<-|Hc]; [now left|]. right. specialize (Hin c Hc). rewrite S1 in Hin. apply in_app_or in Hin as [Hin|]; [|assumption].
    destruct (S2 c Hin). destruct (HF c Hc). lia.
  - intros c Hc. rewrite IN. cbn. destruct Hc as [<-|Hc]; [now rewrite Z.eqb_refl|].
    destruct (inb_spec c (first_ends m)) as [_|H]; [|easy]. now rewrite orb_true_r.
Qed.

(** The coordination of two conjuncts 0 and 2 with a bunsetsu 1 below the last conjunct. *)
Definition para_example : SENTENCE_DATA :=
  upd_bnst 2 (set_b_child [1; 0]) (headed [2; 2; 3; 0]).

Definition para_example_manager : PARA_MANAGER :=
  set_pm_part_num 2 (set_pm_end (fun k => nth (Z.to_nat k) [0; 2] 0) PARA_MANAGER_0).

Lemma insert_para_conjuncts_witness : exists sp', insert_para para_example_manager para_example = Ret (true, sp') /\
  child_of sp' 2 = [4; 0] /\ child_of sp' 4 = [1] /\ incl [4; 0] (child_of sp' 2).
Proof.
  destruct (insert_para_conjuncts para_example_manager para_example) as (sp' & moved & rest & E & _ & _ & _ & _ & _ & _ & I & _).
  - split; [vm_compute; discriminate|]. split.
    + intros k Hk. change (pm_part_num para_example_manager) with 2 in Hk. assert (k = 0 \/ k = 1) as [->| ->] by lia;
        vm_compute; split; congruence.
    + intros k Hk. change (pm_part_num para_example_manager) with 2 in Hk. assert (k = 0) as -> by lia. reflexivity.
  - vm_compute. discriminate.
  - reflexivity.
  - intros i Hi. change (Bnst_num para_example) with 4 in Hi.
    assert (i = 0 \/ i = 1 \/ i = 2 \/ i = 3) as [->|[->|[->| ->]]] by lia; vm_compute; discriminate.
  - vm_compute. repeat constructor; cbn; intuition discriminate.
  - vm_compute. intuition discriminate.
  - vm_compute. intuition discriminate.
  - reflexivity.
  - intros c Hc. vm_compute in Hc. destruct Hc as [<-|[]]. vm_compute. auto.
  - assert (V : match insert_para para_example_manager para_example with
              | Ret (b, sp') => child_of sp' 2 = [4; 0] /\ child_of sp' 4 = [1]
              | Err _ => False end) by (vm_compute; auto).
    rewrite E in V. exists sp'. split; [exact E|]. destruct V as [V1 V2]. split; [exact V1|]. split; [exact V2|exact I].
Defined.

(** With PARA_PART_MAX dependants the first one loses its head, without a message. *)
Lemma simple_tree_drops :
  match make_simple_tree (fun _ _ => 1) (init_bnst_tree_property (headed (map (fun _ => 32) (zrange 0 33)))) with
  | Ret sp => zlen (child_of sp 32) = 31 /\ parent_of sp 0 = None /\ ~ In 0 (child_of sp 32)
  | Err _ => False
  end.
Proof. vm_compute. repeat split. intuition discriminate. Qed.
