(* ===== verification/Coord.v ===== *)
(** * The analysis of the coordinations of a sentence (src/system/main.c)

    [one_sentence_analysis] finds the keys, detects their scopes, and then relates the
    scopes and checks the dependencies inside them; after a failure one scope
    is detected again under the new restrictions, until everything fits or one
    of the two kinds of failure has happened four times.  The similarities
    [match_matrix] of the bunsetsus and the brackets are arguments.  Japanese. *)
From Stdlib Require Import ZArith List Bool String Ascii Lia.
From Stdlib Require Import Floats.SpecFloat.
Import ListNotations.
From S2P Require Import Prelude CStr Feature Sentence CheckFunction Quote ParaAnalysis ParaRelation ParaDpnd.
Open Scope string_scope.
Open Scope Z_scope.

(** ** The feature of the similarity (src/system/lib_print.c) *)

(** [n / d] rounded to the nearest integer, ties to even. *)
Definition round_half_even (n d : Z) : Z :=
  let q := n / d in
  match 2 * (n mod d) ?= d with
  | Lt => q
  | Gt => q + 1
  | Eq => if Z.even q then q else q + 1
  end.

Definition pad3 (n : Z) : string :=
  (if n <? 10 then "00" else if n <? 100 then "0" else EmptyString) ++ itoa n.

(** [printf("%.3f", x)] *)
Definition printf_3f (x : float32) : string :=
  let sign (s : bool) := if s then "-" else EmptyString in
  match x with
  | S754_zero s => sign s ++ "0.000"
  | S754_infinity s => sign s ++ "inf"
  | S754_nan => "nan"
  | S754_finite s m e =>
      let n := if 0 <=? e then Zpos m * 2 ^ e * 1000 else round_half_even (Zpos m * 1000) (2 ^ (- e)) in
      sign s ++ itoa (n / 1000) ++ "." ++ pad3 (n mod 1000)
  end.

Example print_score : printf_3f (f32_div (f32_of_Z (-25)) (f32_of_Z 8)) = "-3.125".
Proof. vm_compute. reflexivity. Qed.

(** With the global [feature_buffer]. *)
Definition assign_para_similarity_feature (sp : SENTENCE_DATA) (buf : string) : SENTENCE_DATA * string :=
  for_up 0 (Para_num sp) (fun i '(sp, buf) =>
    let key := p_key_pos (para_data sp i) in
    let '(f, buf) := assign_cfeature buf (b_f (bnst_data sp key))
                       ("並列類似度:" ++ printf_3f (p_max_score (para_data sp i))) false in
    (upd_bnst key (set_b_f f) sp, buf)) (sp, buf).

(** ** The loop *)

(** The global variables of the phase. *)
Record coord_state : Type := mkCo {
  k_scope : scope_state;
  k_rel_matrix : matrix Z;
  k_check_array : array bool;
  k_found_array : array bool;
  k_mask : matrix Z;
  k_dpnd : matrix Z;
  k_revised : Z;
  k_buffer : string
}.

Definition k_sp (st : coord_state) : SENTENCE_DATA := ss_sp (k_scope st).

Inductive verdict : Type := ParaOK | RelationError | DStructError.

Inductive outcome : Type := NoKeys | Consistent | GivenUp.

Section Coord.
Context `{FM : FeatureMatch} (match_matrix Quote_matrix : matrix Z) (qd : QUOTE_DATA).

(** The body of the loop. *)
Definition para_round (st : coord_state) : res (verdict * coord_state) :=
  let '(mkCo (mkSS sp restrict Para dp) rel chk found mask dm rev buf) := st in
  let '(sp, buf) := assign_para_similarity_feature sp buf in
  ' (ok, rs) <- detect_para_relation (mkRS sp rel restrict rev buf) ;;
  let '(mkRS sp rel restrict rev buf) := rs in
  if negb ok then Ret (RelationError, mkCo (mkSS sp restrict Para dp) rel chk found mask dm rev buf)
  else
    ' (ok, ds) <- check_dpnd_in_para sp Quote_matrix (mkDS chk found mask dm restrict rev) ;;
    let '(mkDS chk found mask dm restrict rev) := ds in
    Ret (if ok then ParaOK else DStructError, mkCo (mkSS sp restrict Para dp) rel chk found mask dm rev buf).

(** [detect_para_scope(sp, Revised_para_num, TRUE)]; it always returns TRUE. *)
Definition detect_again (st : coord_state) : res coord_state :=
  let '(mkCo sc rel chk found mask dm rev buf) := st in
  if within 0 rev PARA_MAX
  then sc <- detect_para_scope false match_matrix false qd rev true sc ;;
       Ret (mkCo sc rel chk found mask dm rev buf)
  else Err OutOfBounds.

Definition give_up_para (st : coord_state) : coord_state :=
  let '(mkCo sc rel chk found mask dm rev buf) := st in
  mkCo sc rel chk found (init_mask_matrix (ss_sp sc) mask) dm rev buf.

Fixpoint para_rounds (fuel : nat) (relation_error d_struct_error : Z) (st : coord_state)
  : res (outcome * coord_state) :=
  match fuel with
  | O => Err OutOfFuel
  | S f =>
      ' (v, st) <- para_round st ;;
      let again relation_error d_struct_error :=
        if (relation_error <=? 3) && (d_struct_error <=? 3)
        then st <- detect_again st ;; para_rounds f relation_error d_struct_error st
        else Ret (GivenUp, give_up_para st) in
      match v with
      | ParaOK => Ret (Consistent, st)
      | RelationError => again (relation_error + 1) d_struct_error
      | DStructError => again relation_error (d_struct_error + 1)
      end
  end.

Definition init_para_matrix (sp : SENTENCE_DATA) (Para : Z -> matrix spec_float) : Z -> matrix spec_float :=
  fun k => if within 0 k (Para_num sp)
           then fill_rect 0 (Bnst_num sp) 0 (Bnst_num sp) (binary_normalize 53 1024 (-1) 0 false) (Para k)
           else Para k.

(** The whole phase; seven rounds are enough. *)
Definition coordination (st : coord_state) : res (outcome * coord_state) :=
  let '(mkCo (mkSS sp restrict Para dp) rel chk found mask dm _ buf) := st in
  let mask := init_mask_matrix sp mask in
  ' (flag, sp) <- check_para_key false (set_Para_M_num 0 (set_Para_num 0 sp)) ;;
  if 0 <? flag then
    sc <- detect_all_para_scope false match_matrix false qd
            (mkSS sp restrict (init_para_matrix sp Para) dp) ;;
    para_rounds 7 0 0 (mkCo sc rel chk found mask dm (-1) buf)
  else Ret (NoKeys, mkCo (mkSS sp restrict Para dp) rel chk found mask dm (-1) buf).
End Coord.

(** * Properties *)

(** ** What a scope detection changes *)
Section Detect.
Context `{FM : FeatureMatch} (Chinese : bool) (match_matrix : matrix Z).

(** The state of coordination [num] during its detection, over the sentence [sp0]: only
    its scope may have changed, and a scope found lies in the tables. *)
Definition detecting (num : Z) (sp0 sp : SENTENCE_DATA) : Prop :=
  Para_num sp = Para_num sp0 /\ Bnst_num sp = Bnst_num sp0 /\
  (forall j, j <> num -> para_data sp j = para_data sp0 j) /\
  let p := para_data sp num in let p0 := para_data sp0 num in
  p_key_pos p = p_key_pos p0 /\ p_iend_pos p = p_iend_pos p0 /\
  (failed p = true \/ (0 <= p_start p <= p_iend_pos p0 /\ p_key_pos p0 < p_jend_pos p < BNST_MAX)).

Lemma follow_path_range : forall f prepos key j path path' jend, 0 <= j ->
  follow_path f prepos key j path = Ret (path', jend) ->
  path' 0 = path 0 /\ key + j < jend <= key + j + Z.of_nat f.
Proof.
  induction f as [|f IH]; intros prepos key j path path' jend Hj E; cbn [follow_path] in E; [discriminate|].
  destruct (prepos (path j) (j + key + 1) =? START_HERE).
  - injection E as <- <-. split; [apply aset_ne; lia|lia].
  - destruct (IH _ _ (j + 1) _ _ _ ltac:(lia) E) as [H1 H2]. split; [|lia].
    rewrite H1. apply aset_ne. lia.
Qed.

(** The best row is a row, unless no row was better than the initial score. *)
Lemma best_row_range : forall sp p restrict dp jend threshold bonus iend b0 b, 0 <= iend + 1 ->
  fold_res (best_row_step Chinese sp p restrict dp jend threshold bonus) (rev (zrange 0 (iend + 1))) b0 = Ret b ->
  br_max_score b0 = ENOUGH_MINUS ->
  br_max_score b = ENOUGH_MINUS \/ 0 <= br_max_pos b <= iend.
Proof.
  intros sp p restrict dp jend threshold bonus iend b0 b Hi E H0.
  revert E. apply (fold_res_inv (fun b => br_max_score b = ENOUGH_MINUS \/ 0 <= br_max_pos b <= iend)); [|now left].
  intros i [ms ps mp pa] s' Hin HP E. apply in_rev, in_zrange in Hin. unfold best_row_step in E.
  set (pure := match norm (jend - i + 1) with Ret _ => _ | Err e => Err e end) in E.
  destruct (if Chinese && _ then _ else _) as [cur|]; [|discriminate].
  destruct (negb (restrict i jend =? 0) && f32_lt ms cur).
  - destruct pure as [q|]; [|discriminate]. injection E as <-. right. cbn. lia.
  - injection E as <-. exact HP.
Qed.

Lemma _detect_keeps : forall penalty num jend sp0 st st', 0 <= p_key_pos (para_data sp0 num) < BNST_MAX ->
  detecting num sp0 (ss_sp st) -> _detect_para_scope Chinese match_matrix penalty num jend st = Ret st' ->
  detecting num sp0 (ss_sp st').
Proof.
  intros penalty num jend sp0 [sp restrict Para dp] st' Hk HD E. cbn [ss_sp] in HD.
  unfold _detect_para_scope in E. destruct (negb (within _ _ _)); [discriminate|].
  destruct (match_matrix (p_iend_pos (para_data sp num)) jend =? 0); [now injection E as <-|].
  destruct (negb (existsb _ (zrange 0 (p_iend_pos (para_data sp num) + 1)))) eqn:Hex; [now injection E as <-|].
  destruct (_ && _); [now injection E as <-|].
  destruct (sim_threshold _ _ _ _) as [[threshold|]|]; [|now injection E as <-|discriminate].
  match type of E with match ?x with _ => _ end = _ => destruct x as [b|] eqn:EB; [|discriminate] end.
  destruct (f32_lt (br_max_score b) f32_zero) eqn:HL; [now injection E as <-|].
  destruct (scope_status _ _ _ _) as [status|]; [|now injection E as <-].
  destruct (store_scope _ _ _ _) as [p'|] eqn:ES; [|discriminate]. injection E as <-. cbn [ss_sp].
  destruct HD as (D1 & D2 & D3 & D4 & D5 & D6). unfold detecting.
  assert (Hi : 0 <= p_iend_pos (para_data sp num)).
  { destruct (Z_lt_le_dec (p_iend_pos (para_data sp num)) 0); [|easy].
    rewrite zrange_nil in Hex by lia. discriminate. }
  apply best_row_range in EB; [|lia|reflexivity].
  destruct EB as [EB|EB]; [rewrite EB in HL; discriminate|].
  unfold store_scope in ES. destruct (follow_path _ _ _ _ _) as [[path je]|] eqn:EF; [|discriminate].
  injection ES as <-. apply follow_path_range in EF; [|lia]. rewrite aset_eq in EF. destruct EF as [F1 F2].
  split; [exact D1|]. split; [exact D2|]. split.
  - intros j Hj. rewrite upd_para_at. replace (j =? num) with false by lia. auto.
  - cbv zeta. rewrite upd_para_at, Z.eqb_refl. cbn. split; [exact D4|]. split; [exact D5|]. right.
    unfold p_start. cbn. rewrite F1, <- D5, <- D4. rewrite D4 in F2 |- *. lia.
Qed.

Lemma detect_para_scope_keeps : forall parsed qd num rp st st',
  0 <= p_key_pos (para_data (ss_sp st) num) < BNST_MAX ->
  detect_para_scope Chinese match_matrix parsed qd num rp st = Ret st' ->
  detecting num (ss_sp st) (ss_sp st').
Proof.
  intros parsed qd num rp [sp restrict Para dp] st' Hk E. cbn [ss_sp] in *. unfold detect_para_scope in E.
  set (sp1 := upd_para num _ sp) in E.
  destruct (mask_quote_scope _ _ _ _) as [restrict1|]; [|discriminate].
  assert (D0 : detecting num sp sp1).
  { unfold detecting, sp1. rewrite upd_para_at, Z.eqb_refl. cbn. repeat (split; [reflexivity|]).
    split; [intros j Hj; unfold aset; now replace (j =? num) with false by lia|].
    repeat split. now left. }
  match type of E with match ?x with _ => _ end = _ => destruct x as [st1|] eqn:E1; [|discriminate] end.
  assert (D1 : detecting num sp (ss_sp st1)).
  { destruct parsed.
    - eapply _detect_keeps; [exact Hk| |exact E1]. exact D0.
    - unfold for_res in E1. revert E1. apply (fold_res_inv (fun s => detecting num sp (ss_sp s))); [|exact D0].
      intros j s s' _ HD Es. eapply _detect_keeps; eauto. }
  clear E1. destruct (_ && _) eqn:Es; injection E as <-; [|exact D1]. cbn [ss_sp].
  apply andb_true_iff in Es. destruct Es as [Es _].
  destruct D1 as (G1 & G2 & G3 & G4 & G5 & G6). unfold detecting. cbv zeta. rewrite upd_para_at, Z.eqb_refl.
  repeat (split; [assumption|]). split.
  - intros j Hj. rewrite upd_para_at. replace (j =? num) with false by lia. auto.
  - cbn. split; [exact G4|]. split; [exact G5|]. right. destruct G6 as [G6|G6]; [|exact G6].
    unfold failed in G6. apply Z.eqb_eq in Es, G6. rewrite Es in G6. discriminate.
Qed.
End Detect.

(** ** The loop *)
Section Loop.
Context `{FM : FeatureMatch} (match_matrix Quote_matrix : matrix Z) (qd : QUOTE_DATA).

(** The keys in the order of the sentence; their searches start at or before them. *)
Definition keyed (sp : SENTENCE_DATA) : Prop :=
  numbered sp /\ forall i, 0 <= i < Para_num sp ->
    0 <= p_key_pos (para_data sp i) < BNST_MAX /\ p_iend_pos (para_data sp i) <= p_key_pos (para_data sp i).

Definition ready (sp : SENTENCE_DATA) : Prop := keyed sp /\ scoped BNST_MAX sp.

(** Sentences that differ in the features of their bunsetsus and the pointers to managers. *)
Definition same_scopes (sp sp' : SENTENCE_DATA) : Prop :=
  Para_num sp' = Para_num sp /\ forall i, exists v, para_data sp' i = set_p_manager_ptr v (para_data sp i).

Lemma ready_same : forall sp sp', ready sp -> same_scopes sp sp' -> ready sp'.
Proof.
  intros sp sp' [[[N K] I] S] [E P].
  assert (F : forall i, p_key_pos (para_data sp' i) = p_key_pos (para_data sp i) /\
    p_iend_pos (para_data sp' i) = p_iend_pos (para_data sp i) /\ p_start (para_data sp' i) = p_start (para_data sp i) /\
    p_jend_pos (para_data sp' i) = p_jend_pos (para_data sp i) /\ failed (para_data sp' i) = failed (para_data sp i)).
  { intros i. destruct (P i) as [v ->]. repeat split. }
  split; [split; [split|]|]; rewrite ?E; auto.
  - intros i j Hi Hj. destruct (F i) as [-> _], (F j) as [-> _]. auto.
  - intros i Hi. destruct (F i) as (-> & -> & _). auto.
  - intros i Hi Hf p. rewrite E in Hi. subst p. destruct (F i) as (-> & _ & -> & -> & Ef). apply S; congruence.
Qed.

Lemma similarity_same : forall sp buf, same_scopes sp (fst (assign_para_similarity_feature sp buf)) /\
  Bnst_num (fst (assign_para_similarity_feature sp buf)) = Bnst_num sp.
Proof.
  intros sp buf. unfold assign_para_similarity_feature, for_up.
  apply (fold_left_inv _ (fun st => same_scopes sp (fst st) /\ Bnst_num (fst st) = Bnst_num sp)).
  - intros i [s b] _ H. destruct (assign_cfeature _ _ _ _) as [f b']. exact H.
  - split; [|reflexivity]. split; [reflexivity|]. intros i. exists (p_manager_ptr (para_data sp i)).
    cbn [fst]. now destruct (para_data sp i).
Qed.

(** One coordination detected again. *)
Lemma ready_detecting : forall num sp sp', ready sp -> 0 <= num < Para_num sp -> detecting num sp sp' -> ready sp'.
Proof.
  intros num sp sp' [[[N K] I] S] Hn (D1 & D2 & D3 & D4 & D5 & D6).
  assert (Ek : forall i, p_key_pos (para_data sp' i) = p_key_pos (para_data sp i) /\
                         p_iend_pos (para_data sp' i) = p_iend_pos (para_data sp i)).
  { intros i. destruct (Z.eq_dec i num) as [->|]; [auto|]. now rewrite D3. }
  split; [split; [split|]|]; rewrite ?D1; auto.
  - intros i j Hi Hj. destruct (Ek i) as [-> _], (Ek j) as [-> _]. auto.
  - intros i Hi. destruct (Ek i) as [-> ->]. auto.
  - intros i Hi Hf p. rewrite D1 in Hi. subst p. destruct (Z.eq_dec i num) as [->|].
    + destruct D6 as [D6|D6]; [congruence|]. destruct (I num Hn) as [I1 I2]. rewrite D4. lia.
    + rewrite (D3 i n) in Hf |- *. apply (S i Hi Hf).
Qed.

(** What one round does to the sentence. *)
Inductive round_result (st : coord_state) : verdict -> coord_state -> Prop :=
| rr_relation : forall st', ready (k_sp st') -> 0 <= k_revised st' < Para_num (k_sp st') ->
    round_result st RelationError st'
| rr_structure : forall st', ready (k_sp st') -> 0 <= k_revised st' < Para_num (k_sp st') ->
    round_result st DStructError st'
| rr_ok : forall st' sp, same_scopes (k_sp st) sp -> Bnst_num (k_sp st') = Bnst_num (k_sp st) ->
    (forall i j, 0 <= i < j -> j < Para_num sp -> live sp i j -> para_location sp i j <> REL_BAD) ->
    finished sp (k_sp st') -> ready sp -> ready (k_sp st') -> round_result st ParaOK st'.

Lemma para_round_spec : forall st, ready (k_sp st) ->
  exists v st', para_round Quote_matrix st = Ret (v, st') /\ round_result st v st'.
Proof.
  intros [[sp restrict Para dp] rel chk found mask dm rev buf] HR. unfold k_sp in HR. cbn [k_scope ss_sp] in HR.
  unfold para_round. destruct (similarity_same sp buf) as [SS SB].
  destruct (assign_para_similarity_feature sp buf) as [sp1 buf1]. cbn [fst] in *.
  pose proof (ready_same sp sp1 HR SS) as HR1. pose proof HR1 as [[HN HK] HS].
  destruct (detect_cases sp1 rel restrict rev buf1 HN) as [[i [j [st1 [_ [_ [_ E]]]]]]|[st1 [HB [E F]]]]; rewrite E.
  - destruct (detect_fails _ _ _ _ _ _ HN E) as [ES EV]. destruct st1 as [sp2 rel2 restrict2 rev2 buf2].
    cbn [rs_sp ParaRelation.Revised_para_num] in *. subst sp2. cbn [negb]. do 2 eexists. split; [reflexivity|].
    apply rr_relation; unfold k_sp; cbn; [exact HR1 | exact EV].
  - destruct st1 as [sp2 rel2 restrict2 rev2 buf2]. cbn [rs_sp] in F. cbn [negb].
    destruct (finished_linked _ _ F) as [HL HM]. pose proof (finished_inside _ _ _ HN HS F) as HI.
    pose proof (finished_paras _ _ F) as [FN [FB FP]]. pose proof (finished_numbers _ _ F) as FI.
    assert (HR2 : ready sp2) by (apply (ready_same sp1); [exact HR1 | now split]).
    destruct (check_dpnd_total sp2 Quote_matrix BNST_MAX HI HL (mkDS chk found mask dm restrict2 rev2) HM)
      as [b [[chk3 found3 mask3 dm3 restrict3 rev3] E3]].
    rewrite E3. pose proof (check_dpnd_revised sp2 Quote_matrix BNST_MAX HI HL FI _ _ _ E3) as RV.
    unfold revised_ok in RV. cbn [fst snd ds_Revised_para_num] in RV.
    do 2 eexists. split; [reflexivity|]. destruct b.
    + apply rr_ok with (sp := sp1); unfold k_sp; cbn; auto. congruence.
    + apply rr_structure; unfold k_sp; cbn; auto.
Qed.

(** The only failure is one of [detect_para_scope]: its tables are too small, or a key asks for a
    scope that starts before the sentence. *)
Definition scope_error (e : err) : Prop := exists num restrict_p sc,
  0 <= num < PARA_MAX /\ detect_para_scope false match_matrix false qd num restrict_p sc = Err e.

Definition gave_up (st : coord_state) : Prop := forall i j,
  0 <= i < Bnst_num (k_sp st) -> 0 <= j < Bnst_num (k_sp st) -> k_mask st i j = 1.

(** The scopes fit each other, and the managers are well-formed. *)
Definition consistent (st : coord_state) : Prop := let sp := k_sp st in
  (forall i j, 0 <= i < j -> j < Para_num sp -> live sp i j -> para_location sp i j <> REL_BAD) /\
  parts_inside BNST_MAX sp /\ linked sp /\ paras_inside sp.

Lemma finished_consistent : forall sp st, ready sp -> 
  (forall i j, 0 <= i < j -> j < Para_num sp -> live sp i j -> para_location sp i j <> REL_BAD) ->
  finished sp (k_sp st) -> consistent st.
Proof.
  intros sp st [[HN _] HS] HB F. destruct (finished_paras _ _ F) as [N [_ P]].
  split; [|split; [exact (finished_inside _ _ _ HN HS F)|split; [apply (finished_linked _ _ F)|exact (finished_numbers _ _ F)]]].
  intros i j Hi Hj L. rewrite N in Hj.
  assert (EF : forall x, failed (para_data (k_sp st) x) = failed (para_data sp x)).
  { intros x. destruct (P x) as [v ->]. reflexivity. }
  unfold live in L. rewrite !EF in L. specialize (HB i j Hi Hj L).
  unfold para_location, p_start, strong in *. destruct (P i) as [v ->], (P j) as [w ->]. exact HB.
Qed.

Definition final (r : res (outcome * coord_state)) : Prop :=
  (exists st', r = Ret (Consistent, st') /\ consistent st') \/
  (exists st', r = Ret (GivenUp, st') /\ gave_up st') \/
  (exists e, r = Err e /\ scope_error e).

Lemma detect_again_spec : forall st, ready (k_sp st) -> 0 <= k_revised st < Para_num (k_sp st) ->
  (exists st', detect_again match_matrix qd st = Ret st' /\ ready (k_sp st')) \/
  exists e, detect_again match_matrix qd st = Err e /\ scope_error e.
Proof.
  intros [sc rel chk found mask dm rev buf] HR Hv. unfold k_sp in *. cbn [k_scope k_revised] in *. unfold detect_again.
  assert (Hm : 0 <= rev < PARA_MAX).
  { destruct HR as [[[HN _] _] _]. unfold PARA_PART_MAX in HN. unfold PARA_MAX. lia. }
  rewrite within_true by exact Hm.
  destruct (detect_para_scope false match_matrix false qd rev true sc) as [sc'|e] eqn:E.
  - left. eexists. split; [reflexivity|]. cbn [k_scope]. apply (ready_detecting rev (ss_sp sc)); auto.
    eapply detect_para_scope_keeps; [|exact E]. now apply HR.
  - right. exists e. split; [reflexivity|]. exists rev, true, sc. auto.
Qed.

Lemma give_up_para_spec : forall st, gave_up (give_up_para st).
Proof.
  intros [sc rel chk found mask dm rev buf] i j Hi Hj. unfold k_sp in *. cbn in *.
  unfold init_mask_matrix. rewrite fill_rect_at. now rewrite !within_true by lia.
Qed.

(** Each round raises one of the two counters. *)
Lemma para_rounds_final : forall f re de st, ready (k_sp st) -> re <= 3 -> de <= 3 ->
  7 - re - de <= Z.of_nat f -> final (para_rounds match_matrix Quote_matrix qd f re de st).
Proof.
  induction f as [|f IH]; intros re de st HR Hre Hde Hf; [lia|]. cbn [para_rounds].
  destruct (para_round_spec st HR) as (v & st1 & -> & R).
  assert (G : forall re' de', ready (k_sp st1) -> 0 <= k_revised st1 < Para_num (k_sp st1) ->
    re' + de' = re + de + 1 ->
    final (if (re' <=? 3) && (de' <=? 3)
           then st <- detect_again match_matrix qd st1 ;; para_rounds match_matrix Quote_matrix qd f re' de' st
           else Ret (GivenUp, give_up_para st1))).
  { intros re' de' HR1 Hv Hs. destruct (Z.leb_spec re' 3), (Z.leb_spec de' 3); cbn [andb];
      try (right; left; eexists; split; [reflexivity | apply give_up_para_spec]).
    destruct (detect_again_spec st1 HR1 Hv) as [[st2 [-> HR2]]|[e [-> HE]]].
    - apply IH; auto; lia.
    - right. right. exists e. auto. }
  destruct R as [st1 HR1 Hv|st1 HR1 Hv|st1 sp _ _ HB F HR1 _].
  - apply G; auto; lia.
  - apply G; auto; lia.
  - left. exists st1. split; [reflexivity|]. now apply (finished_consistent sp).
Qed.

(** Every coordination is detected once at the beginning. *)
Lemma detect_all_spec : forall sc, keyed (ss_sp sc) ->
  (exists sc', detect_all_para_scope false match_matrix false qd sc = Ret sc' /\ ready (ss_sp sc')) \/
  exists e, detect_all_para_scope false match_matrix false qd sc = Err e /\ scope_error e.
Proof.
  intros sc HK. unfold detect_all_para_scope.
  pose (P i (s : scope_state) := keyed (ss_sp s) /\ Para_num (ss_sp s) = Para_num (ss_sp sc) /\
    forall j, 0 <= j < i -> failed (para_data (ss_sp s) j) = false -> let p := para_data (ss_sp s) j in
      0 <= p_start p <= p_key_pos p /\ p_key_pos p < p_jend_pos p < BNST_MAX).
  destruct (for_res_cases P scope_error (fun i => detect_para_scope false match_matrix false qd i false)
              0 (Para_num (ss_sp sc)) sc) as [[s' [E (K & N & S)]]|HE]; [| | |left|now right].
  - destruct HK as [[[H _] _] _]. exact H.
  - intros i s Hi (K & N & S). destruct (detect_para_scope false match_matrix false qd i false s) as [s'|e] eqn:E.
    + left. exists s'. split; [reflexivity|]. assert (Hk : 0 <= p_key_pos (para_data (ss_sp s) i) < BNST_MAX) by (apply K; lia).
      destruct (detect_para_scope_keeps _ _ _ _ _ _ _ _ Hk E) as (D1 & _ & D3 & D4 & D5 & D6).
      destruct K as [[KN KO] KI].
      assert (Ek : forall j, p_key_pos (para_data (ss_sp s') j) = p_key_pos (para_data (ss_sp s) j) /\
                             p_iend_pos (para_data (ss_sp s') j) = p_iend_pos (para_data (ss_sp s) j)).
      { intros j. destruct (Z.eq_dec j i) as [->|]; [auto|]. now rewrite D3. }
      split; [split; [split|]|split]; rewrite ?D1; auto.
      * intros x y Hx Hy. destruct (Ek x) as [-> _], (Ek y) as [-> _]. auto.
      * intros x Hx. destruct (Ek x) as [-> ->]. auto.
      * intros j Hj Hf p. subst p. destruct (Z.eq_dec j i) as [->|].
        -- destruct D6 as [D6|D6]; [congruence|]. destruct (KI i ltac:(lia)). rewrite D4. lia.
        -- rewrite (D3 j n) in Hf |- *. apply (S j); [lia|exact Hf].
    + right. exists e. split; [reflexivity|]. exists i, false, s.
      destruct HK as [[[_ H] _] _]. unfold PARA_PART_MAX in H. unfold PARA_MAX. split; [lia|exact E].
  - split; [exact HK|]. split; [reflexivity|]. intros j Hj. lia.
  - exists s'. split; [exact E|]. split; [exact K|]. intros j Hj. rewrite N in Hj. apply S. exact Hj.
Qed.
End Loop.

(** C11: The analysis of the coordinations ends: after at most seven rounds the scopes of
    the coordinations fit each other, with well-formed managers, or the analysis gives
    up and allows every dependency again; it can only fail where the detection of a
    scope leaves its tables (also with a key whose first conjunct would start before the
    sentence).  The sentence has at most BNST_MAX bunsetsus, and no key lets its first conjunct
    end after itself. *)
Theorem coordination_ends : forall (FM : FeatureMatch) match_matrix Quote_matrix qd st flag sp1,
  0 <= Bnst_num (k_sp st) <= BNST_MAX ->
  check_para_key false (set_Para_M_num 0 (set_Para_num 0 (k_sp st))) = Ret (flag, sp1) ->
  (forall i, 0 <= i < Para_num sp1 -> p_iend_pos (para_data sp1 i) <= p_key_pos (para_data sp1 i)) ->
  match coordination match_matrix Quote_matrix qd st with
  | Ret (NoKeys, _) => flag <= 0
  | Ret (Consistent, st') => 0 < flag /\ consistent st'
  | Ret (GivenUp, st') => 0 < flag /\ gave_up st'
  | Err e => scope_error match_matrix qd e
  end.
Proof.
  intros FM match_matrix Quote_matrix qd [[sp restrict Para dp] rel chk found mask dm rev buf] flag sp1 HB E HI.
  unfold k_sp in *. cbn [k_scope ss_sp] in *. unfold coordination. rewrite E.
  destruct (check_para_key_facts false (set_Para_M_num 0 (set_Para_num 0 sp)) flag sp1 (proj1 HB) eq_refl E) as (F1 & F2 & F3 & _ & F5).
  destruct (Z.ltb_spec 0 flag) as [Hf|Hf]; [|exact Hf].
  assert (HK : keyed sp1).
  { split; [split; [|exact F5]|].
    - assert (Para_num sp1 <> PARA_MAX) by (intros H; apply F1 in H; unfold CONTINUE in H; lia).
      unfold PARA_MAX, PARA_PART_MAX in *. lia.
    - intros i Hi. destruct (F3 i Hi) as [H _]. cbn in H. split; [unfold BNST_MAX in *; lia|auto]. }
  destruct (detect_all_spec match_matrix qd (mkSS sp1 restrict (init_para_matrix sp1 Para) dp) HK)
    as [[sc [-> HR]]|[e [-> HE]]]; [|exact HE].
  destruct (para_rounds_final match_matrix Quote_matrix qd 7 0 0
              (mkCo sc rel chk found (init_mask_matrix sp mask) dm (-1) buf) HR) as [(s & -> & H)|[(s & -> & H)|(e & -> & H)]];
    auto; lia.
Qed.

(** Two coordinated bunsetsus before the head: AとBを見る. *)
Definition coord_example : coord_state :=
  mkCo (mkSS (sentence_of [["並キ:名:体言"; "体言"]; ["体言"]; ["用言:動"]])
             (fun _ _ => 1) (fun _ _ _ => S754_zero false) dp0)
    (fun _ _ => 0) (fun _ => false) (fun _ => false) (fun _ _ => 1) (fun _ _ => 1) (-1) EmptyString.

Definition coord_result : res (outcome * coord_state) :=
  @coordination (@knp_FeatureMatch bare_env st0) (fun i j => if (i =? 0) && (j =? 1) then 20 else 1)
    (fun _ _ => 1) (mkQD (fun _ => -1) (fun _ => -1)) coord_example.

Lemma coordination_ends_witness : exists st,
  coord_result = Ret (Consistent, st) /\ Para_M_num (k_sp st) = 1 /\
  p_jend_pos (para_data (k_sp st) 0) = 1 /\ consistent st.
Proof.
  unfold coord_result. assert (H1 : match check_para_key false (set_Para_M_num 0 (set_Para_num 0 (k_sp coord_example))) with
               | Ret (_, sp1) => Para_num sp1 = 1 /\ p_iend_pos (para_data sp1 0) <= p_key_pos (para_data sp1 0)
               | Err _ => False end) by (vm_compute; split; [reflexivity | discriminate]).
  destruct (check_para_key _ _) as [[flag sp1]|] eqn:E in H1; [|destruct H1]. destruct H1 as [N1 H1].
  assert (H2 : match @coordination (@knp_FeatureMatch bare_env st0) (fun i j => if (i =? 0) && (j =? 1) then 20 else 1)
                       (fun _ _ => 1) (mkQD (fun _ => -1) (fun _ => -1)) coord_example with
               | Ret (o, st) => o = Consistent /\ Para_M_num (k_sp st) = 1 /\ p_jend_pos (para_data (k_sp st) 0) = 1
               | Err _ => False end) by (vm_compute; auto).
  pose proof (@coordination_ends (@knp_FeatureMatch bare_env st0)
    (fun i j => if (i =? 0) && (j =? 1) then 20 else 1) (fun _ _ => 1)
    (mkQD (fun _ => -1) (fun _ => -1)) coord_example flag sp1) as H.
  destruct (coordination _ _ _ coord_example) as [[o st]|]; [|destruct H2]. destruct H2 as (-> & M & J).
  exists st. split; [reflexivity|]. split; [exact M|]. split; [exact J|]. apply H.
  - vm_compute. split; discriminate.
  - exact E.
  - intros i Hi. replace i with 0 by lia. exact H1.
Defined.
