(* ===== verification/Dpnd.v ===== *)
(** * The dependency analysis (src/system/dpnd_analysis.c)

    The rules of each bunsetsu, the matrix of possible dependencies, its
    relaxation, and the search [decide_dpnd] for the best structure, from the
    end of the sentence to its beginning.  Japanese only, without the case analysis
    (OPT_CASE); the dependencies of the basic phrases are in TagDpnd.v. *)
From Stdlib Require Import ZArith List Bool String Ascii Lia.
Import ListNotations.
From S2P Require Import Prelude CStr Feature Sentence SemCode CheckFunction.

(** [governor] and [dpnd_type] up to the terminating type 0. *)
Record DpndRule : Type := mkDR {
  dependant : FEATURE_PATTERN;
  governors : list (FEATURE_PATTERN * Z);
  barrier : FEATURE_PATTERN;
  preference : Z;
  decide : bool
}.

Record CHECK_DATA : Type := mkCHECK { c_num : Z; c_def : Z; c_pos : array Z }.

Record DPND : Type := mkDPND {
  head : array Z;
  type : array Z;
  dflt : array Z;
  mask : array Z;
  pos : Z;
  check : array CHECK_DATA;
  d_f : array FEATURE
}.

Definition set_head (v : array Z) (d : DPND) : DPND :=
  mkDPND v (type d) (dflt d) (mask d) (pos d) (check d) (d_f d).
Definition set_type (v : array Z) (d : DPND) : DPND :=
  mkDPND (head d) v (dflt d) (mask d) (pos d) (check d) (d_f d).
Definition set_dflt (v : array Z) (d : DPND) : DPND :=
  mkDPND (head d) (type d) v (mask d) (pos d) (check d) (d_f d).
Definition set_mask (v : array Z) (d : DPND) : DPND :=
  mkDPND (head d) (type d) (dflt d) v (pos d) (check d) (d_f d).
Definition set_pos (v : Z) (d : DPND) : DPND :=
  mkDPND (head d) (type d) (dflt d) (mask d) v (check d) (d_f d).
Definition set_check (v : array CHECK_DATA) (d : DPND) : DPND :=
  mkDPND (head d) (type d) (dflt d) (mask d) (pos d) v (d_f d).
Definition set_d_f (v : array FEATURE) (d : DPND) : DPND :=
  mkDPND (head d) (type d) (dflt d) (mask d) (pos d) (check d) v.

Definition set_c_num (v : Z) (c : CHECK_DATA) : CHECK_DATA := mkCHECK v (c_def c) (c_pos c).
Definition set_c_def (v : Z) (c : CHECK_DATA) : CHECK_DATA := mkCHECK (c_num c) v (c_pos c).
Definition set_c_pos (v : array Z) (c : CHECK_DATA) : CHECK_DATA := mkCHECK (c_num c) (c_def c) v.

Definition upd_check (i : Z) (u : CHECK_DATA -> CHECK_DATA) (d : DPND) : DPND :=
  set_check (aset (check d) i (u (check d i))) d.

(** [dpnd.head[i] = h; dpnd.type[i] = t;] *)
Definition set_arc (i h t : Z) (d : DPND) : DPND :=
  set_type (aset (type d) i t) (set_head (aset (head d) i h) d).

Section Dpnd.
Context `{FM : FeatureMatch} (DpndRuleArray : list DpndRule).

(** ** Rules and the matrix *)

Fixpoint find_dpnd_rule (sp : SENTENCE_DATA) (i : Z) (rs : list DpndRule) (j : Z) : res (option Z) :=
  match rs with
  | [] => Ret None
  | r :: rs' =>
      b <- feature_pattern_matches sp (dependant r) (b_f (bnst_data sp i)) PNULL (PB i) ;;
      if b then Ret (Some j) else find_dpnd_rule sp i rs' (j + 1)
  end.

(** Rule 0 when none matches and the pointer is NULL. *)
Definition assign_rule_step (i : Z) (sp : SENTENCE_DATA) : res SENTENCE_DATA :=
  m <- find_dpnd_rule sp i DpndRuleArray 0 ;;
  Ret (match m, b_dpnd_rule (bnst_data sp i) with
       | Some j, _ => upd_bnst i (set_b_dpnd_rule (Some j)) sp
       | None, None => upd_bnst i (set_b_dpnd_rule (Some 0)) sp
       | None, Some _ => sp
       end).

Definition assign_dpnd_rule (sp : SENTENCE_DATA) : res SENTENCE_DATA :=
  for_res 0 (Bnst_num sp) assign_rule_step sp.

(** [*b_ptr->dpnd_rule] *)
Definition rule_of (sp : SENTENCE_DATA) (i : Z) : res DpndRule :=
  match b_dpnd_rule (bnst_data sp i) with
  | None => Err NullDeref
  | Some j => match nth_error DpndRuleArray (Z.to_nat j) with
              | Some r => if j <? 0 then Err OutOfBounds else Ret r
              | None => Err OutOfBounds
              end
  end.

(** The type of the first governor that [j] matches, or 0. *)
Fixpoint governor_type (sp : SENTENCE_DATA) (i j : Z) (gs : list (FEATURE_PATTERN * Z)) : res Z :=
  match gs with
  | [] => Ret 0
  | (g, t) :: gs' =>
      b <- feature_pattern_matches sp g (b_f (bnst_data sp j)) (PB i) (PB j) ;;
      if b then Ret t else governor_type sp i j gs'
  end.

Definition calc_dpnd_cell (sp : SENTENCE_DATA) (i j : Z) (m : matrix Z) : res (matrix Z) :=
  r <- rule_of sp i ;;
  t <- governor_type sp i j (governors r) ;;
  Ret (mset m i j t).

Definition calc_dpnd_matrix (sp : SENTENCE_DATA) (m : matrix Z) : res (matrix Z) :=
  for_res 0 (Bnst_num sp) (fun i m =>
    for_res (i + 1) (Bnst_num sp) (calc_dpnd_cell sp i) m) m.

(** ** Relaxation

    The search of row [i] from [j] on: the flag and the last possibility. *)
Fixpoint relax_search (sp : SENTENCE_DATA) (Quote_matrix Dpnd_matrix : matrix Z) (i : Z)
    (js : list Z) (last_possibility : Z) : bool * Z :=
  match js with
  | [] => (false, last_possibility)
  | j :: js' =>
      if negb (Quote_matrix i j =? 0) then
        if 0 <? Dpnd_matrix i j then (true, last_possibility)
        else if bnst_has sp j "係:文末" then (false, j)
        else relax_search sp Quote_matrix Dpnd_matrix i js' j
      else relax_search sp Quote_matrix Dpnd_matrix i js' last_possibility
  end.

Definition relax_row (sp : SENTENCE_DATA) (Quote_matrix : matrix Z) (i : Z) (st : bool * matrix Z)
  : bool * matrix Z :=
  let '(relax_flag, m) := st in
  let '(ok_flag, last) := relax_search sp Quote_matrix m i (zrange (i + 1) (Bnst_num sp)) i in
  if negb ok_flag &&
     (bnst_has sp last "文末" || bnst_has sp last "係:文末" || bnst_has sp last "括弧終")
  then (true, mset m i last (chr "R"))
  else (relax_flag, m).

Definition relax_dpnd_matrix (sp : SENTENCE_DATA) (Quote_matrix Dpnd_matrix : matrix Z)
  : bool * matrix Z :=
  for_up 0 (Bnst_num sp - 1) (relax_row sp Quote_matrix) (false, Dpnd_matrix).

(** ** The search *)
Section Search.
Context (sp : SENTENCE_DATA) (Mask_matrix Quote_matrix Dpnd_matrix : matrix Z).

(** The first governor of type D after [gvnr], or 0. *)
Definition next_D (d : DPND) (gvnr : Z) : Z :=
  match find_up (gvnr + 1) (Bnst_num sp) (fun i =>
    negb (Mask_matrix (pos d) i =? 0) && negb (Quote_matrix (pos d) i =? 0) &&
    negb (mask d i =? 0) && (Dpnd_matrix (pos d) i =? chr "D")) with
  | Some i => i
  | None => 0
  end.

Definition same_text (a b : option string) : bool :=
  match a, b with Some x, Some y => str_eq x y | _, _ => false end.

Definition check_uncertain_d_condition (d : DPND) (gvnr : Z) : bool :=
  let nd := next_D d gvnr in
  let dpnd_cp := check_feature (b_f (bnst_data sp (pos d))) "係" in
  let gvnr_cp := check_feature (b_f (bnst_data sp gvnr)) "係" in
  let next_cp := if gvnr <? Bnst_num sp - 1
                 then check_feature (b_f (bnst_data sp (gvnr + 1))) "係" else None in
  (nd =? 0) || (gvnr + 2 <? nd) ||
  ((gvnr + 2 =? nd) && (gvnr <? Bnst_num sp - 1) && bnst_has sp (gvnr + 1) "体言" &&
   (same_text dpnd_cp next_cp || same_text gvnr_cp next_cp)).

(** Is [i] a barrier for the dependencies of [p]? *)
Definition at_barrier (p i : Z) : res bool :=
  r <- rule_of sp p ;;
  match barrier r with
  | [] => Ret false
  | fr => feature_pattern_matches sp fr (b_f (bnst_data sp i)) (PB p) (PB i)
  end.

(** The candidates of bunsetsu [p] among [is_], in order; the loop ends
    at the barrier of the rule once there is a candidate.  [use_mask]:
    [decide_dpnd] looks at [Mask_matrix], [count_dpnd_candidates] does not;
    [cky] is OptCKY there. *)
Fixpoint candidates (use_mask cky : bool) (d : DPND) (p : Z) (is_ : list Z)
    (d_possibility : bool) (acc : list Z) : res (list Z) :=
  match is_ with
  | [] => Ret acc
  | i :: is_' =>
      if (negb use_mask || negb (Mask_matrix p i =? 0)) &&
         negb (Quote_matrix p i =? 0) && negb (mask d i =? 0)
      then
        let '(d_possibility, acc) :=
          if (cky || d_possibility) && (Dpnd_matrix p i =? chr "d")
          then (false, if cky || check_uncertain_d_condition d i then acc ++ [i] else acc)
          else if negb (Dpnd_matrix p i =? 0) && negb (Dpnd_matrix p i =? chr "d")
          then (false, acc ++ [i])
          else (d_possibility, acc) in
        match acc with
        | [] => candidates use_mask cky d p is_' d_possibility acc
        | _ =>
            b <- at_barrier p i ;;
            if b then Ret acc else candidates use_mask cky d p is_' d_possibility acc
        end
      else candidates use_mask cky d p is_' d_possibility acc
  end.

(** [for (i = pos + 2; i < dpnd.head[pos + 1]; i++) dpnd.mask[i] = 0;] *)
Definition mask_crossing (p : Z) (d : DPND) : DPND :=
  if p <? Bnst_num sp - 2
  then set_mask (for_up (p + 2) (head d (p + 1)) (fun i m => aset m i 0) (mask d)) d
  else d.

Definition enter (p : Z) (d : DPND) : DPND :=
  mask_crossing p (set_d_f (aset (d_f d) p (b_f (bnst_data sp p))) (set_pos p d)).

(** The bunsetsus that follow the dependency of an earlier one ([head] < 0):
    [None] when that is impossible. *)
Fixpoint resolve_heads (is_ : list Z) (d : DPND) : res (option DPND) :=
  match is_ with
  | [] => Ret (Some d)
  | i :: is_' =>
      if head d i <? 0 then
        if i + head d i <? 0 then Err OutOfBounds
        else
          let h := head d (i + head d i) in
          if h <=? i then Ret None
          else resolve_heads is_'
                 (upd_check i (fun c => set_c_pos (aset (c_pos c) 0 h) c)
                    (set_head (aset (head d) i h) d))
      else resolve_heads is_' d
  end.

(** [sscanf(cp, "%*[^:]:%*[^:]:%d", &h)] *)
Definition follow_offset (cp : string) (h : Z) : Z :=
  match span_not colon cp with
  | (String _ _, String _ r) =>
      match span_not colon r with
      | (String _ _, String _ r2) => match scan_int r2 with Some n => n | None => h end
      | _ => h
      end
  | _ => h
  end.

(** The parallel or partially parallel governor that the analysis of
    coordinations has fixed. *)
Definition fixed_governor (p : Z) : option Z :=
  find_up (p + 1) (Bnst_num sp) (fun i => (Mask_matrix p i =? 2) || (Mask_matrix p i =? 3)).

Definition one_candidate (p h : Z) (d : DPND) : DPND :=
  upd_check p (fun c => set_c_pos (aset (c_pos c) 0 h) (set_c_num 1 c)) d.

Definition store_candidates (p : Z) (ps : list Z) (default_pos : Z) (d : DPND) : DPND :=
  upd_check p (fun c => mkCHECK (Z.of_nat (List.length ps)) default_pos
    (for_up 0 (Z.of_nat (List.length ps)) (fun i a => aset a i (nth (Z.to_nat i) ps 0)) (c_pos c))) d.

(** [possibilities[i]] *)
Definition possibility (ps : list Z) (i : Z) : res Z :=
  match nth_error ps (Z.to_nat i) with
  | Some p => if i <? 0 then Err OutOfBounds else Ret p
  | None => Err OutOfBounds
  end.

Definition choose (p h df : Z) (d : DPND) : DPND :=
  set_dflt (aset (dflt d) p df) (set_arc p h (Dpnd_matrix p h) d).

(** Is the governor decided at once (no barrier, or the rule says so)? *)
Definition decides (r : DpndRule) : bool := match barrier r with [] => true | _ => decide r end.

Section Decide.
Context {S : Type} (evaluate : DPND -> S -> res S).

(** [decide_dpnd] with [dpnd.pos = Z.of_nat n]. *)
Fixpoint decide_dpnd (n : nat) (d : DPND) (s : S) : res S :=
  match n with
  | O =>
      r <- resolve_heads (zrange 0 (Bnst_num sp - 1)) (set_pos (-1) d) ;;
      match r with Some d => evaluate d s | None => Ret s end
  | Datatypes.S n' =>
      let p := Z.of_nat n' in
      let d := enter p d in
      match fixed_governor p with
      | Some i =>
          decide_dpnd n' (one_candidate p i
            (set_arc p i (if Mask_matrix p i =? 2 then chr "P" else chr "I") d)) s
      | None =>
          match check_feature (b_f (bnst_data sp p)) "係:無格従属" with
          | Some cp =>
              decide_dpnd n' (upd_check p (set_c_num 1)
                (set_dflt (aset (dflt d) p 0)
                  (set_arc p (follow_offset cp (head d p)) (chr "D") d))) s
          | None =>
              ps <- candidates true false d p (zrange (p + 1) (Bnst_num sp)) true [] ;;
              let count := Z.of_nat (List.length ps) in
              match ps with
              | [] =>
                  let last := Bnst_num sp - 1 in
                  if negb (Mask_matrix p last =? 0)
                  then decide_dpnd n' (one_candidate p last
                         (set_dflt (aset (dflt d) p 10) (set_arc p last (chr "D") d))) s
                  else Ret s
              | _ =>
                  r <- rule_of sp p ;;
                  let default_pos := if preference r =? -1 then count else preference r in
                  let d := store_candidates p ps default_pos d in
                  if decides r then
                    h <- possibility ps (if default_pos <=? count then default_pos - 1 else count - 1) ;;
                    decide_dpnd n' (choose p h 0 d) s
                  else
                    fold_res (fun ih s =>
                        decide_dpnd n' (choose p (snd ih) (Z.abs (default_pos - 1 - fst ih)) d) s)
                      (combine (zrange 0 count) ps) s
              end
          end
      end
  end.
End Decide.

(** [call_count_dpnd_candidates]: the candidates of an input that is already parsed. *)
Fixpoint count_dpnd_candidates (cky : bool) (n : nat) (d : DPND) : res DPND :=
  match n with
  | O => Ret d
  | Datatypes.S n' =>
      let p := Z.of_nat n' in
      let d := mask_crossing p d in
      ps <- candidates false cky d p (zrange (p + 1) (Bnst_num sp)) true [] ;;
      let count := Z.of_nat (List.length ps) in
      let d := upd_check p (fun c => set_c_pos
                 (for_up 0 count (fun i a => aset a i (nth (Z.to_nat i) ps 0)) (c_pos c)) c) d in
      d <- match ps with
           | [] => Ret d
           | _ =>
               r <- rule_of sp p ;;
               Ret (upd_check p (fun c => set_c_def
                      (if preference r =? -1 then count else preference r) (set_c_num count c)) d)
           end ;;
      count_dpnd_candidates cky n' d
  end.

Definition CHECK_0 : CHECK_DATA := mkCHECK (-1) 0 (fun _ => 0).

Definition call_count_dpnd_candidates (cky : bool) (d : DPND) : res DPND :=
  let d := for_up 0 (Bnst_num sp) (fun i d =>
    set_check (aset (check d) i CHECK_0) (set_mask (aset (mask d) i 1) d)) d in
  count_dpnd_candidates cky (Z.to_nat (Bnst_num sp)) d.
End Search.

(** ** The score of a structure *)

(** The local variables for one governor; [gs_topic] is [topic_score], which
    keeps its value from one governor to the next and starts unassigned. *)
Record gov_state : Type := mkGS {
  gs_score : Z;
  gs_scase : array Z;
  gs_ha : bool;
  gs_un : Z;
  gs_topic : option Z;
  gs_stop : bool
}.

Definition gs_add (n : Z) (g : gov_state) : gov_state :=
  mkGS (gs_score g + n) (gs_scase g) (gs_ha g) (gs_un g) (gs_topic g) (gs_stop g).
Definition gs_case (k : Z) (g : gov_state) : gov_state :=
  mkGS (gs_score g) (aset (gs_scase g) k 1) (gs_ha g) (gs_un g) (gs_topic g) (gs_stop g).

Definition has_any (f : FEATURE) (names : list string) : bool := existsb (has_feature f) names.

(** The topic bonus. *)
Definition eval_topic (df gf : FEATURE) (g : gov_state) : res gov_state :=
  g <- match check_feature gf "提題受" with
       | None => Ret g
       | Some cp2 =>
           let t := match span_not colon cp2 with
                    | (String _ _, String _ r) =>
                        match scan_int r with Some n => Some n | None => gs_topic g end
                    | _ => gs_topic g
                    end in
           match t with
           | Some n => Ret (gs_add n (mkGS (gs_score g) (gs_scase g) (gs_ha g) (gs_un g) (Some n) (gs_stop g)))
           | None => Err BadPointer
           end
       end ;;
  Ret (if has_any df ["時間"; "数量"]%string then gs_add 10 g
       else if negb (gs_ha g)
       then gs_add 10 (mkGS (gs_score g) (gs_scase g) true (gs_un g) (gs_topic g) (gs_stop g))
       else g).

(** The score of the case [cp] of a dependant of predicate [b]. *)
Definition eval_case (cp : string) (df : FEATURE) (b : BNST_DATA) (g : gov_state) : gov_state :=
  let k := case2num (sdrop 3 cp) in
  if str_eq cp "係:未格" then
    if has_any df ["時間"; "数量"]%string then gs_add 10 g
    else mkGS (gs_score g) (gs_scase g) (gs_ha g) (gs_un g + 1) (gs_topic g) (gs_stop g)
  else if str_eq cp "係:ノ格" then
    if negb (has_feature (b_f b) "体言")
    then let g := gs_add 10 g in
         mkGS (gs_score g) (gs_scase g) (gs_ha g) (gs_un g) (gs_topic g) true
    else g
  else if str_eq cp "係:ガ格" then
    if negb (b_SCASE_code b (case2num "ガ格") =? 0) && (gs_scase g (case2num "ガ格") =? 0)
    then gs_case (case2num "ガ格") (gs_add 10 g)
    else if negb (b_SCASE_code b (case2num "ガ２") =? 0) && (gs_scase g (case2num "ガ２") =? 0)
    then gs_case (case2num "ガ格") (gs_add 10 g)
    else g
  else if negb (k =? -1) then
    if gs_scase g k =? 0 then gs_add 10 (gs_case k g) else g
  else g.

(** The dependant [j] of governor [i]; [pred_p]: is [i] a predicate? *)
Definition eval_dependant (sp : SENTENCE_DATA) (d : DPND) (i : Z) (pred_p : bool) (j : Z) (g : gov_state)
  : res gov_state :=
  let df := b_f (bnst_data sp j) in
  let b := bnst_data sp i in
  if gs_stop g || negb (head d j =? i) then Ret g
  else
    let g := gs_add (- (if has_feature df "提題" then dflt d j else dflt d j * 2)) g in
    let g := if (j + 1 =? i) && has_feature df "読点" then gs_add (-5) g else g in
    match check_feature df "係" with
    | Some cp =>
        if pred_p then
          g <- (if has_feature df "提題" && str_eq cp "係:未格" then eval_topic df (b_f b) g else Ret g) ;;
          let g := eval_case cp df b g in
          if gs_stop g then Ret g
          else
            Ret (if has_feature df "用言" && has_any df ["係:未格"; "係:ガ格"]%string &&
                    has_feature (b_f b) "用言:判"
                 then gs_add 3 g else g)
        else Ret g
    | None => Ret g
    end.

Definition b2z (b : bool) : Z := if b then 1 else 0.

(** The vacant slots of predicate [b]. *)
Definition vacant_slots (b : BNST_DATA) (scase : array Z) (rentai : bool) : Z :=
  let vacant (c : string) := b_SCASE_code b (case2num c) - scase (case2num c) =? 1 in
  b2z (vacant "ガ格"%string) + b2z (vacant "ヲ格"%string) +
  b2z (vacant "ニ格"%string && rentai && has_feature (b_f b) "用言:動") + b2z (vacant "ガ２"%string).

(** [one_score] of governor [i], with the new [topic_score]. *)
Definition eval_governor (sp : SENTENCE_DATA) (d : DPND) (i : Z) (topic : option Z)
  : res (Z * option Z) :=
  let b := bnst_data sp i in
  let pred_p := has_any (b_f b) ["用言"; "準用言"]%string in
  g <- fold_res (eval_dependant sp d i pred_p) (rev (zrange 0 i)) (mkGS 0 (fun _ => 0) false 0 topic false) ;;
  if pred_p then
    ' (bonus, rentai) <-
      (if has_feature (b_f b) "係:連格" then
         if head d i <? 0 then Err OutOfBounds
         else if has_any (b_f (bnst_data sp (head d i))) ["外の関係"; "ルール外の関係"]%string
         then Ret (10, false) else Ret (0, true)
       else Ret (0, false)) ;;
    let wanted := b2z rentai + gs_un g in
    let vacant := vacant_slots b (gs_scase g) rentai in
    Ret (gs_score g + bonus + (if wanted <=? vacant then wanted * 10 else vacant * 10), gs_topic g)
  else Ret (gs_score g, gs_topic g).

Definition dpnd_score (sp : SENTENCE_DATA) (d : DPND) : res Z :=
  ' (score, _) <- for_res 1 (Bnst_num sp) (fun i '(score, topic) =>
                    ' (one, topic) <- eval_governor sp d i topic ;; Ret (score + one, topic)) (0, None) ;;
  Ret score.

(** ** The best structure: [sp->Best_mgr], [Possibility] and [dpndID] *)
Record TOTAL_MGR : Type := mkTM {
  tm_dpnd : DPND;
  tm_score : Z;
  tm_ID : Z;
  Possibility : Z;
  dpndID : Z
}.

(** [dpnd_evaluation] without its output (OptDisplay, OptNbest). *)
Definition dpnd_evaluation (sp : SENTENCE_DATA) (d : DPND) (t : TOTAL_MGR) : res TOTAL_MGR :=
  score <- dpnd_score sp d ;;
  Ret (if tm_score t <? score
       then mkTM d score (dpndID t) (Possibility t + 1) (dpndID t + 1)
       else mkTM (tm_dpnd t) (tm_score t) (tm_ID t) (Possibility t) (dpndID t + 1)).

(** The initial [dpnd] of [detect_dpnd_case_struct], a local variable with
    contents [d]. *)
Definition init_dpnd (sp : SENTENCE_DATA) (d : DPND) : DPND :=
  set_pos (Bnst_num sp - 1) (for_up 0 (Bnst_num sp) (fun i d =>
    set_d_f (aset (d_f d) i []) (set_check (aset (check d) i CHECK_0)
      (set_mask (aset (mask d) i 1) (set_dflt (aset (dflt d) i 0)
        (set_arc i (-1) (chr "D") d))))) d).

(** The search of [detect_dpnd_case_struct], for OPT_DPND and OPT_CASE2:
    the structures are scored by [dpnd_evaluation]. *)
Definition detect_dpnd_struct (sp : SENTENCE_DATA) (Mask_matrix Quote_matrix Dpnd_matrix : matrix Z)
    (garbage : DPND) (t : TOTAL_MGR) : res TOTAL_MGR :=
  if Bnst_num sp <=? 0 then Err OutOfBounds
  else decide_dpnd sp Mask_matrix Quote_matrix Dpnd_matrix (dpnd_evaluation sp)
         (Z.to_nat (Bnst_num sp - 1)) (init_dpnd sp garbage)
         (mkTM (tm_dpnd t) (-10000) (-1) 0 0).

Definition when_no_dpnd_struct (sp : SENTENCE_DATA) (t : TOTAL_MGR) : TOTAL_MGR :=
  let n := Bnst_num sp in
  let d := for_down (n - 2) 0 (fun i d => one_candidate i (i + 1) (set_arc i (i + 1) (chr "D") d))
             (set_arc (n - 1) (-1) (chr "D") (tm_dpnd t)) in
  mkTM d 0 (tm_ID t) (Possibility t) (dpndID t).

(** ** Results *)
Definition dpnd_info_to_bnst (Chinese : bool) (dp : DPND) (sp : SENTENCE_DATA) : SENTENCE_DATA :=
  for_up 0 (Bnst_num sp) (fun i sp =>
    upd_bnst i (fun b => set_b_dpnd_dflt (dflt dp i)
      (set_b_dpnd_type
        (if negb Chinese && ((type dp i =? chr "d") || (type dp i =? chr "R")) then chr "D" else type dp i)
        (set_b_dpnd_head (head dp i) b))) sp) sp.

Definition copy_para_info (dst src : BNST_DATA) : BNST_DATA :=
  set_b_to_para_p (b_to_para_p src) (set_b_para_type (b_para_type src)
    (set_b_para_top_p (b_para_top_p src) (set_b_para_key_type (b_para_key_type src)
      (set_b_para_num (b_para_num src) dst)))).

(** The last tag of bunsetsu [i] gets feature [fname]. *)
Definition assign_to_last_tag (buf : string) (i : Z) (fname : string) (sp : SENTENCE_DATA)
  : res (SENTENCE_DATA * string) :=
  let b := bnst_data sp i in
  let k := b_tag_ptr b + b_tag_num b - 1 in
  if k <? 0 then Err OutOfBounds
  else
    let '(f, buf) := assign_cfeature buf (b_f (tag_data sp k)) fname false in
    Ret (set_tag_data (aset (tag_data sp) k (set_b_f f (tag_data sp k))) sp, buf).

Definition assign_to_bnst_and_tag (buf : string) (i : Z) (fname tname : string) (sp : SENTENCE_DATA)
  : res (SENTENCE_DATA * string) :=
  let '(f, buf) := assign_cfeature buf (b_f (bnst_data sp i)) fname false in
  assign_to_last_tag buf i tname (upd_bnst i (set_b_f f) sp).

Definition para_postprocess (sp : SENTENCE_DATA) (buf : string) : res (SENTENCE_DATA * string) :=
  for_res 0 (Bnst_num sp) (fun i '(sp, buf) =>
    let b := bnst_data sp i in
    if has_feature (b_f b) "用言" && negb (has_feature (b_f b) "〜とみられる") &&
       negb (b_para_num b =? -1) && negb (p_status (para_data sp (b_para_num b)) =? chr "x")
    then assign_to_bnst_and_tag buf i "提題受:30" "提題受:30" sp
    else Ret (sp, buf)) (sp, buf).

Definition DATA_LEN : Z := 5120.

(** The two texts of the candidates; [None] when they are too long. *)
Fixpoint candidate_texts (b2t_table : array Z) (ps : list Z) (b_buffer t_buffer : string)
  : option (string * string) :=
  match ps with
  | [] => Some (b_buffer, t_buffer)
  | p :: ps' =>
      let tmp_b := (":" ++ itoa p)%string in
      let tmp_t := (":" ++ itoa (b2t_table p))%string in
      if DATA_LEN <=? slen t_buffer + slen tmp_t then None
      else candidate_texts b2t_table ps' (b_buffer ++ tmp_b)%string (t_buffer ++ tmp_t)%string
  end.

Fixpoint check_candidates_go (b2t_table : array Z) (dp : DPND) (is_ : list Z) (sp : SENTENCE_DATA)
    (buf : string) : res (SENTENCE_DATA * string) :=
  match is_ with
  | [] => Ret (sp, buf)
  | i :: is_' =>
      if c_num (check dp i) =? -1 then check_candidates_go b2t_table dp is_' sp buf
      else
        match candidate_texts b2t_table (map (c_pos (check dp i)) (zrange 0 (c_num (check dp i))))
                "候補" "候補" with
        | None => Ret (sp, buf)
        | Some (b_buffer, t_buffer) =>
            ' (sp, buf) <- assign_to_bnst_and_tag buf i b_buffer t_buffer sp ;;
            check_candidates_go b2t_table dp is_' sp buf
        end
  end.

Definition check_candidates (dp : DPND) (sp : SENTENCE_DATA) (buf : string)
  : res (SENTENCE_DATA * string) :=
  let b2t_table := for_up 0 (Bnst_num sp) (fun i a =>
    let b := bnst_data sp i in
    aset a (b_num b) (b_num (tag_data sp (b_tag_ptr b + b_tag_num b - 1)))) (fun _ => 0) in
  check_candidates_go b2t_table dp (zrange 0 (Bnst_num sp)) sp buf.
End Dpnd.

(** * Properties *)

(** ** The search as a step relation *)
Section Steps.
Context `{FM : FeatureMatch} (rules : list DpndRule) (sp : SENTENCE_DATA).
Context (Mask_matrix Quote_matrix Dpnd_matrix : matrix Z).

Local Abbreviation fixed := (fixed_governor sp Mask_matrix).
Local Abbreviation follows p := (check_feature (b_f (bnst_data sp p)) "係:無格従属").
Local Abbreviation cands d p :=
  (candidates rules sp Mask_matrix Quote_matrix Dpnd_matrix true false d p
     (zrange (p + 1) (Bnst_num sp)) true []).
Local Abbreviation default_of r ps :=
  (if preference r =? -1 then Z.of_nat (List.length ps) else preference r).

(** One bunsetsu gets its governor. *)
Inductive step (p : Z) (d : DPND) : DPND -> Prop :=
| step_fixed i : fixed p = Some i ->
    step p d (one_candidate p i
      (set_arc p i (if Mask_matrix p i =? 2 then chr "P" else chr "I") (enter sp p d)))
| step_follow cp : fixed p = None -> follows p = Some cp ->
    step p d (let d := enter sp p d in
      upd_check p (set_c_num 1) (set_dflt (aset (dflt d) p 0)
        (set_arc p (follow_offset cp (head d p)) (chr "D") d)))
| step_last : fixed p = None -> follows p = None -> cands (enter sp p d) p = Ret [] ->
    Mask_matrix p (Bnst_num sp - 1) <> 0 ->
    step p d (let d := enter sp p d in
      one_candidate p (Bnst_num sp - 1)
        (set_dflt (aset (dflt d) p 10) (set_arc p (Bnst_num sp - 1) (chr "D") d)))
| step_unique r ps h : fixed p = None -> follows p = None -> cands (enter sp p d) p = Ret ps ->
    ps <> [] -> rule_of rules sp p = Ret r -> decides r = true ->
    possibility ps (if default_of r ps <=? Z.of_nat (List.length ps) then default_of r ps - 1
                    else Z.of_nat (List.length ps) - 1) = Ret h ->
    step p d (choose Dpnd_matrix p h 0 (store_candidates p ps (default_of r ps) (enter sp p d)))
| step_each r ps i h : fixed p = None -> follows p = None -> cands (enter sp p d) p = Ret ps ->
    ps <> [] -> rule_of rules sp p = Ret r -> decides r = false ->
    In (i, h) (combine (zrange 0 (Z.of_nat (List.length ps))) ps) ->
    step p d (choose Dpnd_matrix p h (Z.abs (default_of r ps - 1 - i))
                (store_candidates p ps (default_of r ps) (enter sp p d))).

(** The structures that can be reached when the bunsetsus before [n] have no
    governor yet. *)
Inductive search : nat -> DPND -> DPND -> Prop :=
| search_done d d' :
    resolve_heads (zrange 0 (Bnst_num sp - 1)) (set_pos (-1) d) = Ret (Some d') -> search O d d'
| search_step n d d1 d' :
    step (Z.of_nat n) d d1 -> search n d1 d' -> search (Datatypes.S n) d d'.

Section Enumerate.
Context {S : Type} (evaluate : DPND -> S -> res S).
Local Abbreviation decide_ :=
  (decide_dpnd rules sp Mask_matrix Quote_matrix Dpnd_matrix evaluate).

(** [ds] are the structures that [decide_dpnd n d] evaluates. *)
Definition enumerates (n : nat) (d : DPND) (ds : list DPND) (s s' : S) : Prop :=
  (forall d', In d' ds <-> search n d d') /\ fold_res evaluate ds s = Ret s'.

(** The loop over all the candidates. *)
Lemma enumerate_each : forall (n : nat) (mk : Z * Z -> DPND) ihs s s',
  (forall d s s', decide_ n d s = Ret s' -> exists ds, enumerates n d ds s s') ->
  fold_res (fun x s => decide_ n (mk x) s) ihs s = Ret s' ->
  exists ds, (forall d', In d' ds <-> exists x, In x ihs /\ search n (mk x) d') /\
             fold_res evaluate ds s = Ret s'.
Proof.
  intros n mk ihs s s' IH. revert s. induction ihs as [|x ihs IHl]; intros s E; cbn in E.
  - exists []. split; [|exact E]. intros d'. split; [easy | intros [y [[] _]]].
  - destruct (decide_ n (mk x) s) as [s1|] eqn:E1; [|discriminate].
    destruct (IH _ _ _ E1) as [ds1 [A1 B1]]. destruct (IHl s1 E) as [ds2 [A2 B2]].
    exists (ds1 ++ ds2). rewrite fold_res_app, B1. split; [|exact B2].
    intros d'. rewrite in_app_iff, A1, A2. split.
    + intros [H|[y [Hy H]]]; [exists x | exists y]; auto using in_eq, in_cons.
    + intros [y [[<-|Hy] H]]; [now left | right; eauto].
Qed.

(** A bunsetsu with one possible governor. *)
Lemma enumerate_one : forall n d d1 s s',
  (forall d2, step (Z.of_nat n) d d2 <-> d2 = d1) ->
  (exists ds, enumerates n d1 ds s s') -> exists ds, enumerates (Datatypes.S n) d ds s s'.
Proof.
  intros n d d1 s s' H [ds [A B]]. exists ds. split; auto. intros d'. rewrite A. split.
  - intros R. apply search_step with d1; auto. now apply H.
  - intros R. inv R. apply H in H1. now subst.
Qed.

Lemma enumerate_none : forall n d s, (forall d2, ~ step (Z.of_nat n) d d2) ->
  enumerates (Datatypes.S n) d [] s s.
Proof.
  intros n d s H. split; [|reflexivity]. intros d'. split; [easy|].
  intros R. inv R. now apply H in H1.
Qed.

Ltac step_cases := intros d2; split; [intros HS; inv HS; congruence | intros ->].

Lemma decide_dpnd_enumerates_all : forall n d s s',
  decide_ n d s = Ret s' -> exists ds, enumerates n d ds s s'.
Proof.
  induction n as [|n IH]; intros d s s' E; cbn [decide_dpnd] in E.
  - destruct (resolve_heads _ _) as [[d'|]|] eqn:ER; [| |discriminate].
    + exists [d']. split; [|cbn; now rewrite E]. intros x. split.
      * intros [<-|[]]. now constructor.
      * intros R. inv R. rewrite ER in H. inv H. now left.
    + inv E. exists []. split; [|reflexivity]. intros x. split; [easy|]. intros R. inv R. congruence.
  - set (p := Z.of_nat n) in *. destruct (fixed p) as [i|] eqn:EF.
    + eapply enumerate_one; [|eauto]. fold p. intros d2. split; [|intros ->; now constructor].
      intros HS. inv HS; try congruence. now replace i0 with i by congruence.
    + destruct (follows p) as [cp|] eqn:EW.
      * eapply enumerate_one; [|eauto]. fold p. step_cases. now constructor.
      * destruct (cands (enter sp p d) p) as [[|c ps]|] eqn:EC; [| |discriminate].
        -- destruct (Z.eqb_spec (Mask_matrix p (Bnst_num sp - 1)) 0) as [Hm|Hm]; cbn [negb] in E.
           ++ inv E. exists []. apply enumerate_none. fold p. intros d2 HS.
              inv HS; congruence.
           ++ eapply enumerate_one; [|eauto]. fold p. step_cases. now constructor.
        -- destruct (rule_of rules sp p) as [r|] eqn:ER; [|discriminate].
           destruct (decides r) eqn:ED.
           ++ destruct (possibility (c :: ps) _) as [h|] eqn:EP; [|discriminate].
              eapply enumerate_one; [|eauto]. fold p. intros d2. split; [|intros ->; now eapply step_unique].
              intros HS. inv HS; try congruence.
              replace ps0 with (c :: ps) in * by congruence. replace r0 with r in * by congruence.
              congruence.
           ++ destruct (enumerate_each n (fun x => choose Dpnd_matrix p (snd x)
                 (Z.abs (default_of r (c :: ps) - 1 - fst x))
                 (store_candidates p (c :: ps) (default_of r (c :: ps)) (enter sp p d)))
                 (combine (zrange 0 (Z.of_nat (List.length (c :: ps)))) (c :: ps)) s s' IH)
                as [ds [A B]].
              { exact E. }
              exists ds. split; [|exact B]. intros d'. rewrite A. split.
              ** intros [[i h] [Hx Hs]]. eapply search_step; [|exact Hs]. now eapply step_each.
              ** intros R. inv R. fold p in H0. inv H0; try congruence.
                 replace ps0 with (c :: ps) in * by congruence. replace r0 with r in * by congruence.
                 exists (i, h). auto.
Qed.

End Enumerate.

(** ** What a step does *)

Local Abbreviation n := (Bnst_num sp).

Lemma enter_mask : forall p d i,
  mask (enter sp p d) i = if (p <? n - 2) && within (p + 2) i (head d (p + 1)) then 0 else mask d i.
Proof.
  intros p d i. unfold enter, mask_crossing. cbn [head set_d_f set_pos].
  destruct (p <? n - 2); [|reflexivity]. cbn [mask set_mask andb set_d_f set_pos].
  pose proof (for_up_inv (fun k m => forall x, m x = if within (p + 2) x k then 0 else mask d x)
    (p + 2) (head d (p + 1)) (fun i m => aset m i 0) (mask d)) as H.
  destruct (Z.le_gt_cases (p + 2) (head d (p + 1))) as [Hle|Hgt].
  - apply H; auto.
    + intros x. destruct (within_spec (p + 2) x (p + 2)); [lia | auto].
    + intros k m Hk IH y. unfold aset. rewrite IH.
      destruct (Z.eqb_spec y k) as [->|]; [destruct (within_spec (p + 2) k (k + 1)); auto; lia|].
      destruct (within_spec (p + 2) y (k + 1)), (within_spec (p + 2) y k); auto; lia.
  - rewrite for_up_empty by lia. destruct (within_spec (p + 2) i (head d (p + 1))); [lia | auto].
Qed.

Lemma enter_head : forall p d, head (enter sp p d) = head d.
Proof. intros p d. unfold enter, mask_crossing. now destruct (_ <? _). Qed.

Lemma enter_type : forall p d, type (enter sp p d) = type d.
Proof. intros p d. unfold enter, mask_crossing. now destruct (_ <? _). Qed.

Lemma candidates_in : forall d p is_ dp acc ps,
  candidates rules sp Mask_matrix Quote_matrix Dpnd_matrix true false d p is_ dp acc = Ret ps ->
  forall h, In h ps -> In h acc \/
    (In h is_ /\ Mask_matrix p h <> 0 /\ Quote_matrix p h <> 0 /\ mask d h <> 0 /\ Dpnd_matrix p h <> 0).
Proof.
  intros d p. induction is_ as [|i is_ IH]; intros dp acc ps E h Hh; cbn [candidates] in E.
  - inv E. now left.
  - assert (R : forall dp' acc', (forall x, In x acc' -> In x acc \/ (x = i /\ Dpnd_matrix p i <> 0)) ->
        (Mask_matrix p i <> 0 /\ Quote_matrix p i <> 0 /\ mask d i <> 0 \/ acc' = acc) ->
        candidates rules sp Mask_matrix Quote_matrix Dpnd_matrix true false d p is_ dp' acc' = Ret ps \/
        acc' = ps ->
        In h acc \/ (In h (i :: is_) /\ Mask_matrix p h <> 0 /\ Quote_matrix p h <> 0 /\ mask d h <> 0 /\
                     Dpnd_matrix p h <> 0)).
    { intros dp' acc' Ha Hm [E'|E'].
      - destruct (IH _ _ _ E' h Hh) as [H|[H1 H2]]; [|right; split; [now right | exact H2]].
        destruct Hm as [Hm|Hm]; [|subst; now left].
        destruct (Ha h H) as [H'|[-> H']]; [now left|]. right. intuition auto using in_eq.
      - subst acc'. destruct Hm as [Hm|Hm]; [|subst; now left].
        destruct (Ha h Hh) as [H'|[-> H']]; [now left|]. right. intuition auto using in_eq. }
    cbn [negb orb] in E.
    destruct (Z.eqb_spec (Mask_matrix p i) 0), (Z.eqb_spec (Quote_matrix p i) 0),
      (Z.eqb_spec (mask d i) 0); cbn [negb andb] in E; try (eapply R; [| |left; exact E]; auto; fail).
    destruct (if (false || dp) && (Dpnd_matrix p i =? chr "d") then _ else _) as [dp' acc'] eqn:EA.
    assert (Ha : forall x, In x acc' -> In x acc \/ (x = i /\ Dpnd_matrix p i <> 0)).
    { intros x Hx. destruct ((false || dp) && (Dpnd_matrix p i =? chr "d")) eqn:E1.
      - apply andb_true_iff in E1. destruct E1 as [_ E1]. apply Z.eqb_eq in E1.
        destruct (check_uncertain_d_condition _ _ _ _ d i); inv EA; [|now left]. apply in_app_iff in Hx.
        destruct Hx as [Hx|[<-|[]]]; [now left|]. right. rewrite E1. split; [auto | discriminate].
      - destruct (negb (Dpnd_matrix p i =? 0) && negb (Dpnd_matrix p i =? chr "d")) eqn:E2;
          inv EA; [|now left].
        apply in_app_iff in Hx. destruct Hx as [Hx|[<-|[]]]; [now left|]. right. split; [auto | blia]. }
    assert (Hm : Mask_matrix p i <> 0 /\ Quote_matrix p i <> 0 /\ mask d i <> 0 \/ acc' = acc) by auto.
    apply (R dp' acc' Ha Hm). destruct acc' as [|a acc']; [now left|].
    destruct (at_barrier rules sp p i) as [[|]|]; [inv E; now right | now left | discriminate].
Qed.

(** How bunsetsu [p] gets governor [h] in state [d]. *)
Inductive arc_kind (p : Z) (d : DPND) (h t : Z) : Prop :=
| arc_fixed : fixed p = Some h -> t = (if Mask_matrix p h =? 2 then chr "P" else chr "I") -> arc_kind p d h t
| arc_follow cp : fixed p = None -> follows p = Some cp -> h = follow_offset cp (head d p) -> arc_kind p d h t
| arc_free : fixed p = None -> follows p = None -> p < h < n -> Mask_matrix p h <> 0 ->
    Quote_matrix p h <> 0 -> Dpnd_matrix p h <> 0 -> mask (enter sp p d) h <> 0 -> t = Dpnd_matrix p h ->
    arc_kind p d h t
| arc_last : fixed p = None -> follows p = None -> h = n - 1 -> Mask_matrix p h <> 0 -> t = chr "D" ->
    arc_kind p d h t.

Lemma possibility_in : forall ps i h, possibility ps i = Ret h -> In h ps.
Proof.
  intros ps i h E. unfold possibility in E. destruct (nth_error ps (Z.to_nat i)) eqn:EN; [|discriminate].
  destruct (i <? 0); inv E. eapply nth_error_In, EN.
Qed.

Lemma step_arc : forall p d d1, step p d d1 -> exists h t,
  arc_kind p d h t /\ head d1 = aset (head d) p h /\ type d1 = aset (type d) p t /\
  mask d1 = mask (enter sp p d).
Proof.
  assert (C : forall p d ps h, cands (enter sp p d) p = Ret ps -> In h ps -> fixed p = None ->
    follows p = None -> arc_kind p d h (Dpnd_matrix p h)).
  { intros p d ps h E Hh HF HW. destruct (candidates_in _ _ _ _ _ _ E h Hh) as [[]|[H1 H2]].
    rewrite in_zrange in H1. apply arc_free; tauto || lia. }
  intros p d d1 HS. inv HS.
  - exists i. eexists. split; [now apply arc_fixed|]. cbn.
    now rewrite enter_head, enter_type.
  - eexists. eexists. split; [eapply arc_follow; eauto|]. cbn. rewrite enter_head, enter_type. auto.
  - eexists. eexists. split; [now apply arc_last|]. cbn. now rewrite enter_head, enter_type.
  - exists h. eexists. split; [eapply C; eauto; eapply possibility_in; eauto|].
    cbn. now rewrite enter_head, enter_type.
  - exists h. eexists. split; [eapply C; eauto; eapply in_combine_r; eauto|].
    cbn. now rewrite enter_head, enter_type.
Qed.
(** ** The invariant of the search *)

(** The dependency of [i] on [h] with type [t] is one that the analyses before allow. *)
Definition permitted (i h t : Z) : Prop :=
  (fixed i = Some h /\ t = (if Mask_matrix i h =? 2 then chr "P" else chr "I")) \/
  (fixed i = None /\ follows i <> None) \/
  (fixed i = None /\ follows i = None /\ Mask_matrix i h <> 0 /\
   ((Quote_matrix i h <> 0 /\ Dpnd_matrix i h <> 0 /\ t = Dpnd_matrix i h) \/
    (h = n - 1 /\ t = chr "D"))).

(** Bunsetsus that follow an earlier one say so by a negative number. *)
Definition follow_ok : Prop := forall p cp, 0 <= p < n - 1 -> fixed p = None ->
  follows p = Some cp -> follow_offset cp (-1) < 0.

Record level_inv (q : Z) (d : DPND) : Prop := {
  li_last : head d (n - 1) = -1;
  li_open : forall i, 0 <= i < q -> head d i = -1;
  li_head : forall i, q <= i < n - 1 ->
    i < head d i < n \/ (head d i < 0 /\ fixed i = None /\ follows i <> None);
  li_mask : forall j i, q < j < n - 1 -> j < i < head d j -> mask d i = 0;
  li_cross : forall a b, q <= a -> a < b < n - 1 -> fixed a = None -> follows a = None ->
    b < head d a -> head d b <= head d a;
  li_kind : forall i, q <= i < n - 1 -> permitted i (head d i) (type d i)
}.

Lemma arc_kind_permitted : forall p d h t, arc_kind p d h t -> permitted p h t.
Proof.
  intros p d h t K. unfold permitted. inv K; auto 10.
  right. left. split; congruence.
Qed.

Lemma arc_kind_head : forall p d h t, follow_ok -> 0 <= p < n - 1 -> head d p = -1 -> arc_kind p d h t ->
  p < h < n \/ (h < 0 /\ fixed p = None /\ follows p <> None).
Proof.
  intros p d h t HF Hp Hd K. inv K; try lia.
  - apply find_up_some in H. lia.
  - right. rewrite Hd. split; [eauto|]. split; congruence.
Qed.

Lemma step_level : forall p d d1, follow_ok -> 0 <= p < n - 1 -> level_inv (p + 1) d -> step p d d1 ->
  level_inv p d1.
Proof.
  intros p d d1 HF Hp [L1 L2 L3 L4 L5 L6] HS.
  destruct (step_arc p d d1 HS) as [h [t [K [EH [ET EM]]]]].
  assert (H0 : head d p = -1) by (apply L2; lia).
  pose proof (arc_kind_head p d h t HF Hp H0 K) as KH.
  pose proof (arc_kind_permitted p d h t K) as KP.
  assert (M : forall j i, p < j < n - 1 -> j < i < head d j -> mask d1 i = 0).
  { intros j i Hj Hi. rewrite EM, enter_mask.
    destruct ((p <? n - 2) && within (p + 2) i (head d (p + 1))) eqn:E; auto.
    destruct (Z.eq_dec j (p + 1)) as [->|]; [|apply (L4 j); lia].
    apply andb_false_iff in E. destruct E as [E|E]; [lia|].
    destruct (within_spec (p + 2) i (head d (p + 1))); [easy | lia]. }
  split.
  - rewrite EH, aset_ne by lia. auto.
  - intros i Hi. rewrite EH, aset_ne by lia. apply L2. lia.
  - intros i Hi. rewrite EH. destruct (Z.eq_dec i p) as [->|]; [now rewrite aset_eq|].
    rewrite aset_ne by lia. apply L3. lia.
  - intros j i Hj. rewrite EH, aset_ne by lia. intros Hi. now apply (M j).
  - intros a b Ha Hb Fa Wa. rewrite EH. rewrite (aset_ne (head d) p b) by lia.
    destruct (Z.eq_dec a p) as [->|]; [|rewrite aset_ne by lia; apply L5; auto; lia].
    rewrite aset_eq. intros Hlt. destruct (Z.le_gt_cases (head d b) h) as [|Hgt]; auto. exfalso.
    inv K; try congruence.
    + match goal with H : mask (enter sp p d) h <> 0 |- _ => apply H end.
      rewrite <- EM. apply (M b); lia.
    + destruct (L3 b) as [|[]]; lia.
  - intros i Hi. rewrite EH, ET. destruct (Z.eq_dec i p) as [->|]; [now rewrite !aset_eq|].
    rewrite !aset_ne by lia. apply L6. lia.
Qed.

(** [resolve_heads] gives every bunsetsu a governor to its right. *)
Lemma resolve_heads_ok : forall k lo d d', 0 <= lo -> lo + Z.of_nat k = n - 1 ->
  (forall j, 0 <= j < lo -> j < head d j < n) ->
  (forall j, lo <= j < n - 1 -> j < head d j < n \/ head d j < 0) ->
  resolve_heads (zseq lo k) d = Ret (Some d') ->
  (forall j, 0 <= j < n - 1 -> j < head d' j < n) /\ type d' = type d /\
  (forall j, 0 <= head d j \/ n - 1 <= j -> head d' j = head d j).
Proof.
  induction k as [|k IH]; intros lo d d' Hlo Hk H1 H2 E; cbn [zseq resolve_heads] in E.
  - inv E. split; [|auto]. intros j Hj. apply H1. lia.
  - destruct (Z.ltb_spec (head d lo) 0) as [Hneg|Hpos].
    + destruct (Z.ltb_spec (lo + head d lo) 0); [discriminate|].
      set (h := head d (lo + head d lo)) in *. destruct (Z.leb_spec h lo) as [|Hh]; [discriminate|].
      assert (Hn : h < n) by (apply (H1 (lo + head d lo)); lia).
      match type of E with resolve_heads _ ?d1 = _ =>
        destruct (IH (lo + 1) d1 d') as [A [B C]]; auto; try lia
      end; cbn [head upd_check set_check set_head].
      * intros j Hj. destruct (Z.eq_dec j lo) as [->|]; [rewrite aset_eq; lia|].
        rewrite aset_ne by lia. apply H1. lia.
      * intros j Hj. rewrite aset_ne by lia. apply H2. lia.
      * split; [exact A|]. split; [exact B|]. intros j Hj. assert (j <> lo) by (intros ->; lia).
        rewrite C; cbn [head upd_check set_check set_head]; rewrite aset_ne by lia; auto.
    + apply (IH (lo + 1)); auto; try lia.
      * intros j Hj. destruct (Z.eq_dec j lo) as [->|]; [|apply H1; lia]. destruct (H2 lo); lia.
      * intros j Hj. apply H2. lia.
Qed.

(** What holds of every structure that is evaluated. *)
Record structure_ok (d : DPND) : Prop := {
  so_last : head d (n - 1) = -1;
  so_head : forall i, 0 <= i < n - 1 -> i < head d i < n;
  so_cross : forall a b, 0 <= a -> a < b < n - 1 -> fixed a = None -> follows a = None ->
    (fixed b <> None \/ follows b = None) -> b < head d a -> head d b <= head d a;
  so_kind : forall i, 0 <= i < n - 1 -> permitted i (head d i) (type d i)
}.

Lemma level_structure : forall d d', 0 < n -> level_inv 0 d ->
  resolve_heads (zrange 0 (n - 1)) (set_pos (-1) d) = Ret (Some d') -> structure_ok d'.
Proof.
  intros d d' Hn [L1 L2 L3 L4 L5 L6] E. unfold zrange in E.
  destruct (resolve_heads_ok (Z.to_nat (n - 1 - 0)) 0 (set_pos (-1) d) d') as [A [B C]];
    auto; try lia.
  { intros j Hj. cbn [head set_pos]. destruct (L3 j ltac:(lia)); tauto. }
  cbn [head type set_pos] in B, C. split.
  - rewrite C by lia. exact L1.
  - exact A.
  - intros a b Ha Hb Fa Wa Fb. rewrite !C; [apply L5; auto| |].
    + left. destruct (L3 b ltac:(lia)) as [|[? [? ?]]]; [lia|]. destruct Fb; congruence.
    + left. destruct (L3 a ltac:(lia)) as [|[? [? ?]]]; [lia | congruence].
  - intros i Hi. rewrite B. destruct (L3 i ltac:(lia)) as [Hr|[Hr Hf]].
    + rewrite C by lia. apply L6. lia.
    + right. now left.
Qed.

Lemma search_structure : forall k d d', follow_ok -> 0 < n -> Z.of_nat k <= n - 1 ->
  level_inv (Z.of_nat k) d -> search k d d' -> structure_ok d'.
Proof.
  intros k d d' HF Hn Hk HL HS. induction HS as [d d' E|k d d1 d' Hstep HS IH].
  - now apply (level_structure d).
  - apply IH; [lia|]. apply (step_level (Z.of_nat k) d); auto; [lia|].
    now replace (Z.of_nat k + 1) with (Z.of_nat (Datatypes.S k)) by lia.
Qed.

Lemma init_dpnd_head : forall g i, 0 <= i < n -> head (init_dpnd sp g) i = -1.
Proof.
  intros g i Hi. unfold init_dpnd. cbn [head set_pos].
  refine (for_up_inv (fun k d => forall x, 0 <= x < k -> head d x = -1) 0 n _ g _ _ _ i Hi); [lia | lia |].
  intros k d Hk IH x Hx. cbn [head set_d_f set_check set_mask set_dflt set_arc set_type set_head].
  destruct (Z.eq_dec x k) as [->|]; [apply aset_eq | rewrite aset_ne by lia; apply IH; lia].
Qed.

Lemma init_level : forall g, 0 < n -> level_inv (n - 1) (init_dpnd sp g).
Proof.
  intros g Hn. split; intros; try lia; apply init_dpnd_head; lia.
Qed.
(** ** The search finds a structure *)
Section Total.
Hypothesis match_total : forall fr f p1 p2, exists b, feature_pattern_matches sp fr f p1 p2 = Ret b.
Hypothesis rules_ok : forall p, 0 <= p < n - 1 ->
  exists r, rule_of rules sp p = Ret r /\ (preference r = -1 \/ 1 <= preference r).
Hypothesis last_open : forall p, 0 <= p < n - 1 -> Mask_matrix p (n - 1) <> 0.
Hypothesis no_follow : forall p, 0 <= p < n - 1 -> follows p = None.

Lemma candidates_total : forall d p is_ dp acc, 0 <= p < n - 1 ->
  exists ps, candidates rules sp Mask_matrix Quote_matrix Dpnd_matrix true false d p is_ dp acc = Ret ps.
Proof.
  intros d p is_. induction is_ as [|i is_ IH]; intros dp acc Hp; cbn [candidates]; [eauto|].
  destruct (_ && negb (mask d i =? 0)); auto.
  destruct (if (false || dp) && _ then _ else _) as [dp' [|a acc']]; auto.
  unfold at_barrier. destruct (rules_ok p Hp) as [r [-> _]].
  destruct (barrier r) as [|f fr]; auto.
  destruct (match_total (f :: fr) (b_f (bnst_data sp i)) (PB p) (PB i)) as [[|] ->]; eauto.
Qed.

Lemma possibility_total : forall ps i, 0 <= i < Z.of_nat (List.length ps) ->
  exists h, possibility ps i = Ret h.
Proof.
  intros ps i Hi. unfold possibility. destruct (nth_error ps (Z.to_nat i)) as [h|] eqn:E.
  - destruct (Z.ltb_spec i 0); [lia | eauto].
  - apply nth_error_None in E. lia.
Qed.

Lemma resolve_heads_same : forall is_ d, (forall i, In i is_ -> 0 <= head d i) ->
  resolve_heads is_ d = Ret (Some d).
Proof.
  induction is_ as [|i is_ IH]; intros d H; cbn [resolve_heads]; auto.
  destruct (Z.ltb_spec (head d i) 0) as [Hn|Hp]; [specialize (H i (in_eq _ _)); lia|].
  apply IH. auto using in_cons.
Qed.

Lemma no_follow_ok : follow_ok.
Proof. intros p cp Hp _ E. rewrite no_follow in E by auto. discriminate. Qed.

Lemma decide_dpnd_total_level : forall {S} (evaluate : DPND -> S -> res S),
  (forall d s, exists s', evaluate d s = Ret s') ->
  forall k d, Z.of_nat k <= n - 1 -> level_inv (Z.of_nat k) d ->
  (forall s, exists s', decide_dpnd rules sp Mask_matrix Quote_matrix Dpnd_matrix evaluate k d s = Ret s') /\
  exists d', search k d d'.
Proof.
  intros S evaluate HE. induction k as [|k IH]; intros d Hk HL.
  - assert (E : resolve_heads (zrange 0 (n - 1)) (set_pos (-1) d) = Ret (Some (set_pos (-1) d))).
    { apply resolve_heads_same. intros i Hi. apply in_zrange in Hi. cbn [head set_pos].
      destruct (li_head _ _ HL i ltac:(lia)) as [|[_ [_ []]]]; [lia|]. apply no_follow. lia. }
    split; [intros s; cbn [decide_dpnd]; rewrite E; auto|]. eexists. constructor. exact E.
  - set (p := Z.of_nat k) in *. assert (Hp : 0 <= p < n - 1) by lia.
    assert (N : forall d1, step p d d1 ->
      (forall s, exists s', decide_dpnd rules sp Mask_matrix Quote_matrix Dpnd_matrix evaluate k d1 s = Ret s') /\
      exists d', search k d1 d').
    { intros d1 HS. apply IH; [lia|]. apply (step_level p d); auto using no_follow_ok.
      now replace (p + 1) with (Z.of_nat (Datatypes.S k)) by lia. }
    assert (G : forall d1, step p d d1 -> exists d', search (Datatypes.S k) d d').
    { intros d1 HS. destruct (N d1 HS) as [_ [d' Hd]]. exists d'. now apply search_step with d1. }
    cbn [decide_dpnd]. fold p. destruct (fixed p) as [i|] eqn:EF.
    { pose proof (step_fixed p d i EF) as HS. split; [apply (N _ HS) | eapply G, HS]. }
    pose proof (no_follow p Hp) as EW. rewrite EW.
    destruct (candidates_total (enter sp p d) p (zrange (p + 1) n) true [] Hp) as [ps EC].
    rewrite EC. destruct ps as [|c ps].
    { pose proof (step_last p d EF EW EC (last_open p Hp)) as HS.
      destruct (Z.eqb_spec (Mask_matrix p (n - 1)) 0); [now destruct (last_open p Hp)|].
      split; [apply (N _ HS) | eapply G, HS]. }
    destruct (rules_ok p Hp) as [r [ER HR]]. rewrite ER. destruct (decides r) eqn:ED.
    + destruct (possibility_total (c :: ps)
        (if default_of r (c :: ps) <=? Z.of_nat (List.length (c :: ps)) then default_of r (c :: ps) - 1
         else Z.of_nat (List.length (c :: ps)) - 1)) as [h EP].
      { assert (1 <= Z.of_nat (List.length (c :: ps))) by (cbn [List.length]; lia).
        generalize dependent (Z.of_nat (List.length (c :: ps))). intros z Hz.
        destruct (Z.eqb_spec (preference r) (-1));
          [destruct (Z.leb_spec z z) | destruct (Z.leb_spec (preference r) z)]; lia. }
      rewrite EP. pose proof (step_unique p d r (c :: ps) h EF EW EC ltac:(discriminate) ER ED EP) as HS.
      split; [apply (N _ HS) | eapply G, HS].
    + pose proof (fun i h => step_each p d r (c :: ps) i h EF EW EC ltac:(discriminate) ER ED) as HS.
      split.
      * intros s. match goal with |- exists s', fold_res ?b ?l s = Ret s' =>
          destruct (fold_res_total (fun _ : S => True) b l s) as [s' [E _]]; [| exact I | eauto]
        end.
        intros [i h] s1 Hin _. destruct (proj1 (N _ (HS i h Hin)) s1) as [s2 E]. exists s2. auto.
      * eapply G, (HS 0 c). cbn [List.length]. rewrite zrange_cons by lia. now left.
Qed.
End Total.
End Steps.

(** The structures that the search reaches. *)
Lemma found_structures : forall (FM : FeatureMatch) rules sp Mask_matrix Quote_matrix Dpnd_matrix g d',
  0 < Bnst_num sp -> follow_ok sp Mask_matrix ->
  search rules sp Mask_matrix Quote_matrix Dpnd_matrix (Z.to_nat (Bnst_num sp - 1)) (init_dpnd sp g) d' ->
  structure_ok sp Mask_matrix Quote_matrix Dpnd_matrix d'.
Proof.
  intros FM rules sp Mm Qm Dm g d' Hn HF HS.
  apply (search_structure rules sp Mm Qm Dm (Z.to_nat (Bnst_num sp - 1)) (init_dpnd sp g) d'); auto; [lia|].
  replace (Z.of_nat (Z.to_nat (Bnst_num sp - 1))) with (Bnst_num sp - 1) by lia.
  now apply init_level.
Qed.

(** C6: every dependency structure that decide_dpnd evaluates is a tree whose arcs lead to
    the right: each bunsetsu but the last has a governor after it, the last one has none;
    every arc is one that the coordination analysis fixed, one that the three matrices
    allow, or the fallback to the last bunsetsu; and an arc that was chosen freely is not
    crossed by an arc that starts inside it. *)
Theorem searched_structures_ok : forall (FM : FeatureMatch) rules sp Mask_matrix Quote_matrix Dpnd_matrix g d',
  0 < Bnst_num sp -> follow_ok sp Mask_matrix ->
  search rules sp Mask_matrix Quote_matrix Dpnd_matrix (Z.to_nat (Bnst_num sp - 1)) (init_dpnd sp g) d' ->
  structure_ok sp Mask_matrix Quote_matrix Dpnd_matrix d'.
Proof. exact (@found_structures). Qed.

Lemma evaluate_all : forall sp ds t t', fold_res (dpnd_evaluation sp) ds t = Ret t' ->
  tm_score t <= tm_score t' /\
  (forall d, In d ds -> exists sc, dpnd_score sp d = Ret sc /\ sc <= tm_score t') /\
  ((Possibility t' = Possibility t /\ tm_score t' = tm_score t /\ tm_dpnd t' = tm_dpnd t) \/
   (In (tm_dpnd t') ds /\ dpnd_score sp (tm_dpnd t') = Ret (tm_score t') /\ tm_score t < tm_score t' /\
    Possibility t < Possibility t')).
Proof.
  intros sp. induction ds as [|d ds IH]; intros t t' E; cbn [fold_res] in E.
  - inv E. split; [lia|]. split; [easy | auto].
  - unfold dpnd_evaluation at 1 in E. destruct (dpnd_score sp d) as [sc|] eqn:ES; [|discriminate].
    destruct (IH _ _ E) as [I1 [I2 I3]]. destruct (Z.ltb_spec (tm_score t) sc) as [Hlt|Hge];
      cbn [tm_score tm_dpnd Possibility] in *.
    + split; [lia|]. split; [intros x [<-|Hx]; eauto|]. right.
      destruct I3 as [[I3 [I4 I5]]|[I3 [I4 [I5 I6]]]].
      * rewrite I3, I4, I5. repeat split; auto using in_eq; lia.
      * repeat split; auto using in_cons; lia.
    + split; [lia|]. split; [|cbn in *; intuition].
      intros x [<-|Hx]; [exists sc; split; [auto | lia] | eauto].
Qed.

(** The result of the search is a best one. *)
Lemma best_structure : forall (FM : FeatureMatch) rules sp Mask_matrix Quote_matrix Dpnd_matrix g t t',
  detect_dpnd_struct rules sp Mask_matrix Quote_matrix Dpnd_matrix g t = Ret t' ->
  let found := search rules sp Mask_matrix Quote_matrix Dpnd_matrix (Z.to_nat (Bnst_num sp - 1))
                 (init_dpnd sp g) in
  (forall d', found d' -> exists sc, dpnd_score sp d' = Ret sc /\ sc <= tm_score t') /\
  ((Possibility t' = 0 /\ tm_score t' = -10000 /\ tm_dpnd t' = tm_dpnd t) \/
   (found (tm_dpnd t') /\ dpnd_score sp (tm_dpnd t') = Ret (tm_score t') /\ -10000 < tm_score t' /\
    0 < Possibility t')).
Proof.
  intros FM rules sp Mm Qm Dm g t t' E found. unfold detect_dpnd_struct in E.
  destruct (Bnst_num sp <=? 0); [discriminate|].
  destruct (decide_dpnd_enumerates_all rules sp Mm Qm Dm (dpnd_evaluation sp) _ _ _ _ E) as [ds [A B]].
  destruct (evaluate_all sp ds _ _ B) as [_ [I2 I3]]. cbn [tm_score tm_dpnd Possibility] in I3.
  split; [intros d' Hd; apply I2; now apply A|].
  destruct I3 as [I3|[I3 I4]]; [now left | right]. split; [now apply A | exact I4].
Qed.

(** C8: detect_dpnd_case_struct keeps the structure with the highest score: no structure
    of the search has a higher one, and when Possibility is positive the kept structure
    is one of the search, with its own score, above the initial -10000. *)
Theorem detect_dpnd_struct_best : forall (FM : FeatureMatch) rules sp Mask_matrix Quote_matrix Dpnd_matrix g t t',
  detect_dpnd_struct rules sp Mask_matrix Quote_matrix Dpnd_matrix g t = Ret t' ->
  let found := search rules sp Mask_matrix Quote_matrix Dpnd_matrix (Z.to_nat (Bnst_num sp - 1))
                 (init_dpnd sp g) in
  (forall d', found d' -> exists sc, dpnd_score sp d' = Ret sc /\ sc <= tm_score t') /\
  ((Possibility t' = 0 /\ tm_score t' = -10000 /\ tm_dpnd t' = tm_dpnd t) \/
   (found (tm_dpnd t') /\ dpnd_score sp (tm_dpnd t') = Ret (tm_score t') /\ -10000 < tm_score t' /\
    0 < Possibility t')).
Proof. exact (@best_structure). Qed.

(** The search terminates with a structure: when the tests of patterns return, every
    rule prefers a positive position or the last one, no bunsetsu follows another, and the
    coordinations do not forbid the last bunsetsu, decide_dpnd returns for every evaluation
    that returns, and there is a structure for it to evaluate. *)
Theorem decide_dpnd_total : forall (FM : FeatureMatch) rules sp Mask_matrix Quote_matrix Dpnd_matrix
    {S : Type} (evaluate : DPND -> S -> res S) g s,
  0 < Bnst_num sp ->
  (forall fr f p1 p2, exists b, feature_pattern_matches sp fr f p1 p2 = Ret b) ->
  (forall p, 0 <= p < Bnst_num sp - 1 ->
     exists r, rule_of rules sp p = Ret r /\ (preference r = -1 \/ 1 <= preference r)) ->
  (forall p, 0 <= p < Bnst_num sp - 1 -> Mask_matrix p (Bnst_num sp - 1) <> 0) ->
  (forall p, 0 <= p < Bnst_num sp - 1 -> check_feature (b_f (bnst_data sp p)) "係:無格従属" = None) ->
  (forall d s, exists s', evaluate d s = Ret s') ->
  let n := Z.to_nat (Bnst_num sp - 1) in
  (exists s', decide_dpnd rules sp Mask_matrix Quote_matrix Dpnd_matrix evaluate n (init_dpnd sp g) s = Ret s') /\
  (exists d', search rules sp Mask_matrix Quote_matrix Dpnd_matrix n (init_dpnd sp g) d').
Proof.
  intros FM rules sp Mm Qm Dm S evaluate g s Hn H1 H2 H3 H4 HE n.
  destruct (decide_dpnd_total_level rules sp Mm Qm Dm H1 H2 H3 H4 evaluate HE n (init_dpnd sp g)) as [A B].
  - lia.
  - replace (Z.of_nat n) with (Bnst_num sp - 1) by lia. now apply init_level.
  - split; [apply A | exact B].
Qed.

(** ** Rules and matrices *)

(** The index, from [j] on, of the first rule that matches the features [f]. *)
Fixpoint first_rule (matches : FEATURE_PATTERN -> FEATURE -> bool) (rs : list DpndRule) (f : FEATURE) (j : Z)
  : option Z :=
  match rs with
  | [] => None
  | r :: rs' => if matches (dependant r) f then Some j else first_rule matches rs' f (j + 1)
  end.

Lemma first_rule_spec : forall matches f rs j0,
  match first_rule matches rs f j0 with
  | Some k => exists j r, k = j0 + Z.of_nat j /\ nth_error rs j = Some r /\ matches (dependant r) f = true /\
      forall i r', (i < j)%nat -> nth_error rs i = Some r' -> matches (dependant r') f = false
  | None => forall r, In r rs -> matches (dependant r) f = false
  end.
Proof.
  intros matches f. induction rs as [|r rs IH]; intros j0; cbn [first_rule]; [easy|].
  destruct (matches (dependant r) f) eqn:E.
  - exists O, r. repeat split; auto; try lia.
  - specialize (IH (j0 + 1)). destruct (first_rule matches rs f (j0 + 1)) as [k|].
    + destruct IH as [j [r1 [-> [H1 [H2 H3]]]]]. exists (S j), r1. repeat split; auto; try lia.
      intros [|i] r' Hi Hr; [cbn in Hr; congruence | apply (H3 i); auto; lia].
    + intros r1 [<-|Hr]; auto.
Qed.

Definition assigned_rule (matches : FEATURE_PATTERN -> FEATURE -> bool) (rules : list DpndRule)
    (b : BNST_DATA) : option Z :=
  match first_rule matches rules (b_f b) 0, b_dpnd_rule b with
  | Some j, _ => Some j
  | None, Some k => Some k
  | None, None => Some 0
  end.

Lemma assign_rules : forall (FM : FeatureMatch) rules matches,
  (forall s fr f p1 p2, feature_pattern_matches s fr f p1 p2 = Ret (matches fr f)) ->
  forall k lo sp, exists sp', fold_res (assign_rule_step rules) (zseq lo k) sp = Ret sp' /\
    (forall i, b_f (bnst_data sp' i) = b_f (bnst_data sp i)) /\
    (forall i, b_dpnd_rule (bnst_data sp' i) =
       if within lo i (lo + Z.of_nat k) then assigned_rule matches rules (bnst_data sp i)
       else b_dpnd_rule (bnst_data sp i)).
Proof.
  intros FM rules matches HM. induction k as [|k IH]; intros lo sp; cbn [zseq fold_res].
  - exists sp. split; [reflexivity|]. split; [reflexivity|]. intros i.
    destruct (within_spec lo i (lo + Z.of_nat 0)); [lia | auto].
  - assert (F : forall i rs j, find_dpnd_rule sp i rs j = Ret (first_rule matches rs (b_f (bnst_data sp i)) j)).
    { intros i. induction rs as [|r rs IHr]; intros j; cbn; auto. rewrite HM.
      destruct (matches (dependant r) _); auto. }
    assert (H1 : exists sp1, assign_rule_step rules lo sp = Ret sp1 /\
      (forall i, b_f (bnst_data sp1 i) = b_f (bnst_data sp i)) /\
      (forall i, b_dpnd_rule (bnst_data sp1 i) = if i =? lo then assigned_rule matches rules (bnst_data sp i)
                                                 else b_dpnd_rule (bnst_data sp i))).
    { unfold assign_rule_step. rewrite F. eexists. split; [reflexivity|]. unfold assigned_rule.
      split; intros i; destruct (Z.eqb_spec i lo) as [->|Hi];
        destruct (first_rule matches rules (b_f (bnst_data sp lo)) 0), (b_dpnd_rule (bnst_data sp lo)) eqn:EO;
        rewrite ?upd_bnst_at, ?Z.eqb_refl; auto; destruct (Z.eqb_spec i lo); congruence || reflexivity. }
    destruct H1 as [sp1 [-> [H1 H2]]]. destruct (IH (lo + 1) sp1) as [sp' [E [I1 I2]]]. exists sp'.
    split; [exact E|]. split; [intros; now rewrite I1|]. intros i. rewrite I2, H2.
    unfold assigned_rule at 1. rewrite H1, H2. fold (assigned_rule matches rules (bnst_data sp i)).
    destruct (within_spec (lo + 1) i (lo + 1 + Z.of_nat k)), (within_spec lo i (lo + Z.of_nat (S k))),
      (Z.eqb_spec i lo); try lia; auto.
Qed.

(** assign_dpnd_rule gives a bunsetsu the first rule whose pattern its features match
    (for tests that look at the features only); without one it gets rule 0 only if it had
    no rule: the pointer is not reset between sentences, so otherwise the rule that an
    earlier sentence left in this place stays. *)
Theorem assign_dpnd_rule_spec : forall (FM : FeatureMatch) rules matches,
  (forall s fr f p1 p2, feature_pattern_matches s fr f p1 p2 = Ret (matches fr f)) ->
  forall sp, exists sp', assign_dpnd_rule rules sp = Ret sp' /\
  (forall i, b_f (bnst_data sp' i) = b_f (bnst_data sp i)) /\
  forall i, 0 <= i < Bnst_num sp ->
    let f := b_f (bnst_data sp i) in
    (exists j r, nth_error rules j = Some r /\ matches (dependant r) f = true /\
       (forall k r', (k < j)%nat -> nth_error rules k = Some r' -> matches (dependant r') f = false) /\
       b_dpnd_rule (bnst_data sp' i) = Some (Z.of_nat j)) \/
    ((forall r, In r rules -> matches (dependant r) f = false) /\
     b_dpnd_rule (bnst_data sp' i) =
       match b_dpnd_rule (bnst_data sp i) with Some k => Some k | None => Some 0 end).
Proof.
  intros FM rules matches HM sp.
  destruct (assign_rules FM rules matches HM (Z.to_nat (Bnst_num sp - 0)) 0 sp) as [sp' [E [I1 I2]]].
  exists sp'. split; [exact E|]. split; [exact I1|]. intros i Hi f. rewrite I2.
  destruct (within_spec 0 i (0 + Z.of_nat (Z.to_nat (Bnst_num sp - 0)))); [|lia].
  unfold assigned_rule. fold f. pose proof (first_rule_spec matches f rules 0) as H.
  destruct (first_rule matches rules f 0) as [k|]; [left | right].
  - destruct H as [j [r [-> [H1 [H2 H3]]]]]. exists j, r. repeat split; auto.
  - split; [exact H|]. now destruct (b_dpnd_rule (bnst_data sp i)).
Qed.

Lemma calc_row : forall (FM : FeatureMatch) rules sp i k lo m m',
  fold_res (calc_dpnd_cell rules sp i) (zseq lo k) m = Ret m' ->
  (forall j, lo <= j < lo + Z.of_nat k -> exists r, rule_of rules sp i = Ret r /\
     governor_type sp i j (governors r) = Ret (m' i j)) /\
  (forall x y, x <> i \/ ~ lo <= y < lo + Z.of_nat k -> m' x y = m x y).
Proof.
  intros FM rules sp i. induction k as [|k IH]; intros lo m m' E; cbn [zseq fold_res] in E.
  - inv E. split; [intros; lia | auto].
  - unfold calc_dpnd_cell at 1 in E. destruct (rule_of rules sp i) as [r|] eqn:ER; [|discriminate].
    destruct (governor_type sp i lo (governors r)) as [t|] eqn:EG; [|discriminate].
    destruct (IH _ _ _ E) as [I1 I2]. split.
    + intros j Hj. destruct (Z.eq_dec j lo) as [->|]; [|apply I1; lia].
      exists r. split; auto. rewrite I2, mset_eq by lia. exact EG.
    + intros x y H. rewrite I2 by lia. apply mset_ne. lia.
Qed.

(** Calc_dpnd_matrix fills the upper triangle: the cell of i and j holds the type of
    the first governor pattern of the rule of i that j matches, or 0; the other cells stay. *)
Theorem calc_dpnd_matrix_spec : forall (FM : FeatureMatch) rules sp m m',
  calc_dpnd_matrix rules sp m = Ret m' ->
  (forall i j, 0 <= i < j -> j < Bnst_num sp -> exists r, rule_of rules sp i = Ret r /\
     governor_type sp i j (governors r) = Ret (m' i j)) /\
  (forall i j, ~ (0 <= i < j /\ j < Bnst_num sp) -> m' i j = m i j).
Proof.
  intros FM rules sp m m' E. unfold calc_dpnd_matrix, for_res in E.
  assert (G : forall k lo m m', 0 <= lo -> lo + Z.of_nat k <= Bnst_num sp ->
    fold_res (fun i m => fold_res (calc_dpnd_cell rules sp i) (zrange (i + 1) (Bnst_num sp)) m) (zseq lo k) m = Ret m' ->
    (forall i j, lo <= i < lo + Z.of_nat k -> i < j < Bnst_num sp -> exists r, rule_of rules sp i = Ret r /\
       governor_type sp i j (governors r) = Ret (m' i j)) /\
    (forall i j, ~ (lo <= i < lo + Z.of_nat k /\ i < j < Bnst_num sp) -> m' i j = m i j)).
  { clear. induction k as [|k IH]; intros lo m m' Hlo Hk E; cbn [zseq fold_res] in E.
    - inv E. split; [intros; lia | auto].
    - destruct (fold_res _ (zrange (lo + 1) (Bnst_num sp)) m) as [m1|] eqn:E1; [|discriminate].
      destruct (IH (lo + 1) m1 m' ltac:(lia) ltac:(lia) E) as [I1 I2].
      destruct (calc_row FM rules sp lo _ _ _ _ E1) as [R1 R2]. split.
      + intros i j Hi Hj. destruct (Z.eq_dec i lo) as [->|]; [|apply I1; lia].
        rewrite I2 by lia. apply R1. lia.
      + intros i j H. rewrite I2 by lia. apply R2. lia. }
  destruct (Z.le_gt_cases 0 (Bnst_num sp)) as [H0|H0].
  - destruct (G (Z.to_nat (Bnst_num sp - 0)) 0 m m' (Z.le_refl 0) ltac:(lia) E) as [G1 G2]. split.
    + intros i j Hi Hj. apply G1; lia.
    + intros i j H. apply G2. lia.
  - rewrite (zrange_nil 0) in E by lia. inv E. split; [intros; lia | auto].
Qed.

(** ** Relaxation *)

(** What the search of a row finds: an allowed governor, or the last position
    that the brackets allow up to the first sentence end. *)
Lemma relax_search_spec : forall sp Q m i k lo last ok last',
  relax_search sp Q m i (zseq lo k) last = (ok, last') ->
  let closed j := Q i j <> 0 /\ bnst_has sp j "係:文末" = true in
  if ok then exists j, lo <= j < lo + Z.of_nat k /\ Q i j <> 0 /\ 0 < m i j /\
               forall x, lo <= x < j -> ~ closed x
  else (last' = last \/ (lo <= last' < lo + Z.of_nat k /\ Q i last' <> 0)) /\
       (forall x, lo <= x < lo + Z.of_nat k -> Q i x <> 0 ->
          (x <= last' -> m i x <= 0) /\ (last' < x -> lo <= last' /\ closed last')).
Proof.
  intros sp Q m i. induction k as [|k IH]; intros lo last ok last' E closed; cbn [zseq relax_search] in E.
  - inv E. split; [now left | intros; lia].
  - destruct (Z.eqb_spec (Q i lo) 0) as [HQ|HQ]; cbn [negb] in E.
    + specialize (IH _ _ _ _ E). fold closed in IH. destruct ok.
      * destruct IH as [j [H1 [H2 [H3 H4]]]]. exists j. repeat split; auto; try lia.
        intros x Hx [C1 C2]. destruct (Z.eq_dec x lo) as [->|]; [auto|]. apply (H4 x); [lia | now split].
      * destruct IH as [H1 H2]. split; [destruct H1; [now left | right; lia]|].
        intros x Hx Hq. destruct (Z.eq_dec x lo) as [->|]; [contradiction|].
        destruct (H2 x) as [A B]; auto; [lia|]. split; auto. intros Hl. destruct (B Hl). split; auto. lia.
    + destruct (Z.ltb_spec 0 (m i lo)) as [Hm|Hm].
      * inv E. exists lo. repeat split; auto; try lia.
      * destruct (bnst_has sp lo "係:文末") eqn:EB.
        -- inv E. split; [right; lia|]. intros x Hx Hq. split; [intros; now replace x with last' by lia|].
           intros _. split; [lia | now split].
        -- specialize (IH _ _ _ _ E). fold closed in IH. destruct ok.
           ++ destruct IH as [j [H1 [H2 [H3 H4]]]]. exists j. repeat split; auto; try lia.
              intros x Hx [C1 C2]. destruct (Z.eq_dec x lo) as [->|]; [congruence|]. apply (H4 x); [lia | now split].
           ++ destruct IH as [H1 H2]. split; [right; destruct H1 as [->|]; [split; [lia | auto] | lia]|].
              intros x Hx Hq. destruct (Z.eq_dec x lo) as [->|].
              ** split; [auto|]. intros Hl. destruct H1 as [->|]; lia.
              ** destruct (H2 x) as [A B]; auto; [lia|]. split; auto.
                 intros Hl. destruct (B Hl). split; auto. lia.
Qed.

Definition row_relaxed (sp : SENTENCE_DATA) (Q m : matrix Z) (i : Z) : bool :=
  let '(ok, last) := relax_search sp Q m i (zrange (i + 1) (Bnst_num sp)) i in
  negb ok && (bnst_has sp last "文末" || bnst_has sp last "係:文末" || bnst_has sp last "括弧終").

Definition row_last (sp : SENTENCE_DATA) (Q m : matrix Z) (i : Z) : Z :=
  snd (relax_search sp Q m i (zrange (i + 1) (Bnst_num sp)) i).

Lemma relax_search_ext : forall sp Q m1 m2 i js last, (forall j, m1 i j = m2 i j) ->
  relax_search sp Q m1 i js last = relax_search sp Q m2 i js last.
Proof.
  intros sp Q m1 m2 i js. induction js as [|j js IH]; intros last H; cbn; auto.
  rewrite H, !IH by auto. reflexivity.
Qed.

Lemma relax_rows : forall sp Q m k, 0 <= k ->
  let '(flag, m') := for_up 0 k (relax_row sp Q) (false, m) in
  flag = existsb (row_relaxed sp Q m) (zrange 0 k) /\
  forall i j, m' i j = if within 0 i k && row_relaxed sp Q m i && (j =? row_last sp Q m i)
                       then chr "R" else m i j.
Proof.
  intros sp Q m k Hk.
  apply (for_up_inv (fun k st => let '(flag, m') := st in
    flag = existsb (row_relaxed sp Q m) (zrange 0 k) /\
    forall i j, m' i j = if within 0 i k && row_relaxed sp Q m i && (j =? row_last sp Q m i)
                         then chr "R" else m i j)); [lia | |].
  - rewrite zrange_nil by lia. split; auto. intros i j. now destruct (within_spec 0 i 0); [lia|].
  - rename k into k0, Hk into Hk0. intros k [flag m1] Hk [IH1 IH2].
    assert (ER : relax_search sp Q m1 k (zrange (k + 1) (Bnst_num sp)) k =
                 relax_search sp Q m k (zrange (k + 1) (Bnst_num sp)) k).
    { apply relax_search_ext. intros j. rewrite IH2. now destruct (within_spec 0 k k); [lia|]. }
    unfold relax_row. rewrite ER. rewrite (zrange_snoc 0 (k + 1)) by lia.
    replace (k + 1 - 1) with k by lia. rewrite existsb_app. cbn [existsb]. rewrite <- IH1, orb_false_r.
    assert (EL : row_last sp Q m k = snd (relax_search sp Q m k (zrange (k + 1) (Bnst_num sp)) k)) by reflexivity.
    assert (EX : row_relaxed sp Q m k = let '(ok, last) := relax_search sp Q m k (zrange (k + 1) (Bnst_num sp)) k in
      negb ok && (bnst_has sp last "文末" || bnst_has sp last "係:文末" || bnst_has sp last "括弧終")) by reflexivity.
    destruct (relax_search sp Q m k (zrange (k + 1) (Bnst_num sp)) k) as [ok last]. cbn [snd] in EL.
    rewrite <- EX. destruct (row_relaxed sp Q m k) eqn:EK.
    + split; [now rewrite orb_true_r|]. intros i j. destruct (Z.eq_dec i k) as [->|Hi].
      * rewrite EK, EL. destruct (within_spec 0 k (k + 1)); [|lia]. cbn [andb].
        unfold mset. rewrite Z.eqb_refl. cbn [andb]. destruct (j =? last); auto.
        rewrite IH2. now destruct (within_spec 0 k k); [lia|].
      * rewrite mset_ne by auto. rewrite IH2.
        now destruct (within_spec 0 i k), (within_spec 0 i (k + 1)); try lia.
    + split; [now rewrite orb_false_r|]. intros i j. rewrite IH2.
      destruct (Z.eq_dec i k) as [->|Hi]; [rewrite EK; now rewrite !andb_false_r|].
      now destruct (within_spec 0 i k), (within_spec 0 i (k + 1)); try lia.
Qed.

(** relax_dpnd_matrix only adds dependencies: at most one R per row.  A row is relaxed
    when the brackets allow it no possible governor up to the first sentence end, and then
    at the last position they allow (itself when there is none), which has to be a sentence
    end or the end of a bracket; the flag tells whether some row was relaxed. *)
Theorem relax_dpnd_matrix_spec : forall sp Q m flag m', 1 <= Bnst_num sp ->
  relax_dpnd_matrix sp Q m = (flag, m') ->
  (flag = true <-> exists i, 0 <= i < Bnst_num sp - 1 /\ row_relaxed sp Q m i = true) /\
  (forall i j, m' i j <> m i j -> m' i j = chr "R" /\ 0 <= i < Bnst_num sp - 1 /\
     row_relaxed sp Q m i = true /\ j = row_last sp Q m i) /\
  (forall i, 0 <= i < Bnst_num sp - 1 -> row_relaxed sp Q m i = true ->
     let last := row_last sp Q m i in
     m' i last = chr "R" /\ (last = i \/ (i < last < Bnst_num sp /\ Q i last <> 0)) /\
     (bnst_has sp last "文末" || bnst_has sp last "係:文末" || bnst_has sp last "括弧終" = true) /\
     (forall j, i < j <= last -> Q i j <> 0 -> m i j <= 0) /\
     (forall j, last < j < Bnst_num sp -> Q i j <> 0 ->
        i < last /\ bnst_has sp last "係:文末" = true)).
Proof.
  intros sp Q m flag m' Hn E. pose proof (relax_rows sp Q m (Bnst_num sp - 1) ltac:(lia)) as H.
  unfold relax_dpnd_matrix in E. rewrite E in H. destruct H as [H1 H2]. split; [|split].
  - rewrite H1, existsb_exists. split; intros [i [Hi Hr]]; exists i; [rewrite in_zrange in Hi | rewrite in_zrange];
      auto.
  - intros i j Hne. rewrite H2 in *. destruct (within_spec 0 i (Bnst_num sp - 1)); cbn [andb] in *; [|congruence].
    destruct (row_relaxed sp Q m i); cbn [andb] in *; [|congruence].
    destruct (Z.eqb_spec j (row_last sp Q m i)); [auto | congruence].
  - intros i Hi Hr last. rewrite H2, Hr. destruct (within_spec 0 i (Bnst_num sp - 1)); [|lia].
    fold last. rewrite Z.eqb_refl. split; [reflexivity|]. unfold row_relaxed in Hr.
    assert (EL : last = snd (relax_search sp Q m i (zrange (i + 1) (Bnst_num sp)) i)) by reflexivity.
    destruct (relax_search sp Q m i (zrange (i + 1) (Bnst_num sp)) i) as [ok l] eqn:ES. cbn [snd] in EL.
    subst l. apply andb_true_iff in Hr. destruct Hr as [Hok Hr]. apply negb_true_iff in Hok. subst ok.
    destruct (relax_search_spec sp Q m i _ _ _ _ _ ES) as [S1 S2].
    assert (R : forall j, i + 1 <= j < i + 1 + Z.of_nat (Z.to_nat (Bnst_num sp - (i + 1))) <-> i < j < Bnst_num sp)
      by (intros; lia).
    split; [destruct S1 as [|[S1 S3]]; [now left | right; rewrite R in S1; auto]|]. split; [exact Hr|]. split.
    + intros j Hj Hq. destruct (S2 j) as [S3 _]; auto; [|apply S3; lia].
      apply R. destruct S1 as [|[S1 _]]; [lia|]. rewrite R in S1. lia.
    + intros j Hj Hq. destruct S1 as [S1|[S1 _]].
      * destruct (S2 j) as [_ S3]; auto; [apply R; lia|]. destruct (S3 ltac:(lia)) as [S4 [_ S5]]. split; [lia | auto].
      * rewrite R in S1. destruct (S2 j) as [_ S3]; auto; [apply R; lia|].
        destruct (S3 ltac:(lia)) as [S4 [_ S5]]. split; [lia | auto].
Qed.

(** ** The score of cases *)

(** Apart from the unmarked, genitive and nominative cases, dpnd_evaluation never
    gives the points of a surface case to its dependant: it looks the case up in Case_name
    three bytes into the feature, which in UTF-8 is the colon of the feature. *)
Theorem eval_case_lookup : forall (x : string) df b g,
  let cp := ("係:" ++ x)%string in
  str_eq cp "係:未格" = false -> str_eq cp "係:ノ格" = false -> str_eq cp "係:ガ格" = false ->
  eval_case cp df b g = g /\ case2num (sdrop 3 cp) = -1 /\ sdrop 4 cp = x.
Proof.
  intros x df b g cp H1 H2 H3.
  assert (E : case2num (sdrop 3 cp) = -1) by reflexivity.
  split; [|split; [exact E | reflexivity]].
  unfold eval_case. rewrite H1, H2, H3, E. reflexivity.
Qed.

(** ** An example sentence *)

(** Patterns that test features only. *)
Definition plain_tests (fr : FEATURE_PATTERN) (f : FEATURE) : bool :=
  match fr with [] => true | _ => existsb (forallb (has_feature f)) fr end.
Definition plain_match : FeatureMatch := {|
  feature_AND_matches := fun _ fp f _ _ => Ret (forallb (has_feature f) fp);
  feature_pattern_matches := fun _ fr f _ _ => Ret (plain_tests fr f)
|}.

Definition example_rules : list DpndRule :=
  [mkDR [["係:未格"]] [([["用言"]], chr "D")] [["係:文末"]] 2 false;
   mkDR [["係:連格"]] [([["体言"]], chr "D")] [] 1 false;
   mkDR [] [([["用言"]], chr "D")] [] 1 false]%string.

(** 太郎は 読む 本を 買った *)
Definition example_parse : SENTENCE_DATA :=
  (sentence_of [["係:未格"; "提題"]; ["用言"; "係:連格"]; ["体言"; "係:ヲ格"]; ["用言"; "係:文末"; "文末"]])%string.

Definition open_matrix : matrix Z := fun _ _ => 1.
Definition empty_dpnd : DPND :=
  mkDPND (fun _ => 0) (fun _ => 0) (fun _ => 0) (fun _ => 0) 0 (fun _ => CHECK_0) (fun _ => []).

Definition example_assigned : SENTENCE_DATA :=
  match @assign_dpnd_rule plain_match example_rules example_parse with
  | Ret sp => sp
  | Err _ => example_parse
  end.

Definition example_matrix : matrix Z :=
  match @calc_dpnd_matrix plain_match example_rules example_assigned (fun _ _ => 0) with
  | Ret m => m
  | Err _ => fun _ _ => 0
  end.

Definition collect (d : DPND) (l : list DPND) : res (list DPND) := Ret (l ++ [d]).

Lemma collect_all : forall ds l, fold_res collect ds l = Ret (l ++ ds).
Proof.
  induction ds as [|d ds IH]; intros l; cbn; [now rewrite app_nil_r|].
  now rewrite IH, <- app_assoc.
Qed.

Abbreviation example_structures :=
  (@decide_dpnd plain_match example_rules example_assigned open_matrix open_matrix example_matrix
    (list DPND) collect 3 (init_dpnd example_assigned empty_dpnd) []).

Definition heads_of (d : DPND) : list Z := map (head d) [0; 1; 2; 3].

Lemma example_heads : match example_structures with
  | Ret ds => map heads_of ds = [[1; 2; 3; -1]; [3; 2; 3; -1]]
  | Err _ => False
  end.
Proof. vm_compute. reflexivity. Qed.

Lemma searched_structures_ok_witness : exists d, heads_of d = [3; 2; 3; -1] /\
  structure_ok example_assigned open_matrix open_matrix example_matrix d.
Proof.
  pose proof example_heads as H. destruct example_structures as [ds0|] eqn:E; [|easy].
  destruct (decide_dpnd_enumerates_all example_rules example_assigned open_matrix open_matrix
    example_matrix collect 3 (init_dpnd example_assigned empty_dpnd) [] ds0 E) as [ds [A B]].
  rewrite collect_all in B. injection B as B. subst ds0.
  destruct ds as [|d1 [|d2 [|]]]; try discriminate. cbn [map] in H.
  assert (H2 : heads_of d2 = [3; 2; 3; -1]) by congruence. clear H.
  exists d2. split; [exact H2|].
  apply (searched_structures_ok plain_match example_rules example_assigned open_matrix open_matrix
    example_matrix empty_dpnd d2).
  - vm_compute. reflexivity.
  - intros p cp Hp _ EW. change (Bnst_num example_assigned) with 4 in Hp.
    assert (p = 0 \/ p = 1 \/ p = 2) as [-> | [-> | ->]] by lia; vm_compute in EW; discriminate.
  - apply A. right. now left.
Defined.

Lemma detect_dpnd_struct_best_witness : exists t,
  @detect_dpnd_struct plain_match example_rules example_assigned open_matrix open_matrix example_matrix
    empty_dpnd (mkTM empty_dpnd 0 0 0 0) = Ret t /\
  heads_of (tm_dpnd t) = [3; 2; 3; -1] /\ dpnd_score example_assigned (tm_dpnd t) = Ret (tm_score t).
Proof.
  assert (H : match @detect_dpnd_struct plain_match example_rules example_assigned open_matrix open_matrix
      example_matrix empty_dpnd (mkTM empty_dpnd 0 0 0 0) with
    | Ret t => heads_of (tm_dpnd t) = [3; 2; 3; -1] /\ Possibility t = 2
    | Err _ => False end) by (vm_compute; auto).
  destruct (detect_dpnd_struct _ _ _ _ _ _ _) as [t|] eqn:E; [|easy]. destruct H as [H1 H2].
  exists t. split; [reflexivity|]. split; [exact H1|].
  destruct (detect_dpnd_struct_best plain_match example_rules example_assigned open_matrix open_matrix
    example_matrix empty_dpnd (mkTM empty_dpnd 0 0 0 0) t E) as [_ [[F _]|[_ [F _]]]]; [|exact F].
  rewrite F in H2. discriminate.
Defined.

Lemma decide_dpnd_total_witness :
  exists d', @search plain_match example_rules example_assigned open_matrix open_matrix example_matrix
    3 (init_dpnd example_assigned empty_dpnd) d'.
Proof.
  apply (decide_dpnd_total plain_match example_rules example_assigned open_matrix open_matrix
    example_matrix collect empty_dpnd []).
  - reflexivity.
  - intros fr f p1 p2. eexists. reflexivity.
  - intros p Hp. change (Bnst_num example_assigned) with 4 in Hp.
    assert (p = 0 \/ p = 1 \/ p = 2) as [-> | [-> | ->]] by lia;
      (eexists; split; [vm_compute; reflexivity | right; discriminate]).
  - intros p Hp. discriminate.
  - intros p Hp. change (Bnst_num example_assigned) with 4 in Hp.
    assert (p = 0 \/ p = 1 \/ p = 2) as [-> | [-> | ->]] by lia; vm_compute; reflexivity.
  - intros d s. eexists. reflexivity.
Defined.

(** The rule of an earlier sentence: bunsetsu 0 of a sentence that no rule matches. *)
Definition stale_rule : SENTENCE_DATA :=
  upd_bnst 0 (set_b_dpnd_rule (Some 1)) ((sentence_of [["係:ト格"]; ["係:ト格"]])%string).

Lemma assign_dpnd_rule_spec_witness : exists sp',
  @assign_dpnd_rule plain_match (firstn 2 example_rules) stale_rule = Ret sp' /\
  (b_dpnd_rule (bnst_data sp' 0) = Some 1 \/ exists r, nth_error (firstn 2 example_rules) 0 = Some r /\
     plain_tests (dependant r) ["係:ト格"%string] = true).
Proof.
  destruct (assign_dpnd_rule_spec plain_match (firstn 2 example_rules) plain_tests
    (fun _ _ _ _ _ => eq_refl) stale_rule) as [sp' [E [_ H]]].
  exists sp'. split; [exact E|]. left.
  destruct (H 0 ltac:(vm_compute; split; [discriminate | reflexivity])) as [[j [r [H1 [H2 _]]]]|[_ H1]].
  - exfalso. destruct j as [|[|j]]; [injection H1 as <-; vm_compute in H2; discriminate | |].
    + injection H1 as <-; vm_compute in H2; discriminate.
    + destruct j; discriminate.
  - rewrite H1. reflexivity.
Defined.

Lemma calc_dpnd_matrix_spec_witness : exists m,
  @calc_dpnd_matrix plain_match example_rules example_assigned (fun _ _ => 0) = Ret m /\
  exists r, @rule_of example_rules example_assigned 1 = Ret r /\
    @governor_type plain_match example_assigned 1 2 (governors r) = Ret (m 1 2).
Proof.
  destruct (@calc_dpnd_matrix plain_match example_rules example_assigned (fun _ _ => 0)) as [m|] eqn:E.
  - exists m. split; [reflexivity|].
    destruct (calc_dpnd_matrix_spec plain_match example_rules example_assigned (fun _ _ => 0) m E) as [H _].
    apply H; vm_compute; try split; easy.
  - vm_compute in E. discriminate.
Defined.

Lemma relax_dpnd_matrix_spec_witness :
  let '(flag, m') := relax_dpnd_matrix example_parse open_matrix (fun _ _ => 0) in
  flag = true /\ m' 0 3 = chr "R".
Proof.
  destruct (relax_dpnd_matrix example_parse open_matrix (fun _ _ => 0)) as [flag m'] eqn:E.
  destruct (relax_dpnd_matrix_spec example_parse open_matrix (fun _ _ => 0) flag m'
    ltac:(vm_compute; discriminate) E) as [H1 [_ H3]]. split.
  - apply H1. exists 0. split; [vm_compute; split; [discriminate | reflexivity] | vm_compute; reflexivity].
  - apply (H3 0); [vm_compute; split; [discriminate | reflexivity] | vm_compute; reflexivity].
Defined.

Definition gs0 : gov_state := mkGS 0 (fun _ => 0) false 0 None false.

Lemma eval_case_lookup_witness :
  eval_case "係:ヲ格" [] BNST_DATA_0 gs0 = gs0 /\ case2num (sdrop 3 "係:ヲ格") = -1 /\
  sdrop 4 "係:ヲ格" = "ヲ格"%string.
Proof. now apply (eval_case_lookup "ヲ格" [] BNST_DATA_0 gs0). Defined.
