(* ===== verification/RuleFile.v ===== *)
(** * The rule files (src/system/read_rule.c)

    The tables of rules, read from the S-expressions of their files.  The
    text of a file ([check_rule_filename], [fopen]) is given by name.  A file
    with as many rules as the table has room for ends the program. *)
From Stdlib Require Import ZArith List Bool String Ascii Lia.
Import ListNotations.
From S2P Require Import Prelude CStr Lisp Feature Sentence SemCode CheckFunction Regexp PredCase ChangeMrph Rules Tables Koou Dpnd.
Open Scope string_scope.
Open Scope Z_scope.

Definition HomoRule_MAX : Z := 128.
Definition KoouRule_MAX : Z := 124.
Definition DpndRule_MAX : Z := 128.
Definition DpndRule_G_MAX : Z := 35.
Definition EtcRule_MAX : Z := 1024.
Definition GeneralRule_MAX : Z := 1024.

Record HomoRule : Type := mkHR {
  hr_pre_pattern : option REGEXPMRPHS;
  hr_pattern : option REGEXPMRPHS;
  hr_f : FEATURE
}.

(** [car] after [n] times [cdr] *)
Fixpoint nth_cdr (n : nat) (c : CELL) : res CELL :=
  match n with O => Ret c | S n' => d <- cdr c ;; nth_cdr n' d end.
Definition nth_car (n : nat) (c : CELL) : res CELL := d <- nth_cdr n c ;; car d.

(** [*(_Atom(cell))] *)
Definition first_char (c : CELL) : res Z := s <- _Atom c ;; Ret (first_byte s).

Section RuleFile.
Context `{G : Grammar} (BUFSIZE : Z) (rule_text : string -> option string).

(** ** One rule *)
Definition mrph_rule_of (body_cell : CELL) : res MrphRule :=
  a <- nth_car 0 body_cell ;; pre <- store_regexpmrphs a ;;
  b <- nth_car 1 body_cell ;; self <- store_regexpmrphs b ;;
  c <- nth_car 2 body_cell ;; post <- store_regexpmrphs c ;;
  d <- nth_cdr 3 body_cell ;; f <- list2feature d [] ;;
  Ret (mkMR pre self post f).

Definition bnst_rule_of (body_cell : CELL) : res BnstRule :=
  a <- nth_car 0 body_cell ;; pre <- store_regexpbnsts a ;;
  b <- nth_car 1 body_cell ;; self <- store_regexpbnsts b ;;
  c <- nth_car 2 body_cell ;; post <- store_regexpbnsts c ;;
  d <- nth_cdr 3 body_cell ;; f <- list2feature d [] ;;
  Ret (mkBR pre self post f).

Definition homo_rule_of (body_cell : CELL) : res HomoRule :=
  a <- nth_car 0 body_cell ;; pre <- store_regexpmrphs a ;;
  b <- nth_car 1 body_cell ;; pattern <- store_regexpmrphs b ;;
  d <- nth_cdr 2 body_cell ;; f <- list2feature d [] ;;
  Ret (mkHR pre pattern f).

Definition koou_rule_of (body_cell : CELL) : res KoouRule :=
  a <- nth_car 0 body_cell ;; start <- store_regexpmrphs a ;;
  b <- nth_car 1 body_cell ;; end_ <- store_regexpmrphs b ;;
  c <- nth_car 2 body_cell ;; uke <- (if Null c then Ret None else store_regexpmrphs c) ;;
  d <- nth_car 3 body_cell ;; t <- (if Null d then Ret (chr "D") else first_char d) ;;
  Ret (mkKR start end_ uke t).

(** [while (!Null(car(loop_cell)))], at most [DpndRule_G_MAX - 1] times *)
Fixpoint read_governors (loop_cell : CELL) (i : Z) : res (list (FEATURE_PATTERN * Z)) :=
  match loop_cell with
  | NIL => Ret []
  | ATOM _ => Err LispError
  | CONS a rest =>
      if Null a then Ret []
      else
        x <- nth_car 0 a ;; p <- list2feature_pattern x ;;
        y <- nth_car 1 a ;; t <- first_char y ;;
        if i + 1 =? DpndRule_G_MAX then Err (ExitErr 1)
        else gs <- read_governors rest (i + 1) ;; Ret ((p, t) :: gs)
  end.

Definition dpnd_rule_of (body_cell : CELL) : res DpndRule :=
  a <- nth_car 0 body_cell ;; dep <- list2feature_pattern a ;;
  b <- nth_car 1 body_cell ;; gov <- read_governors b 0 ;;
  c <- nth_car 2 body_cell ;; bar <- list2feature_pattern c ;;
  d <- nth_car 3 body_cell ;; pref <- _Atom d ;;
  e <- nth_car 4 body_cell ;; u <- (if Null e then Ret false else s <- _Atom e ;; Ret (str_eq s "U")) ;;
  Ret (mkDR dep gov bar (atoi pref) u).

(** ** The files *)

(** The rule of each cell; [++size == max] ends the program. *)
Definition add_rule {R} (rule_of : CELL -> res R) (max : Z) (body_cell : CELL) (rules : list R) : res (list R) :=
  r <- rule_of body_cell ;;
  if zlen rules + 1 =? max then Err (ExitErr 1) else Ret (rules ++ [r])%list.

(** [rules] are the ones that were read before; a second file ends the program. *)
Definition read_rules {R} (rule_of : CELL -> res R) (max : Z) (file_name : string) (rules : list R) : res (list R) :=
  match rules with
  | _ :: _ => Err (ExitErr 1)
  | [] =>
      match rule_text file_name with
      | None => Err (ExitErr 1)
      | Some text => read_file BUFSIZE (add_rule rule_of max) (mkStream text 1) []
      end
  end.

Definition read_mrph_rule (file_name : string) (rules : list MrphRule) (max : Z) : res (list MrphRule) :=
  read_rules mrph_rule_of max file_name rules.
Definition read_bnst_rule (file_name : string) (rules : list BnstRule) (max : Z) : res (list BnstRule) :=
  read_rules bnst_rule_of max file_name rules.
Definition read_homo_rule (file_name : string) (HomoRuleArray : list HomoRule) : res (list HomoRule) :=
  read_rules homo_rule_of HomoRule_MAX file_name HomoRuleArray.
Definition read_koou_rule (file_name : string) (KoouRuleArray : list KoouRule) : res (list KoouRule) :=
  read_rules koou_rule_of KoouRule_MAX file_name KoouRuleArray.
Definition read_dpnd_rule (file_name : string) (DpndRuleArray : list DpndRule) : res (list DpndRule) :=
  read_rules dpnd_rule_of DpndRule_MAX file_name DpndRuleArray.

(** *** Rules of a kind that the configuration chooses *)
Inductive etc_rule : Type := NoEtcRule | IsMrphRule | IsBnstRule | IsMrph2Rule.

(** [usage()] ends the program. *)
Definition init_etc_rule (ExistEtcRule flag : etc_rule) : res etc_rule :=
  match ExistEtcRule with NoEtcRule => Ret flag | _ => Err (ExitErr 1) end.

Definition read_etc_rule (ExistEtcRule : etc_rule) (file_name : string) (EtcRuleArray : rule_array) (max : Z) : res rule_array :=
  match ExistEtcRule, EtcRuleArray with
  | (IsMrphRule | IsMrph2Rule), MrphRules rs => rs <- read_mrph_rule file_name rs max ;; Ret (MrphRules rs)
  | IsBnstRule, BnstRules rs => rs <- read_bnst_rule file_name rs max ;; Ret (BnstRules rs)
  | NoEtcRule, rs => Ret rs
  | _, _ => Err BadPointer
  end.

(** *** General rules *)
Record RuleVector : Type := mkRV {
  rv_file : string;
  rv_type : Z;
  rv_mode : rule_loop;
  rv_breakmode : rule_break;
  rv_direction : rule_direction
}.

(** For another type nothing is read and the table has no rules. *)
Definition read_general_rule (rule : RuleVector) (GeneralRuleArray : list GeneralRuleType) : res (list GeneralRuleType) :=
  let is_ flags := existsb (Z.eqb (rv_type rule)) flags in
  rules <- (if is_ [MorphRuleType; PreProcessMorphRuleType; NeMorphRuleType] then
              rs <- read_mrph_rule (rv_file rule) [] GeneralRule_MAX ;; Ret (MrphRules rs)
            else if is_ [TagRuleType; BnstRuleType; AfterDpndBnstRuleType; AfterDpndTagRuleType; PostProcessTagRuleType] then
              rs <- read_bnst_rule (rv_file rule) [] GeneralRule_MAX ;; Ret (BnstRules rs)
            else Ret (MrphRules [])) ;;
  Ret (GeneralRuleArray ++ [mkGR (rv_type rule) rules (rv_mode rule) (rv_breakmode rule) (rv_direction rule)])%list.
End RuleFile.

(** * Properties *)

(** ** The text of a rule *)
Definition atoms (l : list string) : CELL := list_cell (map ATOM l).

(** A feature pattern as the rules write it: a list of lists. *)
Definition pattern_cell (fs : FEATURE_PATTERN) : CELL := list_cell (map atoms fs).
Definition pattern_fits (fs : FEATURE_PATTERN) : bool :=
  (List.length fs <? RF_MAX)%nat && forallb (fun f => match f with [] => false | _ => true end) fs.

(** The values of an item, each by its name, after [^] when they are negated; no value is "*". *)
Definition no_names (names : list string) : bool :=
  match names with [] => true | [s] => str_eq s AST_STR | _ => false end.
Definition item_cells (flag : Z) (names : list string) : list CELL :=
  if flag =? NOT_FLG then [ATOM NOT_STR; atoms names]
  else if no_names names then [ATOM AST_STR] else [atoms names].

Section RuleText.
Context `{G : Grammar}.

Definition hinshi_name (h : Z) : string :=
  if h =? 0 then "*" else match Class_id h 0 with Some s => s | None => EmptyString end.
Definition bunrui_name (h b : Z) : string :=
  if b =? 0 then "*" else match Class_id h b with Some s => s | None => EmptyString end.
Definition kata_name (k : Z) : string := if k =? 0 then "*" else match Type_name k with Some s => s | None => EmptyString end.

Definition mrph_cell (r : REGEXPMRPH) : CELL :=
  list_cell (item_cells (Hinshi_not r) (map hinshi_name (rm_Hinshi r)) ++
             item_cells (Bunrui_not r) (map (bunrui_name (hd 0 (rm_Hinshi r))) (rm_Bunrui r)) ++
             item_cells (Kata_not r) (map kata_name (rm_Katuyou_Kata r)) ++
             item_cells (Kei_not r) (rm_Katuyou_Kei r) ++
             item_cells (Goi_not r) (rm_Goi r) ++ [pattern_cell (rm_f_pattern r)]).

(** The numbers are found again under their names. *)
Definition found {A} (eqb : A -> A -> bool) (r : res A) (v : A) : bool := match r with Ret x => eqb x v | Err _ => false end.
Definition ids_ok (conv : string -> res Z) (name : Z -> string) (l : list Z) : bool :=
  (0 <? List.length l)%nat && (List.length l <? RM_MAX)%nat && forallb (fun v => found Z.eqb (conv (name v)) v) l.
Definition flag_ok (flag : Z) : bool := (flag =? 0) || (flag =? NOT_FLG).
Definition names_ok (flag : Z) (l : list string) : bool :=
  flag_ok flag && (List.length l <? RM_MAX)%nat &&
  match l with [] => flag =? 0 | _ => (flag =? NOT_FLG) || negb (no_names l) end.

(** Subclasses are given for one part of speech only. *)
Definition bunrui_ok (r : REGEXPMRPH) : bool :=
  flag_ok (Bunrui_not r) &&
  ids_ok (fun s => get_bunrui_id s (hd 0 (rm_Hinshi r))) (bunrui_name (hd 0 (rm_Hinshi r))) (rm_Bunrui r) &&
  ((List.length (rm_Hinshi r) =? 1)%nat || (Bunrui_not r =? 0) && match rm_Bunrui r with [0] => true | _ => false end).

Definition items_ok (r : REGEXPMRPH) : bool :=
  flag_ok (Hinshi_not r) && ids_ok get_hinsi_id hinshi_name (rm_Hinshi r) && bunrui_ok r &&
  flag_ok (Kata_not r) && ids_ok get_type_id kata_name (rm_Katuyou_Kata r) &&
  names_ok (Kei_not r) (rm_Katuyou_Kei r) && names_ok (Goi_not r) (rm_Goi r) && pattern_fits (rm_f_pattern r).

(** *** Reading the items back *)
Lemma store_values_names : forall {A} (conv : string -> res A) (name : A -> string) l n,
  (forall v, In v l -> conv (name v) = Ret v) -> (n + List.length l < RM_MAX)%nat ->
  store_values conv (atoms (map name l)) n = Ret l.
Proof.
  intros A conv name. induction l as [|v l IH]; intros n HC HN; [reflexivity|].
  cbn [map atoms list_cell fold_right store_values List.length] in *. change (fold_right CONS NIL (map ATOM (map name l))) with (atoms (map name l)).
  cbn [_Atom]. rewrite HC by now left. destruct (Nat.leb_spec RM_MAX (S n)); [lia|].
  unfold atoms in IH. rewrite IH; [reflexivity | intros x Hx; apply HC; now right | lia].
Qed.

Lemma store_item : forall mp flag names rest type,
  store_mrph_item mp (list_cell (item_cells flag names ++ rest)) type =
  if flag =? NOT_FLG then
    mp' <- store_item_values (store_mrph_nflag mp type) (atoms names) type ;; Ret (list_cell rest, mp')
  else if no_names names then Ret (list_cell rest, mp)
  else mp' <- store_item_values mp (atoms names) type ;; Ret (list_cell rest, mp').
Proof.
  intros mp flag names rest type. unfold item_cells. destruct (flag =? NOT_FLG).
  - destruct names as [|s names]; reflexivity.
  - destruct (no_names names) eqn:E; [reflexivity|]. destruct names as [|s names]; [discriminate|]. reflexivity.
Qed.

Lemma ids_values : forall conv name l, ids_ok conv name l = true ->
  store_values conv (atoms (map name l)) 0 = Ret l /\ l <> [].
Proof.
  intros conv name l H. unfold ids_ok in H. rewrite !andb_true_iff, Nat.ltb_lt, Nat.ltb_lt, forallb_forall in H.
  destruct H as [[H1 H2] H3]. split; [|intros ->; cbn in H1; lia]. apply store_values_names; [|lia].
  intros v Hv. specialize (H3 v Hv). unfold found in H3. destruct (conv (name v)); [|discriminate]. now apply Z.eqb_eq in H3 as ->.
Qed.

Lemma names_values : forall flag l, names_ok flag l = true -> store_values (fun s => Ret s) (atoms l) 0 = Ret l.
Proof.
  intros flag l H. unfold names_ok in H. rewrite !andb_true_iff, Nat.ltb_lt in H. destruct H as [[_ H] _].
  rewrite <- (map_id l) at 1. now apply (store_values_names (fun s => Ret s) (fun s => s)).
Qed.

Lemma flag_cases : forall flag, flag_ok flag = true -> flag = 0 \/ flag = NOT_FLG.
Proof. intros flag H. apply orb_true_iff in H as [H|H]; apply Z.eqb_eq in H; auto. Qed.

Lemma stored_some : forall {A} (old l : list A), l <> [] -> stored old l = l.
Proof. intros A old [|x l] H; [contradiction | reflexivity]. Qed.

(** A list of numbers whose only name is "*" is the initial value. *)
Lemma no_ids : forall conv name l, ids_ok conv name l = true -> conv "*" = Ret 0 -> no_names (map name l) = true -> l = [0].
Proof.
  intros conv name l H HC HN. unfold ids_ok in H. rewrite !andb_true_iff, forallb_forall in H. destruct H as [[H _] HF].
  destruct l as [|v [|w l]]; [discriminate H | | discriminate HN]. cbn [map no_names] in HN.
  destruct (str_eq_spec (name v) AST_STR) as [E|]; [|discriminate HN]. specialize (HF v (or_introl eq_refl)).
  rewrite E in HF. unfold found, AST_STR in HF. rewrite HC in HF. apply Z.eqb_eq in HF as <-. reflexivity.
Qed.

Lemma item_hinshi : forall t a bn b kn k en e gn g f flag l rest,
  flag_ok flag = true -> ids_ok get_hinsi_id hinshi_name l = true ->
  store_mrph_item (mkRM t a 0 [0] bn b kn k en e gn g f) (list_cell (item_cells flag (map hinshi_name l) ++ rest)) MRPH_HINSHI =
  Ret (list_cell rest, mkRM t a flag l bn b kn k en e gn g f).
Proof.
  intros t a bn b kn k en e gn g f flag l rest HF HI. rewrite store_item. destruct (ids_values _ _ _ HI) as [HV HN].
  destruct (flag_cases flag HF) as [-> | ->]; cbn [Z.eqb NOT_FLG].
  - change (0 =? NOT_FLG) with false. cbv iota. destruct (no_names _) eqn:E; [now rewrite (no_ids _ _ _ HI eq_refl E)|].
    cbn [store_item_values]. now rewrite HV, stored_some.
  - change (NOT_FLG =? NOT_FLG) with true. cbv iota. cbn [store_mrph_nflag store_item_values]. now rewrite HV, stored_some.
Qed.

Lemma item_bunrui : forall t a hn h kn k en e gn g f flag l rest,
  flag_ok flag = true -> ids_ok (fun s => get_bunrui_id s (hd 0 h)) (bunrui_name (hd 0 h)) l = true ->
  ((List.length h =? 1)%nat || (flag =? 0) && match l with [0] => true | _ => false end) = true ->
  store_mrph_item (mkRM t a hn h 0 [0] kn k en e gn g f) (list_cell (item_cells flag (map (bunrui_name (hd 0 h)) l) ++ rest))
    MRPH_BUNRUI = Ret (list_cell rest, mkRM t a hn h flag l kn k en e gn g f).
Proof.
  intros t a hn h kn k en e gn g f flag l rest HF HI HO. rewrite store_item. destruct (ids_values _ _ _ HI) as [HV HN].
  assert (HH : flag = 0 /\ no_names (map (bunrui_name (hd 0 h)) l) = true \/ exists x, h = [x]).
  { apply orb_true_iff in HO as [HO|HO].
    - right. destruct h as [|x [|y h]]; try discriminate. now exists x.
    - left. apply andb_true_iff in HO as [H0 HO]. apply Z.eqb_eq in H0. split; [exact H0|].
      destruct l as [|[] [|]]; try discriminate. reflexivity. }
  destruct HH as [[-> HH]|[x ->]].
  - change (0 =? NOT_FLG) with false. cbv iota. rewrite HH. now rewrite (no_ids _ _ _ HI eq_refl HH).
  - destruct (flag_cases flag HF) as [-> | ->].
    + change (0 =? NOT_FLG) with false. cbv iota. destruct (no_names _) eqn:E; [now rewrite (no_ids _ _ _ HI eq_refl E)|].
      cbn [store_item_values hd] in *. now rewrite HV, stored_some.
    + change (NOT_FLG =? NOT_FLG) with true. cbv iota. cbn [store_mrph_nflag store_item_values hd] in *. now rewrite HV, stored_some.
Qed.

Lemma item_kata : forall t a hn h bn b en e gn g f flag l rest,
  flag_ok flag = true -> ids_ok get_type_id kata_name l = true ->
  store_mrph_item (mkRM t a hn h bn b 0 [0] en e gn g f) (list_cell (item_cells flag (map kata_name l) ++ rest)) MRPH_KATA =
  Ret (list_cell rest, mkRM t a hn h bn b flag l en e gn g f).
Proof.
  intros t a hn h bn b en e gn g f flag l rest HF HI. rewrite store_item. destruct (ids_values _ _ _ HI) as [HV HN].
  destruct (flag_cases flag HF) as [-> | ->].
  - change (0 =? NOT_FLG) with false. cbv iota. destruct (no_names _) eqn:E; [now rewrite (no_ids _ _ _ HI eq_refl E)|].
    cbn [store_item_values]. now rewrite HV, stored_some.
  - change (NOT_FLG =? NOT_FLG) with true. cbv iota. cbn [store_mrph_nflag store_item_values]. now rewrite HV, stored_some.
Qed.

Lemma names_cases : forall flag l, names_ok flag l = true ->
  flag = 0 /\ l = [] \/ l <> [] /\ (flag = NOT_FLG \/ flag = 0 /\ no_names l = false).
Proof.
  intros flag l H. unfold names_ok in H. rewrite !andb_true_iff in H. destruct H as [[HF _] H].
  destruct l as [|s l]; [left; split; [now apply Z.eqb_eq | reflexivity]|]. right. split; [discriminate|].
  destruct (flag_cases flag HF) as [->| ->]; [right | now left]. split; [reflexivity|].
  change (0 =? NOT_FLG) with false in H. now apply negb_true_iff in H.
Qed.

Lemma item_kei : forall t a hn h bn b kn k gn g f flag l rest, names_ok flag l = true ->
  store_mrph_item (mkRM t a hn h bn b kn k 0 [] gn g f) (list_cell (item_cells flag l ++ rest)) MRPH_KEI =
  Ret (list_cell rest, mkRM t a hn h bn b kn k flag l gn g f).
Proof.
  intros t a hn h bn b kn k gn g f flag l rest H. rewrite store_item. pose proof (names_values flag l H) as HV.
  destruct (names_cases flag l H) as [[-> ->]|[HN [->|[-> HL]]]]; [reflexivity | |].
  - change (NOT_FLG =? NOT_FLG) with true. cbv iota. cbn [store_mrph_nflag store_item_values]. now rewrite HV, stored_some.
  - change (0 =? NOT_FLG) with false. cbv iota. rewrite HL. cbn [store_item_values]. now rewrite HV, stored_some.
Qed.

Lemma item_goi : forall t a hn h bn b kn k en e f flag l rest, names_ok flag l = true ->
  store_mrph_item (mkRM t a hn h bn b kn k en e 0 [] f) (list_cell (item_cells flag l ++ rest)) MRPH_GOI =
  Ret (list_cell rest, mkRM t a hn h bn b kn k en e flag l f).
Proof.
  intros t a hn h bn b kn k en e f flag l rest H. rewrite store_item. pose proof (names_values flag l H) as HV.
  destruct (names_cases flag l H) as [[-> ->]|[HN [->|[-> HL]]]]; [reflexivity | |].
  - change (NOT_FLG =? NOT_FLG) with true. cbv iota. cbn [store_mrph_nflag store_item_values]. now rewrite HV, stored_some.
  - change (0 =? NOT_FLG) with false. cbv iota. rewrite HL. cbn [store_item_values]. now rewrite HV, stored_some.
Qed.

(** *** Feature patterns *)
Lemma list2feature_atoms : forall f acc, list2feature (atoms f) acc = Ret (acc ++ f)%list.
Proof.
  induction f as [|s f IH]; intros acc; [cbn; now rewrite app_nil_r|].
  unfold atoms, list_cell in *. cbn [map fold_right list2feature Null _Atom]. rewrite IH. unfold copy_cfeature. now rewrite <- app_assoc.
Qed.

Lemma list2feature_pattern_cell : forall fs, pattern_fits fs = true -> list2feature_pattern (pattern_cell fs) = Ret fs.
Proof.
  intros fs H. apply andb_true_iff in H as [HL HF]. apply Nat.ltb_lt in HL. unfold list2feature_pattern.
  assert (GO : forall fs n, (n + List.length fs < RF_MAX)%nat -> forallb (fun f => match f with [] => false | _ => true end) fs = true ->
    list2feature_pattern_go (pattern_cell fs) n = Ret fs).
  { clear. induction fs as [|f fs IH]; intros n HN HF; cbn [List.length] in HN.
    - cbn [pattern_cell list_cell map fold_right list2feature_pattern_go]. destruct (Nat.ltb_spec n RF_MAX); [reflexivity | lia].
    - cbn [forallb] in HF. apply andb_true_iff in HF as [Hf HF]. unfold pattern_cell, list_cell in *.
      cbn [map fold_right list2feature_pattern_go]. destruct (Nat.ltb_spec n RF_MAX); [|lia].
      destruct f as [|s f]; [discriminate|]. replace (Null (atoms (s :: f))) with false by reflexivity.
      rewrite list2feature_atoms, IH; [reflexivity | lia | exact HF]. }
  now apply (GO fs O).
Qed.

(** *** Elements of patterns *)
Definition elem_start (t : Z) : REGEXPMRPH := set_rm_type_flag t RegexpMrphInitValue.

Lemma store_mrph_cell : forall r t, items_ok r = true ->
  store_regexpmrph (elem_start t) (mrph_cell r) = Ret (Complete _ (set_rm_ast_flag 0 (set_rm_type_flag t r))).
Proof.
  intros r t H. unfold items_ok, bunrui_ok in H. rewrite !andb_true_iff in H.
  destruct H as [[[[[[[HF1 HI1] [[HF2 HI2] HO]] HF3] HI3] HN1] HN2] HP].
  assert (NE : forall flag names rest, exists x d, list_cell (item_cells flag names ++ rest) = CONS x d).
  { intros flag names rest. unfold item_cells. destruct (flag =? NOT_FLG); [|destruct (no_names names)]; cbn; eauto. }
  destruct (NE (Hinshi_not r) (map hinshi_name (rm_Hinshi r)) (item_cells (Bunrui_not r) (map (bunrui_name (hd 0 (rm_Hinshi r))) (rm_Bunrui r)) ++
             item_cells (Kata_not r) (map kata_name (rm_Katuyou_Kata r)) ++
             item_cells (Kei_not r) (rm_Katuyou_Kei r) ++
             item_cells (Goi_not r) (rm_Goi r) ++ [pattern_cell (rm_f_pattern r)]))%list as [x [d EC]].
  assert (NN : forall flag names rest, Null (list_cell (item_cells flag names ++ rest)) = false)
    by (intros flag names rest; destruct (NE flag names rest) as [y [z ->]]; reflexivity).
  unfold mrph_cell. rewrite EC. cbn [store_regexpmrph]. rewrite <- EC.
  unfold elem_start, RegexpMrphInitValue. cbn [set_rm_type_flag set_rm_f_pattern].
  cbn [store_mrph_items]. rewrite item_hinshi by assumption. rewrite NN.
  rewrite item_bunrui by assumption. rewrite NN. rewrite item_kata by assumption. rewrite NN.
  rewrite item_kei by assumption. rewrite NN. rewrite item_goi by assumption.
  cbn [list_cell fold_right Null car cdr]. rewrite list2feature_pattern_cell by exact HP. destruct r. reflexivity.
Qed.

Definition elem_cells (r : REGEXPMRPH) : list CELL :=
  if rm_type_flag r =? QST_FLG
  then [ATOM (if rm_ast_flag r =? AST_FLG then "?*" else "?")]
  else ((if rm_type_flag r =? NOT_FLG then [ATOM NOT_STR] else []) ++ [mrph_cell r] ++
        (if rm_ast_flag r =? AST_FLG then [ATOM AST_STR] else []))%list.

(** An element that the rules can write: any morpheme, or the items of a morpheme, negated or not. *)
Definition elem_ok (r : REGEXPMRPH) : Prop :=
  (rm_ast_flag r = 0 \/ rm_ast_flag r = AST_FLG) /\
  (r = set_rm_ast_flag (rm_ast_flag r) (elem_start QST_FLG) \/
   (rm_type_flag r = MAT_FLG \/ rm_type_flag r = NOT_FLG) /\ items_ok r = true).

(** The loops of [store_regexpmrphs] and [store_regexpbnsts], element by element. *)
Lemma store_seq_elems : forall {P} (store : P -> CELL -> res (stored_as P)) (star : P -> P) (init : P) (cells : P -> list CELL),
  forall rs, (forall r rest done, In r rs ->
    store_seq store star init (list_cell (cells r ++ rest)) done init = store_seq store star init (list_cell rest) (r :: done) init) ->
  forall done, store_seq store star init (list_cell (flat_map cells rs)) done init = Ret (rev done ++ rs)%list.
Proof.
  intros P store star init cells. induction rs as [|r rs IH]; intros H done.
  - cbn [flat_map list_cell fold_right store_seq]. now rewrite app_nil_r.
  - cbn [flat_map]. rewrite H by now left. rewrite IH by (intros; apply H; now right). cbn [rev]. now rewrite <- app_assoc.
Qed.

Lemma store_elem : forall r rest done, elem_ok r ->
  store_seq store_regexpmrph (set_rm_ast_flag AST_FLG) RegexpMrphInitValue (list_cell (elem_cells r ++ rest)) done RegexpMrphInitValue =
  store_seq store_regexpmrph (set_rm_ast_flag AST_FLG) RegexpMrphInitValue (list_cell rest) (r :: done) RegexpMrphInitValue.
Proof.
  intros r rest done [HA [HQ|[HT HI]]].
  - rewrite HQ. destruct HA as [HA|HA]; rewrite HA; reflexivity.
  - set (next := store_seq store_regexpmrph (set_rm_ast_flag AST_FLG) RegexpMrphInitValue) in *.
    assert (BODY : forall t, rm_type_flag r = t -> next (list_cell ((mrph_cell r :: (if rm_ast_flag r =? AST_FLG then [ATOM AST_STR] else [])) ++ rest))
                     done (elem_start t) = next (list_cell rest) (r :: done) RegexpMrphInitValue).
    { intros t Ht. cbn [app list_cell fold_right]. subst next. cbn [store_seq]. rewrite store_mrph_cell by exact HI.
      destruct HA as [HA|HA]; rewrite HA.
      - change (0 =? AST_FLG) with false. cbn [app]. replace (set_rm_ast_flag 0 (set_rm_type_flag t r)) with r by (subst t; destruct r; cbn in *; congruence).
        reflexivity.
      - change (AST_FLG =? AST_FLG) with true. cbn [app fold_right store_seq]. 
        change (store_regexpmrph RegexpMrphInitValue (ATOM AST_STR)) with (Ret (StarPrevious REGEXPMRPH)). cbv iota.
        replace (set_rm_ast_flag AST_FLG (set_rm_ast_flag 0 (set_rm_type_flag t r))) with r by (subst t; destruct r; cbn in *; congruence).
        reflexivity. }
    unfold elem_cells. destruct HT as [HT|HT]; rewrite HT.
    + change (MAT_FLG =? QST_FLG) with false. change (MAT_FLG =? NOT_FLG) with false. exact (BODY MAT_FLG HT).
    + change (NOT_FLG =? QST_FLG) with false. change (NOT_FLG =? NOT_FLG) with true. cbv iota. exact (BODY NOT_FLG HT).
Qed.

(** A pattern; without one, the empty list. *)
Definition mrphs_cell (o : option REGEXPMRPHS) : CELL :=
  match o with None => NIL | Some rs => list_cell (flat_map elem_cells rs) end.
Definition mrphs_ok (o : option REGEXPMRPHS) : Prop :=
  match o with None => True | Some rs => rs <> [] /\ Forall elem_ok rs end.

Lemma store_mrphs_cell : forall o, mrphs_ok o -> store_regexpmrphs (mrphs_cell o) = Ret o.
Proof.
  intros [rs|] H; [|reflexivity]. destruct H as [HN HF]. cbn [mrphs_cell]. unfold store_regexpmrphs.
  destruct (list_cell (flat_map elem_cells rs)) as [|a d|s] eqn:E.
  - destruct rs as [|r rs]; [contradiction|]. cbn [flat_map] in E. unfold elem_cells in E at 1.
    destruct (rm_type_flag r =? QST_FLG); [discriminate E|]. destruct (rm_type_flag r =? NOT_FLG); discriminate E.
  - rewrite <- E. rewrite store_seq_elems; [reflexivity|]. intros r rest done Hr. apply store_elem. now apply (proj1 (Forall_forall _ _) HF).
  - destruct (flat_map elem_cells rs); discriminate E.
Qed.

(** *** Patterns of bunsetsus *)
Definition bnst_cell (r : REGEXPBNST) : CELL :=
  CONS (mrphs_cell (rb_mrphs r)) (CONS (pattern_cell (rb_f_pattern r)) NIL).
Definition bnst_cells (r : REGEXPBNST) : list CELL :=
  if rb_type_flag r =? QST_FLG
  then [ATOM (if rb_ast_flag r =? AST_FLG then "?*" else "?")]
  else ((if rb_type_flag r =? NOT_FLG then [ATOM NOT_STR] else []) ++ [bnst_cell r] ++
        (if rb_ast_flag r =? AST_FLG then [ATOM AST_STR] else []))%list.

Definition bnst_start (t : Z) : REGEXPBNST := set_rb_type_flag t RegexpBnstInitValue.
Definition bnst_ok (r : REGEXPBNST) : Prop :=
  (rb_ast_flag r = 0 \/ rb_ast_flag r = AST_FLG) /\
  (r = set_rb_ast_flag (rb_ast_flag r) (bnst_start QST_FLG) \/
   (rb_type_flag r = MAT_FLG \/ rb_type_flag r = NOT_FLG) /\ mrphs_ok (rb_mrphs r) /\ pattern_fits (rb_f_pattern r) = true).

Lemma store_bnst_cell : forall r t, mrphs_ok (rb_mrphs r) -> pattern_fits (rb_f_pattern r) = true ->
  store_regexpbnst (bnst_start t) (bnst_cell r) = Ret (Complete _ (set_rb_ast_flag 0 (set_rb_type_flag t r))).
Proof.
  intros r t HM HP. unfold store_regexpbnst, bnst_cell. cbn [car cdr Null]. rewrite store_mrphs_cell by exact HM.
  cbn [car]. rewrite list2feature_pattern_cell by exact HP. now destruct r.
Qed.

Lemma store_bnst_elem : forall r rest done, bnst_ok r ->
  store_seq store_regexpbnst (set_rb_ast_flag AST_FLG) RegexpBnstInitValue (list_cell (bnst_cells r ++ rest)) done RegexpBnstInitValue =
  store_seq store_regexpbnst (set_rb_ast_flag AST_FLG) RegexpBnstInitValue (list_cell rest) (r :: done) RegexpBnstInitValue.
Proof.
  intros r rest done [HA [HQ|[HT [HM HP]]]].
  - rewrite HQ. destruct HA as [HA|HA]; rewrite HA; reflexivity.
  - set (next := store_seq store_regexpbnst (set_rb_ast_flag AST_FLG) RegexpBnstInitValue) in *.
    assert (BODY : forall t, rb_type_flag r = t -> next (list_cell ((bnst_cell r :: (if rb_ast_flag r =? AST_FLG then [ATOM AST_STR] else [])) ++ rest))
                     done (bnst_start t) = next (list_cell rest) (r :: done) RegexpBnstInitValue).
    { intros t Ht. cbn [app list_cell fold_right]. subst next. cbn [store_seq]. rewrite store_bnst_cell by assumption.
      destruct HA as [HA|HA]; rewrite HA.
      - change (0 =? AST_FLG) with false. cbn [app]. replace (set_rb_ast_flag 0 (set_rb_type_flag t r)) with r by (subst t; destruct r; cbn in *; congruence).
        reflexivity.
      - change (AST_FLG =? AST_FLG) with true. cbn [app fold_right store_seq].
        change (store_regexpbnst RegexpBnstInitValue (ATOM AST_STR)) with (Ret (StarPrevious REGEXPBNST)). cbv iota.
        replace (set_rb_ast_flag AST_FLG (set_rb_ast_flag 0 (set_rb_type_flag t r))) with r by (subst t; destruct r; cbn in *; congruence).
        reflexivity. }
    unfold bnst_cells. destruct HT as [HT|HT]; rewrite HT.
    + change (MAT_FLG =? QST_FLG) with false. change (MAT_FLG =? NOT_FLG) with false. exact (BODY MAT_FLG HT).
    + change (NOT_FLG =? QST_FLG) with false. change (NOT_FLG =? NOT_FLG) with true. cbv iota. exact (BODY NOT_FLG HT).
Qed.

Definition bnsts_cell (o : option REGEXPBNSTS) : CELL :=
  match o with None => NIL | Some rs => list_cell (flat_map bnst_cells rs) end.
Definition bnsts_ok (o : option REGEXPBNSTS) : Prop :=
  match o with None => True | Some rs => rs <> [] /\ Forall bnst_ok rs end.

Lemma store_bnsts_cell : forall o, bnsts_ok o -> store_regexpbnsts (bnsts_cell o) = Ret o.
Proof.
  intros [rs|] H; [|reflexivity]. destruct H as [HN HF]. cbn [bnsts_cell]. unfold store_regexpbnsts.
  destruct (list_cell (flat_map bnst_cells rs)) as [|a d|s] eqn:E.
  - destruct rs as [|r rs]; [contradiction|]. cbn [flat_map] in E. unfold bnst_cells in E at 1.
    destruct (rb_type_flag r =? QST_FLG); [discriminate E|]. destruct (rb_type_flag r =? NOT_FLG); discriminate E.
  - rewrite <- E. rewrite store_seq_elems; [reflexivity|]. intros r rest done Hr. apply store_bnst_elem. now apply (proj1 (Forall_forall _ _) HF).
  - destruct (flat_map bnst_cells rs); discriminate E.
Qed.

(** *** Rules *)
Definition mrph_rule_cell (r : MrphRule) : CELL :=
  CONS (mrphs_cell (mr_pre_pattern r)) (CONS (mrphs_cell (mr_self_pattern r)) (CONS (mrphs_cell (mr_post_pattern r)) (atoms (mr_f r)))).
Definition bnst_rule_cell (r : BnstRule) : CELL :=
  CONS (bnsts_cell (br_pre_pattern r)) (CONS (bnsts_cell (br_self_pattern r)) (CONS (bnsts_cell (br_post_pattern r)) (atoms (br_f r)))).

Definition mrph_rule_ok (r : MrphRule) : Prop :=
  mrphs_ok (mr_pre_pattern r) /\ mrphs_ok (mr_self_pattern r) /\ mrphs_ok (mr_post_pattern r).
Definition bnst_rule_ok (r : BnstRule) : Prop :=
  bnsts_ok (br_pre_pattern r) /\ bnsts_ok (br_self_pattern r) /\ bnsts_ok (br_post_pattern r).

Lemma mrph_rule_of_cell : forall r, mrph_rule_ok r -> mrph_rule_of (mrph_rule_cell r) = Ret r.
Proof.
  intros r [H1 [H2 H3]]. unfold mrph_rule_of, mrph_rule_cell, nth_car. cbn [nth_cdr car cdr].
  rewrite !store_mrphs_cell by assumption. rewrite list2feature_atoms. now destruct r.
Qed.

Lemma bnst_rule_of_cell : forall r, bnst_rule_ok r -> bnst_rule_of (bnst_rule_cell r) = Ret r.
Proof.
  intros r [H1 [H2 H3]]. unfold bnst_rule_of, bnst_rule_cell, nth_car. cbn [nth_cdr car cdr].
  rewrite !store_bnsts_cell by assumption. rewrite list2feature_atoms. now destruct r.
Qed.
End RuleText.

(** A file of rules that fit the table, one after the other. *)
Lemma add_rules : forall {R} (rule_of : CELL -> res R) (cell : R -> CELL) max rs old,
  (forall r, In r rs -> rule_of (cell r) = Ret r) -> zlen old < max ->
  fold_res (add_rule rule_of max) (map cell rs) old =
  if zlen old + zlen rs <? max then Ret (old ++ rs)%list else Err (ExitErr 1).
Proof.
  intros R rule_of cell max. induction rs as [|r rs IH]; intros old H HM.
  - cbn [map fold_res]. change (zlen []) with 0. destruct (Z.ltb_spec (zlen old + 0) max); [now rewrite app_nil_r | lia].
  - rewrite zlen_cons. cbn [map fold_res]. unfold add_rule at 1. rewrite H by now left. pose proof (zlen_pos rs).
    destruct (Z.eqb_spec (zlen old + 1) max).
    + destruct (Z.ltb_spec (zlen old + (zlen rs + 1)) max); [lia | reflexivity].
    + rewrite IH; [|intros x Hx; apply H; now right | rewrite zlen_app; change (zlen [r]) with 1; lia].
      rewrite zlen_app. change (zlen [r]) with 1. rewrite <- app_assoc. cbn [app].
      replace (zlen old + 1 + zlen rs) with (zlen old + (zlen rs + 1)) by lia. reflexivity.
Qed.

Lemma read_rules_print : forall {R} BUFSIZE text (rule_of : CELL -> res R) (cell : R -> CELL) max file rs,
  text file = Some (print_all (map cell rs)) -> forallb (cell_ok BUFSIZE) (map cell rs) = true ->
  (forall r, In r rs -> rule_of (cell r) = Ret r) -> 0 < max ->
  read_rules BUFSIZE text rule_of max file [] = if zlen rs <? max then Ret rs else Err (ExitErr 1).
Proof.
  intros R BUFSIZE text rule_of cell max file rs HT HC HR HM. unfold read_rules. rewrite HT, read_file_print by exact HC.
  rewrite (add_rules rule_of cell) by (auto; cbn; lia). reflexivity.
Qed.

(** ** What is read is what was written *)

(** C34: reading the text of a file of general rules gives the rules back, in order and behind the files read
    before, with the patterns of morphemes, bunsetsus and basic phrases compiled from their
    S-expressions; a file with as many rules as the table has room for ends the program. *)
Theorem general_rules_roundtrip : forall `{G : Grammar} BUFSIZE text v GeneralRuleArray,
  let read := read_general_rule BUFSIZE text v GeneralRuleArray in
  let result := fun n rules => if n <? GeneralRule_MAX
    then Ret (GeneralRuleArray ++ [mkGR (rv_type v) rules (rv_mode v) (rv_breakmode v) (rv_direction v)])%list
    else Err (ExitErr 1) in
  (forall rs, In (rv_type v) [MorphRuleType; PreProcessMorphRuleType; NeMorphRuleType] ->
     text (rv_file v) = Some (print_all (map mrph_rule_cell rs)) -> forallb (cell_ok BUFSIZE) (map mrph_rule_cell rs) = true ->
     (forall r, In r rs -> mrph_rule_ok r) -> read = result (zlen rs) (MrphRules rs)) /\
  (forall rs, In (rv_type v) [TagRuleType; BnstRuleType; AfterDpndBnstRuleType; AfterDpndTagRuleType; PostProcessTagRuleType] ->
     text (rv_file v) = Some (print_all (map bnst_rule_cell rs)) -> forallb (cell_ok BUFSIZE) (map bnst_rule_cell rs) = true ->
     (forall r, In r rs -> bnst_rule_ok r) -> read = result (zlen rs) (BnstRules rs)).
Proof.
  intros G BUFSIZE text v gs read result. subst read result. cbv beta. unfold read_general_rule.
  assert (IN : forall flags, In (rv_type v) flags -> existsb (Z.eqb (rv_type v)) flags = true).
  { intros flags H. apply existsb_exists. exists (rv_type v). split; [exact H | apply Z.eqb_refl]. }
  split; intros rs HT HF HC HR.
  - cbv zeta. rewrite (IN _ HT). unfold read_mrph_rule.
    rewrite (read_rules_print BUFSIZE text mrph_rule_of mrph_rule_cell GeneralRule_MAX (rv_file v) rs HF HC
               (fun r Hr => mrph_rule_of_cell r (HR r Hr)) eq_refl).
    destruct (zlen rs <? GeneralRule_MAX); reflexivity.
  - cbv zeta. rewrite (IN _ HT). unfold read_bnst_rule.
    replace (existsb (Z.eqb (rv_type v)) [MorphRuleType; PreProcessMorphRuleType; NeMorphRuleType]) with false.
    + rewrite (read_rules_print BUFSIZE text bnst_rule_of bnst_rule_cell GeneralRule_MAX (rv_file v) rs HF HC
               (fun r Hr => bnst_rule_of_cell r (HR r Hr)) eq_refl).
      destruct (zlen rs <? GeneralRule_MAX); reflexivity.
    + destruct HT as [<-|[<-|[<-|[<-|[<-|[]]]]]]; reflexivity.
Qed.

(** *** Dependency rules *)
Definition governor_cell (g : FEATURE_PATTERN * Z) : CELL :=
  CONS (pattern_cell (fst g)) (CONS (ATOM (String (ascii_of_Z (snd g)) EmptyString)) NIL).
Definition dpnd_rule_cell (r : DpndRule) : CELL :=
  CONS (pattern_cell (dependant r)) (CONS (list_cell (map governor_cell (governors r))) (CONS (pattern_cell (barrier r))
    (CONS (ATOM (itoa (preference r))) (if decide r then CONS (ATOM "U") NIL else NIL)))).

Definition dpnd_rule_ok (r : DpndRule) : bool :=
  pattern_fits (dependant r) && pattern_fits (barrier r) && int_field (preference r) &&
  (zlen (governors r) <? DpndRule_G_MAX) && forallb (fun g => pattern_fits (fst g) && within 1 (snd g) 256) (governors r).

Lemma read_governors_cell : forall gs i, 0 <= i -> i + zlen gs < DpndRule_G_MAX ->
  forallb (fun g => pattern_fits (fst g) && within 1 (snd g) 256) gs = true ->
  read_governors (list_cell (map governor_cell gs)) i = Ret gs.
Proof.
  induction gs as [|[p t] gs IH]; intros i Hi HL HF; [reflexivity|]. rewrite zlen_cons in HL. pose proof (zlen_pos gs).
  cbn [forallb fst snd] in HF. apply andb_true_iff in HF as [HG HF]. apply andb_true_iff in HG as [HP HT].
  destruct (within_spec 1 t 256) as [HW|]; [|discriminate]. unfold list_cell in *.
  cbn [map fold_right read_governors]. unfold governor_cell at 1 2 3, nth_car. cbn [nth_cdr car cdr Null fst snd].
  rewrite list2feature_pattern_cell by exact HP. unfold first_char. cbn [_Atom first_byte].
  destruct (Z.eqb_spec (i + 1) DpndRule_G_MAX); [lia|]. rewrite IH by (assumption || lia).
  replace (byte_of (ascii_of_Z t)) with t; [reflexivity|]. unfold byte_of, ascii_of_Z. rewrite nat_ascii_embedding by (apply Nat2Z.inj_lt; lia). lia.
Qed.

Lemma dpnd_rule_of_cell : forall r, dpnd_rule_ok r = true -> dpnd_rule_of (dpnd_rule_cell r) = Ret r.
Proof.
  intros r H. unfold dpnd_rule_ok in H. rewrite !andb_true_iff in H. destruct H as [[[[H1 H2] H3] H4] H5].
  apply Z.ltb_lt in H4. unfold dpnd_rule_of, dpnd_rule_cell, nth_car. cbn [nth_cdr car cdr].
  rewrite !list2feature_pattern_cell by assumption. rewrite read_governors_cell by (assumption || lia). cbn [_Atom].
  rewrite atoi_itoa by exact H3. destruct r as [dep gov bar pref []]; reflexivity.
Qed.

(** the same for the dependency rules: dependants, governors with their types, barriers, preferences and the
    marks of unique decisions. *)
Theorem dpnd_rules_roundtrip : forall BUFSIZE text file rs,
  text file = Some (print_all (map dpnd_rule_cell rs)) -> forallb (cell_ok BUFSIZE) (map dpnd_rule_cell rs) = true ->
  forallb dpnd_rule_ok rs = true ->
  read_dpnd_rule BUFSIZE text file [] = if zlen rs <? DpndRule_MAX then Ret rs else Err (ExitErr 1).
Proof.
  intros BUFSIZE text file rs HT HC HR. rewrite forallb_forall in HR.
  apply (read_rules_print BUFSIZE text dpnd_rule_of dpnd_rule_cell); [exact HT | exact HC | | reflexivity].
  intros r Hr. now apply dpnd_rule_of_cell, HR.
Qed.

(** ** On concrete files *)
Definition rule_grammar : Grammar := {|
  Class_id := fun i j => if (i =? 1) && (j =? 0) then Some "名詞" else if (i =? 1) && (j =? 1) then Some "普通名詞" else None;
  Type_name := fun _ => None; Form_name := fun _ _ => None |}.

(** Any morpheme or not, a common noun with a feature, repeated, and no の behind it. *)
Definition noun_rule : MrphRule :=
  mkMR (Some [set_rm_ast_flag AST_FLG (elem_start QST_FLG)])
    (Some [mkRM 0 AST_FLG 0 [1] 0 [1] 0 [0] 0 [] 0 [] [["地名"; "^人名"]; ["組織"]]])
    (Some [mkRM NOT_FLG 0 0 [0] 0 [0] 0 [0] 0 [] NOT_FLG ["の"; "が"] []; set_rm_ast_flag AST_FLG (elem_start QST_FLG)])
    ["固有"; "&break:normal"].
Definition noun_file : RuleVector := mkRV "mrph" MorphRuleType RLOOP_MRM RLOOP_BREAK_NONE LtoR.
Definition noun_text (name : string) : option string :=
  if str_eq name "mrph" then Some (print_all (map (mrph_rule_cell (G := rule_grammar)) [noun_rule])) else None.

Lemma noun_rule_ok : mrph_rule_ok (G := rule_grammar) noun_rule.
Proof.
  assert (ANY : elem_ok (G := rule_grammar) (set_rm_ast_flag AST_FLG (elem_start QST_FLG))).
  { split; [now right | left; reflexivity]. }
  split; [|split]; (split; [discriminate|]).
  - constructor; [exact ANY | constructor].
  - constructor; [|constructor]. split; [now right|]. right. split; [now left | reflexivity].
  - constructor; [|constructor; [exact ANY | constructor]]. split; [now left|]. right. split; [now right | reflexivity].
Qed.

Lemma general_rules_roundtrip_witness :
  @read_general_rule rule_grammar 8192 noun_text noun_file [] =
  Ret [mkGR MorphRuleType (MrphRules [noun_rule]) RLOOP_MRM RLOOP_BREAK_NONE LtoR].
Proof.
  apply (proj1 (@general_rules_roundtrip rule_grammar 8192 noun_text noun_file []) [noun_rule]).
  - now left.
  - reflexivity.
  - vm_compute. reflexivity.
  - intros r [<-|[]]. exact noun_rule_ok.
Defined.

Definition dpnd_example : DpndRule :=
  mkDR [["係:ガ格"]] [([["用言"]], chr "D"); ([["体言"; "^時間"]; ["サ変"]], chr "P")] [["括弧終"]] (-3) true.

Lemma dpnd_rules_roundtrip_witness :
  read_dpnd_rule 8192 (fun _ => Some (print_all (map dpnd_rule_cell [dpnd_example]))) "kakari" [] = Ret [dpnd_example].
Proof.
  apply (dpnd_rules_roundtrip 8192 (fun _ => Some (print_all (map dpnd_rule_cell [dpnd_example]))) "kakari" [dpnd_example]).
  - reflexivity.
  - vm_compute. reflexivity.
  - vm_compute. reflexivity.
Defined.

(** A rule without its preference is read through a null pointer. *)
Lemma short_dpnd_rule : dpnd_rule_of (CONS (pattern_cell [["体言"]]) NIL) = Err NullDeref.
Proof. reflexivity. Qed.
