(* ===== verification/ReadMrph.v ===== *)
(** * The reader of the morphemes of a sentence (src/system/read_data.c)

    [read_mrph] reads the output of JUMAN, or of KNP itself, line by line up to
    a line EOS: comments, bunsetsus (an asterisk), basic phrases (a plus sign)
    and morphemes; an at sign marks one more reading of the morpheme before,
    and [lexical_disambiguation] keeps one of the readings.  Japanese, without
    the analyses of ellipsis, anaphora and proper names.  The input has no
    byte 0.  [type] and [length] of a morpheme are not in [MRPH_DATA]. *)
From Stdlib Require Import ZArith List Bool String Ascii Lia.
Import ListNotations.
From S2P Require Import Prelude CStr Feature Sentence SemCode CheckFunction Regexp PredCase ChangeMrph Rules RuleFile.
Open Scope string_scope.
Open Scope Z_scope.

Definition HOMO_MAX : Z := 30.
Definition HOMO_MRPH_MAX : Z := 10.
Definition SMALL_DATA_LEN2 : Z := 256.
Definition EOf : Z := 0x0b.
Definition EOF : Z := -1.
Definition OPT_INPUT_RAW : Z := 0.
Definition OPT_INPUT_PARSED : Z := 1.
Definition OPT_INPUT_BNST : Z := 2.
Definition OPT_INPUT_CHUNKED : Z := 4.
Definition eos_line : string := "EOS" ++ String newline EmptyString.

(** ** The C library *)

(** A line with its newline, at most [n] bytes of it. *)
Fixpoint take_line (n : nat) (s : string) : string * string :=
  match n, s with
  | S n', String c s' =>
      if Ascii.eqb c newline then (String c EmptyString, s')
      else let '(l, r) := take_line n' s' in (String c l, r)
  | _, _ => (EmptyString, s)
  end.

(** [fgets(buffer, DATA_LEN, fp)] *)
Definition fgets (s : string) : option (string * string) :=
  match s with EmptyString => None | _ => Some (take_line (Z.to_nat (DATA_LEN - 1)) s) end.

(** [strtok]: the parts between delimiters, the empty ones left out. *)
Fixpoint strtok (delim : ascii -> bool) (s cur : string) : list string :=
  match s with
  | EmptyString => if str_eq cur EmptyString then [] else [cur]
  | String c s' =>
      if delim c then (if str_eq cur EmptyString then [] else [cur]) ++ strtok delim s' EmptyString
      else strtok delim s' (cur ++ String c EmptyString)%string
  end.

(** [strrchr]: the text before the last [c]. *)
Fixpoint before_last (c : ascii) (s : string) : option string :=
  match s with
  | EmptyString => None
  | String b s' =>
      match before_last c s' with
      | Some a => Some (String b a)
      | None => if Ascii.eqb b c then Some EmptyString else None
      end
  end.

(** The conversions of [sscanf] in use: [%s] into an array of [size] bytes, [%d], [%c] and [%[^\n]] behind a space. *)
Inductive conversion (S : Type) : Type :=
| ConvS (size : Z) (put : string -> S -> S)
| ConvD (put : Z -> S -> S)
| ConvC (put : ascii -> S -> S)
| ConvLine (put : string -> S -> S).
Arguments ConvS {S} size put.
Arguments ConvD {S} put.
Arguments ConvC {S} put.
Arguments ConvLine {S} put.

Inductive scan_result (S : Type) : Type :=
| Scanned (st : S) (rest : string)
| NoMatch
| EndOfInput.
Arguments Scanned {S} st rest.
Arguments NoMatch {S}.
Arguments EndOfInput {S}.

Definition convert {S} (c : conversion S) (s : string) (st : S) : res (scan_result S) :=
  match c, skip_spaces s with
  | ConvC put, _ => Ret match s with String a r => Scanned (put a st) r | EmptyString => EndOfInput end
  | _, EmptyString => Ret EndOfInput
  | ConvS size put, s =>
      let word := nonspace_run s in
      if size <=? slen word then Err OutOfBounds else Ret (Scanned (put word st) (skip word s))
  | ConvD put, s =>
      if scans_int s
      then if is_int (atoi s) then Ret (Scanned (put (atoi s) st) (after_int s)) else Err IntOverflow
      else Ret NoMatch
  | ConvLine put, s => let '(line, r) := span_not newline s in Ret (Scanned (put line st) r)
  end.

(** The number of items assigned, or [EOF], and what was assigned. *)
Fixpoint sscanf {S} (cs : list (conversion S)) (s : string) (items : Z) (st : S) : res (Z * S) :=
  match cs with
  | [] => Ret (items, st)
  | c :: cs' =>
      r <- convert c s st ;;
      match r with
      | Scanned st s' => sscanf cs' s' (items + 1) st
      | NoMatch => Ret (items, st)
      | EndOfInput => Ret (if items =? 0 then EOF else items, st)
      end
  end.

(** ** The state *)

(** The names of the part of speech, its subclass, the conjugation type and form; local arrays. *)
Record word_names : Type := mkWN {
  wn_hinshi : option string;
  wn_bunrui : option string;
  wn_kata : option string;
  wn_kei : option string
}.

(** What the input says about bunsetsus and basic phrases; an entry of [Best_mgr->dpnd] may be left unset.
    [%c] writes one byte of an entry of [Tag_type]. *)
Record given_tree : Type := mkGT {
  OptInput : Z;
  Bnst_start : array Z;
  Tag_start : array Z;
  gt_head : array (option Z);
  gt_type : array (option Z);
  Tag_dpnd : array Z;
  Tag_type : array Z;
  Input_bnst_feature : array FEATURE;
  Input_tag_feature : array FEATURE
}.

Record read_state : Type := mkRD {
  rd_input : string;
  rd_ru : rule_state;
  rd_homo_num : Z;
  rd_names : word_names;
  rd_tree : given_tree;
  ArticleID : string;
  preArticleID : string;
  total_sen_num : Z;
  ErrorComment : option string;
  rd_out : string
}.

Definition rd_sp (st : read_state) : SENTENCE_DATA := ru_sp (rd_ru st).

Definition with_input (v : string) (st : read_state) : read_state :=
  mkRD v (rd_ru st) (rd_homo_num st) (rd_names st) (rd_tree st) (ArticleID st) (preArticleID st) (total_sen_num st)
    (ErrorComment st) (rd_out st).
Definition with_rules (v : rule_state) (st : read_state) : read_state :=
  mkRD (rd_input st) v (rd_homo_num st) (rd_names st) (rd_tree st) (ArticleID st) (preArticleID st) (total_sen_num st)
    (ErrorComment st) (rd_out st).
Definition with_homo (v : Z) (st : read_state) : read_state :=
  mkRD (rd_input st) (rd_ru st) v (rd_names st) (rd_tree st) (ArticleID st) (preArticleID st) (total_sen_num st)
    (ErrorComment st) (rd_out st).
Definition with_names (v : word_names) (st : read_state) : read_state :=
  mkRD (rd_input st) (rd_ru st) (rd_homo_num st) v (rd_tree st) (ArticleID st) (preArticleID st) (total_sen_num st)
    (ErrorComment st) (rd_out st).
Definition with_tree (v : given_tree) (st : read_state) : read_state :=
  mkRD (rd_input st) (rd_ru st) (rd_homo_num st) (rd_names st) v (ArticleID st) (preArticleID st) (total_sen_num st)
    (ErrorComment st) (rd_out st).
Definition with_article (v : string) (st : read_state) : read_state :=
  mkRD (rd_input st) (rd_ru st) (rd_homo_num st) (rd_names st) (rd_tree st) v v (total_sen_num st)
    (ErrorComment st) (rd_out st).
Definition with_out (v : string) (st : read_state) : read_state :=
  mkRD (rd_input st) (rd_ru st) (rd_homo_num st) (rd_names st) (rd_tree st) (ArticleID st) (preArticleID st) (total_sen_num st)
    (ErrorComment st) v.
Definition put_sp (v : SENTENCE_DATA) (st : read_state) : read_state := with_rules (with_sentence v (rd_ru st)) st.

Definition set_OptInput (v : Z) (t : given_tree) : given_tree :=
  mkGT v (Bnst_start t) (Tag_start t) (gt_head t) (gt_type t) (Tag_dpnd t) (Tag_type t) (Input_bnst_feature t) (Input_tag_feature t).

(** ** Lines *)

(** The rest of the input after a line EOS, and FALSE; or no input and [EOF]. *)
Fixpoint readtoeos (fuel : nat) (s : string) : res (string * Z) :=
  match fuel with
  | O => Err OutOfFuel
  | S f =>
      match fgets s with
      | None => Ret (EmptyString, EOF)
      | Some (l, r) => if str_eq l eos_line then Ret (r, 0) else readtoeos f r
      end
  end.

Fixpoint readtonl (s : string) : string * Z :=
  match s with
  | EmptyString => (EmptyString, EOF)
  | String c s' => if Ascii.eqb c newline then (s', 0) else readtonl s'
  end.

(** In the server mode a line ends with a carriage return, which is dropped. *)
Definition drop_cr (l : string) : string :=
  let n := slen l in
  if (2 <? n) && (byte_at l (Z.to_nat (n - 1)) =? 10) && (byte_at l (Z.to_nat (n - 2)) =? 13)
  then (stake (Z.to_nat (n - 2)) l ++ String newline EmptyString)%string else l.

(** [None]: end of the input.  The line, and whether it fills the buffer. *)
Definition read_mrph_file (server_mode : bool) (s : string) : option (string * bool) * string :=
  match fgets s with
  | None => (None, EmptyString)
  | Some (l, r) =>
      let full := slen l =? DATA_LEN - 1 in
      if server_mode then
        let l := drop_cr l in
        (if first_byte l =? EOf then None else Some (l, full), r)
      else (Some (l, full), r)
  end.

Section ReadMrph.
Context `{E : RuleEnv} `{FM : FeatureMatch}.

(** ** Semantic information *)
Definition spaces : ascii -> bool := fun c => Ascii.eqb c " ".
Definition angle_brackets : ascii -> bool := fun c => Ascii.eqb c ">" || Ascii.eqb c "<".

Definition imi2feature (str : string) (f : FEATURE) (buf : string) : FEATURE * string :=
  copy_feature buf f (strtok spaces str EmptyString).

Definition feature_string2f (str : string) (f : FEATURE) (buf : string) : FEATURE * string :=
  copy_feature buf f (strtok angle_brackets str EmptyString).

(** The text between quotes, if it begins with one. *)
Definition unquote (s : string) : string :=
  match s with
  | String c r => if Ascii.eqb c dquote then fst (span_not dquote r) else s
  | EmptyString => s
  end.
Definition in_quotes (s : string) : string := String dquote (s ++ String dquote EmptyString).

(** What another reading leaves behind. *)
Definition kept_by_selection (token : string) : bool :=
  negb (existsb (fun p => starts_with p token) ["代表表記"; "可能動詞"; "漢字読み"; "カテゴリ"; "ドメイン"]).

Definition selected_imi2feature (str : string) (f : FEATURE) (buf : string) : FEATURE * string :=
  if str_eq str "NIL" then (f, buf)
  else copy_feature buf f (filter kept_by_selection (strtok spaces (unquote str) EmptyString)).

(** [rn2canonical_rn] on the features. *)
Definition rn2canonical_rn (m : MRPH_DATA) (buf : string) : MRPH_DATA * string :=
  match get_mrph_rep_from_f m false with
  | Some rn => let '(f, buf) := assign_cfeature buf (m_f m) ("正規化代表表記:" ++ rn)%string false in (set_m_f f m, buf)
  | None => (m, buf)
  end.

(** Words that get no representative form of their own. *)
Definition no_rep (hinshi : string) : bool :=
  existsb (str_eq hinshi) ["特殊"; "判定詞"; "助動詞"; "助詞"].

Definition made_rep : string := " 疑似代表表記 代表表記:".

(** [imip] with the representative form that is made up. *)
Definition add_rep (hinshi imip : string) (m : MRPH_DATA) : res string :=
  if no_rep hinshi || str_contains "代表表記" imip then Ret imip
  else
    imi <- in_imi (in_quotes imip) ;;
    rep <- make_mrph_rn (set_m_Imi imi m) ;;
    Ret (if slen imip + slen made_rep + slen rep + 2 <? DATA_LEN then (imip ++ made_rep ++ rep)%string else imip).

(** The item behind the numbers: the semantic information of the morpheme and the text that becomes features. *)
Definition read_imi (hinshi rest : string) (m : MRPH_DATA) : res (string * string) :=
  if starts_with "NIL" rest then
    rep <- make_mrph_rn m ;;
    if no_rep hinshi || (DATA_LEN <=? slen made_rep + slen rep + 1) then Ret ("NIL", EmptyString)
    else
      let imip := ("疑似代表表記 代表表記:" ++ rep)%string in
      imi <- in_imi (in_quotes imip) ;; Ret (imi, imip)
  else if starts_with (String dquote EmptyString) rest then
    imip <- add_rep hinshi (unquote rest) m ;;
    imi <- in_imi (in_quotes imip) ;; Ret (imi, imip)
  else
    let imip := fst (span_not " " rest) in
    imi <- in_imi imip ;; Ret (imi, imip).

(** ** One of several readings

    The readings are the morphemes from [d] on. *)
Section Disambiguation.
Context (sp : SENTENCE_DATA) (d : Z).

(** The first pattern of the rule that the reading [j] may use and matches; the marks of the patterns.
    [k] is the number of the pattern. *)
Fixpoint claim_pattern (ps : REGEXPMRPHS) (matched : list bool) (j k : Z) : res (option (Z * list bool)) :=
  match ps, matched with
  | p :: ps', b :: bs =>
      ok <- (if b && negb (is_ast_mrph p) then Ret false else regexpmrph_match sp p (d + j)) ;;
      if ok then Ret (Some (k, true :: bs))
      else
        r <- claim_pattern ps' bs j (k + 1) ;;
        Ret match r with Some (k, bs) => Some (k, b :: bs) | None => None end
  | _, _ => Ret None
  end.

(** All readings: does each of them match, the preferred reading, the marks. *)
Fixpoint match_readings (ps : REGEXPMRPHS) (js : list Z) (pref : Z) (matched : list bool) : res (bool * Z * list bool) :=
  match js with
  | [] => Ret (true, pref, matched)
  | j :: js' =>
      r <- claim_pattern ps matched j 0 ;;
      match r with
      | None => Ret (false, pref, matched)
      | Some (k, matched) => match_readings ps js' (if k =? 0 then j else pref) matched
      end
  end.

Definition before_matches (r : HomoRule) : res bool :=
  match hr_pre_pattern r with
  | None => Ret (d =? 0)
  | Some p => all_match is_ast_mrph (regexpmrph_match sp) (rev p) (bw_window (fun i => i) (d - 1) d)
  end.

(** The first rule that matches.  [pref_mrph] starts anew when the words before match, and stays after a rule
    that does not match in the end. *)
Fixpoint find_homo_rule (rules : list HomoRule) (homo_num pref : Z) : res (option HomoRule * Z) :=
  match rules with
  | [] => Ret (None, pref)
  | r :: rules' =>
      match hr_pattern r with
      | None => Err NullDeref
      | Some ps =>
          if HOMO_MRPH_MAX <? Z.of_nat (List.length ps) then Err (ExitErr 1)
          else
            before <- before_matches r ;;
            if negb before then find_homo_rule rules' homo_num pref
            else
              ' (each, pref, matched) <- match_readings ps (zrange 0 homo_num) 0 (map (fun _ => false) ps) ;;
              if each && forallb id matched then Ret (Some r, pref) else find_homo_rule rules' homo_num pref
      end
  end.
End Disambiguation.

(** The readings other than the preferred one, as alternatives and features of it; is the base form ambiguous? *)
Definition keep_reading (d pref i : Z) (st : bool * rule_state) : res (bool * rule_state) :=
  let '(amb, ru) := st in
  if i =? pref then Ret st
  else
    let sp := ru_sp ru in
    let p := mrph_data sp (d + pref) in
    let m := mrph_data sp (d + i) in
    n <- get_mrph_rep_length (get_mrph_rep p) ;;
    n2 <- get_mrph_rep_length (get_mrph_rep m) ;;
    let differs :=
      (0 <? n) && (negb (n =? n2) ||
        match get_mrph_rep p, get_mrph_rep m with
        | Some s1, Some s2 => negb (str_eq (stake (Z.to_nat n) s1) (stake (Z.to_nat n) s2))
        | _, _ => true
        end) in
    let '(f, buf) := assign_feature_alt_mrph (m_f p) m (ru_buf ru) in
    let '(f, buf) := selected_imi2feature (m_Imi m) f buf in
    Ret (amb || differs, with_buffer (upd_mrph (d + pref) (set_m_f f) sp) buf ru).

Definition mark_class (d pref i : Z) (ru : rule_state) : res rule_state :=
  let m := mrph_data (ru_sp ru) (d + i) in
  match Class_id (m_Hinshi m) (m_Bunrui m) with
  | None => Err NullDeref
  | Some id =>
      let fname := ("品曖-" ++ id)%string in
      if SMALL_DATA_LEN2 <=? slen fname then Err OutOfBounds else Ret (assign_unit (PM (d + pref)) fname false ru)
  end.

(** The preferred reading replaces the first one, but for its number. *)
Definition take_reading (d pref : Z) (sp : SENTENCE_DATA) : SENTENCE_DATA :=
  let p := mrph_data sp (d + pref) in
  let m := mrph_data sp d in
  let m := set_m_Goi2 (m_Goi2 p) (set_m_Yomi (m_Yomi p) (set_m_Goi (m_Goi p) m)) in
  let m := set_m_Katuyou_Kei (m_Katuyou_Kei p) (set_m_Katuyou_Kata (m_Katuyou_Kata p)
             (set_m_Bunrui (m_Bunrui p) (set_m_Hinshi (m_Hinshi p) m))) in
  let m := set_m_f (m_f p) (set_m_Imi (m_Imi p) m) in
  upd_mrph (d + pref) (set_m_f []) (upd_mrph d (fun _ => m) sp).

(** [parsed]: is the input parsed, so far as it has been read? *)
Definition lexical_disambiguation (parsed : bool) (rules : list HomoRule) (d homo_num : Z) (ru : rule_state) : res rule_state :=
  if d <? 0 then Err OutOfBounds
  else
    let homo_num := Z.min homo_num HOMO_MAX in
    if homo_num <=? 1 then Ret ru
    else
      ' (rule, pref) <- find_homo_rule (ru_sp ru) d rules homo_num 0 ;;
      let ru := assign_unit (PM (d + pref)) "品曖" false ru in
      ru <- match rule with
            | Some r => assign_feature (E := with_parsed parsed E) (PM (d + pref)) (PM d) 0 1 false (hr_f r) ru
            | None => Ret ru
            end ;;
      ' (amb, ru) <- (if has_feature (m_f (mrph_data (ru_sp ru) (d + pref))) "品曖" then
                        ' (amb, ru) <- fold_res (keep_reading d pref) (zrange 0 homo_num) (false, ru) ;;
                        ru <- fold_res (mark_class d pref) (zrange 0 homo_num) ru ;;
                        Ret (amb, ru)
                      else Ret (false, ru)) ;;
      let ru := if amb then assign_unit (PM (d + pref)) "原形曖昧" false ru else ru in
      Ret (if pref =? 0 then ru else with_sentence (take_reading d pref (ru_sp ru)) ru).

(** ** The lines of a sentence *)
Context (HomoRuleArray : list HomoRule) (server_mode : bool) (OptIgnoreChar : option ascii) (OptReadFeature : bool).

(** What a line leads to: the next line, or the value that [read_mrph] returns. *)
Inductive line_result : Type :=
| NextLine (st : read_state)
| Returns (flag : Z) (st : read_state).

(** [return readtoeos(fp);] *)
Definition skip_sentence (st : read_state) : res line_result :=
  ' (r, flag) <- readtoeos (S (String.length (rd_input st))) (rd_input st) ;; Ret (Returns flag (with_input r st)).

Definition chop (line : string) : string := stake (String.length line - 1) line.

(** A line of comment: the name of the sentence and the text. *)
Definition comment_line (line : string) (st : read_state) : res line_result :=
  ' (_, (id, text)) <- sscanf [ConvS (slen line + 2) (fun v s => (Some v, snd s)); ConvLine (fun v s => (fst s, v))]
                         (sdrop 1 (chop line)) 0 (None, EmptyString) ;;
  match id with
  | None => Err BadPointer
  | Some id =>
      let st := put_sp (set_Comment (Some text) (set_KNPSID id (rd_sp st))) st in
      let name := skip "S-ID:" id in
      Ret (NextLine
        (if starts_with "S-ID:" id && (slen id <? SMALL_DATA_LEN2) then
           match before_last "-" name with Some article => with_article article st | None => st end
         else st))
  end.

(** The head, the type and the features in a line of a bunsetsu or basic phrase. *)
Record unit_items : Type := mkUI { ui_head : option Z; ui_type : option Z; ui_rest : string }.
Definition scan_unit (line : string) : res (Z * unit_items) :=
  sscanf [ConvD (fun v u => mkUI (Some v) (ui_type u) (ui_rest u)); ConvC (fun v u => mkUI (ui_head u) (Some (byte_of v)) (ui_rest u));
          ConvLine (fun v u => mkUI (ui_head u) (ui_type u) v)] (sdrop 1 line) 0 (mkUI None None EmptyString).

(** [OptInput] after the line; [None]: it is not well-formed. *)
Definition input_kind (items OptInput : Z) : option Z :=
  if (items =? 2) || (items =? 3) then Some (Z.lor OptInput OPT_INPUT_PARSED)
  else if items =? EOF then Some (Z.lor OptInput OPT_INPUT_CHUNKED)
  else None.

Definition all_zero {A} (zero : A) (n : Z) (a : array A) : array A := fun i => if within 0 i n then zero else a i.

Definition bnst_line (line : string) (st : read_state) : res line_result :=
  ' (items, u) <- scan_unit line ;;
  match input_kind items (OptInput (rd_tree st)) with
  | None => skip_sentence (with_tree (set_OptInput OPT_INPUT_RAW (rd_tree st)) st)
  | Some kind =>
      let sp := rd_sp st in
      let t := set_OptInput kind (rd_tree st) in
      let '(sp, t) :=
        if Mrph_num sp =? 0 then
          (set_Tag_num 0 (set_Bnst_num 0 sp),
           mkGT (OptInput t) (all_zero 0 MRPH_MAX (Bnst_start t)) (all_zero 0 MRPH_MAX (Tag_start t)) (gt_head t) (gt_type t)
             (Tag_dpnd t) (Tag_type t)
             (if OptReadFeature then all_zero [] BNST_MAX (Input_bnst_feature t) else Input_bnst_feature t)
             (if OptReadFeature then all_zero [] TAG_MAX (Input_tag_feature t) else Input_tag_feature t))
        else (sp, t) in
      let k := Bnst_num sp in
      let start := Mrph_num sp - rd_homo_num st in
      if negb (within 0 k BNST_MAX && within 0 start MRPH_MAX) then Err OutOfBounds
      else
        let '(f, buf) := if (items =? 3) && OptReadFeature then feature_string2f (ui_rest u) (Input_bnst_feature t k) (ru_buf (rd_ru st))
                         else (Input_bnst_feature t k, ru_buf (rd_ru st)) in
        let t := mkGT (OptInput t) (aset (Bnst_start t) start 1) (Tag_start t) (aset (gt_head t) k (ui_head u))
                   (aset (gt_type t) k (ui_type u)) (Tag_dpnd t) (Tag_type t) (aset (Input_bnst_feature t) k f) (Input_tag_feature t) in
        Ret (NextLine (with_tree t (with_rules (with_buffer (set_Bnst_num (k + 1) sp) buf (rd_ru st)) st)))
  end.

Definition tag_line (line : string) (st : read_state) : res line_result :=
  let t := rd_tree st in
  if OptInput t =? OPT_INPUT_RAW then skip_sentence st
  else
    let sp := rd_sp st in
    let k := Tag_num sp in
    ' (items, u) <- scan_unit line ;;
    if negb (within 0 k TAG_MAX) && match ui_head u with Some _ => true | None => false end then Err OutOfBounds
    else
      let put a v := match v with Some v => aset a k v | None => a end in
      let t := mkGT (OptInput t) (Bnst_start t) (Tag_start t) (gt_head t) (gt_type t) (put (Tag_dpnd t) (ui_head u))
                 (put (Tag_type t) (ui_type u)) (Input_bnst_feature t) (Input_tag_feature t) in
      match input_kind items (OptInput t) with
      | None => skip_sentence (with_tree (set_OptInput OPT_INPUT_RAW t) st)
      | Some kind =>
          let start := Mrph_num sp - rd_homo_num st in
          if negb (within 0 start MRPH_MAX) then Err OutOfBounds
          else
            let '(f, buf) := if (items =? 3) && OptReadFeature then feature_string2f (ui_rest u) (Input_tag_feature t k) (ru_buf (rd_ru st))
                             else (Input_tag_feature t k, ru_buf (rd_ru st)) in
            let t := mkGT kind (Bnst_start t) (aset (Tag_start t) start 1) (gt_head t) (gt_type t)
                       (Tag_dpnd t) (Tag_type t) (Input_bnst_feature t) (aset (Input_tag_feature t) k f) in
            Ret (NextLine (with_tree t (with_rules (with_buffer (set_Tag_num (k + 1) sp) buf (rd_ru st)) st)))
      end.

Definition input_parsed (t : given_tree) : bool := negb (Z.land (OptInput t) OPT_INPUT_PARSED =? 0).

(** The readings of the last morpheme become one. *)
Definition end_homographs (st : read_state) : res read_state :=
  let h := rd_homo_num st in
  ru <- lexical_disambiguation (input_parsed (rd_tree st)) HomoRuleArray (Mrph_num (rd_sp st) - h - 1) (h + 1) (rd_ru st) ;;
  let n := Mrph_num (ru_sp ru) - h in
  let sp := set_Mrph_num n (ru_sp ru) in
  let sp := for_up n (n + h) (fun i sp => upd_mrph i (set_m_f []) sp) sp in
  Ret (with_homo 0 (with_rules (with_sentence sp ru) st)).

(** The last morpheme, which had one reading. *)
Definition canonize_last (st : read_state) : read_state :=
  let ru := rd_ru st in
  let i := Mrph_num (ru_sp ru) - 1 in
  let '(m, buf) := rn2canonical_rn (mrph_data (ru_sp ru) i) (ru_buf ru) in
  with_rules (with_buffer (upd_mrph i (fun _ => m) (ru_sp ru)) buf ru) st.

Definition eos_found (st : read_state) : res line_result :=
  let sp := rd_sp st in
  if Mrph_num sp =? 0 then Ret (Returns 0 st)
  else
    let t := rd_tree st in
    let parsed := input_parsed t in
    let st := if parsed && (Tag_num sp =? 0) then with_tree (set_OptInput (Z.lor (OptInput t) OPT_INPUT_BNST) t) st else st in
    st <- (if negb (rd_homo_num st =? 0) then end_homographs st
           else Ret (if 0 <? Mrph_num sp then canonize_last st else st)) ;;
    let sp := rd_sp st in
    Ret (Returns 1 (if str_eq (KNPSID sp) EmptyString then put_sp (set_KNPSID ("S-ID:" ++ itoa (total_sen_num st)) sp) st else st)).

(** *** A morpheme *)
Record word_items : Type := mkWI { wi_m : MRPH_DATA; wi_names : word_names; wi_rest : string }.

Definition word_conversions : list (conversion word_items) :=
  let put_m f := fun w => mkWI (f (wi_m w)) (wi_names w) (wi_rest w) in
  let put_n f := fun w => mkWI (wi_m w) (f (wi_names w)) (wi_rest w) in
  [ConvS (WORD_LEN_MAX + 1) (fun v => put_m (set_m_Goi2 v));
   ConvS (WORD_LEN_MAX + 1) (fun v => put_m (set_m_Yomi v));
   ConvS (WORD_LEN_MAX + 1) (fun v => put_m (set_m_Goi v));
   ConvS DATA_LEN (fun v => put_n (fun n => mkWN (Some v) (wn_bunrui n) (wn_kata n) (wn_kei n)));
   ConvD (fun v => put_m (set_m_Hinshi v));
   ConvS DATA_LEN (fun v => put_n (fun n => mkWN (wn_hinshi n) (Some v) (wn_kata n) (wn_kei n)));
   ConvD (fun v => put_m (set_m_Bunrui v));
   ConvS DATA_LEN (fun v => put_n (fun n => mkWN (wn_hinshi n) (wn_bunrui n) (Some v) (wn_kei n)));
   ConvD (fun v => put_m (set_m_Katuyou_Kata v));
   ConvS DATA_LEN (fun v => put_n (fun n => mkWN (wn_hinshi n) (wn_bunrui n) (wn_kata n) (Some v)));
   ConvD (fun v => put_m (set_m_Katuyou_Kei v));
   ConvLine (fun v w => mkWI (wi_m w) (wi_names w) v)].

Definition name_of (s : option string) : res string := match s with Some s => Ret s | None => Err BadPointer end.

(** The numbers by the names, for parsed input. *)
Definition ids_of_names (n : word_names) (m : MRPH_DATA) : res MRPH_DATA :=
  h <- name_of (wn_hinshi n) ;; hinshi <- get_hinsi_id h ;;
  b <- name_of (wn_bunrui n) ;; bunrui <- get_bunrui_id b hinshi ;;
  ka <- name_of (wn_kata n) ;; kata <- get_type_id ka ;;
  ke <- name_of (wn_kei n) ;; kei <- get_form_id ke kata ;;
  Ret (set_m_Katuyou_Kei kei (set_m_Katuyou_Kata kata (set_m_Bunrui bunrui (set_m_Hinshi hinshi m)))).

Definition is_reading (line : string) : bool :=
  (byte_at line 0 =? 64) && (byte_at line 1 =? 32) && negb (byte_at line 2 =? 64).

(** The line at the place behind the morphemes; the number of items. *)
Definition scan_word (line : string) (st : read_state) : res (Z * word_items * read_state) :=
  let sp := rd_sp st in
  let n := Mrph_num sp in
  ' (items, w) <- sscanf word_conversions (if is_reading line then sdrop 2 line else line) 0
                    (mkWI (mrph_data sp n) (rd_names st) EmptyString) ;;
  let m := set_m_num n (wi_m w) in
  m <- (if negb (Z.land (OptInput (rd_tree st)) OPT_INPUT_PARSED =? 0) then ids_of_names (wi_names w) m else Ret m) ;;
  Ret (items, mkWI m (wi_names w) (wi_rest w),
       with_names (wi_names w) (put_sp (upd_mrph n (fun _ => m) sp) st)).

Definition store_word (reading : bool) (imi text : string) (st : read_state) : read_state :=
  let sp := rd_sp st in
  let n := Mrph_num sp in
  let m := set_m_Imi imi (mrph_data sp n) in
  let '(f, buf) := imi2feature text (m_f m) (ru_buf (rd_ru st)) in
  let sp := set_Mrph_num (n + 1) (upd_mrph n (fun _ => set_m_f f m) sp) in
  with_homo (if reading then rd_homo_num st + 1 else rd_homo_num st) (with_rules (with_buffer sp buf (rd_ru st)) st).

Definition word_line (line : string) (st : read_state) : res line_result :=
  let reading := is_reading line in
  st <- (if negb reading && negb (rd_homo_num st =? 0) then end_homographs st
         else Ret (if 0 <? Mrph_num (rd_sp st) then canonize_last st else st)) ;;
  if MRPH_MAX <=? Mrph_num (rd_sp st) then skip_sentence st
  else
    ' (items, w, st) <- scan_word line st ;;
    if items =? 12 then
      h <- name_of (wn_hinshi (wi_names w)) ;;
      ' (imi, text) <- read_imi h (wi_rest w) (wi_m w) ;;
      Ret (NextLine (store_word reading imi text st))
    else if items =? 11 then Ret (NextLine (store_word reading "NIL" EmptyString st))
    else skip_sentence st.

(** [OptIgnoreChar] is a signed char. *)
Definition ignored (c : Z) : bool :=
  match OptIgnoreChar with Some a => (c =? byte_of a) && (byte_of a <? 128) | None => false end.

Definition read_line (st : read_state) : res line_result :=
  match read_mrph_file server_mode (rd_input st) with
  | (None, r) => Ret (Returns EOF (with_input r st))
  | (Some (line, full), r) =>
      let st := with_input r st in
      let c := byte_at line 0 in
      if full then let '(r, flag) := readtonl r in Ret (Returns flag (with_input r st))
      else if negb (byte_at line (String.length line - 1) =? 10) then Ret (Returns 0 st)
      else if ignored c then Ret (NextLine (with_out (rd_out st ++ line)%string st))
      else if c =? chr "#" then comment_line line st
      else if c =? chr "*" then bnst_line line st
      else if c =? chr "+" then tag_line line st
      else if str_eq line eos_line then eos_found st
      else word_line line st
  end.

Fixpoint read_lines (fuel : nat) (st : read_state) : res (Z * read_state) :=
  match fuel with
  | O => Err OutOfFuel
  | S f =>
      r <- read_line st ;;
      match r with
      | NextLine st => read_lines f st
      | Returns flag st => Ret (flag, st)
      end
  end.

(** The state at the first line: the names of the last sentence are gone. *)
Definition start_reading (st : read_state) : read_state :=
  mkRD (rd_input st) (mkRU (set_Mrph_num 0 (rd_sp st)) (ru_buf (rd_ru st)) EmptyString (ru_match (rd_ru st)))
    0 (mkWN None None None None) (rd_tree st) (ArticleID st) (preArticleID st) (total_sen_num st + 1) None (rd_out st).

(** 1: a sentence was read, 0: an empty or bad one, [EOF]: the input has ended. *)
Definition read_mrph (st : read_state) : res (Z * read_state) :=
  read_lines (S (String.length (rd_input st))) (start_reading st).
End ReadMrph.

(** ** The printer (lib_print.c)

    [print_mrph] and [print_mrphs_only], with the line EOS of [print_eos]. *)
Section PrintMrph.
Context `{G : Grammar} (CLASS_num OptDisplay OptExpress : Z).

Definition printed_name (name : option string) (id : Z) : res string :=
  if id =? 0 then Ret "*" else match name with Some s => Ret s | None => Err NullDeref end.

Definition print_mrph (m : MRPH_DATA) : res string :=
  if CLASS_num <=? m_Hinshi m then Err (ExitErr 1)
  else
    hinshi <- match Class_id (m_Hinshi m) 0 with Some s => Ret s | None => Err NullDeref end ;;
    bunrui <- printed_name (Class_id (m_Hinshi m) (m_Bunrui m)) (m_Bunrui m) ;;
    kata <- printed_name (Type_name (m_Katuyou_Kata m)) (m_Katuyou_Kata m) ;;
    kei <- printed_name (Form_name (m_Katuyou_Kata m) (m_Katuyou_Kei m)) (m_Katuyou_Kei m) ;;
    Ret (join " " [m_Goi2 m; m_Yomi m; m_Goi m; hinshi; itoa (m_Hinshi m); bunrui; itoa (m_Bunrui m);
                   kata; itoa (m_Katuyou_Kata m); kei; itoa (m_Katuyou_Kei m); m_Imi m]).

(** The lines, without their newlines. *)
Definition print_line (m : MRPH_DATA) : res string :=
  s <- print_mrph m ;;
  Ret match m_f m with [] => s | f => (s ++ " " ++ print_feature OptDisplay OptExpress f)%string end.

Fixpoint print_lines (ms : list MRPH_DATA) : res (list string) :=
  match ms with
  | [] => Ret []
  | m :: ms' => l <- print_line m ;; ls <- print_lines ms' ;; Ret (l :: ls)
  end.

(** Lines, the line EOS and more text. *)
Fixpoint lines_text (ls : list string) (rest : string) : string :=
  match ls with
  | [] => (eos_line ++ rest)%string
  | l :: ls' => (l ++ String newline (lines_text ls' rest))%string
  end.

Definition print_mrphs_only (sp : SENTENCE_DATA) : res string :=
  ls <- print_lines (map (mrph_data sp) (zrange 0 (Mrph_num sp))) ;; Ret (lines_text ls EmptyString).
End PrintMrph.
