(* ===== verification/ReadLaws.v ===== *)
(** * What the reader of morphemes promises

    [read_mrph] of ReadMrph.v reads one sentence: it ends, it leaves the input
    at the line behind EOS even when the sentence is bad, it numbers the
    morphemes, and it reads back what [print_mrphs_only] printed. *)
From Stdlib Require Import ZArith List Bool String Ascii Lia.
Import ListNotations.
From S2P Require Import Prelude CStr Feature Sentence SemCode CheckFunction Regexp PredCase ChangeMrph Rules RuleLoops RuleFile ReadMrph.
Open Scope string_scope.
Open Scope Z_scope.

(** ** Lines *)

(** A line that fits into the buffer with its newline and a byte to spare. *)
Definition short_line (l : string) : bool := str_free newline l && (slen l + 1 <? DATA_LEN - 1).
Definition plain_line (l : string) : bool := short_line l && negb (str_eq l "EOS").

Lemma str_free_app : forall c a b, str_free c (a ++ b) = str_free c a && str_free c b.
Proof. induction a as [|x a IH]; intros b; cbn [append str_free]; [reflexivity|]. now rewrite IH, andb_assoc. Qed.

Lemma take_line_short : forall l r n, str_free newline l = true -> slen l + 1 <= Z.of_nat n ->
  take_line n (l ++ String newline r) = (l ++ String newline EmptyString, r)%string.
Proof.
  induction l as [|c l IH]; intros r n HF HL; destruct n as [|n]; cbn [append take_line str_free] in *;
    try (unfold slen in HL; cbn [String.length] in HL; lia).
  - now rewrite Ascii.eqb_refl.
  - apply andb_true_iff in HF as [HC HF]. apply negb_true_iff in HC. rewrite HC, IH; auto.
    unfold slen in *. cbn [String.length] in HL. lia.
Qed.

Lemma fgets_short : forall l r, short_line l = true -> fgets (l ++ String newline r) = Some (l ++ String newline EmptyString, r)%string.
Proof.
  intros l r H. unfold short_line in H. apply andb_true_iff in H as [HF HL]. apply Z.ltb_lt in HL. unfold fgets.
  rewrite take_line_short; [destruct l; reflexivity | exact HF | unfold DATA_LEN in *; lia].
Qed.

Lemma take_line_length : forall n s, (String.length (snd (take_line n s)) <= String.length s)%nat.
Proof.
  induction n as [|n IH]; intros [|c s]; cbn; try lia. destruct (Ascii.eqb c newline); cbn; [lia|].
  destruct (take_line n s) as [l r] eqn:E. specialize (IH s). rewrite E in IH. cbn in *. lia.
Qed.

(** A line takes something from the input. *)
Lemma fgets_length : forall s l r, fgets s = Some (l, r) -> (String.length r < String.length s)%nat.
Proof.
  intros [|c s] l r H; [discriminate|].
  assert (HT : take_line (S (Z.to_nat (DATA_LEN - 2))) (String c s) = (l, r)) by (injection H; auto).
  cbn [take_line] in HT. pose proof (take_line_length (Z.to_nat (DATA_LEN - 2)) s) as HL.
  destruct (Ascii.eqb c newline); [injection HT as <- <-; cbn; lia|].
  destruct (take_line (Z.to_nat (DATA_LEN - 2)) s) as [l' r']. injection HT as <- <-. cbn in *. lia.
Qed.

Lemma snoc_newline : forall l, byte_at (l ++ String newline EmptyString) (String.length (l ++ String newline EmptyString) - 1) = 10.
Proof.
  intros l. rewrite length_sapp. cbn [String.length]. unfold byte_at.
  replace (String.length l + 1 - 1)%nat with (String.length l) by lia. now rewrite sdrop_app.
Qed.

Lemma snoc_inj : forall a b c, (a ++ String c EmptyString = b ++ String c EmptyString)%string -> a = b.
Proof.
  induction a as [|x a IH]; intros [|y b] c H; cbn [append] in H; try reflexivity; injection H as HX H.
  - destruct b; discriminate H.
  - destruct a; discriminate H.
  - f_equal; [exact HX | now apply (IH b c)].
Qed.

Lemma str_eq_snoc : forall a b c, str_eq (a ++ String c EmptyString) (b ++ String c EmptyString) = str_eq a b.
Proof.
  intros a b c. destruct (str_eq_spec a b) as [->|HN]; [apply str_eq_refl|].
  destruct (str_eq_spec (a ++ String c EmptyString) (b ++ String c EmptyString)) as [H|]; [|reflexivity].
  now apply snoc_inj in H.
Qed.

Lemma readtoeos_fuel : forall f s, (String.length s < f)%nat -> no_fuel (readtoeos f s).
Proof.
  induction f as [|f IH]; intros s HF; [lia|]. cbn [readtoeos]. destruct (fgets s) as [[l r]|] eqn:E; [|no_fuel].
  destruct (str_eq l eos_line); [no_fuel|]. apply IH. apply fgets_length in E. lia.
Qed.

(** Skipping a sentence leaves what follows its line EOS. *)
Lemma readtoeos_plain : forall ls rest f, forallb plain_line ls = true -> (String.length (lines_text ls rest) < f)%nat ->
  readtoeos f (lines_text ls rest) = Ret (rest, 0).
Proof.
  induction ls as [|l ls IH]; intros rest [|f] HP HF; try lia; cbn [lines_text readtoeos].
  - change (eos_line ++ rest)%string with ("EOS" ++ String newline rest)%string. now rewrite fgets_short.
  - cbn [forallb] in HP. apply andb_true_iff in HP as [HL HP]. unfold plain_line in HL. apply andb_true_iff in HL as [HL HE].
    rewrite fgets_short by exact HL. unfold eos_line. rewrite str_eq_snoc. apply negb_true_iff in HE. rewrite HE.
    apply IH; [exact HP|]. cbn [lines_text] in HF. rewrite length_sapp in HF. cbn [String.length] in HF. lia.
Qed.

(** ** Where a line leads *)
Section Lines.
Context `{E : RuleEnv} `{FM : FeatureMatch} {TE : MrphTestsEnd}.
Context (HomoRuleArray : list HomoRule) (server_mode : bool) (OptIgnoreChar : option ascii) (OptReadFeature : bool).

(** A line that is not EOS leads to the next line, with the input [s], or the rest of the sentence is skipped. *)
Definition continues (s : string) (r : res line_result) : Prop :=
  match r with
  | Ret (NextLine st) => rd_input st = s
  | Ret (Returns flag st) => readtoeos (S (String.length s)) s = Ret (rd_input st, flag)
  | Err e => e <> OutOfFuel
  end.

Lemma continues_bind : forall {A} s (c : res A) (k : A -> res line_result), no_fuel c ->
  (forall a, c = Ret a -> continues s (k a)) -> continues s (match c with Ret a => k a | Err e => Err e end).
Proof.
  intros A s [a|e] k HC HK; [now apply HK|]. cbn. intros ->. now apply HC.
Qed.

Lemma skip_continues : forall st s, rd_input st = s -> continues s (skip_sentence st).
Proof.
  intros st s <-. unfold skip_sentence, continues.
  pose proof (readtoeos_fuel (S (String.length (rd_input st))) (rd_input st) ltac:(lia)) as HF.
  destruct (readtoeos (S (String.length (rd_input st))) (rd_input st)) as [[r f]|e]; [reflexivity|]. intros ->. now apply HF.
Qed.

Lemma sscanf_fuel : forall {S} (cs : list (conversion S)) s n st, no_fuel (sscanf cs s n st).
Proof.
  induction cs as [|c cs IH]; intros s n st; cbn [sscanf]; [no_fuel|]. apply no_fuel_bind; [unfold convert; no_fuel|].
  intros [st' s'| |]; [apply IH | no_fuel | no_fuel].
Qed.

#[local] Hint Resolve class_is_fuel mrph_ref_fuel check_unit_fuel as_mrph_fuel form_id_fuel rep_length_fuel in_imi_fuel
  mrph_rn_fuel assign_feature_fuel regexpmrph_fuel sscanf_fuel : no_fuel.

Lemma claim_fuel : forall sp d ps matched j k, no_fuel (claim_pattern sp d ps matched j k).
Proof. induction ps as [|p ps IH]; intros [|b bs] j k; cbn [claim_pattern]; no_fuel. Qed.
#[local] Hint Resolve claim_fuel : no_fuel.

Lemma readings_fuel : forall sp d ps js pref matched, no_fuel (match_readings sp d ps js pref matched).
Proof. induction js as [|j js IH]; intros; cbn [match_readings]; no_fuel. Qed.
#[local] Hint Resolve readings_fuel : no_fuel.

Lemma before_fuel : forall sp d r, no_fuel (before_matches sp d r).
Proof. intros. unfold before_matches. destruct (hr_pre_pattern r); [|no_fuel]. apply all_match_fuel. auto with no_fuel. Qed.
#[local] Hint Resolve before_fuel : no_fuel.

Lemma find_rule_fuel : forall sp d rules n pref, no_fuel (find_homo_rule sp d rules n pref).
Proof. induction rules as [|r rules IH]; intros; cbn [find_homo_rule]; no_fuel. Qed.
#[local] Hint Resolve find_rule_fuel : no_fuel.

Lemma disambiguation_fuel : forall parsed rules d n ru, no_fuel (lexical_disambiguation parsed rules d n ru).
Proof. intros. unfold lexical_disambiguation, keep_reading, mark_class. no_fuel. Qed.
#[local] Hint Resolve disambiguation_fuel : no_fuel.

Lemma homographs_fuel : forall st, no_fuel (end_homographs HomoRuleArray st).
Proof. intros. unfold end_homographs. no_fuel. Qed.
#[local] Hint Resolve homographs_fuel : no_fuel.

Lemma scan_word_fuel : forall line st, no_fuel (scan_word line st).
Proof.
  intros. unfold scan_word, ids_of_names, name_of, get_hinsi_id, get_bunrui_id, get_type_id. no_fuel.
Qed.
#[local] Hint Resolve scan_word_fuel : no_fuel.

Lemma homographs_input : forall st st', end_homographs HomoRuleArray st = Ret st' -> rd_input st' = rd_input st.
Proof.
  intros st st' H. unfold end_homographs in H. destruct (lexical_disambiguation _ _ _ _ _); [|discriminate].
  injection H as <-. reflexivity.
Qed.

Lemma canonize_input : forall st, rd_input (canonize_last st) = rd_input st.
Proof. intros st. unfold canonize_last. now destruct (rn2canonical_rn _ _). Qed.

Lemma scan_word_input : forall line st items w st', scan_word line st = Ret (items, w, st') -> rd_input st' = rd_input st.
Proof.
  intros line st items w st' H. unfold scan_word in H. destruct (sscanf _ _ _ _) as [[n v]|]; [|discriminate].
  cbv zeta in H. match type of H with match ?c with _ => _ end = _ => destruct c end; [|discriminate].
  now injection H as _ _ <-.
Qed.

Lemma store_word_input : forall reading imi text st, rd_input (store_word reading imi text st) = rd_input st.
Proof. intros. unfold store_word. now destruct (imi2feature _ _ _). Qed.

(** Goals [continues s r] by the structure of [r]. *)
Ltac continues :=
  repeat first
    [ progress (intros; cbv zeta)
    | apply skip_continues; reflexivity
    | match goal with
      | |- continues _ (Err _) => let H := fresh in intros H; discriminate H
      | |- continues _ (Ret (NextLine _)) => reflexivity
      | |- continues _ (match ?c with Ret a => _ | Err e => Err e end) => apply continues_bind; [solve [auto with no_fuel]|]
      | |- continues _ (if ?b then _ else _) => destruct b
      | |- continues _ (match ?x with _ => _ end) => destruct x
      | |- continues _ (let '(_, _) := ?x in _) => destruct x
      end ].

Lemma comment_continues : forall line st, continues (rd_input st) (comment_line line st).
Proof.
  intros. unfold comment_line. apply continues_bind; [auto with no_fuel|]. intros [n [id text]] _.
  destruct id as [id|]; [|discriminate]. cbv zeta. unfold continues.
  repeat match goal with |- context [if ?b then _ else _] => destruct b end; [|reflexivity].
  destruct (before_last _ _); reflexivity.
Qed.

Lemma bnst_continues : forall line st, continues (rd_input st) (bnst_line OptReadFeature line st).
Proof. intros. unfold bnst_line, scan_unit. continues. Qed.

Lemma tag_continues : forall line st, continues (rd_input st) (tag_line OptReadFeature line st).
Proof. intros. unfold tag_line, scan_unit. continues. Qed.

Lemma imi_fuel : forall hinshi rest m, no_fuel (read_imi hinshi rest m).
Proof. intros. unfold read_imi, add_rep. no_fuel. Qed.
#[local] Hint Resolve imi_fuel : no_fuel.

Lemma word_continues : forall line st, continues (rd_input st) (word_line HomoRuleArray line st).
Proof.
  intros line st. unfold word_line. cbv zeta. apply continues_bind.
  { destruct (negb (is_reading line) && negb (rd_homo_num st =? 0)); [auto with no_fuel | no_fuel]. }
  intros st1 E1. assert (HI : rd_input st1 = rd_input st).
  { case_hyp E1; [now apply homographs_input|]. injection E1 as <-. case_goal; [apply canonize_input | reflexivity]. }
  case_goal; [now apply skip_continues|]. apply continues_bind; [auto with no_fuel|]. intros [[items w] st2] E2.
  apply scan_word_input in E2. rewrite HI in E2.
  case_goal; [|case_goal; [cbn; now rewrite store_word_input | now apply skip_continues]].
  apply continues_bind; [unfold name_of; no_fuel|]. intros h _. apply continues_bind; [auto with no_fuel|].
  intros [imi text] _. cbn. now rewrite store_word_input.
Qed.

(** At the line EOS the sentence ends. *)
Definition ends (s : string) (r : res line_result) : Prop :=
  match r with
  | Ret (NextLine _) => False
  | Ret (Returns flag st) => (flag = 0 \/ flag = 1) /\ rd_input st = s
  | Err e => e <> OutOfFuel
  end.

Lemma eos_ends : forall st, ends (rd_input st) (eos_found HomoRuleArray st).
Proof.
  intros st. unfold eos_found. case_goal; [cbn; auto|]. cbv zeta.
  match goal with |- context [Ret (if _ then canonize_last ?s else _)] => set (st1 := s) end.
  assert (H1 : rd_input st1 = rd_input st) by (unfold st1; case_goal; reflexivity). clearbody st1.
  assert (HC : forall c : res read_state, no_fuel c -> (forall st2, c = Ret st2 -> rd_input st2 = rd_input st) ->
    ends (rd_input st) (match c with
      | Ret st2 => let sp := rd_sp st2 in
                   Ret (Returns 1 (if str_eq (KNPSID sp) EmptyString
                                   then put_sp (set_KNPSID ("S-ID:" ++ itoa (total_sen_num st2)) sp) st2 else st2))
      | Err e => Err e end)).
  { intros [st2|e] HF HI; cbn; [|intros ->; now apply HF]. split; [now right|]. rewrite <- (HI st2 eq_refl). now case_goal. }
  apply HC.
  - case_goal; [auto with no_fuel | no_fuel].
  - intros st2 E2. rewrite <- H1. case_hyp E2; [now apply homographs_input|]. injection E2 as <-. case_goal; [apply canonize_input | reflexivity].
Qed.

Local Abbreviation read_one := (read_line HomoRuleArray server_mode OptIgnoreChar OptReadFeature).
Local Abbreviation read_all := (read_lines HomoRuleArray server_mode OptIgnoreChar OptReadFeature).

Lemma file_length : forall s l full r, read_mrph_file server_mode s = (Some (l, full), r) -> (String.length r < String.length s)%nat.
Proof.
  intros s l full r H. unfold read_mrph_file in H. destruct (fgets s) as [[l' r']|] eqn:EF; [|discriminate].
  apply fgets_length in EF. cbv zeta in H. destruct server_mode; [case_hyp H; [discriminate|]|]; now injection H as _ _ <-.
Qed.

(** A line takes something from the input, and reading it ends. *)
Lemma read_line_step : forall st, match read_one st with
  | Ret (NextLine st') => (String.length (rd_input st') < String.length (rd_input st))%nat
  | Ret (Returns _ _) => True
  | Err e => e <> OutOfFuel
  end.
Proof.
  intros st. unfold read_line. destruct (read_mrph_file server_mode (rd_input st)) as [[[line full]|] r] eqn:ER; [|exact I].
  apply file_length in ER. set (st1 := with_input r st).
  assert (HC : forall k, continues (rd_input st1) k -> match k with
    | Ret (NextLine st') => (String.length (rd_input st') < String.length (rd_input st))%nat
    | Ret (Returns _ _) => True | Err e => e <> OutOfFuel end).
  { intros [[st'|f st']|e] H; cbn in H; [now rewrite H | exact I | exact H]. }
  destruct full; [destruct (readtonl r); exact I|]. cbv zeta.
  case_goal; [exact I|]. case_goal; [exact ER|].
  case_goal; [apply HC, comment_continues|]. case_goal; [apply HC, bnst_continues|]. case_goal; [apply HC, tag_continues|].
  case_goal; [|apply HC, word_continues].
  pose proof (eos_ends st1) as H. destruct (eos_found HomoRuleArray st1) as [[st'|f st']|e]; [contradiction | exact I | exact H].
Qed.

Lemma read_lines_end : forall f st, (String.length (rd_input st) < f)%nat -> no_fuel (read_all f st).
Proof.
  induction f as [|f IH]; intros st HF; [lia|]. cbn [read_lines]. pose proof (read_line_step st) as H.
  destruct (read_one st) as [[st'|flag st']|e]; [apply IH; lia | no_fuel | intros HE; injection HE as ->; now apply H].
Qed.

(** A line of a sentence and the line EOS, outside the server mode. *)
Context (HS : server_mode = false) (HI : OptIgnoreChar <> Some "E"%char).

Lemma read_file_short : forall l r, short_line l = true ->
  read_mrph_file server_mode (l ++ String newline r) = (Some (l ++ String newline EmptyString, false)%string, r).
Proof.
  intros l r H. unfold read_mrph_file. rewrite fgets_short, HS by exact H. unfold short_line in H.
  apply andb_true_iff in H as [_ H]. apply Z.ltb_lt in H. rewrite slen_app.
  change (slen (String newline EmptyString)) with 1. now replace (slen l + 1 =? DATA_LEN - 1) with false by lia.
Qed.

Lemma read_line_plain : forall l X st, plain_line l = true -> rd_input st = (l ++ String newline X)%string ->
  continues X (read_one st).
Proof.
  intros l X st HP HX. unfold plain_line in HP. apply andb_true_iff in HP as [HL HE]. apply negb_true_iff in HE.
  unfold read_line. rewrite HX, read_file_short by exact HL. cbv iota zeta. rewrite snoc_newline. cbn [negb Z.eqb Pos.eqb].
  set (st1 := with_input X st). change X with (rd_input st1).
  case_goal; [reflexivity|]. case_goal; [apply comment_continues|]. case_goal; [apply bnst_continues|].
  case_goal; [apply tag_continues|]. unfold eos_line. rewrite str_eq_snoc, HE. apply word_continues.
Qed.

Lemma read_line_eos : forall X st, rd_input st = (eos_line ++ X)%string ->
  read_one st = eos_found HomoRuleArray (with_input X st).
Proof.
  intros X st HX. unfold read_line. rewrite HX. change (eos_line ++ X)%string with ("EOS" ++ String newline X)%string.
  rewrite read_file_short by reflexivity. cbv iota zeta. rewrite snoc_newline. cbn [negb Z.eqb Pos.eqb].
  replace (ignored OptIgnoreChar _) with false; [reflexivity|]. symmetry. unfold ignored. destruct OptIgnoreChar as [a|]; [|reflexivity].
  destruct (Z.eqb_spec (byte_at ("EOS" ++ String newline EmptyString) 0) (byte_of a)) as [H|]; [|reflexivity].
  exfalso. apply HI. f_equal. symmetry. apply byte_of_inj. exact H.
Qed.

Lemma read_lines_frame : forall ls rest f st, forallb plain_line ls = true -> rd_input st = lines_text ls rest ->
  (String.length (rd_input st) < f)%nat ->
  match read_all f st with
  | Ret (flag, st') => (flag = 0 \/ flag = 1) /\ rd_input st' = rest
  | Err e => e <> OutOfFuel
  end.
Proof.
  induction ls as [|l ls IH]; intros rest [|f] st HP HX HF; try lia; cbn [read_lines lines_text forallb] in *.
  - rewrite (read_line_eos rest st HX). pose proof (eos_ends (with_input rest st)) as H.
    destruct (eos_found HomoRuleArray (with_input rest st)) as [[st'|flag st']|e]; [contradiction | exact H | exact H].
  - apply andb_true_iff in HP as [HL HP]. pose proof (read_line_plain l _ st HL HX) as H.
    destruct (read_one st) as [[st'|flag st']|e]; cbn [continues] in H.
    + apply IH; [exact HP | exact H|]. rewrite H. rewrite HX, length_sapp in HF. cbn [String.length] in HF. lia.
    + rewrite readtoeos_plain in H by (auto; lia). injection H as H1 <-. now split; [left|].
    + exact H.
Qed.
End Lines.

(** C28: [read_mrph] always ends, with the tests of features of the program and in every mode.  And outside the server mode it reads
    one sentence, when the character of the comments that are passed on is not E: from an input that begins with lines that
    fit into the buffer (none of them EOS) and a line EOS, however bad the lines are, when it returns, it returns 1 or 0 and leaves the
    input right behind that line EOS, so that the next call finds the next sentence.  (Where the program would leave an array
    or stop, as at a word too long for its array, there is no result.) *)
Theorem read_mrph_frames : forall `{E : RuleEnv} (ms : match_state) rules server_mode ignore with_features st,
  let read := read_mrph (FM := knp_FeatureMatch ms) rules server_mode ignore with_features in
  read st <> Err OutOfFuel /\
  forall ls rest, server_mode = false -> ignore <> Some "E"%char -> forallb plain_line ls = true ->
    rd_input st = lines_text ls rest ->
    forall flag st', read st = Ret (flag, st') -> (flag = 0 \/ flag = 1) /\ rd_input st' = rest.
Proof.
  intros. unfold read, read_mrph. split; [apply read_lines_end; cbn; lia|].
  intros ls rest HS HI HP HX flag st' H.
  pose proof (read_lines_frame (FM := knp_FeatureMatch ms) rules server_mode ignore with_features HS HI ls rest
    (S (String.length (rd_input st))) (start_reading st) HP HX) as F.
  rewrite H in F. apply F. cbn. lia.
Qed.

(** ** The numbers of the morphemes *)
Definition same_numbers (sp sp' : SENTENCE_DATA) : Prop :=
  Mrph_num sp' = Mrph_num sp /\ forall i, m_num (mrph_data sp' i) = m_num (mrph_data sp i).

Lemma same_numbers_refl : forall sp, same_numbers sp sp.
Proof. intros. split; reflexivity. Qed.

Lemma same_numbers_trans : forall a b c, same_numbers a b -> same_numbers b c -> same_numbers a c.
Proof. intros a b c [H1 H2] [H3 H4]. split; [congruence|]. intros i. now rewrite H4. Qed.

Lemma same_numbers_upd : forall sp i u, (forall m, m_num (u m) = m_num m) -> same_numbers sp (upd_mrph i u sp).
Proof. intros sp i u H. split; [reflexivity|]. intros j. rewrite upd_mrph_at. case_goal; [|reflexivity]. rewrite H. f_equal. f_equal. lia. Qed.

Lemma same_numbers_put : forall sp i m, m_num m = m_num (mrph_data sp i) -> same_numbers sp (upd_mrph i (fun _ => m) sp).
Proof. intros sp i m H. split; [reflexivity|]. intros j. rewrite upd_mrph_at. case_goal; [|reflexivity]. rewrite H. f_equal. f_equal. lia. Qed.

(** A property of what a function returns. *)
Definition returns {A} (P : A -> Prop) (r : res A) : Prop := match r with Ret a => P a | Err _ => True end.

Lemma returns_bind : forall {A B} (Q : A -> Prop) (P : B -> Prop) (c : res A) (k : A -> res B),
  returns Q c -> (forall a, Q a -> returns P (k a)) -> returns P (match c with Ret a => k a | Err e => Err e end).
Proof. intros A B Q P [a|e] k HC HK; [apply HK; exact HC | exact I]. Qed.

Lemma returns_fold : forall {A S} (P : S -> Prop) (f : A -> S -> res S) l s, P s -> (forall a s, P s -> returns P (f a s)) ->
  returns P (fold_res f l s).
Proof.
  intros A S P f l. induction l as [|a l IH]; intros s HP HF; [exact HP|]. cbn [fold_res].
  apply (returns_bind P); [now apply HF|]. intros s' HP'. now apply IH.
Qed.

(** Goals [returns P r] by the structure of [r]. *)
Ltac returns :=
  repeat first
    [ progress (intros; cbv zeta)
    | exact I
    | match goal with
      | |- returns _ (Err _) => exact I
      | |- returns _ (if ?b then _ else _) => destruct b
      | |- returns _ (match ?x with _ => _ end) => destruct x eqn:?
      end ].

Create HintDb numbers discriminated.

Section RuleNumbers.
Context `{E : RuleEnv} `{FM : FeatureMatch}.

Lemma change_imi_num : forall m buf, returns (fun r => m_num (fst r) = m_num m) (change_one_mrph_imi m buf).
Proof. intros. unfold change_one_mrph_imi. returns; reflexivity. Qed.

Lemma change_rep_num : forall m b c buf, returns (fun r => m_num (fst r) = m_num m) (change_one_mrph_rep m b c buf).
Proof.
  intros m b c buf. unfold change_one_mrph_rep. cbv zeta. case_goal; [reflexivity|].
  destruct (split_rep (m_Imi m)) as [[[[[pre s1] s2] post]|]|]; [|reflexivity | exact I].
  destruct (in_imi ("代表表記変更:" ++ s1 ++ "/" ++ s2)) as [old|]; [|exact I].
  destruct (inflect m s1) as [n1|]; [|exact I]. destruct (inflect m s2) as [n2|]; [|exact I].
  match goal with |- context [m_f (if ?x then ?y else m)] => set (m1 := if x then y else m) end.
  assert (H1 : m_num m1 = m_num m) by (unfold m1; case_goal; reflexivity). clearbody m1. rewrite <- H1.
  returns; reflexivity.
Qed.

Lemma change_one_num : forall m cp, returns (fun r => m_num r = m_num m) (change_one_mrph m cp).
Proof. intros. unfold change_one_mrph. returns; cbn; try case_goal; reflexivity. Qed.

Lemma change_mrph_num : forall m cp buf, returns (fun r => m_num (fst r) = m_num m) (change_mrph m cp buf).
Proof.
  intros. unfold change_mrph, change_alt_mrph.
  apply (returns_bind (fun r => m_num (fst r) = m_num m)); [apply change_imi_num|]. intros [m1 b1] H1.
  apply (returns_bind (fun r => m_num (fst r) = m_num m)).
  { cbn in H1. rewrite <- H1. apply change_rep_num. }
  intros [m2 b2] H2. apply (returns_bind (fun r => m_num r = m_num m)).
  { cbn in H2. rewrite <- H2. apply change_one_num. }
  intros m3 H3. returns. exact H3.
Qed.

(** The functions of rules keep the numbers. *)
Definition keeps (st : rule_state) : res rule_state -> Prop := returns (fun st' => same_numbers (ru_sp st) (ru_sp st')).

Lemma set_unit_numbers : forall p f sp, same_numbers sp (set_unit_f p f sp).
Proof. intros [|i|i|i] f sp; try (split; reflexivity). now apply same_numbers_upd. Qed.

Lemma assign_unit_numbers : forall p fname temp st, same_numbers (ru_sp st) (ru_sp (assign_unit p fname temp st)).
Proof. intros. unfold assign_unit. destruct (assign_cfeature _ _ _ _) as [f buf]. apply set_unit_numbers. Qed.

Lemma delete_unit_numbers : forall p type st, same_numbers (ru_sp st) (ru_sp (delete_unit p type st)).
Proof. intros. apply set_unit_numbers. Qed.

Lemma upd_unit_numbers : forall p b sp, same_numbers sp (upd_unit p b sp).
Proof. intros [|i|i|i] b sp; split; reflexivity. Qed.
#[local] Hint Resolve same_numbers_refl assign_unit_numbers set_unit_numbers delete_unit_numbers upd_unit_numbers : numbers.

Lemma copy_or_delete_numbers : forall p q pat temp st, same_numbers (ru_sp st) (ru_sp (copy_or_delete p q pat temp st)).
Proof. intros. unfold copy_or_delete. case_goal; auto with numbers. Qed.

Lemma assign_if_numbers : forall p fname temp st, same_numbers (ru_sp st) (ru_sp (assign_if p fname temp st)).
Proof. intros p [fname|] temp st; cbn [assign_if]; auto with numbers. Qed.
#[local] Hint Resolve copy_or_delete_numbers assign_if_numbers : numbers.

Lemma auto_loop_numbers : forall f i a n v t st, keeps st (auto_dic_loop f i a n v t st).
Proof. unfold keeps. induction f as [|f IH]; intros; cbn [auto_dic_loop]; returns; first [apply IH | cbn [returns]; auto with numbers]. Qed.

Lemma assign_sm_numbers : forall p cp st, keeps st (assign_sm p cp st).
Proof. intros. unfold keeps, assign_sm. returns; apply same_numbers_refl || (cbn [ru_sp with_sentence]; apply upd_unit_numbers). Qed.

Lemma change_unit_numbers : forall change p offset st,
  (forall m buf, returns (fun r => m_num (fst r) = m_num m) (change m buf)) -> keeps st (change_unit change p offset st).
Proof.
  intros change p offset st HC. unfold keeps, change_unit. destruct (as_mrph p offset) as [i|]; [|exact I].
  apply (returns_bind (fun r => m_num (fst r) = m_num (mrph_data (ru_sp st) i))); [apply HC|].
  intros [m buf] HM. cbn. now apply same_numbers_put.
Qed.

Lemma make_fuzoku_numbers : forall p offset temp st, keeps st (make_fuzoku p offset temp st).
Proof.
  intros. unfold keeps, make_fuzoku. destruct (as_tag p offset); [|exact I]. cbv zeta. apply returns_fold; [apply same_numbers_refl|].
  intros i s HS. destruct (as_mrph _ _); [|exact I]. cbn [returns].
  repeat (eapply same_numbers_trans; [|solve [auto with numbers]]). exact HS.
Qed.
#[local] Hint Resolve auto_loop_numbers assign_sm_numbers change_unit_numbers make_fuzoku_numbers change_mrph_num change_rep_num : numbers.

Lemma propagate_numbers : forall text p offset temp st, keeps st (propagate text p offset temp st).
Proof.
  intros. unfold keeps, propagate. returns; cbn [returns]; auto with numbers.
  eapply same_numbers_trans; [|apply copy_or_delete_numbers]. apply copy_or_delete_numbers.
Qed.

Lemma rule_function_numbers : forall text p offset length temp st, keeps st (rule_function text p offset length temp st).
Proof.
  intros. unfold rule_function.
  repeat match goal with |- keeps _ (if ?b then _ else _) => destruct b end; auto with numbers;
    try apply propagate_numbers; try (now split).
  - unfold keeps, surface_case. cbv zeta. returns; cbn [returns ru_sp with_sentence]; auto with numbers.
  - unfold keeps, memo_add. returns; apply same_numbers_refl.
  - destruct (as_bnst _ _); [apply assign_sm_numbers | exact I].
  - unfold keeps, fukugoji_case. returns; cbn [returns]; auto with numbers.
  - unfold keeps, fukugoji_id. returns; cbn [returns]; auto with numbers.
  - unfold keeps, remembered_word. returns; cbn [returns]; auto with numbers.
  - unfold keeps, promote_feature. returns; cbn [returns]; auto with numbers.
  - unfold keeps, auto_dic, check_auto_dic. returns; cbn [returns]; auto with numbers; apply auto_loop_numbers.
Qed.

Lemma assign_feature_numbers : forall target p offset length temp fs st, keeps st (assign_feature target p offset length temp fs st).
Proof.
  intros. unfold keeps, assign_feature. destruct (check_unit target) as [q|]; [|exact I].
  apply returns_fold; [apply same_numbers_refl|]. intros text s HS.
  assert (HK : keeps s (assign_one q p offset length temp text s)).
  { unfold assign_one. destruct text as [|c r]; [apply assign_unit_numbers|].
    case_goal; [apply set_unit_numbers|]. case_goal; [apply rule_function_numbers | apply assign_unit_numbers]. }
  unfold keeps in HK. destruct (assign_one q p offset length temp text s) as [s'|]; [|exact I].
  eapply same_numbers_trans; [exact HS | exact HK].
Qed.

End RuleNumbers.

Section Numbers.
Context `{E : RuleEnv} `{FM : FeatureMatch}.
#[local] Hint Resolve same_numbers_refl assign_unit_numbers set_unit_numbers delete_unit_numbers upd_unit_numbers : numbers.

Lemma keep_reading_numbers : forall d pref i st, returns (fun r => same_numbers (ru_sp (snd st)) (ru_sp (snd r))) (keep_reading d pref i st).
Proof.
  intros d pref i [amb ru]. unfold keep_reading. returns; cbn [returns snd]; try apply same_numbers_refl; now apply same_numbers_upd.
Qed.

Lemma mark_class_numbers : forall d pref i ru, keeps ru (mark_class d pref i ru).
Proof. intros. unfold keeps, mark_class. returns; cbn [returns]. apply assign_unit_numbers. Qed.

Lemma take_reading_numbers : forall d pref sp, same_numbers sp (take_reading d pref sp).
Proof.
  intros. unfold take_reading. cbv zeta. eapply same_numbers_trans; [|now apply same_numbers_upd]. now apply same_numbers_put.
Qed.

Lemma disambiguation_numbers : forall parsed rules d n ru, keeps ru (lexical_disambiguation parsed rules d n ru).
Proof.
  intros parsed rules d n ru. unfold keeps, lexical_disambiguation. cbv zeta. case_goal; [exact I|]. case_goal; [apply same_numbers_refl|].
  destruct (find_homo_rule _ _ _ _ _) as [[rule pref]|]; [|exact I].
  set (ru1 := assign_unit (PM (d + pref)) "品曖" false ru).
  assert (H1 : same_numbers (ru_sp ru) (ru_sp ru1)) by apply assign_unit_numbers.
  apply (returns_bind (fun r => same_numbers (ru_sp ru) (ru_sp r))).
  { destruct rule as [r|]; [|exact H1]. pose proof (assign_feature_numbers (E := with_parsed parsed E) (PM (d + pref)) (PM d) 0 1 false (hr_f r) ru1) as HA.
    unfold keeps in HA. destruct (assign_feature _ _ _ _ _ _ _); [|exact I]. eapply same_numbers_trans; eauto. }
  intros ru2 H2. apply (returns_bind (fun r => same_numbers (ru_sp ru) (ru_sp (snd r)))).
  { case_goal; [|exact H2]. apply (returns_bind (fun r => same_numbers (ru_sp ru) (ru_sp (snd r)))).
    - apply returns_fold; [exact H2|]. intros i s HS. pose proof (keep_reading_numbers d pref i s) as HK.
      destruct (keep_reading d pref i s); [|exact I]. cbn in *. eapply same_numbers_trans; eauto.
    - intros [amb ru3] H3. cbn in H3. apply (returns_bind (fun r => same_numbers (ru_sp ru) (ru_sp r))); [|intros; assumption].
      apply returns_fold; [exact H3|]. intros i s HS. pose proof (mark_class_numbers d pref i s) as HK.
      unfold keeps in HK. destruct (mark_class d pref i s); [|exact I]. cbn in *. eapply same_numbers_trans; eauto. }
  intros [amb ru4] H4. cbn in H4. cbn [returns].
  assert (H5 : same_numbers (ru_sp ru) (ru_sp (if amb then assign_unit (PM (d + pref)) "原形曖昧" false ru4 else ru4))).
  { destruct amb; [|exact H4]. eapply same_numbers_trans; [exact H4 | apply assign_unit_numbers]. }
  case_goal; [exact H5|]. eapply same_numbers_trans; [exact H5 | apply take_reading_numbers].
Qed.

(** [own] morphemes, and the further readings of the last one behind it. *)
Record numbered (own : Z) (st : read_state) : Prop := {
  nm_own : 0 <= own;
  nm_homo : 0 <= rd_homo_num st;
  nm_num : Mrph_num (rd_sp st) = own + rd_homo_num st;
  nm_max : Mrph_num (rd_sp st) <= MRPH_MAX;
  nm_numbers : forall i, 0 <= i < Mrph_num (rd_sp st) -> m_num (mrph_data (rd_sp st) i) = i
}.

Lemma numbered_same : forall own st st', numbered own st -> same_numbers (rd_sp st) (rd_sp st') -> rd_homo_num st' = rd_homo_num st ->
  numbered own st'.
Proof.
  intros own st st' [H1 H2 H3 H4 H5] [HM HN] HH. split; rewrite ?HM, ?HH; auto. intros i Hi. rewrite HN. now apply H5.
Qed.

Context (HomoRuleArray : list HomoRule) (server_mode : bool) (OptIgnoreChar : option ascii) (OptReadFeature : bool).

Lemma homographs_numbered : forall own st, numbered own st ->
  returns (fun st' => numbered own st' /\ rd_homo_num st' = 0 /\ 1 <= own) (end_homographs HomoRuleArray st).
Proof.
  intros own st [H1 H2 H3 H4 H5]. unfold end_homographs. cbv zeta.
  pose proof (disambiguation_numbers (input_parsed (rd_tree st)) HomoRuleArray (Mrph_num (rd_sp st) - rd_homo_num st - 1) (rd_homo_num st + 1) (rd_ru st)) as HD.
  unfold keeps in HD. destruct (lexical_disambiguation _ _ _ _ _) as [ru|] eqn:EL; [|exact I].
  destruct HD as [HM HN]. cbn [returns]. change (ru_sp (rd_ru st)) with (rd_sp st) in *.
  assert (HO : 1 <= own).
  { unfold lexical_disambiguation in EL. destruct (Z.ltb_spec (Mrph_num (rd_sp st) - rd_homo_num st - 1) 0); [discriminate | lia]. }
  match goal with |- context [for_up ?a ?b ?f ?s] => set (sp2 := for_up a b f s) end.
  assert (HS : same_numbers (set_Mrph_num own (ru_sp ru)) sp2).
  { unfold sp2. replace (Mrph_num (ru_sp ru) - rd_homo_num st) with own by lia.
    apply (for_up_inv (fun _ s => same_numbers (set_Mrph_num own (ru_sp ru)) s)); [lia | apply same_numbers_refl|].
    intros i s _ HS. eapply same_numbers_trans; [exact HS | now apply same_numbers_upd]. }
  clearbody sp2. destruct HS as [HS1 HS2]. cbn in HS1. split; [|now split]. change (rd_sp (with_homo 0 (with_rules (with_sentence sp2 ru) st))) with sp2.
  split; cbn; rewrite ?HS1; try lia. intros i Hi. rewrite HS2. cbn. rewrite HN. apply H5. lia.
Qed.

Lemma canonize_numbered : forall own st, numbered own st -> numbered own (canonize_last st).
Proof.
  intros own st H. eapply numbered_same; [exact H | |]; unfold canonize_last, rn2canonical_rn;
    (destruct (get_mrph_rep_from_f _ _); [destruct (assign_cfeature _ _ _ _)|]); try reflexivity; now apply same_numbers_put.
Qed.

(** The morphemes when the sentence is read. *)
Definition read_numbers (own : Z) (r : line_result) : Prop :=
  match r with
  | NextLine st => numbered own st
  | Returns flag st => flag = 1 -> Mrph_num (rd_sp st) = own /\ 1 <= own <= MRPH_MAX /\
      forall i, 0 <= i < own -> m_num (mrph_data (rd_sp st) i) = i
  end.

Lemma readtoeos_flag : forall f s, returns (fun r => snd r <> 1) (readtoeos f s).
Proof.
  induction f as [|f IH]; intros s; cbn [readtoeos]; [exact I|]. destruct (fgets s) as [[l r]|]; [|discriminate].
  destruct (str_eq l eos_line); [discriminate | apply IH].
Qed.

Lemma skip_numbers : forall own st, returns (read_numbers own) (skip_sentence st).
Proof.
  intros own st. unfold skip_sentence. pose proof (readtoeos_flag (S (String.length (rd_input st))) (rd_input st)) as H.
  destruct (readtoeos _ _) as [[r flag]|]; [|exact I]. cbn in *. intros HF. contradiction.
Qed.

Lemma comment_numbers : forall own line st, numbered own st -> returns (read_numbers own) (comment_line line st).
Proof.
  intros own line st H. unfold comment_line. destruct (sscanf _ _ _ _) as [[n [id text]]|]; [|exact I].
  destruct id as [id|]; [|exact I]. cbn [returns read_numbers].
  assert (HN : numbered own (put_sp (set_Comment (Some text) (set_KNPSID id (rd_sp st))) st)).
  { eapply numbered_same; [exact H | split; reflexivity | reflexivity]. }
  case_goal; [|exact HN]. destruct (before_last _ _); [|exact HN].
  eapply numbered_same; [exact HN | split; reflexivity | reflexivity].
Qed.

Lemma bnst_numbers : forall own line st, numbered own st -> returns (read_numbers own) (bnst_line OptReadFeature line st).
Proof.
  intros own line st H. unfold bnst_line. destruct (scan_unit line) as [[items u]|]; [|exact I].
  destruct (input_kind _ _); [|apply skip_numbers]. cbv zeta.
  destruct (Mrph_num (rd_sp st) =? 0); (case_goal; [exact I|]);
    (destruct ((items =? 3) && OptReadFeature); [destruct (feature_string2f _ _ _)|]);
    (eapply numbered_same; [exact H | split; reflexivity | reflexivity]).
Qed.

Lemma tag_numbers : forall own line st, numbered own st -> returns (read_numbers own) (tag_line OptReadFeature line st).
Proof.
  intros own line st H. unfold tag_line. cbv zeta. case_goal; [apply skip_numbers|].
  destruct (scan_unit line) as [[items u]|]; [|exact I]. case_goal; [exact I|].
  destruct (input_kind _ _); [|apply skip_numbers]. case_goal; [exact I|].
  (destruct ((items =? 3) && OptReadFeature); [destruct (feature_string2f _ _ _)|]);
    (eapply numbered_same; [exact H | split; reflexivity | reflexivity]).
Qed.

Lemma ids_num : forall n m, returns (fun m' => m_num m' = m_num m) (ids_of_names n m).
Proof. intros. unfold ids_of_names. returns; reflexivity. Qed.

(** The next morpheme has its number; the ones before are as they were. *)
Lemma scan_word_numbers : forall line st, returns (fun r => let '(_, w, st') := r in
    let n := Mrph_num (rd_sp st) in
    Mrph_num (rd_sp st') = n /\ rd_homo_num st' = rd_homo_num st /\ m_num (mrph_data (rd_sp st') n) = n /\
    forall i, i <> n -> mrph_data (rd_sp st') i = mrph_data (rd_sp st) i) (scan_word line st).
Proof.
  intros. unfold scan_word. cbv zeta. destruct (sscanf _ _ _ _) as [[items w]|]; [|exact I].
  apply (returns_bind (fun m => m_num m = Mrph_num (rd_sp st))); [case_goal; [apply ids_num | reflexivity]|].
  intros m HM. cbn [returns]. change (rd_sp (with_names (wi_names w) (put_sp (upd_mrph (Mrph_num (rd_sp st)) (fun _ => m) (rd_sp st)) st)))
    with (upd_mrph (Mrph_num (rd_sp st)) (fun _ => m) (rd_sp st)).
  repeat split; [rewrite upd_mrph_at, Z.eqb_refl; exact HM|]. intros i Hi. rewrite upd_mrph_at. now replace (i =? Mrph_num (rd_sp st)) with false by lia.
Qed.

Lemma store_word_numbers : forall own reading imi text st, 0 <= own -> 0 <= rd_homo_num st ->
  Mrph_num (rd_sp st) = own + rd_homo_num st -> Mrph_num (rd_sp st) < MRPH_MAX ->
  (reading = false -> rd_homo_num st = 0) ->
  (forall i, 0 <= i <= Mrph_num (rd_sp st) -> m_num (mrph_data (rd_sp st) i) = i) ->
  numbered (own + if reading then 0 else 1) (store_word reading imi text st).
Proof.
  intros own reading imi text st HO HH HN HM HR HI. unfold store_word. cbv zeta. destruct (imi2feature _ _ _) as [f buf].
  match goal with |- numbered _ (with_homo ?h (with_rules (with_buffer ?s _ _) _)) => set (sp := s); set (h1 := h) end.
  split; cbn [rd_homo_num with_homo]; change (rd_sp (with_homo h1 (with_rules (with_buffer sp buf (rd_ru st)) st))) with sp;
    change (Mrph_num sp) with (Mrph_num (rd_sp st) + 1); unfold h1; [destruct reading; lia | destruct reading; lia | | lia |].
  - destruct reading; [lia|]. rewrite HR in * by reflexivity. lia.
  - intros i Hi. unfold sp. cbn [mrph_data set_Mrph_num]. rewrite upd_mrph_at. destruct (Z.eqb_spec i (Mrph_num (rd_sp st))) as [->|];
      [cbn; apply HI; lia | apply HI; lia].
Qed.

Lemma word_numbers : forall own line st, numbered own st ->
  returns (read_numbers (own + if is_reading line then 0 else 1)) (word_line HomoRuleArray line st).
Proof.
  intros own line st H. unfold word_line. cbv zeta.
  apply (returns_bind (fun st1 => numbered own st1 /\ (is_reading line = false -> rd_homo_num st1 = 0))).
  { destruct (is_reading line); cbn [negb andb].
    - split; [|discriminate]. case_goal; [now apply canonize_numbered | exact H].
    - destruct (Z.eqb_spec (rd_homo_num st) 0) as [HZ|HZ]; cbn [negb].
      + split; [case_goal; [now apply canonize_numbered | exact H]|]. intros _. case_goal; [|exact HZ].
        unfold canonize_last. now destruct (rn2canonical_rn _ _).
      + pose proof (homographs_numbered own st H) as HH. destruct (end_homographs HomoRuleArray st); [|exact I]. cbn in *. tauto. }
  intros st1 [H1 HR]. destruct (Z.leb_spec MRPH_MAX (Mrph_num (rd_sp st1))) as [|HM]; [apply skip_numbers|].
  pose proof (scan_word_numbers line st1) as HS. destruct (scan_word line st1) as [[[items w] st2]|]; [|exact I].
  cbn [returns] in HS. destruct HS as [S1 [S2 [S3 S4]]]. destruct H1 as [N1 N2 N3 N4 N5].
  assert (HA : forall imi text, numbered (own + if is_reading line then 0 else 1) (store_word (is_reading line) imi text st2)).
  { intros imi text. apply store_word_numbers; rewrite ?S1, ?S2; auto. intros i Hi.
    destruct (Z.eq_dec i (Mrph_num (rd_sp st1))) as [->|HN]; [exact S3|]. rewrite S4 by exact HN. apply N5. lia. }
  destruct (items =? 12); [|destruct (items =? 11); [cbn [returns read_numbers]; apply HA | apply skip_numbers]].
  destruct (name_of _) as [h|]; [|exact I]. destruct (read_imi _ _ _) as [[imi text]|]; [|exact I]. cbn [returns read_numbers]. apply HA.
Qed.

Lemma eos_numbers : forall own st, numbered own st -> returns (read_numbers own) (eos_found HomoRuleArray st).
Proof.
  intros own st H. unfold eos_found. destruct (Z.eqb_spec (Mrph_num (rd_sp st)) 0) as [|HN]; [cbn; lia|]. cbv zeta.
  match goal with |- context [end_homographs _ ?s] => set (st1 := s) end.
  assert (H1 : numbered own st1) by (unfold st1; case_goal; [eapply numbered_same; [exact H | split; reflexivity | reflexivity] | exact H]).
  assert (HE : rd_homo_num st1 = rd_homo_num st) by (unfold st1; case_goal; reflexivity). clearbody st1.
  apply (returns_bind (fun st2 => numbered own st2 /\ rd_homo_num st2 = 0 /\ 1 <= own)).
  { destruct (Z.eqb_spec (rd_homo_num st1) 0) as [HZ|HZ]; cbn [negb].
    - assert (H2 : rd_homo_num (canonize_last st1) = 0) by (unfold canonize_last; now destruct (rn2canonical_rn _ _)).
      pose proof (nm_num _ _ H). pose proof (nm_own _ _ H). cbn [returns].
      assert (HO : 1 <= own) by lia. case_goal; [split; [now apply canonize_numbered | now split] | now split].
    - apply homographs_numbered, H1. }
  intros st2 [H2 [HZ HO]]. cbn [returns read_numbers]. intros _.
  assert (HS : forall s, same_numbers (rd_sp st2) (rd_sp s) -> Mrph_num (rd_sp s) = own /\ 1 <= own <= MRPH_MAX /\
    (forall i, 0 <= i < own -> m_num (mrph_data (rd_sp s) i) = i)).
  { intros s [HM HI]. destruct H2 as [N1 N2 N3 N4 N5]. rewrite HM. repeat split; try lia. intros i Hi. rewrite HI. apply N5. lia. }
  case_goal; apply HS; split; reflexivity.
Qed.

(** The line is a morpheme, and not one more reading. *)
Definition own_word (l : string) : bool :=
  let line := (l ++ String newline EmptyString)%string in
  negb (ignored OptIgnoreChar (byte_at line 0) || existsb (Z.eqb (byte_at line 0)) [chr "#"; chr "*"; chr "+"] || is_reading line).

Local Abbreviation read_one := (read_line HomoRuleArray server_mode OptIgnoreChar OptReadFeature).
Local Abbreviation read_all := (read_lines HomoRuleArray server_mode OptIgnoreChar OptReadFeature).

Context {TE : MrphTestsEnd} (HS : server_mode = false) (HI : OptIgnoreChar <> Some "E"%char).

Lemma line_numbers : forall l X st own, plain_line l = true -> rd_input st = (l ++ String newline X)%string -> numbered own st ->
  returns (read_numbers (own + if own_word l then 1 else 0)) (read_one st).
Proof.
  intros l X st own HP HX H. unfold plain_line in HP. apply andb_true_iff in HP as [HL HE]. apply negb_true_iff in HE.
  unfold read_line. rewrite HX, (read_file_short _ HS) by exact HL. cbv iota zeta. rewrite snoc_newline. cbn [negb Z.eqb Pos.eqb].
  set (st1 := with_input X st). assert (H1 : numbered own st1) by (eapply numbered_same; [exact H | split; reflexivity | reflexivity]).
  unfold own_word. cbv zeta. set (line := (l ++ String newline EmptyString)%string). cbn [existsb].
  destruct (ignored OptIgnoreChar (byte_at line 0)); cbn [orb negb].
  { rewrite Z.add_0_r. cbn. eapply numbered_same; [exact H1 | split; reflexivity | reflexivity]. }
  destruct (byte_at line 0 =? chr "#"); cbn [orb negb]; [rewrite Z.add_0_r; now apply comment_numbers|].
  destruct (byte_at line 0 =? chr "*"); cbn [orb negb]; [rewrite Z.add_0_r; now apply bnst_numbers|].
  destruct (byte_at line 0 =? chr "+"); cbn [orb negb]; [rewrite Z.add_0_r; now apply tag_numbers|].
  replace (str_eq line eos_line) with false by (unfold line, eos_line; now rewrite str_eq_snoc).
  replace (if negb (is_reading line) then 1 else 0) with (if is_reading line then 0 else 1) by (now destruct (is_reading line)).
  now apply word_numbers.
Qed.

Lemma lines_numbers : forall ls rest f st own, forallb plain_line ls = true -> rd_input st = lines_text ls rest -> numbered own st ->
  returns (fun r => let n := own + Z.of_nat (List.length (filter own_word ls)) in
    fst r = 1 -> Mrph_num (rd_sp (snd r)) = n /\ 1 <= n <= MRPH_MAX /\
      forall i, 0 <= i < n -> m_num (mrph_data (rd_sp (snd r)) i) = i) (read_all f st).
Proof.
  induction ls as [|l ls IH]; intros rest [|f] st own HP HX H; try exact I; cbn [read_lines lines_text forallb] in *.
  - rewrite (read_line_eos HomoRuleArray server_mode OptIgnoreChar OptReadFeature HS HI rest st HX).
    assert (H1 : numbered own (with_input rest st)) by (eapply numbered_same; [exact H | split; reflexivity | reflexivity]).
    pose proof (eos_numbers own _ H1) as HN. pose proof (eos_ends HomoRuleArray (with_input rest st)) as HE.
    destruct (eos_found HomoRuleArray (with_input rest st)) as [[st'|flag st']|e]; [contradiction | | exact I].
    cbn in *. now rewrite Z.add_0_r.
  - apply andb_true_iff in HP as [HL HP]. pose proof (line_numbers l _ st own HL HX H) as HN.
    pose proof (read_line_plain HomoRuleArray server_mode OptIgnoreChar OptReadFeature HS l _ st HL HX) as HC.
    destruct (read_one st) as [[st'|flag st']|e]; cbn [continues returns read_numbers] in *; [| |exact I].
    + specialize (IH rest f st' _ HP HC HN). destruct (read_all f st') as [[flag st2]|]; [|exact I]. cbn [returns fst snd] in *.
      cbv zeta in *. cbn [filter]. replace (own + Z.of_nat (List.length (if own_word l then l :: filter own_word ls else filter own_word ls)))
        with (own + (if own_word l then 1 else 0) + Z.of_nat (List.length (filter own_word ls))); [exact IH|].
      destruct (own_word l); cbn [List.length]; lia.
    + rewrite readtoeos_plain in HC by (auto; lia). injection HC as _ <-. discriminate.
Qed.
End Numbers.

(** A sentence that is read has as many morphemes as its text has lines for one, the lines for further readings left out, at least one
    and at most MRPH_MAX; and each morpheme carries its position as its number, whatever readings were dropped and
    whatever the rules for homographs did. *)
Theorem read_mrph_numbers : forall `{E : RuleEnv} `{FM : FeatureMatch} {TE : MrphTestsEnd} rules server_mode ignore with_features st st' ls rest,
  server_mode = false -> ignore <> Some "E"%char -> forallb plain_line ls = true -> rd_input st = lines_text ls rest ->
  read_mrph rules server_mode ignore with_features st = Ret (1, st') ->
  let n := Z.of_nat (List.length (filter (own_word ignore) ls)) in
  Mrph_num (rd_sp st') = n /\ 1 <= n <= MRPH_MAX /\ forall i, 0 <= i < n -> m_num (mrph_data (rd_sp st') i) = i.
Proof.
  intros E FM TE rules sm ig wf st st' ls rest HS HI HP HX HR. unfold read_mrph in HR.
  pose proof (lines_numbers rules sm ig wf HS HI ls rest (S (String.length (rd_input st))) (start_reading st) 0 HP HX) as H.
  rewrite HR in H. apply H; [|reflexivity]. split; cbn; unfold MRPH_MAX; lia.
Qed.

(** ** In the server mode a bad sentence loses the rest of the input

    The lines end with a carriage return and a newline there; [readtoeos] does not drop the first. *)
Fixpoint server_text (ls : list string) : string :=
  match ls with
  | [] => EmptyString
  | l :: ls' => (l ++ String "013" (String newline (server_text ls')))%string
  end.

Lemma server_sentence_lost : forall ls f, forallb (fun l => short_line (l ++ String "013" EmptyString)) ls = true ->
  (String.length (server_text ls) < f)%nat -> readtoeos f (server_text ls) = Ret (EmptyString, EOF).
Proof.
  induction ls as [|l ls IH]; intros [|f] HP HF; try lia; cbn [readtoeos server_text forallb] in *; [reflexivity|].
  apply andb_true_iff in HP as [HL HP].
  replace (l ++ String "013" (String newline (server_text ls)))%string
    with ((l ++ String "013" EmptyString) ++ String newline (server_text ls))%string by now rewrite sapp_assoc.
  rewrite fgets_short by exact HL. unfold eos_line. rewrite str_eq_snoc. change "EOS"%string with ("EO" ++ String "S" EmptyString)%string.
  destruct (str_eq_spec (l ++ String "013" EmptyString) ("EO" ++ String "S" EmptyString)) as [H|_].
  - exfalso. destruct l as [|a [|b [|c l]]]; try discriminate H. injection H as _ _ _ H. destruct l; discriminate H.
  - apply IH; [exact HP|]. rewrite length_sapp in HF. cbn [String.length] in HF. lia.
Qed.

(** ** Reading what was printed *)

(** Not empty and without spaces. *)
Fixpoint no_spaces (s : string) : bool := match s with String c s' => negb (is_space c) && no_spaces s' | EmptyString => true end.
Definition word_text (size : Z) (s : string) : bool := no_spaces s && negb (str_eq s EmptyString) && (slen s <? size).

Lemma nonspace_run_text : forall w c r, no_spaces w = true -> is_space c = true -> nonspace_run (w ++ String c r) = w.
Proof.
  induction w as [|a w IH]; intros c r HW HC; cbn [append nonspace_run no_spaces] in *; [now rewrite HC|].
  apply andb_true_iff in HW as [HA HW]. apply negb_true_iff in HA. rewrite HA. f_equal. now apply IH.
Qed.

Lemma skip_spaces_text : forall w r, no_spaces w = true -> w <> EmptyString -> skip_spaces (w ++ r) = (w ++ r)%string.
Proof.
  intros [|a w] r HW HN; [contradiction|]. cbn [append skip_spaces no_spaces] in *. apply andb_true_iff in HW as [HA _].
  apply negb_true_iff in HA. now rewrite HA.
Qed.

Lemma convert_word : forall {S} size (put : string -> S -> S) w r st, word_text size w = true ->
  convert (ConvS size put) (w ++ String " " r) st = Ret (Scanned (put w st) (String " " r)).
Proof.
  intros S size put w r st H. unfold word_text in H. rewrite !andb_true_iff in H. destruct H as [[HW HN] HL].
  assert (HE : w <> EmptyString) by (intros ->; discriminate HN). unfold convert. rewrite skip_spaces_text by assumption.
  destruct w as [|a w]; [contradiction|]. cbn [append]. change (String a (w ++ String " " r)) with (String a w ++ String " " r)%string.
  rewrite nonspace_run_text by (assumption || reflexivity). apply Z.ltb_lt in HL.
  destruct (Z.leb_spec size (slen (String a w))); [lia|]. now rewrite skip_app.
Qed.

Lemma itoa_text : forall n, int_field n = true -> no_spaces (itoa n) = true /\ itoa n <> EmptyString.
Proof.
  assert (HD : forall ds, all_digits ds = true -> no_spaces ds = true).
  { induction ds as [|c ds IH]; cbn; [reflexivity|]. intros H. apply andb_true_iff in H as [HC HD]. rewrite IH by exact HD.
    rewrite andb_true_r. unfold is_digit, is_space in *. cbv zeta in *. apply andb_true_iff in HC as [H1 H2]. apply Z.leb_le in H1, H2.
    apply negb_true_iff, orb_false_iff. split; [apply Z.eqb_neq; lia | apply andb_false_iff; right; apply Z.leb_gt; lia]. }
  intros n H. unfold int_field in H. apply andb_true_iff in H as [H1 H2]. apply Z.leb_le in H1, H2. unfold itoa.
  destruct (Z.ltb_spec n 0).
  - destruct (zdigits_text 11 (- n) EmptyString) as [ds [-> [HN [HA _]]]]; [lia | lia | cbn; lia|]. rewrite sapp_nil_r.
    split; [cbn [no_spaces]; now rewrite HD | discriminate].
  - destruct (zdigits_text 11 n EmptyString) as [ds [-> [HN [HA _]]]]; [lia | lia | cbn; lia|]. rewrite sapp_nil_r. auto.
Qed.

Lemma convert_number : forall {S} (put : Z -> S -> S) n r st, int_field n = true ->
  convert (ConvD put) (itoa n ++ String " " r) st = Ret (Scanned (put n st) (String " " r)).
Proof.
  intros S put n r st H. destruct (itoa_text n H) as [HW HN]. unfold int_field in H. apply andb_true_iff in H as [H1 H2].
  apply Z.leb_le in H1, H2. destruct (int_text n (String " " r)) as [I1 [I2 I3]]; [lia | reflexivity|].
  unfold convert. rewrite skip_spaces_text by assumption.
  destruct (itoa n ++ String " " r)%string eqn:EI; [destruct (itoa n); [contradiction | discriminate EI]|].
  rewrite <- EI in *. rewrite I1, I2, I3. replace (is_int n) with true; [reflexivity|]. unfold is_int, INT_MAX. symmetry. apply andb_true_iff. split; apply Z.leb_le; lia.
Qed.

Lemma sscanf_scanned : forall {S} (c : conversion S) cs s n st st' s', convert c s st = Ret (Scanned st' s') ->
  sscanf (c :: cs) s n st = sscanf cs s' (n + 1) st'.
Proof. intros S c cs s n st st' s' H. cbn [sscanf]. now rewrite H. Qed.

Lemma convert_space : forall {S} (c : conversion S) s st, match c with ConvC _ => False | _ => True end ->
  convert c (String " " s) st = convert c s st.
Proof. intros S [size put|put|put|put] s st H; reflexivity || contradiction. Qed.

Section RoundTrip.
Context `{E : RuleEnv}.

(** The form that [make_mrph_rn] makes of a word is defined, whatever stands in the array of its semantic information: the ending of an
    inflected word is in the tables and not longer than the word. *)
Definition rn_defined (m : MRPH_DATA) : bool :=
  forallb (fun imi => match make_mrph_rn (set_m_Imi imi m) with Ret _ => true | Err _ => false end) [EmptyString; "自動獲得"].

(** The semantic information is between quotes and names a representative form, or is NIL: then the word needs no representative
    form (by its part of speech: 特殊, 判定詞, 助動詞 or 助詞). *)
Definition readable_imi (hinshi : string) (m : MRPH_DATA) : bool :=
  if starts_with (String dquote EmptyString) (m_Imi m) then
    str_eq (m_Imi m) (in_quotes (unquote (m_Imi m))) && (no_rep hinshi || str_contains "代表表記" (unquote (m_Imi m))) &&
    (slen (m_Imi m) <? IMI_MAX)
  else str_eq (m_Imi m) "NIL" && no_rep hinshi && rn_defined m.

Definition readable_word (m : MRPH_DATA) : bool :=
  word_text (WORD_LEN_MAX + 1) (m_Goi2 m) && word_text (WORD_LEN_MAX + 1) (m_Yomi m) && word_text (WORD_LEN_MAX + 1) (m_Goi m) &&
  int_field (m_Hinshi m) && int_field (m_Bunrui m) && int_field (m_Katuyou_Kata m) && int_field (m_Katuyou_Kei m) &&
  match Class_id (m_Hinshi m) 0 with Some h => word_text DATA_LEN h && readable_imi h m | None => false end &&
  forallb (fun r => match r with Ret s => word_text DATA_LEN s | Err _ => false end)
    [printed_name (Class_id (m_Hinshi m) (m_Bunrui m)) (m_Bunrui m);
     printed_name (Type_name (m_Katuyou_Kata m)) (m_Katuyou_Kata m);
     printed_name (Form_name (m_Katuyou_Kata m) (m_Katuyou_Kei m)) (m_Katuyou_Kei m)].

(** The spellings and numbers of [m], the rest of [m0]. *)
Definition spelled (m m0 : MRPH_DATA) : MRPH_DATA := set_m_Imi (m_Imi m0) (alt_of m m0).

Lemma imi_head : forall h m tail, readable_imi h m = true -> exists c r, (m_Imi m ++ tail)%string = String c r /\ is_space c = false.
Proof.
  intros h m tail H. unfold readable_imi in H. destruct (m_Imi m) as [|c s] eqn:EI; [discriminate|].
  exists c, (s ++ tail)%string. split; [reflexivity|]. cbn [starts_with] in H. destruct (Ascii.eqb dquote c) eqn:EC.
  - apply Ascii.eqb_eq in EC as <-. reflexivity.
  - cbn [andb] in H. rewrite !andb_true_iff in H. destruct H as [[H _] _]. rewrite str_eq_cons in H.
    apply andb_true_iff in H as [H _]. apply Ascii.eqb_eq in H as ->. reflexivity.
Qed.

(** The items of a printed line. *)
Lemma scan_printed : forall m h s tail w, readable_word m = true -> Class_id (m_Hinshi m) 0 = Some h ->
  forall CLASS_num, print_mrph CLASS_num m = Ret s -> str_free newline (s ++ tail) = true ->
  exists names, wn_hinshi names = Some h /\
    sscanf word_conversions ((s ++ tail) ++ String newline EmptyString) 0 w = Ret (12, mkWI (spelled m (wi_m w)) names (m_Imi m ++ tail)).
Proof.
  intros m h s tail w HR HC CLASS_num HP HF. unfold readable_word in HR. rewrite HC in HR. cbn [forallb] in HR.
  rewrite !andb_true_iff in HR. destruct HR as [[[[[[[[W1 W2] W3] I1] I2] I3] I4] [WH HI]] [WB [WK [WE _]]]].
  unfold print_mrph in HP. rewrite HC in HP. destruct (CLASS_num <=? m_Hinshi m); [discriminate|].
  destruct (printed_name (Class_id _ _) _) as [b|]; [|discriminate].
  destruct (printed_name (Type_name _) _) as [ka|]; [|discriminate].
  destruct (printed_name (Form_name _ _) _) as [ke|]; [|discriminate].
  injection HP as <-. exists (mkWN (Some h) (Some b) (Some ka) (Some ke)). split; [reflexivity|].
  repeat rewrite join_cons in * by discriminate. cbn [join append] in *. repeat (rewrite sapp_assoc; cbn [append]).
  unfold word_conversions. cbv zeta.
  repeat (erewrite sscanf_scanned by (rewrite ?convert_space by exact I; first [apply convert_word; assumption | apply convert_number; assumption]);
    cbn [wi_m wi_names wi_rest wn_hinshi wn_bunrui wn_kata wn_kei]).
  cbn [sscanf]. rewrite convert_space by exact I. unfold convert.
  destruct (imi_head h m (tail ++ String newline EmptyString) HI) as [c [r [EI EC]]]. rewrite EI. cbn [skip_spaces]. rewrite EC, <- EI, <- sapp_assoc.
  assert (HN : str_free newline (m_Imi m ++ tail) = true).
  { revert HF. repeat (rewrite str_free_app; cbn [str_free]). intros HF. rewrite !andb_true_iff in HF. rewrite andb_true_iff. tauto. }
  rewrite span_not_sep by exact HN. cbn [sscanf]. destruct w as [[] names rest]. reflexivity.
Qed.

(** The text whose parts become features. *)
Definition imi_text (m : MRPH_DATA) : string :=
  if starts_with (String dquote EmptyString) (m_Imi m) then unquote (m_Imi m) else EmptyString.

Lemma rn_made : forall m m1, rn_defined m = true -> m_Goi m1 = m_Goi m -> m_Yomi m1 = m_Yomi m ->
  (m_Hinshi m1, m_Bunrui m1, m_Katuyou_Kata m1, m_Katuyou_Kei m1) = (m_Hinshi m, m_Bunrui m, m_Katuyou_Kata m, m_Katuyou_Kei m) ->
  exists s, make_mrph_rn m1 = Ret s.
Proof.
  intros m m1 H E1 E2 E3. injection E3 as E3 E4 E5 E6.
  assert (R : forall imi, (match strstr "自動獲得" imi with Some _ => true | None => false end) =
      (match strstr "自動獲得" (m_Imi m1) with Some _ => true | None => false end) ->
    make_mrph_rn m1 = make_mrph_rn (set_m_Imi imi m)).
  { intros imi HI. unfold make_mrph_rn, drops_long_sound. destruct m, m1. cbn in *. subst. now rewrite HI. }
  unfold rn_defined in H. cbn [forallb] in H. rewrite !andb_true_iff in H. destruct H as [H1 [H2 _]].
  destruct (strstr "自動獲得" (m_Imi m1)) eqn:EL.
  - rewrite (R "自動獲得") by reflexivity. destruct (make_mrph_rn (set_m_Imi "自動獲得" m)); [eauto | discriminate].
  - rewrite (R EmptyString) by reflexivity. destruct (make_mrph_rn (set_m_Imi EmptyString m)); [eauto | discriminate].
Qed.

Lemma read_printed_imi : forall h m m1 tail, readable_imi h m = true -> m_Goi m1 = m_Goi m -> m_Yomi m1 = m_Yomi m ->
  (m_Hinshi m1, m_Bunrui m1, m_Katuyou_Kata m1, m_Katuyou_Kei m1) = (m_Hinshi m, m_Bunrui m, m_Katuyou_Kata m, m_Katuyou_Kei m) ->
  read_imi h (m_Imi m ++ tail) m1 = Ret (m_Imi m, imi_text m).
Proof.
  intros h m m1 tail H HG HY HA. unfold readable_imi in H. unfold imi_text, read_imi.
  destruct (starts_with (String dquote EmptyString) (m_Imi m)) eqn:EQ.
  - rewrite !andb_true_iff in H. destruct H as [[HQ HN] HL]. destruct (str_eq_spec (m_Imi m) (in_quotes (unquote (m_Imi m)))) as [EI|]; [|discriminate].
    assert (HU : str_free dquote (unquote (m_Imi m)) = true).
    { destruct (m_Imi m) as [|c r]; [discriminate|]. cbn [starts_with] in EQ. rewrite andb_true_r in EQ. apply Ascii.eqb_eq in EQ as <-.
      cbn [unquote]. rewrite Ascii.eqb_refl. apply span_not_free. }
    set (t := unquote (m_Imi m)) in *. rewrite EI. unfold in_quotes. cbn [append starts_with]. change (Ascii.eqb "N" dquote) with false. cbn [andb].
    rewrite Ascii.eqb_refl. unfold add_rep.
    replace (unquote (String dquote ((t ++ String dquote EmptyString) ++ tail))) with t.
    2:{ cbn [unquote]. rewrite Ascii.eqb_refl, sapp_assoc. cbn [append]. now rewrite span_not_sep. }
    rewrite HN. unfold in_imi. apply Z.ltb_lt in HL. rewrite EI in HL. unfold in_quotes in *.
    destruct (Z.leb_spec IMI_MAX (slen (String dquote (t ++ String dquote EmptyString)))); [lia | reflexivity].
  - rewrite !andb_true_iff in H. destruct H as [[HQ HN] HK]. destruct (str_eq_spec (m_Imi m) "NIL") as [EI|]; [|discriminate].
    rewrite EI. rewrite starts_with_app. destruct (rn_made m m1 HK HG HY HA) as [s ES].
    rewrite ES, HN. reflexivity.
Qed.

(** ** The loop over the printed words *)
Context `{FM : FeatureMatch} {TE : MrphTestsEnd}.
Context (HomoRuleArray : list HomoRule) (server_mode : bool) (OptIgnoreChar : option ascii) (OptReadFeature : bool).
Context (HS : server_mode = false) (HI : OptIgnoreChar <> Some "E"%char).
Context (CLASS_num OptDisplay OptExpress : Z) (sp st0 : SENTENCE_DATA).

(** The word [i] of the text as it is read, first without its canonical form. *)
Definition word_read (i : Z) (buf : string) : MRPH_DATA :=
  let m := mrph_data sp i in
  set_m_f (fst (imi2feature (imi_text m) [] buf)) (set_m_num i (alt_of m (mrph_data st0 i))).

Record words_read (k : Z) (st : read_state) : Prop := {
  wr_num : Mrph_num (rd_sp st) = k;
  wr_homo : rd_homo_num st = 0;
  wr_input : Z.land (OptInput (rd_tree st)) OPT_INPUT_PARSED = 0;
  wr_before : forall i, 0 <= i < k - 1 -> exists buf buf', mrph_data (rd_sp st) i = fst (rn2canonical_rn (word_read i buf) buf');
  wr_last : 0 < k -> exists buf, mrph_data (rd_sp st) (k - 1) = word_read (k - 1) buf;
  wr_after : forall i, k <= i -> mrph_data (rd_sp st) i = mrph_data st0 i
}.

(** All words have their canonical forms. *)
Definition words_done (k : Z) (st : read_state) : Prop :=
  Mrph_num (rd_sp st) = k /\ rd_homo_num st = 0 /\ Z.land (OptInput (rd_tree st)) OPT_INPUT_PARSED = 0 /\
  (forall i, 0 <= i < k -> exists buf buf', mrph_data (rd_sp st) i = fst (rn2canonical_rn (word_read i buf) buf')) /\
  (forall i, k <= i -> mrph_data (rd_sp st) i = mrph_data st0 i).

Lemma canonize_words : forall k st, words_read k st -> words_done k (if 0 <? Mrph_num (rd_sp st) then canonize_last st else st).
Proof.
  intros k st [H1 H2 H3 H4 H5 H6]. rewrite H1. destruct (Z.ltb_spec 0 k) as [HK|HK].
  - unfold canonize_last. cbv zeta. change (ru_sp (rd_ru st)) with (rd_sp st). rewrite H1.
    destruct (rn2canonical_rn (mrph_data (rd_sp st) (k - 1)) (ru_buf (rd_ru st))) as [m buf] eqn:EC.
    set (st' := with_rules _ st). assert (HD : forall i, mrph_data (rd_sp st') i = if i =? k - 1 then m else mrph_data (rd_sp st) i) by reflexivity.
    split; [exact H1|]. split; [exact H2|]. split; [exact H3|]. split; intros i Hi; rewrite HD; destruct (Z.eqb_spec i (k - 1)) as [->|]; try lia.
    + destruct (H5 HK) as [b Hb]. exists b, (ru_buf (rd_ru st)). rewrite <- Hb, EC. reflexivity.
    + apply H4. lia.
    + apply H6. lia.
  - split; [exact H1|]. split; [exact H2|]. split; [exact H3|]. split; [intros i Hi; lia | exact H6].
Qed.

Lemma printed_word_line : forall k st s tail, let m := mrph_data sp k in let line := ((s ++ tail) ++ String newline EmptyString)%string in
  readable_word m = true -> print_mrph CLASS_num m = Ret s -> str_free newline (s ++ tail) = true -> is_reading line = false ->
  0 <= k < MRPH_MAX -> m_f (mrph_data st0 k) = [] -> words_read k st ->
  exists st', word_line HomoRuleArray line st = Ret (NextLine st') /\ words_read (k + 1) st'.
Proof.
  intros k st s tail m line HR HP HF HL HK HE HW. pose proof (canonize_words k st HW) as HD.
  unfold word_line. rewrite HL, (wr_homo _ _ HW). cbv zeta. cbn [negb andb Z.eqb].
  set (st1 := if 0 <? Mrph_num (rd_sp st) then canonize_last st else st) in *. destruct HD as [D1 [D2 [D3 [D4 D5]]]]. rewrite D1.
  destruct (Z.leb_spec MRPH_MAX k); [lia|].
  assert (HC : exists h, Class_id (m_Hinshi m) 0 = Some h /\ readable_imi h m = true).
  { unfold readable_word in HR. rewrite !andb_true_iff in HR. destruct HR as [[_ HR] _]. destruct (Class_id (m_Hinshi m) 0) as [h|]; [|discriminate].
    apply andb_true_iff in HR as [_ HR]. eauto. }
  destruct HC as [h [HC HM]].
  destruct (scan_printed m h s tail (mkWI (mrph_data (rd_sp st1) k) (rd_names st1) EmptyString) HR HC CLASS_num HP HF) as [names [HN ES]].
  unfold scan_word. rewrite HL, D1, D3. cbn [negb Z.eqb]. cbv zeta. fold line in ES. rewrite ES. cbn [wi_m wi_names wi_rest].
  change (12 =? 12) with true. rewrite HN. cbn [name_of]. rewrite (read_printed_imi h m) by (exact HM || reflexivity).
  eexists. split; [reflexivity|]. set (m1 := set_m_num k (spelled m (mrph_data (rd_sp st1) k))).
  set (st2 := with_names names _). assert (E2 : rd_sp st2 = upd_mrph k (fun _ => m1) (rd_sp st1)) by reflexivity.
  assert (HB : ru_buf (rd_ru st2) = ru_buf (rd_ru st1)) by reflexivity.
  unfold store_word. cbv zeta. rewrite E2, HB. cbn [Mrph_num upd_mrph set_mrph_data]. rewrite D1.
  rewrite upd_mrph_at, Z.eqb_refl. assert (HF1 : m_f (set_m_Imi (m_Imi m) m1) = []).
  { unfold m1. rewrite D5 by lia. cbn. exact HE. }
  rewrite HF1. destruct (imi2feature (imi_text m) [] (ru_buf (rd_ru st1))) as [f buf] eqn:EF.
  set (st3 := with_homo _ _). assert (HD : forall i, mrph_data (rd_sp st3) i = if i =? k then set_m_f f (set_m_Imi (m_Imi m) m1) else mrph_data (rd_sp st1) i).
  { intros i. change (mrph_data (rd_sp st3) i) with (mrph_data (upd_mrph k (fun _ => set_m_f f (set_m_Imi (m_Imi m) m1)) (upd_mrph k (fun _ => m1) (rd_sp st1))) i).
    rewrite !upd_mrph_at. now destruct (i =? k). }
  assert (HO : rd_homo_num st3 = 0) by exact D2.
  split; [reflexivity | exact HO | exact D3 | | |].
  - intros i Hi. rewrite HD. replace (i =? k) with false by lia. apply D4. lia.
  - intros _. exists (ru_buf (rd_ru st1)). rewrite HD. replace (k + 1 - 1 =? k) with true by lia. replace (k + 1 - 1) with k by lia. unfold word_read. fold m.
    rewrite EF. cbn [fst]. unfold m1, spelled. rewrite D5 by lia. destruct (mrph_data st0 k). reflexivity.
  - intros i Hi. rewrite HD. replace (i =? k) with false by lia. apply D5. lia.
Qed.

Local Abbreviation read_one := (read_line HomoRuleArray server_mode OptIgnoreChar OptReadFeature).
Local Abbreviation read_all := (read_lines HomoRuleArray server_mode OptIgnoreChar OptReadFeature).

Lemma read_own_word : forall l X st, plain_line l = true -> own_word OptIgnoreChar l = true -> rd_input st = (l ++ String newline X)%string ->
  is_reading (l ++ String newline EmptyString) = false /\
  read_one st = word_line HomoRuleArray (l ++ String newline EmptyString) (with_input X st).
Proof.
  intros l X st HP HW HX. unfold plain_line in HP. apply andb_true_iff in HP as [HL HE]. apply negb_true_iff in HE.
  unfold own_word in HW. cbv zeta in HW. apply negb_true_iff in HW. cbn [existsb] in HW. rewrite !orb_false_iff in HW.
  destruct HW as [[H1 [H2 [H3 [H4 _]]]] H5]. split; [exact H5|].
  unfold read_line. rewrite HX, (read_file_short _ HS) by exact HL. cbv iota zeta. rewrite snoc_newline. cbn [negb Z.eqb Pos.eqb].
  rewrite H1, H2, H3, H4. unfold eos_line. now rewrite str_eq_snoc, HE.
Qed.

(** A word line that is printed, with its features behind. *)
Lemma print_line_parts : forall m l, print_line CLASS_num OptDisplay OptExpress m = Ret l ->
  exists s tail, print_mrph CLASS_num m = Ret s /\ l = (s ++ tail)%string.
Proof.
  intros m l H. unfold print_line in H. destruct (print_mrph CLASS_num m) as [s|]; [|discriminate]. exists s.
  destruct (m_f m) as [|a f]; injection H as <-; eexists; (split; [reflexivity|]); [symmetry; apply sapp_nil_r | reflexivity].
Qed.

Lemma eos_words : forall k st, 0 < k -> words_read k st -> exists st', eos_found HomoRuleArray st = Ret (Returns 1 st') /\
  rd_input st' = rd_input st /\ Mrph_num (rd_sp st') = k /\
  forall i, 0 <= i < k -> exists buf buf', mrph_data (rd_sp st') i = fst (rn2canonical_rn (word_read i buf) buf').
Proof.
  intros k st HK HW. pose proof (canonize_words k st HW) as [D1 [D2 [D3 [D4 D5]]]]. unfold eos_found. cbv zeta.
  unfold input_parsed. rewrite (wr_num _ _ HW) in *. replace (k =? 0) with false by lia. rewrite (wr_input _ _ HW). cbn [negb andb Z.eqb].
  rewrite (wr_homo _ _ HW). cbn [negb Z.eqb]. replace (0 <? k) with true in * by lia. eexists. split; [reflexivity|].
  destruct (str_eq _ _); (split; [apply canonize_input | split; [exact D1 | exact D4]]).
Qed.

Lemma read_words : forall n ls rest k f st, 0 <= k -> k + Z.of_nat n <= MRPH_MAX -> 0 < k + Z.of_nat n ->
  let ms := map (mrph_data sp) (zseq k n) in
  forallb readable_word ms = true -> print_lines CLASS_num OptDisplay OptExpress ms = Ret ls ->
  forallb (fun l => plain_line l && own_word OptIgnoreChar l) ls = true ->
  (forall i, k <= i < k + Z.of_nat n -> m_f (mrph_data st0 i) = []) ->
  words_read k st -> rd_input st = lines_text ls rest -> (String.length (rd_input st) < f)%nat ->
  exists st', read_all f st = Ret (1, st') /\ rd_input st' = rest /\ Mrph_num (rd_sp st') = k + Z.of_nat n /\
    forall i, 0 <= i < k + Z.of_nat n -> exists buf buf', mrph_data (rd_sp st') i = fst (rn2canonical_rn (word_read i buf) buf').
Proof.
  induction n as [|n IH]; intros ls rest k [|f] st HK HM HN ms HR HP HL HE HW HX HF; try lia; unfold ms in *; cbn [zseq map print_lines] in *.
  - injection HP as <-. cbn [lines_text] in HX. cbn [read_lines].
    rewrite (read_line_eos HomoRuleArray server_mode OptIgnoreChar OptReadFeature HS HI rest st HX).
    assert (HW' : words_read k (with_input rest st)) by (destruct HW; now split).
    rewrite Z.add_0_r in *. destruct (eos_words k _ HN HW') as [st' [E1 [E2 [E3 E4]]]]. rewrite E1. exists st'. repeat split; auto.
  - destruct (print_line _ _ _ _) as [l|] eqn:EP; [|discriminate]. destruct (print_lines _ _ _ _) as [ls'|] eqn:EL; [|discriminate].
    injection HP as <-. cbn [forallb lines_text] in *. apply andb_true_iff in HL as [HL HL3], HR as [HR1 HR2].
    apply andb_true_iff in HL as [HL1 HL2].
    destruct (read_own_word l _ st HL1 HL2 HX) as [H1 H2].
    destruct (print_line_parts _ _ EP) as [s [tail [EM ->]]].
    assert (HFR : str_free newline (s ++ tail) = true).
    { unfold plain_line, short_line in HL1. rewrite !andb_true_iff in HL1. tauto. }
    set (X := lines_text ls' rest) in *. assert (HW' : words_read k (with_input X st)) by (destruct HW; now split).
    destruct (printed_word_line k (with_input X st) s tail HR1 EM HFR H1 ltac:(lia) ltac:(apply HE; lia) HW') as [st2 [E2 HW2]].
    cbn [read_lines]. rewrite H2, E2. pose proof (word_continues HomoRuleArray ((s ++ tail) ++ String newline EmptyString) (with_input X st)) as HC.
    rewrite E2 in HC. cbn [continues] in HC. change (rd_input (with_input X st)) with X in HC.
    replace (k + Z.of_nat (S n)) with (k + 1 + Z.of_nat n) in * by lia.
    apply (IH ls' rest (k + 1) f st2); auto; try lia.
    + intros i Hi. apply HE. lia.
    + rewrite HC. rewrite HX, length_sapp in HF. cbn [String.length] in HF. lia.
Qed.
End RoundTrip.

Lemma lines_text_app : forall ls rest, (lines_text ls EmptyString ++ rest)%string = lines_text ls rest.
Proof.
  induction ls as [|l ls IH]; intros rest; cbn [lines_text].
  - now rewrite sapp_nil_r.
  - rewrite sapp_assoc. cbn [append]. now rewrite IH.
Qed.

(** C29: Outside the server mode [read_mrph] reads back what [print_mrphs_only] printed of a sentence, with its features behind the
    words: each morpheme has its spellings, numbers and semantic information again, its position as number, and as features the
    parts of the semantic information and the canonical form; and the input is left behind the line EOS.  This is for
    words whose texts have no spaces and fit their arrays, whose semantic information is between quotes with a
    representative form, or NIL for a part of speech that needs none (inflected or not), and whose lines fit into the buffer and do
    not begin like other lines: with #, * or +, with @ like one more reading, or with the character of the comments that are passed
    on.  (A symbol that is one of these characters is printed as such a line, and is not read back.) *)
Theorem print_read_mrphs : forall `{E : RuleEnv} (tests : match_state) rules server_mode ignore with_features
    CLASS_num OptDisplay OptExpress sp ls text st rest,
  server_mode = false -> ignore <> Some "E"%char -> 0 < Mrph_num sp <= MRPH_MAX ->
  let ms := map (mrph_data sp) (zrange 0 (Mrph_num sp)) in
  forallb readable_word ms = true -> print_lines CLASS_num OptDisplay OptExpress ms = Ret ls ->
  forallb (fun l => plain_line l && own_word ignore l) ls = true ->
  print_mrphs_only CLASS_num OptDisplay OptExpress sp = Ret text -> rd_input st = (text ++ rest)%string ->
  Z.land (OptInput (rd_tree st)) OPT_INPUT_PARSED = 0 ->
  (forall i, 0 <= i < Mrph_num sp -> m_f (mrph_data (rd_sp st) i) = []) ->
  exists st', read_mrph (FM := knp_FeatureMatch tests) rules server_mode ignore with_features st = Ret (1, st') /\ rd_input st' = rest /\
    Mrph_num (rd_sp st') = Mrph_num sp /\
    forall i, 0 <= i < Mrph_num sp -> exists buf buf',
      mrph_data (rd_sp st') i = fst (rn2canonical_rn (word_read sp (rd_sp st) i buf) buf').
Proof.
  intros E tests rules sm ig wf C D X sp ls text st rest HS HI HN ms HR HP HL HT HX HO HF. unfold print_mrphs_only in HT.
  fold ms in HT. rewrite HP in HT. injection HT as <-. rewrite lines_text_app in HX. unfold read_mrph.
  assert (HZ : ms = map (mrph_data sp) (zseq 0 (Z.to_nat (Mrph_num sp)))) by (unfold ms, zrange; do 3 f_equal; lia).
  rewrite HZ in *. destruct (read_words (FM := knp_FeatureMatch tests) rules sm ig wf HS HI C D X sp (rd_sp st) (Z.to_nat (Mrph_num sp)) ls rest 0
    (S (String.length (rd_input (start_reading st)))) (start_reading st)) as [st' [E1 [E2 [E3 E4]]]]; auto; try lia.
  - intros i Hi. apply HF. lia.
  - split; try reflexivity; try exact HO; intros; lia.
  - exists st'. rewrite Z.add_0_l, Z2Nat.id in * by lia. auto.
Qed.

(** ** On concrete sentences *)
Definition reader_grammar : Grammar := {|
  Class_id := fun i j =>
    if i =? 6 then if j =? 0 then Some "名詞" else if j =? 1 then Some "普通名詞" else if j =? 5 then Some "人名" else None
    else if i =? 9 then if j =? 0 then Some "助詞" else if j =? 1 then Some "格助詞" else None
    else if (i =? 4) && (j =? 0) then Some "判定詞" else None;
  Type_name := fun i => if i =? 25 then Some "判定詞" else None;
  Form_name := fun i j => if i =? 25 then if j =? 1 then Some "語幹" else if j =? 2 then Some "基本形" else if j =? 14 then Some "デアル列基本形" else None else None |}.
Definition reader_env : RuleEnv := {|
  rule_case := {| case_grammar := reader_grammar; gobi := fun i j => if (i =? 25)%Z then Some (if (j =? 14)%Z then "である" else "だ") else None; OptKatakanaNormalize := true; use_rep_cf := false;
                  ScaseDicExist := false; scase_db := fun _ => None |};
  rule_check := bare_env; OptPosModification := false; InputParsed := false; AutoDicExist := false; used_auto_dic_features := []; auto_dic_db := fun _ => None |}.

Definition no_tree : given_tree :=
  mkGT OPT_INPUT_RAW (fun _ => 0) (fun _ => 0) (fun _ => None) (fun _ => None) (fun _ => 0) (fun _ => 0) (fun _ => []) (fun _ => []).
Definition reading_of (text : string) : read_state :=
  mkRD text (rules_start SENTENCE_DATA_0) 0 (mkWN None None None None) no_tree EmptyString EmptyString 0 None EmptyString.

Definition quote_mark : string := String dquote EmptyString.
(** A comment, a word with two readings and a particle. *)
Definition taro_lines : list string :=
  ["# S-ID:950101-1-1 KNP";
   "太郎 たろう 太郎 名詞 6 人名 5 * 0 * 0 " ++ quote_mark ++ "代表表記:太郎/たろう 人名:日本" ++ quote_mark;
   "@ 太郎 たろう 太郎 名詞 6 普通名詞 1 * 0 * 0 " ++ quote_mark ++ "代表表記:太郎/ふとろう" ++ quote_mark;
   "が が が 助詞 9 格助詞 1 * 0 * 0 NIL"].
(** The tests of the program. *)
Definition reader_tests : FeatureMatch := @knp_FeatureMatch (@rule_check reader_env) CheckFunction.st0.

Definition run_reader (rules : list HomoRule) (text : string) : res (Z * read_state) :=
  @read_mrph reader_env reader_tests rules false None false (reading_of text).

(** A bad line: the sentence is skipped, and the next one is read from where it begins. *)
Lemma read_mrph_frames_witness :
  run_reader [] (lines_text ["太郎 たろう"] (lines_text taro_lines EmptyString)) <> Err OutOfFuel /\
  exists st1, run_reader [] (lines_text ["太郎 たろう"; "が"] (lines_text taro_lines EmptyString)) = Ret (0, st1) /\
    rd_input st1 = lines_text taro_lines EmptyString.
Proof.
  pose proof (@read_mrph_frames reader_env CheckFunction.st0 [] false None false) as H. split; [apply H|].
  destruct (H (reading_of (lines_text ["太郎 たろう"; "が"] (lines_text taro_lines EmptyString)))) as [_ H2].
  specialize (H2 ["太郎 たろう"; "が"] (lines_text taro_lines EmptyString) eq_refl ltac:(discriminate) eq_refl eq_refl).
  unfold run_reader. destruct (read_mrph _ _ _ _ _) as [[flag st1]|] eqn:ER; [|vm_compute in ER; discriminate ER].
  exists st1. split; [|apply (H2 flag st1 eq_refl)]. f_equal. f_equal. vm_compute in ER. now injection ER as <- _.
Defined.

Lemma read_mrph_numbers_witness : exists st', run_reader [] (lines_text taro_lines EmptyString) = Ret (1, st') /\
  Mrph_num (rd_sp st') = 2 /\ (1 <= 2 <= MRPH_MAX /\ forall i, 0 <= i < 2 -> m_num (mrph_data (rd_sp st') i) = i) /\
  m_Goi2 (mrph_data (rd_sp st') 1) = "が" /\ KNPSID (rd_sp st') = "S-ID:950101-1-1" /\ ArticleID st' = "950101-1".
Proof.
  unfold run_reader. destruct (read_mrph _ _ _ _ _) as [[flag st']|] eqn:ER; [|vm_compute in ER; discriminate ER].
  assert (HF : flag = 1) by (vm_compute in ER; now injection ER as <- _). subst flag. exists st'. split; [reflexivity|].
  destruct (@read_mrph_numbers reader_env reader_tests (knp_mrph_tests_end _) [] false None false (reading_of (lines_text taro_lines EmptyString)) st'
    taro_lines EmptyString eq_refl ltac:(discriminate) eq_refl eq_refl ER) as [H1 [H2 H3]].
  split; [exact H1|]. split; [split; [exact H2 | exact H3]|]. vm_compute in ER. injection ER as <-. repeat split.
Defined.

Definition taro : MRPH_DATA :=
  set_m_Imi (in_quotes "代表表記:太郎/たろう 人名:日本") (set_m_Bunrui 5 (set_m_Yomi "たろう" (mrph_of "太郎" 6 ["文頭"; "内容語"]))).
Definition ga : MRPH_DATA := set_m_Imi "NIL" (set_m_Bunrui 1 (mrph_of "が" 9 ["付属"])).
(** An inflected word without semantic information, as in src/perl/t/sample.knp. *)
Definition dearu : MRPH_DATA :=
  set_m_Imi "NIL" (set_m_Katuyou_Kei 14 (set_m_Katuyou_Kata 25 (set_m_Goi "だ" (mrph_of "である" 4 ["活用語"])))).
Definition taro_ga : SENTENCE_DATA :=
  set_Mrph_num 3 (set_mrph_data (fun i => if i =? 0 then taro else if i =? 1 then ga else dearu) SENTENCE_DATA_0).
Definition printed_taro : list string :=
  ["太郎 たろう 太郎 名詞 6 人名 5 * 0 * 0 " ++ in_quotes "代表表記:太郎/たろう 人名:日本" ++ " <文頭><内容語>";
   "が が が 助詞 9 格助詞 1 * 0 * 0 NIL <付属>"; "である である だ 判定詞 4 * 0 判定詞 25 デアル列基本形 14 NIL <活用語>"].

Lemma print_read_mrphs_witness : exists text st', @print_mrphs_only reader_grammar 15 0 0 taro_ga = Ret text /\
  run_reader [] (text ++ "EOS") = Ret (1, st') /\ rd_input st' = "EOS" /\ Mrph_num (rd_sp st') = 3 /\
  m_f (mrph_data (rd_sp st') 0) = ["代表表記:太郎/たろう"; "人名:日本"; "正規化代表表記:太郎/たろう"] /\
  set_m_f [] (mrph_data (rd_sp st') 1) = set_m_f [] (set_m_num 1 (alt_of ga MRPH_DATA_0)) /\
  set_m_f [] (mrph_data (rd_sp st') 2) = set_m_f [] (set_m_num 2 (alt_of dearu MRPH_DATA_0)).
Proof.
  exists (lines_text printed_taro EmptyString).
  destruct (@print_read_mrphs reader_env CheckFunction.st0 [] false None false 15 0 0 taro_ga printed_taro
    (lines_text printed_taro EmptyString) (reading_of (lines_text printed_taro EmptyString ++ "EOS")) "EOS")
    as [st' [H1 [H2 [H3 H4]]]];
    [reflexivity | discriminate | cbn; unfold MRPH_MAX; lia | reflexivity | reflexivity | reflexivity | reflexivity | reflexivity | reflexivity
    | reflexivity |].
  exists st'. split; [reflexivity|]. split; [exact H1|]. split; [exact H2|]. split; [exact H3|]. split; [|split].
  - destruct (H4 0 ltac:(cbn; lia)) as [b [b' E0]]. rewrite E0. reflexivity.
  - destruct (H4 1 ltac:(cbn; lia)) as [b [b' E1]]. rewrite E1. reflexivity.
  - destruct (H4 2 ltac:(cbn; lia)) as [b [b' E2]]. rewrite E2. reflexivity.
Defined.

(** A rule that does not match leaves its preference: the second reading wins although no rule matches. *)
Definition three_classes : HomoRule :=
  mkHR None (Some [mkRM 0 0 0 [6] 0 [1] 0 [0] 0 [] 0 [] []; mkRM 0 0 0 [6] 0 [5] 0 [0] 0 [] 0 [] []; mkRM 0 0 0 [9] 0 [0] 0 [0] 0 [] 0 [] []]) [].

Lemma stale_preference :
  let sp := set_mrph_data (fun i => if i =? 0 then taro else set_m_Bunrui 1 taro) SENTENCE_DATA_0 in
  @find_homo_rule reader_env reader_tests sp 0 [three_classes] 2 0 = Ret (None, 1) /\
  @find_homo_rule reader_env reader_tests sp 0 [] 2 0 = Ret (None, 0).
Proof. split; reflexivity. Qed.
