(* ===== verification/TagDpnd.v ===== *)
(** * The dependencies of the basic phrases (src/system/dpnd_analysis.c)

    [dpnd_info_to_tag] carries the dependencies of the bunsetsus over to the
    basic phrases, the tags: a tag inside a bunsetsu depends on the next one, the last
    one on a tag of the head of its bunsetsu, which rules and the case frames of the
    head choose.  [check_examples] and [rep2id] (case_ipal.c) look a word up among the
    examples of a case frame; the frames of the tags ([cf_ptr]) come from the case
    analysis, which is not modelled, and the numbers of the words from a data base. *)
From Stdlib Require Import ZArith List Bool String Ascii Lia.
Import ListNotations.
From S2P Require Import Prelude CStr Feature Sentence SemCode CheckFunction Regexp PredCase ChangeMrph Rules RuleFile Dpnd Bunsetsu ReadMrph.
Open Scope string_scope.
Open Scope Z_scope.

(** The data base [mrph2id_db], if it is there, and the examples of the first case of the frame of a tag. *)
Class CaseFrames : Type := {
  cf_case :: CaseEnv;
  Mrph2idExist : bool;
  mrph2id_db : string -> option string;
  tag_examples : Z -> option (list string)
}.

(** ** Words as numbers (case_ipal.c) *)

(** The parts between [+] and [?], each with the place where it starts. *)
Fixpoint rep_tokens (s cur : string) (i : Z) : list (string * Z) :=
  let token := if str_eq cur EmptyString then [] else [(cur, i - slen cur)] in
  match s with
  | EmptyString => token
  | String c s' =>
      if Ascii.eqb c "+" || Ascii.eqb c "?" then token ++ rep_tokens s' EmptyString (i + 1)
      else rep_tokens s' (cur ++ String c EmptyString)%string (i + 1)
  end.

(** The byte [rep + (token - 1 - token_start)]: the one before the part, when the first part starts the string. *)
Definition byte_before (rep : string) (token token_start : Z) : string := substring (Z.to_nat (token - 1 - token_start)) 1 rep.

Section TagDpnd.
Context `{C : CaseFrames}.

(** The numbers of the parts that have one, with a byte of [rep] between them. *)
Definition rep2id (rep : string) : string :=
  if Mrph2idExist then
    let tokens := rep_tokens rep EmptyString 0 in
    let token_start := match tokens with [] => 0 | (_, i) :: _ => i end in
    fold_left (fun buffer '(token, i) =>
        match mrph2id_db token with
        | Some value => (if str_eq buffer EmptyString then value else buffer ++ byte_before rep i token_start ++ value)%string
        | None => buffer
        end) tokens EmptyString
  else EmptyString.

(** 「本+図書館」, and a string that starts with [+]: the byte is then not the one before the part. *)
Example rep_tokens_ex : rep_tokens "ab+c" EmptyString 0 = [("ab", 0); ("c", 3)] /\ byte_before "ab+c" 3 0 = "+" /\ byte_before "+a+b" 3 1 = "a".
Proof. repeat split. Qed.

(** The place among the examples, -1 for none. *)
Fixpoint example_index (rep_id : string) (ex_list : list string) (i : Z) : Z :=
  match ex_list with
  | [] => -1
  | e :: ex_list' => if str_eq rep_id e then i else example_index rep_id ex_list' (i + 1)
  end.

Definition check_examples (cp : string) (ex_list : list string) : Z :=
  let rep_id := rep2id cp in
  if str_eq rep_id EmptyString then -1 else example_index rep_id ex_list 0.

(** ** The head of the last tag of a bunsetsu *)

(** The word of a tag that is looked up. *)
Definition tag_word (sp : SENTENCE_DATA) (t : BNST_DATA) : res string :=
  m <- head_at sp t 0 ;;
  if use_rep_cf then
    n <- get_mrph_rep_length (get_mrph_rep m) ;;
    Ret match get_mrph_rep m with Some rep => stake (Z.to_nat n) rep | None => EmptyString end
  else Ret (m_Goi2 m).

(** The offset from the last tag of the head [h] that the rules gave (タグ単位受). *)
Definition rule_offset (b h : BNST_DATA) : res Z :=
  if has_feature (b_f b) "タグ単位受無視" then Ret 0
  else
    match check_feature (b_f h) "タグ単位受" with
    | None => Ret 0
    | Some cp =>
        if slen cp <? slen "タグ単位受:" then Err OutOfBounds
        else
          let offset := atoi (skip "タグ単位受:" cp) in
          Ret (if (0 <? offset) || (b_tag_num h <=? - offset) then 0 else offset)
    end.

(** The examples of the tag that the offset means, and of the ones before it, for A of 「AのBC」:
    A depends on B when B has it as an example and C has not. *)
Definition example_offset (word : string) (h : BNST_DATA) (offset : Z) : option Z :=
  let t := b_tag_ptr h + b_tag_num h - 1 + offset in
  let ac := match tag_examples t with Some ex => check_examples word ex | None => -1 end in
  if ac =? -1 then
    find_up 0 (b_tag_num h - 1 + offset)
      (fun j => match tag_examples (b_tag_ptr h + j) with Some ex => negb (check_examples word ex =? -1) | None => false end)
  else None.

(** The offset for the last tag of bunsetsu [last_b], the tag [i]; a preference for an example is noted as a feature. *)
Definition head_offset (i last_b hd : Z) (sp : SENTENCE_DATA) (buf : string) : res (Z * SENTENCE_DATA * string) :=
  let b := bnst_data sp last_b in
  let h := bnst_data sp hd in
  offset <- rule_offset b h ;;
  if negb (has_feature (b_f b) "タグ単位受無視") && has_feature (b_f (tag_data sp i)) "係:ノ格" && (hd - last_b =? 1) then
    word <- tag_word sp (tag_data sp i) ;;
    match example_offset word h offset with
    | None => Ret (offset, sp, buf)
    | Some j =>
        let offset := j - (b_tag_num h - 1) in
        let fname := ("直前タグ受:" ++ itoa offset)%string in
        let '(f, buf) := assign_cfeature buf (b_f h) fname false in
        let sp := upd_bnst hd (set_b_f f) sp in
        let t := b_tag_ptr h + j in
        let '(f, buf) := assign_cfeature buf (b_f (tag_data sp t)) fname false in
        Ret (offset, upd_tag t (set_b_f f) sp, buf)
    end
  else Ret (offset, sp, buf).

(** ** The loop over the tags *)
Definition set_tag_head (i hd tp : Z) (sp : SENTENCE_DATA) : SENTENCE_DATA :=
  upd_tag i (fun t => set_b_dpnd_type tp (set_b_dpnd_head hd t)) sp.

(** [last_b] is unset before the first tag of a bunsetsu. *)
Definition tag_head_step (dp : DPND) (i : Z) (st : option Z * SENTENCE_DATA * string) : res (option Z * SENTENCE_DATA * string) :=
  let '(last_b, sp, buf) := st in
  let t := tag_data sp i in
  let last_b := if 0 <=? b_bnum t then Some (b_bnum t) else last_b in
  if i =? Tag_num sp - 1 then Ret (last_b, set_tag_head i (-1) (chr "D") sp, buf)
  else if negb (b_inum t =? 0) then Ret (last_b, set_tag_head i (b_num t + 1) (chr "D") sp, buf)
  else
    match last_b with
    | None => Err BadPointer
    | Some k =>
        let hd := head dp k in
        let tp := if (type dp k =? chr "d") || (type dp k =? chr "R") then chr "D" else type dp k in
        if (hd =? -1) && has_feature (b_f (bnst_data sp k)) "タグ単位受無視" then Ret (last_b, set_tag_head i (-1) tp sp, buf)
        else if negb (within 0 hd BNST_MAX) then Err OutOfBounds
        else
          ' (offset, sp, buf) <- head_offset i k hd sp buf ;;
          let h := bnst_data sp hd in
          let j := b_tag_ptr h + b_tag_num h - 1 + offset in
          if negb (within 0 j TAG_MAX) then Err OutOfBounds
          else Ret (last_b, set_tag_head i (b_num (tag_data sp j)) tp sp, buf)
    end.

Definition dpnd_info_to_tag_raw (dp : DPND) (sp : SENTENCE_DATA) (buf : string) : res (SENTENCE_DATA * string) :=
  ' (_, sp, buf) <- for_res 0 (Tag_num sp) (tag_head_step dp) (None, sp, buf) ;; Ret (sp, buf).

(** Parsed input brings its own dependencies (read_data.c). *)
Definition dpnd_info_to_tag_pm (g : given_tree) (sp : SENTENCE_DATA) : SENTENCE_DATA :=
  for_up 0 (Tag_num sp) (fun i sp => set_tag_head i (Tag_dpnd g i) (Tag_type g i) sp) sp.

Definition dpnd_info_to_tag (g : given_tree) (dp : DPND) (sp : SENTENCE_DATA) (buf : string) : res (SENTENCE_DATA * string) :=
  if (OptInput g =? OPT_INPUT_RAW) || negb (Z.land (OptInput g) OPT_INPUT_BNST =? 0) || negb (Z.land (OptInput g) OPT_INPUT_CHUNKED =? 0)
  then dpnd_info_to_tag_raw dp sp buf
  else Ret (dpnd_info_to_tag_pm g sp, buf).
End TagDpnd.

(** * Properties *)

(** Each position is in a segment. *)
Lemma segs_owner : forall starts n ptr num cnt, segs starts n ptr num cnt -> forall i, 0 <= i < n ->
  exists k, 0 <= k < cnt /\ ptr k <= i < ptr k + num k.
Proof.
  intros starts n ptr num cnt S i Hi. assert (HC : 0 < cnt) by (apply (segs_pos _ _ _ _ _ S); lia).
  assert (G : forall k, 0 <= k -> k < cnt -> i < ptr k + num k -> exists k, 0 <= k < cnt /\ ptr k <= i < ptr k + num k).
  { apply (natlike_ind (fun k => k < cnt -> i < ptr k + num k -> exists k, 0 <= k < cnt /\ ptr k <= i < ptr k + num k)).
    - intros H0 HI. exists 0. pose proof (seg_first _ _ _ _ _ S) as F. replace (cnt =? 0) with false in F by lia. lia.
    - intros k Hk IH Hc HI. destruct (Z.le_gt_cases (ptr (Z.succ k)) i); [exists (Z.succ k); lia|]. apply IH; [lia|].
      destruct (seg_next _ _ _ _ _ S k ltac:(lia)) as [P N]. replace (k + 1 =? cnt) with false in N by lia. unfold Z.succ in *. lia. }
  apply (G (cnt - 1)); [lia | lia|]. destruct (segs_last _ _ _ _ _ S HC). lia.
Qed.

(** The tags of a sentence, as [make_tag_units] leaves them. *)
Record tag_structure (sp : SENTENCE_DATA) : Prop := {
  ts_bnsts : 0 < Bnst_num sp <= BNST_MAX;
  ts_tags : 0 < Tag_num sp <= TAG_MAX;
  ts_segs : bnst_tag_segs (Bnst_num sp) sp;
  ts_num : forall t, 0 <= t < Tag_num sp -> b_num (tag_data sp t) = t;
  ts_first : forall k, 0 <= k < Bnst_num sp -> b_bnum (tag_data sp (b_tag_ptr (bnst_data sp k))) = k;
  ts_own : forall k t, 0 <= k < Bnst_num sp ->
      b_tag_ptr (bnst_data sp k) <= t < b_tag_ptr (bnst_data sp k) + b_tag_num (bnst_data sp k) -> b_b_ptr (tag_data sp t) = k;
  ts_inum : forall k, 0 <= k < Bnst_num sp ->
      counted (fun k => b_tag_ptr (bnst_data sp k)) (fun k => b_tag_num (bnst_data sp k)) (fun t => b_inum (tag_data sp t)) k
}.

Lemma tag_units_structure : forall sp0 starts sp, tag_units sp0 starts sp -> 0 < Bnst_num sp0 <= BNST_MAX -> 0 < Tag_num sp <= TAG_MAX ->
  tag_structure sp.
Proof.
  intros sp0 starts sp TU HB HT. destruct (tg_bnst _ _ _ TU) as [HN _]. split; rewrite ?HN; auto.
  - exact (tg_btags _ _ _ TU).
  - intros t Ht. apply (tg_tnum _ _ _ TU t Ht).
  - intros k Hk. apply (tg_head _ _ _ TU k Hk).
  - exact (tg_own _ _ _ TU).
  - exact (tg_inum _ _ _ TU).
Qed.

(** The fields that say which tags belong to which bunsetsu, and the words of the tags, stay. *)
Record same_tags (sp sp' : SENTENCE_DATA) : Prop := {
  st_bnum : Bnst_num sp' = Bnst_num sp;
  st_tnum : Tag_num sp' = Tag_num sp;
  st_mrphs : mrph_data sp' = mrph_data sp;
  st_bnst : forall k, b_tag_ptr (bnst_data sp' k) = b_tag_ptr (bnst_data sp k) /\ b_tag_num (bnst_data sp' k) = b_tag_num (bnst_data sp k);
  st_tag : forall t, b_num (tag_data sp' t) = b_num (tag_data sp t) /\ b_bnum (tag_data sp' t) = b_bnum (tag_data sp t) /\
      b_b_ptr (tag_data sp' t) = b_b_ptr (tag_data sp t) /\ b_inum (tag_data sp' t) = b_inum (tag_data sp t) /\
      b_head_ptr (tag_data sp' t) = b_head_ptr (tag_data sp t)
}.

Lemma same_tags_refl : forall sp, same_tags sp sp.
Proof. intros sp. split; auto. Qed.

Lemma same_tags_trans : forall a b c, same_tags a b -> same_tags b c -> same_tags a c.
Proof.
  intros a b c [A1 A2 A3 A4 A5] [B1 B2 B3 B4 B5]. split; try congruence.
  - intros k. destruct (A4 k), (B4 k). split; congruence.
  - intros t. destruct (A5 t) as (? & ? & ? & ? & ?), (B5 t) as (? & ? & ? & ? & ?). repeat split; congruence.
Qed.

Lemma same_tags_bnst : forall sp i u, (forall b, b_tag_ptr (u b) = b_tag_ptr b /\ b_tag_num (u b) = b_tag_num b) -> same_tags sp (upd_bnst i u sp).
Proof.
  intros sp i u H. split; auto. intros k. rewrite upd_bnst_at. destruct (Z.eqb_spec k i) as [->|]; [apply H | auto].
Qed.

Lemma same_tags_tag : forall sp i u, (forall b, b_num (u b) = b_num b /\ b_bnum (u b) = b_bnum b /\ b_b_ptr (u b) = b_b_ptr b /\
  b_inum (u b) = b_inum b /\ b_head_ptr (u b) = b_head_ptr b) -> same_tags sp (upd_tag i u sp).
Proof.
  intros sp i u H. split; auto. intros t. rewrite upd_tag_at. destruct (Z.eqb_spec t i) as [->|]; [apply H | auto].
Qed.

Lemma same_tags_structure : forall sp sp', same_tags sp sp' -> tag_structure sp -> tag_structure sp'.
Proof.
  intros sp sp' [B1 B2 B3 B4 B5] [S1 S2 S3 S4 S5 S6 S7]. split; rewrite ?B1, ?B2; auto.
  - unfold bnst_tag_segs in *. rewrite B2. eapply segs_ext; [exact S3 | |].
    + intros t Ht. now destruct (B5 t) as (_ & -> & _).
    + intros k Hk. apply B4.
  - intros t Ht. destruct (B5 t) as (-> & _). auto.
  - intros k Hk. destruct (B4 k) as [-> _]. destruct (B5 (b_tag_ptr (bnst_data sp k))) as (_ & -> & _). auto.
  - intros k t Hk Ht. destruct (B4 k) as [E1 E2]. rewrite E1, E2 in Ht. destruct (B5 t) as (_ & _ & -> & _). auto.
  - intros k Hk j Hj. destruct (B4 k) as [E1 E2]. rewrite E1, E2 in *. destruct (B5 j) as (_ & _ & _ & -> & _). now apply S7.
Qed.

(** The features of the rules say an offset. *)
Definition offsets_ok (sp : SENTENCE_DATA) : Prop := forall k cp, 0 <= k < Bnst_num sp -> In cp (b_f (bnst_data sp k)) ->
  comp_feature cp "タグ単位受" = true -> slen "タグ単位受:" <= slen cp.

Lemma assigned_in : forall key fname f x, In x (assign_walk key fname false f) -> x = fname \/ In x f.
Proof.
  intros key fname. induction f as [|a f IH]; intros x H; cbn [assign_walk] in H.
  - destruct H as [<-|[]]. now left.
  - destruct (comp_feature a key); destruct H as [<-|H]; cbn; auto. destruct (IH x H); auto.
Qed.

Lemma check_feature_in : forall f g cp, check_feature f g = Some cp -> In cp f /\ comp_feature cp g = true.
Proof.
  induction f as [|a f IH]; intros g cp H; cbn [check_feature] in H; [discriminate|].
  destruct (comp_feature a g) eqn:E; [injection H as <-; cbn; auto|]. destruct (IH g cp H). cbn. auto.
Qed.

Section Heads.
Context `{C : CaseFrames}.

Definition words_known (sp : SENTENCE_DATA) : Prop := forall t, 0 <= t < Tag_num sp -> is_ret (tag_word sp (tag_data sp t)) = true.

Lemma same_tags_words : forall sp sp', same_tags sp sp' -> words_known sp -> words_known sp'.
Proof.
  intros sp sp' [B1 B2 B3 B4 B5] H t Ht. rewrite B2 in Ht. specialize (H t Ht). destruct (B5 t) as (_ & _ & _ & _ & E).
  unfold tag_word, head_at, mrph_ref in *. now rewrite E, B3.
Qed.

Lemma rule_offset_ok : forall b h, 0 < b_tag_num h ->
  (forall cp, In cp (b_f h) -> comp_feature cp "タグ単位受" = true -> slen "タグ単位受:" <= slen cp) ->
  exists offset, rule_offset b h = Ret offset /\ - b_tag_num h < offset <= 0.
Proof.
  intros b h HN HO. unfold rule_offset. destruct (has_feature (b_f b) "タグ単位受無視"); [exists 0; split; [reflexivity | lia]|].
  destruct (check_feature (b_f h) "タグ単位受") as [cp|] eqn:E; [|exists 0; split; [reflexivity | lia]].
  apply check_feature_in in E as [E1 E2]. specialize (HO cp E1 E2). destruct (Z.ltb_spec (slen cp) (slen "タグ単位受:")); [lia|].
  eexists. split; [reflexivity|]. destruct (Z.ltb_spec 0 (atoi (skip "タグ単位受:" cp))); cbn [orb]; [lia|].
  destruct (Z.leb_spec (b_tag_num h) (- atoi (skip "タグ単位受:" cp))); lia.
Qed.

(** What the choice of a head changes. *)
Definition chosen (sp sp' : SENTENCE_DATA) : Prop :=
  same_tags sp sp' /\ offsets_ok sp' /\ forall t, b_dpnd_head (tag_data sp' t) = b_dpnd_head (tag_data sp t).

Lemma head_offset_ok : forall i k hd sp buf, tag_structure sp -> offsets_ok sp -> words_known sp ->
  0 <= i < Tag_num sp -> 0 <= hd < Bnst_num sp ->
  exists offset sp' buf', head_offset i k hd sp buf = Ret (offset, sp', buf') /\
    - b_tag_num (bnst_data sp hd) < offset <= 0 /\ chosen sp sp'.
Proof.
  intros i k hd sp buf HS HO HW Hi Hh. destruct (seg_next _ _ _ _ _ (ts_segs _ HS) hd Hh) as [HN _].
  destruct (rule_offset_ok (bnst_data sp k) (bnst_data sp hd) HN (fun cp => HO hd cp Hh)) as [o [E1 E2]].
  assert (HR : chosen sp sp) by (split; [apply same_tags_refl | split; [exact HO | reflexivity]]).
  unfold head_offset. cbv zeta. rewrite E1. case_goal; [|exists o, sp, buf; auto].
  specialize (HW i Hi). destruct (tag_word sp (tag_data sp i)) as [word|]; [|discriminate].
  destruct (example_offset word (bnst_data sp hd) o) as [j|] eqn:EJ; [|exists o, sp, buf; auto].
  unfold example_offset in EJ. cbv zeta in EJ. case_hyp EJ; [|discriminate]. apply find_up_some in EJ as [HJ _].
  set (fname := ("直前タグ受:" ++ itoa (j - (b_tag_num (bnst_data sp hd) - 1)))%string). unfold assign_cfeature.
  eexists _, _, _. split; [reflexivity|]. split; [lia|]. split; [|split].
  - eapply same_tags_trans; [apply same_tags_bnst | apply same_tags_tag]; repeat split.
  - intros l cp Hl Hcp HC. cbn [bnst_data upd_tag set_tag_data] in Hcp. rewrite upd_bnst_at in Hcp. destruct (Z.eqb_spec l hd) as [->|].
    + cbn [b_f set_b_f] in Hcp. apply assigned_in in Hcp as [->|Hcp]; [discriminate HC | exact (HO hd cp Hh Hcp HC)].
    + exact (HO l cp Hl Hcp HC).
  - intros t. rewrite upd_tag_at. destruct (Z.eqb_spec t (b_tag_ptr (bnst_data sp hd) + j)) as [->|]; reflexivity.
Qed.

(** ** The tree of the tags

    The head [h] of tag [t]: inside the bunsetsu the next tag, and behind its last tag a tag of the head of the bunsetsu. *)
Definition head_spec (dp : DPND) (sp : SENTENCE_DATA) (t h : Z) : Prop :=
  if t =? Tag_num sp - 1 then h = -1
  else t < h < Tag_num sp /\
    if b_inum (tag_data sp t) =? 0 then b_b_ptr (tag_data sp h) = head dp (b_b_ptr (tag_data sp t))
    else h = t + 1 /\ b_b_ptr (tag_data sp h) = b_b_ptr (tag_data sp t).

Lemma head_spec_same : forall dp sp sp' t h, same_tags sp sp' -> head_spec dp sp' t h -> head_spec dp sp t h.
Proof.
  intros dp sp sp' t h [B1 B2 B3 B4 B5] H. unfold head_spec in *. rewrite B2 in H.
  destruct (B5 t) as (_ & _ & E1 & E2 & _), (B5 h) as (_ & _ & E3 & _). now rewrite E1, E2, E3 in H.
Qed.

Definition heads_upto (dp : DPND) (sp0 : SENTENCE_DATA) (i : Z) (st : option Z * SENTENCE_DATA * string) : Prop :=
  let '(last_b, sp, _) := st in
  (0 < i -> last_b = Some (b_b_ptr (tag_data sp0 (i - 1)))) /\ same_tags sp0 sp /\ offsets_ok sp /\
  forall t, 0 <= t < i -> head_spec dp sp0 t (b_dpnd_head (tag_data sp t)).

(** The bunsetsu of a tag. *)
Lemma last_bnst : forall sp i last_b, tag_structure sp -> 0 <= i < Tag_num sp ->
  (0 < i -> last_b = Some (b_b_ptr (tag_data sp (i - 1)))) ->
  let k := b_b_ptr (tag_data sp i) in
  0 <= k < Bnst_num sp /\ b_tag_ptr (bnst_data sp k) <= i < b_tag_ptr (bnst_data sp k) + b_tag_num (bnst_data sp k) /\
  (if 0 <=? b_bnum (tag_data sp i) then Some (b_bnum (tag_data sp i)) else last_b) = Some k.
Proof.
  intros sp i last_b HS Hi HL k. destruct (segs_owner _ _ _ _ _ (ts_segs _ HS) i Hi) as [k' [Hk Hik]]. cbv beta in Hik.
  assert (EK : k = k') by (exact (ts_own _ HS k' i Hk Hik)). rewrite EK. clearbody k. subst k. split; [exact Hk|]. split; [exact Hik|].
  destruct (Z.eq_dec i (b_tag_ptr (bnst_data sp k'))) as [->|HN].
  - rewrite (ts_first _ HS k' Hk). now replace (0 <=? k') with true by lia.
  - assert (HK : b_tag_ptr (bnst_data sp k') < i < b_tag_ptr (bnst_data sp k') + b_tag_num (bnst_data sp k')) by lia.
    pose proof (seg_inside _ _ _ _ _ (ts_segs _ HS) k' i Hk HK) as HF. cbv beta in HF. rewrite HF.
    destruct (segs_le _ _ _ _ _ (ts_segs _ HS) k' Hk). rewrite HL by lia. f_equal. apply (ts_own _ HS k'); [exact Hk | lia].
Qed.

Lemma store_head : forall dp sp0 i last_b sp buf hd tp, tag_structure sp0 -> 0 <= i < Tag_num sp0 -> same_tags sp0 sp -> offsets_ok sp ->
  last_b = Some (b_b_ptr (tag_data sp0 i)) ->
  (forall t, 0 <= t < i -> head_spec dp sp0 t (b_dpnd_head (tag_data sp t))) -> head_spec dp sp0 i hd ->
  heads_upto dp sp0 (i + 1) (last_b, set_tag_head i hd tp sp, buf).
Proof.
  intros dp sp0 i last_b sp buf hd tp HS Hi HT HO HL HB HH. unfold heads_upto. split; [|split; [|split]].
  - intros _. now replace (i + 1 - 1) with i by lia.
  - eapply same_tags_trans; [exact HT|]. apply same_tags_tag. repeat split.
  - exact HO.
  - intros t Ht. unfold set_tag_head. rewrite upd_tag_at. destruct (Z.eqb_spec t i) as [->|]; [exact HH | apply HB; lia].
Qed.

Lemma tag_step_ok : forall dp sp0 i st, tag_structure sp0 -> words_known sp0 ->
  (forall k, 0 <= k < Bnst_num sp0 - 1 -> k < head dp k < Bnst_num sp0) ->
  0 <= i < Tag_num sp0 -> heads_upto dp sp0 i st -> exists st', tag_head_step dp i st = Ret st' /\ heads_upto dp sp0 (i + 1) st'.
Proof.
  intros dp sp0 i [[last_b sp] buf] HS0 HW0 HD Hi [HL [HT [HO HB]]].
  pose proof (same_tags_structure _ _ HT HS0) as HS. pose proof (same_tags_words _ _ HT HW0) as HW.
  pose proof (st_bnum _ _ HT) as B1. pose proof (st_tnum _ _ HT) as B2. pose proof (st_bnst _ _ HT) as B4. destruct (st_tag _ _ HT i) as (F1 & F2 & F3 & F4 & _).
  destruct (last_bnst sp0 i last_b HS0 Hi HL) as [Hk [Hik EL]]. set (k := b_b_ptr (tag_data sp0 i)) in *.
  unfold tag_head_step. rewrite F2, EL, B2, F4, F1, (ts_num _ HS0 i Hi).
  destruct (Z.eqb_spec i (Tag_num sp0 - 1)) as [HE|HE].
  { eexists. split; [reflexivity|]. apply store_head; auto. unfold head_spec. now replace (i =? Tag_num sp0 - 1) with true by lia. }
  pose proof (ts_inum _ HS0 k Hk i Hik) as HI. cbv beta in HI.
  destruct (Z.eqb_spec (b_inum (tag_data sp0 i)) 0) as [HZ|HZ]; cbn [negb].
  2:{ eexists. split; [reflexivity|]. apply store_head; auto. unfold head_spec. replace (i =? Tag_num sp0 - 1) with false by lia.
      replace (b_inum (tag_data sp0 i) =? 0) with false by lia. split; [lia|]. split; [reflexivity|].
      apply (ts_own _ HS0 k); [exact Hk | lia]. }
  assert (HKL : k < Bnst_num sp0 - 1).
  { destruct (Z.eq_dec k (Bnst_num sp0 - 1)) as [E|]; [|lia]. exfalso.
    assert (HC : 0 < Bnst_num sp0) by lia. destruct (segs_last _ _ _ _ _ (ts_segs _ HS0) HC). rewrite E in *. lia. }
  specialize (HD k ltac:(lia)). pose proof (ts_bnsts _ HS0) as HBM.
  replace (head dp k =? -1) with false by lia. cbn [andb].
  assert (HWI : within 0 (head dp k) BNST_MAX = true) by (unfold within; lia). rewrite HWI. cbn [negb].
  destruct (head_offset_ok i k (head dp k) sp buf HS HO HW ltac:(lia) ltac:(lia)) as [o [sp' [buf' [E1 [E2 [CT [CO CH]]]]]]].
  rewrite E1. cbv zeta. pose proof (same_tags_trans _ _ _ HT CT) as HT'. destruct (st_bnst _ _ HT' (head dp k)) as [G1 G2].
  destruct (B4 (head dp k)) as [_ G3]. rewrite G1, G2. rewrite G3 in E2.
  set (h := head dp k) in *. set (j := b_tag_ptr (bnst_data sp0 h) + b_tag_num (bnst_data sp0 h) - 1 + o).
  assert (HH : 0 <= h < Bnst_num sp0) by lia. destruct (segs_le _ _ _ _ _ (ts_segs _ HS0) h HH) as [L1 L2].
  assert (K1 : 0 <= k) by lia. assert (K2 : k < h) by lia. pose proof (segs_mono _ _ _ _ _ (ts_segs _ HS0) k h K1 K2 ltac:(lia)) as L3.
  cbv beta in L1, L2, L3. pose proof (ts_tags _ HS0). assert (HJ : within 0 j TAG_MAX = true) by (unfold within, j; lia). rewrite HJ. cbn [negb].
  eexists. split; [reflexivity|]. destruct (st_tag _ _ HT' j) as [-> _]. rewrite (ts_num _ HS0 j) by (unfold j; lia).
  apply store_head; auto.
  - intros t Ht. rewrite CH. now apply HB.
  - unfold head_spec. replace (i =? Tag_num sp0 - 1) with false by lia. rewrite HZ. cbn [Z.eqb]. split; [unfold j; lia|].
    fold k h. apply (ts_own _ HS0 h); [lia | unfold j; lia].
Qed.
End Heads.

(** C23: When every bunsetsu but the last depends on a later one, [dpnd_info_to_tag_raw] makes a tree of the tags,
    rooted in the last one: a tag inside a bunsetsu depends on the next tag, and the last tag of a bunsetsu on a tag of
    the head of the bunsetsu, so that the tree of the tags lies over the tree of the bunsetsus, whatever the offsets of the
    rules and the examples of the case frames are.  No index leaves its array. *)
Theorem tag_dependencies : forall `{C : CaseFrames} dp sp buf, tag_structure sp -> words_known sp -> offsets_ok sp ->
  (forall k, 0 <= k < Bnst_num sp - 1 -> k < head dp k < Bnst_num sp) ->
  exists sp' buf', dpnd_info_to_tag_raw dp sp buf = Ret (sp', buf') /\ same_tags sp sp' /\
    forall t, 0 <= t < Tag_num sp -> head_spec dp sp t (b_dpnd_head (tag_data sp' t)).
Proof.
  intros C dp sp buf HS HW HO HD. unfold dpnd_info_to_tag_raw.
  destruct (for_res_total (fun i st => heads_upto dp sp i st) (tag_head_step dp) 0 (Tag_num sp) (None, sp, buf)) as [[[l sp'] buf'] [E H]].
  - pose proof (ts_tags _ HS). lia.
  - intros i st Hi H. apply tag_step_ok; auto.
  - split; [lia|]. split; [apply same_tags_refl|]. split; [exact HO|]. intros t Ht. lia.
  - rewrite E. destruct H as [_ [H1 [_ H3]]]. eauto.
Qed.

(** 「本を」「古い図書館が」: the head of the second bunsetsu is its last tag, or the first one when the rules say so. *)
Definition tags_example (f : FEATURE) : SENTENCE_DATA :=
  set_Bnst_num 2 (set_Tag_num 3 (set_bnst_data (fun i =>
      if i =? 0 then set_b_tag_num 1 BNST_DATA_0 else set_b_f f (set_b_tag_num 2 (set_b_tag_ptr 1 (set_b_num 1 BNST_DATA_0))))
    (set_tag_data (fun t =>
      set_b_head_ptr (Some t) (if t =? 0 then BNST_DATA_0
      else if t =? 1 then set_b_num 1 (set_b_bnum 1 (set_b_b_ptr 1 (set_b_inum 1 BNST_DATA_0)))
      else set_b_num 2 (set_b_bnum (-1) (set_b_b_ptr 1 BNST_DATA_0)))) SENTENCE_DATA_0))).
Definition frames_example : CaseFrames := {|
  cf_case := {| case_grammar := example_grammar; gobi := fun _ _ => None; OptKatakanaNormalize := false; use_rep_cf := false;
                ScaseDicExist := false; scase_db := fun _ => None |};
  Mrph2idExist := false; mrph2id_db := fun _ => None; tag_examples := fun _ => None |}.
Definition next_head : DPND :=
  mkDPND (fun i => if i =? 0 then 1 else -1) (fun _ => chr "D") (fun _ => 0) (fun _ => 0) 0 (fun _ => mkCHECK 0 0 (fun _ => 0)) (fun _ => []).

Lemma tags_example_ok : forall f, tag_structure (tags_example f).
Proof.
  assert (H2 : forall k, 0 <= k < 2 -> k = 0 \/ k = 1) by lia. intros f. split.
  - cbn. unfold BNST_MAX. lia.
  - cbn. unfold TAG_MAX. lia.
  - split; cbn; [lia | reflexivity | | |].
    + intros k Hk. destruct (H2 k Hk) as [->| ->]; cbn; lia.
    + intros k Hk. destruct (H2 k Hk) as [->| ->]; reflexivity.
    + intros k i Hk Hi. destruct (H2 k Hk) as [->| ->]; cbn in Hi; [lia|]. replace i with 2 by lia. reflexivity.
  - intros t Ht. cbn in Ht. assert (t = 0 \/ t = 1 \/ t = 2) as [->|[->| ->]] by lia; reflexivity.
  - intros k Hk. destruct (H2 k Hk) as [->| ->]; reflexivity.
  - intros k t Hk Ht. destruct (H2 k Hk) as [->| ->]; cbn in Ht; [replace t with 0 by lia; reflexivity|].
    assert (t = 1 \/ t = 2) as [->| ->] by lia; reflexivity.
  - intros k Hk j Hj. destruct (H2 k Hk) as [->| ->]; cbn in Hj; [replace j with 0 by lia; reflexivity|].
    assert (j = 1 \/ j = 2) as [->| ->] by lia; reflexivity.
Defined.

Lemma tag_dependencies_witness : exists sp' buf',
  @dpnd_info_to_tag_raw frames_example next_head (tags_example ["タグ単位受:-1"]) EmptyString = Ret (sp', buf') /\
  map (fun t => b_dpnd_head (tag_data sp' t)) [0; 1; 2] = [1; 2; -1] /\
  forall t, 0 <= t < 3 ->
    head_spec next_head (tags_example ["タグ単位受:-1"]) t (b_dpnd_head (tag_data sp' t)).
Proof.
  destruct (@tag_dependencies frames_example next_head (tags_example ["タグ単位受:-1"]) EmptyString) as [sp' [buf' [E [_ H]]]].
  - apply tags_example_ok.
  - intros t Ht. cbn in Ht. assert (t = 0 \/ t = 1 \/ t = 2) as [->|[->| ->]] by lia; reflexivity.
  - intros k cp Hk Hcp _. cbn in Hk. assert (k = 0 \/ k = 1) as [->| ->] by lia; [destruct Hcp|]. destruct Hcp as [<-|[]]. vm_compute. discriminate.
  - intros k Hk. cbn in Hk. replace k with 0 by lia. cbn. lia.
  - exists sp', buf'. split; [exact E|]. split; [|exact H]. vm_compute in E. injection E as <- _. reflexivity.
Defined.
