(* ===== verification/TagTree.v ===== *)
(** * The trees of the basic phrases and of the morphemes (src/system/tree_conv.c)

    [bnst_to_tag_tree] refines the tree of the bunsetsus, with its nodes for
    coordinations, to a tree of the basic phrases (tags), and
    [bnst_to_mrph_tree] to a tree of the morphemes.  A link is an index of
    [tag_data] or [mrph_data]; the units of the inserted nodes follow the ones of the
    sentence.  A pointer before or behind an array, and the child that does not
    fit the array of its parent, are errors.  Japanese. *)
From Stdlib Require Import ZArith List Bool String Ascii Lia Permutation.
Import ListNotations.
From S2P Require Import Prelude CStr Feature Sentence SemCode CheckFunction Regexp PredCase ChangeMrph Rules RuleFile ParaDpnd Dpnd Bunsetsu Tree ReadMrph TagDpnd.
Open Scope string_scope.
Open Scope Z_scope.

(** ** Links *)

Definition init_tag_tree_property (sp : SENTENCE_DATA) : SENTENCE_DATA :=
  for_up 0 TAG_MAX (fun i => upd_tag i clear_tree) sp.

(** [p->...], [t->parent = p] and [t_add_node(p, t, -1)] on tags. *)
Definition tag_ref (t : Z) : res Z := if within 0 t TAG_MAX then Ret t else Err OutOfBounds.

Definition t_add_tag (p t : Z) (sp : SENTENCE_DATA) : res SENTENCE_DATA :=
  p <- tag_ref p ;;
  let cs := b_child (tag_data sp p) in
  if PARA_PART_MAX <=? zlen cs + 1 then Err OutOfBounds else Ret (upd_tag p (set_b_child (cs ++ [t])) sp).

Definition attach_tag (p t : Z) (sp : SENTENCE_DATA) : res SENTENCE_DATA :=
  t <- tag_ref t ;; t_add_tag p t (upd_tag t (set_b_parent (Some p)) sp).

Definition para_info_to_tag (bp tp : BNST_DATA) : BNST_DATA :=
  set_b_to_para_p (b_to_para_p bp) (set_b_para_type (b_para_type bp) (set_b_para_top_p (b_para_top_p bp)
    (set_b_para_key_type (b_para_key_type bp) (set_b_para_num (b_para_num bp) tp)))).

(** ** The head of a bunsetsu among its tags *)

(** The number behind the colon of a rule's feature, for a bunsetsu of [n] tags. *)
Definition feature_offset (cp : option string) (n : Z) : Z :=
  match cp with
  | None => 0
  | Some cp =>
      match strchr colon cp with
      | None => 0
      | Some cp2 => let offset := atoi (sdrop 1 cp2) in if (0 <? offset) || (n <=? - offset) then 0 else offset
      end
  end.

Definition offset_feature (f : FEATURE) : option string :=
  match check_feature f "タグ単位受" with Some cp => Some cp | None => check_feature f "直前タグ受" end.

(** A tag that the post-processing merged has the number -1. *)
Definition merged_tag (sp : SENTENCE_DATA) (t : Z) : bool := b_num (tag_data sp t) =? -1.

(** From tag [gov] of the bunsetsu to the left, the one after [target_offset] others; -1: there is none. *)
Fixpoint last_tag_go (sp : SENTENCE_DATA) (tag_ptr : Z) (govs : list Z) (target_offset : Z) : Z :=
  match govs with
  | [] => -1
  | gov :: govs =>
      if merged_tag sp (tag_ptr + gov) then last_tag_go sp tag_ptr govs target_offset
      else if target_offset <=? 0 then gov
      else last_tag_go sp tag_ptr govs (target_offset - 1)
  end.

Definition last_tag (sp : SENTENCE_DATA) (tag_ptr gov target_offset : Z) : Z :=
  last_tag_go sp tag_ptr (rev (zrange 0 (gov + 1))) target_offset.

Definition find_head_tag_from_bnst (sp : SENTENCE_DATA) (bp : BNST_DATA) (target_offset : Z) : Z :=
  last_tag sp (b_tag_ptr bp) (b_tag_num bp - 1 + feature_offset (offset_feature (b_f bp)) (b_tag_num bp)) target_offset.

(** With タグ単位受無視 the head is the last tag. *)
Definition find_head_tag_from_dpnd_bnst (sp : SENTENCE_DATA) (bp parent : BNST_DATA) : Z :=
  let offset := if has_feature (b_f bp) "タグ単位受無視" then 0
                else feature_offset (offset_feature (b_f parent)) (b_tag_num parent) in
  last_tag sp (b_tag_ptr parent) (b_tag_num parent - 1 + offset) 0.

(** [while (tp->parent) tp = tp->parent;] *)
Fixpoint top_tag (fuel : nat) (sp : SENTENCE_DATA) (t : Z) : res Z :=
  match b_parent (tag_data sp t), fuel with
  | None, _ => Ret t
  | Some _, O => Err OutOfFuel
  | Some p, S f => p <- tag_ref p ;; top_tag f sp p
  end.

(** ** bnst_to_tag_tree *)

(** Each of the first [last] tags is linked to the next one that is not merged. *)
Definition link_inside (tag_ptr last : Z) (sp : SENTENCE_DATA) : res SENTENCE_DATA :=
  for_res 0 last (fun j sp =>
    match find_up (j + 1) (last + 1) (fun gov => negb (merged_tag sp (tag_ptr + gov))) with
    | Some gov => if merged_tag sp (tag_ptr + j) then Ret sp else attach_tag (tag_ptr + gov) (tag_ptr + j) sp
    | None => Ret sp
    end) sp.

Definition head_tag (sp : SENTENCE_DATA) (bp : BNST_DATA) : Z :=
  let head := find_head_tag_from_bnst sp bp 0 in if head <? 0 then b_tag_num bp - 1 else head.

(** The tags behind the head, from the node of the coordination up. *)
Definition link_behind (bp : BNST_DATA) (head gov_tag : Z) (sp : SENTENCE_DATA) : res SENTENCE_DATA :=
  ' (tp, sp) <- for_res (head + 1) (b_tag_num bp) (fun j '(tp, sp) =>
      let t := b_tag_ptr bp + j in
      if merged_tag sp t then Ret (tp, sp) else sp <- attach_tag t tp sp ;; Ret (t, sp)) (gov_tag, sp) ;;
  tp <- tag_ref tp ;; Ret (upd_tag tp (set_b_parent None) sp).

(** The tags before the head, below the copy [new] of the head. *)
Definition link_before (bp : BNST_DATA) (head new : Z) (sp : SENTENCE_DATA) : res SENTENCE_DATA :=
  let pre_bp_num := find_head_tag_from_bnst sp bp 1 in
  if negb (b_para_top_p bp) && (0 <? head) && (0 <=? pre_bp_num) then
    sp <- attach_tag new (b_tag_ptr bp + pre_bp_num) sp ;; link_inside (b_tag_ptr bp) pre_bp_num sp
  else Ret sp.

(** A node that was inserted for a coordination: its head is copied behind the tags. *)
Definition new_bnst_to_tag (i : Z) (sp : SENTENCE_DATA) : res SENTENCE_DATA :=
  let b := Bnst_num sp + i in
  let bp := bnst_data sp b in
  let head := head_tag sp bp in
  src <- tag_ref (b_tag_ptr bp + head) ;;
  new <- tag_ref (Tag_num sp + New_Tag_num sp) ;;
  let sp := upd_tag new (fun _ => set_b_child [] (para_info_to_tag bp (tag_data sp src))) sp in
  let sp := set_New_Tag_num (New_Tag_num sp + 1) sp in
  sp <- link_before bp head new sp ;;
  match b_parent bp with
  | None => Err NullDeref
  | Some p =>
      let parent := bnst_data sp p in
      let gov_tag := b_tag_ptr parent + find_head_tag_from_dpnd_bnst sp bp parent in
      sp <- attach_tag gov_tag new sp ;;
      sp <- (if p <? Bnst_num sp then link_behind bp head gov_tag sp else Ret sp) ;;
      Ret (upd_bnst b (fun bp => set_b_tag_num 1 (set_b_tag_ptr new bp)) sp)
  end.

(** The last tag of a bunsetsu, or the top of the links of its coordination, is linked to the parent. *)
Definition link_last (bp : BNST_DATA) (sp : SENTENCE_DATA) : res SENTENCE_DATA :=
  match b_parent bp with
  | None => Ret sp
  | Some p =>
      let parent := bnst_data sp p in
      tp <- tag_ref (b_tag_ptr bp + last_tag sp (b_tag_ptr bp) (b_tag_num bp - 1) 0) ;;
      tp <- (if b_para_top_p bp then top_tag (Z.to_nat TAG_MAX) sp tp else Ret tp) ;;
      attach_tag (b_tag_ptr parent + find_head_tag_from_dpnd_bnst sp bp parent) tp sp
  end.

(** A bunsetsu of the sentence; [last_b_flag] until the last one was seen. *)
Definition orig_bnst_to_tag (i : Z) (st : bool * SENTENCE_DATA) : res (bool * SENTENCE_DATA) :=
  let '(last_b_flag, sp) := st in
  let bp := bnst_data sp i in
  if b_num bp =? -1 then Ret (last_b_flag, sp)
  else
    t <- tag_ref (b_tag_ptr bp + head_tag sp bp) ;;
    let sp := upd_tag t (para_info_to_tag bp) sp in
    sp <- (if b_para_top_p bp then Ret sp else link_inside (b_tag_ptr bp) (b_tag_num bp - 1) sp) ;;
    if last_b_flag then Ret (false, sp) else sp <- link_last bp sp ;; Ret (false, sp).

Definition bnst_to_tag_tree (sp : SENTENCE_DATA) : res SENTENCE_DATA :=
  let sp := set_New_Tag_num 0 (init_tag_tree_property sp) in
  sp <- fold_res new_bnst_to_tag (rev (zrange 0 (New_Bnst_num sp))) sp ;;
  ' (_, sp) <- fold_res orig_bnst_to_tag (rev (zrange 0 (Bnst_num sp))) (true, sp) ;;
  Ret sp.

(** * The tree of the morphemes *)

Definition clear_mrph_tree (m : MRPH_DATA) : MRPH_DATA :=
  set_m_to_para_p false (set_m_para_type PARA_NIL (set_m_para_top_p false (set_m_child [] (set_m_parent None m)))).

Definition init_mrph_tree_property (sp : SENTENCE_DATA) : SENTENCE_DATA :=
  for_up 0 MRPH_MAX (fun i => upd_mrph i clear_mrph_tree) sp.

Definition mrph_place (i : Z) : res Z := if within 0 i MRPH_MAX then Ret i else Err OutOfBounds.

Definition attach_mrph (p m : Z) (sp : SENTENCE_DATA) : res SENTENCE_DATA :=
  m <- mrph_place m ;;
  let sp := upd_mrph m (set_m_parent (Some p)) sp in
  p <- mrph_place p ;;
  let cs := m_child (mrph_data sp p) in
  if PARA_PART_MAX <=? zlen cs + 1 then Err OutOfBounds else Ret (upd_mrph p (set_m_child (cs ++ [m])) sp).

Definition para_info_to_mrph (bp : BNST_DATA) (mp : MRPH_DATA) : MRPH_DATA :=
  set_m_to_para_p (b_to_para_p bp) (set_m_para_type (b_para_type bp) (set_m_para_top_p (b_para_top_p bp)
    (set_m_para_key_type (b_para_key_type bp) (set_m_para_num (b_para_num bp) mp)))).

Section MrphTree.
Context `{E : CaseEnv}.

(** The copula behind the head noun, for a dependant that modifies a predicate. *)
Definition copula_head (sp : SENTENCE_DATA) (dep gov : BNST_DATA) (head_ptr : Z) : res bool :=
  if (head_ptr + 1 <=? b_mrph_ptr gov + b_mrph_num gov - 1) && has_feature (b_f gov) "用言:判" then
    m <- mrph_place (head_ptr + 1) ;;
    b <- class_is (m_Hinshi (mrph_data sp m)) 0 "判定詞" ;;
    Ret (b && negb (has_feature (b_f dep) "連体修飾" || has_feature (b_f dep) "係:隣" || has_feature (b_f dep) "係:文節内" ||
                    ((b_dpnd_type dep =? chr "P") && has_feature (b_f dep) "並キ:名")))
  else Ret false.

(** The numeral before a counter, for a bare numeral that depends on it. *)
Definition numeral_head (sp : SENTENCE_DATA) (dep gov : BNST_DATA) (head_ptr : Z) : bool :=
  (b_mrph_ptr gov <=? head_ptr - 1) && has_feature (b_f dep) "係:文節内" && has_feature (b_f dep) "数量" &&
  negb (has_feature (b_f dep) "カウンタ") && has_feature (b_f gov) "カウンタ" && has_feature (m_f (mrph_data sp (head_ptr - 1))) "数字".

Definition find_head_mrph_from_dpnd_bnst (sp : SENTENCE_DATA) (dep_ptr : option BNST_DATA) (gov : BNST_DATA) : res Z :=
  match b_head_ptr gov, dep_ptr with
  | None, _ => Err NullDeref
  | Some h, None => Ret h
  | Some h, Some dep =>
      copula <- copula_head sp dep gov h ;;
      Ret (if copula then h + 1 else if numeral_head sp dep gov h then h - 1 else h)
  end.

(** The morphemes from [first] to [last - 1], each linked to the next one, the last one first. *)
Definition link_mrphs (first last : Z) (sp : SENTENCE_DATA) : res SENTENCE_DATA :=
  fold_res (fun m => attach_mrph (m + 1) m) (rev (zrange first last)) sp.

Definition mrphs_behind (bp : BNST_DATA) (head gov_mrph : Z) (sp : SENTENCE_DATA) : res SENTENCE_DATA :=
  ' (mp, sp) <- for_res (head + 1) (b_mrph_ptr bp + b_mrph_num bp) (fun m '(mp, sp) =>
      sp <- attach_mrph m mp sp ;; Ret (m, sp)) (gov_mrph, sp) ;;
  mp <- mrph_place mp ;; Ret (upd_mrph mp (set_m_parent None) sp).

Definition new_bnst_to_mrph (i : Z) (sp : SENTENCE_DATA) : res SENTENCE_DATA :=
  let b := Bnst_num sp + i in
  let bp := bnst_data sp b in
  head <- find_head_mrph_from_dpnd_bnst sp None bp ;;
  head <- mrph_place head ;;
  new <- mrph_place (Mrph_num sp + New_Mrph_num sp) ;;
  let sp := upd_mrph new (fun _ => set_m_child [] (para_info_to_mrph bp (mrph_data sp head))) sp in
  let sp := set_New_Mrph_num (New_Mrph_num sp + 1) sp in
  sp <- (if negb (b_para_top_p bp) && (b_mrph_ptr bp <? head)
         then sp <- attach_mrph new (head - 1) sp ;; link_mrphs (b_mrph_ptr bp) (head - 1) sp
         else Ret sp) ;;
  match b_parent bp with
  | None => Err NullDeref
  | Some p =>
      gov_mrph <- find_head_mrph_from_dpnd_bnst sp (Some bp) (bnst_data sp p) ;;
      sp <- attach_mrph gov_mrph new sp ;;
      sp <- (if p <? Bnst_num sp then mrphs_behind bp head gov_mrph sp else Ret sp) ;;
      Ret (upd_bnst b (fun bp => set_b_mrph_num 1 (set_b_head_ptr (Some new) (set_b_mrph_ptr new bp))) sp)
  end.

Fixpoint top_mrph (fuel : nat) (sp : SENTENCE_DATA) (m : Z) : res Z :=
  match m_parent (mrph_data sp m), fuel with
  | None, _ => Ret m
  | Some _, O => Err OutOfFuel
  | Some p, S f => p <- mrph_place p ;; top_mrph f sp p
  end.

Definition last_mrph_to_parent (bp : BNST_DATA) (sp : SENTENCE_DATA) : res SENTENCE_DATA :=
  match b_parent bp with
  | None => Ret sp
  | Some p =>
      mp <- mrph_place (b_mrph_ptr bp + b_mrph_num bp - 1) ;;
      mp <- (if b_para_top_p bp then top_mrph (Z.to_nat MRPH_MAX) sp mp else Ret mp) ;;
      gov_mrph <- find_head_mrph_from_dpnd_bnst sp (Some bp) (bnst_data sp p) ;;
      attach_mrph gov_mrph mp sp
  end.

Definition orig_bnst_to_mrph (i : Z) (st : bool * SENTENCE_DATA) : res (bool * SENTENCE_DATA) :=
  let '(last_b_flag, sp) := st in
  let bp := bnst_data sp i in
  if b_num bp =? -1 then Ret (last_b_flag, sp)
  else
    head <- (if b_para_type bp =? PARA_NIL then find_head_mrph_from_dpnd_bnst sp None bp
             else Ret (b_mrph_ptr bp + b_mrph_num bp - 1)) ;;
    head <- mrph_place head ;;
    let sp := upd_mrph head (para_info_to_mrph bp) sp in
    sp <- (if b_para_top_p bp then Ret sp else link_mrphs (b_mrph_ptr bp) (b_mrph_ptr bp + b_mrph_num bp - 1) sp) ;;
    if last_b_flag then Ret (false, sp) else sp <- last_mrph_to_parent bp sp ;; Ret (false, sp).

Definition bnst_to_mrph_tree (sp : SENTENCE_DATA) : res SENTENCE_DATA :=
  let sp := set_New_Mrph_num 0 (init_mrph_tree_property sp) in
  sp <- fold_res new_bnst_to_mrph (rev (zrange 0 (New_Bnst_num sp))) sp ;;
  ' (_, sp) <- fold_res orig_bnst_to_mrph (rev (zrange 0 (Bnst_num sp))) (true, sp) ;;
  Ret sp.
End MrphTree.

Open Scope list_scope.

(** * Properties

    Both trees are built by linking units one after the other.  What a link changes: *)
Class Links : Type := {
  unit_child : SENTENCE_DATA -> Z -> list Z;
  unit_parent : SENTENCE_DATA -> Z -> option Z;
  attach : Z -> Z -> SENTENCE_DATA -> res SENTENCE_DATA;
  units_max : Z;
  same_rest : SENTENCE_DATA -> SENTENCE_DATA -> Prop
}.

Class LinksLaws `{L : Links} : Prop := {
  same_rest_refl : forall s, same_rest s s;
  same_rest_trans : forall a b c, same_rest a b -> same_rest b c -> same_rest a c;
  attach_spec : forall p t s, 0 <= p < units_max -> 0 <= t < units_max -> zlen (unit_child s p) + 1 < PARA_PART_MAX ->
    exists s', attach p t s = Ret s' /\ same_rest s s' /\
      (forall q, unit_child s' q = if q =? p then unit_child s p ++ [t] else unit_child s q) /\
      (forall u, unit_parent s' u = if u =? t then Some p else unit_parent s u)
}.

(** The units with the head [p], of the first [n] ones. *)
Definition units_of (link : Z -> Z) (n p : Z) : list Z := filter (fun t => link t =? p) (zrange 0 n).

Section Linked.
Context `{LL : LinksLaws}.
Context (n : Z) (link : Z -> Z).
Hypothesis n_max : n <= units_max.
Hypothesis link_right : forall t, 0 <= t < n - 1 -> t < link t < n.
Hypothesis room : forall p, 0 <= p < n -> zlen (units_of link (n - 1) p) < PARA_PART_MAX.

(** The units of [P] are linked to their heads, and no other ones. *)
Definition linked_units (s0 : SENTENCE_DATA) (P : Z -> Prop) (s : SENTENCE_DATA) : Prop :=
  same_rest s0 s /\ exists l, NoDup l /\ (forall t, In t l <-> P t) /\ (forall t, P t -> 0 <= t < n - 1) /\
    (forall p, 0 <= p < n -> unit_child s p = filter (fun t => link t =? p) l) /\
    (forall t, 0 <= t < n -> unit_parent s t = if inb t l then Some (link t) else None).

Lemma linked_none : forall s0 s, same_rest s0 s ->
  (forall p, 0 <= p < n -> unit_child s p = [] /\ unit_parent s p = None) -> linked_units s0 (fun _ => False) s.
Proof.
  intros s0 s HS H. split; [exact HS|]. exists []. split; [constructor|]. split; [now intros t|]. split; [now intros t|].
  split; intros p Hp; now apply H.
Qed.

Lemma linked_ext : forall s0 (P Q : Z -> Prop) s, (forall t, P t <-> Q t) -> linked_units s0 P s -> linked_units s0 Q s.
Proof.
  intros s0 P Q s H [HS (l & L1 & L2 & L3 & L4)]. split; [exact HS|]. exists l. split; [exact L1|].
  split; [intros t; now rewrite L2|]. split; [intros t Ht; apply L3; now apply H | exact L4].
Qed.

(** A change of the other fields. *)
Lemma linked_same : forall s0 P s s', same_rest s s' -> (forall p, unit_child s' p = unit_child s p) ->
  (forall p, unit_parent s' p = unit_parent s p) -> linked_units s0 P s -> linked_units s0 P s'.
Proof.
  intros s0 P s s' HS HC HP [HS0 (l & L1 & L2 & L3 & L4 & L5)]. split; [now apply same_rest_trans with s|].
  exists l. repeat split; auto; try apply L2; try apply L3; intros; rewrite ?HC, ?HP; auto.
Qed.

Lemma link_one : forall s0 P s t, linked_units s0 P s -> 0 <= t < n - 1 -> ~ P t ->
  exists s', attach (link t) t s = Ret s' /\ linked_units s0 (fun u => P u \/ u = t) s'.
Proof.
  intros s0 P s t [HS (l & L1 & L2 & L3 & L4 & L5)] Ht HN. pose proof (link_right t Ht) as HL.
  assert (HP : ~ In t l) by now rewrite L2.
  assert (HE : forall p, filter (fun u => link u =? p) (l ++ [t]) =
                         if p =? link t then filter (fun u => link u =? p) l ++ [t] else filter (fun u => link u =? p) l).
  { intros p. rewrite filter_app. cbn [filter]. rewrite (Z.eqb_sym p). destruct (link t =? p); [reflexivity | now rewrite app_nil_r]. }
  assert (HR : zlen (unit_child s (link t)) + 1 < PARA_PART_MAX).
  { rewrite L4 by lia. specialize (room (link t) ltac:(lia)).
    assert (I : zlen (filter (fun u => link u =? link t) (l ++ [t])) <= zlen (units_of link (n - 1) (link t))).
    { unfold zlen. apply inj_le, NoDup_incl_length.
      - apply NoDup_filter. apply NoDup_app; [exact L1 | repeat constructor; auto |].
        intros x Hx [<-|[]]. auto.
      - intros x Hx. apply filter_In in Hx as [Hx Hl]. apply filter_In. split; [|exact Hl]. apply in_zrange.
        apply in_app_or in Hx as [Hx|[<-|[]]]; [apply L3; now apply L2 | exact Ht]. }
    rewrite HE, Z.eqb_refl in I. unfold zlen in I at 1. rewrite length_app in I. cbn [List.length] in I. unfold zlen in *. lia. }
  assert (H1 : 0 <= link t < units_max) by lia. assert (H2 : 0 <= t < units_max) by lia.
  destruct (attach_spec (link t) t s H1 H2 HR) as (s' & E & S' & C' & P').
  exists s'. split; [exact E|]. split; [now apply same_rest_trans with s|]. exists (l ++ [t]). split; [|split; [|split; [|split]]].
  - apply NoDup_app; [exact L1 | repeat constructor; auto |]. intros x Hx [<-|[]]. auto.
  - intros u. rewrite in_app_iff, L2. cbn. intuition congruence.
  - intros u [Hu| ->]; [now apply L3 | exact Ht].
  - intros p Hp. rewrite C', HE. destruct (Z.eqb_spec p (link t)) as [->|]; rewrite L4 by lia; reflexivity.
  - intros u Hu. rewrite P'. unfold inb. rewrite existsb_app. cbn [existsb]. rewrite L5 by exact Hu. fold (inb u l).
    destruct (Z.eqb_spec u t) as [->|]; [now rewrite orb_true_r | now rewrite !orb_false_r].
Qed.

(** When all units but the last one are linked, they are a tree. *)
Lemma linked_tree : forall s0 s, 0 < n -> linked_units s0 (fun t => 0 <= t < n - 1) s ->
  tree n (n - 1) (unit_child s) (unit_parent s) /\ forall t, 0 <= t < n - 1 -> unit_parent s t = Some (link t).
Proof.
  intros s0 s Hn [_ (l & L1 & L2 & L3 & L4 & L5)].
  assert (HI : forall t, 0 <= t < n -> unit_parent s t = if t =? n - 1 then None else Some (link t)).
  { intros t Ht. rewrite L5 by exact Ht. destruct (inb_spec t l) as [H|H]; rewrite L2 in H; destruct (Z.eqb_spec t (n - 1)); auto; lia. }
  split; [|intros t Ht; rewrite HI by lia; now replace (t =? n - 1) with false by lia].
  apply (right_heads_tree n link); auto.
  - intros p Hp. rewrite L4 by exact Hp. now apply NoDup_filter.
  - intros p c Hp. rewrite L4 by exact Hp. rewrite filter_In, L2, Z.eqb_eq. reflexivity.
Qed.
End Linked.

(** ** The tags *)

(** A tag without its links and its coordination. *)
Definition bare_tag (t : BNST_DATA) : BNST_DATA := para_info_to_tag BNST_DATA_0 (clear_tree t).

(** A setter of these fields is not seen. *)
Lemma bare_tag_clear : forall t, bare_tag (clear_tree t) = bare_tag t.
Proof. intros []. vm_compute. reflexivity. Qed.

Record tags_rest (sp sp' : SENTENCE_DATA) : Prop := {
  tr_bnst : bnst_data sp' = bnst_data sp;
  tr_nums : Bnst_num sp' = Bnst_num sp /\ Tag_num sp' = Tag_num sp /\ New_Bnst_num sp' = New_Bnst_num sp;
  tr_bare : forall t, bare_tag (tag_data sp' t) = bare_tag (tag_data sp t)
}.

#[export] Instance tag_links : Links := {|
  unit_child := fun sp t => b_child (tag_data sp t);
  unit_parent := fun sp t => b_parent (tag_data sp t);
  attach := attach_tag; units_max := TAG_MAX; same_rest := tags_rest |}.

Lemma tags_rest_upd : forall sp t u, (forall b, bare_tag (u b) = bare_tag b) -> tags_rest sp (upd_tag t u sp).
Proof.
  intros sp t u H. split; auto. intros v. rewrite upd_tag_at. destruct (Z.eqb_spec v t) as [->|]; [apply H | reflexivity].
Qed.

#[export] Instance tag_links_laws : LinksLaws.
Proof.
  split; cbn [same_rest tag_links].
  - intros s. now split.
  - intros a b c [A1 A2 A3] [B1 B2 B3]. split; [congruence | intuition congruence | intros t; now rewrite B3].
  - cbn [unit_child unit_parent units_max attach tag_links]. intros p t s Hp Ht HR. unfold attach_tag, t_add_tag, tag_ref.
    rewrite !within_true by assumption. set (s1 := upd_tag t (set_b_parent (Some p)) s).
    assert (C1 : forall q, b_child (tag_data s1 q) = b_child (tag_data s q)).
    { intros q. unfold s1. rewrite upd_tag_at. destruct (Z.eqb_spec q t) as [->|]; reflexivity. }
    rewrite C1. replace (PARA_PART_MAX <=? zlen (b_child (tag_data s p)) + 1) with false by lia.
    eexists. split; [reflexivity|]. split; [|split].
    + assert (R1 : tags_rest s s1) by now apply tags_rest_upd. destruct R1 as [A1 A2 A3].
      assert (R2 : tags_rest s1 (upd_tag p (set_b_child (b_child (tag_data s p) ++ [t])) s1)) by now apply tags_rest_upd.
      destruct R2 as [B1 B2 B3]. split; [congruence | intuition congruence | intros u; now rewrite B3].
    + intros q. rewrite upd_tag_at. destruct (Z.eqb_spec q p) as [->|]; [reflexivity | apply C1].
    + intros u. rewrite upd_tag_at. assert (P1 : b_parent (tag_data s1 u) = if u =? t then Some p else b_parent (tag_data s u)).
      { unfold s1. rewrite upd_tag_at. destruct (Z.eqb_spec u t) as [->|]; reflexivity. }
      rewrite <- P1. destruct (Z.eqb_spec u p) as [->|]; reflexivity.
Qed.

Lemma bare_field : forall {A} (f : BNST_DATA -> A), (forall b, f (bare_tag b) = f b) ->
  forall sp sp' t, tags_rest sp sp' -> f (tag_data sp' t) = f (tag_data sp t).
Proof. intros A f H sp sp' t HR. now rewrite <- (H (tag_data sp' t)), (tr_bare _ _ HR), H. Qed.

Lemma merged_rest : forall sp sp' t, tags_rest sp sp' -> merged_tag sp' t = merged_tag sp t.
Proof. intros sp sp' t HR. unfold merged_tag. now rewrite (bare_field b_num (fun _ => eq_refl) _ _ _ HR). Qed.

Lemma feature_offset_range : forall cp n, 0 < n -> - n < feature_offset cp n <= 0.
Proof.
  intros cp n Hn. unfold feature_offset. destruct cp as [cp|]; [|lia]. destruct (strchr colon cp) as [cp2|]; [|lia]. cbv zeta.
  destruct (Z.ltb_spec 0 (atoi (sdrop 1 cp2))); cbn [orb]; [lia|]. destruct (Z.leb_spec n (- atoi (sdrop 1 cp2))); lia.
Qed.

Lemma last_tag_at : forall sp tag_ptr gov, 0 <= gov -> merged_tag sp (tag_ptr + gov) = false -> last_tag sp tag_ptr gov 0 = gov.
Proof.
  intros sp tag_ptr gov Hg H. unfold last_tag. rewrite zrange_snoc, rev_app_distr by lia.
  replace (gov + 1 - 1) with gov by lia. cbn [rev app last_tag_go]. now rewrite H.
Qed.

Lemma last_tag_rest : forall sp sp' tag_ptr gov o, tags_rest sp sp' -> last_tag sp' tag_ptr gov o = last_tag sp tag_ptr gov o.
Proof.
  intros sp sp' tag_ptr gov o HR. unfold last_tag. revert o. generalize (rev (zrange 0 (gov + 1))).
  induction l as [|g l IH]; intros o; cbn [last_tag_go]; [reflexivity|]. rewrite (merged_rest _ _ _ HR), !IH. reflexivity.
Qed.

(** The first [m] tags without links. *)
Lemma clear_tags_at : forall m, 0 <= m -> forall s s', s' = for_up 0 m (fun i => upd_tag i clear_tree) s ->
  tags_rest s s' /\ forall t, 0 <= t < m -> b_child (tag_data s' t) = [] /\ b_parent (tag_data s' t) = None.
Proof.
  apply (natlike_ind (fun m => forall s s', s' = for_up 0 m (fun i => upd_tag i clear_tree) s ->
    tags_rest s s' /\ forall t, 0 <= t < m -> b_child (tag_data s' t) = [] /\ b_parent (tag_data s' t) = None)).
  - intros s s' ->. rewrite for_up_empty by lia. split; [apply (same_rest_refl (L := tag_links)) | lia].
  - intros m Hm IH s s' ->. rewrite for_up_snoc by lia. replace (Z.succ m - 1) with m by lia.
    destruct (IH s _ eq_refl) as [H1 H2]. generalize dependent (for_up 0 m (fun i => upd_tag i clear_tree) s). intros s1 H1 H2.
    split; [eapply (same_rest_trans (L := tag_links)); [exact H1 | apply tags_rest_upd, bare_tag_clear]|].
    intros t Ht. rewrite upd_tag_at. destruct (Z.eqb_spec t m) as [->|]; [split; reflexivity | apply H2; lia].
Qed.

Lemma init_tags_at : forall s s', s' = init_tag_tree_property s ->
  tags_rest s s' /\ forall t, 0 <= t < TAG_MAX -> b_child (tag_data s' t) = [] /\ b_parent (tag_data s' t) = None.
Proof. intros s s' E. apply clear_tags_at; [unfold TAG_MAX; lia | exact E]. Qed.

(** The bunsetsus of a sentence without coordinations. *)
Record plain_bnsts (sp : SENTENCE_DATA) : Prop := {
  pb_tags : tag_structure sp;
  pb_new : New_Bnst_num sp = 0;
  pb_bnst : forall k, 0 <= k < Bnst_num sp -> b_num (bnst_data sp k) <> -1 /\ b_para_top_p (bnst_data sp k) = false;
  pb_parent : forall k, 0 <= k < Bnst_num sp - 1 -> exists p, b_parent (bnst_data sp k) = Some p /\ k < p < Bnst_num sp
}.

(** The head of a tag: the next one in its bunsetsu, or a tag of the parent. *)
Definition tag_head (sp : SENTENCE_DATA) (t : Z) : Z :=
  let bp := bnst_data sp (b_b_ptr (tag_data sp t)) in
  if negb (b_inum (tag_data sp t) =? 0) then t + 1
  else
    match b_parent bp with
    | Some p => b_tag_ptr (bnst_data sp p) + find_head_tag_from_dpnd_bnst sp bp (bnst_data sp p)
    | None => -1
    end.

Section TagLaws.
Context (sp : SENTENCE_DATA).
Hypothesis plain : plain_bnsts sp.

Abbreviation n := (Tag_num sp).
Abbreviation first k := (b_tag_ptr (bnst_data sp k)).
Abbreviation num k := (b_tag_num (bnst_data sp k)).

Lemma tag_unmerged : forall t, 0 <= t < n -> merged_tag sp t = false.
Proof. intros t Ht. unfold merged_tag. rewrite (ts_num _ (pb_tags _ plain) t Ht). lia. Qed.

Lemma bnst_range : forall k, 0 <= k < Bnst_num sp -> 0 < num k /\ 0 <= first k /\ first k + num k <= n.
Proof.
  intros k Hk. destruct (seg_next _ _ _ _ _ (ts_segs _ (pb_tags _ plain)) k Hk) as [H _].
  destruct (segs_le _ _ _ _ _ (ts_segs _ (pb_tags _ plain)) k Hk). cbv beta in *. lia.
Qed.

Lemma head_in_parent : forall bp p, 0 <= p < Bnst_num sp ->
  0 <= find_head_tag_from_dpnd_bnst sp bp (bnst_data sp p) < num p.
Proof.
  intros bp p Hp. destruct (bnst_range p Hp) as (H1 & H2 & H3). unfold find_head_tag_from_dpnd_bnst. cbv zeta.
  set (o := if has_feature _ _ then _ else _).
  assert (HO : - num p < o <= 0) by (unfold o; destruct (has_feature _ _); [lia | now apply feature_offset_range]).
  rewrite last_tag_at; [lia | lia|]. apply tag_unmerged. lia.
Qed.

(** A tag of bunsetsu [k]. *)
Lemma tag_head_in : forall k t, 0 <= k < Bnst_num sp -> first k <= t < first k + num k ->
  tag_head sp t =
    if t =? first k + num k - 1 then
      match b_parent (bnst_data sp k) with
      | Some p => b_tag_ptr (bnst_data sp p) + find_head_tag_from_dpnd_bnst sp (bnst_data sp k) (bnst_data sp p)
      | None => -1
      end
    else t + 1.
Proof.
  intros k t Hk Ht. unfold tag_head. rewrite (ts_own _ (pb_tags _ plain) k t Hk Ht).
  rewrite (ts_inum _ (pb_tags _ plain) k Hk t Ht). cbv beta.
  destruct (Z.eqb_spec t (first k + num k - 1)), (Z.eqb_spec (first k + num k - 1 - t) 0); cbn [negb]; auto; lia.
Qed.

Lemma last_bnst_of : forall k t, 0 <= k < Bnst_num sp -> first k <= t < first k + num k -> t < n - 1 ->
  t = first k + num k - 1 -> k < Bnst_num sp - 1.
Proof.
  intros k t Hk Ht Hn ->. destruct (Z.eq_dec k (Bnst_num sp - 1)) as [->|]; [|lia]. exfalso.
  assert (HC : 0 < Bnst_num sp) by lia. destruct (segs_last _ _ _ _ _ (ts_segs _ (pb_tags _ plain)) HC). cbv beta in *. lia.
Qed.

Lemma tag_head_right : forall t, 0 <= t < n - 1 -> t < tag_head sp t < n.
Proof.
  intros t Ht. destruct (segs_owner _ _ _ _ _ (ts_segs _ (pb_tags _ plain)) t ltac:(lia)) as (k & Hk & Hin). cbv beta in Hin.
  rewrite (tag_head_in k t Hk Hin). destruct (Z.eqb_spec t (first k + num k - 1)) as [E|]; [|lia].
  pose proof (last_bnst_of k t Hk Hin ltac:(lia) E) as HL. destruct (pb_parent _ plain k ltac:(lia)) as (p & -> & Hp).
  pose proof (head_in_parent (bnst_data sp k) p ltac:(lia)). destruct (bnst_range p ltac:(lia)) as (_ & _ & HP).
  pose proof (segs_mono _ _ _ _ _ (ts_segs _ (pb_tags _ plain)) k p ltac:(lia) ltac:(lia) ltac:(lia)) as HM. cbv beta in HM. lia.
Qed.

Hypothesis room : forall p, 0 <= p < n -> zlen (units_of (tag_head sp) (n - 1) p) < PARA_PART_MAX.

Lemma tags_fit : n <= units_max (Links := tag_links).
Proof. exact (proj2 (ts_tags _ (pb_tags _ plain))). Qed.

Abbreviation linked_tags := (linked_units n (tag_head sp)).

(** The loop inside a bunsetsu. *)
Lemma link_inside_ok : forall k s P, 0 <= k < Bnst_num sp -> linked_tags sp P s -> (forall t, P t -> first k + num k <= t) ->
  exists s', link_inside (first k) (num k - 1) s = Ret s' /\ linked_tags sp (fun t => P t \/ first k <= t < first k + (num k - 1)) s'.
Proof.
  intros k s P Hk HL HP. destruct (bnst_range k Hk) as (N1 & N2 & N3). unfold link_inside.
  apply (for_res_total (fun j s' => linked_tags sp (fun t => P t \/ first k <= t < first k + j) s')); [lia | |].
  - intros j s1 Hj H. pose proof (proj1 H) as HR. unfold find_up. rewrite zrange_cons by lia. cbn [find].
    rewrite !(merged_rest sp s1), !tag_unmerged by (exact HR || lia). cbn [negb].
    assert (E : first k + (j + 1) = tag_head sp (first k + j)).
    { rewrite (tag_head_in k) by lia. replace (first k + j =? first k + num k - 1) with false by lia. lia. }
    rewrite E. destruct (link_one n (tag_head sp) tags_fit tag_head_right room sp _ s1 (first k + j) H) as (s2 & E2 & H2).
    + lia.
    + intros [HP1|HP1]; [apply HP in HP1|]; lia.
    + exists s2. split; [exact E2|]. eapply linked_ext; [|exact H2]. intros t. cbv beta. split; [intros [[?|?]| ->]|intros [?|?]]; try tauto; try lia.
  - eapply linked_ext; [|exact HL]. intros t. cbv beta. split; [tauto | intros [?|?]; [assumption | lia]].
Qed.

(** The head of a bunsetsu gets the coordination of the bunsetsu. *)
Lemma head_tag_ref : forall k s, 0 <= k < Bnst_num sp -> tags_rest sp s ->
  exists t, tag_ref (first k + head_tag s (bnst_data sp k)) = Ret t.
Proof.
  intros k s Hk HR. destruct (bnst_range k Hk) as (N1 & N2 & N3). pose proof tags_fit as HM. cbn in HM.
  unfold head_tag, find_head_tag_from_bnst, tag_ref. rewrite (last_tag_rest sp s) by exact HR. cbv zeta.
  pose proof (feature_offset_range (offset_feature (b_f (bnst_data sp k))) (num k) N1) as HO.
  set (o := feature_offset _ _) in *. rewrite last_tag_at by (lia || (apply tag_unmerged; lia)).
  replace (num k - 1 + o <? 0) with false by lia. rewrite within_true by lia. eauto.
Qed.

Lemma para_info_linked : forall P s t bp, linked_tags sp P s -> linked_tags sp P (upd_tag t (para_info_to_tag bp) s).
Proof.
  intros P s t bp. apply linked_same; cbn [same_rest unit_child unit_parent tag_links].
  - now apply tags_rest_upd.
  - intros p. rewrite upd_tag_at. destruct (Z.eqb_spec p t) as [->|]; reflexivity.
  - intros p. rewrite upd_tag_at. destruct (Z.eqb_spec p t) as [->|]; reflexivity.
Qed.

(** The link of the last tag of a bunsetsu. *)
Lemma link_last_ok : forall k s P, 0 <= k < Bnst_num sp - 1 -> linked_tags sp P s -> ~ P (first k + num k - 1) ->
  exists s', link_last (bnst_data sp k) s = Ret s' /\ linked_tags sp (fun t => P t \/ t = first k + num k - 1) s'.
Proof.
  intros k s P Hk HL HP. pose proof (proj1 HL) as HR. destruct (bnst_range k ltac:(lia)) as (N1 & N2 & N3).
  pose proof tags_fit as HM. cbn in HM. unfold link_last. destruct (pb_parent _ plain k Hk) as (p & EP & Hp). rewrite EP.
  rewrite (last_tag_rest sp s) by exact HR. rewrite last_tag_at by (lia || (apply tag_unmerged; lia)).
  unfold tag_ref. rewrite within_true by lia. rewrite (proj2 (pb_bnst _ plain k ltac:(lia))), (tr_bnst _ _ HR).
  assert (E : b_tag_ptr (bnst_data sp p) + find_head_tag_from_dpnd_bnst s (bnst_data sp k) (bnst_data sp p) =
              tag_head sp (first k + num k - 1)).
  { rewrite (tag_head_in k) by lia. rewrite Z.eqb_refl, EP. unfold find_head_tag_from_dpnd_bnst. cbv zeta.
    now rewrite (last_tag_rest sp s) by exact HR. }
  rewrite E. replace (first k + (num k - 1)) with (first k + num k - 1) by lia.
  destruct (bnst_range p ltac:(lia)) as (_ & _ & HP3).
  pose proof (segs_mono _ _ _ _ _ (ts_segs _ (pb_tags _ plain)) k p ltac:(lia) ltac:(lia) ltac:(lia)) as HS. cbv beta in HS.
  destruct (bnst_range p ltac:(lia)) as (HN & _).
  apply (link_one n (tag_head sp) tags_fit tag_head_right room sp P s (first k + num k - 1) HL); [lia | exact HP].
Qed.

Definition tags_from (k t : Z) : Prop := (if k =? Bnst_num sp then n else first k) <= t < n - 1.

Lemma tags_from_next : forall k t, 0 <= k < Bnst_num sp -> tags_from k t <->
  tags_from (k + 1) t \/ first k <= t < first k + num k /\ t <> n - 1.
Proof.
  intros k t Hk. unfold tags_from. replace (k =? Bnst_num sp) with false by lia.
  destruct (seg_next _ _ _ _ _ (ts_segs _ (pb_tags _ plain)) k Hk) as [H1 H2]. cbv beta in *.
  destruct (bnst_range k Hk) as (_ & _ & H3). destruct (Z.eqb_spec (k + 1) (Bnst_num sp)); lia.
Qed.

Definition linked_from (k : Z) (st : bool * SENTENCE_DATA) : Prop :=
  fst st = (k =? Bnst_num sp) /\ linked_tags sp (tags_from k) (snd st).

Lemma orig_bnst_ok : forall k st, 0 <= k < Bnst_num sp -> linked_from (k + 1) st ->
  exists st', orig_bnst_to_tag k st = Ret st' /\ linked_from k st'.
Proof.
  intros k [flag s] Hk [HF HL]. cbn [fst snd] in HF, HL. subst flag. pose proof (proj1 HL) as HR.
  unfold orig_bnst_to_tag. rewrite (tr_bnst _ _ HR). destruct (pb_bnst _ plain k Hk) as [HN HT]. destruct (bnst_range k Hk) as (N1 & N2 & N3).
  replace (b_num (bnst_data sp k) =? -1) with false by lia. destruct (head_tag_ref k s Hk HR) as (t & ->). rewrite HT.
  destruct (seg_next _ _ _ _ _ (ts_segs _ (pb_tags _ plain)) k Hk) as [_ HS]. cbv beta in HS.
  assert (HB : forall t, tags_from (k + 1) t -> first k + num k <= t).
  { intros u. unfold tags_from. rewrite HS. lia. }
  destruct (link_inside_ok k _ _ Hk (para_info_linked _ _ t (bnst_data sp k) HL) HB) as (s1 & -> & H1).
  destruct (Z.eqb_spec (k + 1) (Bnst_num sp)) as [E|E].
  - exists (false, s1). split; [reflexivity|]. split; [cbn; lia|]. cbn [snd]. eapply linked_ext; [|exact H1].
    intros u. rewrite (tags_from_next k u Hk). cbv beta.
    split; (intros [H|H]; [now left | right; lia]).
  - destruct (link_last_ok k s1 _ ltac:(lia) H1) as (s2 & -> & H2).
    + intros [H|H]; [apply HB in H|]; lia.
    + exists (false, s2). split; [reflexivity|]. split; [cbn; lia|]. cbn [snd]. eapply linked_ext; [|exact H2].
      intros u. rewrite (tags_from_next k u Hk). cbv beta.
      destruct (bnst_range (k + 1) ltac:(lia)) as (K1 & _ & K3). split.
      * intros [[H|H]|H]; [now left | right; lia | right; lia].
      * intros [H|[H H']]; [now do 2 left|]. destruct (Z.eq_dec u (first k + num k - 1)); [now right | left; right; lia].
Qed.

Lemma init_linked : linked_tags sp (fun _ => False) (set_New_Tag_num 0 (init_tag_tree_property sp)).
Proof.
  destruct (init_tags_at sp _ eq_refl) as [H1 H2]. generalize dependent (init_tag_tree_property sp).
  intros s1 [A1 A2 A3] H2. pose proof tags_fit as HM. cbn in HM. apply linked_none; [now split|].
  intros p Hp. apply H2. lia.
Qed.
End TagLaws.

(** The tags of a sentence without coordinations are a tree, and the parent of a tag is its head. *)
Lemma tag_tree_links : forall sp, plain_bnsts sp ->
  (forall p, 0 <= p < Tag_num sp -> zlen (units_of (tag_head sp) (Tag_num sp - 1) p) < PARA_PART_MAX) ->
  exists sp', bnst_to_tag_tree sp = Ret sp' /\ tags_rest sp sp' /\
    tree (Tag_num sp) (Tag_num sp - 1) (fun t => b_child (tag_data sp' t)) (fun t => b_parent (tag_data sp' t)) /\
    forall t, 0 <= t < Tag_num sp - 1 -> b_parent (tag_data sp' t) = Some (tag_head sp t).
Proof.
  intros sp HP HR. unfold bnst_to_tag_tree. pose proof (init_linked sp HP) as HI.
  set (s0 := set_New_Tag_num 0 (init_tag_tree_property sp)) in *. clearbody s0.
  destruct (tr_nums _ _ (proj1 HI)) as (E1 & E2 & E3). rewrite E3, (pb_new _ HP), zrange_nil by lia. cbn [rev fold_res].
  rewrite E1.
  pose proof (ts_bnsts _ (pb_tags _ HP)) as HB. pose proof (ts_tags _ (pb_tags _ HP)) as HT.
  destruct (down_res_total (linked_from sp) orig_bnst_to_tag 0 (Bnst_num sp) (true, s0)) as ([f s1] & -> & H1).
  - lia.
  - intros k st Hk H. now apply orig_bnst_ok.
  - split; [cbn; now rewrite Z.eqb_refl|]. cbn [snd]. eapply linked_ext; [|exact HI].
    intros t. unfold tags_from. rewrite Z.eqb_refl. lia.
  - exists s1. split; [reflexivity|]. destruct H1 as [_ H1]. cbn [snd] in H1. split; [exact (proj1 H1)|].
    pose proof (seg_first _ _ _ _ _ (ts_segs _ (pb_tags _ HP))) as HF. cbv beta in HF.
    apply (linked_tree (L := tag_links) (Tag_num sp) (tag_head sp) (tag_head_right sp HP) sp s1 (proj1 HT)).
    eapply linked_ext; [|exact H1]. intros t. unfold tags_from. replace (0 =? Bnst_num sp) with false by lia.
    replace (Bnst_num sp =? 0) with false in HF by lia. lia.
Qed.

(** ** The heads of the tags, exactly *)
Lemma rule_offset_feature : forall b h,
  (forall cp, In cp (b_f h) -> comp_feature cp "タグ単位受" = true -> slen "タグ単位受:" <= slen cp) ->
  rule_offset b h = Ret (if has_feature (b_f b) "タグ単位受無視" then 0
                         else feature_offset (check_feature (b_f h) "タグ単位受") (b_tag_num h)).
Proof.
  intros b h HO. unfold rule_offset. destruct (has_feature (b_f b) "タグ単位受無視"); [reflexivity|].
  destruct (check_feature (b_f h) "タグ単位受") as [cp|] eqn:E; [|reflexivity].
  apply check_feature_in in E as [E1 E2]. specialize (HO cp E1 E2). apply comp_feature_spec in E2 as [->|[r ->]].
  - exfalso. revert HO. vm_compute. congruence.
  - match goal with |- context [if ?b then Err _ else _] => replace b with false by lia end. reflexivity.
Qed.

(** The head of a tag by the structure [dp], when the frames of the tags have no examples. *)
Definition rule_head (dp : DPND) (sp : SENTENCE_DATA) (t : Z) : Z :=
  if t =? Tag_num sp - 1 then -1
  else if negb (b_inum (tag_data sp t) =? 0) then t + 1
  else
    let b := bnst_data sp (b_b_ptr (tag_data sp t)) in
    let h := bnst_data sp (head dp (b_b_ptr (tag_data sp t))) in
    b_tag_ptr h + b_tag_num h - 1 +
    (if has_feature (b_f b) "タグ単位受無視" then 0 else feature_offset (check_feature (b_f h) "タグ単位受") (b_tag_num h)).

Section RuleHeads.
Context `{C : CaseFrames}.
Hypothesis no_examples : forall t, tag_examples t = None.

Lemma no_example : forall word h offset, example_offset word h offset = None.
Proof.
  intros word h offset. unfold example_offset. cbv zeta. rewrite no_examples. cbn [Z.eqb Pos.eqb]. unfold find_up.
  induction (zrange 0 _) as [|j l IH]; [reflexivity|]. cbn [find]. now rewrite no_examples.
Qed.

Lemma rule_head_offset : forall i k hd sp buf, is_ret (tag_word sp (tag_data sp i)) = true ->
  head_offset i k hd sp buf = (offset <- rule_offset (bnst_data sp k) (bnst_data sp hd) ;; Ret (offset, sp, buf)).
Proof.
  intros i k hd sp buf HW. unfold head_offset. cbv zeta. destruct (rule_offset _ _) as [o|]; [|reflexivity].
  destruct (tag_word sp (tag_data sp i)) as [w|]; [|discriminate]. rewrite no_example. now destruct (_ && _ && _).
Qed.

(** What the loop has done before tag [i]: only the heads and their types changed. *)
Definition rule_upto (dp : DPND) (sp0 : SENTENCE_DATA) (i : Z) (st : option Z * SENTENCE_DATA * string) : Prop :=
  heads_upto dp sp0 i st /\
  let sp := snd (fst st) in sp = set_tag_data (tag_data sp) sp0 /\ forall t, 0 <= t < i -> b_dpnd_head (tag_data sp t) = rule_head dp sp0 t.

Lemma set_head_rule : forall dp sp0 i sp tp h, sp = set_tag_data (tag_data sp) sp0 ->
  (forall t, 0 <= t < i -> b_dpnd_head (tag_data sp t) = rule_head dp sp0 t) -> h = rule_head dp sp0 i ->
  set_tag_head i h tp sp = set_tag_data (tag_data (set_tag_head i h tp sp)) sp0 /\
  forall t, 0 <= t < i + 1 -> b_dpnd_head (tag_data (set_tag_head i h tp sp) t) = rule_head dp sp0 t.
Proof.
  intros dp sp0 i sp tp h E H ->. split; [now rewrite E|]. intros t Ht. unfold set_tag_head. rewrite upd_tag_at.
  destruct (Z.eqb_spec t i) as [->|]; [reflexivity | apply H; lia].
Qed.

Lemma rule_step_ok : forall dp sp0 i st, tag_structure sp0 -> words_known sp0 -> offsets_ok sp0 ->
  (forall k, 0 <= k < Bnst_num sp0 - 1 -> k < head dp k < Bnst_num sp0) ->
  0 <= i < Tag_num sp0 -> rule_upto dp sp0 i st -> exists st', tag_head_step dp i st = Ret st' /\ rule_upto dp sp0 (i + 1) st'.
Proof.
  intros dp sp0 i st HS HW HF HD Hi [HU [HE HR]]. destruct (tag_step_ok dp sp0 i st HS HW HD Hi HU) as (st' & E & HU').
  exists st'. split; [exact E|]. split; [exact HU'|]. clear HU'. destruct st as [[last_b sp] buf]. cbn [fst snd] in HE, HR.
  destruct HU as (HL & HT & _ & _). pose proof (same_tags_words _ _ HT HW) as HW'.
  destruct (st_tag _ _ HT i) as (F1 & F2 & F3 & F4 & _). destruct (last_bnst sp0 i last_b HS Hi HL) as [Hk [Hik EL]].
  unfold tag_head_step in E. rewrite F2, EL, (st_tnum _ _ HT), F4, F1, (ts_num _ HS i Hi) in E.
  set (k := b_b_ptr (tag_data sp0 i)) in *. assert (RH : rule_head dp sp0 i = rule_head dp sp0 i) by reflexivity.
  unfold rule_head in RH at 2. fold k in RH. destruct (Z.eqb_spec i (Tag_num sp0 - 1)) as [Hl|Hl].
  { injection E as <-. now apply set_head_rule. }
  destruct (Z.eqb_spec (b_inum (tag_data sp0 i)) 0) as [HZ|HZ]; cbn [negb] in E, RH.
  2:{ injection E as <-. now apply set_head_rule. }
  assert (HKL : k < Bnst_num sp0 - 1).
  { destruct (Z.eq_dec k (Bnst_num sp0 - 1)) as [Ek|]; [|lia]. exfalso. pose proof (ts_inum _ HS k Hk i Hik) as HI. cbv beta in HI.
    destruct (segs_last _ _ _ _ _ (ts_segs _ HS) ltac:(lia)). cbv beta in *. rewrite Ek in *. lia. }
  specialize (HD k ltac:(lia)). replace (head dp k =? -1) with false in E by lia. cbn [andb] in E.
  destruct (negb (within 0 (head dp k) BNST_MAX)); [discriminate|]. rewrite (rule_head_offset i k _ sp buf (HW' i ltac:(rewrite (st_tnum _ _ HT); lia))) in E.
  assert (HB : bnst_data sp = bnst_data sp0) by now rewrite HE. rewrite HB in E.
  rewrite rule_offset_feature in E by (intros cp; apply HF; lia). cbv zeta in E, RH. rewrite !HB in E.
  match type of E with context [within 0 ?j TAG_MAX] => set (jt := j) in * end.
  destruct (negb (within 0 jt TAG_MAX)); [discriminate|]. injection E as <-. cbn [fst snd].
  destruct (st_tag _ _ HT jt) as (G1 & _). rewrite G1, (ts_num _ HS jt).
  - apply set_head_rule; [exact HE | exact HR | symmetry; exact RH].
  - assert (HH : 0 <= head dp k < Bnst_num sp0) by lia. destruct (segs_le _ _ _ _ _ (ts_segs _ HS) _ HH) as [L1 L2].
    destruct (seg_next _ _ _ _ _ (ts_segs _ HS) _ HH) as [L3 _]. cbv beta in *. unfold jt. destruct (has_feature _ _); [lia|].
    pose proof (feature_offset_range (check_feature (b_f (bnst_data sp0 (head dp k))) "タグ単位受") _ L3). lia.
Qed.

Lemma rule_heads : forall dp sp buf, tag_structure sp -> words_known sp -> offsets_ok sp ->
  (forall k, 0 <= k < Bnst_num sp - 1 -> k < head dp k < Bnst_num sp) ->
  exists sp' buf', dpnd_info_to_tag_raw dp sp buf = Ret (sp', buf') /\ same_tags sp sp' /\ sp' = set_tag_data (tag_data sp') sp /\
    forall t, 0 <= t < Tag_num sp -> b_dpnd_head (tag_data sp' t) = rule_head dp sp t.
Proof.
  intros dp sp buf HS HW HO HD. unfold dpnd_info_to_tag_raw. pose proof (ts_tags _ HS) as HT.
  destruct (for_res_total (fun i st => rule_upto dp sp i st) (tag_head_step dp) 0 (Tag_num sp) (None, sp, buf)) as [[[l sp'] buf'] [E H]].
  - lia.
  - intros i st Hi H. now apply rule_step_ok.
  - split; [|split; [now destruct sp | intros; cbn in *; lia]]. split; [lia|]. split; [apply same_tags_refl|]. split; [exact HO|]. intros t Ht. lia.
  - rewrite E. destruct H as [[_ [H1 _]] [H2 H3]]. exists sp', buf'. auto.
Qed.
End RuleHeads.

(** ** The tree of a sentence without coordinations *)
Lemma plain_buffer : forall Mask_matrix sp, Para_M_num sp = 0 -> forall i, 0 <= i < Bnst_num sp - 1 ->
  head_buffer Mask_matrix sp i = b_dpnd_head (bnst_data sp i).
Proof.
  intros Mask_matrix sp HM i Hi. unfold head_buffer. rewrite HM, (for_up_empty 0 0) by lia.
  assert (G : forall n, 0 <= n -> i < n -> for_up 0 n (fun i b => aset b i (b_dpnd_head (bnst_data sp i))) (fun _ => 0) i = b_dpnd_head (bnst_data sp i)).
  { apply (natlike_ind (fun n => i < n -> for_up 0 n (fun i b => aset b i (b_dpnd_head (bnst_data sp i))) (fun _ => 0) i = b_dpnd_head (bnst_data sp i))); [lia|].
    intros n Hn IH Hin. rewrite for_up_snoc by lia. replace (Z.succ n - 1) with n by lia. unfold aset at 1.
    destruct (Z.eqb_spec i n) as [->|]; [reflexivity | apply IH; lia]. }
  apply G; lia.
Qed.

(** What [make_dpnd_tree] leaves of a bunsetsu. *)
Record tree_node (b b' : BNST_DATA) : Prop := {
  tn_num : b_num b' = b_num b;
  tn_f : b_f b' = b_f b;
  tn_tags : b_tag_ptr b' = b_tag_ptr b /\ b_tag_num b' = b_tag_num b;
  tn_top : b_para_top_p b' = false;
  tn_mrphs : b_mrph_ptr b' = b_mrph_ptr b /\ b_mrph_num b' = b_mrph_num b /\ b_head_ptr b' = b_head_ptr b
}.

Lemma plain_tree_nodes : forall Mask_matrix sp, 0 < Bnst_num sp <= BNST_MAX -> Para_M_num sp = 0 ->
  (forall k, 0 <= k < Bnst_num sp -> b_num (bnst_data sp k) = k) ->
  (forall k, 0 <= k < Bnst_num sp - 1 -> k < b_dpnd_head (bnst_data sp k) < Bnst_num sp) ->
  (forall j, 0 <= j < Bnst_num sp -> zlen (dependants (fun k => b_dpnd_head (bnst_data sp k)) j) < PARA_PART_MAX) ->
  exists sp', make_dpnd_tree Mask_matrix false sp = Ret (true, sp') /\
    sp' = set_New_Bnst_num 0 (set_bnst_data (bnst_data sp') sp) /\
    forall k, 0 <= k < Bnst_num sp -> tree_node (bnst_data sp k) (bnst_data sp' k) /\
      (k < Bnst_num sp - 1 -> b_parent (bnst_data sp' k) = Some (b_dpnd_head (bnst_data sp k))).
Proof.
  intros Mask_matrix sp HB HM HN HD HR. unfold make_dpnd_tree. destruct (init_tree_at sp _ eq_refl) as [E0 B0].
  generalize dependent (init_bnst_tree_property sp). intros sp0 E0 B0.
  assert (H0 : head_buffer Mask_matrix (set_New_Bnst_num 0 sp0) = head_buffer Mask_matrix sp).
  { apply head_buffer_same; try (rewrite E0; reflexivity). intros i Hi. cbn [bnst_data set_New_Bnst_num]. rewrite B0.
    now destruct (within 0 i BNST_MAX). }
  assert (N0 : Bnst_num (set_New_Bnst_num 0 sp0) = Bnst_num sp) by now rewrite E0.
  assert (B1 : forall k, 0 <= k < Bnst_num sp -> bnst_data (set_New_Bnst_num 0 sp0) k = clear_tree (bnst_data sp k)).
  { intros k Hk. cbn [bnst_data set_New_Bnst_num]. rewrite B0. now rewrite within_true by lia. }
  destruct (make_simple_tree_nodes Mask_matrix (set_New_Bnst_num 0 sp0)) as (sp2 & -> & E2 & B2).
  - lia.
  - intros k Hk. rewrite N0 in Hk. rewrite B1 by exact Hk. exact (HN k Hk).
  - intros j Hj. rewrite N0 in Hj. rewrite H0. assert (ED : dependants (head_buffer Mask_matrix sp) j = dependants (fun k => b_dpnd_head (bnst_data sp k)) j).
    { apply filter_ext_in. intros i Hi. apply in_rev, in_zrange in Hi. cbv beta. now rewrite plain_buffer by (exact HM || lia). }
    rewrite ED. now apply HR.
  - assert (T : top_managers sp2 = []).
    { unfold top_managers. rewrite E2, E0. cbn [Para_M_num set_bnst_data set_New_Bnst_num]. rewrite HM, zrange_nil by lia. reflexivity. }
    rewrite T. cbn [fold_res negb]. exists sp2. split; [reflexivity|].
    split; [rewrite E2, E0; reflexivity|]. intros k Hk. rewrite B2, B1 by exact Hk. rewrite H0, N0. unfold row_node. rewrite !inb_rows.
    rewrite (within_true 0 k) by exact Hk. replace (0 <=? k) with true by lia. cbn [andb]. set (c := _ && _).
    split; [unfold link; destruct c; [destruct (_ =? 3)|]; now constructor|].
    intros HK. specialize (HD k ltac:(lia)). unfold c. rewrite !plain_buffer by (exact HM || lia).
    rewrite within_true by lia. replace (k <? b_dpnd_head (bnst_data sp k)) with true by lia. cbn [andb]. unfold link. now destruct (_ =? 3).
Qed.

(** The tags after the links of the bunsetsus. *)
Lemma tag_structure_links : forall sp sp1 sp2, tag_structure sp -> same_tags sp sp1 -> Bnst_num sp2 = Bnst_num sp -> Tag_num sp2 = Tag_num sp ->
  tag_data sp2 = tag_data sp1 ->
  (forall k, 0 <= k < Bnst_num sp -> b_tag_ptr (bnst_data sp2 k) = b_tag_ptr (bnst_data sp k) /\ b_tag_num (bnst_data sp2 k) = b_tag_num (bnst_data sp k)) ->
  tag_structure sp2.
Proof.
  intros sp sp1 sp2 [S1 S2 S3 S4 S5 S6 S7] [_ _ _ _ HT] HB HN HD HK. rewrite <- HD in HT. split; rewrite ?HB, ?HN; auto.
  - unfold bnst_tag_segs. rewrite HN. eapply segs_ext; [exact S3 | |exact HK]. intros t Ht. now destruct (HT t) as (_ & -> & _).
  - intros t Ht. destruct (HT t) as (-> & _). auto.
  - intros k Hk. destruct (HK k Hk) as [-> _]. destruct (HT (b_tag_ptr (bnst_data sp k))) as (_ & -> & _). auto.
  - intros k t Hk Ht. destruct (HK k Hk) as [E1 E2]. rewrite E1, E2 in Ht. destruct (HT t) as (_ & _ & -> & _). auto.
  - intros k Hk j Hj. destruct (HK k Hk) as [E1 E2]. rewrite E1, E2 in *. destruct (HT j) as (_ & _ & _ & -> & _). now apply S7.
Qed.

(** Both ways take the same tag of the parent. *)
Lemma tag_head_rule : forall sp sp1 sp2 dp t, same_tags sp sp1 -> tag_data sp2 = tag_data sp1 -> tag_structure sp -> plain_bnsts sp2 ->
  (forall k, 0 <= k < Bnst_num sp -> tree_node (bnst_data sp k) (bnst_data sp2 k) /\
     (k < Bnst_num sp - 1 -> b_parent (bnst_data sp2 k) = Some (b_dpnd_head (bnst_data sp k)))) ->
  (forall k, 0 <= k < Bnst_num sp - 1 -> k < head dp k < Bnst_num sp /\ b_dpnd_head (bnst_data sp k) = head dp k) ->
  (forall k, 0 <= k < Bnst_num sp -> has_feature (b_f (bnst_data sp k)) "直前タグ受" = false) ->
  Bnst_num sp2 = Bnst_num sp -> Tag_num sp2 = Tag_num sp -> 0 <= t < Tag_num sp - 1 -> tag_head sp2 t = rule_head dp sp t.
Proof.
  intros sp sp1 sp2 dp t S1 D1 HS P2 N2 HD HP D2 D3 Ht. destruct (st_tag _ _ S1 t) as (_ & _ & F3 & F4 & _).
  unfold tag_head, rule_head. rewrite D1, F3, F4. replace (t =? Tag_num sp - 1) with false by lia.
  destruct (Z.eqb_spec (b_inum (tag_data sp t)) 0) as [HZ|HZ]; cbn [negb]; [|reflexivity].
  destruct (segs_owner _ _ _ _ _ (ts_segs _ HS) t ltac:(lia)) as (k & Hk & Hin). cbv beta in Hin.
  rewrite (ts_own _ HS k t Hk Hin). pose proof (ts_inum _ HS k Hk t Hin) as HI. cbv beta in HI.
  assert (HL : k < Bnst_num sp - 1).
  { destruct (Z.eq_dec k (Bnst_num sp - 1)) as [E|]; [|lia]. exfalso.
    destruct (segs_last _ _ _ _ _ (ts_segs _ HS) ltac:(lia)). cbv beta in *. rewrite E in *. lia. }
  destruct (N2 k Hk) as [TK EP]. rewrite EP by lia. destruct (HD k ltac:(lia)) as [HK ->]. destruct (N2 (head dp k) ltac:(lia)) as [TP _].
  cbv zeta. unfold find_head_tag_from_dpnd_bnst. cbv zeta. destruct (tn_tags _ _ TP) as [-> ->]. rewrite (tn_f _ _ TK), (tn_f _ _ TP).
  assert (EO : offset_feature (b_f (bnst_data sp (head dp k))) = check_feature (b_f (bnst_data sp (head dp k))) "タグ単位受").
  { unfold offset_feature. specialize (HP (head dp k) ltac:(lia)). unfold has_feature in HP.
    destruct (check_feature _ "タグ単位受"); [reflexivity|]. now destruct (check_feature _ "直前タグ受"). }
  rewrite EO. assert (HH : 0 <= head dp k < Bnst_num sp) by lia.
  destruct (seg_next _ _ _ _ _ (ts_segs _ HS) _ HH) as [L3 _]. destruct (segs_le _ _ _ _ _ (ts_segs _ HS) _ HH) as [L1 L2]. cbv beta in *.
  set (o := if has_feature _ _ then 0 else _).
  assert (HO : - b_tag_num (bnst_data sp (head dp k)) < o <= 0).
  { unfold o. destruct (has_feature _ _); [lia | now apply feature_offset_range]. }
  rewrite last_tag_at; [lia | lia|]. apply (tag_unmerged sp2 P2). lia.
Qed.

(** C24: The two ways to the dependencies of the basic phrases agree.  In a sentence without coordinations whose
    bunsetsus depend on later ones, [dpnd_info_to_tag_raw] computes the heads of the tags from the structure, and
    [make_dpnd_tree] and [bnst_to_tag_tree] build the tree of the tags from the tree of the bunsetsus: the parent of
    each tag in this tree is its head, and the tree spans the tags and is rooted in the last one.  So long as no example of
    a case frame was preferred, whatever the offsets of the rules are; each tag must have room for its children. *)
Theorem tag_tree_agrees : forall `{C : CaseFrames} Mask_matrix dp sp buf, tag_structure sp -> words_known sp -> offsets_ok sp ->
  Para_M_num sp = 0 -> (forall k, 0 <= k < Bnst_num sp -> b_num (bnst_data sp k) = k) ->
  (forall k, 0 <= k < Bnst_num sp - 1 -> k < head dp k < Bnst_num sp /\ b_dpnd_head (bnst_data sp k) = head dp k) ->
  (forall t, tag_examples t = None) ->
  (forall k, 0 <= k < Bnst_num sp -> has_feature (b_f (bnst_data sp k)) "直前タグ受" = false) ->
  (forall j, 0 <= j < Bnst_num sp -> zlen (dependants (fun k => b_dpnd_head (bnst_data sp k)) j) < PARA_PART_MAX) ->
  (forall p, 0 <= p < Tag_num sp -> zlen (units_of (rule_head dp sp) (Tag_num sp - 1) p) < PARA_PART_MAX) ->
  exists sp1 buf1 sp2 sp3, dpnd_info_to_tag_raw dp sp buf = Ret (sp1, buf1) /\
    make_dpnd_tree Mask_matrix false sp1 = Ret (true, sp2) /\ bnst_to_tag_tree sp2 = Ret sp3 /\
    tree (Tag_num sp) (Tag_num sp - 1) (fun t => b_child (tag_data sp3 t)) (fun t => b_parent (tag_data sp3 t)) /\
    forall t, 0 <= t < Tag_num sp - 1 -> b_parent (tag_data sp3 t) = Some (b_dpnd_head (tag_data sp1 t)).
Proof.
  intros C Mask_matrix dp sp buf HS HW HO HM HN HD HE HP HB HR.
  destruct (rule_heads HE dp sp buf HS HW HO (fun k Hk => proj1 (HD k Hk))) as (sp1 & buf1 & E1 & S1 & F1 & H1).
  assert (B1 : bnst_data sp1 = bnst_data sp) by now rewrite F1.
  destruct (plain_tree_nodes Mask_matrix sp1) as (sp2 & E2 & F2 & N2); rewrite ?(st_bnum _ _ S1), ?B1; auto.
  - exact (ts_bnsts _ HS).
  - now rewrite F1.
  - intros k Hk. destruct (HD k Hk) as [H ->]. exact H.
  - rewrite (st_bnum _ _ S1), B1 in N2.
    assert (D2 : tag_data sp2 = tag_data sp1 /\ Bnst_num sp2 = Bnst_num sp /\ Tag_num sp2 = Tag_num sp /\ New_Bnst_num sp2 = 0).
    { rewrite F2. cbn. split; [reflexivity|]. now rewrite (st_bnum _ _ S1), (st_tnum _ _ S1). }
    destruct D2 as (D1 & D2 & D3 & D4).
    assert (SB : forall k, 0 <= k < Bnst_num sp -> b_tag_ptr (bnst_data sp2 k) = b_tag_ptr (bnst_data sp k) /\ b_tag_num (bnst_data sp2 k) = b_tag_num (bnst_data sp k)).
    { intros k Hk. apply (tn_tags _ _ (proj1 (N2 k Hk))). }
    assert (S2 : tag_structure sp2) by exact (tag_structure_links sp sp1 sp2 HS S1 D2 D3 D1 SB).
    assert (P2 : plain_bnsts sp2).
    { split; [exact S2 | exact D4 | |]; rewrite D2; intros k Hk.
      - destruct (N2 k Hk) as [T _]. rewrite (tn_num _ _ T), (HN k Hk), (tn_top _ _ T). split; [lia | reflexivity].
      - destruct (N2 k ltac:(lia)) as [_ T]. rewrite T by lia. destruct (HD k Hk) as [H ->]. eauto. }
    assert (TH : forall t, 0 <= t < Tag_num sp - 1 -> tag_head sp2 t = b_dpnd_head (tag_data sp1 t)).
    { intros t Ht. rewrite H1 by lia. exact (tag_head_rule sp sp1 sp2 dp t S1 D1 HS P2 N2 HD HP D2 D3 Ht). }
    destruct (tag_tree_links sp2 P2) as (sp3 & E3 & _ & T3 & L3).
    + rewrite D3. intros p Hp. unfold units_of.
      rewrite (filter_ext_in _ (fun t => rule_head dp sp t =? p)); [now apply HR|].
      intros t Ht. apply in_zrange in Ht. rewrite TH, H1 by lia. reflexivity.
    + rewrite D3 in T3, L3. exists sp1, buf1, sp2, sp3. repeat (split; [assumption|]). intros t Ht. now rewrite L3, TH.
Qed.

(** 「本を」「古い図書館が」, as in TagDpnd.v, with the head of the first bunsetsu stored. *)
Definition tag_tree_example : SENTENCE_DATA :=
  upd_bnst 0 (set_b_dpnd_head 1) (tags_example ["タグ単位受:-1"%string]).


Lemma tag_tree_agrees_witness : exists sp1 buf1 sp2 sp3,
  @dpnd_info_to_tag_raw frames_example next_head tag_tree_example EmptyString = Ret (sp1, buf1) /\
  make_dpnd_tree (fun _ _ => 1) false sp1 = Ret (true, sp2) /\ bnst_to_tag_tree sp2 = Ret sp3 /\
  map (fun t => b_parent (tag_data sp3 t)) [0; 1; 2] = [Some 1; Some 2; None] /\
  map (fun t => b_child (tag_data sp3 t)) [0; 1; 2] = [[]; [0]; [1]].
Proof.
  assert (H2 : forall (P : Z -> Prop), P 0 -> P 1 -> forall k, 0 <= k < 2 -> P k).
  { intros P P0 P1 k Hk. assert (k = 0 \/ k = 1) as [->| ->] by lia; assumption. }
  assert (H3 : forall (P : Z -> Prop), P 0 -> P 1 -> P 2 -> forall k, 0 <= k < 3 -> P k).
  { intros P P0 P1 P2 k Hk. assert (k = 0 \/ k = 1 \/ k = 2) as [->|[->| ->]] by lia; assumption. }
  destruct (@tag_tree_agrees frames_example (fun _ _ => 1) next_head tag_tree_example EmptyString) as (sp1 & buf1 & sp2 & sp3 & E1 & E2 & E3 & T & P).
  - apply (same_tags_structure (tags_example ["タグ単位受:-1"%string])); [|apply tags_example_ok]. apply same_tags_bnst. now split.
  - change (forall t, 0 <= t < 3 -> is_ret (@tag_word frames_example tag_tree_example (tag_data tag_tree_example t)) = true). refine (H3 _ _ _ _); reflexivity.
  - intros k cp Hk. revert cp. change (0 <= k < 2) in Hk. revert k Hk. refine (H2 _ _ _); [intros cp []|].
    intros cp [<-|[]] _. vm_compute. discriminate.
  - reflexivity.
  - refine (H2 _ _ _); reflexivity.
  - intros k Hk. cbn in Hk. replace k with 0 by lia. cbn. lia.
  - reflexivity.
  - refine (H2 _ _ _); reflexivity.
  - refine (H2 _ _ _); reflexivity.
  - refine (H3 _ _ _ _); reflexivity.
  - exists sp1, buf1, sp2, sp3. repeat (split; [assumption|]). vm_compute in E1. injection E1 as <- _. vm_compute in E2. injection E2 as <-.
    vm_compute in E3. injection E3 as <-. split; reflexivity.
Defined.

(** ** The morphemes *)

Definition bare_mrph (m : MRPH_DATA) : MRPH_DATA := para_info_to_mrph BNST_DATA_0 (clear_mrph_tree m).

Lemma bare_mrph_clear : forall m, bare_mrph (clear_mrph_tree m) = bare_mrph m.
Proof. intros []. vm_compute. reflexivity. Qed.

Record mrphs_rest (sp sp' : SENTENCE_DATA) : Prop := {
  mr_bnst : bnst_data sp' = bnst_data sp;
  mr_nums : Bnst_num sp' = Bnst_num sp /\ Mrph_num sp' = Mrph_num sp /\ New_Bnst_num sp' = New_Bnst_num sp;
  mr_bare : forall m, bare_mrph (mrph_data sp' m) = bare_mrph (mrph_data sp m)
}.

#[export] Instance mrph_links : Links := {|
  unit_child := fun sp m => m_child (mrph_data sp m);
  unit_parent := fun sp m => m_parent (mrph_data sp m);
  attach := attach_mrph; units_max := MRPH_MAX; same_rest := mrphs_rest |}.

Lemma mrphs_rest_upd : forall sp m u, (forall x, bare_mrph (u x) = bare_mrph x) -> mrphs_rest sp (upd_mrph m u sp).
Proof.
  intros sp m u H. split; auto. intros v. rewrite upd_mrph_at. destruct (Z.eqb_spec v m) as [->|]; [apply H | reflexivity].
Qed.

Lemma mrphs_rest_trans : forall a b c, mrphs_rest a b -> mrphs_rest b c -> mrphs_rest a c.
Proof. intros a b c [A1 A2 A3] [B1 B2 B3]. split; [congruence | intuition congruence | intros t; now rewrite B3]. Qed.

#[export] Instance mrph_links_laws : LinksLaws (L := mrph_links).
Proof.
  split; cbn [same_rest unit_child unit_parent units_max attach mrph_links].
  - intros s. now split.
  - exact mrphs_rest_trans.
  - intros p m s Hp Hm HR. unfold attach_mrph, mrph_place. rewrite !within_true by assumption. set (s1 := upd_mrph m (set_m_parent (Some p)) s).
    assert (C1 : forall q, m_child (mrph_data s1 q) = m_child (mrph_data s q)).
    { intros q. unfold s1. rewrite upd_mrph_at. destruct (Z.eqb_spec q m) as [->|]; reflexivity. }
    rewrite C1. replace (PARA_PART_MAX <=? zlen (m_child (mrph_data s p)) + 1) with false by lia.
    eexists. split; [reflexivity|]. split; [|split].
    + apply mrphs_rest_trans with s1; now apply mrphs_rest_upd.
    + intros q. rewrite upd_mrph_at. destruct (Z.eqb_spec q p) as [->|]; [reflexivity | apply C1].
    + intros u. rewrite upd_mrph_at. assert (P1 : m_parent (mrph_data s1 u) = if u =? m then Some p else m_parent (mrph_data s u)).
      { unfold s1. rewrite upd_mrph_at. destruct (Z.eqb_spec u m) as [->|]; reflexivity. }
      rewrite <- P1. destruct (Z.eqb_spec u p) as [->|]; reflexivity.
Qed.

Lemma bare_mrph_field : forall {A} (f : MRPH_DATA -> A), (forall b, f (bare_mrph b) = f b) ->
  forall sp sp' t, mrphs_rest sp sp' -> f (mrph_data sp' t) = f (mrph_data sp t).
Proof. intros A f H sp sp' t HR. now rewrite <- (H (mrph_data sp' t)), (mr_bare _ _ HR), H. Qed.

(** The first [n] morphemes without links. *)
Lemma clear_mrphs_at : forall n, 0 <= n -> forall s s', s' = for_up 0 n (fun i => upd_mrph i clear_mrph_tree) s ->
  mrphs_rest s s' /\ forall t, 0 <= t < n -> m_child (mrph_data s' t) = [] /\ m_parent (mrph_data s' t) = None.
Proof.
  apply (natlike_ind (fun n => forall s s', s' = for_up 0 n (fun i => upd_mrph i clear_mrph_tree) s ->
    mrphs_rest s s' /\ forall t, 0 <= t < n -> m_child (mrph_data s' t) = [] /\ m_parent (mrph_data s' t) = None)).
  - intros s s' ->. rewrite for_up_empty by lia. split; [now split | lia].
  - intros n Hn IH s s' ->. rewrite for_up_snoc by lia. replace (Z.succ n - 1) with n by lia.
    destruct (IH s _ eq_refl) as [H1 H2]. generalize dependent (for_up 0 n (fun i => upd_mrph i clear_mrph_tree) s). intros s1 H1 H2.
    split; [apply mrphs_rest_trans with s1; [exact H1 | apply mrphs_rest_upd, bare_mrph_clear]|].
    intros t Ht. rewrite upd_mrph_at. destruct (Z.eqb_spec t n) as [->|]; [split; reflexivity | apply H2; lia].
Qed.

Lemma init_mrphs_at : forall s s', s' = init_mrph_tree_property s ->
  mrphs_rest s s' /\ forall t, 0 <= t < MRPH_MAX -> m_child (mrph_data s' t) = [] /\ m_parent (mrph_data s' t) = None.
Proof. intros s s' E. apply clear_mrphs_at; [unfold MRPH_MAX; lia | exact E]. Qed.

Section MrphLaws.
Context `{E : CaseEnv} (sp : SENTENCE_DATA).

(** The head of a morpheme: the next one in its bunsetsu, or a morpheme of the parent. *)
Definition mrph_head (m : Z) : Z :=
  match find (fun k => within (b_mrph_ptr (bnst_data sp k)) m (b_mrph_ptr (bnst_data sp k) + b_mrph_num (bnst_data sp k))) (zrange 0 (Bnst_num sp)) with
  | Some k =>
      let bp := bnst_data sp k in
      if m =? b_mrph_ptr bp + b_mrph_num bp - 1 then
        match b_parent bp with
        | Some p => match find_head_mrph_from_dpnd_bnst sp (Some bp) (bnst_data sp p) with Ret h => h | Err _ => -1 end
        | None => -1
        end
      else m + 1
  | None => -1
  end.

Abbreviation n := (Mrph_num sp).
Abbreviation first k := (b_mrph_ptr (bnst_data sp k)).
Abbreviation num k := (b_mrph_num (bnst_data sp k)).

(** The bunsetsus of a sentence without coordinations, with their morphemes; [Class] has the parts of speech. *)
Record plain_mrphs (starts : Z -> bool) : Prop := {
  pm_segs : segs starts n (fun k => first k) (fun k => num k) (Bnst_num sp);
  pm_nums : 0 < n <= MRPH_MAX /\ New_Bnst_num sp = 0;
  pm_bnst : forall k, 0 <= k < Bnst_num sp -> b_num (bnst_data sp k) <> -1 /\ b_para_top_p (bnst_data sp k) = false;
  pm_head : forall k, 0 <= k < Bnst_num sp -> exists h, b_head_ptr (bnst_data sp k) = Some h /\ first k <= h < first k + num k;
  pm_parents : forall k, 0 <= k < Bnst_num sp - 1 -> exists p, b_parent (bnst_data sp k) = Some p /\ k < p < Bnst_num sp;
  pm_class : forall m, 0 <= m < n -> is_ret (class_is (m_Hinshi (mrph_data sp m)) 0 "判定詞"%string) = true
}.

Context (starts : Z -> bool).
Hypothesis plain : plain_mrphs starts.

Lemma mrph_range : forall k, 0 <= k < Bnst_num sp -> 0 < num k /\ 0 <= first k /\ first k + num k <= n.
Proof.
  intros k Hk. destruct (seg_next _ _ _ _ _ (pm_segs _ plain) k Hk) as [H _]. destruct (segs_le _ _ _ _ _ (pm_segs _ plain) k Hk). cbv beta in *. lia.
Qed.

(** The head morpheme of a bunsetsu for a dependant, one of its morphemes. *)
Lemma head_mrph_in : forall s bp p, mrphs_rest sp s -> 0 <= p < Bnst_num sp ->
  exists h, find_head_mrph_from_dpnd_bnst s (Some bp) (bnst_data sp p) = Ret h /\
    find_head_mrph_from_dpnd_bnst sp (Some bp) (bnst_data sp p) = Ret h /\ first p <= h < first p + num p.
Proof.
  intros s bp p HR Hp. destruct (pm_head _ plain p Hp) as (h & Eh & Hh). destruct (mrph_range p Hp) as (N1 & N2 & N3).
  pose proof (proj1 (pm_nums _ plain)) as HM. unfold find_head_mrph_from_dpnd_bnst. rewrite Eh.
  assert (EN : numeral_head s bp (bnst_data sp p) h = numeral_head sp bp (bnst_data sp p) h).
  { unfold numeral_head. now rewrite (bare_mrph_field m_f (fun _ => eq_refl) _ _ (h - 1) HR). }
  rewrite EN. assert (EC : copula_head s bp (bnst_data sp p) h = copula_head sp bp (bnst_data sp p) h).
  { unfold copula_head, mrph_place. destruct (_ && _); [|reflexivity]. destruct (within _ _ _); [|reflexivity].
    now rewrite (bare_mrph_field m_Hinshi (fun _ => eq_refl) _ _ (h + 1) HR). }
  rewrite EC. assert (H : exists b, copula_head sp bp (bnst_data sp p) h = Ret b /\ (b = true -> h + 1 < first p + num p)).
  { unfold copula_head, mrph_place. destruct (Z.leb_spec (h + 1) (first p + num p - 1)); cbn [andb]; [|exists false; split; [reflexivity | discriminate]].
    destruct (has_feature _ _); [|exists false; split; [reflexivity | discriminate]]. rewrite within_true by lia.
    pose proof (pm_class _ plain (h + 1) ltac:(lia)) as HC. destruct (class_is _ _ _) as [b|]; [|discriminate].
    eexists. split; [reflexivity|]. intros _. lia. }
  destruct H as (b & -> & Hb). eexists. split; [reflexivity|]. split; [reflexivity|]. destruct b; [specialize (Hb eq_refl); lia|].
  unfold numeral_head. destruct (Z.leb_spec (first p) (h - 1)); cbn [andb]; [|lia]. repeat destruct (has_feature _ _); cbn [andb negb]; lia.
Qed.

Lemma owner_found : forall k m, 0 <= k < Bnst_num sp -> first k <= m < first k + num k ->
  find (fun k => within (first k) m (first k + num k)) (zrange 0 (Bnst_num sp)) = Some k.
Proof.
  intros k m Hk Hm. destruct (find _ _) as [l|] eqn:EF.
  - apply find_some in EF as [H1 H2]. apply in_zrange in H1. destruct (within_spec (first l) m (first l + num l)) as [H3|]; [|discriminate].
    destruct (Z.lt_trichotomy k l) as [HL|[->|HL]]; [|reflexivity|]; exfalso.
    + pose proof (segs_mono _ _ _ _ _ (pm_segs _ plain) k l ltac:(lia) HL ltac:(lia)). cbv beta in *. lia.
    + pose proof (segs_mono _ _ _ _ _ (pm_segs _ plain) l k ltac:(lia) HL ltac:(lia)). cbv beta in *. lia.
  - exfalso. assert (HN := find_none _ _ EF k). cbv beta in HN. rewrite within_true in HN by lia. discriminate HN. now apply in_zrange.
Qed.

Lemma mrph_head_in : forall k m, 0 <= k < Bnst_num sp -> first k <= m < first k + num k ->
  mrph_head m = if m =? first k + num k - 1 then
      match b_parent (bnst_data sp k) with
      | Some p => match find_head_mrph_from_dpnd_bnst sp (Some (bnst_data sp k)) (bnst_data sp p) with Ret h => h | Err _ => -1 end
      | None => -1
      end
    else m + 1.
Proof. intros k m Hk Hm. unfold mrph_head. now rewrite (owner_found k m Hk Hm). Qed.

Lemma mrph_head_right : forall m, 0 <= m < n - 1 -> m < mrph_head m < n.
Proof.
  intros m Hm. destruct (segs_owner _ _ _ _ _ (pm_segs _ plain) m ltac:(lia)) as (k & Hk & Hin). cbv beta in Hin.
  rewrite (mrph_head_in k m Hk Hin). destruct (Z.eqb_spec m (first k + num k - 1)) as [El|]; [|lia].
  assert (HL : k < Bnst_num sp - 1).
  { destruct (Z.eq_dec k (Bnst_num sp - 1)) as [Ek|]; [|lia]. exfalso.
    destruct (segs_last _ _ _ _ _ (pm_segs _ plain) ltac:(lia)). cbv beta in *. rewrite Ek in *. lia. }
  destruct (pm_parents _ plain k ltac:(lia)) as (p & -> & Hp).
  destruct (head_mrph_in sp (bnst_data sp k) p (same_rest_refl (L := mrph_links) sp) ltac:(lia)) as (h & -> & _ & Hh).
  destruct (mrph_range p ltac:(lia)) as (_ & _ & HP).
  pose proof (segs_mono _ _ _ _ _ (pm_segs _ plain) k p ltac:(lia) ltac:(lia) ltac:(lia)) as HM. cbv beta in HM. lia.
Qed.

Hypothesis room : forall p, 0 <= p < n -> zlen (units_of mrph_head (n - 1) p) < PARA_PART_MAX.

Abbreviation linked_mrphs := (linked_units (L := mrph_links) n mrph_head sp).

Lemma mrphs_fit : n <= units_max (Links := mrph_links).
Proof. exact (proj2 (proj1 (pm_nums _ plain))). Qed.

Lemma link_mrphs_ok : forall k s P, 0 <= k < Bnst_num sp -> linked_mrphs P s -> (forall t, P t -> first k + num k <= t) ->
  exists s', link_mrphs (first k) (first k + num k - 1) s = Ret s' /\ linked_mrphs (fun t => P t \/ first k <= t < first k + num k - 1) s'.
Proof.
  intros k s P Hk HL HP. destruct (mrph_range k Hk) as (N1 & N2 & N3). unfold link_mrphs.
  apply (down_res_total (fun j s' => linked_mrphs (fun t => P t \/ j <= t < first k + num k - 1) s')); [lia | |].
  - intros m s1 Hm H. assert (Eh : m + 1 = mrph_head m).
    { rewrite (mrph_head_in k) by lia. now replace (m =? first k + num k - 1) with false by lia. }
    rewrite Eh. destruct (link_one (LL := mrph_links_laws) n mrph_head mrphs_fit mrph_head_right room sp _ s1 m H) as (s2 & E2 & H2).
    + lia.
    + intros [HP1|HP1]; [apply HP in HP1|]; lia.
    + exists s2. split; [exact E2|]. eapply linked_ext; [|exact H2]. intros t. cbv beta. split.
      * intros [[?|?]|?]; [now left | right; lia | right; lia].
      * intros [?|?]; [now do 2 left|]. destruct (Z.eq_dec t m); [now right | left; right; lia].
  - eapply linked_ext; [|exact HL]. intros t. cbv beta. split; [tauto | intros [?|?]; [assumption | lia]].
Qed.

Lemma last_mrph_ok : forall k s P, 0 <= k < Bnst_num sp - 1 -> linked_mrphs P s -> ~ P (first k + num k - 1) ->
  exists s', last_mrph_to_parent (bnst_data sp k) s = Ret s' /\ linked_mrphs (fun t => P t \/ t = first k + num k - 1) s'.
Proof.
  intros k s P Hk HL HP. pose proof (proj1 HL) as HR. cbn [same_rest mrph_links] in HR. destruct (mrph_range k ltac:(lia)) as (N1 & N2 & N3).
  pose proof mrphs_fit as HM. cbn in HM. unfold last_mrph_to_parent. destruct (pm_parents _ plain k Hk) as (p & EP & Hp). rewrite EP.
  unfold mrph_place. rewrite within_true by lia. rewrite (proj2 (pm_bnst _ plain k ltac:(lia))), (mr_bnst _ _ HR).
  destruct (head_mrph_in s (bnst_data sp k) p HR ltac:(lia)) as (h & -> & Eh & Hh).
  assert (EL : h = mrph_head (first k + num k - 1)) by (rewrite (mrph_head_in k) by lia; now rewrite Z.eqb_refl, EP, Eh).
  destruct (mrph_range p ltac:(lia)) as (_ & _ & HP3).
  pose proof (segs_mono _ _ _ _ _ (pm_segs _ plain) k p ltac:(lia) ltac:(lia) ltac:(lia)) as HS. cbv beta in HS. rewrite EL.
  apply (link_one (LL := mrph_links_laws) n mrph_head mrphs_fit mrph_head_right room sp P s (first k + num k - 1) HL); [lia | exact HP].
Qed.

Definition mrphs_from (k t : Z) : Prop := (if k =? Bnst_num sp then n else first k) <= t < n - 1.

Lemma mrphs_from_next : forall k t, 0 <= k < Bnst_num sp -> mrphs_from k t <->
  mrphs_from (k + 1) t \/ first k <= t < first k + num k /\ t <> n - 1.
Proof.
  intros k t Hk. unfold mrphs_from. replace (k =? Bnst_num sp) with false by lia.
  destruct (seg_next _ _ _ _ _ (pm_segs _ plain) k Hk) as [H1 H2]. cbv beta in *.
  destruct (mrph_range k Hk) as (_ & _ & H3). destruct (Z.eqb_spec (k + 1) (Bnst_num sp)); lia.
Qed.

Definition mrphs_linked_from (k : Z) (st : bool * SENTENCE_DATA) : Prop :=
  fst st = (k =? Bnst_num sp) /\ linked_mrphs (mrphs_from k) (snd st).

Lemma orig_mrph_ok : forall k st, 0 <= k < Bnst_num sp -> mrphs_linked_from (k + 1) st ->
  exists st', orig_bnst_to_mrph k st = Ret st' /\ mrphs_linked_from k st'.
Proof.
  intros k [flag s] Hk [HF HL]. cbn [fst snd] in HF, HL. subst flag. pose proof (proj1 HL) as HR. cbn [same_rest mrph_links] in HR.
  unfold orig_bnst_to_mrph. rewrite (mr_bnst _ _ HR). destruct (pm_bnst _ plain k Hk) as [HN HT]. destruct (mrph_range k Hk) as (N1 & N2 & N3).
  replace (b_num (bnst_data sp k) =? -1) with false by lia. destruct (pm_head _ plain k Hk) as (h & Eh & Hh).
  pose proof mrphs_fit as HM. cbn in HM.
  assert (HD : exists hd, (if b_para_type (bnst_data sp k) =? PARA_NIL then find_head_mrph_from_dpnd_bnst s None (bnst_data sp k)
      else Ret (first k + num k - 1)) = Ret hd /\ mrph_place hd = Ret hd).
  { unfold find_head_mrph_from_dpnd_bnst, mrph_place. rewrite Eh. destruct (_ =? PARA_NIL); eexists; (split; [reflexivity|]);
      rewrite within_true by lia; reflexivity. }
  destruct HD as (hd & -> & ->). rewrite HT. destruct (seg_next _ _ _ _ _ (pm_segs _ plain) k Hk) as [_ HS]. cbv beta in HS.
  assert (HB : forall t, mrphs_from (k + 1) t -> first k + num k <= t).
  { intros u. unfold mrphs_from. rewrite HS. lia. }
  assert (HI : linked_mrphs (mrphs_from (k + 1)) (upd_mrph hd (para_info_to_mrph (bnst_data sp k)) s)).
  { revert HL. apply (linked_same (LL := mrph_links_laws)); cbn [same_rest unit_child unit_parent mrph_links].
    - now apply mrphs_rest_upd.
    - intros p. rewrite upd_mrph_at. destruct (Z.eqb_spec p hd) as [->|]; reflexivity.
    - intros p. rewrite upd_mrph_at. destruct (Z.eqb_spec p hd) as [->|]; reflexivity. }
  destruct (link_mrphs_ok k _ _ Hk HI HB) as (s1 & -> & H1).
  destruct (Z.eqb_spec (k + 1) (Bnst_num sp)) as [Ek|Ek].
  - exists (false, s1). split; [reflexivity|]. split; [cbn; lia|]. cbn [snd]. eapply linked_ext; [|exact H1].
    intros u. rewrite (mrphs_from_next k u Hk). cbv beta. split; (intros [H|H]; [now left | right; lia]).
  - destruct (last_mrph_ok k s1 _ ltac:(lia) H1) as (s2 & -> & H2).
    + intros [H|H]; [apply HB in H|]; lia.
    + exists (false, s2). split; [reflexivity|]. split; [cbn; lia|]. cbn [snd]. eapply linked_ext; [|exact H2].
      intros u. rewrite (mrphs_from_next k u Hk). cbv beta. destruct (mrph_range (k + 1) ltac:(lia)) as (K1 & _ & K3). split.
      * intros [[H|H]|H]; [now left | right; lia | right; lia].
      * intros [H|[H H']]; [now do 2 left|]. destruct (Z.eq_dec u (first k + num k - 1)); [now right | left; right; lia].
Qed.
End MrphLaws.

(** [bnst_to_mrph_tree] makes a tree of the morphemes of a sentence without coordinations: each morpheme is
    linked to the next one of its bunsetsu, and the last one to the head of the parent bunsetsu, to the copula
    behind it or to the numeral before it ([mrph_head]).  It is rooted in the last morpheme of the sentence, all links
    lead to the right, and the links down are the links up; no index leaves its array. *)
Theorem mrph_tree_links : forall `{E : CaseEnv} sp starts, plain_mrphs sp starts ->
  (forall p, 0 <= p < Mrph_num sp -> zlen (units_of (mrph_head sp) (Mrph_num sp - 1) p) < PARA_PART_MAX) ->
  exists sp', bnst_to_mrph_tree sp = Ret sp' /\ bnst_data sp' = bnst_data sp /\
    tree (Mrph_num sp) (Mrph_num sp - 1) (fun m => m_child (mrph_data sp' m)) (fun m => m_parent (mrph_data sp' m)) /\
    forall m, 0 <= m < Mrph_num sp - 1 -> m < mrph_head sp m < Mrph_num sp /\ m_parent (mrph_data sp' m) = Some (mrph_head sp m).
Proof.
  intros E sp starts HP HR. unfold bnst_to_mrph_tree. destruct (init_mrphs_at sp _ eq_refl) as [I1 I2].
  generalize dependent (init_mrph_tree_property sp). intros s0 I1 I2. pose proof (proj1 (pm_nums _ _ HP)) as HM.
  assert (HI : linked_units (L := mrph_links) (Mrph_num sp) (mrph_head sp) sp (fun _ => False) (set_New_Mrph_num 0 s0)).
  { destruct I1 as [A1 A2 A3]. apply linked_none; [now split|]. intros p Hp. apply I2. lia. }
  destruct (mr_nums _ _ I1) as (E1 & E2 & E3). cbn [New_Bnst_num set_New_Mrph_num]. rewrite E3, (proj2 (pm_nums _ _ HP)), zrange_nil by lia.
  cbn [rev fold_res Bnst_num set_New_Mrph_num]. rewrite E1. pose proof (seg_cnt _ _ _ _ _ (pm_segs _ _ HP)) as HB.
  assert (HB' : 0 < Bnst_num sp) by (apply (segs_pos _ _ _ _ _ (pm_segs _ _ HP)); lia).
  destruct (down_res_total (mrphs_linked_from sp) orig_bnst_to_mrph 0 (Bnst_num sp) (true, set_New_Mrph_num 0 s0)) as ([f s1] & -> & H1).
  - lia.
  - intros k st Hk H. now apply (orig_mrph_ok sp starts).
  - split; [cbn; now rewrite Z.eqb_refl|]. cbn [snd]. eapply linked_ext; [|exact HI].
    intros t. unfold mrphs_from. rewrite Z.eqb_refl. lia.
  - exists s1. split; [reflexivity|]. destruct H1 as [_ H1]. cbn [snd] in H1. split; [exact (mr_bnst _ _ (proj1 H1))|].
    pose proof (seg_first _ _ _ _ _ (pm_segs _ _ HP)) as HF. cbv beta in HF.
    pose proof (mrph_head_right sp starts HP) as HH.
    destruct (linked_tree (L := mrph_links) (Mrph_num sp) (mrph_head sp) HH sp s1 (proj1 HM)) as [T P].
    + eapply linked_ext; [|exact H1]. intros t. unfold mrphs_from. replace (0 =? Bnst_num sp) with false by lia.
      replace (Bnst_num sp =? 0) with false in HF by lia. lia.
    + split; [exact T|]. intros m Hm. split; [exact (HH m Hm) | exact (P m Hm)].
Qed.

(** 「学生」「だった」 under 「きのう」: the adverbial bunsetsu depends on the copula behind the head. *)
Definition mrph_tree_example : SENTENCE_DATA :=
  set_Bnst_num 2 (set_Mrph_num 3 (set_bnst_data (fun i =>
      if i =? 0 then set_b_parent (Some 1) (set_b_head_ptr (Some 0) (set_b_mrph_num 1 BNST_DATA_0))
      else set_b_f ["用言:判"%string] (set_b_head_ptr (Some 1) (set_b_mrph_num 2 (set_b_mrph_ptr 1 (set_b_num 1 BNST_DATA_0)))))
    (set_mrph_data (fun m => set_m_Hinshi (if m =? 2 then 4 else 6) MRPH_DATA_0) SENTENCE_DATA_0))).

Definition copula_grammar : Grammar := {|
  Class_id := fun i j => if i =? 4 then Some "判定詞"%string else Some "名詞"%string;
  Type_name := fun _ => None; Form_name := fun _ _ => None |}.
Definition copula_env : CaseEnv := {|
  case_grammar := copula_grammar; gobi := fun _ _ => None; OptKatakanaNormalize := false; use_rep_cf := false;
  ScaseDicExist := false; scase_db := fun _ => None |}.

Lemma mrph_tree_links_witness : exists sp', @bnst_to_mrph_tree copula_env mrph_tree_example = Ret sp' /\
  map (fun m => m_parent (mrph_data sp' m)) [0; 1; 2] = [Some 2; Some 2; None] /\
  tree 3 2 (fun m => m_child (mrph_data sp' m)) (fun m => m_parent (mrph_data sp' m)).
Proof.
  assert (H2 : forall (P : Z -> Prop), P 0 -> P 1 -> forall k, 0 <= k < 2 -> P k).
  { intros P P0 P1 k Hk. assert (k = 0 \/ k = 1) as [->| ->] by lia; assumption. }
  assert (H3 : forall (P : Z -> Prop), P 0 -> P 1 -> P 2 -> forall k, 0 <= k < 3 -> P k).
  { intros P P0 P1 P2 k Hk. assert (k = 0 \/ k = 1 \/ k = 2) as [->|[->| ->]] by lia; assumption. }
  destruct (@mrph_tree_links copula_env mrph_tree_example (fun m => negb (m =? 2))) as (sp' & E & _ & T & _).
  - split.
    + split; cbn [Bnst_num Mrph_num mrph_tree_example set_Bnst_num set_Mrph_num].
      * lia.
      * reflexivity.
      * refine (H2 _ _ _); cbn; lia.
      * refine (H2 _ _ _); reflexivity.
      * intros k i Hk Hi. assert (k = 0 \/ k = 1) as [->| ->] by lia; cbn in Hi; [lia|]. now replace i with 2 by lia.
    + split; [cbn; unfold MRPH_MAX; lia | reflexivity].
    + refine (H2 _ _ _); (split; [discriminate | reflexivity]).
    + refine (H2 _ _ _); (eexists; split; [reflexivity | cbn; lia]).
    + intros k Hk. cbn in Hk. replace k with 0 by lia. exists 1. split; [reflexivity | cbn; lia].
    + refine (H3 _ _ _ _); reflexivity.
  - refine (H3 _ _ _ _); reflexivity.
  - exists sp'. split; [exact E|]. split; [|exact T]. vm_compute in E. injection E as <-. reflexivity.
Defined.
