(* ===== verification/MrphDpnd.v ===== *)
(** * The dependencies of the morphemes (src/system/dpnd_analysis.c, dpnd_info_to_mrph)

    With the output of morphemes, [dpnd_info_to_mrph] carries the dependencies of the basic
    phrases (tags) over to the morphemes: inside a tag to the next morpheme, from its head to the head of the
    governing tag.  A table of the ends of the arcs seen so far keeps the tree projective.  Either the syntactic heads
    are linked or, with [OptSemanticHead], the content words.  A variable that is read before it is set is an error. *)
From Stdlib Require Import ZArith List Bool String Ascii Lia.
Import ListNotations.
From S2P Require Import Prelude CStr Feature Sentence SemCode CheckFunction Regexp PredCase ChangeMrph Rules RuleFile ParaDpnd Dpnd Bunsetsu Tree ReadMrph TagDpnd TagTree.
Open Scope string_scope.
Open Scope Z_scope.

(** The variables of the loop; [None]: not set yet, and NULL for [last_content_m_ptr]. *)
Record head_state : Type := mkHS {
  h_last_t : option Z;
  h_semantic : bool;
  h_syntactic : bool;
  h_outer : bool;
  h_content_m : option Z;
  h_content_ptr : option Z;
  h_root : Z;
  h_proj : array Z;
  h_sp : SENTENCE_DATA
}.

Definition with_h_sp (sp : SENTENCE_DATA) (st : head_state) : head_state :=
  mkHS (h_last_t st) (h_semantic st) (h_syntactic st) (h_outer st) (h_content_m st) (h_content_ptr st) (h_root st) (h_proj st) sp.

(** A variable that is read. *)
Definition var {A} (x : option A) : res A := match x with Some a => Ret a | None => Err BadPointer end.

Section MrphDpnd.
Context `{E : CaseEnv} (OptSemanticHead : bool).

(** ** The heads *)

Definition check_semantic_head (sp : SENTENCE_DATA) (m : Z) (t : BNST_DATA) : res bool :=
  let mp := mrph_data sp m in
  let last := m_inum mp =? 0 in
  match check_feature (b_f t) "用言" with
  | None => Ret last
  | Some cp =>
      match b_head_ptr t with
      | None => Err NullDeref
      | Some h =>
          let num := m_num (mrph_data sp h) in
          if str_eq cp "用言:判" && has_feature (b_f t) "判定詞" then
            if num <? m_num mp then b <- class_is (m_Hinshi mp) 0 "判定詞" ;; Ret (b || last) else Ret last
          else Ret ((m_num mp =? num) || last)
      end
  end.

(** Before a comma or a period at the end of the tag, or the last morpheme of the tag. *)
Definition before_point (sp : SENTENCE_DATA) (m : Z) : res bool :=
  if m_inum (mrph_data sp m) =? 1 then
    k <- mrph_place (m + 1) ;;
    let next := mrph_data sp k in
    special <- class_is (m_Hinshi next) 0 "特殊" ;;
    if special then
      comma <- class_is (m_Hinshi next) (m_Bunrui next) "読点" ;;
      if comma then Ret true else class_is (m_Hinshi next) (m_Bunrui next) "句点"
    else Ret false
  else Ret false.

Definition check_syntactic_head (sp : SENTENCE_DATA) (m : Z) : res bool :=
  b <- before_point sp m ;; Ret (b || (m_inum (mrph_data sp m) =? 0)).

(** ** The arcs *)

(** [m_ptr->dpnd_head = hd; m_ptr->dpnd_type = tp;] *)
Definition set_mrph_head (m hd tp : Z) (sp : SENTENCE_DATA) : SENTENCE_DATA :=
  upd_mrph m (fun x => set_m_dpnd_type tp (set_m_dpnd_head hd x)) sp.

Definition set_out_head (m flag : Z) (sp : SENTENCE_DATA) : SENTENCE_DATA := upd_mrph m (set_m_out_head_flag flag) sp.

(** The content word kept so far depends on the morpheme with the number [num]. *)
Definition content_to (num : Z) (out : bool) (st : head_state) : head_state :=
  match h_content_ptr st with
  | None => st
  | Some c =>
      let sp := set_mrph_head c num (chr "D") (h_sp st) in
      mkHS (h_last_t st) (h_semantic st) (h_syntactic st) (h_outer st) (h_content_m st) None (h_root st) (h_proj st)
        (if out then set_out_head c 0 sp else sp)
  end.

(** No second root: [root_m] is the one there is. *)
Definition to_root (m : Z) (st : head_state) : head_state :=
  let num := m_num (mrph_data (h_sp st) m) in
  if 0 <=? h_root st then with_h_sp (upd_mrph m (set_m_dpnd_head (h_root st)) (h_sp st)) st
  else mkHS (h_last_t st) (h_semantic st) (h_syntactic st) (h_outer st) (h_content_m st) (h_content_ptr st) num (h_proj st)
         (upd_mrph m (set_m_dpnd_head (-1)) (h_sp st)).

(** The end of an arc from [i], for the positions below it. *)
Definition cover (i hd : Z) (proj : array Z) : array Z :=
  for_up (i + 1) hd (fun j proj => if (proj j =? 0) || (hd <? proj j) then aset proj j hd else proj) proj.

(** The arc from [i] to the morpheme with the number [num], cut at the end of an arc that covers [i]. *)
Definition projective_arc (i num : Z) (st : head_state) : res head_state :=
  let p := h_proj st i in
  if negb (p =? 0) && (p <? num) then Ret (with_h_sp (upd_mrph i (set_m_dpnd_head p) (h_sp st)) st)
  else if (num <=? MRPH_MAX) || (num <=? i + 1) then
    Ret (mkHS (h_last_t st) (h_semantic st) (h_syntactic st) (h_outer st) (h_content_m st) (h_content_ptr st) (h_root st)
           (cover i num (h_proj st)) (upd_mrph i (set_m_dpnd_head num) (h_sp st)))
  else Err OutOfBounds.

(** The morpheme [i] depends on one outside of its tag [t]. *)
Definition out_of_tag (i t : Z) (st : head_state) : res head_state :=
  let sp := h_sp st in
  if i =? Mrph_num sp - 1 then
    let st := to_root i st in Ret (with_h_sp (upd_mrph i (set_m_dpnd_type (chr "D")) (h_sp st)) st)
  else
    let st := with_h_sp (upd_mrph i (set_m_dpnd_type (b_dpnd_type (tag_data sp t))) sp) st in
    let hd := b_dpnd_head (tag_data sp t) in
    if hd =? -1 then Ret (to_root i st)
    else
      g <- tag_ref hd ;;
      h <- find_head_mrph_from_dpnd_bnst sp (Some (tag_data sp t)) (tag_data sp g) ;;
      h <- mrph_place h ;;
      projective_arc i (m_num (mrph_data sp h)) st.

(** ** The loop *)

(** A new tag. *)
Definition enter_tag (i : Z) (st : head_state) : head_state :=
  let tnum := m_tnum (mrph_data (h_sp st) i) in
  if 0 <=? tnum then mkHS (Some tnum) false false false (h_content_m st) None (h_root st) (h_proj st) (h_sp st) else st.

(** Is this the semantic, the syntactic head, and an element between phrases? *)
Definition find_heads (i t : Z) (st : head_state) : res (bool * bool * head_state) :=
  let sp := h_sp st in
  let tag := tag_data sp t in
  let mp := mrph_data sp i in
  semantic <- (if OptSemanticHead && negb (h_semantic st) then check_semantic_head sp i tag else Ret false) ;;
  syntactic <- (if h_syntactic st then Ret false else check_syntactic_head sp i) ;;
  let content := if semantic || (syntactic && negb OptSemanticHead) then Some (m_num mp) else h_content_m st in
  let ptr := if semantic then Some i else h_content_ptr st in
  let outer := h_outer st || (negb (b_dpnd_head tag =? -1) && has_feature (m_f mp) "Ｔ句間要素") in
  Ret (semantic, syntactic,
       mkHS (h_last_t st) (h_semantic st || semantic) (h_syntactic st || syntactic) outer content ptr (h_root st) (h_proj st) sp).

Definition mrph_head_step (i : Z) (st : head_state) : res head_state :=
  let st := enter_tag i st in
  t <- var (h_last_t st) ;;
  ' (this_semantic, this_syntactic, st) <- find_heads i t st ;;
  let sp := h_sp st in
  let mp := mrph_data sp i in
  let inside := has_feature (m_f mp) "Ｔ句内要素" in
  let behind := h_syntactic st && negb this_syntactic in
  if negb (h_syntactic st) && negb this_semantic &&
     ((OptSemanticHead && (negb (h_semantic st) || h_outer st)) || (negb OptSemanticHead && negb inside)) then
    Ret (content_to (m_num mp) false (with_h_sp (set_mrph_head i (m_num mp + 1) (chr "D") (set_out_head i 0 sp)) st))
  else if negb (h_outer st) && negb this_semantic &&
     ((OptSemanticHead && h_semantic st && negb behind) || inside ||
      ((b_dpnd_head (tag_data sp t) =? -1) && behind)) then
    c <- var (h_content_m st) ;;
    Ret (with_h_sp (set_mrph_head i c (chr "D") (set_out_head i 0 sp)) st)
  else
    let st := with_h_sp (set_out_head i 1 sp) st in
    let st := if negb this_semantic && negb behind then content_to (m_num mp) true st else st in
    out_of_tag i t st.

Definition dpnd_info_to_mrph (sp : SENTENCE_DATA) : res SENTENCE_DATA :=
  st <- for_res 0 (Mrph_num sp) mrph_head_step (mkHS None false false false None None (-1) (fun _ => 0) sp) ;;
  Ret (h_sp st).
End MrphDpnd.

(** * Properties

    What the loop changes of a morpheme: its head, the type of it, and whether it leaves its tag. *)
Definition bare_head (m : MRPH_DATA) : MRPH_DATA := set_m_out_head_flag 0 (set_m_dpnd_type 0 (set_m_dpnd_head 0 m)).

Record same_mrphs (sp sp' : SENTENCE_DATA) : Prop := {
  sm_rest : sp' = set_mrph_data (mrph_data sp') sp;
  sm_bare : forall m, bare_head (mrph_data sp' m) = bare_head (mrph_data sp m)
}.

Lemma same_mrphs_refl : forall sp, same_mrphs sp sp.
Proof. intros sp. split; [now destruct sp | auto]. Qed.

Lemma same_mrphs_trans : forall a b c, same_mrphs a b -> same_mrphs b c -> same_mrphs a c.
Proof. intros a b c [A1 A2] [B1 B2]. split; [rewrite B1, A1; reflexivity | intros m; now rewrite B2]. Qed.

Lemma same_mrphs_upd : forall sp m u, (forall x, bare_head (u x) = bare_head x) -> same_mrphs sp (upd_mrph m u sp).
Proof.
  intros sp m u H. split; [now destruct sp|]. intros v. rewrite upd_mrph_at. destruct (Z.eqb_spec v m) as [->|]; [apply H | reflexivity].
Qed.

Lemma head_field : forall {A} (f : MRPH_DATA -> A), (forall x, f (bare_head x) = f x) ->
  forall sp sp' m, same_mrphs sp sp' -> f (mrph_data sp' m) = f (mrph_data sp m).
Proof. intros A f H sp sp' m HS. now rewrite <- (H (mrph_data sp' m)), (sm_bare _ _ HS), H. Qed.

Section MrphArcs.
Context `{E : CaseEnv}.

(** The syntactic head of a tag: its last morpheme, or the one before a comma or a period at its end. *)
Definition syntactic_head (sp : SENTENCE_DATA) (t : Z) : Z :=
  let tag := tag_data sp t in
  let e := b_mrph_ptr tag + b_mrph_num tag in
  if (2 <=? b_mrph_num tag) && (match before_point sp (e - 2) with Ret b => b | Err _ => false end) then e - 2 else e - 1.

(** The arc from [m], which would end at [h]: it ends there or at the nearest end of an arc that covers [m]. *)
Definition arc_cut (d : Z -> Z) (m h : Z) : Prop :=
  d m <= h /\ (forall a, 0 <= a < m -> m < d a -> d m <= d a) /\
  (d m = h \/ exists a, 0 <= a < m /\ m < d a /\ d m = d a).

(** The heads [d] of the morphemes of tag [t]. *)
Definition mrph_arc (sp : SENTENCE_DATA) (d : Z -> Z) (t m : Z) : Prop :=
  let s := syntactic_head sp t in
  if m <? s then d m = m + 1
  else if t =? Tag_num sp - 1 then d m = if m =? s then -1 else s
  else exists h, find_head_mrph_from_dpnd_bnst sp (Some (tag_data sp t)) (tag_data sp (b_dpnd_head (tag_data sp t))) = Ret h /\ arc_cut d m h.

(** A sentence with its tags, as [make_tag_units] and [dpnd_info_to_tag] leave it. *)
Record mrph_structure (sp : SENTENCE_DATA) (starts : Z -> bool) : Prop := {
  ms_size : 0 < Mrph_num sp <= MRPH_MAX /\ 0 < Tag_num sp <= TAG_MAX;
  ms_segs : segs starts (Mrph_num sp) (fun t => b_mrph_ptr (tag_data sp t)) (fun t => b_mrph_num (tag_data sp t)) (Tag_num sp);
  ms_num : forall m, 0 <= m < Mrph_num sp -> m_num (mrph_data sp m) = m;
  ms_tnum : forall t m, 0 <= t < Tag_num sp -> b_mrph_ptr (tag_data sp t) <= m < b_mrph_ptr (tag_data sp t) + b_mrph_num (tag_data sp t) ->
    m_tnum (mrph_data sp m) = if m =? b_mrph_ptr (tag_data sp t) then t else -1;
  ms_inum : forall t, 0 <= t < Tag_num sp ->
    counted (fun t => b_mrph_ptr (tag_data sp t)) (fun t => b_mrph_num (tag_data sp t)) (fun m => m_inum (mrph_data sp m)) t;
  ms_head : forall t, 0 <= t < Tag_num sp -> exists h, b_head_ptr (tag_data sp t) = Some h /\
    b_mrph_ptr (tag_data sp t) <= h < b_mrph_ptr (tag_data sp t) + b_mrph_num (tag_data sp t);
  ms_dpnd : forall t, 0 <= t < Tag_num sp - 1 -> t < b_dpnd_head (tag_data sp t) < Tag_num sp;
  ms_root : b_dpnd_head (tag_data sp (Tag_num sp - 1)) = -1;
  ms_class : forall m, 0 <= m < Mrph_num sp -> Class_id (m_Hinshi (mrph_data sp m)) 0 <> None /\
    Class_id (m_Hinshi (mrph_data sp m)) (m_Bunrui (mrph_data sp m)) <> None;
  ms_inside : forall m, 0 <= m < Mrph_num sp -> has_feature (m_f (mrph_data sp m)) "Ｔ句内要素" = false
}.

Context (sp0 : SENTENCE_DATA) (starts : Z -> bool).
Hypothesis str : mrph_structure sp0 starts.

Abbreviation N := (Mrph_num sp0).
Abbreviation T := (Tag_num sp0).
Abbreviation first t := (b_mrph_ptr (tag_data sp0 t)).
Abbreviation num t := (b_mrph_num (tag_data sp0 t)).

Lemma class_known : forall m j name, 0 <= m < N -> j = 0 \/ j = m_Bunrui (mrph_data sp0 m) ->
  exists b, class_is (m_Hinshi (mrph_data sp0 m)) j name = Ret b.
Proof.
  intros m j name Hm Hj. unfold class_is. destruct (ms_class _ _ str m Hm) as [H1 H2].
  destruct Hj as [->| ->]; [destruct (Class_id _ 0) | destruct (Class_id _ (m_Bunrui _))]; eauto; congruence.
Qed.

Lemma tag_range : forall t, 0 <= t < T -> 0 < num t /\ 0 <= first t /\ first t + num t <= N.
Proof.
  intros t Ht. destruct (seg_next _ _ _ _ _ (ms_segs _ _ str) t Ht) as [H _]. destruct (segs_le _ _ _ _ _ (ms_segs _ _ str) t Ht). cbv beta in *. lia.
Qed.

Lemma before_point_same : forall sp m, same_mrphs sp0 sp -> before_point sp m = before_point sp0 m.
Proof.
  intros sp m HS. unfold before_point, mrph_place. rewrite (head_field m_inum (fun _ => eq_refl) _ _ m HS).
  destruct (_ =? 1); [|reflexivity]. destruct (within _ _ _); [|reflexivity].
  now rewrite (head_field m_Hinshi (fun _ => eq_refl) _ _ (m + 1) HS), (head_field m_Bunrui (fun _ => eq_refl) _ _ (m + 1) HS).
Qed.

Lemma before_point_ret : forall t m, 0 <= t < T -> first t <= m < first t + num t ->
  exists b, before_point sp0 m = Ret b /\ (b = true -> m = first t + num t - 2).
Proof.
  intros t m Ht Hm. destruct (tag_range t Ht) as (N1 & N2 & N3). pose proof (proj1 (ms_size _ _ str)) as HN.
  unfold before_point. rewrite (ms_inum _ _ str t Ht m Hm). cbv beta.
  destruct (Z.eqb_spec (first t + num t - 1 - m) 1) as [E1|]; [|exists false; split; [reflexivity | discriminate]].
  unfold mrph_place. rewrite within_true by lia. cbv zeta.
  destruct (class_known (m + 1) 0 "特殊") as (b1 & ->); [lia | auto|]. destruct b1; [|exists false; split; [reflexivity | discriminate]].
  destruct (class_known (m + 1) (m_Bunrui (mrph_data sp0 (m + 1))) "読点") as (b2 & ->); [lia | auto|].
  destruct (class_known (m + 1) (m_Bunrui (mrph_data sp0 (m + 1))) "句点") as (b3 & ->); [lia | auto|].
  destruct b2; eexists; (split; [reflexivity | lia]).
Qed.

Lemma syntactic_head_range : forall t, 0 <= t < T ->
  let s := syntactic_head sp0 t in first t <= s < first t + num t /\ first t + num t - 2 <= s.
Proof.
  intros t Ht s. destruct (tag_range t Ht) as (N1 & N2 & N3). unfold s, syntactic_head. cbv zeta.
  destruct (Z.leb_spec 2 (num t)); cbn [andb]; [|lia]. destruct (before_point _ _) as [[|]|]; lia.
Qed.

(** Up to the head, the test finds the head. *)
Lemma head_test : forall sp t m, same_mrphs sp0 sp -> 0 <= t < T -> first t <= m <= syntactic_head sp0 t ->
  check_syntactic_head sp m = Ret (m =? syntactic_head sp0 t).
Proof.
  intros sp t m HS Ht Hm. pose proof (syntactic_head_range t Ht) as HR. cbv zeta in HR.
  unfold check_syntactic_head. rewrite before_point_same by exact HS. rewrite (head_field m_inum (fun _ => eq_refl) _ _ m HS).
  assert (Hin : first t <= m < first t + num t) by lia. destruct (before_point_ret t m Ht Hin) as (b & Eb & Hb). rewrite Eb. f_equal.
  rewrite (ms_inum _ _ str t Ht m Hin). cbv beta.
  destruct (Z.eq_dec m (first t + num t - 2)) as [Em|Em].
  - assert (ES : syntactic_head sp0 t = if b then m else m + 1).
    { unfold syntactic_head. cbv zeta. rewrite <- Em, Eb. replace (2 <=? num t) with true by lia. cbn [andb]. destruct b; lia. }
    rewrite ES. destruct b; cbn [orb]; lia.
  - destruct b; [elim Em; auto|]. cbn [orb]. destruct (tag_range t Ht) as (N1 & N2 & N3). lia.
Qed.

(** ** The table of the ends of the arcs *)
Definition d_of (sp : SENTENCE_DATA) (m : Z) : Z := m_dpnd_head (mrph_data sp m).

Definition covered (d : Z -> Z) (i : Z) (proj : array Z) : Prop := forall j, i <= j ->
  (proj j = 0 /\ forall a, 0 <= a < i -> d a <= j) \/
  (0 < proj j /\ (exists a, 0 <= a < i /\ j < d a /\ proj j = d a) /\ forall a, 0 <= a < i -> j < d a -> proj j <= d a).

Lemma cover_at : forall i hd proj j, cover i hd proj j =
  if within (i + 1) j hd && ((proj j =? 0) || (hd <? proj j)) then hd else proj j.
Proof.
  intros i hd proj j. unfold cover.
  rewrite (for_up_pointwise (fun s p => s p) (fun k p => p =? k) (fun _ v => if (v =? 0) || (hd <? v) then hd else v)).
  - rewrite existsb_zrange_eq. destruct (within _ _ _); [|reflexivity]. now destruct (_ || _).
  - intros k s _. unfold aset. destruct (Z.eqb_spec j k) as [->|Hn]; destruct (_ || _); try reflexivity; [now rewrite Z.eqb_refl|].
    now replace (j =? k) with false by lia.
  - intros k l _ _ Hk Hl. lia.
Qed.

(** The arc of [i] as [projective_arc] draws it, and the table behind it. *)
Lemma arc_covered : forall d d' i h proj, 0 <= i < h -> covered d i proj -> (forall a, 0 <= a < i -> d' a = d a) ->
  let p := proj i in let redirect := negb (p =? 0) && (p <? h) in d' i = (if redirect then p else h) ->
  arc_cut d' i h /\ covered d' (i + 1) (if redirect then proj else cover i h proj).
Proof.
  intros d d' i h proj Hi HC HD p redirect Hd. subst redirect.
  assert (HP := HC i ltac:(lia)). fold p in HP. destruct (negb (p =? 0) && (p <? h)) eqn:ER.
  - apply andb_true_iff in ER as [E1 E2]. destruct HP as [[HP _]|(HP & (a & Ha & Hia & Hpa) & HM)]; [lia|]. split.
    + split; [lia|]. split; [|right; exists a; rewrite HD by lia; lia]. intros b Hb. rewrite HD by lia. rewrite Hd. now apply HM.
    + intros j Hj. destruct (HC j ltac:(lia)) as [[H1 H2]|(H1 & (b & Hb & Hjb & Hpb) & H2)].
      * left. split; [exact H1|]. intros b Hb. destruct (Z.eq_dec b i) as [->|]; [rewrite Hd; specialize (H2 a Ha); lia | rewrite HD by lia; apply H2; lia].
      * right. split; [exact H1|]. split; [exists b; rewrite HD by lia; lia|]. intros c Hc Hjc.
        destruct (Z.eq_dec c i) as [->|]; [specialize (H2 a Ha); lia | rewrite HD in * by lia; apply H2; lia].
  - split.
    + split; [lia|]. split; [|left; exact Hd]. intros b Hb. rewrite HD by lia. rewrite Hd. intros Hib.
      destruct HP as [[_ HP]|(HP & _ & HM)]; [specialize (HP b Hb); lia | specialize (HM b Hb Hib); lia].
    + intros j Hj. rewrite cover_at. destruct (HC j ltac:(lia)) as [[H1 H2]|(H1 & (b & Hb & Hjb & Hpb) & H2)].
      * rewrite H1. cbn [Z.eqb orb]. rewrite andb_true_r. destruct (within_spec (i + 1) j h).
        -- right. split; [lia|]. split; [exists i; lia|]. intros c Hc Hjc. destruct (Z.eq_dec c i) as [->|]; [lia|].
           rewrite HD in * by lia. specialize (H2 c ltac:(lia)). lia.
        -- left. split; [reflexivity|]. intros c Hc. destruct (Z.eq_dec c i) as [->|]; [lia | rewrite HD by lia; apply H2; lia].
      * right. destruct (within_spec (i + 1) j h); cbn [andb].
        -- destruct (Z.eqb_spec (proj j) 0); [lia|]. cbn [orb]. destruct (Z.ltb_spec h (proj j)).
           ++ split; [lia|]. split; [exists i; lia|]. intros c Hc Hjc. destruct (Z.eq_dec c i) as [->|]; [lia|].
              rewrite HD in * by lia. specialize (H2 c ltac:(lia) Hjc). lia.
           ++ split; [lia|]. split; [exists b; rewrite HD by lia; lia|]. intros c Hc Hjc. destruct (Z.eq_dec c i) as [->|]; [lia|].
              rewrite HD in * by lia. apply H2; lia.
        -- split; [lia|]. split; [exists b; rewrite HD by lia; lia|]. intros c Hc Hjc. destruct (Z.eq_dec c i) as [->|]; [lia|].
           rewrite HD in * by lia. apply H2; lia.
Qed.

(** An arc that ends before [i + 2] covers nothing. *)
Lemma short_covered : forall d d' i proj, 0 <= i -> covered d i proj -> (forall a, 0 <= a < i -> d' a = d a) -> d' i <= i + 1 ->
  covered d' (i + 1) proj.
Proof.
  intros d d' i proj Hi HC HD Hd j Hj. destruct (HC j ltac:(lia)) as [[H1 H2]|(H1 & (b & Hb & Hjb & Hpb) & H2)].
  - left. split; [exact H1|]. intros c Hc. destruct (Z.eq_dec c i) as [->|]; [lia | rewrite HD by lia; apply H2; lia].
  - right. split; [exact H1|]. split; [exists b; rewrite HD by lia; lia|]. intros c Hc Hjc.
    destruct (Z.eq_dec c i) as [->|]; [lia | rewrite HD in * by lia; apply H2; lia].
Qed.

Lemma mrph_arc_ext : forall d d' t m, (forall a, 0 <= a <= m -> d' a = d a) -> 0 <= m -> mrph_arc sp0 d t m -> mrph_arc sp0 d' t m.
Proof.
  intros d d' t m HD Hm H. unfold mrph_arc in *. cbv zeta in *. rewrite HD by lia. destruct (m <? _); [exact H|].
  destruct (t =? _); [exact H|]. destruct H as (h & Eh & H1 & H2 & H3). exists h. split; [exact Eh|]. unfold arc_cut. rewrite HD by lia.
  split; [exact H1|]. split; [intros a Ha; rewrite HD by lia; now apply H2|].
  destruct H3 as [H3|(a & Ha & H3)]; [now left | right; exists a; rewrite HD by lia; auto].
Qed.
(** ** The loop *)
Abbreviation synt t := (syntactic_head sp0 t).
Abbreviation root := (synt (T - 1)).

(** The variables before morpheme [i], which is in tag [t]. *)
Record in_tag (t i : Z) (st : head_state) : Prop := {
  it_tag : h_last_t st = Some t;
  it_flags : h_semantic st = false /\ h_content_ptr st = None;
  it_syntactic : h_syntactic st = (synt t <? i);
  it_content : synt t < i -> h_content_m st = Some (synt t);
  it_outer : t = T - 1 -> h_outer st = false
}.

Record arcs_upto (i : Z) (st : head_state) : Prop := {
  au_sp : same_mrphs sp0 (h_sp st);
  au_root : h_root st = if root <? i then root else -1;
  au_arcs : forall t m, 0 <= t < T -> first t <= m < first t + num t -> m < i -> mrph_arc sp0 (d_of (h_sp st)) t m;
  au_cov : covered (d_of (h_sp st)) i (h_proj st)
}.

Definition loop_inv (i : Z) (st : head_state) : Prop :=
  arcs_upto i st /\ forall t, 0 <= t < T -> first t <= i - 1 < first t + num t -> in_tag t i st.

Lemma enter_ok : forall i t st, 0 <= i < N -> 0 <= t < T -> first t <= i < first t + num t -> loop_inv i st ->
  arcs_upto i (enter_tag i st) /\ in_tag t i (enter_tag i st).
Proof.
  intros i t st Hi Ht Hin [HA HT]. pose proof (syntactic_head_range t Ht) as HS. cbv zeta in HS. unfold enter_tag.
  rewrite (head_field m_tnum (fun _ => eq_refl) _ _ i (au_sp _ _ HA)), (ms_tnum _ _ str t i Ht Hin).
  destruct (Z.eqb_spec i (first t)) as [Ef|Ef].
  - replace (0 <=? t) with true by lia. split; [destruct HA; now split|]. split; cbn; auto; try lia.
  - cbn [Z.leb Z.compare]. split; [exact HA|]. apply HT; lia.
Qed.

Lemma find_heads_ok : forall i t st, 0 <= i < N -> 0 <= t < T -> first t <= i < first t + num t -> arcs_upto i st -> in_tag t i st ->
  exists st', find_heads false i t st = Ret (false, i =? synt t, st') /\ in_tag t (i + 1) st' /\
    h_sp st' = h_sp st /\ h_proj st' = h_proj st /\ h_root st' = h_root st.
Proof.
  intros i t st Hi Ht Hin HA [I1 [I2 I2'] I3 I4 I5]. pose proof (syntactic_head_range t Ht) as HS. cbv zeta in HS.
  unfold find_heads. cbn [andb negb]. rewrite I3.
  assert (HT : (if synt t <? i then Ret false else check_syntactic_head (h_sp st) i) = Ret (i =? synt t)).
  { destruct (Z.ltb_spec (synt t) i); [f_equal; lia|]. apply (head_test (h_sp st) t i (au_sp _ _ HA) Ht). lia. }
  rewrite HT. eexists. split; [reflexivity|]. cbn [h_sp h_proj h_root]. split; [|auto].
  assert (HTD : tag_data (h_sp st) = tag_data sp0) by (rewrite (sm_rest _ _ (au_sp _ _ HA)); reflexivity).
  split; cbn [h_last_t h_semantic h_content_ptr h_syntactic h_content_m h_outer orb].
  - exact I1.
  - now rewrite I2.
  - destruct (Z.eqb_spec i (synt t)), (Z.ltb_spec (synt t) i), (Z.ltb_spec (synt t) (i + 1)); cbn; lia.
  - intros Hs. destruct (Z.eqb_spec i (synt t)) as [Es|]; cbn [andb negb].
    + f_equal. rewrite (head_field m_num (fun _ => eq_refl) _ _ i (au_sp _ _ HA)), (ms_num _ _ str i Hi). exact Es.
    + apply I4. lia.
  - intros ->. rewrite (I5 eq_refl), HTD, (ms_root _ _ str). reflexivity.
Qed.

(** After the arc of [i] was drawn. *)
Lemma loop_next : forall i t st st' x, 0 <= i < N -> 0 <= t < T -> first t <= i < first t + num t -> arcs_upto i st -> in_tag t (i + 1) st' ->
  same_mrphs (h_sp st) (h_sp st') -> (forall m, d_of (h_sp st') m = if m =? i then x else d_of (h_sp st) m) ->
  h_root st' = (if root <? i + 1 then root else -1) -> mrph_arc sp0 (d_of (h_sp st')) t i -> covered (d_of (h_sp st')) (i + 1) (h_proj st') ->
  loop_inv (i + 1) st'.
Proof.
  intros i t st st' x Hi Ht Hin [A1 A2 A3 A4] HI HS HD HR HA HC.
  assert (OW : forall u v m, 0 <= u < T -> 0 <= v < T -> first u <= m < first u + num u -> first v <= m < first v + num v -> u = v).
  { intros u v m Hu Hv H1 H2. destruct (Z.lt_trichotomy u v) as [HL|[->|HL]]; [exfalso | reflexivity | exfalso].
    - pose proof (segs_mono _ _ _ _ _ (ms_segs _ _ str) u v ltac:(lia) HL ltac:(lia)) as HM. cbv beta in HM. lia.
    - pose proof (segs_mono _ _ _ _ _ (ms_segs _ _ str) v u ltac:(lia) HL ltac:(lia)) as HM. cbv beta in HM. lia. }
  split.
  - split; [now apply same_mrphs_trans with (h_sp st) | exact HR | | exact HC].
    intros u m Hu Hm Hlt. destruct (Z.eq_dec m i) as [->|Hn].
    + now replace u with t by (apply (OW t u i); auto).
    + apply (mrph_arc_ext (d_of (h_sp st))).
      * intros a Ha. rewrite HD. now replace (a =? i) with false by lia.
      * destruct (tag_range u Hu). lia.
      * apply A3; auto. lia.
  - intros u Hu Hm. replace (i + 1 - 1) with i in Hm by lia. now replace u with t by (apply (OW t u i); auto).
Qed.

Lemma content_none : forall num out st, h_content_ptr st = None -> content_to num out st = st.
Proof. intros num out st H. unfold content_to. now rewrite H. Qed.

Lemma set_head_at : forall i x tp flag sp, let sp' := set_mrph_head i x tp (set_out_head i flag sp) in
  same_mrphs sp sp' /\ forall m, d_of sp' m = if m =? i then x else d_of sp m.
Proof.
  intros i x tp flag sp sp'. split.
  - apply same_mrphs_trans with (set_out_head i flag sp); apply same_mrphs_upd; reflexivity.
  - intros m. unfold d_of, sp', set_mrph_head, set_out_head. rewrite !upd_mrph_at. destruct (Z.eqb_spec m i) as [->|]; reflexivity.
Qed.
(** The head of the governing tag. *)
Lemma head_of_tag : forall sp dep g, same_mrphs sp0 sp -> 0 <= g < T ->
  exists h, find_head_mrph_from_dpnd_bnst sp (Some dep) (tag_data sp0 g) = Ret h /\
    find_head_mrph_from_dpnd_bnst sp0 (Some dep) (tag_data sp0 g) = Ret h /\ first g <= h < first g + num g.
Proof.
  intros sp dep g HS Hg. destruct (ms_head _ _ str g Hg) as (h & Eh & Hh). destruct (tag_range g Hg) as (N1 & N2 & N3).
  pose proof (proj1 (ms_size _ _ str)) as HM. unfold find_head_mrph_from_dpnd_bnst. rewrite Eh.
  assert (EN : numeral_head sp dep (tag_data sp0 g) h = numeral_head sp0 dep (tag_data sp0 g) h).
  { unfold numeral_head. now rewrite (head_field m_f (fun _ => eq_refl) _ _ (h - 1) HS). }
  assert (EC : copula_head sp dep (tag_data sp0 g) h = copula_head sp0 dep (tag_data sp0 g) h).
  { unfold copula_head, mrph_place. destruct (_ && _); [|reflexivity]. destruct (within _ _ _); [|reflexivity].
    now rewrite (head_field m_Hinshi (fun _ => eq_refl) _ _ (h + 1) HS). }
  rewrite EN, EC. assert (H : exists b, copula_head sp0 dep (tag_data sp0 g) h = Ret b /\ (b = true -> h + 1 < first g + num g)).
  { unfold copula_head, mrph_place. destruct (Z.leb_spec (h + 1) (first g + num g - 1)); cbn [andb]; [|exists false; split; [reflexivity | discriminate]].
    destruct (has_feature _ _); [|exists false; split; [reflexivity | discriminate]]. rewrite within_true by lia.
    destruct (class_known (h + 1) 0 "判定詞") as (b & ->); [lia | auto|]. eexists. split; [reflexivity|]. intros _. lia. }
  destruct H as (b & -> & Hb). eexists. split; [reflexivity|]. split; [reflexivity|]. destruct b; [specialize (Hb eq_refl); lia|].
  unfold numeral_head. destruct (Z.leb_spec (first g) (h - 1)); cbn [andb]; [|lia]. repeat destruct (has_feature _ _); cbn [andb negb]; lia.
Qed.

(** The variables that an arc does not change. *)
Lemma in_tag_same : forall t i st st', in_tag t i st -> h_last_t st' = h_last_t st -> h_semantic st' = h_semantic st ->
  h_content_ptr st' = h_content_ptr st -> h_syntactic st' = h_syntactic st -> h_content_m st' = h_content_m st -> h_outer st' = h_outer st ->
  in_tag t i st'.
Proof. intros t i st st' [I1 [I2 I2'] I3 I4 I5] E1 E2 E3 E4 E5 E6. split; [congruence | split; congruence | congruence | |]; intros H; [rewrite E5 | rewrite E6]; auto. Qed.

(** The head of a tag that is not the last one leaves the tag. *)
Lemma out_arc_ok : forall i t st st1, 0 <= i < N -> 0 <= t < T - 1 -> first t <= i < first t + num t -> synt t <= i -> arcs_upto i st ->
  in_tag t (i + 1) st1 -> same_mrphs (h_sp st) (h_sp st1) -> (forall m, d_of (h_sp st1) m = d_of (h_sp st) m) ->
  h_proj st1 = h_proj st -> h_root st1 = h_root st ->
  exists st', out_of_tag i t st1 = Ret st' /\ loop_inv (i + 1) st'.
Proof.
  intros i t st st1 Hi Ht Hin Hsyn HA HI HS HD HP HR. pose proof (same_mrphs_trans _ _ _ (au_sp _ _ HA) HS) as HS1.
  assert (HTD : tag_data (h_sp st1) = tag_data sp0 /\ Mrph_num (h_sp st1) = N) by (rewrite (sm_rest _ _ HS1); split; reflexivity).
  destruct HTD as [HTD HN]. pose proof (ms_dpnd _ _ str t Ht) as Hd. pose proof (ms_size _ _ str) as [HM1 HM2].
  set (g := b_dpnd_head (tag_data sp0 t)) in *. assert (Hg : 0 <= g < T) by lia.
  assert (HL : first t + num t <= first g).
  { pose proof (segs_mono _ _ _ _ _ (ms_segs _ _ str) t g) as H. cbv beta in H. apply H; lia. }
  destruct (head_of_tag (h_sp st1) (tag_data sp0 t) g HS1 Hg) as (h & E1 & E2 & Hh). destruct (tag_range g Hg) as (G1 & G2 & G3).
  unfold out_of_tag. rewrite HN, HTD. fold g. replace (i =? N - 1) with false by lia. replace (g =? -1) with false by lia.
  unfold tag_ref. rewrite within_true by lia. rewrite E1. unfold mrph_place. rewrite within_true by lia.
  assert (EN : m_num (mrph_data (h_sp st1) h) = h) by (rewrite (head_field m_num (fun _ => eq_refl) _ _ h HS1); apply (ms_num _ _ str); lia).
  rewrite EN. unfold projective_arc. cbn [h_proj with_h_sp h_sp]. rewrite HP.
  set (sp1 := upd_mrph i (set_m_dpnd_type (b_dpnd_type (tag_data sp0 t))) (h_sp st1)).
  assert (HS2 : forall x, same_mrphs (h_sp st) (upd_mrph i (set_m_dpnd_head x) sp1) /\
      forall m, d_of (upd_mrph i (set_m_dpnd_head x) sp1) m = if m =? i then x else d_of (h_sp st) m).
  { intros x. split.
    - apply same_mrphs_trans with (h_sp st1); [exact HS|]. apply same_mrphs_trans with sp1; apply same_mrphs_upd; reflexivity.
    - intros m. unfold d_of, sp1. rewrite !upd_mrph_at. destruct (Z.eqb_spec m i) as [->|]; [reflexivity | apply HD]. }
  assert (ROOT : (if root <? i then root else -1) = if root <? i + 1 then root else -1).
  { assert (HT1 : 0 <= T - 1 < T) by lia. pose proof (syntactic_head_range (T - 1) HT1) as H. cbv zeta in H.
    assert (HT : first t + num t <= first (T - 1)).
    { pose proof (segs_mono _ _ _ _ _ (ms_segs _ _ str) t (T - 1)) as HT. cbv beta in HT. apply HT; lia. }
    replace (root <? i) with false by lia. now replace (root <? i + 1) with false by lia. }
  pose proof (arc_covered (d_of (h_sp st)) (fun m => if m =? i then (if negb (h_proj st i =? 0) && (h_proj st i <? h) then h_proj st i else h) else d_of (h_sp st) m)
    i h (h_proj st) ltac:(lia) (au_cov _ _ HA)) as HC. cbv beta zeta in HC. rewrite Z.eqb_refl in HC.
  destruct HC as [HC1 HC2]; [intros a Ha; now replace (a =? i) with false by lia | reflexivity|].
  assert (ARC : forall d, (forall m, d m = if m =? i then (if negb (h_proj st i =? 0) && (h_proj st i <? h) then h_proj st i else h) else d_of (h_sp st) m) -> mrph_arc sp0 d t i).
  { intros d Hdd. unfold mrph_arc. cbv zeta. replace (i <? synt t) with false by lia. replace (t =? T - 1) with false by lia. exists h. split; [exact E2|].
    unfold arc_cut in HC1. cbv beta in HC1. rewrite Z.eqb_refl in HC1. destruct HC1 as (C1 & C2 & C3). unfold arc_cut. rewrite !Hdd, Z.eqb_refl. split; [exact C1|].
    split; [intros a Ha; rewrite Hdd; now apply C2|]. destruct C3 as [C3|(a & C3)]; [now left|]. right. exists a. now rewrite Hdd. }
  destruct (negb (h_proj st i =? 0) && (h_proj st i <? h)) eqn:ER.
  - eexists. split; [reflexivity|]. destruct (HS2 (h_proj st i)) as [S2 D2].
    apply (loop_next i t st _ (h_proj st i)); cbn [h_sp h_root h_proj with_h_sp]; auto; try lia.
    + eapply in_tag_same; [exact HI | reflexivity..].
    + now rewrite HR, (au_root _ _ HA).
    + rewrite HP. intros j Hj. specialize (HC2 j Hj). cbv beta in HC2. setoid_rewrite D2. exact HC2.
  - replace (h <=? MRPH_MAX) with true by lia. cbn [orb]. eexists. split; [reflexivity|]. destruct (HS2 h) as [S2 D2].
    apply (loop_next i t st _ h); cbn [h_sp h_root h_proj with_h_sp]; auto; try lia.
    + eapply in_tag_same; [exact HI | reflexivity..].
    + now rewrite HR, (au_root _ _ HA).
    + intros j Hj. specialize (HC2 j Hj). cbv beta in HC2. setoid_rewrite D2. exact HC2.
Qed.
(** The root of the sentence. *)
Lemma root_arc_ok : forall i st st1, 0 <= i < N -> first (T - 1) <= i < first (T - 1) + num (T - 1) -> i = root -> arcs_upto i st ->
  in_tag (T - 1) (i + 1) st1 -> same_mrphs (h_sp st) (h_sp st1) -> (forall m, d_of (h_sp st1) m = d_of (h_sp st) m) ->
  h_proj st1 = h_proj st -> h_root st1 = h_root st ->
  exists st', out_of_tag i (T - 1) st1 = Ret st' /\ loop_inv (i + 1) st'.
Proof.
  intros i st st1 Hi Hin Hr HA HI HS HD HP HR. pose proof (same_mrphs_trans _ _ _ (au_sp _ _ HA) HS) as HS1.
  assert (HTD : tag_data (h_sp st1) = tag_data sp0 /\ Mrph_num (h_sp st1) = N) by (rewrite (sm_rest _ _ HS1); split; reflexivity).
  destruct HTD as [HTD HN]. assert (HT : 0 <= T - 1 < T) by (pose proof (proj2 (ms_size _ _ str)); lia).
  assert (RT : h_root st1 = -1) by (rewrite HR, (au_root _ _ HA); now replace (root <? i) with false by lia).
  assert (EN : forall sp, same_mrphs (h_sp st1) sp -> m_num (mrph_data sp i) = i).
  { intros sp HX. rewrite (head_field m_num (fun _ => eq_refl) _ _ i (same_mrphs_trans _ _ _ HS1 HX)). now apply (ms_num _ _ str). }
  assert (NEXT : forall sp st', h_sp st' = sp -> h_last_t st' = h_last_t st1 -> h_semantic st' = h_semantic st1 -> h_content_ptr st' = h_content_ptr st1 ->
    h_syntactic st' = h_syntactic st1 -> h_content_m st' = h_content_m st1 -> h_outer st' = h_outer st1 -> h_proj st' = h_proj st1 -> h_root st' = i ->
    same_mrphs (h_sp st1) sp -> (forall m, d_of sp m = if m =? i then -1 else d_of (h_sp st1) m) -> loop_inv (i + 1) st').
  { intros sp st' E1 E2 E3 E4 E5 E6 E7 E8 E9 HX HY.
    assert (HZ : forall m, d_of (h_sp st') m = if m =? i then -1 else d_of (h_sp st) m) by (intros m; now rewrite E1, HY, HD).
    apply (loop_next i (T - 1) st st' (-1)); auto; rewrite ?E1.
    - now apply (in_tag_same _ _ st1).
    - now apply same_mrphs_trans with (h_sp st1).
    - rewrite E9, Hr. now replace (root <? root + 1) with true by lia.
    - unfold mrph_arc. cbv zeta. replace (i <? root) with false by lia. rewrite Z.eqb_refl. rewrite <- E1, HZ, Z.eqb_refl.
      now replace (i =? root) with true by lia.
    - rewrite E8, HP, <- E1. apply (short_covered (d_of (h_sp st))); [lia | apply (au_cov _ _ HA) | |].
      + intros a Ha. rewrite HZ. now replace (a =? i) with false by lia.
      + rewrite HZ, Z.eqb_refl. lia. }
  unfold out_of_tag. rewrite HN, HTD, (ms_root _ _ str). cbn [Z.eqb Pos.eqb]. destruct (Z.eqb_spec i (N - 1)) as [El|El].
  - unfold to_root. rewrite RT. cbn [Z.leb Z.compare with_h_sp]. eexists. split; [reflexivity|].
    eapply NEXT; try reflexivity; [cbn [h_root]; now rewrite EN by apply same_mrphs_refl | |].
    + cbn [h_sp with_h_sp]. eapply same_mrphs_trans; apply same_mrphs_upd; reflexivity.
    + intros m. cbn [h_sp with_h_sp]. unfold d_of. rewrite !upd_mrph_at, ?Z.eqb_refl. destruct (Z.eqb_spec m i) as [->|]; reflexivity.
  - unfold to_root. cbn [h_root with_h_sp]. rewrite RT. cbn [Z.leb Z.compare]. eexists. split; [reflexivity|].
    eapply NEXT; try reflexivity; [cbn [h_root h_sp with_h_sp]; apply EN; apply same_mrphs_upd; reflexivity | |].
    + cbn [h_sp with_h_sp]. eapply same_mrphs_trans; apply same_mrphs_upd; reflexivity.
    + intros m. cbn [h_sp with_h_sp]. unfold d_of. rewrite !upd_mrph_at, ?Z.eqb_refl. destruct (Z.eqb_spec m i) as [->|]; reflexivity.
Qed.

Lemma step_ok : forall i st, 0 <= i < N -> loop_inv i st -> exists st', mrph_head_step false i st = Ret st' /\ loop_inv (i + 1) st'.
Proof.
  intros i st Hi HL. destruct (segs_owner _ _ _ _ _ (ms_segs _ _ str) i Hi) as (t & Ht & Hin). cbv beta in Hin.
  destruct (enter_ok i t st Hi Ht Hin HL) as [HA HI]. pose proof (syntactic_head_range t Ht) as HS. cbv zeta in HS.
  unfold mrph_head_step. cbv zeta. destruct (find_heads_ok i t _ Hi Ht Hin HA HI) as (st1 & EF & I1 & S1 & P1 & R1).
  rewrite (it_tag _ _ _ HI). cbn [var]. rewrite EF. pose proof I1 as [J1 [J2 J2'] J3 J4 J5]. rewrite J3, S1.
  assert (HTD : tag_data (h_sp (enter_tag i st)) = tag_data sp0) by (rewrite (sm_rest _ _ (au_sp _ _ HA)); reflexivity).
  set (st0 := enter_tag i st) in *. clearbody st0.
  rewrite (head_field m_f (fun _ => eq_refl) _ _ i (au_sp _ _ HA)), (ms_inside _ _ str i Hi), HTD.
  assert (EN : m_num (mrph_data (h_sp st0) i) = i) by (rewrite (head_field m_num (fun _ => eq_refl) _ _ i (au_sp _ _ HA)); now apply (ms_num _ _ str)).
  set (sp := h_sp st0) in *.
  rewrite EN. cbn [negb andb orb]. rewrite !andb_true_r.
  destruct (Z.ltb_spec (synt t) (i + 1)) as [Hs|Hs]; cbn [negb andb orb].
  2:{ (* before the head *) rewrite content_none by exact J2'. eexists. split; [reflexivity|].
      destruct (set_head_at i (i + 1) (chr "D") 0 sp) as [X1 X2].
      apply (loop_next i t st0 _ (i + 1)); auto; cbn [h_sp h_root h_proj with_h_sp].
      - eapply in_tag_same; [exact I1 | reflexivity..].
      - rewrite R1, (au_root _ _ HA). destruct (Z.eq_dec t (T - 1)) as [Et|Et].
        + rewrite <- Et. replace (synt t <? i) with false by lia. now replace (synt t <? i + 1) with false by lia.
        + assert (HT1 : 0 <= T - 1 < T) by lia. pose proof (syntactic_head_range (T - 1) HT1) as H. cbv zeta in H.
          assert (HT : first t + num t <= first (T - 1)).
          { pose proof (segs_mono _ _ _ _ _ (ms_segs _ _ str) t (T - 1)) as HT. cbv beta in HT. apply HT; lia. }
          replace (root <? i) with false by lia. now replace (root <? i + 1) with false by lia.
      - unfold mrph_arc. cbv zeta. replace (i <? synt t) with true by lia. now rewrite X2, Z.eqb_refl.
      - rewrite P1. apply (short_covered (d_of (h_sp st0))); [lia | apply (au_cov _ _ HA) | |].
        + intros a Ha. rewrite X2. now replace (a =? i) with false by lia.
        + rewrite X2, Z.eqb_refl. lia. }
  destruct (Z.eq_dec t (T - 1)) as [Et|Et].
  - subst t. rewrite (J5 eq_refl), (ms_root _ _ str). cbn [Z.eqb Pos.eqb negb andb]. destruct (Z.eqb_spec i root) as [Er|Er]; cbn [negb].
    + destruct (set_head_at i (d_of sp i) (m_dpnd_type (mrph_data sp i)) 1 sp) as [X1 X2].
      assert (Y : content_to i true (with_h_sp (set_out_head i 1 sp) st1) = with_h_sp (set_out_head i 1 sp) st1) by (apply content_none; exact J2').
      rewrite Y. apply (root_arc_ok i st0); auto; cbn [h_sp h_proj h_root with_h_sp].
      * eapply in_tag_same; [exact I1 | reflexivity..].
      * apply same_mrphs_upd. reflexivity.
      * intros m. unfold d_of, set_out_head. rewrite upd_mrph_at. destruct (Z.eqb_spec m i) as [->|]; reflexivity.
    + rewrite (J4 ltac:(lia)). cbn [var]. eexists. split; [reflexivity|]. destruct (set_head_at i root (chr "D") 0 sp) as [X1 X2].
      apply (loop_next i (T - 1) st0 _ root); auto; cbn [h_sp h_root h_proj with_h_sp].
      * eapply in_tag_same; [exact I1 | reflexivity..].
      * rewrite R1, (au_root _ _ HA). replace (root <? i) with true by lia. now replace (root <? i + 1) with true by lia.
      * unfold mrph_arc. cbv zeta. replace (i <? root) with false by lia. rewrite Z.eqb_refl, X2, Z.eqb_refl. now replace (i =? root) with false by lia.
      * rewrite P1. apply (short_covered (d_of (h_sp st0))); [lia | apply (au_cov _ _ HA) | |].
        -- intros a Ha. rewrite X2. now replace (a =? i) with false by lia.
        -- rewrite X2, Z.eqb_refl. lia.
  - replace (b_dpnd_head (tag_data sp0 t) =? -1) with false by (pose proof (ms_dpnd _ _ str t ltac:(lia)); lia). cbn [andb]. rewrite andb_false_r.
    assert (Y : (if negb (negb (i =? synt t)) then content_to i true (with_h_sp (set_out_head i 1 sp) st1) else with_h_sp (set_out_head i 1 sp) st1) =
                with_h_sp (set_out_head i 1 sp) st1) by (destruct (negb _); [apply content_none; exact J2' | reflexivity]).
    rewrite Y. apply (out_arc_ok i t st0); auto; cbn [h_sp h_proj h_root with_h_sp]; try lia.
    + eapply in_tag_same; [exact I1 | reflexivity..].
    + apply same_mrphs_upd. reflexivity.
    + intros m. unfold d_of, set_out_head. rewrite upd_mrph_at. destruct (Z.eqb_spec m i) as [->|]; reflexivity.
Qed.
End MrphArcs.

(** [None]: the root. *)
Definition mrph_parent (sp : SENTENCE_DATA) (m : Z) : option Z :=
  if m_dpnd_head (mrph_data sp m) =? -1 then None else Some (m_dpnd_head (mrph_data sp m)).

Section MrphTreeLaws.
Context `{E : CaseEnv} (sp sp' : SENTENCE_DATA) (starts : Z -> bool).
Hypothesis str : mrph_structure sp starts.
Hypothesis arcs : forall t m, 0 <= t < Tag_num sp -> b_mrph_ptr (tag_data sp t) <= m < b_mrph_ptr (tag_data sp t) + b_mrph_num (tag_data sp t) ->
  mrph_arc sp (d_of sp') t m.

Abbreviation root := (syntactic_head sp (Tag_num sp - 1)).

(** Where an arc goes. *)
Lemma arc_cases : forall m, 0 <= m < Mrph_num sp ->
  (m < d_of sp' m < Mrph_num sp /\ m <> root) \/ (m = root /\ d_of sp' m = -1) \/ (m = root + 1 /\ d_of sp' m = root /\ m = Mrph_num sp - 1).
Proof.
  intros m Hm. destruct (segs_owner _ _ _ _ _ (ms_segs _ _ str) m Hm) as (t & Ht & Hin). cbv beta in Hin.
  pose proof (syntactic_head_range sp starts str t Ht) as HS. cbv zeta in HS. destruct (tag_range sp starts str t Ht) as (N1 & N2 & N3).
  pose proof (proj2 (ms_size _ _ str)) as HT. assert (HT1 : 0 <= Tag_num sp - 1 < Tag_num sp) by lia.
  pose proof (syntactic_head_range sp starts str _ HT1) as HR. cbv zeta in HR.
  destruct (segs_last _ _ _ _ _ (ms_segs _ _ str) ltac:(lia)) as [HL1 HL2]. cbv beta in HL1, HL2.
  pose proof (arcs t m Ht Hin) as HA. unfold mrph_arc in HA. cbv zeta in HA. destruct (Z.ltb_spec m (syntactic_head sp t)) as [Hs|Hs].
  - left. split; [lia|]. intros ->. destruct (Z.eq_dec t (Tag_num sp - 1)) as [->|Hn]; [lia|].
    pose proof (segs_mono _ _ _ _ _ (ms_segs _ _ str) t (Tag_num sp - 1)) as HX. cbv beta in HX. specialize (HX ltac:(lia) ltac:(lia) ltac:(lia)). lia.
  - destruct (Z.eqb_spec t (Tag_num sp - 1)) as [->|Hn].
    + right. destruct (Z.eqb_spec m root); [left | right]; lia.
    + left. pose proof (segs_mono _ _ _ _ _ (ms_segs _ _ str) t (Tag_num sp - 1)) as HX. cbv beta in HX. specialize (HX ltac:(lia) ltac:(lia) ltac:(lia)).
      pose proof (ms_dpnd _ _ str t ltac:(lia)) as Hd. destruct HA as (h & Eh & A1 & _ & A3).
      destruct (head_of_tag sp starts str sp (tag_data sp t) (b_dpnd_head (tag_data sp t)) (same_mrphs_refl sp) ltac:(lia)) as (h' & Eh' & _ & Hh).
      assert (h' = h) by congruence. subst h'. destruct (tag_range sp starts str (b_dpnd_head (tag_data sp t)) ltac:(lia)) as (_ & _ & G3).
      pose proof (segs_mono _ _ _ _ _ (ms_segs _ _ str) t (b_dpnd_head (tag_data sp t))) as HY. cbv beta in HY. specialize (HY ltac:(lia) ltac:(lia) ltac:(lia)).
      split; [|lia]. destruct A3 as [A3|(a & Ha & A3)]; lia.
Qed.

Lemma arcs_projective : forall a b, 0 <= a < b -> b < Mrph_num sp -> b < d_of sp' a -> d_of sp' b <= d_of sp' a.
Proof.
  intros a b Ha Hb Hab. destruct (segs_owner _ _ _ _ _ (ms_segs _ _ str) b ltac:(lia)) as (t & Ht & Hin). cbv beta in Hin.
  pose proof (syntactic_head_range sp starts str t Ht) as HS. cbv zeta in HS.
  pose proof (arcs t b Ht Hin) as HA. unfold mrph_arc in HA. cbv zeta in HA. destruct (Z.ltb_spec b (syntactic_head sp t)); [lia|].
  destruct (Z.eqb_spec t (Tag_num sp - 1)) as [Et|]; [destruct (Z.eqb_spec b (syntactic_head sp t)); lia|].
  destruct HA as (h & _ & _ & A2 & _). now apply A2.
Qed.

Lemma arcs_reach : forall m, 0 <= m < Mrph_num sp -> reaches (mrph_parent sp') root m.
Proof.
  assert (RP : forall m, 0 <= m < Mrph_num sp -> m <> root -> mrph_parent sp' m = Some (d_of sp' m)).
  { intros m Hm Hr. unfold mrph_parent. fold (d_of sp' m). destruct (arc_cases m Hm) as [H|[H|H]]; try lia;
      now replace (d_of sp' m =? -1) with false by (pose proof (proj2 (ms_size _ _ str)) as HT;
        assert (HT1 : 0 <= Tag_num sp - 1 < Tag_num sp) by lia; pose proof (syntactic_head_range sp starts str _ HT1) as HR; cbv zeta in HR;
        destruct (tag_range sp starts str _ HT1); lia). }
  assert (G : forall n, 0 <= n -> forall m, 0 <= m < Mrph_num sp -> Mrph_num sp - m <= n -> reaches (mrph_parent sp') root m).
  { apply (natlike_ind (fun n => forall m, 0 <= m < Mrph_num sp -> Mrph_num sp - m <= n -> reaches (mrph_parent sp') root m)); [lia|].
    intros n Hn IH m Hm Hle. destruct (Z.eq_dec m root) as [->|Hr]; [constructor|].
    apply reaches_up with (d_of sp' m); [now apply RP|]. destruct (arc_cases m Hm) as [H|[H|(H1 & -> & _)]]; [apply IH; lia | lia | constructor]. }
  intros m Hm. apply (G (Mrph_num sp - m)); lia.
Qed.
End MrphTreeLaws.

(** C25: With the syntactic heads, [dpnd_info_to_mrph] makes one tree of the morphemes of a sentence, rooted in the
    syntactic head of its last tag, and a projective one: a morpheme below an arc depends on nothing behind its end.
    Inside a tag a morpheme depends on the next one up to the syntactic head; the period at the end of the sentence
    depends on the head before it; and what leaves a tag depends on the head of the governing tag, or, when an arc
    covers it that ends before that head, on the nearest such end ([mrph_arc]).  Only heads change.  The features of the
    rules of the repository never mark a Ｔ句内要素. *)
Theorem mrph_dependencies : forall `{E : CaseEnv} sp starts, mrph_structure sp starts ->
  exists sp', dpnd_info_to_mrph false sp = Ret sp' /\ same_mrphs sp sp' /\
    (forall t m, 0 <= t < Tag_num sp -> b_mrph_ptr (tag_data sp t) <= m < b_mrph_ptr (tag_data sp t) + b_mrph_num (tag_data sp t) ->
       mrph_arc sp (d_of sp') t m) /\
    (forall a b, 0 <= a < b -> b < Mrph_num sp -> b < d_of sp' a -> d_of sp' b <= d_of sp' a) /\
    (forall m, 0 <= m < Mrph_num sp -> reaches (mrph_parent sp') (syntactic_head sp (Tag_num sp - 1)) m).
Proof.
  intros E sp starts str. unfold dpnd_info_to_mrph. pose proof (ms_size _ _ str) as [HM HT].
  assert (HT1 : 0 <= Tag_num sp - 1 < Tag_num sp) by lia.
  pose proof (syntactic_head_range sp starts str _ HT1) as HR. cbv zeta in HR. destruct (tag_range sp starts str _ HT1) as (_ & N2 & _).
  destruct (for_res_total (loop_inv sp) (mrph_head_step false) 0 (Mrph_num sp) (mkHS None false false false None None (-1) (fun _ => 0) sp))
    as (st & -> & [HA _]).
  - lia.
  - intros i st Hi H. now apply (step_ok sp starts str).
  - split.
    + split; cbn [h_sp h_root h_proj]; [apply same_mrphs_refl | now replace (syntactic_head sp (Tag_num sp - 1) <? 0) with false by lia | |].
      * intros t m Ht Hin Hm. destruct (tag_range sp starts str t Ht) as (_ & N & _). lia.
      * intros j Hj. left. split; [reflexivity | lia].
    + intros t Ht Hin. destruct (tag_range sp starts str t Ht) as (_ & N & _). lia.
  - exists (h_sp st). split; [reflexivity|]. split; [exact (au_sp _ _ _ HA)|].
    assert (AR : forall t m, 0 <= t < Tag_num sp -> b_mrph_ptr (tag_data sp t) <= m < b_mrph_ptr (tag_data sp t) + b_mrph_num (tag_data sp t) ->
      mrph_arc sp (d_of (h_sp st)) t m).
    { intros t m Ht Hin. apply (au_arcs _ _ _ HA); auto. destruct (tag_range sp starts str t Ht) as (_ & _ & N3). lia. }
    split; [exact AR|]. split; [now apply (arcs_projective sp (h_sp st) starts str AR) | now apply (arcs_reach sp (h_sp st) starts str AR)].
Qed.

(** 「本を」「読む。」 *)
Definition mrph_example_grammar : Grammar := {|
  Class_id := fun i j => Some (if i =? 1 then (if j =? 0 then "特殊" else "句点") else "名詞");
  Type_name := fun _ => None; Form_name := fun _ _ => None |}.
Definition mrph_example_env : CaseEnv := {|
  case_grammar := mrph_example_grammar; gobi := fun _ _ => None; OptKatakanaNormalize := false; use_rep_cf := false;
  ScaseDicExist := false; scase_db := fun _ => None |}.
Definition mrph_example : SENTENCE_DATA :=
  set_Mrph_num 4 (set_Tag_num 2 (set_tag_data (fun t =>
      if t =? 0 then set_b_dpnd_head 1 (set_b_head_ptr (Some 0) (set_b_mrph_num 2 BNST_DATA_0))
      else set_b_dpnd_head (-1) (set_b_head_ptr (Some 2) (set_b_mrph_num 2 (set_b_mrph_ptr 2 BNST_DATA_0))))
    (set_mrph_data (fun m => set_m_num m (set_m_inum (1 - m mod 2) (set_m_tnum (if m =? 0 then 0 else if m =? 2 then 1 else -1)
      (set_m_Bunrui 1 (set_m_Hinshi (if m =? 3 then 1 else 6) MRPH_DATA_0))))) SENTENCE_DATA_0))).

Lemma mrph_dependencies_witness : exists sp', @dpnd_info_to_mrph mrph_example_env false mrph_example = Ret sp' /\
  map (d_of sp') [0; 1; 2; 3] = [1; 2; -1; 2] /\ (forall m, 0 <= m < 4 -> reaches (mrph_parent sp') 2 m).
Proof.
  assert (H2 : forall (P : Z -> Prop), P 0 -> P 1 -> forall k, 0 <= k < 2 -> P k).
  { intros P P0 P1 k Hk. assert (k = 0 \/ k = 1) as [->| ->] by lia; assumption. }
  assert (H4 : forall (P : Z -> Prop), P 0 -> P 1 -> P 2 -> P 3 -> forall k, 0 <= k < 4 -> P k).
  { intros P P0 P1 P2 P3 k Hk. assert (k = 0 \/ k = 1 \/ k = 2 \/ k = 3) as [->|[->|[->| ->]]] by lia; assumption. }
  destruct (@mrph_dependencies mrph_example_env mrph_example (fun m => m mod 2 =? 0)) as (sp' & E & _ & _ & _ & R).
  - split.
    + cbn. unfold MRPH_MAX, TAG_MAX. lia.
    + split; cbn [Mrph_num Tag_num mrph_example set_Mrph_num set_Tag_num].
      * lia.
      * reflexivity.
      * refine (H2 _ _ _); cbn; lia.
      * refine (H2 _ _ _); reflexivity.
      * intros k i Hk Hi. assert (k = 0 \/ k = 1) as [->| ->] by lia; cbn in Hi; [now replace i with 1 by lia | now replace i with 3 by lia].
    + refine (H4 _ _ _ _ _); reflexivity.
    + intros t m Ht. cbn in Ht. assert (t = 0 \/ t = 1) as [->| ->] by lia; cbn [b_mrph_ptr b_mrph_num tag_data mrph_example]; intros Hm; cbn in Hm.
      * assert (m = 0 \/ m = 1) as [->| ->] by lia; reflexivity.
      * assert (m = 2 \/ m = 3) as [->| ->] by lia; reflexivity.
    + intros t Ht m Hm. cbn in Ht. assert (t = 0 \/ t = 1) as [->| ->] by lia; cbn in Hm.
      * assert (m = 0 \/ m = 1) as [->| ->] by lia; reflexivity.
      * assert (m = 2 \/ m = 3) as [->| ->] by lia; reflexivity.
    + refine (H2 _ _ _); (eexists; split; [reflexivity | cbn; lia]).
    + intros t Ht. cbn in Ht. replace t with 0 by lia. cbn. lia.
    + reflexivity.
    + refine (H4 _ _ _ _ _); split; discriminate.
    + refine (H4 _ _ _ _ _); reflexivity.
  - exists sp'. split; [exact E|]. split; [vm_compute in E; injection E as <-; reflexivity | exact R].
Defined.
