(* ===== verification/Cky.v ===== *)
(** * The chart parser (src/system/cky.c)

    The default parser: phrases [i .. j] are built bottom-up from adjacent
    phrases, scored, and the best one over the sentence becomes the
    dependency structure.  Japanese, with the score of OPT_DPND
    ([calc_score]); [calc_case_probability] (OPT_CASE) and the Chinese
    branches are not modelled. *)
From Stdlib Require Import ZArith List Bool String Ascii Lia.
From Stdlib Require Import Floats.SpecFloat Permutation Sorted.
Import ListNotations.
From S2P Require Import Prelude CStr Feature Sentence SemCode CheckFunction Dpnd.

Definition CKY_TABLE_MAX : Z := 1000000.

Inductive direction : Type := LtoR | RtoL.

(** The scalar fields of a CKY node; [ck_b] is the index of [b_ptr].  [score]
    is a [double] that holds integers in this mode. *)
Record cky_data : Type := mkCD {
  ck_i : Z;
  ck_j : Z;
  ck_score : Z;
  ck_para_score : spec_float;
  ck_para_flag : bool;
  ck_dpnd_type : Z;
  ck_direction : direction;
  ck_b : Z;
  ck_scase_check : array Z;
  ck_un_count : Z
}.

(** A node: [left] and [right] are both NULL or both set.  The [next]
    pointers are the lists of the cells of [cky_matrix]. *)
Inductive CKY : Type :=
| Leaf (d : cky_data)
| Branch (d : cky_data) (left right : CKY).

Definition data (c : CKY) : cky_data := match c with Leaf d => d | Branch d _ _ => d end.
Definition set_data (d : cky_data) (c : CKY) : CKY :=
  match c with Leaf _ => Leaf d | Branch _ l r => Branch d l r end.
Definition b_of (c : CKY) : Z := ck_b (data c).
Definition score (c : CKY) : Z := ck_score (data c).

(** The child that modifies, and the child that holds the head. *)
Definition is_LtoR (c : CKY) : bool := match ck_direction (data c) with LtoR => true | RtoL => false end.
Definition modifier (c : CKY) : option CKY :=
  match c with
  | Leaf _ => None
  | Branch _ l r => Some (if is_LtoR c then l else r)
  end.

Definition f64 (z : Z) : spec_float := binary_normalize 53 1024 z 0 false.

(** ** The restrictions before the chart *)
Section Restrict.
Context (rules : list DpndRule) (sp : SENTENCE_DATA).

(** Row [i] keeps the first of its positions in the order [js]. *)
Definition keep_first (i : Z) (js : list Z) (m : matrix Z) : matrix Z :=
  snd (fold_left (fun '(count, m) j =>
         if negb (m i j =? 0)
         then (count + 1, if 0 <? count then mset m i j 0 else m)
         else (count, m)) js (0, m)).

Definition restrict_parenthetic_coordination (Dpnd_matrix : matrix Z) : matrix Z :=
  for_up 0 (Bnst_num sp - 1) (fun i m =>
    if bnst_has sp i "係:括弧並列" then keep_first i (zrange (i + 1) (Bnst_num sp)) m else m) Dpnd_matrix.

Definition restrict_end_prefer_dependency (Dpnd_matrix : matrix Z) : res (matrix Z) :=
  for_res 0 (Bnst_num sp - 1) (fun i m =>
    r <- rule_of rules sp i ;;
    Ret (if preference r =? -1 then keep_first i (rev (zrange (i + 1) (Bnst_num sp))) m else m)) Dpnd_matrix.

Definition discard_bad_coordination (Para_matrix : Z -> matrix spec_float) : Z -> matrix spec_float :=
  for_up 0 (Para_num sp) (fun i P =>
    if p_status (para_data sp i) =? chr "x"
    then fun k => if k =? i then fill_rect 0 (Bnst_num sp) 0 (Bnst_num sp) (f64 (-1)) (P i) else P k
    else P) Para_matrix.

Definition handle_incomplete_coordination (Mask_matrix Dpnd_matrix : matrix Z) : matrix Z :=
  for_up 0 (Bnst_num sp) (fun i m =>
    for_up 0 (Bnst_num sp) (fun j m =>
      if (Mask_matrix i j =? 3) && (m i j =? 0) then mset m i j (chr "I") else m) m) Dpnd_matrix.
End Restrict.

Section Cky.
Context `{FM : FeatureMatch} (rules : list DpndRule) (sp : SENTENCE_DATA).
Context (Mask_matrix Quote_matrix Dpnd_matrix : matrix Z) (Para_matrix : Z -> matrix spec_float).
Context (OptParaFix OptNbest : bool) (OptBeam : Z).

(** [Para_matrix[...] >= PARA_THRESHOLD] *)
Definition para_possible (dep begin gov : Z) : bool :=
  (0 <=? begin) && negb (b_para_num (bnst_data sp dep) =? -1) &&
  SFleb (S754_zero false) (Para_matrix (b_para_num (bnst_data sp dep)) begin gov).

(** The type of the dependency, 0 when it is impossible. *)
Definition check_dpnd_possibility (dep gov begin : Z) (relax_flag : bool) : Z :=
  if (negb OptParaFix && para_possible dep begin gov) || (OptParaFix && (Mask_matrix dep gov =? 2))
  then chr "P"
  else if OptParaFix && (Mask_matrix dep gov =? 3) then chr "I"
  else if negb (Dpnd_matrix dep gov =? 0) && negb (Quote_matrix dep gov =? 0) &&
          (negb OptParaFix || (Mask_matrix dep gov =? 1))
  then Dpnd_matrix dep gov
  else if (Dpnd_matrix dep gov =? chr "R") || relax_flag then chr "R"
  else 0.

(** ** The score *)

(** The nodes from [c] down along the head. *)
Fixpoint spine (c : CKY) : list CKY :=
  match c with
  | Leaf _ => [c]
  | Branch d l r => c :: match ck_direction d with LtoR => spine r | RtoL => spine l end
  end.

Definition check_scase (b : BNST_DATA) (scase_check : array Z) (rentai : bool) (un_count : Z) : Z :=
  let wanted := b2z rentai + un_count in
  let vacant := vacant_slots b scase_check rentai in
  if wanted <=? vacant then wanted * 10 else vacant * 10.

(** Number of possible governors of [d], and the position of [g] among them. *)
Definition count_governors (d g begin : Z) : Z * Z :=
  if d <? g then
    for_up (d + 1) (Bnst_num sp) (fun i '(count, pos) =>
      if negb (check_dpnd_possibility d i begin ((i =? Bnst_num sp - 1) && (count =? 0)) =? 0)
      then (count + 1, if i =? g then count else pos) else (count, pos)) (0, 0)
  else
    for_down (d - 1) 0 (fun i '(count, pos) =>
      if negb (check_dpnd_possibility i d begin false =? 0)
      then (count + 1, if i =? g then count else pos) else (count, pos)) (0, 0).

Definition fixed_pair (d g : Z) : bool :=
  let m := if d <? g then Mask_matrix d g else Mask_matrix g d in
  (negb (d =? g)) && ((m =? 2) || (m =? 3)).

(** The penalty for the distance to the preferred position. *)
Definition distance_score (d g begin : Z) : res Z :=
  if fixed_pair d g then Ret 0
  else
    let '(count, pos) := count_governors d g begin in
    r <- rule_of rules sp d ;;
    let default_pos := if preference r =? -1 then count else preference r in
    let dist := Z.abs (default_pos - 1 - pos) in
    Ret (- (if bnst_has sp d "提題" then dist else dist * 2)
         - (if (d + 1 =? g) && (0 <? dist) && bnst_has sp d "読点" then 5 else 0)).

(** The score of the case [cp]: as in [dpnd_evaluation], but the case is
    looked up after the colon and the genitive uses the slot of the nominative. *)
Definition case_score (cp : string) (df : FEATURE) (b : BNST_DATA) (g : gov_state) : gov_state :=
  let k := case2num (sdrop (Z.to_nat (BYTES4CHAR + 1)) cp) in
  if str_eq cp "係:未格" then
    if has_any df ["時間"; "数量"]%string then gs_add 10 g
    else mkGS (gs_score g) (gs_scase g) (gs_ha g) (gs_un g + 1) (gs_topic g) (gs_stop g)
  else if str_eq cp "係:ノ格" then
    if negb (has_feature (b_f b) "体言") && negb (b_SCASE_code b (case2num "ガ格") =? 0) &&
       (gs_scase g (case2num "ガ格") =? 0)
    then gs_case (case2num "ガ格") (gs_add 10 g) else g
  else if str_eq cp "係:ガ格" then
    if negb (b_SCASE_code b (case2num "ガ格") =? 0) && (gs_scase g (case2num "ガ格") =? 0)
    then gs_case (case2num "ガ格") (gs_add 10 g)
    else if negb (b_SCASE_code b (case2num "ガ２") =? 0) && (gs_scase g (case2num "ガ２") =? 0)
    then gs_case (case2num "ガ格") (gs_add 10 g)
    else g
  else if negb (k =? -1) then
    if gs_scase g k =? 0 then gs_add 10 (gs_case k g) else g
  else g.

Definition predicate_score (df : FEATURE) (b : BNST_DATA) (g : gov_state) : res gov_state :=
  match check_feature df "係" with
  | None => Ret g
  | Some cp =>
      g <- (if has_feature df "提題" && str_eq cp "係:未格" then eval_topic df (b_f b) g else Ret g) ;;
      let g := case_score cp df b g in
      Ret (if has_feature df "用言" && has_any df ["係:未格"; "係:ガ格"]%string &&
              has_feature (b_f b) "用言:判" then gs_add 3 g else g)
  end.

(** A clause that modifies: the points of the slot that its modifiee fills. *)
Definition clause_score (df gf : FEATURE) (d : Z) (l : CKY) : Z :=
  if has_feature df "係:連格" then
    if has_any gf ["外の関係"; "ルール外の関係"]%string then 10
    else
      let b := bnst_data sp d in
      let sc := ck_scase_check (data l) in
      let un := ck_un_count (data l) in
      check_scase b sc true un - check_scase b sc false un
  else 0.

(** The modifier of one node of the spine of a phrase with head [g]. *)
Definition score_child (g : Z) (pred_p : bool) (node : CKY) (s : gov_state) : res gov_state :=
  match node with
  | Leaf _ => Ret s
  | Branch nd l r =>
      let d := b_of (if is_LtoR node then l else r) in
      let df := b_f (bnst_data sp d) in
      let gb := bnst_data sp g in
      z <- distance_score d g (ck_i nd) ;;
      s <- (if pred_p then predicate_score df gb (gs_add z s) else Ret (gs_add z s)) ;;
      Ret (gs_add (clause_score df (b_f gb) d l) s)
  end.

Definition modifiers_score (c : CKY) : Z :=
  fold_left (fun z node => match modifier node with Some m => z + score m | None => z end) (spine c) 0.

(** [cky_ptr->score = calc_score(sp, cky_ptr)] *)
Definition calc_score (c : CKY) : res CKY :=
  let cd := data c in
  let g := ck_b cd in
  let gb := bnst_data sp g in
  let pred_p := has_any (b_f gb) ["用言"; "準用言"]%string in
  s <- fold_res (score_child g pred_p) (spine c)
         (mkGS (modifiers_score c) (fun _ => 0) false 0 (Some 0) false) ;;
  let scored z scase un :=
    set_data (mkCD (ck_i cd) (ck_j cd) z (ck_para_score cd) (ck_para_flag cd) (ck_dpnd_type cd)
                (ck_direction cd) g scase un) c in
  Ret (if pred_p
       then scored (gs_score s + check_scase gb (gs_scase s) false (gs_un s)) (gs_scase s) (gs_un s)
       else scored (gs_score s) (ck_scase_check cd) (ck_un_count cd)).

(** ** The chart *)

(** [set_cky], with the two fields that its callers set next. *)
Definition set_leaf (i : Z) : CKY :=
  Leaf (mkCD i i 0 (f64 (-1)) false 0 LtoR i (fun _ => 0) 0).

Definition set_cky (l r : CKY) (i j : Z) (dpnd_type : Z) (dir : direction)
    (para_flag : bool) (para_score : spec_float) : CKY :=
  Branch (mkCD i j 0 para_score para_flag dpnd_type dir
            (match dir with RtoL => b_of l | LtoR => b_of r end) (fun _ => 0) 0) l r.

Record chart : Type := mkChart {
  cky_table_num : Z;
  dep_check : array Z;
  cky_matrix : matrix (list CKY)
}.

(** A new node of the table, scored; [None] when the table is full. *)
Definition new_node (c : CKY) (num : Z) : res (option (CKY * Z)) :=
  if CKY_TABLE_MAX <=? num + 1 then Ret None
  else c' <- calc_score c ;; Ret (Some (c', num + 1)).

(** A wall at the left of a coordination is no wall for its right side. *)
Fixpoint relax_barrier_for_P (c : CKY) (dep : Z) (dc : array Z) : bool :=
  match c with
  | Leaf _ => false
  | Branch d l r =>
      ((ck_dpnd_type d =? chr "P") &&
       ((ck_j (data l) <=? dc dep) || (ck_para_flag d && relax_barrier_for_P l dep dc))) ||
      relax_barrier_for_P r dep dc
  end.

(** The elements up to and including the first that satisfies [p]. *)
Fixpoint take_through {A} (p : A -> bool) (l : list A) : list A :=
  match l with
  | [] => []
  | x :: l' => if p x then [x] else x :: take_through p l'
  end.

Definition best_only : bool := negb OptNbest && OptParaFix.
Definition last_left (c : CKY) : bool :=
  best_only && (negb (bnst_has sp (b_of c) "用言") || bnst_has sp (b_of c) "係:連用").
Definition last_right (c : CKY) : bool := best_only && negb (bnst_has sp (b_of c) "用言").

Definition can_join (i j m : Z) (dc : array Z) (r : CKY) (t : Z) : bool :=
  negb (t =? 0) &&
  (if t =? chr "P" then OptParaFix || negb (ck_dpnd_type (data r) =? chr "P")
   else (dc m <=? 0) || (j <=? dc m) || (negb OptParaFix && relax_barrier_for_P r m dc)).

(** The phrase [l r] over [i .. j], split after [m]. *)
Definition join_one (i j m : Z) (dc : array Z) (l r : CKY) (st : option (list CKY * Z))
  : res (option (list CKY * Z)) :=
  match st with
  | None => Ret None
  | Some (acc, num) =>
      let t := check_dpnd_possibility (b_of l) (b_of r) i ((j =? Bnst_num sp - 1) && (dc m =? -1)) in
      if can_join i j m dc r t then
        let ps := if b_para_num (bnst_data sp m) =? -1 then f64 (-1)
                  else Para_matrix (b_para_num (bnst_data sp m)) i j in
        n <- new_node (set_cky l r i j t
               (if Dpnd_matrix (b_of l) (b_of r) =? chr "L" then RtoL else LtoR) false ps) num ;;
        Ret (match n with Some (c, num) => Some (acc ++ [c], num) | None => None end)
      else Ret st
  end.

(** All the phrases for one split. *)
Definition join_split (i j m : Z) (dc : array Z) (ls rs : list CKY) (num : Z)
  : res (option (list CKY * Z)) :=
  fold_res (fun l st => fold_res (join_one i j m dc l) (take_through last_right rs) st)
    (take_through last_left ls) (Some ([], num)).

(** The new value of [dep_check[m]] once a phrase [.. m] [m+1 .. j] exists. *)
Definition new_barrier (m j : Z) (dc : array Z) : res (array Z) :=
  if j =? Bnst_num sp - 1 then Ret dc
  else
    let settable := OptParaFix || negb (Dpnd_matrix m j =? 0) in
    b <- (if settable then at_barrier rules sp m j else Ret false) ;;
    if b then Ret (aset dc m j)
    else if dc m =? -1 then
      r <- (if settable then rule_of rules sp m else Ret (mkDR [] [] [] (-1) false)) ;;
      Ret (aset dc m (if settable && negb (preference r =? -1) &&
                         match barrier r with [] => true | _ => false end then j else 0))
    else Ret dc.

(** The loop over the splits: the list of the cell, the size of the table and
    the walls; [None] when the table is full. *)
Definition cky_split (i j : Z) (M : matrix (list CKY)) (m : Z) (st : option (list CKY * Z * array Z))
  : res (option (list CKY * Z * array Z)) :=
  match st with
  | None => Ret None
  | Some (acc, num, dc) =>
      ' js <- join_split i j m dc (M i m) (M (m + 1) j) num ;;
      match js with
      | None => Ret None
      | Some ([], num) => Ret (Some (acc, num, dc))
      | Some (new, num) => dc <- new_barrier m j dc ;; Ret (Some (acc ++ new, num, dc))
      end
  end.

(** The leftmost part of a coordination: [while (left_ptr && (P || para_flag))]. *)
Fixpoint leftmost_part (c : CKY) : option CKY :=
  match c with
  | Leaf d => if (ck_dpnd_type d =? chr "P") || ck_para_flag d then None else Some c
  | Branch d l _ => if (ck_dpnd_type d =? chr "P") || ck_para_flag d then leftmost_part l else Some c
  end.

Definition is_coordination (c : CKY) : bool :=
  (ck_dpnd_type (data c) =? chr "P") || ck_para_flag (data c).

(** Coordinations of more than two phrases. *)
Definition coordination_right (i j : Z) (M : matrix (list CKY)) (r : CKY) (st : option (list CKY * Z))
  : res (option (list CKY * Z)) :=
  if negb (is_coordination r) then Ret st
  else
    match leftmost_part r with
    | None => Ret st
    | Some part =>
        fold_res (fun l st =>
          match st with
          | None => Ret None
          | Some (acc, num) =>
              if ck_dpnd_type (data l) =? chr "P" then
                n <- new_node (set_cky l r i j (chr "P") LtoR true
                       (SFadd 53 1024 (ck_para_score (data l)) (ck_para_score (data r)))) num ;;
                Ret (match n with Some (c, num) => Some (acc ++ [c], num) | None => None end)
              else Ret st
          end) (M i (ck_j (data part))) st
    end.

Definition coordinations (i j : Z) (M : matrix (list CKY)) (num : Z) : res (option (list CKY * Z)) :=
  if OptParaFix then Ret (Some ([], num))
  else fold_res (fun m st => fold_res (coordination_right i j M) (M (m + 1) j) st)
         (zrange i (j - 1)) (Some ([], num)).

(** The first node with the greatest score (above -INT_MAX), and the others. *)
Fixpoint pick_best (l : list CKY) : option (CKY * list CKY) :=
  match l with
  | [] => None
  | c :: l' =>
      match pick_best l' with
      | Some (b, rest) =>
          if (score b <=? score c) then Some (c, l') else Some (b, c :: rest)
      | None => if - INT_MAX <? score c then Some (c, l') else None
      end
  end.

(** The passes of [sort_cky_ptrs]; one that finds no score above -INT_MAX keeps the
    [best_ptr] of the pass before and changes nothing. *)
Fixpoint sort_passes (beam : nat) (l : list CKY) : list CKY :=
  match beam, l with
  | O, _ | _, [] => l
  | S beam', _ =>
      match pick_best l with
      | None => l
      | Some (b, rest) => b :: sort_passes beam' rest
      end
  end.

(** [sort_cky_ptrs]: the [beam] best nodes first, in order; when the first pass finds
    no score above -INT_MAX, [best_ptr] is uninitialised. *)
Definition sort_cky_ptrs (beam : nat) (l : list CKY) : res (list CKY) :=
  match beam, l with
  | O, _ | _, [] => Ret l
  | _, _ => match pick_best l with None => Err BadPointer | Some _ => Ret (sort_passes beam l) end
  end.

Definition prune (i j : Z) (l : list CKY) : res (list CKY) :=
  match l with
  | [] => Ret []
  | _ =>
      if negb (OptBeam =? 0) && negb ((i =? 0) && (j =? Bnst_num sp - 1)) then
        l' <- sort_cky_ptrs (Z.to_nat OptBeam) l ;; Ret (firstn (Z.to_nat OptBeam) l')
      else sort_cky_ptrs 1 l
  end.

(** The cell of [i .. j]; [None] when the table is full. *)
Definition fill_cell (j i : Z) (st : option chart) : res (option chart) :=
  match st with
  | None => Ret None
  | Some (mkChart num dc M) =>
      if i =? j then
        n <- new_node (set_leaf i) num ;;
        Ret (match n with Some (c, num) => Some (mkChart num dc (mset M i j [c])) | None => None end)
      else
        ' ss <- for_res i j (cky_split i j M) (Some ([], num, dc)) ;;
        match ss with
        | None => Ret None
        | Some (acc, num, dc) =>
            ' cs <- coordinations i j M num ;;
            match cs with
            | None => Ret None
            | Some (new, num) =>
                l <- prune i j (acc ++ new) ;;
                Ret (Some (mkChart num dc (mset M i j l)))
            end
        end
  end.

Definition fill_column (j : Z) (st : option chart) : res (option chart) :=
  fold_res (fill_cell j) (rev (zrange 0 (j + 1))) st.

Definition fill_chart (M : matrix (list CKY)) : res (option chart) :=
  for_res 0 (Bnst_num sp) fill_column (Some (mkChart 0 (fun _ => -1) M)).

(** The phrases over the sentence that [after_cky] goes through: the best one, which is
    moved to the end of the list, after the others if OptNbest is set. *)
Definition choose_best (l : list CKY) : res (list CKY) :=
  match l with
  | [] | [_] => Ret l
  | _ =>
      match pick_best l with
      | Some (b, rest) => Ret (if OptNbest then rest ++ [b] else [b])
      | None => Err BadPointer
      end
  end.

(** ** From the best phrase to the dependencies *)

(** [convert_to_dpnd]; every call ends with [call_count_dpnd_candidates]. *)
Definition arc_of (cd : cky_data) (l r : CKY) (d : DPND) : DPND :=
  if ck_para_flag cd then d
  else
    match (if ck_dpnd_type cd =? chr "P" then None
           else check_feature (b_f (bnst_data sp (b_of l))) "係:無格従属") with
    | Some cp => set_arc (b_of l) (follow_offset cp (head d (b_of l))) (chr "D") d
    | None =>
        match ck_direction cd with
        | RtoL => set_arc (b_of r) (b_of l) (ck_dpnd_type cd) d
        | LtoR => set_arc (b_of l) (b_of r) (ck_dpnd_type cd) d
        end
    end.

Definition count_candidates (d : DPND) : res DPND :=
  call_count_dpnd_candidates rules sp Mask_matrix Quote_matrix Dpnd_matrix true d.

Fixpoint convert_to_dpnd (c : CKY) (d : DPND) : res DPND :=
  match c with
  | Leaf _ => count_candidates d
  | Branch cd l r =>
      d <- convert_to_dpnd l (arc_of cd l r d) ;;
      d <- convert_to_dpnd r d ;;
      count_candidates d
  end.

(** Bunsetsus that follow another one; an impossible one goes to the end. *)
Definition follow_heads (d : DPND) : res DPND :=
  for_res 0 (Bnst_num sp - 1) (fun i d =>
    if head d i <? 0 then
      if i + head d i <? 0 then Err OutOfBounds
      else
        let h := head d (i + head d i) in
        Ret (set_head (aset (head d) i (if h <=? i then Bnst_num sp - 1 else h)) d)
    else Ret d) d.

(** The dependencies of one structure. *)
Definition structure_dpnd (c : CKY) (d : DPND) : res DPND :=
  d <- convert_to_dpnd c (set_head (aset (head d) (b_of c) (-1)) d) ;;
  follow_heads d.

(** [after_cky], the loop over the structures: the dependencies and the score of each;
    those of the last one remain in Best_mgr. *)
Fixpoint after_cky (l : list CKY) (d : DPND) : res (list (DPND * Z)) :=
  match l with
  | [] => Ret []
  | c :: l' =>
      d <- structure_dpnd c d ;;
      rs <- after_cky l' d ;;
      Ret ((d, score c) :: rs)
  end.

(** The initial heads and types of [cky]. *)
Definition cky_init (d : DPND) : DPND :=
  for_up 0 (Bnst_num sp) (fun i d => set_arc i (-1) (chr "D") d) d.

(** [cky] after the restrictions: the structures it finds, [None] when there is no parse
    or the table is full. *)
Definition cky_parse (M : matrix (list CKY)) (d : DPND) : res (option (list (DPND * Z))) :=
  let d := cky_init d in
  ' ch <- fill_chart M ;;
  match ch with
  | None => Ret None
  | Some ch =>
      match cky_matrix ch 0 (Bnst_num sp - 1) with
      | [] => Ret None
      | l => ' best <- choose_best l ;; rs <- after_cky best d ;; Ret (Some rs)
      end
  end.
End Cky.

(** [cky], with the matrices it leaves behind. *)
Definition cky `{FM : FeatureMatch} (rules : list DpndRule) (sp : SENTENCE_DATA)
    (Mask_matrix Quote_matrix Dpnd_matrix : matrix Z) (Para_matrix : Z -> matrix spec_float)
    (OptParaFix OptNbest : bool) (OptBeam : Z) (M : matrix (list CKY)) (d : DPND)
  : res (option (list (DPND * Z))) :=
  Dm <- restrict_end_prefer_dependency rules sp (restrict_parenthetic_coordination sp Dpnd_matrix) ;;
  let Pm := if OptParaFix then Para_matrix else discard_bad_coordination sp Para_matrix in
  let Dm := if OptParaFix then Dm else handle_incomplete_coordination sp Mask_matrix Dm in
  cky_parse rules sp Mask_matrix Quote_matrix Dm Pm OptParaFix OptNbest OptBeam M d.

(** * Properties *)

(** ** Sorting *)

Lemma pick_best_spec : forall l b rest, pick_best l = Some (b, rest) ->
  Permutation l (b :: rest) /\ Forall (fun c => score c <= score b) rest /\ - INT_MAX < score b.
Proof.
  induction l as [|c l IH]; intros b rest E; cbn [pick_best] in E; [discriminate|].
  destruct (pick_best l) as [[b' rest']|] eqn:EP.
  - destruct (IH b' rest' eq_refl) as [P [F G]]. destruct (Z.leb_spec (score b') (score c)) as [Hle|Hgt]; inv E.
    + split; [reflexivity|]. split; [|lia]. apply (Permutation_Forall (Permutation_sym P)).
      constructor; [lia|]. eapply Forall_impl; [|exact F]. intros a Ha. cbv beta in Ha. lia.
    + split; [rewrite P; apply perm_swap|]. split; [|lia]. constructor; [lia | auto].
  - destruct (Z.ltb_spec (- INT_MAX) (score c)) as [Hlt|]; [|discriminate]. inv E.
    split; [reflexivity|]. split; [|lia].
    assert (N : forall l0, pick_best l0 = None -> Forall (fun c => score c <= - INT_MAX) l0).
    { clear. induction l0 as [|c l0 IH]; intros E; cbn [pick_best] in E; [constructor|].
      destruct (pick_best l0) as [[x y]|]; [destruct (_ <=? _); discriminate|].
      destruct (Z.ltb_spec (- INT_MAX) (score c)); [discriminate|]. constructor; auto. }
    eapply Forall_impl; [|apply N, EP]. intros a Ha. cbv beta in Ha. lia.
Qed.

Lemma sort_passes_perm : forall beam l, Permutation l (sort_passes beam l).
Proof.
  induction beam as [|beam IH]; intros l; cbn [sort_passes]; [reflexivity|].
  destruct l as [|c l]; [reflexivity|].
  destruct (pick_best (c :: l)) as [[b rest]|] eqn:EP; [|reflexivity].
  destruct (pick_best_spec _ _ _ EP) as [P _]. rewrite P. now constructor.
Qed.

Lemma sort_cky_perm : forall beam l l', sort_cky_ptrs beam l = Ret l' -> Permutation l l'.
Proof.
  intros beam l l' E. unfold sort_cky_ptrs in E. destruct beam as [|beam]; [inv E; reflexivity|].
  destruct l as [|c l]; [inv E; reflexivity|].
  destruct (pick_best (c :: l)); [|discriminate].
  replace l' with (sort_passes (S beam) (c :: l)) by congruence. apply sort_passes_perm.
Qed.

Lemma pick_best_some : forall l, l <> [] -> Forall (fun c => - INT_MAX < score c) l ->
  exists b rest, pick_best l = Some (b, rest).
Proof.
  intros [|c l] Hl HF; [easy|]. inv HF. cbn [pick_best].
  destruct (pick_best l) as [[b rest]|]; [destruct (_ <=? _); eauto|].
  destruct (Z.ltb_spec (- INT_MAX) (score c)); [eauto | lia].
Qed.

Lemma sort_passes_sorted : forall beam l, Forall (fun c => - INT_MAX < score c) l ->
  StronglySorted (fun a b => score b <= score a) (firstn beam (sort_passes beam l)) /\
  (forall a b, In a (firstn beam (sort_passes beam l)) -> In b (skipn beam (sort_passes beam l)) ->
     score b <= score a).
Proof.
  induction beam as [|beam IH]; intros l HF; cbn [sort_passes]; [split; [constructor | easy]|].
  destruct l as [|c l]; [split; [constructor | easy]|].
  destruct (pick_best_some (c :: l)) as [b [rest EP]]; [easy | exact HF|]. rewrite EP.
  destruct (pick_best_spec _ _ _ EP) as [P [F _]].
  apply (Permutation_Forall P) in HF. inv HF. destruct (IH rest) as [I1 I2]; auto.
  assert (F' : Forall (fun c => score c <= score b) (sort_passes beam rest))
    by apply (Permutation_Forall (sort_passes_perm _ _)), F.
  rewrite <- (firstn_skipn beam (sort_passes beam rest)) in F'. apply Forall_app in F'. destruct F' as [F1 F2].
  cbn [firstn skipn]. split; [constructor; auto|].
  intros x y [<-|Hx] Hy; [|now apply I2]. rewrite Forall_forall in F2. auto.
Qed.

(** sort_cky_ptrs succeeds on a list of nodes with scores above -INT_MAX and permutes it
    so that its first [beam] nodes are in descending order of score and none of the others
    has a higher score than they. *)
Theorem sort_cky_ptrs_spec : forall beam l, Forall (fun c => - INT_MAX < score c) l ->
  exists l', sort_cky_ptrs beam l = Ret l' /\ Permutation l l' /\
  StronglySorted (fun a b => score b <= score a) (firstn beam l') /\
  (forall a b, In a (firstn beam l') -> In b (skipn beam l') -> score b <= score a).
Proof.
  intros beam l HF. exists (sort_passes beam l).
  split; [|split; [apply sort_passes_perm | now apply sort_passes_sorted]].
  unfold sort_cky_ptrs. destruct beam as [|beam]; [reflexivity|]. destruct l as [|c l]; [reflexivity|].
  destruct (pick_best_some (c :: l)) as [b [rest ->]]; [easy | exact HF | reflexivity].
Qed.

(** ** The phrases of the chart *)
Section Sound.
Context `{FM : FeatureMatch} (rules : list DpndRule) (sp : SENTENCE_DATA).
Context (Mask_matrix Quote_matrix Dpnd_matrix : matrix Z) (Para_matrix : Z -> matrix spec_float).
Context (OptParaFix OptNbest : bool) (OptBeam : Z).
Local Abbreviation n := (Bnst_num sp).
Local Abbreviation possible :=
  (check_dpnd_possibility sp Mask_matrix Quote_matrix Dpnd_matrix Para_matrix OptParaFix).

(** Japanese rules have no dependency to the left. *)
Hypothesis no_L : forall d g, Dpnd_matrix d g <> chr "L".

(** The dependency of [d] on [g] with type [t] is possible, by relaxation only
    on the last bunsetsu. *)
Definition arc_possible (d g t : Z) : Prop :=
  t <> 0 /\ exists begin relax, t = possible d g begin relax /\ (relax = true -> g = n - 1).

(** A phrase over [i .. j]: a leaf, two adjacent phrases, or a coordination
    whose parts overlap. *)
Inductive phrase : Z -> Z -> CKY -> Prop :=
| phrase_leaf i cd : ck_b cd = i -> ck_j cd = i -> ck_dpnd_type cd = 0 -> ck_para_flag cd = false ->
    phrase i i (Leaf cd)
| phrase_join i m j cd l r : phrase i m l -> phrase (m + 1) j r ->
    ck_b cd = j -> ck_j cd = j -> ck_direction cd = LtoR -> ck_para_flag cd = false ->
    arc_possible m j (ck_dpnd_type cd) -> phrase i j (Branch cd l r)
| phrase_coord i k m j cd l r : OptParaFix = false -> phrase i m l -> phrase k j r -> i < k <= m -> m < j ->
    ck_b cd = j -> ck_j cd = j -> ck_direction cd = LtoR -> ck_para_flag cd = true ->
    ck_dpnd_type cd = chr "P" -> phrase i j (Branch cd l r).

Lemma phrase_bounds : forall i j c, phrase i j c -> i <= j /\ b_of c = j /\ ck_j (data c) = j.
Proof.
  intros i j c H. induction H; cbn [b_of data] in *; unfold b_of; cbn [data]; repeat split; auto; lia.
Qed.

(** Scoring keeps the phrase. *)
Lemma calc_score_shape : forall c c',
  calc_score rules sp Mask_matrix Quote_matrix Dpnd_matrix Para_matrix OptParaFix c = Ret c' ->
  exists z scase un, c' = set_data (mkCD (ck_i (data c)) (ck_j (data c)) z (ck_para_score (data c))
    (ck_para_flag (data c)) (ck_dpnd_type (data c)) (ck_direction (data c)) (ck_b (data c)) scase un) c.
Proof.
  intros c c' E. unfold calc_score in E. destruct (fold_res _ (spine c) _) as [s|]; [|discriminate].
  destruct (has_any _ _); inv E; eauto.
Qed.

Lemma phrase_scored : forall i j c c',
  calc_score rules sp Mask_matrix Quote_matrix Dpnd_matrix Para_matrix OptParaFix c = Ret c' ->
  phrase i j c -> phrase i j c'.
Proof.
  intros i j c c' E H. destruct (calc_score_shape c c' E) as [z [scase [un ->]]].
  inv H; cbn [set_data data].
  - now constructor.
  - now apply phrase_join with m.
  - now apply phrase_coord with k m.
Qed.

Lemma new_node_some : forall c num c' num',
  new_node rules sp Mask_matrix Quote_matrix Dpnd_matrix Para_matrix OptParaFix c num = Ret (Some (c', num')) ->
  calc_score rules sp Mask_matrix Quote_matrix Dpnd_matrix Para_matrix OptParaFix c = Ret c'.
Proof.
  intros c num c' num' E. unfold new_node in E. destruct (CKY_TABLE_MAX <=? num + 1); [discriminate|].
  destruct (calc_score _ _ _ _ _ _ _ c) as [x|]; [|discriminate]. now inv E.
Qed.

Lemma take_through_in : forall {A} (p : A -> bool) l x, In x (take_through p l) -> In x l.
Proof.
  intros A p. induction l as [|y l IH]; intros x H; cbn [take_through] in H; auto.
  destruct (p y); [destruct H as [<-|[]]; now left|]. destruct H as [<-|H]; [now left | right; auto].
Qed.

(** What a loop that may run out of table entries collects. *)
Definition all_phrases (i j : Z) (l : list CKY) : Prop := forall c, In c l -> phrase i j c.

Lemma all_phrases_app : forall i j l1 l2, all_phrases i j l1 -> all_phrases i j l2 -> all_phrases i j (l1 ++ l2).
Proof. intros i j l1 l2 H1 H2 c Hc. apply in_app_iff in Hc. destruct Hc; auto. Qed.

Lemma all_phrases_one : forall i j c, phrase i j c -> all_phrases i j [c].
Proof. intros i j c H x [<-|[]]. exact H. Qed.

Definition ok_acc (i j : Z) (st : option (list CKY * Z)) : Prop :=
  match st with Some (acc, _) => all_phrases i j acc | None => True end.

Local Abbreviation joins := (join_one rules sp Mask_matrix Quote_matrix Dpnd_matrix Para_matrix OptParaFix).

Lemma join_one_ok : forall i j m dc l r st st', phrase i m l -> phrase (m + 1) j r -> ok_acc i j st ->
  joins i j m dc l r st = Ret st' -> ok_acc i j st'.
Proof.
  intros i j m dc l r st st' Hl Hr Ha E. unfold join_one in E. destruct st as [[acc num]|]; [|now inv E].
  destruct (phrase_bounds _ _ _ Hl) as [_ [Bl _]]. destruct (phrase_bounds _ _ _ Hr) as [_ [Br _]].
  rewrite Bl, Br in E. set (t := possible m j i _) in E.
  destruct (can_join _ _ _ _ _ _ _) eqn:EJ; [|inv E; exact Ha].
  destruct (Z.eqb_spec (Dpnd_matrix m j) (chr "L")) as [C|_]; [now apply no_L in C|].
  destruct (new_node _ _ _ _ _ _ _ _ num) as [[[c num']|]|] eqn:EN; [| |discriminate];
    injection E as <-; [|exact I].
  cbn [ok_acc] in *. apply all_phrases_app; auto. apply all_phrases_one.
  apply new_node_some in EN. eapply phrase_scored; [exact EN|].
  apply phrase_join with m; auto; cbn [ck_b ck_j ck_dpnd_type ck_direction ck_para_flag].
  split.
  - unfold can_join in EJ. apply andb_true_iff in EJ. destruct EJ as [EJ _].
    destruct (Z.eqb_spec t 0); [discriminate | auto].
  - exists i, ((j =? n - 1) && (dc m =? -1)). split; [reflexivity|]. intros H. blia.
Qed.

Lemma join_split_ok : forall i j m dc ls rs num st',
  all_phrases i m ls -> all_phrases (m + 1) j rs ->
  join_split rules sp Mask_matrix Quote_matrix Dpnd_matrix Para_matrix OptParaFix OptNbest i j m dc ls rs num
    = Ret st' -> ok_acc i j st'.
Proof.
  intros i j m dc ls rs num st' Hl Hr E. unfold join_split in E.
  refine (fold_res_inv (ok_acc i j) _ _ _ _ _ _ E); [|easy].
  intros l st st1 Hin Hst E1. apply take_through_in in Hin.
  refine (fold_res_inv (ok_acc i j) _ _ _ _ _ Hst E1).
  intros r s s1 Hin' Hs E2. apply take_through_in in Hin'. eapply join_one_ok; eauto.
Qed.

(** The cells that a cell can use. *)
Definition processed (j i a b : Z) : Prop := 0 <= a <= b /\ (b < j \/ (b = j /\ i < a)).
Definition chart_ok (j i : Z) (M : matrix (list CKY)) : Prop :=
  forall a b, processed j i a b -> all_phrases a b (M a b).

Lemma leftmost_part_ok : forall a b c part, phrase a b c -> leftmost_part c = Some part ->
  exists b', phrase a b' part /\ b' <= b /\ (is_coordination c = true -> b' < b).
Proof.
  intros a b c part H. revert part. induction H as [i cd H1 H2 H3 H4|i m j cd l r Hl IHl Hr IHr H1 H2 H3 H4 H5
    |i k m j cd l r H0 Hl IHl Hr IHr H1 H2 H3 H4 H5 H6 H7]; intros part E; cbn [leftmost_part] in E;
    unfold is_coordination; cbn [data].
  - destruct (_ || _) eqn:E1; [discriminate|]. inv E. exists (ck_b cd). split; [now constructor|].
    split; [lia|]. discriminate.
  - destruct (phrase_bounds _ _ _ Hr) as [Hb _].
    destruct (_ || _) eqn:E1.
    + destruct (IHl part E) as [b' [P [Hle _]]]. exists b'. split; auto. split; [lia | intros; lia].
    + inv E. exists (ck_b cd). split; [now apply phrase_join with m|]. split; [lia|]. discriminate.
  - rewrite H6, orb_true_r in *. destruct (IHl part E) as [b' [P [Hle _]]]. exists b'. split; auto. split; lia.
Qed.

Lemma coordinations_ok : forall i j M num st', 0 <= i -> chart_ok j i M ->
  coordinations rules sp Mask_matrix Quote_matrix Dpnd_matrix Para_matrix OptParaFix i j M num = Ret st' ->
  ok_acc i j st'.
Proof.
  intros i j M num st' Hi HM E. unfold coordinations in E.
  destruct (Bool.bool_dec OptParaFix true) as [EO|EO]; [rewrite EO in E; inv E; easy|].
  apply not_true_is_false in EO.
  match type of E with (if OptParaFix then _ else ?B) = _ =>
    assert (E' : B = Ret st') by (rewrite <- E; now rewrite EO)
  end. clear E. rename E' into E.
  refine (fold_res_inv (ok_acc i j) _ _ _ _ _ _ E); [|easy]. clear E st'.
  intros m st st1 Hm Hst E1. apply in_zrange in Hm.
  refine (fold_res_inv (ok_acc i j) _ _ _ _ _ Hst E1). clear Hst E1 st st1.
  intros r st st1 Hr Hst E. assert (Pr : phrase (m + 1) j r) by (apply (HM (m + 1) j); [split; lia | exact Hr]).
  unfold coordination_right in E. destruct (is_coordination r) eqn:EC; [|inv E; exact Hst]. cbn [negb] in E.
  destruct (leftmost_part r) as [part|] eqn:EP; [|inv E; exact Hst].
  destruct (leftmost_part_ok _ _ _ _ Pr EP) as [b' [Pp [_ Hb]]]. specialize (Hb EC).
  destruct (phrase_bounds _ _ _ Pp) as [Hb1 [_ Hb2]]. rewrite Hb2 in E.
  refine (fold_res_inv (ok_acc i j) _ _ _ _ _ Hst E). clear Hst E st st1.
  intros l st st1 Hl Hst E. assert (Pl : phrase i b' l) by (apply (HM i b'); [split; lia | exact Hl]).
  destruct st as [[acc nm]|]; [|inv E; easy].
  destruct (Z.eqb_spec (ck_dpnd_type (data l)) (chr "P")); [|inv E; exact Hst].
  destruct (new_node _ _ _ _ _ _ _ _ nm) as [[[c num']|]|] eqn:EN; [| |discriminate];
    injection E as <-; [|exact I].
  cbn [ok_acc] in *. apply all_phrases_app; auto. apply all_phrases_one.
  apply new_node_some in EN. eapply phrase_scored; [exact EN|].
  destruct (phrase_bounds _ _ _ Pr) as [_ [Br _]].
  now apply phrase_coord with (m + 1) b'; auto; try lia.
Qed.
Lemma prune_in : forall i j l l', prune sp OptBeam i j l = Ret l' -> forall c, In c l' -> In c l.
Proof.
  intros i j l l' E c Hc. unfold prune in E. destruct l as [|x l]; [inv E; auto|].
  destruct (_ && _).
  - destruct (sort_cky_ptrs _ (x :: l)) as [s|] eqn:ES; [|discriminate]. inv E.
    apply (Permutation_in _ (Permutation_sym (sort_cky_perm _ _ _ ES))).
    rewrite <- (firstn_skipn (Z.to_nat OptBeam) s). apply in_app_iff. now left.
  - apply (Permutation_in _ (Permutation_sym (sort_cky_perm _ _ _ E))), Hc.
Qed.

Definition ok_splits (i j : Z) (st : option (list CKY * Z * array Z)) : Prop :=
  match st with Some (acc, _, _) => all_phrases i j acc | None => True end.

Lemma split_step_ok : forall i j M m st st', chart_ok j i M -> 0 <= i <= m -> m < j -> ok_splits i j st ->
  cky_split rules sp Mask_matrix Quote_matrix Dpnd_matrix Para_matrix OptParaFix OptNbest i j M m st = Ret st' ->
  ok_splits i j st'.
Proof.
  intros i j M m st st' HM Hm Hj Ha E. unfold cky_split in E.
  destruct st as [[[acc num] dc]|]; [|now inv E].
  destruct (join_split _ _ _ _ _ _ _ _ i j m dc _ _ num) as [[[new num']|]|] eqn:EJ; [| |discriminate];
    [|now inv E].
  assert (HN : all_phrases i j new).
  { apply (join_split_ok i j m dc (M i m) (M (m + 1) j) num (Some (new, num'))); [| |exact EJ];
      apply HM; split; lia. }
  destruct new as [|c new]; [now inv E|].
  destruct (new_barrier _ _ _ _ m j dc) as [dc'|]; [|discriminate]. inv E.
  now apply all_phrases_app.
Qed.

Definition cell_ok (j i : Z) (st : option chart) : Prop :=
  match st with Some ch => chart_ok j i (cky_matrix ch) | None => True end.

Lemma fill_cell_ok : forall j i st st', 0 <= i <= j -> cell_ok j i st ->
  fill_cell rules sp Mask_matrix Quote_matrix Dpnd_matrix Para_matrix OptParaFix OptNbest OptBeam j i st = Ret st' ->
  cell_ok j (i - 1) st'.
Proof.
  intros j i st st' Hi HC E. unfold fill_cell in E. destruct st as [[num dc M]|]; [|now inv E].
  cbn [cell_ok cky_matrix] in HC.
  assert (K : forall num dc l, all_phrases i j l -> cell_ok j (i - 1) (Some (mkChart num dc (mset M i j l)))).
  { intros nm d l Hl a b [H1 H2]. cbn [cky_matrix]. destruct (Z.eq_dec a i) as [->|Ha].
    - destruct (Z.eq_dec b j) as [->|Hb]; [now rewrite mset_eq|].
      rewrite mset_ne by auto. apply HC. split; lia.
    - rewrite mset_ne by auto. apply HC. split; lia. }
  destruct (Z.eqb_spec i j) as [->|Hij].
  - destruct (new_node _ _ _ _ _ _ _ _ num) as [[[c num']|]|] eqn:EN; [| |discriminate]; inv E; [|exact I].
    apply K. apply all_phrases_one. apply new_node_some in EN. eapply phrase_scored; [exact EN|].
    now constructor.
  - destruct (for_res i j _ _) as [[[[acc num1] dc1]|]|] eqn:ES; [| |discriminate]; [|now inv E].
    assert (H1 : all_phrases i j acc).
    { refine (fold_res_inv (ok_splits i j) _ _ _ _ _ _ ES); [|easy].
      intros m s s1 Hm Hs E1. apply in_zrange in Hm. apply (split_step_ok i j M m s s1 HC); auto; lia. }
    destruct (coordinations _ _ _ _ _ _ _ i j M num1) as [[[new num2]|]|] eqn:EC; [| |discriminate]; [|now inv E].
    pose proof (coordinations_ok i j M num1 _ ltac:(lia) HC EC) as H2. cbn [ok_acc] in H2.
    destruct (prune sp OptBeam i j (acc ++ new)) as [l|] eqn:EP; [|discriminate]. inv E.
    apply K. intros c Hc. apply (all_phrases_app i j acc new H1 H2). eapply prune_in; eauto.
Qed.

Lemma fill_column_ok : forall j st st', 0 <= j -> cell_ok j j st ->
  fill_column rules sp Mask_matrix Quote_matrix Dpnd_matrix Para_matrix OptParaFix OptNbest OptBeam j st = Ret st' ->
  cell_ok (j + 1) (j + 1) st'.
Proof.
  intros j st st' Hj HC E. unfold fill_column in E.
  assert (H : cell_ok j (-1) st').
  { refine (down_res_inv (cell_ok j) _ j st st' ltac:(lia) _ HC E).
    intros i s s' Hi Hs E1. now apply fill_cell_ok with s. }
  destruct st' as [ch|]; [|exact I]. intros a b [H1 H2]. apply H. split; lia.
Qed.

(** Every cell of the chart holds phrases over its span. *)
Lemma fill_chart_ok : forall M ch,
  fill_chart rules sp Mask_matrix Quote_matrix Dpnd_matrix Para_matrix OptParaFix OptNbest OptBeam M = Ret (Some ch) ->
  forall a b, 0 <= a <= b -> b < n -> all_phrases a b (cky_matrix ch a b).
Proof.
  intros M ch E a b Ha Hb. unfold fill_chart in E.
  assert (G : cell_ok n n (Some ch)); [|apply G; split; lia].
  refine (for_res_inv (fun j => cell_ok j j) _ 0 n _ _ ltac:(lia) _ _ E).
  - intros j s s' Hj Hs E1. apply fill_column_ok with s; auto. lia.
  - intros x y [H1 H2]. lia.
Qed.

(** ** From phrases to dependencies *)
Lemma count_dpnd_same : forall k d d',
  count_dpnd_candidates rules sp Mask_matrix Quote_matrix Dpnd_matrix true k d = Ret d' ->
  head d' = head d /\ type d' = type d.
Proof.
  induction k as [|k IH]; intros d d' E; cbn [count_dpnd_candidates] in E; [now inv E|].
  destruct (candidates _ _ _ _ _ _ _ _ _ _ _ _) as [ps|]; [|discriminate].
  assert (HM : forall p d, head (mask_crossing sp p d) = head d /\ type (mask_crossing sp p d) = type d).
  { intros p x. unfold mask_crossing. now destruct (_ <? _). }
  destruct ps as [|x ps].
  - destruct (IH _ _ E) as [-> ->]. cbn. apply HM.
  - destruct (rule_of rules sp (Z.of_nat k)) as [r|]; [|discriminate].
    destruct (IH _ _ E) as [-> ->]. cbn. apply HM.
Qed.

Lemma count_candidates_same : forall d d',
  count_candidates rules sp Mask_matrix Quote_matrix Dpnd_matrix d = Ret d' ->
  head d' = head d /\ type d' = type d.
Proof.
  intros d d' E. unfold count_candidates, call_count_dpnd_candidates in E.
  destruct (count_dpnd_same _ _ _ E) as [-> ->].
  unfold for_up. apply (fold_left_inv _ (fun s => head s = head d /\ type s = type d)); auto.
Qed.

Hypothesis no_follow : forall p, 0 <= p < n - 1 -> check_feature (b_f (bnst_data sp p)) "係:無格従属" = None.

(** The dependencies of a phrase over [i .. j]. *)
Record spans (i j : Z) (d d' : DPND) : Prop := {
  sn_arc : forall p, i <= p < j -> p < head d' p <= j /\ arc_possible p (head d' p) (type d' p);
  sn_out : forall p, ~ i <= p < j -> head d' p = head d p;
  sn_cross : OptParaFix = true -> forall p q, i <= p < q -> q < j -> q < head d' p -> head d' q <= head d' p
}.

Lemma arc_of_LtoR : forall cd l r d, 0 <= b_of l < n - 1 -> ck_direction cd = LtoR -> ck_para_flag cd = false ->
  arc_of sp cd l r d = set_arc (b_of l) (b_of r) (ck_dpnd_type cd) d.
Proof.
  intros cd l r d Hl HD HF. unfold arc_of. rewrite HF, HD, no_follow by auto.
  now destruct (ck_dpnd_type cd =? chr "P").
Qed.

Lemma convert_spans : forall i j c, phrase i j c -> 0 <= i -> j < n -> forall d d',
  convert_to_dpnd rules sp Mask_matrix Quote_matrix Dpnd_matrix c d = Ret d' ->
  (forall p, ~ i <= p < j -> type d' p = type d p) /\ spans i j d d'.
Proof.
  intros i j c H. induction H as [i cd H1 H2 H3 H4|i m j cd l r Hl IHl Hr IHr H1 H2 H3 H4 H5
    |i k m j cd l r H0 Hl IHl Hr IHr Hk Hm H1 H2 H3 H4 H5]; intros Hi Hj d d' E; cbn [convert_to_dpnd] in E.
  - destruct (count_candidates_same _ _ E) as [E1 E2]. rewrite E2. split; auto.
    split; try (intros; lia). intros. now rewrite E1.
  - destruct (phrase_bounds _ _ _ Hl) as [B1 [B2 _]]. destruct (phrase_bounds _ _ _ Hr) as [B3 [B4 _]].
    rewrite arc_of_LtoR in E by (auto; lia). rewrite B2, B4 in E.
    destruct (convert_to_dpnd _ _ _ _ _ l _) as [d1|] eqn:E1; [|discriminate].
    destruct (convert_to_dpnd _ _ _ _ _ r _) as [d2|] eqn:E2; [|discriminate].
    destruct (count_candidates_same _ _ E) as [E3 E4].
    destruct (IHl Hi ltac:(lia) _ _ E1) as [T1 [A1 O1 C1]].
    destruct (IHr ltac:(lia) Hj _ _ E2) as [T2 [A2 O2 C2]].
    cbn [head type set_arc set_type set_head] in T1, O1.
    assert (HL : forall p, i <= p < m -> head d2 p = head d1 p /\ type d2 p = type d1 p).
    { intros p Hp. split; [apply O2 | apply T2]; lia. }
    assert (HM : head d2 m = j /\ type d2 m = ck_dpnd_type cd).
    { rewrite O2, T2, O1, T1, !aset_eq by lia. auto. }
    split.
    { intros p Hp. rewrite E4, T2, T1 by lia. apply aset_ne. lia. }
    split; rewrite ?E3, ?E4.
    + intros p Hp. destruct (Z.lt_trichotomy p m) as [Hlt|[->|Hgt]].
      * destruct (HL p ltac:(lia)) as [-> ->]. destruct (A1 p ltac:(lia)). split; [lia | auto].
      * destruct HM as [-> ->]. split; [lia | auto].
      * apply A2. lia.
    + intros p Hp. rewrite O2, O1 by lia. apply aset_ne. lia.
    + intros HO p q Hp Hq. destruct (Z.lt_trichotomy p m) as [Hlt|[->|Hgt]].
      * destruct (HL p ltac:(lia)) as [-> _]. destruct (A1 p ltac:(lia)) as [A3 _]. intros Hc.
        destruct (HL q ltac:(lia)) as [-> _]. apply C1; auto; lia.
      * destruct HM as [-> _]. intros _. apply A2. lia.
      * apply C2; auto; lia.
  - destruct (phrase_bounds _ _ _ Hl) as [B1 _]. destruct (phrase_bounds _ _ _ Hr) as [B3 _].
    unfold arc_of in E. rewrite H4 in E.
    destruct (convert_to_dpnd _ _ _ _ _ l _) as [d1|] eqn:E1; [|discriminate].
    destruct (convert_to_dpnd _ _ _ _ _ r _) as [d2|] eqn:E2; [|discriminate].
    destruct (count_candidates_same _ _ E) as [E3 E4].
    destruct (IHl Hi ltac:(lia) _ _ E1) as [T1 [A1 O1 C1]].
    destruct (IHr ltac:(lia) Hj _ _ E2) as [T2 [A2 O2 C2]].
    split; [intros p Hp; now rewrite E4, T2, T1 by lia|]. split; rewrite ?E3, ?E4; [| |congruence].
    + intros p Hp. destruct (Z.lt_ge_cases p k) as [Hlt|Hge]; [|apply A2; lia].
      rewrite O2, T2 by lia. destruct (A1 p ltac:(lia)). split; [lia | auto].
    + intros p Hp. now rewrite O2, O1 by lia.
Qed.

Lemma follow_heads_same : forall d, (forall p, 0 <= p < n - 1 -> 0 <= head d p) ->
  follow_heads sp d = Ret d.
Proof.
  intros d H. unfold follow_heads, for_res.
  assert (G : forall l, (forall p, In p l -> 0 <= p < n - 1) ->
    fold_res (fun i d0 => if head d0 i <? 0 then
        if i + head d0 i <? 0 then Err OutOfBounds
        else let h := head d0 (i + head d0 i) in
             Ret (set_head (aset (head d0) i (if h <=? i then n - 1 else h)) d0) else Ret d0) l d = Ret d).
  { induction l as [|p l IH]; intros Hl; cbn [fold_res]; auto.
    destruct (Z.ltb_spec (head d p) 0) as [Hn|_]; [specialize (H p (Hl p (in_eq _ _))); lia|].
    apply IH. auto using in_cons. }
  apply G. intros p Hp. now apply in_zrange in Hp.
Qed.

Lemma structure_sound : forall c d d', 0 < n -> phrase 0 (n - 1) c ->
  structure_dpnd rules sp Mask_matrix Quote_matrix Dpnd_matrix c d = Ret d' ->
  head d' (n - 1) = -1 /\
  (forall p, 0 <= p < n - 1 -> p < head d' p < n /\ arc_possible p (head d' p) (type d' p)) /\
  (OptParaFix = true -> forall p q, 0 <= p < q -> q < n - 1 -> q < head d' p -> head d' q <= head d' p).
Proof.
  intros c d d' Hn Hp E. destruct (phrase_bounds _ _ _ Hp) as [_ [Hb _]].
  unfold structure_dpnd in E. rewrite Hb in E.
  destruct (convert_to_dpnd _ _ _ _ _ c _) as [d2|] eqn:EC; [|discriminate].
  destruct (convert_spans _ _ _ Hp ltac:(lia) ltac:(lia) _ _ EC) as [_ [A O C]].
  rewrite follow_heads_same in E by (intros p Hp'; destruct (A p Hp'); lia). inv E.
  split; [rewrite O by lia; apply aset_eq|]. split.
  - intros p Hp'. destruct (A p Hp') as [A1 A2]. split; [lia | exact A2].
  - intros HO p q Hp' Hq. now apply C.
Qed.

Lemma choose_best_in : forall l bs, choose_best OptNbest l = Ret bs -> l <> [] ->
  incl bs l /\ exists r c, bs = r ++ [c] /\ forall x, In x l -> score x <= score c.
Proof.
  intros l bs E Hl. unfold choose_best in E. destruct l as [|a [|b l]]; [easy | |].
  - injection E as <-. split; [apply incl_refl|]. exists [], a. split; auto. intros x [<-|[]]. lia.
  - destruct (pick_best (a :: b :: l)) as [[y rest]|] eqn:EP; [|discriminate]. injection E as <-.
    destruct (pick_best_spec _ _ _ EP) as [P [F _]]. split.
    + intros x Hx. apply (Permutation_in _ (Permutation_sym P)).
      destruct OptNbest; [apply in_app_iff in Hx; destruct Hx as [Hx|[<-|[]]]; [now right | now left]|].
      destruct Hx as [<-|[]]. now left.
    + exists (if OptNbest then rest else []), y. split; [now destruct OptNbest|].
      intros x Hx. apply (Permutation_in _ P) in Hx. destruct Hx as [<-|Hx]; [lia|].
      rewrite Forall_forall in F. auto.
Qed.

(** Every result of [after_cky] is the structure of one of the phrases. *)
Lemma after_cky_in : forall l d rs d' sc,
  after_cky rules sp Mask_matrix Quote_matrix Dpnd_matrix l d = Ret rs -> In (d', sc) rs ->
  exists c d0, In c l /\ score c = sc /\
    structure_dpnd rules sp Mask_matrix Quote_matrix Dpnd_matrix c d0 = Ret d'.
Proof.
  induction l as [|c l IH]; intros d rs d' sc E Hin; cbn [after_cky] in E; [inv E; easy|].
  destruct (structure_dpnd _ _ _ _ _ c d) as [d1|] eqn:ES; [|discriminate].
  destruct (after_cky _ _ _ _ _ l d1) as [rs'|] eqn:ER; [|discriminate]. injection E as <-.
  destruct Hin as [Heq|Hin].
  - injection Heq as <- <-. exists c, d. split; [now left | auto].
  - destruct (IH _ _ _ _ ER Hin) as [c' [d0 [H1 H2]]]. exists c', d0. split; [now right | auto].
Qed.

Lemma after_cky_scores : forall l d rs,
  after_cky rules sp Mask_matrix Quote_matrix Dpnd_matrix l d = Ret rs -> map snd rs = map score l.
Proof.
  induction l as [|c l IH]; intros d rs E; cbn [after_cky] in E; [now inv E|].
  destruct (structure_dpnd _ _ _ _ _ c d) as [d1|] eqn:ES; [|discriminate].
  destruct (after_cky _ _ _ _ _ l d1) as [rs'|] eqn:ER; [|discriminate]. injection E as <-.
  cbn [map snd]. f_equal. eauto.
Qed.
End Sound.

(** ** Bunsetsus that follow another one

    A bunsetsu with 係:無格従属 takes the head of a bunsetsu before it, [follow_offset] to the left; it gets
    the offset as its head first, and [follow_heads] replaces it from left to right. *)
Definition following_left (sp : SENTENCE_DATA) : Prop :=
  forall p cp h, 0 <= p < Bnst_num sp -> check_feature (b_f (bnst_data sp p)) "係:無格従属" = Some cp -> - p <= follow_offset cp h < 0.

Section Following.
Context `{FM : FeatureMatch} (rules : list DpndRule) (sp : SENTENCE_DATA).
Context (Mask_matrix Quote_matrix Dpnd_matrix : matrix Z) (Para_matrix : Z -> matrix spec_float) (OptParaFix : bool).
Local Abbreviation n := (Bnst_num sp).
Local Abbreviation phrase := (phrase sp Mask_matrix Quote_matrix Dpnd_matrix Para_matrix OptParaFix).
Hypothesis left : following_left sp.

(** The heads of the bunsetsus in [i .. j - 1], later bunsetsus or offsets; the others keep theirs. *)
Definition offset_head (p h : Z) : Prop := - p <= h < 0.

Definition headed (i j : Z) (d d' : DPND) : Prop :=
  (forall p, i <= p < j -> p < head d' p <= j \/ offset_head p (head d' p)) /\ (forall p, ~ i <= p < j -> head d' p = head d p).

Lemma arc_of_head : forall cd l r d, 0 <= b_of l < n -> b_of l < b_of r -> ck_direction cd = LtoR ->  ck_para_flag cd = false ->
  exists h, head (arc_of sp cd l r d) = aset (head d) (b_of l) h /\ (h = b_of r \/ offset_head (b_of l) h).
Proof.
  intros cd l r d Hl Hr HD HF. unfold arc_of. rewrite HF, HD. destruct (if _ =? _ then None else _) as [cp|] eqn:E.
  - exists (follow_offset cp (head d (b_of l))). split; [reflexivity|]. right. destruct (_ =? chr "P"); [discriminate|]. exact (left _ cp _ Hl E).
  - exists (b_of r). split; [reflexivity | now left].
Qed.

Lemma convert_headed : forall i j c, phrase i j c -> 0 <= i -> j < n -> forall d d',
  convert_to_dpnd rules sp Mask_matrix Quote_matrix Dpnd_matrix c d = Ret d' -> headed i j d d'.
Proof.
  intros i j c H. induction H as [i cd H1 H2 H3 H4|i m j cd l r Hl IHl Hr IHr H1 H2 H3 H4 H5
    |i k m j cd l r H0 Hl IHl Hr IHr Hk Hm H1 H2 H3 H4 H5]; intros Hi Hj d d' E; cbn [convert_to_dpnd] in E.
  - destruct (count_candidates_same _ _ _ _ _ _ _ E) as [E1 _]. split; [lia|]. intros. now rewrite E1.
  - destruct (phrase_bounds _ _ _ _ _ _ _ _ _ Hl) as [B1 [B2 _]]. destruct (phrase_bounds _ _ _ _ _ _ _ _ _ Hr) as [B3 [B4 _]].
    destruct (arc_of_head cd l r d) as (h & EH & OH); [lia | lia | auto | auto|]. rewrite B2, B4 in *.
    destruct (convert_to_dpnd _ _ _ _ _ l _) as [d1|] eqn:E1; [|discriminate].
    destruct (convert_to_dpnd _ _ _ _ _ r _) as [d2|] eqn:E2; [|discriminate].
    destruct (count_candidates_same _ _ _ _ _ _ _ E) as [E3 _].
    destruct (IHl Hi ltac:(lia) _ _ E1) as [A1 O1]. destruct (IHr ltac:(lia) Hj _ _ E2) as [A2 O2]. rewrite EH in O1. split; rewrite E3.
    + intros p Hp. destruct (Z.lt_trichotomy p m) as [Hlt|[->|Hgt]].
      * rewrite O2 by lia. destruct (A1 p ltac:(lia)); [left; lia | now right].
      * rewrite O2, O1, aset_eq by lia. destruct OH as [->|OH]; [left; lia | now right].
      * apply A2. lia.
    + intros p Hp. rewrite O2, O1 by lia. apply aset_ne. lia.
  - destruct (phrase_bounds _ _ _ _ _ _ _ _ _ Hl) as [B1 _]. destruct (phrase_bounds _ _ _ _ _ _ _ _ _ Hr) as [B3 _].
    unfold arc_of in E. rewrite H4 in E.
    destruct (convert_to_dpnd _ _ _ _ _ l _) as [d1|] eqn:E1; [|discriminate].
    destruct (convert_to_dpnd _ _ _ _ _ r _) as [d2|] eqn:E2; [|discriminate].
    destruct (count_candidates_same _ _ _ _ _ _ _ E) as [E3 _].
    destruct (IHl Hi ltac:(lia) _ _ E1) as [A1 O1]. destruct (IHr ltac:(lia) Hj _ _ E2) as [A2 O2]. split; rewrite E3.
    + intros p Hp. destruct (Z.lt_ge_cases p k) as [Hlt|Hge]; [|apply A2; lia]. rewrite O2 by lia. destruct (A1 p ltac:(lia)); [left; lia | now right].
    + intros p Hp. now rewrite O2, O1 by lia.
Qed.

(** From left to right every offset becomes a later bunsetsu. *)
Lemma follow_heads_right : forall d, 0 < n -> (forall p, 0 <= p < n - 1 -> p < head d p < n \/ offset_head p (head d p)) ->
  exists d', follow_heads sp d = Ret d' /\ (forall p, 0 <= p < n - 1 -> p < head d' p < n) /\ head d' (n - 1) = head d (n - 1).
Proof.
  intros d Pn H.
  unfold follow_heads.
  set (P k (s : DPND) := (forall p, 0 <= p < k -> p < head s p < n) /\ (forall p, k <= p -> head s p = head d p)).
  assert (G : forall k s, 0 <= k < n - 1 -> P k s -> exists s',
    (if head s k <? 0 then if k + head s k <? 0 then Err OutOfBounds
       else let h := head s (k + head s k) in Ret (set_head (aset (head s) k (if h <=? k then n - 1 else h)) s) else Ret s) = Ret s' /\ P (k + 1) s').
  { intros k s Hk [P1 P2]. pose proof (H k Hk) as HK. rewrite <- (P2 k) in HK by lia. destruct (Z.ltb_spec (head s k) 0) as [N|N].
    - destruct HK as [HK|[HK _]]; [lia|]. replace (k + head s k <? 0) with false by lia. eexists. split; [reflexivity|]. split.
      + intros p Hp. cbn [head set_head]. destruct (Z.eqb_spec p k) as [->|Ne]; [|rewrite aset_ne by exact Ne; apply P1; lia]. rewrite aset_eq.
        pose proof (P1 (k + head s k) ltac:(lia)) as B. destruct (Z.leb_spec (head s (k + head s k)) k); lia.
      + intros p Hp. cbn [head set_head]. rewrite aset_ne by lia. apply P2. lia.
    - exists s. split; [reflexivity|]. split; [|intros p Hp; apply P2; lia]. intros p Hp. destruct (Z.eqb_spec p k) as [->|]; [|apply P1; lia].
      destruct HK as [HK|[_ HK]]; lia. }
  destruct (for_res_total P _ 0 (n - 1) d ltac:(lia) G) as (s' & E & [Q1 Q2]); [split; [lia | reflexivity]|].
  exists s'. split; [exact E|]. split; [exact Q1 | apply Q2; lia].
Qed.

Lemma structure_right : forall c d d', 0 < n -> phrase 0 (n - 1) c ->
  structure_dpnd rules sp Mask_matrix Quote_matrix Dpnd_matrix c d = Ret d' ->
  head d' (n - 1) = -1 /\ (forall p, 0 <= p < n - 1 -> p < head d' p < n).
Proof.
  intros c d d' Hn Hp E. destruct (phrase_bounds _ _ _ _ _ _ _ _ _ Hp) as [_ [Hb _]]. unfold structure_dpnd in E. rewrite Hb in E.
  destruct (convert_to_dpnd _ _ _ _ _ c _) as [d2|] eqn:EC; [|discriminate].
  destruct (convert_headed _ _ _ Hp ltac:(lia) ltac:(lia) _ _ EC) as [A O].
  destruct (follow_heads_right d2 Hn) as (d3 & E3 & R & L); [intros p H; destruct (A p H); [left; lia | now right]|].
  rewrite E3 in E. injection E as <-. split; [|exact R]. rewrite L, O by lia. apply aset_eq.
Qed.
End Following.

(** ** The chart always covers the sentence *)
Section Complete.
Context `{FM : FeatureMatch} (rules : list DpndRule) (sp : SENTENCE_DATA).
Context (Mask_matrix Quote_matrix Dpnd_matrix : matrix Z) (Para_matrix : Z -> matrix spec_float).
Context (OptNbest : bool) (OptBeam : Z).
Local Abbreviation n := (Bnst_num sp).
Local Abbreviation possible :=
  (check_dpnd_possibility sp Mask_matrix Quote_matrix Dpnd_matrix Para_matrix true).
Hypothesis no_L : forall d g, Dpnd_matrix d g <> chr "L".
Hypothesis beam_ok : 0 <= OptBeam.

Lemma possible_begin : forall d g b1 b2 r, possible d g b1 r = possible d g b2 r.
Proof. reflexivity. Qed.

Lemma possible_relaxed : forall d g b, possible d g b true <> 0.
Proof.
  intros d g b. unfold check_dpnd_possibility. cbn [negb andb orb].
  destruct (Mask_matrix d g =? 2); [discriminate|]. destruct (Mask_matrix d g =? 3); [discriminate|].
  destruct (Z.eqb_spec (Dpnd_matrix d g) 0) as [|Hd]; cbn [negb andb].
  - now rewrite orb_true_r.
  - destruct (_ && _); [auto|]. now rewrite orb_true_r.
Qed.

(** Does split [q] of a phrase that ends at [j] give phrases? *)
Definition open_split (j : Z) (dc : array Z) (q : Z) : bool :=
  let t := possible q j 0 ((j =? n - 1) && (dc q =? -1)) in
  negb (t =? 0) && ((t =? chr "P") || (dc q <=? 0) || (j <=? dc q)).

Definition count_of (st : option (list CKY * Z)) : option nat :=
  match st with Some (acc, _) => Some (List.length acc) | None => None end.

Local Abbreviation joins := (join_one rules sp Mask_matrix Quote_matrix Dpnd_matrix Para_matrix true).

Lemma join_one_count : forall i j m dc l r st st', b_of l = m -> b_of r = j ->
  joins i j m dc l r st = Ret st' ->
  if open_split j dc m
  then count_of st' = None \/ exists k, count_of st = Some k /\ count_of st' = Some (S k)
  else st' = st.
Proof.
  intros i j m dc l r st st' Bl Br E. unfold join_one in E. destruct st as [[acc num]|].
  2:{ injection E as <-. destruct (open_split j dc m); [now left | auto]. }
  rewrite Bl, Br in E. unfold can_join in E. cbn [negb orb andb] in E. rewrite orb_false_r in E.
  rewrite (possible_begin m j i 0) in E. unfold open_split.
  set (t := possible m j 0 _) in *. destruct (t =? 0); cbn [negb andb] in E |- *; [now injection E as <-|].
  assert (EB : (if t =? chr "P" then true else (dc m <=? 0) || (j <=? dc m)) =
               (t =? chr "P") || (dc m <=? 0) || (j <=? dc m)) by (destruct (t =? chr "P"); reflexivity).
  rewrite EB in E. destruct ((t =? chr "P") || (dc m <=? 0) || (j <=? dc m)); [|now injection E as <-].
  destruct (new_node _ _ _ _ _ _ _ _ num) as [[[c num']|]|]; [| |discriminate]; injection E as <-.
  - right. exists (List.length acc). cbn [count_of]. now rewrite length_app, Nat.add_1_r.
  - now left.
Qed.

(** A loop of steps that count. *)
Lemma fold_count : forall {A} (body : A -> option (list CKY * Z) -> res (option (list CKY * Z))) w l st st',
  (forall a st st', In a l -> body a st = Ret st' ->
     count_of st' = None \/ exists k, count_of st = Some k /\ count_of st' = Some (w + k)%nat) ->
  fold_res body l st = Ret st' ->
  count_of st' = None \/ count_of st' = count_of st /\ l = [] \/
  exists k, count_of st = Some k /\ count_of st' = Some (List.length l * w + k)%nat.
Proof.
  intros A body w. induction l as [|a l IH]; intros st st' H E; cbn [fold_res] in E.
  - injection E as <-. auto.
  - destruct (body a st) as [st1|] eqn:E1; [|discriminate].
    destruct (IH st1 st') as [N|[[N ->]|[k [K1 K2]]]]; auto.
    { intros x y z Hx. apply H. now right. }
    + destruct (H a st st1 (in_eq _ _) E1) as [N1|[k [K1 K2]]]; [left; congruence|].
      right. right. exists k. split; auto. rewrite N, K2. cbn [List.length]. f_equal. lia.
    + destruct (H a st st1 (in_eq _ _) E1) as [N1|[k1 [K3 K4]]]; [congruence|].
      right. right. exists k1. split; auto. rewrite K2. cbn [List.length]. f_equal.
      assert (k = (w + k1)%nat) by congruence. lia.
Qed.

Lemma fold_same : forall {A S} (body : A -> S -> res S) l st st',
  (forall a st', In a l -> body a st = Ret st' -> st' = st) -> fold_res body l st = Ret st' -> st' = st.
Proof.
  intros A S body. induction l as [|a l IH]; intros st st' H E; cbn [fold_res] in E; [now injection E|].
  destruct (body a st) as [s1|] eqn:E1; [|discriminate].
  rewrite (H a s1 (in_eq _ _) E1) in E. apply IH; auto. intros x y Hx. apply H. now right.
Qed.

Lemma take_through_nil : forall {A} (p : A -> bool) l, take_through p l = [] -> l = [].
Proof. intros A p [|x l] H; cbn in H; [auto | now destruct (p x)]. Qed.

Lemma join_split_new : forall i j m dc ls rs num new num',
  (forall c, In c ls -> b_of c = m) -> (forall c, In c rs -> b_of c = j) ->
  join_split rules sp Mask_matrix Quote_matrix Dpnd_matrix Para_matrix true OptNbest i j m dc ls rs num
    = Ret (Some (new, num')) ->
  (new <> [] <-> ls <> [] /\ rs <> [] /\ open_split j dc m = true).
Proof.
  intros i j m dc ls rs num new num' Hl Hr E. unfold join_split in E.
  pose proof (join_one_count i j m dc) as HJ.
  destruct (open_split j dc m) eqn:EO.
  - apply (fold_count _ (List.length (take_through (last_right sp true OptNbest) rs))) in E.
    + destruct E as [E|[[E E']|[k [K1 K2]]]].
      * discriminate.
      * apply take_through_nil in E'. cbn [count_of List.length] in E. injection E as E.
        apply length_zero_iff_nil in E. subst. tauto.
      * cbn [count_of List.length] in K1, K2. injection K1 as <-. injection K2 as K2.
        rewrite Nat.add_0_r in K2. split.
        -- intros Hn. destruct new; [easy|]. cbn in K2. split; [|split; auto].
           ++ intros ->. discriminate.
           ++ intros ->. cbn in K2. lia.
        -- intros [Hls [Hrs _]] ->. cbn in K2. symmetry in K2. apply Nat.mul_eq_0 in K2.
           destruct K2 as [K2|K2]; apply length_zero_iff_nil, take_through_nil in K2; auto.
    + intros l st st1 Hin E1. apply take_through_in, Hl in Hin.
      apply (fold_count _ 1%nat) in E1.
      * destruct E1 as [E1|[[E1 ->]|[k [K1 K2]]]]; [now left | | right; exists k; split; auto; rewrite K2; f_equal; lia].
        destruct (count_of st) as [k|] eqn:EK; [right; exists k; now rewrite E1 | left; congruence].
      * intros r s s1 Hin' E2. apply take_through_in, Hr in Hin'. exact (HJ l r s s1 Hin Hin' E2).
  - assert (N : Some (new, num') = Some ([], num)).
    { refine (fold_same _ _ _ _ _ E). intros l st1 Hin E1. apply take_through_in, Hl in Hin.
      refine (fold_same _ _ _ _ _ E1). intros r s1 Hin' E2. apply take_through_in, Hr in Hin'.
      exact (HJ l r _ s1 Hin Hin' E2). }
    injection N as -> _. split; [easy | intros [_ [_ H]]; discriminate].
Qed.

Lemma new_barrier_spec : forall m j dc dc', new_barrier rules sp Dpnd_matrix true m j dc = Ret dc' ->
  (forall q, q <> m -> dc' q = dc q) /\
  (if j =? n - 1 then dc' m = dc m
   else dc' m = j \/ (dc m = -1 /\ dc' m = 0) \/ (dc m <> -1 /\ dc' m = dc m)).
Proof.
  intros m j dc dc' E. unfold new_barrier in E. destruct (j =? n - 1); [injection E as <-; auto|].
  cbn [orb andb] in E. destruct (at_barrier rules sp m j) as [[|]|]; [| |discriminate].
  - injection E as <-. rewrite aset_eq. split; [intros; now apply aset_ne | now left].
  - destruct (Z.eqb_spec (dc m) (-1)) as [Hm|Hm].
    + destruct (rule_of rules sp m) as [r|]; [|discriminate]. injection E as <-. rewrite aset_eq.
      split; [intros; now apply aset_ne|]. destruct (_ && _); auto.
    + injection E as <-. auto.
Qed.
Definition joined (i j : Z) (M : matrix (list CKY)) (dc : array Z) (q : Z) : Prop :=
  M i q <> [] /\ M (q + 1) j <> [] /\ open_split j dc q = true.

Local Abbreviation cells_ok := (chart_ok sp Mask_matrix Quote_matrix Dpnd_matrix Para_matrix true).
Local Abbreviation splits i j M :=
  (cky_split rules sp Mask_matrix Quote_matrix Dpnd_matrix Para_matrix true OptNbest i j M).

Lemma open_split_ext : forall j dc1 dc2 q, dc1 q = dc2 q -> open_split j dc1 q = open_split j dc2 q.
Proof. intros j dc1 dc2 q H. unfold open_split. now rewrite H. Qed.

Lemma split_step_none : forall i j M l st', fold_res (splits i j M) l None = Ret st' -> st' = None.
Proof.
  intros i j M l st' E. refine (fold_same _ _ _ _ _ E). intros a s _ E1. now injection E1.
Qed.

Lemma splits_spec : forall i j M, 0 <= i -> cells_ok j i M ->
  forall k m acc num dc acc' num' dc', i <= m -> m + Z.of_nat k = j ->
  fold_res (splits i j M) (zseq m k) (Some (acc, num, dc)) = Ret (Some (acc', num', dc')) ->
  (acc <> [] -> acc' <> []) /\
  (forall q, m <= q < j -> joined i j M dc q -> acc' <> [] /\
     (j <> n - 1 -> dc' q = j \/ (dc q = -1 /\ dc' q = 0) \/ (dc q <> -1 /\ dc' q = dc q))) /\
  (forall q, ~ m <= q < j \/ ~ joined i j M dc q \/ j = n - 1 -> dc' q = dc q).
Proof.
  intros i j M Hi HM. induction k as [|k IH]; intros m acc num dc acc' num' dc' Hm Hk E; cbn [zseq fold_res] in E.
  - injection E as <- _ <-. split; auto. split; [intros; lia | auto].
  - destruct (splits i j M m (Some (acc, num, dc))) as [[[[acc1 num1] dc1]|]|] eqn:E1; [| |discriminate].
    2:{ apply split_step_none in E. discriminate. }
    unfold cky_split in E1.
    destruct (join_split _ _ _ _ _ _ _ _ i j m dc (M i m) (M (m + 1) j) num) as [[[new num2]|]|] eqn:EJ;
      [| discriminate | discriminate].
    assert (HN : new <> [] <-> joined i j M dc m).
    { apply (join_split_new i j m dc (M i m) (M (m + 1) j) num new num2); [| |exact EJ]; intros c Hc.
      - assert (P : processed j i i m) by (split; lia).
        apply (phrase_bounds _ _ _ _ _ _ _ _ _ (HM _ _ P c Hc)).
      - assert (P : processed j i (m + 1) j) by (split; lia).
        apply (phrase_bounds _ _ _ _ _ _ _ _ _ (HM _ _ P c Hc)). }
    assert (HA : acc1 = acc ++ new) by (destruct new; [injection E1 as <- _ _; now rewrite app_nil_r|];
      destruct (new_barrier _ _ _ _ m j dc); [now injection E1 as <- _ _ | discriminate]).
    assert (HD : (forall q, q <> m -> dc1 q = dc q) /\
      (new = [] -> dc1 m = dc m) /\
      (if j =? n - 1 then dc1 m = dc m
       else new <> [] -> dc1 m = j \/ (dc m = -1 /\ dc1 m = 0) \/ (dc m <> -1 /\ dc1 m = dc m))).
    { destruct new as [|c new];
        [injection E1 as _ _ <-; split; auto; split; auto; now destruct (j =? n - 1)|].
      destruct (new_barrier _ _ _ _ m j dc) as [dc2|] eqn:EB; [|discriminate]. injection E1 as _ _ <-.
      destruct (new_barrier_spec _ _ _ _ EB) as [B1 B2]. split; auto. split; [easy|].
      destruct (j =? n - 1); auto. }
    destruct HD as [D1 [D2 D3]].
    destruct (IH (m + 1) acc1 num1 dc1 acc' num' dc' ltac:(lia) ltac:(lia) E) as [I1 [I2 I3]].
    assert (J : forall q, q <> m -> joined i j M dc1 q <-> joined i j M dc q).
    { intros q Hq. unfold joined. now rewrite (open_split_ext j dc1 dc q) by auto. }
    split; [|split].
    + intros Ha. apply I1. rewrite HA. destruct acc; [easy | discriminate].
    + intros q Hq Jq. destruct (Z.eq_dec q m) as [->|Hne].
      * apply HN in Jq as Jn. split; [apply I1; rewrite HA; now destruct acc, new|].
        intros Hj. rewrite (I3 m) by lia. destruct (Z.eqb_spec j (n - 1)); [lia | auto].
      * destruct (I2 q) as [A B]; [lia | now apply J|]. split; auto. rewrite <- (D1 q Hne). exact B.
    + intros q Hq. destruct (Z.eq_dec q m) as [->|Hne].
      * rewrite (I3 m) by lia. destruct (Z.eqb_spec j (n - 1)) as [|Hj]; auto.
        destruct Hq as [Hq|[Hq|Hq]]; [lia | | lia]. apply D2. destruct new; auto. exfalso. apply Hq, HN. discriminate.
      * rewrite <- (D1 q Hne). apply I3. rewrite J by auto. destruct Hq as [Hq|Hq]; [left; lia | auto].
Qed.

Lemma prune_nonempty : forall i j l l', prune sp OptBeam i j l = Ret l' -> l <> [] -> l' <> [].
Proof.
  intros i j l l' E Hl. unfold prune in E. destruct l as [|c l]; [easy|].
  assert (P : forall k s, sort_cky_ptrs k (c :: l) = Ret s -> s <> []).
  { intros k s ES ->. apply sort_cky_perm in ES. now apply Permutation_sym, Permutation_nil in ES. }
  destruct (negb (OptBeam =? 0) && _) eqn:EB; [|eauto].
  destruct (sort_cky_ptrs _ (c :: l)) as [s|] eqn:ES; [|discriminate]. injection E as <-.
  apply P in ES. destruct s; [easy|]. destruct (Z.to_nat OptBeam) eqn:EN; [|discriminate]. blia.
Qed.

(** What [fill_cell] does to a cell that is no leaf. *)
Lemma fill_cell_spec : forall j i num dc M num' dc' M', 0 <= i < j -> cells_ok j i M ->
  fill_cell rules sp Mask_matrix Quote_matrix Dpnd_matrix Para_matrix true OptNbest OptBeam j i
    (Some (mkChart num dc M)) = Ret (Some (mkChart num' dc' M')) ->
  (forall a b, a <> i \/ b <> j -> M' a b = M a b) /\
  (forall q, i <= q < j -> joined i j M dc q -> M' i j <> [] /\
     (j <> n - 1 -> dc' q = j \/ (dc q = -1 /\ dc' q = 0) \/ (dc q <> -1 /\ dc' q = dc q))) /\
  (forall q, ~ i <= q < j \/ ~ joined i j M dc q \/ j = n - 1 -> dc' q = dc q).
Proof.
  intros j i num dc M num' dc' M' Hi HM E. unfold fill_cell in E.
  destruct (Z.eqb_spec i j); [lia|].
  destruct (for_res i j _ _) as [[[[acc num1] dc1]|]|] eqn:ES; [| discriminate | discriminate].
  unfold for_res, zrange in ES.
  destruct (splits_spec i j M (proj1 Hi) HM (Z.to_nat (j - i)) i [] num dc acc num1 dc1
    ltac:(lia) ltac:(lia) ES) as [_ [S1 S2]].
  unfold coordinations in E. cbn [app] in E. rewrite app_nil_r in E.
  destruct (prune sp OptBeam i j acc) as [l|] eqn:EP; [|discriminate]. injection E as <- <- <-.
  split; [intros a b H; now apply mset_ne|]. split; [|exact S2].
  intros q Hq Jq. destruct (S1 q Hq Jq) as [A B]. split; [|exact B].
  rewrite mset_eq. eapply prune_nonempty; eauto.
Qed.

(** ** The walls never close a bunsetsu off

    Whatever ends at [q] also reaches a later end [q'] before [j]. *)
Definition bypass (q j : Z) (M : matrix (list CKY)) : Prop :=
  exists q', q < q' < j /\ forall a, 0 <= a <= q -> M a q <> [] -> M a q' <> [].

(** In column [j], before cell [i]: a bunsetsu whose [dep_check] is set can be
    bypassed, or it reaches [j] from every cell that is done. *)
Definition wall_ok (j i : Z) (dc : array Z) (M : matrix (list CKY)) (q : Z) : Prop :=
  bypass q j M \/
  (i < q < j /\ (dc q = 0 \/ dc q = j) /\ possible q j 0 false <> 0 /\ M (q + 1) j <> [] /\
   forall a, i < a <= q -> M a q <> [] -> M a j <> []) \/
  (dc q = -1 /\ (i < q < j -> possible q j 0 false = 0 \/ M (q + 1) j = [])).

Definition column_ok (j i : Z) (st : option chart) : Prop :=
  match st with
  | None => True
  | Some (mkChart num dc M) =>
      cells_ok j i M /\ (forall a, 0 <= a < j \/ (a = j /\ i < j) -> M a a <> []) /\
      forall q, 0 <= q < n -> wall_ok j i dc M q
  end.

Lemma bypass_ext : forall q j M M', (forall a b, b < j -> M' a b = M a b) -> bypass q j M -> bypass q j M'.
Proof.
  intros q j M M' H [q' [Hq B]]. exists q'. split; auto. intros a Ha. rewrite !H by lia. now apply B.
Qed.

Lemma wall_cell : forall j i num dc M num' dc' M' q, 0 <= i < j -> j < n - 1 -> cells_ok j i M ->
  (forall a, 0 <= a < j -> M a a <> []) ->
  fill_cell rules sp Mask_matrix Quote_matrix Dpnd_matrix Para_matrix true OptNbest OptBeam j i
    (Some (mkChart num dc M)) = Ret (Some (mkChart num' dc' M')) ->
  wall_ok j i dc M q -> wall_ok j (i - 1) dc' M' q.
Proof.
  intros j i num dc M num' dc' M' q Hi Hj HM HD E W.
  destruct (fill_cell_spec _ _ _ _ _ _ _ _ Hi HM E) as [F1 [F2 F3]].
  assert (OS : forall x, open_split j dc x =
    negb (possible x j 0 false =? 0) && ((possible x j 0 false =? chr "P") || (dc x <=? 0) || (j <=? dc x))).
  { intros x. unfold open_split. now replace (j =? n - 1) with false by lia. }
  destruct W as [W|[[Hq [Hd [Hp [HR HA]]]]|[Hd HC]]].
  - left. eapply bypass_ext; [|exact W]. intros a b Hb. apply F1. right. lia.
  - right. left. split; [lia|]. assert (O : open_split j dc q = true).
    { rewrite OS. destruct (Z.eqb_spec (possible q j 0 false) 0); [contradiction|]. cbn [negb andb].
      destruct Hd as [->| ->]; [|rewrite Z.leb_refl, orb_true_r; reflexivity]. now rewrite orb_true_r. }
    rewrite (F1 (q + 1) j) by lia.
    assert (DQ : dc' q = 0 \/ dc' q = j).
    { destruct (Z.eq_dec (dc' q) (dc q)) as [->|Hne]; auto.
      assert (Dn : ~ (~ i <= q < j \/ ~ joined i j M dc q \/ j = n - 1)) by (intros H; now apply F3 in H).
      destruct (F2 q ltac:(lia)) as [_ B].
      - destruct (M i q) eqn:EM; [exfalso; apply Dn; right; left; intros [J _]; auto|].
        split; [rewrite EM; discriminate | auto].
      - destruct (B ltac:(lia)) as [B1|[[_ B1]|[_ B1]]]; auto. congruence. }
    split; [exact DQ|]. split; [exact Hp|]. split; [exact HR|]. intros a Ha HMa.
    rewrite (F1 a q) in HMa by lia. destruct (Z.eq_dec a i) as [->|Hai].
    + apply (F2 q); [lia | now split].
    + rewrite F1 by lia. apply HA; auto. lia.
  - destruct (Z.eq_dec q i) as [->|Hqi].
    + assert (O : open_split j dc i = negb (possible i j 0 false =? 0)).
      { rewrite OS, Hd. cbn [Z.leb Z.compare]. rewrite orb_true_r. cbn [orb]. now rewrite andb_true_r. }
      destruct (M (i + 1) j) as [|c l] eqn:ER.
      * right. right. split; [rewrite F3; auto; right; left; intros [_ [J _]]; auto|].
        intros _. right. rewrite F1 by lia. exact ER.
      * destruct (Z.eqb_spec (possible i j 0 false) 0) as [Hz|Hz].
        -- right. right. split; [|now left]. rewrite F3; auto. right. left. intros [_ [_ J]].
           rewrite O in J. discriminate.
        -- assert (J : joined i j M dc i) by (split; [apply HD; lia | split; [rewrite ER; discriminate|];
             rewrite O; now destruct (Z.eqb_spec (possible i j 0 false) 0)]).
           destruct (F2 i ltac:(lia) J) as [A B]. right. left. split; [lia|].
           split; [destruct (B ltac:(lia)) as [B1|[[_ B1]|[B1 _]]]; auto; congruence|].
           split; [exact Hz|]. split; [rewrite F1 by lia; rewrite ER; discriminate|].
           intros a Ha _. now replace a with i by lia.
    + right. right. assert (DQ : dc' q = dc q).
      { apply F3. destruct (Z.lt_ge_cases q i); [left; lia|]. destruct (Z.lt_ge_cases q j); [|left; lia].
        right. left. intros [_ [J1 J2]]. destruct (HC ltac:(lia)) as [Hz|Hz]; [|contradiction].
        rewrite OS, Hz in J2. discriminate. }
      split; [congruence|]. intros Hq. rewrite F1 by lia. apply HC. lia.
Qed.

Lemma column_cell : forall j i st st', 0 <= i <= j -> j < n - 1 -> column_ok j i st ->
  fill_cell rules sp Mask_matrix Quote_matrix Dpnd_matrix Para_matrix true OptNbest OptBeam j i st = Ret st' ->
  column_ok j (i - 1) st'.
Proof.
  intros j i st st' Hi Hj HC E. destruct st as [[num dc M]|]; [|cbn in E; injection E as <-; exact I].
  destruct HC as [HM [HD HW]].
  pose proof (fill_cell_ok rules sp Mask_matrix Quote_matrix Dpnd_matrix Para_matrix true OptNbest OptBeam no_L
    j i (Some (mkChart num dc M)) st' Hi HM E) as HM'.
  destruct st' as [[num' dc' M']|]; [|exact I]. split; [exact HM'|].
  destruct (Z.eq_dec i j) as [->|Hne].
  - cbn [fill_cell] in E. unfold fill_cell in E. rewrite Z.eqb_refl in E.
    destruct (new_node _ _ _ _ _ _ _ _ num) as [[[c num1]|]|]; [| discriminate | discriminate].
    injection E as <- <- <-. split.
    + intros a Ha. destruct (Z.eq_dec a j) as [->|]; [rewrite mset_eq; discriminate|].
      rewrite mset_ne by lia. apply HD. lia.
    + intros q Hq. destruct (HW q Hq) as [W|[[W _]|[W _]]]; [| lia |].
      * left. eapply bypass_ext; [|exact W]. intros a b Hb. apply mset_ne. lia.
      * right. right. split; [exact W | lia].
  - assert (Hij : 0 <= i < j) by lia. split.
    + intros a Ha. destruct (fill_cell_spec _ _ _ _ _ _ _ _ Hij HM E) as [F1 _].
      rewrite F1 by lia. apply HD. lia.
    + intros q Hq. apply (wall_cell j i num dc M num' dc' M' q); auto.
Qed.

Definition start_ok (j : Z) (st : option chart) : Prop := column_ok j j st.

Lemma column_done : forall j st st', 0 <= j < n - 1 -> start_ok j st ->
  fill_column rules sp Mask_matrix Quote_matrix Dpnd_matrix Para_matrix true OptNbest OptBeam j st = Ret st' ->
  start_ok (j + 1) st'.
Proof.
  intros j st st' Hj HS E. unfold fill_column in E.
  assert (H : column_ok j (-1) st').
  { refine (down_res_inv (column_ok j) _ j st st' ltac:(lia) _ HS E).
    intros i s s' Hi Hs E1. apply column_cell with s; auto. lia. }
  destruct st' as [[num dc M]|]; [|exact I]. destruct H as [HM [HD HW]]. split; [|split].
  - intros a b [H1 H2]. apply HM. split; lia.
  - intros a Ha. apply HD. lia.
  - intros q Hq. destruct (HW q Hq) as [[q' [B1 B2]]|[[Hr [_ [_ [_ B]]]]|[W _]]].
    + left. exists q'. split; [lia | exact B2].
    + left. exists j. split; [lia|]. intros a Ha. apply B. lia.
    + right. right. split; [exact W | lia].
Qed.

(** In the last column every cell gets a phrase. *)
Definition last_ok (i : Z) (st : option chart) : Prop :=
  match st with
  | None => True
  | Some (mkChart num dc M) =>
      cells_ok (n - 1) i M /\ (forall a, 0 <= a < n - 1 -> M a a <> []) /\
      (forall q, 0 <= q < n - 1 -> bypass q (n - 1) M \/ dc q = -1) /\
      (forall a, i < a <= n - 1 -> M a (n - 1) <> [])
  end.

(** The last end that is reached from [i] has no wall. *)
Lemma open_end : forall dc (M : matrix (list CKY)) i, 0 <= i ->
  (forall q, 0 <= q < n - 1 -> bypass q (n - 1) M \/ dc q = -1) ->
  forall k q, n - 1 - q <= Z.of_nat k -> i <= q < n - 1 -> M i q <> [] ->
  exists q', i <= q' < n - 1 /\ M i q' <> [] /\ dc q' = -1.
Proof.
  intros dc M i Hi HB. induction k as [|k IH]; intros q Hk Hq HM; [lia|].
  destruct (HB q ltac:(lia)) as [[q' [H1 H2]]|H]; [|eauto].
  apply (IH q'); [lia | lia|]. apply H2; auto. lia.
Qed.

Lemma last_cell : forall i st st', 0 <= i <= n - 1 -> last_ok i st ->
  fill_cell rules sp Mask_matrix Quote_matrix Dpnd_matrix Para_matrix true OptNbest OptBeam (n - 1) i st = Ret st' ->
  last_ok (i - 1) st'.
Proof.
  intros i st st' Hi HC E. destruct st as [[num dc M]|]; [|cbn in E; injection E as <-; exact I].
  destruct HC as [HM [HD [HB HR]]].
  pose proof (fill_cell_ok rules sp Mask_matrix Quote_matrix Dpnd_matrix Para_matrix true OptNbest OptBeam no_L
    (n - 1) i (Some (mkChart num dc M)) st' Hi HM E) as HM'.
  destruct st' as [[num' dc' M']|]; [|exact I]. split; [exact HM'|].
  destruct (Z.eq_dec i (n - 1)) as [Hin|Hne].
  - unfold fill_cell in E. rewrite Hin, Z.eqb_refl in E.
    destruct (new_node _ _ _ _ _ _ _ _ num) as [[[c num1]|]|]; [| discriminate | discriminate].
    injection E as <- <- <-. split; [|split].
    + intros a Ha. rewrite mset_ne by lia. auto.
    + intros q Hq. destruct (HB q Hq) as [W|W]; [left | now right].
      eapply bypass_ext; [|exact W]. intros a b Hb. apply mset_ne. lia.
    + intros a Ha. replace a with (n - 1) by lia. rewrite mset_eq. discriminate.
  - assert (Hij : 0 <= i < n - 1) by lia.
    destruct (fill_cell_spec _ _ _ _ _ _ _ _ Hij HM E) as [F1 [F2 F3]]. split; [|split].
    + intros a Ha. rewrite F1 by lia. auto.
    + intros q Hq. rewrite F3 by auto. destruct (HB q Hq) as [W|W]; [left | now right].
      eapply bypass_ext; [|exact W]. intros a b Hb. apply F1. lia.
    + intros a Ha. destruct (Z.eq_dec a i) as [->|Hai]; [|rewrite F1 by lia; apply HR; lia].
      destruct (open_end dc M i (proj1 Hij) HB (Z.to_nat n) i) as [q [Q1 [Q2 Q3]]]; [lia | lia | auto |].
      apply (F2 q Q1). split; [exact Q2|]. split; [apply HR; lia|].
      unfold open_split. rewrite Q3, !Z.eqb_refl. cbn [andb].
      destruct (Z.eqb_spec (possible q (n - 1) 0 true) 0) as [Hz|_]; [now apply possible_relaxed in Hz|].
      cbn [Z.leb Z.compare negb andb]. now rewrite orb_true_r.
Qed.

Lemma chart_complete : forall M ch, 0 < n ->
  fill_chart rules sp Mask_matrix Quote_matrix Dpnd_matrix Para_matrix true OptNbest OptBeam M = Ret (Some ch) ->
  cky_matrix ch 0 (n - 1) <> [].
Proof.
  intros M ch Hn E. unfold fill_chart, for_res in E.
  rewrite zrange_snoc in E by lia.
  assert (A : forall l1 l2 st, fold_res (fill_column rules sp Mask_matrix Quote_matrix Dpnd_matrix Para_matrix
      true OptNbest OptBeam) (l1 ++ l2) st =
    (st' <- fold_res (fill_column rules sp Mask_matrix Quote_matrix Dpnd_matrix Para_matrix true OptNbest OptBeam) l1 st ;;
     fold_res (fill_column rules sp Mask_matrix Quote_matrix Dpnd_matrix Para_matrix true OptNbest OptBeam) l2 st'))
    by (intros; apply fold_res_app).
  rewrite A in E. clear A.
  destruct (fold_res _ (zrange 0 (n - 1)) _) as [st|] eqn:E1; [|discriminate].
  assert (S : start_ok (n - 1) st).
  { refine (for_res_inv start_ok _ 0 (n - 1) _ _ ltac:(lia) _ _ E1).
    - intros j s s' Hj Hs E2. apply column_done with s; auto.
    - split; [intros a b [H1 H2]; lia|]. split; [intros; lia|]. intros q Hq. right. right. split; [reflexivity | lia]. }
  cbn [fold_res] in E. destruct (fill_column _ _ _ _ _ _ _ _ _ (n - 1) st) as [st'|] eqn:E2; [|discriminate].
  injection E as ->. unfold fill_column in E2.
  assert (L : last_ok (-1) (Some ch)).
  { refine (down_res_inv last_ok _ (n - 1) st _ ltac:(lia) _ _ E2).
    - intros i s s' Hi Hs E3. now apply last_cell with s.
    - destruct st as [[num dc M0]|]; [|exact I]. destruct S as [S1 [S2 S3]]. split; [exact S1|].
      split; [intros a Ha; apply S2; lia|]. split; [|intros; lia].
      intros q Hq. destruct (S3 q ltac:(lia)) as [W|[[W _]|[W _]]]; [now left | lia | now right]. }
  destruct ch as [num dc M0]. destruct L as [_ [_ [_ L]]]. apply L. lia.
Qed.
End Complete.

(** The structures that the parser returns. *)
Lemma parsed_structures : forall (FM : FeatureMatch) rules sp Mask_matrix Quote_matrix Dpnd_matrix Para_matrix
    OptParaFix OptNbest OptBeam M d rs,
  0 < Bnst_num sp -> (forall x y, Dpnd_matrix x y <> chr "L") ->
  (forall p, 0 <= p < Bnst_num sp - 1 -> check_feature (b_f (bnst_data sp p)) "係:無格従属" = None) ->
  cky_parse rules sp Mask_matrix Quote_matrix Dpnd_matrix Para_matrix OptParaFix OptNbest OptBeam M d
    = Ret (Some rs) ->
  (forall d' sc, In (d', sc) rs ->
    head d' (Bnst_num sp - 1) = -1 /\
    (forall p, 0 <= p < Bnst_num sp - 1 -> p < head d' p < Bnst_num sp /\
       arc_possible sp Mask_matrix Quote_matrix Dpnd_matrix Para_matrix OptParaFix p (head d' p) (type d' p)) /\
    (OptParaFix = true -> forall p q, 0 <= p < q -> q < Bnst_num sp - 1 -> q < head d' p -> head d' q <= head d' p)) /\
  (exists ch rs' d' sc,
     fill_chart rules sp Mask_matrix Quote_matrix Dpnd_matrix Para_matrix OptParaFix OptNbest OptBeam M = Ret (Some ch) /\
     rs = rs' ++ [(d', sc)] /\
     forall x, In x (cky_matrix ch 0 (Bnst_num sp - 1)) -> score x <= sc).
Proof.
  intros FM rules sp Mm Qm Dm Pm fix_ nbest beam M d rs Hn HL HF E. unfold cky_parse in E.
  destruct (fill_chart _ _ _ _ _ _ _ _ _ M) as [[ch|]|] eqn:EF; [| discriminate | discriminate].
  destruct (cky_matrix ch 0 (Bnst_num sp - 1)) as [|c0 cs] eqn:EC; [discriminate|].
  destruct (choose_best nbest (c0 :: cs)) as [bs|] eqn:EB; [|discriminate].
  destruct (after_cky _ _ _ _ _ bs _) as [rs0|] eqn:EA; [|discriminate]. injection E as ->.
  destruct (choose_best_in _ _ _ EB) as [Hincl [r [best [-> Hmax]]]]; [easy|]. split.
  - intros d' sc Hin. destruct (after_cky_in _ _ _ _ _ _ _ _ _ _ EA Hin) as [c [d0 [Hc [_ ES]]]].
    apply (structure_sound rules sp Mm Qm Dm Pm fix_ HF c d0 d' Hn); auto.
    apply (fill_chart_ok rules sp Mm Qm Dm Pm fix_ nbest beam HL M ch EF 0 (Bnst_num sp - 1)); [lia | lia|].
    rewrite EC. now apply Hincl.
  - apply after_cky_scores in EA. rewrite map_app in EA. apply map_eq_app in EA.
    destruct EA as [rs' [l2 [-> [_ E2]]]]. destruct l2 as [|[d' sc] [|]]; [discriminate | | discriminate].
    injection E2 as ->. exists ch, rs', d', (score best). rewrite EC. auto.
Qed.

(** The heads of the structures of sentences with bunsetsus that follow others. *)
Lemma parsed_right : forall (FM : FeatureMatch) rules sp Mask_matrix Quote_matrix Dpnd_matrix Para_matrix
    OptParaFix OptNbest OptBeam M d rs,
  0 < Bnst_num sp -> (forall x y, Dpnd_matrix x y <> chr "L") -> following_left sp ->
  cky_parse rules sp Mask_matrix Quote_matrix Dpnd_matrix Para_matrix OptParaFix OptNbest OptBeam M d
    = Ret (Some rs) ->
  forall d' sc, In (d', sc) rs -> head d' (Bnst_num sp - 1) = -1 /\ forall p, 0 <= p < Bnst_num sp - 1 -> p < head d' p < Bnst_num sp.
Proof.
  intros FM rules sp Mm Qm Dm Pm fix_ nbest beam M d rs Hn HL HF E d' sc Hin. unfold cky_parse in E.
  destruct (fill_chart _ _ _ _ _ _ _ _ _ M) as [[ch|]|] eqn:EF; [| discriminate | discriminate].
  destruct (cky_matrix ch 0 (Bnst_num sp - 1)) as [|c0 cs] eqn:EC; [discriminate|].
  destruct (choose_best nbest (c0 :: cs)) as [bs|] eqn:EB; [|discriminate].
  destruct (after_cky _ _ _ _ _ bs _) as [rs0|] eqn:EA; [|discriminate]. injection E as ->.
  destruct (choose_best_in _ _ _ EB) as [Hincl _]; [easy|].
  destruct (after_cky_in _ _ _ _ _ _ _ _ _ _ EA Hin) as [c [d0 [Hc [_ ES]]]].
  apply (structure_right rules sp Mm Qm Dm Pm fix_ HF c d0 d' Hn); [|exact ES].
  apply (fill_chart_ok rules sp Mm Qm Dm Pm fix_ nbest beam HL M ch EF 0 (Bnst_num sp - 1)); [lia | lia|]. rewrite EC. now apply Hincl.
Qed.

(** C4: the structures of a successful parse.  For rules without dependencies to the left
    and sentences without bunsetsus that follow another one, in each structure: the last
    bunsetsu has no governor, each other one has a governor after it by a dependency that is
    possible, by relaxation only at the end of the sentence, and with fixed coordinations no
    two dependencies cross.  The last structure is the one that remains, and no phrase over
    the sentence has a higher score. *)
Theorem cky_parse_sound : forall (FM : FeatureMatch) rules sp Mask_matrix Quote_matrix Dpnd_matrix Para_matrix
    OptParaFix OptNbest OptBeam M d rs,
  0 < Bnst_num sp -> (forall x y, Dpnd_matrix x y <> chr "L") ->
  (forall p, 0 <= p < Bnst_num sp - 1 -> check_feature (b_f (bnst_data sp p)) "係:無格従属" = None) ->
  cky_parse rules sp Mask_matrix Quote_matrix Dpnd_matrix Para_matrix OptParaFix OptNbest OptBeam M d
    = Ret (Some rs) ->
  (forall d' sc, In (d', sc) rs ->
    head d' (Bnst_num sp - 1) = -1 /\
    (forall p, 0 <= p < Bnst_num sp - 1 -> p < head d' p < Bnst_num sp /\
       arc_possible sp Mask_matrix Quote_matrix Dpnd_matrix Para_matrix OptParaFix p (head d' p) (type d' p)) /\
    (OptParaFix = true -> forall p q, 0 <= p < q -> q < Bnst_num sp - 1 -> q < head d' p -> head d' q <= head d' p)) /\
  (exists ch rs' d' sc,
     fill_chart rules sp Mask_matrix Quote_matrix Dpnd_matrix Para_matrix OptParaFix OptNbest OptBeam M = Ret (Some ch) /\
     rs = rs' ++ [(d', sc)] /\
     forall x, In x (cky_matrix ch 0 (Bnst_num sp - 1)) -> score x <= sc).
Proof. exact (@parsed_structures). Qed.

(** C3: with fixed coordinations (the default) the parser does not fail: for rules without
    dependencies to the left, cky_parse finds no parse only when the table of nodes is full,
    whatever the matrices, the walls of the rules and the beam. *)
Theorem cky_parse_complete : forall (FM : FeatureMatch) rules sp Mask_matrix Quote_matrix Dpnd_matrix Para_matrix
    OptNbest OptBeam M d,
  0 < Bnst_num sp -> 0 <= OptBeam -> (forall x y, Dpnd_matrix x y <> chr "L") ->
  cky_parse rules sp Mask_matrix Quote_matrix Dpnd_matrix Para_matrix true OptNbest OptBeam M d = Ret None ->
  fill_chart rules sp Mask_matrix Quote_matrix Dpnd_matrix Para_matrix true OptNbest OptBeam M = Ret None.
Proof.
  intros FM rules sp Mm Qm Dm Pm nbest beam M d Hn HB HL E. unfold cky_parse in E.
  destruct (fill_chart _ _ _ _ _ _ _ _ _ M) as [[ch|]|] eqn:EF; [| reflexivity | discriminate].
  pose proof (chart_complete rules sp Mm Qm Dm Pm nbest beam HL HB M ch Hn EF) as HC.
  destruct (cky_matrix ch 0 (Bnst_num sp - 1)) as [|c l]; [easy|].
  destruct (choose_best _ _) as [bs|]; [|discriminate].
  destruct (after_cky _ _ _ _ _ bs _); discriminate.
Qed.

(** ** Examples *)
Definition leaf_of (z : Z) : CKY := Leaf (mkCD 0 0 z (f64 (-1)) false 0 LtoR 0 (fun _ => 0) 0).

Lemma sort_cky_ptrs_spec_witness : exists l',
  sort_cky_ptrs 2 (map leaf_of [3; 9; 1; 5]) = Ret l' /\
  Permutation (map leaf_of [3; 9; 1; 5]) l' /\
  StronglySorted (fun a b => score b <= score a) (firstn 2 l') /\
  (forall a b, In a (firstn 2 l') -> In b (skipn 2 l') -> score b <= score a).
Proof.
  apply (sort_cky_ptrs_spec 2 (map leaf_of [3; 9; 1; 5])).
  repeat constructor.
Defined.

Definition no_para : Z -> matrix spec_float := fun _ _ _ => f64 (-1).
Definition small_matrix : matrix Z := fun i j =>
  if (i =? 0) && ((j =? 1) || (j =? 3)) then chr "D"
  else if (i =? 1) && (j =? 2) then chr "D"
  else if (i =? 2) && (j =? 3) then chr "D" else 0.

Lemma small_matrix_no_L : forall x y, small_matrix x y <> chr "L".
Proof.
  intros x y. unfold small_matrix.
  destruct ((x =? 0) && _); [discriminate|]. destruct ((x =? 1) && _); [discriminate|].
  destruct ((x =? 2) && _); discriminate.
Qed.

Abbreviation example_cky :=
  (@cky_parse plain_match example_rules example_assigned open_matrix open_matrix small_matrix no_para
     true false 0 (fun _ _ => []) empty_dpnd).

Lemma cky_parse_sound_witness : exists d sc, example_cky = Ret (Some [(d, sc)]) /\
  heads_of d = [3; 2; 3; -1] /\ (head d 0 <= 3 -> head d 1 <= head d 0).
Proof.
  assert (H : match example_cky with
    | Ret (Some [(d, sc)]) => heads_of d = [3; 2; 3; -1]
    | _ => False
    end) by (vm_compute; reflexivity).
  destruct example_cky as [[[|[d sc] [|]]|]|] eqn:E; [elim H | | elim H | elim H | elim H]. exists d, sc.
  split; [reflexivity|]. split; [exact H|]. intros _.
  assert (P : 0 < Bnst_num example_assigned) by (vm_compute; reflexivity).
  assert (F : forall p, 0 <= p < Bnst_num example_assigned - 1 ->
    check_feature (b_f (bnst_data example_assigned p)) "係:無格従属" = None).
  { intros p Hp. change (Bnst_num example_assigned) with 4 in Hp.
    assert (p = 0 \/ p = 1 \/ p = 2) as [-> | [-> | ->]] by lia; vm_compute; reflexivity. }
  destruct (cky_parse_sound plain_match example_rules example_assigned open_matrix open_matrix small_matrix
    no_para true false 0 (fun _ _ => []) empty_dpnd [(d, sc)] P small_matrix_no_L F E) as [S _].
  destruct (S d sc (in_eq _ _)) as [_ [_ C]].
  injection H as H0 _ _ _. apply C; auto; change (Bnst_num example_assigned) with 4; lia.
Defined.

(** The parse of the example could only fail with a full table, which it has not. *)
Lemma cky_parse_complete_witness : example_cky <> Ret None.
Proof.
  intros E.
  assert (P : 0 < Bnst_num example_assigned) by (vm_compute; reflexivity).
  pose proof (cky_parse_complete plain_match example_rules example_assigned open_matrix open_matrix small_matrix
    no_para false 0 (fun _ _ => []) empty_dpnd P (Z.le_refl 0) small_matrix_no_L E) as F.
  assert (H : match @fill_chart plain_match example_rules example_assigned open_matrix open_matrix small_matrix
      no_para true false 0 (fun _ _ => []) with Ret (Some _) => True | _ => False end) by (vm_compute; exact I).
  rewrite F in H. exact H.
Defined.
