(* ===== verification/Frame.v ===== *)
(** * What the phases of the analysis leave alone

    The phases of [one_sentence_analysis] share one sentence.  Each of them
    keeps the number of bunsetsus, their numbers, and the feature by which a
    bunsetsu follows another one (係:無格従属); the phases before the
    coordinations do not touch the sentence at all, and the matrix of
    dependencies never gets an entry for a dependency to the left. *)
From Stdlib Require Import ZArith List Bool String Ascii Lia RelationClasses.
Import ListNotations.
From S2P Require Import Prelude CStr Feature Sentence SemCode CheckFunction Quote Regexp Koou.
From S2P Require Import ParaAnalysis ParaRelation ParaDpnd Tree Coord Dpnd Cky.
Open Scope string_scope.
Open Scope Z_scope.

Definition FOLLOW : string := "係:無格従属".

(** ** Features with other names *)

(** Neither name is a prefix of the other. *)
Definition unrelated (a b : string) : bool := negb (starts_with a b) && negb (starts_with b a).

Lemma comp_feature_prefix : forall cp a, comp_feature cp a = true -> starts_with a cp = true.
Proof.
  intros cp a H. unfold comp_feature in H. apply orb_true_iff in H. destruct H as [H|H].
  - destruct (str_eq_spec cp a) as [->|]; [|discriminate]. apply starts_with_refl.
  - now apply andb_true_iff in H.
Qed.

Lemma prefixes_compare : forall s a b, starts_with a s = true -> starts_with b s = true ->
  starts_with a b = true \/ starts_with b a = true.
Proof.
  induction s as [|c s IH]; intros [|x a] [|y b] Ha Hb; cbn [starts_with] in *; auto; try discriminate.
  apply andb_true_iff in Ha, Hb. destruct Ha as [Ea Ha], Hb as [Eb Hb].
  apply Ascii.eqb_eq in Ea, Eb. subst. rewrite Ascii.eqb_refl. cbn [andb]. auto.
Qed.

Lemma unrelated_comp : forall cp a b, unrelated a b = true -> comp_feature cp a = true -> comp_feature cp b = false.
Proof.
  intros cp a b U H. destruct (comp_feature cp b) eqn:E; [|reflexivity].
  apply comp_feature_prefix in H, E. unfold unrelated in U. apply andb_true_iff in U. destruct U as [U1 U2].
  destruct (prefixes_compare cp a b H E) as [W|W]; rewrite W in *; discriminate.
Qed.

(** A feature with a value does not change the features of another name. *)
Lemma assign_other : forall buf f name v g, feature_key buf (name ++ String colon v) = name ->
  unrelated name g = true ->
  check_feature (fst (assign_cfeature buf f (name ++ String colon v) false)) g = check_feature f g.
Proof.
  intros buf f name v g K U. cbn [fst assign_cfeature]. rewrite K. apply assign_walk_frame.
  - apply (unrelated_comp _ name); [exact U | apply comp_feature_column].
  - intros cp _ H. now apply (unrelated_comp _ name).
Qed.

(** ** The relation *)
Record keeps (sp sp' : SENTENCE_DATA) : Prop := {
  ke_bnst : Bnst_num sp' = Bnst_num sp;
  ke_num : forall i, 0 <= i < Bnst_num sp -> b_num (bnst_data sp' i) = b_num (bnst_data sp i);
  ke_follow : forall i, 0 <= i < Bnst_num sp ->
    check_feature (b_f (bnst_data sp' i)) FOLLOW = check_feature (b_f (bnst_data sp i)) FOLLOW
}.

#[export] Instance keeps_preorder : PreOrder keeps.
Proof.
  split.
  - intros sp. now split.
  - intros a b c [A1 A2 A3] [B1 B2 B3]. rewrite A1 in *.
    split; [congruence | |]; intros i Hi; [rewrite B2, A2 | rewrite B3, A3]; auto.
Qed.

(** Sentences with the same bunsetsus. *)
Definition same_bnsts (sp sp' : SENTENCE_DATA) : Prop :=
  Bnst_num sp' = Bnst_num sp /\ bnst_data sp' = bnst_data sp.

#[export] Instance same_bnsts_preorder : PreOrder same_bnsts.
Proof.
  split.
  - intros sp. now split.
  - intros a b c [A1 A2] [B1 B2]. split; congruence.
Qed.

Lemma same_keeps : forall sp sp', same_bnsts sp sp' -> keeps sp sp'.
Proof. intros sp sp' [H1 H2]. split; intros; congruence. Qed.

(** One bunsetsu changes. *)
Lemma keeps_upd : forall sp i u, (forall b, b_num (u b) = b_num b) ->
  check_feature (b_f (u (bnst_data sp i))) FOLLOW = check_feature (b_f (bnst_data sp i)) FOLLOW ->
  keeps sp (upd_bnst i u sp).
Proof.
  intros sp i u Hn Hf. split; [reflexivity| |]; intros k _; rewrite upd_bnst_at;
    destruct (Z.eqb_spec k i) as [->|]; auto.
Qed.

Lemma keeps_plain_upd : forall sp i u, (forall b, b_num (u b) = b_num b /\ b_f (u b) = b_f b) ->
  keeps sp (upd_bnst i u sp).
Proof. intros sp i u H. apply keeps_upd; [apply H|]. now rewrite (proj2 (H _)). Qed.

(** The loop rule for a reflexive and transitive relation. *)
Lemma fold_left_pre : forall {A S} (R : S -> S -> Prop) `{PreOrder S R} (f : S -> A -> S) l s,
  (forall a s, R s (f s a)) -> R s (fold_left f l s).
Proof.
  intros A S R HR f l. induction l as [|a l IH]; intros s H; cbn; [reflexivity|].
  transitivity (f s a); auto.
Qed.

Lemma fold_res_pre : forall {A S} (R : S -> S -> Prop) `{PreOrder S R} (f : A -> S -> res S) l s s',
  (forall a s s', f a s = Ret s' -> R s s') -> fold_res f l s = Ret s' -> R s s'.
Proof.
  intros A S R HR f l. induction l as [|a l IH]; intros s s' H E; cbn in E; [injection E as <-; reflexivity|].
  destruct (f a s) as [s1|] eqn:E1; [|discriminate]. transitivity s1; eauto.
Qed.

(** Loops over a state with a sentence in it. *)
Lemma fold_left_by : forall {A S T} (R : T -> T -> Prop) `{PreOrder T R} (g : S -> T) (f : S -> A -> S) l s,
  (forall a s, R (g s) (g (f s a))) -> R (g s) (g (fold_left f l s)).
Proof.
  intros A S T R HR g f l. induction l as [|a l IH]; intros s H; cbn; [reflexivity|].
  transitivity (g (f s a)); auto.
Qed.

Lemma fold_res_by : forall {A S T} (R : T -> T -> Prop) `{PreOrder T R} (g : S -> T) (f : A -> S -> res S) l s s',
  (forall a s s', f a s = Ret s' -> R (g s) (g s')) -> fold_res f l s = Ret s' -> R (g s) (g s').
Proof.
  intros A S T R HR g f l. induction l as [|a l IH]; intros s s' H E; cbn in E; [injection E as <-; reflexivity|].
  destruct (f a s) as [s1|] eqn:E1; [|discriminate]. transitivity (g s1); eauto.
Qed.

(** ** The phases before the structure is chosen *)
Lemma assign_rule_keeps : forall (FM : FeatureMatch) rules sp sp', assign_dpnd_rule rules sp = Ret sp' -> keeps sp sp'.
Proof.
  intros FM rules sp sp'. unfold assign_dpnd_rule, for_res. apply (fold_res_pre keeps).
  intros i s s' E. unfold assign_rule_step in E.
  destruct (find_dpnd_rule _ _ _ _) as [[k|]|]; [|destruct (b_dpnd_rule _)|discriminate];
    injection E as <-; try reflexivity; now apply keeps_plain_upd.
Qed.

Lemma set_level_keeps : forall i sp, keeps sp (set_level i sp).
Proof.
  intros i sp. unfold set_level. destruct (check_feature _ _) as [cp|]; [destruct (level_field _ _)|];
    try reflexivity; now apply keeps_plain_upd.
Qed.

Lemma no_para_num_keeps : forall i sp, keeps sp (no_para_num i sp).
Proof. intros. now apply keeps_plain_upd. Qed.

Lemma set_para_key_keeps : forall sp i cp sp', set_para_key sp i cp = Ret sp' -> keeps sp sp'.
Proof.
  intros sp i cp sp' E. unfold set_para_key in E. destruct (key_fields cp) as [type condition].
  destruct (_ || _); [discriminate|]. destruct (_ <? _); [discriminate|].
  destruct (string2feature_pattern condition) as [fp|]; [|discriminate]. injection E as <-.
  transitivity (upd_bnst i (fun b => set_b_para_key_type (key_type type (b_para_key_type (bnst_data sp i)))
    (set_b_para_num (Para_num sp) b)) sp); [now apply keeps_plain_upd | now apply same_keeps].
Qed.

Lemma para_keys_keeps : forall l sp tm sp', para_keys false l sp = Ret (tm, sp') -> keeps sp sp'.
Proof.
  induction l as [|i l IH]; intros sp tm sp' E; cbn [para_keys negb orb] in E; [injection E as <- <-; reflexivity|].
  destruct (check_feature _ _) as [cp|].
  - destruct (set_para_key sp i cp) as [sp1|] eqn:E1; [|discriminate]. apply set_para_key_keeps in E1.
    transitivity sp1; [exact E1|]. destruct (PARA_MAX <=? _); [|now apply (IH _ tm)].
    injection E as <- <-. apply (fold_left_pre keeps). intros. apply no_para_num_keeps.
  - transitivity (no_para_num i sp); [apply no_para_num_keeps | now apply (IH _ tm)].
Qed.

Lemma check_para_key_keeps : forall sp r sp', check_para_key false sp = Ret (r, sp') -> keeps sp sp'.
Proof.
  intros sp r sp' E. unfold check_para_key in E.
  destruct (para_keys _ _ _) as [[tm sp1]|] eqn:E1; [|discriminate]. apply para_keys_keeps in E1.
  transitivity sp1; [exact E1|]. destruct tm; [injection E as <- <-; reflexivity|].
  destruct (Para_num sp1 =? 0); injection E as <- <-; [reflexivity|].
  apply (fold_left_pre keeps). intros. apply set_level_keeps.
Qed.

(** [sp] gets a feature of another name at bunsetsu [i]. *)
Lemma assign_keeps : forall sp buf i name v, feature_key buf (name ++ String colon v) = name ->
  unrelated name FOLLOW = true ->
  keeps sp (upd_bnst i (set_b_f (fst (assign_cfeature buf (b_f (bnst_data sp i)) (name ++ String colon v) false))) sp).
Proof.
  intros sp buf i name v K U. apply keeps_upd; [reflexivity|]. cbn [b_f set_b_f]. now apply assign_other.
Qed.

Lemma similarity_keeps : forall sp buf, keeps sp (fst (assign_para_similarity_feature sp buf)).
Proof.
  intros sp buf. unfold assign_para_similarity_feature, for_up.
  apply (fold_left_by keeps fst (fun st i => let '(sp, buf) := st in
    let '(f, buf) := assign_cfeature buf (b_f (bnst_data sp (p_key_pos (para_data sp i))))
       ("並列類似度:" ++ printf_3f (p_max_score (para_data sp i))) false in
    (upd_bnst (p_key_pos (para_data sp i)) (set_b_f f) sp, buf)) (zrange 0 (Para_num sp)) (sp, buf)).
  intros i [s b]. cbn [fst assign_cfeature].
  apply (assign_keeps s b (p_key_pos (para_data s i)) "並列類似度" (printf_3f (p_max_score (para_data s i)))); reflexivity.
Qed.

(** ** The relations between the coordinations *)
Lemma init_para_manager_same : forall sp, same_bnsts sp (init_para_manager sp).
Proof.
  intros sp. unfold init_para_manager, for_up. transitivity (set_Para_M_num 0 sp); [now split|].
  apply (fold_left_pre same_bnsts). intros. now split.
Qed.

Lemma add_brother_same : forall rel i m j st, same_bnsts (snd st) (snd (add_brother rel i m j st)).
Proof.
  intros rel i m j [ok sp]. unfold add_brother. destruct (_ || _); [reflexivity|].
  destruct (full _ _); now split.
Qed.

Lemma collect_same : forall rel i st, same_bnsts (snd st) (snd (collect_brothers rel i st)).
Proof.
  intros rel i [ok sp]. unfold collect_brothers. destruct (_ || _); [reflexivity|].
  destruct (p_manager_ptr (para_data sp i)) as [m|]; unfold for_up.
  - apply (fold_left_by same_bnsts snd _ _ (true, sp)). intros. apply add_brother_same.
  - transitivity (snd (new_manager i sp)); [unfold new_manager; destruct (full _ _); now split|].
    apply (fold_left_by same_bnsts snd). intros. apply add_brother_same.
Qed.

Lemma set_parent_same : forall rel p c sp, same_bnsts sp (snd (set_parent rel p c sp)).
Proof.
  intros rel p c sp. unfold set_parent. destruct (pm_parent _) as [old|]; [|now split].
  destruct (old =? p); [reflexivity|]. destruct (nearer _ _) as [[|]|]; now split.
Qed.

Lemma relate_same : forall rel i j st st', relate rel i j st = Ret st' -> same_bnsts (snd st) (snd st').
Proof.
  intros rel i j [ok sp] st' E. unfold relate in E. destruct (_ || _); [injection E as <-; reflexivity|].
  destruct (p_manager_ptr _); [|discriminate]. destruct (p_manager_ptr _); [|discriminate].
  injection E as <-. apply set_parent_same.
Qed.

Lemma build_managers_same : forall rel sp ok sp', build_managers rel sp = Ret (ok, sp') -> same_bnsts sp sp'.
Proof.
  intros rel sp ok sp' E. unfold build_managers in E.
  pose proof (fold_left_by same_bnsts snd (fun st i => collect_brothers rel i st) (zrange 0 (Para_num sp)) (true, sp)
    (fun i st => collect_same rel i st)) as H. unfold for_up in E.
  destruct (fold_left _ _ _) as [ok1 sp1]. cbn [snd] in H. transitivity sp1; [exact H|].
  destruct ok1; cbn [negb] in E; [|now injection E as <- <-].
  change sp1 with (snd (true, sp1)). change sp' with (snd (ok, sp')). revert E. apply (fold_res_by same_bnsts snd).
  intros i s s' Es. unfold relate_row in Es. destruct (failed _); [injection Es as <-; reflexivity|].
  revert Es. apply (fold_res_by same_bnsts snd). intros. now apply (relate_same rel i a).
Qed.

Lemma revise_manager_same : forall m sp, same_bnsts sp (revise_manager m sp).
Proof. intros m sp. unfold revise_manager. repeat match goal with |- context [if ?b then _ else _] => destruct b end; now split. Qed.

Lemma para_revise_scope_same : forall f m sp sp', para_revise_scope f m sp = Ret sp' -> same_bnsts sp sp'.
Proof.
  induction f as [|f IH]; intros m sp sp' E; cbn [para_revise_scope] in E; [discriminate|].
  destruct (_ =? 0); [injection E as <-; reflexivity|].
  destruct (for_res _ _ _ _) as [sp1|] eqn:E1; [|discriminate]. injection E as <-.
  transitivity sp1; [|apply revise_manager_same]. revert E1. apply (fold_res_pre same_bnsts). intros. eapply IH; eauto.
Qed.

Lemma revise_roots_same : forall sp sp', revise_roots sp = Ret sp' -> same_bnsts sp sp'.
Proof.
  intros sp sp'. apply (fold_res_pre same_bnsts). intros i s s' E.
  destruct (pm_parent _); [injection E as <-; reflexivity | now apply para_revise_scope_same in E].
Qed.

Lemma conjunct_keeps : forall m j st, keeps (fst st) (fst (assign_conjunct m j st)).
Proof.
  intros m j [sp buf]. unfold assign_conjunct, conjunct_features. cbn [fold_left fst assign_cfeature].
  set (k1 := feature_key buf ("並結句数:" ++ itoa (pm_part_num m))).
  set (sp1 := upd_bnst (pm_end m j) (set_b_f (assign_walk k1 ("並結句数:" ++ itoa (pm_part_num m)) false
                (b_f (bnst_data sp (pm_end m j))))) sp).
  transitivity sp1.
  - apply (assign_keeps sp buf (pm_end m j) "並結句数" (itoa (pm_part_num m))); reflexivity.
  - apply (assign_keeps sp1 k1 (pm_end m j) "並結文節数" (itoa (pm_end m 1 - pm_start m 1 + 1))); reflexivity.
Qed.

Lemma conjuncts_keeps : forall sp buf, keeps sp (fst (conjuncts_to_features sp buf)).
Proof.
  intros sp buf. unfold conjuncts_to_features, for_up. apply (fold_left_by keeps fst _ _ (sp, buf)).
  intros i st. apply (fold_left_by keeps fst). intros. apply conjunct_keeps.
Qed.

(** What [detect_para_relation] respects: what its features and changes of the managers respect. *)
Lemma detect_relation_pre : forall (R : SENTENCE_DATA -> SENTENCE_DATA -> Prop) `{PreOrder _ R},
  (forall sp sp', same_bnsts sp sp' -> R sp sp') ->
  (forall sp buf, R sp (fst (conjuncts_to_features sp buf))) ->
  forall st ok st', detect_para_relation st = Ret (ok, st') -> R (rs_sp st) (rs_sp st').
Proof.
  intros R HR HS HC [sp rel restrict rev buf] ok st' E. unfold detect_para_relation in E. cbn [rs_sp].
  destruct (locate _ _ _) as [rel1 [[i j]|]].
  { destruct (revise_para_rel _ _ _ _). injection E as <- <-. reflexivity. }
  transitivity (init_para_manager sp); [apply HS, init_para_manager_same|].
  destruct (build_managers _ _) as [[ok1 sp1]|] eqn:E1; [|discriminate]. apply build_managers_same in E1.
  transitivity sp1; [now apply HS|].
  destruct ok1; cbn [negb] in E; [|injection E as <- <-; reflexivity].
  destruct (revise_roots sp1) as [sp2|] eqn:E2; [|discriminate]. apply revise_roots_same in E2.
  transitivity sp2; [now apply HS|].
  set (sp3 := for_up _ _ _ _) in E. transitivity sp3.
  { apply HS, (fold_left_pre same_bnsts). intros. now split. }
  clearbody sp3. pose proof (HC sp3 buf) as H.
  destruct (conjuncts_to_features sp3 buf) as [sp4 buf4]. injection E as <- <-. exact H.
Qed.

Lemma detect_relation_keeps : forall st ok st', detect_para_relation st = Ret (ok, st') ->
  keeps (rs_sp st) (rs_sp st').
Proof. apply (detect_relation_pre keeps); [apply same_keeps | apply conjuncts_keeps]. Qed.

(** ** The scopes *)

(** Only the table of the coordinations changes. *)
Definition only_scopes (sp sp' : SENTENCE_DATA) : Prop := sp' = set_para_data (para_data sp') sp.

#[export] Instance only_scopes_preorder : PreOrder only_scopes.
Proof.
  split.
  - intros []. reflexivity.
  - intros a b c H1 H2. unfold only_scopes in *. rewrite H1 in H2. destruct a. exact H2.
Qed.

Lemma only_scopes_same : forall sp sp', only_scopes sp sp' -> same_bnsts sp sp'.
Proof. intros sp sp' ->. now split. Qed.

Lemma _detect_only : forall (FM : FeatureMatch) match_matrix penalty num jend st st',
  _detect_para_scope false match_matrix penalty num jend st = Ret st' -> only_scopes (ss_sp st) (ss_sp st').
Proof.
  intros FM mm penalty num jend [sp restrict Para dp] st' E. unfold _detect_para_scope in E. cbn [ss_sp].
  repeat (case_hyp E; try discriminate; try (injection E as <-; reflexivity)).
Qed.

Lemma detect_scope_only : forall (FM : FeatureMatch) match_matrix parsed qd num rp st st',
  detect_para_scope false match_matrix parsed qd num rp st = Ret st' -> only_scopes (ss_sp st) (ss_sp st').
Proof.
  intros FM mm parsed qd num rp [sp restrict Para dp] st' E. unfold detect_para_scope in E. cbn [ss_sp].
  set (sp1 := upd_para num _ sp) in E. destruct (mask_quote_scope _ _ _ _) as [r1|]; [|discriminate].
  match type of E with match ?x with _ => _ end = _ => destruct x as [st1|] eqn:E1; [|discriminate] end.
  assert (S1 : only_scopes sp1 (ss_sp st1)).
  { destruct parsed; [now apply _detect_only in E1|]. revert E1.
    apply (fold_res_by only_scopes ss_sp _ _ (mkSS sp1 r1 Para dp)). intros. eapply _detect_only; eauto. }
  transitivity sp1; [reflexivity|]. transitivity (ss_sp st1); [exact S1|].
  destruct (_ && _); injection E as <-; reflexivity.
Qed.

(** ** No dependency to the left *)
Definition no_left (m : matrix Z) : Prop := forall x y, m x y <> chr "L".

Lemma zero_right : 0 <> chr "L". Proof. vm_compute. discriminate. Qed.
Lemma relaxed_right : chr "R" <> chr "L". Proof. vm_compute. discriminate. Qed.
#[local] Hint Resolve zero_right relaxed_right : knp.

Lemma no_left_mset : forall m i j v, v <> chr "L" -> no_left m -> no_left (mset m i j v).
Proof. intros m i j v Hv H x y. unfold mset. destruct (_ && _); auto. Qed.

Lemma no_left_zero : forall i0 i1 j0 j1 m, no_left m -> no_left (fill_rect i0 i1 j0 j1 0 m).
Proof. intros i0 i1 j0 j1 m H x y. rewrite fill_rect_at. destruct (_ && _); [apply zero_right | apply H]. Qed.

Lemma no_left_for : forall lo hi (f : Z -> matrix Z -> matrix Z) m,
  (forall i m, no_left m -> no_left (f i m)) -> no_left m -> no_left (for_up lo hi f m).
Proof. intros lo hi f m Hf H. unfold for_up. apply (fold_left_inv _ no_left); auto. Qed.

#[local] Hint Resolve no_left_zero no_left_for no_left_mset : knp.

(** The rules of dependency and of correlative expressions name no such type. *)
Definition rules_right (rules : list DpndRule) : Prop :=
  forall r fr t, In r rules -> In (fr, t) (governors r) -> t <> chr "L".

Definition koou_right (rules : list KoouRule) (t : koou_tables) : Prop :=
  (forall r, In r rules -> kr_dpnd_type r <> chr "L") /\ no_left (Koou_dpnd_matrix t).

Section NoLeft.
Context `{FM : FeatureMatch} `{G : Grammar}.

Lemma governor_type_right : forall sp i j gs n, (forall fr t, In (fr, t) gs -> t <> chr "L") ->
  governor_type sp i j gs = Ret n -> n <> chr "L".
Proof.
  induction gs as [|[fr t] gs IH]; intros n H E; cbn [governor_type] in E; [injection E as <-; apply zero_right|].
  destruct (feature_pattern_matches _ _ _ _ _) as [[|]|]; [|apply (IH n); [|exact E]; intros fr' t' Hin; apply (H fr' t'); now right|discriminate].
  injection E as <-. apply (H fr). now left.
Qed.

Lemma calc_dpnd_right : forall rules sp m m', rules_right rules -> calc_dpnd_matrix rules sp m = Ret m' ->
  no_left m -> no_left m'.
Proof.
  intros rules sp m m' HR E H. revert E. apply (fold_res_inv no_left); [|exact H].
  intros i s s' _ Hs. apply (fold_res_inv no_left); [|exact Hs].
  intros j m1 m2 _ H1 E. unfold calc_dpnd_cell in E. destruct (rule_of rules sp i) as [r|] eqn:ER; [|discriminate].
  destruct (governor_type _ _ _ _) as [n|] eqn:EG; [|discriminate]. injection E as <-.
  apply no_left_mset; [|exact H1]. eapply governor_type_right; [|exact EG]. intros fr t. apply HR.
  unfold rule_of in ER. destruct (b_dpnd_rule _) as [k|]; [|discriminate].
  destruct (nth_error rules (Z.to_nat k)) as [r'|] eqn:EN; [|discriminate].
  destruct (k <? 0); [discriminate|]. inv ER. now apply nth_error_In in EN.
Qed.

Lemma koou_right_ok : forall sp krules t m flag t' m', koou_right krules t ->
  koou sp false krules t m = Ret (flag, t', m') -> no_left m -> no_left m' /\ koou_right krules t'.
Proof.
  intros sp krules t m flag t' m' [HR HT] E H. unfold koou in E.
  destruct (check_koou _ _ _ _) as [[fl t1]|] eqn:EC; [|discriminate]. injection E as _ <- <-.
  assert (H1 : no_left (Koou_dpnd_matrix t1)).
  { change t1 with (snd (fl, t1)). revert EC. apply (fold_res_inv (fun st => no_left (Koou_dpnd_matrix (snd st)))).
    - intros i st st' _ Hs. apply (fold_res_inv (fun st => no_left (Koou_dpnd_matrix (snd st)))); [|exact Hs].
      intros r s s' Hr Hk E. unfold koou_rule_at in E. destruct (bnst_matches _ _ _) as [b|]; [|discriminate].
      destruct (b && _); [|now injection E as <-]. revert E.
      apply (fold_res_inv (fun st => no_left (Koou_dpnd_matrix (snd st)))); [|exact Hk].
      intros k [f [mp km kd]] s2 _ Hd E. unfold koou_step in E. cbn [snd Koou_dpnd_matrix] in Hd.
      repeat (case_hyp E; try discriminate; try (injection E as <-; cbn [snd Koou_dpnd_matrix]; auto with knp)).
    - cbn [snd init_koou Koou_dpnd_matrix]. apply no_left_zero. exact HT. }
  split; [|split; [exact HR | exact H1]].
  unfold change_matrix. apply no_left_for; [|exact H]. intros i mm Hm. unfold change_row.
  destruct (koou_m_p t1 i); [|exact Hm].
  assert (H2 : no_left (snd (for_up i (Bnst_num sp) (change_entry t1 i) (-1, -1, mm)))).
  { unfold for_up. apply (fold_left_inv _ (fun st => no_left (snd st))); [|exact Hm].
    intros j [[a b] mx] _ Hx. unfold change_entry. cbn [snd] in Hx.
    destruct (0 <? Koou_matrix t1 i j); [|cbn [snd]; apply no_left_mset; [apply zero_right|exact Hx]].
    destruct (note_end _ _ _ _ _). cbn [snd]. apply no_left_mset; auto. }
  destruct (for_up i _ _ _) as [[a b] mx]. cbn [snd] in H2. unfold mask_back, mask_for. auto with knp.
Qed.

Lemma relax_right : forall sp Q m, no_left m -> no_left (snd (relax_dpnd_matrix sp Q m)).
Proof.
  intros sp Q m H. unfold relax_dpnd_matrix, for_up. apply (fold_left_inv _ (fun st => no_left (snd st))); [|exact H].
  intros i [f mm] _ Hm. unfold relax_row. destruct (relax_search _ _ _ _ _ _) as [ok last]. cbn [snd] in Hm.
  repeat case_goal; cbn [snd]; auto. apply no_left_mset; [apply relaxed_right|exact Hm].
Qed.

(** ** The dependencies inside the coordinations *)
Lemma accept_dpnd : forall sp m s b st, Dpnd_matrix (accept sp m s b st) = Dpnd_matrix st.
Proof. intros sp m s b []. reflexivity. Qed.

Lemma kakari_dpnd : forall sp Q n st st', revise_para_kakari sp Q n st = Ret st' -> Dpnd_matrix st' = Dpnd_matrix st.
Proof.
  intros sp Q n [] st' E. unfold revise_para_kakari in E. repeat (case_hyp E; try discriminate); now injection E as <-.
Qed.

Lemma reject_dpnd : forall sp Q m s e st b st', reject sp Q m s e st = Ret (b, st') -> Dpnd_matrix st' = Dpnd_matrix st.
Proof.
  intros sp Q m s e st b st' E. unfold reject in E. destruct (_ =? -1).
  - injection E as _ <-. apply accept_dpnd.
  - destruct (revise_para_kakari _ _ _ _) as [st1|] eqn:EK; [|discriminate]. injection E as _ <-. now apply kakari_dpnd in EK.
Qed.

Lemma check_manager_right : forall sp Q m st b st', check_manager sp Q m st = Ret (b, st') ->
  no_left (Dpnd_matrix st) -> no_left (Dpnd_matrix st').
Proof.
  intros sp Q m [chk found mask dm restrict rev] b st' E H. unfold check_manager in E. cbn [Dpnd_matrix] in H.
  set (dm1 := copy_dependencies sp m dm) in E.
  assert (H1 : no_left dm1).
  { unfold dm1, copy_dependencies. destruct (_ && _); [|exact H]. apply no_left_for; [|exact H]. intros k mk Hk.
    apply no_left_for; [|exact Hk]. intros i mi Hi. destruct (_ && _); auto with knp. }
  clearbody dm1. destruct (check_conjuncts _ _ _ _ _ _ _) as [[s e] f].
  assert (A : forall b' s', Dpnd_matrix s' = dm1 -> Ret (b', s') = Ret (b, st') -> no_left (Dpnd_matrix st')).
  { intros b' s' Hd Es. injection Es as _ <-. now rewrite Hd. }
  destruct (existsb _ _); [|eapply A; [|exact E]; reflexivity].
  assert (R : forall st1, Dpnd_matrix st1 = dm1 -> reject sp Q m s e st1 = Ret (b, st') -> no_left (Dpnd_matrix st')).
  { intros st1 Hd Er. apply reject_dpnd in Er. now rewrite Er, Hd. }
  destruct (_ =? chr "s"); [|eapply R; [|exact E]; reflexivity].
  destruct (same_errors _ _ _ _ _) as [[|]|]; [eapply A; [|exact E]; reflexivity | eapply R; [|exact E]; reflexivity | discriminate].
Qed.

Lemma check_para_right : forall sp Q f m st b st', check_para_d_struct sp Q f m st = Ret (b, st') ->
  no_left (Dpnd_matrix st) -> no_left (Dpnd_matrix st').
Proof.
  intros sp Q. induction f as [|f IH]; intros m st b st' E H; cbn [check_para_d_struct] in E; [discriminate|].
  destruct (fold_res _ _ _) as [[ok st1]|] eqn:E1; [|discriminate].
  assert (H1 : no_left (Dpnd_matrix (snd (ok, st1)))).
  { revert E1. apply (fold_res_inv (fun bs => no_left (Dpnd_matrix (snd bs)))); [|exact H].
    intros c [o s] s' _ Hs Es. cbn [fst snd] in *. destruct o; [|now injection Es as <-].
    destruct s' as [o' s']. eapply IH; eauto. }
  destruct ok; [eapply check_manager_right; eauto | injection E as _ <-; exact H1].
Qed.

Lemma check_dpnd_right : forall sp Q st b st', check_dpnd_in_para sp Q st = Ret (b, st') ->
  no_left (Dpnd_matrix st) -> no_left (Dpnd_matrix st').
Proof.
  intros sp Q [chk found mask dm restrict rev] b st' E H. unfold check_dpnd_in_para in E.
  change st' with (snd (b, st')). revert E. apply (fold_res_inv (fun bs => no_left (Dpnd_matrix (snd bs)))); [|exact H].
  intros i [o s] [o' s'] _ Hs E. cbn [fst snd] in *. destruct o; [|now injection E as _ <-].
  destruct (pm_parent _); [now injection E as _ <- | eapply check_para_right; eauto].
Qed.
End NoLeft.

(** ** The managers of the coordinations

    A sentence has no managers, or those of the last success of
    [detect_para_relation]. *)
Record managed (sp : SENTENCE_DATA) : Prop := {
  mg_num : 0 <= Para_M_num sp < PARA_PART_MAX;
  mg_linked : linked sp;
  mg_parts : forall m, 0 <= m < Para_M_num sp -> 2 <= pm_part_num (para_manager sp m);
  mg_kids : forall m, 0 <= m < Para_M_num sp -> NoDup (kids (para_manager sp m));
  mg_ends : forall m k, 0 <= m < Para_M_num sp -> 0 <= k < pm_part_num (para_manager sp m) ->
    0 <= pm_end (para_manager sp m) k /\
    (k + 1 < pm_part_num (para_manager sp m) -> pm_end (para_manager sp m) k < pm_end (para_manager sp m) (k + 1))
}.

Definition same_managers (sp sp' : SENTENCE_DATA) : Prop :=
  Para_M_num sp' = Para_M_num sp /\ para_manager sp' = para_manager sp.

#[export] Instance same_managers_preorder : PreOrder same_managers.
Proof.
  split.
  - intros sp. now split.
  - intros a b c [A1 A2] [B1 B2]. split; congruence.
Qed.

Lemma managed_same : forall sp sp', same_managers sp sp' -> managed sp -> managed sp'.
Proof.
  intros sp sp' [E1 E2] [M1 M2 M3 M4 M5]. split; rewrite ?E1, ?E2; auto.
  unfold linked in *. rewrite E1, E2. exact M2.
Qed.

Lemma no_managers : forall sp, Para_M_num sp = 0 -> managed sp.
Proof. intros sp E. split; unfold linked; rewrite ?E; intros; unfold PARA_PART_MAX; lia. Qed.

Lemma only_scopes_managers : forall sp sp', only_scopes sp sp' -> same_managers sp sp'.
Proof. intros sp sp' ->. now split. Qed.

Lemma similarity_managers : forall sp buf, same_managers sp (fst (assign_para_similarity_feature sp buf)).
Proof.
  intros sp buf. unfold assign_para_similarity_feature, for_up.
  apply (fold_left_inv _ (fun st => same_managers sp (fst st))); [|now split].
  intros i [s b] _ H. destruct (assign_cfeature _ _ _ _) as [f b']. exact H.
Qed.

(** The managers of a success. *)
Lemma detected_managed : forall n st st', numbered (rs_sp st) -> scoped n (rs_sp st) ->
  detect_para_relation st = Ret (true, st') -> managed (rs_sp st').
Proof.
  intros n st st' HN HS E. pose proof (detected_managers st st' HN E) as (_ & _ & HI & HM). specialize (HI n HS). destruct HI as [HI _].
  destruct st as [sp rel restrict rev buf]. cbn [rs_sp] in *.
  destruct (detect_cases sp rel restrict rev buf HN) as [[i [j [st1 [_ [_ [_ E1]]]]]]|[st1 [_ [E1 F]]]];
    rewrite E1 in E; [discriminate|]. injection E as ->.
  assert (C : 0 <= Para_M_num (rs_sp st') < PARA_PART_MAX).
  { destruct F as [sp1 [sp2 [sp3 [C [F [_ [R [_ [_ [P2 _]]]]]]]]]]. pose proof (co_count _ _ _ C) as H.
    rewrite P2, (re_count _ _ R), (proj2 (fo_num _ _ _ _ F)). destruct HN as [HN _]. lia. }
  split; [exact C | apply (finished_linked _ _ F) | intros m Hm; apply HM; lia | intros m Hm; apply HM; lia|].
  intros m k Hm Hk. destruct (HM m Hm) as ([P1 _] & P2 & P3 & _ & _). destruct (HI m Hm) as (I1 & _ & I3 & _).
  destruct (I3 k Hk) as [J1 _]. split; [lia|]. intros Hk1. destruct (P3 k ltac:(lia)) as [_ P4].
  destruct (I3 (k + 1) ltac:(lia)) as [J2 _]. lia.
Qed.

Section Rounds.
Context `{FM : FeatureMatch} (match_matrix Quote_matrix : matrix Z) (qd : QUOTE_DATA).

(** What a round does, whatever its verdict. *)
Record round_frame (st st' : coord_state) : Prop := {
  rf_keeps : keeps (k_sp st) (k_sp st');
  rf_left : no_left (k_dpnd st) -> no_left (k_dpnd st')
}.

#[export] Instance round_frame_preorder : PreOrder round_frame.
Proof.
  split.
  - intros st. split; [reflexivity | auto].
  - intros a b c [A1 A2] [B1 B2]. split; [now transitivity (k_sp b) | auto].
Qed.

Lemma para_round_frame : forall st v st', para_round Quote_matrix st = Ret (v, st') -> round_frame st st'.
Proof.
  intros [[sp restrict Para dp] rel chk found mask dm rev buf] v st' E. unfold para_round in E.
  pose proof (similarity_keeps sp buf) as KS. destruct (assign_para_similarity_feature sp buf) as [sp1 buf1].
  cbn [fst] in KS. destruct (detect_para_relation _) as [[ok rs]|] eqn:ED; [|discriminate].
  apply detect_relation_keeps in ED. destruct rs as [sp2 rel2 restrict2 rev2 buf2]. cbn [rs_sp] in ED.
  assert (K : keeps sp sp2) by now transitivity sp1.
  destruct ok; cbn [negb] in E; [|injection E as _ <-; split; [exact K | auto]].
  destruct (check_dpnd_in_para _ _ _) as [[ok2 ds]|] eqn:EC; [|discriminate].
  pose proof (check_dpnd_right _ _ _ _ _ EC) as R. destruct ds as [chk3 found3 mask3 dm3 restrict3 rev3].
  cbn [Dpnd_matrix] in R. destruct ok2; injection E as _ <-; split; assumption.
Qed.

Lemma para_round_managed : forall st v st', ready (k_sp st) -> managed (k_sp st) ->
  para_round Quote_matrix st = Ret (v, st') -> managed (k_sp st').
Proof.
  intros [[sp restrict Para dp] rel chk found mask dm rev buf] v st' HR HM E. unfold para_round in E.
  pose proof (similarity_managers sp buf) as KS. destruct (similarity_same sp buf) as [SS _].
  destruct (assign_para_similarity_feature sp buf) as [sp1 buf1]. cbn [fst] in *.
  destruct (ready_same sp sp1 HR SS) as [[HN _] HS]. apply (managed_same sp sp1 KS) in HM.
  destruct (detect_para_relation _) as [[ok rs]|] eqn:ED; [|discriminate].
  destruct ok.
  - apply (detected_managed BNST_MAX) in ED; [|exact HN|exact HS].
    destruct rs as [sp2 rel2 restrict2 rev2 buf2]. cbn [rs_sp negb] in *.
    destruct (check_dpnd_in_para _ _ _) as [[ok2 ds]|]; [|discriminate].
    destruct ds as [chk3 found3 mask3 dm3 restrict3 rev3]. destruct ok2; injection E as _ <-; exact ED.
  - apply (detect_fails _ _ _ _ _ _ HN) in ED. destruct ED as [ES _].
    destruct rs as [sp2 rel2 restrict2 rev2 buf2]. cbn [rs_sp negb] in *. injection E as _ <-.
    unfold k_sp. cbn [k_scope ss_sp]. now rewrite ES.
Qed.

Lemma detect_again_only : forall st st', detect_again match_matrix qd st = Ret st' ->
  only_scopes (k_sp st) (k_sp st') /\ k_dpnd st' = k_dpnd st.
Proof.
  intros [sc rel chk found mask dm rev buf] st' E. unfold detect_again in E.
  destruct (within _ _ _); [|discriminate].
  destruct (detect_para_scope _ _ _ _ _ _ _) as [sc1|] eqn:E1; [|discriminate]. injection E as <-.
  split; [now apply detect_scope_only in E1 | reflexivity].
Qed.

Lemma para_rounds_frame : forall f re de st o st',
  para_rounds match_matrix Quote_matrix qd f re de st = Ret (o, st') -> round_frame st st'.
Proof.
  induction f as [|f IH]; intros re de st o st' E; cbn [para_rounds] in E; [discriminate|].
  destruct (para_round Quote_matrix st) as [[v st1]|] eqn:ER; [|discriminate]. apply para_round_frame in ER.
  transitivity st1; [exact ER|].
  assert (A : forall re de, (if (re <=? 3) && (de <=? 3)
      then st <- detect_again match_matrix qd st1 ;; para_rounds match_matrix Quote_matrix qd f re de st
      else Ret (GivenUp, give_up_para st1)) = Ret (o, st') -> round_frame st1 st').
  { clear E. intros re' de' EA. destruct ((re' <=? 3) && (de' <=? 3)).
    - destruct (detect_again _ _ _) as [st2|] eqn:E2; [|discriminate]. apply detect_again_only in E2.
      transitivity st2; [|eapply IH; exact EA]. destruct E2 as [E2 E3].
      split; [now apply same_keeps, only_scopes_same | now rewrite E3].
    - injection EA as _ <-. destruct st1. split; [reflexivity | auto]. }
  destruct v; [injection E as _ <-; reflexivity | apply A in E; exact E | apply A in E; exact E].
Qed.

Lemma para_rounds_managed : forall f re de st o st', ready (k_sp st) -> managed (k_sp st) ->
  para_rounds match_matrix Quote_matrix qd f re de st = Ret (o, st') -> managed (k_sp st').
Proof.
  induction f as [|f IH]; intros re de st o st' HR HM E; cbn [para_rounds] in E; [discriminate|].
  destruct (para_round_spec Quote_matrix st HR) as (v & st1 & ER & R). rewrite ER in E.
  apply (para_round_managed _ _ _ HR HM) in ER.
  assert (A : forall re de, ready (k_sp st1) -> 0 <= k_revised st1 < Para_num (k_sp st1) ->
      (if (re <=? 3) && (de <=? 3)
      then st <- detect_again match_matrix qd st1 ;; para_rounds match_matrix Quote_matrix qd f re de st
      else Ret (GivenUp, give_up_para st1)) = Ret (o, st') -> managed (k_sp st')).
  { clear E. intros re' de' HR1 Hv EA. destruct ((re' <=? 3) && (de' <=? 3)).
    - destruct (detect_again_spec match_matrix qd st1 HR1 Hv) as [[st2 [E2 HR2]]|[e [E2 _]]]; rewrite E2 in EA; [|discriminate].
      eapply IH; [exact HR2| |exact EA]. apply detect_again_only in E2.
      apply (managed_same (k_sp st1)); [now apply only_scopes_managers | exact ER].
    - injection EA as _ <-. destruct st1. exact ER. }
  destruct R as [st1 HR1 Hv|st1 HR1 Hv|st1 s _ _ _ _ _ _]; [now apply A in E | now apply A in E |].
  injection E as _ <-. exact ER.
Qed.
End Rounds.

(** ** The analysis of the coordinations *)
Section Coordination.
Context `{FM : FeatureMatch} (match_matrix Quote_matrix : matrix Z) (qd : QUOTE_DATA).

Lemma detect_all_only : forall sc sc', detect_all_para_scope false match_matrix false qd sc = Ret sc' ->
  only_scopes (ss_sp sc) (ss_sp sc').
Proof.
  intros sc sc' E. revert E. apply (fold_res_by only_scopes ss_sp). intros. eapply detect_scope_only; eauto.
Qed.

Lemma coordination_frame : forall st o st', coordination match_matrix Quote_matrix qd st = Ret (o, st') ->
  round_frame st st'.
Proof.
  intros [[sp restrict Para dp] rel chk found mask dm rev buf] o st' E. unfold coordination in E.
  destruct (check_para_key _ _) as [[flag sp1]|] eqn:EK; [|discriminate]. apply check_para_key_keeps in EK.
  assert (K : keeps sp sp1) by (transitivity (set_Para_M_num 0 (set_Para_num 0 sp)); [now apply same_keeps | exact EK]).
  destruct (0 <? flag).
  - destruct (detect_all_para_scope _ _ _ _ _) as [sc|] eqn:ES; [|discriminate]. apply detect_all_only in ES.
    apply para_rounds_frame in E. cbn [ss_sp] in ES.
    transitivity (mkCo sc rel chk found (init_mask_matrix sp mask) dm (-1) buf); [|exact E].
    split; [|auto]. transitivity sp1; [exact K | now apply same_keeps, only_scopes_same].
  - injection E as _ <-. split; [exact K | auto].
Qed.

(** The scopes that are searched start at or before their keys. *)
Definition keys_before (sp : SENTENCE_DATA) : Prop := forall flag sp1,
  check_para_key false (set_Para_M_num 0 (set_Para_num 0 sp)) = Ret (flag, sp1) ->
  forall i, 0 <= i < Para_num sp1 -> p_iend_pos (para_data sp1 i) <= p_key_pos (para_data sp1 i).

Lemma para_keys_managers : forall l sp tm sp', para_keys false l sp = Ret (tm, sp') -> same_managers sp sp'.
Proof.
  induction l as [|i l IH]; intros sp tm sp' E; cbn [para_keys negb orb] in E; [injection E as <- <-; reflexivity|].
  destruct (check_feature _ _) as [cp|].
  - destruct (set_para_key sp i cp) as [sp1|] eqn:E1; [|discriminate]. unfold set_para_key in E1.
    destruct (key_fields cp). destruct (_ || _); [discriminate|]. destruct (_ <? _); [discriminate|].
    destruct (string2feature_pattern _); [|discriminate]. injection E1 as <-.
    destruct (PARA_MAX <=? _).
    + injection E as _ <-.
      etransitivity; [|apply (fold_left_pre same_managers); intros; now split]. now split.
    + apply IH in E. destruct E as [E1 E2]. now split.
  - apply IH in E. destruct E as [E1 E2]. now split.
Qed.

Lemma check_para_key_managers : forall sp r sp', check_para_key false sp = Ret (r, sp') -> same_managers sp sp'.
Proof.
  intros sp r sp' E. unfold check_para_key in E.
  destruct (para_keys _ _ _) as [[tm sp1]|] eqn:E1; [|discriminate]. apply para_keys_managers in E1.
  transitivity sp1; [exact E1|]. destruct tm; [injection E as <- <-; reflexivity|].
  destruct (Para_num sp1 =? 0); injection E as <- <-; [reflexivity|].
  apply (fold_left_pre same_managers). intros i s. unfold set_level.
  destruct (check_feature _ _); [destruct (level_field _ _)|]; now split.
Qed.

(** The keys are in order, with room for their managers. *)
Lemma keys_keyed : forall sp flag sp1, 0 <= Bnst_num sp <= BNST_MAX -> keys_before sp ->
  check_para_key false (set_Para_M_num 0 (set_Para_num 0 sp)) = Ret (flag, sp1) -> 0 < flag -> keyed sp1.
Proof.
  intros sp flag sp1 HB HI EK Hf.
  destruct (check_para_key_facts false (set_Para_M_num 0 (set_Para_num 0 sp)) flag sp1 (proj1 HB) eq_refl EK)
    as (F1 & F2 & F3 & _ & F5).
  split; [split; [|exact F5]|].
  - assert (Para_num sp1 <> PARA_MAX) by (intros H; apply F1 in H; unfold CONTINUE in H; lia).
    unfold PARA_MAX, PARA_PART_MAX in *. lia.
  - intros i Hi. destruct (F3 i Hi) as [H _]. cbn in H. split; [unfold BNST_MAX in *; lia | exact (HI _ _ EK i Hi)].
Qed.

Lemma coordination_managed : forall st o st', 0 <= Bnst_num (k_sp st) <= BNST_MAX -> keys_before (k_sp st) ->
  coordination match_matrix Quote_matrix qd st = Ret (o, st') -> managed (k_sp st').
Proof.
  intros [[sp restrict Para dp] rel chk found mask dm rev buf] o st' HB HI E.
  unfold k_sp in HB, HI. cbn [k_scope ss_sp] in HB, HI. unfold coordination in E.
  destruct (check_para_key _ _) as [[flag sp1]|] eqn:EK; [|discriminate].
  pose proof (check_para_key_managers _ _ _ EK) as [KM _]. cbn in KM.
  destruct (Z.ltb_spec 0 flag) as [Hf|Hf].
  - pose proof (keys_keyed sp flag sp1 HB HI EK Hf) as HK.
    destruct (detect_all_spec match_matrix qd (mkSS sp1 restrict (init_para_matrix sp1 Para) dp) HK)
      as [[sc [ES HR]]|[e [ES _]]]; rewrite ES in E; [|discriminate]. apply detect_all_only in ES.
    eapply para_rounds_managed; [| |exact E]; [exact HR|].
    apply no_managers. change (Para_M_num (ss_sp sc) = 0). rewrite (proj1 (only_scopes_managers _ _ ES)). exact KM.
  - injection E as _ <-. apply no_managers. exact KM.
Qed.
End Coordination.

(** ** The results *)
Lemma assign_last_tag_keeps : forall buf i fname sp sp' buf', assign_to_last_tag buf i fname sp = Ret (sp', buf') ->
  same_bnsts sp sp' /\ same_managers sp sp'.
Proof.
  intros buf i fname sp sp' buf' E. unfold assign_to_last_tag in E. destruct (_ <? 0); [discriminate|].
  destruct (assign_cfeature _ _ _ _). injection E as <- _. now split.
Qed.

Lemma assign_both_keeps : forall buf i name v tname sp sp' buf', feature_key buf (name ++ String colon v) = name ->
  unrelated name FOLLOW = true ->
  assign_to_bnst_and_tag buf i (name ++ String colon v) tname sp = Ret (sp', buf') ->
  keeps sp sp' /\ same_managers sp sp'.
Proof.
  intros buf i name v tname sp sp' buf' K U E. unfold assign_to_bnst_and_tag in E.
  pose proof (assign_keeps sp buf i name v K U) as H. destruct (assign_cfeature _ _ _ _) as [f b].
  apply assign_last_tag_keeps in E. destruct E as [E1 E2]. split; [|exact E2].
  transitivity (upd_bnst i (set_b_f f) sp); [exact H | now apply same_keeps].
Qed.

Definition result_frame (sp sp' : SENTENCE_DATA) : Prop := keeps sp sp' /\ same_managers sp sp'.

#[export] Instance result_frame_preorder : PreOrder result_frame.
Proof.
  split.
  - intros sp. split; reflexivity.
  - intros a b c [A1 A2] [B1 B2]. split; [now transitivity b | now transitivity b].
Qed.

Lemma para_postprocess_frame : forall sp buf sp' buf', para_postprocess sp buf = Ret (sp', buf') ->
  result_frame sp sp'.
Proof.
  intros sp buf sp' buf' E. change sp' with (fst (sp', buf')). change sp with (fst (sp, buf)).
  revert E. apply (fold_res_by result_frame fst). intros i [s b] [s' b'] E. cbn [fst].
  cbv zeta in E. case_hyp E; [|injection E as <- _; reflexivity].
  apply (assign_both_keeps b i "提題受" "30") in E; [exact E | reflexivity | reflexivity].
Qed.

(** The heads in the bunsetsus. *)
Lemma dpnd_info_at : forall dp sp, let sp' := dpnd_info_to_bnst false dp sp in
  result_frame sp sp' /\ Para_num sp' = Para_num sp /\ para_data sp' = para_data sp /\
  forall i, 0 <= i < Bnst_num sp -> b_dpnd_head (bnst_data sp' i) = head dp i.
Proof.
  intros dp sp sp'. subst sp'. unfold dpnd_info_to_bnst.
  set (u := fun i b => set_b_dpnd_dflt (dflt dp i) (set_b_dpnd_type
    (if negb false && ((type dp i =? chr "d") || (type dp i =? chr "R")) then chr "D" else type dp i)
    (set_b_dpnd_head (head dp i) b))).
  assert (H : forall n, 0 <= n -> let s := for_up 0 n (fun i sp => upd_bnst i (u i) sp) sp in
    result_frame sp s /\ Para_num s = Para_num sp /\ para_data s = para_data sp /\
    forall i, 0 <= i < n -> b_dpnd_head (bnst_data s i) = head dp i).
  { intros n Hn. apply (for_up_inv (fun n s => result_frame sp s /\ Para_num s = Para_num sp /\ para_data s = para_data sp /\
      forall i, 0 <= i < n -> b_dpnd_head (bnst_data s i) = head dp i)); [exact Hn| |].
    - split; [reflexivity|]. split; [reflexivity|]. split; [reflexivity|]. intros i Hi. lia.
    - intros i s Hi (F & P1 & P2 & P3). split.
      + transitivity s; [exact F|]. split; [now apply keeps_plain_upd | now split].
      + split; [exact P1|]. split; [exact P2|]. intros j Hj. rewrite upd_bnst_at.
        destruct (Z.eqb_spec j i) as [->|]; [reflexivity | apply P3; lia]. }
  destruct (Z_le_gt_dec 0 (Bnst_num sp)) as [Hn|Hn]; [exact (H _ Hn)|].
  rewrite for_up_empty by lia. split; [reflexivity|]. split; [reflexivity|]. split; [reflexivity|]. lia.
Qed.

(** ** The tree *)

(** The construction of the tree adds nodes behind the bunsetsus, and changes only links in them. *)
Record tree_frame (sp sp' : SENTENCE_DATA) : Prop := {
  tf_const : Bnst_num sp' = Bnst_num sp /\ Para_num sp' = Para_num sp /\ para_data sp' = para_data sp /\
             same_managers sp sp';
  tf_new : New_Bnst_num sp <= New_Bnst_num sp';
  tf_node : 0 <= New_Bnst_num sp -> forall i, 0 <= i < Bnst_num sp ->
    b_num (bnst_data sp' i) = b_num (bnst_data sp i) /\ b_f (bnst_data sp' i) = b_f (bnst_data sp i) /\
    b_dpnd_head (bnst_data sp' i) = b_dpnd_head (bnst_data sp i)
}.

#[export] Instance tree_frame_preorder : PreOrder tree_frame.
Proof.
  split.
  - intros sp. split; [repeat split | reflexivity | auto].
  - intros a b c [(A1 & A2 & A3 & A4) A5 A6] [(B1 & B2 & B3 & B4) B5 B6]. split.
    + split; [congruence|]. split; [congruence|]. split; [congruence|]. now transitivity b.
    + lia.
    + intros H i Hi. destruct (A6 H i Hi) as (-> & -> & ->) || destruct (A6 H i Hi) as (X & Y & Z0).
      destruct (B6 ltac:(lia) i ltac:(lia)) as (-> & -> & ->). auto.
Qed.

(** Updates that change links only. *)
Definition links_only (u : BNST_DATA -> BNST_DATA) : Prop :=
  forall b, b_num (u b) = b_num b /\ b_f (u b) = b_f b /\ b_dpnd_head (u b) = b_dpnd_head b.

Lemma tree_upd : forall sp i u, links_only u \/ Bnst_num sp <= i -> tree_frame sp (upd_bnst i u sp).
Proof.
  intros sp i u H. split; [repeat split | cbn; lia|].
  intros _ k Hk. rewrite upd_bnst_at. destruct (Z.eqb_spec k i) as [->|]; [|auto].
  destruct H as [H|H]; [apply H | lia].
Qed.

Ltac tree_links := apply tree_upd; left; intros ?; now repeat split.

Lemma t_add_frame : forall p c pos sp sp', t_add_node p c pos sp = Ret sp' -> tree_frame sp sp'.
Proof.
  intros p c pos sp sp' E. unfold t_add_node in E.
  repeat (case_hyp E; try discriminate); injection E as <-; try reflexivity; tree_links.
Qed.

Lemma t_attach_frame : forall p c pos sp sp', t_attach_node p c pos sp = Ret sp' -> tree_frame sp sp'.
Proof.
  intros p c pos sp sp' E. unfold t_attach_node in E. apply t_add_frame in E.
  transitivity (upd_bnst c (set_b_parent (Some p)) sp); [tree_links | exact E].
Qed.

Lemma t_del_frame : forall p c sp, tree_frame sp (t_del_node p c sp).
Proof.
  intros p c sp. unfold t_del_node.
  transitivity (upd_bnst p (fun b => set_b_child (remove_first c (b_child b)) b) sp); tree_links.
Qed.

Lemma move_children_frame : forall f p e new sp sp', move_children f p e new sp = Ret sp' -> tree_frame sp sp'.
Proof.
  induction f as [|f IH]; intros p e new sp sp' E; cbn [move_children] in E; [discriminate|].
  destruct (nth_error _ 1) as [c|]; [|injection E as <-; reflexivity].
  destruct (_ && _); [|injection E as <-; reflexivity].
  destruct (t_attach_node _ _ _ _) as [sp1|] eqn:E1; [|discriminate]. apply t_attach_frame in E1.
  transitivity (t_del_node e c sp); [apply t_del_frame|]. transitivity sp1; [exact E1 | now apply IH in E].
Qed.

Lemma mark_conjunct_frame : forall m i sp sp', mark_conjunct m i sp = Ret sp' -> tree_frame sp sp'.
Proof.
  intros m i sp sp' E. unfold mark_conjunct in E. destruct (_ <? 0); [discriminate|]. injection E as <-. tree_links.
Qed.

Lemma insert_para_frame : forall m sp ok sp', 0 <= New_Bnst_num sp -> insert_para m sp = Ret (ok, sp') -> tree_frame sp sp'.
Proof.
  intros m sp ok sp' HN E. unfold insert_para in E. destruct (_ <? 2); [discriminate|].
  set (sp1 := set_New_Bnst_num _ sp) in E.
  assert (F1 : tree_frame sp sp1) by (split; [repeat split | cbn; lia | auto]).
  destruct (BNST_MAX <? _); [injection E as _ <-; exact F1|].
  set (sp2 := if _ <? _ then _ else sp1) in E.
  assert (F2 : tree_frame sp1 sp2) by (unfold sp2; destruct (_ <? _); [split; [repeat split | cbn; lia | auto] | reflexivity]).
  assert (B2 : Bnst_num sp2 = Bnst_num sp) by (unfold sp2; destruct (_ <? _); reflexivity).
  destruct (_ <? 0); [discriminate|]. clearbody sp2. clearbody sp1.
  set (sp3 := upd_bnst _ _ sp2) in E.
  assert (F3 : tree_frame sp2 sp3) by (apply tree_upd; right; lia). clearbody sp3.
  destruct (t_attach_node _ _ _ sp3) as [sp4|] eqn:E4; [|discriminate]. apply t_attach_frame in E4.
  destruct (move_children _ _ _ _ sp4) as [sp5|] eqn:E5; [|discriminate]. apply move_children_frame in E5.
  set (sp6 := upd_bnst _ _ sp5) in E. assert (F6 : tree_frame sp5 sp6) by (unfold sp6; tree_links). clearbody sp6.
  set (sp7 := upd_bnst _ _ sp6) in E. assert (F7 : tree_frame sp6 sp7) by (unfold sp7; tree_links). clearbody sp7.
  destruct (for_res _ _ _ sp7) as [sp8|] eqn:E8; [|discriminate]. injection E as _ <-.
  assert (F8 : tree_frame sp7 sp8).
  { revert E8. apply (fold_res_pre tree_frame). intros. eapply mark_conjunct_frame; eauto. }
  transitivity sp1; [exact F1|]. transitivity sp2; [exact F2|]. transitivity sp3; [exact F3|].
  transitivity sp4; [exact E4|]. transitivity sp5; [exact E5|]. transitivity sp6; [exact F6|].
  now transitivity sp7.
Qed.

Lemma top_expand_frame : forall f i sp ok sp', 0 <= New_Bnst_num sp ->
  para_top_expand f i sp = Ret (ok, sp') -> tree_frame sp sp'.
Proof.
  induction f as [|f IH]; intros i sp ok sp' HN E; cbn [para_top_expand] in E; [discriminate|].
  destruct (fold_res _ _ _) as [[ok1 sp1]|] eqn:E1; [|discriminate].
  assert (F : tree_frame sp (snd (ok1, sp1))).
  { revert E1. apply (fold_res_inv (fun st => tree_frame sp (snd st))); [|reflexivity].
    intros c [o s] [o' s'] _ Hs Es. cbn [fst snd] in *. destruct o; [|now injection Es as _ <-].
    transitivity s; [exact Hs|]. eapply IH; [|exact Es]. pose proof (tf_new _ _ Hs). lia. }
  cbn [snd] in F. destruct ok1; [|now injection E as _ <-].
  transitivity sp1; [exact F|]. eapply insert_para_frame; [|exact E]. pose proof (tf_new _ _ F). lia.
Qed.

Lemma link_row_frame : forall mask buffer j st st', link_row mask buffer j st = Ret st' -> tree_frame (snd st) (snd st').
Proof.
  intros mask buffer j [pre sp] st' E. unfold link_row in E.
  destruct (fold_res _ _ _) as [s1|] eqn:E1; [|discriminate].
  assert (F : tree_frame sp (ls_sp s1)).
  { change sp with (ls_sp (mkLS pre [] false sp)). revert E1. apply (fold_res_by tree_frame ls_sp).
    intros i [cs pr done s] s' E1. unfold link_dependant in E1.
    repeat (case_hyp E1; try discriminate); injection E1 as <-; cbn [ls_sp]; try reflexivity; tree_links. }
  destruct (_ <=? _); [discriminate|]. injection E as <-. cbn [snd].
  transitivity (ls_sp s1); [exact F | tree_links].
Qed.

Lemma sort_children_frame : forall j sp, tree_frame sp (sort_children j sp).
Proof. intros j sp. unfold sort_children. destruct (_ <? 2); [reflexivity | tree_links]. Qed.

Lemma make_simple_tree_frame : forall mask sp sp', make_simple_tree mask sp = Ret sp' -> tree_frame sp sp'.
Proof.
  intros mask sp sp' E. unfold make_simple_tree in E.
  destruct (fold_res _ _ _) as [[pre sp1]|] eqn:E1; [|discriminate]. injection E as <-.
  transitivity sp1.
  - change sp with (snd (@nil Z, sp)). change sp1 with (snd (pre, sp1)). revert E1.
    apply (fold_res_by tree_frame snd). intros. eapply link_row_frame; eauto.
  - apply (fold_left_pre tree_frame). intros. apply sort_children_frame.
Qed.

Lemma init_tree_frame : forall sp, tree_frame sp (init_bnst_tree_property sp).
Proof.
  intros sp. unfold init_bnst_tree_property, for_up. generalize (zrange 0 BNST_MAX). intros l.
  apply (fold_left_pre tree_frame). intros. tree_links.
Qed.

#[local] Opaque init_bnst_tree_property.

(** Whatever its outcome. *)
Lemma make_dpnd_tree_frame : forall mask sp ok sp', make_dpnd_tree mask false sp = Ret (ok, sp') ->
  Bnst_num sp' = Bnst_num sp /\ Para_num sp' = Para_num sp /\ para_data sp' = para_data sp /\
  result_frame sp sp' /\
  forall i, 0 <= i < Bnst_num sp -> b_dpnd_head (bnst_data sp' i) = b_dpnd_head (bnst_data sp i).
Proof.
  intros mask sp ok sp' E. unfold make_dpnd_tree in E.
  pose proof (init_tree_frame sp) as F0.
  destruct (init_tree_at sp (init_bnst_tree_property sp) eq_refl) as [_ B].
  generalize dependent (init_bnst_tree_property sp). intros spi E F0 B.
  set (sp0 := set_New_Bnst_num 0 spi) in E.
  destruct (make_simple_tree mask sp0) as [sp1|] eqn:E1; [|discriminate]. apply make_simple_tree_frame in E1.
  destruct (fold_res _ _ _) as [[ok1 sp2]|] eqn:E2; [|discriminate].
  assert (F2 : tree_frame sp1 (snd (ok1, sp2))).
  { pose proof (tf_new _ _ E1) as HN. cbn in HN.
    revert E2. apply (fold_res_inv (fun st => tree_frame sp1 (snd st))); [|reflexivity].
    intros c [o s] [o' s'] _ Hs Es. cbn [fst snd] in *. destruct o; [|now injection Es as _ <-].
    transitivity s; [exact Hs|]. eapply top_expand_frame; [|exact Es]. pose proof (tf_new _ _ Hs). lia. }
  cbn [snd] in F2. assert (ES : sp2 = sp') by (destruct ok1; cbn [negb] in E; now injection E as _ <-). subst sp2.
  assert (F : tree_frame sp0 sp') by now transitivity sp1.
  destruct F as [(A1 & A2 & A3 & A4 & A5) _ A7]. specialize (A7 ltac:(reflexivity)).
  destruct F0 as [(B1 & B2 & B3 & B4 & B5) _ _].
  assert (N : forall i, 0 <= i < Bnst_num sp -> b_num (bnst_data sp' i) = b_num (bnst_data sp i) /\
    b_f (bnst_data sp' i) = b_f (bnst_data sp i) /\ b_dpnd_head (bnst_data sp' i) = b_dpnd_head (bnst_data sp i)).
  { intros i Hi. destruct (A7 i) as (-> & -> & ->); [change (0 <= i < Bnst_num spi); rewrite B1; exact Hi|].
    change (bnst_data sp0 i) with (bnst_data spi i). rewrite B. destruct (within 0 i BNST_MAX); repeat split. }
  assert (EB : Bnst_num sp' = Bnst_num sp) by (rewrite A1; exact B1).
  split; [exact EB|]. split; [rewrite A2; exact B2|]. split; [rewrite A3; exact B3|]. split.
  - split.
    + split; [exact EB | |]; intros i Hi; destruct (N i Hi) as (X & Y & _); [exact X | now rewrite Y].
    + split; [rewrite A4; exact B4 | rewrite A5; exact B5].
  - intros i Hi. apply (N i Hi).
Qed.
