(* ===== verification/Main.v ===== *)
(** * The analysis of one sentence (src/system/main.c, one_sentence_analysis)

    From the bunsetsus with their features to the dependency structure: the
    phases between [assign_dpnd_rule] and the label PARSED, composed as the
    program composes them, for Japanese text without annotations, with
    OPT_DPND and without -nbest.  The structures of tags and
    morphemes (TagDpnd.v, TagTree.v, MrphDpnd.v) come after it.  Left out: named entities, printing. *)
From Stdlib Require Import ZArith List Bool String Ascii Lia RelationClasses.
From Stdlib Require Import Floats.SpecFloat.
Import ListNotations.
From S2P Require Import Prelude CStr Feature Sentence SemCode CheckFunction Quote Regexp Koou.
From S2P Require Import ParaAnalysis ParaRelation ParaDpnd Tree Coord Dpnd Cky Similarity Frame.
Open Scope string_scope.
Open Scope Z_scope.

(** ** The coordinations of a given structure (para_analysis.c) *)

Definition TYPE_P : Z := chr "P".

(** The loop over [j] from [i - 1] down; the scope starts behind its last value. *)
Fixpoint left_end (sp : SENTENCE_DATA) (i : Z) (js : list Z) : Z :=
  match js with
  | [] => -1
  | j :: js' =>
      let b := bnst_data sp j in
      if (b_dpnd_head b <? i) || ((b_dpnd_head b =? i) && negb (b_dpnd_type b =? TYPE_P))
      then left_end sp i js' else j
  end.

Definition recover_key (i : Z) (sp : SENTENCE_DATA) : SENTENCE_DATA :=
  let n := Para_num sp in
  let sp := upd_bnst i (set_b_para_num n) sp in
  let h := b_dpnd_head (bnst_data sp i) in
  let s := left_end sp i (rev (zrange 0 i)) + 1 in
  set_Para_num (n + 1)
    (upd_para n (fun p => set_p_status (chr "n") (set_p_max_path (aset (p_max_path p) 0 s)
       (set_p_iend_pos i (set_p_jend_pos h (set_p_key_pos i p))))) sp).

(** The bunsetsus of the list, until there are too many keys. *)
Fixpoint recover_keys (is_ : list Z) (sp : SENTENCE_DATA) : SENTENCE_DATA :=
  match is_ with
  | [] => sp
  | i :: is_' =>
      if b_dpnd_type (bnst_data sp i) =? TYPE_P then
        if PARA_MAX <=? Para_num sp
        then fold_left (fun sp j => no_para_num j sp) (i :: is_') sp
        else recover_keys is_' (recover_key i sp)
      else recover_keys is_' (no_para_num i sp)
  end.

Definition para_recovery (OptParaFix : bool) (st : relation_state) : res (bool * relation_state) :=
  let '(mkRS sp rel restrict rev buf) := st in
  if OptParaFix then Ret (true, st)
  else
    let sp := recover_keys (zrange 0 (Bnst_num sp)) (set_Para_M_num 0 (set_Para_num 0 sp)) in
    detect_para_relation (mkRS sp rel restrict rev buf).

(** ** The global variables *)
Record options : Type := mkOpt {
  OptCKY : bool;
  OptParaFix : bool;
  OptCheck : bool;
  OptBeam : Z
}.

(** [g_co] holds the sentence, Mask_matrix and Dpnd_matrix; [g_garbage] is the
    uninitialised variable of [detect_dpnd_case_struct]. *)
Record parser_state : Type := mkPS {
  g_co : coord_state;
  g_match_matrix : matrix Z;
  g_quotes : chi_matrices;
  g_quote_data : QUOTE_DATA;
  g_koou : koou_tables;
  g_cky_matrix : matrix (list CKY);
  g_Best_mgr : TOTAL_MGR;
  g_garbage : DPND;
  g_available : bool
}.

Definition g_sp (st : parser_state) : SENTENCE_DATA := k_sp (g_co st).

(** [st] with another [g_co]. *)
Definition with_co (co : coord_state) (st : parser_state) : parser_state :=
  mkPS co (g_match_matrix st) (g_quotes st) (g_quote_data st) (g_koou st) (g_cky_matrix st) (g_Best_mgr st)
    (g_garbage st) (g_available st).

Definition Quote_matrix_of (ms : chi_matrices) : matrix Z := fst (fst ms).

(** [co] with another sentence and buffer. *)
Definition with_sp (sp : SENTENCE_DATA) (buf : string) (co : coord_state) : coord_state :=
  let '(mkCo (mkSS _ restrict Para dp) rel chk found mask dm rev _) := co in
  mkCo (mkSS sp restrict Para dp) rel chk found mask dm rev buf.

Definition with_dpnd (dm : matrix Z) (co : coord_state) : coord_state :=
  let '(mkCo sc rel chk found mask _ rev buf) := co in mkCo sc rel chk found mask dm rev buf.

Section Main.
Context `{FM : FeatureMatch} `{G : Grammar} `{WS : WordSim}.
Context (DpndRuleArray : list DpndRule) (KoouRuleArray : list KoouRule) (opt : options).

Local Abbreviation rules := DpndRuleArray.

(** ** Before the coordinations *)
Definition prepare (st : parser_state) : res parser_state :=
  let '(mkPS co mm qms qd kt ck best garbage av) := st in
  sp <- assign_dpnd_rule rules (k_sp co) ;;
  dm <- calc_dpnd_matrix rules sp (k_dpnd co) ;;
  ' (_, kt, dm) <- koou sp false KoouRuleArray kt dm ;;
  ' (_, qd, qms) <- quote false false false sp qd qms ;;
  let '(_, dm) := relax_dpnd_matrix sp (Quote_matrix_of qms) dm in
  Ret (mkPS (with_dpnd dm (with_sp sp (k_buffer co) co)) mm qms qd kt ck best garbage av).

(** ** The coordinations

    [calc_match_matrix] only runs when there are keys; what it reads of the
    sentence is not changed by [check_para_key]. *)
Definition coordinate (st : parser_state) : res (outcome * parser_state) :=
  let '(mkPS co mm qms qd kt ck best garbage av) := st in
  ' (flag, sp) <- check_para_key false (set_Para_M_num 0 (set_Para_num 0 (k_sp co))) ;;
  mm <- (if 0 <? flag then calc_match_matrix sp (OptParaFix opt) mm else Ret mm) ;;
  ' (o, co) <- coordination mm (Quote_matrix_of qms) qd co ;;
  Ret (o, mkPS co mm qms qd kt ck best garbage av).

Definition postprocess (co : coord_state) : res coord_state :=
  ' (sp, buf) <- para_postprocess (k_sp co) (k_buffer co) ;; Ret (with_sp sp buf co).

(** ** The structure *)

(** [dpnd_info_to_bnst] and [para_recovery]. *)
Definition store_structure (d : DPND) (co : coord_state) : res coord_state :=
  let '(mkCo (mkSS sp restrict Para dp) rel chk found mask dm rev buf) := co in
  ' (_, rs) <- para_recovery (OptParaFix opt) (mkRS (dpnd_info_to_bnst false d sp) rel restrict rev buf) ;;
  let '(mkRS sp rel restrict rev buf) := rs in
  Ret (mkCo (mkSS sp restrict Para dp) rel chk found mask dm rev buf).

Definition tree_of (co : coord_state) : res (bool * coord_state) :=
  ' (ok, sp) <- make_dpnd_tree (k_mask co) false (k_sp co) ;;
  Ret (ok, with_sp sp (k_buffer co) co).

(** [cky]: the result is FALSE without a parse.  Of the only structure the tree is made. *)
Definition run_cky (st : parser_state) : res (bool * parser_state) :=
  let '(mkPS co mm qms qd kt ck best garbage av) := st in
  rs <- cky rules (k_sp co) (k_mask co) (Quote_matrix_of qms) (k_dpnd co) (Para_matrix (k_scope co))
          (OptParaFix opt) false (OptBeam opt) ck (tm_dpnd best) ;;
  match rs with
  | Some ((d, score) :: _) =>
      co <- store_structure d co ;;
      ' (_, co) <- tree_of co ;;
      Ret (true, mkPS co mm qms qd kt ck (mkTM d score (tm_ID best) (Possibility best) (dpndID best)) garbage av)
  | _ =>
      let best := mkTM (cky_init (k_sp co) (tm_dpnd best)) (tm_score best) (tm_ID best) (Possibility best) (dpndID best) in
      Ret (false, mkPS co mm qms qd kt ck best garbage av)
  end.

(** [detect_dpnd_case_struct] with [after_decide_dpnd]. *)
Definition run_search (st : parser_state) : res (bool * parser_state) :=
  let '(mkPS co mm qms qd kt ck best garbage av) := st in
  best <- detect_dpnd_struct rules (k_sp co) (k_mask co) (Quote_matrix_of qms) (k_dpnd co) garbage best ;;
  if Possibility best =? 0 then Ret (false, mkPS co mm qms qd kt ck best garbage av)
  else
    ' (ok, co) <- tree_of (with_sp (dpnd_info_to_bnst false (tm_dpnd best) (k_sp co)) (k_buffer co) co) ;;
    Ret (ok, mkPS co mm qms qd kt ck best garbage av).

(** The structure, every bunsetsu to the next one if there is none, and the candidates. *)
Definition find_structure (st : parser_state) : res parser_state :=
  ' (ok, st) <- (if OptCKY opt then run_cky st else run_search st) ;;
  let '(mkPS co mm qms qd kt ck best garbage av) := st in
  if negb ok then
    Ret (mkPS co mm qms qd kt ck (when_no_dpnd_struct (k_sp co) best) garbage false)
  else if OptCheck opt then
    ' (sp, buf) <- check_candidates (tm_dpnd best) (k_sp co) (k_buffer co) ;;
    Ret (mkPS (with_sp sp buf co) mm qms qd kt ck best garbage av)
  else Ret st.

(** ** The sentence *)
Definition one_sentence_analysis (st : parser_state) : res parser_state :=
  st <- prepare st ;;
  ' (_, st) <- coordinate st ;;
  co <- postprocess (g_co st) ;;
  st <- find_structure (with_co co st) ;;
  co <- store_structure (tm_dpnd (g_Best_mgr st)) (g_co st) ;;
  Ret (with_co co st).

(** The tree that is printed. *)
Definition sentence_tree (st : parser_state) : res (bool * SENTENCE_DATA) :=
  make_dpnd_tree (k_mask (g_co st)) false (g_sp st).
End Main.

(** * Properties *)
#[local] Opaque init_bnst_tree_property.

(** ** The recovery of the coordinations *)
Lemma recover_keys_keeps : forall l sp, keeps sp (recover_keys l sp).
Proof.
  induction l as [|i l IH]; intros sp; cbn [recover_keys]; [reflexivity|].
  destruct (_ =? TYPE_P); [destruct (PARA_MAX <=? _)|].
  - apply (fold_left_pre keeps). intros. apply no_para_num_keeps.
  - transitivity (recover_key i sp); [|apply IH]. unfold recover_key.
    transitivity (upd_bnst i (set_b_para_num (Para_num sp)) sp); [now apply keeps_plain_upd | now apply same_keeps].
  - transitivity (no_para_num i sp); [apply no_para_num_keeps | apply IH].
Qed.

Lemma para_recovery_keeps : forall fix_ st ok st', para_recovery fix_ st = Ret (ok, st') -> keeps (rs_sp st) (rs_sp st').
Proof.
  intros fix_ [sp rel restrict rev buf] ok st' E. unfold para_recovery in E.
  destruct fix_; [injection E as _ <-; reflexivity|]. apply detect_relation_keeps in E. cbn [rs_sp] in *.
  transitivity (set_Para_M_num 0 (set_Para_num 0 sp)); [now apply same_keeps|].
  etransitivity; [apply recover_keys_keeps | exact E].
Qed.

(** The heads are not changed by what follows the choice of the structure. *)
Definition same_heads (sp sp' : SENTENCE_DATA) : Prop :=
  forall i, 0 <= i < Bnst_num sp -> b_dpnd_head (bnst_data sp' i) = b_dpnd_head (bnst_data sp i).

Definition heads_frame (sp sp' : SENTENCE_DATA) : Prop := Bnst_num sp' = Bnst_num sp /\ same_heads sp sp'.

#[export] Instance heads_frame_preorder : PreOrder heads_frame.
Proof.
  split.
  - intros sp. split; [reflexivity | intros i _; reflexivity].
  - intros a b c [A1 A2] [B1 B2]. split; [congruence|]. intros i Hi. rewrite B2, A2; auto. lia.
Qed.

Lemma heads_upd : forall sp i u, (forall b, b_dpnd_head (u b) = b_dpnd_head b) -> heads_frame sp (upd_bnst i u sp).
Proof.
  intros sp i u H. split; [reflexivity|]. intros k _. rewrite upd_bnst_at.
  destruct (Z.eqb_spec k i) as [->|]; auto.
Qed.

Lemma heads_same : forall sp sp', same_bnsts sp sp' -> heads_frame sp sp'.
Proof. intros sp sp' [H1 H2]. split; [exact H1|]. intros i _. now rewrite H2. Qed.

Lemma recover_key_heads : forall i sp, heads_frame sp (recover_key i sp).
Proof.
  intros i sp. unfold recover_key.
  transitivity (upd_bnst i (set_b_para_num (Para_num sp)) sp); [now apply heads_upd | now apply heads_same].
Qed.

Lemma recover_keys_heads : forall l sp, heads_frame sp (recover_keys l sp).
Proof.
  induction l as [|i l IH]; intros sp; cbn [recover_keys]; [reflexivity|].
  destruct (_ =? TYPE_P); [destruct (PARA_MAX <=? _)|].
  - apply (fold_left_pre heads_frame). intros. now apply heads_upd.
  - transitivity (recover_key i sp); [apply recover_key_heads | apply IH].
  - transitivity (no_para_num i sp); [now apply heads_upd | apply IH].
Qed.

Lemma conjuncts_heads : forall sp buf, heads_frame sp (fst (conjuncts_to_features sp buf)).
Proof.
  intros sp buf. unfold conjuncts_to_features, for_up. apply (fold_left_by heads_frame fst _ _ (sp, buf)).
  intros i st. apply (fold_left_by heads_frame fst). intros j s. unfold assign_conjunct.
  apply (fold_left_by heads_frame fst). intros fname [s' b]. cbn [fst].
  destruct (assign_cfeature _ _ _ _) as [f b']. now apply heads_upd.
Qed.

Lemma detect_relation_heads : forall st ok st', detect_para_relation st = Ret (ok, st') ->
  heads_frame (rs_sp st) (rs_sp st').
Proof. apply (detect_relation_pre heads_frame); [apply heads_same | apply conjuncts_heads]. Qed.

Lemma para_recovery_heads : forall fix_ st ok st', para_recovery fix_ st = Ret (ok, st') ->
  heads_frame (rs_sp st) (rs_sp st').
Proof.
  intros fix_ [sp rel restrict rev buf] ok st' E. unfold para_recovery in E.
  destruct fix_; [injection E as _ <-; reflexivity|]. apply detect_relation_heads in E. cbn [rs_sp] in *.
  transitivity (set_Para_M_num 0 (set_Para_num 0 sp)); [now apply heads_same|].
  etransitivity; [apply recover_keys_heads | exact E].
Qed.

(** ** The structures *)

(** Every bunsetsu but the last depends on a later one. *)
Definition right_heads (n : Z) (h : array Z) : Prop :=
  h (n - 1) = -1 /\ forall i, 0 <= i < n - 1 -> i < h i < n.

(** No dependencies cross. *)
Definition projective (n : Z) (h : array Z) : Prop :=
  forall p q, 0 <= p < q -> q < n - 1 -> q < h p -> h q <= h p.

Definition unfollowing (sp : SENTENCE_DATA) : Prop :=
  forall p, 0 <= p < Bnst_num sp -> check_feature (b_f (bnst_data sp p)) FOLLOW = None.

Lemma following_keeps : forall sp sp', keeps sp sp' -> following_left sp -> following_left sp'.
Proof. intros sp sp' [K1 _ K3] H p cp h Hp. rewrite K1 in Hp. change "係:無格従属" with FOLLOW. rewrite K3 by exact Hp. now apply H. Qed.

Lemma unfollowing_left : forall sp, unfollowing sp -> following_left sp.
Proof. intros sp H p cp h Hp E. change "係:無格従属" with FOLLOW in E. now rewrite (H p Hp) in E. Qed.

Lemma unfollowing_keeps : forall sp sp', keeps sp sp' -> unfollowing sp -> unfollowing sp'.
Proof. intros sp sp' [K1 _ K3] H p Hp. rewrite K1 in Hp. rewrite K3; auto. Qed.

Lemma keep_first_left : forall i js m, no_left m -> no_left (keep_first i js m).
Proof.
  intros i js m H. unfold keep_first. apply (fold_left_inv _ (fun st => no_left (snd st))); [|exact H].
  intros j [c mm] _ Hm. cbn [snd] in Hm. destruct (negb _); [|exact Hm]. cbn [snd].
  destruct (0 <? c); [apply no_left_mset; [apply zero_right | exact Hm] | exact Hm].
Qed.

Section Structures.
Context `{FM : FeatureMatch} (rules : list DpndRule) (sp : SENTENCE_DATA).
Context (Mask_matrix Quote_matrix Dpnd_matrix : matrix Z).
Hypothesis bnst_pos : 0 < Bnst_num sp.
Hypothesis left : following_left sp.

Lemma cky_heads : forall Pm fix_ nbest beam M d d' sc rs, no_left Dpnd_matrix ->
  cky rules sp Mask_matrix Quote_matrix Dpnd_matrix Pm fix_ nbest beam M d = Ret (Some ((d', sc) :: rs)) ->
  right_heads (Bnst_num sp) (head d') /\ (fix_ = true -> unfollowing sp -> projective (Bnst_num sp) (head d')).
Proof.
  intros Pm fix_ nbest beam M d d' sc rs HL E. unfold cky in E.
  destruct (restrict_end_prefer_dependency _ _ _) as [dm|] eqn:ED; [|discriminate].
  assert (L1 : no_left dm).
  { revert ED. apply (fold_res_inv no_left).
    - intros i m m' _ Hm E1. destruct (rule_of rules sp i) as [r|]; [|discriminate]. injection E1 as <-.
      destruct (_ =? -1); [now apply keep_first_left | exact Hm].
    - apply no_left_for; [|exact HL]. intros i m Hm. destruct (bnst_has _ _ _); [now apply keep_first_left | exact Hm]. }
  assert (L2 : no_left (if fix_ then dm else handle_incomplete_coordination sp Mask_matrix dm)).
  { destruct fix_; [exact L1|]. apply no_left_for; [|exact L1]. intros i m Hm. apply no_left_for; [|exact Hm].
    intros j m1 H1. destruct (_ && _); [apply no_left_mset; [vm_compute; discriminate | exact H1] | exact H1]. }
  split.
  - destruct (parsed_right _ _ _ _ _ _ _ _ _ _ _ _ _ bnst_pos L2 left E d' sc (or_introl eq_refl)) as (E1 & E2). now split.
  - intros HF NF. apply parsed_structures in E; [|exact bnst_pos | exact L2 | intros p Hp; apply NF; lia].
    destruct E as [E _]. destruct (E d' sc (or_introl eq_refl)) as (_ & _ & E3). exact (E3 HF).
Qed.

Lemma search_heads : forall g t t',
  detect_dpnd_struct rules sp Mask_matrix Quote_matrix Dpnd_matrix g t = Ret t' -> Possibility t' <> 0 ->
  right_heads (Bnst_num sp) (head (tm_dpnd t')).
Proof.
  intros g t t' E HP. apply best_structure in E. destruct E as [_ [[E _]|[E _]]]; [easy|].
  apply found_structures in E; [|exact bnst_pos |].
  - split; [apply E | intros i Hi; apply (so_head _ _ _ _ _ E i Hi)].
  - intros p cp Hp _ EF. apply (left p cp); [lia | exact EF].
Qed.

Lemma no_struct_heads : forall t, let h := head (tm_dpnd (when_no_dpnd_struct sp t)) in
  right_heads (Bnst_num sp) h /\ projective (Bnst_num sp) h.
Proof.
  intros t h.
  assert (H : h (Bnst_num sp - 1) = -1 /\ forall i, 0 <= i < Bnst_num sp - 1 -> h i = i + 1).
  { subst h. cbn [when_no_dpnd_struct tm_dpnd]. set (n := Bnst_num sp) in *.
    pose (P k (d : DPND) := head d (n - 1) = -1 /\ forall i, k <= i < n - 1 -> head d i = i + 1).
    apply (for_down_inv P); [lia | |].
    - split; [apply aset_eq | intros i Hi; lia].
    - intros i d Hi [P1 P2]. unfold P, one_candidate, upd_check, set_arc. cbn [head set_head set_type set_check]. split.
      + rewrite aset_ne by lia. exact P1.
      + intros j Hj. unfold aset. destruct (Z.eqb_spec j i) as [->|]; [reflexivity | apply P2; lia]. }
  destruct H as [H1 H2]. split; [split; [exact H1|]|].
  - intros i Hi. rewrite H2 by exact Hi. lia.
  - intros p q Hp Hq. rewrite !H2 by lia. lia.
Qed.
End Structures.

(** ** The phases *)
Section Phases.
Context `{FM : FeatureMatch} `{G : Grammar} `{WS : WordSim}.
Context (rules : list DpndRule) (krules : list KoouRule) (opt : options) (sp0 : SENTENCE_DATA).
Hypothesis bnst_pos : 0 < Bnst_num sp0.
Hypothesis left : following_left sp0.
Hypothesis dpnd_right : rules_right rules.

(** The sentence of the input, and no dependency to the left. *)
Record in_phase (co : coord_state) : Prop := {
  ip_keeps : keeps sp0 (k_sp co);
  ip_left : no_left (k_dpnd co)
}.

Lemma with_sp_at : forall sp buf co, k_sp (with_sp sp buf co) = sp /\ k_dpnd (with_sp sp buf co) = k_dpnd co /\
  k_mask (with_sp sp buf co) = k_mask co.
Proof. intros sp buf [[s r P d] rel chk found mask dm rev b]. repeat split. Qed.

Lemma in_phase_with : forall co sp buf, in_phase co -> keeps (k_sp co) sp -> in_phase (with_sp sp buf co).
Proof.
  intros co sp buf [K L] H. destruct (with_sp_at sp buf co) as (E1 & E2 & _). split; [rewrite E1 | rewrite E2; exact L].
  now transitivity (k_sp co).
Qed.

Lemma prepare_phase : forall st st', koou_right krules (g_koou st) -> in_phase (g_co st) ->
  prepare rules krules st = Ret st' -> in_phase (g_co st') /\ koou_right krules (g_koou st').
Proof.
  intros [co mm qms qd kt ck best garbage av] st' HK HP E. cbn [g_co g_koou] in *. unfold prepare in E.
  destruct (assign_dpnd_rule _ _) as [sp|] eqn:E1; [|discriminate]. apply assign_rule_keeps in E1.
  destruct (calc_dpnd_matrix _ _ _) as [dm|] eqn:E2; [|discriminate].
  apply (calc_dpnd_right _ _ _ _ dpnd_right) in E2; [|apply HP].
  destruct (koou _ _ _ _ _) as [[[f kt'] dm']|] eqn:E3; [|discriminate]. apply (koou_right_ok _ _ _ _ _ _ _ HK) in E3; [|exact E2]. destruct E3 as [E3 HK'].
  destruct (quote _ _ _ _ _ _) as [[[q qd'] qms']|]; [|discriminate].
  pose proof (relax_right sp (Quote_matrix_of qms') dm' E3) as H. destruct (relax_dpnd_matrix _ _ _) as [b dm''].
  injection E as <-. cbn [g_co g_koou]. split; [|exact HK'].
  pose proof (in_phase_with co sp (k_buffer co) HP E1) as [K _].
  destruct (with_sp sp (k_buffer co) co) as [sc rel chk found mask d0 rev buf]. split; [exact K | exact H].
Qed.

Lemma coordinate_phase : forall st o st', in_phase (g_co st) -> coordinate opt st = Ret (o, st') -> in_phase (g_co st') /\ g_koou st' = g_koou st.
Proof.
  intros [co mm qms qd kt ck best garbage av] o st' [K L] E. cbn [g_co] in *. unfold coordinate in E.
  destruct (check_para_key _ _) as [[flag sp]|]; [|discriminate]. destruct (if 0 <? flag then _ else _) as [mm'|]; [|discriminate].
  destruct (coordination _ _ _ _) as [[o' co']|] eqn:EC; [|discriminate]. apply coordination_frame in EC. destruct EC as [EC1 EC2].
  injection E as _ <-. cbn [g_co g_koou]. split; [split; [now transitivity (k_sp co) | auto] | reflexivity].
Qed.

Lemma postprocess_phase : forall co co', in_phase co -> postprocess co = Ret co' -> in_phase co'.
Proof.
  intros co co' HP E. unfold postprocess in E.
  destruct (para_postprocess _ _) as [[sp buf]|] eqn:E1; [|discriminate]. injection E as <-.
  apply in_phase_with; [exact HP | apply (para_postprocess_frame _ _ _ _ E1)].
Qed.

Lemma store_frame : forall d co co', store_structure opt d co = Ret co' ->
  keeps (k_sp co) (k_sp co') /\ k_dpnd co' = k_dpnd co /\
  forall i, 0 <= i < Bnst_num (k_sp co) -> b_dpnd_head (bnst_data (k_sp co') i) = head d i.
Proof.
  intros d [[sp restrict Para dp] rel chk found mask dm rev buf] co' E. unfold store_structure in E.
  destruct (dpnd_info_at d sp) as ((K1 & _) & _ & _ & H1).
  destruct (para_recovery _ _) as [[ok rs]|] eqn:E1; [|discriminate].
  pose proof (para_recovery_keeps _ _ _ _ E1) as K2. destruct (para_recovery_heads _ _ _ _ E1) as [_ H2].
  destruct rs as [sp' rel' restrict' rev' buf']. cbn [rs_sp] in *. injection E as <-.
  unfold k_sp. cbn [k_scope ss_sp k_dpnd]. split; [now transitivity (dpnd_info_to_bnst false d sp)|]. split; [reflexivity|].
  intros i Hi. rewrite H2; [now apply H1 | now rewrite (ke_bnst _ _ K1)].
Qed.

Lemma tree_of_frame : forall co ok co', tree_of co = Ret (ok, co') ->
  result_frame (k_sp co) (k_sp co') /\ k_dpnd co' = k_dpnd co.
Proof.
  intros co ok co' E. unfold tree_of in E. destruct (make_dpnd_tree _ _ _) as [[b sp]|] eqn:E1; [|discriminate].
  apply make_dpnd_tree_frame in E1. injection E as _ <-. destruct (with_sp_at sp (k_buffer co) co) as (-> & -> & _).
  split; [apply E1 | reflexivity].
Qed.

(** The structure that is found. *)
Definition found_ok (h : array Z) : Prop :=
  right_heads (Bnst_num sp0) h /\
  (OptCKY opt = true -> OptParaFix opt = true -> unfollowing sp0 -> projective (Bnst_num sp0) h).

Lemma run_cky_phase : forall st ok st', in_phase (g_co st) -> run_cky rules opt st = Ret (ok, st') ->
  in_phase (g_co st') /\ g_koou st' = g_koou st /\ (ok = true -> found_ok (head (tm_dpnd (g_Best_mgr st')))).
Proof.
  intros [co mm qms qd kt ck best garbage av] ok st' [K L] E. cbn [g_co] in *. unfold run_cky in E.
  destruct (cky _ _ _ _ _ _ _ _ _ _ _) as [rs|] eqn:EC; [|discriminate].
  destruct rs as [[|[d sc] rs]|]; try (injection E as <- <-; split; [now split | split; [reflexivity | discriminate]]).
  apply cky_heads in EC; [| rewrite (ke_bnst _ _ K); exact bnst_pos | now apply (following_keeps sp0) | exact L].
  rewrite (ke_bnst _ _ K) in EC.
  destruct (store_structure opt d co) as [co1|] eqn:E1; [|discriminate]. apply store_frame in E1. destruct E1 as (K1 & D1 & _).
  destruct (tree_of co1) as [[b co2]|] eqn:E2; [|discriminate]. apply tree_of_frame in E2. destruct E2 as ([K2 _] & D2).
  injection E as <- <-. cbn [g_co g_Best_mgr tm_dpnd]. split.
  - split; [|now rewrite D2, D1]. transitivity (k_sp co); [exact K|]. now transitivity (k_sp co1).
  - split; [reflexivity|]. intros _. destruct EC as [C1 C2]. split; [exact C1|]. intros _ HF NF. apply C2; [exact HF | now apply (unfollowing_keeps sp0)].
Qed.

Lemma run_search_phase : forall st ok st', in_phase (g_co st) -> run_search rules st = Ret (ok, st') ->
  in_phase (g_co st') /\ g_koou st' = g_koou st /\ (ok = true -> right_heads (Bnst_num sp0) (head (tm_dpnd (g_Best_mgr st')))).
Proof.
  intros [co mm qms qd kt ck best garbage av] ok st' HP E. destruct HP as [K L]. cbn [g_co] in *. unfold run_search in E.
  destruct (detect_dpnd_struct _ _ _ _ _ _ _) as [best'|] eqn:ED; [|discriminate].
  destruct (Z.eqb_spec (Possibility best') 0) as [HZ|HZ].
  { injection E as <- <-. split; [now split | split; [reflexivity | discriminate]]. }
  apply search_heads in ED; [| rewrite (ke_bnst _ _ K); exact bnst_pos | now apply (following_keeps sp0) | exact HZ].
  rewrite (ke_bnst _ _ K) in ED.
  set (co1 := with_sp _ _ co) in E. assert (HP1 : in_phase co1).
  { apply in_phase_with; [now split|]. apply (dpnd_info_at (tm_dpnd best') (k_sp co)). }
  destruct (tree_of co1) as [[b co2]|] eqn:E2; [|discriminate]. apply tree_of_frame in E2. destruct E2 as ([K2 _] & D2).
  injection E as <- <-. cbn [g_co g_koou g_Best_mgr]. split; [|split; [reflexivity | auto]].
  destruct HP1 as [A1 A2]. split; [now transitivity (k_sp co1) | now rewrite D2].
Qed.

Lemma candidates_keeps : forall b2t dp is_ sp buf sp' buf',
  check_candidates_go b2t dp is_ sp buf = Ret (sp', buf') -> result_frame sp sp'.
Proof.
  intros b2t dp. induction is_ as [|i is_ IH]; intros sp buf sp' buf' E; cbn [check_candidates_go] in E;
    [injection E as <- _; reflexivity|].
  destruct (_ =? -1); [now apply IH in E|].
  destruct (candidate_texts _ _ _ _) as [[b t]|] eqn:ET; [|injection E as <- _; reflexivity].
  destruct (assign_to_bnst_and_tag _ _ _ _ _) as [[sp1 buf1]|] eqn:EA; [|discriminate].
  transitivity sp1; [|now apply IH in E].
  assert (T : forall ps b0 t0 b1 t1, candidate_texts b2t ps b0 t0 = Some (b1, t1) ->
    (exists v, b0 = "候補" ++ String colon v) -> exists v, b1 = "候補" ++ String colon v).
  { induction ps as [|p ps IHp]; intros b0 t0 b1 t1 H HV; cbn [candidate_texts] in H; [injection H as <- _; exact HV|].
    destruct (_ <=? _); [discriminate|]. apply IHp in H; [exact H|]. destruct HV as [v ->].
    exists (v ++ ":" ++ itoa p)%string. now rewrite sapp_assoc. }
  assert (B : b = "候補" \/ exists v, b = "候補" ++ String colon v).
  { destruct (map _ _) as [|p ps]; cbn [candidate_texts] in ET; [injection ET as <- _; now left|]. right.
    destruct (_ <=? _); [discriminate|]. apply T in ET; [exact ET|]. now exists (itoa p). }
  unfold assign_to_bnst_and_tag in EA.
  assert (F : forall f b', assign_cfeature buf (b_f (bnst_data sp i)) b false = (f, b') -> keeps sp (upd_bnst i (set_b_f f) sp)).
  { intros f b' H. apply keeps_upd; [reflexivity|]. cbn [b_f set_b_f]. unfold assign_cfeature in H. injection H as <- _.
    assert (C : comp_feature b "候補" = true) by (destruct B as [->|[v ->]]; [reflexivity | apply comp_feature_column]).
    assert (KY : feature_key buf b = "候補") by (destruct B as [->|[v ->]]; reflexivity).
    rewrite KY. apply assign_walk_frame; [|intros cp _ Hc]; now apply (unrelated_comp _ "候補"). }
  destruct (assign_cfeature _ _ _ _) as [f b']. specialize (F f b' eq_refl). apply assign_last_tag_keeps in EA.
  destruct EA as [E1 E2]. split; [|exact E2]. transitivity (upd_bnst i (set_b_f f) sp); [exact F | now apply same_keeps].
Qed.

Lemma find_phase : forall st st', in_phase (g_co st) -> find_structure rules opt st = Ret st' ->
  in_phase (g_co st') /\ g_koou st' = g_koou st /\ found_ok (head (tm_dpnd (g_Best_mgr st'))).
Proof.
  intros st st' HP E. unfold find_structure in E.
  destruct (if OptCKY opt then _ else _) as [[ok st1]|] eqn:ER; [|discriminate].
  assert (R : in_phase (g_co st1) /\ g_koou st1 = g_koou st /\ (ok = true -> found_ok (head (tm_dpnd (g_Best_mgr st1))))).
  { destruct (OptCKY opt) eqn:EO; [now apply run_cky_phase in ER|].
    apply run_search_phase in ER; [|exact HP]. destruct ER as (R1 & RK & R2). split; [exact R1|]. split; [exact RK|].
    intros H. split; [auto | rewrite EO; discriminate]. }
  destruct R as (R1 & RK & R2). destruct st1 as [co mm qms qd kt ck best garbage av]. cbn [g_co g_koou g_Best_mgr] in *.
  destruct ok; cbn [negb] in E.
  - specialize (R2 eq_refl). destruct (OptCheck opt); [|injection E as <-; auto].
    destruct (check_candidates _ _ _) as [[sp buf]|] eqn:EC; [|discriminate]. injection E as <-. cbn [g_co g_koou g_Best_mgr].
    split; [|split; [exact RK | exact R2]]. apply in_phase_with; [exact R1|]. apply (candidates_keeps _ _ _ _ _ _ _ EC).
  - injection E as <-. cbn [g_co g_koou g_Best_mgr]. split; [exact R1|]. split; [exact RK|].
    pose proof (no_struct_heads (k_sp co) ltac:(rewrite (ke_bnst _ _ (ip_keeps _ R1)); exact bnst_pos) best) as H.
    rewrite (ke_bnst _ _ (ip_keeps _ R1)) in H. split; [apply H | intros _ _ _; apply H].
Qed.

(** The phases up to the choice of the structure, and the stored result. *)
Lemma analysis_phases : forall st st', koou_right krules (g_koou st) -> in_phase (g_co st) ->
  one_sentence_analysis rules krules opt st = Ret st' ->
  exists st1 o st2 co st3 co4,
    prepare rules krules st = Ret st1 /\ coordinate opt st1 = Ret (o, st2) /\ postprocess (g_co st2) = Ret co /\
    find_structure rules opt (with_co co st2) = Ret st3 /\
    store_structure opt (tm_dpnd (g_Best_mgr st3)) (g_co st3) = Ret co4 /\ st' = with_co co4 st3 /\
    in_phase (g_co st1) /\ in_phase (g_co st2) /\ in_phase co /\ in_phase (g_co st3) /\ koou_right krules (g_koou st3) /\
    found_ok (head (tm_dpnd (g_Best_mgr st3))).
Proof.
  intros st st' HK HP E. unfold one_sentence_analysis in E.
  destruct (prepare _ _ _) as [st1|] eqn:E1; [|discriminate]. destruct (prepare_phase _ _ HK HP E1) as [P1 K1].
  destruct (coordinate _ _) as [[o st2]|] eqn:E2; [|discriminate]. destruct (coordinate_phase _ _ _ P1 E2) as [P2 K2].
  destruct (postprocess _) as [co|] eqn:E3; [|discriminate]. pose proof (postprocess_phase _ _ P2 E3) as P3.
  destruct (find_structure _ _ _) as [st3|] eqn:E4; [|discriminate].
  destruct (find_phase (with_co co st2) st3 P3 E4) as (P4 & K3 & F4). cbn [g_koou with_co] in K3. rewrite <- K2, <- K3 in K1.
  destruct (store_structure _ _ _) as [co4|] eqn:E5; [|discriminate]. injection E as <-.
  exists st1, o, st2, co, st3, co4. repeat (split; [first [reflexivity | assumption]|]). exact F4.
Qed.

Lemma analysis_heads : forall st st', koou_right krules (g_koou st) -> in_phase (g_co st) ->
  one_sentence_analysis rules krules opt st = Ret st' ->
  in_phase (g_co st') /\ koou_right krules (g_koou st') /\ found_ok (fun i => b_dpnd_head (bnst_data (g_sp st') i)).
Proof.
  intros st st' HK HP E.
  destruct (analysis_phases st st' HK HP E) as (st1 & o & st2 & co & st3 & co4 & _ & _ & _ & _ & E5 & -> & _ & _ & _ & P4 & KR & F).
  apply store_frame in E5. destruct E5 as (K5 & D5 & H5). change (g_sp (with_co co4 st3)) with (k_sp co4).
  rewrite (ke_bnst _ _ (ip_keeps _ P4)) in H5.
  split; [split; [transitivity (k_sp (g_co st3)); [apply P4 | exact K5] | cbn [g_co with_co]; rewrite D5; apply P4]|]. split; [exact KR|].
  destruct F as [[F1 F2] F3]. split.
  - split; [rewrite H5 by lia; exact F1|]. intros i Hi. rewrite H5 by lia. now apply F2.
  - intros C1 C2 C3 p q Hp Hq. rewrite !H5 by lia. exact (F3 C1 C2 C3 p q Hp Hq).
Qed.
End Phases.

(** C1: When the analysis of a sentence returns, every bunsetsu but the last depends on a later one and the last one on none - also when
    the coordinations could not be made consistent, the search found nothing or the chart had no parse.  This is for rules
    whose dependencies go to the right ([rules_right], [koou_right]: no type L in the dependency rules, the rules of Koou or the matrices left by the
    sentence before), a condition that the analysis of the sentence keeps for the next one, and for sentences in which a
    bunsetsu that follows another one (係:無格従属) names one before it, inside the sentence ([following_left]).  With the
    chart parser and fixed coordinations (the defaults), and if no bunsetsu follows another one, no dependencies cross. *)
Theorem analysis_right_headed : forall (FM : FeatureMatch) (G : Grammar) (WS : WordSim) rules krules opt st st',
  let n := Bnst_num (g_sp st) in
  let dpnd_head i := b_dpnd_head (bnst_data (g_sp st') i) in
  0 < n -> following_left (g_sp st) -> rules_right rules -> koou_right krules (g_koou st) ->
  no_left (k_dpnd (g_co st)) ->
  one_sentence_analysis rules krules opt st = Ret st' ->
  Bnst_num (g_sp st') = n /\
  (forall i, 0 <= i < n - 1 -> i < dpnd_head i < n) /\ dpnd_head (n - 1) = -1 /\
  koou_right krules (g_koou st') /\ no_left (k_dpnd (g_co st')) /\
  (OptCKY opt = true -> OptParaFix opt = true -> unfollowing (g_sp st) ->
   forall p q, 0 <= p < q -> q < n - 1 -> q < dpnd_head p -> dpnd_head q <= dpnd_head p).
Proof.
  intros FM G WS rules krules opt st st' n dpnd_head Hn HF HR HK HL E.
  destruct (analysis_heads rules krules opt (g_sp st) Hn HF HR st st' HK) as [[K L] [KR [[F1 F2] F3]]];
    [split; [reflexivity | exact HL] | exact E|].
  split; [apply K|]. split; [exact F2|]. split; [exact F1|]. split; [exact KR|]. split; [exact L | exact F3].
Qed.

(** ** The tree of the result *)

(** The keys in the text, with offsets to the left. *)
Definition key_offsets (sp : SENTENCE_DATA) : Prop := forall i cp, 0 <= i < Bnst_num sp ->
  check_feature (b_f (bnst_data sp i)) "並キ" = Some cp ->
  atoi (sdrop (Z.to_nat BYTES4CHAR) (fst (key_fields cp))) <= 0.

(** What [para_keys] preserves: the features, and searches that start at or before the keys. *)
Lemma para_keys_before : forall l sp tm sp',
  (forall i cp, In i l -> check_feature (b_f (bnst_data sp i)) "並キ" = Some cp ->
     atoi (sdrop (Z.to_nat BYTES4CHAR) (fst (key_fields cp))) <= 0) ->
  0 <= Para_num sp ->
  (forall k, 0 <= k < Para_num sp -> p_iend_pos (para_data sp k) <= p_key_pos (para_data sp k)) ->
  para_keys false l sp = Ret (tm, sp') ->
  forall k, 0 <= k < Para_num sp' -> p_iend_pos (para_data sp' k) <= p_key_pos (para_data sp' k).
Proof.
  induction l as [|i l IH]; intros sp tm sp' HO HN HB E; cbn [para_keys negb orb] in E; [injection E as <- <-; exact HB|].
  assert (SK : forall cp sp1, check_feature (b_f (bnst_data sp i)) "並キ" = Some cp -> set_para_key sp i cp = Ret sp1 ->
    0 <= Para_num sp1 /\ (forall j, b_f (bnst_data sp1 j) = b_f (bnst_data sp j)) /\
    forall k, 0 <= k < Para_num sp1 -> p_iend_pos (para_data sp1 k) <= p_key_pos (para_data sp1 k)).
  { intros cp sp1 EC E1. specialize (HO i cp (or_introl eq_refl) EC). unfold set_para_key in E1.
    destruct (key_fields cp) as [type condition]. cbn [fst] in HO. destruct (_ || _); [discriminate|].
    destruct (_ <? _); [discriminate|]. destruct (string2feature_pattern condition) as [fp|]; [|discriminate].
    injection E1 as <-. cbn [Para_num set_Para_num]. split; [lia|]. split.
    - intros j. cbn [bnst_data set_Para_num upd_para set_para_data]. rewrite upd_bnst_at.
      destruct (Z.eqb_spec j i) as [->|]; reflexivity.
    - intros k Hk. cbn [para_data set_Para_num]. rewrite upd_para_at. destruct (Z.eqb_spec k (Para_num sp)) as [->|].
      + cbn [p_iend_pos p_key_pos set_p_f_pattern set_p_iend_pos set_p_type set_p_key_pos set_p_para_char].
        destruct (str_eq _ _); [lia | change (i + atoi (sdrop (Z.to_nat BYTES4CHAR) type) <= i); lia].
      + apply HB. lia. }
  destruct (check_feature (b_f (bnst_data sp i)) "並キ") as [cp|] eqn:EC.
  - destruct (set_para_key sp i cp) as [sp1|] eqn:E1; [|discriminate]. destruct (SK cp sp1 eq_refl E1) as (S1 & S2 & S3).
    destruct (PARA_MAX <=? _).
    + injection E as _ <-. set (P s := Para_num s = Para_num sp1 /\ para_data s = para_data sp1).
      assert (F : P (fold_left (fun sp j => no_para_num j sp) l sp1)).
      { apply (fold_left_inv _ P); [intros x s _ H; exact H | now split]. }
      destruct F as [-> ->]. exact S3.
    + apply (IH sp1 tm sp'); auto. intros j cp' Hj. rewrite S2. apply HO. now right.
  - apply (IH (no_para_num i sp) tm sp'); auto. intros j cp' Hj. unfold no_para_num. rewrite upd_bnst_at.
    destruct (Z.eqb_spec j i) as [->|]; apply HO; now right.
Qed.

Lemma offsets_before : forall sp, key_offsets sp -> keys_before sp.
Proof.
  intros sp HO flag sp1 E. unfold check_para_key in E.
  destruct (para_keys _ _ _) as [[tm sp2]|] eqn:EK; [|discriminate].
  assert (B : forall k, 0 <= k < Para_num sp2 -> p_iend_pos (para_data sp2 k) <= p_key_pos (para_data sp2 k)).
  { apply (para_keys_before _ _ _ _) with (4 := EK); [|cbn; lia | cbn; intros; lia].
    intros i cp Hi. apply in_zrange in Hi. apply HO. exact Hi. }
  destruct tm; [injection E as _ <-; exact B|]. destruct (Para_num sp2 =? 0); [injection E as _ <-; exact B|].
  injection E as _ <-. destruct (set_levels_same (Bnst_num sp2) sp2) as (E1 & E2 & _). rewrite E1, E2. exact B.
Qed.

(** The rules change neither the features nor the number of the bunsetsus. *)
Lemma assign_rule_features : forall (FM : FeatureMatch) rules sp sp', assign_dpnd_rule rules sp = Ret sp' ->
  Bnst_num sp' = Bnst_num sp /\ forall i, b_f (bnst_data sp' i) = b_f (bnst_data sp i).
Proof.
  intros FM rules sp sp'. unfold assign_dpnd_rule, for_res.
  apply (fold_res_inv (fun s => Bnst_num s = Bnst_num sp /\ forall i, b_f (bnst_data s i) = b_f (bnst_data sp i))); [|auto].
  intros i s s' _ [H1 H2] E. unfold assign_rule_step in E.
  destruct (find_dpnd_rule _ _ _ _) as [[k|]|]; [|destruct (b_dpnd_rule _)|discriminate]; injection E as <-; auto;
    (split; [exact H1|]); intros j; rewrite upd_bnst_at; destruct (Z.eqb_spec j i) as [->|]; apply H2.
Qed.

Lemma offsets_transport : forall sp sp', Bnst_num sp' = Bnst_num sp ->
  (forall i, b_f (bnst_data sp' i) = b_f (bnst_data sp i)) -> key_offsets sp -> key_offsets sp'.
Proof. intros sp sp' H1 H2 H i cp. rewrite H1, H2. apply H. Qed.

Section FixedCoordinations.
Context `{FM : FeatureMatch} `{G : Grammar} `{WS : WordSim}.
Context (rules : list DpndRule) (krules : list KoouRule) (opt : options).
Hypothesis fixed : OptParaFix opt = true.

Lemma prepare_features : forall st st', prepare rules krules st = Ret st' ->
  Bnst_num (g_sp st') = Bnst_num (g_sp st) /\ forall i, b_f (bnst_data (g_sp st') i) = b_f (bnst_data (g_sp st) i).
Proof.
  intros [co mm qms qd kt ck best garbage av] st' E. unfold prepare in E.
  destruct (assign_dpnd_rule _ _) as [sp|] eqn:E1; [|discriminate]. apply assign_rule_features in E1.
  destruct (calc_dpnd_matrix _ _ _) as [dm|]; [|discriminate].
  destruct (koou _ _ _ _ _) as [[[f kt'] dm']|]; [|discriminate].
  destruct (quote _ _ _ _ _ _) as [[[q qd'] qms']|]; [|discriminate].
  destruct (relax_dpnd_matrix _ _ _) as [b dm'']. injection E as <-. unfold g_sp. cbn [g_co].
  destruct co as [[s r P d] rel chk found mask d0 rev b0]. exact E1.
Qed.

(** With fixed coordinations their managers stay as [coordination] has left them. *)
Lemma store_managers : forall d co co', store_structure opt d co = Ret co' -> same_managers (k_sp co) (k_sp co').
Proof.
  intros d [[sp restrict Para dp] rel chk found mask dm rev buf] co' E. unfold store_structure, para_recovery in E.
  rewrite fixed in E. injection E as <-. apply (dpnd_info_at d sp).
Qed.

Lemma find_managers : forall st st', find_structure rules opt st = Ret st' -> same_managers (g_sp st) (g_sp st').
Proof.
  intros st st' E. unfold find_structure in E.
  destruct (if OptCKY opt then _ else _) as [[ok st1]|] eqn:ER; [|discriminate].
  assert (R : same_managers (g_sp st) (g_sp st1)).
  { destruct st as [co mm qms qd kt ck best garbage av]. destruct (OptCKY opt).
    - unfold run_cky in ER. destruct (cky _ _ _ _ _ _ _ _ _ _ _) as [rs|]; [|discriminate].
      destruct rs as [[|[d sc] rs]|]; try (injection ER as _ <-; reflexivity).
      destruct (store_structure _ _ _) as [co1|] eqn:E1; [|discriminate]. apply store_managers in E1.
      destruct (tree_of co1) as [[b co2]|] eqn:E2; [|discriminate]. apply tree_of_frame in E2. destruct E2 as [[_ E2] _].
      injection ER as _ <-. now transitivity (k_sp co1).
    - unfold run_search in ER. destruct (detect_dpnd_struct _ _ _ _ _ _ _) as [best'|]; [|discriminate].
      destruct (_ =? 0); [injection ER as _ <-; reflexivity|]. set (co1 := with_sp _ _ co) in ER.
      destruct (tree_of co1) as [[b co2]|] eqn:E2; [|discriminate]. apply tree_of_frame in E2. destruct E2 as [[_ E2] _].
      injection ER as _ <-. transitivity (k_sp co1); [|exact E2]. unfold co1. rewrite (proj1 (with_sp_at _ _ _)).
      apply (dpnd_info_at (tm_dpnd best') (k_sp co)). }
  transitivity (g_sp st1); [exact R|]. destruct st1 as [co mm qms qd kt ck best garbage av].
  destruct (negb ok); [injection E as <-; reflexivity|].
  destruct (OptCheck opt); [|injection E as <-; reflexivity].
  destruct (check_candidates _ _ _) as [[sp buf]|] eqn:EC; [|discriminate]. injection E as <-.
  unfold g_sp. cbn [g_co]. rewrite (proj1 (with_sp_at _ _ _)). apply (candidates_keeps _ _ _ _ _ _ _ EC).
Qed.

Lemma coordinate_managed : forall st o st', 0 <= Bnst_num (g_sp st) <= BNST_MAX -> keys_before (g_sp st) ->
  coordinate opt st = Ret (o, st') -> managed (g_sp st').
Proof.
  intros [co mm qms qd kt ck best garbage av] o st' HB HK E. unfold coordinate in E.
  destruct (check_para_key _ _) as [[flag sp]|]; [|discriminate]. destruct (if 0 <? flag then _ else _) as [mm'|]; [|discriminate].
  destruct (coordination _ _ _ _) as [[o' co']|] eqn:EC; [|discriminate]. injection E as _ <-.
  exact (coordination_managed _ _ _ _ _ _ HB HK EC).
Qed.
End FixedCoordinations.

(** What the managers of a result give the tree. *)
Lemma managed_input : forall Mask_matrix sp, 0 < Bnst_num sp -> Bnst_num sp + Para_M_num sp <= BNST_MAX ->
  (forall i, 0 <= i < Bnst_num sp -> b_num (bnst_data sp i) = i) -> heads_right sp -> managed sp ->
  (forall m k, 0 <= m < Para_M_num sp -> 0 <= k < pm_part_num (para_manager sp m) -> pm_end (para_manager sp m) k < Bnst_num sp) ->
  (forall j, 0 <= j < Bnst_num sp -> zlen (dependants (head_buffer Mask_matrix sp) j) + Para_M_num sp < PARA_PART_MAX) ->
  tree_input Mask_matrix sp.
Proof.
  intros Mask_matrix sp H1 H2 H3 H4 [M1 M2 M3 M4 M5] H5 H6. split; auto; [lia|].
  intros m Hm. split; [auto|]. split.
  - intros k Hk. specialize (H5 m k Hm Hk). destruct (M5 m k Hm Hk). lia.
  - intros k Hk. apply (M5 m k Hm); lia.
Qed.

(** C2: With fixed coordinations (OptParaFix) the bunsetsus of the result and at most one inserted node for each coordination form
    one tree whose root is the last bunsetsu, also when the coordinations or the structure had to be given up, and [make_dpnd_tree] gives
    it with TRUE.  The conditions on the input are those of C1, numbered bunsetsus and coordination keys whose offset in the text is not
    to the right; those on the result are that the coordinations end inside the sentence, that the bunsetsus and the
    coordinations fit the table of bunsetsus, and that no bunsetsu with the inserted nodes has more children than its table.  Without
    them the conversion need not give a tree (see [simple_tree_drops] of Tree.v for the room). *)
Theorem analysis_tree : forall (FM : FeatureMatch) (G : Grammar) (WS : WordSim) rules krules opt st st',
  let n := Bnst_num (g_sp st) in
  let sp := g_sp st' in
  0 < n <= BNST_MAX -> following_left (g_sp st) -> rules_right rules -> koou_right krules (g_koou st) ->
  no_left (k_dpnd (g_co st)) -> OptParaFix opt = true ->
  (forall i, 0 <= i < n -> b_num (bnst_data (g_sp st) i) = i) -> key_offsets (g_sp st) ->
  one_sentence_analysis rules krules opt st = Ret st' ->
  (forall m k, 0 <= m < Para_M_num sp -> 0 <= k < pm_part_num (para_manager sp m) -> pm_end (para_manager sp m) k < n) ->
  n + Para_M_num sp <= BNST_MAX ->
  (forall j, 0 <= j < n -> zlen (dependants (head_buffer (k_mask (g_co st')) sp) j) + Para_M_num sp < PARA_PART_MAX) ->
  exists sp', sentence_tree st' = Ret (true, sp') /\ 0 <= New_Bnst_num sp' <= Para_M_num sp /\
    tree (n + New_Bnst_num sp') (n - 1) (child_of sp') (parent_of sp').
Proof.
  intros FM G WS rules krules opt st st' n sp Hn HF HR HK HL HP HB HO E HE HM HT.
  assert (IP : in_phase (g_sp st) (g_co st)) by (split; [reflexivity | exact HL]).
  destruct (analysis_heads rules krules opt (g_sp st) (proj1 Hn) HF HR st st' HK IP E) as [[K _] [_ [[_ F2] _]]].
  destruct (analysis_phases rules krules opt (g_sp st) (proj1 Hn) HF HR st st' HK IP E)
    as (st1 & o & st2 & co & st3 & co4 & E1 & E2 & E3 & E4 & E5 & ES & _ & _ & _ & _ & _ & _).
  apply prepare_features in E1. destruct E1 as [B1 B2].
  apply coordinate_managed in E2; [|rewrite B1; fold n; lia | apply offsets_before; now apply (offsets_transport (g_sp st))].
  unfold postprocess in E3. destruct (para_postprocess _ _) as [[sp3 buf]|] eqn:E3'; [|discriminate].
  apply para_postprocess_frame in E3'. injection E3 as <-.
  apply (find_managers _ _ HP) in E4. apply (store_managers _ HP) in E5.
  assert (M : managed sp).
  { apply (managed_same (g_sp st2)); [|exact E2]. unfold sp. rewrite ES. transitivity (g_sp st3); [|exact E5].
    transitivity sp3; [apply E3'|]. revert E4. unfold g_sp. cbn [g_co with_co]. now rewrite (proj1 (with_sp_at _ _ _)). }
  destruct K as [K1 K2 _]. change (k_sp (g_co st')) with sp in K1, K2. fold n in K1.
  destruct (make_dpnd_tree_grown (k_mask (g_co st')) sp) as (sp' & E' & GR & N).
  { apply managed_input; rewrite ?K1; auto; [apply Hn| |intros i Hi; rewrite K1 in Hi |- *; now apply F2].
    intros i Hi. rewrite K2 by exact Hi. now apply HB. }
  exists sp'. split; [exact E'|]. destruct GR. rewrite K1 in *. auto.
Qed.

(** ** An example: リンゴと ミカンを 買う, with a coordination of the first two bunsetsus *)
#[local] Transparent init_bnst_tree_property.

Definition main_sentence : SENTENCE_DATA :=
  set_mrph_data (fun i => nth (Z.to_nat i) [mrph_of "リンゴ" 6 []; mrph_of "ミカンゴ" 6 []; mrph_of "買う" 2 []] MRPH_DATA_0)
    (set_bnst_data (fun i => nth (Z.to_nat i)
       [set_b_num 0 (sim_bnst 0 ["体言"; "並キ:名:体言"; "係:未格"]); set_b_num 1 (sim_bnst 1 ["体言"; "係:ヲ格"]);
        set_b_num 2 (sim_bnst 2 ["用言"; "係:文末"; "文末"])] BNST_DATA_0)
       (set_Bnst_num 3 (set_Mrph_num 3 SENTENCE_DATA_0))).

Definition main_state : parser_state :=
  mkPS (mkCo (mkSS main_sentence (fun _ _ => 1) (fun _ _ _ => S754_zero false) dp0)
          (fun _ _ => 0) (fun _ => false) (fun _ => false) (fun _ _ => 1) (fun _ _ => 0) (-1) EmptyString)
    (fun _ _ => 0) (fun _ _ => 1, fun _ _ => 1, fun _ _ => 1) (mkQD (fun _ => -1) (fun _ => -1))
    (mkKT (fun _ => false) (fun _ _ => 0) (fun _ _ => 0)) (fun _ _ => [])
    (mkTM empty_dpnd 0 0 0 0) empty_dpnd true.

Abbreviation main_result := (@one_sentence_analysis plain_match example_grammar no_sim example_rules []
  (mkOpt true true false 0) main_state).

Lemma example_rules_right : rules_right example_rules.
Proof.
  intros r fr t Hr. cbn in Hr. repeat destruct Hr as [<-|Hr]; [..|destruct Hr];
    intros [[= _ <-]|[]]; vm_compute; discriminate.
Qed.

Lemma main_state_ok : 0 < Bnst_num (g_sp main_state) <= BNST_MAX /\ unfollowing (g_sp main_state) /\
  koou_right [] (g_koou main_state) /\ no_left (k_dpnd (g_co main_state)) /\
  (forall i, 0 <= i < Bnst_num (g_sp main_state) -> b_num (bnst_data (g_sp main_state) i) = i) /\
  key_offsets (g_sp main_state).
Proof.
  assert (C : forall P : Z -> Prop, P 0 -> P 1 -> P 2 -> forall i, 0 <= i < Bnst_num (g_sp main_state) -> P i).
  { intros P P0 P1 P2 i Hi. change (Bnst_num (g_sp main_state)) with 3 in Hi.
    assert (i = 0 \/ i = 1 \/ i = 2) as [-> | [-> | ->]] by lia; assumption. }
  split; [vm_compute; split; [reflexivity | discriminate]|]. split; [refine (C (fun i => check_feature _ FOLLOW = None) _ _ _); vm_compute; reflexivity|].
  split; [split; [intros r [] | intros x y; vm_compute; discriminate]|]. split; [intros x y; vm_compute; discriminate|].
  split; [refine (C (fun i => b_num _ = i) _ _ _); vm_compute; reflexivity|].
  intros i cp Hi. revert i Hi cp. refine (C (fun i => forall cp, check_feature _ _ = Some cp -> _) _ _ _);
    intros cp E; vm_compute in E; try discriminate E. injection E as <-. vm_compute. discriminate.
Qed.

Lemma analysis_right_headed_witness : exists st', main_result = Ret st' /\
  b_dpnd_type (bnst_data (g_sp st') 0) = TYPE_P /\ 0 < b_dpnd_head (bnst_data (g_sp st') 0) < 3.
Proof.
  assert (H : match main_result with
    | Ret st' => b_dpnd_type (bnst_data (g_sp st') 0) = TYPE_P
    | Err _ => False
    end) by (vm_compute; reflexivity).
  destruct main_result as [st'|] eqn:E; [|elim H]. exists st'. split; [reflexivity|]. split; [exact H|].
  destruct main_state_ok as ([P _] & U & K & L & _).
  destruct (analysis_right_headed plain_match example_grammar no_sim example_rules [] (mkOpt true true false 0)
    main_state st' P (unfollowing_left _ U) example_rules_right K L E) as (_ & R & _).
  apply (R 0). split; reflexivity || discriminate.
Defined.

Lemma analysis_tree_witness : exists st' sp', main_result = Ret st' /\ sentence_tree st' = Ret (true, sp') /\
  New_Bnst_num sp' = 1 /\ tree 4 2 (child_of sp') (parent_of sp').
Proof.
  assert (V : match main_result with
    | Ret st' => let sp := g_sp st' in
        Para_M_num sp = 1 /\ pm_part_num (para_manager sp 0) = 2 /\ map (pm_end (para_manager sp 0)) [0; 1] = [0; 1] /\
        map (fun j => zlen (dependants (head_buffer (k_mask (g_co st')) sp) j)) [0; 1; 2] = [0; 1; 1] /\
        match sentence_tree st' with Ret (_, sp') => New_Bnst_num sp' = 1 | Err _ => False end
    | Err _ => False
    end) by (vm_compute; repeat split).
  destruct main_result as [st'|] eqn:E; [|elim V]. destruct V as (V1 & V2 & V3 & V4 & V5).
  destruct main_state_ok as (P1 & P2 & P3 & P4 & P5 & P6).
  destruct (analysis_tree plain_match example_grammar no_sim example_rules [] (mkOpt true true false 0)
    main_state st' P1 (unfollowing_left _ P2) example_rules_right P3 P4 eq_refl P5 P6 E) as (sp' & R & _ & T).
  - rewrite V1. intros m k Hm Hk. assert (m = 0) as -> by lia. rewrite V2 in Hk. injection V3 as W0 W1.
    change (Bnst_num (g_sp main_state)) with 3. assert (k = 0 \/ k = 1) as [-> | ->] by lia; lia.
  - rewrite V1. vm_compute. discriminate.
  - rewrite V1. change (Bnst_num (g_sp main_state)) with 3. injection V4 as W1 W2. intros j Hj.
    assert (j = 0 \/ j = 1 \/ j = 2) as [-> | [-> | ->]] by lia; [reflexivity | unfold PARA_PART_MAX; lia..].
  - rewrite R in V5. rewrite V5 in T. exists st', sp'.
    split; [reflexivity|]. split; [exact R|]. split; [exact V5|exact T].
Defined.
